(* ===== verification/_CoqProject ===== *)
-Q . S2P
Prelude.v
Strings.v
StringsCorrect.v
IntrusiveList.v
MemRange.v
Buddy.v
BuddyBlocks.v
BuddyCorrect.v
BuddyOps.v
PageAlloc.v
Heap.v
HeapCorrect.v
PallocInit.v
Vma.v
VmaCorrect.v
VmaOps.v
VmaGap.v
VmaTheorems.v
RbTree.v
RbTreeShape.v
RbTreeInsert.v
RbTreeErase.v
RbTreeRemove.v
RbTreeTheorems.v
Timeline.v
Scheduler.v
SchedulerQueue.v
SchedulerPlace.v
SchedulerOps.v
SchedulerSteps.v
SchedulerTheorems.v
Vm.v
VmSpace.v
VmMap.v
VmAlloc.v
VmFrames.v
VmAccess.v
VmCopy.v
VmCow.v
VmFork.v
VmFree.v
VmForkCorrect.v
UserSpace.v
VmExample.v
VmTheorems.v
Pipe.v
PipeRing.v
PipeSteps.v
PipeTheorems.v
PipeExample.v
Dma.v
Virtqueue.v
VirtqueueInv.v
VirtqueueSystem.v
VirtqueueTheorems.v
Wait.v
WaitInv.v
WaitSystem.v
WaitSteps.v
WaitTheorems.v
Sleeplock.v
Workqueue.v
Elf.v
ElfCorrect.v
ElfPlace.v
Signal.v
SignalInv.v
SignalTargets.v
SignalOps.v
SignalSteps.v
SignalTheorems.v
SignalKill.v
Ktime.v
Loadavg.v
Futex.v
FutexSystem.v
FutexSteps.v
FutexTheorems.v
SignalFrame.v
SignalFrameCorrect.v
