(* ===== verification/Prelude.v ===== *)
(** * Caffeinix: a verification of its kernel

    Caffeinix is a Unix-like kernel for RISC-V, written in C.  This development
    translates its memory management, scheduler, synchronisation, pipes, signals,
    program images and device queues into Rocq functions, loop by loop, and
    proves what each part promises to the parts above it.

    ** The parts and how they build on each other

    - Physical memory.  [memrange] collects the usable ranges; the [buddy]
      allocator hands out blocks of pages; [palloc] counts references to pages
      and carves the kernel heap out of them.
    - Virtual memory.  Page tables map pages of [palloc]; a set of areas ([vma])
      says what a process may map where; user memory is read and written through
      the page tables.
    - Threads.  Red-black trees order the runnable threads; the scheduler picks
      one per CPU; wait queues put threads to sleep and wake them; sleeping locks,
      deferred work, futexes, pipes and signals are built on wait queues.
    - Programs.  The ELF checks decide which images are acceptable, and placing
      one asks the areas for free address space.
    - Devices.  DMA mappings translate buffers through the kernel page table, and
      virtqueues hand them to a device.

    ** Files, components and their source

    A file [X] holds the code (data as Records and Inductive types with the
    fields and constructors of the source, one definition per function, helpers
    for loops); [XInv], [XOps], [XCorrect] and the like hold invariants and
    lemmas; [XSystem] and [XSteps] a step relation and its invariant;
    [XTheorems] the properties, with runs at concrete inputs here or in
    [XExample].

    - Prelude: machine integers, outcomes, array accesses, shared lemmas.
    - IntrusiveList: kernel/include/list.h.
    - MemRange: kernel/memrange.c.
    - Buddy, BuddyBlocks, BuddyCorrect, BuddyOps: kernel/buddy.c, refined to maps
      of blocks.
    - PageAlloc, Heap, HeapCorrect, PallocInit: kernel/palloc.c.
    - Vma, VmaCorrect, VmaOps, VmaGap, VmaTheorems: kernel/vma.c,
      refined to maps from addresses to attributes.
    - RbTree to RbTreeTheorems: kernel/rbtree.c, refined to sequences.
    - Timeline, Scheduler to SchedulerTheorems: kernel/scheduler.c and the parts
      of kernel/thread.c and kernel/spinlock.c it uses.
    - Vm to VmForkCorrect, UserSpace, VmExample, VmTheorems:
      arch/riscv/vm.c, arch/riscv/vm_layout.c and the address spaces of
      kernel/process.c, over any allocator of page frames ([Frames]); VmFrames
      shows that kernel/palloc.c is one.
    - Pipe to PipeExample: kernel/fs/pipe.c over any user memory ([UserMemory]);
      PipeExample shows that arch/riscv/vm.c provides it.
    - Dma, Virtqueue to VirtqueueTheorems: drivers/dma/mapping.c and
      drivers/virtio/ring.c.
    - Strings, StringsCorrect: kernel/string.c.
    - Wait to WaitTheorems: kernel/wait.c; WaitTheorems also shows that the
      scheduler does to thread states what wait queues assume.
    - Elf, ElfCorrect, ElfPlace: kernel/elf.c and [elf_image_place] of
      kernel/exec.c, over the areas of Vma.
    - Signal (the code), SignalInv, SignalTargets, SignalOps, SignalSteps,
      SignalTheorems: kernel/signal.c; SignalKill: the senders of kernel/process.c;
      SignalFrame, SignalFrameCorrect: the frames on the user stack,
      over any memory that can be read back, which arch/riscv/vm.c provides.
    - Sleeplock: kernel/sleeplock.c over the wait queues.
    - Workqueue: kernel/workqueue.c over the wait queues, refined to a queue of
      works of which one runs at a time.
    - Loadavg: the arithmetic of kernel/loadavg.c.
    - Ktime: kernel/ktime.c and kernel/timeconv.c.
    - Futex to FutexTheorems: kernel/futex.c over the wait queues.

    ** How C is modelled

    A w-bit integer is a [Z] with its wrap-around written out.  A call returns
    [Ret], stops the kernel ([Panic]) or does what C leaves undefined ([Fault]):
    a null dereference, an index outside its array, a free list that is no list.
    Code under one lock is one step; calls that sleep are cut where they release
    their locks, and the steps of all parties interleave in any order.  Circular
    lists are the sequences they represent, except in IntrusiveList, which
    justifies that, and in RbTree, which keeps nodes in a store.  Allocation that
    may fail is an oracle argument, so every error path is covered.

    A loop that is not structural takes fuel, and running out of it is [Fault], so
    a theorem that concludes [Ret] shows that the loop ends.  The fuel is what
    the data bounds: the nodes of the store plus two for tree loops, the ranges,
    pages or areas left for searches, the bytes left plus one for copies, 64 for
    loops over a signal set, the sleepers of a queue plus one for wake-ups, the
    bytes of memory plus one for loops over strings.

    ** What the theorems show

    - Memory: the buddy allocator keeps disjoint, aligned, coalesced blocks and an
      exact count; reference counts match owners; [malloc] returns fresh disjoint
      memory; page tables, areas, copy-on-write and [fork] implement maps, keep the
      books of every frame and fail without a trace or with the outcome stated.
    - Scheduling: trees stay red-black and represent their sequence; no reachable
      state panics, loses a thread or runs it twice; queue and counters agree.
    - Synchronisation: pipes deliver bytes in order and lose no wake-up; sleeps see
      every signal sent and request to exit; futex slots are counted exactly and a wake
      takes the first matching waiters; virtqueue requests come back once; sleeping
      locks exclude each other and lose no wake-up; deferred work runs in order.
    - Byte strings: [memmove] is right for every overlap, [qsort] is a stable sort,
      the other functions compute what their names say.
    - Signals: pending sets implement one queue per signal; no signal that a thread
      can take is stranded; taking one removes exactly it; sends wake, SIGCONT and stops exclude each other, the
      senders respect credentials; a handler's frame restores every register.
    - Images: an accepted ELF image has ordered, page-congruent segments, none both
      writable and executable, and is placed in free, aligned address space.
    - Findings: a failing [malloc] of an oversized block keeps a page; the failure
      path of [vm_copy] panics when the signal page is mapped; reading the signal
      page from the kernel does not end; killed futex waiters leak their slot; the
      conversion of ticks wraps in the last second; a SIGKILL in the window of a
      stop is held back; [strncpy] overruns its destination when the source is too
      long; a thread made to exit while it waits for a sleeping lock keeps the
      locks it has.

    ** Not modelled

    - Processes beyond address spaces and signals ([fork], [wait], sessions,
      credentials), [mmap] calls, page cache and page faults: the fault handler is
      a parameter of the copy routines, so their theorems hold for any handler.
    - The file systems, sockets and the network stack, and the vendored libraries
      below them: only pipes are taken from the file layer.
    - Drivers, traps, timers, interrupts, boot and assembly: they act on registers
      and firmware; the queues and mappings that drivers use are modelled.
    - The rest of [exec], robust futex lists, the console, random numbers and memory
      barriers.
    - The reuse of a [struct thread] after its thread is gone, for the owners of
      sleeping locks.
    - Memory ordering: a section under a lock is atomic, and the atomic accesses of
      the source are steps. *)
From Stdlib Require Export ZArith Lia.
From stdpp Require Export base numbers list list_numbers strings gmap sorting.

#[global] Open Scope Z_scope.

(** ** Shared vocabulary

    Machine integers, the outcome monad that models C control flow, checked
    array accesses and the list and arithmetic lemmas the components share. *)

(** ** Machine integers

    An unsigned integer of [w] bits is a [Z] in [0, 2^w).  An operation that C
    performs modulo 2^w is followed by the matching [wrap]. *)

Definition wrap64 (x : Z) : Z := x mod 2 ^ 64.
Definition wrap32 (x : Z) : Z := x mod 2 ^ 32.
Definition is_u64 (x : Z) : Prop := 0 <= x < 2 ^ 64.
Definition is_u32 (x : Z) : Prop := 0 <= x < 2 ^ 32.
Definition UINT64_MAX : Z := 2 ^ 64 - 1.
Definition UINT32_MAX : Z := 2 ^ 32 - 1.

Declare Scope cint_scope.
Delimit Scope cint_scope with cint.
Notation "x +64 y" := (wrap64 (x + y)) (at level 50, left associativity) : cint_scope.
Notation "x -64 y" := (wrap64 (x - y)) (at level 50, left associativity) : cint_scope.
Notation "x *64 y" := (wrap64 (x * y)) (at level 40, left associativity) : cint_scope.
Notation "x +32 y" := (wrap32 (x + y)) (at level 50, left associativity) : cint_scope.
Notation "x -32 y" := (wrap32 (x - y)) (at level 50, left associativity) : cint_scope.
Notation "x *32 y" := (wrap32 (x * y)) (at level 40, left associativity) : cint_scope.
#[global] Open Scope cint_scope.

Create HintDb cint discriminated.

Lemma wrap64_id x : is_u64 x -> wrap64 x = x.
Proof. intros H. apply Z.mod_small, H. Qed.
Lemma wrap32_id x : is_u32 x -> wrap32 x = x.
Proof. intros H. apply Z.mod_small, H. Qed.
Lemma wrap64_range x : is_u64 (wrap64 x).
Proof. apply Z.mod_pos_bound. lia. Qed.
Lemma wrap32_range x : is_u32 (wrap32 x).
Proof. apply Z.mod_pos_bound. lia. Qed.
#[export] Hint Resolve wrap64_range wrap32_range : cint.
Lemma wrap64_add_l x y : wrap64 x +64 y = wrap64 (x + y).
Proof. apply Zplus_mod_idemp_l. Qed.
Lemma wrap64_sub_l x y : wrap64 x -64 y = wrap64 (x - y).
Proof. apply Zminus_mod_idemp_l. Qed.

(** [u64 e] rewrites away the wrap-around of an expression whose exact value is
    in range; the range is a linear goal. *)
Ltac unwrap64 :=
  repeat match goal with
    | |- context [wrap64 ?e] =>
        rewrite (wrap64_id e) by (unfold is_u64, UINT64_MAX in *; lia)
    | H : context [wrap64 ?e] |- _ =>
        rewrite (wrap64_id e) in H by (unfold is_u64, UINT64_MAX in *; lia)
    end.
Ltac unwrap32 :=
  repeat match goal with
    | |- context [wrap32 ?e] =>
        rewrite (wrap32_id e) by (unfold is_u32, UINT32_MAX in *; lia)
    | H : context [wrap32 ?e] |- _ =>
        rewrite (wrap32_id e) in H by (unfold is_u32, UINT32_MAX in *; lia)
    end.

(** ** Pages (arch/riscv/include/riscv.h)

    A mask [~(PGSIZE - 1)] is an [int], sign-extended to the width of the other
    operand, hence [Z.lnot]. *)
Definition PGSIZE : Z := 4096.
Definition PGROUNDUP (sz : Z) : Z := Z.land (sz +64 PGSIZE -64 1) (Z.lnot (PGSIZE - 1)).
Definition PGROUNDDOWN (a : Z) : Z := Z.land a (Z.lnot (PGSIZE - 1)).
Definition MAXVA : Z := Z.shiftl 1 (9 + 9 + 9 + 12 - 1).

(** ** Error numbers that several components return (kernel/include/linux_uapi.h) *)
Definition LINUX_EAGAIN : Z := 11.
Definition LINUX_ENOMEM : Z := 12.
Definition LINUX_EFAULT : Z := 14.
Definition LINUX_EINVAL : Z := 22.

(** A function with one value changed. *)
Definition upd (g : Z -> Z) (a v : Z) : Z -> Z := fun b => if decide (b = a) then v else g b.

(** C truth values. *)
Definition truth (x : Z) : bool := negb (x =? 0).

(** ** Outcomes

    A call returns, stops the kernel with [PANIC], or performs an access that C
    leaves undefined (a null dereference, an index outside its array).  A loop
    that runs out of fuel is a [Fault] as well, so a theorem that concludes
    [Ret] also states that the loop terminates. *)
Inductive outcome (A : Type) : Type :=
| Ret (a : A)
| Panic (why : string)
| Fault.
Arguments Ret {A} a.
Arguments Panic {A} why.
Arguments Fault {A}.

#[global] Instance outcome_ret : MRet outcome := fun A a => Ret a.
#[global] Instance outcome_bind : MBind outcome := fun A B f m =>
  match m with Ret a => f a | Panic w => Panic w | Fault => Fault end.

Lemma bind_Ret {A B} (m : outcome A) (f : A -> outcome B) b :
  (m ≫= f) = Ret b <-> exists a, m = Ret a /\ f a = Ret b.
Proof. destruct m; cbn; naive_solver. Qed.

Lemma bind_chain {A B C} (m : outcome A) (f : A -> outcome B) (g : B -> outcome C) b :
  (m ≫= f) = Ret b -> (m ≫= fun a => f a ≫= g) = g b.
Proof. destruct m as [a| |]; cbn; try done. by intros ->. Qed.
Lemma ret_bind {A B} (a : A) (f : A -> outcome B) : (Ret a ≫= f) = f a.
Proof. done. Qed.

(** An access through a pointer that C requires to be valid. *)
Definition deref {A} (o : option A) : outcome A :=
  match o with Some a => Ret a | None => Fault end.

(** Array read and write, undefined outside the array. *)
Definition rd {A} (l : list A) (i : nat) : outcome A := deref (l !! i).
Definition wr {A} (l : list A) (i : nat) (x : A) : outcome (list A) :=
  if (i <? length l)%nat then Ret (<[i := x]> l) else Fault.

Lemma rd_Ret {A} (l : list A) i x : l !! i = Some x -> rd l i = Ret x.
Proof. unfold rd. by intros ->. Qed.
Lemma wr_Ret {A} (l : list A) i x : (i < length l)%nat -> wr l i x = Ret (<[i := x]> l).
Proof. intros H. unfold wr. apply Nat.ltb_lt in H. by rewrite H. Qed.

(** A loop over the values of its counter. *)
Fixpoint for_each {A S} (f : S -> A -> outcome S) (l : list A) (s : S) : outcome S :=
  match l with [] => Ret s | x :: l => s ← f s x; for_each f l s end.

(** [wp o P W]: the call does not fault; its result satisfies [P], and it panics
    only with a message in [W]. *)
Definition wp {A} (o : outcome A) (P : A -> Prop) (W : string -> Prop) : Prop :=
  match o with Ret a => P a | Panic w => W w | Fault => False end.

Lemma wp_bind {A B} (m : outcome A) (f : A -> outcome B) P Q W :
  wp m P W -> (forall a, P a -> wp (f a) Q W) -> wp (m ≫= f) Q W.
Proof. destruct m; cbn; auto. Qed.

Lemma wp_mono {A} (m : outcome A) (P Q : A -> Prop) (W V : string -> Prop) :
  wp m P W -> (forall a, P a -> Q a) -> (forall w, W w -> V w) -> wp m Q V.
Proof. destruct m; cbn; auto. Qed.

(** A loop whose body takes [I done] to [I (done ++ [x])]. *)
Lemma wp_for_each {A S} (f : S -> A -> outcome S) (I : list A -> S -> Prop) W l s :
  I [] s ->
  (forall pre x post s, l = pre ++ x :: post -> I pre s -> wp (f s x) (I (pre ++ [x])) W) ->
  wp (for_each f l s) (I l) W.
Proof.
  intros H0 Hf. assert (H : forall post pre s, l = pre ++ post -> I pre s -> wp (for_each f post s) (I l) W).
  { intros post. induction post as [|x post IH]; intros pre s' -> Hs.
    - cbn. by rewrite app_nil_r in *.
    - eapply wp_bind; [by eapply Hf|]. intros s1 Hs1. apply (IH (pre ++ [x])); [|done]. by rewrite <-app_assoc. }
  by apply (H l []).
Qed.

(** ** Tactics *)

#[global] Arguments Nat.ltb : simpl never.
#[global] Arguments Nat.leb : simpl never.
#[global] Arguments Nat.eqb : simpl never.
#[global] Arguments Z.ltb : simpl never.
#[global] Arguments Z.leb : simpl never.
#[global] Arguments Z.eqb : simpl never.
#[global] Arguments Z.pow : simpl never.
#[global] Arguments Z.mul : simpl never.
#[global] Arguments Z.add : simpl never.
#[global] Arguments Z.sub : simpl never.
#[global] Arguments wrap64 : simpl never.
#[global] Arguments wrap32 : simpl never.

(** Case analysis on the test of the first conditional of the goal. *)
Ltac case_if :=
  match goal with
  | |- context [if ?b then _ else _] =>
      match type of b with
      | bool => let E := fresh "E" in destruct b eqn:E
      end
  end.

(** Turn boolean tests in hypotheses into propositions. *)
Ltac bool_to_prop :=
  repeat match goal with
    | H : andb _ _ = true |- _ => apply andb_true_iff in H as [? ?]
    | H : orb _ _ = false |- _ => apply orb_false_iff in H as [? ?]
    | H : andb _ _ = false |- _ => apply andb_false_iff in H
    | H : orb _ _ = true |- _ => apply orb_true_iff in H
    | H : negb _ = true |- _ => apply negb_true_iff in H
    | H : negb _ = false |- _ => apply negb_false_iff in H
    | H : (_ =? _)%Z = true |- _ => apply Z.eqb_eq in H
    | H : (_ =? _)%Z = false |- _ => apply Z.eqb_neq in H
    | H : (_ <? _)%Z = true |- _ => apply Z.ltb_lt in H
    | H : (_ <? _)%Z = false |- _ => apply Z.ltb_ge in H
    | H : (_ <=? _)%Z = true |- _ => apply Z.leb_le in H
    | H : (_ <=? _)%Z = false |- _ => apply Z.leb_gt in H
    | H : (_ =? _)%nat = true |- _ => apply Nat.eqb_eq in H
    | H : (_ =? _)%nat = false |- _ => apply Nat.eqb_neq in H
    | H : (_ <? _)%nat = true |- _ => apply Nat.ltb_lt in H
    | H : (_ <? _)%nat = false |- _ => apply Nat.ltb_ge in H
    | H : (_ <=? _)%nat = true |- _ => apply Nat.leb_le in H
    | H : (_ <=? _)%nat = false |- _ => apply Nat.leb_gt in H
    end.

(** [NoDup] of explicit lists. *)
Ltac nodup_split :=
  repeat match goal with
    | H : NoDup (_ :: _) |- _ => apply NoDup_cons in H as [? ?]
    end.
Ltac nodup_solver :=
  nodup_split; cbn [app];
  repeat match goal with
    | |- NoDup (_ :: _) => apply NoDup_cons; split
    | |- NoDup [] => constructor
    end; try assumption; set_solver.

(** ** Powers of two *)

Lemma land_lnot_ones x k : 0 <= k -> Z.land x (Z.lnot (Z.ones k)) = x - x mod 2 ^ k.
Proof.
  intros Hk. rewrite <-Z.ldiff_land, Z.ldiff_ones_r by done.
  rewrite Z.shiftl_mul_pow2, Z.shiftr_div_pow2 by done.
  pose proof (Z.div_mod x (2 ^ k)). lia.
Qed.

(** The bit above an aligned number is free. *)
Lemma land_pow2_above k q : 0 <= k -> Z.land (2 ^ (k + 1) * q) (2 ^ k) = 0.
Proof.
  intros Hk. apply Z.bits_inj'. intros i Hi.
  rewrite Z.land_spec, Z.bits_0, Z.pow2_bits_eqb by done.
  destruct (Z.eqb_spec k i) as [->|]; [|by rewrite andb_false_r].
  by rewrite Z.mul_comm, Z.mul_pow2_bits_low by lia.
Qed.

Lemma lxor_pow2_above k q : 0 <= k ->
  Z.lxor (2 ^ (k + 1) * q) (2 ^ k) = 2 ^ (k + 1) * q + 2 ^ k.
Proof. intros Hk. symmetry. apply Z.add_nocarry_lxor. by apply land_pow2_above. Qed.

Lemma lxor_pow2_below k q : 0 <= k ->
  Z.lxor (2 ^ (k + 1) * q + 2 ^ k) (2 ^ k) = 2 ^ (k + 1) * q.
Proof.
  intros Hk. rewrite <-lxor_pow2_above by done.
  by rewrite Z.lxor_assoc, Z.lxor_nilpotent, Z.lxor_0_r.
Qed.

(** Powers of two, as code tests for them, and the residues they mask. *)
Lemma pow2_of_land a : 0 < a -> Z.land a (a - 1) = 0 -> exists k, 0 <= k /\ a = 2 ^ k.
Proof.
  intros Ha Hl. destruct (Z.log2_spec a Ha) as [H1 H2]. pose proof (Z.log2_nonneg a). exists (Z.log2 a).
  split; [done|]. destruct (decide (a = 2 ^ Z.log2 a)) as [|Hn]; [done|]. exfalso.
  assert (Hb : Z.testbit (Z.land a (a - 1)) (Z.log2 a) = true); [|by rewrite Hl, Z.bits_0 in Hb].
  rewrite Z.land_spec, Z.bit_log2 by done. cbn.
  rewrite <-(Z.log2_unique (a - 1) (Z.log2 a)) by lia. apply Z.bit_log2. lia.
Qed.
Lemma land_pow2_pred_mod k x : 0 <= k -> Z.land x (2 ^ k - 1) = x mod 2 ^ k.
Proof. intros Hk. rewrite <-Z.land_ones by done. by rewrite Z.ones_equiv. Qed.

Lemma PGROUNDDOWN_mod a : PGROUNDDOWN a = a - a mod PGSIZE.
Proof. apply (land_lnot_ones a 12). lia. Qed.

Lemma PGROUNDUP_mod sz : 0 <= sz -> sz + PGSIZE - 1 < 2 ^ 64 ->
  PGROUNDUP sz = (sz + PGSIZE - 1) - (sz + PGSIZE - 1) mod PGSIZE.
Proof.
  intros H1 H2. unfold PGROUNDUP, PGSIZE in *. rewrite wrap64_sub_l. unwrap64.
  apply (land_lnot_ones (sz + 4096 - 1) 12). lia.
Qed.
