(* ===== verification/Strings.v ===== *)
(** * Byte strings

    kernel/string.c.  Memory is a finite map from addresses to bytes, and access
    to an address outside it is a [Fault].  A [char] of this architecture is
    unsigned.  Every round of a loop touches another address, so a loop that has
    more rounds than memory has bytes leaves memory: that number plus one is the
    fuel of the loops. *)
From S2P Require Import Prelude.

Notation bytes := (gmap Z Z).

Definition ld (m : bytes) (a : Z) : outcome Z := deref (m !! a).
Definition st (m : bytes) (a v : Z) : outcome bytes := _ ← ld m a; Ret (<[a := v]> m).
Definition rounds (m : bytes) : nat := S (size m).

(** ** Filling and copying *)

Fixpoint memset_loop (fuel : nat) (m : bytes) (d c n i : Z) : outcome bytes :=
  match fuel with
  | O => Fault
  | S f => if i <? n then m ← st m (d + i) (c mod 256); memset_loop f m d c n (i + 1) else Ret m
  end.
Definition memset (m : bytes) (dst c n : Z) : outcome bytes := memset_loop (rounds m) m dst c n 0.

Fixpoint copy_down (fuel : nat) (m : bytes) (d s n : Z) : outcome bytes :=
  match fuel with
  | O => Fault
  | S f => if 0 <? n then c ← ld m (s - 1); m ← st m (d - 1) c; copy_down f m (d - 1) (s - 1) (n - 1) else Ret m
  end.
Fixpoint copy_up (fuel : nat) (m : bytes) (d s n : Z) : outcome bytes :=
  match fuel with
  | O => Fault
  | S f => if 0 <? n then c ← ld m s; m ← st m d c; copy_up f m (d + 1) (s + 1) (n - 1) else Ret m
  end.
Definition memmove (m : bytes) (dst src n : Z) : outcome bytes :=
  if n =? 0 then Ret m
  else if (src <? dst) && (dst <? src +64 n) then copy_down (rounds m) m (dst + n) (src + n) n
  else copy_up (rounds m) m dst src n.
Definition memcpy (m : bytes) (dst src n : Z) : outcome bytes := memmove m dst src n.

Fixpoint strcpy_loop (fuel : nat) (m : bytes) (s t : Z) : outcome bytes :=
  match fuel with
  | O => Fault
  | S f => c ← ld m t; m ← st m s c; if c =? 0 then Ret m else strcpy_loop f m (s + 1) (t + 1)
  end.
Definition strcpy (m : bytes) (s t : Z) : outcome bytes := strcpy_loop (rounds m) m s t.

(** [n-- > 0] decrements also when it is false. *)
Fixpoint strncpy_copy (fuel : nat) (m : bytes) (s t n : Z) : outcome (bytes * Z * Z) :=
  match fuel with
  | O => Fault
  | S f =>
      let rest := n -64 1 in
      if 0 <? n then
        c ← ld m t; m ← st m s c;
        if c =? 0 then Ret (m, s + 1, rest) else strncpy_copy f m (s + 1) (t + 1) rest
      else Ret (m, s, rest)
  end.
Fixpoint strncpy_zero (fuel : nat) (m : bytes) (s n : Z) : outcome bytes :=
  match fuel with
  | O => Fault
  | S f => if 0 <? n then m ← st m s 0; strncpy_zero f m (s + 1) (n -64 1) else Ret m
  end.
Definition strncpy (m : bytes) (s t n : Z) : outcome bytes :=
  '(m', s', rest) ← strncpy_copy (rounds m) m s t n; strncpy_zero (rounds m) m' s' rest.

Fixpoint safe_loop (fuel : nat) (m : bytes) (s t n : Z) : outcome (bytes * Z) :=
  match fuel with
  | O => Fault
  | S f =>
      let n := n - 1 in
      if 0 <? n then
        c ← ld m t; m ← st m s c;
        if c =? 0 then Ret (m, s + 1) else safe_loop f m (s + 1) (t + 1) n
      else Ret (m, s)
  end.
Definition safe_strncpy (m : bytes) (s t n : Z) : outcome bytes :=
  if n <=? 0 then Ret m else '(m, s) ← safe_loop (rounds m) m s t n; st m s 0.

(** ** Searching and comparing *)

Fixpoint skip_string (fuel : nat) (m : bytes) (p : Z) : outcome Z :=
  match fuel with
  | O => Fault
  | S f => c ← ld m p; if c =? 0 then Ret p else skip_string f m (p + 1)
  end.
(** [p] is one past the zero when the loop ends. *)
Definition strlen (m : bytes) (s : Z) : outcome Z := p ← skip_string (rounds m) m s; Ret (p + 1 - s - 1).

Fixpoint memchr_loop (fuel : nat) (m : bytes) (p c n : Z) : outcome Z :=
  match fuel with
  | O => Fault
  | S f => if n =? 0 then Ret 0 else x ← ld m p; if x =? c mod 256 then Ret p else memchr_loop f m (p + 1) c (n - 1)
  end.
Definition memchr (m : bytes) (buffer character n : Z) : outcome Z := memchr_loop (rounds m) m buffer character n.

Fixpoint memcmp_loop (fuel : nat) (m : bytes) (p q n : Z) : outcome Z :=
  match fuel with
  | O => Fault
  | S f =>
      if n =? 0 then Ret 0
      else x ← ld m p; y ← ld m q; if negb (x =? y) then Ret (x - y) else memcmp_loop f m (p + 1) (q + 1) (n - 1)
  end.
Definition memcmp (m : bytes) (left right n : Z) : outcome Z := memcmp_loop (rounds m) m left right n.

Fixpoint strcmp_loop (fuel : nat) (m : bytes) (p q : Z) : outcome Z :=
  match fuel with
  | O => Fault
  | S f =>
      x ← ld m p; y ← ld m q;
      if negb (x =? 0) && (x =? y) then strcmp_loop f m (p + 1) (q + 1) else Ret (x - y)
  end.
Definition strcmp (m : bytes) (p q : Z) : outcome Z := strcmp_loop (rounds m) m p q.

Fixpoint strncmp_loop (fuel : nat) (m : bytes) (p q n : Z) : outcome Z :=
  match fuel with
  | O => Fault
  | S f =>
      if n =? 0 then Ret 0
      else
        x ← ld m p; y ← ld m q;
        if negb (x =? 0) && (x =? y) then strncmp_loop f m (p + 1) (q + 1) (n - 1) else Ret (x - y)
  end.
Definition strncmp (m : bytes) (p q n : Z) : outcome Z := strncmp_loop (rounds m) m p q n.

Fixpoint strcat_loop (fuel : nat) (m : bytes) (p q : Z) : outcome (bytes * Z) :=
  match fuel with
  | O => Fault
  | S f => c ← ld m q; if c =? 0 then Ret (m, p) else m ← st m p c; strcat_loop f m (p + 1) (q + 1)
  end.
Definition strcat (m : bytes) (p q : Z) : outcome bytes :=
  e ← skip_string (rounds m) m p; '(m, p) ← strcat_loop (rounds m) m e q; st m p 0.

Fixpoint strchr_loop (fuel : nat) (m : bytes) (p c : Z) : outcome Z :=
  match fuel with
  | O => Fault
  | S f => x ← ld m p; if x =? c then Ret p else if x =? 0 then Ret 0 else strchr_loop f m (p + 1) c
  end.
Definition strchr (m : bytes) (p c : Z) : outcome Z := strchr_loop (rounds m) m p c.

Fixpoint strrchr_loop (fuel : nat) (m : bytes) (start p c : Z) : outcome Z :=
  match fuel with
  | O => Fault
  | S f =>
      if start <? p then x ← ld m p; if negb (x =? c) then strrchr_loop f m start (p - 1) c else Ret p
      else Ret p
  end.
Definition strrchr (m : bytes) (p_start c : Z) : outcome Z :=
  e ← skip_string (rounds m) m p_start;
  p ← strrchr_loop (rounds m) m p_start e c;
  if p =? p_start then x ← ld m p; Ret (if negb (x =? c) then 0 else p) else Ret p.

Fixpoint strnlen_loop (fuel : nat) (m : bytes) (s max length : Z) : outcome Z :=
  match fuel with
  | O => Fault
  | S f =>
      if length <? max then c ← ld m (s + length); if c =? 0 then Ret length else strnlen_loop f m s max (length + 1)
      else Ret length
  end.
Definition strnlen (m : bytes) (s max : Z) : outcome Z := strnlen_loop (rounds m) m s max 0.

(** ** Sorting *)

Fixpoint byte_swap (fuel : nat) (m : bytes) (left right size : Z) : outcome bytes :=
  match fuel with
  | O => Fault
  | S f =>
      if size =? 0 then Ret m
      else
        value ← ld m left; x ← ld m right;
        m ← st m left x; m ← st m right value;
        byte_swap f m (left + 1) (right + 1) (size - 1)
  end.

(** The comparison is a function pointer: it reads memory at two addresses. *)
Fixpoint qsort_inner (fuel : nat) (compare : bytes -> Z -> Z -> outcome Z) (m : bytes) (array size j : Z) : outcome bytes :=
  match fuel with
  | O => Fault
  | S f =>
      if j =? 0 then Ret m
      else
        r ← compare m (array + (j - 1) * size) (array + j * size);
        if 0 <? r then
          m ← byte_swap (rounds m) m (array + (j - 1) * size) (array + j * size) size;
          qsort_inner f compare m array size (j - 1)
        else Ret m
  end.
Fixpoint qsort_outer (fuel : nat) (compare : bytes -> Z -> Z -> outcome Z) (m : bytes) (array count size i : Z) : outcome bytes :=
  match fuel with
  | O => Fault
  | S f =>
      if i <? count then m ← qsort_inner (rounds m) compare m array size i; qsort_outer f compare m array count size (i + 1)
      else Ret m
  end.
Definition qsort (compare : bytes -> Z -> Z -> outcome Z) (m : bytes) (base count size : Z) : outcome bytes :=
  if (base =? 0) || (size =? 0) || (count <? 2) then Ret m
  else qsort_outer (rounds m) compare m base count size 1.

(** ** Numbers *)

(** Signed arithmetic is undefined outside the range of [int]. *)
Definition int (x : Z) : outcome Z := if (- 2 ^ 31 <=? x) && (x <? 2 ^ 31) then Ret x else Fault.

Fixpoint skip_blanks (fuel : nat) (m : bytes) (p : Z) : outcome Z :=
  match fuel with
  | O => Fault
  | S f => c ← ld m p; if (c =? 32) || (c =? 9) then skip_blanks f m (p + 1) else Ret p
  end.
Fixpoint digits_loop (fuel : nat) (m : bytes) (p value : Z) : outcome Z :=
  match fuel with
  | O => Fault
  | S f =>
      c ← ld m p;
      if (48 <=? c) && (c <=? 57) then
        v ← int (value * 10); v ← int (v + c); v ← int (v - 48); digits_loop f m (p + 1) v
      else Ret value
  end.
Definition atoi (m : bytes) (string : Z) : outcome Z :=
  p ← skip_blanks (rounds m) m string;
  c ← ld m p;
  let sign := (c =? 45) || (c =? 43) in
  value ← digits_loop (rounds m) m (if sign then p + 1 else p) 0;
  if sign && (c =? 45) then int (- value) else Ret value.
