(* ===== verification/StringsCorrect.v ===== *)
(** * Byte strings: correctness

    What the functions of kernel/string.c compute: [memmove] for every overlap,
    the bounded copies, comparisons and searches, and [qsort] as a stable sort. *)
From S2P Require Import Prelude Strings.

(** ** Bytes in memory *)

(** The bytes [l] are at [a]. *)
Definition stored (m : bytes) (a : Z) (l : list Z) : Prop := forall i x, l !! i = Some x -> m !! (a + Z.of_nat i) = Some x.
(** All of the [n] addresses from [a] exist. *)
Definition mapped (m : bytes) (a n : Z) : Prop := forall x, a <= x < a + n -> is_Some (m !! x).
(** Memory with [l] written at [a]. *)
Fixpoint put (m : bytes) (a : Z) (l : list Z) : bytes :=
  match l with [] => m | x :: l => put (<[a := x]> m) (a + 1) l end.

Lemma stored_nil m a : stored m a [].
Proof. by intros i x H. Qed.
Lemma stored_cons m a x l : stored m a (x :: l) <-> m !! a = Some x /\ stored m (a + 1) l.
Proof.
  split.
  - intros H. split; [specialize (H 0%nat x eq_refl); by rewrite Z.add_0_r in H|].
    intros i y Hy. specialize (H (S i) y Hy). by replace (a + 1 + Z.of_nat i) with (a + Z.of_nat (S i)) by lia.
  - intros [H H'] [|i] y Hy; cbn in Hy; [simplify_eq; by rewrite Z.add_0_r|].
    specialize (H' i y Hy). by replace (a + Z.of_nat (S i)) with (a + 1 + Z.of_nat i) by lia.
Qed.
Lemma stored_app m a l k : stored m a (l ++ k) <-> stored m a l /\ stored m (a + Z.of_nat (length l)) k.
Proof.
  revert a. induction l as [|x l IH]; intros a; cbn [app length].
  - rewrite Z.add_0_r. split; [intros H; split; [apply stored_nil|done]|by intros [_ H]].
  - rewrite !stored_cons, IH. replace (a + 1 + Z.of_nat (length l)) with (a + Z.of_nat (S (length l))) by lia. tauto.
Qed.
Lemma stored_mapped m a l : stored m a l -> mapped m a (Z.of_nat (length l)).
Proof.
  intros H x Hx. destruct (lookup_lt_is_Some_2 l (Z.to_nat (x - a))) as [y Hy]; [lia|].
  exists y. rewrite <-(H _ _ Hy). f_equal. lia.
Qed.
Lemma mapped_size m a n : mapped m a n -> n <= Z.of_nat (size m).
Proof.
  intros H. destruct (decide (0 <= n)); [|lia].
  assert (Hs : (list_to_set (seqZ a n) : gset Z) ⊆ dom m).
  { intros x Hx. apply elem_of_list_to_set, elem_of_seqZ in Hx. by apply elem_of_dom, H. }
  apply subseteq_size in Hs. rewrite size_list_to_set, size_dom, length_seqZ in Hs by apply NoDup_seqZ. lia.
Qed.
Lemma stored_size m a l : stored m a l -> (length l < rounds m)%nat.
Proof. intros H. pose proof (mapped_size _ _ _ (stored_mapped _ _ _ H)). unfold rounds. lia. Qed.
Lemma mapped_rounds m a n : mapped m a (Z.of_nat n) -> (n < rounds m)%nat.
Proof. intros H%mapped_size. unfold rounds. lia. Qed.

Lemma mapped_insert m a n b v : mapped m a n -> mapped (<[b := v]> m) a n.
Proof. intros H x Hx. destruct (decide (b = x)) as [->|]; [by rewrite lookup_insert_eq|rewrite lookup_insert_ne by done; auto]. Qed.
Lemma mapped_cons m a n : mapped m a (Z.of_nat (S n)) -> is_Some (m !! a) /\ mapped m (a + 1) (Z.of_nat n).
Proof. intros H. split; [apply H; lia|]. intros x Hx. apply H. lia. Qed.
Lemma stored_insert m a l b v : b < a \/ a + Z.of_nat (length l) <= b -> stored m a l -> stored (<[b := v]> m) a l.
Proof.
  intros Hb H i x Hx. pose proof (lookup_lt_Some _ _ _ Hx). rewrite lookup_insert_ne by lia. auto.
Qed.
#[export] Hint Resolve mapped_insert stored_nil : bytes.

Lemma ld_Ret m a x : m !! a = Some x -> ld m a = Ret x.
Proof. unfold ld. by intros ->. Qed.
Lemma st_Ret m a v : is_Some (m !! a) -> st m a v = Ret (<[a := v]> m).
Proof. unfold st, ld. by intros [x ->]. Qed.

(** Memory accesses at addresses known to exist. *)
Ltac mem_step :=
  match goal with
  | |- context [ld ?m ?a] => erewrite (ld_Ret m a) by (first [eassumption|rewrite lookup_insert_ne by lia; eassumption]); cbn [mbind outcome_bind]
  | |- context [st ?m ?a ?v] => rewrite (st_Ret m a v) by eauto with bytes; cbn [mbind outcome_bind]
  end.

Lemma put_at m a l x :
  put m a l !! x = if decide (a <= x < a + Z.of_nat (length l)) then l !! Z.to_nat (x - a) else m !! x.
Proof.
  revert m a. induction l as [|y l IH]; intros m a; cbn [put length].
  - destruct (decide _); [lia|done].
  - rewrite IH. destruct (decide (x = a)) as [->|].
    + rewrite !decide_False by lia. rewrite decide_True by lia. by rewrite Z.sub_diag, lookup_insert_eq.
    + rewrite lookup_insert_ne by done. case_decide; case_decide; try lia; [|done].
      by replace (Z.to_nat (x - a)) with (S (Z.to_nat (x - (a + 1)))) by lia.
Qed.
Lemma put_insert m a l b v : b < a \/ a + Z.of_nat (length l) <= b -> put (<[b := v]> m) a l = <[b := v]> (put m a l).
Proof.
  intros Hb. apply map_eq. intros x. rewrite put_at.
  destruct (decide (x = b)) as [->|].
  - rewrite decide_False by lia. by rewrite !lookup_insert_eq.
  - rewrite !lookup_insert_ne by done. by rewrite put_at.
Qed.
Lemma put_app m a l k : put m a (l ++ k) = put (put m a l) (a + Z.of_nat (length l)) k.
Proof.
  revert m a. induction l as [|x l IH]; intros m a; cbn [app put length]; [by rewrite Z.add_0_r|].
  rewrite IH. f_equal. lia.
Qed.
Lemma put_snoc m a l x : put m a (l ++ [x]) = <[a + Z.of_nat (length l) := x]> (put m a l).
Proof. by rewrite put_app. Qed.
Lemma put_comm m a l b k : a + Z.of_nat (length l) <= b -> put (put m a l) b k = put (put m b k) a l.
Proof.
  intros H. apply map_eq. intros x. rewrite !put_at. case_decide; case_decide; try lia; done.
Qed.
Lemma put_over m a l k : length l = length k -> put (put m a l) a k = put m a k.
Proof. intros H. apply map_eq. intros x. rewrite !put_at, H. by case_decide. Qed.
Lemma put_stored m a l : stored (put m a l) a l.
Proof.
  intros i x Hx. pose proof (lookup_lt_Some _ _ _ Hx). rewrite put_at, decide_True by lia.
  by replace (Z.to_nat (a + Z.of_nat i - a)) with i by lia.
Qed.
Lemma put_same m a l : stored m a l -> put m a l = m.
Proof.
  intros H. apply map_eq. intros x. rewrite put_at. case_decide; [|done].
  destruct (lookup_lt_is_Some_2 l (Z.to_nat (x - a))) as [y Hy]; [lia|]. rewrite Hy, <-(H _ _ Hy). f_equal. lia.
Qed.
Lemma put_mapped m a l b n : mapped m b n -> mapped (put m a l) b n.
Proof.
  intros H x Hx. rewrite put_at. case_decide; [|by apply H]. apply lookup_lt_is_Some. lia.
Qed.
Lemma put_size m a l : mapped m a (Z.of_nat (length l)) -> size (put m a l) = size m.
Proof.
  revert m a. induction l as [|x l IH]; intros m a H; [done|]. apply mapped_cons in H as [[y Hy] H].
  cbn [put]. rewrite IH by auto with bytes. by rewrite map_size_insert, Hy.
Qed.

(** ** Filling and copying *)

Lemma memset_loop_spec c n k : forall fuel m d i,
  n = i + Z.of_nat k -> (k < fuel)%nat -> mapped m (d + i) (Z.of_nat k) ->
  memset_loop fuel m d c n i = Ret (put m (d + i) (replicate k (c mod 256))).
Proof.
  induction k as [|k IH]; intros [|f] m d i Hn Hf Hm; try lia; cbn [memset_loop replicate put].
  - by rewrite (proj2 (Z.ltb_ge i n)) by lia.
  - rewrite (proj2 (Z.ltb_lt i n)) by lia. apply mapped_cons in Hm as [Ha Hm]. mem_step.
    replace (d + i + 1) with (d + (i + 1)) in * by lia. apply IH; [lia|lia|auto with bytes].
Qed.
Lemma memset_correct m d c n :
  mapped m d (Z.of_nat n) -> memset m d c (Z.of_nat n) = Ret (put m d (replicate n (c mod 256))).
Proof.
  intros H. unfold memset. rewrite (memset_loop_spec c _ n); rewrite ?Z.add_0_r; [done|lia|by eapply mapped_rounds|done].
Qed.

Lemma copy_up_spec l : forall fuel m d s,
  (length l < fuel)%nat -> stored m s l -> mapped m d (Z.of_nat (length l)) -> d <= s \/ s + Z.of_nat (length l) <= d ->
  copy_up fuel m d s (Z.of_nat (length l)) = Ret (put m d l).
Proof.
  induction l as [|x l IH]; intros [|f] m d s Hf Hs Hd Ho; cbn [length] in *; try lia; cbn [copy_up put]; [done|].
  rewrite (proj2 (Z.ltb_lt _ _)) by lia. apply stored_cons in Hs as [Hx Hs]. apply mapped_cons in Hd as [Ha Hd].
  do 2 mem_step. replace (Z.of_nat (S (length l)) - 1) with (Z.of_nat (length l)) by lia.
  apply IH; [lia| |auto with bytes|lia]. apply stored_insert; [lia|done].
Qed.
Lemma copy_down_spec l : forall fuel m d s,
  (length l < fuel)%nat -> stored m s l -> mapped m d (Z.of_nat (length l)) -> s < d ->
  copy_down fuel m (d + Z.of_nat (length l)) (s + Z.of_nat (length l)) (Z.of_nat (length l)) = Ret (put m d l).
Proof.
  induction l as [|x l IH] using rev_ind; intros [|f] m d s Hf Hs Hd Ho; rewrite ?length_app in *; cbn [length] in *; try lia; cbn [copy_down]; [done|].
  rewrite (proj2 (Z.ltb_lt _ _)) by lia. apply stored_app in Hs as [Hs [Hx _]%stored_cons].
  rewrite Nat2Z.inj_add, !Z.add_assoc, !Z.add_simpl_r in *. rewrite put_snoc.
  mem_step. rewrite st_Ret by (apply Hd; lia). cbn [mbind outcome_bind].
  rewrite IH; [|lia| | |done]; [by rewrite put_insert by lia| |].
  - apply stored_insert; [lia|done].
  - apply mapped_insert. intros y Hy. apply Hd. lia.
Qed.

(** C34: [memmove] (and [memcpy], which is the same) copies [l] to [dst] as if
    it went through a buffer, for every overlap of the two ranges, changes
    nothing else, and ends. *)
Theorem memmove_correct m dst src l :
  stored m src l -> mapped m dst (Z.of_nat (length l)) -> 0 <= src -> src + Z.of_nat (length l) < 2 ^ 64 ->
  memmove m dst src (Z.of_nat (length l)) = Ret (put m dst l)
  /\ memcpy m dst src (Z.of_nat (length l)) = Ret (put m dst l)
  /\ (forall i x, l !! i = Some x -> put m dst l !! (dst + Z.of_nat i) = Some x)
  /\ (forall a, a < dst \/ dst + Z.of_nat (length l) <= a -> put m dst l !! a = m !! a).
Proof.
  intros Hs Hd H0 H64.
  assert (H : memmove m dst src (Z.of_nat (length l)) = Ret (put m dst l)).
  { pose proof (stored_size _ _ _ Hs). unfold memmove. unwrap64. case_if; bool_to_prop; [destruct l; [done|cbn in *; lia]|].
    case_if; bool_to_prop; [apply copy_down_spec; auto; lia|]. apply copy_up_spec; auto. lia. }
  split_and!; [done|done|apply put_stored|]. intros a Ha. rewrite put_at, decide_False; [done|lia].
Qed.

Lemma strcpy_loop_spec l : forall fuel m s t,
  0 ∉ l -> (length l < fuel)%nat -> stored m t (l ++ [0]) -> mapped m s (Z.of_nat (S (length l))) ->
  s + Z.of_nat (S (length l)) <= t \/ t + Z.of_nat (S (length l)) <= s ->
  strcpy_loop fuel m s t = Ret (put m s (l ++ [0])).
Proof.
  induction l as [|x l IH]; intros [|f] m s t Hl Hf Ht Hs Ho; cbn [length app] in *; try lia; cbn [strcpy_loop put];
    apply stored_cons in Ht as [Hx Ht]; apply mapped_cons in Hs as [Ha Hs]; do 2 mem_step; [done|].
  apply not_elem_of_cons in Hl as [Hx0 Hl]. rewrite (proj2 (Z.eqb_neq x 0)) by done.
  apply IH; [done|lia| |auto with bytes|lia]. apply stored_insert; [rewrite length_app; cbn; lia|done].
Qed.
Lemma strcpy_correct m s t l :
  0 ∉ l -> stored m t (l ++ [0]) -> mapped m s (Z.of_nat (S (length l))) ->
  s + Z.of_nat (S (length l)) <= t \/ t + Z.of_nat (S (length l)) <= s ->
  strcpy m s t = Ret (put m s (l ++ [0])).
Proof. intros Hl Ht Hs Ho. apply strcpy_loop_spec; auto. apply stored_size in Ht. rewrite length_app in Ht. cbn in Ht. lia. Qed.

(** ** Bounded copies *)

Definition apart (a n b k : Z) : Prop := a + n <= b \/ b + k <= a.

Lemma strncpy_copy_short l : forall fuel m s t n,
  0 ∉ l -> (length l < fuel)%nat -> stored m t (l ++ [0]) -> Z.of_nat (length l) < n < 2 ^ 64 -> mapped m s (Z.of_nat (S (length l))) ->
  apart s n t (Z.of_nat (S (length l))) ->
  strncpy_copy fuel m s t n = Ret (put m s (l ++ [0]), s + Z.of_nat (S (length l)), n - Z.of_nat (S (length l))).
Proof.
  unfold apart. induction l as [|x l IH]; intros [|f] m s t n Hl Hf Ht Hn Hs Ho; cbn [length app] in *; try lia; cbn [strncpy_copy put];
    unwrap64; rewrite (proj2 (Z.ltb_lt 0 n)) by lia; apply stored_cons in Ht as [Hx Ht]; apply mapped_cons in Hs as [Ha Hs];
    do 2 mem_step; [done|].
  apply not_elem_of_cons in Hl as [Hx0 Hl]. rewrite (proj2 (Z.eqb_neq x 0)) by done.
  rewrite IH; [do 2 f_equal; [f_equal|]; lia|done|lia| |lia|auto with bytes|lia]. apply stored_insert; [rewrite length_app; cbn; lia|done].
Qed.
Lemma strncpy_copy_full l : forall fuel m s t,
  0 ∉ l -> (length l < fuel)%nat -> stored m t l -> Z.of_nat (length l) < 2 ^ 64 -> mapped m s (Z.of_nat (length l)) ->
  apart s (Z.of_nat (length l)) t (Z.of_nat (length l)) ->
  strncpy_copy fuel m s t (Z.of_nat (length l)) = Ret (put m s l, s + Z.of_nat (length l), 2 ^ 64 - 1).
Proof.
  unfold apart. induction l as [|x l IH]; intros [|f] m s t Hl Hf Ht Hn Hs Ho; cbn [length] in *; try lia; cbn [strncpy_copy put].
  - by rewrite Z.add_0_r.
  - rewrite (proj2 (Z.ltb_lt _ _)) by lia. apply stored_cons in Ht as [Hx Ht]. apply mapped_cons in Hs as [Ha Hs].
    apply not_elem_of_cons in Hl as [Hx0 Hl]. do 2 mem_step. rewrite (proj2 (Z.eqb_neq x 0)) by done.
    replace (wrap64 _) with (Z.of_nat (length l)) by (unwrap64; lia).
    rewrite IH; [do 3 f_equal; lia|done|lia| |lia|auto with bytes|lia]. apply stored_insert; [lia|done].
Qed.
Lemma strncpy_zero_spec k : forall fuel m s,
  (k < fuel)%nat -> Z.of_nat k < 2 ^ 64 -> mapped m s (Z.of_nat k) -> strncpy_zero fuel m s (Z.of_nat k) = Ret (put m s (replicate k 0)).
Proof.
  induction k as [|k IH]; intros [|f] m s Hf Hn Hs; try lia; cbn [strncpy_zero replicate put]; [done|].
  rewrite (proj2 (Z.ltb_lt _ _)) by lia. apply mapped_cons in Hs as [Ha Hs]. mem_step.
  replace (wrap64 _) with (Z.of_nat k) by (unwrap64; lia). apply IH; [lia|lia|auto with bytes].
Qed.
Lemma strncpy_zero_hole fuel : forall m s n x, s <= x < s + n -> n < 2 ^ 64 -> m !! x = None -> strncpy_zero fuel m s n = Fault.
Proof.
  induction fuel as [|f IH]; intros m s n x Hx Hn Hm; [done|]. cbn [strncpy_zero]. rewrite (proj2 (Z.ltb_lt _ _)) by lia.
  unfold st, ld. destruct (m !! s) as [y|] eqn:Hs; cbn [mbind outcome_bind deref]; [|done].
  assert (x <> s) by congruence. unwrap64. apply (IH _ _ _ x); [lia|lia|by rewrite lookup_insert_ne].
Qed.
Lemma hole (m : bytes) s n : Z.of_nat (size m) < n -> exists x, s <= x < s + n /\ m !! x = None.
Proof.
  intros H. destruct (decide (Forall (fun x => is_Some (m !! x)) (seqZ s n))) as [F|F].
  - exfalso. assert (Hm : mapped m s n); [|apply mapped_size in Hm; lia].
    intros x Hx. rewrite Forall_forall in F. apply F, elem_of_seqZ. lia.
  - apply not_Forall_Exists, Exists_exists in F as (x & Hx & Hn); [|intros; apply _]. exists x. apply elem_of_seqZ in Hx.
    split; [lia|]. by apply eq_None_not_Some.
Qed.

(** For a string shorter than [n], [strncpy] copies it and fills the rest of
    the [n] bytes with zeros. *)
Theorem strncpy_short m s t l n :
  0 ∉ l -> stored m t (l ++ [0]) -> (length l < n)%nat -> Z.of_nat n < 2 ^ 64 -> mapped m s (Z.of_nat n) ->
  apart s (Z.of_nat n) t (Z.of_nat (S (length l))) ->
  strncpy m s t (Z.of_nat n) = Ret (put m s (l ++ replicate (n - length l) 0)).
Proof.
  intros Hl Ht Hn H64 Hs Ho. assert (Hr : (n < rounds m)%nat) by by eapply mapped_rounds. unfold strncpy.
  rewrite (strncpy_copy_short l); [|done|lia|done|lia| |done]; [|intros x Hx; apply Hs; lia].
  cbn [mbind outcome_bind]. replace (Z.of_nat n - _) with (Z.of_nat (n - S (length l))) by lia.
  rewrite strncpy_zero_spec; [|lia|lia|apply put_mapped; intros x Hx; apply Hs; lia].
  f_equal. replace (n - length l)%nat with (S (n - S (length l))) by lia. cbn [replicate].
  rewrite !(put_app _ _ l). cbn [put]. f_equal. lia.
Qed.

(** C37: when the source has no zero among its first [n] bytes, the count of
    [strncpy] wraps after the copy, and the loop that fills up writes zeros
    behind the destination until it leaves memory, however large memory is. *)
Theorem strncpy_overruns m s t l :
  0 ∉ l -> stored m t l -> mapped m s (Z.of_nat (length l)) -> apart s (Z.of_nat (length l)) t (Z.of_nat (length l)) ->
  Z.of_nat (size m) < 2 ^ 64 - 1 ->
  strncpy m s t (Z.of_nat (length l)) = Fault
  /\ (forall fuel, strncpy_zero fuel (put m s l) (s + Z.of_nat (length l)) (2 ^ 64 - 1) = Fault).
Proof.
  intros Hl Ht Hs Ho Hz.
  assert (H : forall fuel, strncpy_zero fuel (put m s l) (s + Z.of_nat (length l)) (2 ^ 64 - 1) = Fault).
  { intros fuel. destruct (hole (put m s l) (s + Z.of_nat (length l)) (2 ^ 64 - 1)) as (x & Hx & Hn); [by rewrite put_size|].
    by apply (strncpy_zero_hole _ _ _ _ x). }
  split; [|done]. pose proof (stored_size _ _ _ Ht) as Hr. unfold strncpy.
  rewrite strncpy_copy_full; [apply H|done|done|done| |done|done]. unfold rounds in Hr. lia.
Qed.

Lemma safe_loop_spec k : forall l fuel m s t,
  0 ∉ l -> (k < fuel)%nat -> stored m t (take k (l ++ [0])) -> mapped m s (Z.of_nat k) ->
  apart s (Z.of_nat k) t (Z.of_nat (length (take k (l ++ [0])))) ->
  safe_loop fuel m s t (Z.of_nat (S k)) = Ret (put m s (take k (l ++ [0])), s + Z.of_nat (length (take k (l ++ [0])))).
Proof.
  unfold apart. induction k as [|k IH]; intros l [|f] m s t Hl Hf Ht Hs Ho; try lia; cbn [safe_loop].
  - cbn. by rewrite Z.add_0_r.
  - rewrite (proj2 (Z.ltb_lt _ _)) by lia. apply mapped_cons in Hs as [Ha Hs].
    replace (Z.of_nat (S (S k)) - 1) with (Z.of_nat (S k)) by lia.
    destruct l as [|x l]; cbn [app take length put] in *; apply stored_cons in Ht as [Hx Ht]; do 2 mem_step.
    + by rewrite take_nil.
    + apply not_elem_of_cons in Hl as [Hx0 Hl]. rewrite (proj2 (Z.eqb_neq x 0)) by done.
      rewrite (IH l); [do 2 f_equal; lia|done|lia| |auto with bytes|lia]. apply stored_insert; [lia|done].
Qed.

(** [safe_strncpy] leaves a string in the [n] bytes at [s]: the source, cut
    to [n - 1] bytes, and a zero; it reads no more of the source than it copies. *)
Theorem safe_strncpy_correct m s t l k :
  0 ∉ l -> stored m t (take k (l ++ [0])) -> mapped m s (Z.of_nat (S k)) -> apart s (Z.of_nat (S k)) t (Z.of_nat (length (take k (l ++ [0])))) ->
  safe_strncpy m s t (Z.of_nat (S k)) = Ret (put m s (take k (l ++ [0]) ++ [0]))
  /\ stored (put m s (take k (l ++ [0]) ++ [0])) s (take k l ++ [0]).
Proof.
  intros Hl Ht Hs Ho. unfold apart in Ho. assert (Hr : (S k < rounds m)%nat) by by eapply mapped_rounds. split.
  - unfold safe_strncpy. rewrite (proj2 (Z.leb_gt _ _)) by lia.
    rewrite safe_loop_spec with (l := l); [|done|lia|done|intros x Hx; apply Hs; lia|unfold apart; lia].
    cbn [mbind outcome_bind]. rewrite st_Ret; [by rewrite put_snoc|].
    apply (put_mapped _ _ _ _ _ Hs). rewrite length_take. lia.
  - pose proof (put_stored m s (take k (l ++ [0]) ++ [0])) as H. revert H. generalize (put m s (take k (l ++ [0]) ++ [0])).
    intros m' H. destruct (decide (k <= length l)%nat).
    + by rewrite take_app_le in H by done.
    + rewrite take_app_ge in H by lia. rewrite (take_ge l) by lia. destruct (k - length l)%nat eqn:E; [lia|]. cbn [take] in H.
      rewrite take_nil in H. by apply stored_app in H as [H _].
Qed.

(** ** Comparing *)

(** The order of byte strings. *)
Fixpoint byte_order (a b : list Z) : comparison :=
  match a, b with
  | [], [] => Eq
  | [], _ => Lt
  | _, [] => Gt
  | x :: a, y :: b => if x =? y then byte_order a b else x ?= y
  end.
Lemma byte_order_eq a : forall b, byte_order a b = Eq <-> a = b.
Proof.
  induction a as [|x a IH]; intros [|y b]; cbn; try done. case_if; bool_to_prop.
  - subst. rewrite IH. naive_solver.
  - rewrite Z.compare_eq_iff. naive_solver.
Qed.
Lemma byte_order_first a b x y : x <> y -> (x - y ?= 0) = byte_order (x :: a) (y :: b).
Proof. intros H. cbn. rewrite (proj2 (Z.eqb_neq x y)) by done. symmetry. apply Z.compare_sub. Qed.

Lemma memcmp_loop_spec l : forall fuel k m p q,
  length l = length k -> (length l < fuel)%nat -> stored m p l -> stored m q k ->
  exists r, memcmp_loop fuel m p q (Z.of_nat (length l)) = Ret r /\ (r ?= 0) = byte_order l k.
Proof.
  induction l as [|x l IH]; intros [|f] [|y k] m p q Hn Hf Hp Hq; cbn [length] in *; try lia; cbn [memcmp_loop]; [by exists 0|].
  apply stored_cons in Hp as [Hx Hp], Hq as [Hy Hq]. rewrite (proj2 (Z.eqb_neq _ 0)) by lia. do 2 mem_step.
  destruct (Z.eqb_spec x y) as [->|Hxy]; cbn [negb].
  - replace (Z.of_nat (S (length l)) - 1) with (Z.of_nat (length l)) by lia. cbn [byte_order]. rewrite Z.eqb_refl. apply IH; auto; lia.
  - eexists. split; [done|]. by apply byte_order_first.
Qed.
Lemma memcmp_correct m p q l k :
  length l = length k -> stored m p l -> stored m q k ->
  exists r, memcmp m p q (Z.of_nat (length l)) = Ret r /\ (r ?= 0) = byte_order l k.
Proof. intros Hn Hp Hq. apply memcmp_loop_spec; auto. by eapply stored_size. Qed.

Definition positive : list Z -> Prop := Forall (fun x => 0 < x).

Lemma strcmp_loop_spec a : forall fuel b m p q,
  positive a -> positive b -> (length a < fuel)%nat -> stored m p (a ++ [0]) -> stored m q (b ++ [0]) ->
  exists r, strcmp_loop fuel m p q = Ret r /\ (r ?= 0) = byte_order a b.
Proof.
  induction a as [|x a IH]; intros [|f] [|y b] m p q Ha Hb Hf Hp Hq; cbn [length app] in *; try lia; cbn [strcmp_loop];
    apply stored_cons in Hp as [Hx Hp], Hq as [Hy Hq]; do 2 mem_step; try apply Forall_cons in Ha as [Hxp Ha]; try apply Forall_cons in Hb as [Hyp Hb].
  - by exists 0.
  - exists (0 - y). split; [done|]. cbn. apply Z.compare_lt_iff. lia.
  - rewrite (proj2 (Z.eqb_neq x 0)) by lia. cbn [negb andb]. exists (x - 0). split; [done|]. cbn. apply Z.compare_gt_iff. lia.
  - rewrite (proj2 (Z.eqb_neq x 0)) by lia. cbn [negb andb]. destruct (Z.eqb_spec x y) as [->|Hxy].
    + cbn [byte_order]. rewrite Z.eqb_refl. apply IH; auto. lia.
    + eexists. split; [done|]. by apply byte_order_first.
Qed.
(** [strcmp] ends and its sign is the order of the two strings as sequences of
    bytes; in particular it is zero exactly on equal strings. *)
Theorem strcmp_correct m p q a b :
  positive a -> positive b -> stored m p (a ++ [0]) -> stored m q (b ++ [0]) ->
  exists r, strcmp m p q = Ret r /\ (r ?= 0) = byte_order a b /\ (r = 0 <-> a = b).
Proof.
  intros Ha Hb Hp Hq. destruct (strcmp_loop_spec a (rounds m) b m p q) as (r & E & O); auto.
  - apply stored_size in Hp. rewrite length_app in Hp. cbn in Hp. lia.
  - exists r. split_and!; [done|done|]. by rewrite <-byte_order_eq, <-O, Z.compare_eq_iff.
Qed.

Lemma strncmp_loop_spec k : forall fuel a b m p q,
  positive a -> positive b -> (length (take k a) < fuel)%nat -> stored m p (take k (a ++ [0])) -> stored m q (take k (b ++ [0])) ->
  exists r, strncmp_loop fuel m p q (Z.of_nat k) = Ret r /\ (r ?= 0) = byte_order (take k a) (take k b).
Proof.
  induction k as [|k IH]; intros [|f] a b m p q Ha Hb Hf Hp Hq; cbn [length take] in *; try lia; cbn [strncmp_loop]; [by exists 0|].
  rewrite (proj2 (Z.eqb_neq _ 0)) by lia. replace (Z.of_nat (S k) - 1) with (Z.of_nat k) by lia.
  destruct a as [|x a], b as [|y b]; cbn [app take] in *; apply stored_cons in Hp as [Hx Hp], Hq as [Hy Hq]; do 2 mem_step;
    try apply Forall_cons in Ha as [Hxp Ha]; try apply Forall_cons in Hb as [Hyp Hb].
  - by exists 0.
  - exists (0 - y). split; [done|]. cbn. apply Z.compare_lt_iff. lia.
  - rewrite (proj2 (Z.eqb_neq x 0)) by lia. cbn [negb andb]. exists (x - 0). split; [done|]. cbn. apply Z.compare_gt_iff. lia.
  - rewrite (proj2 (Z.eqb_neq x 0)) by lia. cbn [negb andb]. destruct (Z.eqb_spec x y) as [->|Hxy].
    + cbn [byte_order]. rewrite Z.eqb_refl. apply IH; auto. cbn [length] in Hf. lia.
    + eexists. split; [done|]. by apply byte_order_first.
Qed.
Lemma strncmp_correct m p q a b k :
  positive a -> positive b -> stored m p (take k (a ++ [0])) -> stored m q (take k (b ++ [0])) ->
  exists r, strncmp m p q (Z.of_nat k) = Ret r /\ (r ?= 0) = byte_order (take k a) (take k b).
Proof.
  intros Ha Hb Hp Hq. apply strncmp_loop_spec; auto. apply stored_size in Hp. rewrite length_take, length_app in *. lia.
Qed.

(** ** Searching *)

Lemma skip_string_spec l : forall fuel m p,
  0 ∉ l -> (length l < fuel)%nat -> stored m p (l ++ [0]) -> skip_string fuel m p = Ret (p + Z.of_nat (length l)).
Proof.
  induction l as [|x l IH]; intros [|f] m p Hl Hf Hp; cbn [length app] in *; try lia; cbn [skip_string];
    apply stored_cons in Hp as [Hx Hp]; mem_step.
  - by rewrite Z.add_0_r.
  - apply not_elem_of_cons in Hl as [Hx0 Hl]. rewrite (proj2 (Z.eqb_neq x 0)) by done. rewrite IH by (done || lia). f_equal. lia.
Qed.
Lemma skip_rounds m p l : 0 ∉ l -> stored m p (l ++ [0]) -> skip_string (rounds m) m p = Ret (p + Z.of_nat (length l)).
Proof. intros Hl Hp. apply skip_string_spec; auto. apply stored_size in Hp. rewrite length_app in Hp. cbn in Hp. lia. Qed.
Lemma strlen_correct m s l : 0 ∉ l -> stored m s (l ++ [0]) -> strlen m s = Ret (Z.of_nat (length l)).
Proof. intros Hl Hs. unfold strlen. rewrite (skip_rounds _ _ l) by done. cbn. f_equal. lia. Qed.

Lemma strnlen_loop_spec l : forall fuel m s max i,
  0 ∉ l -> (length (take (max - i) l) < fuel)%nat -> (i <= max)%nat -> stored m (s + Z.of_nat i) (take (max - i) (l ++ [0])) ->
  strnlen_loop fuel m s (Z.of_nat max) (Z.of_nat i) = Ret (Z.of_nat (min max (i + length l))).
Proof.
  induction l as [|x l IH]; intros [|f] m s max i Hl Hf Hi Hs; cbn [length app] in *; try lia; cbn [strnlen_loop];
    (case_if; bool_to_prop; [|f_equal; lia]); destruct (max - i)%nat as [|k] eqn:Ek; try lia; cbn [take] in Hs;
    apply stored_cons in Hs as [Hx Hs]; mem_step; [do 2 f_equal; lia|].
  apply not_elem_of_cons in Hl as [Hx0 Hl]. rewrite (proj2 (Z.eqb_neq x 0)) by done.
  replace (Z.of_nat i + 1) with (Z.of_nat (S i)) by lia. replace k with (max - S i)%nat in * by lia.
  rewrite IH; [do 2 f_equal; lia|done| |lia|].
  - cbn in Hf. lia.
  - by replace (s + Z.of_nat (S i)) with (s + Z.of_nat i + 1) by lia.
Qed.
Lemma strnlen_correct m s l max :
  0 ∉ l -> stored m s (take max (l ++ [0])) -> strnlen m s (Z.of_nat max) = Ret (Z.of_nat (min max (length l))).
Proof.
  intros Hl Hs. unfold strnlen. rewrite (strnlen_loop_spec l _ m s max 0); [done|done| |lia|].
  - apply stored_size in Hs. rewrite Nat.sub_0_r, length_take in *. rewrite length_app in Hs. lia.
  - by rewrite Z.add_0_r, Nat.sub_0_r.
Qed.

Lemma strchr_loop_spec c l1 : forall fuel m p l2,
  c ∉ l1 -> 0 ∉ l1 -> (length l1 < fuel)%nat -> stored m p (l1 ++ c :: l2) -> strchr_loop fuel m p c = Ret (p + Z.of_nat (length l1)).
Proof.
  induction l1 as [|x l1 IH]; intros [|f] m p l2 Hc Hl Hf Hp; cbn [length app] in *; try lia; cbn [strchr_loop];
    apply stored_cons in Hp as [Hx Hp]; mem_step.
  - by rewrite Z.eqb_refl, Z.add_0_r.
  - apply not_elem_of_cons in Hl as [Hx0 Hl], Hc as [Hxc Hc]. rewrite (proj2 (Z.eqb_neq x c)), (proj2 (Z.eqb_neq x 0)) by done.
    rewrite (IH f m (p + 1) l2) by (done || lia). f_equal. lia.
Qed.
Lemma strchr_loop_none c l : forall fuel m p,
  c ∉ l -> c <> 0 -> 0 ∉ l -> (length l < fuel)%nat -> stored m p (l ++ [0]) -> strchr_loop fuel m p c = Ret 0.
Proof.
  induction l as [|x l IH]; intros [|f] m p Hc Hc0 Hl Hf Hp; cbn [length app] in *; try lia; cbn [strchr_loop];
    apply stored_cons in Hp as [Hx Hp]; mem_step.
  - by rewrite (proj2 (Z.eqb_neq 0 c)) by done.
  - apply not_elem_of_cons in Hl as [Hx0 Hl], Hc as [Hxc Hc]. rewrite (proj2 (Z.eqb_neq x c)), (proj2 (Z.eqb_neq x 0)) by done.
    by rewrite IH by (done || lia).
Qed.

Lemma snoc_split {A} (l : list A) z l1 c l2 : l ++ [z] = l1 ++ c :: l2 -> exists k, l = l1 ++ k.
Proof.
  destruct l2 as [|y k _] using rev_ind; intros E.
  - apply app_inj_tail in E as [-> _]. exists []. by rewrite app_nil_r.
  - rewrite app_comm_cons, app_assoc in E. apply app_inj_tail in E as [-> _]. by eexists.
Qed.
Lemma strrchr_loop_spec c l1 l2 : forall fuel m start,
  c ∉ l2 -> (length l2 < fuel)%nat -> stored m start (l1 ++ c :: l2) ->
  strrchr_loop fuel m start (start + Z.of_nat (length l1 + length l2)) c = Ret (start + Z.of_nat (length l1)).
Proof.
  induction l2 as [|x l2 IH] using rev_ind; intros [|f] m start Hc Hf Hp; rewrite ?length_app in *; cbn [length] in *; try lia; cbn [strrchr_loop].
  - rewrite Nat.add_0_r. apply stored_app in Hp as [_ [Hx _]%stored_cons]. case_if; [|done]. mem_step. by rewrite Z.eqb_refl.
  - rewrite (proj2 (Z.ltb_lt _ _)) by lia. rewrite app_comm_cons, app_assoc in Hp. apply stored_app in Hp as [Hp [Hx _]%stored_cons].
    rewrite length_app in Hx. cbn [length] in Hx.
    replace (start + Z.of_nat (length l1 + S (length l2))) with (start + Z.of_nat (length l1 + (length l2 + 1))) in Hx by lia. mem_step.
    rewrite (proj2 (Z.eqb_neq x c)) by set_solver. cbn [negb].
    replace (start + Z.of_nat (length l1 + (length l2 + 1)) - 1) with (start + Z.of_nat (length l1 + length l2)) by lia.
    apply IH; [set_solver|lia|done].
Qed.
Lemma strrchr_loop_none c l : forall fuel m start,
  c ∉ l -> (0 < length l)%nat -> (length l <= fuel)%nat -> stored m start l ->
  strrchr_loop fuel m start (start + Z.of_nat (length l) - 1) c = Ret start.
Proof.
  induction l as [|x l IH] using rev_ind; intros [|f] m start Hc Hn Hf Hp; rewrite ?length_app in *; cbn [length] in *; try lia; cbn [strrchr_loop].
  replace (start + Z.of_nat (length l + 1) - 1) with (start + Z.of_nat (length l)) by lia.
  case_if; bool_to_prop; [|f_equal; lia]. apply stored_app in Hp as [Hp [Hx _]%stored_cons]. mem_step.
  rewrite (proj2 (Z.eqb_neq x c)) by set_solver. cbn [negb]. apply IH; [set_solver|lia|lia|done].
Qed.

(** [strchr] and [strrchr] return the first and the last place of a byte in
    a string, its terminating zero included, or 0 when it does not occur. *)
Theorem string_search_correct m p c l :
  0 ∉ l -> stored m p (l ++ [0]) ->
  (forall l1 l2, l ++ [0] = l1 ++ c :: l2 -> c ∉ l1 -> strchr m p c = Ret (p + Z.of_nat (length l1)))
  /\ (forall l1 l2, l ++ [0] = l1 ++ c :: l2 -> c ∉ l2 -> strrchr m p c = Ret (p + Z.of_nat (length l1)))
  /\ (c ∉ l ++ [0] -> strchr m p c = Ret 0 /\ strrchr m p c = Ret 0).
Proof.
  intros Hl Hp. pose proof (stored_size _ _ _ Hp) as Hr. rewrite length_app in Hr. cbn in Hr. split_and!.
  - intros l1 l2 E Hc. destruct (snoc_split _ _ _ _ _ E) as [k ->]. rewrite E in Hp. apply (strchr_loop_spec c l1 _ _ _ l2); [done|set_solver| |done].
    rewrite length_app in Hr. lia.
  - intros l1 l2 E Hc. assert (Hn : length l = (length l1 + length l2)%nat).
    { apply (f_equal length) in E. rewrite !length_app in E. cbn in E. lia. }
    unfold strrchr. rewrite (skip_rounds _ _ l) by done. cbn [mbind outcome_bind]. rewrite Hn.
    rewrite E in Hp. rewrite (strrchr_loop_spec c l1 l2) by (done || lia). cbn [mbind outcome_bind].
    apply stored_app in Hp as [_ [Hx _]%stored_cons]. case_if; [|done]. mem_step. by rewrite Z.eqb_refl.
  - intros Hc. assert (c ∉ l /\ c <> 0) as [Hc1 Hc0] by set_solver. split; [by apply (strchr_loop_none c l); auto; lia|].
    unfold strrchr. rewrite (skip_rounds _ _ l) by done. cbn [mbind outcome_bind].
    replace (p + Z.of_nat (length l)) with (p + Z.of_nat (length (l ++ [0])) - 1) by (rewrite length_app; cbn; lia).
    rewrite (strrchr_loop_none c (l ++ [0])); [|done|by rewrite length_app; cbn; lia|by rewrite length_app; cbn; lia|done].
    cbn [mbind outcome_bind]. rewrite Z.eqb_refl. destruct l as [|x l]; cbn [app] in *; apply stored_cons in Hp as [Hx _]; mem_step;
      (rewrite (proj2 (Z.eqb_neq _ c)) by set_solver); done.
Qed.

Lemma memchr_loop_spec c l1 : forall fuel m p l2,
  c mod 256 ∉ l1 -> (length l1 < fuel)%nat -> stored m p (l1 ++ c mod 256 :: l2) ->
  memchr_loop fuel m p c (Z.of_nat (length (l1 ++ c mod 256 :: l2))) = Ret (p + Z.of_nat (length l1)).
Proof.
  induction l1 as [|x l1 IH]; intros [|f] m p l2 Hc Hf Hp; cbn [length app] in *; try lia; cbn [memchr_loop];
    apply stored_cons in Hp as [Hx Hp]; (rewrite (proj2 (Z.eqb_neq _ 0)) by lia); mem_step.
  - by rewrite Z.eqb_refl, Z.add_0_r.
  - apply not_elem_of_cons in Hc as [Hxc Hc]. rewrite (proj2 (Z.eqb_neq x _)) by done.
    replace (Z.of_nat (S _) - 1) with (Z.of_nat (length (l1 ++ c mod 256 :: l2))) by lia.
    rewrite (IH f m (p + 1) l2) by (done || lia). f_equal. lia.
Qed.
Lemma memchr_loop_none c l : forall fuel m p,
  c mod 256 ∉ l -> (length l < fuel)%nat -> stored m p l -> memchr_loop fuel m p c (Z.of_nat (length l)) = Ret 0.
Proof.
  induction l as [|x l IH]; intros [|f] m p Hc Hf Hp; cbn [length] in *; try lia; cbn [memchr_loop]; [done|].
  apply stored_cons in Hp as [Hx Hp]. rewrite (proj2 (Z.eqb_neq _ 0)) by lia. mem_step.
  apply not_elem_of_cons in Hc as [Hxc Hc]. rewrite (proj2 (Z.eqb_neq x _)) by done.
  replace (Z.of_nat (S _) - 1) with (Z.of_nat (length l)) by lia. apply IH; auto. lia.
Qed.
Lemma memchr_correct m p c l :
  stored m p l ->
  (forall l1 l2, l = l1 ++ c mod 256 :: l2 -> c mod 256 ∉ l1 -> memchr m p c (Z.of_nat (length l)) = Ret (p + Z.of_nat (length l1)))
  /\ (c mod 256 ∉ l -> memchr m p c (Z.of_nat (length l)) = Ret 0).
Proof.
  intros Hp. pose proof (stored_size _ _ _ Hp) as Hr. split; [|intros; by apply memchr_loop_none].
  intros l1 l2 -> Hc. rewrite length_app in Hr. apply memchr_loop_spec; auto. lia.
Qed.

Lemma strcat_loop_spec b : forall fuel m p q,
  0 ∉ b -> (length b < fuel)%nat -> stored m q (b ++ [0]) -> mapped m p (Z.of_nat (length b)) -> apart p (Z.of_nat (length b)) q (Z.of_nat (S (length b))) ->
  strcat_loop fuel m p q = Ret (put m p b, p + Z.of_nat (length b)).
Proof.
  unfold apart. induction b as [|x b IH]; intros [|f] m p q Hb Hf Hq Hp Ho; cbn [length app] in *; try lia; cbn [strcat_loop put];
    apply stored_cons in Hq as [Hx Hq]; mem_step; [by rewrite Z.add_0_r|].
  apply not_elem_of_cons in Hb as [Hx0 Hb]. rewrite (proj2 (Z.eqb_neq x 0)) by done. apply mapped_cons in Hp as [Ha Hp]. mem_step.
  rewrite IH; [do 2 f_equal; lia|done|lia| |auto with bytes|lia]. apply stored_insert; [rewrite length_app; cbn; lia|done].
Qed.
Lemma strcat_correct m p q a b :
  0 ∉ a -> 0 ∉ b -> stored m p (a ++ [0]) -> stored m q (b ++ [0]) -> mapped m p (Z.of_nat (length a + S (length b))) ->
  apart p (Z.of_nat (length a + S (length b))) q (Z.of_nat (S (length b))) ->
  strcat m p q = Ret (put m (p + Z.of_nat (length a)) (b ++ [0])).
Proof.
  unfold apart. intros Ha Hb Hp Hq Hm Ho. unfold strcat. rewrite (skip_rounds _ _ a) by done. cbn [mbind outcome_bind].
  pose proof (stored_size _ _ _ Hq) as Hr. rewrite length_app in Hr. cbn in Hr.
  rewrite (strcat_loop_spec b); [|done|lia|done|intros x Hx; apply Hm; lia|unfold apart; lia]. cbn [mbind outcome_bind].
  rewrite st_Ret; [by rewrite put_snoc|]. apply (put_mapped _ _ _ _ _ Hm). lia.
Qed.

(** ** Sorting *)

Lemma byte_swap_spec x : forall fuel y m l r,
  length x = length y -> (length x < fuel)%nat -> stored m l x -> stored m r y -> l + Z.of_nat (length x) <= r ->
  byte_swap fuel m l r (Z.of_nat (length x)) = Ret (put (put m l y) r x).
Proof.
  induction x as [|a x IH]; intros [|f] [|b y] m l r Hn Hf Hx Hy Hr; cbn [length] in *; try lia; cbn [byte_swap put]; [done|].
  apply stored_cons in Hx as [Ha Hx], Hy as [Hb Hy]. rewrite (proj2 (Z.eqb_neq _ 0)) by lia. do 2 mem_step.
  do 2 (rewrite st_Ret by (rewrite ?lookup_insert_ne by lia; by eexists); cbn [mbind outcome_bind]).
  replace (Z.of_nat (S _) - 1) with (Z.of_nat (length x)) by lia. rewrite (IH f y); [|lia|lia| | |lia].
  - by rewrite (put_insert _ (l + 1) y) by lia.
  - do 2 (apply stored_insert; [lia|]). done.
  - do 2 (apply stored_insert; [lia|]). done.
Qed.
Lemma put_update m b P x y Q : length x = length y ->
  put (put m b (P ++ x ++ Q)) (b + Z.of_nat (length P)) y = put m b (P ++ y ++ Q).
Proof.
  intros H. rewrite !put_app, H. rewrite <-(put_comm _ _ y _ Q) by lia. by rewrite put_over by done.
Qed.

Section Sort.
  (** The comparison that is passed looks at the [k] bytes of the two elements;
      its sign is a total preorder. *)
  Context (compare : bytes -> Z -> Z -> outcome Z) (cmp : list Z -> list Z -> Z) (k : nat).
  Hypothesis Hcompare : forall m p q x y, length x = k -> length y = k -> stored m p x -> stored m q y -> compare m p q = Ret (cmp x y).
  Hypothesis Htotal : forall x y, 0 < cmp x y -> cmp y x <= 0.
  Hypothesis Htrans : forall x y z, cmp x y <= 0 -> cmp y z <= 0 -> cmp x z <= 0.

Definition elements (es : list (list Z)) : Prop := Forall (fun e => length e = k) es.
Definition same (x y : list Z) : Prop := cmp x y <= 0 /\ cmp y x <= 0.
#[local] Instance same_dec x y : Decision (same x y).
Proof. unfold same. apply _. Defined.

Lemma length_elements es : elements es -> length (concat es) = (length es * k)%nat.
Proof. induction 1 as [|e es He _ IH]; [done|]. cbn. rewrite length_app, IH, He. lia. Qed.

(** The place of element number [length p]. *)
Lemma stored_element m base p e q : elements (p ++ e :: q) ->
  stored (put m base (concat (p ++ e :: q))) (base + Z.of_nat (length p) * Z.of_nat k) e.
Proof.
  intros [Hp _]%Forall_app. pose proof (put_stored m base (concat (p ++ e :: q))) as H. revert H. generalize (put m base (concat (p ++ e :: q))).
  intros m' H. rewrite concat_app in H. apply stored_app in H as [_ H]. cbn [concat] in H. apply stored_app in H as [H _].
  rewrite (length_elements p) in H by done. by rewrite Nat2Z.inj_mul in H.
Qed.

Lemma stored_second m base p e x q : elements (p ++ e :: x :: q) ->
  stored (put m base (concat (p ++ e :: x :: q))) (base + Z.of_nat (S (length p)) * Z.of_nat k) x.
Proof.
  intros H. change (e :: x :: q) with ([e] ++ x :: q) in *. rewrite app_assoc in *.
  replace (S (length p)) with (length (p ++ [e])) by (rewrite length_app; cbn; lia). by apply stored_element.
Qed.
Lemma swap_elements m base p y x q :
  elements (p ++ y :: x :: q) -> mapped m base (Z.of_nat (length (concat (p ++ y :: x :: q)))) ->
  let M es := put m base (concat es) in
  byte_swap (rounds (M (p ++ y :: x :: q))) (M (p ++ y :: x :: q)) (base + Z.of_nat (length p) * Z.of_nat k) (base + Z.of_nat (S (length p)) * Z.of_nat k) (Z.of_nat k) =
  Ret (M (p ++ x :: y :: q)).
Proof.
  intros He Hm M. pose proof (stored_element m base p y (x :: q) He) as Hy. pose proof (stored_second m base p y x q He) as Hx.
  pose proof He as [Hp [Ly [Lx Hq]%Forall_cons]%Forall_cons]%Forall_app. fold (M (p ++ y :: x :: q)) in *.
  rewrite <-Ly at 3. rewrite (byte_swap_spec y _ x); [|lia|by eapply stored_size|done|done|lia].
  f_equal. unfold M. rewrite !concat_app. cbn [concat].
  replace (Z.of_nat (length p) * Z.of_nat k) with (Z.of_nat (length (concat p))) by (rewrite length_elements by done; lia).
  rewrite put_update by lia. rewrite !(app_assoc (concat p) x).
  replace (base + Z.of_nat (S (length p)) * Z.of_nat k) with (base + Z.of_nat (length (concat p ++ x)))
    by (rewrite length_app, length_elements by done; lia).
  rewrite put_update by lia. by rewrite <-app_assoc.
Qed.

(** [sift r x]: [x] moved down a prefix, which [r] holds last element first. *)
Fixpoint sift (r : list (list Z)) (x : list Z) : list (list Z) :=
  match r with [] => [x] | y :: r' => if 0 <? cmp y x then sift r' x ++ [y] else rev r ++ [x] end.

Lemma qsort_inner_spec base r : forall fuel m x q,
  elements (rev r ++ x :: q) -> (length r < fuel)%nat -> mapped m base (Z.of_nat (length (concat (rev r ++ x :: q)))) ->
  qsort_inner fuel compare (put m base (concat (rev r ++ x :: q))) base (Z.of_nat k) (Z.of_nat (length r)) =
  Ret (put m base (concat (sift r x ++ q))).
Proof.
  induction r as [|y r IH]; intros [|f] m x q He Hf Hm; cbn [length] in *; try lia; cbn [qsort_inner sift]; [done|].
  rewrite (proj2 (Z.eqb_neq _ 0)) by lia. cbn [rev] in *. rewrite <-app_assoc in *. cbn [app] in *.
  replace (Z.of_nat (S (length r)) - 1) with (Z.of_nat (length r)) by lia.
  pose proof (stored_element m base (rev r) y (x :: q) He) as Hy. pose proof (stored_second m base (rev r) y x q He) as Hx.
  pose proof He as [Hr [Ly [Lx Hq]%Forall_cons]%Forall_cons]%Forall_app. rewrite length_rev in *.
  rewrite (Hcompare _ _ _ y x) by done. cbn [mbind outcome_bind]. case_if; [|by rewrite <-!app_assoc].
  pose proof (swap_elements m base (rev r) y x q He Hm) as Hs. cbn zeta in Hs. rewrite length_rev in Hs. rewrite Hs. cbn [mbind outcome_bind].
  rewrite IH; [by rewrite <-app_assoc| |lia|].
  - apply Forall_app. split; [done|]. by apply Forall_cons; split; [|apply Forall_cons].
  - revert Hm. rewrite !concat_app. cbn [concat]. rewrite !length_app. intros Hm z Hz. apply Hm. lia.
Qed.

Lemma sift_perm r x : sift r x ≡ₚ x :: r.
Proof.
  induction r as [|y r IH]; cbn [sift]; [done|]. case_if.
  - rewrite IH. cbn. by rewrite <-Permutation_cons_append.
  - cbn. rewrite <-!Permutation_cons_append. by rewrite <-Permutation_rev.
Qed.
Definition ordered : list (list Z) -> Prop := StronglySorted (fun x y => cmp x y <= 0).
Lemma ordered_snoc l x : ordered (l ++ [x]) <-> ordered l /\ Forall (fun y => cmp y x <= 0) l.
Proof.
  unfold ordered. induction l as [|y l IH]; cbn [app]; [split; [split; constructor|intros _; repeat constructor]|].
  split.
  - intros [H1 H2]%StronglySorted_inv. apply IH in H1 as [H1 H3]. apply Forall_app in H2 as [H2 H4]. apply Forall_cons in H4 as [H4 _].
    split; by constructor.
  - intros [[H1 H2]%StronglySorted_inv [H3 H4]%Forall_cons]. constructor; [by apply IH|]. apply Forall_app. by repeat constructor.
Qed.
Lemma sift_ordered r x : ordered (rev r) -> ordered (sift r x).
Proof.
  induction r as [|y r IH]; cbn [sift rev]; intros H; [repeat constructor|]. pose proof H as [H1 H2]%ordered_snoc. case_if; bool_to_prop.
  - apply ordered_snoc. split; [auto|]. rewrite sift_perm. apply Forall_cons. split; [by apply Htotal|]. by rewrite (Permutation_rev r).
  - apply ordered_snoc. split; [done|]. apply Forall_app. split; [|by repeat constructor].
    eapply Forall_impl; [exact H2|]. intros z Hz. by apply (Htrans _ y).
Qed.
(** [x] passes only elements that are not the same as [x]. *)
Lemma sift_stable r x z : filter (same z) (sift r x) = filter (same z) (rev r ++ [x]).
Proof.
  induction r as [|y r IH]; cbn [sift rev]; [done|]. case_if; bool_to_prop; [|done].
  rewrite <-app_assoc, !filter_app, IH, filter_app, <-app_assoc. f_equal. rewrite !filter_cons, !filter_nil.
  destruct (decide (same z y)) as [[Hy1 Hy2]|], (decide (same z x)) as [[Hx1 Hx2]|]; try done.
  pose proof (Htrans y z x Hy2 Hx1). lia.
Qed.

Fixpoint insertion (l rest : list (list Z)) : list (list Z) :=
  match rest with [] => l | x :: rest => insertion (sift (rev l) x) rest end.
Lemma sift_length r x : length (sift r x) = S (length r).
Proof. by rewrite sift_perm. Qed.
Lemma insertion_correct rest : forall l, ordered l ->
  insertion l rest ≡ₚ l ++ rest /\ ordered (insertion l rest) /\ (forall z, filter (same z) (insertion l rest) = filter (same z) (l ++ rest)).
Proof.
  induction rest as [|x rest IH]; intros l H; cbn [insertion]; [by rewrite app_nil_r|].
  destruct (IH (sift (rev l) x)) as (A & B & C); [apply sift_ordered; by rewrite rev_involutive|]. split_and!; [|done|].
  - rewrite A, sift_perm, <-Permutation_rev. by rewrite <-Permutation_middle.
  - intros z. rewrite C, filter_app, sift_stable, rev_involutive, <-filter_app. by rewrite <-app_assoc.
Qed.

Lemma elements_rounds m base es : elements es -> (0 < k)%nat -> stored m base (concat es) -> (length es < rounds m)%nat.
Proof. intros He Hk Hs%stored_size. rewrite length_elements in Hs by done. nia. Qed.
Lemma elements_perm es es' : es ≡ₚ es' -> elements es -> elements es' /\ length (concat es') = length (concat es).
Proof.
  intros H He. assert (He' : elements es') by by unfold elements; rewrite <-H. split; [done|].
  by rewrite !length_elements, H by done.
Qed.
Lemma qsort_outer_spec base rest : forall fuel m l,
  elements (l ++ rest) -> (0 < k)%nat -> (length rest < fuel)%nat -> mapped m base (Z.of_nat (length (concat (l ++ rest)))) ->
  qsort_outer fuel compare (put m base (concat (l ++ rest))) base (Z.of_nat (length (l ++ rest))) (Z.of_nat k) (Z.of_nat (length l)) =
  Ret (put m base (concat (insertion l rest))).
Proof.
  induction rest as [|x rest IH]; intros [|f] m l He Hk Hf Hm; cbn [length] in *; try lia; cbn [qsort_outer insertion].
  - by rewrite app_nil_r, Z.ltb_irrefl.
  - rewrite length_app. cbn [length]. rewrite (proj2 (Z.ltb_lt _ _)) by lia.
    pose proof (qsort_inner_spec base (rev l) (rounds (put m base (concat (l ++ x :: rest)))) m x rest) as Hi.
    rewrite rev_involutive, length_rev in Hi. rewrite Hi; [|done| |done].
    + cbn [mbind outcome_bind]. assert (Hp : l ++ x :: rest ≡ₚ sift (rev l) x ++ rest).
    { rewrite sift_perm, <-Permutation_rev. by rewrite <-Permutation_middle. }
    destruct (elements_perm _ _ Hp He) as [He' Hl']. specialize (IH f m (sift (rev l) x) He' Hk).
    rewrite length_app, sift_length, length_rev, Hl' in IH.
    replace (Z.of_nat (length l + S (length rest))) with (Z.of_nat (S (length l) + length rest)) by lia.
    replace (Z.of_nat (length l) + 1) with (Z.of_nat (S (length l))) by lia. apply IH; [lia|done].
    + pose proof (elements_rounds _ base _ He Hk (put_stored m base _)) as Hr. rewrite length_app in Hr. lia.
Qed.

(** C33: [qsort] of [es], elements of [k] bytes side by side, ends and leaves the
    same elements in order, those that compare as equal in the order in which they
    were; it changes no other byte. *)
Theorem qsort_correct m base es :
  elements es -> (0 < k)%nat -> base <> 0 -> stored m base (concat es) ->
  exists es', qsort compare m base (Z.of_nat (length es)) (Z.of_nat k) = Ret (put m base (concat es'))
    /\ es' ≡ₚ es /\ ordered es' /\ (forall z, filter (same z) es' = filter (same z) es) /\ stored (put m base (concat es')) base (concat es').
Proof.
  intros He Hk Hb Hs. unfold qsort. rewrite (proj2 (Z.eqb_neq base 0)), (proj2 (Z.eqb_neq _ 0)) by lia. cbn [orb].
  case_if; bool_to_prop.
  - exists es. rewrite put_same by done. split_and!; [done|done| |done|done].
    destruct es as [|x [|y es]]; cbn in *; [repeat constructor|repeat constructor|lia].
  - destruct es as [|x es]; [cbn in *; lia|]. exists (insertion [x] es).
    destruct (insertion_correct es [x]) as (A & B & C); [repeat constructor|]. split_and!; [|done|done|done|apply put_stored].
    rewrite <-(put_same m base _ Hs) at 2. apply (qsort_outer_spec base es (rounds m) m [x]); [done|done| |by apply stored_mapped].
    pose proof (elements_rounds _ _ _ He Hk Hs) as Hr. cbn in Hr. lia.
Qed.
End Sort.

(** ** Numbers *)

Definition decimal (v : Z) (ds : list Z) : Z := fold_left (fun v d => v * 10 + d) ds v.
Definition digits : list Z -> Prop := Forall (fun d => 0 <= d <= 9).

Lemma decimal_mono ds : forall v, digits ds -> 0 <= v -> v <= decimal v ds.
Proof.
  induction ds as [|d ds IH]; intros v Hd Hv; cbn; [lia|]. apply Forall_cons in Hd as [Hd Hds].
  specialize (IH (v * 10 + d) Hds ltac:(lia)). unfold decimal in IH. lia.
Qed.
Lemma int_Ret x : - 2 ^ 31 <= x < 2 ^ 31 -> int x = Ret x.
Proof. intros H. unfold int. by rewrite (proj2 (Z.leb_le _ _)), (proj2 (Z.ltb_lt _ _)) by lia. Qed.

Lemma digits_loop_spec ds e : forall fuel m p v,
  digits ds -> 0 <= v -> decimal v ds + 48 < 2 ^ 31 -> ~ 48 <= e <= 57 -> (length ds < fuel)%nat ->
  stored m p (map (Z.add 48) ds ++ [e]) -> digits_loop fuel m p v = Ret (decimal v ds).
Proof.
  induction ds as [|d ds IH]; intros [|f] m p v Hd Hv Hb He Hf Hp; cbn [length map app] in *; try lia; cbn [digits_loop];
    apply stored_cons in Hp as [Hx Hp]; mem_step; [case_if; bool_to_prop; [lia|done]|].
  apply Forall_cons in Hd as [Hd Hds]. cbn in Hb. pose proof (decimal_mono ds (v * 10 + d) Hds ltac:(lia)) as Hm. unfold decimal in Hm.
  rewrite (proj2 (Z.leb_le 48 _)), (proj2 (Z.leb_le _ 57)) by lia. cbn [andb].
  do 3 (rewrite int_Ret by lia; cbn [mbind outcome_bind]). replace (v * 10 + (48 + d) - 48) with (v * 10 + d) by lia.
  apply IH; auto; lia.
Qed.
Lemma skip_blanks_spec b : forall fuel m p c l,
  Forall (fun x => x = 32 \/ x = 9) b -> c <> 32 -> c <> 9 -> (length b < fuel)%nat -> stored m p (b ++ c :: l) ->
  skip_blanks fuel m p = Ret (p + Z.of_nat (length b)).
Proof.
  induction b as [|x b IH]; intros [|f] m p c l Hb H32 H9 Hf Hp; cbn [length app] in *; try lia; cbn [skip_blanks];
    apply stored_cons in Hp as [Hx Hp]; mem_step.
  - rewrite (proj2 (Z.eqb_neq c 32)), (proj2 (Z.eqb_neq c 9)), Z.add_0_r by done. done.
  - apply Forall_cons in Hb as [Hb Hbs]. replace ((x =? 32) || (x =? 9)) with true by (destruct Hb as [-> | ->]; done).
    rewrite (IH f m (p + 1) c l) by (done || lia). f_equal. lia.
Qed.

(** [atoi] reads a decimal number behind blanks and an optional sign, up to
    the first byte that is no digit, without leaving the range of [int]. *)
Theorem atoi_correct m p b (sign : option bool) d ds e :
  let text := match sign with None => [] | Some true => [45] | Some false => [43] end in
  let value := decimal 0 (d :: ds) in
  Forall (fun x => x = 32 \/ x = 9) b -> digits (d :: ds) -> ~ 48 <= e <= 57 -> value + 48 < 2 ^ 31 ->
  stored m p (b ++ text ++ map (Z.add 48) (d :: ds) ++ [e]) ->
  atoi m p = Ret (match sign with Some true => - value | _ => value end).
Proof.
  intros text value Hb Hd He Hv Hp. pose proof (stored_size _ _ _ Hp) as Hr. rewrite !length_app, length_map in Hr. cbn [length] in Hr.
  assert (Hd' : 0 <= d <= 9) by by apply Forall_cons in Hd as [? _]. unfold atoi.
  pose proof (decimal_mono (d :: ds) 0 Hd ltac:(lia)) as H0. fold value in H0.
  assert (Hs : exists c l, text ++ map (Z.add 48) (d :: ds) ++ [e] = c :: l /\ c <> 32 /\ c <> 9
    /\ (c =? 45) || (c =? 43) = bool_decide (is_Some sign) /\ (c =? 45) = bool_decide (sign = Some true)).
  { destruct sign as [[]|]; cbn; eexists _, _; split_and!; try done; try lia;
      rewrite ?(proj2 (Z.eqb_neq (48 + d) 45)), ?(proj2 (Z.eqb_neq (48 + d) 43)) by lia; done. }
  destruct Hs as (c & l & E & H32 & H9 & Hsg & H45). rewrite E in Hp.
  rewrite (skip_blanks_spec b _ _ _ c l) by (done || lia). cbn [mbind outcome_bind]. apply stored_app in Hp as [_ Hp].
  pose proof Hp as [Hc _]%stored_cons. mem_step. rewrite Hsg, H45. rewrite <-E in Hp. apply stored_app in Hp as [_ Hp].
  rewrite (digits_loop_spec (d :: ds) e); [|done|lia|done|done|cbn; lia|].
  - fold value. clearbody value. cbn [mbind outcome_bind]. destruct sign as [[]|]; cbn; [rewrite int_Ret; [done|lia]|done|done].
  - destruct sign as [[]|]; cbn in Hp |- *; rewrite ?Z.add_0_r in Hp; done.
Qed.

(** ** Concrete runs *)

(** The addresses [a ..] hold [l]. *)
Definition memory (a : Z) (l : list Z) : bytes := list_to_map (imap (fun i x => (a + Z.of_nat i, x)) l).

(** A decision procedure for concrete memories. *)
Lemma stored_check m a l : forallb (fun i => bool_decide (m !! (a + Z.of_nat i) = l !! i)) (seq 0 (length l)) = true -> stored m a l.
Proof.
  intros H i x Hx. rewrite forallb_forall in H. specialize (H i). rewrite bool_decide_eq_true in H. rewrite H; [done|].
  apply in_seq. apply lookup_lt_Some in Hx. lia.
Qed.
Ltac in_memory := apply stored_check; vm_compute; reflexivity.
Lemma mapped_check m a l : forallb (fun i => bool_decide (is_Some (m !! (a + Z.of_nat i)))) (seq 0 l) = true -> mapped m a (Z.of_nat l).
Proof.
  intros H x Hx. rewrite forallb_forall in H. specialize (H (Z.to_nat (x - a))). rewrite bool_decide_eq_true in H.
  replace x with (a + Z.of_nat (Z.to_nat (x - a))) by lia. apply H, in_seq. lia.
Qed.
Ltac is_mapped := apply mapped_check; vm_compute; reflexivity.

(** Ten bytes; the ranges of the copy overlap. *)
Definition ten : bytes := memory 100 [1;2;3;4;5;6;7;8;9;0].
Lemma memmove_correct_witness : stored ten 100 [1;2;3;4;5;6] /\ memmove ten 102 100 6 = Ret (put ten 102 [1;2;3;4;5;6]).
Proof.
  split; [in_memory|].
  apply (memmove_correct ten 102 100 [1;2;3;4;5;6]); [in_memory|is_mapped|lia|cbn; lia].
Defined.

Lemma strncpy_overruns_witness : 0 ∉ [1;2;3] /\ strncpy ten 105 100 3 = Fault.
Proof.
  split; [set_solver|].
  apply (strncpy_overruns ten 105 100 [1;2;3]); [set_solver|in_memory|is_mapped|right; cbn; lia|].
  vm_compute. reflexivity.
Defined.

(** Elements of two bytes, compared by their first byte. *)
Definition first_byte (m : bytes) (p q : Z) : outcome Z := x ← ld m p; y ← ld m q; Ret (x - y).
Definition first_order (x y : list Z) : Z := default 0 (x !! 0%nat) - default 0 (y !! 0%nat).
Definition table : bytes := memory 64 [3;0; 1;1; 3;2; 2;3].
Lemma qsort_correct_witness :
  exists es', qsort first_byte table 64 4 2 = Ret (put table 64 (concat es')) /\ ordered first_order es' /\ concat es' = [1;1; 2;3; 3;0; 3;2].
Proof.
  destruct (qsort_correct first_byte first_order 2) with (m := table) (base := 64) (es := [[3;0]; [1;1]; [3;2]; [2;3]]) as (es' & A & B & C & D & F).
  - intros m p q [|x lx] [|y ly] Hx Hy Sx Sy; try done. apply stored_cons in Sx as [Sx _], Sy as [Sy _].
    unfold first_byte. rewrite (ld_Ret _ _ _ Sx), (ld_Ret _ _ _ Sy). done.
  - unfold first_order. intros. lia.
  - unfold first_order. intros. lia.
  - repeat constructor.
  - lia.
  - lia.
  - in_memory.
  - exists es'. split; [exact A|]. split; [exact C|].
    assert (E : Ret (put table 64 (concat es')) = Ret (put table 64 [1;1; 2;3; 3;0; 3;2])).
    { transitivity (qsort first_byte table 64 4 2); [symmetry; exact A|vm_compute; reflexivity]. }
    assert (E' : put table 64 (concat es') = put table 64 [1;1; 2;3; 3;0; 3;2]) by congruence.
    assert (L : length (concat es') = 8%nat).
    { rewrite (length_elements 2); [by rewrite B|]. unfold elements. rewrite B. repeat constructor. }
    rewrite E' in F. apply list_eq_same_length with (n := 8%nat); [done|done|]. intros i x y Hi Hx Hy.
    specialize (F i x Hx). pose proof (put_stored table 64 [1;1; 2;3; 3;0; 3;2] i y Hy) as G. congruence.
Defined.
