(* ===== verification/IntrusiveList.v ===== *)
(** * Circular intrusive lists (kernel/include/list.h)

    The links live in a heap from addresses to [prev]/[next] pairs.  A cycle of
    nodes represents a sequence; the theorems show that the pointer updates of
    [list_init], [list_insert_after], [list_insert_before] and [list_remove]
    implement cons, snoc and deletion on that sequence and touch nothing else.
    The other components keep the sequences and use these operations on them. *)
From S2P Require Import Prelude.

Record list_node := MkNode { prev : Z; next : Z }.
Abbreviation lheap := (gmap Z list_node).

(** ** list.h *)

Definition set_prev (h : lheap) (p v : Z) : outcome lheap :=
  n ← deref (h !! p); Ret (<[p := MkNode v (next n)]> h).
Definition set_next (h : lheap) (p v : Z) : outcome lheap :=
  n ← deref (h !! p); Ret (<[p := MkNode (prev n) v]> h).
Definition get_prev (h : lheap) (p : Z) : outcome Z := n ← deref (h !! p); Ret (prev n).
Definition get_next (h : lheap) (p : Z) : outcome Z := n ← deref (h !! p); Ret (next n).

(** [l->prev = l->next = l] *)
Definition list_init (h : lheap) (l : Z) : outcome lheap :=
  h ← set_next h l l;
  set_prev h l l.

Definition list_insert_after (h : lheap) (l n : Z) : outcome lheap :=
  ln ← get_next h l;
  h ← set_prev h ln n;
  ln ← get_next h l;
  h ← set_next h n ln;
  h ← set_prev h n l;
  set_next h l n.

Definition list_insert_before (h : lheap) (l n : Z) : outcome lheap :=
  lp ← get_prev h l;
  h ← set_next h lp n;
  lp ← get_prev h l;
  h ← set_prev h n lp;
  h ← set_next h n l;
  set_prev h l n.

Definition list_remove (h : lheap) (l : Z) : outcome lheap :=
  ln ← get_next h l;
  lp ← get_prev h l;
  h ← set_prev h ln lp;
  lp ← get_prev h l;
  ln ← get_next h l;
  h ← set_next h lp ln;
  list_init h l.

(** ** The sequence a cycle represents *)

Definition next_of (h : lheap) (p : Z) : option Z := next <$> h !! p.
Definition prev_of (h : lheap) (p : Z) : option Z := prev <$> h !! p.

(** From [p], the [next] links go through [xs] to [q], and the [prev] links of
    the nodes after [p], up to [q], go back. *)
Fixpoint seg (h : lheap) (p : Z) (xs : list Z) (q : Z) : Prop :=
  match xs with
  | [] => next_of h p = Some q /\ prev_of h q = Some p
  | x :: xs => next_of h p = Some x /\ prev_of h x = Some p /\ seg h x xs q
  end.

Definition cycle (h : lheap) (c : list Z) : Prop :=
  match c with
  | [] => False
  | p :: xs => seg h p xs p /\ NoDup (p :: xs)
  end.

(** The list with sentinel [head] holds the nodes [xs], front first. *)
Definition list_rep (h : lheap) (head : Z) (xs : list Z) : Prop := cycle h (head :: xs).

(** ** Lemmas *)

Lemma seg_app h p xs x ys q : seg h p (xs ++ x :: ys) q <-> seg h p xs x /\ seg h x ys q.
Proof. revert p; induction xs as [|y xs IH]; intros p; cbn; [|rewrite IH]; tauto. Qed.

Lemma cycle_rotate h x xs y ys : cycle h (x :: xs ++ y :: ys) -> cycle h (y :: ys ++ x :: xs).
Proof.
  unfold cycle. rewrite !seg_app. intros [[? ?] Hnd]. split; [done|].
  change (NoDup ((y :: ys) ++ (x :: xs))). by rewrite Permutation_app_comm.
Qed.

Lemma seg_mono h h' p xs q :
  seg h p xs q ->
  (forall x, x ∈ p :: xs -> next_of h' x = next_of h x) ->
  (forall x, x ∈ xs ++ [q] -> prev_of h' x = prev_of h x) ->
  seg h' p xs q.
Proof.
  revert p; induction xs as [|x xs IH]; intros p; cbn; intros Hs Hn Hp.
  - destruct Hs. rewrite Hn, Hp by set_solver. done.
  - destruct Hs as (?&?&?). rewrite Hn, Hp by set_solver. split_and!; [done..|].
    apply IH; [done| |]; set_solver.
Qed.

Lemma seg_dom h p xs q x : seg h p xs q -> x ∈ p :: xs -> is_Some (h !! x).
Proof.
  revert p; induction xs as [|y xs IH]; intros p; cbn.
  - intros [Hn _] ->%list_elem_of_singleton. unfold next_of in Hn.
    destruct (h !! p); [eauto|done].
  - intros (Hn&_&Hs) [->|?]%elem_of_cons; [|eauto].
    unfold next_of in Hn. destruct (h !! p); [eauto|done].
Qed.

Lemma cycle_dom h c x : cycle h c -> x ∈ c -> is_Some (h !! x).
Proof. destruct c as [|p xs]; cbn; [done|]. intros [? _]. by eapply seg_dom. Qed.

(** Field updates, seen through [next_of] and [prev_of]. *)
Definition upd_next (h : lheap) p v := alter (fun n => MkNode (prev n) v) p h.
Definition upd_prev (h : lheap) p v := alter (fun n => MkNode v (next n)) p h.

Lemma set_next_Ret h p v : is_Some (h !! p) -> set_next h p v = Ret (upd_next h p v).
Proof.
  intros [n Hn]. unfold set_next, upd_next. rewrite Hn. cbn. f_equal.
  apply map_eq. intros i. rewrite lookup_insert, lookup_alter.
  case_decide; subst; by rewrite ?Hn.
Qed.
Lemma set_prev_Ret h p v : is_Some (h !! p) -> set_prev h p v = Ret (upd_prev h p v).
Proof.
  intros [n Hn]. unfold set_prev, upd_prev. rewrite Hn. cbn. f_equal.
  apply map_eq. intros i. rewrite lookup_insert, lookup_alter.
  case_decide; subst; by rewrite ?Hn.
Qed.
Lemma get_next_Ret h p v : next_of h p = Some v -> get_next h p = Ret v.
Proof. unfold next_of, get_next. destruct (h !! p); cbn; congruence. Qed.
Lemma get_prev_Ret h p v : prev_of h p = Some v -> get_prev h p = Ret v.
Proof. unfold prev_of, get_prev. destruct (h !! p); cbn; congruence. Qed.
Lemma upd_next_dom h p v x : is_Some (upd_next h p v !! x) <-> is_Some (h !! x).
Proof. unfold upd_next. rewrite lookup_alter_is_Some. done. Qed.
Lemma upd_prev_dom h p v x : is_Some (upd_prev h p v !! x) <-> is_Some (h !! x).
Proof. unfold upd_prev. rewrite lookup_alter_is_Some. done. Qed.

Lemma next_upd_next h p v x :
  is_Some (h !! p) -> next_of (upd_next h p v) x = if decide (p = x) then Some v else next_of h x.
Proof.
  intros [n Hn]. unfold next_of, upd_next. rewrite lookup_alter.
  case_decide; subst; [by rewrite Hn|done].
Qed.
Lemma prev_upd_next h p v x : prev_of (upd_next h p v) x = prev_of h x.
Proof.
  unfold prev_of, upd_next. rewrite lookup_alter.
  case_decide; subst; [by destruct (h !! x)|done].
Qed.
Lemma prev_upd_prev h p v x :
  is_Some (h !! p) -> prev_of (upd_prev h p v) x = if decide (p = x) then Some v else prev_of h x.
Proof.
  intros [n Hn]. unfold prev_of, upd_prev. rewrite lookup_alter.
  case_decide; subst; [by rewrite Hn|done].
Qed.
Lemma next_upd_prev h p v x : next_of (upd_prev h p v) x = next_of h x.
Proof.
  unfold next_of, upd_prev. rewrite lookup_alter.
  case_decide; subst; [by destruct (h !! x)|done].
Qed.

#[export] Hint Rewrite prev_upd_next next_upd_prev upd_next_dom upd_prev_dom : cycle.

(** Run the pointer updates of a goal: every access is discharged from the
    fields known in the context. *)
Ltac link_dom := repeat (rewrite upd_next_dom || rewrite upd_prev_dom); eauto.
Ltac link_lookup :=
  repeat (first
    [ rewrite prev_upd_next | rewrite next_upd_prev
    | rewrite next_upd_next by link_dom
    | rewrite prev_upd_prev by link_dom
    | case_decide; [subst; try set_solver|] ]; try congruence).
Ltac link_step :=
  first
    [ erewrite get_next_Ret by (link_lookup; eauto)
    | erewrite get_prev_Ret by (link_lookup; eauto)
    | rewrite set_next_Ret by link_dom
    | rewrite set_prev_Ret by link_dom ];
  rewrite ?ret_bind.

(** Every update of a list leaves the other nodes of the heap as they were. *)
Definition frame (touched : list Z) (h h' : lheap) : Prop :=
  forall x, x ∉ touched -> h' !! x = h !! x.

Lemma frame_upd_next t h h' p v : p ∈ t -> frame t h h' -> frame t h (upd_next h' p v).
Proof.
  intros Hp Hf x Hx. unfold upd_next. rewrite lookup_alter_ne by set_solver. by apply Hf.
Qed.
Lemma frame_upd_prev t h h' p v : p ∈ t -> frame t h h' -> frame t h (upd_prev h' p v).
Proof.
  intros Hp Hf x Hx. unfold upd_prev. rewrite lookup_alter_ne by set_solver. by apply Hf.
Qed.
Lemma frame_refl t h : frame t h h.
Proof. done. Qed.
#[export] Hint Resolve frame_upd_next frame_upd_prev frame_refl : cycle.

Ltac link_seg Hseg := eapply seg_mono; [exact Hseg|intros; link_lookup|intros; link_lookup].

Lemma insert_after_cycle h l n ys :
  cycle h (l :: ys) -> is_Some (h !! n) -> n ∉ l :: ys ->
  exists h', list_insert_after h l n = Ret h' /\ cycle h' (l :: n :: ys) /\
    frame (n :: l :: ys) h h'.
Proof.
  intros Hc Hn Hfresh.
  assert (Hl : is_Some (h !! l)) by (eapply cycle_dom; [done|set_solver]).
  destruct Hc as [Hseg Hnd]. unfold list_insert_after. nodup_split.
  destruct ys as [|y ys]; cbn in Hseg.
  - destruct Hseg as [Hnl Hpl]. repeat link_step.
    eexists; split; [reflexivity|]; split; [|eauto 10 with cycle set_solver].
    split; [cbn; split_and!; link_lookup|nodup_solver].
  - destruct Hseg as (Hnl & Hpy & Hseg). nodup_split.
    assert (Hy : is_Some (h !! y)) by (eapply seg_dom; [done|set_solver]).
    repeat link_step.
    eexists; split; [reflexivity|]; split; [|eauto 10 with cycle set_solver].
    split; [cbn; split_and!; try link_lookup; link_seg Hseg|nodup_solver].
Qed.

(** Linking before [l] is linking after its predecessor. *)
Lemma insert_before_cycle h l n ys :
  cycle h (l :: ys) -> is_Some (h !! n) -> n ∉ l :: ys ->
  exists h', list_insert_before h l n = Ret h' /\ cycle h' (l :: ys ++ [n]) /\
    frame (n :: l :: ys) h h'.
Proof.
  intros Hc Hn Hfresh.
  assert (Hl : is_Some (h !! l)) by (eapply cycle_dom; [done|set_solver]).
  destruct Hc as [Hseg Hnd]. unfold list_insert_before. nodup_split.
  destruct ys as [|y ys _] using rev_ind; cbn in Hseg.
  - destruct Hseg as [Hnl Hpl]. repeat link_step.
    eexists; split; [reflexivity|]; split; [|eauto 10 with cycle set_solver].
    split; [cbn; split_and!; link_lookup|nodup_solver].
  - apply seg_app in Hseg as [Hseg [Hny Hpl]].
    assert (Hnd : NoDup (y :: ys)) by (by rewrite Permutation_cons_append).
    nodup_split.
    assert (Hy : is_Some (h !! y)) by (unfold next_of in Hny; destruct (h !! y); [eauto|done]).
    repeat link_step.
    eexists; split; [reflexivity|]; split; [|eauto 10 with cycle set_solver].
    split.
    + rewrite <-app_assoc. apply seg_app. split; [link_seg Hseg|].
      cbn; split_and!; link_lookup.
    + rewrite <-Permutation_cons_append. nodup_solver.
Qed.

Lemma remove_cycle h l n ys :
  cycle h (l :: n :: ys) ->
  exists h', list_remove h n = Ret h' /\ cycle h' (l :: ys) /\ cycle h' [n] /\
    frame (l :: n :: ys) h h'.
Proof.
  intros Hc.
  assert (Hl : is_Some (h !! l)) by (eapply cycle_dom; [done|set_solver]).
  assert (Hn : is_Some (h !! n)) by (eapply cycle_dom; [done|set_solver]).
  destruct Hc as [Hseg Hnd]. unfold list_remove, list_init. nodup_split.
  destruct ys as [|y ys]; cbn in Hseg.
  - destruct Hseg as (Hnl & Hpn & Hnn & Hpl). repeat link_step.
    eexists; split; [reflexivity|]; split_and!; [..|eauto 10 with cycle set_solver].
    all: split; [cbn; split_and!; link_lookup|nodup_solver].
  - destruct Hseg as (Hnl & Hpn & Hnn & Hpy & Hseg). nodup_split.
    assert (Hy : is_Some (h !! y)) by (eapply seg_dom; [done|set_solver]).
    repeat link_step.
    eexists; split; [reflexivity|]; split_and!; [..|eauto 10 with cycle set_solver].
    + split; [cbn; split_and!; try link_lookup; link_seg Hseg|nodup_solver].
    + split; [cbn; split_and!; link_lookup|nodup_solver].
Qed.

(** The same operations at any node of the list, by turning the cycle. *)
Lemma list_insert_after_rep h head xs l ys n :
  list_rep h head (xs ++ l :: ys) -> is_Some (h !! n) -> n ∉ head :: xs ++ l :: ys ->
  exists h', list_insert_after h l n = Ret h' /\ list_rep h' head (xs ++ l :: n :: ys) /\
    frame (n :: head :: xs ++ l :: ys) h h'.
Proof.
  intros Hc%cycle_rotate Hn Hfresh.
  edestruct insert_after_cycle as (h' & Hr & Hc' & Hf); [exact Hc|done|set_solver|].
  exists h'. split_and!; [done|by apply (cycle_rotate h' l (n :: ys))|].
  intros x Hx. apply Hf. set_solver.
Qed.

Lemma list_insert_before_rep h head xs l ys n :
  list_rep h head (xs ++ l :: ys) -> is_Some (h !! n) -> n ∉ head :: xs ++ l :: ys ->
  exists h', list_insert_before h l n = Ret h' /\ list_rep h' head (xs ++ n :: l :: ys) /\
    frame (n :: head :: xs ++ l :: ys) h h'.
Proof.
  intros Hc%cycle_rotate Hn Hfresh.
  edestruct insert_before_cycle as (h' & Hr & Hc' & Hf); [exact Hc|done|set_solver|].
  exists h'. split_and!; [done| |].
  - rewrite <-app_assoc in Hc'. change (cycle h' (l :: ys ++ head :: xs ++ [n])) in Hc'.
    apply cycle_rotate in Hc'. unfold list_rep.
    by rewrite <-app_assoc in Hc'.
  - intros x Hx. apply Hf. set_solver.
Qed.

Lemma list_remove_rep h head xs l ys :
  list_rep h head (xs ++ l :: ys) ->
  exists h', list_remove h l = Ret h' /\ list_rep h' head (xs ++ ys) /\ list_rep h' l [] /\
    frame (head :: xs ++ l :: ys) h h'.
Proof.
  intros Hc.
  destruct xs as [|x xs _] using rev_ind.
  - destruct (remove_cycle h head l ys Hc) as (h' & ? & ? & ? & ?). eauto.
  - unfold list_rep in Hc. rewrite <-app_assoc in Hc. cbn in Hc.
    apply cycle_rotate in Hc. cbn in Hc.
    edestruct remove_cycle as (h' & Hr & Hc' & Hs & Hf); [exact Hc|].
    exists h'. split_and!; [done| |done|].
    + unfold list_rep. rewrite <-app_assoc. by apply (cycle_rotate h' x ys).
    + intros y Hy. apply Hf. set_solver.
Qed.

Lemma list_init_rep h l :
  is_Some (h !! l) -> exists h', list_init h l = Ret h' /\ list_rep h' l [] /\ frame [l] h h'.
Proof.
  intros Hl. unfold list_init. repeat link_step.
  eexists; split; [reflexivity|]; split; [|eauto 10 with cycle set_solver].
  split; [cbn; split_and!; link_lookup|nodup_solver].
Qed.

(** ** What the header promises *)

(** On a list that represents a sequence, inserting after a node, inserting
    before a node (before the sentinel: at the tail) and removing a node run to
    completion, leave a list that represents the updated sequence, and change no
    other node; a removed node is left linked to itself. *)
Theorem list_operations_refine_sequences h head xs l ys :
  list_rep h head (xs ++ l :: ys) ->
  (forall n, is_Some (h !! n) -> n ∉ head :: xs ++ l :: ys ->
     (exists h', list_insert_after h l n = Ret h' /\
        list_rep h' head (xs ++ l :: n :: ys) /\ frame (n :: head :: xs ++ l :: ys) h h') /\
     (exists h', list_insert_after h head n = Ret h' /\
        list_rep h' head (n :: xs ++ l :: ys) /\ frame (n :: head :: xs ++ l :: ys) h h') /\
     (exists h', list_insert_before h l n = Ret h' /\
        list_rep h' head (xs ++ n :: l :: ys) /\ frame (n :: head :: xs ++ l :: ys) h h') /\
     (exists h', list_insert_before h head n = Ret h' /\
        list_rep h' head ((xs ++ l :: ys) ++ [n]) /\ frame (n :: head :: xs ++ l :: ys) h h')) /\
  (exists h', list_remove h l = Ret h' /\ list_rep h' head (xs ++ ys) /\
     list_rep h' l [] /\ frame (head :: xs ++ l :: ys) h h').
Proof.
  intros Hc. split; [|by apply list_remove_rep].
  intros n Hn Hfresh. split_and!.
  - by apply list_insert_after_rep.
  - by apply insert_after_cycle.
  - by apply list_insert_before_rep.
  - by apply insert_before_cycle.
Qed.

(** A sentinel at 100 and the nodes 1 and 2; node 3 is fresh. *)
Definition demo_heap : lheap :=
  <[100 := MkNode 2 1]> (<[1 := MkNode 100 2]> (<[2 := MkNode 1 100]> (<[3 := MkNode 0 0]> ∅))).

Lemma demo_heap_rep : list_rep demo_heap 100 ([1] ++ 2 :: []).
Proof. split; [vm_compute; tauto|]. repeat constructor; set_solver. Qed.

Lemma list_operations_witness :
  exists h', list_insert_before demo_heap 2 3 = Ret h' /\ list_rep h' 100 [1; 3; 2].
Proof.
  destruct (list_operations_refine_sequences demo_heap 100 [1] 2 [] demo_heap_rep)
    as [H _].
  destruct (H 3) as (_ & _ & (h' & ? & ? & _) & _); [by eexists|set_solver|].
  by exists h'.
Defined.
