(* ===== verification/MemRange.v ===== *)
(** * Sets of physical memory ranges (kernel/memrange.c)

    A [memrange_set] is an array of [MEMRANGE_MAX] ranges and a count.  The
    operations are translated loop by loop over the array; the theorems relate
    them to the set of addresses the ranges cover. *)
From S2P Require Import Prelude.

Definition MEMRANGE_MAX : nat := 64.

Record memrange := MkRange { r_start : Z; r_end : Z }.
Record memrange_set := MkSet { ranges : list memrange; count : nat }.

(** ** Operations *)

(** [for (i = index; i + 1 < set->count; i++) set->ranges[i] = set->ranges[i + 1]] *)
Fixpoint delete_loop (fuel : nat) (rs : list memrange) (cnt i : nat)
  : outcome (list memrange) :=
  match fuel with
  | O => Fault
  | S fuel =>
      if (i + 1 <? cnt)%nat then
        r ← rd rs (i + 1);
        rs ← wr rs i r;
        delete_loop fuel rs cnt (i + 1)
      else Ret rs
  end.

Definition memrange_delete (set : memrange_set) (index : nat) : outcome memrange_set :=
  rs ← delete_loop (S (count set)) (ranges set) (count set) index;
  Ret (MkSet rs (count set - 1)).

Definition memrange_init (set : memrange_set) : memrange_set := MkSet (ranges set) 0.

(** The first range that ends at or after [start]. *)
Fixpoint add_first (fuel : nat) (set : memrange_set) (start : Z) (first : nat)
  : outcome nat :=
  match fuel with
  | O => Fault
  | S fuel =>
      if (first <? count set)%nat then
        r ← rd (ranges set) first;
        if start <=? r_end r then Ret first else add_first fuel set start (first + 1)
      else Ret first
  end.

(** Absorb the ranges that touch [start, end). *)
Fixpoint add_absorb (fuel : nat) (set : memrange_set) (start end_ : Z) (last : nat)
  : outcome (nat * Z * Z) :=
  match fuel with
  | O => Fault
  | S fuel =>
      if (last <? count set)%nat then
        r ← rd (ranges set) last;
        if r_start r <=? end_ then
          let start := if r_start r <? start then r_start r else start in
          let end_ := if end_ <? r_end r then r_end r else end_ in
          add_absorb fuel set start end_ (last + 1)
        else Ret (last, start, end_)
      else Ret (last, start, end_)
  end.

(** [for (i = hi; i > lo; i--) set->ranges[i] = set->ranges[i - 1]] *)
Fixpoint shift_up (fuel : nat) (rs : list memrange) (i lo : nat)
  : outcome (list memrange) :=
  match fuel with
  | O => Fault
  | S fuel =>
      if (lo <? i)%nat then
        r ← rd rs (i - 1);
        rs ← wr rs i r;
        shift_up fuel rs (i - 1) lo
      else Ret rs
  end.

(** [while (last-- > first + 1) memrange_delete(set, first + 1)] *)
Fixpoint add_delete (fuel : nat) (set : memrange_set) (first last : nat)
  : outcome memrange_set :=
  match fuel with
  | O => Fault
  | S fuel =>
      if (first + 1 <? last)%nat then
        set ← memrange_delete set (first + 1);
        add_delete fuel set first (last - 1)
      else Ret set
  end.

Definition memrange_add (set : memrange_set) (start end_ : Z)
  : outcome (Z * memrange_set) :=
  if end_ <=? start then Ret (-1, set) else
  first ← add_first (S (count set)) set start 0;
  '(last, start, end_) ← add_absorb (S (count set)) set start end_ first;
  if (first =? last)%nat then
    if (MEMRANGE_MAX <=? count set)%nat then Ret (-1, set) else
    rs ← shift_up (S (count set)) (ranges set) (count set) first;
    rs ← wr rs first (MkRange start end_);
    Ret (0, MkSet rs (count set + 1))
  else
    set ← add_delete (S (count set)) set first last;
    rs ← wr (ranges set) first (MkRange start end_);
    Ret (0, MkSet rs (count set)).

Fixpoint remove_loop (fuel : nat) (set : memrange_set) (start end_ : Z) (i : nat)
  : outcome (Z * memrange_set) :=
  match fuel with
  | O => Fault
  | S fuel =>
      if (i <? count set)%nat then
        range ← rd (ranges set) i;
        if end_ <=? r_start range then Ret (0, set) else
        if r_end range <=? start then remove_loop fuel set start end_ (i + 1) else
        if (start <=? r_start range) && (r_end range <=? end_) then
          set ← memrange_delete set i;
          remove_loop fuel set start end_ i
        else if start <=? r_start range then
          rs ← wr (ranges set) i (MkRange end_ (r_end range));
          Ret (0, MkSet rs (count set))
        else if r_end range <=? end_ then
          rs ← wr (ranges set) i (MkRange (r_start range) start);
          remove_loop fuel (MkSet rs (count set)) start end_ (i + 1)
        else if (MEMRANGE_MAX <=? count set)%nat then Ret (-1, set)
        else
          rs ← shift_up (S (count set)) (ranges set) (count set) (i + 1);
          rs ← wr rs (i + 1) (MkRange end_ (r_end range));
          rs ← wr rs i (MkRange (r_start range) start);
          Ret (0, MkSet rs (count set + 1))
      else Ret (0, set)
  end.

Definition memrange_remove (set : memrange_set) (start end_ : Z)
  : outcome (Z * memrange_set) :=
  if end_ <=? start then Ret (-1, set)
  else remove_loop (S (count set)) set start end_ 0.

Fixpoint contains_loop (fuel : nat) (set : memrange_set) (start end_ : Z) (i : nat)
  : outcome bool :=
  match fuel with
  | O => Fault
  | S fuel =>
      if (i <? count set)%nat then
        r ← rd (ranges set) i;
        if start <? r_start r then Ret false else
        if (r_start r <=? start) && (end_ <=? r_end r) then Ret true
        else contains_loop fuel set start end_ (i + 1)
      else Ret false
  end.

Definition memrange_contains (set : memrange_set) (start end_ : Z) : outcome bool :=
  if end_ <=? start then Ret false
  else contains_loop (S (count set)) set start end_ 0.

(** [None] is the -1 result, [Some] the two outputs. *)
Definition memrange_get (set : memrange_set) (index : Z) : outcome (option (Z * Z)) :=
  if (index <? 0) || (Z.of_nat (count set) <=? index) then Ret None else
  r ← rd (ranges set) (Z.to_nat index);
  Ret (Some (r_start r, r_end r)).

Fixpoint total_loop (fuel : nat) (set : memrange_set) (bytes : Z) (i : nat)
  : outcome (option Z) :=
  match fuel with
  | O => Fault
  | S fuel =>
      if (i <? count set)%nat then
        r ← rd (ranges set) i;
        let size := r_end r -64 r_start r in
        if bytes +64 size <? bytes then Ret None
        else total_loop fuel set (bytes +64 size) (i + 1)
      else Ret (Some bytes)
  end.

Definition memrange_total (set : memrange_set) : outcome (option Z) :=
  total_loop (S (count set)) set 0 0.

(** ** What a set means *)

(** The live entries. *)
Definition view (set : memrange_set) : list memrange := take (count set) (ranges set).

Definition in_range (x : Z) (r : memrange) : Prop := r_start r <= x < r_end r.
Definition covered (l : list memrange) (x : Z) : Prop := Exists (in_range x) l.

(** Non-empty 64-bit ranges in ascending order with a gap between neighbours,
    all above [lo]. *)
Fixpoint ordered (lo : Z) (l : list memrange) : Prop :=
  match l with
  | [] => True
  | r :: l => lo < r_start r /\ r_start r < r_end r /\ r_end r <= UINT64_MAX /\ ordered (r_end r) l
  end.

Definition wf (set : memrange_set) : Prop :=
  length (ranges set) = MEMRANGE_MAX /\ (count set <= MEMRANGE_MAX)%nat /\ ordered (-1) (view set).

(** ** The array loops *)

Lemma delete_loop_spec fuel rs cnt i :
  (cnt <= length rs)%nat -> (cnt - i < fuel)%nat ->
  exists rs', delete_loop fuel rs cnt i = Ret rs' /\ length rs' = length rs /\
    forall j, rs' !! j = if decide (i <= j /\ j + 1 < cnt)%nat then rs !! (j + 1)%nat else rs !! j.
Proof.
  revert rs i; induction fuel as [|fuel IH]; intros rs i Hlen Hfuel; [lia|]. cbn.
  destruct (Nat.ltb_spec (i + 1) cnt) as [Hlt|Hge].
  - destruct (lookup_lt_is_Some_2 rs (i + 1)) as [r Hr]; [lia|].
    rewrite (rd_Ret _ _ _ Hr), ret_bind, wr_Ret, ret_bind by lia.
    destruct (IH (<[i:=r]> rs) (i + 1)%nat) as (rs' & -> & Hl & Hj);
      [rewrite length_insert; lia|lia|].
    exists rs'. rewrite Hl, length_insert. split_and!; [done..|].
    intros j. rewrite Hj.
    destruct (decide (j = i)) as [->|].
    + rewrite decide_False, decide_True by lia. by rewrite list_lookup_insert_eq by lia.
    + repeat case_decide; rewrite ?list_lookup_insert_ne by lia; lia || done.
  - exists rs. split_and!; [done..|]. intros j. by rewrite decide_False by lia.
Qed.

Lemma shift_up_spec fuel rs i lo :
  (i < length rs)%nat -> (i - lo < fuel)%nat ->
  exists rs', shift_up fuel rs i lo = Ret rs' /\ length rs' = length rs /\
    forall j, rs' !! j = if decide (lo < j <= i)%nat then rs !! (j - 1)%nat else rs !! j.
Proof.
  revert rs i; induction fuel as [|fuel IH]; intros rs i Hlen Hfuel; [lia|]. cbn.
  destruct (Nat.ltb_spec lo i) as [Hlt|Hge].
  - destruct (lookup_lt_is_Some_2 rs (i - 1)) as [r Hr]; [lia|].
    rewrite (rd_Ret _ _ _ Hr), ret_bind, wr_Ret, ret_bind by lia.
    destruct (IH (<[i:=r]> rs) (i - 1)%nat) as (rs' & -> & Hl & Hj);
      [rewrite length_insert; lia|lia|].
    exists rs'. rewrite Hl, length_insert. split_and!; [done..|].
    intros j. rewrite Hj.
    destruct (decide (j = i)) as [->|].
    + rewrite decide_False, decide_True by lia. by rewrite list_lookup_insert_eq by lia.
    + repeat case_decide; rewrite ?list_lookup_insert_ne by lia; lia || done.
  - exists rs. split_and!; [done..|]. intros j. by rewrite decide_False by lia.
Qed.

Lemma view_lookup set i : (i < count set)%nat -> view set !! i = ranges set !! i.
Proof. intros H. unfold view. by rewrite lookup_take_lt by lia. Qed.
Lemma view_length set : (count set <= length (ranges set))%nat -> length (view set) = count set.
Proof. intros H. unfold view. rewrite length_take. lia. Qed.

(** Splitting the live entries at an index. *)
Lemma view_split set pre r post :
  view set = pre ++ r :: post -> (count set <= length (ranges set))%nat ->
  (length pre < count set)%nat /\ ranges set !! length pre = Some r.
Proof.
  intros Hv Hc. assert (length (view set) = count set) as Hl by by apply view_length.
  rewrite Hv, length_app in Hl; cbn in Hl. split; [lia|].
  rewrite <-view_lookup by lia. by rewrite Hv, list_lookup_middle.
Qed.

Lemma memrange_delete_spec set pre r post :
  view set = pre ++ r :: post -> (count set <= length (ranges set))%nat ->
  exists set', memrange_delete set (length pre) = Ret set' /\ view set' = pre ++ post /\
    length (ranges set') = length (ranges set) /\ count set = S (count set').
Proof.
  intros Hv Hc. destruct (view_split _ _ _ _ Hv Hc) as [Hlt Hr].
  unfold memrange_delete.
  destruct (delete_loop_spec (S (count set)) (ranges set) (count set) (length pre))
    as (rs' & -> & Hl & Hj); [done|lia|].
  eexists; split; [reflexivity|]. split_and!; [|done|cbn; lia].
  change (view _) with (take (count set - 1) rs').
  trans (delete (length pre) (view set)); [|by rewrite Hv, delete_middle].
  apply list_eq. intros j. destruct (decide (j < count set - 1)%nat).
  - rewrite lookup_take_lt, Hj by lia.
    destruct (decide (j < length pre)%nat).
    + rewrite list_lookup_delete_lt by lia. rewrite view_lookup by lia.
      by rewrite decide_False by lia.
    + rewrite list_lookup_delete_ge by lia. rewrite view_lookup by lia.
      rewrite decide_True by lia. f_equal; lia.
  - rewrite lookup_take_ge by lia. symmetry. apply lookup_ge_None.
    rewrite length_delete, view_length; [lia|done|].
    rewrite Hv, list_lookup_middle by done. eauto.
Qed.

(** Opening a slot and writing an entry into it. *)
Lemma insert_entry_spec set pre post rs rs' x :
  view set = pre ++ post -> (count set < length (ranges set))%nat ->
  shift_up (S (count set)) (ranges set) (count set) (length pre) = Ret rs ->
  wr rs (length pre) x = Ret rs' ->
  view (MkSet rs' (count set + 1)) = pre ++ x :: post /\
  length rs' = length (ranges set).
Proof.
  intros Hv Hc Hs Hw.
  assert (length (view set) = count set) as Hl by (apply view_length; lia).
  rewrite Hv, length_app in Hl.
  edestruct shift_up_spec as (rs1 & Hs' & Hl1 & Hj); [exact Hc|..]; [|
    rewrite Hs in Hs'; injection Hs' as <-]; [lia|].
  rewrite wr_Ret in Hw by lia. injection Hw as <-.
  split; [|by rewrite length_insert].
  unfold view; cbn. apply list_eq. intros j.
  destruct (decide (j < count set + 1)%nat); [|
    rewrite lookup_take_ge by lia; symmetry; apply lookup_ge_None;
    rewrite length_app; cbn; lia].
  rewrite lookup_take_lt by lia.
  assert (Hold : forall i, (i < count set)%nat -> ranges set !! i = (pre ++ post) !! i).
  { intros i Hi. rewrite <-Hv. by rewrite view_lookup. }
  destruct (decide (j = length pre)) as [->|].
  { rewrite list_lookup_insert_eq by lia. by rewrite list_lookup_middle. }
  rewrite list_lookup_insert_ne, Hj by lia. case_decide.
  - rewrite Hold by lia. rewrite (lookup_app_r pre (x :: post)) by lia.
    rewrite lookup_app_r by lia.
    replace (j - length pre)%nat with (S (j - 1 - length pre)) by lia. done.
  - rewrite Hold by lia. rewrite !lookup_app_l by lia. done.
Qed.

(** Overwriting a live entry. *)
Lemma update_entry_spec set pre r post x rs :
  view set = pre ++ r :: post -> (count set <= length (ranges set))%nat ->
  wr (ranges set) (length pre) x = Ret rs ->
  view (MkSet rs (count set)) = pre ++ x :: post /\ length rs = length (ranges set).
Proof.
  intros Hv Hc Hw. destruct (view_split _ _ _ _ Hv Hc) as [Hlt Hr].
  rewrite wr_Ret in Hw by lia. injection Hw as <-.
  split; [|by rewrite length_insert].
  unfold view in *; cbn. rewrite take_insert_lt by lia. rewrite Hv.
  by rewrite insert_app_r_alt, Nat.sub_diag by lia.
Qed.

(** ** Ordered lists of ranges *)

Fixpoint last_end (lo : Z) (l : list memrange) : Z :=
  match l with [] => lo | r :: l => last_end (r_end r) l end.

Lemma ordered_app lo l1 l2 :
  ordered lo (l1 ++ l2) <-> ordered lo l1 /\ ordered (last_end lo l1) l2.
Proof. revert lo; induction l1 as [|r l1 IH]; intros lo; cbn; [|rewrite IH]; tauto. Qed.

Lemma ordered_mono lo lo' l : lo' <= lo -> ordered lo l -> ordered lo' l.
Proof. destruct l; cbn; intuition lia. Qed.

Lemma ordered_above lo l : ordered lo l -> Forall (fun r => lo < r_start r < r_end r) l.
Proof.
  revert lo; induction l as [|r l IH]; intros lo; cbn; [constructor|].
  intros (? & ? & ? & Ho). constructor; [lia|].
  eapply Forall_impl; [apply IH, Ho|]. cbn; lia.
Qed.

Lemma last_end_lt lo l b : lo < b -> Forall (fun r => r_end r < b) l -> last_end lo l < b.
Proof. intros Hlo Hl; revert lo Hlo; induction Hl; intros; cbn; auto. Qed.

Lemma last_end_ge lo l : ordered lo l -> lo <= last_end lo l.
Proof.
  revert lo; induction l as [|r l IH]; intros lo; cbn; [lia|].
  intros (? & ? & ? & Ho). specialize (IH _ Ho). lia.
Qed.

Lemma covered_nil x : covered [] x <-> False.
Proof. unfold covered. by rewrite Exists_nil. Qed.
Lemma covered_cons r l x : covered (r :: l) x <-> r_start r <= x < r_end r \/ covered l x.
Proof. unfold covered. by rewrite Exists_cons. Qed.
Lemma covered_app l1 l2 x : covered (l1 ++ l2) x <-> covered l1 x \/ covered l2 x.
Proof. unfold covered. by rewrite Exists_app. Qed.
#[export] Hint Rewrite covered_nil covered_cons covered_app : covered.

Lemma covered_above lo l x : ordered lo l -> covered l x -> lo < x.
Proof.
  intros Ho%ordered_above Hc. unfold covered in Hc. rewrite Exists_exists in Hc.
  destruct Hc as (r & Hr & ?). rewrite Forall_forall in Ho.
  specialize (Ho _ Hr). unfold in_range in *. cbn in *. lia.
Qed.

Lemma covered_below l x b : Forall (fun r => r_end r <= b) l -> covered l x -> x < b.
Proof.
  intros Ho Hc. unfold covered in Hc. rewrite Exists_exists in Hc.
  destruct Hc as (r & Hr & ?). rewrite Forall_forall in Ho.
  specialize (Ho _ Hr). unfold in_range in *. cbn in *. lia.
Qed.

(** ** The loops of [memrange_add] *)

Lemma read_at set pre r post :
  view set = pre ++ r :: post -> (count set <= length (ranges set))%nat ->
  (length pre <? count set)%nat = true /\ rd (ranges set) (length pre) = Ret r.
Proof.
  intros Hv Hc. destruct (view_split _ _ _ _ Hv Hc).
  split; [by apply Nat.ltb_lt|by apply rd_Ret].
Qed.

Lemma read_end set pre :
  view set = pre -> (count set <= length (ranges set))%nat ->
  (length pre <? count set)%nat = false.
Proof. intros <- Hc. apply Nat.ltb_ge. rewrite view_length; lia. Qed.

(** Stepping a loop index over one live entry. *)
Lemma split_step set pre r post :
  view set = pre ++ r :: post -> view set = (pre ++ [r]) ++ post /\
  length (pre ++ [r]) = (length pre + 1)%nat.
Proof. intros ->. rewrite <-app_assoc, length_app. done. Qed.

Lemma add_first_spec set fuel pre post start :
  view set = pre ++ post -> (count set <= length (ranges set))%nat ->
  (length post < fuel)%nat ->
  exists p1 p2, add_first fuel set start (length pre) = Ret (length (pre ++ p1)) /\
    post = p1 ++ p2 /\ Forall (fun r => r_end r < start) p1 /\
    match p2 with [] => True | r :: _ => start <= r_end r end.
Proof.
  intros Hv Hc; revert pre post Hv.
  induction fuel as [|fuel IH]; intros pre post Hv Hf; [lia|]. cbn.
  destruct post as [|r post].
  - rewrite (read_end set pre) by (done || by rewrite Hv, app_nil_r).
    exists [], []. by rewrite app_nil_r.
  - destruct (read_at _ _ _ _ Hv Hc) as [-> ->]. rewrite ret_bind.
    case_if; bool_to_prop.
    + exists [], (r :: post). rewrite app_nil_r. auto.
    + destruct (split_step _ _ _ _ Hv) as [Hv' Hl]. rewrite <-Hl.
      destruct (IH _ _ Hv') as (p1 & p2 & -> & -> & Hp1 & Hp2); [cbn in Hf; lia|].
      exists (r :: p1), p2. rewrite <-app_assoc. split_and!; auto.
Qed.

Lemma add_absorb_spec set fuel pre post start end_ lo :
  view set = pre ++ post -> (count set <= length (ranges set))%nat ->
  (length post < fuel)%nat ->
  ordered lo post -> lo < start -> start < end_ <= UINT64_MAX ->
  Forall (fun r => start <= r_end r) post ->
  exists p1 p2 start' end', add_absorb fuel set start end_ (length pre) =
      Ret (length (pre ++ p1), start', end') /\
    post = p1 ++ p2 /\ ordered lo (MkRange start' end' :: p2) /\
    (forall x, start' <= x < end' <-> start <= x < end_ \/ covered p1 x) /\
    (p1 = [] -> start' = start /\ end' = end_ /\ Forall (fun r => end_ < r_start r) post).
Proof.
  intros Hv Hc; revert pre post start end_ Hv.
  induction fuel as [|fuel IH]; intros pre post start end_ Hv Hf Ho Hlo Hse Htouch; [lia|].
  cbn. destruct post as [|r post].
  - rewrite (read_end set pre) by (done || by rewrite Hv, app_nil_r).
    exists [], [], start, end_. rewrite app_nil_r. split_and!; auto; cbn; try lia.
    intros x. rewrite covered_nil. tauto.
  - destruct (read_at _ _ _ _ Hv Hc) as [-> ->]. rewrite ret_bind.
    apply Forall_cons in Htouch as [Hr Htouch].
    destruct Ho as (Ho1 & Ho2 & Ho3 & Ho). case_if; bool_to_prop.
    + destruct (split_step _ _ _ _ Hv) as [Hv' Hl]. rewrite <-Hl.
      set (s' := if r_start r <? start then r_start r else start).
      set (e' := if end_ <? r_end r then r_end r else end_).
      assert (s' <= start /\ s' <= r_start r /\ lo < s' /\ s' < e' <= UINT64_MAX /\
              r_end r <= e' /\ forall x, s' <= x < e' <-> start <= x < end_ \/ r_start r <= x < r_end r)
        as (? & ? & ? & ? & ? & Hse').
      { unfold s', e'. split_and!; [..|intros x]; repeat case_if; bool_to_prop; lia. }
      destruct (IH _ _ s' e' Hv') as (p1 & p2 & s2 & e2 & -> & -> & Ho' & Hx & _).
      { cbn in Hf; lia. }
      { eapply ordered_mono, Ho. lia. }
      { done. } { done. }
      { eapply Forall_impl; [apply (ordered_above _ _ Ho)|]. cbn; lia. }
      exists (r :: p1), p2, s2, e2. rewrite <-app_assoc.
      do 2 (split; [done|]). split; [exact Ho'|]. split; [|done].
      intros x. rewrite Hx, Hse', covered_cons. tauto.
    + exists [], (r :: post), start, end_. rewrite app_nil_r.
      split_and!; auto; cbn; try lia.
      * split_and!; auto; lia.
      * intros x. rewrite covered_nil. tauto.
      * intros _. split_and!; [done..|]. constructor; [done|].
        eapply Forall_impl; [apply (ordered_above _ _ Ho)|]. cbn; lia.
Qed.

Lemma add_delete_spec fuel set pre r mid post :
  view set = pre ++ r :: mid ++ post -> (count set <= length (ranges set))%nat ->
  (length mid < fuel)%nat ->
  exists set', add_delete fuel set (length pre) (length (pre ++ r :: mid)) = Ret set' /\
    view set' = pre ++ r :: post /\ length (ranges set') = length (ranges set) /\
    (count set' <= count set)%nat.
Proof.
  revert set mid; induction fuel as [|fuel IH]; intros set mid Hv Hc Hf; [lia|]. cbn.
  destruct mid as [|m mid]; rewrite length_app; cbn.
  - rewrite (proj2 (Nat.ltb_ge _ _)) by lia. eauto.
  - rewrite (proj2 (Nat.ltb_lt _ _)) by lia.
    destruct (memrange_delete_spec set (pre ++ [r]) m (mid ++ post))
      as (set1 & Hd & Hv1 & Hl1 & Hc1); [by rewrite <-app_assoc|done|].
    rewrite length_app in Hd; cbn in Hd. rewrite Hd, ret_bind.
    destruct (IH set1 mid) as (set' & Hr & ? & ? & ?);
      [by rewrite Hv1, <-app_assoc|lia|cbn in Hf; lia|].
    exists set'. rewrite length_app in Hr; cbn in Hr.
    replace (length pre + S (S (length mid)) - 1)%nat with (length pre + S (length mid))%nat by lia.
    rewrite Hr. split_and!; auto; congruence || lia.
Qed.

(** ** Correctness *)

Lemma wf_count_le set : wf set -> (count set <= length (ranges set))%nat.
Proof. intros (-> & ? & _). done. Qed.

(** Committing a new or an updated entry to a set whose result is ordered. *)
Lemma commit_insert set pre post x :
  view set = pre ++ post -> length (ranges set) = MEMRANGE_MAX ->
  (count set < MEMRANGE_MAX)%nat -> ordered (-1) (pre ++ x :: post) ->
  exists rs rs', shift_up (S (count set)) (ranges set) (count set) (length pre) = Ret rs /\
    wr rs (length pre) x = Ret rs' /\
    view (MkSet rs' (count set + 1)) = pre ++ x :: post /\ wf (MkSet rs' (count set + 1)).
Proof.
  intros Hv Hlen Hc Ho.
  assert (Hvl : length (view set) = count set) by (apply view_length; lia).
  rewrite Hv, length_app in Hvl.
  destruct (shift_up_spec (S (count set)) (ranges set) (count set) (length pre))
    as (rs & Hs & Hrl & _); [lia..|].
  exists rs. rewrite wr_Ret by lia. eexists. split; [done|]. split; [done|].
  edestruct (insert_entry_spec set pre post) as [Hv' Hl'];
    [done|lia|exact Hs|by apply wr_Ret; lia|].
  split; [exact Hv'|]. split_and!; [cbn; congruence|cbn; lia|]. by rewrite Hv'.
Qed.

Lemma commit_update set pre r post x :
  view set = pre ++ r :: post -> length (ranges set) = MEMRANGE_MAX ->
  (count set <= MEMRANGE_MAX)%nat -> ordered (-1) (pre ++ x :: post) ->
  exists rs, wr (ranges set) (length pre) x = Ret rs /\
    view (MkSet rs (count set)) = pre ++ x :: post /\ wf (MkSet rs (count set)).
Proof.
  intros Hv Hlen Hc Ho.
  destruct (view_split _ _ _ _ Hv) as [Hlt _]; [lia|].
  rewrite wr_Ret by lia. eexists. split; [done|].
  edestruct (update_entry_spec set pre r post) as [Hv' Hl'];
    [done|lia|by apply wr_Ret; lia|].
  split; [exact Hv'|]. split_and!; [cbn; congruence|done|]. by rewrite Hv'.
Qed.

(** The two loops that place the new range among the live entries. *)
Lemma add_search_spec set start end_ :
  wf set -> 0 <= start < end_ -> end_ <= UINT64_MAX ->
  exists pre p1 p2 start' end',
    add_first (S (count set)) set start 0 = Ret (length pre) /\
    add_absorb (S (count set)) set start end_ (length pre) =
      Ret (length (pre ++ p1), start', end') /\
    view set = pre ++ p1 ++ p2 /\ ordered (-1) (pre ++ MkRange start' end' :: p2) /\
    (forall x, start' <= x < end' <-> start <= x < end_ \/ covered p1 x) /\
    (p1 = [] -> start' = start /\ end' = end_ /\
       Forall (fun r => r_end r < start \/ end_ < r_start r) (view set)).
Proof.
  intros Hwf Hse Hmax. pose proof (wf_count_le _ Hwf) as Hc.
  destruct Hwf as (Hlen & Hcnt & Ho). assert (Hvl := view_length _ Hc).
  destruct (add_first_spec set (S (count set)) [] (view set) start)
    as (pre & post & Hfirst & Hv & Hpre & Hpost); [done..|lia|].
  cbn [length app] in *. rewrite Hv in Ho, Hvl.
  apply ordered_app in Ho as [Hopre Hopost]. rewrite length_app in Hvl.
  destruct (add_absorb_spec set (S (count set)) pre post start end_ (last_end (-1) pre))
    as (p1 & p2 & s' & e' & Habs & -> & Ho' & Hx & Hnil); [done..|lia|done| |lia| |].
  { apply last_end_lt; [lia|done]. }
  { destruct post as [|r post]; [constructor|]. cbn in Hopost.
    constructor; [done|]. eapply Forall_impl; [apply (ordered_above (r_end r)), Hopost|].
    cbn; lia. }
  exists pre, p1, p2, s', e'. do 3 (split; [done|]).
  split; [by apply ordered_app|]. split; [done|].
  intros Hp1. destruct (Hnil Hp1) as (-> & -> & Hab). split_and!; [done..|].
  rewrite Hv. apply Forall_app; split; (eapply Forall_impl; [eassumption|auto]).
Qed.

Lemma memrange_add_spec set start end_ :
  wf set -> 0 <= start < end_ -> end_ <= UINT64_MAX ->
  exists rc set', memrange_add set start end_ = Ret (rc, set') /\
    ((rc = 0 /\ wf set' /\
      forall x, covered (view set') x <-> covered (view set) x \/ start <= x < end_) \/
     (rc = -1 /\ set' = set /\ count set = MEMRANGE_MAX /\
      Forall (fun r => r_end r < start \/ end_ < r_start r) (view set))).
Proof.
  intros Hwf Hse Hmax.
  destruct (add_search_spec _ _ _ Hwf Hse Hmax)
    as (pre & p1 & p2 & s' & e' & Hf & Ha & Hv & Ho & Hx & Hnil).
  assert (Hc := wf_count_le _ Hwf). destruct Hwf as (Hlen & Hcnt & _).
  assert (Hvl := view_length _ Hc). rewrite Hv, !length_app in Hvl.
  assert (Hcov : forall set', view set' = pre ++ MkRange s' e' :: p2 -> forall x,
    covered (view set') x <-> covered (view set) x \/ start <= x < end_).
  { intros set' -> x. rewrite Hv, !covered_app, covered_cons. cbn. rewrite Hx. tauto. }
  unfold memrange_add. rewrite (proj2 (Z.leb_gt _ _)), Hf, ret_bind, Ha, ret_bind by lia.
  rewrite length_app. destruct p1 as [|r mid]; cbn [length app] in *.
  - rewrite (proj2 (Nat.eqb_eq _ _)) by lia. destruct Hnil as (-> & -> & Hab); [done|].
    destruct (Nat.leb_spec MEMRANGE_MAX (count set)).
    + exists (-1), set. split; [done|]. right. split_and!; [done..|lia|done].
    + destruct (commit_insert set pre p2 (MkRange start end_))
        as (rs & rs' & -> & Hw & ? & ?); [done..|]. rewrite ret_bind, Hw, ret_bind.
      eexists _, _. split; [reflexivity|]. left. auto.
  - rewrite (proj2 (Nat.eqb_neq _ _)) by lia.
    destruct (add_delete_spec (S (count set)) set pre r mid p2)
      as (set1 & Hd & Hv1 & Hl1 & Hc1); [done..|lia|].
    rewrite length_app in Hd; cbn [length] in Hd. rewrite Hd, ret_bind.
    destruct (commit_update set1 pre r p2 (MkRange s' e'))
      as (rs & Hw & ? & ?); [done|congruence|lia|done|]. rewrite Hw, ret_bind.
    eexists _, _. split; [reflexivity|]. left. auto.
Qed.

(** What the removal loop achieves from entry [length pre] on, when the entries
    from there are [post]. *)
Definition remove_post (set : memrange_set) (pre post : list memrange) (start end_ : Z)
  (o : outcome (Z * memrange_set)) : Prop :=
  exists rc set', o = Ret (rc, set') /\
    ((rc = 0 /\ wf set' /\ exists post', view set' = pre ++ post' /\
      forall x, covered post' x <-> covered post x /\ ~ (start <= x < end_)) \/
     (rc = -1 /\ set' = set /\ count set = MEMRANGE_MAX /\
      Exists (fun r => r_start r < start /\ end_ < r_end r) post)).

Lemma remove_done set set' pre post post' start end_ :
  wf set' -> view set' = pre ++ post' ->
  (forall x, covered post' x <-> covered post x /\ ~ (start <= x < end_)) ->
  remove_post set pre post start end_ (Ret (0, set')).
Proof. intros. exists 0, set'. split; [done|]. left. eauto. Qed.

Lemma remove_skip set pre r post start end_ o :
  r_end r <= start ->
  remove_post set (pre ++ [r]) post start end_ o -> remove_post set pre (r :: post) start end_ o.
Proof.
  intros Hr (rc & set' & -> & [(-> & Hwf & post' & Hv & Hx)|(-> & -> & ? & ?)]).
  - apply (remove_done _ _ _ _ (r :: post')); [done|by rewrite Hv, <-app_assoc|].
    intros x. rewrite !covered_cons, Hx. intuition lia.
  - exists (-1), set. split; [done|]. right. split_and!; [done..|]. by apply Exists_cons_tl.
Qed.

(** No entry after one that reaches [start] contains the removed range strictly,
    so the loop cannot fail from there on. *)
Lemma no_split_after r post start end_ :
  ordered (r_end r) post -> start < r_end r ->
  ~ Exists (fun r => r_start r < start /\ end_ < r_end r) post.
Proof.
  intros Ho ? (r' & Hin & ?)%Exists_exists.
  apply ordered_above in Ho. rewrite Forall_forall in Ho.
  specialize (Ho _ Hin). cbn in *. lia.
Qed.

Lemma remove_gone set set1 pre r post start end_ o :
  ordered (r_end r) post -> start <= r_start r < r_end r -> r_end r <= end_ ->
  remove_post set1 pre post start end_ o -> remove_post set pre (r :: post) start end_ o.
Proof.
  intros Ho ? ? (rc & set' & -> & [(-> & Hwf & post' & Hv & Hx)|(_ & _ & _ & HE)]).
  - apply (remove_done _ _ _ _ post'); [done..|]. intros x. rewrite covered_cons, Hx.
    pose proof (covered_above _ _ x Ho). intuition lia.
  - exfalso. eapply no_split_after; [exact Ho| |exact HE]. lia.
Qed.

Lemma remove_trim set set1 pre r post start end_ o :
  ordered (r_end r) post -> r_start r < start < r_end r -> r_end r <= end_ ->
  remove_post set1 (pre ++ [MkRange (r_start r) start]) post start end_ o ->
  remove_post set pre (r :: post) start end_ o.
Proof.
  intros Ho ? ? (rc & set' & -> & [(-> & Hwf & post' & Hv & Hx)|(_ & _ & _ & HE)]).
  - apply (remove_done _ _ _ _ (MkRange (r_start r) start :: post'));
      [done|by rewrite Hv, <-app_assoc|].
    intros x. rewrite !covered_cons, Hx. cbn.
    pose proof (covered_above _ _ x Ho). intuition lia.
  - exfalso. eapply no_split_after; [exact Ho| |exact HE]. lia.
Qed.

(** Cutting a hole into one entry. *)
Lemma remove_hole set pre r post start end_ :
  view set = pre ++ r :: post -> length (ranges set) = MEMRANGE_MAX ->
  (count set < MEMRANGE_MAX)%nat -> ordered (-1) (pre ++ r :: post) ->
  r_start r < start < end_ -> end_ < r_end r ->
  remove_post set pre (r :: post) start end_
    (rs ← shift_up (S (count set)) (ranges set) (count set) (length pre + 1);
     rs ← wr rs (length pre + 1) (MkRange end_ (r_end r));
     rs ← wr rs (length pre) (MkRange (r_start r) start);
     Ret (0, MkSet rs (count set + 1))).
Proof.
  intros Hv Hlen Hc Ho ? ?. apply ordered_app in Ho as [Hopre (? & ? & ? & Hpost)].
  destruct (split_step _ _ _ _ Hv) as [Hv' Hl]. rewrite <-Hl.
  destruct (shift_up_spec (S (count set)) (ranges set) (count set) (length (pre ++ [r])))
    as (rs & Hs & Hrl & _); [lia..|].
  destruct (view_split _ _ _ _ Hv) as [Hlt _]; [lia|].
  rewrite Hs, ret_bind, wr_Ret, ret_bind by lia.
  destruct (insert_entry_spec set (pre ++ [r]) post rs
    (<[length (pre ++ [r]) := MkRange end_ (r_end r)]> rs) (MkRange end_ (r_end r)))
    as [Hv1 Hl1]; [done|lia|done|apply wr_Ret; lia|].
  rewrite <-app_assoc in Hv1.
  destruct (commit_update _ pre r _ (MkRange (r_start r) start) Hv1)
    as (rs2 & Hw2 & Hv2 & Hwf2); [cbn; congruence|cbn; lia| |].
  { apply ordered_app. cbn. intuition lia. }
  cbn [ranges count] in *. rewrite Hw2, ret_bind.
  eapply remove_done; [done..|]. intros x. rewrite !covered_cons. cbn.
  pose proof (covered_above _ _ x Hpost). intuition lia.
Qed.

Lemma remove_loop_spec fuel set pre post start end_ :
  view set = pre ++ post -> length (ranges set) = MEMRANGE_MAX ->
  (count set <= MEMRANGE_MAX)%nat -> ordered (-1) (pre ++ post) -> start < end_ ->
  (length post < fuel)%nat ->
  remove_post set pre post start end_ (remove_loop fuel set start end_ (length pre)).
Proof.
  revert set pre post; induction fuel as [|fuel IH];
    intros set pre post Hv Hlen Hcnt Ho Hse Hf; [lia|]. cbn [remove_loop].
  assert (Hwf : wf set) by (split_and!; [done..|by rewrite Hv]).
  destruct post as [|r post].
  { rewrite (read_end set pre) by (lia || by rewrite Hv, app_nil_r).
    eapply remove_done; [done..|]. intros x. rewrite covered_nil. tauto. }
  destruct (read_at _ _ _ _ Hv) as [-> ->]; [lia|]. rewrite ret_bind.
  pose proof Ho as (Hopre & Hr1 & Hr2 & Hr3 & Hpost)%ordered_app. cbn [length] in Hf.
  assert (Habove := fun x => covered_above _ _ x Hpost).
  destruct (split_step _ _ _ _ Hv) as [Hv' Hl].
  case_if; bool_to_prop.
  { eapply remove_done; [done..|]. intros x. rewrite covered_cons.
    specialize (Habove x). intuition lia. }
  case_if; bool_to_prop.
  { rewrite <-Hl. apply remove_skip, IH; [done..| |done|lia]. by rewrite <-app_assoc. }
  case_if; bool_to_prop.
  { destruct (memrange_delete_spec set pre r post Hv) as (set1 & -> & Hv1 & Hl1 & Hc1); [lia|].
    eapply remove_gone, IH; [done|lia..|done|congruence|lia| |done|lia].
    apply ordered_app. split; [done|]. eapply ordered_mono, Hpost. lia. }
  case_if; bool_to_prop.
  { destruct (commit_update set pre r post (MkRange end_ (r_end r))) as (rs & -> & ? & ?);
      [done..| |]; [apply ordered_app; cbn; intuition lia|].
    eapply remove_done; [done..|]. intros x. rewrite !covered_cons. cbn.
    specialize (Habove x). intuition lia. }
  case_if; bool_to_prop.
  { destruct (commit_update set pre r post (MkRange (r_start r) start)) as (rs & -> & Hv1 & Hwf1);
      [done..| |].
    { apply ordered_app. cbn. split_and!; try done; try lia. eapply ordered_mono, Hpost. lia. }
    destruct (split_step _ _ _ _ Hv1) as [Hv2 Hl2]. rewrite ret_bind, <-Hl2.
    destruct Hwf1 as (? & ? & Ho1). rewrite Hv2 in Ho1.
    eapply remove_trim, IH; done || lia. }
  destruct (Nat.leb_spec MEMRANGE_MAX (count set)); [|apply remove_hole; done || lia].
  exists (-1), set. split; [done|]. right. split_and!; [done..|lia|]. apply Exists_cons_hd. lia.
Qed.

Lemma memrange_remove_spec set start end_ :
  wf set -> start < end_ ->
  exists rc set', memrange_remove set start end_ = Ret (rc, set') /\
    ((rc = 0 /\ wf set' /\
      forall x, covered (view set') x <-> covered (view set) x /\ ~ (start <= x < end_)) \/
     (rc = -1 /\ set' = set /\ count set = MEMRANGE_MAX /\
      Exists (fun r => r_start r < start /\ end_ < r_end r) (view set))).
Proof.
  intros Hwf Hse. unfold memrange_remove. rewrite (proj2 (Z.leb_gt _ _)) by lia.
  assert (Hvl := view_length _ (wf_count_le _ Hwf)). destruct Hwf as (Hlen & Hcnt & Ho).
  destruct (remove_loop_spec (S (count set)) set [] (view set) start end_)
    as (rc & set' & Hr & H); [done..|lia|].
  exists rc, set'. split; [done|].
  destruct H as [(-> & ? & post' & -> & ?)|(-> & -> & ? & ?)]; [left|right]; auto.
Qed.

(** The addresses next to a range are not covered. *)
Lemma ordered_gap lo l r : ordered lo l -> r ∈ l -> ~ covered l (r_start r - 1) /\ ~ covered l (r_end r).
Proof.
  revert lo; induction l as [|q l IH]; intros lo; [set_solver|]. intros (? & ? & ? & Ho).
  rewrite !covered_cons. intros [->|Hr]%elem_of_cons.
  - split; (intros [?|Hc]; [lia|]); pose proof (covered_above _ _ _ Ho Hc); lia.
  - destruct (IH _ Ho Hr) as [Hl Hh].
    pose proof (proj1 (Forall_forall _ _) (ordered_above _ _ Ho) r Hr) as Hab. cbn in Hab.
    split; (intros [?|Hc]; [lia|done]).
Qed.

Lemma ordered_lookup lo l i j r q : ordered lo l -> (i < j)%nat -> l !! i = Some r -> l !! j = Some q ->
  r_end r < r_start q.
Proof.
  revert lo i j; induction l as [|p l IH]; intros lo i j; [done|]. intros (? & ? & ? & Ho) Hij Hi Hj.
  destruct j as [|j]; [lia|]. cbn in Hj. destruct i as [|i]; cbn in Hi.
  - injection Hi as <-. apply list_elem_of_lookup_2 in Hj.
    pose proof (proj1 (Forall_forall _ _) (ordered_above _ _ Ho) q Hj) as Hab. cbn in Hab. lia.
  - apply (IH _ i j Ho); [lia|done..].
Qed.

(** ** Queries *)

Lemma contains_loop_spec fuel set pre post start end_ lo :
  view set = pre ++ post -> (count set <= length (ranges set))%nat -> ordered lo post ->
  (length post < fuel)%nat -> start < end_ ->
  exists b, contains_loop fuel set start end_ (length pre) = Ret b /\
    (b = true <-> forall x, start <= x < end_ -> covered post x).
Proof.
  intros Hv Hc; revert pre post lo Hv.
  induction fuel as [|fuel IH]; intros pre post lo Hv Ho Hf Hse; [lia|]. cbn [contains_loop].
  destruct post as [|r post].
  { rewrite (read_end set pre) by (done || by rewrite Hv, app_nil_r).
    exists false. split; [done|]. split; [done|]. intros H.
    specialize (H start ltac:(lia)). by rewrite covered_nil in H. }
  destruct (read_at _ _ _ _ Hv Hc) as [-> ->]. rewrite ret_bind.
  destruct Ho as (Ho1 & Ho2 & Ho3 & Ho).
  assert (Habove := fun x => covered_above _ _ x Ho). cbn [length] in Hf.
  case_if; bool_to_prop.
  { exists false. split; [done|]. split; [done|]. intros H. specialize (H start ltac:(lia)).
    rewrite covered_cons in H. specialize (Habove start). intuition lia. }
  case_if; bool_to_prop.
  { exists true. split; [done|]. split; [|done]. intros _ x Hx. rewrite covered_cons. lia. }
  destruct (split_step _ _ _ _ Hv) as [Hv' Hl]. rewrite <-Hl.
  destruct (IH _ _ _ Hv' Ho) as (b & -> & Hb); [lia|done|]. exists b. split; [done|].
  rewrite Hb. setoid_rewrite covered_cons. split; [auto|]. intros H x Hx.
  destruct (H x Hx) as [Hin|]; [|done]. exfalso.
  destruct (decide (r_end r < end_)).
  - destruct (H (r_end r)) as [|?%Habove]; lia.
  - destruct E0 as [?|?]; bool_to_prop; lia.
Qed.

Lemma memrange_contains_spec set start end_ :
  wf set -> start < end_ ->
  exists b, memrange_contains set start end_ = Ret b /\
    (b = true <-> forall x, start <= x < end_ -> covered (view set) x).
Proof.
  intros Hwf Hse. unfold memrange_contains. rewrite (proj2 (Z.leb_gt _ _)) by lia.
  assert (Hc := wf_count_le _ Hwf). assert (Hvl := view_length _ Hc).
  destruct Hwf as (Hlen & Hcnt & Ho).
  apply (contains_loop_spec (S (count set)) set [] (view set) start end_ (-1)); done || lia.
Qed.

Fixpoint range_bytes (l : list memrange) : Z :=
  match l with [] => 0 | r :: l => r_end r - r_start r + range_bytes l end.

Lemma range_bytes_bound lo l :
  -1 <= lo -> ordered lo l -> 0 <= range_bytes l /\ (l <> [] -> lo + range_bytes l < UINT64_MAX).
Proof.
  revert lo; induction l as [|r l IH]; intros lo Hlo; cbn; [done|].
  intros (? & ? & ? & Ho). destruct (IH (r_end r)) as [Hb0 Hb1]; [lia|done|].
  split; [lia|]. intros _. destruct l; [cbn; lia|]. specialize (Hb1 ltac:(done)). lia.
Qed.

Lemma total_loop_spec fuel set pre post lo bytes :
  view set = pre ++ post -> (count set <= length (ranges set))%nat -> ordered lo post ->
  -1 <= lo -> (length post < fuel)%nat -> 0 <= bytes <= lo + 1 -> bytes <= UINT64_MAX ->
  total_loop fuel set bytes (length pre) = Ret (Some (bytes + range_bytes post)).
Proof.
  intros Hv Hc; revert pre post lo bytes Hv.
  induction fuel as [|fuel IH]; intros pre post lo bytes Hv Ho Hlo Hf Hb Hm; [lia|].
  cbn [total_loop]. destruct post as [|r post].
  { rewrite (read_end set pre) by (done || by rewrite Hv, app_nil_r).
    cbn. by rewrite Z.add_0_r. }
  destruct (read_at _ _ _ _ Hv Hc) as [-> ->]. rewrite ret_bind.
  destruct (range_bytes_bound lo (r :: post)) as [_ Hbd]; [lia|done|].
  destruct Ho as (Ho1 & Ho2 & Ho3 & Ho). cbn [length] in Hf.
  unfold UINT64_MAX in *. specialize (Hbd ltac:(done)). cbn in Hbd.
  pose proof (range_bytes_bound (r_end r) post ltac:(lia) Ho) as [? _].
  unwrap64. rewrite (proj2 (Z.ltb_ge _ _)) by lia.
  destruct (split_step _ _ _ _ Hv) as [Hv' Hl]. rewrite <-Hl.
  rewrite (IH _ _ (r_end r)) by (done || lia). do 2 f_equal. cbn. lia.
Qed.

(** The sum of the sizes never overflows: the ranges are disjoint. *)
Lemma memrange_total_correct set :
  wf set -> memrange_total set = Ret (Some (range_bytes (view set))) /\
            0 <= range_bytes (view set) < 2 ^ 64.
Proof.
  intros Hwf. assert (Hc := wf_count_le _ Hwf). assert (Hvl := view_length _ Hc).
  destruct Hwf as (Hlen & Hcnt & Ho). unfold memrange_total. split.
  - apply (total_loop_spec _ set [] (view set) (-1)); cbn [app length]; try done; try lia.
  - destruct (range_bytes_bound (-1) (view set)) as [? Hb]; [lia|done|].
    destruct (view set); [cbn; lia|]. specialize (Hb ltac:(done)). unfold UINT64_MAX in Hb. lia.
Qed.

Lemma memrange_get_correct set i :
  wf set -> (i < count set)%nat ->
  exists r, view set !! i = Some r /\
    memrange_get set (Z.of_nat i) = Ret (Some (r_start r, r_end r)).
Proof.
  intros Hwf Hi. assert (Hc := wf_count_le _ Hwf).
  destruct (lookup_lt_is_Some_2 (view set) i) as [r Hr]; [rewrite view_length; lia|].
  exists r. split; [done|]. unfold memrange_get.
  rewrite (proj2 (Z.ltb_ge _ _)), (proj2 (Z.leb_gt _ _)) by lia. cbn.
  rewrite Nat2Z.id, (rd_Ret _ _ r); [done|]. by rewrite <-view_lookup.
Qed.

(** ** Witnesses *)

Definition demo_ranges : list memrange :=
  MkRange 4096 8192 :: MkRange 12288 16384 :: replicate 62 (MkRange 0 0).
Definition demo_set : memrange_set := MkSet demo_ranges 2.

Lemma demo_set_wf : wf demo_set.
Proof. split_and!; cbn; try reflexivity; unfold UINT64_MAX, MEMRANGE_MAX; lia. Qed.

(** [memrange_add] on a well-formed set terminates without touching memory
    outside the array.  It either succeeds, and then the new set is well formed
    and covers exactly the old addresses and those of [start, end), or it fails,
    and then the set is unchanged, full, and no range of it touches the new one. *)
Theorem memrange_add_correct set start end_ :
  wf set -> 0 <= start < end_ -> end_ <= UINT64_MAX ->
  exists rc set', memrange_add set start end_ = Ret (rc, set') /\
    ((rc = 0 /\ wf set' /\
      forall x, covered (view set') x <-> covered (view set) x \/ start <= x < end_) \/
     (rc = -1 /\ set' = set /\ count set = MEMRANGE_MAX /\
      Forall (fun r => r_end r < start \/ end_ < r_start r) (view set))).
Proof. apply memrange_add_spec. Qed.

(** Adding the gap between two ranges joins them. *)
Lemma memrange_add_witness :
  exists set', memrange_add demo_set 8192 12288 = Ret (0, set') /\
    view set' = [MkRange 4096 16384] /\ wf set'.
Proof.
  destruct (memrange_add_correct demo_set 8192 12288 demo_set_wf) as (rc & set' & Hr & H);
    [lia|unfold UINT64_MAX; lia|].
  exists set'. destruct H as [(-> & Hwf & _)|(_ & _ & Hfull & _)]; [|discriminate Hfull].
  split; [exact Hr|]. split; [|exact Hwf].
  assert (Hc : memrange_add demo_set 8192 12288 = Ret (0, set')) by exact Hr.
  vm_compute in Hc. injection Hc as <-. reflexivity.
Defined.

(** [memrange_remove] on a well-formed set terminates without touching memory
    outside the array.  It either succeeds, and then the new set is well formed
    and covers exactly the old addresses outside [start, end), or it fails, and
    then the set is unchanged, full, and one of its ranges would have to be split. *)
Theorem memrange_remove_correct set start end_ :
  wf set -> start < end_ ->
  exists rc set', memrange_remove set start end_ = Ret (rc, set') /\
    ((rc = 0 /\ wf set' /\
      forall x, covered (view set') x <-> covered (view set) x /\ ~ (start <= x < end_)) \/
     (rc = -1 /\ set' = set /\ count set = MEMRANGE_MAX /\
      Exists (fun r => r_start r < start /\ end_ < r_end r) (view set))).
Proof. apply memrange_remove_spec. Qed.

(** Removing the middle of a range splits it. *)
Lemma memrange_remove_witness :
  exists set', memrange_remove demo_set 5120 6144 = Ret (0, set') /\
    view set' = [MkRange 4096 5120; MkRange 6144 8192; MkRange 12288 16384] /\ wf set'.
Proof.
  destruct (memrange_remove_correct demo_set 5120 6144 demo_set_wf) as (rc & set' & Hr & H); [lia|].
  exists set'. destruct H as [(-> & Hwf & _)|(_ & _ & Hfull & _)]; [|discriminate Hfull].
  split; [exact Hr|]. split; [|exact Hwf].
  assert (Hc : memrange_remove demo_set 5120 6144 = Ret (0, set')) by exact Hr.
  vm_compute in Hc. injection Hc as <-. reflexivity.
Defined.

(** [memrange_contains] answers whether every address of a non-empty range
    is covered by the set, although it only looks for one entry that holds the
    whole range: the entries of a well-formed set never touch. *)
Theorem memrange_contains_correct set start end_ :
  wf set -> start < end_ ->
  exists b, memrange_contains set start end_ = Ret b /\
    (b = true <-> forall x, start <= x < end_ -> covered (view set) x).
Proof. apply memrange_contains_spec. Qed.

Lemma memrange_contains_witness :
  memrange_contains demo_set 4096 8192 = Ret true /\
  forall x, 4096 <= x < 8192 -> covered (view demo_set) x.
Proof.
  destruct (memrange_contains_correct demo_set 4096 8192 demo_set_wf) as (b & Hr & Hb); [lia|].
  assert (Hc : Ret true = Ret b) by (rewrite <-Hr; reflexivity).
  injection Hc as <-. split; [exact Hr|]. by apply Hb.
Defined.
