(* ===== verification/Buddy.v ===== *)
(** * The buddy page allocator (kernel/buddy.c)

    A free list per order, a state byte per page and a page counter, as in
    [struct buddy_allocator].  The free lists are the sequences of block
    addresses their circular lists represent ([IntrusiveList]); a region pointer
    is an index into the region array, a state pointer an index into the states
    of its region. *)
From S2P Require Import Prelude MemRange.

Definition BUDDY_MAX_ORDER : nat := 18.
Definition BUDDY_STATE_FREE : Z := 0x80.
Definition BUDDY_STATE_ALLOCATED : Z := 0x40.
Definition BUDDY_STATE_UNUSED : Z := 0xff.

Record buddy_area := MkArea { blocks : list Z; acount : Z }.

Record buddy_region := MkRegion {
  g_start : Z;
  g_end : Z;
  allocatable_start : Z;
  states : list Z;
  state_count : Z }.

(** [regions] holds the [region_count] entries in use. *)
Record buddy_allocator := MkAllocator {
  areas : list buddy_area;
  regions : list buddy_region;
  free_pages : Z }.

Definition set_states (r : buddy_region) (st : list Z) : buddy_region :=
  MkRegion (g_start r) (g_end r) (allocatable_start r) st (state_count r).

(** ** Operations *)

Definition buddy_order_size (order : nat) : Z := Z.shiftl PGSIZE (Z.of_nat order).

Fixpoint find_region_from (rs : list buddy_region) (address : Z) (i : nat) : option nat :=
  match rs with
  | [] => None
  | region :: rs =>
      if (g_start region <=? address) && (address <? g_end region) then Some i
      else find_region_from rs address (S i)
  end.

Definition buddy_find_region (allocator : buddy_allocator) (address : Z) : option nat :=
  find_region_from (regions allocator) address 0.

Definition buddy_state (region : buddy_region) (address : Z) : option nat :=
  let index := (address -64 g_start region) / PGSIZE in
  if state_count region <=? index then None else Some (Z.to_nat index).

Definition buddy_block_fits (region : buddy_region) (address : Z) (order : nat) : bool :=
  if (BUDDY_MAX_ORDER <? order)%nat || (address <? allocatable_start region) ||
     truth (address mod PGSIZE)
  then false
  else
    let size := buddy_order_size order in
    negb (truth (address mod size)) && (address <=? g_end region) &&
    (size <=? g_end region - address).

(** [*state = value] for a state pointer of region [ri]. *)
Definition set_state (allocator : buddy_allocator) (ri : nat) (st : nat) (value : Z)
  : outcome buddy_allocator :=
  region ← rd (regions allocator) ri;
  sts ← wr (states region) st value;
  rs ← wr (regions allocator) ri (set_states region sts);
  Ret (MkAllocator (areas allocator) rs (free_pages allocator)).

Definition buddy_list_add (allocator : buddy_allocator) (ri : nat) (address : Z) (order : nat)
  : outcome buddy_allocator :=
  region ← rd (regions allocator) ri;
  state ← deref (buddy_state region address);
  area ← rd (areas allocator) order;
  ars ← wr (areas allocator) order (MkArea (address :: blocks area) (acount area +64 1));
  set_state (MkAllocator ars (regions allocator) (free_pages allocator)) ri state
    (Z.lor BUDDY_STATE_FREE (Z.of_nat order)).

(** Unlinking a node that is on no list is undefined. *)
Fixpoint unlink (address : Z) (l : list Z) : option (list Z) :=
  match l with
  | [] => None
  | b :: l => if b =? address then Some l else (b ::.) <$> unlink address l
  end.

Definition buddy_list_remove (allocator : buddy_allocator) (address : Z) (order : nat)
  : outcome buddy_allocator :=
  area ← rd (areas allocator) order;
  l ← deref (unlink address (blocks area));
  ars ← wr (areas allocator) order (MkArea l (acount area -64 1));
  Ret (MkAllocator ars (regions allocator) (free_pages allocator)).

Fixpoint largest_order_loop (fuel : nat) (page pages : Z) (order : nat) : nat :=
  match fuel with
  | O => order
  | S fuel =>
      if (order <? BUDDY_MAX_ORDER)%nat &&
         negb (truth (Z.land page (Z.shiftl 1 (Z.of_nat order)))) &&
         (Z.shiftl 1 (Z.of_nat (order + 1)) <=? pages)
      then largest_order_loop fuel page pages (order + 1)
      else order
  end.

(** The guard [order < BUDDY_MAX_ORDER] ends the loop within its fuel. *)
Definition buddy_largest_order (address pages : Z) : nat :=
  largest_order_loop (S BUDDY_MAX_ORDER) (address / PGSIZE) pages 0.

Definition buddy_init : buddy_allocator :=
  MkAllocator (replicate (S BUDDY_MAX_ORDER) (MkArea [] 0)) [] 0.

Fixpoint add_region_loop (fuel : nat) (allocator : buddy_allocator) (ri : nat) (address end_ : Z)
  : outcome buddy_allocator :=
  match fuel with
  | O => Fault
  | S fuel =>
      if address <? end_ then
        let pages := (end_ - address) / PGSIZE in
        let order := buddy_largest_order address pages in
        allocator ← buddy_list_add allocator ri address order;
        let allocator := MkAllocator (areas allocator) (regions allocator)
          (free_pages allocator +64 Z.shiftl 1 (Z.of_nat order)) in
        add_region_loop fuel allocator ri (address +64 buddy_order_size order) end_
      else Ret allocator
  end.

Definition buddy_add_region (allocator : buddy_allocator)
  (start end_ alloc_start : Z) (sts : list Z) (state_cnt : Z) : outcome (Z * buddy_allocator) :=
  if (end_ <=? start) || truth (start mod PGSIZE) || truth (end_ mod PGSIZE) ||
     (alloc_start <? start) || (end_ <? alloc_start) || truth (alloc_start mod PGSIZE) ||
     (state_cnt <? (end_ - start) / PGSIZE) ||
     (MEMRANGE_MAX <=? length (regions allocator))%nat
  then Ret (-1, allocator)
  else if existsb (fun region => (start <? g_end region) && (g_start region <? end_))
            (regions allocator)
  then Ret (-1, allocator)
  else if (length sts <? Z.to_nat state_cnt)%nat then Fault
  else
    let sts := replicate (Z.to_nat state_cnt) BUDDY_STATE_UNUSED ++ drop (Z.to_nat state_cnt) sts in
    let ri := length (regions allocator) in
    let allocator := MkAllocator (areas allocator)
      (regions allocator ++ [MkRegion start end_ alloc_start sts state_cnt])
      (free_pages allocator) in
    allocator ← add_region_loop (S (Z.to_nat ((end_ - alloc_start) / PGSIZE))) allocator ri
                  alloc_start end_;
    Ret (0, allocator).

(** The first order from [current] on with a free block. *)
Fixpoint alloc_search (fuel : nat) (ars : list buddy_area) (current : nat) : outcome nat :=
  match fuel with
  | O => Fault
  | S fuel =>
      if (current <=? BUDDY_MAX_ORDER)%nat then
        area ← rd ars current;
        if truth (acount area) then Ret current else alloc_search fuel ars (current + 1)
      else Ret current
  end.

(** [while (current > order)]: put the right halves back. *)
Fixpoint alloc_split (allocator : buddy_allocator) (ri : nat) (address : Z) (current order : nat)
  : outcome buddy_allocator :=
  match current with
  | O => Ret allocator
  | S below =>
      if (order <? current)%nat then
        let right := address +64 buddy_order_size below in
        allocator ← buddy_list_add allocator ri right below;
        alloc_split allocator ri address below order
      else Ret allocator
  end.

(** The result 0 is the null pointer. *)
Definition buddy_alloc (allocator : buddy_allocator) (order : nat)
  : outcome (Z * buddy_allocator) :=
  if (BUDDY_MAX_ORDER <? order)%nat then Ret (0, allocator) else
  current ← alloc_search (S (S BUDDY_MAX_ORDER)) (areas allocator) order;
  if (BUDDY_MAX_ORDER <? current)%nat then Ret (0, allocator) else
  area ← rd (areas allocator) current;
  address ← deref (head (blocks area));
  ri ← deref (buddy_find_region allocator address);
  region ← rd (regions allocator) ri;
  state ← deref (buddy_state region address);
  allocator ← buddy_list_remove allocator address current;
  allocator ← set_state allocator ri state BUDDY_STATE_UNUSED;
  allocator ← alloc_split allocator ri address current order;
  allocator ← set_state allocator ri state (Z.lor BUDDY_STATE_ALLOCATED (Z.of_nat order));
  Ret (address, MkAllocator (areas allocator) (regions allocator)
                  (free_pages allocator -64 Z.shiftl 1 (Z.of_nat order))).

Definition buddy_allocated (allocator : buddy_allocator) (address : Z) (order : nat)
  : outcome bool :=
  if (BUDDY_MAX_ORDER <? order)%nat || truth (address mod PGSIZE) then Ret false else
  match buddy_find_region allocator address with
  | None => Ret false
  | Some ri =>
      region ← rd (regions allocator) ri;
      if negb (buddy_block_fits region address order) then Ret false else
      match buddy_state region address with
      | None => Ret false
      | Some st =>
          state ← rd (states region) st;
          Ret (state =? Z.lor BUDDY_STATE_ALLOCATED (Z.of_nat order))
      end
  end.

(** [while (current < BUDDY_MAX_ORDER)]: join with the free buddy. *)
Fixpoint free_merge (fuel : nat) (allocator : buddy_allocator) (ri : nat) (address : Z)
  (current : nat) : outcome (buddy_allocator * Z * nat) :=
  match fuel with
  | O => Fault
  | S fuel =>
      if (current <? BUDDY_MAX_ORDER)%nat then
        region ← rd (regions allocator) ri;
        let size := buddy_order_size current in
        let buddy := Z.lxor address size in
        if negb (buddy_block_fits region buddy current) then Ret (allocator, address, current) else
        match buddy_state region buddy with
        | None => Ret (allocator, address, current)
        | Some status =>
            v ← rd (states region) status;
            if negb (v =? Z.lor BUDDY_STATE_FREE (Z.of_nat current))
            then Ret (allocator, address, current)
            else
              allocator ← buddy_list_remove allocator buddy current;
              allocator ← set_state allocator ri status BUDDY_STATE_UNUSED;
              free_merge fuel allocator ri (if buddy <? address then buddy else address) (current + 1)
        end
      else Ret (allocator, address, current)
  end.

Definition buddy_free (allocator : buddy_allocator) (address : Z) (order : nat)
  : outcome (Z * buddy_allocator) :=
  ok ← buddy_allocated allocator address order;
  if negb ok then Ret (-1, allocator) else
  ri ← deref (buddy_find_region allocator address);
  region ← rd (regions allocator) ri;
  state ← deref (buddy_state region address);
  allocator ← set_state allocator ri state BUDDY_STATE_UNUSED;
  '(allocator, address, current) ← free_merge (S BUDDY_MAX_ORDER) allocator ri address order;
  allocator ← buddy_list_add allocator ri address current;
  Ret (0, MkAllocator (areas allocator) (regions allocator)
            (free_pages allocator +64 Z.shiftl 1 (Z.of_nat order))).

Definition buddy_contains (allocator : buddy_allocator) (address : Z) : outcome bool :=
  if truth (address mod PGSIZE) then Ret false else
  match buddy_find_region allocator address with
  | None => Ret false
  | Some ri =>
      region ← rd (regions allocator) ri;
      Ret (allocatable_start region <=? address)
  end.

Definition buddy_free_page_count (allocator : buddy_allocator) : Z := free_pages allocator.
