(* ===== verification/BuddyBlocks.v ===== *)
(** * Abstract state of the buddy allocator

    The pages of the managed regions are partitioned into blocks.  A block map
    gives the order and the status (free or allocated) of each block by its
    first address; splitting, joining and re-tagging blocks are the only ways it
    changes.  This file has no code of its own to model: it is the specification
    [BuddyCorrect] refines kernel/buddy.c to. *)
From S2P Require Import Prelude MemRange Buddy.

(** ** Orders and sizes *)

Lemma size_pow k : buddy_order_size k = 2 ^ (12 + Z.of_nat k).
Proof.
  unfold buddy_order_size, PGSIZE. rewrite Z.shiftl_mul_pow2 by lia.
  by rewrite Z.pow_add_r by lia.
Qed.
Lemma size_pos k : 0 < buddy_order_size k.
Proof. rewrite size_pow. apply Z.pow_pos_nonneg; lia. Qed.
Lemma size_S k : buddy_order_size (S k) = 2 * buddy_order_size k.
Proof.
  rewrite !size_pow, Nat2Z.inj_succ, Z.add_succ_r, Z.pow_succ_r by lia. done.
Qed.
Lemma size_pages k : buddy_order_size k = PGSIZE * 2 ^ Z.of_nat k.
Proof. rewrite size_pow, Z.pow_add_r by lia. done. Qed.
Lemma size_le j k : (j <= k)%nat -> buddy_order_size j <= buddy_order_size k.
Proof. intros. rewrite !size_pow. apply Z.pow_le_mono_r; lia. Qed.
Lemma size_max k : (k <= BUDDY_MAX_ORDER)%nat -> buddy_order_size k <= 2 ^ 30.
Proof. intros H. etrans; [by apply size_le|]. by vm_compute. Qed.

(** [a] is a multiple of the size of order [k]. *)
Definition aligned (a : Z) (k : nat) : Prop := a mod buddy_order_size k = 0.

Lemma aligned_iff a k : aligned a k <-> exists q, a = buddy_order_size k * q.
Proof.
  unfold aligned. pose proof (size_pos k). split.
  - intros Hm. exists (a / buddy_order_size k). by apply Z.div_exact; [lia|].
  - intros [q ->]. rewrite Z.mul_comm. apply Z.mod_mul. lia.
Qed.

Lemma aligned_S a k : aligned a (S k) -> aligned a k.
Proof.
  rewrite !aligned_iff. intros [q ->]. exists (2 * q). rewrite size_S. lia.
Qed.
Lemma aligned_le a j k : (j <= k)%nat -> aligned a k -> aligned a j.
Proof. induction 1; auto using aligned_S. Qed.
Lemma aligned_page a k : aligned a k -> a mod PGSIZE = 0.
Proof. intros H%(aligned_le a 0); [exact H|lia]. Qed.
Lemma aligned_right a k : aligned a (S k) -> aligned (a + buddy_order_size k) k.
Proof.
  rewrite !aligned_iff. intros [q ->]. exists (2 * q + 1). rewrite size_S. lia.
Qed.

(** Two aligned blocks of the same order are equal or disjoint. *)
Lemma aligned_lt a b k : aligned a k -> aligned b k -> a < b -> a + buddy_order_size k <= b.
Proof.
  rewrite !aligned_iff. intros [p ->] [q ->] Hlt. pose proof (size_pos k) as Hp.
  apply Z.mul_lt_mono_pos_l in Hlt; [|done]. nia.
Qed.

(** ** Buddies *)

Definition buddy_of (a : Z) (k : nat) : Z := Z.lxor a (buddy_order_size k).

Lemma buddy_of_cases a k : aligned a k ->
  (aligned a (S k) /\ buddy_of a k = a + buddy_order_size k) \/
  (aligned (a - buddy_order_size k) (S k) /\ buddy_of a k = a - buddy_order_size k).
Proof.
  intros [q ->]%aligned_iff. unfold buddy_of.
  destruct (Z.Even_or_Odd q) as [[p ->]|[p ->]]; [left|right].
  - split; [apply aligned_iff; exists p; rewrite size_S; lia|].
    replace (buddy_order_size k * (2 * p)) with (2 ^ (12 + Z.of_nat k + 1) * p)
      by (rewrite size_pow, Z.pow_add_r by lia; lia).
    rewrite size_pow. apply lxor_pow2_above. lia.
  - split; [apply aligned_iff; exists p; rewrite size_S; lia|].
    replace (buddy_order_size k * (2 * p + 1))
      with (2 ^ (12 + Z.of_nat k + 1) * p + 2 ^ (12 + Z.of_nat k))
      by (rewrite size_pow, Z.pow_add_r by lia; lia).
    rewrite size_pow, lxor_pow2_below by lia. lia.
Qed.

Lemma buddy_of_involutive a k : buddy_of (buddy_of a k) k = a.
Proof. unfold buddy_of. by rewrite Z.lxor_assoc, Z.lxor_nilpotent, Z.lxor_0_r. Qed.

Lemma buddy_of_left a k : aligned a (S k) -> buddy_of a k = a + buddy_order_size k.
Proof.
  intros Ha. destruct (buddy_of_cases a k) as [[_ ->]|[Hb _]]; [by apply aligned_S|done|].
  exfalso. apply aligned_iff in Ha as [p ->], Hb as [q Hq].
  rewrite !size_S in Hq. pose proof (size_pos k).
  assert (2 * p - 1 = 2 * q); [|lia].
  apply (Z.mul_cancel_l _ _ (buddy_order_size k)); lia.
Qed.

(** ** Regions and block maps *)

Record shape := MkShape { s_start : Z; s_end : Z; s_alloc : Z }.

Definition fits (s : shape) (a : Z) (k : nat) : Prop :=
  (k <= BUDDY_MAX_ORDER)%nat /\ s_alloc s <= a /\ aligned a k /\
  a + buddy_order_size k <= s_end s.

(** First address of a block to its status ([true]: free) and order. *)
Abbreviation bmap := (gmap Z (bool * nat)).

(** Sum of a weight over the blocks. *)
Definition wsum (w : bool * nat -> Z) (B : bmap) : Z :=
  map_fold (fun _ x acc => w x + acc) 0 B.

Lemma wsum_empty w : wsum w ∅ = 0.
Proof. apply map_fold_empty. Qed.
Lemma wsum_insert w B a x : B !! a = None -> wsum w (<[a := x]> B) = w x + wsum w B.
Proof. intros H. unfold wsum. rewrite map_fold_insert_L; [done| |done]. intros; lia. Qed.
Lemma wsum_delete w B a x : B !! a = Some x -> wsum w (delete a B) = wsum w B - w x.
Proof.
  intros H. rewrite <-(insert_delete_id B a x H) at 2.
  rewrite wsum_insert by apply lookup_delete_eq. lia.
Qed.
Lemma wsum_update w B a x y : B !! a = Some x -> wsum w (<[a := y]> B) = wsum w B - w x + w y.
Proof.
  intros H. rewrite <-insert_delete_eq, wsum_insert by apply lookup_delete_eq.
  rewrite (wsum_delete w B a x H). lia.
Qed.

Definition all_pages (x : bool * nat) : Z := 2 ^ Z.of_nat x.2.
Definition free_only (x : bool * nat) : Z := if x.1 then 2 ^ Z.of_nat x.2 else 0.

Lemma wsum_nonneg w B : (forall x, 0 <= w x) -> 0 <= wsum w B.
Proof.
  intros Hw. induction B as [|a x B Ha IH] using map_ind; [by rewrite wsum_empty|].
  rewrite wsum_insert by done. specialize (Hw x). lia.
Qed.
Lemma wsum_le w v B : (forall x, w x <= v x) -> wsum w B <= wsum v B.
Proof.
  intros Hw. induction B as [|a x B Ha IH] using map_ind; [by rewrite !wsum_empty|].
  rewrite !wsum_insert by done. specialize (Hw x). lia.
Qed.
Lemma wsum_no_free B : (forall a k, B !! a <> Some (true, k)) -> wsum free_only B = 0.
Proof.
  induction B as [|a [f k] B Ha IH] using map_ind; intros Hno; [by rewrite wsum_empty|].
  rewrite wsum_insert, IH by (try done; intros b j Hb; apply (Hno b j);
    rewrite lookup_insert_ne by congruence; done).
  destruct f; [|done]. by destruct (Hno a k); rewrite lookup_insert_eq.
Qed.
Lemma free_le_all B : 0 <= wsum free_only B <= wsum all_pages B.
Proof.
  split; [apply wsum_nonneg|apply wsum_le]; intros [[] k]; unfold free_only, all_pages; cbn; try lia;
    apply Z.pow_nonneg; lia.
Qed.

Fixpoint total_pages (ss : list shape) : Z :=
  match ss with [] => 0 | s :: ss => (s_end s - s_alloc s) / PGSIZE + total_pages ss end.

(** The blocks partition the allocatable part of the regions. *)
Record blocks_ok (ss : list shape) (B : bmap) : Prop := {
  b_fits : forall a f k, B !! a = Some (f, k) -> exists s, s ∈ ss /\ fits s a k;
  b_disj : forall a f k b g j, B !! a = Some (f, k) -> B !! b = Some (g, j) -> a < b ->
             a + buddy_order_size k <= b;
  b_cover : forall s x, s ∈ ss -> s_alloc s <= x < s_end s ->
             exists a f k, B !! a = Some (f, k) /\ a <= x < a + buddy_order_size k;
  b_total : wsum all_pages B = total_pages ss }.

(** No two free blocks of a region are buddies of the same order. *)
Definition coalesced (ss : list shape) (B : bmap) : Prop :=
  forall s a k, s ∈ ss -> B !! a = Some (true, k) -> (k < BUDDY_MAX_ORDER)%nat ->
    fits s a k -> fits s (buddy_of a k) k -> B !! buddy_of a k <> Some (true, k).

(** Changing the status of a block. *)
Lemma retag_ok ss B a f g k :
  blocks_ok ss B -> B !! a = Some (f, k) -> blocks_ok ss (<[a := (g, k)]> B).
Proof.
  intros [Hf Hd Hc Ht] Ha.
  assert (Hold : forall b h j, <[a:=(g, k)]> B !! b = Some (h, j) -> exists h', B !! b = Some (h', j)).
  { intros b h j. destruct (decide (a = b)) as [->|].
    - rewrite lookup_insert_eq. naive_solver.
    - rewrite lookup_insert_ne by done. eauto. }
  split.
  - intros b h j [h' H]%Hold. eauto.
  - intros b h j c h2 j2 [h' H]%Hold [h2' H2]%Hold. eauto.
  - intros s x Hs Hx. destruct (Hc s x Hs Hx) as (b & h & j & Hb & ?).
    destruct (decide (a = b)) as [->|].
    + exists b, g, k. rewrite lookup_insert_eq. naive_solver.
    + exists b, h, j. by rewrite lookup_insert_ne.
  - rewrite (wsum_update _ _ _ _ _ Ha), Ht. unfold all_pages; cbn. lia.
Qed.

(** A block strictly inside another block is not in the map. *)
Lemma inside_None ss B a f k b :
  blocks_ok ss B -> B !! a = Some (f, k) -> a < b < a + buddy_order_size k -> B !! b = None.
Proof.
  intros HB Ha Hb. destruct (B !! b) as [[g j]|] eqn:E; [|done].
  pose proof (b_disj _ _ HB _ _ _ _ _ _ Ha E). lia.
Qed.

(** A block is as long as its two halves. *)
Lemma pages_S k : 2 ^ Z.of_nat (S k) = 2 * 2 ^ Z.of_nat k.
Proof. rewrite Nat2Z.inj_succ, Z.pow_succ_r by lia. done. Qed.

Lemma fits_left s a k : fits s a (S k) -> fits s a k.
Proof.
  intros (Hk & ? & Ha & ?). rewrite size_S in *. pose proof (size_pos k).
  split_and!; [lia|done|by apply aligned_S|lia].
Qed.
Lemma fits_right s a k : fits s a (S k) -> fits s (a + buddy_order_size k) k.
Proof.
  intros (Hk & ? & Ha & ?). rewrite size_S in *. pose proof (size_pos k).
  split_and!; [lia|lia|by apply aligned_right|lia].
Qed.

(** Splitting a block into its halves. *)
Lemma split_ok ss B a f g h k :
  blocks_ok ss B -> B !! a = Some (f, S k) ->
  blocks_ok ss (<[a := (g, k)]> (<[a + buddy_order_size k := (h, k)]> B)).
Proof.
  intros HB Ha. pose proof (size_pos k) as Hp. pose proof (size_S k) as HS.
  assert (Hr : B !! (a + buddy_order_size k) = None) by (eapply inside_None; [done..|lia]).
  assert (Hold : forall b t j,
    <[a := (g, k)]> (<[a + buddy_order_size k := (h, k)]> B) !! b = Some (t, j) ->
    (b = a /\ j = k) \/ (b = a + buddy_order_size k /\ j = k) \/
    (b <> a /\ B !! b = Some (t, j))).
  { intros b t j. rewrite !lookup_insert. repeat case_decide; naive_solver. }
  assert (Hfar : forall b t j, b <> a -> B !! b = Some (t, j) ->
    a + buddy_order_size (S k) <= b \/ b + buddy_order_size j <= a).
  { intros b t j Hne Hb. destruct (decide (a < b)).
    - left. eapply (b_disj _ _ HB); [done..|lia].
    - right. eapply (b_disj _ _ HB); [done..|lia]. }
  split.
  - intros b t j [[-> ->]|[[-> ->]|[? Hb]]]%Hold.
    + destruct (b_fits _ _ HB _ _ _ Ha) as (s & ? & ?). eauto using fits_left.
    + destruct (b_fits _ _ HB _ _ _ Ha) as (s & ? & ?). eauto using fits_right.
    + by eapply b_fits.
  - intros b t j c t' j' Hb%Hold Hc%Hold Hlt. pose proof (size_pos j). pose proof (size_pos j').
    destruct Hb as [[-> ->]|[[-> ->]|[? Hb]]], Hc as [[-> ->]|[[-> ->]|[? Hc]]]; try lia.
    + destruct (Hfar _ _ _ ltac:(done) Hc); lia.
    + destruct (Hfar _ _ _ ltac:(done) Hc); lia.
    + destruct (Hfar _ _ _ ltac:(done) Hb); lia.
    + destruct (Hfar _ _ _ ltac:(done) Hb); lia.
    + by eapply (b_disj _ _ HB).
  - intros s x Hs Hx. destruct (b_cover _ _ HB s x Hs Hx) as (b & t & j & Hb & ?).
    destruct (decide (b = a)) as [->|]; [simplify_eq; destruct (decide (x < a + buddy_order_size k))|].
    + exists a, g, k. rewrite lookup_insert_eq. split; [done|lia].
    + exists (a + buddy_order_size k), h, k. rewrite lookup_insert_ne, lookup_insert_eq by lia.
      split; [done|lia].
    + exists b, t, j. rewrite !lookup_insert_ne; [done| |done]. intros <-. congruence.
  - rewrite (wsum_update _ _ _ (f, S k)) by (rewrite lookup_insert_ne; [done|lia]).
    rewrite wsum_insert by done. rewrite (b_total _ _ HB). unfold all_pages. cbn [snd].
    rewrite pages_S. lia.
Qed.

(** Joining two halves of a region. *)
Lemma merge_ok ss B s a f g h k :
  blocks_ok ss B -> s ∈ ss -> aligned a (S k) -> (S k <= BUDDY_MAX_ORDER)%nat ->
  B !! a = Some (f, k) -> B !! (a + buddy_order_size k) = Some (g, k) ->
  fits s a k -> fits s (a + buddy_order_size k) k ->
  blocks_ok ss (<[a := (h, S k)]> (delete (a + buddy_order_size k) B)).
Proof.
  intros HB Hs Hal Hk Ha Hr Hfa Hfr. pose proof (size_pos k) as Hp. pose proof (size_S k) as HS.
  assert (Hold : forall b t j,
    <[a := (h, S k)]> (delete (a + buddy_order_size k) B) !! b = Some (t, j) ->
    (b = a /\ j = S k) \/ (b <> a /\ b <> a + buddy_order_size k /\ B !! b = Some (t, j))).
  { intros b t j. rewrite lookup_insert, lookup_delete. repeat case_decide; naive_solver. }
  assert (Hfar : forall b t j, b <> a -> b <> a + buddy_order_size k -> B !! b = Some (t, j) ->
    a + buddy_order_size (S k) <= b \/ b + buddy_order_size j <= a).
  { intros b t j Hne Hne' Hb. destruct (decide (a < b)).
    - left. destruct (decide (a + buddy_order_size k < b)).
      + pose proof (b_disj _ _ HB _ _ _ _ _ _ Hr Hb). lia.
      + pose proof (b_disj _ _ HB _ _ _ _ _ _ Ha Hb). lia.
    - right. eapply (b_disj _ _ HB); [done..|lia]. }
  split.
  - intros b t j [[-> ->]|(? & ? & Hb)]%Hold; [|by eapply b_fits].
    exists s. split; [done|]. destruct Hfa as (?&?&?&?), Hfr as (?&?&?&?).
    split_and!; [done..|lia].
  - intros b t j c t' j' Hb%Hold Hc%Hold Hlt. pose proof (size_pos j). pose proof (size_pos j').
    destruct Hb as [[-> ->]|(? & ? & Hb)], Hc as [[-> ->]|(? & ? & Hc)]; try lia.
    + destruct (Hfar _ _ _ ltac:(done) ltac:(done) Hc); lia.
    + destruct (Hfar _ _ _ ltac:(done) ltac:(done) Hb); lia.
    + by eapply (b_disj _ _ HB).
  - intros s' x Hs' Hx. destruct (b_cover _ _ HB s' x Hs' Hx) as (b & t & j & Hb & ?).
    destruct (decide (b = a \/ b = a + buddy_order_size k)) as [Hba|Hba].
    + exists a, h, (S k). rewrite lookup_insert_eq. split; [done|].
      destruct Hba as [-> | ->]; simplify_eq; lia.
    + exists b, t, j. rewrite lookup_insert_ne, lookup_delete_ne by naive_solver. done.
  - rewrite (wsum_update _ _ _ (f, k)) by (rewrite lookup_delete_ne; [done|lia]).
    rewrite (wsum_delete _ _ _ _ Hr), (b_total _ _ HB). unfold all_pages. cbn [snd].
    rewrite pages_S. lia.
Qed.

(** ** Coalescing *)

Lemma coalesced_mono ss B B' :
  coalesced ss B -> (forall a k, B' !! a = Some (true, k) -> B !! a = Some (true, k)) ->
  coalesced ss B'.
Proof. intros HC Hm s a k Hs Ha Hk Hf Hf' Hb. by eapply (HC s a k); eauto. Qed.

(** The right half of an allocated block may become free. *)
Lemma coalesced_split ss B a k :
  coalesced ss B -> B !! a = Some (false, S k) -> aligned a (S k) ->
  coalesced ss (<[a := (false, k)]> (<[a + buddy_order_size k := (true, k)]> B)).
Proof.
  intros HC Ha Hal s c j Hs Hc Hj Hf Hf' Hb. pose proof (size_pos k).
  pose proof (buddy_of_left a k Hal) as Hbo.
  assert (Hbo' : buddy_of (a + buddy_order_size k) k = a) by by rewrite <-Hbo, buddy_of_involutive.
  rewrite lookup_insert in Hc, Hb. do 2 (case_decide; [naive_solver|]).
  rewrite lookup_insert in Hc, Hb.
  case_decide; case_decide; subst; simplify_eq.
  - pose proof (buddy_of_involutive c j). congruence.
  - by eapply (HC s c j).
Qed.

(** A block may become free when its buddy is not a free block of its order. *)
Lemma coalesced_free ss B a k :
  coalesced ss B -> B !! a = Some (false, k) ->
  ((k < BUDDY_MAX_ORDER)%nat -> forall s, s ∈ ss -> fits s a k -> fits s (buddy_of a k) k ->
    B !! buddy_of a k <> Some (true, k)) ->
  coalesced ss (<[a := (true, k)]> B).
Proof.
  intros HC Ha Hno s c j Hs Hc Hj Hf Hf' Hb. pose proof (size_pos j).
  assert (Hne : buddy_of c j <> c).
  { destruct Hf as (_ & _ & Hal & _). destruct (buddy_of_cases c j Hal) as [[_ ->]|[_ ->]]; lia. }
  rewrite lookup_insert in Hc, Hb. case_decide; case_decide; simplify_eq.
  - rewrite buddy_of_involutive in Hno. exact (Hno Hj s Hs Hf' Hf Hc).
  - exact (Hno Hj s Hs Hf Hf' Hb).
  - by eapply (HC s c j).
Qed.

(** A block that meets an aligned range of no larger order contains it. *)
Lemma aligned_contains a k b j x :
  aligned a k -> aligned b j -> (k <= j)%nat ->
  a <= x < a + buddy_order_size k -> b <= x < b + buddy_order_size j ->
  b <= a /\ a + buddy_order_size k <= b + buddy_order_size j.
Proof.
  intros Ha Hb Hkj Hx Hx'. pose proof (size_pos k).
  assert (Hb' : aligned b k) by (by eapply aligned_le).
  assert (He : aligned (b + buddy_order_size j) k).
  { apply (aligned_le _ _ j); [done|]. unfold aligned in *.
    rewrite <-Zplus_mod_idemp_r, Z.mod_same, Z.add_0_r by (pose proof (size_pos j); lia). done. }
  split.
  - destruct (Z.le_gt_cases b a); [done|]. pose proof (aligned_lt a b k Ha Hb'). lia.
  - pose proof (aligned_lt a _ k Ha He). lia.
Qed.

(** Coalescing makes free blocks maximal: an aligned range either meets an
    allocated block or lies inside one free block. *)
Lemma coalesced_maximal ss B s a k :
  blocks_ok ss B -> coalesced ss B -> s ∈ ss -> fits s a k ->
  (exists b j, B !! b = Some (false, j) /\
     a < b + buddy_order_size j /\ b < a + buddy_order_size k) \/
  (exists b j, B !! b = Some (true, j) /\ (k <= j)%nat /\ b <= a /\
     a + buddy_order_size k <= b + buddy_order_size j).
Proof.
  intros HB HC Hs. revert a; induction k as [|k IH]; intros a Hf.
  - pose proof (size_pos 0). destruct (b_cover _ _ HB s a) as (b & f & j & Hb & Hx); [done| |].
    { destruct Hf as (_ & ? & _ & ?). lia. }
    destruct f; [|left; exists b, j; split; [done|lia]].
    right. exists b, j. split; [done|]. split; [lia|].
    destruct (b_fits _ _ HB _ _ _ Hb) as (s' & _ & Hfb).
    apply (aligned_contains a 0 b j a); [apply Hf|apply Hfb|lia..].
  - pose proof (size_pos k). pose proof (size_S k) as HS.
    assert (Hal : aligned a (S k)) by apply Hf.
    destruct (IH a) as [(b & j & Hb & ?)|(b1 & j1 & Hb1 & Hj1 & Hc1)]; [by apply fits_left| |].
    { left. exists b, j. split; [done|lia]. }
    destruct (IH (a + buddy_order_size k)) as [(b & j & Hb & ?)|(b2 & j2 & Hb2 & Hj2 & Hc2)];
      [by apply fits_right| |].
    { left. exists b, j. split; [done|lia]. }
    right. destruct (b_fits _ _ HB _ _ _ Hb1) as (s1 & _ & Hf1).
    destruct (b_fits _ _ HB _ _ _ Hb2) as (s2 & _ & Hf2).
    destruct (decide (S k <= j1)%nat) as [|H1].
    { exists b1, j1. split; [done|]. split; [done|].
      apply (aligned_contains a (S k) b1 j1 a); [done|apply Hf1|lia..]. }
    destruct (decide (S k <= j2)%nat) as [|H2].
    { exists b2, j2. split; [done|]. split; [done|].
      apply (aligned_contains a (S k) b2 j2 (a + buddy_order_size k)); [done|apply Hf2|lia..]. }
    assert (j1 = k) as -> by lia. assert (j2 = k) as -> by lia.
    assert (b1 = a) as -> by lia. assert (b2 = a + buddy_order_size k) as -> by lia.
    exfalso. apply (HC s a k); rewrite ?(buddy_of_left a k Hal);
      [done..|destruct Hf; lia|by apply fits_left|by apply fits_right|done].
Qed.

(** ** Growing a region block by block *)

Lemma total_pages_app ss ss' : total_pages (ss ++ ss') = total_pages ss + total_pages ss'.
Proof. induction ss as [|s ss IH]; [done|]. rewrite <-app_comm_cons. cbn [total_pages]. lia. Qed.

(** The last region, so far filled up to [a], gets a block at [a]. *)
Lemma extend_ok ss st al a B k :
  blocks_ok (ss ++ [MkShape st a al]) B -> al mod PGSIZE = 0 -> al <= a -> aligned a k ->
  (k <= BUDDY_MAX_ORDER)%nat ->
  (forall b f j, B !! b = Some (f, j) -> b + buddy_order_size j <= a \/ a + buddy_order_size k <= b) ->
  blocks_ok (ss ++ [MkShape st (a + buddy_order_size k) al]) (<[a := (true, k)]> B).
Proof.
  intros HB Hal Hle Ha Hk Hd. pose proof (size_pos k) as Hp.
  assert (Hn : B !! a = None).
  { destruct (B !! a) as [[f j]|] eqn:E; [|done]. specialize (Hd _ _ _ E). pose proof (size_pos j). lia. }
  split.
  - intros b f j. rewrite lookup_insert. case_decide as Hab.
    + intros [= <- <-]. subst b. exists (MkShape st (a + buddy_order_size k) al). split; [set_solver|].
      split_and!; cbn; [done..|lia].
    + intros (s & Hs & Hf)%(b_fits _ _ HB). apply elem_of_app in Hs as [Hs|Hs%list_elem_of_singleton].
      * exists s. set_solver.
      * subst s. exists (MkShape st (a + buddy_order_size k) al). split; [set_solver|].
        destruct Hf as (? & ? & ? & ?). cbn in *. split_and!; cbn; [done..|lia].
  - intros b f j c g l. rewrite !lookup_insert. do 2 case_decide; subst.
    + lia.
    + intros [= <- <-] Hc Hlt. destruct (Hd _ _ _ Hc); [pose proof (size_pos l); lia|done].
    + intros Hb [= <- <-] Hlt. destruct (Hd _ _ _ Hb); lia.
    + apply (b_disj _ _ HB).
  - intros s x Hs Hx. destruct (decide (a <= x < a + buddy_order_size k)) as [|Hout].
    { exists a, true, k. split; [apply lookup_insert_eq|done]. }
    assert (Hold : exists b f j, B !! b = Some (f, j) /\ b <= x < b + buddy_order_size j).
    { apply elem_of_app in Hs as [Hs|Hs%list_elem_of_singleton]; [apply (b_cover _ _ HB s); set_solver|].
      subst s. cbn in Hx. apply (b_cover _ _ HB (MkShape st a al)); [set_solver|cbn; lia]. }
    destruct Hold as (b & f & j & Hb & ?). exists b, f, j. split; [|done].
    rewrite lookup_insert_ne; [done|]. congruence.
  - rewrite wsum_insert, (b_total _ _ HB), !total_pages_app by done.
    cbn [total_pages s_end s_alloc]. unfold all_pages. cbn [snd].
    replace (a + buddy_order_size k - al) with (a - al + 2 ^ Z.of_nat k * PGSIZE)
      by (rewrite size_pages; lia).
    rewrite Z.div_add by done. lia.
Qed.

(** A region with nothing in it yet. *)
Lemma empty_region_ok ss st al B : blocks_ok ss B -> blocks_ok (ss ++ [MkShape st al al]) B.
Proof.
  intros HB. split.
  - intros b f j (s & ? & ?)%(b_fits _ _ HB). exists s. set_solver.
  - apply HB.
  - intros s x [Hs|Hs%list_elem_of_singleton]%elem_of_app Hx; [by apply (b_cover _ _ HB s)|].
    subst s. cbn in Hx. lia.
  - rewrite (b_total _ _ HB), total_pages_app. cbn [total_pages s_end s_alloc].
    rewrite Z.sub_diag, Z.div_0_l by done. lia.
Qed.

Lemma empty_region_coalesced ss st al B :
  coalesced ss B -> coalesced (ss ++ [MkShape st al al]) B.
Proof.
  intros HC s a k [Hs|Hs%list_elem_of_singleton]%elem_of_app; [by apply HC|].
  intros _ _ (_ & ? & _ & ?). subst s. cbn in *. pose proof (size_pos k). lia.
Qed.

(** ** Allocated blocks *)

Definition allocations (B : bmap) : gmap Z nat :=
  omap (fun x : bool * nat => if x.1 then None else Some x.2) B.

Definition pages_sum (M : gmap Z nat) : Z := map_fold (fun _ k acc => 2 ^ Z.of_nat k + acc) 0 M.

Lemma allocations_lookup B a k : allocations B !! a = Some k <-> B !! a = Some (false, k).
Proof. unfold allocations. rewrite lookup_omap_Some. 
  split; [intros ([[] j] & ? & ?); naive_solver|intros; by exists (false, k)]. Qed.

Lemma pages_sum_insert M a k : M !! a = None -> pages_sum (<[a := k]> M) = 2 ^ Z.of_nat k + pages_sum M.
Proof. intros H. unfold pages_sum. rewrite map_fold_insert_L; [done| |done]. intros; lia. Qed.

(** Every page is either free or allocated. *)
Lemma all_pages_split B : wsum all_pages B = wsum free_only B + pages_sum (allocations B).
Proof.
  induction B as [|a [f k] B Ha IH] using map_ind; [done|].
  assert (Hn : allocations B !! a = None) by (unfold allocations; by rewrite lookup_omap, Ha).
  rewrite !wsum_insert, IH by done. unfold allocations. destruct f.
  - rewrite omap_insert_None by done. rewrite delete_id by done. unfold all_pages, free_only at 2. cbn. lia.
  - rewrite (omap_insert_Some _ _ _ (false, k) k) by done. rewrite pages_sum_insert by done.
    unfold all_pages, free_only at 2. cbn. fold (allocations B). lia.
Qed.
