(* ===== verification/BuddyCorrect.v ===== *)
(** * Correctness of the buddy allocator

    kernel/buddy.c refines the block maps of [BuddyBlocks]: every operation keeps
    the free lists, the state bytes and the counter in step with a partition of
    the managed pages into aligned, disjoint, fully coalesced blocks. *)
From S2P Require Import Prelude MemRange Buddy BuddyBlocks.

(** ** The representation invariant *)

Definition shape_of (r : buddy_region) : shape :=
  MkShape (g_start r) (g_end r) (allocatable_start r).
Definition shapes (A : buddy_allocator) : list shape := shape_of <$> regions A.

Definition region_ok (r : buddy_region) : Prop :=
  0 < g_start r /\ g_start r < g_end r /\ g_end r < 2 ^ 64 /\
  g_start r mod PGSIZE = 0 /\ g_end r mod PGSIZE = 0 /\
  g_start r <= allocatable_start r <= g_end r /\ allocatable_start r mod PGSIZE = 0 /\
  (g_end r - g_start r) / PGSIZE <= state_count r <= Z.of_nat (length (states r)).

Record regions_ok (rs : list buddy_region) : Prop := {
  g_count : (length rs <= MEMRANGE_MAX)%nat;
  g_ok : forall i r, rs !! i = Some r -> region_ok r;
  g_disj : forall i j r r', rs !! i = Some r -> rs !! j = Some r' -> i <> j ->
             g_end r <= g_start r' \/ g_end r' <= g_start r }.

(** The state byte of a block's first page; other pages are unused. *)
Definition tag (x : option (bool * nat)) : Z :=
  match x with
  | Some (true, k) => Z.lor BUDDY_STATE_FREE (Z.of_nat k)
  | Some (false, k) => Z.lor BUDDY_STATE_ALLOCATED (Z.of_nat k)
  | None => BUDDY_STATE_UNUSED
  end.

(** While a block is being split or joined, its own byte is [UNUSED]: it is the
    hole of the map. *)
Definition gtag (B : bmap) (hole : option Z) (a : Z) : Z :=
  if decide (hole = Some a) then BUDDY_STATE_UNUSED else tag (B !! a).

Definition page_index (r : buddy_region) (a : Z) : nat := Z.to_nat ((a - g_start r) / PGSIZE).
Definition page_in (r : buddy_region) (a : Z) : Prop :=
  g_start r <= a < g_end r /\ a mod PGSIZE = 0.

Definition states_ok (rs : list buddy_region) (g : Z -> Z) : Prop :=
  forall i r a, rs !! i = Some r -> page_in r a -> states r !! page_index r a = Some (g a).

Record areas_ok (ars : list buddy_area) (B : bmap) : Prop := {
  a_len : length ars = S BUDDY_MAX_ORDER;
  a_nodup : forall k ar, ars !! k = Some ar -> NoDup (blocks ar);
  a_count : forall k ar, ars !! k = Some ar -> acount ar = Z.of_nat (length (blocks ar));
  a_elem : forall k ar a, ars !! k = Some ar -> a ∈ blocks ar <-> B !! a = Some (true, k) }.

(** [d] pages are counted free but belong to the hole. *)
Record inv_mid (A : buddy_allocator) (B : bmap) (hole : option Z) (d : Z) : Prop := {
  i_regions : regions_ok (regions A);
  i_blocks : blocks_ok (shapes A) B;
  i_coal : coalesced (shapes A) B;
  i_states : states_ok (regions A) (gtag B hole);
  i_areas : areas_ok (areas A) B;
  i_free : free_pages A = wsum free_only B + d }.

Definition inv (A : buddy_allocator) (B : bmap) : Prop := inv_mid A B None 0.

(** ** State bytes *)

Lemma lor_free k : (k <= BUDDY_MAX_ORDER)%nat ->
  Z.lor BUDDY_STATE_FREE (Z.of_nat k) = 128 + Z.of_nat k.
Proof. unfold BUDDY_MAX_ORDER. intros H. do 19 (destruct k as [|k]; [done|]). lia. Qed.
Lemma lor_allocated k : (k <= BUDDY_MAX_ORDER)%nat ->
  Z.lor BUDDY_STATE_ALLOCATED (Z.of_nat k) = 64 + Z.of_nat k.
Proof. unfold BUDDY_MAX_ORDER. intros H. do 19 (destruct k as [|k]; [done|]). lia. Qed.

(** Reading a state byte tells the status of the block. *)
Lemma tag_inv x f k :
  (k <= BUDDY_MAX_ORDER)%nat ->
  (forall g j, x = Some (g, j) -> (j <= BUDDY_MAX_ORDER)%nat) ->
  tag x = tag (Some (f, k)) <-> x = Some (f, k).
Proof.
  intros Hk Hx. split; [|by intros ->]. unfold tag.
  assert (H18 : BUDDY_MAX_ORDER = 18%nat) by done.
  destruct x as [[[] j]|], f;
    try (pose proof (Hx _ _ eq_refl));
    rewrite ?lor_free, ?lor_allocated by done; unfold BUDDY_STATE_UNUSED; intros;
    try lia; do 2 f_equal; lia.
Qed.

(** ** Regions *)

Lemma page_index_lt r a : region_ok r -> page_in r a ->
  0 <= (a - g_start r) / PGSIZE < state_count r /\ (page_index r a < length (states r))%nat.
Proof.
  intros (? & ? & ? & ? & ? & ? & ? & ? & ?) [? ?]. unfold page_index, PGSIZE in *.
  assert (0 <= (a - g_start r) / 4096 < (g_end r - g_start r) / 4096)
    by (Z.div_mod_to_equations; lia).
  lia.
Qed.

Lemma buddy_state_Some r a : region_ok r -> page_in r a ->
  buddy_state r a = Some (page_index r a).
Proof.
  intros Hr Ha. destruct (page_index_lt _ _ Hr Ha) as [Hlt _].
  destruct Hr as (? & ? & ? & _), Ha as [? _]. unfold buddy_state, page_index.
  unwrap64. by rewrite (proj2 (Z.leb_gt _ _)) by lia.
Qed.

Lemma page_index_inj r a b : page_in r a -> page_in r b ->
  page_index r a = page_index r b -> g_start r mod PGSIZE = 0 -> a = b.
Proof.
  unfold page_in, page_index, PGSIZE. intros [? ?] [? ?] He ?.
  apply Z2Nat.inj in He; Z.div_mod_to_equations; lia.
Qed.

Lemma find_region_from_spec rs i r a n :
  rs !! i = Some r -> g_start r <= a < g_end r ->
  (forall j r', (j < i)%nat -> rs !! j = Some r' -> g_end r' <= a \/ a < g_start r') ->
  find_region_from rs a n = Some (n + i)%nat.
Proof.
  revert i n; induction rs as [|r0 rs IH]; intros i n Hi Ha Hj; [done|]. cbn.
  destruct i as [|i]; cbn in Hi.
  - simplify_eq. rewrite (proj2 (Z.leb_le _ _)), (proj2 (Z.ltb_lt _ _)) by lia. cbn. f_equal. lia.
  - case_if; bool_to_prop.
    + destruct (Hj 0%nat r0); [lia|done|lia..].
    + rewrite (IH i (S n)); [f_equal; lia|done..|]. intros j r' ? ?. apply (Hj (S j)); [lia|done].
Qed.

Lemma find_region_Some A i r a :
  regions_ok (regions A) -> regions A !! i = Some r -> g_start r <= a < g_end r ->
  buddy_find_region A a = Some i.
Proof.
  intros HR Hi Ha. apply (find_region_from_spec _ i r a 0); [done..|].
  intros j r' Hj Hr'. destruct (g_disj _ HR j i r' r Hr' Hi); lia.
Qed.

Lemma find_region_from_inv rs a n i :
  find_region_from rs a n = Some i ->
  exists r, (n <= i)%nat /\ rs !! (i - n)%nat = Some r /\ g_start r <= a < g_end r.
Proof.
  revert n; induction rs as [|r rs IH]; intros n; [done|]. cbn. case_if; bool_to_prop.
  - intros [= ->]. exists r. rewrite Nat.sub_diag. auto.
  - intros (r' & ? & Hr' & ?)%IH. exists r'. split_and!; [lia| |lia..].
    replace (i - n)%nat with (S (i - S n)) by lia. done.
Qed.

Lemma find_region_inv A a i : buddy_find_region A a = Some i ->
  exists r, regions A !! i = Some r /\ g_start r <= a < g_end r.
Proof.
  intros (r & _ & Hr & ?)%find_region_from_inv. rewrite Nat.sub_0_r in Hr. eauto.
Qed.

(** The region of a block, with its index. *)
Lemma shape_lookup A s : s ∈ shapes A -> exists i r, regions A !! i = Some r /\ shape_of r = s.
Proof.
  intros (r & -> & [i Hi]%list_elem_of_lookup)%list_elem_of_fmap. eauto.
Qed.
Lemma shape_elem A i r : regions A !! i = Some r -> shape_of r ∈ shapes A.
Proof. intros H. apply list_elem_of_fmap_2. by eapply list_elem_of_lookup_2. Qed.

Lemma fits_page_in r a k : region_ok r -> fits (shape_of r) a k -> page_in r a.
Proof.
  intros (? & ? & ? & ? & ? & ? & _) (? & ? & Hal & ?). cbn in *.
  pose proof (size_pos k). split; [lia|]. by eapply aligned_page.
Qed.

Lemma block_fits_spec r a k : buddy_block_fits r a k = true <-> fits (shape_of r) a k.
Proof.
  unfold buddy_block_fits, fits, aligned, truth. cbn.
  destruct (Nat.ltb_spec BUDDY_MAX_ORDER k); cbn; [split; [done|lia]|].
  destruct (Z.ltb_spec a (allocatable_start r)); cbn; [split; [done|lia]|].
  pose proof (size_pos k).
  destruct (Z.eqb_spec (a mod PGSIZE) 0) as [|Hp]; cbn.
  - destruct (Z.eqb_spec (a mod buddy_order_size k) 0); cbn; [|split; [done|tauto]].
    rewrite andb_true_iff, !Z.leb_le. split; [intros []|intros (?&?&?&?)]; split_and!; try done; lia.
  - split; [done|]. intros (_ & _ & Hal & _). by apply (aligned_page a k) in Hal.
Qed.

(** ** Writing a state byte *)

Lemma set_state_spec A i r a v g :
  regions_ok (regions A) -> regions A !! i = Some r -> page_in r a -> states_ok (regions A) g ->
  exists A', set_state A i (page_index r a) v = Ret A' /\
    areas A' = areas A /\ free_pages A' = free_pages A /\ shapes A' = shapes A /\
    regions_ok (regions A') /\ states_ok (regions A') (upd g a v).
Proof.
  intros HR Hi Ha HS. assert (Hr := g_ok _ HR _ _ Hi).
  destruct (page_index_lt _ _ Hr Ha) as [_ Hlt]. unfold set_state.
  rewrite (rd_Ret _ _ _ Hi), ret_bind, wr_Ret, ret_bind by done.
  rewrite wr_Ret, ret_bind by (by eapply lookup_lt_Some). eexists; split; [reflexivity|].
  set (r' := set_states r (<[page_index r a := v]> (states r))).
  assert (Hl : forall j r1, <[i := r']> (regions A) !! j = Some r1 ->
    exists r0, regions A !! j = Some r0 /\ shape_of r1 = shape_of r0 /\ state_count r1 = state_count r0 /\
      length (states r1) = length (states r0) /\ (j <> i -> r1 = r0) /\ (j = i -> r1 = r')).
  { intros j r1. destruct (decide (j = i)) as [->|].
    - rewrite list_lookup_insert_eq by (by eapply lookup_lt_Some). intros [= <-].
      exists r. cbn. rewrite length_insert. done.
    - rewrite list_lookup_insert_ne by done. intros H. exists r1. done. }
  split_and!; [done..| | |]; cbn.
  - unfold shapes. cbn. rewrite list_fmap_insert. apply list_insert_id.
    by rewrite list_lookup_fmap, Hi.
  - split; [rewrite length_insert; by apply HR| |].
    + intros j r1 (r0 & Hr0 & Hs & Hc & Hn & _)%Hl. pose proof (g_ok _ HR _ _ Hr0).
      unfold region_ok in *. injection Hs as -> -> ->. by rewrite Hc, Hn.
    + intros j1 j2 r1 r2 (q1 & Hq1 & Hs1 & _)%Hl (q2 & Hq2 & Hs2 & _)%Hl Hne.
      injection Hs1 as -> -> _. injection Hs2 as -> -> _. by eapply (g_disj _ HR j1 j2).
  - intros j r1 b Hr1 Hb. unfold upd. destruct (Hl _ _ Hr1) as (r0 & Hr0 & Hs & _ & _ & Hne & He).
    destruct (decide (j = i)) as [->|Hji].
    + rewrite (He eq_refl) in *. assert (r0 = r) as -> by congruence.
      assert (Hb' : page_in r b) by exact Hb.
      change (<[page_index r a := v]> (states r) !! page_index r b = Some (if decide (b = a) then v else g b)).
      case_decide as Hba; [subst; by rewrite list_lookup_insert_eq|].
      rewrite list_lookup_insert_ne; [by eapply HS|].
      intros Heq. apply Hba. symmetry. eapply page_index_inj; [done..|]. apply Hr.
    + rewrite (Hne Hji) in *. rewrite decide_False; [by eapply HS|].
      intros ->. destruct Ha as [? _], Hb as [? _].
      destruct (g_disj _ HR _ _ _ _ Hr0 Hi Hji); lia.
Qed.

(** ** Free lists *)

Lemma area_lookup ars B k : areas_ok ars B -> (k <= BUDDY_MAX_ORDER)%nat -> is_Some (ars !! k).
Proof. intros HA Hk. apply lookup_lt_is_Some_2. rewrite (a_len _ _ HA). lia. Qed.

Lemma areas_ok_ext ars B B' :
  areas_ok ars B -> (forall a k, B' !! a = Some (true, k) <-> B !! a = Some (true, k)) ->
  areas_ok ars B'.
Proof. intros [? ? ? He] Hx. split; [done..|]. intros. by rewrite Hx, He. Qed.

Lemma areas_add ars B k ar a :
  areas_ok ars B -> ars !! k = Some ar -> (forall j, B !! a <> Some (true, j)) ->
  Z.of_nat (length (blocks ar)) + 1 < 2 ^ 64 ->
  areas_ok (<[k := MkArea (a :: blocks ar) (acount ar +64 1)]> ars) (<[a := (true, k)]> B).
Proof.
  intros [Hl Hn Hc He] Hk Ha Hlen.
  assert (Hlt : (k < length ars)%nat) by (by eapply lookup_lt_Some).
  split; [by rewrite length_insert|intros j ar'|intros j ar'|intros j ar' b];
    (destruct (decide (j = k)) as [->|]; [rewrite list_lookup_insert_eq by done|
      rewrite list_lookup_insert_ne by done]).
  - intros [= <-]. cbn. constructor; [|by eapply Hn]. rewrite He by done. apply Ha.
  - apply Hn.
  - intros [= <-]. cbn. rewrite (Hc _ _ Hk). unwrap64. lia.
  - apply Hc.
  - intros [= <-]. cbn. rewrite elem_of_cons, He, lookup_insert by done.
    case_decide; [naive_solver|]. naive_solver.
  - intros Hj. rewrite He, lookup_insert by done. case_decide; [|done]. subst. naive_solver.
Qed.

Lemma unlink_spec a l : a ∈ l -> exists l', unlink a l = Some l' /\ a :: l' ≡ₚ l.
Proof.
  induction l as [|b l IH]; [set_solver|]. cbn. destruct (Z.eqb_spec b a) as [->|].
  - eauto.
  - intros [->|H]%elem_of_cons; [done|]. destruct (IH H) as (l' & -> & Hp).
    exists (b :: l'). split; [done|]. rewrite <-Hp. constructor.
Qed.

Lemma areas_remove ars B B' k ar a :
  areas_ok ars B -> ars !! k = Some ar -> B !! a = Some (true, k) ->
  Z.of_nat (length (blocks ar)) < 2 ^ 64 ->
  (forall b j, B' !! b = Some (true, j) <-> b <> a /\ B !! b = Some (true, j)) ->
  exists l, unlink a (blocks ar) = Some l /\
    areas_ok (<[k := MkArea l (acount ar -64 1)]> ars) B'.
Proof.
  intros [Hl Hn Hc He] Hk Ha Hlen HB'.
  assert (Hin : a ∈ blocks ar) by (by apply (He _ _ _ Hk)).
  destruct (unlink_spec _ _ Hin) as (l & -> & Hp). exists l. split; [done|].
  assert (Hnd : NoDup (a :: l)) by (rewrite Hp; by eapply Hn). apply NoDup_cons in Hnd as [Hna Hnd].
  assert (Hlt : (k < length ars)%nat) by (by eapply lookup_lt_Some).
  split; [by rewrite length_insert|intros j ar'|intros j ar'|intros j ar' b];
    (destruct (decide (j = k)) as [->|]; [rewrite list_lookup_insert_eq by done|
      rewrite list_lookup_insert_ne by done]).
  - by intros [= <-].
  - apply Hn.
  - intros [= <-]. cbn. rewrite (Hc _ _ Hk), <-Hp. rewrite <-Hp in Hlen. cbn [length] in *.
    unwrap64. lia.
  - apply Hc.
  - intros [= <-]. cbn. rewrite HB', <-(He _ _ _ Hk), <-Hp, elem_of_cons.
    split; [|naive_solver]. intros Hb. split; [|by right]. by intros ->.
  - intros Hj. rewrite He, HB' by done. split; [|naive_solver].
    intros Hb. split; [|done]. intros ->. naive_solver.
Qed.

(** Every list is far shorter than its 64-bit count can express. *)
Lemma length_le_wsum B l :
  NoDup l -> (forall a, a ∈ l -> is_Some (B !! a)) -> Z.of_nat (length l) <= wsum all_pages B.
Proof.
  revert B; induction l as [|a l IH]; intros B Hnd Hl.
  - apply wsum_nonneg. intros x. unfold all_pages. apply Z.pow_nonneg. lia.
  - apply NoDup_cons in Hnd as [Ha Hnd]. destruct (Hl a) as [x Hx]; [set_solver|].
    specialize (IH (delete a B) Hnd). rewrite (wsum_delete _ _ _ _ Hx) in IH.
    assert (1 <= all_pages x).
    { unfold all_pages. pose proof (Z.pow_pos_nonneg 2 (Z.of_nat x.2)). lia. }
    cbn [length]. etrans; [|apply Z.le_sub_le_add_r, IH].
    { lia. }
    intros b Hb. rewrite lookup_delete_ne by set_solver. apply Hl. set_solver.
Qed.

Lemma total_pages_le rs : regions_ok rs -> total_pages (shape_of <$> rs) <= 2 ^ 58.
Proof.
  intros HR. trans (Z.of_nat (length rs) * 2 ^ 52);
    [|pose proof (g_count _ HR); unfold MEMRANGE_MAX in *; lia].
  assert (H : Forall region_ok rs).
  { apply Forall_lookup. intros i r. apply (g_ok _ HR). }
  clear HR. induction H as [|r rs (? & ? & ? & ? & ? & ? & _) _ IH]; [done|].
  rewrite fmap_cons. cbn [total_pages length shape_of s_end s_alloc].
  assert ((g_end r - allocatable_start r) / PGSIZE <= 2 ^ 52).
  { unfold PGSIZE. Z.div_mod_to_equations. lia. }
  lia.
Qed.

Lemma area_length A B hole d k ar :
  inv_mid A B hole d -> areas A !! k = Some ar -> Z.of_nat (length (blocks ar)) <= 2 ^ 58.
Proof.
  intros HI Hk. etrans; [apply (length_le_wsum B)|].
  - by eapply (a_nodup _ _ (i_areas _ _ _ _ HI)).
  - intros a Ha. apply (a_elem _ _ (i_areas _ _ _ _ HI) _ _ _ Hk) in Ha. eauto.
  - rewrite (b_total _ _ (i_blocks _ _ _ _ HI)). apply total_pages_le, HI.
Qed.

(** ** Steps

    Each step of an operation moves from one intermediate invariant to the
    next.  A region is named by its index and shape, which no step changes. *)

Definition pidx (s : shape) (a : Z) : nat := Z.to_nat ((a - s_start s) / PGSIZE).

(** What a step leaves alone, and what it does to the bytes and lists. *)
Record stepped (A A' : buddy_allocator) (B' : bmap) (g : Z -> Z) : Prop := {
  st_shapes : shapes A' = shapes A;
  st_free : free_pages A' = free_pages A;
  st_regions : regions_ok (regions A');
  st_areas : areas_ok (areas A') B';
  st_states : states_ok (regions A') g }.

Lemma states_ok_ext rs g g' : (forall a, g a = g' a) -> states_ok rs g -> states_ok rs g'.
Proof. intros Hg H i r a Hi Ha. rewrite <-Hg. by eapply H. Qed.

Lemma shape_region A i s : shapes A !! i = Some s ->
  exists r, regions A !! i = Some r /\ shape_of r = s.
Proof.
  unfold shapes. rewrite list_lookup_fmap. intros (r & -> & ?)%fmap_Some. eauto.
Qed.

Lemma stepped_inv A A' B B' hole hole' g d d' :
  inv_mid A B hole d -> stepped A A' B' g ->
  blocks_ok (shapes A) B' -> coalesced (shapes A) B' ->
  (forall a, g a = gtag B' hole' a) ->
  wsum free_only B' + d' = wsum free_only B + d ->
  inv_mid A' B' hole' d'.
Proof.
  intros [] [Hs Hf HR HA HS] HB HC Hg Hw. split; rewrite ?Hs; [done..| |done|lia].
  by eapply states_ok_ext.
Qed.

(** A state byte is written, the map seen as [B']. *)
Lemma mark_step A B B' hole d i s a k v :
  inv_mid A B hole d -> shapes A !! i = Some s -> fits s a k ->
  (forall b j, B' !! b = Some (true, j) <-> B !! b = Some (true, j)) ->
  exists A', set_state A i (pidx s a) v = Ret A' /\ stepped A A' B' (upd (gtag B hole) a v).
Proof.
  intros HI (r & Hr & <-)%shape_region Hf HB'.
  destruct (set_state_spec A i r a v (gtag B hole)) as (A' & HA' & Ha & Hfp & Hs & HR & HS);
    [apply HI|done| |apply HI|].
  { eapply fits_page_in, Hf. by eapply g_ok; [apply HI|]. }
  exists A'. split; [done|]. split; [done..| |done]. rewrite Ha.
  eapply areas_ok_ext; [apply HI|done].
Qed.

(** A free block leaves its list and its byte becomes unused. *)
Lemma take_step A B B' hole d i s a k :
  inv_mid A B hole d -> shapes A !! i = Some s -> fits s a k -> B !! a = Some (true, k) ->
  (forall b j, B' !! b = Some (true, j) <-> b <> a /\ B !! b = Some (true, j)) ->
  exists A1 A', buddy_list_remove A a k = Ret A1 /\
    set_state A1 i (pidx s a) BUDDY_STATE_UNUSED = Ret A' /\
    stepped A A' B' (upd (gtag B hole) a BUDDY_STATE_UNUSED).
Proof.
  intros HI (r & Hr & <-)%shape_region Hf Ha HB'.
  assert (Hk : (k <= BUDDY_MAX_ORDER)%nat) by apply Hf.
  destruct (area_lookup _ _ _ (i_areas _ _ _ _ HI) Hk) as [ar Har].
  pose proof (area_length _ _ _ _ _ _ HI Har).
  destruct (areas_remove (areas A) B B' k ar a) as (l & Hl & HA'); [apply HI|done..|lia|done|].
  unfold buddy_list_remove. rewrite (rd_Ret _ _ _ Har), ret_bind, Hl. cbn [deref].
  rewrite ret_bind, wr_Ret, ret_bind by (by eapply lookup_lt_Some).
  set (A1 := MkAllocator _ _ _).
  destruct (set_state_spec A1 i r a BUDDY_STATE_UNUSED (gtag B hole))
    as (A' & HA1 & Hars & Hfp & Hs & HR & HS); [apply HI|done| |apply HI|].
  { eapply fits_page_in, Hf. by eapply g_ok; [apply HI|]. }
  exists A1, A'. split; [done|]. split; [done|]. split; [done..| |done]. by rewrite Hars.
Qed.

(** A block joins the list of its order. *)
Lemma put_raw A B g i s a k :
  regions_ok (regions A) -> states_ok (regions A) g -> areas_ok (areas A) B ->
  (forall ar, areas A !! k = Some ar -> Z.of_nat (length (blocks ar)) <= 2 ^ 58) ->
  shapes A !! i = Some s -> fits s a k -> (forall j, B !! a <> Some (true, j)) ->
  exists A', buddy_list_add A i a k = Ret A' /\
    stepped A A' (<[a := (true, k)]> B) (upd g a (tag (Some (true, k)))).
Proof.
  intros HR HS HA Hlen (r & Hr & <-)%shape_region Hf Ha.
  assert (Hk : (k <= BUDDY_MAX_ORDER)%nat) by apply Hf.
  assert (Hok : region_ok r) by (by eapply g_ok).
  assert (Hp : page_in r a) by (by eapply fits_page_in).
  destruct (area_lookup _ _ _ HA Hk) as [ar Har]. specialize (Hlen _ Har).
  unfold buddy_list_add. rewrite (rd_Ret _ _ _ Hr), ret_bind, buddy_state_Some by done.
  cbn [deref]. rewrite ret_bind, (rd_Ret _ _ _ Har), ret_bind.
  rewrite wr_Ret, ret_bind by (by eapply lookup_lt_Some).
  set (A1 := MkAllocator _ _ _).
  destruct (set_state_spec A1 i r a (tag (Some (true, k))) g)
    as (A' & HA1 & Hars & Hfp & Hs & HR' & HS'); [done..|].
  exists A'. split; [done|]. split; [done..| |done]. rewrite Hars.
  apply areas_add; [done..|lia].
Qed.

Lemma put_step A B hole d i s a k :
  inv_mid A B hole d -> shapes A !! i = Some s -> fits s a k ->
  (forall j, B !! a <> Some (true, j)) ->
  exists A', buddy_list_add A i a k = Ret A' /\
    stepped A A' (<[a := (true, k)]> B) (upd (gtag B hole) a (tag (Some (true, k)))).
Proof.
  intros HI. apply put_raw; [apply HI..|]. intros ar. by eapply area_length.
Qed.

Lemma stepped_ext A A' B B' g :
  stepped A A' B g -> (forall a k, B' !! a = Some (true, k) <-> B !! a = Some (true, k)) ->
  stepped A A' B' g.
Proof. intros [] HB. split; [done..| |done]. by eapply areas_ok_ext. Qed.

(** Compare two byte functions, or two sets of free blocks, address by address. *)
Ltac by_address :=
  intros; unfold upd, gtag;
  repeat match goal with
    | |- context [<[_ := _]> _ !! _] => rewrite lookup_insert
    | |- context [delete _ _ !! _] => rewrite lookup_delete
    | H : context [<[_ := _]> _ !! _] |- _ => rewrite lookup_insert in H
    | H : context [delete _ _ !! _] |- _ => rewrite lookup_delete in H
    end;
  repeat case_decide; simplify_eq; try done; try lia; try naive_solver.

(** Regions keep their bounds and the counter its value during an operation. *)
Definition same (A A' : buddy_allocator) : Prop :=
  shapes A' = shapes A /\ free_pages A' = free_pages A.
Lemma stepped_same A A' B g : stepped A A' B g -> same A A'.
Proof. by intros []. Qed.

Lemma grab_inv A B d i s a k :
  inv_mid A B None d -> shapes A !! i = Some s -> fits s a k -> B !! a = Some (true, k) ->
  exists A1 A', buddy_list_remove A a k = Ret A1 /\
    set_state A1 i (pidx s a) BUDDY_STATE_UNUSED = Ret A' /\ same A A' /\
    inv_mid A' (<[a := (false, k)]> B) (Some a) (d + 2 ^ Z.of_nat k).
Proof.
  intros HI Hs Hf Ha.
  destruct (take_step A B (<[a := (false, k)]> B) None d i s a k) as (A1 & A' & ? & ? & Hst);
    [done..|by_address|].
  exists A1, A'. do 2 (split; [done|]). split; [by eapply stepped_same|]. eapply stepped_inv; [done..| | | |].
  - eapply retag_ok; [apply HI|done].
  - eapply coalesced_mono; [apply HI|by_address].
  - by_address.
  - rewrite (wsum_update _ _ _ _ _ Ha). unfold free_only. cbn. lia.
Qed.

Lemma split_inv A B d i s a k :
  inv_mid A B (Some a) d -> shapes A !! i = Some s -> fits s a (S k) -> B !! a = Some (false, S k) ->
  exists A', buddy_list_add A i (a + buddy_order_size k) k = Ret A' /\ same A A' /\
    inv_mid A' (<[a := (false, k)]> (<[a + buddy_order_size k := (true, k)]> B)) (Some a)
      (d - 2 ^ Z.of_nat k).
Proof.
  intros HI Hs Hf Ha. pose proof (size_pos k). pose proof (size_S k).
  assert (Hn : B !! (a + buddy_order_size k) = None).
  { eapply inside_None; [apply HI|done|lia]. }
  destruct (put_step A B (Some a) d i s (a + buddy_order_size k) k) as (A' & ? & Hst);
    [done..|by apply fits_right|by rewrite Hn|].
  exists A'. split; [done|]. split; [by eapply stepped_same|].
  eapply stepped_inv; [done|eapply stepped_ext; [done|by_address]|..].
  - eapply split_ok; [apply HI|done].
  - apply coalesced_split; [apply HI|done|apply Hf].
  - by_address.
  - rewrite wsum_update with (x := (false, S k)) by (rewrite lookup_insert_ne by lia; done).
    rewrite wsum_insert by done. unfold free_only. cbn. lia.
Qed.

Lemma release_inv A B d i s a k :
  inv_mid A B (Some a) d -> shapes A !! i = Some s -> fits s a k -> B !! a = Some (false, k) ->
  ((k < BUDDY_MAX_ORDER)%nat -> forall s, s ∈ shapes A -> fits s a k -> fits s (buddy_of a k) k ->
    B !! buddy_of a k <> Some (true, k)) ->
  exists A', buddy_list_add A i a k = Ret A' /\ same A A' /\
    inv_mid A' (<[a := (true, k)]> B) None (d - 2 ^ Z.of_nat k).
Proof.
  intros HI Hs Hf Ha Hb.
  destruct (put_step A B (Some a) d i s a k) as (A' & ? & Hst); [done..|by rewrite Ha|].
  exists A'. split; [done|]. split; [by eapply stepped_same|]. eapply stepped_inv; [done..| | | |].
  - eapply retag_ok; [apply HI|done].
  - apply coalesced_free; [apply HI|done..].
  - by_address.
  - rewrite (wsum_update _ _ _ _ _ Ha). unfold free_only. cbn. lia.
Qed.

(** The byte of an allocated block is written or cleared. *)
Lemma seal_inv A B d i s a k :
  inv_mid A B (Some a) d -> shapes A !! i = Some s -> fits s a k -> B !! a = Some (false, k) ->
  exists A', set_state A i (pidx s a) (tag (Some (false, k))) = Ret A' /\ same A A' /\
    inv_mid A' B None d.
Proof.
  intros HI Hs Hf Ha.
  destruct (mark_step A B B (Some a) d i s a k (tag (Some (false, k)))) as (A' & ? & Hst); [done..|].
  exists A'. split; [done|]. split; [by eapply stepped_same|].
  eapply stepped_inv; [done..|apply HI|apply HI|by_address|done]. by rewrite Ha.
Qed.

Lemma unseal_inv A B d i s a k :
  inv_mid A B None d -> shapes A !! i = Some s -> fits s a k ->
  exists A', set_state A i (pidx s a) BUDDY_STATE_UNUSED = Ret A' /\ same A A' /\
    inv_mid A' B (Some a) d.
Proof.
  intros HI Hs Hf.
  destruct (mark_step A B B None d i s a k BUDDY_STATE_UNUSED) as (A' & ? & Hst); [done..|].
  exists A'. split; [done|]. split; [by eapply stepped_same|].
  eapply stepped_inv; [done..|apply HI|apply HI|by_address|done].
Qed.

Lemma merge_sum B m b x y j : B !! m = Some x -> B !! b = Some y -> m <> b ->
  wsum free_only (<[m := (false, j)]> (delete b B)) = wsum free_only B - free_only x - free_only y.
Proof.
  intros Hm Hb Hne. rewrite wsum_update with (x := x) by (by rewrite lookup_delete_ne).
  rewrite (wsum_delete _ _ _ _ Hb). unfold free_only. cbn. lia.
Qed.

Lemma merge_inv A B d i s a k m :
  inv_mid A B (Some a) d -> shapes A !! i = Some s -> (k < BUDDY_MAX_ORDER)%nat ->
  fits s a k -> fits s (buddy_of a k) k ->
  B !! a = Some (false, k) -> B !! buddy_of a k = Some (true, k) -> m = Z.min (buddy_of a k) a ->
  exists A1 A', buddy_list_remove A (buddy_of a k) k = Ret A1 /\
    set_state A1 i (pidx s (buddy_of a k)) BUDDY_STATE_UNUSED = Ret A' /\ same A A' /\
    fits s m (S k) /\
    (forall b j, b <> m /\ delete (m + buddy_order_size k) B !! b = Some (false, j) <->
                 b <> a /\ B !! b = Some (false, j)) /\
    inv_mid A' (<[m := (false, S k)]> (delete (m + buddy_order_size k) B)) (Some m)
      (d + 2 ^ Z.of_nat k).
Proof.
  intros HI Hs Hk Hf Hf' Ha Hb Hm. pose proof (size_pos k) as Hp. pose proof (size_S k) as HS.
  assert (Hal : aligned a k) by apply Hf.
  assert (Hcases : (m = a /\ buddy_of a k = m + buddy_order_size k \/
                    m = buddy_of a k /\ a = m + buddy_order_size k) /\ aligned m (S k)).
  { destruct (buddy_of_cases a k Hal) as [[Ham He]|[Ham He]].
    - replace m with a by lia. split; [left; lia|exact Ham].
    - replace m with (buddy_of a k) by lia. split; [right; lia|]. rewrite He. exact Ham. }
  destruct Hcases as [Hc Ham].
  destruct (take_step A B (<[m := (false, S k)]> (delete (m + buddy_order_size k) B)) (Some a) d i s
             (buddy_of a k) k) as (A1 & A' & ? & ? & Hst); [done..| |].
  { destruct Hc as [[-> He]|[-> He]]; [rewrite He in *; clear -Ha Hb Hp; by_address|].
    rewrite <-He. clear -Ha Hb. by_address. }
  exists A1, A'. do 2 (split; [done|]). split; [by eapply stepped_same|].
  assert (Hfm : fits s m k /\ fits s (m + buddy_order_size k) k).
  { destruct Hc as [[-> He]|[-> He]]; [rewrite He in *|rewrite <-He]; done. }
  destruct Hfm as [Hfm1 Hfm2]. split.
  { destruct Hfm1 as (_ & ? & _ & _), Hfm2 as (_ & _ & _ & ?). split_and!; [lia|lia|done|lia]. }
  split.
  { destruct Hc as [[-> He]|[-> He]]; [rewrite He in *|rewrite <-He]; clear -Ha Hb Hp; by_address. }
  eapply stepped_inv; [done..| | | |].
  - assert (Hin : s ∈ shapes A) by (by eapply list_elem_of_lookup_2).
    destruct Hc as [[Hc He]|[Hc He]].
    + eapply (merge_ok _ _ s m false true); [apply HI|done|done|lia|congruence..|done|done].
    + eapply (merge_ok _ _ s m true false); [apply HI|done|done|lia|congruence..|done|done].
  - eapply coalesced_mono; [apply HI|clear; by_address].
  - destruct Hc as [[-> He]|[-> He]]; [rewrite He in *; clear -Hp; by_address|].
    rewrite <-He. clear. by_address.
  - destruct Hc as [[-> He]|[-> He]]; [rewrite He in *|rewrite <-He];
      erewrite merge_sum by (try done; lia); unfold free_only; cbn; lia.
Qed.
