(* ===== verification/BuddyOps.v ===== *)
(** * The operations of the buddy allocator

    Functional correctness of [buddy_alloc], [buddy_allocated], [buddy_free] and
    [buddy_add_region] against the block maps of [BuddyBlocks], through the step
    lemmas of [BuddyCorrect]. *)
From S2P Require Import Prelude MemRange Buddy BuddyBlocks BuddyCorrect.

(** The allocator state is the image of some block map. *)
Definition buddy_ok (A : buddy_allocator) : Prop := exists B, inv A B.

(** A block the allocator reports as allocated. *)
Definition is_allocated (A : buddy_allocator) (a : Z) (k : nat) : Prop :=
  buddy_allocated A a k = Ret true.

Definition apart (a : Z) (k : nat) (b : Z) (j : nat) : Prop :=
  a + buddy_order_size k <= b \/ b + buddy_order_size j <= a.

(** ** Regions of blocks *)

Lemma block_region A B hole d a f k :
  inv_mid A B hole d -> B !! a = Some (f, k) ->
  exists i s, shapes A !! i = Some s /\ fits s a k.
Proof.
  intros HI Ha. destruct (b_fits _ _ (i_blocks _ _ _ _ HI) _ _ _ Ha) as (s & Hs & Hf).
  apply list_elem_of_lookup in Hs as [i Hi]. eauto.
Qed.

Lemma shape_ok A B hole d i s :
  inv_mid A B hole d -> shapes A !! i = Some s -> 0 < s_start s /\ s_start s <= s_alloc s /\ s_end s < 2 ^ 64.
Proof.
  intros HI (r & Hr & <-)%shape_region. pose proof (g_ok _ (i_regions _ _ _ _ HI) _ _ Hr) as Hok.
  destruct Hok as (? & ? & ? & ? & ? & ? & _). cbn. lia.
Qed.

(** Looking an address up finds its region and its byte. *)
Lemma locate A B hole d i s a k :
  inv_mid A B hole d -> shapes A !! i = Some s -> fits s a k ->
  buddy_find_region A a = Some i /\
  exists r, rd (regions A) i = Ret r /\ shape_of r = s /\ buddy_state r a = Some (pidx s a) /\
    rd (states r) (pidx s a) = Ret (gtag B hole a).
Proof.
  intros HI (r & Hr & <-)%shape_region Hf.
  assert (Hok := g_ok _ (i_regions _ _ _ _ HI) _ _ Hr).
  assert (Hp := fits_page_in _ _ _ Hok Hf). split.
  { eapply find_region_Some; [apply HI|done|apply Hp]. }
  exists r. split; [by apply rd_Ret|]. split; [done|]. split; [by apply buddy_state_Some|].
  apply rd_Ret. by apply (i_states _ _ _ _ HI _ _ _ Hr).
Qed.

Lemma order_le A B hole d a f k : inv_mid A B hole d -> B !! a = Some (f, k) ->
  (k <= BUDDY_MAX_ORDER)%nat.
Proof. intros HI Ha. by destruct (block_region _ _ _ _ _ _ _ HI Ha) as (i & s & _ & ? & _). Qed.

(** ** [buddy_allocated] *)

Lemma buddy_allocated_spec A B a k : inv A B ->
  buddy_allocated A a k = Ret (bool_decide (B !! a = Some (false, k))).
Proof.
  intros HI. unfold buddy_allocated.
  assert (Hno : forall i s, shapes A !! i = Some s -> s_start s <= a < s_end s -> ~ fits s a k ->
                  B !! a <> Some (false, k)).
  { intros i s Hs Hin Hnf Ha. destruct (block_region _ _ _ _ _ _ _ HI Ha) as (j & s' & Hs' & Hf).
    destruct (locate _ _ _ _ _ _ _ _ HI Hs' Hf) as [Hfind _].
    destruct (shape_region _ _ _ Hs) as (r & Hr & Hrs). rewrite <-Hrs in Hin.
    rewrite (find_region_Some _ _ _ _ (i_regions _ _ _ _ HI) Hr Hin) in Hfind. congruence. }
  case_if; bool_to_prop.
  { rewrite bool_decide_eq_false_2; [done|]. intros Ha.
    destruct (block_region _ _ _ _ _ _ _ HI Ha) as (i & s & _ & Hk & _ & Hal & _).
    destruct E as [E|E]; bool_to_prop; [lia|].
    unfold truth in E. by rewrite (aligned_page _ _ Hal) in E. }
  destruct (buddy_find_region A a) as [i|] eqn:Ef; cycle 1.
  { rewrite bool_decide_eq_false_2; [done|]. intros Ha.
    destruct (block_region _ _ _ _ _ _ _ HI Ha) as (i & s & Hs & Hf).
    destruct (locate _ _ _ _ _ _ _ _ HI Hs Hf) as [Hfind _]. congruence. }
  destruct (find_region_inv _ _ _ Ef) as (r & Hr & Hin). rewrite (rd_Ret _ _ _ Hr), ret_bind.
  assert (Hs : shapes A !! i = Some (shape_of r)) by (unfold shapes; by rewrite list_lookup_fmap, Hr).
  destruct (buddy_block_fits r a k) eqn:Efit; cbn [negb].
  - apply block_fits_spec in Efit.
    destruct (locate _ _ _ _ _ _ _ _ HI Hs Efit) as (_ & r' & Hr' & _ & Hst & Hrd).
    rewrite (rd_Ret _ _ _ Hr) in Hr'. simplify_eq. rewrite Hst, Hrd, ret_bind.
    f_equal. unfold gtag. rewrite decide_False by done.
    apply eq_true_iff_eq. rewrite Z.eqb_eq, bool_decide_eq_true.
    apply (tag_inv _ false); [apply Efit|]. intros g j Ha. by eapply order_le.
  - rewrite bool_decide_eq_false_2; [done|]. apply (Hno _ _ Hs Hin).
    rewrite <-block_fits_spec. by rewrite Efit.
Qed.

Lemma is_allocated_iff A B a k : inv A B -> is_allocated A a k <-> B !! a = Some (false, k).
Proof.
  intros HI. unfold is_allocated. rewrite (buddy_allocated_spec _ _ _ _ HI).
  case_bool_decide; naive_solver.
Qed.

(** ** [buddy_alloc] *)

Lemma alloc_search_spec fuel ars B order :
  areas_ok ars B -> (0 < fuel)%nat -> (S BUDDY_MAX_ORDER < order + fuel)%nat ->
  exists c, alloc_search fuel ars order = Ret c /\ (order <= c)%nat /\
    (forall a k, B !! a = Some (true, k) -> (order <= k)%nat -> (c <= k)%nat \/ (BUDDY_MAX_ORDER < k)%nat) /\
    ((c <= BUDDY_MAX_ORDER)%nat -> exists ar a l, ars !! c = Some ar /\ blocks ar = a :: l).
Proof.
  intros HA. revert order; induction fuel as [|fuel IH]; intros order Hpos Hfuel; cbn [alloc_search].
  { lia. }
  destruct (Nat.leb_spec order BUDDY_MAX_ORDER) as [Hle|]; cycle 1.
  { exists order. split; [done|]. split; [done|]. split; [intros; lia|lia]. }
  destruct (area_lookup _ _ _ HA Hle) as [ar Har]. rewrite (rd_Ret _ _ _ Har), ret_bind.
  unfold truth. rewrite (a_count _ _ HA _ _ Har).
  destruct (blocks ar) as [|a l] eqn:El; cbn [length].
  - rewrite Z.eqb_refl. cbn [negb]. destruct (IH (order + 1)%nat) as (c & -> & Hc & Hk & Hl); [lia..|].
    exists c. split; [done|]. split; [lia|]. split; [|done]. intros a k Ha Hok.
    destruct (decide (k = order)) as [->|]; [|apply (Hk a); [done|lia]].
    apply (a_elem _ _ HA _ _ _ Har) in Ha. rewrite El in Ha. set_solver.
  - rewrite (proj2 (Z.eqb_neq _ _)) by lia. cbn [negb]. exists order. split; [done|].
    split; [done|]. split; [lia|]. eauto.
Qed.

Lemma alloc_split_spec A B d i s a c order :
  inv_mid A B (Some a) d -> shapes A !! i = Some s -> fits s a c -> B !! a = Some (false, c) ->
  (order <= c)%nat ->
  exists A' B', alloc_split A i a c order = Ret A' /\ same A A' /\
    inv_mid A' B' (Some a) (d - (2 ^ Z.of_nat c - 2 ^ Z.of_nat order)) /\
    (forall b j, B' !! b = Some (false, j) <->
       if decide (b = a) then j = order else B !! b = Some (false, j)).
Proof.
  revert A B d; induction c as [|c IH]; intros A B d HI Hs Hf Ha Hle; cbn [alloc_split].
  { exists A, B. assert (order = 0%nat) as -> by lia. split_and!; [done..| |].
    - by rewrite Z.sub_diag, Z.sub_0_r.
    - intros b j. case_decide; [subst|done]. rewrite Ha. naive_solver. }
  destruct (Nat.ltb_spec order (S c)); cycle 1.
  { exists A, B. assert (order = S c) as -> by lia. split_and!; [done..| |].
    - by rewrite Z.sub_diag, Z.sub_0_r.
    - intros b j. case_decide; [subst|done]. rewrite Ha. naive_solver. }
  destruct (shape_ok _ _ _ _ _ _ HI Hs) as (? & ? & ?). pose proof (size_S c). pose proof (size_pos c).
  assert (0 <= a + buddy_order_size c < 2 ^ 64) by (destruct Hf as (_ & ? & _ & ?); lia).
  unwrap64. destruct (split_inv _ _ _ _ _ _ _ HI Hs Hf Ha) as (A1 & Hadd & [Hs1 Hf1] & HI1).
  rewrite Hadd, ret_bind.
  edestruct IH as (A' & B' & HA' & [Hs' Hf'] & HI' & HB'); [exact HI1|by rewrite Hs1| |..].
  { by apply fits_left. } { apply lookup_insert_eq. } { lia. }
  exists A', B'. split; [done|]. split; [split; congruence|]. split.
  - replace (d - _) with (d - 2 ^ Z.of_nat c - (2 ^ Z.of_nat c - 2 ^ Z.of_nat order)); [done|].
    rewrite pages_S. lia.
  - intros b j. rewrite HB'. case_decide; [done|]. rewrite lookup_insert_ne by done.
    rewrite lookup_insert. case_decide; [|done]. subst b.
    rewrite (inside_None _ _ _ _ _ (a + buddy_order_size c) (i_blocks _ _ _ _ HI) Ha) by lia. done.
Qed.

(** The counter is settled at the end of an operation. *)
Lemma settle A B d v :
  inv_mid A B None d -> v = free_pages A - d ->
  inv (MkAllocator (areas A) (regions A) v) B.
Proof. intros [? ? ? ? ? Hf] ->. split; [done..|]. cbn. lia. Qed.

Lemma free_bound A B hole d : inv_mid A B hole d -> 0 <= wsum free_only B <= 2 ^ 58.
Proof.
  intros HI. pose proof (free_le_all B). rewrite (b_total _ _ (i_blocks _ _ _ _ HI)) in *.
  pose proof (total_pages_le _ (i_regions _ _ _ _ HI)). unfold shapes in *. lia.
Qed.

Lemma pages_bound k : (k <= BUDDY_MAX_ORDER)%nat -> 0 < 2 ^ Z.of_nat k <= 2 ^ 18.
Proof.
  unfold BUDDY_MAX_ORDER. intros H. split; [apply Z.pow_pos_nonneg; lia|].
  apply Z.pow_le_mono_r; lia.
Qed.

Lemma shiftl_1 k : Z.shiftl 1 (Z.of_nat k) = 2 ^ Z.of_nat k.
Proof. rewrite Z.shiftl_mul_pow2 by lia. lia. Qed.

(** What a successful allocation of [p] does to the block map. *)
Record allocs (A A' : buddy_allocator) (B B' : bmap) (p : Z) (order : nat) : Prop := {
  al_inv : inv A' B';
  al_shapes : shapes A' = shapes A;
  al_fits : exists s, s ∈ shapes A /\ fits s p order;
  al_pos : 0 < p;
  al_new : forall b j, B !! b = Some (false, j) -> b <> p;
  al_blocks : forall b j, B' !! b = Some (false, j) <-> b = p /\ j = order \/ B !! b = Some (false, j);
  al_free : free_pages A' = free_pages A - 2 ^ Z.of_nat order }.

Lemma buddy_alloc_spec A B order :
  inv A B ->
  (buddy_alloc A order = Ret (0, A) /\
     ((order <= BUDDY_MAX_ORDER)%nat -> forall a k, B !! a = Some (true, k) -> (k < order)%nat)) \/
  (exists p A' B', buddy_alloc A order = Ret (p, A') /\ allocs A A' B B' p order).
Proof.
  intros HI. unfold buddy_alloc.
  destruct (Nat.ltb_spec BUDDY_MAX_ORDER order); [left; split; [done|lia]|].
  destruct (alloc_search_spec (S (S BUDDY_MAX_ORDER)) (areas A) B order) as (c & -> & Hc & Hnone & Hsome);
    [apply HI|lia..|]. rewrite ret_bind.
  destruct (Nat.ltb_spec BUDDY_MAX_ORDER c) as [Hbig|Hle].
  { left. split; [done|]. intros _ a k Ha. pose proof (order_le _ _ _ _ _ _ _ HI Ha).
    destruct (decide (order <= k)%nat) as [Hok|]; [|lia]. destruct (Hnone _ _ Ha Hok); lia. }
  right. destruct (Hsome Hle) as (ar & a & l & Har & Hl).
  rewrite (rd_Ret _ _ _ Har), ret_bind, Hl. cbn [head deref]. rewrite ret_bind.
  assert (Ha : B !! a = Some (true, c)).
  { apply (a_elem _ _ (i_areas _ _ _ _ HI) _ _ _ Har). rewrite Hl. set_solver. }
  destruct (block_region _ _ _ _ _ _ _ HI Ha) as (i & s & Hs & Hf).
  destruct (locate _ _ _ _ _ _ _ _ HI Hs Hf) as (-> & r & Hr & Hrs & Hst & _).
  cbn [deref]. rewrite ret_bind, Hr, ret_bind, Hst. cbn [deref]. rewrite ret_bind.
  destruct (grab_inv _ _ _ _ _ _ _ HI Hs Hf Ha) as (A1 & A2 & -> & H2 & [Hs2 Hf2] & HI2).
  rewrite ret_bind, H2, ret_bind. rewrite <-Hs2 in Hs.
  destruct (alloc_split_spec A2 (<[a := (false, c)]> B) (0 + 2 ^ Z.of_nat c) i s a c order)
    as (A3 & B' & -> & [Hs3 Hf3] & HI3 & HB3); [done..|apply lookup_insert_eq|done|].
  rewrite ret_bind. rewrite <-Hs3 in Hs.
  assert (Hfo : fits s a order).
  { destruct Hf as (? & ? & Hal & ?). pose proof (size_le order c Hc).
    split_and!; [lia|lia|by eapply aligned_le|lia]. }
  assert (Ha3 : B' !! a = Some (false, order)) by (rewrite HB3; by rewrite decide_True).
  destruct (seal_inv _ _ _ _ _ _ _ HI3 Hs Hfo Ha3) as (A4 & H4 & [Hs4 Hf4] & HI4). cbn [tag] in H4.
  rewrite H4, ret_bind, shiftl_1. eexists a, _, B'. split; [reflexivity|].
  pose proof (free_bound _ _ _ _ HI4). pose proof (pages_bound order). pose proof (i_free _ _ _ _ HI4).
  unwrap64. split; cbn.
  - apply (settle _ _ _ _ HI4). lia.
  - unfold shapes in *. cbn. congruence.
  - exists s. split; [|done]. rewrite <-Hs2, <-Hs3. by eapply list_elem_of_lookup_2.
  - rewrite <-Hs4 in Hs. pose proof (shape_ok _ _ _ _ _ _ HI4 Hs). destruct Hfo as (_ & ? & _). lia.
  - intros b j Hb ->. congruence.
  - intros b j. rewrite HB3. case_decide; [naive_solver|]. rewrite lookup_insert_ne by done. naive_solver.
  - lia.
Qed.

(** ** [buddy_free] *)

Lemma fits_unique A B hole d i s s' a k j :
  inv_mid A B hole d -> shapes A !! i = Some s -> s' ∈ shapes A -> fits s a k -> fits s' a j -> s' = s.
Proof.
  intros HI Hs (i' & Hs')%list_elem_of_lookup Hf Hf'.
  destruct (locate _ _ _ _ _ _ _ _ HI Hs Hf) as [Hi _].
  destruct (locate _ _ _ _ _ _ _ _ HI Hs' Hf') as [Hi' _]. congruence.
Qed.

(** The buddy of the block being freed cannot be joined. *)
Definition no_buddy (A : buddy_allocator) (B : bmap) (a : Z) (k : nat) : Prop :=
  (k < BUDDY_MAX_ORDER)%nat -> forall s, s ∈ shapes A -> fits s a k -> fits s (buddy_of a k) k ->
    B !! buddy_of a k <> Some (true, k).

Lemma free_merge_spec fuel A B d i s a k :
  inv_mid A B (Some a) d -> shapes A !! i = Some s -> fits s a k -> B !! a = Some (false, k) ->
  (0 < fuel)%nat -> (BUDDY_MAX_ORDER < k + fuel)%nat ->
  exists A' B' m j, free_merge fuel A i a k = Ret (A', m, j) /\ same A A' /\
    inv_mid A' B' (Some m) (d + 2 ^ Z.of_nat j - 2 ^ Z.of_nat k) /\
    fits s m j /\ B' !! m = Some (false, j) /\ no_buddy A B' m j /\
    (forall b l, b <> m /\ B' !! b = Some (false, l) <-> b <> a /\ B !! b = Some (false, l)).
Proof.
  revert A B d a k; induction fuel as [|fuel IH]; intros A B d a k HI Hs Hf Ha Hpos Hfuel; [lia|].
  cbn [free_merge].
  assert (Hstop : no_buddy A B a k -> exists A' B' m j, Ret (A, a, k) = Ret (A', m, j) /\ same A A' /\
    inv_mid A' B' (Some m) (d + 2 ^ Z.of_nat j - 2 ^ Z.of_nat k) /\
    fits s m j /\ B' !! m = Some (false, j) /\ no_buddy A B' m j /\
    (forall b l, b <> m /\ B' !! b = Some (false, l) <-> b <> a /\ B !! b = Some (false, l))).
  { intros Hnb. exists A, B, a, k. split; [done|]. split; [done|].
    rewrite Z.add_simpl_r. done. }
  destruct (Nat.ltb_spec k BUDDY_MAX_ORDER) as [Hk|]; cycle 1.
  { apply Hstop. intros ?. lia. }
  destruct (locate _ _ _ _ _ _ _ _ HI Hs Hf) as (_ & r & Hr & Hrs & _). rewrite Hr, ret_bind.
  fold (buddy_of a k).
  destruct (buddy_block_fits r (buddy_of a k) k) eqn:Ebf; cbn [negb]; cycle 1.
  { apply Hstop. intros _ s' Hs' Hf1 Hf2. assert (s' = s) as -> by (by eapply fits_unique).
    rewrite <-Hrs in Hf2. apply block_fits_spec in Hf2. congruence. }
  apply block_fits_spec in Ebf. rewrite Hrs in Ebf.
  destruct (locate _ _ _ _ _ _ _ _ HI Hs Ebf) as (_ & r' & Hr' & _ & Hst & Hrd).
  rewrite Hr in Hr'. simplify_eq. rewrite Hst, Hrd, ret_bind.
  assert (Hne : buddy_of a k <> a).
  { pose proof (size_pos k). destruct (buddy_of_cases a k); [apply Hf|lia..]. }
  assert (Htag : (gtag B (Some a) (buddy_of a k) =? Z.lor BUDDY_STATE_FREE (Z.of_nat k)) = true <->
                 B !! buddy_of a k = Some (true, k)).
  { rewrite Z.eqb_eq. unfold gtag. rewrite decide_False by congruence.
    apply (tag_inv _ true); [lia|]. intros g j Hg. by eapply order_le. }
  destruct (_ =? _) eqn:Ev; cbn [negb]; cycle 1.
  { apply Hstop. intros _ s' _ _ _ Hb. apply Htag in Hb. congruence. }
  apply proj1 in Htag. specialize (Htag eq_refl).
  set (m := if buddy_of a k <? a then buddy_of a k else a).
  destruct (merge_inv A B d i (shape_of r') a k m) as (A1 & A2 & -> & H2 & Hsame & Hfm & Hrest & HI2);
    [done..|unfold m; destruct (Z.ltb_spec (buddy_of a k) a); lia|].
  rewrite ret_bind, H2, ret_bind. replace (k + 1)%nat with (S k) by lia.
  edestruct (IH A2) as (A' & B' & m' & j & -> & Hsame' & HI' & Hfm' & HB' & Hnb & Hrest');
    [exact HI2|by rewrite (proj1 Hsame)|done|apply lookup_insert_eq|lia..|].
  exists A', B', m', j. split; [done|]. destruct Hsame as [Hs1 Hf1], Hsame' as [Hs2 Hf2].
  split; [split; congruence|]. split.
  { replace (d + 2 ^ Z.of_nat j - 2 ^ Z.of_nat k)
      with (d + 2 ^ Z.of_nat k + 2 ^ Z.of_nat j - 2 ^ Z.of_nat (S k)); [done|]. rewrite pages_S. lia. }
  split; [done|]. split; [done|]. split; [unfold no_buddy in *; by rewrite <-Hs1|].
  intros b l. rewrite Hrest', <-Hrest. split; intros [? Hb]; (split; [done|]);
    [by rewrite lookup_insert_ne in Hb|by rewrite lookup_insert_ne].
Qed.

Lemma buddy_free_spec A B a order :
  inv A B ->
  (B !! a <> Some (false, order) /\ buddy_free A a order = Ret (-1, A)) \/
  (B !! a = Some (false, order) /\
   exists A' B', buddy_free A a order = Ret (0, A') /\ inv A' B' /\ shapes A' = shapes A /\
     (forall b j, B' !! b = Some (false, j) <-> b <> a /\ B !! b = Some (false, j)) /\
     free_pages A' = free_pages A + 2 ^ Z.of_nat order).
Proof.
  intros HI. unfold buddy_free. rewrite (buddy_allocated_spec _ _ _ _ HI), ret_bind.
  case_bool_decide as Ha; cbn [negb]; [right|by left]. split; [done|].
  destruct (block_region _ _ _ _ _ _ _ HI Ha) as (i & s & Hs & Hf).
  destruct (locate _ _ _ _ _ _ _ _ HI Hs Hf) as (-> & r & Hr & Hrs & Hst & _).
  cbn [deref]. rewrite ret_bind, Hr, ret_bind, Hst. cbn [deref]. rewrite ret_bind.
  destruct (unseal_inv _ _ _ _ _ _ _ HI Hs Hf) as (A1 & -> & [Hs1 Hf1] & HI1). rewrite ret_bind.
  rewrite <-Hs1 in Hs.
  destruct (free_merge_spec (S BUDDY_MAX_ORDER) A1 B 0 i s a order)
    as (A2 & B2 & m & j & -> & [Hs2 Hf2] & HI2 & Hfm & Hm & Hnb & Hrest); [done..|lia|lia|].
  rewrite ret_bind. rewrite <-Hs2 in Hs.
  destruct (release_inv _ _ _ _ _ _ _ HI2 Hs Hfm Hm) as (A3 & -> & [Hs3 Hf3] & HI3).
  { unfold no_buddy in Hnb. by rewrite Hs2. }
  rewrite ret_bind, shiftl_1. eexists _, (<[m := (true, j)]> B2). split; [reflexivity|].
  pose proof (free_bound _ _ _ _ HI3). pose proof (i_free _ _ _ _ HI3).
  pose proof (pages_bound order). unwrap64. cbn. split; [|split; [|split]].
  - eapply settle; [exact HI3|]. lia.
  - unfold shapes in *. cbn. congruence.
  - intros b l. rewrite <-Hrest, lookup_insert. case_decide; naive_solver.
  - lia.
Qed.

(** ** [buddy_add_region] *)

Lemma page_bit q k : 0 <= k -> Z.land (2 ^ k * q) (2 ^ k) = 0 <-> Z.even q = true.
Proof.
  intros Hk. rewrite Z.even_spec. split.
  - intros H. assert (Hb : Z.testbit (Z.land (2 ^ k * q) (2 ^ k)) k = false) by (by rewrite H, Z.bits_0).
    rewrite Z.land_spec, Z.pow2_bits_true, andb_true_r in Hb by done.
    rewrite Z.mul_comm, Z.mul_pow2_bits, Z.sub_diag, Z.bit0_odd in Hb by lia.
    rewrite <-Z.even_spec. by rewrite <-Z.negb_odd, Hb.
  - intros [p ->]. replace (2 ^ k * (2 * p)) with (2 ^ (k + 1) * p); [by apply land_pow2_above|].
    rewrite Z.pow_add_r by lia. lia.
Qed.

Lemma largest_order_loop_spec fuel q pages o :
  (BUDDY_MAX_ORDER < fuel + o)%nat -> (o <= BUDDY_MAX_ORDER)%nat -> 2 ^ Z.of_nat o <= pages ->
  let k := largest_order_loop fuel (2 ^ Z.of_nat o * q) pages o in
  (k <= BUDDY_MAX_ORDER)%nat /\ 2 ^ Z.of_nat k <= pages /\
  exists p, 2 ^ Z.of_nat o * q = 2 ^ Z.of_nat k * p /\
    (k = BUDDY_MAX_ORDER \/ Z.even p = false \/ pages < 2 ^ Z.of_nat (S k)).
Proof.
  revert q o; induction fuel as [|fuel IH]; intros q o Hfuel Ho Hp; [lia|].
  cbn [largest_order_loop]. rewrite !shiftl_1. case_if; bool_to_prop.
  - unfold truth in *. bool_to_prop. rewrite page_bit in * by lia.
    destruct (Z.even_spec q) as [Hev _]. destruct Hev as [p ->]; [done|].
    replace (2 ^ Z.of_nat o * (2 * p)) with (2 ^ Z.of_nat (o + 1) * p)
      by (rewrite Nat.add_1_r, pages_S; lia).
    apply IH; lia.
  - cbn zeta. split; [done|]. split; [done|]. exists q. split; [done|].
    rewrite <-Nat.add_1_r. destruct E as [E|E]; bool_to_prop; [|lia].
    destruct E as [E|E]; bool_to_prop; [lia|]. unfold truth in E. bool_to_prop.
    right; left. apply not_true_is_false. by rewrite <-page_bit with (k := Z.of_nat o) by lia.
Qed.

Lemma buddy_largest_order_spec a pages :
  a mod PGSIZE = 0 -> 1 <= pages ->
  let k := buddy_largest_order a pages in
  (k <= BUDDY_MAX_ORDER)%nat /\ aligned a k /\ 2 ^ Z.of_nat k <= pages /\
  (k = BUDDY_MAX_ORDER \/ ~ aligned a (S k) \/ pages < 2 ^ Z.of_nat (S k)).
Proof.
  intros Ha Hp. unfold buddy_largest_order.
  pose proof (largest_order_loop_spec (S BUDDY_MAX_ORDER) (a / PGSIZE) pages 0) as Hl.
  rewrite Z.pow_0_r, Z.mul_1_l in Hl. cbn zeta in *.
  destruct Hl as (Hk & Hle & p & Hq & Hmax); [lia..|].
  set (k := largest_order_loop _ _ _ _) in *. split; [done|].
  assert (Hap : a = buddy_order_size k * p).
  { rewrite size_pages. unfold PGSIZE in *. Z.div_mod_to_equations. lia. }
  split; [apply aligned_iff; eauto|]. split; [done|].
  destruct Hmax as [|[Hodd|]]; [by left| |by right; right]. right; left.
  rewrite aligned_iff, size_S. intros [p' Hp']. rewrite Hap in Hp'.
  pose proof (size_pos k). assert (p = 2 * p') as -> by (apply (Z.mul_cancel_l _ _ (buddy_order_size k)); lia).
  by rewrite Z.even_mul in Hodd.
Qed.

(** The state of the loop of [buddy_add_region]: the new region, last in the
    array, is filled up to [a] with blocks none of which could be larger. *)
Record adding (ss : list shape) (st e al : Z) (B0 : bmap) (A : buddy_allocator) (B : bmap) (a : Z)
  : Prop := {
  ad_shapes : shapes A = ss ++ [MkShape st e al];
  ad_regions : regions_ok (regions A);
  ad_blocks : blocks_ok (ss ++ [MkShape st a al]) B;
  ad_coal : coalesced (ss ++ [MkShape st a al]) B;
  ad_greedy : forall b j, B !! b = Some (true, j) -> al <= b < e -> (j < BUDDY_MAX_ORDER)%nat ->
                aligned b (S j) -> e < b + buddy_order_size (S j);
  ad_states : states_ok (regions A) (gtag B None);
  ad_areas : areas_ok (areas A) B;
  ad_free : free_pages A = wsum free_only B;
  ad_alloc : forall b j, B !! b = Some (false, j) <-> B0 !! b = Some (false, j) }.

Section adding.
  Context (ss : list shape) (st e al : Z) (B0 : bmap) (A : buddy_allocator) (B : bmap) (a : Z).
  Context (HA : adding ss st e al B0 A B a).

Lemma adding_region : exists r, regions A !! length ss = Some r /\ shape_of r = MkShape st e al /\ region_ok r.
Proof.
  destruct (shape_region A (length ss) (MkShape st e al)) as (r & Hr & Hs).
  { rewrite (ad_shapes _ _ _ _ _ _ _ _ HA). by rewrite lookup_app_r, Nat.sub_diag by lia. }
  exists r. split; [done|]. split; [done|]. by eapply g_ok; [apply HA|].
Qed.

Lemma adding_bounds : 0 < st <= al /\ al <= e < 2 ^ 64 /\ al mod PGSIZE = 0 /\ e mod PGSIZE = 0.
Proof.
  destruct adding_region as (r & _ & Hs & ? & ? & ? & ? & ? & ? & ? & _). injection Hs as <- <- <-. lia.
Qed.

Lemma others_apart s : s ∈ ss -> (s_end s <= st \/ e <= s_start s) /\ s_start s <= s_alloc s.
Proof.
  intros (i & Hi)%list_elem_of_lookup. assert (Hlt := lookup_lt_Some _ _ _ Hi).
  destruct (shape_region A i s) as (r & Hr & <-).
  { rewrite (ad_shapes _ _ _ _ _ _ _ _ HA). by rewrite lookup_app_l. }
  destruct adding_region as (r' & Hr' & Hs' & _).
  pose proof (g_ok _ (ad_regions _ _ _ _ _ _ _ _ HA) _ _ Hr) as Hok.
  pose proof (g_disj _ (ad_regions _ _ _ _ _ _ _ _ HA) _ _ _ _ Hr Hr') as Hd.
  injection Hs' as <- <- _. cbn. destruct Hok as (_ & _ & _ & _ & _ & ? & _). split; [apply Hd|]; lia.
Qed.

(** A block that meets the new region belongs to it. *)
Lemma region_of_block s b j x : s ∈ ss ++ [MkShape st x al] -> fits s b j ->
  st <= b < e -> s = MkShape st x al.
Proof.
  intros [Hs|Hs%list_elem_of_singleton]%elem_of_app Hf Hb; [|done].
  pose proof (size_pos j). destruct (others_apart _ Hs) as [? ?], Hf as (_ & ? & _ & ?). lia.
Qed.

Lemma old_fits b f j : B !! b = Some (f, j) -> st <= b < e -> fits (MkShape st a al) b j.
Proof.
  intros Hb Hx. destruct (b_fits _ _ (ad_blocks _ _ _ _ _ _ _ _ HA) _ _ _ Hb) as (s & Hs & Hf).
  by rewrite (region_of_block _ _ _ _ Hs Hf Hx) in Hf.
Qed.

Lemma old_apart k : al <= a -> a + buddy_order_size k <= e -> forall b f j, B !! b = Some (f, j) ->
  b + buddy_order_size j <= a \/ a + buddy_order_size k <= b.
Proof.
  intros Hal Hk b f j Hb. pose proof (size_pos k). pose proof adding_bounds as (? & _).
  destruct (b_fits _ _ (ad_blocks _ _ _ _ _ _ _ _ HA) _ _ _ Hb) as (s & Hs & Hf).
  apply elem_of_app in Hs as [Hs|Hs%list_elem_of_singleton].
  - destruct (others_apart _ Hs) as [? ?], Hf as (_ & ? & _ & ?). lia.
  - subst s. destruct Hf as (_ & _ & _ & ?). cbn in *. lia.
Qed.

(** The buddy of the greedy block at [a] is not a free block of its order. *)
Lemma greedy_no_buddy k s :
  s ∈ ss ++ [MkShape st (a + buddy_order_size k) al] -> al <= a -> a + buddy_order_size k <= e ->
  (k < BUDDY_MAX_ORDER)%nat -> fits s a k -> fits s (buddy_of a k) k ->
  B !! buddy_of a k <> Some (true, k).
Proof.
  intros Hs Hal Hk Hmax Hf Hf' Hb. pose proof (size_pos k). pose proof (size_S k).
  pose proof adding_bounds as (? & ? & _).
  assert (s = MkShape st (a + buddy_order_size k) al) as -> 
    by (apply (region_of_block s a k); [done..|lia]).
  destruct Hf as (_ & _ & Haa & _), Hf' as (_ & ? & _ & ?). cbn in *.
  destruct (buddy_of_cases a k Haa) as [[_ Hbo]|[Hbal Hbo]]; rewrite Hbo in *; [lia|].
  pose proof (ad_greedy _ _ _ _ _ _ _ _ HA _ _ Hb ltac:(lia) Hmax Hbal). lia.
Qed.

Lemma adding_coalesced k :
  al <= a -> a + buddy_order_size k <= e -> aligned a k ->
  coalesced (ss ++ [MkShape st (a + buddy_order_size k) al]) (<[a := (true, k)]> B).
Proof.
  intros Hal Hk Haa s b j Hs Hb Hj Hf Hf'.
  pose proof (size_pos k). pose proof adding_bounds as (? & ? & _).
  rewrite lookup_insert in Hb |- *. case_decide as Eb; case_decide as Ec.
  - intros _. subst b. pose proof (size_pos j). destruct (buddy_of_cases a j); [apply Hf|lia..].
  - injection Hb as <-. subst b. by eapply greedy_no_buddy.
  - intros [= <-]. assert (Hba : buddy_of a k = b) by (rewrite Ec; apply buddy_of_involutive).
    rewrite <-Ec in Hf'. by apply (greedy_no_buddy k s); rewrite ?Hba.
  - apply elem_of_app in Hs as [Hs|Hs%list_elem_of_singleton].
    { apply (ad_coal _ _ _ _ _ _ _ _ HA s); [set_solver|done..]. }
    subst s. intros Hc. pose proof Hf as (_ & ? & _ & ?). pose proof Hf' as (_ & ? & _ & ?).
    cbn in *. pose proof (size_pos j).
    apply (ad_coal _ _ _ _ _ _ _ _ HA (MkShape st a al) b j); [set_solver|done|done|..|done];
      (eapply old_fits; [done|lia]).
Qed.

(** One iteration of the loop. *)
Lemma adding_step k :
  al <= a -> a + buddy_order_size k <= e -> aligned a k -> (k <= BUDDY_MAX_ORDER)%nat ->
  (k = BUDDY_MAX_ORDER \/ ~ aligned a (S k) \/ e < a + buddy_order_size (S k)) ->
  exists A', buddy_list_add A (length ss) a k = Ret A' /\ free_pages A' = free_pages A /\
    adding ss st e al B0 (MkAllocator (areas A') (regions A') (free_pages A +64 Z.shiftl 1 (Z.of_nat k)))
      (<[a := (true, k)]> B) (a + buddy_order_size k).
Proof.
  intros Hal Hk Haa Hmax Hgr. pose proof (size_pos k). pose proof adding_bounds as (? & ? & ? & ?).
  pose proof (old_apart k Hal Hk) as Hap. assert (Hblocks := ad_blocks _ _ _ _ _ _ _ _ HA).
  assert (HB : blocks_ok (ss ++ [MkShape st (a + buddy_order_size k) al]) (<[a := (true, k)]> B))
    by (by apply extend_ok).
  assert (Hn : B !! a = None).
  { destruct (B !! a) as [[f j]|] eqn:E; [|done]. specialize (Hap _ _ _ E).
    pose proof (size_pos j). lia. }
  assert (Htot : wsum all_pages B + 2 ^ Z.of_nat k <= 2 ^ 58).
  { replace (wsum all_pages B + _) with (wsum all_pages (<[a := (true, k)]> B))
      by (rewrite wsum_insert by done; unfold all_pages; cbn; lia).
    rewrite (b_total _ _ HB). etrans; [|apply total_pages_le, HA]. fold (shapes A).
    rewrite (ad_shapes _ _ _ _ _ _ _ _ HA), !total_pages_app. cbn [total_pages s_end s_alloc].
    apply Z.add_le_mono_l, Z.add_le_mono_r, Z.div_le_mono; [done|lia]. }
  destruct (put_raw A B (gtag B None) (length ss) (MkShape st e al) a k) as (A' & Hadd & Hst);
    [apply HA..| | | | |].
  { intros ar Har. pose proof (pages_bound k Hmax). etrans; [apply (length_le_wsum B)|lia].
    - by eapply (a_nodup _ _ (ad_areas _ _ _ _ _ _ _ _ HA)).
    - intros b Hb. apply (a_elem _ _ (ad_areas _ _ _ _ _ _ _ _ HA) _ _ _ Har) in Hb. eauto. }
  { rewrite (ad_shapes _ _ _ _ _ _ _ _ HA). by rewrite lookup_app_r, Nat.sub_diag by lia. }
  { split_and!; cbn; [done..|lia]. }
  { by rewrite Hn. }
  exists A'. split; [done|]. split; [apply Hst|]. pose proof (free_le_all B). pose proof (pages_bound k Hmax).
  pose proof (ad_free _ _ _ _ _ _ _ _ HA). destruct Hst as [Hss Hfp HR HAr HSt].
  split; cbn; [|done|done| | | |done| |].
  - unfold shapes in *. cbn. rewrite Hss. apply HA.
  - by apply adding_coalesced.
  - intros b j. rewrite lookup_insert. case_decide as Hab; [|apply HA].
    intros [= <-] ? ? ?. subst b. destruct Hgr as [|[|]]; [lia|done|done].
  - eapply states_ok_ext; [|done]. by_address.
  - rewrite wsum_insert, shiftl_1 by done. change (free_only (true, k)) with (2 ^ Z.of_nat k).
    unwrap64. lia.
  - intros b j. rewrite lookup_insert. case_decide; [|apply HA]. subst b. split; [done|].
    intros Hb. apply (ad_alloc _ _ _ _ _ _ _ _ HA) in Hb. congruence.
Qed.
End adding.

Lemma add_region_loop_spec fuel ss st e al B0 A B a :
  adding ss st e al B0 A B a -> al <= a <= e -> a mod PGSIZE = 0 ->
  (e - a) / PGSIZE < Z.of_nat fuel ->
  exists A' B', add_region_loop fuel A (length ss) a e = Ret A' /\ adding ss st e al B0 A' B' e.
Proof.
  revert A B a; induction fuel as [|fuel IH]; intros A B a HA Ha Hm Hf.
  { unfold PGSIZE in *. Z.div_mod_to_equations. lia. }
  pose proof (adding_bounds _ _ _ _ _ _ _ _ HA) as (? & ? & ? & ?).
  cbn [add_region_loop]. destruct (Z.ltb_spec a e); cycle 1.
  { assert (a = e) as -> by lia. eauto. }
  destruct (buddy_largest_order_spec a ((e - a) / PGSIZE)) as (Hk & Hal & Hle & Hmax).
  { done. } { unfold PGSIZE in *. Z.div_mod_to_equations. lia. }
  set (k := buddy_largest_order _ _) in *. pose proof (size_pages k) as Hsk. pose proof (pages_bound k Hk).
  pose proof (size_pages (S k)) as HSk.
  assert (Hfit : a + buddy_order_size k <= e).
  { rewrite Hsk. unfold PGSIZE in *. Z.div_mod_to_equations. lia. }
  destruct (adding_step _ _ _ _ _ _ _ _ HA k) as (A' & -> & Hfp & HA'); [lia|done..| |].
  { destruct Hmax as [|[|]]; [by left|by right; left|]. right; right. rewrite HSk.
    unfold PGSIZE in *. Z.div_mod_to_equations. lia. }
  rewrite ret_bind, Hfp. pose proof (size_pos k).
  rewrite (wrap64_id (a + _)) by (unfold is_u64; lia). eapply IH; [exact HA'|lia| |].
  - rewrite Hsk. unfold PGSIZE in *. Z.div_mod_to_equations. lia.
  - rewrite Hsk. unfold PGSIZE in *. Z.div_mod_to_equations. lia.
Qed.

(** What [buddy_add_region] requires of its arguments. *)
Definition acceptable (A : buddy_allocator) (start end_ al state_cnt : Z) : Prop :=
  start < end_ /\ start mod PGSIZE = 0 /\ end_ mod PGSIZE = 0 /\ al mod PGSIZE = 0 /\
  start <= al <= end_ /\ (end_ - start) / PGSIZE <= state_cnt /\
  (length (regions A) < MEMRANGE_MAX)%nat /\
  forall r, r ∈ regions A -> end_ <= g_start r \/ g_end r <= start.

Lemma truth_false x : truth x = false <-> x = 0.
Proof. unfold truth. destruct (Z.eqb_spec x 0); naive_solver. Qed.

Lemma acceptable_iff A start end_ al n :
  ((end_ <=? start) || truth (start mod PGSIZE) || truth (end_ mod PGSIZE) ||
   (al <? start) || (end_ <? al) || truth (al mod PGSIZE) ||
   (n <? (end_ - start) / PGSIZE) || (MEMRANGE_MAX <=? length (regions A))%nat = false /\
   existsb (fun region => (start <? g_end region) && (g_start region <? end_)) (regions A) = false)
  <-> acceptable A start end_ al n.
Proof.
  unfold acceptable. rewrite !orb_false_iff, !truth_false, !Z.leb_gt, !Z.ltb_ge, Nat.leb_gt.
  rewrite <-not_true_iff_false, existsb_exists. split.
  - intros (? & Hex). split_and!; try tauto. intros r Hr.
    destruct (Z.le_gt_cases end_ (g_start r)); [by left|]. right.
    destruct (Z.le_gt_cases (g_end r) start); [done|]. exfalso. apply Hex. exists r.
    split; [by apply list_elem_of_In|]. rewrite andb_true_iff, !Z.ltb_lt. lia.
  - intros (? & ? & ? & ? & ? & ? & ? & Hd). split; [tauto|]. intros (r & Hr & Hb). bool_to_prop.
    apply list_elem_of_In, Hd in Hr. lia.
Qed.

Lemma adding_start A B start end_ al sts n :
  inv A B -> acceptable A start end_ al n -> 0 < start -> end_ < 2 ^ 64 ->
  n <= Z.of_nat (length sts) ->
  adding (shapes A) start end_ al B
    (MkAllocator (areas A) (regions A ++ [MkRegion start end_ al
       (replicate (Z.to_nat n) BUDDY_STATE_UNUSED ++ drop (Z.to_nat n) sts) n]) (free_pages A)) B al.
Proof.
  intros HI (H1 & H2 & H3 & H4 & H5 & H6 & H7 & Hdisj) Hpos He Hn.
  set (r := MkRegion _ _ _ _ _).
  assert (Hr : region_ok r).
  { unfold region_ok, r; cbn. rewrite length_app, length_replicate, length_drop. split_and!; try done; lia. }
  assert (HR : regions_ok (regions A ++ [r])).
  { split.
    - rewrite length_app. cbn. lia.
    - intros i q [Hq|[_ Hq]]%lookup_app_Some; [by apply (g_ok _ (i_regions _ _ _ _ HI) i)|].
      apply list_elem_of_lookup_2, list_elem_of_singleton in Hq. by subst.
    - assert (Hx : forall i q, regions A !! i = Some q -> g_end q <= g_start r \/ g_end r <= g_start q).
      { intros i q Hq%list_elem_of_lookup_2%Hdisj. cbn. lia. }
      intros i j q q' [Hq|[Hi Hq]]%lookup_app_Some [Hq'|[Hj Hq']]%lookup_app_Some Hij.
      + by apply (g_disj _ (i_regions _ _ _ _ HI) i j).
      + apply list_lookup_singleton_Some in Hq' as [? <-]. by eapply Hx.
      + apply list_lookup_singleton_Some in Hq as [? <-]. apply Hx in Hq'. lia.
      + apply list_lookup_singleton_Some in Hq as [? _], Hq' as [? _]. lia. }
  assert (Hout : forall b x, B !! b = Some x -> ~ start <= b < end_).
  { intros b [f k] Hb Hin. destruct (block_region _ _ _ _ _ _ _ HI Hb) as (i & s & Hs & Hf).
    destruct (shape_region _ _ _ Hs) as (q & Hq & <-). pose proof (size_pos k).
    pose proof (g_ok _ (i_regions _ _ _ _ HI) _ _ Hq) as (_ & _ & _ & _ & _ & ? & _).
    apply list_elem_of_lookup_2, Hdisj in Hq. destruct Hf as (_ & ? & _ & ?). cbn in *. lia. }
  split; cbn; [|done|..|done].
  - unfold shapes. cbn. by rewrite fmap_app.
  - apply empty_region_ok, HI.
  - apply empty_region_coalesced, HI.
  - intros b j Hb Hin. exfalso. apply (Hout _ _ Hb). lia.
  - intros i q b [Hq|[Hi Hq]]%lookup_app_Some Hb; [by apply (i_states _ _ _ _ HI i q b)|].
    apply list_lookup_singleton_Some in Hq as [_ <-].
    assert (gtag B None b = BUDDY_STATE_UNUSED) as ->.
    { unfold gtag. rewrite decide_False by done. destruct (B !! b) as [x|] eqn:E; [|done].
      exfalso. eapply Hout; [done|]. apply Hb. }
    destruct (page_index_lt r b Hr Hb) as [Hlt _]. cbn in Hlt |- *. unfold page_index. cbn.
    rewrite lookup_app_l by (rewrite length_replicate; lia). apply lookup_replicate_2. lia.
  - apply HI.
  - rewrite (i_free _ _ _ _ HI). lia.
Qed.

Lemma buddy_add_region_spec A B start end_ al sts n :
  inv A B -> acceptable A start end_ al n -> 0 < start -> end_ < 2 ^ 64 ->
  n <= Z.of_nat (length sts) ->
  exists A' B', buddy_add_region A start end_ al sts n = Ret (0, A') /\ inv A' B' /\
    shapes A' = shapes A ++ [MkShape start end_ al] /\
    (forall b j, B' !! b = Some (false, j) <-> B !! b = Some (false, j)).
Proof.
  intros HI Hacc Hpos He Hn. unfold buddy_add_region.
  destruct (proj2 (acceptable_iff _ _ _ _ _) Hacc) as [-> ->].
  rewrite (proj2 (Nat.ltb_ge _ _)) by lia. cbn zeta.
  pose proof (adding_start _ _ _ _ _ _ _ HI Hacc Hpos He Hn) as Hadd.
  destruct Hacc as (? & ? & ? & ? & ? & ? & _).
  edestruct add_region_loop_spec as (A' & B' & Hl & HA'); [exact Hadd|lia|done| |].
  2: { unfold shapes in Hl. rewrite length_fmap in Hl. rewrite Hl, ret_bind. exists A', B'.
       split; [done|]. split; [|split; [apply HA'|apply HA']].
       split; [apply HA'|rewrite (ad_shapes _ _ _ _ _ _ _ _ HA'); apply HA'..|apply HA'|apply HA'|].
       rewrite (ad_free _ _ _ _ _ _ _ _ HA'). lia. }
  unfold PGSIZE. assert (0 <= (end_ - al) / 4096) by (apply Z.div_pos; lia). lia.
Qed.

Lemma buddy_init_inv : inv buddy_init ∅.
Proof.
  split; try (by intros ? **).
  - split; cbn; [lia|done..].
  - split; [done..|by intros ? ? ?%not_elem_of_nil|]. by rewrite wsum_empty.
  - split; [done|..]; intros k ar; [..|intros a]; intros Hk;
      apply lookup_replicate in Hk as [-> _]; cbn; [constructor|done|]. set_solver.
  - by rewrite wsum_empty.
Qed.

Lemma blocks_apart A B a f k b g j :
  inv A B -> B !! a = Some (f, k) -> B !! b = Some (g, j) -> a <> b -> apart a k b j.
Proof.
  intros HI Ha Hb Hne. unfold apart. assert (HB := i_blocks _ _ _ _ HI).
  destruct (Z.lt_trichotomy a b) as [|[|]]; [left|lia|right].
  - by apply (b_disj _ _ HB a f k b g j).
  - by apply (b_disj _ _ HB b g j a f k).
Qed.

Lemma free_count A B : inv A B -> free_pages A + pages_sum (allocations B) = total_pages (shapes A).
Proof.
  intros HI. rewrite <-(b_total _ _ (i_blocks _ _ _ _ HI)), all_pages_split, (i_free _ _ _ _ HI). lia.
Qed.

Lemma buddy_add_region_Ret A start end_ al sts n :
  buddy_ok A -> acceptable A start end_ al n -> 0 < start -> end_ < 2 ^ 64 -> n <= Z.of_nat (length sts) ->
  exists A', buddy_add_region A start end_ al sts n = Ret (0, A') /\ buddy_ok A' /\
    shapes A' = shapes A ++ [MkShape start end_ al] /\
    (forall b j, is_allocated A' b j <-> is_allocated A b j) /\
    free_pages A' = free_pages A + (end_ - al) / PGSIZE.
Proof.
  intros [B HI] Hacc Hpos He Hn.
  destruct (buddy_add_region_spec _ _ _ _ _ _ _ HI Hacc Hpos He Hn) as (A' & B' & Hr & HI' & Hs & Hb).
  exists A'. split; [done|]. split; [by exists B'|]. split; [done|]. split.
  - intros b j. rewrite (is_allocated_iff _ _ _ _ HI), (is_allocated_iff _ _ _ _ HI'). apply Hb.
  - pose proof (free_count _ _ HI) as Hf. pose proof (free_count _ _ HI') as Hf'.
    rewrite Hs, total_pages_app in Hf'. cbn [total_pages s_end s_alloc] in Hf'.
    replace (allocations B') with (allocations B) in Hf'; [lia|].
    apply map_eq. intros b. apply option_eq. intros j. by rewrite !allocations_lookup, Hb.
Qed.

(** ** Properties *)

Section example.
  (** Four pages of memory, all of them managed. *)
Definition example_allocator : buddy_allocator :=
  match buddy_add_region buddy_init 0x80000000 0x80004000 0x80000000 (replicate 4 0) 4 with
  | Ret (_, A) => A
  | _ => buddy_init
  end.

Lemma example_fresh : buddy_ok example_allocator /\ forall a k, ~ is_allocated example_allocator a k.
Proof.
  destruct (buddy_add_region_spec buddy_init ∅ 0x80000000 0x80004000 0x80000000 (replicate 4 0) 4)
    as (A' & B' & He & HI & _ & HB); [apply buddy_init_inv| |done..|].
  - unfold acceptable. cbn. split_and!; try done; [unfold MEMRANGE_MAX; lia|].
    by intros r ?%not_elem_of_nil.
  - unfold example_allocator. rewrite He. split; [by exists B'|].
    intros a k. rewrite (is_allocated_iff _ _ _ _ HI), HB. by rewrite lookup_empty.
Qed.

Lemma example_ok : buddy_ok example_allocator.
Proof. apply example_fresh. Qed.

  (** The first two pages are allocated. *)
Definition example_used : buddy_allocator :=
  match buddy_alloc example_allocator 1 with
  | Ret (_, A) => A
  | _ => example_allocator
  end.

Lemma example_used_ok : buddy_ok example_used.
Proof.
  destruct example_ok as [B HI]. unfold example_used.
  destruct (buddy_alloc_spec _ B 1 HI) as [[-> _]|(p & A' & B' & -> & Hal)];
    [by exists B|exists B'; apply Hal].
Qed.
End example.

(** [buddy_alloc] always returns.  A non-null result is an aligned block
    inside a region, apart from every block allocated before; exactly that block
    becomes allocated and the free-page count drops by its size.  A null result
    leaves the allocator unchanged and means that every aligned block of the
    requested order overlaps an allocated block: the allocator never fails for
    lack of coalescing. *)
Theorem buddy_alloc_correct A order :
  buddy_ok A -> (order <= BUDDY_MAX_ORDER)%nat ->
  exists p A', buddy_alloc A order = Ret (p, A') /\ buddy_ok A' /\ shapes A' = shapes A /\
    if decide (p = 0) then
      A' = A /\
      forall s a, s ∈ shapes A -> fits s a order ->
        exists b j, is_allocated A b j /\ ~ apart b j a order
    else
      (exists s, s ∈ shapes A /\ fits s p order) /\
      (forall b j, is_allocated A b j -> apart b j p order) /\
      (forall b j, is_allocated A' b j <-> b = p /\ j = order \/ is_allocated A b j) /\
      free_pages A' = free_pages A - 2 ^ Z.of_nat order.
Proof.
  intros [B HI] Ho. destruct (buddy_alloc_spec A B order HI) as [[-> Hno]|(p & A' & B' & -> & Hal)].
  - exists 0, A. split; [done|]. split; [by exists B|]. split; [done|].
    rewrite decide_True by done. split; [done|]. intros s a Hs Hf.
    destruct (coalesced_maximal (shapes A) B s a order) as [(b & j & Hb & ?)|(b & j & Hb & Hj & _)];
      [apply HI|apply HI|done..| |].
    + exists b, j. split; [by apply (is_allocated_iff _ _ _ _ HI)|]. unfold apart. lia.
    + specialize (Hno Ho _ _ Hb). lia.
  - destruct Hal as [HI' Hs Hf Hpos Hnew Hblk Hfree]. exists p, A'. split; [done|].
    split; [by exists B'|]. split; [done|]. rewrite decide_False by lia.
    split; [done|]. split; [|split; [|done]].
    + intros b j Hb. rewrite (is_allocated_iff _ _ _ _ HI) in Hb.
      eapply (blocks_apart A' B'); [done|apply Hblk; eauto..|]. by eapply Hnew.
    + intros b j. rewrite (is_allocated_iff _ _ _ _ HI), (is_allocated_iff _ _ _ _ HI'). apply Hblk.
Qed.

Lemma buddy_alloc_witness :
  exists p A', buddy_alloc example_allocator 1 = Ret (p, A') /\ buddy_ok A' /\ p = 0x80000000.
Proof.
  destruct (buddy_alloc_correct example_allocator 1 example_ok) as (p & A' & He & Hok & _).
  { unfold BUDDY_MAX_ORDER. lia. }
  exists p, A'. split; [exact He|]. split; [exact Hok|]. vm_compute in He. by injection He as <-.
Defined.

(** C9: [buddy_free] succeeds exactly on blocks that are allocated with the given
    order: such a block, and nothing else, stops being allocated, its pages are
    counted free again and the state stays coalesced; any other call (double
    free, wrong order, foreign or misaligned address) returns -1 and changes
    nothing. *)
Theorem buddy_free_correct A a order :
  buddy_ok A ->
  (is_allocated A a order ->
     exists A', buddy_free A a order = Ret (0, A') /\ buddy_ok A' /\ shapes A' = shapes A /\
       (forall b j, is_allocated A' b j <-> b <> a /\ is_allocated A b j) /\
       free_pages A' = free_pages A + 2 ^ Z.of_nat order) /\
  (~ is_allocated A a order -> buddy_free A a order = Ret (-1, A)).
Proof.
  intros [B HI]. rewrite (is_allocated_iff _ _ _ _ HI).
  destruct (buddy_free_spec A B a order HI) as [[Hn He]|[Ha (A' & B' & He & HI' & Hs & Hb & Hf)]];
    (split; [intros|]); try done.
  exists A'. split; [done|]. split; [by exists B'|]. split; [done|]. split; [|done].
  intros b j. rewrite (is_allocated_iff _ _ _ _ HI), (is_allocated_iff _ _ _ _ HI'). apply Hb.
Qed.

Lemma buddy_free_witness :
  (exists A', buddy_free example_used 0x80000000 1 = Ret (0, A') /\ buddy_ok A' /\ free_pages A' = 4) /\
  buddy_free example_used 0x80000000 0 = Ret (-1, example_used).
Proof.
  split.
  - destruct (buddy_free_correct example_used 0x80000000 1 example_used_ok) as [Hf _].
    destruct Hf as (A' & He & Hok & _ & _ & Hp); [by vm_compute|].
    exists A'. split; [exact He|]. split; [exact Hok|]. rewrite Hp. by vm_compute.
  - apply (buddy_free_correct example_used 0x80000000 0 example_used_ok).
    unfold is_allocated. by vm_compute.
Defined.

(** [buddy_add_region] accepts exactly the well-formed, page-aligned ranges
    that overlap no managed region: the region becomes managed, no block changes
    its allocation, and every page of its allocatable part is counted free in
    maximal blocks.  Any other call returns -1 and changes nothing. *)
Theorem buddy_add_region_correct A start end_ al sts n :
  buddy_ok A -> 0 < start -> end_ < 2 ^ 64 -> n <= Z.of_nat (length sts) ->
  (acceptable A start end_ al n ->
     exists A', buddy_add_region A start end_ al sts n = Ret (0, A') /\ buddy_ok A' /\
       shapes A' = shapes A ++ [MkShape start end_ al] /\
       (forall b j, is_allocated A' b j <-> is_allocated A b j) /\
       free_pages A' = free_pages A + (end_ - al) / PGSIZE) /\
  (~ acceptable A start end_ al n -> buddy_add_region A start end_ al sts n = Ret (-1, A)).
Proof.
  intros Hok Hpos He Hn. split; [intros Hacc; by apply buddy_add_region_Ret|].
  intros Hrej. unfold buddy_add_region. rewrite <-acceptable_iff in Hrej.
  destruct (_ || _); [done|]. destruct (existsb _ _); [done|]. by destruct Hrej.
Qed.

Lemma buddy_add_region_witness :
  exists A', buddy_add_region example_allocator 0x90000000 0x90003000 0x90001000 (replicate 3 0) 3 =
               Ret (0, A') /\ buddy_ok A' /\ free_pages A' = 6.
Proof.
  destruct (buddy_add_region_correct example_allocator 0x90000000 0x90003000 0x90001000 (replicate 3 0) 3
              example_ok ltac:(lia) ltac:(lia) ltac:(cbn; lia)) as [Hacc _].
  destruct Hacc as (A' & He & Hok & _ & _ & Hf).
  - apply acceptable_iff. by vm_compute.
  - exists A'. split; [exact He|]. split; [exact Hok|]. rewrite Hf. by vm_compute.
Defined.

(** In every state of the allocator the allocated blocks are pairwise
    disjoint, and the free-page count is the number of managed pages outside
    them. *)
Theorem buddy_accounting A :
  buddy_ok A ->
  exists M : gmap Z nat,
    (forall a k, M !! a = Some k <-> is_allocated A a k) /\
    (forall a k b j, M !! a = Some k -> M !! b = Some j -> a <> b -> apart a k b j) /\
    buddy_free_page_count A + pages_sum M = total_pages (shapes A).
Proof.
  intros [B HI]. exists (allocations B). split; [|split].
  - intros a k. by rewrite allocations_lookup, (is_allocated_iff _ _ _ _ HI).
  - intros a k b j. rewrite !allocations_lookup. by apply (blocks_apart A B).
  - by apply free_count.
Qed.

Lemma buddy_accounting_witness :
  exists M : gmap Z nat, buddy_free_page_count example_allocator + pages_sum M = 4.
Proof.
  destruct (buddy_accounting example_allocator example_ok) as (M & _ & _ & HM). exists M. exact HM.
Defined.
