(* ===== verification/PageAlloc.v ===== *)
(** * Reference-counted pages (first half of kernel/palloc.c)

    The page allocator adds a reference count per page to the buddy allocator.
    [mem] is the contents of physical memory; the counts live in arrays at the
    start of each region, outside the pages that can be allocated, and are kept
    as lists.  Each function runs under [page_lock], so it is one step. *)
From S2P Require Import Prelude MemRange Buddy BuddyBlocks BuddyCorrect BuddyOps.

Definition PALLOC_ZERO : Z := 0x1.

Record page_ref_region := MkRefRegion { pr_start : Z; pr_end : Z; pr_refs : list Z }.

Record pages := MkPages {
  page_allocator : buddy_allocator;
  page_ref_regions : list page_ref_region;
  mem : Z -> Z }.

(** [memset(p, v, n)] for a byte value. *)
Definition fill (m : Z -> Z) (p v n : Z) : Z -> Z :=
  fun a => if (p <=? a) && (a <? p + n) then v else m a.

Definition with_allocator (P : pages) (A : buddy_allocator) : pages :=
  MkPages A (page_ref_regions P) (mem P).
Definition with_mem (P : pages) (m : Z -> Z) : pages :=
  MkPages (page_allocator P) (page_ref_regions P) m.

Fixpoint page_ref_find_from (rs : list page_ref_region) (address : Z) (i : nat) : option nat :=
  match rs with
  | [] => None
  | region :: rs =>
      if (pr_start region <=? address) && (address <? pr_end region) then Some i
      else page_ref_find_from rs address (S i)
  end.

Definition page_ref_find (P : pages) (address : Z) : option nat :=
  page_ref_find_from (page_ref_regions P) address 0.

(** A pointer into the counts: the region and the index. *)
Definition page_ref_pointer (P : pages) (page : Z) : option (nat * nat) :=
  if truth (page mod PGSIZE) then None else
  ri ← page_ref_find P page;
  region ← page_ref_regions P !! ri;
  Some (ri, Z.to_nat ((page - pr_start region) / PGSIZE)).

Definition read_ref (P : pages) (reference : nat * nat) : outcome Z :=
  region ← rd (page_ref_regions P) reference.1;
  rd (pr_refs region) reference.2.

Definition write_ref (P : pages) (reference : nat * nat) (v : Z) : outcome pages :=
  region ← rd (page_ref_regions P) reference.1;
  refs ← wr (pr_refs region) reference.2 v;
  rs ← wr (page_ref_regions P) reference.1 (MkRefRegion (pr_start region) (pr_end region) refs);
  Ret (MkPages (page_allocator P) rs (mem P)).

Definition palloc_free_pages (P : pages) : Z := buddy_free_page_count (page_allocator P).

Section operations.
  Context (CONFIG_PAGE_POISONING : bool).

Definition free_pages (P : pages) (p : Z) (order : nat) : outcome pages :=
  P ← (if (order =? 0)%nat then
         match page_ref_pointer P p with
         | None => Panic "free referenced page"
         | Some reference =>
             count ← read_ref P reference;
             if negb (count =? 1) then Panic "free referenced page"
             else write_ref P reference 0
         end
       else Ret P);
  P ← (if CONFIG_PAGE_POISONING then
         ok ← buddy_allocated (page_allocator P) p order;
         if negb ok then Panic "free pages"
         else Ret (with_mem P (fill (mem P) p 1 (Z.shiftl PGSIZE (Z.of_nat order))))
       else Ret P);
  '(rc, A) ← buddy_free (page_allocator P) p order;
  if rc <? 0 then Panic "free pages" else Ret (with_allocator P A).

Definition alloc_pages (P : pages) (order : nat) (flags : Z) : outcome (Z * pages) :=
  if truth (Z.land flags (Z.lnot PALLOC_ZERO)) then Ret (0, P) else
  '(p, A) ← buddy_alloc (page_allocator P) order;
  let P := with_allocator P A in
  P ← (if truth p && (order =? 0)%nat then
         match page_ref_pointer P p with
         | None => Panic "allocate referenced page"
         | Some reference =>
             count ← read_ref P reference;
             if truth count then Panic "allocate referenced page"
             else write_ref P reference 1
         end
       else Ret P);
  Ret (p, if truth p && truth (Z.land flags PALLOC_ZERO)
          then with_mem P (fill (mem P) p 0 (Z.shiftl PGSIZE (Z.of_nat order)))
          else P).

Definition pfree (P : pages) (p : Z) : outcome pages :=
  match page_ref_pointer P p with
  | None => Panic "put invalid page"
  | Some reference =>
      count ← read_ref P reference;
      if negb (truth count) then Panic "put invalid page" else
      ok ← buddy_allocated (page_allocator P) p 0;
      if negb ok then Panic "put invalid page" else
      P ← write_ref P reference (count -32 1);
      let release := negb (truth (count -32 1)) in
      let P := if CONFIG_PAGE_POISONING && release
               then with_mem P (fill (mem P) p 1 PGSIZE) else P in
      if release then
        '(rc, A) ← buddy_free (page_allocator P) p 0;
        if rc <? 0 then Panic "put physical page" else Ret (with_allocator P A)
      else Ret P
  end.

Definition palloc_get (P : pages) (p : Z) : outcome (Z * pages) :=
  match page_ref_pointer P p with
  | None => Ret (-1, P)
  | Some reference =>
      count ← read_ref P reference;
      if truth count && negb (count =? UINT32_MAX) then
        ok ← buddy_allocated (page_allocator P) p 0;
        if (ok : bool) then
          P ← write_ref P reference (count +32 1);
          Ret (0, P)
        else Ret (-1, P)
      else Ret (-1, P)
  end.

Definition palloc_refcount (P : pages) (p : Z) : outcome Z :=
  match page_ref_pointer P p with
  | None => Ret 0
  | Some reference =>
      ok ← buddy_allocated (page_allocator P) p 0;
      if (ok : bool) then read_ref P reference else Ret 0
  end.

Definition palloc (P : pages) : outcome (Z * pages) :=
  '(page, P) ← alloc_pages P 0 0;
  if negb (truth page) then Panic "out of physical memory" else Ret (page, P).

Definition palloc_zero (P : pages) : outcome (Z * pages) := alloc_pages P 0 PALLOC_ZERO.

(** The result is -1 or 0 as in C; a test that fails returns at once. *)
Definition palloc_reference_selftest (P : pages) : outcome (Z * pages) :=
  let free_before := buddy_free_page_count (page_allocator P) in
  '(page, P) ← palloc_zero P;
  if negb (truth page) then Ret (-1, P) else
  c1 ← palloc_refcount P page;
  if negb (c1 =? 1) then Ret (-1, P) else
  '(rc, P) ← palloc_get P page;
  if rc <? 0 then Ret (-1, P) else
  c2 ← palloc_refcount P page;
  if negb (c2 =? 2) then Ret (-1, P) else
  P ← pfree P page;
  let free_shared := buddy_free_page_count (page_allocator P) in
  c3 ← palloc_refcount P page;
  if negb (c3 =? 1) || negb (free_shared +64 1 =? free_before) then Ret (-1, P) else
  P ← pfree P page;
  let free_after := buddy_free_page_count (page_allocator P) in
  Ret (if free_after =? free_before then 0 else -1, P).
End operations.

(** ** Invariant *)

Definition ref_bounds (r : page_ref_region) : Z * Z := (pr_start r, pr_end r).

Definition refs_ok (rs : list page_ref_region) (g : Z -> Z) : Prop :=
  forall i r a, rs !! i = Some r -> pr_start r <= a < pr_end r -> a mod PGSIZE = 0 ->
    pr_refs r !! Z.to_nat ((a - pr_start r) / PGSIZE) = Some (g a).

(** [g] gives the reference count of every page: non-zero exactly on the pages
    allocated singly. *)
Record pages_inv (P : pages) (g : Z -> Z) : Prop := {
  pi_buddy : buddy_ok (page_allocator P);
  pi_bounds : ref_bounds <$> page_ref_regions P =
              (fun s => (s_start s, s_end s)) <$> shapes (page_allocator P);
  pi_refs : refs_ok (page_ref_regions P) g;
  pi_range : forall a, is_u32 (g a);
  pi_alloc : forall a, is_allocated (page_allocator P) a 0 <-> g a <> 0 }.

Definition pages_ok (P : pages) : Prop := exists g, pages_inv P g.

(** A page of a managed region. *)
Definition managed (P : pages) (a : Z) : Prop :=
  (exists i r, page_ref_regions P !! i = Some r /\ pr_start r <= a < pr_end r) /\ a mod PGSIZE = 0.

Lemma page_ref_find_from_eq rs (rs' : list buddy_region) a n :
  ref_bounds <$> rs = (fun s => (s_start s, s_end s)) <$> (shape_of <$> rs') ->
  page_ref_find_from rs a n = find_region_from rs' a n.
Proof.
  revert rs' n; induction rs as [|r rs IH]; intros [|r' rs'] n; try done.
  intros Heq. cbn in Heq. injection Heq as Hs He Heq. cbn. rewrite Hs, He. by rewrite (IH rs').
Qed.

Section invariant.
  Context (P : pages) (g : Z -> Z) (HP : pages_inv P g).

Lemma ref_region_lookup i r : page_ref_regions P !! i = Some r ->
  exists q, regions (page_allocator P) !! i = Some q /\ g_start q = pr_start r /\ g_end q = pr_end r.
Proof.
  intros Hi. assert (Hl : (ref_bounds <$> page_ref_regions P) !! i = Some (ref_bounds r))
    by (by rewrite list_lookup_fmap, Hi).
  rewrite (pi_bounds _ _ HP), list_lookup_fmap in Hl.
  apply fmap_Some in Hl as (s & (q & Hq & <-)%shape_region & Hb). injection Hb as ? ?. eauto.
Qed.

Lemma page_ref_find_Some i r a :
  page_ref_regions P !! i = Some r -> pr_start r <= a < pr_end r -> page_ref_find P a = Some i.
Proof.
  intros Hi Ha. destruct (pi_buddy _ _ HP) as [B HI].
  destruct (ref_region_lookup _ _ Hi) as (q & Hq & ? & ?).
  unfold page_ref_find. rewrite (page_ref_find_from_eq _ (regions (page_allocator P)))
    by apply (pi_bounds _ _ HP).
  eapply (find_region_Some (page_allocator P)); [apply HI|done|lia].
Qed.

(** Reading and writing the count of a managed page. *)
Lemma page_ref_pointer_Some a : managed P a ->
  exists ref, page_ref_pointer P a = Some ref /\ read_ref P ref = Ret (g a) /\
    forall v, exists rs', write_ref P ref v = Ret (MkPages (page_allocator P) rs' (mem P)) /\
      ref_bounds <$> rs' = ref_bounds <$> page_ref_regions P /\ refs_ok rs' (upd g a v).
Proof.
  intros [(i & r & Hi & Ha) Hm]. pose proof (pi_refs _ _ HP _ _ _ Hi Ha Hm) as Hr.
  set (k := Z.to_nat ((a - pr_start r) / PGSIZE)) in *. exists (i, k). split; [|split].
  - unfold page_ref_pointer. rewrite Hm. cbn.
    rewrite (page_ref_find_Some _ _ _ Hi Ha). cbn. by rewrite Hi.
  - unfold read_ref. cbn. by rewrite (rd_Ret _ _ _ Hi), ret_bind, (rd_Ret _ _ _ Hr).
  - intros v. unfold write_ref. cbn [fst snd]. rewrite (rd_Ret _ _ _ Hi), ret_bind.
    rewrite wr_Ret, ret_bind by (by eapply lookup_lt_Some).
    rewrite wr_Ret, ret_bind by (by eapply lookup_lt_Some).
    eexists; split; [reflexivity|]. split.
    { rewrite list_fmap_insert. apply list_insert_id. by rewrite list_lookup_fmap, Hi. }
    intros j q b Hj Hb Hbm. unfold upd. destruct (decide (j = i)) as [->|Hji].
    + rewrite list_lookup_insert_eq in Hj by (by eapply lookup_lt_Some). injection Hj as <-. cbn in *.
      case_decide as Hba.
      { subst b. apply list_lookup_insert_eq. by eapply lookup_lt_Some. }
      rewrite list_lookup_insert_ne; [by eapply (pi_refs _ _ HP)|].
      intros Hk. apply Hba. destruct (ref_region_lookup _ _ Hi) as (q & Hq & Hs & _).
      destruct (pi_buddy _ _ HP) as [B HI]. pose proof (g_ok _ (i_regions _ _ _ _ HI) _ _ Hq) as Hok.
      assert (Hsm : pr_start r mod PGSIZE = 0) by (rewrite <-Hs; apply Hok).
      apply Z2Nat.inj in Hk; unfold PGSIZE in *; Z.div_mod_to_equations; lia.
    + rewrite list_lookup_insert_ne in Hj by done. rewrite decide_False; [by eapply (pi_refs _ _ HP)|].
      intros ->. apply Hji. pose proof (page_ref_find_Some _ _ _ Hj Hb).
      pose proof (page_ref_find_Some _ _ _ Hi Ha). congruence.
Qed.

Lemma page_ref_pointer_inv a ref : page_ref_pointer P a = Some ref -> managed P a.
Proof.
  unfold page_ref_pointer. destruct (truth _) eqn:Ht; [done|]. unfold page_ref_find.
  apply truth_false in Ht. rewrite (page_ref_find_from_eq _ (regions (page_allocator P)))
    by apply (pi_bounds _ _ HP).
  destruct (find_region_from _ _ _) as [i|] eqn:Ef; [|done]. cbn.
  destruct (page_ref_regions P !! i) as [r|] eqn:Hi; [|done]. intros _. split; [|done].
  exists i, r. split; [done|]. destruct (ref_region_lookup _ _ Hi) as (q & Hq & <- & <-).
  destruct (find_region_inv (page_allocator P) a i Ef) as (q' & Hq' & ?). congruence.
Qed.

Lemma fits_managed s a k : s ∈ shapes (page_allocator P) -> fits s a k -> managed P a.
Proof.
  destruct (pi_buddy _ _ HP) as [B HI]. intros (i & Hs)%list_elem_of_lookup Hf.
  assert (Hl : ((fun s => (s_start s, s_end s)) <$> shapes (page_allocator P)) !! i = Some (s_start s, s_end s))
    by (by rewrite list_lookup_fmap, Hs).
  rewrite <-(pi_bounds _ _ HP), list_lookup_fmap in Hl. apply fmap_Some in Hl as (r & Hr & Hb).
  injection Hb as Hb1 Hb2. pose proof (shape_ok _ _ _ _ _ _ HI Hs). pose proof (size_pos k).
  destruct Hf as (_ & ? & Hal & ?). split; [|by eapply aligned_page].
  exists i, r. split; [done|]. lia.
Qed.

Lemma allocated_managed a k : is_allocated (page_allocator P) a k -> managed P a.
Proof.
  destruct (pi_buddy _ _ HP) as [B HI]. rewrite (is_allocated_iff _ _ _ _ HI). intros Ha.
  destruct (b_fits _ _ (i_blocks _ _ _ _ HI) _ _ _ Ha) as (s & Hs & Hf). by eapply fits_managed.
Qed.

Lemma refcount_zero a : ~ managed P a -> g a = 0.
Proof.
  intros Hn. destruct (decide (g a = 0)) as [|Hg]; [done|]. exfalso. apply Hn.
  apply (allocated_managed a 0), (pi_alloc _ _ HP), Hg.
Qed.

Lemma buddy_allocated_eq a : buddy_allocated (page_allocator P) a 0 = Ret (negb (g a =? 0)).
Proof.
  destruct (pi_buddy _ _ HP) as [B HI]. pose proof (pi_alloc _ _ HP a) as Ha.
  unfold is_allocated in Ha. rewrite (buddy_allocated_spec _ _ _ _ HI) in *.
  destruct (Z.eqb_spec (g a) 0); case_bool_decide; naive_solver.
Qed.

(** [palloc_refcount] reads the count, 0 for anything that is not a page. *)
Lemma palloc_refcount_spec a : palloc_refcount P a = Ret (g a).
Proof.
  unfold palloc_refcount. destruct (page_ref_pointer P a) as [ref|] eqn:Hp.
  - destruct (page_ref_pointer_Some a (page_ref_pointer_inv _ _ Hp)) as (ref' & Hp' & Hrd & _).
    rewrite Hp in Hp'. injection Hp' as <-. rewrite buddy_allocated_eq, ret_bind, Hrd.
    by destruct (Z.eqb_spec (g a) 0) as [->|].
  - rewrite refcount_zero; [done|]. intros Hm.
    destruct (page_ref_pointer_Some a Hm) as (ref' & Hp' & _). congruence.
Qed.
End invariant.

Lemma write_ref_with P A ref v A0 rs m :
  write_ref P ref v = Ret (MkPages A0 rs m) -> write_ref (with_allocator P A) ref v = Ret (MkPages A rs m).
Proof.
  unfold write_ref. cbn. destruct (rd _ _); [|done..]. rewrite !ret_bind.
  destruct (wr _ _ _); [|done..]. rewrite !ret_bind. destruct (wr _ _ _); [|done..].
  rewrite !ret_bind. by intros [= _ -> ->].
Qed.

Lemma pages_inv_mem P g m : pages_inv P g -> pages_inv (with_mem P m) g.
Proof. by intros []. Qed.

(** ** Operations *)

Section specs.
  Context (poison : bool).

(** What an allocation of the block [p] does. *)
Record allocates (P P' : pages) (g : Z -> Z) (p : Z) (order : nat) (zero : bool) : Prop := {
  as_pos : 0 < p;
  as_inv : pages_inv P' (if (order =? 0)%nat then upd g p 1 else g);
  as_shapes : shapes (page_allocator P') = shapes (page_allocator P);
  as_fits : exists s, s ∈ shapes (page_allocator P) /\ fits s p order;
  as_apart : forall b j, is_allocated (page_allocator P) b j -> apart b j p order;
  as_blocks : forall b j, is_allocated (page_allocator P') b j <->
                b = p /\ j = order \/ is_allocated (page_allocator P) b j;
  as_free : palloc_free_pages P' = palloc_free_pages P - 2 ^ Z.of_nat order;
  as_mem : mem P' = if zero then fill (mem P) p 0 (buddy_order_size order) else mem P }.

Lemma alloc_pages_spec P g order flags :
  pages_inv P g -> flags = 0 \/ flags = PALLOC_ZERO ->
  (alloc_pages P order flags = Ret (0, P) /\ (order = 0%nat -> palloc_free_pages P = 0)) \/
  (exists p P', alloc_pages P order flags = Ret (p, P') /\
                allocates P P' g p order (flags =? PALLOC_ZERO)).
Proof.
  intros HP Hfl. destruct (pi_buddy _ _ HP) as [B HI]. unfold alloc_pages.
  assert (truth (Z.land flags (Z.lnot PALLOC_ZERO)) = false) as -> by (by destruct Hfl as [-> | ->]).
  assert (Hz : truth (Z.land flags PALLOC_ZERO) = (flags =? PALLOC_ZERO)) by (by destruct Hfl as [-> | ->]).
  destruct (buddy_alloc_spec _ _ order HI) as [[-> Hno]|(p & A' & B' & -> & Hal)]; rewrite ret_bind.
  { left. split; [by destruct P|]. intros ->. unfold palloc_free_pages, buddy_free_page_count.
    rewrite (i_free _ _ _ _ HI), wsum_no_free; [done|]. intros a k Ha.
    assert (k < 0)%nat; [|lia]. apply (Hno ltac:(lia) _ _ Ha). }
  right. destruct Hal as [HI' Hs Hf Hpos Hnew Hblk Hfree].
  assert (truth p = true) as -> by (unfold truth; rewrite (proj2 (Z.eqb_neq _ _)); [done|lia]).
  assert (Hap : forall b j, is_allocated (page_allocator P) b j -> apart b j p order).
  { intros b j Hb. rewrite (is_allocated_iff _ _ _ _ HI) in Hb.
    eapply (blocks_apart A' B'); [done|apply Hblk; eauto..|]. by eapply Hnew. }
  assert (Hbk : forall b j, is_allocated A' b j <-> b = p /\ j = order \/ is_allocated (page_allocator P) b j).
  { intros b j. rewrite (is_allocated_iff _ _ _ _ HI), (is_allocated_iff _ _ _ _ HI'). apply Hblk. }
  assert (Hgp : g p = 0).
  { destruct (decide (g p = 0)) as [|Hg]; [done|]. apply (pi_alloc _ _ HP), (is_allocated_iff _ _ _ _ HI) in Hg.
    by destruct (Hnew _ _ Hg). }
  assert (Hm : managed P p) by (destruct Hf as (s & ? & ?); by eapply fits_managed).
  assert (Hold : order <> 0%nat -> pages_inv (with_allocator P A') g).
  { intros Ho. split; cbn; [by exists B'|by rewrite Hs; apply HP|apply HP..|]. intros a. rewrite Hbk, (pi_alloc _ _ HP).
    naive_solver. }
  destruct (page_ref_pointer_Some _ _ HP _ Hm) as (ref & Hp & Hrd & Hwr).
  destruct (Hwr 1) as (rs & Hw & Hb & Hr). apply (write_ref_with _ A') in Hw.
  assert (Hone : order = 0%nat -> pages_inv (MkPages A' rs (mem P)) (upd g p 1)).
  { intros ->. split; cbn; [by exists B'|by rewrite Hs, Hb; apply HP|done|..]; intros a; unfold upd; case_decide as Hap'.
    - done.
    - apply (pi_range _ _ HP).
    - subst a. rewrite Hbk. naive_solver.
    - rewrite Hbk, (pi_alloc _ _ HP). naive_solver. }
  assert (Hfin : forall P1, pages_inv P1 (if (order =? 0)%nat then upd g p 1 else g) ->
    page_allocator P1 = A' -> mem P1 = mem P ->
    allocates P (if flags =? PALLOC_ZERO
                 then with_mem P1 (fill (mem P1) p 0 (Z.shiftl PGSIZE (Z.of_nat order))) else P1)
              g p order (flags =? PALLOC_ZERO)).
  { intros P1 HP1 HA1 Hm1. split; try done; destruct (flags =? PALLOC_ZERO); cbn; rewrite ?HA1, ?Hm1; try done.
    1: by apply pages_inv_mem. all: unfold palloc_free_pages, buddy_free_page_count; cbn; by rewrite HA1. }
  cbn [andb]. rewrite Hz. revert Hfin. destruct (Nat.eqb_spec order 0) as [Ho|Ho]; intros Hfin.
  - change (page_ref_pointer (with_allocator P A') p) with (page_ref_pointer P p).
    rewrite Hp. change (read_ref (with_allocator P A') ref) with (read_ref P ref).
    rewrite Hrd, ret_bind, Hgp. change (truth 0) with false. cbn iota.
    rewrite Hw, ret_bind. eexists _, _. split; [reflexivity|]. apply Hfin; auto.
  - rewrite ret_bind. eexists _, _. split; [reflexivity|]. apply Hfin; auto.
Qed.

(** Dropping the last reference gives the page back. *)
Lemma release_inv_refs P g p rs A' :
  pages_inv P g -> g p <> 0 -> ref_bounds <$> rs = ref_bounds <$> page_ref_regions P ->
  refs_ok rs (upd g p 0) -> buddy_ok A' -> shapes A' = shapes (page_allocator P) ->
  (forall b j, is_allocated A' b j <-> b <> p /\ is_allocated (page_allocator P) b j) ->
  forall m, pages_inv (MkPages A' rs m) (upd g p 0).
Proof.
  intros HP Hg Hb Hr HA Hs Hbk m. split; cbn; [done|by rewrite Hs, Hb; apply HP|done|..];
    intros a; unfold upd; case_decide as Ha.
  - done.
  - apply (pi_range _ _ HP).
  - rewrite Hbk. naive_solver.
  - rewrite Hbk, (pi_alloc _ _ HP). naive_solver.
Qed.

Lemma buddy_free_Ret A p order : buddy_ok A -> is_allocated A p order ->
  exists A', buddy_free A p order = Ret (0, A') /\ buddy_ok A' /\ shapes A' = shapes A /\
    (forall b j, is_allocated A' b j <-> b <> p /\ is_allocated A b j) /\
    buddy_free_page_count A' = buddy_free_page_count A + 2 ^ Z.of_nat order.
Proof.
  intros [B HI] Ha. rewrite (is_allocated_iff _ _ _ _ HI) in Ha.
  destruct (buddy_free_spec A B p order HI) as [[Hn _]|[_ (A' & B' & He & HI' & Hs & Hb & Hf)]]; [done|].
  exists A'. split; [done|]. split; [by exists B'|]. split; [done|]. split; [|done].
  intros b j. rewrite (is_allocated_iff _ _ _ _ HI), (is_allocated_iff _ _ _ _ HI'). apply Hb.
Qed.

Lemma pfree_spec P g p :
  pages_inv P g ->
  if decide (g p = 0) then pfree poison P p = Panic "put invalid page"
  else exists P', pfree poison P p = Ret P' /\ pages_inv P' (upd g p (g p - 1)) /\
    shapes (page_allocator P') = shapes (page_allocator P) /\
    (forall b j, is_allocated (page_allocator P') b j <->
       is_allocated (page_allocator P) b j /\ (b = p -> g p <> 1)) /\
    palloc_free_pages P' = palloc_free_pages P + (if decide (g p = 1) then 1 else 0) /\
    (forall x, mem P' x = mem P x \/ p <= x < p + PGSIZE /\ g p = 1).
Proof.
  intros HP. case_decide as Hg.
  { unfold pfree. destruct (page_ref_pointer P p) as [ref|] eqn:Hp; [|done].
    destruct (page_ref_pointer_Some _ _ HP _ (page_ref_pointer_inv _ _ HP _ _ Hp)) as (ref' & Hp' & Hrd & _).
    rewrite Hp in Hp'. injection Hp' as <-. by rewrite Hrd, ret_bind, Hg. }
  assert (Hal := proj2 (pi_alloc _ _ HP p) Hg). pose proof (pi_range _ _ HP p) as Hu. unfold is_u32 in Hu.
  destruct (page_ref_pointer_Some _ _ HP _ (allocated_managed _ _ HP _ _ Hal)) as (ref & Hp & Hrd & Hwr).
  destruct (Hwr (g p - 1)) as (rs & Hw & Hb & Hr).
  unfold pfree. rewrite Hp, Hrd, ret_bind. unfold truth at 1. rewrite (proj2 (Z.eqb_neq _ _) Hg).
  cbn [negb]. rewrite (buddy_allocated_eq _ _ HP), ret_bind, (proj2 (Z.eqb_neq _ _) Hg). cbn [negb].
  rewrite (wrap32_id (g p - 1)) by (unfold is_u32; lia). rewrite Hw, ret_bind.
  unfold truth. rewrite negb_involutive. cbn zeta.
  destruct (Z.eqb_spec (g p - 1) 0) as [H0|H0].
  - destruct (buddy_free_Ret _ _ _ (pi_buddy _ _ HP) Hal) as (A' & HA' & Hok & Hs & Hbk & Hf).
    rewrite andb_true_r. rewrite H0 in *.
    destruct poison; cbn [page_allocator with_mem mem]; rewrite HA', ret_bind; cbn;
      (eexists; split; [reflexivity|]; split; [by eapply release_inv_refs|]; split; [done|];
       split; [intros b j; cbn; rewrite Hbk; destruct (decide (b = p)); naive_solver lia|];
       split; [rewrite decide_True by lia; exact Hf|]); intros x; cbn; [|by left].
    unfold fill. destruct (_ && _) eqn:Ex; [|by left]. bool_to_prop. right. lia.
  - rewrite andb_false_r. eexists; split; [reflexivity|]. cbn. split; [|split; [done|split; [|split]]].
    + split; cbn; [apply HP|by rewrite Hb; apply HP|done|..]; intros a; unfold upd; case_decide; subst.
      * unfold is_u32. lia.
      * apply (pi_range _ _ HP).
      * naive_solver.
      * apply (pi_alloc _ _ HP).
    + intros b j. naive_solver lia.
    + rewrite decide_False by lia. unfold palloc_free_pages. cbn. lia.
    + by left.
Qed.

Lemma palloc_get_spec P g p :
  pages_inv P g ->
  if decide (g p = 0 \/ g p = UINT32_MAX) then palloc_get P p = Ret (-1, P)
  else exists P', palloc_get P p = Ret (0, P') /\ pages_inv P' (upd g p (g p + 1)) /\
    page_allocator P' = page_allocator P /\ mem P' = mem P.
Proof.
  intros HP. pose proof (pi_range _ _ HP p) as Hu. unfold is_u32 in Hu. unfold palloc_get.
  destruct (page_ref_pointer P p) as [ref|] eqn:Hp; cycle 1.
  { rewrite decide_True; [done|]. left. apply (refcount_zero _ _ HP). intros Hm.
    destruct (page_ref_pointer_Some _ _ HP _ Hm) as (ref & ? & _). congruence. }
  destruct (page_ref_pointer_Some _ _ HP _ (page_ref_pointer_inv _ _ HP _ _ Hp)) as (ref' & Hp' & Hrd & Hwr).
  rewrite Hp in Hp'. injection Hp' as <-. rewrite Hrd, ret_bind. unfold truth, UINT32_MAX in *.
  destruct (Z.eqb_spec (g p) 0) as [H0|H0]; [by rewrite decide_True by (by left)|].
  destruct (Z.eqb_spec (g p) (2 ^ 32 - 1)) as [H1|H1]; [by rewrite decide_True by (by right)|].
  rewrite decide_False by lia. cbn [negb andb].
  rewrite (buddy_allocated_eq _ _ HP), ret_bind, (proj2 (Z.eqb_neq _ _) H0). cbn [negb].
  unwrap32. destruct (Hwr (g p + 1)) as (rs & Hw & Hb & Hr). rewrite Hw, ret_bind.
  eexists; split; [reflexivity|]. split; [|done].
  split; cbn; [apply HP|by rewrite Hb; apply HP|done|..]; intros a; unfold upd; case_decide; subst.
  - unfold is_u32. lia.
  - apply (pi_range _ _ HP).
  - rewrite (pi_alloc _ _ HP). lia.
  - apply (pi_alloc _ _ HP).
Qed.

Lemma free_pages_spec P g p order :
  pages_inv P g -> is_allocated (page_allocator P) p order -> (order = 0%nat -> g p = 1) ->
  exists P', free_pages poison P p order = Ret P' /\
    pages_inv P' (if (order =? 0)%nat then upd g p 0 else g) /\
    (forall b j, is_allocated (page_allocator P') b j <-> b <> p /\ is_allocated (page_allocator P) b j) /\
    palloc_free_pages P' = palloc_free_pages P + 2 ^ Z.of_nat order /\
    (forall x, mem P' x = mem P x \/ p <= x < p + buddy_order_size order).
Proof.
  intros HP Hal Hg.
  destruct (buddy_free_Ret _ _ _ (pi_buddy _ _ HP) Hal) as (A' & HA' & Hok & Hs & Hbk & Hf).
  destruct (page_ref_pointer_Some _ _ HP _ (allocated_managed _ _ HP _ _ Hal)) as (ref & Hp & Hrd & Hwr).
  destruct (Hwr 0) as (rs & Hw & Hb & Hr).
  set (rs' := if (order =? 0)%nat then rs else page_ref_regions P).
  assert (Hstep : (if (order =? 0)%nat then
         match page_ref_pointer P p with
         | None => Panic "free referenced page"
         | Some reference =>
             count ← read_ref P reference;
             if negb (count =? 1) then Panic "free referenced page" else write_ref P reference 0
         end
       else Ret P) = Ret (MkPages (page_allocator P) rs' (mem P))).
  { subst rs'. destruct (Nat.eqb_spec order 0) as [Ho|]; [|by destruct P].
    by rewrite Hp, Hrd, ret_bind, Hg by done. }
  unfold free_pages. rewrite Hstep, ret_bind. cbn [page_allocator].
  assert (Hinv : forall m, pages_inv (MkPages A' rs' m) (if (order =? 0)%nat then upd g p 0 else g)).
  { intros m. subst rs'. destruct (Nat.eqb_spec order 0) as [Ho|Ho].
    - eapply release_inv_refs; try done. rewrite Hg by done. done.
    - split; cbn; [done|by rewrite Hs; apply HP|apply HP..|]. intros a. rewrite Hbk, (pi_alloc _ _ HP).
      split; [naive_solver|]. intros Ha. split; [|done]. intros ->.
      apply (pi_alloc _ _ HP) in Ha. destruct (pi_buddy _ _ HP) as [B HI].
      apply (is_allocated_iff _ _ _ _ HI) in Ha. apply (is_allocated_iff _ _ _ _ HI) in Hal. congruence. }
  destruct poison.
  - rewrite Hal, ret_bind. cbn [negb]. rewrite ret_bind. cbn. rewrite HA', ret_bind. cbn.
    eexists; split; [reflexivity|]. split; [apply Hinv|]. split; [done|]. split; [done|]. cbn.
    intros x. unfold fill. destruct (_ && _) eqn:Ex; [|by left]. bool_to_prop. right. unfold buddy_order_size. lia.
  - rewrite ret_bind. cbn. rewrite HA', ret_bind. cbn. eexists; split; [reflexivity|].
    split; [apply Hinv|]. split; [done|]. split; [done|]. by left.
Qed.

Lemma free_pages_panic P g p order :
  pages_inv P g -> ~ (is_allocated (page_allocator P) p order /\ (order = 0%nat -> g p = 1)) ->
  exists why, free_pages poison P p order = Panic why.
Proof.
  intros HP Hn. destruct (pi_buddy _ _ HP) as [B HI]. unfold free_pages.
  assert (Hno : order <> 0%nat \/ g p = 1 -> ~ is_allocated (page_allocator P) p order).
  { intros Ho Ha. apply Hn. split; [done|]. intros ?. by destruct Ho. }
  assert (Hpanic : forall P1 : pages, page_allocator P1 = page_allocator P ->
    ~ is_allocated (page_allocator P) p order -> exists why,
    (P ← (if poison then
         ok ← buddy_allocated (page_allocator P1) p order;
         if negb ok then Panic "free pages"
         else Ret (with_mem P1 (fill (mem P1) p 1 (Z.shiftl PGSIZE (Z.of_nat order))))
       else Ret P1);
     '(rc, A) ← buddy_free (page_allocator P) p order;
     if rc <? 0 then Panic "free pages" else Ret (with_allocator P A)) = Panic why).
  { intros P1 HP1 Ha. rewrite HP1. unfold is_allocated in Ha.
    destruct (buddy_free_spec _ _ p order HI) as [[Hx He]|[Hx _]].
    - rewrite (buddy_allocated_spec _ _ _ _ HI), bool_decide_eq_false_2 by done.
      destruct poison; cbn; [eauto|]. rewrite HP1, He. cbn. eauto.
    - rewrite (buddy_allocated_spec _ _ _ _ HI), bool_decide_eq_true_2 in Ha by done. done. }
  destruct (Nat.eqb_spec order 0) as [Ho|Ho]; [|rewrite ret_bind; apply Hpanic; auto].
  destruct (page_ref_pointer P p) as [ref|] eqn:Hp; [|cbn; eauto].
  destruct (page_ref_pointer_Some _ _ HP _ (page_ref_pointer_inv _ _ HP _ _ Hp)) as (ref' & Hp' & Hrd & Hwr).
  rewrite Hp in Hp'. injection Hp' as <-. rewrite Hrd, ret_bind.
  destruct (Z.eqb_spec (g p) 1) as [H1|]; cbn [negb]; [|cbn; eauto].
  exfalso. apply Hno; [by right|]. subst order. apply (pi_alloc _ _ HP). lia.
Qed.
End specs.

(** ** Properties *)

Section example.
Definition example_pages : pages :=
  MkPages example_allocator [MkRefRegion 0x80000000 0x80004000 (replicate 4 0)] (fun _ => 0xaa).

Lemma example_pages_ok : pages_ok example_pages.
Proof.
  exists (fun _ => 0). destruct example_fresh as [Hok Hno]. split.
  - exact Hok.
  - by vm_compute.
  - intros i r a Hi Ha Hm. apply list_lookup_singleton_Some in Hi as [_ <-]. cbn [pr_start pr_end pr_refs] in *.
    apply (lookup_replicate_2 4). unfold PGSIZE. Z.div_mod_to_equations. lia.
  - done.
  - intros a. split; [by intros ?%Hno|done].
Qed.

  (** Its first page is in use. *)
Definition example_live : pages :=
  match alloc_pages example_pages 0 0 with Ret (_, P) => P | _ => example_pages end.

Lemma example_live_ok : pages_ok example_live.
Proof.
  destruct example_pages_ok as [g HP]. unfold example_live.
  destruct (alloc_pages_spec _ _ 0 0 HP) as [[-> _]|(p & P' & -> & Ha)]; [by left|by exists g|].
  eexists. apply Ha.
Qed.
End example.

(** [alloc_pages] never panics.  On success the block is new, a single page
    starts with one reference, no other count changes, and with [PALLOC_ZERO]
    every byte of the block is zero while all other memory is untouched; on
    failure nothing changes. *)
Theorem alloc_pages_correct P order flags :
  pages_ok P -> flags = 0 \/ flags = PALLOC_ZERO ->
  exists p P', alloc_pages P order flags = Ret (p, P') /\ pages_ok P' /\
    if decide (p = 0) then P' = P else
      (exists s, s ∈ shapes (page_allocator P) /\ fits s p order) /\
      (forall b j, is_allocated (page_allocator P) b j -> apart b j p order) /\
      (forall a, palloc_refcount P' a =
         if decide (a = p /\ order = 0%nat) then Ret 1 else palloc_refcount P a) /\
      palloc_free_pages P' = palloc_free_pages P - 2 ^ Z.of_nat order /\
      (forall x, mem P' x = if decide (flags = PALLOC_ZERO /\ p <= x < p + buddy_order_size order)
                            then 0 else mem P x).
Proof.
  intros [g HP] Hfl. destruct (alloc_pages_spec P g order flags HP Hfl) as [[-> _]|(p & P' & -> & Ha)].
  { exists 0, P. split; [done|]. split; [by exists g|]. done. }
  destruct Ha as [Hpos HP' _ Hf Hap _ Hfree Hmem]. exists p, P'. split; [done|].
  split; [by eexists|]. rewrite decide_False by lia. split; [done|]. split; [done|]. split.
  - intros a. rewrite (palloc_refcount_spec _ _ HP'), (palloc_refcount_spec _ _ HP). unfold upd.
    destruct (Nat.eqb_spec order 0); repeat case_decide; naive_solver.
  - split; [done|]. intros x. rewrite Hmem. unfold fill.
    destruct (Z.eqb_spec flags PALLOC_ZERO); [|rewrite decide_False by tauto; done].
    destruct (Z.leb_spec p x), (Z.ltb_spec x (p + buddy_order_size order)); cbn; case_decide; lia || done.
Qed.

Lemma alloc_pages_witness :
  exists p P', alloc_pages example_pages 0 PALLOC_ZERO = Ret (p, P') /\ pages_ok P' /\
    p = 0x80000000 /\ mem P' (p + 7) = 0.
Proof.
  destruct (alloc_pages_correct example_pages 0 PALLOC_ZERO example_pages_ok) as (p & P' & He & Hok & Hr).
  { by right. }
  exists p, P'. assert (p = 0x80000000) as Hp.
  { assert (Hv : (fst <$> (match alloc_pages example_pages 0 PALLOC_ZERO with Ret x => Some x | _ => None end))
                 = Some 0x80000000) by (vm_compute; reflexivity).
    rewrite He in Hv. cbn in Hv. congruence. }
  split; [exact He|]. split; [exact Hok|]. split; [exact Hp|].
  rewrite decide_False in Hr by lia. destruct Hr as (_ & _ & _ & _ & Hm). rewrite Hm.
  rewrite decide_True; [done|]. split; [done|]. rewrite size_pages, Hp. unfold PGSIZE. lia.
Defined.

(** Reference counting of pages.  [palloc_get] adds a reference to a live
    page unless the count is saturated, and otherwise fails without effect;
    [pfree] removes one, gives the page back to the buddy allocator exactly when
    the last reference goes, and panics on a page without references. *)
Theorem page_references_correct poison P p :
  pages_ok P ->
  exists n, palloc_refcount P p = Ret n /\ is_u32 n /\
  (if decide (n = 0 \/ n = UINT32_MAX) then palloc_get P p = Ret (-1, P)
   else exists P', palloc_get P p = Ret (0, P') /\ pages_ok P' /\
     palloc_free_pages P' = palloc_free_pages P /\
     forall a, palloc_refcount P' a = if decide (a = p) then Ret (n + 1) else palloc_refcount P a) /\
  (if decide (n = 0) then pfree poison P p = Panic "put invalid page"
   else exists P', pfree poison P p = Ret P' /\ pages_ok P' /\
     (forall a, palloc_refcount P' a = if decide (a = p) then Ret (n - 1) else palloc_refcount P a) /\
     palloc_free_pages P' = palloc_free_pages P + (if decide (n = 1) then 1 else 0) /\
     (forall b j, is_allocated (page_allocator P') b j <->
        is_allocated (page_allocator P) b j /\ (b = p -> n <> 1))).
Proof.
  intros [g HP]. exists (g p). split; [by apply palloc_refcount_spec|]. split; [apply HP|].
  pose proof (palloc_get_spec P g p HP) as Hget. pose proof (pfree_spec poison P g p HP) as Hput. split.
  - clear Hput. destruct (decide (g p = 0 \/ _)); [done|]. destruct Hget as (P' & He & HP' & HA & _). exists P'. split; [done|].
    split; [by eexists|]. split; [unfold palloc_free_pages; by rewrite HA|].
    intros a. rewrite (palloc_refcount_spec _ _ HP'), (palloc_refcount_spec _ _ HP).
    unfold upd. by destruct (decide (a = p)).
  - clear Hget. destruct (decide (g p = 0)); [done|]. destruct Hput as (P' & He & HP' & _ & Hb & Hf & _). exists P'. split; [done|].
    split; [by eexists|]. split; [|done].
    intros a. rewrite (palloc_refcount_spec _ _ HP'), (palloc_refcount_spec _ _ HP).
    unfold upd. by destruct (decide (a = p)).
Qed.

Lemma page_references_witness :
  exists P1 P2, palloc_get example_live 0x80000000 = Ret (0, P1) /\
    palloc_refcount P1 0x80000000 = Ret 2 /\
    pfree false example_live 0x80000000 = Ret P2 /\ palloc_free_pages P2 = 4.
Proof.
  destruct (page_references_correct false example_live 0x80000000 example_live_ok)
    as (n & Hn & _ & Hget & Hput).
  assert (n = 1) as -> by (vm_compute in Hn; congruence).
  destruct Hget as (P1 & Hg & _ & _ & Hc). destruct Hput as (P2 & Hp & _ & _ & Hf & _).
  exists P1, P2. split; [exact Hg|]. split; [exact (Hc 0x80000000)|]. split; [exact Hp|].
  rewrite Hf. by vm_compute.
Defined.
