(* ===== verification/Heap.v ===== *)
(** * The kernel heap (second half of kernel/palloc.c)

    [malloc] carves blocks out of single pages.  A heap page starts with
    [struct page] (the number of blocks in use, one bit per block, the next page
    of the pool) and a block starts with [struct block_info].  These headers are
    kept as records under their addresses; a page given back leaves the maps, so
    an access to it afterwards is a [Fault].  [MIN_SIZE] is 1: a block is a byte.

    The pages come from a [PageSource], the part of the page allocator the heap
    relies on; [PageAlloc] provides the instance. *)
From S2P Require Import Prelude MemRange Buddy BuddyBlocks BuddyCorrect BuddyOps PageAlloc.

(** ** What the heap expects from its page allocator *)

Class PageSource (St : Type) := {
  ps_alloc : St -> outcome (Z * St);
  ps_put : St -> Z -> outcome St;
  ps_count : St -> Z -> outcome Z;
  ps_free : St -> Z;
  ps_regions : St -> list shape;
  ps_byte : St -> Z -> Z;
  ps_set : St -> Z -> Z -> Z -> St;
  ps_ok : St -> Prop }.

(** The references held on a page and the allocator's laws. *)
Class PageSourceLaws (St : Type) `{PageSource St} : Prop := {
  ps_alloc_ok : forall s, ps_ok s -> exists p s', ps_alloc s = Ret (p, s') /\ ps_ok s' /\
    (p = 0 /\ s' = s /\ ps_free s = 0 \/
     0 < p /\ p mod PGSIZE = 0 /\ p + PGSIZE < 2 ^ 64 /\ ps_count s p = Ret 0 /\
     ps_free s' = ps_free s - 1 /\ ps_regions s' = ps_regions s /\
     forall a, ps_count s' a = if decide (a = p) then Ret 1 else ps_count s a);
  ps_put_ok : forall s p, ps_ok s -> ps_count s p = Ret 1 ->
    exists s', ps_put s p = Ret s' /\ ps_ok s' /\ ps_free s' = ps_free s + 1 /\
      ps_regions s' = ps_regions s /\
      forall a, ps_count s' a = if decide (a = p) then Ret 0 else ps_count s a;
  ps_set_ok : forall s p v n, ps_ok s -> ps_ok (ps_set s p v n) /\
    (forall a, ps_count (ps_set s p v n) a = ps_count s a) /\
    ps_free (ps_set s p v n) = ps_free s /\ ps_regions (ps_set s p v n) = ps_regions s /\
    forall a, ps_byte (ps_set s p v n) a = if decide (p <= a < p + n) then v else ps_byte s a }.

(** ** Data *)

Definition MAGIC_NUMBER : Z := 0x20030528.
Definition INFO_BLOCK : Z := 32.
Definition MALLOC_ALIGNMENT : Z := 16.
Definition PAGE_BLOCK : Z := 512.
Definition BITMAP_SIZE : Z := (4096 - PAGE_BLOCK) / 8.
Definition ALIGN_BLOCKS (x : Z) : Z :=
  Z.land (x +64 MALLOC_ALIGNMENT -64 1) (Z.lnot (MALLOC_ALIGNMENT - 1)).

Record page := MkPage { used : Z; bitmap : list Z; next : Z }.
Record block_info := MkInfo { magic : Z; i_used : Z; parent : Z; addr : Z }.

Section heap.
  Context {St : Type} `{PageSource St}.

  (** [pool] is [pool.list], 0 for the empty pool. *)
Record heap := MkHeap {
  source : St;
  hpages : gmap Z page;
  infos : gmap Z block_info;
  pool : Z }.

Definition set_page (H : heap) (a : Z) (pg : page) : heap :=
  MkHeap (source H) (<[a := pg]> (hpages H)) (infos H) (pool H).

(** ** Operations *)

(** [for (k = start; k < start + blocks; k++) bitmap[k / 8] |= 0x80 >> (k % 8)] *)
Fixpoint set_bits (n : nat) (bm : list Z) (k : Z) : outcome (list Z) :=
  match n with
  | O => Ret bm
  | S n =>
      b ← rd bm (Z.to_nat (k / 8));
      bm ← wr bm (Z.to_nat (k / 8)) (Z.lor b (Z.shiftr 0x80 (k mod 8)));
      set_bits n bm (k + 1)
  end.

Fixpoint clear_bits (n : nat) (bm : list Z) (k : Z) : outcome (list Z) :=
  match n with
  | O => Ret bm
  | S n =>
      b ← rd bm (Z.to_nat (k / 8));
      bm ← wr bm (Z.to_nat (k / 8)) (Z.land b (Z.lnot (Z.shiftr 0x80 (k mod 8))));
      clear_bits n bm (k + 1)
  end.

(** The loops over [i] and [j] as one loop over the bit [offset = i * 8 + j],
    [rest] bits before the end; the result is [start] at the [return]. *)
Fixpoint malloc_scan (rest : nat) (bm : list Z) (offset count start blocks : Z) : outcome (option Z) :=
  match rest with
  | O => Ret None
  | S rest =>
      b ← rd bm (Z.to_nat (offset / 8));
      let mask := Z.shiftr 0x80 (offset mod 8) in
      if Z.land b mask =? 0 then
        if (count =? 0) && truth (offset mod MALLOC_ALIGNMENT)
        then malloc_scan rest bm (offset + 1) count start blocks
        else
          let start := if count =? 0 then offset else start in
          let count := count +64 1 in
          if count =? blocks then Ret (Some start)
          else malloc_scan rest bm (offset + 1) count start blocks
      else malloc_scan rest bm (offset + 1) 0 0 blocks
  end.

(** -1 is [UINT64_MAX] as the C function returns it. *)
Definition malloc_core (H : heap) (pg : Z) (blocks : Z) : outcome (Z * heap) :=
  if pg =? 0 then Ret (UINT64_MAX, H) else
  p ← deref (hpages H !! pg);
  found ← malloc_scan (Z.to_nat (BITMAP_SIZE * 8)) (bitmap p) 0 0 0 blocks;
  match found with
  | None => Ret (UINT64_MAX, H)
  | Some start =>
      bm ← set_bits (Z.to_nat blocks) (bitmap p) start;
      Ret (start +64 PAGE_BLOCK, set_page H pg (MkPage (used p +64 blocks) bm (next p)))
  end.

(** [for (pg = pool.list; pg; pg = pg->next) if (pg->next == page) ...] *)
Fixpoint unlink_page (fuel : nat) (H : heap) (pg target tnext : Z) : outcome (bool * heap) :=
  match fuel with
  | O => Fault
  | S fuel =>
      if pg =? 0 then Ret (false, H) else
      p ← deref (hpages H !! pg);
      if next p =? target then Ret (true, set_page H pg (MkPage (used p) (bitmap p) tnext))
      else unlink_page fuel H (next p) target tnext
  end.

(** A page returned to the page allocator may no longer be accessed. *)
Definition forget_page (H : heap) (s : St) (pg : Z) : heap :=
  MkHeap s (delete pg (hpages H))
    (filter (fun x => ~ (pg <= x.1 < pg + PGSIZE)) (infos H)) (pool H).

Definition free_core (H : heap) (pg start blocks : Z) : outcome heap :=
  p ← deref (hpages H !! pg);
  let s := start -64 pg -64 PAGE_BLOCK in
  bm ← clear_bits (Z.to_nat blocks) (bitmap p) s;
  let p := MkPage (used p -64 blocks) bm (next p) in
  let H := set_page H pg p in
  if used p =? 0 then
    '(found, H) ← (if negb (pg =? pool H)
                   then unlink_page (S (size (hpages H))) H (pool H) pg (next p)
                   else Ret (true, MkHeap (source H) (hpages H) (infos H) (next p)));
    if (found : bool) then
      s ← ps_put (source H) pg;
      Ret (forget_page H s pg)
    else Ret H
  else Ret H.

Definition malloc_page (H : heap) : outcome (Z * heap) :=
  '(pg, s) ← ps_alloc (source H);
  if pg =? 0 then Ret (0, MkHeap s (hpages H) (infos H) (pool H)) else
  Ret (pg, MkHeap s (<[pg := MkPage 0 (replicate (Z.to_nat BITMAP_SIZE) 0) (pool H)]> (hpages H))
             (infos H) pg).

Definition malloc (H : heap) (sz : Z) : outcome (Z * heap) :=
  if sz =? 0 then Ret (0, H) else
  if UINT64_MAX - INFO_BLOCK - (MALLOC_ALIGNMENT - 1) <? sz then Ret (0, H) else
  let allocation_blocks := ALIGN_BLOCKS (sz + INFO_BLOCK) in
  '(ret, H) ← malloc_core H (pool H) allocation_blocks;
  '(ret, pg, H) ← (if ret =? UINT64_MAX then
                     '(pg, H) ← malloc_page H;
                     '(ret, H) ← malloc_core H pg allocation_blocks;
                     Ret (ret, pg, H)
                   else Ret (ret, pool H, H));
  if ret =? UINT64_MAX then Ret (0, H) else
  let info := ret +64 pg in
  let p := info +64 INFO_BLOCK in
  Ret (p, MkHeap (source H) (hpages H)
            (<[info := MkInfo MAGIC_NUMBER (allocation_blocks -64 INFO_BLOCK) pg p]> (infos H)) (pool H)).

Definition calloc (H : heap) (count sz : Z) : outcome (Z * heap) :=
  if truth sz && (UINT64_MAX / sz <? count) then Ret (0, H) else
  let total := count *64 sz in
  '(pointer, H) ← malloc H total;
  if truth pointer
  then Ret (pointer, MkHeap (ps_set (source H) pointer 0 total) (hpages H) (infos H) (pool H))
  else Ret (pointer, H).

(** The second component is [true] when the address is reported illegal. *)
Definition free (H : heap) (p : Z) : outcome (heap * bool) :=
  if p =? 0 then Ret (H, false) else
  let info := p -64 INFO_BLOCK in
  i ← deref (infos H !! info);
  let pg := parent i in
  if (p <=? pg) || (pg +64 PGSIZE <? p) || negb (p =? addr i) || negb (magic i =? MAGIC_NUMBER)
  then Ret (H, true)
  else
    H ← free_core H pg info (INFO_BLOCK +64 i_used i);
    Ret (H, false).

Fixpoint selftest_malloc (sizes : list Z) (H : heap) (allocations : list Z) : outcome (list Z * heap) :=
  match sizes with
  | [] => Ret (allocations, H)
  | sz :: sizes =>
      '(p, H) ← malloc H sz;
      if negb (truth p) || truth (p mod MALLOC_ALIGNMENT) then Panic "unaligned heap allocation"
      else selftest_malloc sizes H (p :: allocations)
  end.

Fixpoint selftest_free (allocations : list Z) (H : heap) : outcome heap :=
  match allocations with
  | [] => Ret H
  | p :: allocations => '(H, _) ← free H p; selftest_free allocations H
  end.

(** [allocations] is built last first, the order in which the blocks are freed. *)
Definition palloc_heap_alignment_selftest (H : heap) : outcome heap :=
  '(allocations, H) ← selftest_malloc [1; 3; 7; 15; 17; 31; 33; 127] H [];
  selftest_free allocations H.
End heap.
Arguments heap St : clear implicits.

(** ** Bitmaps *)

Definition bit (bm : list Z) (k : Z) : bool :=
  match bm !! Z.to_nat (k / 8) with Some b => Z.testbit b (7 - k mod 8) | None => false end.

Definition HEAP_BLOCKS : Z := BITMAP_SIZE * 8.

Lemma mask_pow k : Z.shiftr 0x80 (k mod 8) = 2 ^ (7 - k mod 8).
Proof.
  pose proof (Z.mod_pos_bound k 8). assert (Hc : k mod 8 ∈ [0; 1; 2; 3; 4; 5; 6; 7]).
  { rewrite !elem_of_cons. lia. }
  by repeat (apply elem_of_cons in Hc as [-> | Hc]); [..|apply not_elem_of_nil in Hc].
Qed.

Lemma mask_test b k : (Z.land b (Z.shiftr 0x80 (k mod 8)) =? 0) = negb (Z.testbit b (7 - k mod 8)).
Proof.
  rewrite mask_pow. pose proof (Z.mod_pos_bound k 8). set (j := 7 - k mod 8).
  assert (0 <= j) by (unfold j; lia). destruct (Z.testbit b j) eqn:E; cbn.
  - apply Z.eqb_neq. intros Hz. assert (Ht : Z.testbit (Z.land b (2 ^ j)) j = false) by (by rewrite Hz, Z.bits_0).
    by rewrite Z.land_spec, E, Z.pow2_bits_true in Ht.
  - apply Z.eqb_eq, Z.bits_inj'. intros i Hi. rewrite Z.land_spec, Z.bits_0, Z.pow2_bits_eqb by lia.
    destruct (Z.eqb_spec j i) as [<-|]; [by rewrite E|by rewrite andb_false_r].
Qed.

(** Updating one byte changes the bits as the byte's bits change. *)
Lemma bit_insert bm k b v (c : bool) i :
  0 <= k -> 0 <= i -> bm !! Z.to_nat (k / 8) = Some b ->
  (forall j, 0 <= j -> Z.testbit v j = if j =? 7 - k mod 8 then c else Z.testbit b j) ->
  bit (<[Z.to_nat (k / 8) := v]> bm) i = if i =? k then c else bit bm i.
Proof.
  intros Hk Hi Hb Hv. unfold bit. pose proof (Z.mod_pos_bound i 8).
  destruct (decide (Z.to_nat (i / 8) = Z.to_nat (k / 8))) as [He|He].
  - rewrite He, list_lookup_insert_eq, Hb by (by eapply lookup_lt_Some). rewrite Hv by lia.
    apply Z2Nat.inj in He; [|by apply Z.div_pos..].
    destruct (Z.eqb_spec i k) as [->|Hik]; [by rewrite Z.eqb_refl|].
    rewrite (proj2 (Z.eqb_neq _ _)); [done|]. intros ?. apply Hik. Z.div_mod_to_equations. lia.
  - rewrite list_lookup_insert_ne by done. destruct (Z.eqb_spec i k) as [->|]; [done|done].
Qed.

Lemma byte_lookup (bm : list Z) k : Z.of_nat (length bm) = BITMAP_SIZE -> 0 <= k < HEAP_BLOCKS ->
  exists b, bm !! Z.to_nat (k / 8) = Some b.
Proof.
  intros Hl Hk. apply lookup_lt_is_Some_2. unfold HEAP_BLOCKS in *.
  assert (0 <= k / 8 < BITMAP_SIZE) by (Z.div_mod_to_equations; lia). lia.
Qed.

Lemma set_bits_spec n bm k :
  Z.of_nat (length bm) = BITMAP_SIZE -> 0 <= k -> k + Z.of_nat n <= HEAP_BLOCKS ->
  exists bm', set_bits n bm k = Ret bm' /\ length bm' = length bm /\
    forall i, 0 <= i -> bit bm' i = bit bm i || bool_decide (k <= i < k + Z.of_nat n).
Proof.
  revert bm k; induction n as [|n IH]; intros bm k Hl Hk Hn; cbn [set_bits].
  { exists bm. split; [done|]. split; [done|]. intros i Hi. rewrite bool_decide_eq_false_2 by lia.
    by rewrite orb_false_r. }
  destruct (byte_lookup bm k) as [b Hb]; [done|lia|]. rewrite (rd_Ret _ _ _ Hb), ret_bind.
  rewrite wr_Ret, ret_bind, mask_pow by (by eapply lookup_lt_Some).
  set (bm1 := <[_ := _]> bm). destruct (IH bm1 (k + 1)) as (bm' & -> & Hl' & Hbit).
  { unfold bm1. by rewrite length_insert. } { lia. } { lia. }
  exists bm'. split; [done|]. split; [unfold bm1 in *; by rewrite Hl', length_insert|].
  intros i Hi. rewrite Hbit by done. unfold bm1.
  rewrite (bit_insert _ _ _ _ true i Hk Hi Hb).
  - destruct (Z.eqb_spec i k) as [->|]; [by rewrite (bool_decide_eq_true_2 (k <= k < _)), orb_true_r by lia|].
    f_equal. apply bool_decide_ext. lia.
  - intros j Hj. pose proof (Z.mod_pos_bound k 8). rewrite Z.lor_spec, Z.pow2_bits_eqb, Z.eqb_sym by lia.
    destruct (j =? _); [apply orb_true_r|apply orb_false_r].
Qed.

Lemma clear_bits_spec n bm k :
  Z.of_nat (length bm) = BITMAP_SIZE -> 0 <= k -> k + Z.of_nat n <= HEAP_BLOCKS ->
  exists bm', clear_bits n bm k = Ret bm' /\ length bm' = length bm /\
    forall i, 0 <= i -> bit bm' i = bit bm i && negb (bool_decide (k <= i < k + Z.of_nat n)).
Proof.
  revert bm k; induction n as [|n IH]; intros bm k Hl Hk Hn; cbn [clear_bits].
  { exists bm. split; [done|]. split; [done|]. intros i Hi. rewrite bool_decide_eq_false_2 by lia.
    by rewrite andb_true_r. }
  destruct (byte_lookup bm k) as [b Hb]; [done|lia|]. rewrite (rd_Ret _ _ _ Hb), ret_bind.
  rewrite wr_Ret, ret_bind, mask_pow by (by eapply lookup_lt_Some).
  set (bm1 := <[_ := _]> bm). destruct (IH bm1 (k + 1)) as (bm' & -> & Hl' & Hbit).
  { unfold bm1. by rewrite length_insert. } { lia. } { lia. }
  exists bm'. split; [done|]. split; [unfold bm1 in *; by rewrite Hl', length_insert|].
  intros i Hi. rewrite Hbit by done. unfold bm1.
  rewrite (bit_insert _ _ _ _ false i Hk Hi Hb).
  - destruct (Z.eqb_spec i k) as [->|]; [by rewrite (bool_decide_eq_true_2 (k <= k < _)), andb_false_r by lia|].
    f_equal. f_equal. apply bool_decide_ext. lia.
  - intros j Hj. pose proof (Z.mod_pos_bound k 8).
    rewrite Z.land_spec, Z.lnot_spec, Z.pow2_bits_eqb, Z.eqb_sym by lia.
    destruct (j =? _); [apply andb_false_r|apply andb_true_r].
Qed.

(** ** First fit *)

Definition clear_run (bm : list Z) (s n : Z) : Prop := forall i, s <= i < s + n -> bit bm i = false.

(** A place for [n] blocks. *)
Definition room (bm : list Z) (n s : Z) : Prop :=
  0 <= s /\ s mod MALLOC_ALIGNMENT = 0 /\ s + n <= HEAP_BLOCKS /\ clear_run bm s n.

(** The state of the scan: the current run, and no earlier place. *)
Record scanning (bm : list Z) (n offset count start : Z) : Prop := {
  sc_count : 0 <= count < n;
  sc_run : 0 < count -> start + count = offset /\ 0 <= start /\ start mod MALLOC_ALIGNMENT = 0 /\
             clear_run bm start count;
  sc_first : forall s, room bm n s -> (if count =? 0 then offset else start) <= s }.

Lemma scanning_skip bm n offset start :
  scanning bm n offset 0 start -> offset mod MALLOC_ALIGNMENT <> 0 -> scanning bm n (offset + 1) 0 start.
Proof.
  intros [Hc Hr Hf] Ho. split; [done|lia|]. intros s Hs. specialize (Hf s Hs). rewrite Z.eqb_refl in *.
  destruct Hs as (_ & Hs & _). destruct (decide (s = offset)) as [->|]; [done|lia].
Qed.

Lemma scanning_used bm n offset count start :
  scanning bm n offset count start -> 0 < n -> bit bm offset = true -> scanning bm n (offset + 1) 0 0.
Proof.
  intros [Hc Hr Hf] Hn Hb. split; [lia|lia|]. intros s Hs. specialize (Hf s Hs). rewrite Z.eqb_refl.
  destruct (decide (s <= offset)); [|lia]. exfalso.
  destruct Hs as (_ & _ & _ & Hclear). rewrite (Hclear offset) in Hb; [done|].
  destruct (Z.eqb_spec count 0); lia.
Qed.

Lemma scanning_clear bm n offset count start :
  scanning bm n offset count start -> 0 <= offset -> bit bm offset = false ->
  (count = 0 -> offset mod MALLOC_ALIGNMENT = 0) -> count + 1 < n ->
  scanning bm n (offset + 1) (count + 1) (if count =? 0 then offset else start).
Proof.
  intros [Hc Hr Hf] Ho Hb Hal Hn. split; [lia| |].
  - intros _. destruct (Z.eqb_spec count 0) as [->|].
    + split_and!; [lia|done|by apply Hal|]. intros i Hi. by replace i with offset by lia.
    + destruct Hr as (Hso & ? & ? & Hrun); [lia|]. split_and!; [lia|done|done|].
      intros i Hi. destruct (decide (i = offset)) as [->|]; [done|]. apply Hrun. lia.
  - intros s Hs. specialize (Hf s Hs). rewrite (proj2 (Z.eqb_neq _ _)); [done|lia].
Qed.

Lemma malloc_scan_spec rest bm offset count start n :
  Z.of_nat (length bm) = BITMAP_SIZE -> offset + Z.of_nat rest = HEAP_BLOCKS -> 0 <= offset ->
  0 < n < 2 ^ 64 -> scanning bm n offset count start ->
  exists r, malloc_scan rest bm offset count start n = Ret r /\
    match r with Some s => room bm n s /\ forall s', room bm n s' -> s <= s' | None => forall s, ~ room bm n s end.
Proof.
  intros Hl. revert offset count start; induction rest as [|rest IH]; intros offset count start Ho Hpos Hn Hsc;
    cbn [malloc_scan].
  { exists None. split; [done|]. intros s Hs. pose proof (sc_first _ _ _ _ _ Hsc s Hs).
    destruct Hs as (? & _ & ? & _). destruct (Z.eqb_spec count 0); [lia|].
    destruct (sc_run _ _ _ _ _ Hsc) as [? _]; pose proof (sc_count _ _ _ _ _ Hsc); lia. }
  destruct (byte_lookup bm offset) as [b Hb]; [done|lia|]. rewrite (rd_Ret _ _ _ Hb), ret_bind, mask_test.
  assert (Hbit : bit bm offset = Z.testbit b (7 - offset mod 8)) by (unfold bit; by rewrite Hb).
  pose proof (sc_count _ _ _ _ _ Hsc) as Hcn.
  destruct (Z.testbit b _) eqn:Et; cbn [negb].
  { apply IH; [lia..|]. eapply scanning_used; [done|lia|done]. }
  destruct ((count =? 0) && truth (offset mod MALLOC_ALIGNMENT)) eqn:Eskip.
  { bool_to_prop. subst count. apply IH; [lia..|]. eapply scanning_skip; [done|].
    unfold truth in *. by bool_to_prop. }
  assert (Hal : count = 0 -> offset mod MALLOC_ALIGNMENT = 0).
  { intros ->. apply truth_false. by rewrite Z.eqb_refl in Eskip. }
  rewrite (wrap64_id (count + 1)) by (unfold is_u64; lia). cbn zeta.
  destruct (Z.eqb_spec (count + 1) n) as [He|He].
  - eexists; split; [reflexivity|]. cbn zeta. split; [|apply Hsc].
    destruct (Z.eqb_spec count 0) as [Hc0|Hc0].
    + split_and!; [done|by apply Hal|lia|]. intros i Hi. by replace i with offset by lia.
    + destruct (sc_run _ _ _ _ _ Hsc) as (Hso & ? & ? & Hrun); [lia|]. split_and!; [done..|lia|].
      intros i Hi. destruct (decide (i = offset)) as [->|]; [done|]. apply Hrun. lia.
  - apply IH; [lia..|]. apply scanning_clear; [done..|lia].
Qed.
