(* ===== verification/HeapCorrect.v ===== *)
(** * Correctness of the kernel heap

    The invariant relates every heap page to the list of blocks carved out of
    it; [malloc], [calloc] and [free] of kernel/palloc.c are specified by the set
    of live allocations. *)
From S2P Require Import Prelude MemRange Buddy BuddyBlocks BuddyCorrect BuddyOps PageAlloc Heap.

(** ** One page *)

Fixpoint blocks_sum (bl : list (Z * Z)) : Z :=
  match bl with [] => 0 | b :: bl => b.2 + blocks_sum bl end.

Definition block_ok (s n : Z) : Prop :=
  0 <= s /\ s mod MALLOC_ALIGNMENT = 0 /\ INFO_BLOCK < n /\ s + n <= HEAP_BLOCKS.

Definition block_apart (b c : Z * Z) : Prop := b.1 + b.2 <= c.1 \/ c.1 + c.2 <= b.1.

(** The bits of a page mark the blocks [bl], each a header and its payload. *)
Record page_ok (pg : page) (bl : list (Z * Z)) : Prop := {
  po_bitmap : Z.of_nat (length (bitmap pg)) = BITMAP_SIZE;
  po_bits : forall k, 0 <= k < HEAP_BLOCKS ->
    bit (bitmap pg) k = true <-> exists s n, (s, n) ∈ bl /\ s <= k < s + n;
  po_blocks : forall s n, (s, n) ∈ bl -> block_ok s n;
  po_nodup : NoDup bl;
  po_disj : forall b c, b ∈ bl -> c ∈ bl -> b = c \/ block_apart b c;
  po_used : used pg = blocks_sum bl }.

Lemma blocks_sum_perm bl bl' : bl ≡ₚ bl' -> blocks_sum bl = blocks_sum bl'.
Proof. induction 1; cbn [blocks_sum]; lia. Qed.

Lemma blocks_sum_bound bl :
  (forall s n, (s, n) ∈ bl -> block_ok s n) -> NoDup (bl.*1) -> 0 <= blocks_sum bl <= HEAP_BLOCKS * HEAP_BLOCKS.
Proof.
  intros Hok Hnd.
  assert (Hlen : (length bl <= Z.to_nat HEAP_BLOCKS)%nat).
  { rewrite <-(length_fmap fst), <-(length_seqZ 0 HEAP_BLOCKS).
    apply submseteq_length, NoDup_submseteq; [done|]. intros s Hs.
    apply list_elem_of_fmap in Hs as ([s' n] & -> & Hb). apply elem_of_seqZ.
    destruct (Hok _ _ Hb) as (? & _ & ? & ?). unfold INFO_BLOCK in *. cbn. lia. }
  assert (Hsum : 0 <= blocks_sum bl <= HEAP_BLOCKS * Z.of_nat (length bl)).
  { clear Hnd Hlen. induction bl as [|[s n] bl IH]; cbn [blocks_sum length]; [lia|].
    destruct (Hok s n) as (? & _ & ? & ?); [set_solver|]. unfold INFO_BLOCK in *.
    assert (0 <= blocks_sum bl <= HEAP_BLOCKS * Z.of_nat (length bl)) by (apply IH; set_solver). cbn. lia. }
  unfold HEAP_BLOCKS, BITMAP_SIZE, PAGE_BLOCK in *. change ((4096 - 512) / 8 * 8) with 3584 in *. lia.
Qed.

Lemma page_starts pg bl : page_ok pg bl -> NoDup (bl.*1).
Proof.
  intros Hok. apply NoDup_fmap_2_strong; [|apply Hok]. intros [s n] [s' m] Hb Hc Hs. cbn in Hs. subst s'.
  destruct (po_disj _ _ Hok _ _ Hb Hc) as [|Hap]; [done|]. exfalso.
  apply (po_blocks _ _ Hok) in Hb as (_ & _ & ? & _). apply (po_blocks _ _ Hok) in Hc as (_ & _ & ? & _).
  unfold block_apart, INFO_BLOCK in *. cbn in *. lia.
Qed.

Lemma page_used_zero pg bl : page_ok pg bl -> used pg = 0 <-> bl = [].
Proof.
  intros Hok. rewrite (po_used _ _ Hok). split; [|by intros ->]. destruct bl as [|[s n] bl]; [done|].
  assert (Hb := po_blocks _ _ Hok s n ltac:(set_solver)). destruct Hb as (_ & _ & ? & _).
  pose proof (page_starts _ _ Hok) as Hnd. apply NoDup_cons in Hnd as [_ Hnd].
  pose proof (blocks_sum_bound bl) as Hsum. cbn [blocks_sum snd]. unfold INFO_BLOCK in *.
  assert (0 <= blocks_sum bl); [|lia]. apply Hsum; [|done].
  intros s' n' ?. apply (po_blocks _ _ Hok). set_solver.
Qed.

Lemma page_used_bound pg bl : page_ok pg bl -> 0 <= used pg <= HEAP_BLOCKS * HEAP_BLOCKS.
Proof.
  intros Hok. rewrite (po_used _ _ Hok). apply blocks_sum_bound; [apply Hok|by eapply page_starts].
Qed.

(** Taking a place found by the scan. *)
Lemma page_take pg bl s n bm nx :
  page_ok pg bl -> room (bitmap pg) n s -> INFO_BLOCK < n ->
  length bm = length (bitmap pg) ->
  (forall i, 0 <= i -> bit bm i = bit (bitmap pg) i || bool_decide (s <= i < s + n)) ->
  page_ok (MkPage (used pg + n) bm nx) ((s, n) :: bl).
Proof.
  intros Hok (Hs & Hal & Hfit & Hclear) Hn Hl Hbit.
  assert (Hap : forall c, c ∈ bl -> block_apart (s, n) c).
  { intros [s' m] Hc. pose proof (po_blocks _ _ Hok _ _ Hc) as (? & _ & ? & ?). unfold block_apart, INFO_BLOCK in *.
    cbn. destruct (decide (s + n <= s')); [by left|]. destruct (decide (s' + m <= s)); [by right|]. exfalso.
    assert (Hb : bit (bitmap pg) (Z.max s s') = true).
    { apply (po_bits _ _ Hok); [lia|]. exists s', m. split; [done|lia]. }
    rewrite Hclear in Hb by lia. done. }
  assert (Hself : ~ block_apart (s, n) (s, n)) by (unfold block_apart, INFO_BLOCK in *; cbn; lia).
  split; cbn.
  - rewrite Hl. apply Hok.
  - intros k Hk. rewrite Hbit, orb_true_iff, bool_decide_eq_true by lia. rewrite (po_bits _ _ Hok) by done.
    split.
    + intros [(s' & m & ? & ?)|?]; [exists s', m|exists s, n]; (split; [set_solver|lia]).
    + intros (s' & m & [[= -> ->]|?]%elem_of_cons & ?); [by right|left; eauto].
  - intros s' m [[= -> ->]|?]%elem_of_cons; [split_and!; done|by apply (po_blocks _ _ Hok)].
  - apply NoDup_cons. split; [|apply Hok]. intros Hin. by apply Hself, Hap.
  - intros b c [->|Hb]%elem_of_cons [->|Hc]%elem_of_cons; [by left|right; by apply Hap| |by apply Hok].
    right. specialize (Hap _ Hb). unfold block_apart in *. lia.
  - rewrite (po_used _ _ Hok). lia.
Qed.

(** Giving a block back. *)
Lemma page_give pg bl bl' s n bm nx :
  page_ok pg bl -> bl ≡ₚ (s, n) :: bl' -> length bm = length (bitmap pg) ->
  (forall i, 0 <= i -> bit bm i = bit (bitmap pg) i && negb (bool_decide (s <= i < s + n))) ->
  page_ok (MkPage (used pg - n) bm nx) bl'.
Proof.
  intros Hok Hp Hl Hbit. assert (Hin : (s, n) ∈ bl) by (rewrite Hp; set_solver).
  assert (Hsub : forall b, b ∈ bl' -> b ∈ bl) by (intros b ?; rewrite Hp; set_solver).
  pose proof (po_nodup _ _ Hok) as Hnd. rewrite Hp in Hnd. apply NoDup_cons in Hnd as [Hni Hnd].
  split; cbn.
  - rewrite Hl. apply Hok.
  - intros k Hk. rewrite Hbit, andb_true_iff, negb_true_iff, bool_decide_eq_false by lia.
    rewrite (po_bits _ _ Hok) by done. split.
    + intros [(s' & m & Hb & ?) Hout]. exists s', m. rewrite Hp in Hb.
      apply elem_of_cons in Hb as [[= -> ->]|?]; [lia|done].
    + intros (s' & m & Hb & ?). split; [exists s', m; auto|].
      destruct (po_disj _ _ Hok (s, n) (s', m)) as [Heq|[?|?]]; [done|by apply Hsub|..]; cbn in *; try lia.
      by injection Heq as <- <-.
  - intros s' m ?. by apply (po_blocks _ _ Hok), Hsub.
  - done.
  - intros b c ? ?. apply (po_disj _ _ Hok); by apply Hsub.
  - rewrite (po_used _ _ Hok), (blocks_sum_perm _ _ Hp). cbn. lia.
Qed.

Lemma page_fresh nx : page_ok (MkPage 0 (replicate (Z.to_nat BITMAP_SIZE) 0) nx) [].
Proof.
  split; cbn [bitmap used]; [by vm_compute| |set_solver|constructor|set_solver|done].
  intros k Hk. unfold bit. split; [|intros (? & ? & ?%not_elem_of_nil & _); done].
  destruct (replicate _ _ !! _) as [b|] eqn:Hb; [|done].
  apply lookup_replicate in Hb as [-> _]. by rewrite Z.bits_0.
Qed.

Lemma ALIGN_BLOCKS_spec x : 0 <= x -> x + 15 < 2 ^ 64 ->
  x <= ALIGN_BLOCKS x < x + 16 /\ ALIGN_BLOCKS x mod MALLOC_ALIGNMENT = 0.
Proof.
  intros Hx Hu. unfold ALIGN_BLOCKS, MALLOC_ALIGNMENT in *. rewrite wrap64_sub_l. unwrap64.
  rewrite (land_lnot_ones _ 4) by lia. change (2 ^ 4) with 16. Z.div_mod_to_equations. lia.
Qed.

(** ** The pool *)

Fixpoint chain (m : gmap Z page) (a : Z) (l : list Z) : Prop :=
  match l with
  | [] => a = 0
  | b :: l => a = b /\ exists pg, m !! b = Some pg /\ chain m (next pg) l
  end.

Lemma chain_ext m m' a l :
  (forall b pg, b ∈ l -> m !! b = Some pg -> exists pg', m' !! b = Some pg' /\ next pg' = next pg) ->
  chain m a l -> chain m' a l.
Proof.
  revert a; induction l as [|b l IH]; intros a Hx; [done|]. intros (-> & pg & Hb & Hc). split; [done|].
  destruct (Hx b pg) as (pg' & ? & Hn); [set_solver|done|]. exists pg'. split; [done|]. rewrite Hn.
  apply IH; [|done]. intros c ? ?. apply Hx. set_solver.
Qed.

Lemma chain_head m a l : chain m a l -> (forall b, b ∈ l -> 0 < b) -> a = 0 <-> l = [].
Proof.
  destruct l as [|b l]; [done|]. intros (-> & _) Hpos. assert (0 < b) by (apply Hpos; set_solver).
  split; [lia|done].
Qed.

Section heap.
Context {St : Type} {HS : PageSource St} {HL : PageSourceLaws St}.
Implicit Types (H : heap St) (G : gmap Z (list (Z * Z))).

(** [G] lists the blocks of every heap page, [l] the pages in pool order. *)
Record heap_inv (H : heap St) (G : gmap Z (list (Z * Z))) (l : list Z) : Prop := {
  h_src : ps_ok (source H);
  h_chain : chain (hpages H) (pool H) l;
  h_nodup : NoDup l;
  h_dom : forall a, is_Some (hpages H !! a) <-> a ∈ l;
  h_pages : forall a pg, hpages H !! a = Some pg -> exists bl, G !! a = Some bl /\ page_ok pg bl;
  h_blocks : forall a bl, G !! a = Some bl -> a ∈ l;
  h_addr : forall a, a ∈ l -> 0 < a /\ a mod PGSIZE = 0 /\ a + PGSIZE < 2 ^ 64 /\
             ps_count (source H) a = Ret 1;
  h_infos : forall a bl s n, G !! a = Some bl -> (s, n) ∈ bl ->
    infos H !! (a + PAGE_BLOCK + s) =
      Some (MkInfo MAGIC_NUMBER (n - INFO_BLOCK) a (a + PAGE_BLOCK + s + INFO_BLOCK)) }.

(** A live allocation: its address and the number of bytes it may use. *)
Definition live G (p size : Z) : Prop :=
  exists a bl s n, G !! a = Some bl /\ (s, n) ∈ bl /\
    p = a + PAGE_BLOCK + s + INFO_BLOCK /\ size = n - INFO_BLOCK.

(** Every pool page is in use. *)
Definition tidy G : Prop := forall a bl, G !! a = Some bl -> bl <> [].

(** Free pages and pages of the pool together, and the regions they lie in:
    what the heap never changes. *)
Definition pages_held H (l : list Z) : Z * list shape :=
  (ps_free (source H) + Z.of_nat (length l), ps_regions (source H)).

Lemma page_blocks H G l a bl : heap_inv H G l -> G !! a = Some bl ->
  exists pg, hpages H !! a = Some pg /\ page_ok pg bl.
Proof.
  intros HI Ha. destruct (proj2 (h_dom _ _ _ HI a)) as [pg Hpg]; [by eapply h_blocks|].
  destruct (h_pages _ _ _ HI _ _ Hpg) as (bl' & Hbl' & Hok). exists pg. split; [done|]. congruence.
Qed.

Lemma live_block H G l a bl s n : heap_inv H G l -> G !! a = Some bl -> (s, n) ∈ bl ->
  0 < a /\ a mod PGSIZE = 0 /\ a + PGSIZE < 2 ^ 64 /\ block_ok s n.
Proof.
  intros HI Ha Hb. destruct (page_blocks _ _ _ _ _ HI Ha) as (pg & _ & Hok).
  pose proof (h_addr _ _ _ HI a) as Had. destruct Had as (? & ? & ? & _); [by eapply h_blocks|].
  split_and!; try done. all: by apply (po_blocks _ _ Hok).
Qed.

(** The heap before the first [malloc]. *)
Lemma empty_heap_ok (s : St) : ps_ok s -> heap_inv (MkHeap s ∅ ∅ 0) ∅ [].
Proof.
  intros Hs. split; cbn; [done|done|constructor| | | | |]; try set_solver.
  intros a. rewrite lookup_empty. split; [by intros []|set_solver].
Qed.

Lemma heap_size : HEAP_BLOCKS = 3584.
Proof. done. Qed.

(** Headers of different blocks are at different addresses. *)
Lemma header_inj H G l a bl s n b s' n' :
  heap_inv H G l -> G !! a = Some bl -> (s, n) ∈ bl -> 0 < b -> b mod PGSIZE = 0 -> block_ok s' n' ->
  a + PAGE_BLOCK + s = b + PAGE_BLOCK + s' -> a = b /\ s = s'.
Proof.
  intros HI Ha Hb Hpos Hal Hok He.
  destruct (live_block _ _ _ _ _ _ _ HI Ha Hb) as (? & ? & _ & ? & _ & ? & ?).
  destruct Hok as (? & _ & ? & ?). pose proof heap_size. unfold PGSIZE, PAGE_BLOCK, INFO_BLOCK in *.
  assert (a = b) by (Z.div_mod_to_equations; lia). lia.
Qed.

(** A block and its header are added to a page. *)
Definition add_block H (a : Z) (pg : page) (s n : Z) : heap St :=
  MkHeap (source H) (<[a := pg]> (hpages H))
    (<[a + PAGE_BLOCK + s := MkInfo MAGIC_NUMBER (n - INFO_BLOCK) a (a + PAGE_BLOCK + s + INFO_BLOCK)]>
       (infos H)) (pool H).

Lemma heap_take H G l a pg pg' bl s n :
  heap_inv H G l -> hpages H !! a = Some pg -> G !! a = Some bl -> next pg' = next pg ->
  page_ok pg' ((s, n) :: bl) -> heap_inv (add_block H a pg' s n) (<[a := (s, n) :: bl]> G) l.
Proof.
  intros HI Hpg Ha Hn Hok. assert (Hal : a ∈ l) by (apply (h_dom _ _ _ HI); eauto). split; cbn.
  - apply HI.
  - eapply chain_ext; [|apply HI]. intros b q _ Hb. destruct (decide (b = a)) as [->|].
    + exists pg'. rewrite lookup_insert_eq. split; [done|]. congruence.
    + exists q. by rewrite lookup_insert_ne.
  - apply HI.
  - intros b. rewrite lookup_insert. case_decide; [subst; naive_solver|apply (h_dom _ _ _ HI)].
  - intros b q. rewrite !lookup_insert. case_decide; [intros [= <-]; eauto|apply (h_pages _ _ _ HI)].
  - intros b bl'. rewrite lookup_insert. case_decide; [by subst|apply (h_blocks _ _ _ HI)].
  - apply HI.
  - assert (Hblk := po_blocks _ _ Hok s n ltac:(set_solver)).
    destruct (h_addr _ _ _ HI a Hal) as (Hpos & Halign & _).
    assert (Hin : forall b bl' s' n', G !! b = Some bl' -> (s', n') ∈ bl' -> b <> a \/ s' <> s ->
      a + PAGE_BLOCK + s <> b + PAGE_BLOCK + s').
    { intros b bl' s' n' Hb Hb' Hne Heq. symmetry in Heq.
      destruct (header_inj H G l b bl' s' n' a s n); [done..|]. tauto. }
    intros b bl' s' n'. destruct (decide (b = a)) as [->|Hba].
    + rewrite lookup_insert_eq. intros [= <-]. intros [[= -> ->]|Hb]%elem_of_cons; [by rewrite lookup_insert_eq|].
      rewrite lookup_insert_ne; [by eapply (h_infos _ _ _ HI)|].
      eapply Hin; [done..|]. right. intros ->.
      pose proof (page_starts _ _ Hok) as Hnd. apply NoDup_cons in Hnd as [Hnd _]. apply Hnd.
      cbn. by apply (list_elem_of_fmap_2 fst) in Hb.
    + rewrite lookup_insert_ne by done. intros Hb Hb'. rewrite lookup_insert_ne; [by eapply (h_infos _ _ _ HI)|].
      eapply Hin; [done..|]. by left.
Qed.

(** The lowest place is taken. *)
Definition first_fit (pg pg' : page) (s n : Z) : Prop :=
  room (bitmap pg) n s /\ (forall s', room (bitmap pg) n s' -> s <= s') /\
  forall i, 0 <= i -> bit (bitmap pg') i = bit (bitmap pg) i || bool_decide (s <= i < s + n).

Lemma malloc_core_spec H G l a pg bl n :
  heap_inv H G l -> hpages H !! a = Some pg -> G !! a = Some bl -> INFO_BLOCK < n < 2 ^ 64 ->
  (malloc_core H a n = Ret (UINT64_MAX, H) /\ forall s, ~ room (bitmap pg) n s) \/
  (exists s pg', malloc_core H a n = Ret (s + PAGE_BLOCK, set_page H a pg') /\
     next pg' = next pg /\ page_ok pg' ((s, n) :: bl) /\ first_fit pg pg' s n).
Proof.
  intros HI Hpg Ha Hn. assert (Hal : a ∈ l) by (apply (h_dom _ _ _ HI); eauto).
  destruct (h_addr _ _ _ HI a Hal) as (Hpos & _). unfold malloc_core.
  rewrite (proj2 (Z.eqb_neq _ _)), Hpg by lia. cbn [deref]. rewrite ret_bind.
  destruct (page_blocks _ _ _ _ _ HI Ha) as (pg0 & Hpg0 & Hok). rewrite Hpg in Hpg0. injection Hpg0 as <-.
  pose proof heap_size. pose proof (page_used_bound _ _ Hok). unfold INFO_BLOCK in *.
  destruct (malloc_scan_spec (Z.to_nat HEAP_BLOCKS) (bitmap pg) 0 0 0 n) as (r & Hr & Hroom);
    [apply Hok|lia|lia|lia| |].
  { split; [lia|lia|]. intros s (? & _). by rewrite Z.eqb_refl. }
  unfold HEAP_BLOCKS in Hr. rewrite Hr, ret_bind. destruct r as [s|]; [right|by left].
  destruct Hroom as [(Hs & ? & Hfit & Hclear) Hmin].
  destruct (set_bits_spec (Z.to_nat n) (bitmap pg) s) as (bm & -> & Hl & Hbit); [apply Hok|lia|lia|].
  rewrite ret_bind. rewrite Z2Nat.id in Hbit by lia. unfold PAGE_BLOCK. unwrap64.
  eexists s, _. split; [reflexivity|]. split; [done|].
  split; [apply page_take; [done|by split_and!|unfold INFO_BLOCK; lia|done..]|].
  split; [by split_and!|by split].
Qed.

Lemma malloc_page_spec H G l :
  heap_inv H G l ->
  (malloc_page H = Ret (0, H) /\ ps_free (source H) = 0) \/
  (exists a H' nx, malloc_page H = Ret (a, H') /\
     hpages H' !! a = Some (MkPage 0 (replicate (Z.to_nat BITMAP_SIZE) 0) nx) /\
     pool H' = a /\ G !! a = None /\ pages_held H' (a :: l) = pages_held H l /\
     heap_inv H' (<[a := []]> G) (a :: l)).
Proof.
  intros HI. unfold malloc_page.
  destruct (ps_alloc_ok (source H) (h_src _ _ _ HI)) as (a & s' & He & Hok & Hcase). rewrite He, ret_bind.
  destruct Hcase as [(-> & -> & Hnone)|(Hpos & Hal & Hub & Hzero & Hfree & Hregs & Hcount)].
  { left. rewrite Z.eqb_refl. by destruct H. }
  right. rewrite (proj2 (Z.eqb_neq _ _)) by lia.
  assert (Hnl : a ∉ l).
  { intros Hin. destruct (h_addr _ _ _ HI a Hin) as (_ & _ & _ & ?). congruence. }
  assert (HG : G !! a = None).
  { destruct (G !! a) as [bl|] eqn:E; [|done]. by apply (h_blocks _ _ _ HI) in E. }
  eexists a, _, _. split; [reflexivity|]. cbn [hpages pool]. rewrite lookup_insert_eq. split; [done|]. split; [done|].
  split; [done|]. split; [unfold pages_held; cbn [source length]; f_equal; [lia|done]|].
  split; cbn [hpages pool source infos].
  - done.
  - split; [done|]. eexists. rewrite lookup_insert_eq. split; [done|]. cbn [next].
    eapply chain_ext; [|apply HI]. intros b q Hb Hq. exists q. rewrite lookup_insert_ne by set_solver. done.
  - constructor; [done|apply HI].
  - intros b. rewrite lookup_insert, elem_of_cons. case_decide as Hab; [naive_solver|].
    rewrite (h_dom _ _ _ HI). naive_solver.
  - intros b q. rewrite !lookup_insert. case_decide; [|apply (h_pages _ _ _ HI)].
    intros [= <-]. exists []. split; [done|]. apply page_fresh.
  - intros b bl. rewrite lookup_insert. case_decide; [set_solver|]. intros Hb%(h_blocks _ _ _ HI). set_solver.
  - intros b [->|Hb]%elem_of_cons; rewrite Hcount; [by rewrite decide_True|].
    rewrite decide_False by (by intros ->). by apply (h_addr _ _ _ HI).
  - intros b bl s n. rewrite lookup_insert. case_decide; [intros [= <-] ?%not_elem_of_nil; done|].
    apply (h_infos _ _ _ HI).
Qed.

(** ** Live allocations *)

Lemma live_insert G a bl s n q k :
  G !! a = Some bl ->
  live (<[a := (s, n) :: bl]> G) q k <->
  (q = a + PAGE_BLOCK + s + INFO_BLOCK /\ k = n - INFO_BLOCK) \/ live G q k.
Proof.
  intros Ha. unfold live. split.
  - intros (b & bl' & s' & n' & Hb & Hin & -> & ->). rewrite lookup_insert in Hb. case_decide.
    + injection Hb as <-. subst b. apply elem_of_cons in Hin as [[= -> ->]|Hin]; [by left|].
      right. by exists a, bl, s', n'.
    + right. by exists b, bl', s', n'.
  - intros [[-> ->]|(b & bl' & s' & n' & Hb & Hin & -> & ->)].
    + exists a, ((s, n) :: bl), s, n. rewrite lookup_insert_eq. split_and!; [done|set_solver|done..].
    + destruct (decide (b = a)) as [->|].
      * exists a, ((s, n) :: bl), s', n'. rewrite lookup_insert_eq. split_and!; [done|set_solver|done..].
      * exists b, bl', s', n'. by rewrite lookup_insert_ne.
Qed.

Lemma live_new_page G a q k : G !! a = None -> live (<[a := []]> G) q k <-> live G q k.
Proof.
  intros Ha. unfold live. split; intros (b & bl & s & n & Hb & Hin & ?).
  - rewrite lookup_insert in Hb. case_decide; [injection Hb as <-; by apply not_elem_of_nil in Hin|].
    by exists b, bl, s, n.
  - exists b, bl, s, n. rewrite lookup_insert_ne by congruence. done.
Qed.

(** Allocations do not overlap, headers included, and are aligned. *)
Lemma live_apart H G l p m q k :
  heap_inv H G l -> live G p m -> live G q k ->
  p = q /\ m = k \/ p + m <= q - INFO_BLOCK \/ q + k <= p - INFO_BLOCK.
Proof.
  intros HI (a & bl & s & n & Ha & Hin & -> & ->) (b & bl' & s' & n' & Hb & Hin' & -> & ->).
  destruct (live_block _ _ _ _ _ _ _ HI Ha Hin) as (? & ? & _ & ? & _ & ? & ?).
  destruct (live_block _ _ _ _ _ _ _ HI Hb Hin') as (? & ? & _ & ? & _ & ? & ?).
  pose proof heap_size. destruct (decide (a = b)) as [->|Hne].
  - rewrite Ha in Hb. injection Hb as <-. destruct (page_blocks _ _ _ _ _ HI Ha) as (pg & _ & Hok).
    destruct (po_disj _ _ Hok _ _ Hin Hin') as [[= <- <-]|[?|?]]; [by left|right..]; cbn in *; lia.
  - right. unfold PGSIZE, PAGE_BLOCK, INFO_BLOCK in *. Z.div_mod_to_equations. lia.
Qed.

Lemma live_range H G l p m : heap_inv H G l -> live G p m ->
  0 < p /\ p + m < 2 ^ 64 /\ p mod MALLOC_ALIGNMENT = 0.
Proof.
  intros HI (a & bl & s & n & Ha & Hin & -> & ->).
  destruct (live_block _ _ _ _ _ _ _ HI Ha Hin) as (? & ? & ? & ? & Hm & ? & ?).
  pose proof heap_size. unfold PGSIZE, PAGE_BLOCK, INFO_BLOCK, MALLOC_ALIGNMENT in *.
  Z.div_mod_to_equations. lia.
Qed.

(** What a successful [malloc] does. *)
Record mallocs H G l p (sz m : Z) (H' : heap St) G' l' : Prop := {
  ml_inv : heap_inv H' G' l';
  ml_pos : 0 < p;
  ml_size : sz <= m < sz + MALLOC_ALIGNMENT;
  ml_live : forall q k, live G' q k <-> (q = p /\ k = m) \/ live G q k;
  ml_new : forall q k, live G q k -> q <> p;
  ml_tidy : tidy G -> tidy G';
  ml_held : pages_held H' l' = pages_held H l }.

Lemma mallocs_intro H G l a pg pg' bl s n sz :
  heap_inv H G l -> hpages H !! a = Some pg -> G !! a = Some bl -> next pg' = next pg ->
  page_ok pg' ((s, n) :: bl) -> sz + INFO_BLOCK <= n < sz + INFO_BLOCK + MALLOC_ALIGNMENT ->
  mallocs H G l (a + PAGE_BLOCK + s + INFO_BLOCK) sz (n - INFO_BLOCK) (add_block H a pg' s n)
    (<[a := (s, n) :: bl]> G) l.
Proof.
  intros HI Hpg Ha Hn Hok Hsz. pose proof (heap_take _ _ _ _ _ _ _ _ _ HI Hpg Ha Hn Hok) as HI'.
  assert (Hl : live (<[a := (s, n) :: bl]> G) (a + PAGE_BLOCK + s + INFO_BLOCK) (n - INFO_BLOCK))
    by (apply live_insert; auto).
  split; [done|by eapply live_range|lia|intros; by apply live_insert| | |done]; cycle 1.
  { intros Ht b c. rewrite lookup_insert. case_decide; [by intros [= <-]|apply Ht]. }
  intros q k (b & bl' & s' & n' & Hb & Hin & -> & _) Heq.
  destruct (h_addr _ _ _ HI a) as (? & ? & _); [apply (h_dom _ _ _ HI); eauto|].
  destruct (header_inj H G l b bl' s' n' a s n) as [-> ->]; try done.
  { apply (po_blocks _ _ Hok). set_solver. } { lia. }
  rewrite Ha in Hb. injection Hb as <-. pose proof (page_starts _ _ Hok) as Hnd.
  apply NoDup_cons in Hnd as [Hnd _]. apply Hnd. by apply (list_elem_of_fmap_2 fst) in Hin.
Qed.

Lemma fresh_room n : 0 <= n <= HEAP_BLOCKS -> room (replicate (Z.to_nat BITMAP_SIZE) 0) n 0.
Proof.
  intros Hn. split_and!; [done|done|lia|]. intros i _. unfold bit.
  destruct (replicate _ _ !! _) as [b|] eqn:Hb; [|done].
  apply lookup_replicate in Hb as [-> _]. apply Z.bits_0.
Qed.

(** The first attempt, on the head of the pool. *)
Lemma malloc_first H G l n :
  heap_inv H G l -> INFO_BLOCK < n < 2 ^ 64 ->
  malloc_core H (pool H) n = Ret (UINT64_MAX, H) \/
  (exists pg bl s pg', hpages H !! pool H = Some pg /\ G !! pool H = Some bl /\
     malloc_core H (pool H) n = Ret (s + PAGE_BLOCK, set_page H (pool H) pg') /\
     next pg' = next pg /\ page_ok pg' ((s, n) :: bl)).
Proof.
  intros HI Hn. destruct l as [|a l].
  { left. unfold malloc_core. by rewrite (h_chain _ _ _ HI). }
  destruct (h_chain _ _ _ HI) as (Hpool & pg & Hpg & _). rewrite <-Hpool in Hpg.
  destruct (h_pages _ _ _ HI _ _ Hpg) as (bl & Hbl & _).
  destruct (malloc_core_spec _ _ _ _ _ _ n HI Hpg Hbl Hn) as [[He _]|(s & pg' & ? & ? & ? & _)]; [by left|].
  right. by exists pg, bl, s, pg'.
Qed.

(** The end of [malloc], once a place has been taken. *)
Lemma malloc_finish H G l H1 G1 l1 a pg pg' bl s n sz :
  heap_inv H1 G1 l1 -> hpages H1 !! a = Some pg -> G1 !! a = Some bl -> next pg' = next pg ->
  page_ok pg' ((s, n) :: bl) -> sz + INFO_BLOCK <= n < sz + INFO_BLOCK + MALLOC_ALIGNMENT ->
  (forall q k, live G1 q k <-> live G q k) -> pages_held H1 l1 = pages_held H l ->
  (tidy G -> tidy (<[a := (s, n) :: bl]> G1)) ->
  exists p, (if s + PAGE_BLOCK =? UINT64_MAX then Ret (0, set_page H1 a pg') else
     Ret ((s + PAGE_BLOCK) +64 a +64 INFO_BLOCK,
      MkHeap (source H1) (hpages (set_page H1 a pg'))
        (<[(s + PAGE_BLOCK) +64 a := MkInfo MAGIC_NUMBER (n -64 INFO_BLOCK) a
             ((s + PAGE_BLOCK) +64 a +64 INFO_BLOCK)]> (infos H1)) (pool H1))) =
     Ret (p, add_block H1 a pg' s n) /\
    mallocs H G l p sz (n - INFO_BLOCK) (add_block H1 a pg' s n) (<[a := (s, n) :: bl]> G1) l1.
Proof.
  intros HI1 Hpg Ha Hnx Hpok Hsz Hlive Hheld Htidy. pose proof heap_size.
  pose proof (mallocs_intro _ _ _ _ _ _ _ _ _ sz HI1 Hpg Ha Hnx Hpok Hsz) as Hm.
  destruct (po_blocks _ _ Hpok s n) as (? & _ & ? & ?); [set_solver|].
  destruct (h_addr _ _ _ HI1 a) as (? & _ & ? & _); [apply (h_dom _ _ _ HI1); eauto|].
  unfold add_block in *. unfold INFO_BLOCK, PAGE_BLOCK, PGSIZE, MALLOC_ALIGNMENT in *.
  rewrite (proj2 (Z.eqb_neq (s + 512) _)) by (unfold UINT64_MAX; lia). unwrap64.
  replace (s + 512 + a) with (a + 512 + s) by lia.
  eexists. split; [reflexivity|]. destruct Hm as [Hi Hp Hs Hl Hnew _ Hh].
  split; [done..| | |done|by rewrite <-Hheld]; intros q k; [by rewrite Hl, Hlive|].
  rewrite <-Hlive. apply Hnew.
Qed.

Lemma malloc_spec H G l sz :
  heap_inv H G l -> 0 < sz < 2 ^ 64 ->
  exists p H', malloc H sz = Ret (p, H') /\
    ((p = 0 /\ (exists G' l', heap_inv H' G' l' /\ (forall q k, live G' q k <-> live G q k) /\
                  pages_held H' l' = pages_held H l) /\
      (HEAP_BLOCKS < sz + INFO_BLOCK \/ ps_free (source H) = 0)) \/
     (exists m G' l', mallocs H G l p sz m H' G' l')).
Proof.
  intros HI Hsz. unfold malloc. rewrite (proj2 (Z.eqb_neq sz 0)) by lia. pose proof heap_size as Hsize.
  destruct (Z.ltb_spec (UINT64_MAX - INFO_BLOCK - (MALLOC_ALIGNMENT - 1)) sz) as [Hbig|Hok].
  { exists 0, H. split; [done|]. left. split; [done|]. split; [by exists G, l|]. left.
    unfold UINT64_MAX, INFO_BLOCK, MALLOC_ALIGNMENT in *. lia. }
  unfold UINT64_MAX, INFO_BLOCK, MALLOC_ALIGNMENT in Hok.
  destruct (ALIGN_BLOCKS_spec (sz + INFO_BLOCK)) as [Hn Hn16]; [unfold INFO_BLOCK; lia..|].
  set (n := ALIGN_BLOCKS _) in *. cbn zeta.
  assert (Hn' : INFO_BLOCK < n < 2 ^ 64) by (unfold INFO_BLOCK in *; lia).
  assert (Hfin := fun H1 G1 l1 a pg pg' bl s => malloc_finish H G l H1 G1 l1 a pg pg' bl s n sz).
  destruct (malloc_first _ _ _ _ HI Hn') as [->|(pg & bl & s & pg' & Hpg & Ha & -> & Hnx & Hpok)]; cycle 1.
  { rewrite ret_bind. destruct (Hfin H G l (pool H) pg pg' bl s) as (p & He & Hm); [done..| |].
    { intros Ht b c. rewrite lookup_insert. case_decide; [by intros [= <-]|apply Ht]. }
    eexists p, _. split; [|right; eauto]. rewrite <-He.
    destruct (po_blocks _ _ Hpok s n) as (? & _ & ? & ?); [set_solver|].
    assert ((s + PAGE_BLOCK =? UINT64_MAX) = false) as Hne
      by (apply Z.eqb_neq; unfold UINT64_MAX, PAGE_BLOCK, INFO_BLOCK in *; lia).
    by rewrite Hne, ret_bind, Hne. }
  rewrite ret_bind, Z.eqb_refl.
  destruct (malloc_page_spec _ _ _ HI) as [[-> Hnone]|(a & H1 & nx & -> & Hpg & Hpool & HGa & Hfree & HI1)].
  { rewrite ret_bind. assert (malloc_core H 0 n = Ret (UINT64_MAX, H)) as -> by done.
    rewrite !ret_bind, Z.eqb_refl. exists 0, H. split; [done|]. left.
    split; [done|]. split; [by exists G, l|by right]. }
  rewrite ret_bind.
  destruct (malloc_core_spec _ _ _ _ _ _ n HI1 Hpg (lookup_insert_eq _ _ _) Hn')
    as [[-> Hno]|(s & pg' & -> & Hnx & Hpok & _)]; rewrite !ret_bind.
  { rewrite Z.eqb_refl. exists 0, H1. split; [done|]. left. split; [done|]. split.
    - exists (<[a := []]> G), (a :: l). split; [done|]. split; [intros; by apply live_new_page|].
      done.
    - left. destruct (decide (n <= HEAP_BLOCKS)); [|unfold MALLOC_ALIGNMENT, INFO_BLOCK in *; rewrite Hsize in *; apply Z.mod_divide in Hn16 as [j Hj]; lia]. exfalso. eapply Hno, fresh_room.
      unfold INFO_BLOCK in *. lia. }
  destruct (Hfin _ _ _ a _ pg' [] s HI1 Hpg) as (p & He & Hm);
    [by rewrite lookup_insert_eq|done|done|done|intros; by apply live_new_page| | |].
  { done. }
  { intros Ht b c. rewrite insert_insert_eq, lookup_insert. case_decide; [by intros [= <-]|apply Ht]. }
  eexists p, _. split; [|right; eauto]. rewrite <-He. done.
Qed.

(** ** [free] *)

Lemma heap_give H G l a pg pg' bl bl' :
  heap_inv H G l -> hpages H !! a = Some pg -> G !! a = Some bl -> next pg' = next pg ->
  page_ok pg' bl' -> (forall b, b ∈ bl' -> b ∈ bl) ->
  heap_inv (set_page H a pg') (<[a := bl']> G) l.
Proof.
  intros HI Hpg Ha Hn Hok Hsub. assert (Hal : a ∈ l) by (apply (h_dom _ _ _ HI); eauto). split; cbn.
  - apply HI.
  - eapply chain_ext; [|apply HI]. intros b q _ Hb. destruct (decide (b = a)) as [->|].
    + exists pg'. rewrite lookup_insert_eq. split; [done|]. congruence.
    + exists q. by rewrite lookup_insert_ne.
  - apply HI.
  - intros b. rewrite lookup_insert. case_decide; [subst; naive_solver|apply (h_dom _ _ _ HI)].
  - intros b q. rewrite !lookup_insert. case_decide; [intros [= <-]; eauto|apply (h_pages _ _ _ HI)].
  - intros b c. rewrite lookup_insert. case_decide; [by subst|apply (h_blocks _ _ _ HI)].
  - apply HI.
  - intros b c s n. rewrite lookup_insert. case_decide as Hab; [|apply (h_infos _ _ _ HI)].
    intros [= <-] Hin. subst b. eapply (h_infos _ _ _ HI); [done|by apply Hsub].
Qed.

Lemma live_remove H G l a bl bl' s n q k :
  heap_inv H G l -> G !! a = Some bl -> bl ≡ₚ (s, n) :: bl' ->
  live (<[a := bl']> G) q k <-> q <> a + PAGE_BLOCK + s + INFO_BLOCK /\ live G q k.
Proof.
  intros HI Ha Hp. destruct (page_blocks _ _ _ _ _ HI Ha) as (pg & _ & Hok).
  assert (Hin : (s, n) ∈ bl) by (rewrite Hp; set_solver). pose proof (page_starts _ _ Hok) as Hnd.
  rewrite Hp in Hnd. apply NoDup_cons in Hnd as [Hns _].
  pose proof (live_block _ _ _ _ _ _ _ HI Ha Hin) as (? & ? & _ & ?). unfold live. split.
  - intros (b & c & s' & n' & Hb & Hc & -> & ->). rewrite lookup_insert in Hb. case_decide as Hab.
    + injection Hb as <-. subst b. 
      split; [|exists a, bl, s', n'; split_and!; [done|by rewrite Hp; apply elem_of_cons; right|done..]].
      intros Heq. assert (s' = s) as -> by lia. apply Hns. by apply (list_elem_of_fmap_2 fst) in Hc.
    + split; [|by exists b, c, s', n'].
      intros Heq. destruct (header_inj H G l b c s' n' a s n) as [? _]; [done..|lia|congruence].
  - intros (Hq & b & c & s' & n' & Hb & Hc & -> & ->). destruct (decide (b = a)) as [->|Hab].
    + rewrite Ha in Hb. injection Hb as <-. rewrite Hp in Hc.
      apply elem_of_cons in Hc as [[= -> ->]|Hc]; [done|].
      exists a, bl', s', n'. by rewrite lookup_insert_eq.
    + exists b, c, s', n'. by rewrite lookup_insert_ne.
Qed.

Lemma live_empty_page G a q k : G !! a = Some [] -> live (delete a G) q k <-> live G q k.
Proof.
  intros Ha. unfold live. split; intros (b & bl & s & n & Hb & Hin & ?); exists b, bl, s, n.
  - by apply lookup_delete_Some in Hb as [_ ?].
  - rewrite lookup_delete_ne; [done|]. intros ->. rewrite Ha in Hb. injection Hb as <-. by apply not_elem_of_nil in Hin.
Qed.

(** An unused page [a] leaves the pool. *)
Lemma heap_drop H G l a m' pool' l' s' :
  heap_inv H G l -> G !! a = Some [] -> l ≡ₚ a :: l' -> chain (delete a m') pool' l' ->
  (forall b, is_Some (m' !! b) <-> is_Some (hpages H !! b)) ->
  (forall b pg', m' !! b = Some pg' -> exists pg, hpages H !! b = Some pg /\
     bitmap pg' = bitmap pg /\ used pg' = used pg) ->
  ps_ok s' -> (forall b, ps_count s' b = if decide (b = a) then Ret 0 else ps_count (source H) b) ->
  heap_inv (MkHeap s' (delete a m')
              (filter (fun x => ~ (a <= x.1 < a + PGSIZE)) (infos H)) pool') (delete a G) l'.
Proof.
  intros HI Ha Hp Hc Hdom Hpg Hok Hcnt.
  pose proof (h_nodup _ _ _ HI) as Hnd. rewrite Hp in Hnd. apply NoDup_cons in Hnd as [Hna Hnd].
  assert (Hsub : forall b, b ∈ l' <-> b ∈ l /\ b <> a).
  { intros b. rewrite Hp, elem_of_cons. naive_solver. }
  assert (Hal : a ∈ l) by (by eapply (h_blocks _ _ _ HI)).
  destruct (h_addr _ _ _ HI a Hal) as (Hpos & Halign & _). split; cbn; [done..| | | | |].
  - intros b. rewrite lookup_delete, Hsub. case_decide; [subst; split; [by intros []|by intros [_ []]]|].
    rewrite Hdom, (h_dom _ _ _ HI). naive_solver.
  - intros b pg' [Hba (pg & Hb & Hbm & Hu)%Hpg]%lookup_delete_Some.
    destruct (h_pages _ _ _ HI _ _ Hb) as (bl & Hbl & Hpok). exists bl.
    rewrite lookup_delete_ne by done. split; [done|]. destruct Hpok; split; rewrite ?Hbm, ?Hu; done.
  - intros b bl [? Hb%(h_blocks _ _ _ HI)]%lookup_delete_Some. by apply Hsub.
  - intros b [Hb Hne]%Hsub. rewrite Hcnt, decide_False by done. by apply (h_addr _ _ _ HI).
  - intros b bl s n [Hba Hb]%lookup_delete_Some Hin. apply map_lookup_filter_Some_2; [by eapply (h_infos _ _ _ HI)|].
    cbn. destruct (live_block _ _ _ _ _ _ _ HI Hb Hin) as (? & ? & _ & ? & _ & ? & ?). pose proof heap_size.
    unfold PGSIZE, PAGE_BLOCK, INFO_BLOCK in *. Z.div_mod_to_equations. lia.
Qed.

(** The predecessor of [t] in the pool is found and linked to its successor. *)
Lemma unlink_page_spec fuel H a l1 b t l2 tn :
  chain (hpages H) a (l1 ++ b :: t :: l2) -> NoDup (l1 ++ b :: t :: l2) ->
  (forall c, c ∈ l1 ++ b :: t :: l2 -> 0 < c) -> (length l1 < fuel)%nat ->
  exists pb, hpages H !! b = Some pb /\
    unlink_page fuel H a t tn = Ret (true, set_page H b (MkPage (used pb) (bitmap pb) tn)).
Proof.
  revert a l1; induction fuel as [|fuel IH]; intros a l1 Hc Hnd Hpos Hf; [lia|]. cbn [unlink_page].
  destruct l1 as [|c l1].
  - destruct Hc as (-> & pb & Hb & Ht & _). exists pb. split; [done|].
    rewrite (proj2 (Z.eqb_neq _ _)), Hb by (assert (0 < b) by (apply Hpos; set_solver); lia).
    cbn [deref]. by rewrite ret_bind, Ht, Z.eqb_refl.
  - destruct Hc as (-> & pc & Hpc & Hc). cbn in Hnd. apply NoDup_cons in Hnd as [_ Hnd].
    rewrite (proj2 (Z.eqb_neq _ _)), Hpc by (assert (0 < c) by (apply Hpos; set_solver); lia).
    cbn [deref]. rewrite ret_bind, (proj2 (Z.eqb_neq _ _)).
    + apply (IH (next pc) l1); [done..| |cbn in Hf; lia]. intros d ?. apply Hpos. set_solver.
    + intros Hn. rewrite Hn in Hc. destruct l1 as [|d l1]; destruct Hc as [Hd _]; subst.
      * apply NoDup_cons in Hnd. set_solver.
      * cbn in Hnd. apply NoDup_cons in Hnd. set_solver.
Qed.

Lemma chain_unlink m a l1 b t l2 pb pt :
  chain m a (l1 ++ b :: t :: l2) -> NoDup (l1 ++ b :: t :: l2) -> m !! b = Some pb -> m !! t = Some pt ->
  chain (delete t (<[b := MkPage (used pb) (bitmap pb) (next pt)]> m)) a (l1 ++ b :: l2).
Proof.
  revert a; induction l1 as [|c l1 IH]; intros a Hc Hnd Hb Ht; cbn in *; apply NoDup_cons in Hnd as [Hni Hnd].
  - destruct Hc as (-> & pb' & Hb' & Ht' & pt' & Hpt & Hc). split; [done|]. eexists.
    rewrite lookup_delete_ne, lookup_insert_eq by set_solver. split; [done|]. cbn.
    rewrite Ht in Hpt. injection Hpt as <-. eapply chain_ext; [|done]. apply NoDup_cons in Hnd as [Hnt _].
    intros d pd Hd Hpd. exists pd. rewrite lookup_delete_ne, lookup_insert_ne by set_solver. done.
  - destruct Hc as (-> & pc & Hpc & Hc). split; [done|]. exists pc.
    rewrite lookup_delete_ne, lookup_insert_ne by set_solver. split; [done|]. by apply IH.
Qed.

Lemma pool_size H G l : heap_inv H G l -> (length l <= size (hpages H))%nat.
Proof.
  intros HI. rewrite <-size_dom, <-(size_list_to_set (C := gset Z) l) by apply HI.
  apply subseteq_size. intros a Ha%elem_of_list_to_set. by apply elem_of_dom, (h_dom _ _ _ HI).
Qed.

Lemma split_before {A} (t : A) l : t ∈ l -> (exists l2, l = t :: l2) \/ exists l1 b l2, l = l1 ++ b :: t :: l2.
Proof.
  intros (l1 & l2 & ->)%list_elem_of_split. destruct l1 as [|b l1] using rev_ind; [by left; eauto|].
  right. exists l1, b, l2. by rewrite <-app_assoc.
Qed.

(** Unlinking an unused page from the pool and returning it. *)
Lemma free_page_spec H G l a pg :
  heap_inv H G l -> hpages H !! a = Some pg -> G !! a = Some [] ->
  exists H' G' l',
    ('(found, H) ← (if negb (a =? pool H)
                    then unlink_page (S (size (hpages H))) H (pool H) a (next pg)
                    else Ret (true, MkHeap (source H) (hpages H) (infos H) (next pg)));
     if (found : bool) then s ← ps_put (source H) a; Ret (forget_page H s a) else Ret H) = Ret H' /\
    heap_inv H' G' l' /\ (forall q k, live G' q k <-> live G q k) /\
    G' = delete a G /\ pages_held H' l' = pages_held H l.
Proof.
  intros HI Hpg Ha. assert (Hal : a ∈ l) by (by eapply (h_blocks _ _ _ HI)).
  destruct (h_addr _ _ _ HI a Hal) as (Hpos & _ & _ & Hcnt).
  destruct (ps_put_ok _ _ (h_src _ _ _ HI) Hcnt) as (s' & Hput & Hok & Hfree & Hregs & Hcnt').
  assert (Hallpos : forall c, c ∈ l -> 0 < c) by (intros c ?; by apply (h_addr _ _ _ HI)).
  pose proof (h_chain _ _ _ HI) as Hch. pose proof (pool_size _ _ _ HI) as Hsz.
  pose proof (h_nodup _ _ _ HI) as Hnd.
  destruct (split_before _ _ Hal) as [[l2 ->]|(l1 & b & l2 & ->)].
  - destruct Hch as (Hpool & pg' & Hpg' & Hch). rewrite Hpg in Hpg'. injection Hpg' as <-.
    rewrite Hpool, Z.eqb_refl. cbn [negb]. rewrite ret_bind. cbn [source]. rewrite Hput, ret_bind.
    eexists _, (delete a G), l2. split; [reflexivity|].
    split; [|split; [intros; by apply live_empty_page|split; [done|]]];
      [|unfold pages_held; cbn; f_equal; [lia|done]].
    eapply (heap_drop H); try done; [|eauto].
    eapply chain_ext; [|done]. apply NoDup_cons in Hnd as [Hni _]. intros c pc Hc Hpc. exists pc.
    rewrite lookup_delete_ne by (by intros ->). done.
  - assert (Hne : a <> pool H).
    { intros He. rewrite <-He in Hch. destruct l1 as [|c l1]; destruct Hch as [Hc _]; subst c || subst b;
        apply NoDup_cons in Hnd; set_solver. }
    rewrite (proj2 (Z.eqb_neq _ _)) by done. cbn [negb].
    destruct (unlink_page_spec (S (size (hpages H))) H (pool H) l1 b a l2 (next pg)) as (pb & Hb & ->); try done.
    { rewrite length_app in Hsz. cbn in Hsz. lia. }
    rewrite ret_bind. cbn [source set_page]. rewrite Hput, ret_bind.
    eexists _, (delete a G), (l1 ++ b :: l2). split; [reflexivity|].
    split; [|split; [intros; by apply live_empty_page|split; [done|]]];
      [|unfold pages_held; rewrite !length_app; cbn [source set_page forget_page length]; f_equal; [lia|done]].
    eapply (heap_drop H); try done.
    + rewrite (Permutation_swap a b l2). symmetry. apply Permutation_middle.
    + by apply chain_unlink.
    + intros c. cbn. rewrite lookup_insert. case_decide; [subst; naive_solver|done].
    + intros c pc. cbn. rewrite lookup_insert. case_decide; [|eauto]. intros [= <-]. subst c. eauto.
Qed.

Lemma free_core_spec H G l a bl bl' s n :
  heap_inv H G l -> G !! a = Some bl -> bl ≡ₚ (s, n) :: bl' ->
  exists H' G' l', free_core H a (a + PAGE_BLOCK + s) n = Ret H' /\ heap_inv H' G' l' /\
    (forall q k, live G' q k <-> q <> a + PAGE_BLOCK + s + INFO_BLOCK /\ live G q k) /\
    (tidy G -> tidy G') /\ pages_held H' l' = pages_held H l.
Proof.
  intros HI Ha Hp. destruct (page_blocks _ _ _ _ _ HI Ha) as (pg & Hpg & Hok).
  assert (Hin : (s, n) ∈ bl) by (rewrite Hp; set_solver).
  destruct (live_block _ _ _ _ _ _ _ HI Ha Hin) as (? & ? & ? & ? & ? & ? & ?). pose proof heap_size.
  unfold free_core. rewrite Hpg. cbn [deref]. rewrite ret_bind. unfold INFO_BLOCK in *.
  rewrite wrap64_sub_l. replace (a + PAGE_BLOCK + s - a - PAGE_BLOCK) with s by lia.
  unfold PAGE_BLOCK, PGSIZE in *. rewrite (wrap64_id s) by (unfold is_u64; lia).
  destruct (clear_bits_spec (Z.to_nat n) (bitmap pg) s) as (bm & -> & Hl & Hbit); [apply Hok|lia..|].
  rewrite ret_bind. rewrite Z2Nat.id in Hbit by lia.
  pose proof (page_give _ _ _ _ _ bm (next pg) Hok Hp Hl Hbit) as Hok'.
  pose proof (page_used_bound _ _ Hok). pose proof (page_used_bound _ _ Hok') as Hu'. cbn [used] in Hu'.
  cbn [used next]. rewrite (wrap64_id (used pg - n)) by (unfold is_u64; lia). cbn zeta.
  assert (HI' : heap_inv (set_page H a (MkPage (used pg - n) bm (next pg))) (<[a := bl']> G) l).
  { eapply heap_give; [done..|]. intros b Hb. rewrite Hp. by apply elem_of_cons; right. }
  assert (Hlive : forall q k, live (<[a := bl']> G) q k <-> q <> a + 512 + s + 32 /\ live G q k).
  { intros q k. by apply (live_remove H G l a bl bl' s n q k). }
  destruct (Z.eqb_spec (used pg - n) 0) as [Hz|Hz]; cycle 1.
  { eexists _, _, _. split; [reflexivity|]. split; [exact HI'|]. split; [done|]. split; [|done].
    intros Ht b c. rewrite lookup_insert. case_decide; [|apply Ht]. intros [= <-] ->.
    by apply Hz, (page_used_zero _ _ Hok'). }
  apply (page_used_zero _ _ Hok') in Hz. subst bl'.
  destruct (free_page_spec _ _ _ a (MkPage (used pg - n) bm (next pg)) HI') as (H' & G' & l' & He & HI'' & HL' & -> & Hheld);
    [apply lookup_insert_eq..|].
  eexists H', _, l'. split; [exact He|]. split; [done|]. split; [intros q k; by rewrite HL', Hlive|].
  split; [|done]. intros Ht b c. rewrite lookup_delete, lookup_insert. case_decide; [done|apply Ht].
Qed.

Lemma free_spec H G l p m :
  heap_inv H G l -> live G p m ->
  exists H' G' l', free H p = Ret (H', false) /\ heap_inv H' G' l' /\
    (forall q k, live G' q k <-> q <> p /\ live G q k) /\
    (tidy G -> tidy G') /\ pages_held H' l' = pages_held H l.
Proof.
  intros HI Hlive. pose proof (live_range _ _ _ _ _ HI Hlive) as (? & ? & _).
  destruct Hlive as (a & bl & s & n & Ha & Hin & Hp & Hm).
  destruct (live_block _ _ _ _ _ _ _ HI Ha Hin) as (? & ? & ? & ? & ? & ? & ?). pose proof heap_size.
  unfold free. rewrite (proj2 (Z.eqb_neq p 0)) by lia.
  pose proof (h_infos _ _ _ HI _ _ _ _ Ha Hin) as Hinfo.
  assert (p -64 INFO_BLOCK = a + PAGE_BLOCK + s) as -> by (unfold INFO_BLOCK, PAGE_BLOCK in *; unwrap64; lia).
  rewrite Hinfo. cbn [deref]. rewrite ret_bind. cbn [parent addr magic i_used].
  unfold PGSIZE in *. unwrap64. rewrite <-Hp, !Z.eqb_refl. cbn [negb orb].
  rewrite (proj2 (Z.leb_gt _ _)), (proj2 (Z.ltb_ge _ _)) by (unfold PAGE_BLOCK, INFO_BLOCK in *; lia). cbn [orb].
  assert (INFO_BLOCK +64 (n - INFO_BLOCK) = n) as -> by (unfold INFO_BLOCK in *; unwrap64; lia).
  apply elem_of_Permutation in Hin as [bl' Hp'].
  destruct (free_core_spec _ _ _ _ _ _ _ _ HI Ha Hp') as (H' & G' & l' & -> & HI' & Hlv & ? & ?). rewrite ret_bind.
  exists H', G', l'. split; [done|]. split; [done|]. split; [|done]. intros q k. by rewrite Hlv, Hp.
Qed.
End heap.

(** ** The page allocator as a page source *)

#[export] Instance pages_source (poison : bool) : PageSource pages := {
  ps_alloc := palloc_zero;
  ps_put := pfree poison;
  ps_count := palloc_refcount;
  ps_free := palloc_free_pages;
  ps_regions P := shapes (page_allocator P);
  ps_byte := mem;
  ps_set P p v n := with_mem P (fill (mem P) p v n);
  ps_ok := pages_ok }.

#[export] Instance pages_source_laws poison : @PageSourceLaws pages (pages_source poison).
Proof.
  split; cbn.
  - intros P [g HP]. unfold palloc_zero.
    destruct (alloc_pages_spec P g 0 PALLOC_ZERO HP) as [[-> Hz]|(p & P' & -> & Ha)]; [by right| |].
    { exists 0, P. split; [done|]. split; [by exists g|left; auto]. }
    destruct Ha as [Hpos HP' Hsh Hf Hap Hbk Hfree _]. exists p, P'. split; [done|]. split; [by eexists|]. right.
    destruct Hf as (s & Hs & Hf). destruct (pi_buddy _ _ HP) as [B HI].
    destruct (list_elem_of_lookup_1 _ _ Hs) as [i Hi].
    pose proof (shape_ok _ _ _ _ _ _ HI Hi) as (_ & _ & ?). pose proof Hf as (_ & _ & Hal & ?).
    split; [done|]. split; [by eapply aligned_page|]. split; [change (buddy_order_size 0) with PGSIZE in *; lia|].
    rewrite (palloc_refcount_spec _ _ HP). split; [|split; [done|split; [done|]]].
    + f_equal. destruct (decide (g p = 0)) as [|Hg]; [done|]. exfalso.
      apply (pi_alloc _ _ HP), Hap in Hg. unfold apart in Hg. pose proof (size_pos 0). lia.
    + intros a. rewrite (palloc_refcount_spec _ _ HP'), (palloc_refcount_spec _ _ HP). cbn. unfold upd.
      by case_decide.
  - intros P p [g HP] Hc. rewrite (palloc_refcount_spec _ _ HP) in Hc. injection Hc as Hc.
    pose proof (pfree_spec poison P g p HP) as Hput. rewrite decide_False in Hput by lia.
    destruct Hput as (P' & -> & HP' & Hsh & _ & Hfr & _). exists P'. split; [done|]. split; [by eexists|].
    split; [rewrite Hfr, decide_True by done; done|]. split; [done|].
    intros a. rewrite (palloc_refcount_spec _ _ HP'), (palloc_refcount_spec _ _ HP). unfold upd.
    destruct (decide (a = p)); [|done]. by rewrite Hc.
  - intros P p v n [g HP]. split; [exists g; by apply pages_inv_mem|]. split; [done|]. split; [done|]. split; [done|].
    intros a. cbn. unfold fill. destruct (Z.leb_spec p a), (Z.ltb_spec a (p + n)); cbn; case_decide; done || lia.
Qed.

(** ** Properties *)

Section properties.
Context {St : Type} {HS : PageSource St} {HL : PageSourceLaws St}.

(** C12: [malloc] always returns.  A non-null result is 16-byte aligned and
    gives at least the requested bytes, disjoint from every live allocation; all
    other allocations stay as they are.  Null is returned only when the request
    does not fit a heap page or no page is available, and loses nothing. *)
Theorem malloc_correct (H : heap St) G l sz :
  heap_inv H G l -> 0 < sz < 2 ^ 64 ->
  exists p H' G' l', malloc H sz = Ret (p, H') /\ heap_inv H' G' l' /\
    if decide (p = 0) then
      (forall q k, live G' q k <-> live G q k) /\
      (HEAP_BLOCKS < sz + INFO_BLOCK \/ ps_free (source H) = 0)
    else
      p mod MALLOC_ALIGNMENT = 0 /\
      exists m, sz <= m < sz + MALLOC_ALIGNMENT /\
        (forall q k, live G' q k <-> (q = p /\ k = m) \/ live G q k) /\
        (forall q k, live G q k -> q + k <= p \/ p + m <= q).
Proof.
  intros HI Hsz. destruct (malloc_spec H G l sz HI Hsz) as (p & H' & -> & [(-> & (G' & l' & HI' & Hlv & _) & Hwhy)|Hm]).
  - exists 0, H', G', l'. split; [done|]. split; [done|]. done.
  - destruct Hm as (m & G' & l' & [HI' Hpos Hm Hlv Hnew _ _]). exists p, H', G', l'. split; [done|]. split; [done|].
    rewrite decide_False by lia. assert (Hp : live G' p m) by (apply Hlv; auto).
    split; [by eapply live_range|]. exists m. split; [done|]. split; [done|]. intros q k Hq.
    destruct (live_apart _ _ _ p m q k HI' Hp) as [[<- _]|[?|?]].
    + apply Hlv. by right.
    + by apply Hnew in Hq.
    + right. unfold INFO_BLOCK in *. lia.
    + left. unfold INFO_BLOCK in *. lia.
Qed.

(** [free] of a live allocation returns without complaint, ends exactly that
    allocation and keeps the heap consistent; no page is lost, and a page that
    becomes empty goes back to the page allocator; [free] of the null pointer does nothing. *)
Theorem free_correct (H : heap St) G l p m :
  heap_inv H G l -> live G p m ->
  (exists H' G' l', free H p = Ret (H', false) /\ heap_inv H' G' l' /\
     (forall q k, live G' q k <-> q <> p /\ live G q k) /\
     (tidy G -> tidy G') /\ pages_held H' l' = pages_held H l) /\
  free H 0 = Ret (H, false).
Proof. intros HI Hlive. split; [by eapply free_spec|done]. Qed.

(** [calloc] returns null when the product of its arguments overflows, and
    otherwise an allocation whose [count * size] bytes are all zero. *)
Theorem calloc_correct (H : heap St) G l count sz :
  heap_inv H G l -> 0 <= count < 2 ^ 64 -> 0 < sz < 2 ^ 64 ->
  exists p H' G' l', calloc H count sz = Ret (p, H') /\ heap_inv H' G' l' /\
    (2 ^ 64 <= count * sz -> p = 0) /\
    (p <> 0 ->
       (exists m, count * sz <= m /\ live G' p m) /\
       forall i, 0 <= i < count * sz -> ps_byte (source H') (p + i) = 0).
Proof.
  intros HI Hc Hsz. unfold calloc, truth, UINT64_MAX. rewrite (proj2 (Z.eqb_neq sz 0)) by lia. cbn [negb andb].
  destruct (Z.ltb_spec ((2 ^ 64 - 1) / sz) count) as [Hov|Hok].
  { exists 0, H, G, l. split; [done|]. split; [done|]. split; done. }
  assert (Htot : count * sz < 2 ^ 64).
  { pose proof (Z.mul_div_le (2 ^ 64 - 1) sz). nia. }
  assert (0 <= count * sz) by nia. unwrap64.
  destruct (decide (count * sz = 0)) as [Hz|Hz].
  { rewrite Hz. exists 0, H, G, l. cbn. split; [done|]. split; [done|]. split; [lia|done]. }
  destruct (malloc_spec H G l (count * sz) HI) as (p & H' & -> & Hcase); [lia|]. rewrite ret_bind.
  destruct Hcase as [(-> & (G' & l' & HI' & _) & _)|(m & G' & l' & [HI' Hpos Hm Hlv _ _ _])].
  { rewrite Z.eqb_refl. exists 0, H', G', l'. cbn. split; [done|]. split; [done|]. split; [lia|done]. }
  rewrite (proj2 (Z.eqb_neq p 0)) by lia. cbn [negb].
  destruct (ps_set_ok (source H') p 0 (count * sz) (h_src _ _ _ HI')) as (Hs & Hcnt & _ & _ & Hbyte).
  eexists _, _, G', l'. split; [reflexivity|]. split; [|split; [lia|intros _; split]].
  - destruct HI'. split; cbn; try done. intros a Ha. rewrite Hcnt. auto.
  - exists m. split; [lia|]. apply Hlv. by left.
  - intros i Hi. cbn. rewrite Hbyte, decide_True by lia. done.
Qed.

(** C40: a request that cannot fit a heap page fails, but not before a fresh page
    has joined the pool: the call leaves one page less in the page allocator and
    one more empty page in the pool. *)
Theorem malloc_oversize_keeps_page (H : heap St) G l sz :
  heap_inv H G l -> HEAP_BLOCKS < sz + INFO_BLOCK < 2 ^ 64 - MALLOC_ALIGNMENT -> ps_free (source H) <> 0 ->
  exists H' G', malloc H sz = Ret (0, H') /\ heap_inv H' G' (pool H' :: l) /\ G' !! pool H' = Some [] /\
    ps_free (source H') = ps_free (source H) - 1.
Proof.
  intros HI Hsz Hfree. unfold malloc. pose proof heap_size. unfold INFO_BLOCK, MALLOC_ALIGNMENT in *.
  rewrite (proj2 (Z.eqb_neq sz 0)), (proj2 (Z.ltb_ge _ _)) by (unfold UINT64_MAX; lia).
  destruct (ALIGN_BLOCKS_spec (sz + 32)) as [Hn _]; [lia..|]. cbn zeta. set (n := ALIGN_BLOCKS _) in *.
  assert (Hn' : INFO_BLOCK < n < 2 ^ 64) by (unfold INFO_BLOCK; lia).
  assert (Hbig : forall pg s, ~ room (bitmap pg) n s) by (intros pg s (? & _ & ? & _); lia).
  destruct (malloc_first _ _ _ _ HI Hn') as [->|(pg & bl & s & pg' & _ & _ & _ & _ & Hok)]; cycle 1.
  { destruct (po_blocks _ _ Hok s n) as (? & _ & _ & ?); [set_solver|lia]. }
  rewrite ret_bind, Z.eqb_refl.
  destruct (malloc_page_spec _ _ _ HI) as [[_ ?]|(a & H1 & nx & -> & Hpg & Hpool & HGa & Hheld & HI1)]; [done|].
  rewrite ret_bind.
  destruct (malloc_core_spec _ _ _ _ _ _ n HI1 Hpg (lookup_insert_eq _ _ _) Hn')
    as [[-> _]|(s & pg' & _ & _ & _ & Hr & _)]; [|by destruct (Hbig _ _ Hr)].
  rewrite !ret_bind, Z.eqb_refl. exists H1, (<[a := []]> G). split; [done|]. subst a.
  split; [done|]. split; [apply lookup_insert_eq|]. unfold pages_held in Hheld. cbn [length] in Hheld.
  injection Hheld as ? _. lia.
Qed.
End properties.

(** The empty heap over four pages. *)
Definition example_heap : heap pages := MkHeap example_pages ∅ ∅ 0.

Section example.
#[local] Instance example_source : PageSource pages := pages_source false.
#[local] Instance example_laws : PageSourceLaws pages := pages_source_laws false.

Lemma example_heap_ok : heap_inv example_heap ∅ [].
Proof. apply empty_heap_ok, example_pages_ok. Qed.

Definition result_address {A} (r : outcome (Z * A)) : option Z :=
  match r with Ret x => Some x.1 | _ => None end.

Lemma result_address_eq {A} (r : outcome (Z * A)) p x a :
  r = Ret (p, x) -> result_address r = Some a -> p = a.
Proof. intros ->. by intros [= ->]. Qed.

Lemma malloc_witness :
  exists p H' G' l', malloc example_heap 100 = Ret (p, H') /\ heap_inv H' G' l' /\ p = 0x80000220.
Proof.
  destruct (malloc_correct example_heap ∅ [] 100 example_heap_ok ltac:(lia)) as (p & H' & G' & l' & He & HI & _).
  exists p, H', G', l'. split; [exact He|]. split; [exact HI|].
  apply (result_address_eq _ _ _ _ He). vm_compute. reflexivity.
Defined.

Lemma example_malloc : exists p H' G' l' m,
  malloc example_heap 100 = Ret (p, H') /\ heap_inv H' G' l' /\ live G' p m.
Proof.
  destruct (malloc_spec example_heap ∅ [] 100 example_heap_ok ltac:(lia))
    as (p & H' & He & [(-> & _)|(m & G' & l' & [HI _ _ Hlv _ _ _])]).
  - exfalso. assert (0 = 0x80000220); [|lia].
    apply (result_address_eq _ _ _ _ He). vm_compute. reflexivity.
  - exists p, H', G', l', m. split; [exact He|]. split; [exact HI|]. apply Hlv. left. split; reflexivity.
Qed.

Lemma free_witness : exists p H1 H2,
  malloc example_heap 100 = Ret (p, H1) /\ free H1 p = Ret (H2, false).
Proof.
  destruct example_malloc as (p & H' & G' & l' & m & He & HI & Hlv).
  destruct (free_correct H' G' l' p m HI Hlv) as [(H2 & G2 & l2 & Hf & _) _].
  exists p, H', H2. split; [exact He|exact Hf].
Defined.

Lemma calloc_witness : exists p H', calloc example_heap 10 8 = Ret (p, H') /\ ps_byte (source H') (p + 79) = 0.
Proof.
  destruct (calloc_correct example_heap ∅ [] 10 8 example_heap_ok ltac:(lia) ltac:(lia))
    as (p & H' & G' & l' & He & _ & _ & Hz).
  exists p, H'. split; [exact He|].
  assert (p = 0x80000220) by (apply (result_address_eq _ _ _ _ He); vm_compute; reflexivity).
  apply Hz; lia.
Defined.

Lemma malloc_oversize_witness : exists H', malloc example_heap 4000 = Ret (0, H') /\
  ps_free (source H') = 3.
Proof.
  destruct (malloc_oversize_keeps_page example_heap ∅ [] 4000 example_heap_ok) as (H' & G' & He & _ & _ & Hf);
    [vm_compute; done|vm_compute; done|].
  exists H'. split; [exact He|]. rewrite Hf. vm_compute. reflexivity.
Defined.
End example.
