(* ===== verification/PallocInit.v ===== *)
(** * Memory discovery and the initialisation of the page allocator

    [palloc_discover_memory] and [palloc_init] of kernel/palloc.c.  The ranges
    of the device tree (drivers/of) and the end of the kernel image are inputs. *)
From S2P Require Import Prelude MemRange Buddy BuddyBlocks BuddyCorrect BuddyOps PageAlloc Heap HeapCorrect.

(** ** The self-test of the heap *)

Section selftest.
Context {St : Type} {HS : PageSource St} {HL : PageSourceLaws St}.
Implicit Types (H : heap St) (G : gmap Z (list (Z * Z))).

(** A page whose first [t] blocks are in use, as allocation without frees
    leaves it. *)
Definition packed (pg : page) (t : Z) : Prop :=
  forall k, 0 <= k < HEAP_BLOCKS -> bit (bitmap pg) k = bool_decide (k < t).

Lemma packed_room pg t n : packed pg t -> 0 <= t -> t mod MALLOC_ALIGNMENT = 0 -> 0 < n ->
  t + n <= HEAP_BLOCKS -> room (bitmap pg) n t /\ forall s, room (bitmap pg) n s -> t <= s.
Proof.
  intros Hp Ht Hm Hn Hfit. split.
  - split_and!; [done..|]. intros i Hi. rewrite Hp by lia. apply bool_decide_eq_false. lia.
  - intros s (Hs & _ & Hf & Hc). destruct (decide (t <= s)); [done|]. exfalso.
    specialize (Hc s ltac:(lia)). rewrite Hp, bool_decide_eq_true_2 in Hc by lia. done.
Qed.

Lemma packed_fit pg pg' t s n : packed pg t -> 0 <= t -> t mod MALLOC_ALIGNMENT = 0 -> 0 < n ->
  t + n <= HEAP_BLOCKS -> first_fit pg pg' s n -> packed pg' (t + n).
Proof.
  intros Hp Ht Hm Hn Hfit (Hr & Hmin & Hbit). destruct (packed_room pg t n) as [Hrt Hge]; [done..|].
  assert (s = t) as -> by (specialize (Hmin _ Hrt); specialize (Hge _ Hr); lia).
  intros k Hk. rewrite Hbit, Hp by lia. repeat case_bool_decide; done || lia.
Qed.

(** A request that fits behind the used part of a page. *)
Definition fits_page (t sz : Z) : Prop :=
  0 <= t /\ t mod MALLOC_ALIGNMENT = 0 /\ 0 < sz < HEAP_BLOCKS /\
  t + ALIGN_BLOCKS (sz + INFO_BLOCK) <= HEAP_BLOCKS.

Lemma fits_page_size t sz : fits_page t sz ->
  sz + INFO_BLOCK <= ALIGN_BLOCKS (sz + INFO_BLOCK) < sz + INFO_BLOCK + MALLOC_ALIGNMENT /\
  (t + ALIGN_BLOCKS (sz + INFO_BLOCK)) mod MALLOC_ALIGNMENT = 0.
Proof.
  intros (? & ? & ? & ?). pose proof heap_size. unfold INFO_BLOCK in *.
  destruct (ALIGN_BLOCKS_spec (sz + 32)) as [? ?]; [lia..|]. unfold MALLOC_ALIGNMENT in *.
  split; [lia|]. Z.div_mod_to_equations. lia.
Qed.

Lemma malloc_guards H sz : 0 < sz < HEAP_BLOCKS ->
  (sz =? 0) = false /\ (UINT64_MAX - INFO_BLOCK - (MALLOC_ALIGNMENT - 1) <? sz) = false.
Proof.
  intros Hsz. pose proof heap_size. rewrite Z.eqb_neq, Z.ltb_ge.
  unfold UINT64_MAX, INFO_BLOCK, MALLOC_ALIGNMENT. lia.
Qed.

(** [malloc] on a packed page at the head of the pool. *)
Lemma malloc_packed H G l pg t sz :
  heap_inv H G l -> hpages H !! pool H = Some pg -> packed pg t -> fits_page t sz ->
  exists p m H' G' pg', malloc H sz = Ret (p, H') /\ mallocs H G l p sz m H' G' l /\
    hpages H' !! pool H' = Some pg' /\ packed pg' (t + ALIGN_BLOCKS (sz + INFO_BLOCK)).
Proof.
  intros HI Hpg Hp Hfit. destruct (fits_page_size _ _ Hfit) as [Hn _]. pose proof heap_size as Hsize.
  destruct Hfit as (Ht & Hm & Hsz & Hfit). destruct (malloc_guards H sz Hsz) as [Hg1 Hg2].
  unfold malloc. rewrite Hg1, Hg2. cbn zeta. set (n := ALIGN_BLOCKS _) in *.
  destruct (h_pages _ _ _ HI _ _ Hpg) as (bl & Ha & _).
  assert (Hn' : INFO_BLOCK < n < 2 ^ 64) by (unfold INFO_BLOCK in *; lia).
  destruct (packed_room pg t n) as [Hroom _]; [done..|unfold INFO_BLOCK in *; lia|done|].
  destruct (malloc_core_spec _ _ _ _ _ _ n HI Hpg Ha Hn') as [[_ Hno]|(s & pg' & -> & Hnx & Hpok & Hff)];
    [by destruct (Hno t)|]. rewrite ret_bind.
  destruct (malloc_finish H G l H G l (pool H) pg pg' bl s n sz) as (p & He & Hmal); [done..| |].
  { intros Htd b c. rewrite lookup_insert. case_decide; [by intros [= <-]|apply Htd]. }
  pose proof Hff as ((? & _ & ? & _) & _).
  assert ((s + PAGE_BLOCK =? UINT64_MAX) = false) as Hne
    by (apply Z.eqb_neq; unfold UINT64_MAX, PAGE_BLOCK, INFO_BLOCK in *; lia).
  eexists p, _, _, _, pg'. split; [|split; [exact Hmal|]].
  - rewrite Hne, ret_bind, Hne. rewrite <-He, Hne. done.
  - cbn. rewrite lookup_insert_eq. split; [done|].
    eapply packed_fit; [done..|unfold INFO_BLOCK in *; lia|done|done].
Qed.

(** The first [malloc]: a page is taken from the page allocator. *)
Lemma malloc_new_page H G sz :
  heap_inv H G [] -> ps_free (source H) <> 0 -> fits_page 0 sz ->
  exists p m H' G' l' pg', malloc H sz = Ret (p, H') /\ mallocs H G [] p sz m H' G' l' /\
    hpages H' !! pool H' = Some pg' /\ packed pg' (ALIGN_BLOCKS (sz + INFO_BLOCK)).
Proof.
  intros HI Hfree Hfit. destruct (fits_page_size _ _ Hfit) as [Hn _]. pose proof heap_size as Hsize.
  destruct Hfit as (_ & _ & Hsz & Hfit). destruct (malloc_guards H sz Hsz) as [Hg1 Hg2].
  unfold malloc. rewrite Hg1, Hg2. cbn zeta. set (n := ALIGN_BLOCKS _) in *.
  assert (Hn' : INFO_BLOCK < n < 2 ^ 64) by (unfold INFO_BLOCK in *; lia).
  assert (malloc_core H (pool H) n = Ret (UINT64_MAX, H)) as ->
    by (unfold malloc_core; by rewrite (h_chain _ _ _ HI)).
  rewrite ret_bind, Z.eqb_refl.
  destruct (malloc_page_spec _ _ _ HI) as [[_ ?]|(a & H1 & nx & -> & Hpg & Hpool & HGa & Hfr & HI1)]; [done|].
  rewrite ret_bind.
  destruct (malloc_core_spec _ _ _ _ _ _ n HI1 Hpg (lookup_insert_eq _ _ _) Hn')
    as [[_ Hno]|(s & pg' & -> & Hnx & Hpok & Hff)].
  { destruct (Hno 0). apply fresh_room. unfold INFO_BLOCK in *. lia. }
  rewrite !ret_bind.
  destruct (malloc_finish H G [] H1 (<[a := []]> G) [a] a _ pg' [] s n sz HI1 Hpg) as (p & He & Hmal);
    [by rewrite lookup_insert_eq|done|done|done|intros; by apply live_new_page| | |].
  { done. }
  { intros Ht b c. rewrite insert_insert_eq, lookup_insert. case_decide; [by intros [= <-]|apply Ht]. }
  pose proof Hff as ((? & _ & ? & _) & _).
  assert ((s + PAGE_BLOCK =? UINT64_MAX) = false) as Hne
    by (apply Z.eqb_neq; unfold UINT64_MAX, PAGE_BLOCK, INFO_BLOCK in *; lia).
  eexists p, _, _, _, _, pg'. split; [rewrite <-He; done|]. split; [exact Hmal|]. cbn. rewrite Hpool, lookup_insert_eq.
  split; [done|]. apply (packed_fit _ _ 0 s n) in Hff; [done| |done..|unfold INFO_BLOCK in *; lia|lia].
  intros k Hk. rewrite bool_decide_eq_false_2 by lia. apply (fresh_room HEAP_BLOCKS); lia.
Qed.

(** What the blocks already allocated and the heap look like between two calls
    of the self-test. *)
Record testing H0 l0 H G l (allocations : list Z) : Prop := {
  te_inv : heap_inv H G l;
  te_tidy : tidy G;
  te_held : pages_held H l = pages_held H0 l0;
  te_nodup : NoDup allocations;
  te_live : forall q, q ∈ allocations <-> exists k, live G q k }.

Lemma testing_malloc H0 l0 H G l ps p sz m H' G' l' :
  testing H0 l0 H G l ps -> mallocs H G l p sz m H' G' l' -> testing H0 l0 H' G' l' (p :: ps).
Proof.
  intros [HI Ht Hh Hnd Hlv] [HI' Hpos Hm Hl Hnew Htidy Hheld]. split; [done|by apply Htidy|congruence| |].
  - constructor; [|done]. rewrite Hlv. intros [k Hk]. by apply Hnew in Hk.
  - intros q. rewrite elem_of_cons, Hlv. setoid_rewrite Hl. naive_solver.
Qed.

Fixpoint sizes_fit (t : Z) (sizes : list Z) : Prop :=
  match sizes with
  | [] => True
  | sz :: sizes => fits_page t sz /\ sizes_fit (t + ALIGN_BLOCKS (sz + INFO_BLOCK)) sizes
  end.

Lemma malloc_result_ok p H G l H' G' l' sz m :
  mallocs H G l p sz m H' G' l' -> negb (truth p) || truth (p mod MALLOC_ALIGNMENT) = false.
Proof.
  intros [HI Hpos _ Hlv _ _ _]. destruct (live_range _ _ _ p m HI) as (_ & _ & Hal); [apply Hlv; auto|].
  apply orb_false_iff. rewrite negb_false_iff. split; [|by apply truth_false].
  unfold truth. apply negb_true_iff, Z.eqb_neq. lia.
Qed.

Lemma selftest_malloc_spec sizes H0 l0 H G l pg t ps :
  testing H0 l0 H G l ps -> hpages H !! pool H = Some pg -> packed pg t -> sizes_fit t sizes ->
  exists ps' H' G' l', selftest_malloc sizes H ps = Ret (ps', H') /\ testing H0 l0 H' G' l' ps'.
Proof.
  revert H G pg t ps; induction sizes as [|sz sizes IH]; intros H G pg t ps HT Hpg Hp Hfit.
  { exists ps, H, G, l. done. }
  destruct Hfit as [Hsz Hfit].
  destruct (malloc_packed H G l pg t sz) as (p & m & H' & G' & pg' & He & Hm & Hpg' & Hp'); [apply HT|done..|].
  cbn [selftest_malloc]. rewrite He, ret_bind, (malloc_result_ok _ _ _ _ _ _ _ _ _ Hm).
  eapply IH; [|done..]. by eapply testing_malloc.
Qed.

Lemma selftest_free_spec H0 l0 H G l ps :
  testing H0 l0 H G l ps ->
  exists H' G' l', selftest_free ps H = Ret H' /\ testing H0 l0 H' G' l' [].
Proof.
  revert H G l; induction ps as [|p ps IH]; intros H G l HT; [by exists H, G, l|]. cbn [selftest_free].
  destruct (proj1 (te_live _ _ _ _ _ _ HT p)) as [m Hp]; [set_solver|].
  destruct (free_spec H G l p m (te_inv _ _ _ _ _ _ HT) Hp) as (H' & G' & l' & -> & HI' & Hl & Ht & Hh).
  rewrite ret_bind. apply (IH H' G' l'). destruct HT as [_ Ht0 Hh0 Hnd Hlv]. apply NoDup_cons in Hnd as [Hni Hnd].
  split; [done|by apply Ht|congruence|done|]. intros q. setoid_rewrite Hl. split.
  - intros Hq. destruct (proj1 (Hlv q)) as [k Hk]; [set_solver|]. exists k. split; [by intros ->|done].
  - intros (k & Hqp & Hk). assert (q ∈ p :: ps) as [->|?]%elem_of_cons by (apply Hlv; eauto); done.
Qed.

(** The self-test passes and gives every page back. *)
Lemma selftest_spec H G :
  heap_inv H G [] -> ps_free (source H) <> 0 ->
  exists H', palloc_heap_alignment_selftest H = Ret H' /\ heap_inv H' ∅ [] /\
    ps_free (source H') = ps_free (source H) /\ ps_regions (source H') = ps_regions (source H).
Proof.
  intros HI Hfree. assert (HG : G = ∅).
  { apply map_eq. intros a. rewrite lookup_empty. destruct (G !! a) as [bl|] eqn:Ha; [|done].
    by apply (h_blocks _ _ _ HI), not_elem_of_nil in Ha. }
  subst G. assert (HT : testing H [] H ∅ [] []).
  { split; [done|done|done|constructor|]. intros q. split; [by intros ?%not_elem_of_nil|].
    intros (k & a & bl & s & n & Ha & _). by rewrite lookup_empty in Ha. }
  assert (Hsizes : sizes_fit 0 [1; 3; 7; 15; 17; 31; 33; 127]).
  { cbn [sizes_fit]. unfold fits_page. repeat split; vm_compute; done || congruence. }
  destruct Hsizes as [Hs1 Hsizes]. unfold palloc_heap_alignment_selftest. cbn [selftest_malloc].
  destruct (malloc_new_page H ∅ 1 HI Hfree Hs1) as (p & m & H1 & G1 & l1 & pg & -> & Hm & Hpg & Hp).
  rewrite ret_bind, (malloc_result_ok _ _ _ _ _ _ _ _ _ Hm).
  pose proof (testing_malloc _ _ _ _ _ _ _ _ _ _ _ _ HT Hm) as HT1.
  destruct (selftest_malloc_spec _ _ _ _ _ _ _ _ _ HT1 Hpg Hp Hsizes) as (ps & H2 & G2 & l2 & He & HT2).
  cbn [selftest_malloc] in He. rewrite He, ret_bind.
  destruct (selftest_free_spec _ _ _ _ _ _ HT2) as (H3 & G3 & l3 & -> & HT3). exists H3. split; [done|].
  destruct HT3 as [HI3 Ht3 Hh3 _ Hlv3].
  assert (HG3 : G3 = ∅).
  { apply map_eq. intros a. rewrite lookup_empty. destruct (G3 !! a) as [bl|] eqn:Ha; [|done]. exfalso.
    destruct bl as [|[s n] bl]; [by apply (Ht3 _ _ Ha)|]. eapply not_elem_of_nil, Hlv3. eexists.
    exists a, ((s, n) :: bl), s, n. split_and!; [done|set_solver|done..]. }
  subst G3. assert (l3 = []) as ->.
  { destruct l3 as [|a l3]; [done|]. destruct (proj2 (h_dom _ _ _ HI3 a)) as [q Hq]; [set_solver|].
    destruct (h_pages _ _ _ HI3 _ _ Hq) as (bl & Hbl & _). by rewrite lookup_empty in Hbl. }
  split; [done|]. unfold pages_held in Hh3. cbn in Hh3. injection Hh3 as ? ?. split; [lia|done].
Qed.
End selftest.

(** ** Discovery *)

Definition KERNEL_BASE : Z := 0x80200000.

Section boot.
(** [of_memory_range_get] and [of_reserved_memory_range_get] give the start and
    size of a range, [None] for an error; [image_end] is the symbol [end]. *)
Context (of_memory_range_count of_reserved_memory_range_count : Z).
Context (of_memory_range_get of_reserved_memory_range_get : Z -> option (Z * Z)).
Context (image_end : Z).

(** The body of the loop over the memory ranges. *)
Definition discover_memory (managed_ranges : memrange_set) (i : Z) : outcome memrange_set :=
  match of_memory_range_get i with
  | None => Panic "invalid memory range"
  | Some (rstart, rsize) =>
      if rstart +64 rsize <? rstart then Panic "invalid memory range" else
      if UINT64_MAX - (PGSIZE - 1) <? rstart then Ret managed_ranges else
      let start := PGROUNDUP rstart in
      let finish := PGROUNDDOWN (rstart +64 rsize) in
      if start <? finish then
        '(rc, managed_ranges) ← memrange_add managed_ranges start finish;
        if rc <? 0 then Panic "unsupported memory layout" else Ret managed_ranges
      else Ret managed_ranges
  end.

(** The body of the loop over the reserved ranges. *)
Definition discover_reserved (managed_ranges : memrange_set) (i : Z) : outcome memrange_set :=
  match of_reserved_memory_range_get i with
  | None => Panic "invalid reserved memory"
  | Some (rstart, rsize) =>
      if rstart +64 rsize <? rstart then Panic "invalid reserved memory" else
      let start := PGROUNDDOWN rstart in
      let finish := rstart +64 rsize in
      if UINT64_MAX - (PGSIZE - 1) <? finish then Panic "invalid reserved memory" else
      let finish := PGROUNDUP finish in
      if start <? finish then
        '(rc, managed_ranges) ← memrange_remove managed_ranges start finish;
        if rc <? 0 then Panic "unsupported reserved memory" else Ret managed_ranges
      else Ret managed_ranges
  end.

Definition check_direct_map (managed_ranges : memrange_set) (u : unit) (i : Z) : outcome unit :=
  r ← rd (ranges managed_ranges) (Z.to_nat i);
  if MAXVA <? r_end r then Panic "memory exceeds Sv39 direct map" else Ret tt.

(** The managed ranges, [usable_bytes] and [heap_start]. *)
Definition palloc_discover_memory (managed_ranges : memrange_set) : outcome (memrange_set * Z * Z) :=
  let kernel_start := KERNEL_BASE in
  let kernel_end := PGROUNDUP image_end in
  let managed_ranges := memrange_init managed_ranges in
  if of_memory_range_count <=? 0 then Panic "unsupported memory layout" else
  managed_ranges ← for_each discover_memory (seqZ 0 of_memory_range_count) managed_ranges;
  inside ← memrange_contains managed_ranges kernel_start kernel_end;
  if negb inside then Panic "kernel outside memory" else
  '(rc, managed_ranges) ← memrange_remove managed_ranges 0 kernel_end;
  if rc <? 0 then Panic "reserve kernel memory" else
  if of_reserved_memory_range_count <? 0 then Panic "unsupported reserved memory" else
  managed_ranges ← for_each discover_reserved (seqZ 0 of_reserved_memory_range_count) managed_ranges;
  if (count managed_ranges =? 0)%nat then Panic "no usable memory" else
  total ← memrange_total managed_ranges;
  match total with
  | None => Panic "no usable memory"
  | Some usable_bytes =>
      _ ← for_each (check_direct_map managed_ranges) (seqZ 0 (Z.of_nat (count managed_ranges))) tt;
      Ret (managed_ranges, usable_bytes, kernel_end)
  end.

(** ** Initialisation *)

Definition PAGE_REF_ALIGNMENT : Z := 4.

(** The buddy allocator, the reference-count regions and [usable_bytes]. *)
Record init_state := MkInit { in_allocator : buddy_allocator; in_refs : list page_ref_region; in_usable : Z }.

(** The body of the loop over the managed ranges; [m] is the initial memory. *)
Definition init_range (managed_ranges : memrange_set) (m : Z -> Z) (s : init_state) (i : Z)
  : outcome init_state :=
  range ← memrange_get managed_ranges i;
  match range with
  | None => Panic "managed memory range"
  | Some (start, finish) =>
      let pages := (finish -64 start) / PGSIZE in
      let refs_offset := Z.land (pages +64 PAGE_REF_ALIGNMENT -64 1) (Z.lnot (PAGE_REF_ALIGNMENT - 1)) in
      if (UINT64_MAX - refs_offset) / 4 <? pages then Panic "page metadata overflow" else
      let metadata_bytes := PGROUNDUP (refs_offset +64 pages *64 4) in
      if finish -64 start <=? metadata_bytes then Ret s else
      '(rc, A) ← buddy_add_region (in_allocator s) start finish (start +64 metadata_bytes)
                   (m <$> seqZ start pages) pages;
      if rc <? 0 then Panic "initialize page allocator" else
      if (MEMRANGE_MAX <=? length (in_refs s))%nat then Panic "page reference regions" else
      Ret (MkInit A (in_refs s ++ [MkRefRegion start finish (replicate (Z.to_nat pages) 0)])
             (in_usable s +64 (finish -64 start -64 metadata_bytes)))
  end.

(** The result is the heap over the initialised page allocator, the managed
    ranges, [usable_bytes] and [heap_start]. *)
Definition palloc_init (poison : bool) (managed_ranges : memrange_set) (m : Z -> Z)
  : outcome (heap pages * memrange_set * Z * Z) :=
  '(managed_ranges, _, heap_start) ← palloc_discover_memory managed_ranges;
  s ← for_each (init_range managed_ranges m) (seqZ 0 (Z.of_nat (count managed_ranges)))
        (MkInit buddy_init [] 0);
  if in_usable s =? 0 then Panic "no usable memory" else
  H ← @palloc_heap_alignment_selftest _ (pages_source poison)
        (MkHeap (MkPages (in_allocator s) (in_refs s) m) ∅ ∅ 0);
  if negb (palloc_free_pages (source H) =? in_usable s / PGSIZE)
  then Panic "page allocator accounting"
  else Ret (H, managed_ranges, in_usable s, heap_start).
End boot.

(** ** Correctness of discovery *)

Definition boot_panics : list string :=
  ["unsupported memory layout"; "invalid memory range"; "kernel outside memory"; "reserve kernel memory";
   "unsupported reserved memory"; "invalid reserved memory"; "no usable memory";
   "memory exceeds Sv39 direct map"]%string.

Lemma wf_init set : length (ranges set) = MEMRANGE_MAX ->
  wf (memrange_init set) /\ forall x, ~ covered (view (memrange_init set)) x.
Proof.
  intros Hl. split.
  - split; [done|]. split; [apply Nat.le_0_l|]. done.
  - intros x Hx. by apply Exists_nil in Hx.
Qed.

Lemma PGROUNDDOWN_le a : PGROUNDDOWN a mod PGSIZE = 0 /\ a - PGSIZE < PGROUNDDOWN a <= a.
Proof. rewrite PGROUNDDOWN_mod. unfold PGSIZE. Z.div_mod_to_equations. lia. Qed.

Lemma PGROUNDUP_ge a : 0 <= a -> a + PGSIZE - 1 < 2 ^ 64 ->
  PGROUNDUP a mod PGSIZE = 0 /\ a <= PGROUNDUP a < a + PGSIZE.
Proof. intros. rewrite PGROUNDUP_mod by done. unfold PGSIZE in *. Z.div_mod_to_equations. lia. Qed.

Lemma PGROUNDUP_aligned a : PGROUNDUP a mod PGSIZE = 0.
Proof.
  unfold PGROUNDUP. rewrite (land_lnot_ones _ 12) by lia. unfold PGSIZE. change (2 ^ 12) with 4096.
  Z.div_mod_to_equations. lia.
Qed.

Section discovery.
Context (nmem nres : Z) (mem_get res_get : Z -> option (Z * Z)) (image_end : Z).
Context (Hmem : forall i s n, mem_get i = Some (s, n) -> is_u64 s /\ is_u64 n).
Context (Hres : forall i s n, res_get i = Some (s, n) -> is_u64 s /\ is_u64 n).
Context (Hend : KERNEL_BASE < image_end < MAXVA).

(** [x] lies on a page inside range [i] of the device tree. *)
Definition memory_page (i x : Z) : Prop :=
  exists s n, mem_get i = Some (s, n) /\ s <= UINT64_MAX - (PGSIZE - 1) /\
    PGROUNDUP s <= x < PGROUNDDOWN (s + n).
(** [x] lies on a page that reserved range [i] touches. *)
Definition reserved_page (i x : Z) : Prop :=
  exists s n, res_get i = Some (s, n) /\ PGROUNDDOWN s <= x < PGROUNDUP (s + n).

Definition boot_panic (w : string) : Prop := w ∈ boot_panics.

Ltac panic := cbn [wp]; unfold boot_panic, boot_panics; set_solver.

Lemma discover_memory_spec set i :
  wf set -> wp (discover_memory mem_get set i)
    (fun set' => wf set' /\ forall x, covered (view set') x <-> covered (view set) x \/ memory_page i x)
    boot_panic.
Proof.
  intros Hwf. unfold discover_memory, memory_page. destruct (mem_get i) as [[s n]|] eqn:Hg; [|panic].
  destruct (Hmem _ _ _ Hg) as [Hs Hn]. unfold is_u64 in *.
  assert (Hskip : (forall x, ~ (s <= UINT64_MAX - (PGSIZE - 1) /\ PGROUNDUP s <= x < PGROUNDDOWN (s + n))) ->
    wp (Ret set) (fun set' => wf set' /\ forall x, covered (view set') x <-> covered (view set) x \/
      exists s0 n0, Some (s, n) = Some (s0, n0) /\ s0 <= UINT64_MAX - (PGSIZE - 1) /\
        PGROUNDUP s0 <= x < PGROUNDDOWN (s0 + n0)) boot_panic).
  { intros Hno. split; [done|]. intros x. split; [auto|]. intros [?|(s0 & n0 & [= <- <-] & ?)]; [done|].
    by destruct (Hno x). }
  destruct (Z.ltb_spec (s +64 n) s) as [|Hsn]; [panic|].
  assert (Hnw : s + n < 2 ^ 64).
  { unfold wrap64 in Hsn. destruct (decide (s + n < 2 ^ 64)); [done|].
    rewrite <-(Z.mod_unique (s + n) (2 ^ 64) 1 (s + n - 2 ^ 64)) in Hsn by lia. lia. }
  rewrite (wrap64_id (s + n)) by (unfold is_u64; lia).
  destruct (Z.ltb_spec (UINT64_MAX - (PGSIZE - 1)) s) as [|Hle]; [apply Hskip; lia|]. cbn zeta.
  destruct (Z.ltb_spec (PGROUNDUP s) (PGROUNDDOWN (s + n))) as [Hlt|]; [|apply Hskip; lia].
  destruct (PGROUNDUP_ge s) as [_ ?]; [lia|unfold UINT64_MAX, PGSIZE in *; lia|].
  destruct (PGROUNDDOWN_le (s + n)) as [_ ?].
  destruct (memrange_add_spec set (PGROUNDUP s) (PGROUNDDOWN (s + n)) Hwf) as (rc & set' & -> & Hcase);
    [lia|unfold UINT64_MAX; lia|]. rewrite ret_bind.
  destruct Hcase as [(-> & Hwf' & Hc)|(-> & _)]; [|panic]. split; [done|].
  intros x. rewrite Hc. split; [|intros [?|(s0 & n0 & [= <- <-] & _ & ?)]; auto].
  intros [?|?]; [by left|right]. by exists s, n.
Qed.

Lemma discover_reserved_spec set i :
  wf set -> wp (discover_reserved res_get set i)
    (fun set' => wf set' /\ forall x, covered (view set') x <-> covered (view set) x /\ ~ reserved_page i x)
    boot_panic.
Proof.
  intros Hwf. unfold discover_reserved, reserved_page. destruct (res_get i) as [[s n]|] eqn:Hg; [|panic].
  destruct (Hres _ _ _ Hg) as [Hs Hn]. unfold is_u64 in *.
  destruct (Z.ltb_spec (s +64 n) s) as [|Hsn]; [panic|].
  assert (Hnw : s + n < 2 ^ 64).
  { unfold wrap64 in Hsn. destruct (decide (s + n < 2 ^ 64)); [done|].
    rewrite <-(Z.mod_unique (s + n) (2 ^ 64) 1 (s + n - 2 ^ 64)) in Hsn by lia. lia. }
  rewrite (wrap64_id (s + n)) by (unfold is_u64; lia). cbn zeta.
  destruct (Z.ltb_spec (UINT64_MAX - (PGSIZE - 1)) (s + n)) as [|Hle]; [panic|].
  destruct (Z.ltb_spec (PGROUNDDOWN s) (PGROUNDUP (s + n))) as [Hlt|]; cycle 1.
  { split; [done|]. intros x. split; [|tauto]. intros Hx. split; [done|]. intros (s0 & n0 & [= <- <-] & ?). lia. }
  destruct (memrange_remove_spec set (PGROUNDDOWN s) (PGROUNDUP (s + n)) Hwf Hlt) as (rc & set' & -> & Hcase).
  rewrite ret_bind. destruct Hcase as [(-> & Hwf' & Hc)|(-> & _)]; [|panic]. split; [done|].
  intros x. rewrite Hc. split; intros [? Hn']; (split; [done|]).
  - by intros (s0 & n0 & [= <- <-] & ?).
  - intros Hx. apply Hn'. by exists s, n.
Qed.

Definition in_memory (x : Z) : Prop := exists i, 0 <= i < nmem /\ memory_page i x.
Definition in_reserved (x : Z) : Prop := exists i, 0 <= i < nres /\ reserved_page i x.

(** What discovery leaves behind. *)
Record discovered (set : memrange_set) (usable heap_start : Z) : Prop := {
  di_wf : wf set;
  di_heap : heap_start = PGROUNDUP image_end;
  di_bytes : usable = range_bytes (view set);
  di_some : (0 < count set)%nat;
  di_covered : forall x, covered (view set) x <-> in_memory x /\ heap_start <= x /\ ~ in_reserved x;
  di_sv39 : forall r, r ∈ view set -> r_end r <= MAXVA }.

Lemma seqZ_prefix n pre x post : seqZ 0 n = pre ++ x :: post -> x = Z.of_nat (length pre) /\ 0 <= x < n.
Proof.
  intros He. assert (Hx : seqZ 0 n !! length pre = Some x) by (rewrite He; by apply list_lookup_middle).
  apply lookup_seqZ in Hx. lia.
Qed.

Lemma seqZ_prefix_elem n pre post x : seqZ 0 n = pre ++ post -> x ∈ pre <-> 0 <= x < Z.of_nat (length pre).
Proof.
  intros He. assert (Hp : pre = seqZ 0 (Z.of_nat (length pre))); [|by rewrite Hp at 1; rewrite elem_of_seqZ].
  assert (Hl : Z.of_nat (length pre) <= Z.of_nat (Z.to_nat n)).
  { rewrite <-(length_seqZ 0 n), He, length_app. lia. }
  apply list_eq. intros i. destruct (decide (i < length pre)%nat) as [Hi|Hi].
  - transitivity (seqZ 0 n !! i); [by rewrite He, lookup_app_l|].
    rewrite !lookup_seqZ_lt by lia. done.
  - rewrite !lookup_ge_None_2; [done|rewrite length_seqZ; lia|lia].
Qed.

Lemma check_direct_map_spec set u :
  wf set -> wp (for_each (check_direct_map set) (seqZ 0 (Z.of_nat (count set))) u)
    (fun _ => forall r, r ∈ view set -> r_end r <= MAXVA) boot_panic.
Proof.
  intros Hwf. pose proof (wf_count_le _ Hwf) as Hc.
  eapply wp_mono; [apply (wp_for_each _ (fun pre _ => forall j r, (j < length pre)%nat ->
    view set !! j = Some r -> r_end r <= MAXVA) boot_panic)| |auto].
  - intros j r Hj. cbn in Hj. lia.
  - intros pre x post [] He IH. destruct (seqZ_prefix _ _ _ _ He) as [-> Hx]. unfold check_direct_map.
    rewrite Nat2Z.id. destruct (lookup_lt_is_Some_2 (ranges set) (length pre)) as [r Hr]; [lia|].
    rewrite (rd_Ret _ _ _ Hr), ret_bind. destruct (Z.ltb_spec MAXVA (r_end r)); [panic|].
    intros j q Hj Hq. rewrite length_app in Hj. cbn in Hj. destruct (decide (j = length pre)) as [->|].
    + rewrite view_lookup in Hq by lia. rewrite Hr in Hq. by injection Hq as <-.
    + apply (IH j q); [lia|done].
  - intros [] Hall r (j & Hj)%list_elem_of_lookup. apply (Hall j r); [|done].
    apply lookup_lt_Some in Hj. rewrite view_length in Hj by done. rewrite length_seqZ. lia.
Qed.

Lemma kernel_end_bounds : KERNEL_BASE < PGROUNDUP image_end < 2 ^ 39.
Proof.
  destruct (PGROUNDUP_ge image_end) as [_ ?]; unfold KERNEL_BASE, MAXVA, PGSIZE in *;
    cbn [Z.shiftl Z.add Z.sub] in *; change (Z.shiftl 1 (9 + 9 + 9 + 12 - 1)) with (2 ^ 38) in *; lia.
Qed.

Lemma discover_spec set0 :
  length (ranges set0) = MEMRANGE_MAX ->
  wp (palloc_discover_memory nmem nres mem_get res_get image_end set0)
    (fun '(set, usable, heap_start) => discovered set usable heap_start) boot_panic.
Proof.
  intros Hlen. destruct (wf_init _ Hlen) as [Hwf0 Hnone]. pose proof kernel_end_bounds as Hke.
  unfold palloc_discover_memory. destruct (Z.leb_spec nmem 0); [panic|].
  eapply wp_bind; [apply (wp_for_each _ (fun pre set => wf set /\
    forall x, covered (view set) x <-> exists i, i ∈ pre /\ memory_page i x))|].
  { split; [done|]. intros x. split; [by intros ?%Hnone|]. by intros (i & ?%not_elem_of_nil & _). }
  { intros pre i post set _ [Hwf Hc]. eapply wp_mono; [by apply discover_memory_spec| |auto].
    intros set' [? Hc']. split; [done|]. intros x. rewrite Hc', Hc. set_solver. }
  intros set1 [Hwf1 Hc1].
  destruct (memrange_contains_spec set1 KERNEL_BASE (PGROUNDUP image_end) Hwf1) as (b & -> & _); [lia|].
  rewrite ret_bind. destruct b; [|panic]. cbn [negb].
  destruct (memrange_remove_spec set1 0 (PGROUNDUP image_end) Hwf1) as (rc & set2 & -> & Hcase);
    [unfold KERNEL_BASE in *; lia|]. rewrite ret_bind.
  destruct Hcase as [(-> & Hwf2 & Hc2)|(-> & _)]; [|panic]. cbn [Z.ltb].
  change (0 <? 0) with false. cbn iota. destruct (Z.ltb_spec nres 0); [panic|].
  eapply wp_bind; [apply (wp_for_each _ (fun pre set => wf set /\
    forall x, covered (view set) x <-> covered (view set2) x /\ ~ exists i, i ∈ pre /\ reserved_page i x))|].
  { split; [done|]. intros x. split; [|tauto]. intros Hx. split; [done|]. by intros (i & ?%not_elem_of_nil & _). }
  { intros pre i post set _ [Hwf Hc]. eapply wp_mono; [by apply discover_reserved_spec| |auto].
    intros set' [? Hc']. split; [done|]. intros x. rewrite Hc', Hc. set_solver. }
  intros set3 [Hwf3 Hc3]. destruct (Nat.eqb_spec (count set3) 0); [panic|].
  destruct (memrange_total_correct _ Hwf3) as [-> _]. rewrite ret_bind.
  eapply wp_bind; [by apply check_direct_map_spec|]. intros [] Hsv. cbn.
  split; [done..|lia| |done]. intros x. rewrite Hc3, Hc2, Hc1. unfold in_memory, in_reserved.
  setoid_rewrite elem_of_seqZ.
  assert (Hpos : covered (view set1) x -> 0 <= x).
  { intros Hx. destruct Hwf1 as (_ & _ & Ho). pose proof (covered_above _ _ _ Ho Hx). lia. }
  rewrite Hc1 in Hpos. setoid_rewrite elem_of_seqZ in Hpos. rewrite Z.add_0_l in *.
  split.
  - intros [[Hm Hk] Hr]. split; [done|]. split; [|done]. specialize (Hpos Hm). lia.
  - intros (Hm & Hk & Hr). split; [|done]. split; [done|lia].
Qed.

(** Coverage does not change inside a page. *)
Lemma discovered_page set usable hs x y :
  discovered set usable hs -> x / PGSIZE = y / PGSIZE -> covered (view set) x -> covered (view set) y.
Proof.
  intros HD Hxy. pose proof kernel_end_bounds as Hke. rewrite !(di_covered _ _ _ HD), (di_heap _ _ _ HD).
  assert (Hb : forall a, a mod PGSIZE = 0 -> a <= x <-> a <= y).
  { intros a Ha. unfold PGSIZE in *. Z.div_mod_to_equations. lia. }
  destruct (PGROUNDUP_ge image_end) as [Hka _];
    [unfold KERNEL_BASE in *; lia|unfold MAXVA, PGSIZE in *; change (Z.shiftl 1 _) with (2 ^ 38) in *; lia|].
  intros ((i & Hi & s & n & Hg & Hs & Hr1 & Hr2) & Hk & Hres'). split; [|split; [by apply Hb|]].
  - exists i. split; [done|]. exists s, n. split; [done|]. split; [done|]. destruct (Hmem _ _ _ Hg) as [Hs1 _].
    destruct (PGROUNDUP_ge s) as [Ha _]; [apply Hs1|unfold UINT64_MAX, PGSIZE in *; lia|].
    destruct (PGROUNDDOWN_le (s + n)) as [Hd _]. apply Hb in Ha as Ha'. apply Hb in Hd. lia.
  - intros (j & Hj & s' & n' & Hg' & Hr'). apply Hres'. exists j. split; [done|]. exists s', n'. split; [done|].
    pose proof (Hb _ (proj1 (PGROUNDDOWN_le s'))). pose proof (Hb _ (PGROUNDUP_aligned (s' + n'))). lia.
Qed.

(** Ranges start and end at page boundaries. *)
Lemma discovered_aligned set usable hs r :
  discovered set usable hs -> r ∈ view set -> r_start r mod PGSIZE = 0 /\ r_end r mod PGSIZE = 0.
Proof.
  intros HD Hr. destruct (di_wf _ _ _ HD) as (_ & _ & Ho). destruct (ordered_gap _ _ _ Ho Hr) as [Hl Hh].
  pose proof (proj1 (Forall_forall _ _) (ordered_above _ _ Ho) r Hr) as Hab. cbn in Hab.
  assert (Hin : forall x, r_start r <= x < r_end r -> covered (view set) x).
  { intros x Hx. apply Exists_exists. eauto. }
  split; apply dec_stable; intros Hm.
  - apply Hl, (discovered_page _ _ _ (r_start r) _ HD); [|apply Hin; lia].
    unfold PGSIZE in *. Z.div_mod_to_equations. lia.
  - apply Hh, (discovered_page _ _ _ (r_end r - 1) _ HD); [|apply Hin; lia].
    unfold PGSIZE in *. Z.div_mod_to_equations. lia.
Qed.

(** ** Correctness of initialisation *)

(** A region of the buddy allocator is a managed range; the state bytes and,
    behind them, the reference counts of its pages fit before its first
    allocatable page. *)
Definition region_of (set : memrange_set) (i : nat) (s : shape) : Prop :=
  exists j r refs_offset, (j < i)%nat /\ view set !! j = Some r /\ s_start s = r_start r /\ s_end s = r_end r /\
    (r_end r - r_start r) / PGSIZE <= refs_offset /\
    refs_offset + 4 * ((r_end r - r_start r) / PGSIZE) <= s_alloc s - s_start s.

Record init_ok (set : memrange_set) (m : Z -> Z) (i : nat) (s : init_state) : Prop := {
  io_pages : pages_inv (MkPages (in_allocator s) (in_refs s) m) (fun _ => 0);
  io_regions : forall sh, sh ∈ shapes (in_allocator s) -> region_of set i sh;
  io_len : (length (in_refs s) <= i)%nat;
  io_usable : in_usable s = PGSIZE * buddy_free_page_count (in_allocator s);
  io_bound : forall j r, view set !! j = Some r -> (i <= j)%nat -> in_usable s <= r_start r }.

Lemma region_of_mono set i i' s : (i <= i')%nat -> region_of set i s -> region_of set i' s.
Proof. intros Hle (j & r & o & ? & ?). exists j, r, o. split; [lia|done]. Qed.

(** The sizes computed for a range. *)
Lemma metadata_spec start finish :
  0 <= start < finish -> finish <= MAXVA -> start mod PGSIZE = 0 -> finish mod PGSIZE = 0 ->
  let pages := (finish - start) / PGSIZE in
  let refs_offset := Z.land (pages +64 PAGE_REF_ALIGNMENT -64 1) (Z.lnot (PAGE_REF_ALIGNMENT - 1)) in
  let metadata := PGROUNDUP (refs_offset +64 pages *64 4) in
  (UINT64_MAX - refs_offset) / 4 <? pages = false /\
  pages <= refs_offset /\ refs_offset + 4 * pages <= metadata < 2 ^ 40 /\ metadata mod PGSIZE = 0 /\
  finish - start = PGSIZE * pages /\ 0 <= pages < 2 ^ 27.
Proof.
  intros Hs Hf Hsm Hfm pages. unfold MAXVA in Hf. change (Z.shiftl 1 _) with (2 ^ 38) in Hf.
  assert (Hp : finish - start = PGSIZE * pages) by (unfold pages, PGSIZE in *; Z.div_mod_to_equations; lia).
  assert (0 <= pages < 2 ^ 27) by (unfold PGSIZE in *; lia). clearbody pages. intros ro md.
  assert (Hro : pages <= ro < pages + 4).
  { subst ro. unfold PAGE_REF_ALIGNMENT. rewrite wrap64_sub_l. unwrap64. rewrite (land_lnot_ones _ 2) by lia.
    change (2 ^ 2) with 4. Z.div_mod_to_equations. lia. }
  clearbody ro. subst md. unwrap64.
  destruct (PGROUNDUP_ge (ro + pages * 4)) as [Hm ?]; [lia|unfold PGSIZE; lia|]. unfold PGSIZE in *.
  rewrite Z.ltb_ge. split_and!; try lia. unfold UINT64_MAX. Z.div_mod_to_equations. lia.
Qed.

Lemma init_range_spec set usable hs m i s :
  discovered set usable hs -> (i < count set)%nat -> init_ok set m i s ->
  wp (init_range set m s (Z.of_nat i)) (init_ok set m (S i)) boot_panic.
Proof.
  intros HD Hi HI. unfold init_range. pose proof (di_wf _ _ _ HD) as Hwf.
  destruct (memrange_get_correct set i Hwf Hi) as (r & Hr & ->). rewrite ret_bind.
  assert (Hrin := list_elem_of_lookup_2 _ _ _ Hr). destruct (discovered_aligned _ _ _ _ HD Hrin) as [Hsm Hfm].
  pose proof (di_sv39 _ _ _ HD _ Hrin) as Hmax. destruct Hwf as (_ & Hcnt & Ho).
  pose proof (proj1 (Forall_forall _ _) (ordered_above _ _ Ho) r Hrin) as Hab. cbn in Hab.
  assert (Hks : hs <= r_start r).
  { apply (di_covered _ _ _ HD). apply Exists_exists. exists r. split; [done|]. unfold in_range. lia. }
  pose proof kernel_end_bounds as Hke. rewrite <-(di_heap _ _ _ HD) in Hke. unfold KERNEL_BASE in Hke.
  assert (Hmax' : r_end r <= 2 ^ 38) by exact Hmax.
  rewrite (wrap64_id (r_end r - r_start r)) by (unfold is_u64; lia).
  destruct (metadata_spec (r_start r) (r_end r)) as (Hg & Hro & Hmd & Hmm & Hpg & Hpb); [lia|done..|].
  cbn zeta in *. rewrite Hg. set (pages := (r_end r - r_start r) / PGSIZE) in *.
  set (ro := Z.land _ _) in *. set (md := PGROUNDUP _) in *. clearbody ro md.
  assert (Hpeq : (r_end r - r_start r) / PGSIZE = pages) by done. clearbody pages.
  destruct HI as [HP Hreg Hlen Hus Hbd].
  destruct (Z.leb_spec (r_end r - r_start r) md) as [|Hbig].
  { split; [done| |lia|done|].
    - intros sh Hsh. eapply region_of_mono; [|by apply Hreg]. lia.
    - intros j q Hj ?. apply (Hbd j q Hj). lia. }
  rewrite (wrap64_id (r_start r + md)) by (unfold is_u64; lia).
  assert (Hreglen : length (regions (in_allocator s)) = length (in_refs s)).
  { pose proof (pi_bounds _ _ HP) as Hb. apply (f_equal length) in Hb. unfold shapes in Hb.
    rewrite !length_fmap in Hb. done. }
  destruct (buddy_add_region_Ret (in_allocator s) (r_start r) (r_end r) (r_start r + md)
              (m <$> seqZ (r_start r) pages) pages) as (A' & -> & Hok & Hs & Hal & Hfree);
    [apply HP| |lia|lia|rewrite length_fmap, length_seqZ; lia|].
  { split_and!; try lia; try done.
    - unfold PGSIZE in *. Z.div_mod_to_equations. lia.
    - intros q Hq%list_elem_of_lookup. destruct Hq as [k Hk]. right.
      destruct (Hreg _ (shape_elem _ _ _ Hk)) as (j & r' & o & Hj & Hr' & _ & He & _).
      pose proof (ordered_lookup _ _ _ _ _ _ Ho Hj Hr' Hr). cbn in He. lia. }
  rewrite ret_bind. change (0 <? 0) with false. cbn iota.
  rewrite (proj2 (Nat.leb_gt _ _)) by lia.
  assert (Hfb : in_usable s <= r_start r) by (by apply (Hbd i r Hr)).
  assert (0 <= buddy_free_page_count (in_allocator s)).
  { destruct (pi_buddy _ _ HP) as [B HIB]. cbn in HIB. unfold buddy_free_page_count. rewrite (i_free _ _ _ _ HIB). pose proof (free_le_all B). lia. }
  assert (Hrest : PGSIZE * ((r_end r - (r_start r + md)) / PGSIZE) = r_end r - r_start r - md).
  { unfold PGSIZE in *. Z.div_mod_to_equations. lia. }
  unfold buddy_free_page_count in *.
  rewrite (wrap64_id (r_end r - r_start r - md)), (wrap64_id (in_usable s + _)) by (unfold is_u64, PGSIZE in *; lia).
  split; cbn [in_allocator in_refs in_usable].
  - destruct HP as [_ Hb Hrf _ Hal0]. cbn in *. split; cbn; [done| | |done|].
    + rewrite Hs, !fmap_app, Hb. done.
    + intros k q a [Hq|[_ Hq]]%lookup_app_Some Ha Hm'; [by eapply Hrf|].
      apply list_lookup_singleton_Some in Hq as [_ <-]. cbn in *. apply lookup_replicate_2.
      unfold PGSIZE in *. Z.div_mod_to_equations. lia.
    + intros a. by rewrite Hal.
  - intros sh. rewrite Hs. intros [Hsh|Hsh%list_elem_of_singleton]%elem_of_app.
    + eapply region_of_mono; [|by apply Hreg]. lia.
    + subst sh. exists i, r, ro. cbn. rewrite Hpeq. split_and!; try done; lia.
  - rewrite length_app. cbn. lia.
  - unfold buddy_free_page_count. rewrite Hfree. lia.
  - intros j q Hj Hle. pose proof (ordered_lookup _ _ i j _ _ Ho ltac:(lia) Hr Hj). lia.
Qed.

(** The whole of [palloc_init]. *)
Record initialised (H : heap pages) (set : memrange_set) (usable hs : Z) : Prop := {
  ini_ranges : exists bytes, discovered set bytes hs;
  ini_pages : pages_ok (source H);
  ini_heap : hpages H = ∅ /\ pool H = 0;
  ini_usable : 0 < usable /\ palloc_free_pages (source H) = usable / PGSIZE;
  ini_regions : forall s, s ∈ shapes (page_allocator (source H)) -> region_of set (count set) s }.

Lemma palloc_init_spec poison set0 m :
  length (ranges set0) = MEMRANGE_MAX ->
  wp (palloc_init nmem nres mem_get res_get image_end poison set0 m)
    (fun '(H, set, usable, hs) => initialised H set usable hs) boot_panic.
Proof.
  intros Hlen. unfold palloc_init. eapply wp_bind; [by apply discover_spec|].
  intros [[set bytes] hs] HD.
  eapply wp_bind; [apply (wp_for_each _ (fun pre s => init_ok set m (length pre) s))|].
  { split; cbn; [|set_solver|done|done|].
    - split; cbn; [exists ∅; apply buddy_init_inv|done|by intros i r a ?|done|].
      intros a. rewrite (is_allocated_iff _ _ _ _ buddy_init_inv), lookup_empty. done.
    - intros j r Hr _. destruct (di_wf _ _ _ HD) as (_ & _ & Ho).
      pose proof (proj1 (Forall_forall _ _) (ordered_above _ _ Ho) r (list_elem_of_lookup_2 _ _ _ Hr)) as Hab.
      cbn in Hab. lia. }
  { intros pre x post s He HI. destruct (seqZ_prefix _ _ _ _ He) as [-> Hx]. rewrite length_app. cbn [length].
    rewrite Nat.add_1_r. eapply init_range_spec; [done|lia|done]. }
  intros s HI. rewrite length_seqZ, Nat2Z.id in HI. destruct HI as [HP Hreg _ Hus _].
  destruct (Z.eqb_spec (in_usable s) 0) as [|Hnz]; [panic|]. unfold buddy_free_page_count in Hus.
  assert (Hfree0 : 0 <= Buddy.free_pages (in_allocator s)).
  { destruct (pi_buddy _ _ HP) as [B HIB]. cbn in HIB. rewrite (i_free _ _ _ _ HIB). pose proof (free_le_all B). lia. }
  assert (HI : @heap_inv _ (pages_source poison)
                 (MkHeap (MkPages (in_allocator s) (in_refs s) m) ∅ ∅ 0) ∅ []).
  { apply empty_heap_ok. exists (fun _ => 0). exact HP. }
  destruct (@selftest_spec _ _ (pages_source_laws poison) _ _ HI) as (H' & -> & HI' & Hf & Hs).
  { cbn. unfold palloc_free_pages, buddy_free_page_count. cbn. lia. }
  rewrite ret_bind. cbn in Hf, Hs.
  assert (Hacc : palloc_free_pages (source H') = in_usable s / PGSIZE).
  { rewrite Hf, Hus, Z.mul_comm, Z.div_mul by done. done. }
  rewrite Hacc, Z.eqb_refl. cbn [negb wp]. split.
  - by exists bytes.
  - apply HI'.
  - split; [|apply (h_chain _ _ _ HI')]. apply map_eq. intros a. rewrite lookup_empty.
    destruct (hpages H' !! a) as [pg|] eqn:Hpg; [|done].
    destruct (h_pages _ _ _ HI' _ _ Hpg) as (bl & Hbl & _). by rewrite lookup_empty in Hbl.
  - unfold PGSIZE in *. split; [lia|done].
  - rewrite Hs. done.
Qed.
End discovery.

(** ** Properties *)

(** Inputs as drivers/of reports them and the linker script places them. *)
Definition boot_inputs (mem_get res_get : Z -> option (Z * Z)) (image_end : Z) (set0 : memrange_set) : Prop :=
  (forall i s n, mem_get i = Some (s, n) -> is_u64 s /\ is_u64 n) /\
  (forall i s n, res_get i = Some (s, n) -> is_u64 s /\ is_u64 n) /\
  KERNEL_BASE < image_end < MAXVA /\ length (ranges set0) = MEMRANGE_MAX.

(** Memory discovery.  When it returns, the managed ranges are page aligned,
    below the end of the direct map and cover exactly the pages that lie inside
    a memory range of the device tree, behind the kernel image and outside every
    page touched by a reserved range; otherwise it panics with one of its
    messages. *)
Theorem palloc_discover_memory_correct nmem nres mem_get res_get image_end set0 :
  boot_inputs mem_get res_get image_end set0 ->
  wp (palloc_discover_memory nmem nres mem_get res_get image_end set0)
    (fun '(set, usable, heap_start) =>
       wf set /\ heap_start = PGROUNDUP image_end /\ usable = range_bytes (view set) /\
       (forall x, covered (view set) x <->
          in_memory nmem mem_get x /\ heap_start <= x /\ ~ in_reserved nres res_get x) /\
       forall r, r ∈ view set -> r_start r mod PGSIZE = 0 /\ r_end r mod PGSIZE = 0 /\ r_end r <= MAXVA)
    (fun why => why ∈ boot_panics).
Proof.
  intros (Hm & Hr & He & Hl). eapply wp_mono; [by apply discover_spec| |auto].
  intros [[set usable] hs] HD. split; [apply HD|]. split; [apply HD|]. split; [apply HD|]. split; [apply HD|].
  intros r Hin. destruct (discovered_aligned _ _ _ _ _ Hm He _ _ _ r HD Hin) as [? ?].
  split; [done|]. split; [done|]. by apply (di_sv39 _ _ _ _ _ _ _ _ HD).
Qed.

(** Initialisation of the page allocator.  When [palloc_init] returns, the
    allocator invariant holds and the heap is empty; every block that can be
    handed out lies in managed memory, outside the kernel and every reserved
    page, and behind the state bytes and reference counts of its region, which
    do not overlap; the free-page count is [usable_bytes / PGSIZE].  The
    self-test and the accounting check never panic. *)
Theorem palloc_init_correct nmem nres mem_get res_get image_end poison set0 m :
  boot_inputs mem_get res_get image_end set0 ->
  wp (palloc_init nmem nres mem_get res_get image_end poison set0 m)
    (fun '(H, set, usable, heap_start) =>
       pages_ok (source H) /\ hpages H = ∅ /\ 0 < usable /\
       palloc_free_pages (source H) = usable / PGSIZE /\
       (forall s a k x, s ∈ shapes (page_allocator (source H)) -> fits s a k ->
          a <= x < a + buddy_order_size k ->
          in_memory nmem mem_get x /\ heap_start <= x /\ ~ in_reserved nres res_get x) /\
       forall s, s ∈ shapes (page_allocator (source H)) -> region_of set (count set) s)
    (fun why => why ∈ boot_panics).
Proof.
  intros (Hm & Hr & He & Hl). eapply wp_mono; [by apply palloc_init_spec| |auto].
  intros [[[H set] usable] hs] [[bytes HD] Hp [Hh _] [Hu Hf] Hreg].
  split; [done|]. split; [done|]. split; [done|]. split; [done|]. split; [|done].
  intros s a k x Hs Hfit Hx. apply (di_covered _ _ _ _ _ _ _ _ HD).
  destruct (Hreg s Hs) as (j & r & o & _ & Hj & Hst & Hen & Hro & Hal). apply Exists_exists. exists r.
  split; [by eapply list_elem_of_lookup_2|]. destruct Hfit as (_ & ? & _ & ?). unfold in_range.
  assert (0 <= (r_end r - r_start r) / PGSIZE).
  { apply Z.div_pos; [|done]. destruct (di_wf _ _ _ _ _ _ _ _ HD) as (_ & _ & Ho).
    pose proof (proj1 (Forall_forall _ _) (ordered_above _ _ Ho) r (list_elem_of_lookup_2 _ _ _ Hj)) as Hab.
    cbn in Hab. lia. }
  lia.
Qed.

(** One bank of 4 MiB at the base of RAM, the firmware reserved. *)
Definition example_memory (i : Z) : option (Z * Z) := if i =? 0 then Some (0x80000000, 0x400000) else None.
Definition example_reserved (i : Z) : option (Z * Z) := if i =? 0 then Some (0x80000000, 0x40000) else None.
Definition empty_ranges : memrange_set := MkSet (replicate MEMRANGE_MAX (MkRange 0 0)) 0.

Lemma example_boot : boot_inputs example_memory example_reserved 0x80300000 empty_ranges.
Proof.
  split; [|split; [|split; [done|done]]]; intros i s n; unfold example_memory, example_reserved;
    destruct (i =? 0); [|done| |done]; intros [= <- <-]; unfold is_u64; lia.
Qed.

Lemma palloc_discover_memory_witness :
  exists set usable hs,
    palloc_discover_memory 1 1 example_memory example_reserved 0x80300000 empty_ranges = Ret (set, usable, hs) /\
    wf set /\ usable = 0x100000.
Proof.
  pose proof (palloc_discover_memory_correct 1 1 _ _ _ _ example_boot) as Hd.
  destruct (palloc_discover_memory _ _ _ _ _ _) as [[[set usable] hs]| |] eqn:He;
    vm_compute in He; [|discriminate He..].
  exists set, usable, hs. split; [reflexivity|]. split; [apply Hd|]. by injection He as <- <- <-.
Defined.

(** The address of the heap and the pages that are free after initialisation. *)
Definition boot_result (r : outcome (heap pages * memrange_set * Z * Z)) : option (Z * Z) :=
  match r with Ret (H, _, _, hs) => Some (hs, palloc_free_pages (source H)) | _ => None end.

Lemma palloc_init_witness :
  exists H set usable hs,
    palloc_init 1 1 example_memory example_reserved 0x80300000 false empty_ranges (fun _ => 0) =
      Ret (H, set, usable, hs) /\ pages_ok (source H) /\ hs = 0x80300000 /\ palloc_free_pages (source H) = 255.
Proof.
  pose proof (palloc_init_correct 1 1 _ _ _ false _ (fun _ => 0) example_boot) as Hi.
  assert (Hv : boot_result (palloc_init 1 1 example_memory example_reserved 0x80300000 false empty_ranges
                              (fun _ => 0)) = Some (0x80300000, 255)) by (vm_compute; reflexivity).
  revert Hi Hv. generalize (palloc_init 1 1 example_memory example_reserved 0x80300000 false empty_ranges (fun _ => 0)).
  intros [[[[H set] usable] hs]| |] Hi Hv; [|discriminate Hv..]. injection Hv as -> Hv.
  exists H, set, usable, 0x80300000. split; [reflexivity|]. split; [apply Hi|]. split; [reflexivity|exact Hv].
Defined.
