(* ===== verification/Vma.v ===== *)
(** * Virtual memory areas (kernel/vma.c)

    A [vma_set] is the sequence of areas its circular list holds; a pointer to an
    area is its index.  The world counts the references an area takes and the
    areas allocated, and an oracle answers the calls that may fail ([malloc] and
    [vfs_exec_mapping_get]), so that every error path is covered.  A file or
    backing of 0 is the null pointer. *)
From S2P Require Import Prelude.

Inductive vma_origin := VMA_ANONYMOUS | VMA_FILE_BACKED.
Inductive vma_usage := VMA_ELF | VMA_HEAP | VMA_STACK | VMA_MMAP.
#[export] Instance vma_origin_eq : EqDecision vma_origin.
Proof. solve_decision. Defined.
#[export] Instance vma_usage_eq : EqDecision vma_usage.
Proof. solve_decision. Defined.

Record vm_area := MkArea {
  start : Z; end_ : Z; offset : Z; file_length : Z;
  protection : Z; flags : Z; origin : vma_origin; usage : vma_usage;
  file : Z; backing : Z }.

Definition LINUX_PROT_WRITE : Z := 0x2.
Definition LINUX_PROT_EXEC : Z := 0x4.
Definition LINUX_MAP_PRIVATE : Z := 0x02.

(** References held on files, write denials of executable mappings, references
    on backings, live [struct vm_area]s, and the answers still to come. *)
Record world := MkWorld {
  file_refs : gmap Z Z;
  exec_refs : gmap Z Z;
  backing_refs : gmap Z Z;
  areas_live : Z;
  oracle : nat -> bool;
  calls : nat }.

Definition bump (m : gmap Z Z) (k d : Z) : gmap Z Z := <[k := default 0 (m !! k) + d]> m.

(** The answer to the next call that may fail. *)
Definition ask (w : world) : bool * world :=
  (oracle w (calls w),
   MkWorld (file_refs w) (exec_refs w) (backing_refs w) (areas_live w) (oracle w) (S (calls w))).

Definition add_file (w : world) (f d : Z) : world :=
  MkWorld (bump (file_refs w) f d) (exec_refs w) (backing_refs w) (areas_live w) (oracle w) (calls w).
Definition add_exec (w : world) (f d : Z) : world :=
  MkWorld (file_refs w) (bump (exec_refs w) f d) (backing_refs w) (areas_live w) (oracle w) (calls w).
Definition add_backing (w : world) (b d : Z) : world :=
  MkWorld (file_refs w) (exec_refs w) (bump (backing_refs w) b d) (areas_live w) (oracle w) (calls w).
Definition add_area (w : world) (d : Z) : world :=
  MkWorld (file_refs w) (exec_refs w) (backing_refs w) (areas_live w + d) (oracle w) (calls w).

Definition is_file (a : vm_area) : bool := bool_decide (origin a = VMA_FILE_BACKED).
Definition is_elf (u : vma_usage) : bool := bool_decide (u = VMA_ELF).

Definition with_end (a : vm_area) (e : Z) : vm_area :=
  MkArea (start a) e (offset a) (file_length a) (protection a) (flags a) (origin a) (usage a) (file a) (backing a).
Definition with_length (a : vm_area) (n : Z) : vm_area :=
  MkArea (start a) (end_ a) (offset a) n (protection a) (flags a) (origin a) (usage a) (file a) (backing a).
Definition with_protection (a : vm_area) (p : Z) : vm_area :=
  MkArea (start a) (end_ a) (offset a) (file_length a) p (flags a) (origin a) (usage a) (file a) (backing a).

(** ** Allocation *)

Definition vma_allocate (w : world) (start end_ protection flags : Z) (origin : vma_origin)
  (usage : vma_usage) (file backing offset file_length : Z) : option vm_area * world :=
  let (ok, w) := ask w in
  if negb ok then (None, w) else
  let w := add_area w 1 in
  let (ok, w) := if truth file && is_elf usage then ask w else (true, w) in
  if negb ok then (None, add_area w (-1)) else
  let w := if truth file && is_elf usage then add_exec w file 1 else w in
  let w := if truth file then add_file w file 1 else w in
  let w := if truth backing then add_backing w backing 1 else w in
  (Some (MkArea start end_ offset file_length protection flags origin usage file backing), w).

Definition vma_allocate_split (w : world) (area : vm_area) (start' : Z) : option vm_area * world :=
  let delta := start' -64 start area in
  let off := if is_file area || truth (backing area) then offset area +64 delta else offset area in
  let len := if is_file area
             then (if delta <? file_length area then file_length area - delta else 0)
             else file_length area in
  vma_allocate w start' (end_ area) (protection area) (flags area) (origin area) (usage area)
    (file area) (backing area) off len.

Definition vma_release (w : world) (area : vm_area) : world :=
  let w := if truth (file area) then
             let w := if is_elf (usage area) then add_exec w (file area) (-1) else w in
             add_file w (file area) (-1)
           else w in
  let w := if truth (backing area) then add_backing w (backing area) (-1) else w in
  add_area w (-1).

(** ** Merging *)

Definition vma_can_merge (left right : vm_area) : bool :=
  if negb (end_ left =? start right) || negb (protection left =? protection right) ||
     negb (flags left =? flags right) || negb (bool_decide (origin left = origin right)) ||
     negb (bool_decide (usage left = usage right)) || negb (file left =? file right) ||
     negb (backing left =? backing right)
  then false else
  let next_offset := offset left +64 end_ left -64 start left in
  if is_file left && (negb (file_length left =? end_ left -64 start left) ||
                      (next_offset <? offset left) || negb (next_offset =? offset right))
  then false else
  if truth (backing left) && ((next_offset <? offset left) || negb (next_offset =? offset right))
  then false else true.

(** [vma_merge_pair]: the merged area; [right] leaves the list and is released. *)
Definition vma_merge_pair (left right : vm_area) : vm_area :=
  let left := if is_file left then with_length left (file_length left +64 file_length right) else left in
  with_end left (end_ right).

(** [vma_merge_all] from the node [a] on. *)
Fixpoint merge_from (a : vm_area) (l : list vm_area) (w : world) : list vm_area * world :=
  match l with
  | [] => ([a], w)
  | b :: l =>
      if vma_can_merge a b then merge_from (vma_merge_pair a b) l (vma_release w b)
      else let (l, w) := merge_from b l w in (a :: l, w)
  end.

Definition vma_merge_all (set : list vm_area) (w : world) : list vm_area * world :=
  match set with [] => ([], w) | a :: l => merge_from a l w end.

(** ** Sets *)

Definition vma_set_init : list vm_area := [].

Fixpoint vma_set_destroy (set : list vm_area) (w : world) : list vm_area * world :=
  match set with [] => ([], w) | a :: l => vma_set_destroy l (vma_release w a) end.

(** For two different sets; the result is the destination and the source. *)
Definition vma_set_move (destination source : list vm_area) (w : world)
  : list vm_area * list vm_area * world :=
  let (d, w) := vma_set_destroy destination w in
  match source with [] => (d, source, w) | _ => (source, [], w) end.

(** ** Lookup *)

Fixpoint vma_find_from (l : list vm_area) (address : Z) (i : nat) : option nat :=
  match l with
  | [] => None
  | area :: l =>
      if address <? start area then None
      else if address <? end_ area then Some i
      else vma_find_from l address (S i)
  end.
Definition vma_find (set : list vm_area) (address : Z) : option nat := vma_find_from set address 0.

Fixpoint range_free_loop (l : list vm_area) (s e : Z) : bool :=
  match l with
  | [] => true
  | area :: l =>
      if e <=? start area then true
      else if s <? end_ area then false
      else range_free_loop l s e
  end.
Definition vma_range_free (set : list vm_area) (s e : Z) : bool :=
  if e <=? s then false else range_free_loop set s e.

Fixpoint range_mapped_loop (l : list vm_area) (cursor e : Z) : bool :=
  match l with
  | [] => false
  | area :: l =>
      if end_ area <=? cursor then range_mapped_loop l cursor e
      else if cursor <? start area then false
      else if e <=? end_ area then true
      else range_mapped_loop l (end_ area) e
  end.
Definition vma_range_mapped (set : list vm_area) (s e : Z) : bool :=
  if e <=? s then false else range_mapped_loop set s e.

Definition vma_count (set : list vm_area) : Z := Z.of_nat (length set).

(** ** Insertion *)

(** Where the new area goes; [None] when it overlaps another. *)
Fixpoint insert_slot (l : list vm_area) (s e : Z) (i : nat) : option nat :=
  match l with
  | [] => Some i
  | current :: l =>
      if e <=? start current then Some i
      else if s <? end_ current then None
      else insert_slot l s e (S i)
  end.

Definition insert_rejects (s e : Z) (org : vma_origin) (f b off len : Z) : bool :=
  let fb := bool_decide (org = VMA_FILE_BACKED) in
  (e <=? s) || truth (s mod PGSIZE) || truth (e mod PGSIZE) || (MAXVA <? e) ||
  truth (off mod PGSIZE) || (e - s <? len) ||
  ((fb || truth b) && (UINT64_MAX - off <? e - s)) ||
  negb (Bool.eqb fb (truth f)) ||
  (truth b && (negb (bool_decide (org = VMA_ANONYMOUS)) || truth f)) ||
  (negb fb && truth len).

(** The merges with the neighbours of the area just inserted between [pre]
    (in reverse) and [post]. *)
Definition merge_prev (pre : list vm_area) (area : vm_area) (w : world) : list vm_area * vm_area * world :=
  match pre with
  | p :: pre' => if vma_can_merge p area then (pre', vma_merge_pair p area, vma_release w area)
                 else (pre, area, w)
  | [] => (pre, area, w)
  end.
Definition merge_next (area : vm_area) (post : list vm_area) (w : world) : vm_area * list vm_area * world :=
  match post with
  | n :: post' => if vma_can_merge area n then (vma_merge_pair area n, post', vma_release w n)
                  else (area, post, w)
  | [] => (area, post, w)
  end.

Definition vma_insert_file_length (set : list vm_area) (w : world) (s e prot fl : Z) (org : vma_origin)
  (us : vma_usage) (f b off len : Z) : Z * list vm_area * world :=
  if insert_rejects s e org f b off len then (-1, set, w) else
  match insert_slot set s e 0 with
  | None => (-1, set, w)
  | Some i =>
      match vma_allocate w s e prot fl org us f b off len with
      | (None, w) => (-1, set, w)
      | (Some area, w) =>
          let '(pre, area, w) := merge_prev (reverse (take i set)) area w in
          let '(area, post, w) := merge_next area (drop i set) w in
          (0, reverse pre ++ area :: post, w)
      end
  end.

Definition vma_insert (set : list vm_area) (w : world) (s e prot fl : Z) (org : vma_origin)
  (us : vma_usage) (f off : Z) : Z * list vm_area * world :=
  vma_insert_file_length set w s e prot fl org us f 0 off
    (if bool_decide (org = VMA_FILE_BACKED) then e -64 s else 0).

(** A backing has both of its operations. *)
Definition vma_insert_backed (set : list vm_area) (w : world) (s e prot fl : Z) (us : vma_usage) (b off : Z)
  : Z * list vm_area * world :=
  if negb (truth b) then (-1, set, w)
  else vma_insert_file_length set w s e prot fl VMA_ANONYMOUS us 0 b off 0.

Fixpoint clone_loop (source : list vm_area) (destination : list vm_area) (w : world)
  : Z * list vm_area * world :=
  match source with
  | [] => (0, destination, w)
  | area :: source =>
      let '(rc, destination, w) :=
        vma_insert_file_length destination w (start area) (end_ area) (protection area) (flags area)
          (origin area) (usage area) (file area) (backing area) (offset area) (file_length area) in
      if rc <? 0 then let (d, w) := vma_set_destroy destination w in (-1, d, w)
      else clone_loop source destination w
  end.

(** For two different sets. *)
Definition vma_set_clone (destination source : list vm_area) (w : world) : Z * list vm_area * world :=
  let (d, w) := vma_set_destroy destination w in clone_loop source d w.

(** [overlap->end = e], with the file length cut to the new size. *)
Definition trim_end (a : vm_area) (e : Z) : vm_area :=
  let a := with_end a e in
  if end_ a -64 start a <? file_length a then with_length a (end_ a -64 start a) else a.

(** [list_insert_after] the area at index [i]. *)
Definition insert_after (set : list vm_area) (i : nat) (a : vm_area) : list vm_area :=
  take (S i) set ++ a :: drop (S i) set.

(** The shared page becomes anonymous, or covers more of the file. *)
Definition elf_overlap (overlap : vm_area) (prot f off len : Z) (w : world) : vm_area * world :=
  let o := with_protection overlap (Z.lor (protection overlap) prot) in
  if is_file o && (negb (file o =? f) || negb (offset o =? off)) then
    (MkArea (start o) (end_ o) 0 0 (protection o) (flags o) VMA_ANONYMOUS (usage o) 0 (backing o),
     add_file (add_exec w (file o) (-1)) (file o) (-1))
  else if is_file o && (file_length o <? len) then
    (with_length o (if len <? PGSIZE then len else PGSIZE), w)
  else (o, w).

(** The end of [vma_insert_elf_file]: the part after the shared page. *)
Definition elf_finish (set : list vm_area) (w : world) (s e prot f off len : Z)
  : outcome (Z * list vm_area * world) :=
  let '(rc, set, w) :=
    if s <? e then vma_insert_file_length set w s e prot LINUX_MAP_PRIVATE VMA_FILE_BACKED VMA_ELF f 0 off len
    else (0, set, w) in
  if rc <? 0 then Ret (-1, set, w)
  else let (set, w) := vma_merge_all set w in Ret (0, set, w).

Definition vma_insert_elf_file (set : list vm_area) (w : world) (s e prot f off len : Z)
  : outcome (Z * list vm_area * world) :=
  if negb (truth f) || (e <=? s) || truth (s mod PGSIZE) || truth (e mod PGSIZE) || (MAXVA <? e) ||
     truth (off mod PGSIZE) || (UINT64_MAX - off <? e - s) || (e - s <? len)
  then Ret (-1, set, w) else
  match vma_find set s with
  | None => elf_finish set w s e prot f off len
  | Some i =>
      overlap ← rd set i;
      let overlap_end := s +64 PGSIZE in
      if (overlap_end <? s) || (e <? overlap_end) || negb (end_ overlap =? overlap_end) ||
         negb (is_elf (usage overlap)) || negb (flags overlap =? LINUX_MAP_PRIVATE)
      then Ret (-1, set, w) else
      if truth (Z.land (Z.lor (protection overlap) prot) LINUX_PROT_WRITE) &&
         truth (Z.land (Z.lor (protection overlap) prot) LINUX_PROT_EXEC)
      then Ret (-1, set, w) else
      let off' := off +64 PGSIZE in
      let len' := if PGSIZE <? len then len - PGSIZE else 0 in
      if start overlap <? s then
        match vma_allocate_split w overlap s with
        | (None, w) => Ret (-1, set, w)
        | (Some area, w) =>
            set ← wr set i (trim_end overlap s);
            let (area, w) := elf_overlap area prot f off len w in
            elf_finish (insert_after set i area) w overlap_end e prot f off' len'
        end
      else
        let (overlap, w) := elf_overlap overlap prot f off len w in
        set ← wr set i overlap;
        elf_finish set w overlap_end e prot f off' len'
  end.

Definition vma_insert_elf (set : list vm_area) (w : world) (s e prot f off : Z)
  : outcome (Z * list vm_area * world) :=
  vma_insert_elf_file set w s e prot f off (e -64 s).

(** ** Searching a gap: [None] is the -1 result *)

Definition align_up_offset (value alignment off : Z) : option Z :=
  let mask := alignment - 1 in
  let residue := Z.land off mask in
  if value <=? residue then Some residue else
  let delta := value - residue in
  if UINT64_MAX - mask <? delta then None
  else Some (residue +64 Z.land (delta + mask) (Z.lnot mask)).

Definition align_down_offset (value alignment off : Z) : option Z :=
  let mask := alignment - 1 in
  let residue := Z.land off mask in
  if value <? residue then None
  else Some (residue + Z.land (value - residue) (Z.lnot mask)).

Definition gap_aligned_address (s e len alignment align_offset : Z) : option Z :=
  if (e <=? s) || (e - s <? len) then None else
  match align_down_offset (e - len) alignment align_offset with
  | None => None
  | Some candidate => if candidate <? s then None else Some candidate
  end.

(** The loop from the last area to the first; [l] is the list in reverse. *)
Fixpoint gap_loop (l : list vm_area) (low cursor len alignment align_offset : Z) : option Z :=
  match l with
  | [] => gap_aligned_address low cursor len alignment align_offset
  | area :: l =>
      if cursor <=? start area then gap_loop l low cursor len alignment align_offset
      else if end_ area <=? low then gap_aligned_address low cursor len alignment align_offset
      else
        let gap_start := if low <? end_ area then end_ area else low in
        let found := if end_ area <? cursor
                     then gap_aligned_address gap_start cursor len alignment align_offset else None in
        match found with
        | Some address => Some address
        | None =>
            let cursor := if start area <? cursor then start area else cursor in
            if cursor <=? low then None else gap_loop l low cursor len alignment align_offset
        end
  end.

Definition gap_rejects (low high hint len alignment align_offset : Z) : bool :=
  (high <=? low) || negb (truth len) || truth (low mod PGSIZE) || truth (high mod PGSIZE) ||
  truth (len mod PGSIZE) || (truth hint && truth (hint mod PGSIZE)) || (alignment <? PGSIZE) ||
  truth (Z.land alignment (alignment - 1)) || truth (align_offset mod PGSIZE) || (high - low <? len).

Definition vma_find_gap_aligned (set : list vm_area) (low high hint len alignment align_offset : Z)
  : option Z :=
  if gap_rejects low high hint len alignment align_offset then None else
  let at_hint :=
    if (low <=? hint) && (hint <=? high - len) then
      match align_up_offset hint alignment align_offset with
      | None => None
      | Some candidate =>
          if (candidate <=? high - len) && vma_range_free set candidate (candidate +64 len)
          then Some candidate else None
      end
    else None in
  match at_hint with
  | Some address => Some address
  | None => gap_loop (reverse set) low high len alignment align_offset
  end.

Definition vma_find_gap (set : list vm_area) (low high hint len : Z) : option Z :=
  vma_find_gap_aligned set low high hint len PGSIZE 0.

(** ** Unmapping *)

(** [area->start = e] with offset and file length moved along. *)
Definition trim_start (a : vm_area) (e : Z) : vm_area :=
  let delta := e -64 start a in
  MkArea e (end_ a)
    (if is_file a || truth (backing a) then offset a +64 delta else offset a)
    (if is_file a then (if delta <? file_length a then file_length a - delta else 0) else file_length a)
    (protection a) (flags a) (origin a) (usage a) (file a) (backing a).

(** The result also gives the split area if it was not used. *)
Fixpoint unmap_loop (l : list vm_area) (s e : Z) (split : option vm_area) (w : world)
  : outcome (list vm_area * option vm_area * world) :=
  match l with
  | [] => Ret ([], split, w)
  | area :: l =>
      if end_ area <=? s then
        '(l, split, w) ← unmap_loop l s e split w; Ret (area :: l, split, w)
      else if e <=? start area then Ret (area :: l, split, w)
      else if (s <=? start area) && (end_ area <=? e) then unmap_loop l s e split (vma_release w area)
      else if s <=? start area then Ret (trim_start area e :: l, split, w)
      else if end_ area <=? e then
        '(l, split, w) ← unmap_loop l s e split w; Ret (trim_end area s :: l, split, w)
      else
        sp ← deref split;
        Ret (trim_end area s :: sp :: l, None, w)
  end.

Definition vma_unmap (set : list vm_area) (w : world) (s e : Z) : outcome (Z * list vm_area * world) :=
  if (e <=? s) || truth (s mod PGSIZE) || truth (e mod PGSIZE) then Ret (-1, set, w) else
  let area := vma_find set s ≫= (fun i => set !! i) in
  let need := match area with Some a => (start a <? s) && (e <? end_ a) | None => false end in
  let '(split, w) := match area with
                     | Some a => if need then vma_allocate_split w a e else (None, w)
                     | None => (None, w)
                     end in
  if need && negb (bool_decide (is_Some split)) then Ret (-1, set, w) else
  '(set, split, w) ← unmap_loop set s e split w;
  Ret (0, set, match split with Some sp => vma_release w sp | None => w end).

(** ** Changing protection *)

Fixpoint protect_loop (l : list vm_area) (s e prot : Z) : list vm_area :=
  match l with
  | [] => []
  | area :: l =>
      if end_ area <=? s then area :: protect_loop l s e prot
      else if e <=? start area then area :: l
      else with_protection area prot :: protect_loop l s e prot
  end.

(** Cut the area at index [i] at [at_] and put [split] behind it. *)
Definition cut_area (set : list vm_area) (i : nat) (at_ : Z) (split : vm_area) : outcome (list vm_area) :=
  a ← rd set i;
  set ← wr set i (trim_end a at_);
  Ret (insert_after set i split).

Definition vma_protect (set : list vm_area) (w : world) (s e prot : Z) : outcome (Z * list vm_area * world) :=
  if (e <=? s) || truth (s mod PGSIZE) || truth (e mod PGSIZE) || negb (vma_range_mapped set s e)
  then Ret (-1, set, w) else
  si ← deref (vma_find set s);
  start_area ← rd set si;
  ei ← deref (vma_find set (e - 1));
  end_area ← rd set ei;
  let '(start_split, w) := if start start_area <? s then vma_allocate_split w start_area s else (None, w) in
  if (start start_area <? s) && negb (bool_decide (is_Some start_split)) then Ret (-1, set, w) else
  let '(end_split, w) := if e <? end_ end_area then vma_allocate_split w end_area e else (None, w) in
  if (e <? end_ end_area) && negb (bool_decide (is_Some end_split)) then
    Ret (-1, set, match start_split with Some sp => vma_release w sp | None => w end)
  else
    set ← match start_split with Some sp => cut_area set si s sp | None => Ret set end;
    ei ← deref (vma_find set (e - 1));
    set ← match end_split with Some sp => cut_area set ei e sp | None => Ret set end;
    let (set, w) := vma_merge_all (protect_loop set s e prot) w in
    Ret (0, set, w).
