(* ===== verification/VmaCorrect.v ===== *)
(** * Correctness of virtual memory areas

    A set of areas means a partial map from addresses to attributes.  Every
    operation of kernel/vma.c keeps the invariants listed in
    kernel/include/vma.h, changes that map as intended and keeps the references
    an area owns in balance, on its error paths too. *)
From S2P Require Import Prelude Vma.

(** ** Meaning of a set *)

(** What an address is mapped to: [m_pos] is the position in the file or backing,
    [m_infile] tells whether the byte comes from the file. *)
Record attr := MkAttr {
  m_prot : Z; m_flags : Z; m_origin : vma_origin; m_usage : vma_usage; m_file : Z; m_backing : Z;
  m_pos : Z; m_infile : bool }.

Definition area_at (a : vm_area) (x : Z) : attr :=
  MkAttr (protection a) (flags a) (origin a) (usage a) (file a) (backing a)
    (if is_file a || truth (backing a) then offset a + (x - start a) else 0)
    (is_file a && (x - start a <? file_length a)).

Definition has (a : vm_area) (x : Z) : bool := (start a <=? x) && (x <? end_ a).

Fixpoint mapping (l : list vm_area) (x : Z) : option attr :=
  match l with [] => None | a :: l => if has a x then Some (area_at a x) else mapping l x end.

(** ** Invariants *)

Record area_ok (a : vm_area) : Prop := {
  ok_range : 0 <= start a < end_ a /\ end_ a <= MAXVA;
  ok_align : start a mod PGSIZE = 0 /\ end_ a mod PGSIZE = 0 /\ offset a mod PGSIZE = 0;
  ok_offset : 0 <= offset a <= UINT64_MAX /\
    (is_file a = true \/ backing a <> 0 -> offset a + (end_ a - start a) <= UINT64_MAX);
  ok_length : 0 <= file_length a <= end_ a - start a;
  ok_file : is_file a = true <-> file a <> 0;
  ok_anon : is_file a = false -> file_length a = 0;
  ok_backing : backing a <> 0 -> is_file a = false }.

(** Ascending and disjoint, from [lo] on. *)
Fixpoint sorted (lo : Z) (l : list vm_area) : Prop :=
  match l with [] => True | a :: l => lo <= start a /\ sorted (end_ a) l end.

Definition wf (l : list vm_area) : Prop := Forall area_ok l /\ sorted 0 l.

(** Neighbours that could be joined are joined. *)
Fixpoint merged (l : list vm_area) : Prop :=
  match l with
  | a :: (b :: _) as l => vma_can_merge a b = false /\ merged l
  | _ => True
  end.

(** ** References *)

Fixpoint count_if (p : vm_area -> bool) (l : list vm_area) : Z :=
  match l with [] => 0 | a :: l => (if p a then 1 else 0) + count_if p l end.

Definition on_file (f : Z) (a : vm_area) : bool := file a =? f.
Definition on_exec (f : Z) (a : vm_area) : bool := (file a =? f) && is_elf (usage a).
Definition on_backing (b : Z) (a : vm_area) : bool := backing a =? b.

Definition refs (m : gmap Z Z) (k : Z) : Z := default 0 (m !! k).

(** What the areas of a list do not account for stays the same. *)
Record conserved (w : world) (l : list vm_area) (w' : world) (l' : list vm_area) : Prop := {
  cs_file : forall f, f <> 0 ->
    refs (file_refs w') f - count_if (on_file f) l' = refs (file_refs w) f - count_if (on_file f) l;
  cs_exec : forall f, f <> 0 ->
    refs (exec_refs w') f - count_if (on_exec f) l' = refs (exec_refs w) f - count_if (on_exec f) l;
  cs_backing : forall b, b <> 0 ->
    refs (backing_refs w') b - count_if (on_backing b) l' = refs (backing_refs w) b - count_if (on_backing b) l;
  cs_areas : areas_live w' - Z.of_nat (length l') = areas_live w - Z.of_nat (length l) }.

Lemma conserved_refl w l : conserved w l w l.
Proof. by split. Qed.
Lemma conserved_trans w1 l1 w2 l2 w3 l3 :
  conserved w1 l1 w2 l2 -> conserved w2 l2 w3 l3 -> conserved w1 l1 w3 l3.
Proof.
  intros [F1 E1 B1 A1] [F2 E2 B2 A2]. split; intros; [rewrite F2, F1|rewrite E2, E1|rewrite B2, B1|]; auto; lia.
Qed.

Lemma count_if_app p l1 l2 : count_if p (l1 ++ l2) = count_if p l1 + count_if p l2.
Proof. induction l1 as [|a l1 IH]; cbn [app count_if]; [done|]. rewrite IH. lia. Qed.

Lemma count_if_perm p l1 l2 : l1 ≡ₚ l2 -> count_if p l1 = count_if p l2.
Proof. induction 1; cbn [count_if]; lia. Qed.

Lemma conserved_perm w l w' l' l1 l1' : conserved w l w' l' -> l ≡ₚ l1 -> l' ≡ₚ l1' -> conserved w l1 w' l1'.
Proof.
  intros [F E B A] Hp Hp'. split; intros; rewrite <-?(count_if_perm _ _ _ Hp), <-?(count_if_perm _ _ _ Hp'); auto.
  by rewrite <-(Permutation_length Hp), <-(Permutation_length Hp').
Qed.

(** Other areas of the set do not matter. *)
Lemma conserved_frame w l w' l' k : conserved w l w' l' -> conserved w (l ++ k) w' (l' ++ k).
Proof.
  intros [F E B A]. split; intros; rewrite ?count_if_app, ?length_app.
  - specialize (F f). lia.
  - specialize (E f). lia.
  - specialize (B b). lia.
  - lia.
Qed.

Lemma refs_bump m k d j : refs (bump m k d) j = refs m j + (if k =? j then d else 0).
Proof.
  unfold refs, bump. rewrite lookup_insert. destruct (Z.eqb_spec k j) as [->|]; case_decide; try done; cbn; lia.
Qed.

Lemma conserved_ask w l : conserved w l (snd (ask w)) l.
Proof. by split. Qed.

Lemma truth_true x : truth x = true <-> x <> 0.
Proof. unfold truth. destruct (Z.eqb_spec x 0); naive_solver. Qed.
Lemma truth_0 x : truth x = false <-> x = 0.
Proof. unfold truth. destruct (Z.eqb_spec x 0); naive_solver. Qed.

Ltac count_refs :=
  intros; cbn -[refs bump Z.of_nat]; rewrite ?refs_bump; unfold on_file, on_exec, on_backing; cbn;
  repeat match goal with
    | |- context [?a =? ?b] => destruct (Z.eqb_spec a b); subst; cbn
    | |- context [is_elf ?u] => destruct (is_elf u); cbn
    end; try done; try lia.

Lemma release_conserved w a : conserved w [a] (vma_release w a) [].
Proof.
  unfold vma_release, truth. split.
  - destruct (Z.eqb_spec (file a) 0), (is_elf (usage a)), (Z.eqb_spec (backing a) 0); count_refs.
  - destruct (Z.eqb_spec (file a) 0), (is_elf (usage a)) eqn:?, (Z.eqb_spec (backing a) 0); count_refs.
  - destruct (Z.eqb_spec (file a) 0), (is_elf (usage a)), (Z.eqb_spec (backing a) 0); count_refs.
  - destruct (Z.eqb_spec (file a) 0), (is_elf (usage a)), (Z.eqb_spec (backing a) 0); cbn; lia.
Qed.

Lemma allocate_spec w s e p fl org us f b off len :
  (exists w', vma_allocate w s e p fl org us f b off len = (None, w') /\ conserved w [] w' [] /\
     (oracle w (calls w) = false \/ oracle w (S (calls w)) = false)) \/
  (exists w', vma_allocate w s e p fl org us f b off len =
       (Some (MkArea s e off len p fl org us f b), w') /\
     conserved w [] w' [MkArea s e off len p fl org us f b]).
Proof.
  unfold vma_allocate, ask, truth. cbn -[bump]. destruct (oracle w (calls w)) eqn:Eo; cbn -[bump]; cycle 1.
  { left. eexists. split; [reflexivity|]. split; [by split|by left]. }
  destruct (Z.eqb_spec f 0), (is_elf us) eqn:Ee, (Z.eqb_spec b 0), (oracle w (S (calls w))) eqn:Eo2; cbn -[bump];
    first [right; eexists; split; [reflexivity|]; split; count_refs; rewrite ?Ee; count_refs
          |left; eexists; split; [reflexivity|]; split; [split; count_refs|by right]].
Qed.

(** ** Merging *)

Lemma is_file_true a : is_file a = true <-> origin a = VMA_FILE_BACKED.
Proof. unfold is_file. by rewrite bool_decide_eq_true. Qed.

(** Two areas continue each other. *)
Record continues (a b : vm_area) : Prop := {
  ct_end : end_ a = start b;
  ct_attr : protection a = protection b /\ flags a = flags b /\ origin a = origin b /\ usage a = usage b /\
            file a = file b /\ backing a = backing b;
  ct_file : is_file a = true -> file_length a = end_ a - start a;
  ct_offset : is_file a = true \/ backing a <> 0 -> offset b = offset a + (end_ a - start a) }.

Lemma maxva : MAXVA = 2 ^ 38.
Proof. done. Qed.

Lemma can_merge_iff a b : area_ok a -> area_ok b -> vma_can_merge a b = true <-> continues a b.
Proof.
  intros Ha Hb. destruct (ok_range _ Ha) as [? ?], (ok_offset _ Ha) as [Hoa Hob]. pose proof maxva.
  unfold vma_can_merge, UINT64_MAX in *. rewrite wrap64_sub_l.
  rewrite (wrap64_id (end_ a - start a)) by (unfold is_u64; lia). split.
  - case_if; [done|]. bool_to_prop. case_if; [done|]. case_if; [done|]. intros _.
    repeat match goal with H : bool_decide _ = true |- _ => apply bool_decide_eq_true in H end.
    split; [done|done| |].
    + intros Hf. rewrite Hf in *. cbn [andb] in *. bool_to_prop. done.
    + intros [Hf|Hf].
      * rewrite Hf in *. cbn [andb] in *. bool_to_prop. rewrite wrap64_id in * by (unfold is_u64; lia). lia.
      * rewrite (proj2 (truth_true _) Hf) in *. cbn [andb] in *. bool_to_prop.
        rewrite wrap64_id in * by (unfold is_u64; lia). lia.
  - intros [He (Hp & Hfl & Ho & Hu & Hf & Hbk) Hlen Hoff].
    assert (Hn : is_file a = true \/ backing a <> 0 ->
      wrap64 (offset a + end_ a - start a) = offset b /\ (offset b <? offset a) = false).
    { intros Hc. rewrite Z.ltb_ge. specialize (Hoff Hc). specialize (Hob Hc).
      rewrite wrap64_id by (unfold is_u64; lia). lia. }
    rewrite (proj2 (Z.eqb_eq (end_ a) _) He), Hp, Hfl, Hf, Hbk, !Z.eqb_refl, !bool_decide_eq_true_2 by done.
    cbn [negb orb]. rewrite <-Hbk. destruct (is_file a) eqn:Ef; cbn [andb].
    + destruct Hn as [-> ->]; [by left|]. rewrite (Hlen eq_refl), !Z.eqb_refl. cbn. by rewrite andb_false_r.
    + destruct (truth (backing a)) eqn:Eb; [|done]. destruct Hn as [-> ->]; [right; by apply truth_true|].
      by rewrite Z.eqb_refl.
Qed.

(** Only the left half's end and length change in a merge. *)
Lemma merge_pair_eq a b : area_ok a -> area_ok b -> continues a b ->
  vma_merge_pair a b =
    MkArea (start a) (end_ b) (offset a) (if is_file a then file_length a + file_length b else file_length a)
      (protection a) (flags a) (origin a) (usage a) (file a) (backing a).
Proof.
  intros Ha Hb Hc. unfold vma_merge_pair. pose proof (ok_length _ Ha). pose proof (ok_length _ Hb).
  destruct (ok_range _ Ha) as [? ?], (ok_range _ Hb) as [? ?]. pose proof maxva.
  rewrite wrap64_id by (unfold is_u64; lia). unfold with_length, with_end. destruct (is_file a); done.
Qed.

Lemma merge_pair_ok a b : area_ok a -> area_ok b -> continues a b -> area_ok (vma_merge_pair a b).
Proof.
  intros Ha Hb Hc. rewrite merge_pair_eq by done. destruct Hc as [He (Hp & Hfl & Ho & Hu & Hf & Hbk) Hlen Hoff].
  assert (Hfb : is_file b = is_file a) by (unfold is_file; by rewrite Ho).
  destruct Ha as [R1 A1 O1 L1 F1 N1 B1], Hb as [R2 A2 O2 L2 F2 N2 B2]. rewrite Hfb in *.
  split; cbn; [lia|tauto| | | | |]; change (is_file (MkArea _ _ _ _ _ _ (origin a) _ _ _)) with (is_file a);
    [|destruct (is_file a); lia|done|intros Ef; rewrite Ef; by apply N1|done].
  split; [tauto|]. intros Hc. specialize (Hoff Hc). rewrite Hbk in Hc. apply O2 in Hc. lia.
Qed.

Lemma merge_pair_at a b x : area_ok a -> area_ok b -> continues a b -> has (vma_merge_pair a b) x = true ->
  area_at (vma_merge_pair a b) x = if x <? end_ a then area_at a x else area_at b x.
Proof.
  intros Ha Hb Hc Hx. rewrite merge_pair_eq in * by done. unfold has in Hx. cbn in Hx. bool_to_prop.
  pose proof (ok_length _ Ha). pose proof (ok_length _ Hb).
  destruct Hc as [He (Hp & Hfl & Ho & Hu & Hf & Hbk) Hlen Hoff].
  assert (Hfb : is_file b = is_file a) by (unfold is_file; by rewrite Ho).
  unfold area_at. cbn. change (is_file (MkArea _ _ _ _ _ _ (origin a) _ _ _)) with (is_file a).
  destruct (Z.ltb_spec x (end_ a)).
  - f_equal. destruct (is_file a) eqn:E; [|done]. cbn. rewrite (Hlen eq_refl) in *.
    destruct (Z.ltb_spec (x - start a) (end_ a - start a + file_length b)),
      (Z.ltb_spec (x - start a) (end_ a - start a)); done || lia.
  - rewrite Hp, Hfl, Ho, Hu, Hf, Hbk, Hfb. f_equal.
    + destruct (is_file a || truth (backing b)) eqn:E; [|done]. rewrite Hoff; [lia|].
      apply orb_true_iff in E as [?|?%truth_true]; [by left|right; congruence].
    + destruct (is_file a) eqn:E; [|done]. cbn. rewrite (Hlen eq_refl).
      destruct (Z.ltb_spec (x - start a) (end_ a - start a + file_length b)),
        (Z.ltb_spec (x - start b) (file_length b)); done || lia.
Qed.

(** A merge does not change the meaning of the set. *)
Lemma merge_pair_mapping a b l x : area_ok a -> area_ok b -> continues a b ->
  mapping (vma_merge_pair a b :: l) x = mapping (a :: b :: l) x.
Proof.
  intros Ha Hb Hc. pose proof (merge_pair_at a b x Ha Hb Hc) as Hat. cbn [mapping].
  pose proof (ct_end _ _ Hc). destruct (ok_range _ Ha) as [? _], (ok_range _ Hb) as [? _].
  assert (Hh : has (vma_merge_pair a b) x = has a x || has b x).
  { rewrite merge_pair_eq by done. unfold has. cbn.
    destruct (Z.leb_spec (start a) x), (Z.ltb_spec x (end_ b)), (Z.ltb_spec x (end_ a)),
      (Z.leb_spec (start b) x); cbn; done || lia. }
  rewrite Hh in *. unfold has in *.
  destruct (Z.leb_spec (start a) x), (Z.ltb_spec x (end_ b)), (Z.ltb_spec x (end_ a)),
    (Z.leb_spec (start b) x); cbn in *; try done; try lia; by rewrite Hat.
Qed.

(** Only file, usage and backing matter for the references. *)
Lemma conserved_same w a a' : file a' = file a -> usage a' = usage a -> backing a' = backing a ->
  conserved w [a] w [a'].
Proof. intros Hf Hu Hb. split; intros; cbn; unfold on_file, on_exec, on_backing; rewrite ?Hf, ?Hu, ?Hb; done. Qed.

Lemma conserved_cons w l w' l' a : conserved w l w' l' -> conserved w (a :: l) w' (a :: l').
Proof.
  intros Hc. eapply conserved_perm; [apply (conserved_frame _ _ _ _ [a] Hc)|..];
    rewrite Permutation_app_comm; done.
Qed.

Lemma conserved_prefix w l w' l' k : conserved w l w' l' -> conserved w (k ++ l) w' (k ++ l').
Proof. intros Hc. induction k as [|a k IH]; [done|]. by apply conserved_cons. Qed.

Lemma merge_pair_conserved w a b l : area_ok a -> area_ok b -> continues a b ->
  conserved w (a :: b :: l) (vma_release w b) (vma_merge_pair a b :: l).
Proof.
  intros Ha Hb Hc. rewrite merge_pair_eq by done. eapply conserved_trans.
  - apply conserved_cons, (conserved_frame _ [b] _ [] l), release_conserved.
  - apply (conserved_frame _ [a] _ [_] l), conserved_same; done.
Qed.

(** Merging to the right does not make a left neighbour mergeable. *)
Lemma can_merge_right p a b : area_ok a -> area_ok b -> continues a b ->
  vma_can_merge p (vma_merge_pair a b) = vma_can_merge p a.
Proof. intros. by rewrite merge_pair_eq by done. Qed.

(** ** Lists *)

Lemma sorted_mono lo lo' l : lo' <= lo -> sorted lo l -> sorted lo' l.
Proof. destruct l; [done|]. cbn. intros ? [? ?]. split; [lia|done]. Qed.

Lemma sorted_app lo l1 l2 : sorted lo (l1 ++ l2) <->
  sorted lo l1 /\ sorted (match last l1 with Some a => end_ a | None => lo end) l2.
Proof.
  revert lo; induction l1 as [|a l1 IH]; intros lo; cbn [app sorted]; [cbn; tauto|].
  rewrite IH. destruct l1 as [|b l1]; [cbn; tauto|]. rewrite last_cons_cons.
  destruct (last (b :: l1)) eqn:E; [tauto|]. by apply last_None in E.
Qed.

Lemma mapping_app l1 l2 x : mapping (l1 ++ l2) x = match mapping l1 x with Some m => Some m | None => mapping l2 x end.
Proof. induction l1 as [|a l1 IH]; [done|]. cbn. by destruct (has a x). Qed.

(** Below its start a sorted list maps nothing. *)
Lemma mapping_below lo l x : Forall area_ok l -> sorted lo l -> x < lo -> mapping l x = None.
Proof.
  revert lo; induction l as [|a l IH]; intros lo Hok Hs Hx; [done|]. cbn.
  apply Forall_cons in Hok as [Ha Hok]. destruct Hs as [? Hs]. destruct (ok_range _ Ha) as [? _].
  unfold has. rewrite (proj2 (Z.leb_gt _ _)) by lia. cbn. apply (IH (end_ a)); [done..|lia].
Qed.

(** At and above its end it maps nothing. *)
Lemma mapping_above l x b : (forall a, a ∈ l -> end_ a <= b) -> b <= x -> mapping l x = None.
Proof.
  intros Hl Hx. induction l as [|a l IH]; [done|]. cbn.
  assert (end_ a <= b) by (apply Hl; set_solver). unfold has. rewrite (proj2 (Z.ltb_ge _ _)), andb_false_r by lia.
  apply IH. set_solver.
Qed.

(** ** [vma_merge_all] *)

Lemma merge_from_spec a l w lo :
  area_ok a -> Forall area_ok l -> lo <= start a -> sorted (end_ a) l ->
  exists l' w', merge_from a l w = (l', w') /\ Forall area_ok l' /\ sorted lo l' /\ merged l' /\
    (forall x, mapping l' x = mapping (a :: l) x) /\ conserved w (a :: l) w' l' /\
    exists a' l1, l' = a' :: l1 /\ forall p, vma_can_merge p a' = vma_can_merge p a.
Proof.
  revert a w lo; induction l as [|b l IH]; intros a w lo Ha Hl Hlo Hs; cbn [merge_from].
  { exists [a], w. split; [done|]. split; [by constructor|]. split; [by split|]. split; [done|].
    split; [done|]. split; [apply conserved_refl|by exists a, []]. }
  apply Forall_cons in Hl as [Hb Hl]. destruct Hs as [Hab Hs].
  destruct (vma_can_merge a b) eqn:Em.
  - apply can_merge_iff in Em; [|done..].
    assert (Hm := merge_pair_ok a b Ha Hb Em). pose proof (merge_pair_eq a b Ha Hb Em) as Hme.
    destruct (IH (vma_merge_pair a b) (vma_release w b) lo) as (l' & w' & He & Hok & Hso & Hmg & Hmap & Hcons & a' & l1 & -> & Hext);
      [done..|by rewrite Hme|by rewrite Hme|].
    exists (a' :: l1), w'. split; [done|]. split; [done|]. split; [done|]. split; [done|].
    split; [intros x; by rewrite Hmap, merge_pair_mapping|]. split.
    + eapply conserved_trans; [by apply merge_pair_conserved|done].
    + exists a', l1. split; [done|]. intros p. by rewrite Hext, can_merge_right.
  - destruct (IH b w (end_ a)) as (l' & w' & -> & Hok & Hso & Hmg & Hmap & Hcons & b' & l1 & -> & Hext); [done..|].
    exists (a :: b' :: l1), w'. split; [done|]. split; [by constructor|]. split; [by split|].
    split; [split; [by rewrite Hext|done]|].
    split; [intros x; cbn [mapping] in *; by rewrite <-Hmap|]. split; [by apply conserved_cons|].
    by exists a, (b' :: l1).
Qed.

Lemma merge_all_spec l w : wf l ->
  exists l' w', vma_merge_all l w = (l', w') /\ wf l' /\ merged l' /\
    (forall x, mapping l' x = mapping l x) /\ conserved w l w' l'.
Proof.
  intros [Hok Hs]. destruct l as [|a l].
  - exists [], w. split; [done|]. split; [by split|]. split; [done|]. split; [done|apply conserved_refl].
  - apply Forall_cons in Hok as [Ha Hok]. destruct Hs as [Hlo Hs].
    destruct (merge_from_spec a l w 0) as (l' & w' & He & ? & ? & ? & ? & ? & _); [done..|].
    exists l', w'. cbn [vma_merge_all]. split; [done|]. split; [by split|]. done.
Qed.

(** ** Insertion *)

Lemma merged_app l1 b l2 : merged (l1 ++ b :: l2) <-> merged (l1 ++ [b]) /\ merged (b :: l2).
Proof.
  induction l1 as [|a l1 IH]; [cbn; destruct l2; tauto|]. destruct l1 as [|c l1]; cbn [app] in *.
  - cbn [merged]. destruct l2; tauto.
  - change (merged (a :: c :: l1 ++ b :: l2)) with (vma_can_merge a c = false /\ merged (c :: l1 ++ b :: l2)).
    change (merged (a :: c :: l1 ++ [b])) with (vma_can_merge a c = false /\ merged (c :: l1 ++ [b])).
    rewrite IH. tauto.
Qed.

Lemma merged_last l1 p : merged (l1 ++ [p]) -> merged l1.
Proof.
  induction l1 as [|a [|b l1] IH]; [done..|]. cbn [app]. intros [? Hm]. split; [done|]. by apply IH.
Qed.

Lemma merged_cons a l : merged (a :: l) -> merged l.
Proof. destruct l; [done|]. by intros [_ ?]. Qed.

(** Replacing the last area by one that merges the same way on its left. *)
Lemma merged_replace l1 p q : merged (l1 ++ [p]) -> (forall r, vma_can_merge r q = vma_can_merge r p) ->
  merged (l1 ++ [q]).
Proof.
  intros Hm Hq. induction l1 as [|a [|b l1] IH]; [done| |].
  - cbn in *. by rewrite Hq.
  - destruct Hm as [? Hm]. split; [done|]. by apply IH.
Qed.

(** What follows a merged area is what follows its right half. *)
Lemma can_merge_left a b c : area_ok a -> area_ok b -> area_ok c -> continues a b ->
  vma_can_merge (vma_merge_pair a b) c = vma_can_merge b c.
Proof.
  intros Ha Hb Hc Hab. assert (Hm := merge_pair_ok a b Ha Hb Hab). apply eq_true_iff_eq.
  rewrite !can_merge_iff by done. rewrite merge_pair_eq by done.
  pose proof (ok_length _ Hb). pose proof (ok_range _ Ha). pose proof (ok_range _ Hb).
  destruct Hab as [He (Hp & Hfl & Ho & Hu & Hf & Hbk) Hlen Hoff].
  assert (Hfb : is_file b = is_file a) by (unfold is_file; by rewrite Ho).
  split; intros [E A F O]; split; cbn in *;
    change (is_file (MkArea _ _ _ _ _ _ (origin a) _ _ _)) with (is_file a) in *; rewrite ?Hfb in *.
  - done.
  - naive_solver congruence.
  - intros Hx. specialize (F Hx). specialize (Hlen Hx). rewrite Hx in F. lia.
  - intros Hx. rewrite <-Hbk in Hx. rewrite (O Hx), (Hoff Hx). lia.
  - done.
  - naive_solver congruence.
  - intros Hx. rewrite Hx. specialize (F Hx). specialize (Hlen Hx). lia.
  - intros Hx. specialize (Hoff Hx). rewrite Hbk in Hx. specialize (O Hx). lia.
Qed.

Lemma wf_app pre post : wf (pre ++ post) <->
  wf pre /\ Forall area_ok post /\ sorted (match last pre with Some a => end_ a | None => 0 end) post.
Proof. unfold wf. rewrite Forall_app, sorted_app. tauto. Qed.

(** Joining the neighbours [a] and [b] of a well-formed set. *)
Lemma join_wf pre a b post : wf (pre ++ a :: b :: post) -> continues a b ->
  wf (pre ++ vma_merge_pair a b :: post) /\
  forall x, mapping (pre ++ vma_merge_pair a b :: post) x = mapping (pre ++ a :: b :: post) x.
Proof.
  rewrite !wf_app. intros (Hp & Hok & Hs) Hc. apply Forall_cons in Hok as [Ha Hok]. apply Forall_cons in Hok as [Hb Hok].
  destruct Hs as (? & ? & Hs). split.
  - split; [done|]. split; [constructor; [by apply merge_pair_ok|done]|]. rewrite merge_pair_eq by done. by split.
  - intros x. rewrite !mapping_app. destruct (mapping pre x); [done|]. by apply merge_pair_mapping.
Qed.

Lemma Forall_mid {A} (P : A -> Prop) pre a post : Forall P (pre ++ a :: post) -> P a.
Proof. rewrite Forall_app, Forall_cons. tauto. Qed.

Lemma merge_prev_spec pre a post w : wf (pre ++ a :: post) ->
  exists pre' a' w', merge_prev (reverse pre) a w = (reverse pre', a', w') /\ wf (pre' ++ a' :: post) /\
    (forall x, mapping (pre' ++ a' :: post) x = mapping (pre ++ a :: post) x) /\
    conserved w (pre ++ a :: post) w' (pre' ++ a' :: post) /\ (merged pre -> merged (pre' ++ [a'])).
Proof.
  intros Hwf. destruct pre as [|p pre _] using rev_ind.
  { exists [], a, w. split; [done|]. split; [done|]. split; [done|]. split; [apply conserved_refl|done]. }
  rewrite reverse_app. cbn [reverse rev_append app merge_prev].
  rewrite <-app_assoc in *. cbn [app] in *.
  assert (Hok := proj1 Hwf). assert (Hp : area_ok p) by (by eapply Forall_mid).
  assert (Ha : area_ok a) by (apply Forall_app in Hok as [_ [_ Hok]%Forall_cons]; by apply Forall_cons in Hok as [? _]).
  destruct (vma_can_merge p a) eqn:Em.
  - apply can_merge_iff in Em; [|done..]. destruct (join_wf _ _ _ _ Hwf Em) as [Hwf' Hmap].
    exists pre, (vma_merge_pair p a), (vma_release w a). split; [done|]. split; [done|]. split; [done|]. split.
    + by apply conserved_prefix, merge_pair_conserved.
    + intros Hm. eapply merged_replace; [done|]. intros r. by apply can_merge_right.
  - exists (pre ++ [p]), a, w. rewrite reverse_app, <-!app_assoc. split; [done|]. split; [done|]. split; [done|].
    split; [apply conserved_refl|]. intros Hm. cbn [app]. apply merged_app. split; [done|]. done.
Qed.

Lemma merge_next_spec pre a post w : wf (pre ++ a :: post) ->
  exists a' post' w', merge_next a post w = (a', post', w') /\ wf (pre ++ a' :: post') /\
    (forall x, mapping (pre ++ a' :: post') x = mapping (pre ++ a :: post) x) /\
    conserved w (pre ++ a :: post) w' (pre ++ a' :: post') /\
    (merged (pre ++ [a]) -> merged post -> merged (pre ++ a' :: post')).
Proof.
  intros Hwf. destruct post as [|n post]; cbn [merge_next].
  { exists a, [], w. split; [done|]. split; [done|]. split; [done|]. split; [apply conserved_refl|done]. }
  assert (Hok := proj1 Hwf). assert (Ha : area_ok a) by (by eapply Forall_mid).
  apply Forall_app in Hok as [_ [_ Hok]%Forall_cons]. apply Forall_cons in Hok as [Hn Hok].
  destruct (vma_can_merge a n) eqn:Em.
  - apply can_merge_iff in Em; [|done..]. destruct (join_wf _ _ _ _ Hwf Em) as [Hwf' Hmap].
    exists (vma_merge_pair a n), post, (vma_release w n). split; [done|]. split; [done|]. split; [done|]. split.
    + by apply conserved_prefix, merge_pair_conserved.
    + intros Hm Hmp. apply merged_app. split; [eapply merged_replace; [done|]; intros; by apply can_merge_right|].
      destruct post as [|c post]; [done|]. destruct Hmp as [Hnc ?]. split; [|done].
      apply Forall_cons in Hok as [Hc _]. by rewrite can_merge_left.
  - exists a, (n :: post), w. split; [done|]. split; [done|]. split; [done|]. split; [apply conserved_refl|].
    intros Hm Hmp. apply merged_app. done.
Qed.

Lemma insert_slot_spec l s e i lo :
  Forall area_ok l -> sorted lo l -> s < e ->
  match insert_slot l s e i with
  | Some j => exists k, j = (i + k)%nat /\ (k <= length l)%nat /\
                (forall a, a ∈ take k l -> end_ a <= s) /\ sorted e (drop k l)
  | None => exists x, s <= x < e /\ mapping l x <> None
  end.
Proof.
  revert i lo; induction l as [|a l IH]; intros i lo Hok Hs Hse; cbn [insert_slot].
  { exists 0%nat. split; [lia|]. split; [cbn; lia|]. split; [set_solver|done]. }
  apply Forall_cons in Hok as [Ha Hok]. destruct Hs as [Hlo Hs]. destruct (ok_range _ Ha) as [? _].
  destruct (Z.leb_spec e (start a)).
  { exists 0%nat. split; [lia|]. split; [lia|]. split; [set_solver|]. by split. }
  destruct (Z.ltb_spec s (end_ a)).
  { exists (Z.max s (start a)). split; [lia|]. cbn. unfold has.
    rewrite (proj2 (Z.leb_le _ _)), (proj2 (Z.ltb_lt _ _)) by lia. done. }
  specialize (IH (S i) (end_ a) Hok Hs Hse). destruct (insert_slot l s e (S i)) as [j|].
  - destruct IH as (k & -> & Hk & Hbelow & Hsk). exists (S k). split; [lia|]. split; [cbn; lia|].
    split; [|done]. intros b. cbn. rewrite elem_of_cons. intros [->|]; auto.
  - destruct IH as (x & Hx & Hm). exists x. split; [done|]. cbn. by destruct (has a x).
Qed.

Lemma rejects_spec s e prot fl org us f b off len :
  is_u64 s -> is_u64 off -> is_u64 len -> 0 <= e ->
  insert_rejects s e org f b off len = false <-> area_ok (MkArea s e off len prot fl org us f b).
Proof.
  unfold is_u64, insert_rejects. intros Hs Ho Hl He. rewrite !orb_false_iff, !andb_false_iff.
  set (a := MkArea _ _ _ _ _ _ _ _ _ _). assert (Hfa : bool_decide (org = VMA_FILE_BACKED) = is_file a) by done.
  rewrite Hfa. assert (Han : bool_decide (org = VMA_ANONYMOUS) = negb (is_file a)).
  { unfold is_file. subst a. cbn. by destruct org. }
  rewrite Han, negb_involutive, !truth_0, Z.leb_gt, !Z.ltb_ge, !negb_false_iff, Bool.eqb_true_iff.
  split.
  - intros (((((((((? & ?) & ?) & ?) & ?) & ?) & Hoff) & Hfile) & Hb) & Hlen).
    split; cbn; try lia; try done.
    + unfold UINT64_MAX in *. split; [lia|]. intros Hc. destruct Hoff as [Hoff|Hoff]; [|lia].
      apply orb_false_iff in Hoff as [Hf0 Hb0%truth_0]. destruct Hc as [Hc|Hc]; [congruence|done].
    + rewrite Hfile, truth_true. done.
    + intros Hc. rewrite Hc in Hlen. destruct Hlen as [|?]; [done|done].
    + intros Hc. destruct Hb as [?|Hb]; [done|]. by apply orb_false_iff in Hb as [? _].
  - intros [[? ?] (? & ? & ?) [_ Hoff] ? Hfile Hanon Hbk]. cbn in *. unfold UINT64_MAX in *.
    split_and!; try lia; try done.
    + destruct (is_file a || truth b) eqn:E; [right|by left]. apply orb_true_iff in E as [E|E%truth_true];
        [specialize (Hoff (or_introl E))|specialize (Hoff (or_intror E))]; lia.
    + apply eq_true_iff_eq. rewrite truth_true. done.
    + destruct (decide (b = 0)) as [->|Hb0]; [by left|right]. rewrite (Hbk Hb0). cbn. apply truth_0.
      specialize (Hbk Hb0). destruct (decide (f = 0)); [done|]. apply Hfile in n. congruence.
    + destruct (is_file a) eqn:E; [by left|right]. by apply Hanon.
Qed.

(** What a successful insertion does. *)
Definition inserted (l l' : list vm_area) (a : vm_area) : Prop :=
  forall x, mapping l' x = if has a x then Some (area_at a x) else mapping l x.

Lemma insert_spec l w s e prot fl org us f b off len :
  wf l -> is_u64 s -> is_u64 off -> is_u64 len -> 0 <= e ->
  let a := MkArea s e off len prot fl org us f b in
  exists rc l' w', vma_insert_file_length l w s e prot fl org us f b off len = (rc, l', w') /\
    wf l' /\ (merged l -> merged l') /\ conserved w l w' l' /\
    ((rc = 0 /\ area_ok a /\ (forall x, s <= x < e -> mapping l x = None) /\ inserted l l' a) \/
     (rc = -1 /\ l' = l /\
      (~ area_ok a \/ (exists x, s <= x < e /\ mapping l x <> None) \/
       oracle w (calls w) = false \/ oracle w (S (calls w)) = false))).
Proof.
  intros Hwf Hs Ho Hl He a. unfold vma_insert_file_length.
  destruct (insert_rejects _ _ _ _ _ _ _) eqn:Er.
  { exists (-1), l, w. split; [done|]. split; [done|]. split; [done|]. split; [apply conserved_refl|]. right.
    split; [done|]. split; [done|]. left. intros Ha. apply rejects_spec in Ha; [|done..]. congruence. }
  apply (rejects_spec s e prot fl org us f b off len) in Er; [|done..]. fold a in Er.
  destruct (ok_range _ Er) as [Hr _]. cbn in Hr. destruct Hwf as [Hok Hsorted].
  pose proof (insert_slot_spec l s e 0 0 Hok Hsorted ltac:(lia)) as Hslot.
  destruct (insert_slot l s e 0) as [i|]; cycle 1.
  { exists (-1), l, w. split; [done|]. split; [done|]. split; [done|]. split; [apply conserved_refl|]. right.
    split; [done|]. split; [done|]. by right; left. }
  destruct Hslot as (k & -> & Hk & Hbelow & Hsk). cbn [Nat.add].
  destruct (allocate_spec w s e prot fl org us f b off len) as [(w1 & -> & Hc1 & Hor)|(w1 & -> & Hc1)].
  { exists (-1), l, w1. split; [done|]. split; [done|]. split; [done|].
    split; [apply (conserved_frame _ [] _ [] l Hc1)|]. right. split; [done|]. split; [done|]. by right; right. }
  fold a in Hc1 |- *. set (pre := take k l) in *. set (post := drop k l) in *.
  assert (Hl' : l = pre ++ post) by (symmetry; apply take_drop). clearbody pre post.
  assert (Hwf1 : wf (pre ++ a :: post)).
  { rewrite Hl' in Hok, Hsorted. apply Forall_app in Hok as [Hok1 Hok2]. apply sorted_app in Hsorted as [Hs1 Hs2].
    apply wf_app. split; [by split|]. split; [by constructor|]. split; [|done].
    destruct (last pre) as [q|] eqn:Eq; [|cbn; lia]. apply last_Some_elem_of in Eq. cbn. by apply Hbelow. }
  destruct (merge_prev_spec pre a post w1 Hwf1) as (pre' & a1 & w2 & -> & Hwf2 & Hmap2 & Hc2 & Hm2).
  destruct (merge_next_spec pre' a1 post w2 Hwf2) as (a2 & post' & w3 & -> & Hwf3 & Hmap3 & Hc3 & Hm3).
  rewrite reverse_involutive. exists 0, (pre' ++ a2 :: post'), w3. split; [done|]. split; [done|].
  split; [|split; [|left; split; [done|split; [done|split]]]].
  - intros Hm. rewrite Hl' in Hm. apply Hm3.
    + apply Hm2. clear -Hm. induction post as [|c post IH] using rev_ind; [by rewrite app_nil_r in Hm|].
      apply IH. rewrite app_assoc in Hm. by apply merged_last in Hm.
    + clear -Hm. induction pre as [|c pre IH]; [done|]. apply IH. by apply merged_cons in Hm.
  - eapply conserved_trans; [|eapply conserved_trans; [exact Hc2|exact Hc3]].
    rewrite Hl'. apply conserved_prefix. apply (conserved_frame _ [] _ [a] post Hc1).
  - intros x Hx. rewrite Hl', mapping_app, (mapping_above _ _ s) by (done || lia).
    apply (mapping_below e); [|done|lia]. rewrite Hl' in Hok. by apply Forall_app in Hok as [_ ?].
  - intros x. rewrite Hmap3, Hmap2, Hl', !mapping_app. cbn [mapping].
    destruct (has a x) eqn:Eh; [|done]. unfold has in Eh. cbn in Eh. bool_to_prop.
    by rewrite (mapping_above _ _ s) by (done || lia).
Qed.
