(* ===== verification/VmaOps.v ===== *)
(** * Unmapping, protection, gaps and whole sets

    The remaining operations of kernel/vma.c on top of [VmaCorrect]. *)
From S2P Require Import Prelude Vma VmaCorrect.

(** ** Cutting an area *)

Definition cut_ok (a : vm_area) (c : Z) : Prop := start a < c < end_ a /\ c mod PGSIZE = 0.

Lemma aligned_sub x y : x mod PGSIZE = 0 -> y mod PGSIZE = 0 -> (x - y) mod PGSIZE = 0.
Proof. unfold PGSIZE. intros. Z.div_mod_to_equations. lia. Qed.
Lemma aligned_add x y : x mod PGSIZE = 0 -> y mod PGSIZE = 0 -> (x + y) mod PGSIZE = 0.
Proof. unfold PGSIZE. intros. Z.div_mod_to_equations. lia. Qed.

Lemma trim_end_eq a c : area_ok a -> cut_ok a c ->
  trim_end a c = MkArea (start a) c (offset a) (Z.min (file_length a) (c - start a)) (protection a) (flags a)
                   (origin a) (usage a) (file a) (backing a).
Proof.
  intros Ha [Hc _]. unfold trim_end. destruct (ok_range _ Ha). pose proof maxva. cbn.
  rewrite wrap64_id by (unfold is_u64; lia). destruct (Z.ltb_spec (c - start a) (file_length a)).
  - rewrite Z.min_r by lia. done.
  - rewrite Z.min_l by lia. done.
Qed.

Lemma trim_start_eq a c : area_ok a -> cut_ok a c ->
  trim_start a c = MkArea c (end_ a)
    (if is_file a || truth (backing a) then offset a + (c - start a) else offset a)
    (if is_file a then Z.max 0 (file_length a - (c - start a)) else file_length a)
    (protection a) (flags a) (origin a) (usage a) (file a) (backing a).
Proof.
  intros Ha [Hc _]. unfold trim_start. destruct (ok_range _ Ha), (ok_offset _ Ha) as [Ho Hob]. pose proof maxva.
  rewrite (wrap64_id (c - start a)) by (unfold is_u64; lia). f_equal.
  - destruct (is_file a || truth (backing a)) eqn:E; [|done]. apply wrap64_id. unfold is_u64, UINT64_MAX in *.
    assert (offset a + (end_ a - start a) <= 2 ^ 64 - 1); [|lia]. apply Hob.
    apply orb_true_iff in E as [?|?%truth_true]; auto.
  - destruct (is_file a); [|done]. destruct (Z.ltb_spec (c - start a) (file_length a)); lia.
Qed.

Lemma trim_end_ok a c : area_ok a -> cut_ok a c -> area_ok (trim_end a c).
Proof.
  intros Ha Hc. rewrite trim_end_eq by done. destruct Hc as [Hc Hcm].
  destruct Ha as [R A O L F N B]. split; cbn; try lia; try tauto.
  - split; [tauto|]. intros Hx. apply O in Hx. lia.
  - intros Hx. rewrite (N Hx). lia.
Qed.

Lemma trim_start_ok a c : area_ok a -> cut_ok a c -> area_ok (trim_start a c).
Proof.
  intros Ha Hc. rewrite trim_start_eq by done. destruct Hc as [Hc Hcm].
  destruct Ha as [R A O L F N B]. split; cbn;
    change (is_file (MkArea _ _ _ _ _ _ (origin a) _ _ _)) with (is_file a); try lia; try tauto.
  - split_and!; try tauto. destruct (_ || _); [|tauto]. apply aligned_add; [tauto|]. apply aligned_sub; tauto.
  - destruct (is_file a || truth (backing a)) eqn:E.
    + assert (Hx : is_file a = true \/ backing a <> 0) by (apply orb_true_iff in E as [?|?%truth_true]; auto).
      apply O in Hx as Hy. lia.
    + apply orb_false_iff in E as [E1 E2%truth_0]. split; [lia|]. rewrite E1, E2. intros [?|?]; done.
  - destruct (is_file a) eqn:E; [lia|]. rewrite N by done. lia.
  - intros Hx. rewrite Hx. by apply N.
Qed.

Lemma trim_end_at a c x : area_ok a -> cut_ok a c -> x < c -> area_at (trim_end a c) x = area_at a x.
Proof.
  intros Ha Hc Hx. rewrite trim_end_eq by done. unfold area_at. cbn.
  change (is_file (MkArea _ _ _ _ _ _ (origin a) _ _ _)) with (is_file a). f_equal.
  destruct (is_file a); [|done]. cbn.
  destruct (Z.ltb_spec (x - start a) (Z.min (file_length a) (c - start a))), (Z.ltb_spec (x - start a) (file_length a)); done || lia.
Qed.

Lemma trim_start_at a c x : area_ok a -> cut_ok a c -> c <= x -> area_at (trim_start a c) x = area_at a x.
Proof.
  intros Ha Hc Hx. rewrite trim_start_eq by done. unfold area_at. cbn.
  change (is_file (MkArea _ _ _ _ _ _ (origin a) _ _ _)) with (is_file a). f_equal.
  - destruct (_ || _); lia.
  - destruct (is_file a); [|done]. cbn.
    destruct (Z.ltb_spec (x - c) (Z.max 0 (file_length a - (c - start a)))), (Z.ltb_spec (x - start a) (file_length a)); done || lia.
Qed.

(** Cutting leaves the merge relation with the far neighbours. *)
Lemma can_merge_trim_end p a c : area_ok a -> cut_ok a c -> vma_can_merge p (trim_end a c) = vma_can_merge p a.
Proof. intros. by rewrite trim_end_eq by done. Qed.

Lemma can_merge_trim_start a c b : area_ok a -> area_ok b -> cut_ok a c ->
  vma_can_merge (trim_start a c) b = vma_can_merge a b.
Proof.
  intros Ha Hb Hc. pose proof (trim_start_ok a c Ha Hc) as Ht. apply eq_true_iff_eq.
  rewrite !can_merge_iff by done. rewrite trim_start_eq by done. destruct Hc as [Hc _].
  pose proof (ok_length _ Ha).
  assert (Hor : is_file a = true \/ backing a <> 0 -> is_file a || truth (backing a) = true).
  { intros [->|Hx%truth_true]; [done|]. by rewrite Hx, orb_true_r. }
  split; intros [E A F O]; split; cbn in *;
    change (is_file (MkArea _ _ _ _ _ _ (origin a) _ _ _)) with (is_file a) in *; try done.
  - intros Hx. specialize (F Hx). rewrite Hx in F. lia.
  - intros Hx. rewrite (O Hx), (Hor Hx). lia.
  - intros Hx. rewrite Hx. specialize (F Hx). lia.
  - intros Hx. rewrite (O Hx), (Hor Hx). lia.
Qed.

Lemma not_adjacent a b : end_ a <> start b -> vma_can_merge a b = false.
Proof. intros H. unfold vma_can_merge. by rewrite (proj2 (Z.eqb_neq _ _) H). Qed.

Lemma merged_cons_gap p l : merged l -> (forall b l', l = b :: l' -> end_ p <> start b) -> merged (p :: l).
Proof. intros Hm Hg. destruct l as [|b l]; [done|]. split; [by apply not_adjacent, (Hg b l)|done]. Qed.

Lemma allocate_split_spec w a c : area_ok a -> cut_ok a c ->
  (exists w', vma_allocate_split w a c = (None, w') /\ conserved w [] w' []) \/
  (exists w', vma_allocate_split w a c = (Some (trim_start a c), w') /\ conserved w [] w' [trim_start a c]).
Proof.
  intros Ha Hc. unfold vma_allocate_split.
  edestruct allocate_spec
    as [(w' & -> & ? & _)|(w' & -> & ?)]; [left|right]; eauto.
Qed.

(** ** Lookup *)

Lemma find_from_spec l x i lo : Forall area_ok l -> sorted lo l ->
  match vma_find_from l x i with
  | Some j => exists k a, j = (i + k)%nat /\ l !! k = Some a /\ has a x = true
  | None => mapping l x = None
  end.
Proof.
  revert i lo; induction l as [|a l IH]; intros i lo Hok Hs; [done|]. cbn [vma_find_from].
  apply Forall_cons in Hok as [Ha Hok]. destruct Hs as [Hlo Hs].
  destruct (Z.ltb_spec x (start a)).
  { apply (mapping_below (start a)); [by constructor|by split|done]. }
  destruct (Z.ltb_spec x (end_ a)).
  { exists 0%nat, a. split; [lia|]. split; [done|]. unfold has.
    by rewrite (proj2 (Z.leb_le _ _)), (proj2 (Z.ltb_lt _ _)). }
  specialize (IH (S i) (end_ a) Hok Hs). destruct (vma_find_from l x (S i)) as [j|].
  - destruct IH as (k & b & -> & ? & ?). exists (S k), b. split; [lia|]. done.
  - cbn. unfold has. by rewrite (proj2 (Z.ltb_ge x (end_ a))), andb_false_r by lia.
Qed.

Lemma find_spec l x : wf l ->
  match vma_find l x with
  | Some i => exists a, l !! i = Some a /\ has a x = true
  | None => mapping l x = None
  end.
Proof.
  intros [Hok Hs]. pose proof (find_from_spec l x 0 0 Hok Hs) as Hf. unfold vma_find.
  destruct (vma_find_from l x 0); [|done]. destruct Hf as (k & a & -> & ? & ?). eauto.
Qed.

Lemma sorted_lookup lo l i j a b : Forall area_ok l -> sorted lo l -> (i < j)%nat ->
  l !! i = Some a -> l !! j = Some b -> end_ a <= start b.
Proof.
  revert lo i j; induction l as [|c l IH]; intros lo i j Hok Hs Hij Hi Hj; [done|].
  apply Forall_cons in Hok as [Hc Hok]. destruct Hs as [_ Hs]. destruct j as [|j]; [lia|].
  destruct i as [|i]; cbn in Hi, Hj.
  - injection Hi as <-. clear -Hok Hs Hj. revert Hs Hj. generalize (end_ c). revert j.
    induction l as [|d l IH]; intros j lo Hs Hj; [done|]. apply Forall_cons in Hok as [Hd Hok].
    destruct Hs as [? Hs], (ok_range _ Hd) as [? _]. destruct j as [|j]; cbn in Hj; [by injection Hj as <-|].
    specialize (IH Hok j (end_ d) Hs Hj). lia.
  - by apply (IH (end_ c) i j); [..|lia| |].
Qed.

Lemma mapping_in_none l a x : mapping l x = None -> a ∈ l -> has a x = false.
Proof.
  induction l as [|b l IH]; [set_solver|]. cbn. destruct (has b x) eqn:E; [done|].
  intros Hm [->|Hin]%elem_of_cons; auto.
Qed.

(** An area that contains [x] is the one lookup finds. *)
Lemma find_unique l x i a : wf l -> l !! i = Some a -> has a x = true -> vma_find l x = Some i.
Proof.
  intros Hwf Hi Hx. pose proof (find_spec l x Hwf) as Hf. destruct Hwf as [Hok Hs].
  assert (Hm : mapping l x <> None).
  { intros Hn. apply (mapping_in_none _ a) in Hn; [congruence|]. by eapply list_elem_of_lookup_2. }
  destruct (vma_find l x) as [j|]; [|done]. destruct Hf as (b & Hj & Hb). f_equal.
  unfold has in *. bool_to_prop. destruct (Nat.lt_trichotomy i j) as [Hij|[->|Hij]]; [|done|].
  - pose proof (sorted_lookup _ _ _ _ _ _ Hok Hs Hij Hi Hj). lia.
  - pose proof (sorted_lookup _ _ _ _ _ _ Hok Hs Hij Hj Hi). lia.
Qed.

(** ** Unmapping *)

Lemma has_iff a x : has a x = true <-> start a <= x < end_ a.
Proof. unfold has. rewrite andb_true_iff, Z.leb_le, Z.ltb_lt. done. Qed.

Lemma mapping_cons_in a l x : start a <= x < end_ a -> mapping (a :: l) x = Some (area_at a x).
Proof. intros Hx%has_iff. cbn. by rewrite Hx. Qed.
Lemma mapping_cons_out a l x : ~ start a <= x < end_ a -> mapping (a :: l) x = mapping l x.
Proof. intros Hx. rewrite <-has_iff in Hx. apply not_true_is_false in Hx. cbn. by rewrite Hx. Qed.

Definition in_range (s e x : Z) : bool := (s <=? x) && (x <? e).
Lemma in_range_in s e x : s <= x < e -> in_range s e x = true.
Proof. intros. unfold in_range. rewrite andb_true_iff, Z.leb_le, Z.ltb_lt. done. Qed.
Lemma in_range_out s e x : ~ s <= x < e -> in_range s e x = false.
Proof. intros H. apply not_true_is_false. unfold in_range. by rewrite andb_true_iff, Z.leb_le, Z.ltb_lt. Qed.

Definition cleared (l l' : list vm_area) (s e : Z) : Prop :=
  forall x, mapping l' x = if in_range s e x then None else mapping l x.

(** Case analysis on where [x] is relative to the head and the range. *)
Ltac locate x s e a :=
  destruct (decide (s <= x < e));
  [rewrite (in_range_in s e x) by done|rewrite (in_range_out s e x) by done];
  destruct (decide (start a <= x < end_ a)).

Lemma trim_end_start a c : start (trim_end a c) = start a.
Proof. unfold trim_end. by destruct (_ <? _). Qed.
Lemma trim_end_end a c : end_ (trim_end a c) = c.
Proof. unfold trim_end. by destruct (_ <? _). Qed.

Ltac bounds := rewrite ?trim_end_start, ?trim_end_end; cbn; lia.

Section clear.
  Context (a : vm_area) (l : list vm_area) (s e : Z).
  Hypotheses (Ha : area_ok a) (Hok : Forall area_ok l) (Hs : sorted (end_ a) l) (Hse : s < e).
  Hypotheses (Hsm : s mod PGSIZE = 0) (Hem : e mod PGSIZE = 0).

Lemma above_head x : x < end_ a -> mapping l x = None.
Proof. by apply mapping_below. Qed.

Lemma clear_before l' : end_ a <= s -> cleared l l' s e -> cleared (a :: l) (a :: l') s e.
Proof.
  intros H Hc x. pose proof (Hc x) as Hx. locate x s e a.
  - lia.
  - rewrite in_range_in in Hx by done. by rewrite mapping_cons_out.
  - by rewrite !mapping_cons_in.
  - rewrite in_range_out in Hx by done. by rewrite !mapping_cons_out.
Qed.

Lemma clear_after : e <= start a -> cleared (a :: l) (a :: l) s e.
Proof.
  intros H x. destruct (ok_range _ Ha) as [? _]. locate x s e a; [lia| |done..].
  rewrite mapping_cons_out by done. apply above_head. lia.
Qed.

Lemma clear_all l' : s <= start a -> end_ a <= e -> cleared l l' s e -> cleared (a :: l) l' s e.
Proof.
  intros H1 H2 Hc x. rewrite Hc. locate x s e a; try done; [lia|].
  by rewrite mapping_cons_out.
Qed.

Lemma clear_head : s <= start a -> start a < e < end_ a -> cleared (a :: l) (trim_start a e :: l) s e.
Proof.
  intros H1 H2 x. assert (Hcut : cut_ok a e) by by split. locate x s e a.
  - rewrite mapping_cons_out by bounds. apply above_head. lia.
  - rewrite mapping_cons_out by bounds. apply above_head. lia.
  - rewrite !mapping_cons_in by bounds. f_equal. apply trim_start_at; [done..|lia].
  - rewrite !mapping_cons_out by bounds. done.
Qed.

Lemma clear_tail l' : start a < s < end_ a -> end_ a <= e -> cleared l l' s e ->
  cleared (a :: l) (trim_end a s :: l') s e.
Proof.
  intros H1 H2 Hc x. assert (Hcut : cut_ok a s) by by split. pose proof (Hc x) as Hx. locate x s e a.
  - rewrite mapping_cons_out by bounds. by rewrite Hx, in_range_in.
  - rewrite mapping_cons_out by bounds. by rewrite Hx, in_range_in.
  - rewrite !mapping_cons_in by bounds. f_equal. apply trim_end_at; [done..|lia].
  - rewrite !mapping_cons_out by bounds. by rewrite Hx, in_range_out.
Qed.

Lemma clear_inside : start a < s -> e < end_ a ->
  cleared (a :: l) (trim_end a s :: trim_start a e :: l) s e.
Proof.
  intros H1 H2 x. assert (Hcs : cut_ok a s) by (split; [lia|done]). assert (Hce : cut_ok a e) by (split; [lia|done]).
  locate x s e a.
  - rewrite !mapping_cons_out by bounds. apply above_head. lia.
  - lia.
  - rewrite (mapping_cons_in a) by done. destruct (decide (x < s)).
    + rewrite mapping_cons_in by bounds. f_equal. apply trim_end_at; [done..|lia].
    + rewrite mapping_cons_out, mapping_cons_in by bounds. f_equal. apply trim_start_at; [done..|lia].
  - by rewrite !mapping_cons_out by bounds.
Qed.
End clear.

(** An area as an owner of references, whether or not it is in a set. *)
Definition owned (o : option vm_area) : list vm_area := match o with Some a => [a] | None => [] end.

Lemma trim_end_owner w a c l : conserved w (a :: l) w (trim_end a c :: l).
Proof.
  apply (conserved_frame _ [a] _ [_] l), conserved_same; unfold trim_end; by destruct (_ <? _).
Qed.
Lemma trim_start_owner w a c l : conserved w (a :: l) w (trim_start a c :: l).
Proof. by apply (conserved_frame _ [a] _ [_] l), conserved_same. Qed.

(** What [unmap_loop] establishes for its part of the list. *)
Record unmapped (lo s e : Z) (l : list vm_area) (split : option vm_area) (w : world)
    (l' : list vm_area) (split' : option vm_area) (w' : world) : Prop := {
  un_ok : Forall area_ok l';
  un_sorted : sorted lo l';
  un_cleared : cleared l l' s e;
  un_merged : merged l -> merged l';
  un_joint : forall p, end_ p <= s -> merged (p :: l) -> merged (p :: l');
  un_conserved : conserved w (l ++ owned split) w' (l' ++ owned split') }.

Section unmap.
  Context (s e : Z).
  Hypotheses (Hse : s < e) (Hsm : s mod PGSIZE = 0) (Hem : e mod PGSIZE = 0).

Lemma merged_past p a l : merged l -> end_ p < end_ a -> sorted (end_ a) l -> merged (p :: l).
Proof. intros Hm Hp Hs. apply merged_cons_gap; [done|]. intros b l' ->. destruct Hs. lia. Qed.

Lemma merged_trim_start p a l : Forall area_ok (a :: l) -> cut_ok a e -> end_ p <= s ->
  merged (a :: l) -> merged (p :: trim_start a e :: l).
Proof.
  intros [Ha Hok]%Forall_cons Hc Hp Hm. split; [apply not_adjacent; cbn; lia|].
  destruct l as [|b l]; [done|]. apply Forall_cons in Hok as [Hb _]. destruct Hm as [Hm ?]. split; [|done].
  by rewrite can_merge_trim_start.
Qed.

Lemma unmapped_keep lo a l split w l' split' w' :
  area_ok a -> lo <= start a -> sorted (end_ a) l -> end_ a <= s ->
  unmapped (end_ a) s e l split w l' split' w' -> unmapped lo s e (a :: l) split w (a :: l') split' w'.
Proof.
  intros Ha Hlo Hs He [O S C M J R]. split; auto.
  - by split.
  - by apply clear_before.
  - intros p Hp [? Hm]. split; [done|]. by apply J.
  - by apply conserved_cons.
Qed.

Lemma unmapped_drop lo a l split w l' split' w' :
  area_ok a -> lo <= start a -> sorted (end_ a) l -> s <= start a -> end_ a <= e ->
  unmapped (end_ a) s e l split (vma_release w a) l' split' w' -> unmapped lo s e (a :: l) split w l' split' w'.
Proof.
  intros Ha Hlo Hs H1 H2 [O S C M J R]. destruct (ok_range _ Ha) as [? _]. split; auto.
  - eapply sorted_mono; [|done]. lia.
  - by apply clear_all.
  - intros Hm%merged_cons. auto.
  - intros p Hp Hm%merged_cons%merged_cons. apply J; [done|]. apply (merged_past p a); [done|lia|done].
  - eapply conserved_trans; [|exact R]. apply (conserved_frame _ [a] _ [] (l ++ owned split)), release_conserved.
Qed.

Lemma unmapped_tail lo a l split w l' split' w' :
  area_ok a -> Forall area_ok l -> lo <= start a -> sorted (end_ a) l -> start a < s < end_ a -> end_ a <= e ->
  unmapped (end_ a) s e l split w l' split' w' ->
  unmapped lo s e (a :: l) split w (trim_end a s :: l') split' w'.
Proof.
  intros Ha Hok Hlo Hs H1 H2 [O S C M J R]. assert (Hcut : cut_ok a s) by by split. split; auto.
  - constructor; [by apply trim_end_ok|done].
  - split; [bounds|]. rewrite trim_end_end. eapply sorted_mono; [|done]. lia.
  - by apply clear_tail.
  - intros Hm%merged_cons. apply J; [bounds|]. apply (merged_past _ a); [done|bounds|done].
  - intros p Hp [Hpa Hm%merged_cons]. split; [by rewrite can_merge_trim_end|].
    apply J; [bounds|]. apply (merged_past _ a); [done|bounds|done].
  - eapply conserved_trans; [apply trim_end_owner|]. by apply conserved_cons.
Qed.

Lemma unmapped_inside lo a l w : area_ok a -> Forall area_ok l -> lo <= start a -> sorted (end_ a) l ->
  start a < s -> e < end_ a ->
  unmapped lo s e (a :: l) (Some (trim_start a e)) w (trim_end a s :: trim_start a e :: l) None w.
Proof.
  intros Ha Hok Hlo Hs H1 H2. assert (Hcs : cut_ok a s) by (split; [lia|done]).
  assert (Hce : cut_ok a e) by (split; [lia|done]).
  assert (Hm2 : merged (a :: l) -> merged (trim_end a s :: trim_start a e :: l)).
  { apply merged_trim_start; [by constructor|done|bounds]. }
  split.
  - constructor; [by apply trim_end_ok|]. constructor; [by apply trim_start_ok|done].
  - split; [bounds|]. split; [bounds|done].
  - by apply clear_inside.
  - done.
  - intros p Hp [Hpa Hm]. split; [by rewrite can_merge_trim_end|]. by apply Hm2.
  - cbn [owned]. rewrite app_nil_r. apply (conserved_perm _ (a :: l ++ [trim_start a e]) _ (trim_end a s :: l ++ [trim_start a e]));
      [apply trim_end_owner|done|].
    constructor. by rewrite Permutation_app_comm.
Qed.

Lemma unmap_loop_spec l split w lo : Forall area_ok l -> sorted lo l ->
  (forall a, a ∈ l -> start a < s -> e < end_ a -> split = Some (trim_start a e)) ->
  exists l' split' w', unmap_loop l s e split w = Ret (l', split', w') /\
    unmapped lo s e l split w l' split' w'.
Proof.
  revert w lo; induction l as [|a l IH]; intros w lo Hok Hs Hsp.
  { exists [], split, w. split; [done|]. split; auto using conserved_refl.
    intros x. by destruct (in_range s e x). }
  apply Forall_cons in Hok as [Ha Hok]. destruct Hs as [Hlo Hs]. cbn [unmap_loop].
  assert (Hsp' : forall b, b ∈ l -> start b < s -> e < end_ b -> split = Some (trim_start b e)) by set_solver.
  destruct (Z.leb_spec (end_ a) s).
  { destruct (IH w (end_ a) Hok Hs Hsp') as (l' & sp & w' & -> & HR). do 3 eexists. split; [done|].
    by apply unmapped_keep. }
  destruct (Z.leb_spec e (start a)).
  { do 3 eexists. split; [done|]. split; auto using conserved_refl; [by split|by apply clear_after]. }
  destruct (Z.leb_spec s (start a)), (Z.leb_spec (end_ a) e); cbn [andb].
  - destruct (IH (vma_release w a) (end_ a) Hok Hs Hsp') as (l' & sp & w' & -> & HR). do 3 eexists. split; [done|].
    by apply unmapped_drop.
  - do 3 eexists. split; [done|]. assert (Hcut : cut_ok a e) by (split; [lia|done]). split.
    + constructor; [by apply trim_start_ok|done].
    + split; [bounds|done].
    + by apply clear_head.
    + intros Hm. eapply (merged_cons (with_end a s)), merged_trim_start; [by constructor|done|cbn; lia|done].
    + intros p Hp [_ Hm]. apply merged_trim_start; [by constructor|done..].
    + apply trim_start_owner.
  - destruct (IH w (end_ a) Hok Hs Hsp') as (l' & sp & w' & -> & HR). do 3 eexists. split; [done|].
    apply unmapped_tail; (done || lia).
  - rewrite (Hsp a) by (set_solver || lia). do 3 eexists. split; [done|]. by apply unmapped_inside.
Qed.
End unmap.

Definition page_range (s e : Z) : Prop := s < e /\ s mod PGSIZE = 0 /\ e mod PGSIZE = 0.

Lemma range_guard_spec s e : (e <=? s) || truth (s mod PGSIZE) || truth (e mod PGSIZE) = false <-> page_range s e.
Proof. rewrite !orb_false_iff, !truth_0, Z.leb_gt. unfold page_range. tauto. Qed.

Lemma range_guard_no s e : (e <=? s) || truth (s mod PGSIZE) || truth (e mod PGSIZE) = true -> ~ page_range s e.
Proof. intros E. rewrite <-range_guard_spec. by rewrite E. Qed.

Lemma find_area_spec l s : wf l ->
  match vma_find l s ≫= (fun i => l !! i) with
  | Some a => a ∈ l /\ has a s = true
  | None => forall a, a ∈ l -> has a s = false
  end.
Proof.
  intros Hwf. pose proof (find_spec l s Hwf) as Hf. destruct (vma_find l s) as [i|] eqn:Ei; cbn.
  - destruct Hf as (a & Hi & Ha). rewrite Hi. split; [by eapply list_elem_of_lookup_2|done].
  - intros a [i Hi]%list_elem_of_lookup. apply not_true_is_false. intros Ha.
    by rewrite (find_unique l s i a) in Ei.
Qed.

Lemma wf_has_unique l x a b : wf l -> a ∈ l -> b ∈ l -> has a x = true -> has b x = true -> a = b.
Proof.
  intros Hwf [i Hi]%list_elem_of_lookup [j Hj]%list_elem_of_lookup Ha Hb.
  pose proof (find_unique l x i a Hwf Hi Ha). pose proof (find_unique l x j b Hwf Hj Hb). congruence.
Qed.

Lemma owned_release w l o : conserved w (l ++ owned o) (match o with Some a => vma_release w a | None => w end) l.
Proof.
  destruct o as [a|]; cbn [owned]; [|rewrite app_nil_r; apply conserved_refl].
  pose proof (conserved_prefix _ _ _ _ l (release_conserved w a)) as Hx. by rewrite app_nil_r in Hx.
Qed.

(** The area that strictly contains the range, if there is one, is the one the code finds. *)
Lemma inside_spec l s e : wf l -> s < e ->
  match vma_find l s ≫= (fun i => l !! i) with
  | Some a => a ∈ l /\ start a <= s < end_ a /\ forall b, b ∈ l -> start b < s -> e < end_ b -> b = a
  | None => forall b, b ∈ l -> start b < s -> e < end_ b -> False
  end.
Proof.
  intros Hwf Hse. pose proof (find_area_spec l s Hwf) as Hf.
  destruct (_ ≫= _) as [a|].
  - destruct Hf as [Hin Ha]. split; [done|]. split; [by apply has_iff|]. intros b Hb H1 H2.
    apply (wf_has_unique l s); [done..| |done]. apply has_iff. lia.
  - intros b Hb H1 H2. enough (has b s = true) by (rewrite Hf in *; done). apply has_iff. lia.
Qed.

Definition unmap_result (l : list vm_area) (w : world) (s e rc : Z) (l' : list vm_area) (w' : world) : Prop :=
  wf l' /\ (merged l -> merged l') /\ conserved w l w' l' /\
  ((rc = 0 /\ page_range s e /\ cleared l l' s e) \/
   (rc = -1 /\ l' = l /\ (~ page_range s e \/ exists a, a ∈ l /\ start a < s /\ e < end_ a))).

Lemma unmap_run l w s e split w' : wf l -> page_range s e ->
  (forall a, a ∈ l -> start a < s -> e < end_ a -> split = Some (trim_start a e)) ->
  conserved w l w' (l ++ owned split) ->
  exists rc l' w'', ('(set, split, w) ← unmap_loop l s e split w';
      Ret (0, set, match split with Some sp => vma_release w sp | None => w end)) = Ret (rc, l', w'') /\
    unmap_result l w s e rc l' w''.
Proof.
  intros [Hok Hs] Hr Hsp Hc. pose proof Hr as (Hse & Hsm & Hem).
  destruct (unmap_loop_spec s e Hse Hsm Hem l split w' 0 Hok Hs Hsp) as (l' & sp & w'' & -> & [O S C M J R]).
  do 3 eexists. split; [done|]. split; [done|]. split; [done|]. split; [|by left].
  eapply conserved_trans; [exact Hc|]. eapply conserved_trans; [exact R|]. apply owned_release.
Qed.

Lemma unmap_spec l w s e : wf l ->
  exists rc l' w', vma_unmap l w s e = Ret (rc, l', w') /\ unmap_result l w s e rc l' w'.
Proof.
  intros Hwf. unfold vma_unmap. destruct (_ || _ || _) eqn:Eg.
  { apply range_guard_no in Eg. exists (-1), l, w. split; [done|]. unfold unmap_result. eauto 10 using conserved_refl. }
  apply range_guard_spec in Eg as Hr. pose proof Hr as (Hse & Hsm & Hem).
  pose proof (inside_spec l s e Hwf Hse) as Hf. destruct (_ ≫= _) as [a|]; cycle 1.
  { apply unmap_run; [done..|intros b ???; by destruct (Hf b)|]. rewrite app_nil_r. apply conserved_refl. }
  destruct Hf as (Hin & Has & Huniq). destruct ((start a <? s) && (e <? end_ a)) eqn:En; cbn [andb].
  - bool_to_prop. assert (Haok : area_ok a) by (destruct Hwf as [Hok _]; by eapply Forall_forall in Hok).
    destruct (allocate_split_spec w a e) as [(w' & -> & Hc)|(w' & -> & Hc)]; [done|by split; [lia|]|..]; cbn.
    + exists (-1), l, w'. split; [done|]. split; [done|]. split; [done|].
      split; [by apply (conserved_frame _ [] _ [] l)|]. right. split; [done|]. split; [done|]. right. exists a.
      split; [done|]. lia.
    + apply unmap_run; [done..| |].
      * intros b Hb Hb1 Hb2. by rewrite (Huniq b).
      * pose proof (conserved_prefix _ _ _ _ l Hc) as Hx. by rewrite app_nil_r in Hx.
  - apply unmap_run; [done..| |rewrite app_nil_r; apply conserved_refl].
    intros b Hb Hb1 Hb2. pose proof (Huniq b Hb Hb1 Hb2) as ->.
    apply andb_false_iff in En. rewrite !Z.ltb_ge in En. lia.
Qed.

(** ** Ranges *)

Lemma range_free_spec l s e lo : Forall area_ok l -> sorted lo l -> s < e ->
  range_free_loop l s e = true <-> forall x, s <= x < e -> mapping l x = None.
Proof.
  revert lo; induction l as [|a l IH]; intros lo Hok Hs Hse; [done|]. cbn [range_free_loop].
  apply Forall_cons in Hok as [Ha Hok]. destruct Hs as [Hlo Hs]. destruct (ok_range _ Ha) as [? _].
  destruct (Z.leb_spec e (start a)).
  { split; [|done]. intros _ x Hx. apply (mapping_below (start a)); [by constructor|by split|lia]. }
  destruct (Z.ltb_spec s (end_ a)).
  - split; [done|]. intros Hx. specialize (Hx (Z.max s (start a))).
    rewrite mapping_cons_in in Hx by lia. discriminate Hx. lia.
  - rewrite (IH (end_ a)) by done. split; intros Hx x Hr; [rewrite mapping_cons_out by lia|
      rewrite <-(mapping_cons_out a) by lia]; by apply Hx.
Qed.

Lemma range_mapped_spec l c e lo : Forall area_ok l -> sorted lo l -> c < e ->
  range_mapped_loop l c e = true <-> forall x, c <= x < e -> mapping l x <> None.
Proof.
  revert c lo; induction l as [|a l IH]; intros c lo Hok Hs Hce; cbn [range_mapped_loop].
  { split; [done|]. intros Hx. by destruct (Hx c); [lia|]. }
  apply Forall_cons in Hok as [Ha Hok]. destruct Hs as [Hlo Hs]. destruct (ok_range _ Ha) as [? _].
  destruct (Z.leb_spec (end_ a) c).
  { rewrite (IH c (end_ a)) by done. split; intros Hx x Hr; [rewrite mapping_cons_out by lia|
      rewrite <-(mapping_cons_out a) by lia]; by apply Hx. }
  destruct (Z.ltb_spec c (start a)).
  { split; [done|]. intros Hx. destruct (Hx c); [lia|]. apply (mapping_below (start a)); [by constructor|by split|lia]. }
  destruct (Z.leb_spec e (end_ a)).
  { split; [|done]. intros _ x Hx. by rewrite mapping_cons_in by lia. }
  rewrite (IH (end_ a) (end_ a)) by (done || lia). split; intros Hx x Hr.
  - destruct (decide (x < end_ a)); [by rewrite mapping_cons_in by lia|].
    rewrite mapping_cons_out by lia. apply Hx. lia.
  - rewrite <-(mapping_cons_out a) by lia. apply Hx. lia.
Qed.

Lemma unmapped_address l s e : (false = true <-> forall x, s <= x < e -> mapping l x <> None) ->
  exists x, s <= x < e /\ mapping l x = None.
Proof.
  intros Hall. destruct (decide (Exists (fun x => mapping l x = None) (seqZ s (e - s)))) as [Hx|Hx].
  - apply Exists_exists in Hx as (x & Hx & ?). apply elem_of_seqZ in Hx. exists x. split; [lia|done].
  - enough (false = true) by done. apply Hall. intros x Hr Hn. apply Hx, Exists_exists. exists x.
    split; [|done]. apply elem_of_seqZ. lia.
Qed.

Lemma find_mapped l x : wf l -> mapping l x <> None ->
  exists i a, vma_find l x = Some i /\ l !! i = Some a /\ start a <= x < end_ a.
Proof.
  intros Hwf Hx. pose proof (find_spec l x Hwf) as Hf. destruct (vma_find l x) as [i|]; [|done].
  destruct Hf as (a & Hi & Ha%has_iff). eauto.
Qed.

(** ** Protection *)

Lemma trim_start_twice a s e : area_ok a -> cut_ok a s -> cut_ok a e -> s < e ->
  trim_start (trim_start a s) e = trim_start a e.
Proof.
  intros Ha Hs He Hse. rewrite (trim_start_eq (trim_start a s)).
  - rewrite !trim_start_eq by done. cbn.
    change (is_file (MkArea _ _ _ _ _ _ (origin a) _ _ _)) with (is_file a).
    destruct Hs as [Hs _]. f_equal; [destruct (_ || _)|destruct (is_file a)]; lia.
  - by apply trim_start_ok.
  - destruct He. split; [cbn; lia|done].
Qed.

Definition uncrossed (l : list vm_area) (c : Z) : Prop := forall b, b ∈ l -> ~ start b < c < end_ b.

(** A cut in two leaves the meaning alone and makes [c] a boundary. *)
Record cut_result (l : list vm_area) (a : vm_area) (c : Z) (l' : list vm_area) : Prop := {
  cut_wf : wf l';
  cut_mapping : forall x, mapping l' x = mapping l x;
  cut_conserved : forall w, conserved w (l ++ [trim_start a c]) w l';
  cut_members : forall b, b ∈ l' -> b ∈ l \/ b = trim_end a c \/ b = trim_start a c;
  cut_uncrossed : uncrossed l' c }.

Lemma cut_list_wf pre a post c : wf (pre ++ a :: post) -> cut_ok a c ->
  wf (pre ++ trim_end a c :: trim_start a c :: post).
Proof.
  rewrite !wf_app, !Forall_cons. intros (Hpre & (Ha & Hpost) & Hlo & Hs) Hc.
  split_and!; auto using trim_end_ok, trim_start_ok. destruct Hc as [? _].
  split; [bounds|]. split; [bounds|done].
Qed.

Lemma cut_list_mapping a post c x : area_ok a -> cut_ok a c ->
  mapping (trim_end a c :: trim_start a c :: post) x = mapping (a :: post) x.
Proof.
  intros Ha Hc. pose proof Hc as [? _].
  destruct (decide (start a <= x < c)); [|destruct (decide (c <= x < end_ a))].
  - rewrite !mapping_cons_in by bounds. f_equal. apply trim_end_at; [done..|lia].
  - rewrite (mapping_cons_out (trim_end a c)), !mapping_cons_in by bounds. f_equal. apply trim_start_at; [done..|lia].
  - by rewrite !mapping_cons_out by bounds.
Qed.

Lemma insert_middle {A} (pre post : list A) a b : <[length pre := b]> (pre ++ a :: post) = pre ++ b :: post.
Proof. by rewrite insert_app_r_alt, Nat.sub_diag. Qed.
Lemma insert_after_middle pre a b post : insert_after (pre ++ a :: post) (length pre) b = pre ++ a :: b :: post.
Proof.
  unfold insert_after. rewrite (cons_middle a pre), (app_assoc pre).
  rewrite take_app_length', drop_app_length' by (rewrite length_app; cbn; lia). by rewrite <-app_assoc.
Qed.

Lemma split_conserved w w1 pre a post c : conserved w [] w1 [trim_start a c] ->
  conserved w (pre ++ a :: post) w1 (pre ++ trim_end a c :: trim_start a c :: post).
Proof.
  intros Hc. apply conserved_prefix. eapply conserved_trans; [apply (trim_end_owner _ _ c)|].
  apply conserved_cons, (conserved_frame _ [] _ [_] post), Hc.
Qed.

Lemma cut_area_spec l i a c : wf l -> l !! i = Some a -> cut_ok a c ->
  exists l', cut_area l i c (trim_start a c) = Ret l' /\ cut_result l a c l'.
Proof.
  intros Hwf Hi Hc. apply list_elem_of_split_length in Hi as (pre & post & -> & ->).
  exists (pre ++ trim_end a c :: trim_start a c :: post). pose proof (cut_list_wf _ _ _ _ Hwf Hc) as Hwf'.
  assert (Ha : area_ok a) by (destruct Hwf as [Hok _]; by eapply Forall_mid).
  split.
  { unfold cut_area. erewrite rd_Ret by by apply list_lookup_middle. cbn.
    rewrite wr_Ret by (rewrite length_app; cbn; lia). cbn. by rewrite insert_middle, insert_after_middle. }
  split.
  - done.
  - intros x. rewrite !mapping_app. by rewrite cut_list_mapping.
  - intros w. apply (conserved_perm _ (a :: pre ++ post ++ [trim_start a c]) _ (trim_end a c :: pre ++ post ++ [trim_start a c]));
      [apply trim_end_owner|..].
    + rewrite <-app_assoc. apply (Permutation_middle pre).
    + etrans; [|apply Permutation_middle]. constructor. apply Permutation_app_head, (Permutation_app_comm post [_]).
  - set_solver.
  - intros b Hb Hx. destruct Hc as [Hc _]. assert (b = trim_end a c) as ->; [|rewrite trim_end_end in Hx; lia].
    apply (wf_has_unique _ (c - 1) _ _ Hwf'); [done|set_solver|apply has_iff; lia|apply has_iff; bounds].
Qed.

Definition set_prot (p : Z) (m : attr) : attr :=
  MkAttr p (m_flags m) (m_origin m) (m_usage m) (m_file m) (m_backing m) (m_pos m) (m_infile m).

Definition protected (l l' : list vm_area) (s e p : Z) : Prop :=
  forall x, mapping l' x = if in_range s e x then set_prot p <$> mapping l x else mapping l x.

Lemma with_protection_ok a p : area_ok a -> area_ok (with_protection a p).
Proof. intros [R A O L F N B]. by split. Qed.

Lemma protect_loop_spec l s e p lo w : s < e -> Forall area_ok l -> sorted lo l -> uncrossed l s -> uncrossed l e ->
  Forall area_ok (protect_loop l s e p) /\ sorted lo (protect_loop l s e p) /\
  protected l (protect_loop l s e p) s e p /\ conserved w l w (protect_loop l s e p).
Proof.
  intros Hse. revert lo; induction l as [|a l IH]; intros lo Hok Hs Hus Hue; cbn [protect_loop].
  { split_and!; auto using conserved_refl. intros x. by destruct (in_range s e x). }
  apply Forall_cons in Hok as [Ha Hok]. destruct Hs as [Hlo Hs]. destruct (ok_range _ Ha) as [? _].
  destruct (IH (end_ a)) as (O & S & P & C); [done..|intros b ?; apply Hus; set_solver|intros b ?; apply Hue; set_solver|].
  destruct (Z.leb_spec (end_ a) s).
  { split_and!; auto using conserved_cons; [by split|]. intros x. pose proof (P x) as Hx. locate x s e a.
    - lia.
    - rewrite in_range_in in Hx by done. by rewrite !mapping_cons_out.
    - by rewrite !mapping_cons_in.
    - rewrite in_range_out in Hx by done. by rewrite !mapping_cons_out. }
  destruct (Z.leb_spec e (start a)).
  { split_and!; auto using conserved_refl; [by split|]. intros x. locate x s e a; [lia| |done..].
    rewrite mapping_cons_out by done. by rewrite (above_head a) by (done || lia). }
  pose proof (Hus a ltac:(set_solver)). pose proof (Hue a ltac:(set_solver)).
  split_and!; [constructor; auto using with_protection_ok|by split| |].
  - intros x. pose proof (P x) as Hx. locate x s e a.
    + by rewrite !mapping_cons_in.
    + rewrite in_range_in in Hx by done. by rewrite !mapping_cons_out.
    + lia.
    + rewrite in_range_out in Hx by done. by rewrite !mapping_cons_out.
  - eapply conserved_trans; [apply conserved_cons, C|].
    by apply (conserved_frame _ [a] _ [_]), conserved_same.
Qed.

Definition protect_result (l : list vm_area) (w : world) (s e p rc : Z) (l' : list vm_area) (w' : world) : Prop :=
  wf l' /\ conserved w l w' l' /\
  ((rc = 0 /\ page_range s e /\ (forall x, s <= x < e -> mapping l x <> None) /\ merged l' /\
    protected l l' s e p) \/
   (rc = -1 /\ l' = l /\
    (~ page_range s e \/ (exists x, s <= x < e /\ mapping l x = None) \/ ~ uncrossed l s \/ ~ uncrossed l e))).

Lemma protect_finish l l1 w w1 s e p : page_range s e -> (forall x, s <= x < e -> mapping l x <> None) ->
  wf l1 -> (forall x, mapping l1 x = mapping l x) -> uncrossed l1 s -> uncrossed l1 e -> conserved w l w1 l1 ->
  exists rc l' w', (let (set, w) := vma_merge_all (protect_loop l1 s e p) w1 in Ret (0, set, w)) = Ret (rc, l', w') /\
    protect_result l w s e p rc l' w'.
Proof.
  intros Hr Hall [Hok Hs] Hm Hus Hue Hc. pose proof Hr as (Hse & _).
  destruct (protect_loop_spec l1 s e p 0 w1) as (O & S & P & C); [done..|].
  destruct (merge_all_spec (protect_loop l1 s e p) w1) as (l' & w' & -> & Hwf & Hmg & Hmap & Hc'); [done|].
  do 3 eexists. split; [done|]. split; [done|]. split.
  - eapply conserved_trans; [exact Hc|]. by eapply conserved_trans.
  - left. split_and!; try done. intros x. rewrite Hmap, P, !Hm. done.
Qed.

Lemma split_maybe w a c (cond : bool) : area_ok a -> (cond = true -> cut_ok a c) ->
  exists o w', (if cond then vma_allocate_split w a c else (None, w)) = (o, w') /\ conserved w [] w' (owned o) /\
    ((cond && negb (bool_decide (is_Some o)) = true /\ o = None /\ cond = true) \/
     (cond && negb (bool_decide (is_Some o)) = false /\ o = if cond then Some (trim_start a c) else None)).
Proof.
  intros Ha Hc. destruct cond; [|eexists _, _; split; [done|]; eauto using conserved_refl].
  destruct (allocate_split_spec w a c) as [(w' & -> & ?)|(w' & -> & ?)]; [done|by apply Hc|..]; eauto 10.
Qed.

Lemma cut_maybe l i a c split : wf l -> l !! i = Some a ->
  (split = Some (trim_start a c) /\ cut_ok a c) \/ (split = None /\ uncrossed l c) ->
  exists l1, match split with Some sp => cut_area l i c sp | None => Ret l end = Ret l1 /\ wf l1 /\
    (forall x, mapping l1 x = mapping l x) /\ (forall w, conserved w (l ++ owned split) w l1) /\ uncrossed l1 c /\
    (forall b, b ∈ l1 -> b ∈ l \/ (cut_ok a c /\ (b = trim_end a c \/ b = trim_start a c))).
Proof.
  intros Hwf Hi [[-> Hc]|[-> Hu]].
  - destruct (cut_area_spec l i a c Hwf Hi Hc) as (l1 & -> & [W M R E U]). exists l1. split_and!; try done.
    intros b Hb. destruct (E b Hb) as [|]; auto.
  - exists l. split_and!; try done; [|auto]. intros w. rewrite app_nil_r. apply conserved_refl.
Qed.

Lemma uncrossed_of l c x a : wf l -> a ∈ l -> has a x = true -> x = c \/ x = c - 1 ->
  ~ start a < c < end_ a -> uncrossed l c.
Proof.
  intros Hwf Ha Hx Hc Hu b Hb Hbc. destruct Hu. replace a with b; [done|].
  apply (wf_has_unique l x); [done..| |done]. apply has_iff. lia.
Qed.

(** After the first cut the area that holds [e - 1] still ends where the second was prepared. *)
Lemma second_cut (l l1 : list vm_area) sa ea b s e : wf l -> page_range s e -> sa ∈ l -> ea ∈ l -> b ∈ l1 ->
  start ea <= e - 1 < end_ ea -> start b <= e - 1 < end_ b -> start sa <= s ->
  (forall b, b ∈ l1 -> b ∈ l \/ (cut_ok sa s /\ (b = trim_end sa s \/ b = trim_start sa s))) ->
  b = ea \/ (cut_ok ea s /\ b = trim_start ea s).
Proof.
  intros Hwf (Hse & _) Hsa Hea Hb He Hbe Hs Hmem. destruct (Hmem b Hb) as [Hin|[Hc [->| ->]]].
  - left. apply (wf_has_unique l (e - 1)); [done..|apply has_iff; lia|by apply has_iff].
  - rewrite trim_end_end in Hbe. lia.
  - assert (sa = ea) as <-; [|by right].
    apply (wf_has_unique l (e - 1)); [done..|apply has_iff; cbn in Hbe; lia|by apply has_iff].
Qed.

Lemma end_cut_ready (l l1 : list vm_area) sa ea b s e : wf l -> wf l1 -> page_range s e -> sa ∈ l -> ea ∈ l -> b ∈ l1 ->
  start ea <= e - 1 < end_ ea -> start b <= e - 1 < end_ b -> start sa <= s ->
  (forall b, b ∈ l1 -> b ∈ l \/ (cut_ok sa s /\ (b = trim_end sa s \/ b = trim_start sa s))) ->
  let split := if e <? end_ ea then Some (trim_start ea e) else None in
  (split = Some (trim_start b e) /\ cut_ok b e) \/ (split = None /\ uncrossed l1 e).
Proof.
  intros Hwf Hwf1 Hr Hsa Hea Hb He Hbe Hs Hmem split. pose proof Hr as (Hse & _ & Hem).
  pose proof (second_cut l l1 sa ea b s e Hwf Hr Hsa Hea Hb He Hbe Hs Hmem) as Hb'.
  assert (Hend : end_ b = end_ ea) by (by destruct Hb' as [->|[_ ->]]).
  assert (Hok : area_ok ea) by (destruct Hwf as [Hok _]; by eapply Forall_forall in Hok).
  subst split. destruct (Z.ltb_spec e (end_ ea)).
  - left. split; [|split; [lia|done]]. f_equal. destruct Hb' as [->|[Hc ->]]; [done|].
    symmetry. apply trim_start_twice; [done..|split; [lia|done]|done].
  - right. split; [done|]. apply (uncrossed_of l1 e (e - 1) b Hwf1 Hb); [by apply has_iff|by right|lia].
Qed.

Lemma start_cut_ready l sa s e : wf l -> page_range s e -> sa ∈ l -> start sa <= s < end_ sa ->
  let split := if start sa <? s then Some (trim_start sa s) else None in
  (split = Some (trim_start sa s) /\ cut_ok sa s) \/ (split = None /\ uncrossed l s).
Proof.
  intros Hwf (_ & Hsm & _) Hsa Hs. cbn zeta. destruct (Z.ltb_spec (start sa) s); [left|right].
  - split; [done|]. split; [lia|done].
  - split; [done|]. apply (uncrossed_of l s s sa Hwf Hsa); [by apply has_iff|by left|lia].
Qed.

Lemma protect_cuts l w w2 s e p i sa ea :
  wf l -> page_range s e -> (forall x, s <= x < e -> mapping l x <> None) ->
  l !! i = Some sa -> start sa <= s < end_ sa -> ea ∈ l -> start ea <= e - 1 < end_ ea ->
  let o1 := if start sa <? s then Some (trim_start sa s) else None in
  let o2 := if e <? end_ ea then Some (trim_start ea e) else None in
  conserved w l w2 (l ++ owned o1 ++ owned o2) ->
  exists rc l' w', (set ← match o1 with Some sp => cut_area l i s sp | None => Ret l end;
      ei ← deref (vma_find set (e - 1));
      set ← match o2 with Some sp => cut_area set ei e sp | None => Ret set end;
      let (set, w) := vma_merge_all (protect_loop set s e p) w2 in Ret (0, set, w)) = Ret (rc, l', w') /\
    protect_result l w s e p rc l' w'.
Proof.
  intros Hwf Hr Hmap Hi Hsa Hein Hea o1 o2 Hc. pose proof Hr as (Hse & _). apply list_elem_of_lookup_2 in Hi as Hsin.
  destruct (cut_maybe l i sa s o1 Hwf Hi (start_cut_ready _ _ _ _ Hwf Hr Hsin Hsa)) as (l1 & -> & W1 & M1 & R1 & U1 & E1).
  cbn. destruct (find_mapped l1 (e - 1) W1) as (j & b & -> & Hj & Hb); [rewrite M1; apply Hmap; lia|]. cbn.
  apply list_elem_of_lookup_2 in Hj as Hbin.
  destruct (cut_maybe l1 j b e o2 W1 Hj) as (l2 & -> & W2 & M2 & R2 & U2 & E2).
  { by apply (end_cut_ready l l1 sa ea b s e); [..|lia|]. }
  cbn. apply protect_finish; try done.
  - intros x. by rewrite M2.
  - intros c Hcin Hx. destruct (E2 c Hcin) as [Hin|[[Hbe _] [->| ->]]]; [by eapply U1|..].
    + apply (U1 b Hbin). rewrite trim_end_start, trim_end_end in Hx. lia.
    + cbn in Hx. lia.
  - eapply conserved_trans; [exact Hc|]. eapply conserved_trans; [|apply R2]. rewrite app_assoc.
    apply conserved_frame, R1.
Qed.

Lemma protect_spec l w s e p : wf l ->
  exists rc l' w', vma_protect l w s e p = Ret (rc, l', w') /\ protect_result l w s e p rc l' w'.
Proof.
  intros Hwf. unfold vma_protect.
  destruct ((e <=? s) || truth (s mod PGSIZE) || truth (e mod PGSIZE)) eqn:Eg; cbn [orb].
  { apply range_guard_no in Eg. exists (-1), l, w. split; [done|]. unfold protect_result. eauto 10 using conserved_refl. }
  apply range_guard_spec in Eg as Hr. pose proof Hr as (Hse & Hsm & Hem). pose proof Hwf as [Hok Hs].
  unfold vma_range_mapped. rewrite (proj2 (Z.leb_gt _ _) Hse).
  pose proof (range_mapped_spec l s e 0 Hok Hs Hse) as Hall. destruct (range_mapped_loop l s e); cbn [negb]; cycle 1.
  { exists (-1), l, w. split; [done|]. split; [done|]. split; [apply conserved_refl|]. right. do 2 (split; [done|]).
    right. left. by apply unmapped_address. }
  assert (Hmap := proj1 Hall eq_refl). clear Hall.
  destruct (find_mapped l s Hwf (Hmap s ltac:(lia))) as (i & sa & -> & Hi & Hsa).
  destruct (find_mapped l (e - 1) Hwf (Hmap (e - 1) ltac:(lia))) as (j & ea & -> & Hj & Hea).
  cbn [deref mbind outcome_bind]. rewrite (rd_Ret _ _ _ Hi), (rd_Ret _ _ _ Hj). cbn [mbind outcome_bind].
  apply list_elem_of_lookup_2 in Hi as Hsin. apply list_elem_of_lookup_2 in Hj as Hein.
  assert (area_ok sa /\ area_ok ea) as [Hsok Heok] by (rewrite Forall_forall in Hok; auto).
  destruct (split_maybe w sa s (start sa <? s)) as (o1 & w1 & -> & C1 & H1); [done|intros ?; bool_to_prop; split; [lia|done]|].
  apply (conserved_prefix _ _ _ _ l) in C1. rewrite app_nil_r in C1.
  destruct H1 as [(-> & -> & Hb)|(-> & ->)].
  { do 3 eexists. split; [done|]. split; [done|]. rewrite app_nil_r in C1. split; [done|]. right.
    do 2 (split; [done|]). right. right. left. intros Hu. bool_to_prop. apply (Hu sa); [done|lia]. }
  destruct (split_maybe w1 ea e (e <? end_ ea)) as (o2 & w2 & -> & C2 & H2); [done|intros ?; bool_to_prop; split; [lia|done]|].
  apply (conserved_prefix _ _ _ _ (l ++ owned (if start sa <? s then Some (trim_start sa s) else None))) in C2.
  rewrite app_nil_r in C2. pose proof (conserved_trans _ _ _ _ _ _ C1 C2) as C.
  destruct H2 as [(-> & -> & Hb)|(-> & ->)].
  { do 3 eexists. split; [done|]. split; [done|]. rewrite app_nil_r in C. split.
    - eapply conserved_trans; [exact C|apply owned_release].
    - right. do 2 (split; [done|]). right. right. right. intros Hu. bool_to_prop. apply (Hu ea); [done|lia]. }
  rewrite <-app_assoc in C. by apply protect_cuts.
Qed.
