(* ===== verification/VmaGap.v ===== *)
(** * Searching a free range

    [vma_find_gap_aligned] of kernel/vma.c against its specification: the
    address it returns is free, in bounds and aligned as asked, the search
    without a usable hint gives the highest such address, and a failure means
    there is none. *)
From S2P Require Import Prelude Vma VmaCorrect VmaOps.

Section alignment.
  Context (k off : Z).
  Hypothesis (Hk : 0 <= k).

Definition congruent (al off x : Z) : Prop := x mod al = off mod al.

Lemma residue_eq : Z.land off (2 ^ k - 1) = off mod 2 ^ k.
Proof. by apply land_pow2_pred_mod. Qed.

Lemma round_down_eq x : Z.land x (Z.lnot (2 ^ k - 1)) = x - x mod 2 ^ k.
Proof. rewrite <-land_lnot_ones by done. by rewrite Z.ones_equiv. Qed.

(** Two addresses with the same residue are equal or an alignment apart. *)
Lemma congruent_step x y : 0 < 2 ^ k -> congruent (2 ^ k) off x -> congruent (2 ^ k) off y -> x < y -> x + 2 ^ k <= y.
Proof.
  unfold congruent. intros Hp Hx Hy Hlt. pose proof (Z.div_mod x (2 ^ k)). pose proof (Z.div_mod y (2 ^ k)).
  assert (x / 2 ^ k < y / 2 ^ k) by nia. nia.
Qed.

Lemma congruent_rounded r x : congruent (2 ^ k) off r -> congruent (2 ^ k) off (r + (x - x mod 2 ^ k)).
Proof.
  unfold congruent. intros <-. rewrite (Z.mod_eq x) by lia.
  replace (x - (x - 2 ^ k * (x / 2 ^ k))) with (x / 2 ^ k * 2 ^ k) by lia. by rewrite Z.mod_add by lia.
Qed.

Lemma align_down_spec value : 0 <= value ->
  match align_down_offset value (2 ^ k) off with
  | Some c => 0 <= c <= value /\ congruent (2 ^ k) off c /\
      forall y, y <= value -> congruent (2 ^ k) off y -> y <= c
  | None => forall y, 0 <= y <= value -> ~ congruent (2 ^ k) off y
  end.
Proof.
  intros Hv. assert (Hp : 0 < 2 ^ k) by lia. unfold align_down_offset. rewrite residue_eq, round_down_eq.
  pose proof (Z.mod_pos_bound off (2 ^ k) Hp). set (r := off mod 2 ^ k) in *.
  assert (Hr : congruent (2 ^ k) off r) by apply Zmod_mod.
  destruct (Z.ltb_spec value r).
  { intros y Hy Hc. unfold congruent in Hc. rewrite Z.mod_small in Hc by lia. fold r in Hc. lia. }
  pose proof (Z.mod_pos_bound (value - r) (2 ^ k) Hp) as Hm.
  pose proof (Z.mod_le (value - r) (2 ^ k) ltac:(lia) Hp).
  assert (Hc : congruent (2 ^ k) off (r + (value - r - (value - r) mod 2 ^ k))).
  { by apply congruent_rounded. }
  split; [lia|]. split; [done|]. intros y Hy Hcy. apply Z.nlt_ge. intros Hlt.
  pose proof (congruent_step _ _ Hp Hc Hcy Hlt). lia.
Qed.
(** Rounding up does not leave 64 bits for addresses of the lower half. *)
Lemma align_up_spec value c : 0 <= value < 2 ^ 63 -> k < 64 ->
  align_up_offset value (2 ^ k) off = Some c -> value <= c /\ congruent (2 ^ k) off c.
Proof.
  intros Hv Hk64. assert (Hp : 0 < 2 ^ k) by lia. assert (2 ^ k <= 2 ^ 63) by (apply Z.pow_le_mono_r; lia).
  unfold align_up_offset. rewrite residue_eq, round_down_eq.
  pose proof (Z.mod_pos_bound off (2 ^ k) Hp). set (r := off mod 2 ^ k) in *.
  assert (Hr : congruent (2 ^ k) off r) by apply Zmod_mod.
  destruct (Z.leb_spec value r); [by intros [= <-]|]. destruct (Z.ltb_spec (UINT64_MAX - (2 ^ k - 1)) (value - r)); [done|].
  set (x := value - r + (2 ^ k - 1)) in *. pose proof (Z.mod_pos_bound x (2 ^ k) Hp).
  rewrite wrap64_id by (unfold is_u64; pose proof (Z.mod_le x (2 ^ k)); lia). intros [= <-].
  split; [lia|]. by apply congruent_rounded.
Qed.
End alignment.

(** ** The search *)

Section search.
  Context (k off len : Z).
  Hypotheses (Hk : 0 <= k) (Hlen : 0 < len).

(** An address the search may return. *)
Record fits (l : list vm_area) (low high c : Z) : Prop := {
  fits_low : low <= c;
  fits_high : c + len <= high;
  fits_aligned : congruent (2 ^ k) off c;
  fits_free : forall x, c <= x < c + len -> mapping l x = None }.

Definition highest (l : list vm_area) (low high : Z) (r : option Z) : Prop :=
  match r with
  | Some c => fits l low high c /\ forall y, fits l low high y -> y <= c
  | None => forall y, ~ fits l low high y
  end.

Lemma gap_aligned_spec s e : 0 <= s ->
  match gap_aligned_address s e len (2 ^ k) off with
  | Some c => s <= c /\ c + len <= e /\ congruent (2 ^ k) off c /\
      forall y, s <= y -> y + len <= e -> congruent (2 ^ k) off y -> y <= c
  | None => forall y, s <= y -> y + len <= e -> ~ congruent (2 ^ k) off y
  end.
Proof.
  intros Hs. unfold gap_aligned_address. destruct (Z.leb_spec e s), (Z.ltb_spec (e - s) len); cbn [orb]; try (intros; lia).
  pose proof (align_down_spec k off Hk (e - len) ltac:(lia)) as Ha. destruct (align_down_offset _ _ _) as [c|].
  - destruct Ha as (H1 & H2 & H3). destruct (Z.ltb_spec c s).
    + intros y ? ? Hy. pose proof (H3 y ltac:(lia) Hy). lia.
    + split_and!; [lia..|done|]. intros y ? ? Hy. apply H3; [lia|done].
  - intros y ? ?. apply Ha. lia.
Qed.

(** An area is on one side of every fitting address. *)
Lemma fits_side l low high c a : wf l -> a ∈ l -> fits l low high c -> c + len <= start a \/ end_ a <= c.
Proof.
  intros [Hok _] Hin Hf. eapply Forall_forall in Hok; [|done]. destruct (ok_range _ Hok) as [? _].
  destruct (decide (c + len <= start a)); [by left|]. right. apply Z.nlt_ge. intros Hlt.
  assert (Hm : mapping l (Z.max c (start a)) = None) by (apply (fits_free _ _ _ _ Hf); lia).
  apply (mapping_in_none _ a) in Hm; [|done]. rewrite (proj2 (has_iff a _)) in Hm by lia. done.
Qed.

Lemma mapping_snoc l a x : ~ start a <= x < end_ a -> mapping (l ++ [a]) x = mapping l x.
Proof. intros Hx. rewrite mapping_app, mapping_cons_out by done. cbn. by destruct (mapping l x). Qed.

(** Below or above an area only the others count. *)
Lemma fits_below l a low high c : c + len <= start a ->
  fits (l ++ [a]) low high c <-> fits l low (Z.min high (start a)) c.
Proof.
  intros Hc. split; intros [L H A F]; split; try done; try lia; intros x Hx;
    [rewrite <-(mapping_snoc l a) by lia|rewrite mapping_snoc by lia]; by apply F.
Qed.

Lemma wf_snoc l a : wf (l ++ [a]) -> wf l /\ area_ok a /\ forall b, b ∈ l -> end_ b <= start a.
Proof.
  intros Hwf. pose proof Hwf as [Hok Hs]. pose proof Hwf as (Hl & Ha & _)%wf_app. apply Forall_cons in Ha as [Ha _].
  split_and!; [done..|]. intros b [i Hi]%list_elem_of_lookup. pose proof (lookup_lt_Some _ _ _ Hi).
  apply (sorted_lookup 0 (l ++ [a]) i (length l) b a Hok Hs); [done| |].
  - by rewrite lookup_app_l.
  - by apply list_lookup_middle.
Qed.

Lemma mapping_after l a x : wf (l ++ [a]) -> end_ a <= x -> mapping (l ++ [a]) x = None.
Proof.
  intros (Hl & Ha & Hb)%wf_snoc Hx. destruct (ok_range _ Ha) as [? _]. rewrite mapping_snoc by lia.
  eapply mapping_above; [exact Hb|lia].
Qed.

Lemma gap_above l a low cursor s : wf (l ++ [a]) -> 0 <= s -> low <= s -> end_ a <= s ->
  (forall y, fits (l ++ [a]) low cursor y -> s <= y \/ y + len <= start a) -> start a < s ->
  match gap_aligned_address s cursor len (2 ^ k) off with
  | Some c => highest (l ++ [a]) low cursor (Some c)
  | None => forall y, fits (l ++ [a]) low cursor y -> y + len <= start a
  end.
Proof.
  intros Hwf Hs Hlow He Hside Hsa. pose proof (gap_aligned_spec s cursor Hs) as Hg.
  destruct (gap_aligned_address _ _ _ _ _) as [c|].
  - destruct Hg as (H1 & H2 & H3 & H4). split.
    + split; try done; [lia|]. intros x Hx. apply mapping_after; [done|lia].
    + intros y Hf. destruct (Hside y Hf); [|lia]. destruct Hf. by apply H4.
  - intros y Hf. destruct (Hside y Hf); [|done]. destruct Hf as [L T A F].
    exfalso. by apply (Hg y).
Qed.

Lemma highest_below l a low cursor r :
  cursor <= start a \/ (forall y, fits (l ++ [a]) low cursor y -> y + len <= start a) ->
  highest l low (Z.min cursor (start a)) r -> highest (l ++ [a]) low cursor r.
Proof.
  intros Hc Hr.
  assert (Hd : forall y, fits (l ++ [a]) low cursor y -> fits l low (Z.min cursor (start a)) y).
  { intros y Hy. apply fits_below; [|done]. pose proof (fits_high _ _ _ _ Hy). destruct Hc; [lia|auto]. }
  destruct r as [c|]; [|intros y Hy; by apply (Hr y), Hd]. destruct Hr as [Hf Hmax]. split; [|auto].
  pose proof (fits_high _ _ _ _ Hf). apply fits_below; [lia|done].
Qed.

Lemma gap_loop_spec l low cursor : wf l -> 0 <= low ->
  highest l low cursor (gap_loop (reverse l) low cursor len (2 ^ k) off).
Proof.
  intros Hwf Hlow. revert cursor. induction l as [|a l IH] using rev_ind; intros cursor.
  { cbn. pose proof (gap_aligned_spec low cursor Hlow) as Hg. destruct (gap_aligned_address _ _ _ _ _) as [c|].
    - destruct Hg as (H1 & H2 & H3 & H4). split; [by split|]. intros y [L T A F]. by apply H4.
    - intros y [L T A F]. by apply (Hg y). }
  pose proof (wf_snoc _ _ Hwf) as (Hl & Ha & Hb). specialize (IH Hl). destruct (ok_range _ Ha) as [? _].
  rewrite reverse_snoc. cbn [gap_loop].
  assert (Hside : forall y, fits (l ++ [a]) low cursor y -> y + len <= start a \/ end_ a <= y).
  { intros y Hf. eapply (fits_side (l ++ [a])); [done|set_solver|done]. }
  destruct (Z.leb_spec cursor (start a)).
  { apply highest_below; [by left|]. rewrite Z.min_l by lia. apply IH. }
  destruct (Z.leb_spec (end_ a) low).
  { pose proof (gap_above l a low cursor low Hwf Hlow ltac:(lia) ltac:(lia)) as Hg.
    destruct (gap_aligned_address _ _ _ _ _) as [c|]; [apply Hg; [|lia]; intros y []; by left|].
    intros y Hy. pose proof (fits_low _ _ _ _ Hy). enough (y + len <= start a) by lia. apply Hg; [|lia|done].
    intros z []; by left. }
  replace (if low <? end_ a then end_ a else low) with (end_ a) by (destruct (Z.ltb_spec low (end_ a)); lia).
  set (found := if end_ a <? cursor then _ else None).
  assert (Hfound : match found with Some c => highest (l ++ [a]) low cursor (Some c)
                   | None => forall y, fits (l ++ [a]) low cursor y -> y + len <= start a end).
  { subst found. destruct (Z.ltb_spec (end_ a) cursor).
    - apply gap_above; try done; [lia..| |lia]. intros y Hy. destruct (Hside y Hy); auto.
    - intros y Hy. pose proof (fits_high _ _ _ _ Hy). destruct (Hside y Hy); lia. }
  destruct found as [c|]; [done|]. rewrite (proj2 (Z.ltb_lt _ _)) by done.
  destruct (Z.leb_spec (start a) low).
  - intros y Hy. pose proof (fits_low _ _ _ _ Hy). specialize (Hfound y Hy). lia.
  - apply highest_below; [by right|]. rewrite Z.min_r by lia. apply IH.
Qed.
End search.

Definition gap_request (low high hint len al off : Z) : Prop :=
  low < high /\ low mod PGSIZE = 0 /\ high mod PGSIZE = 0 /\ 0 < len <= high - low /\ len mod PGSIZE = 0 /\
  hint mod PGSIZE = 0 /\ off mod PGSIZE = 0 /\ PGSIZE <= al /\ exists k, 0 <= k /\ al = 2 ^ k.

Lemma land_pow2_pred k : 0 <= k -> Z.land (2 ^ k) (2 ^ k - 1) = 0.
Proof. intros Hk. rewrite residue_eq by done. by apply Z_mod_same_full. Qed.

Lemma gap_rejects_spec low high hint len al off : 0 <= len -> 0 <= al ->
  gap_rejects low high hint len al off = false <-> gap_request low high hint len al off.
Proof.
  intros Hl Ha. unfold gap_rejects, gap_request. rewrite !orb_false_iff, !truth_0, negb_false_iff, truth_true,
    andb_false_iff, !truth_0, Z.leb_gt, !Z.ltb_ge. split.
  - intros (((((((((? & ?) & ?) & ?) & ?) & Hh) & ?) & Hp) & ?) & ?). split_and!; try (done || lia).
    + destruct Hh as [-> |]; done.
    + apply pow2_of_land; [unfold PGSIZE in *; lia|done].
  - intros (? & ? & ? & ? & ? & ? & ? & ? & k & Hk & ->). rewrite land_pow2_pred by done. split_and!; (done || lia || auto).
Qed.

Lemma find_gap_spec l low high hint len al off : wf l -> is_u64 low -> high <= 2 ^ 63 -> is_u64 hint ->
  is_u64 len -> is_u64 al ->
  match vma_find_gap_aligned l low high hint len al off with
  | Some c => gap_request low high hint len al off /\ exists k, al = 2 ^ k /\ fits k off len l low high c /\
      (forall y, ~ low <= hint -> fits k off len l low high y -> y <= c)
  | None => gap_request low high hint len al off -> forall k y, al = 2 ^ k -> ~ fits k off len l low high y
  end.
Proof.
  intros Hwf Hlow Hhigh Hhint Hlen Hal. unfold vma_find_gap_aligned.
  destruct (gap_rejects _ _ _ _ _ _) eqn:Er.
  { intros Hr. apply gap_rejects_spec in Hr; [congruence|unfold is_u64 in *; lia..]. }
  apply gap_rejects_spec in Er; [|unfold is_u64 in *; lia..].
  pose proof Er as (Hlh & _ & _ & Hlen' & _ & _ & _ & _ & k & Hk & ->).
  assert (Hk64 : k < 64). { destruct Hal as [_ Hal]. by apply Z.pow_lt_mono_r_iff in Hal. }
  pose proof (gap_loop_spec k off len Hk ltac:(lia) l low high Hwf ltac:(unfold is_u64 in *; lia)) as Hg.
  set (at_hint := if _ && _ then _ else None).
  assert (Hh : match at_hint with Some c => low <= hint /\ fits k off len l low high c | None => True end).
  { subst at_hint. destruct (Z.leb_spec low hint), (Z.leb_spec hint (high - len)); cbn [andb]; try done.
    destruct (align_up_offset _ _ _) as [c|] eqn:Eu; [|done].
    apply align_up_spec in Eu as [Hc1 Hc2]; [|done|unfold is_u64 in *; lia|done].
    destruct (Z.leb_spec c (high - len)); cbn [andb]; [|done]. destruct (vma_range_free _ _ _) eqn:Ef; [|done].
    unfold vma_range_free in Ef. rewrite wrap64_id in Ef by (unfold is_u64 in *; lia).
    destruct (Z.leb_spec (c + len) c); [done|]. destruct Hwf as [Hok Hs].
    rewrite (range_free_spec l _ _ 0) in Ef by done. split; [done|]. split; [lia..|done|done]. }
  destruct at_hint as [c|].
  - split; [done|]. exists k. split; [done|]. split; [apply Hh|]. intros y Hn. destruct Hn. apply Hh.
  - destruct (gap_loop _ _ _ _ _ _) as [c|].
    + destruct Hg as [Hf Hmax]. eauto 10.
    + intros _ k' y Hkk. assert (k' = k) as ->; [|apply Hg].
      destruct (decide (0 <= k')); [by apply Z.pow_inj_r in Hkk|].
      rewrite (Z.pow_neg_r 2 k') in Hkk by lia. lia.
Qed.

