(* ===== verification/VmaTheorems.v ===== *)
(** * Whole sets and ELF segments

    Destroying, moving and cloning sets, and the insertion of an ELF segment
    that may share its first page with the segment before it (kernel/vma.c). *)
From S2P Require Import Prelude Vma VmaCorrect VmaOps VmaGap.

Lemma destroy_spec l w : exists w', vma_set_destroy l w = ([], w') /\ conserved w l w' [].
Proof.
  revert w; induction l as [|a l IH]; intros w; cbn [vma_set_destroy]; [eauto using conserved_refl|].
  destruct (IH (vma_release w a)) as (w' & -> & Hc). exists w'. split; [done|].
  eapply conserved_trans; [|exact Hc]. apply (conserved_frame _ [a] _ [] l), release_conserved.
Qed.

Lemma move_spec d src w :
  exists w', vma_set_move d src w = (src, [], w') /\ conserved w (d ++ src) w' src.
Proof.
  unfold vma_set_move. destruct (destroy_spec d w) as (w' & -> & Hc). exists w'.
  split; [by destruct src|]. by apply (conserved_frame _ d _ []).
Qed.

(** ** Cloning *)

Lemma area_ok_u64 a : area_ok a -> is_u64 (start a) /\ is_u64 (offset a) /\ is_u64 (file_length a) /\ 0 <= end_ a.
Proof. intros [R _ O L _ _ _]. pose proof maxva. unfold is_u64, UINT64_MAX in *. lia. Qed.

Lemma clone_loop_spec src d w lo : Forall area_ok src -> sorted lo src -> wf d ->
  (forall x, mapping src x <> None -> mapping d x = None) ->
  exists rc d' w', clone_loop src d w = (rc, d', w') /\ wf d' /\ (merged d -> merged d') /\ conserved w d w' d' /\
    ((rc = 0 /\ forall x, mapping d' x = match mapping src x with Some m => Some m | None => mapping d x end) \/
     (rc = -1 /\ d' = [])).
Proof.
  revert d w lo; induction src as [|a src IH]; intros d w lo Hok Hs Hd Hfree; cbn [clone_loop].
  { do 3 eexists. split; [done|]. eauto 10 using conserved_refl. }
  apply Forall_cons in Hok as [Ha Hok]. destruct Hs as [Hlo Hs]. destruct (area_ok_u64 a Ha) as (H1 & H2 & H3 & H4).
  destruct (insert_spec d w (start a) (end_ a) (protection a) (flags a) (origin a) (usage a) (file a) (backing a)
    (offset a) (file_length a) Hd H1 H2 H3 H4) as (rc & d1 & w1 & -> & W1 & M1 & C1 & Hr).
  destruct Hr as [(-> & _ & _ & Hins)|(-> & -> & _)]; cbn.
  - destruct (IH d1 w1 (end_ a) Hok Hs W1) as (rc & d2 & w2 & -> & W2 & M2 & C2 & Hr).
    { intros x Hx. rewrite Hins. destruct (has _ x) eqn:Ex.
      - rewrite (mapping_below (end_ a)) in Hx; [done..|]. unfold has in Ex. cbn in Ex. bool_to_prop. lia.
      - apply Hfree. cbn. change (has a x) with (has (MkArea (start a) (end_ a) (offset a) (file_length a)
          (protection a) (flags a) (origin a) (usage a) (file a) (backing a)) x). by rewrite Ex. }
    exists rc, d2, w2. split; [done|]. split; [done|]. split; [auto|].
    split; [by eapply conserved_trans|]. destruct Hr as [[-> Hm]|[-> ->]]; [left|by right]. split; [done|].
    intros x. rewrite Hm, Hins. cbn [mapping]. change (has (MkArea _ _ _ _ _ _ _ _ _ _) x) with (has a x).
    change (area_at (MkArea _ _ _ _ _ _ _ _ _ _) x) with (area_at a x).
    destruct (has a x) eqn:Ex; [|done]. apply has_iff in Ex. by rewrite (mapping_below (end_ a)) by (done || lia).
  - destruct (destroy_spec d w1) as (w2 & -> & C2). do 3 eexists. split; [done|]. split; [by split|]. split; [done|].
    split; [by eapply conserved_trans|]. by right.
Qed.

Lemma clone_spec d src w : wf d -> wf src ->
  exists rc d' w', vma_set_clone d src w = (rc, d', w') /\ wf d' /\ merged d' /\
    conserved w (d ++ src) w' (d' ++ src) /\
    ((rc = 0 /\ forall x, mapping d' x = mapping src x) \/ (rc = -1 /\ d' = [])).
Proof.
  intros Hd [Hok Hs]. unfold vma_set_clone. destruct (destroy_spec d w) as (w1 & -> & C1).
  destruct (clone_loop_spec src [] w1 0 Hok Hs) as (rc & d' & w' & -> & W & M & C & Hr); [by split|done|].
  do 3 eexists. split; [done|]. split; [done|]. split; [by apply M|]. split.
  - apply (conserved_frame _ d _ d'). by eapply conserved_trans.
  - destruct Hr as [[-> Hm]|]; [left|by right]. split; [done|]. intros x. rewrite Hm. cbn. by destruct (mapping src x).
Qed.

(** ** ELF segments *)

Lemma file_no_backing a : area_ok a -> is_file a = true -> backing a = 0.
Proof.
  intros Ha Hf. destruct (decide (backing a = 0)) as [|Hn]; [done|]. by rewrite (ok_backing _ Ha Hn) in Hf.
Qed.

Lemma with_length_ok a n : area_ok a -> is_file a = true -> 0 <= n <= end_ a - start a -> area_ok (with_length a n).
Proof.
  intros [R A O L F N B] Hf Hn. split; try done. change (is_file (with_length a n)) with (is_file a). by rewrite Hf.
Qed.

Section elf.
  Context (s e prot f off len : Z).

Definition segment : vm_area := MkArea s e off len prot LINUX_MAP_PRIVATE VMA_FILE_BACKED VMA_ELF f 0.

(** What the page shared with the segment before becomes. *)
Definition elf_shared (m : attr) (x : Z) : attr :=
  let file_backed := bool_decide (m_origin m = VMA_FILE_BACKED) in
  let p := Z.lor (m_prot m) prot in
  if file_backed && (negb (m_file m =? f) || negb (m_pos m - (x - s) =? off)) then
    MkAttr p (m_flags m) VMA_ANONYMOUS (m_usage m) 0 (m_backing m) 0 false
  else MkAttr p (m_flags m) (m_origin m) (m_usage m) (m_file m) (m_backing m) (m_pos m)
         (m_infile m || (file_backed && (x - s <? len))).

Definition elf_byte (old : option attr) (x : Z) (m : attr) : Prop :=
  match old with
  | None => m = area_at segment x
  | Some m0 => x < s + PGSIZE /\ m_usage m0 = VMA_ELF /\ m = elf_shared m0 x
  end.

Definition elf_result (l : list vm_area) (w : world) (rc : Z) (l' : list vm_area) (w' : world) : Prop :=
  wf l' /\ conserved w l w' l' /\
  ((rc = 0 /\ area_ok segment /\ merged l' /\
    forall x, if in_range s e x then exists m, mapping l' x = Some m /\ elf_byte (mapping l x) x m
              else mapping l' x = mapping l x) \/
   (rc = -1 /\ forall x, ~ s <= x < s + PGSIZE -> mapping l' x = mapping l x)).

Lemma elf_overlap_ok o w : area_ok o -> start o = s -> end_ o = s + PGSIZE -> usage o = VMA_ELF ->
  is_u64 len ->
  exists o' w', elf_overlap o prot f off len w = (o', w') /\ area_ok o' /\ start o' = s /\ end_ o' = s + PGSIZE /\
    conserved w [o] w' [o'].
Proof.
  intros Ha Hs He Hu Hlen. pose proof Ha as [R A O L F N B]. unfold elf_overlap. cbn -[PGSIZE].
  change (is_file (with_protection o _)) with (is_file o). destruct (is_file o) eqn:Ef; cbn [andb]; cycle 1.
  { do 2 eexists. split; [done|]. split; [by apply with_protection_ok|]. split_and!; [done..|]. by apply conserved_same. }
  destruct (_ || _).
  - do 2 eexists. split; [done|]. assert (Hf : file o <> 0) by by apply F.
    pose proof (file_no_backing o Ha Ef) as Hb.
    split; [|split_and!; [done..|]].
    + split; cbn; rewrite ?Hb; try done; try lia. split_and!; [tauto..|done].
    + split; [count_refs| |count_refs..]. unfold on_exec. cbn [count_if usage file]. rewrite Hu.
      change (is_elf VMA_ELF) with true. count_refs.
  - destruct (Z.ltb_spec (file_length o) len).
    + do 2 eexists. split; [done|]. split; [|split_and!; [done..|by apply conserved_same]].
      apply with_length_ok; [by apply with_protection_ok|done|]. cbn -[PGSIZE].
      unfold is_u64 in *. destruct (Z.ltb_spec len PGSIZE); lia.
    + do 2 eexists. split; [done|]. split; [by apply with_protection_ok|]. split_and!; [done..|]. by apply conserved_same.
Qed.

Lemma elf_overlap_at o w x : area_ok o -> start o = s -> end_ o = s + PGSIZE -> s <= x < s + PGSIZE ->
  area_at (fst (elf_overlap o prot f off len w)) x = elf_shared (area_at o x) x.
Proof.
  intros Ha Hs He Hx. pose proof Ha as [R A O L F N B]. unfold elf_overlap, elf_shared, area_at. cbn -[PGSIZE].
  change (is_file (with_protection o _)) with (is_file o). change (bool_decide (origin o = VMA_FILE_BACKED)) with (is_file o).
  destruct (is_file o) eqn:Ef; cbn -[PGSIZE]; cycle 1.
  { change (is_file (with_protection o _)) with (is_file o). by rewrite Ef. }
  replace (offset o + (x - start o) - (x - s)) with (offset o) by lia.
  pose proof (file_no_backing o Ha Ef) as Hb.
  destruct (negb (file o =? f) || negb (offset o =? off)) eqn:En; cbn -[PGSIZE].
  { unfold is_file. cbn. by rewrite Hb. }
  rewrite Hs. destruct (Z.ltb_spec (file_length o) len); cbn -[PGSIZE].
  - change (is_file (with_length _ _)) with (is_file o). rewrite Ef. cbn -[PGSIZE]. rewrite ?Hs. f_equal.
    destruct (Z.ltb_spec len PGSIZE), (Z.ltb_spec (x - s) (file_length o)), (Z.ltb_spec (x - s) len); cbn;
      rewrite ?Z.ltb_lt, ?Z.ltb_ge; done || lia.
  - change (is_file (with_protection _ _)) with (is_file o). rewrite Ef. cbn. rewrite ?Hs. f_equal.
    destruct (Z.ltb_spec (x - s) (file_length o)), (Z.ltb_spec (x - s) len); done || lia.
Qed.

(** Replacing one area by another of the same bounds. *)
Lemma replace_wf pre o o' post : wf (pre ++ o :: post) -> area_ok o' -> start o' = start o -> end_ o' = end_ o ->
  wf (pre ++ o' :: post) /\
  forall x, mapping (pre ++ o' :: post) x = if has o x then Some (area_at o' x) else mapping (pre ++ o :: post) x.
Proof.
  intros Hwf Ho' Hs He. split.
  - rewrite wf_app, Forall_cons in *. cbn [sorted] in *. rewrite Hs, He. tauto.
  - intros x. destruct (has o x) eqn:Ex.
    + assert (mapping pre x = None) as Hp.
      { apply dec_stable. intros Hn.
        destruct (find_mapped pre x) as (i & a & _ & Hi & Ha); [rewrite wf_app in Hwf; tauto|done|].
        destruct Hwf as [Hok Hsd]. apply has_iff in Ex. pose proof (lookup_lt_Some _ _ _ Hi).
        pose proof (sorted_lookup 0 (pre ++ o :: post) i (length pre) a o Hok Hsd ltac:(done)
          ltac:(by rewrite lookup_app_l) ltac:(by apply list_lookup_middle)). lia. }
      rewrite mapping_app, Hp. cbn. unfold has in *. by rewrite Hs, He, Ex.
    + rewrite !mapping_app. cbn. unfold has in *. by rewrite Hs, He, Ex.
Qed.

Lemma finish_spec l w s1 off1 len1 : wf l -> is_u64 s1 -> is_u64 off1 -> is_u64 len1 -> s1 <= e ->
  let a := MkArea s1 e off1 len1 prot LINUX_MAP_PRIVATE VMA_FILE_BACKED VMA_ELF f 0 in
  exists rc l' w', elf_finish l w s1 e prot f off1 len1 = Ret (rc, l', w') /\ wf l' /\ conserved w l w' l' /\
    ((rc = 0 /\ merged l' /\ (s1 < e -> area_ok a) /\ (forall x, s1 <= x < e -> mapping l x = None) /\
      forall x, mapping l' x = if in_range s1 e x then Some (area_at a x) else mapping l x) \/
     (rc = -1 /\ l' = l)).
Proof.
  intros Hwf Hs1 Ho1 Hl1 Hse a. unfold elf_finish.
  assert (Hmg : forall l1 w1, wf l1 -> conserved w l w1 l1 -> (s1 < e -> area_ok a) ->
    (forall x, s1 <= x < e -> mapping l x = None) ->
    (forall x, mapping l1 x = if in_range s1 e x then Some (area_at a x) else mapping l x) ->
    exists rc l' w', (let (set, w) := vma_merge_all l1 w1 in Ret (0, set, w)) = Ret (rc, l', w') /\ wf l' /\
      conserved w l w' l' /\ ((rc = 0 /\ merged l' /\ (s1 < e -> area_ok a) /\
      (forall x, s1 <= x < e -> mapping l x = None) /\
      forall x, mapping l' x = if in_range s1 e x then Some (area_at a x) else mapping l x) \/ (rc = -1 /\ l' = l))).
  { intros l1 w1 W1 C1 Ha Hfree Hm1. destruct (merge_all_spec l1 w1 W1) as (l2 & w2 & -> & W2 & G2 & M2 & C2).
    do 3 eexists. split; [done|]. split; [done|]. split; [by eapply conserved_trans|]. left.
    split_and!; try done. intros x. by rewrite M2. }
  destruct (Z.ltb_spec s1 e).
  - edestruct (insert_spec l w s1 e prot LINUX_MAP_PRIVATE VMA_FILE_BACKED VMA_ELF f 0 off1 len1)
      as (rc & l1 & w1 & -> & W1 & _ & C1 & Hr); [done..|unfold is_u64 in *; lia|].
    destruct Hr as [(-> & Ha & Hfree & Hins)|(-> & -> & _)]; cbn.
    + by apply Hmg.
    + do 3 eexists. split; [done|]. eauto.
  - cbn. apply Hmg; [done|apply conserved_refl|lia|lia|]. intros x. by rewrite in_range_out by lia.
Qed.

(** The rest of the segment after its shared first page. *)
Lemma finish_rest l l1 w w1 :
  wf l1 -> conserved w l w1 l1 -> area_ok segment -> s + PGSIZE <= e ->
  (forall x, s <= x < s + PGSIZE -> exists m, mapping l x = Some m /\ m_usage m = VMA_ELF /\
     mapping l1 x = Some (elf_shared m x)) ->
  (forall x, ~ s <= x < s + PGSIZE -> mapping l1 x = mapping l x) ->
  exists rc l' w', elf_finish l1 w1 (s + PGSIZE) e prot f (off + PGSIZE) (if PGSIZE <? len then len - PGSIZE else 0) = Ret (rc, l', w') /\
    elf_result l w rc l' w'.
Proof.
  intros W1 C1 Hseg Hpe Hpage Hrest. pose proof Hseg as [R A O L _ _ _]. cbn -[PGSIZE UINT64_MAX] in *.
  pose proof maxva. assert (Hp : PGSIZE = 4096) by done.
  destruct (finish_spec l1 w1 (s + PGSIZE) (off + PGSIZE) (if PGSIZE <? len then len - PGSIZE else 0))
    as (rc & l' & w' & -> & W & C & Hr); [done|unfold is_u64, UINT64_MAX in *..|done|].
  { lia. } { destruct O as [? O]. specialize (O (or_introl eq_refl)). lia. } { destruct (Z.ltb_spec PGSIZE len); lia. }
  do 3 eexists. split; [done|]. split; [done|]. split; [by eapply conserved_trans|].
  destruct Hr as [(-> & G & _ & Hfree & Hm)|(-> & ->)]; [left|right; by auto].
  split_and!; [done..|]. intros x. rewrite Hm.
  destruct (decide (s <= x < s + PGSIZE)) as [Hx|Hx].
  - rewrite (in_range_out (s + PGSIZE)), in_range_in by lia. destruct (Hpage x Hx) as (m & -> & Hu & ->).
    eexists. split; [done|]. split; [lia|]. done.
  - destruct (decide (s <= x < e)) as [Hxe|Hxe].
    + rewrite !in_range_in by lia. rewrite <-Hrest, Hfree by lia. eexists. split; [done|].
      unfold elf_byte, segment, area_at. change (is_file (MkArea _ _ _ _ _ _ VMA_FILE_BACKED _ _ _)) with true.
      cbn -[PGSIZE]. f_equal; [lia|].
      destruct (Z.ltb_spec PGSIZE len), (Z.ltb_spec (x - s) len); rewrite ?Z.ltb_lt, ?Z.ltb_ge; lia.
    + rewrite !in_range_out by lia. by apply Hrest.
Qed.

Lemma elf_guard_spec : is_u64 s -> is_u64 off -> is_u64 len ->
  negb (truth f) || (e <=? s) || truth (s mod PGSIZE) || truth (e mod PGSIZE) || (MAXVA <? e) ||
  truth (off mod PGSIZE) || (UINT64_MAX - off <? e - s) || (e - s <? len) = false -> area_ok segment.
Proof.
  unfold is_u64. intros Hs Ho Hl. rewrite !orb_false_iff, negb_false_iff, truth_true, !truth_0, Z.leb_gt, !Z.ltb_ge.
  intros (((((((? & ?) & ?) & ?) & ?) & ?) & ?) & ?). unfold UINT64_MAX in *.
  split; cbn -[PGSIZE]; try done; try lia. split; [unfold UINT64_MAX; lia|]. unfold UINT64_MAX. lia.
Qed.

Lemma page_cut ov : area_ok ov -> end_ ov = s + PGSIZE -> s mod PGSIZE = 0 -> start ov < s -> cut_ok ov s.
Proof. intros Ha He Hs Hlt. split; [unfold PGSIZE in *; lia|done]. Qed.

(** The first page replaced by what [elf_overlap] makes of it. *)
Lemma shared_page pre o post o' w w' l :
  wf (pre ++ o :: post) -> (forall x, mapping (pre ++ o :: post) x = mapping l x) ->
  start o = s -> end_ o = s + PGSIZE -> usage o = VMA_ELF -> elf_overlap o prot f off len w = (o', w') ->
  area_ok o' -> start o' = s -> end_ o' = s + PGSIZE ->
  wf (pre ++ o' :: post) /\
  (forall x, s <= x < s + PGSIZE -> exists m, mapping l x = Some m /\ m_usage m = VMA_ELF /\
     mapping (pre ++ o' :: post) x = Some (elf_shared m x)) /\
  (forall x, ~ s <= x < s + PGSIZE -> mapping (pre ++ o' :: post) x = mapping l x).
Proof.
  intros Hwf Hl Hs He Hu Ho' Hok' Hs' He'. assert (Ho : area_ok o) by (destruct Hwf as [Hok _]; by eapply Forall_mid).
  destruct (replace_wf pre o o' post Hwf Hok') as [Hwf' Hm]; [congruence..|]. split; [done|]. split.
  - intros x Hx. assert (Hh : has o x = true) by (apply has_iff; lia). exists (area_at o x). split_and!; [|done|].
    + destruct (replace_wf pre o o post Hwf Ho eq_refl eq_refl) as [_ Hself]. by rewrite <-Hl, Hself, Hh.
    + rewrite Hm, Hh. f_equal. pose proof (elf_overlap_at o w x Ho Hs He Hx) as Hat. by rewrite Ho' in Hat.
  - intros x Hx. rewrite Hm, Hl. destruct (has o x) eqn:E; [|done]. apply has_iff in E. lia.
Qed.

Lemma elf_shared_case pre o post w w1 l : wf (pre ++ o :: post) ->
  (forall x, mapping (pre ++ o :: post) x = mapping l x) -> start o = s -> end_ o = s + PGSIZE -> usage o = VMA_ELF ->
  conserved w l w1 (pre ++ o :: post) -> area_ok segment -> s + PGSIZE <= e -> is_u64 len ->
  exists o' w2, elf_overlap o prot f off len w1 = (o', w2) /\
    exists rc l' w', elf_finish (pre ++ o' :: post) w2 (s + PGSIZE) e prot f (off + PGSIZE)
      (if PGSIZE <? len then len - PGSIZE else 0) = Ret (rc, l', w') /\ elf_result l w rc l' w'.
Proof.
  intros Hwf Hl Hs He Hu Hc Hseg Hpe Hlen. assert (Ho : area_ok o) by (destruct Hwf as [Hok _]; by eapply Forall_mid).
  destruct (elf_overlap_ok o w1 Ho Hs He Hu Hlen) as (o' & w2 & Eov & Hok' & Hs' & He' & C2). exists o', w2. split; [done|].
  destruct (shared_page pre o post o' w1 w2 l) as (W & Hpage & Hrest); try done.
  apply finish_rest; try done. eapply conserved_trans; [exact Hc|]. apply conserved_prefix.
  apply (conserved_frame _ [o] _ [o'] post), C2.
Qed.
End elf.

Lemma insert_elf_spec l w s e prot f off len : wf l -> is_u64 s -> is_u64 off -> is_u64 len ->
  exists rc l' w', vma_insert_elf_file l w s e prot f off len = Ret (rc, l', w') /\
    elf_result s e prot f off len l w rc l' w'.
Proof.
  intros Hwf Hs Ho Hl. unfold vma_insert_elf_file.
  assert (Hfail : forall w', conserved w l w' l -> exists rc l' w'', Ret (-1, l, w') = Ret (rc, l', w'') /\
    elf_result s e prot f off len l w rc l' w'').
  { intros w' Hc. do 3 eexists. split; [done|]. split; [done|]. split; [done|]. by right. }
  destruct (_ || _) eqn:Eg; [apply Hfail, conserved_refl|].
  pose proof (elf_guard_spec s e prot f off len Hs Ho Hl Eg) as Hseg. clear Eg. pose proof Hseg as [R A O L _ _ _].
  cbn -[PGSIZE UINT64_MAX] in R, A, O, L. pose proof maxva. assert (Hp : PGSIZE = 4096) by done.
  destruct O as [? O]. specialize (O (or_introl eq_refl)).
  pose proof (find_spec l s Hwf) as Hf. destruct (vma_find l s) as [i|]; cycle 1.
  { destruct (finish_spec e prot f l w s off len) as (rc & l' & w' & -> & W & C & Hr); [done..|lia|].
    do 3 eexists. split; [done|]. split; [done|]. split; [done|].
    destruct Hr as [(-> & G & _ & Hfree & Hm)|(-> & ->)]; [left|by right]. split_and!; [done..|].
    intros x. rewrite Hm. destruct (decide (s <= x < e)); [rewrite in_range_in by lia|by rewrite in_range_out by lia].
    rewrite Hfree by lia. by eexists. }
  destruct Hf as (ov & Hi & Hov%has_iff). rewrite (rd_Ret _ _ _ Hi). cbn [mbind outcome_bind].
  rewrite wrap64_id by (unfold is_u64; lia). destruct (_ || _) eqn:Eo; [apply Hfail, conserved_refl|].
  destruct (truth _ && truth _); [apply Hfail, conserved_refl|].
  rewrite !orb_false_iff, !negb_false_iff, Z.eqb_eq, !Z.ltb_ge in Eo. destruct Eo as ((((_ & Hpe) & Hend) & Hu) & _).
  apply bool_decide_eq_true in Hu. rewrite (wrap64_id (off + PGSIZE)) by (unfold is_u64, UINT64_MAX in *; lia).
  apply list_elem_of_split_length in Hi as (pre & post & -> & ->).
  assert (Hovok : area_ok ov) by (destruct Hwf as [Hok _]; by eapply Forall_mid).
  destruct (Z.ltb_spec (start ov) s).
  - assert (Hcut : cut_ok ov s) by (split; [lia|tauto]).
    destruct (allocate_split_spec w ov s Hovok Hcut) as [(w1 & -> & C1)|(w1 & -> & C1)].
    { apply Hfail. by apply (conserved_frame _ [] _ []). }
    rewrite wr_Ret by (rewrite length_app; cbn; lia). cbn [mbind outcome_bind]. rewrite insert_middle.
    edestruct (elf_shared_case s e prot f off len (pre ++ [trim_end ov s]) (trim_start ov s) post w w1 (pre ++ ov :: post))
      as (o' & w2 & -> & Hfin); try done; [rewrite <-app_assoc; cbn [app]..|].
    + by apply cut_list_wf.
    + intros x. rewrite !mapping_app. by rewrite cut_list_mapping.
    + by apply split_conserved.
    + rewrite insert_after_middle. by rewrite <-app_assoc in Hfin.
  - destruct (elf_shared_case s e prot f off len pre ov post w w (pre ++ ov :: post)) as (o' & w2 & -> & Hfin);
      try done; [lia|].
    rewrite wr_Ret by (rewrite length_app; cbn; lia). cbn [mbind outcome_bind]. by rewrite insert_middle.
Qed.

(** * What kernel/vma.c guarantees

    The operations on a set of areas, stated on the map from addresses to
    attributes ([mapping]), the invariants of kernel/include/vma.h ([wf],
    [merged]) and the references the areas own ([conserved]). *)

(** A text segment, a heap and a stack. *)
Definition example_file : Z := 0x1000.
Definition example_areas : list vm_area :=
  [MkArea 0x10000 0x14000 0 0x3800 5 2 VMA_FILE_BACKED VMA_ELF example_file 0;
   MkArea 0x20000 0x24000 0 0 3 2 VMA_ANONYMOUS VMA_HEAP 0 0;
   MkArea 0x30000 0x32000 0 0 3 2 VMA_ANONYMOUS VMA_STACK 0 0].
Definition example_world : world :=
  MkWorld {[example_file := 2]} {[example_file := 1]} ∅ 3 (fun _ => true) 0.

Lemma example_wf : wf example_areas.
Proof.
  split; [|cbn; lia].
  repeat constructor; cbn; try done; try lia; try (by vm_compute).
Qed.

(** Inserting an area either succeeds, when the request is well formed and the range was free, and then maps
    exactly that range as asked, or fails and leaves the set alone, for a malformed request, an overlap or a refused
    allocation.  Order, alignment, disjointness and merging are kept, and references stay in balance. *)
Theorem vma_insert_correct l w s e prot fl org us f b off len :
  wf l -> is_u64 s -> is_u64 off -> is_u64 len -> 0 <= e ->
  let a := MkArea s e off len prot fl org us f b in
  exists rc l' w', vma_insert_file_length l w s e prot fl org us f b off len = (rc, l', w') /\
    wf l' /\ (merged l -> merged l') /\ conserved w l w' l' /\
    ((rc = 0 /\ area_ok a /\ (forall x, s <= x < e -> mapping l x = None) /\ inserted l l' a) \/
     (rc = -1 /\ l' = l /\
      (~ area_ok a \/ (exists x, s <= x < e /\ mapping l x <> None) \/
       oracle w (calls w) = false \/ oracle w (S (calls w)) = false))).
Proof. apply insert_spec. Qed.

Lemma vma_insert_correct_witness :
  exists l' w', vma_insert_file_length example_areas example_world 0x24000 0x26000 3 2 VMA_ANONYMOUS VMA_HEAP 0 0 0 0
      = (0, l', w') /\ length l' = 3%nat /\ merged l' /\ mapping l' 0x25000 = mapping l' 0x20000.
Proof.
  destruct (vma_insert_correct example_areas example_world 0x24000 0x26000 3 2 VMA_ANONYMOUS VMA_HEAP 0 0 0 0
    example_wf) as (rc & l' & w' & E & _); [by vm_compute..|]. vm_compute in E. injection E as <- <- <-.
  eexists _, _. split; [vm_compute; reflexivity|]. by vm_compute.
Defined.

(** Unmapping a page range removes exactly that range from the map, cutting the areas at its ends; a failure,
    for a malformed range or when the split of one area could not be allocated, leaves the set alone.  The invariants,
    merging included, and the references are kept. *)
Theorem vma_unmap_correct l w s e : wf l ->
  exists rc l' w', vma_unmap l w s e = Ret (rc, l', w') /\
    wf l' /\ (merged l -> merged l') /\ conserved w l w' l' /\
    ((rc = 0 /\ page_range s e /\ cleared l l' s e) \/
     (rc = -1 /\ l' = l /\ (~ page_range s e \/ exists a, a ∈ l /\ start a < s /\ e < end_ a))).
Proof. apply unmap_spec. Qed.

Lemma vma_unmap_correct_witness :
  exists l' w', vma_unmap example_areas example_world 0x11000 0x12000 = Ret (0, l', w') /\ length l' = 4%nat /\
    mapping l' 0x11800 = None /\ mapping l' 0x12000 = mapping example_areas 0x12000 /\
    refs (file_refs w') example_file = 3.
Proof.
  destruct (vma_unmap_correct example_areas example_world 0x11000 0x12000 example_wf) as (rc & l' & w' & E & _).
  vm_compute in E. injection E as <- <- <-. eexists _, _. split; [vm_compute; reflexivity|]. by vm_compute.
Defined.

(** C11: changing the protection of a fully mapped page range gives every address of the range the new protection,
    changes no other attribute and no other address, and merges what became equal; a failure leaves the map alone
    and gives back whatever it had allocated. *)
Theorem vma_protect_correct l w s e p : wf l ->
  exists rc l' w', vma_protect l w s e p = Ret (rc, l', w') /\
    wf l' /\ conserved w l w' l' /\
    ((rc = 0 /\ page_range s e /\ (forall x, s <= x < e -> mapping l x <> None) /\ merged l' /\
      protected l l' s e p) \/
     (rc = -1 /\ l' = l /\
      (~ page_range s e \/ (exists x, s <= x < e /\ mapping l x = None) \/ ~ uncrossed l s \/ ~ uncrossed l e))).
Proof. apply protect_spec. Qed.

Lemma vma_protect_correct_witness :
  exists l' w', vma_protect example_areas example_world 0x21000 0x22000 1 = Ret (0, l', w') /\ length l' = 5%nat /\
    (m_prot <$> mapping l' 0x21fff) = Some 1 /\ (m_prot <$> mapping l' 0x22000) = Some 3.
Proof.
  destruct (vma_protect_correct example_areas example_world 0x21000 0x22000 1 example_wf) as (rc & l' & w' & E & _).
  vm_compute in E. injection E as <- <- <-. eexists _, _. split; [vm_compute; reflexivity|]. by vm_compute.
Defined.

(** The gap search returns an address in bounds, congruent to the requested offset and with a free range behind
    it, the highest such address when the hint is below the bounds; it fails only for a malformed request or when
    there is no such address. *)
Theorem vma_find_gap_correct l low high hint len al off : wf l -> is_u64 low -> high <= 2 ^ 63 -> is_u64 hint ->
  is_u64 len -> is_u64 al ->
  match vma_find_gap_aligned l low high hint len al off with
  | Some c => gap_request low high hint len al off /\ exists k, al = 2 ^ k /\ fits k off len l low high c /\
      (forall y, ~ low <= hint -> fits k off len l low high y -> y <= c)
  | None => gap_request low high hint len al off -> forall k y, al = 2 ^ k -> ~ fits k off len l low high y
  end.
Proof. apply find_gap_spec. Qed.

Lemma vma_find_gap_correct_witness :
  vma_find_gap_aligned example_areas 0x10000 0x34000 0 0x4000 0x8000 0 = Some 0x28000 /\
  exists k, 0x8000 = 2 ^ k /\ fits k 0 0x4000 example_areas 0x10000 0x34000 0x28000.
Proof.
  pose proof (vma_find_gap_correct example_areas 0x10000 0x34000 0 0x4000 0x8000 0 example_wf) as H.
  replace (vma_find_gap_aligned _ _ _ _ _ _ _) with (Some 0x28000) in H by (vm_compute; reflexivity).
  split; [vm_compute; reflexivity|]. destruct H as (_ & k & Hk & Hf & _); [done..|by exists k].
Defined.

(** Lookup finds the area of a mapped address and only that; a range is reported free exactly when none of its
    addresses is mapped and mapped exactly when all are. *)
Theorem vma_lookup_correct l s e : wf l -> s < e ->
  match vma_find l s with
  | Some i => exists a, l !! i = Some a /\ mapping l s = Some (area_at a s)
  | None => mapping l s = None
  end /\
  (vma_range_free l s e = true <-> forall x, s <= x < e -> mapping l x = None) /\
  (vma_range_mapped l s e = true <-> forall x, s <= x < e -> mapping l x <> None).
Proof.
  intros Hwf Hse. pose proof (find_spec l s Hwf) as Hf. pose proof Hwf as [Hok Hs].
  unfold vma_range_free, vma_range_mapped. rewrite (proj2 (Z.leb_gt _ _) Hse).
  split; [|split; [by apply (range_free_spec l s e 0)|by apply (range_mapped_spec l s e 0)]].
  destruct (vma_find l s) as [i|]; [|done]. destruct Hf as (a & Hi & Ha). exists a. split; [done|].
  apply list_elem_of_split_length in Hi as (pre & post & -> & ->).
  destruct (replace_wf pre a a post Hwf) as [_ Hm]; [by eapply Forall_mid|done..|]. by rewrite Hm, Ha.
Qed.

Lemma vma_lookup_correct_witness :
  vma_find example_areas 0x21000 = Some 1%nat /\ vma_range_free example_areas 0x14000 0x20000 = true /\
  (forall x, 0x14000 <= x < 0x20000 -> mapping example_areas x = None).
Proof.
  split; [vm_compute; reflexivity|]. split; [vm_compute; reflexivity|].
  apply (vma_lookup_correct example_areas 0x14000 0x20000 example_wf); [lia|vm_compute; reflexivity].
Defined.

(** Cloning a set gives the destination the map of the source, after releasing what the destination had; when an
    area cannot be copied the destination ends empty.  Either way every reference is accounted for. *)
Theorem vma_set_clone_correct d src w : wf d -> wf src ->
  exists rc d' w', vma_set_clone d src w = (rc, d', w') /\ wf d' /\ merged d' /\
    conserved w (d ++ src) w' (d' ++ src) /\
    ((rc = 0 /\ forall x, mapping d' x = mapping src x) \/ (rc = -1 /\ d' = [])).
Proof. apply clone_spec. Qed.

Lemma vma_set_clone_correct_witness :
  exists d' w', vma_set_clone [] example_areas example_world = (0, d', w') /\ d' = example_areas /\
    refs (exec_refs w') example_file = 2.
Proof.
  destruct (vma_set_clone_correct [] example_areas example_world ltac:(by split) example_wf) as (rc & d' & w' & E & _).
  vm_compute in E. injection E as <- <- <-. eexists _, _. split; [vm_compute; reflexivity|]. by vm_compute.
Defined.

(** Inserting an ELF segment maps its whole range: fresh addresses get the segment's bytes, and a first page
    shared with the segment before it gets the union of the protections, becomes anonymous when the file bytes differ
    and covers at least the new file bytes when they agree.  A failure changes at most the shared page. *)
Theorem vma_insert_elf_correct l w s e prot f off len : wf l -> is_u64 s -> is_u64 off -> is_u64 len ->
  exists rc l' w', vma_insert_elf_file l w s e prot f off len = Ret (rc, l', w') /\ wf l' /\ conserved w l w' l' /\
    ((rc = 0 /\ area_ok (segment s e prot f off len) /\ merged l' /\
      forall x, if in_range s e x
                then exists m, mapping l' x = Some m /\ elf_byte s e prot f off len (mapping l x) x m
                else mapping l' x = mapping l x) \/
     (rc = -1 /\ forall x, ~ s <= x < s + PGSIZE -> mapping l' x = mapping l x)).
Proof. apply insert_elf_spec. Qed.

Lemma vma_insert_elf_correct_witness :
  exists l' w', vma_insert_elf_file example_areas example_world 0x13000 0x16000 4 example_file 0x4000 0x2000
      = Ret (0, l', w') /\ length l' = 5%nat /\ (m_file <$> mapping l' 0x13000) = Some 0 /\
    (m_file <$> mapping l' 0x14000) = Some example_file.
Proof.
  destruct (vma_insert_elf_correct example_areas example_world 0x13000 0x16000 4 example_file 0x4000 0x2000 example_wf)
    as (rc & l' & w' & E & _); [done..|].
  vm_compute in E. injection E as <- <- <-. eexists _, _. split; [vm_compute; reflexivity|]. by vm_compute.
Defined.
