(* ===== verification/RbTree.v ===== *)
(** * Red-black tree: the code

    kernel/rbtree.c and kernel/include/rbtree.h on a store of nodes.  A pointer
    is a [Z] with 0 for null; reading or writing through a pointer that is not a
    node of the store is [Fault].  Loops take as many rounds as the store has
    nodes, plus two; [RbTreeInsert], [RbTreeErase] and
    [RbTreeRemove] show that no loop runs out of them. *)
From S2P Require Import Prelude.

Record rb_node := MkRb { rb_parent : Z; rb_left : Z; rb_right : Z; rb_red : Z }.

(** The nodes and the one [struct rb_root]. *)
Record rb_mem := MkMem { rb_nodes : gmap Z rb_node; rb_root : Z }.

Definition node_at (s : rb_mem) (p : Z) : outcome rb_node := deref (rb_nodes s !! p).
Definition get_parent (s : rb_mem) (p : Z) : outcome Z := n ← node_at s p; Ret (rb_parent n).
Definition get_left (s : rb_mem) (p : Z) : outcome Z := n ← node_at s p; Ret (rb_left n).
Definition get_right (s : rb_mem) (p : Z) : outcome Z := n ← node_at s p; Ret (rb_right n).
Definition get_red (s : rb_mem) (p : Z) : outcome Z := n ← node_at s p; Ret (rb_red n).

Definition put (s : rb_mem) (p : Z) (f : rb_node -> rb_node) : outcome rb_mem :=
  n ← node_at s p; Ret (MkMem (<[p := f n]> (rb_nodes s)) (rb_root s)).
Definition set_parent (s : rb_mem) (p v : Z) : outcome rb_mem :=
  put s p (fun n => MkRb v (rb_left n) (rb_right n) (rb_red n)).
Definition set_left (s : rb_mem) (p v : Z) : outcome rb_mem :=
  put s p (fun n => MkRb (rb_parent n) v (rb_right n) (rb_red n)).
Definition set_right (s : rb_mem) (p v : Z) : outcome rb_mem :=
  put s p (fun n => MkRb (rb_parent n) (rb_left n) v (rb_red n)).
Definition set_red (s : rb_mem) (p v : Z) : outcome rb_mem :=
  put s p (fun n => MkRb (rb_parent n) (rb_left n) (rb_right n) v).
Definition set_root (s : rb_mem) (v : Z) : rb_mem := MkMem (rb_nodes s) v.

Definition rb_root_init (s : rb_mem) : rb_mem := set_root s 0.
Definition rb_node_init (s : rb_mem) (node : Z) : outcome rb_mem := put s node (fun _ => MkRb 0 0 0 1).

(** [struct rb_node **link]: the root or a child field. *)
Inductive rb_link := AtRoot | AtLeft (p : Z) | AtRight (p : Z).
Definition store_link (s : rb_mem) (link : rb_link) (v : Z) : outcome rb_mem :=
  match link with AtRoot => Ret (set_root s v) | AtLeft p => set_left s p v | AtRight p => set_right s p v end.

Definition rb_link_node (s : rb_mem) (node parent : Z) (link : rb_link) : outcome rb_mem :=
  s ← put s node (fun _ => MkRb parent 0 0 1);
  store_link s link node.

Definition rb_is_red (s : rb_mem) (node : Z) : outcome bool :=
  if truth node then red ← get_red s node; Ret (truth red) else Ret false.
Definition rb_is_black (s : rb_mem) (node : Z) : outcome bool :=
  if negb (truth node) then Ret true else red ← get_red s node; Ret (negb (truth red)).

Definition rb_rotate_left (s : rb_mem) (node : Z) : outcome rb_mem :=
  right ← get_right s node;
  rl ← get_left s right;
  s ← set_right s node rl;
  rl ← get_left s right;
  s ← if truth rl then set_parent s rl node else Ret s;
  parent ← get_parent s node;
  s ← set_parent s right parent;
  parent ← get_parent s node;
  s ← if negb (truth parent) then Ret (set_root s right) else
      (pl ← get_left s parent;
       if node =? pl then set_left s parent right else set_right s parent right);
  s ← set_left s right node;
  set_parent s node right.

Definition rb_rotate_right (s : rb_mem) (node : Z) : outcome rb_mem :=
  left ← get_left s node;
  lr ← get_right s left;
  s ← set_left s node lr;
  lr ← get_right s left;
  s ← if truth lr then set_parent s lr node else Ret s;
  parent ← get_parent s node;
  s ← set_parent s left parent;
  parent ← get_parent s node;
  s ← if negb (truth parent) then Ret (set_root s left) else
      (pr ← get_right s parent;
       if node =? pr then set_right s parent left else set_left s parent left);
  s ← set_right s left node;
  set_parent s node left.

Fixpoint insert_color_loop (fuel : nat) (s : rb_mem) (node : Z) : outcome rb_mem :=
  match fuel with
  | O => Fault
  | S fuel =>
      parent ← get_parent s node;
      red ← if truth parent then get_red s parent else Ret 0;
      if negb (truth red) then Ret s else
      grandparent ← get_parent s parent;
      gl ← get_left s grandparent;
      if parent =? gl then
        uncle ← get_right s grandparent;
        ured ← rb_is_red s uncle;
        if ured : bool then
          s ← set_red s parent 0; s ← set_red s uncle 0; s ← set_red s grandparent 1;
          insert_color_loop fuel s grandparent
        else
          pr ← get_right s parent;
          '(s, node, parent, grandparent) ←
            if node =? pr then
              s ← rb_rotate_left s parent;
              p ← get_parent s parent; g ← get_parent s p;
              Ret (s, parent, p, g)
            else Ret (s, node, parent, grandparent);
          s ← set_red s parent 0; s ← set_red s grandparent 1;
          s ← rb_rotate_right s grandparent;
          insert_color_loop fuel s node
      else
        uncle ← get_left s grandparent;
        ured ← rb_is_red s uncle;
        if ured : bool then
          s ← set_red s parent 0; s ← set_red s uncle 0; s ← set_red s grandparent 1;
          insert_color_loop fuel s grandparent
        else
          pl ← get_left s parent;
          '(s, node, parent, grandparent) ←
            if node =? pl then
              s ← rb_rotate_right s parent;
              p ← get_parent s parent; g ← get_parent s p;
              Ret (s, parent, p, g)
            else Ret (s, node, parent, grandparent);
          s ← set_red s parent 0; s ← set_red s grandparent 1;
          s ← rb_rotate_left s grandparent;
          insert_color_loop fuel s node
  end.

Definition rounds (s : rb_mem) : nat := S (S (size (rb_nodes s))).

Definition rb_insert_color (s : rb_mem) (node : Z) : outcome rb_mem :=
  s ← insert_color_loop (rounds s) s node;
  set_red s (rb_root s) 0.

Definition rb_replace_node (s : rb_mem) (old new : Z) : outcome rb_mem :=
  parent ← get_parent s old;
  s ← if negb (truth parent) then Ret (set_root s new) else
      (pl ← get_left s parent;
       if old =? pl then set_left s parent new else set_right s parent new);
  if truth new then
    parent ← get_parent s old;
    set_parent s new parent
  else Ret s.

Fixpoint subtree_first_loop (fuel : nat) (s : rb_mem) (node : Z) : outcome Z :=
  match fuel with
  | O => Fault
  | S fuel => left ← get_left s node; if truth left then subtree_first_loop fuel s left else Ret node
  end.
Definition rb_subtree_first (s : rb_mem) (node : Z) : outcome Z := subtree_first_loop (rounds s) s node.

(** One round of the loop gives the next [node] and [parent].  [settle_left] is the part of a round that starts at
    the null test of [sibling], for a node that is the left child. *)
Definition settle_left (s : rb_mem) (parent sibling : Z) : outcome (rb_mem * Z * Z) :=
  if negb (truth sibling) then p ← get_parent s parent; Ret (s, parent, p) else
  sl ← get_left s sibling; lblack ← rb_is_black s sl;
  sr ← get_right s sibling; rblack ← rb_is_black s sr;
  if (lblack : bool) && (rblack : bool) then
    s ← set_red s sibling 1;
    p ← get_parent s parent; Ret (s, parent, p)
  else
    '(s, sibling) ←
      if rblack : bool then
        s ← if truth sl then set_red s sl 0 else Ret s;
        s ← set_red s sibling 1; s ← rb_rotate_right s sibling;
        sibling ← get_right s parent; Ret (s, sibling)
      else Ret (s, sibling);
    pred ← get_red s parent;
    s ← set_red s sibling pred;
    s ← set_red s parent 0;
    sr ← get_right s sibling;
    s ← if truth sr then set_red s sr 0 else Ret s;
    s ← rb_rotate_left s parent;
    Ret (s, rb_root s, 0).

Definition fixup_left (s : rb_mem) (parent : Z) : outcome (rb_mem * Z * Z) :=
  sibling ← get_right s parent;
  sred ← rb_is_red s sibling;
  if sred : bool then
    s ← set_red s sibling 0; s ← set_red s parent 1; s ← rb_rotate_left s parent;
    sibling ← get_right s parent;
    settle_left s parent sibling
  else settle_left s parent sibling.

Definition settle_right (s : rb_mem) (parent sibling : Z) : outcome (rb_mem * Z * Z) :=
  if negb (truth sibling) then p ← get_parent s parent; Ret (s, parent, p) else
  sl ← get_left s sibling; lblack ← rb_is_black s sl;
  sr ← get_right s sibling; rblack ← rb_is_black s sr;
  if (lblack : bool) && (rblack : bool) then
    s ← set_red s sibling 1;
    p ← get_parent s parent; Ret (s, parent, p)
  else
    '(s, sibling) ←
      if lblack : bool then
        s ← if truth sr then set_red s sr 0 else Ret s;
        s ← set_red s sibling 1; s ← rb_rotate_left s sibling;
        sibling ← get_left s parent; Ret (s, sibling)
      else Ret (s, sibling);
    pred ← get_red s parent;
    s ← set_red s sibling pred;
    s ← set_red s parent 0;
    sl ← get_left s sibling;
    s ← if truth sl then set_red s sl 0 else Ret s;
    s ← rb_rotate_right s parent;
    Ret (s, rb_root s, 0).

Definition fixup_right (s : rb_mem) (parent : Z) : outcome (rb_mem * Z * Z) :=
  sibling ← get_left s parent;
  sred ← rb_is_red s sibling;
  if sred : bool then
    s ← set_red s sibling 0; s ← set_red s parent 1; s ← rb_rotate_right s parent;
    sibling ← get_left s parent;
    settle_right s parent sibling
  else settle_right s parent sibling.

Fixpoint erase_fixup_loop (fuel : nat) (s : rb_mem) (node parent : Z) : outcome (rb_mem * Z) :=
  match fuel with
  | O => Fault
  | S fuel =>
      if node =? rb_root s then Ret (s, node) else
      black ← rb_is_black s node;
      if negb (black : bool) || negb (truth parent) then Ret (s, node) else
      pl ← get_left s parent;
      '(s, node, parent) ← if node =? pl then fixup_left s parent else fixup_right s parent;
      erase_fixup_loop fuel s node parent
  end.

Definition rb_erase_fixup (s : rb_mem) (node parent : Z) : outcome rb_mem :=
  '(s, node) ← erase_fixup_loop (rounds s) s node parent;
  if truth node then set_red s node 0 else Ret s.

(** The two-child case of [rb_erase]: the successor takes the node's place. *)
Definition erase_two (s : rb_mem) (node : Z) : outcome (rb_mem * Z * Z * Z) :=
  nr ← get_right s node;
  replacement ← rb_subtree_first s nr;
  replacement_red ← get_red s replacement;
  child ← get_right s replacement;
  rp ← get_parent s replacement;
  '(s, child_parent) ←
    if rp =? node then
      s ← if truth child then set_parent s child replacement else Ret s;
      Ret (s, replacement)
    else
      (rr ← get_right s replacement;
       s ← rb_replace_node s replacement rr;
       nr ← get_right s node;
       s ← set_right s replacement nr;
       rr ← get_right s replacement;
       s ← set_parent s rr replacement;
       Ret (s, rp));
  s ← rb_replace_node s node replacement;
  nl ← get_left s node;
  s ← set_left s replacement nl;
  rl ← get_left s replacement;
  s ← set_parent s rl replacement;
  red ← get_red s node;
  s ← set_red s replacement red;
  Ret (s, child, child_parent, replacement_red).

Definition rb_erase (s : rb_mem) (node : Z) : outcome rb_mem :=
  red ← get_red s node;
  left ← get_left s node;
  right ← get_right s node;
  '(s, child, child_parent, replacement_red) ←
    if negb (truth left) then
      parent ← get_parent s node;
      s ← rb_replace_node s node right; Ret (s, right, parent, red)
    else if negb (truth right) then
      parent ← get_parent s node;
      s ← rb_replace_node s node left; Ret (s, left, parent, red)
    else erase_two s node;
  s ← if negb (truth replacement_red) then rb_erase_fixup s child child_parent else Ret s;
  rb_node_init s node.

Definition rb_first (s : rb_mem) : outcome Z :=
  if truth (rb_root s) then rb_subtree_first s (rb_root s) else Ret 0.

Fixpoint next_loop (fuel : nat) (s : rb_mem) (node parent : Z) : outcome Z :=
  match fuel with
  | O => Fault
  | S fuel =>
      if negb (truth parent) then Ret parent else
      pr ← get_right s parent;
      if node =? pr then pp ← get_parent s parent; next_loop fuel s parent pp
      else Ret parent
  end.

Definition rb_next (s : rb_mem) (node : Z) : outcome Z :=
  right ← get_right s node;
  if truth right then rb_subtree_first s right else
  parent ← get_parent s node;
  next_loop (rounds s) s node parent.
