(* ===== verification/RbTreeShape.v ===== *)
(** * Red-black tree: the trees the store represents

    A store represents a tree ([whole]); a position in it is a zipper.  The
    pointer updates that move subtrees around (rotation, recolouring) are
    proved once here as steps between represented trees. *)
From S2P Require Import Prelude RbTree.

Inductive tree := Leaf | Node (p : Z) (red : bool) (l r : tree).

Definition ptr (t : tree) : Z := match t with Leaf => 0 | Node p _ _ _ => p end.
Definition colour (c : bool) : Z := if c then 1 else 0.

(** The pointers in order. *)
Fixpoint elems (t : tree) : list Z :=
  match t with Leaf => [] | Node p _ l r => elems l ++ p :: elems r end.

(** A frame of a zipper: which child the hole is, the parent, its colour and its other child. *)
Inductive side := L | R.
Record frame := MkFrame { f_side : side; f_ptr : Z; f_red : bool; f_other : tree }.
Notation zipper := (list frame).

Definition fill (f : frame) (t : tree) : tree :=
  match f_side f with
  | L => Node (f_ptr f) (f_red f) t (f_other f)
  | R => Node (f_ptr f) (f_red f) (f_other f) t
  end.
Fixpoint plug (k : zipper) (t : tree) : tree := match k with [] => t | f :: k => plug k (fill f t) end.

Definition up (k : zipper) : Z := match k with [] => 0 | f :: _ => f_ptr f end.

Fixpoint before (k : zipper) : list Z :=
  match k with
  | [] => []
  | f :: k => before k ++ match f_side f with L => [] | R => elems (f_other f) ++ [f_ptr f] end
  end.
Fixpoint after (k : zipper) : list Z :=
  match k with
  | [] => []
  | f :: k => match f_side f with L => f_ptr f :: elems (f_other f) | R => [] end ++ after k
  end.

Lemma elems_plug k t : elems (plug k t) = before k ++ elems t ++ after k.
Proof.
  revert t; induction k as [|[[] q c o] k IH]; intros t; cbn [plug before after]; [by rewrite app_nil_r| |];
    rewrite IH; cbn; by rewrite <-?app_assoc, ?app_nil_r, <-?app_assoc.
Qed.

(** ** Representation *)

Fixpoint rep (m : gmap Z rb_node) (parent : Z) (t : tree) : Prop :=
  match t with
  | Leaf => True
  | Node p c l r => p <> 0 /\ m !! p = Some (MkRb parent (ptr l) (ptr r) (colour c)) /\ rep m p l /\ rep m p r
  end.

(** A context whose hole is pointed to by [h]. *)
Fixpoint repk (s : rb_mem) (k : zipper) (h : Z) : Prop :=
  match k with
  | [] => rb_root s = h
  | f :: k =>
      f_ptr f <> 0 /\
      rb_nodes s !! f_ptr f = Some (match f_side f with
        | L => MkRb (up k) h (ptr (f_other f)) (colour (f_red f))
        | R => MkRb (up k) (ptr (f_other f)) h (colour (f_red f)) end) /\
      rep (rb_nodes s) (f_ptr f) (f_other f) /\ repk s k (f_ptr f)
  end.

Record whole (s : rb_mem) (t : tree) : Prop := {
  wh_nodup : NoDup (elems t);
  wh_root : rb_root s = ptr t;
  wh_rep : rep (rb_nodes s) 0 t }.

Lemma rep_plug s k t : (rb_root s = ptr (plug k t) /\ rep (rb_nodes s) 0 (plug k t)) <->
  repk s k (ptr t) /\ rep (rb_nodes s) (up k) t.
Proof.
  revert t; induction k as [|f k IH]; intros t; [done|]. cbn [plug repk up]. rewrite IH.
  destruct f as [[] q c o]; cbn; naive_solver.
Qed.

Lemma whole_plug s k t : whole s (plug k t) <->
  NoDup (elems (plug k t)) /\ repk s k (ptr t) /\ rep (rb_nodes s) (up k) t.
Proof. rewrite <-rep_plug. split; [intros []; tauto|]. intros (? & ? & ?). by split. Qed.

Lemma rep_frame m m' parent t : (forall p, p ∈ elems t -> m' !! p = m !! p) -> rep m parent t -> rep m' parent t.
Proof.
  revert parent; induction t as [|p c l IHl r IHr]; intros parent Hm; [done|]. cbn.
  intros (? & Hp & Hl & Hr). split; [done|]. rewrite Hm by set_solver. split; [done|].
  split; [apply IHl|apply IHr]; try done; intros q Hq; apply Hm; set_solver.
Qed.

Definition around (k : zipper) : list Z := before k ++ after k.

Lemma repk_frame s s' k h : (forall p, p ∈ around k -> rb_nodes s' !! p = rb_nodes s !! p) ->
  rb_root s' = rb_root s -> repk s k h -> repk s' k h.
Proof.
  revert h; induction k as [|[d q c o] k IH]; intros h Hm Hr; [cbn; congruence|]. cbn.
  intros (? & Hq & Ho & Hk).
  assert (Hin : forall p, p ∈ q :: elems o ++ around k -> rb_nodes s' !! p = rb_nodes s !! p).
  { intros p Hp. apply Hm. unfold around in *. destruct d; cbn; set_solver. }
  split; [done|]. rewrite Hin by set_solver. split; [done|]. split.
  - eapply rep_frame; [|done]. intros p Hp. apply Hin. set_solver.
  - apply IH; [|done..]. intros p Hp. apply Hin. set_solver.
Qed.

(** A node of the represented tree as the code reads it. *)
Lemma whole_node s k p c l r : whole s (plug k (Node p c l r)) ->
  p <> 0 /\ rb_nodes s !! p = Some (MkRb (up k) (ptr l) (ptr r) (colour c)).
Proof. intros (_ & _ & Hr)%whole_plug. cbn in Hr. tauto. Qed.

(** ** Steps *)

(** From a store for [t] to a store for [t'] with the same elements, nothing else touched. *)
Record evolves (s : rb_mem) (t : tree) (s' : rb_mem) (t' : tree) : Prop := {
  ev_whole : whole s' t';
  ev_elems : elems t' = elems t;
  ev_frame : forall p, p ∉ elems t -> rb_nodes s' !! p = rb_nodes s !! p }.

Lemma evolves_refl s t : whole s t -> evolves s t s t.
Proof. by split. Qed.
Lemma evolves_trans s1 t1 s2 t2 s3 t3 : evolves s1 t1 s2 t2 -> evolves s2 t2 s3 t3 -> evolves s1 t1 s3 t3.
Proof.
  intros [W1 E1 F1] [W2 E2 F2]. split; [done|congruence|]. intros p Hp. rewrite F2, F1; [done..|by rewrite E1].
Qed.

Lemma put_Ret s p n f : rb_nodes s !! p = Some n ->
  put s p f = Ret (MkMem (<[p := f n]> (rb_nodes s)) (rb_root s)).
Proof. intros H. unfold put, node_at. by rewrite H. Qed.
Lemma node_at_Ret s p n : rb_nodes s !! p = Some n -> node_at s p = Ret n.
Proof. intros H. unfold node_at. by rewrite H. Qed.

(** ** Pointer updates *)

(** Give the root of [t] the parent [v]. *)
Definition reparent (m : gmap Z rb_node) (t : tree) (v : Z) : gmap Z rb_node :=
  match t with Leaf => m | Node p c l r => <[p := MkRb v (ptr l) (ptr r) (colour c)]> m end.

(** Point the hole of [k] to [h]. *)
Definition relink (s : rb_mem) (k : zipper) (h : Z) : rb_mem :=
  match k with
  | [] => MkMem (rb_nodes s) h
  | f :: k => MkMem (<[f_ptr f := match f_side f with
      | L => MkRb (up k) h (ptr (f_other f)) (colour (f_red f))
      | R => MkRb (up k) (ptr (f_other f)) h (colour (f_red f)) end]> (rb_nodes s)) (rb_root s)
  end.

Lemma ptr_0 m v t : rep m v t -> truth (ptr t) = match t with Leaf => false | _ => true end.
Proof. destruct t; [done|]. intros (Hp & _). unfold truth. cbn. by rewrite (proj2 (Z.eqb_neq _ _) Hp). Qed.

Lemma reparent_spec m v t v' : rep m v t -> NoDup (elems t) -> rep (reparent m t v') v' t.
Proof.
  destruct t as [|p c l r]; [done|]. cbn. intros (? & Hp & Hl & Hr) Hn.
  apply NoDup_app in Hn as (_ & Hd & [Hpr _]%NoDup_cons). split; [done|]. rewrite lookup_insert_eq. split; [done|].
  split; (eapply rep_frame; [|done]; intros q Hq; rewrite lookup_insert_ne; [done|]; intros ->; set_solver).
Qed.

Lemma reparent_other m t v p : p ∉ elems t -> reparent m t v !! p = m !! p.
Proof. destruct t as [|q c l r]; [done|]. cbn. intros Hp. rewrite lookup_insert_ne; [done|]. set_solver. Qed.

Lemma reparent_Ret s v t v' : rep (rb_nodes s) v t ->
  (if truth (ptr t) then set_parent s (ptr t) v' else Ret s) = Ret (MkMem (reparent (rb_nodes s) t v') (rb_root s)).
Proof.
  intros Ht. rewrite (ptr_0 _ _ _ Ht). destruct t as [|p c l r]; [by destruct s|]. cbn in *.
  unfold set_parent. by erewrite put_Ret by apply Ht.
Qed.

Lemma relink_other s k h p : p ∉ around k -> rb_nodes (relink s k h) !! p = rb_nodes s !! p.
Proof.
  destruct k as [|[[] q c o] k]; [done|..]; cbn; intros Hp; rewrite lookup_insert_ne; try done;
    unfold around in Hp; cbn in Hp; set_solver.
Qed.

Lemma around_cons f k : around (f :: k) ≡ₚ f_ptr f :: elems (f_other f) ++ around k.
Proof.
  unfold around. destruct f as [[] q c o]; cbn.
  - rewrite app_nil_r, <-Permutation_middle. constructor. rewrite !app_assoc.
    apply Permutation_app_tail, Permutation_app_comm.
  - rewrite (app_assoc (elems o)), (app_comm_cons (elems o ++ before k)). apply Permutation_app_tail.
    rewrite app_assoc, <-Permutation_cons_append. constructor. apply Permutation_app_comm.
Qed.

Lemma relink_repk s k h h' : repk s k h -> NoDup (around k) -> repk (relink s k h') k h'.
Proof.
  destruct k as [|f k]; [done|]. cbn [relink repk rb_nodes]. intros (? & Hq & Ho & Hk) Hn.
  rewrite around_cons in Hn. apply NoDup_cons in Hn as [Hf Hn]. rewrite lookup_insert_eq. split; [done|]. split; [done|].
  assert (Hne : forall p, p ∈ elems (f_other f) ++ around k -> f_ptr f <> p) by set_solver. split.
  - eapply rep_frame; [|done]. intros p Hp. rewrite lookup_insert_ne; [done|]. apply Hne. set_solver.
  - eapply repk_frame; [| |done]; [|done]. intros p Hp. cbn. rewrite lookup_insert_ne; [done|]. apply Hne. set_solver.
Qed.

Lemma ptr_elem t : ptr t <> 0 -> ptr t ∈ elems t.
Proof. destruct t; cbn; set_solver. Qed.

Lemma up_truth s k h : repk s k h -> truth (up k) = match k with [] => false | _ => true end.
Proof. destruct k as [|f k]; [done|]. intros (Hp & _). unfold truth. cbn. by rewrite (proj2 (Z.eqb_neq _ _) Hp). Qed.

(** The slot update as [rb_rotate_left] and [rb_replace_node] write it ... *)
Lemma relink_left_Ret s k h h' : repk s k h -> h <> 0 -> h ∉ around k ->
  (if negb (truth (up k)) then Ret (set_root s h') else
   (pl ← get_left s (up k); if h =? pl then set_left s (up k) h' else set_right s (up k) h')) = Ret (relink s k h').
Proof.
  intros Hk Hh Ha. rewrite (up_truth _ _ _ Hk). destruct k as [|f k]; [done|]. destruct Hk as (_ & Hq & _).
  rewrite around_cons in Ha. cbn [up] in *.
  unfold get_left, set_left, set_right. erewrite node_at_Ret by done. cbn.
  destruct f as [[] q c o]; cbn in *; [rewrite Z.eqb_refl|]; [by erewrite put_Ret by done|].
  rewrite (proj2 (Z.eqb_neq _ _)); [by erewrite put_Ret by done|]. intros ->. apply Ha.
  pose proof (ptr_elem o Hh). set_solver.
Qed.

(** ... and as [rb_rotate_right] writes it. *)
Lemma relink_right_Ret s k h h' : repk s k h -> h <> 0 -> h ∉ around k ->
  (if negb (truth (up k)) then Ret (set_root s h') else
   (pr ← get_right s (up k); if h =? pr then set_right s (up k) h' else set_left s (up k) h')) = Ret (relink s k h').
Proof.
  intros Hk Hh Ha. rewrite (up_truth _ _ _ Hk). destruct k as [|f k]; [done|]. destruct Hk as (_ & Hq & _).
  rewrite around_cons in Ha. cbn [up] in *.
  unfold get_right, set_left, set_right. erewrite node_at_Ret by done. cbn.
  destruct f as [[] q c o]; cbn in *; [|rewrite Z.eqb_refl; by erewrite put_Ret by done].
  rewrite (proj2 (Z.eqb_neq _ _)); [by erewrite put_Ret by done|]. intros ->. apply Ha.
  pose proof (ptr_elem o Hh). set_solver.
Qed.

Lemma focus_nodup k t : NoDup (elems (plug k t)) <-> NoDup (elems t ++ around k).
Proof.
  rewrite elems_plug. unfold around.
  assert (E : before k ++ elems t ++ after k ≡ₚ elems t ++ before k ++ after k).
  { rewrite !app_assoc. apply Permutation_app_tail, Permutation_app_comm. }
  by rewrite E.
Qed.

Lemma in_plug k t p : p ∈ elems (plug k t) <-> p ∈ elems t \/ p ∈ around k.
Proof. rewrite elems_plug. unfold around. set_solver. Qed.

(** The facts a duplicate-free list of elements gives. *)
Ltac split_nodup H :=
  repeat first [rewrite NoDup_cons in H | rewrite NoDup_app in H];
  repeat match type of H with
  | _ /\ _ => let H1 := fresh "Hnd" in destruct H as [H1 H]; split_nodup H1
  | _ => idtac
  end.

Lemma recolour s k p c l r c' : whole s (plug k (Node p c l r)) ->
  exists s', set_red s p (colour c') = Ret s' /\ evolves s (plug k (Node p c l r)) s' (plug k (Node p c' l r)) /\
    rb_root s' = rb_root s.
Proof.
  intros Hw. pose proof Hw as (Hn & Hk & Hp & Hm & Hl & Hr)%whole_plug.
  unfold set_red. erewrite put_Ret by done. eexists. split; [done|]. cbn. split; [|done].
  assert (He : elems (plug k (Node p c' l r)) = elems (plug k (Node p c l r))) by by rewrite !elems_plug.
  assert (Hf : forall q, q <> p -> <[p := MkRb (up k) (ptr l) (ptr r) (colour c')]> (rb_nodes s) !! q = rb_nodes s !! q).
  { intros q Hq. by rewrite lookup_insert_ne. }
  split; [|done|intros q Hq; apply Hf; rewrite in_plug in Hq; cbn in Hq; set_solver].
  apply whole_plug. rewrite He. split; [done|]. rewrite focus_nodup in Hn. cbn in Hn.
  rewrite <-app_assoc in Hn. cbn in Hn. split_nodup Hn. split; [|cbn; split; [done|split; [apply lookup_insert_eq|]]].
  - eapply repk_frame; [| |exact Hk]; [|done]. intros q Hq. apply Hf. set_solver.
  - split; (eapply rep_frame; [|done]; intros q Hq; apply Hf; set_solver).
Qed.

(** ** Running the code on a store *)

Lemma get_parent_Ret s p n : rb_nodes s !! p = Some n -> get_parent s p = Ret (rb_parent n).
Proof. intros H. unfold get_parent. by rewrite (node_at_Ret _ _ _ H). Qed.
Lemma get_left_Ret s p n : rb_nodes s !! p = Some n -> get_left s p = Ret (rb_left n).
Proof. intros H. unfold get_left. by rewrite (node_at_Ret _ _ _ H). Qed.
Lemma get_right_Ret s p n : rb_nodes s !! p = Some n -> get_right s p = Ret (rb_right n).
Proof. intros H. unfold get_right. by rewrite (node_at_Ret _ _ _ H). Qed.
Lemma get_red_Ret s p n : rb_nodes s !! p = Some n -> get_red s p = Ret (rb_red n).
Proof. intros H. unfold get_red. by rewrite (node_at_Ret _ _ _ H). Qed.

Lemma set_parent_Ret s p n v : rb_nodes s !! p = Some n -> set_parent s p v =
  Ret (MkMem (<[p := MkRb v (rb_left n) (rb_right n) (rb_red n)]> (rb_nodes s)) (rb_root s)).
Proof. intros H. unfold set_parent. by rewrite (put_Ret _ _ _ _ H). Qed.
Lemma set_left_Ret s p n v : rb_nodes s !! p = Some n -> set_left s p v =
  Ret (MkMem (<[p := MkRb (rb_parent n) v (rb_right n) (rb_red n)]> (rb_nodes s)) (rb_root s)).
Proof. intros H. unfold set_left. by rewrite (put_Ret _ _ _ _ H). Qed.
Lemma set_right_Ret s p n v : rb_nodes s !! p = Some n -> set_right s p v =
  Ret (MkMem (<[p := MkRb (rb_parent n) (rb_left n) v (rb_red n)]> (rb_nodes s)) (rb_root s)).
Proof. intros H. unfold set_right. by rewrite (put_Ret _ _ _ _ H). Qed.
Lemma set_red_Ret s p n v : rb_nodes s !! p = Some n -> set_red s p v =
  Ret (MkMem (<[p := MkRb (rb_parent n) (rb_left n) (rb_right n) v]> (rb_nodes s)) (rb_root s)).
Proof. intros H. unfold set_red. by rewrite (put_Ret _ _ _ _ H). Qed.

Ltac sep := first [assumption | apply not_eq_sym; assumption].

(** Look a node up through the updates made so far. *)
Ltac look :=
  cbn [rb_nodes];
  repeat first [rewrite lookup_insert_eq | rewrite lookup_insert_ne by sep
               |rewrite reparent_other by sep | rewrite relink_other by sep; cbn [rb_nodes]];
  first [eassumption | reflexivity].

Ltac run_bind := cbn [mbind outcome_bind rb_parent rb_left rb_right rb_red rb_nodes].
Ltac run_get :=
  first [erewrite get_parent_Ret by look | erewrite get_left_Ret by look
        |erewrite get_right_Ret by look | erewrite get_red_Ret by look]; run_bind.
Ltac run_set :=
  first [erewrite set_parent_Ret by look | erewrite set_left_Ret by look
        |erewrite set_right_Ret by look | erewrite set_red_Ret by look]; run_bind.

(** Carry what is known of a subtree or of the context to the store the code is about to read; [F] gives the
    inequalities for its elements. *)
Ltac outside F := let q := fresh "q" in let Hq := fresh "Hq" in
  intros q Hq; pose proof (F q Hq); destruct_and?; look.
Ltac keep_rep H F :=
  match goal with |- context [set_parent ?s _ _] =>
    match type of H with rep _ ?v ?t =>
      let H' := fresh in
      assert (rep (rb_nodes s) v t) as H' by (refine (rep_frame _ _ _ _ _ H); outside F); clear H; rename H' into H
    end end.
Ltac keep_repk H F :=
  match goal with |- context [set_root ?s _] =>
    match type of H with repk _ ?k ?h =>
      let H' := fresh in
      assert (repk s k h) as H' by (refine (repk_frame _ _ _ _ _ _ H); [outside F|done]); clear H; rename H' into H
    end end.

(** ** Rotation *)

Section rotation.
  Context (k : zipper) (x y : Z) (cx cy : bool) (a b e : tree).

Definition apart_k (A : list Z) : Prop := forall q, q ∈ A -> x <> q /\ y <> q /\ q ∉ elems b.
Definition apart_all (A : list Z) : Prop := forall q, q ∈ A -> x <> q /\ y <> q /\ q ∉ elems b /\ q ∉ around k.

(** The parts of a rotation are disjoint. *)
Record parts : Prop := {
  pt_xy : x <> y;
  pt_x : x ∉ elems b /\ x ∉ around k;
  pt_y : y ∉ elems b /\ y ∉ around k;
  pt_a : apart_all (elems a);
  pt_b : forall q, q ∈ elems b -> x <> q /\ y <> q /\ q ∉ around k;
  pt_e : apart_all (elems e);
  pt_k : apart_k (around k);
  pt_nodup_b : NoDup (elems b);
  pt_nodup_k : NoDup (around k) }.

Lemma parts_of : NoDup (elems (plug k (Node x cx a (Node y cy b e)))) -> parts.
Proof.
  intros Hn. rewrite focus_nodup in Hn. cbn in Hn. rewrite <-!app_assoc in Hn. cbn in Hn. rewrite <-!app_assoc in Hn.
  cbn in Hn. split_nodup Hn. split; try done; unfold apart_all, apart_k; set_solver.
Qed.

Lemma rotated_elems : elems (plug k (Node y cy (Node x cx a b) e)) = elems (plug k (Node x cx a (Node y cy b e))).
Proof. rewrite !elems_plug. cbn. rewrite <-!app_assoc. cbn. by rewrite <-!app_assoc. Qed.

Lemma outside_parts q : q ∉ elems (plug k (Node x cx a (Node y cy b e))) ->
  x <> q /\ y <> q /\ q ∉ elems b /\ q ∉ around k.
Proof. rewrite in_plug. cbn. set_solver. Qed.

Lemma rotate_left_spec s : whole s (plug k (Node x cx a (Node y cy b e))) ->
  exists s', rb_rotate_left s x = Ret s' /\
    evolves s (plug k (Node x cx a (Node y cy b e))) s' (plug k (Node y cy (Node x cx a b) e)).
Proof.
  intros Hw. pose proof Hw as (Hn & Hk & Hx & Hmx & Ha & Hy & Hmy & Hb & He)%whole_plug.
  pose proof (parts_of Hn) as [Hxy [??] [??] FA FB FE FK Nb Nk]. cbn [ptr] in Hmx.
  unfold rb_rotate_left. run_get. run_get.
  run_set. run_get. keep_rep Hb FB. rewrite (reparent_Ret _ _ _ _ Hb). apply (reparent_spec _ _ _ x) in Hb; [|done].
  run_bind. run_get. run_set. run_get. keep_repk Hk FK. erewrite (relink_left_Ret _ k x y); [|exact Hk|done..].
  apply (relink_repk _ _ _ y) in Hk; [|done]. run_bind. run_set. run_set. eexists. split; [done|].
  split; [|apply rotated_elems|intros q (? & ? & ? & ?)%outside_parts; look].
  apply whole_plug. rewrite rotated_elems. split; [apply Hw|]. split.
  - refine (repk_frame _ _ _ _ _ _ Hk); [outside FK|done].
  - cbn [rep]. split; [done|]. split; [look|]. split; [split; [done|]; split; [look|]; split|].
    + refine (rep_frame _ _ _ _ _ Ha). outside FA.
    + refine (rep_frame _ _ _ _ _ Hb). outside FB.
    + refine (rep_frame _ _ _ _ _ He). outside FE.
Qed.

Lemma rotate_right_spec s : whole s (plug k (Node y cy (Node x cx a b) e)) ->
  exists s', rb_rotate_right s y = Ret s' /\
    evolves s (plug k (Node y cy (Node x cx a b) e)) s' (plug k (Node x cx a (Node y cy b e))).
Proof.
  intros Hw. pose proof Hw as (Hn & Hk & Hy & Hmy & (Hx & Hmx & Ha & Hb) & He)%whole_plug.
  pose proof Hn as Hn'. rewrite rotated_elems in Hn'.
  pose proof (parts_of Hn') as [Hxy [??] [??] FA FB FE FK Nb Nk]. cbn [ptr] in Hmy.
  unfold rb_rotate_right. run_get. run_get.
  run_set. run_get. keep_rep Hb FB. rewrite (reparent_Ret _ _ _ _ Hb). apply (reparent_spec _ _ _ y) in Hb; [|done].
  run_bind. run_get. run_set. run_get. keep_repk Hk FK. erewrite (relink_right_Ret _ k y x); [|exact Hk|done..].
  apply (relink_repk _ _ _ x) in Hk; [|done]. run_bind. run_set. run_set. eexists. split; [done|].
  split; [|by rewrite rotated_elems|rewrite rotated_elems; intros q (? & ? & ? & ?)%outside_parts; look].
  apply whole_plug. rewrite <-rotated_elems. split; [apply Hw|]. split.
  - refine (repk_frame _ _ _ _ _ _ Hk); [outside FK|done].
  - cbn [rep]. split; [done|]. split; [look|]. split; [|split; [done|]; split; [look|]; split].
    + refine (rep_frame _ _ _ _ _ Ha). outside FA.
    + refine (rep_frame _ _ _ _ _ Hb). outside FB.
    + refine (rep_frame _ _ _ _ _ He). outside FE.
Qed.
End rotation.
