(* ===== verification/RbTreeInsert.v ===== *)
(** * Red-black tree: insertion

    The colour and black-height invariant, and [rb_insert_color] restoring it
    after a node was linked at a leaf. *)
From S2P Require Import Prelude RbTree RbTreeShape.

(** [rb c n t]: [t] is a red-black tree with root colour [c] and black height [n]. *)
Inductive rb : bool -> nat -> tree -> Prop :=
| rb_leaf : rb false 0 Leaf
| rb_of_red n p l r : rb false n l -> rb false n r -> rb true n (Node p true l r)
| rb_of_black n cl cr p l r : rb cl n l -> rb cr n r -> rb false (S n) (Node p false l r).

(** [allows b n k]: a black tree of black height [n] allows the hole of [k], a red one too when [b]; the root is black. *)
Inductive allows : bool -> nat -> zipper -> Prop :=
| allows_top n : allows false n []
| allows_red n d q o k : allows true n k -> rb false n o -> allows false n (MkFrame d q true o :: k)
| allows_black n b co d q o k : allows b (S n) k -> rb co n o -> allows true n (MkFrame d q false o :: k).

Create HintDb rbtree.
#[export] Hint Constructors rb allows : rbtree.

Lemma rb_plug k t b c n : allows b n k -> rb c n t -> (c = true -> b = true) -> exists n', rb false n' (plug k t).
Proof.
  intros Hk. revert c t. induction Hk as [n|n d q o k _ IH Ho|n b co d q o k _ IH Ho]; intros c t Ht Hc.
  - destruct c; [by specialize (Hc eq_refl)|]. by exists n.
  - destruct c; [by specialize (Hc eq_refl)|]. apply (IH true); [|done]. destruct d; cbn; by constructor.
  - apply (IH false); [|done]. destruct d; cbn; by econstructor.
Qed.

(** ** Reading the store *)

Lemma is_red_spec s k t : whole s (plug k t) -> rb_is_red s (ptr t) = Ret (match t with Leaf => false | Node _ c _ _ => c end).
Proof.
  intros Hw. unfold rb_is_red. destruct t as [|p c l r]; [done|]. destruct (whole_node _ _ _ _ _ _ Hw) as [Hp Hm].
  cbn. unfold truth at 1. rewrite (proj2 (Z.eqb_neq _ _) Hp). cbn [negb]. rewrite (get_red_Ret _ _ _ Hm). by destruct c.
Qed.

Lemma is_black_spec s k t : whole s (plug k t) ->
  rb_is_black s (ptr t) = Ret (match t with Leaf => true | Node _ c _ _ => negb c end).
Proof.
  intros Hw. unfold rb_is_black. destruct t as [|p c l r]; [done|]. destruct (whole_node _ _ _ _ _ _ Hw) as [Hp Hm].
  cbn. unfold truth at 1. rewrite (proj2 (Z.eqb_neq _ _) Hp). cbn [negb]. rewrite (get_red_Ret _ _ _ Hm). by destruct c.
Qed.

Lemma truth_ne p : p <> 0 -> truth p = true.
Proof. intros H. unfold truth. by rewrite (proj2 (Z.eqb_neq _ _) H). Qed.

(** The two subtrees of a node have different roots. *)
Lemma siblings_ne s k p c l r : whole s (plug k (Node p c l r)) -> ptr l <> 0 -> ptr l <> ptr r.
Proof.
  intros Hw Hl He. apply whole_plug in Hw as (Hn & _). rewrite focus_nodup in Hn. cbn in Hn.
  rewrite <-app_assoc in Hn. apply NoDup_app in Hn as (_ & Hd & _). apply (Hd (ptr l)); [by apply ptr_elem|].
  rewrite He in *. pose proof (ptr_elem r Hl). set_solver.
Qed.

Lemma siblings_ne' s k p c l r : whole s (plug k (Node p c l r)) -> ptr r <> 0 -> ptr r <> ptr l.
Proof.
  intros Hw Hr He. eapply (siblings_ne s k p c l r); [done| |done]. by rewrite <-He.
Qed.

(** Recolouring, with the tree and the colour as the code gives them. *)
Lemma recolour_to s k p c l r c' v : whole s (plug k (Node p c l r)) -> v = colour c' ->
  exists s', set_red s p v = Ret s' /\ evolves s (plug k (Node p c l r)) s' (plug k (Node p c' l r)).
Proof. intros Hw ->. destruct (recolour s k p c l r c' Hw) as (s' & ? & ? & _). eauto. Qed.

Section insert.
  Context (k : zipper) (g q u : Z) (A B C D : tree).

(** Recolouring of a red parent and a red uncle, in either order of the children. *)
Lemma flip_left s : whole s (plug k (Node g false (Node q true A B) (Node u true C D))) ->
  exists s', (forall X (K : rb_mem -> outcome X),
      (s ← set_red s q 0; s ← set_red s u 0; s ← set_red s g 1; K s) = K s') /\
    evolves s (plug k (Node g false (Node q true A B) (Node u true C D)))
      s' (plug k (Node g true (Node q false A B) (Node u false C D))).
Proof.
  intros Hw.
  destruct (recolour_to s (MkFrame L g false (Node u true C D) :: k) q true A B false 0 Hw eq_refl) as (s1 & R1 & E1).
  destruct (recolour_to s1 (MkFrame R g false (Node q false A B) :: k) u true C D false 0 (ev_whole _ _ _ _ E1) eq_refl)
    as (s2 & R2 & E2).
  destruct (recolour_to s2 k g false (Node q false A B) (Node u false C D) true 1 (ev_whole _ _ _ _ E2) eq_refl) as (s3 & R3 & E3).
  exists s3. split; [by intros X K; rewrite R1; cbn; rewrite R2; cbn; rewrite R3|]. eapply evolves_trans; [exact E1|]. by eapply evolves_trans.
Qed.

Lemma flip_right s : whole s (plug k (Node g false (Node u true A B) (Node q true C D))) ->
  exists s', (forall X (K : rb_mem -> outcome X),
      (s ← set_red s q 0; s ← set_red s u 0; s ← set_red s g 1; K s) = K s') /\
    evolves s (plug k (Node g false (Node u true A B) (Node q true C D)))
      s' (plug k (Node g true (Node u false A B) (Node q false C D))).
Proof.
  intros Hw.
  destruct (recolour_to s (MkFrame R g false (Node u true A B) :: k) q true C D false 0 Hw eq_refl) as (s1 & R1 & E1).
  destruct (recolour_to s1 (MkFrame L g false (Node q false C D) :: k) u true A B false 0 (ev_whole _ _ _ _ E1) eq_refl)
    as (s2 & R2 & E2).
  destruct (recolour_to s2 k g false (Node u false A B) (Node q false C D) true 1 (ev_whole _ _ _ _ E2) eq_refl) as (s3 & R3 & E3).
  exists s3. split; [by intros X K; rewrite R1; cbn; rewrite R2; cbn; rewrite R3|]. eapply evolves_trans; [exact E1|]. by eapply evolves_trans.
Qed.

(** The final recolouring and rotation. *)
Lemma lift_left s : whole s (plug k (Node g false (Node q true A B) C)) ->
  exists s', (forall X (K : rb_mem -> outcome X),
      (s ← set_red s q 0; s ← set_red s g 1; s ← rb_rotate_right s g; K s) = K s') /\
    evolves s (plug k (Node g false (Node q true A B) C)) s' (plug k (Node q false A (Node g true B C))).
Proof.
  intros Hw.
  destruct (recolour_to s (MkFrame L g false C :: k) q true A B false 0 Hw eq_refl) as (s1 & R1 & E1).
  destruct (recolour_to s1 k g false (Node q false A B) C true 1 (ev_whole _ _ _ _ E1) eq_refl) as (s2 & R2 & E2).
  destruct (rotate_right_spec k q g false true A B C s2 (ev_whole _ _ _ _ E2)) as (s3 & R3 & E3).
  exists s3. split; [by intros X K; rewrite R1; cbn; rewrite R2; cbn; rewrite R3|]. eapply evolves_trans; [exact E1|]. by eapply evolves_trans.
Qed.

Lemma lift_right s : whole s (plug k (Node g false A (Node q true B C))) ->
  exists s', (forall X (K : rb_mem -> outcome X),
      (s ← set_red s q 0; s ← set_red s g 1; s ← rb_rotate_left s g; K s) = K s') /\
    evolves s (plug k (Node g false A (Node q true B C))) s' (plug k (Node q false (Node g true A B) C)).
Proof.
  intros Hw.
  destruct (recolour_to s (MkFrame R g false A :: k) q true B C false 0 Hw eq_refl) as (s1 & R1 & E1).
  destruct (recolour_to s1 k g false A (Node q false B C) true 1 (ev_whole _ _ _ _ E1) eq_refl) as (s2 & R2 & E2).
  destruct (rotate_left_spec k g q true false A B C s2 (ev_whole _ _ _ _ E2)) as (s3 & R3 & E3).
  exists s3. split; [by intros X K; rewrite R1; cbn; rewrite R2; cbn; rewrite R3|]. eapply evolves_trans; [exact E1|]. by eapply evolves_trans.
Qed.
End insert.

(** ** The loop *)

Ltac reads := repeat run_get.
(** The part of a round before the two sides differ. *)
Ltac open_round :=
  cbn [insert_color_loop]; reads; rewrite truth_ne by done; reads; cbn [colour truth Z.eqb negb]; reads.

Definition red_root (t : tree) : bool := match t with Leaf => false | Node _ c _ _ => c end.

Lemma rb_red_root c n t : rb c n t -> red_root t = c.
Proof. by destruct 1. Qed.

Lemma insert_stop fuel s f k p c l r : whole s (plug (f :: k) (Node p c l r)) -> f_red f = false ->
  insert_color_loop (S fuel) s p = Ret s.
Proof.
  intros Hw Hf. destruct (whole_node _ _ _ _ _ _ Hw) as [Hp Hmp]. destruct f as [[] q cf o]; cbn in Hf; subst cf;
    destruct (whole_node _ k _ _ _ _ Hw) as [Hq Hmq]; cbn [insert_color_loop];
    reads; cbn [up f_ptr]; rewrite truth_ne by done; reads; done.
Qed.

Section insert_step.
  Context (fuel : nat) (s : rb_mem) (k : zipper) (g q p : Z) (A l r U : tree).

(** What one round makes of the tree under the grandparent: it goes on at the grandparent or it is done. *)
Definition round_result (t : tree) : Prop :=
  if red_root U then
    exists s' l' r', insert_color_loop (S fuel) s p = insert_color_loop fuel s' g /\
      evolves s (plug k t) s' (plug k (Node g true l' r')) /\
      forall h, rb false h l -> rb false h r -> rb false h A -> rb true h U -> rb false (S h) l' /\ rb false (S h) r'
  else
    exists s' t', insert_color_loop (S (S fuel)) s p = Ret s' /\ evolves s (plug k t) s' (plug k t') /\
      forall h, rb false h l -> rb false h r -> rb false h A -> rb false h U -> rb false (S h) t'.

End insert_step.

Lemma round_LL fuel s k g q p A l r U : whole s (plug k (Node g false (Node q true (Node p true l r) A) U)) ->
  round_result fuel s k g p A l r U (Node g false (Node q true (Node p true l r) A) U).
Proof.
  intros Hw. destruct (whole_node s k _ _ _ _ Hw) as [Hg Hmg].
  destruct (whole_node s (MkFrame L g false U :: k) _ _ _ _ Hw) as [Hq Hmq].
  destruct (whole_node s (MkFrame L q true A :: MkFrame L g false U :: k) _ _ _ _ Hw) as [Hp Hmp].
  pose proof (is_red_spec s (MkFrame R g false (Node q true (Node p true l r) A) :: k) U Hw) as Hu.
  pose proof (siblings_ne s (MkFrame L g false U :: k) _ _ _ _ Hw Hp) as Hne. cbn [ptr up f_ptr colour] in *.
  unfold round_result. fold (red_root U) in Hu. destruct (red_root U) eqn:EU.
  - destruct U as [|u c C D]; [done|]. cbn in EU. subst c.
    destruct (flip_left k g q u (Node p true l r) A C D s Hw) as (s' & HK & E).
    exists s', (Node q false (Node p true l r) A), (Node u false C D). split; [|split; [done|]].
    + open_round. rewrite Z.eqb_refl. reads. rewrite Hu. run_bind.
      apply HK.
    + intros h Hl Hr HA HU. inversion HU; subst. split; econstructor; eauto with rbtree.
  - destruct (lift_left k g q (Node p true l r) A U s Hw) as (s' & HK & E).
    exists s', (Node q false (Node p true l r) (Node g true A U)). split; [|split; [done|]].
    + open_round. rewrite Z.eqb_refl. reads. rewrite Hu. run_bind.
      reads. rewrite (proj2 (Z.eqb_neq _ _)) by done. run_bind. rewrite HK.
      apply (insert_stop fuel s' (MkFrame L q false (Node g true A U)) k p true l r (ev_whole _ _ _ _ E) eq_refl).
    + intros h Hl Hr HA HU. econstructor; eauto with rbtree.
Qed.

Lemma round_LR fuel s k g q p A l r U : whole s (plug k (Node g false (Node q true A (Node p true l r)) U)) ->
  round_result fuel s k g p A l r U (Node g false (Node q true A (Node p true l r)) U).
Proof.
  intros Hw. destruct (whole_node s k _ _ _ _ Hw) as [Hg Hmg].
  destruct (whole_node s (MkFrame L g false U :: k) _ _ _ _ Hw) as [Hq Hmq].
  destruct (whole_node s (MkFrame R q true A :: MkFrame L g false U :: k) _ _ _ _ Hw) as [Hp Hmp].
  pose proof (is_red_spec s (MkFrame R g false (Node q true A (Node p true l r)) :: k) U Hw) as Hu.
  cbn [ptr up f_ptr colour] in *. unfold round_result. fold (red_root U) in Hu. destruct (red_root U) eqn:EU.
  - destruct U as [|u c C D]; [done|]. cbn in EU. subst c.
    destruct (flip_left k g q u A (Node p true l r) C D s Hw) as (s' & HK & E).
    exists s', (Node q false A (Node p true l r)), (Node u false C D). split; [|split; [done|]].
    + open_round. rewrite Z.eqb_refl. reads. rewrite Hu. run_bind. apply HK.
    + intros h Hl Hr HA HU. inversion HU; subst. split; econstructor; eauto with rbtree.
  - destruct (rotate_left_spec (MkFrame L g false U :: k) q p true true A l r s Hw) as (s1 & R1 & E1).
    pose proof (ev_whole _ _ _ _ E1) as Hw1.
    destruct (whole_node s1 (MkFrame L g false U :: k) _ _ _ _ Hw1) as [_ Hmp1].
    destruct (whole_node s1 (MkFrame L p true r :: MkFrame L g false U :: k) _ _ _ _ Hw1) as [_ Hmq1].
    destruct (lift_left k g p (Node q true A l) r U s1 Hw1) as (s' & HK & E). cbn [up f_ptr] in *.
    exists s', (Node p false (Node q true A l) (Node g true r U)). split; [|split; [by eapply evolves_trans|]].
    + open_round. rewrite Z.eqb_refl. reads. rewrite Hu. run_bind.
      reads. rewrite Z.eqb_refl, R1. run_bind. reads. rewrite HK.
      apply (insert_stop fuel s' (MkFrame L p false (Node g true r U)) k q true A l (ev_whole _ _ _ _ E) eq_refl).
    + intros h Hl Hr HA HU. econstructor; eauto with rbtree.
Qed.

Lemma round_RR fuel s k g q p A l r U : whole s (plug k (Node g false U (Node q true A (Node p true l r)))) ->
  round_result fuel s k g p A l r U (Node g false U (Node q true A (Node p true l r))).
Proof.
  intros Hw. destruct (whole_node s k _ _ _ _ Hw) as [Hg Hmg].
  destruct (whole_node s (MkFrame R g false U :: k) _ _ _ _ Hw) as [Hq Hmq].
  destruct (whole_node s (MkFrame R q true A :: MkFrame R g false U :: k) _ _ _ _ Hw) as [Hp Hmp].
  pose proof (is_red_spec s (MkFrame L g false (Node q true A (Node p true l r)) :: k) U Hw) as Hu.
  pose proof (siblings_ne' s (MkFrame R g false U :: k) _ _ _ _ Hw Hp) as Hne.
  pose proof (siblings_ne' s k _ _ _ _ Hw Hq) as Hneq.
  cbn [ptr up f_ptr colour] in *. unfold round_result. fold (red_root U) in Hu. destruct (red_root U) eqn:EU.
  - destruct U as [|u c C D]; [done|]. cbn in EU. subst c.
    destruct (flip_right k g q u C D A (Node p true l r) s Hw) as (s' & HK & E).
    exists s', (Node u false C D), (Node q false A (Node p true l r)). split; [|split; [done|]].
    + open_round. rewrite (proj2 (Z.eqb_neq _ _)) by done. reads. rewrite Hu. run_bind. apply HK.
    + intros h Hl Hr HA HU. inversion HU; subst. split; econstructor; eauto with rbtree.
  - destruct (lift_right k g q U A (Node p true l r) s Hw) as (s' & HK & E).
    exists s', (Node q false (Node g true U A) (Node p true l r)). split; [|split; [done|]].
    + open_round. rewrite (proj2 (Z.eqb_neq _ _)) by done. reads. rewrite Hu. run_bind.
      reads. rewrite (proj2 (Z.eqb_neq _ _)) by done. run_bind. rewrite HK.
      apply (insert_stop fuel s' (MkFrame R q false (Node g true U A)) k p true l r (ev_whole _ _ _ _ E) eq_refl).
    + intros h Hl Hr HA HU. econstructor; eauto with rbtree.
Qed.

Lemma round_RL fuel s k g q p A l r U : whole s (plug k (Node g false U (Node q true (Node p true l r) A))) ->
  round_result fuel s k g p A l r U (Node g false U (Node q true (Node p true l r) A)).
Proof.
  intros Hw. destruct (whole_node s k _ _ _ _ Hw) as [Hg Hmg].
  destruct (whole_node s (MkFrame R g false U :: k) _ _ _ _ Hw) as [Hq Hmq].
  destruct (whole_node s (MkFrame L q true A :: MkFrame R g false U :: k) _ _ _ _ Hw) as [Hp Hmp].
  pose proof (is_red_spec s (MkFrame L g false (Node q true (Node p true l r) A) :: k) U Hw) as Hu.
  pose proof (siblings_ne' s k _ _ _ _ Hw Hq) as Hneq.
  cbn [ptr up f_ptr colour] in *. unfold round_result. fold (red_root U) in Hu. destruct (red_root U) eqn:EU.
  - destruct U as [|u c C D]; [done|]. cbn in EU. subst c.
    destruct (flip_right k g q u C D (Node p true l r) A s Hw) as (s' & HK & E).
    exists s', (Node u false C D), (Node q false (Node p true l r) A). split; [|split; [done|]].
    + open_round. rewrite (proj2 (Z.eqb_neq _ _)) by done. reads. rewrite Hu. run_bind. apply HK.
    + intros h Hl Hr HA HU. inversion HU; subst. split; econstructor; eauto with rbtree.
  - destruct (rotate_right_spec (MkFrame R g false U :: k) p q true true l r A s Hw) as (s1 & R1 & E1).
    pose proof (ev_whole _ _ _ _ E1) as Hw1.
    destruct (whole_node s1 (MkFrame R g false U :: k) _ _ _ _ Hw1) as [_ Hmp1].
    destruct (whole_node s1 (MkFrame R p true l :: MkFrame R g false U :: k) _ _ _ _ Hw1) as [_ Hmq1].
    destruct (lift_right k g p U l (Node q true r A) s1 Hw1) as (s' & HK & E). cbn [up f_ptr] in *.
    exists s', (Node p false (Node g true U l) (Node q true r A)). split; [|split; [by eapply evolves_trans|]].
    + open_round. rewrite (proj2 (Z.eqb_neq _ _)) by done. reads. rewrite Hu. run_bind.
      reads. rewrite Z.eqb_refl, R1. run_bind. reads. rewrite HK.
      apply (insert_stop fuel s' (MkFrame R p false (Node g true U l)) k q true r A (ev_whole _ _ _ _ E) eq_refl).
    + intros h Hl Hr HA HU. econstructor; eauto with rbtree.
Qed.

Lemma round_any fuel s k d1 d2 g q p A l r U :
  whole s (plug (MkFrame d1 q true A :: MkFrame d2 g false U :: k) (Node p true l r)) ->
  round_result fuel s k g p A l r U (fill (MkFrame d2 g false U) (fill (MkFrame d1 q true A) (Node p true l r))).
Proof. destruct d1, d2; [apply round_LL|apply round_RL|apply round_LR|apply round_RR]. Qed.

Lemma insert_loop_spec fuel s k p l r h b : (length k < fuel)%nat -> whole s (plug k (Node p true l r)) ->
  rb false h l -> rb false h r -> allows b h k ->
  exists s' t', insert_color_loop fuel s p = Ret s' /\ evolves s (plug k (Node p true l r)) s' t' /\
    exists c n, rb c n t'.
Proof.
  revert s k p l r h b; induction fuel as [|fuel IH]; intros s k p l r h b Hf Hw Hl Hr Hk; [lia|].
  assert (Hdone : insert_color_loop (S fuel) s p = Ret s -> b = true \/ k = [] -> exists s' t',
    insert_color_loop (S fuel) s p = Ret s' /\ evolves s (plug k (Node p true l r)) s' t' /\ exists c n, rb c n t').
  { intros Hs Hb. exists s, (plug k (Node p true l r)). split; [done|]. split; [by apply evolves_refl|].
    destruct Hb as [->| ->]; [|by eauto with rbtree].
    destruct (rb_plug k (Node p true l r) true true h Hk) as [n ?]; eauto with rbtree. }
  destruct Hk as [h|h d1 q A k Hk HA|h b' co d1 q A k Hk HA].
  - apply Hdone; [|by right]. destruct (whole_node _ _ _ _ _ _ Hw) as [_ Hm]. cbn [insert_color_loop]. by reads.
  - inversion Hk as [|?|h' b' co d2 g U k' Hk' HU]; subst. pose proof (round_any (pred fuel) s k' d1 d2 g q p A l r U Hw) as Hround.
    cbn [length] in Hf. unfold round_result in Hround. rewrite (rb_red_root _ _ _ HU) in Hround. destruct co.
    + pose proof (round_any fuel s k' d1 d2 g q p A l r U Hw) as Hr2. unfold round_result in Hr2.
      rewrite (rb_red_root _ _ _ HU) in Hr2. destruct Hr2 as (s1 & l' & r' & -> & E1 & Hrb).
      destruct (Hrb h Hl Hr HA HU) as [Hl' Hr'].
      destruct (IH s1 k' g l' r' (S h) b') as (s2 & t2 & -> & E2 & HT); [lia|apply E1|done..|].
      exists s2, t2. split; [done|]. split; [by eapply evolves_trans|done].
    + destruct Hround as (s1 & t1 & Hrun & E1 & Hrb). replace (S (pred fuel)) with fuel in Hrun by lia.
      exists s1, (plug k' t1). split; [done|]. split; [done|].
      destruct (rb_plug k' t1 b' false (S h) Hk') as [n ?]; [by apply Hrb|done|eauto].
  - apply Hdone; [|by left]. by apply (insert_stop fuel s (MkFrame d1 q false A) k p true l r).
Qed.

(** ** The rounds are enough *)

Lemma rep_dom m v t p : rep m v t -> p ∈ elems t -> is_Some (m !! p).
Proof.
  revert v; induction t as [|q c l IHl r IHr]; intros v; [set_solver|]. cbn. intros (_ & Hq & Hl & Hr).
  rewrite elem_of_app, elem_of_cons. intros [|[->|]]; eauto.
Qed.

Lemma elems_size s t : whole s t -> (length (elems t) <= size (rb_nodes s))%nat.
Proof.
  intros [Hn _ Hr]. rewrite <-(size_list_to_set (C := gset Z)) by done. rewrite <-size_dom.
  apply subseteq_size. intros p Hp%elem_of_list_to_set. apply elem_of_dom. by eapply rep_dom.
Qed.

Lemma around_length k : (length k <= length (around k))%nat.
Proof.
  induction k as [|f k IH]; [done|]. rewrite (Permutation_length (around_cons f k)). cbn. rewrite length_app. lia.
Qed.

Lemma zipper_rounds s k t : whole s (plug k t) -> (S (length k) < rounds s)%nat.
Proof.
  intros Hw. pose proof (elems_size _ _ Hw) as Hs. pose proof (around_length k). rewrite elems_plug in Hs.
  unfold around, rounds in *. rewrite !length_app in *. lia.
Qed.

(** ** Insertion *)

Lemma rb_unplug k t n : rb false n (plug k t) -> exists b c m, rb c m t /\ allows b m k /\ (c = true -> b = true).
Proof.
  revert t; induction k as [|[d q cf o] k IH]; intros t Ht; cbn [plug] in Ht; [by eauto 10 with rbtree|].
  destruct (IH _ Ht) as (b & c & m & Hf & Hk & Hc). destruct d; cbn in Hf; inversion Hf; subst;
    eauto 10 with rbtree; rewrite (Hc eq_refl) in Hk; eauto 10 with rbtree.
Qed.

Definition rb_tree (t : tree) : Prop := exists n, rb false n t.

Lemma insert_color_spec s k p : whole s (plug k (Node p true Leaf Leaf)) -> rb_tree (plug k Leaf) ->
  exists s' t', rb_insert_color s p = Ret s' /\ evolves s (plug k (Node p true Leaf Leaf)) s' t' /\ rb_tree t'.
Proof.
  intros Hw [n Ht]. destruct (rb_unplug _ _ _ Ht) as (b & c & m & Hleaf & Hk & _). inversion Hleaf; subst.
  destruct (insert_loop_spec (rounds s) s k p Leaf Leaf 0 b) as (s1 & t1 & Hrun & E1 & c & n1 & H1);
    [pose proof (zipper_rounds _ _ _ Hw); lia|done|constructor..|done|].
  unfold rb_insert_color. rewrite Hrun. cbn [mbind outcome_bind]. pose proof (ev_whole _ _ _ _ E1) as [Hn1 Hroot Hrep].
  destruct t1 as [|q cq l r].
  { pose proof (ev_elems _ _ _ _ E1) as He. rewrite elems_plug in He. cbn in He. by destruct (before k). }
  rewrite Hroot. destruct (recolour_to s1 [] q cq l r false 0 (ev_whole _ _ _ _ E1) eq_refl) as (s2 & E & E2).
  exists s2, (Node q false l r). split; [done|]. split; [by eapply evolves_trans|].
  inversion H1; subst; by eexists; econstructor.
Qed.

Definition link_of (k : zipper) : rb_link :=
  match k with
  | [] => AtRoot
  | f :: _ => match f_side f with L => AtLeft (f_ptr f) | R => AtRight (f_ptr f) end
  end.

(** Linking a new node into an empty place, as the search for the place found it. *)
Lemma link_spec s k p : whole s (plug k Leaf) -> is_Some (rb_nodes s !! p) -> p <> 0 -> p ∉ elems (plug k Leaf) ->
  exists s', rb_link_node s p (up k) (link_of k) = Ret s' /\ whole s' (plug k (Node p true Leaf Leaf)) /\
    (forall q, q <> p -> q ∉ elems (plug k Leaf) -> rb_nodes s' !! q = rb_nodes s !! q).
Proof.
  intros Hw [n Hm] Hp Hin. pose proof Hw as (Hn & Hk & _)%whole_plug. rewrite focus_nodup in Hn. cbn in Hn.
  assert (Ha : p ∉ around k) by (rewrite in_plug in Hin; set_solver).
  unfold rb_link_node. erewrite put_Ret by done. cbn [mbind outcome_bind].
  set (s1 := MkMem (<[p := MkRb (up k) 0 0 1]> (rb_nodes s)) (rb_root s)).
  assert (Hk1 : repk s1 k 0).
  { refine (repk_frame _ _ _ _ _ _ Hk); [|done]. intros q Hq. cbn. rewrite lookup_insert_ne; [done|congruence]. }
  assert (Hrun : store_link s1 (link_of k) p = Ret (relink s1 k p)).
  { destruct k as [|[[] q c o] k]; [done|..]; destruct Hk1 as (_ & Hq & _); cbn; unfold set_left, set_right;
      by erewrite put_Ret by exact Hq. }
  rewrite Hrun. eexists. split; [done|]. split.
  - apply whole_plug. split; [rewrite focus_nodup; cbn; by constructor|]. split; [by apply (relink_repk _ _ 0)|].
    cbn [rep ptr]. split; [done|]. rewrite relink_other by done. cbn. by rewrite lookup_insert_eq.
  - intros q Hqp Hq. rewrite relink_other by (rewrite in_plug in Hq; set_solver). cbn. by rewrite lookup_insert_ne.
Qed.
