(* ===== verification/RbTreeErase.v ===== *)
(** * Red-black tree: the repair after a removal

    [rb_erase_fixup] restores the invariant when one subtree has lost a level of
    black height. *)
From S2P Require Import Prelude RbTree RbTreeShape RbTreeInsert.

(** A subtree one black level short of [S n]: black of height [n], or red and one repainting away. *)
Definition short (n : nat) (t : tree) : Prop :=
  rb false n t \/ exists p l r cl cr, t = Node p true l r /\ rb cl n l /\ rb cr n r.

(** Where a round leaves the code: at a subtree that is still short, or done. *)
Definition fixed (s : rb_mem) (t0 : tree) (k : zipper) (c : bool) (n : nat) (res : outcome (rb_mem * Z * Z)) : Prop :=
  (exists s' t, res = Ret (s', ptr t, up k) /\ evolves s t0 s' (plug k t) /\ red_root t = c /\ short n t) \/
  (exists s' t, res = Ret (s', rb_root s', 0) /\ evolves s t0 s' t /\ rb_tree t).

(** The last steps for a left child: the sibling takes the parent's place. *)
Lemma take_left s k q cq t x SL y E F : whole s (plug k (Node q cq t (Node x false SL (Node y true E F)))) ->
  exists s', (forall X (K : rb_mem -> outcome X),
      (pred ← get_red s q; s ← set_red s x pred; s ← set_red s q 0; sr ← get_right s x;
       s ← if truth sr then set_red s sr 0 else Ret s; s ← rb_rotate_left s q; K s) = K s') /\
    evolves s (plug k (Node q cq t (Node x false SL (Node y true E F)))) s'
      (plug k (Node x cq (Node q false t SL) (Node y false E F))).
Proof.
  intros Hw. destruct (whole_node s k _ _ _ _ Hw) as [Hq Hmq].
  destruct (recolour_to s (MkFrame R q cq t :: k) x false SL (Node y true E F) cq (colour cq) Hw eq_refl) as (s1 & R1 & E1).
  destruct (recolour_to s1 k q cq t (Node x cq SL (Node y true E F)) false 0 (ev_whole _ _ _ _ E1) eq_refl) as (s2 & R2 & E2).
  pose proof (ev_whole _ _ _ _ E2) as Hw2. destruct (whole_node s2 (MkFrame R q false t :: k) _ _ _ _ Hw2) as [_ Hmx].
  destruct (whole_node s2 (MkFrame R x cq SL :: MkFrame R q false t :: k) _ _ _ _ Hw2) as [Hy _].
  destruct (recolour_to s2 (MkFrame R x cq SL :: MkFrame R q false t :: k) y true E F false 0 Hw2 eq_refl) as (s3 & R3 & E3).
  destruct (rotate_left_spec k q x false cq t SL (Node y false E F) s3 (ev_whole _ _ _ _ E3)) as (s4 & R4 & E4).
  exists s4. split.
  - intros X K. reads. rewrite R1. cbn. rewrite R2. cbn. reads. cbn [ptr]. rewrite truth_ne by done. rewrite R3. cbn.
    by rewrite R4.
  - eapply evolves_trans; [exact E1|]. eapply evolves_trans; [exact E2|]. by eapply evolves_trans.
Qed.

(** A red near nephew is rotated up first. *)
Lemma near_left s k q cq t x y E F SR : whole s (plug k (Node q cq t (Node x false (Node y true E F) SR))) ->
  exists s', (s ← if truth y then set_red s y 0 else Ret s; s ← set_red s x 1; s ← rb_rotate_right s x;
      sibling ← get_right s q; Ret (s, sibling)) = Ret (s', y) /\
    evolves s (plug k (Node q cq t (Node x false (Node y true E F) SR))) s'
      (plug k (Node q cq t (Node y false E (Node x true F SR)))).
Proof.
  intros Hw. destruct (whole_node s (MkFrame L x false SR :: MkFrame R q cq t :: k) _ _ _ _ Hw) as [Hy _].
  destruct (recolour_to s (MkFrame L x false SR :: MkFrame R q cq t :: k) y true E F false 0 Hw eq_refl) as (s1 & R1 & E1).
  destruct (recolour_to s1 (MkFrame R q cq t :: k) x false (Node y false E F) SR true 1 (ev_whole _ _ _ _ E1) eq_refl)
    as (s2 & R2 & E2).
  destruct (rotate_right_spec (MkFrame R q cq t :: k) y x false true E F SR s2 (ev_whole _ _ _ _ E2)) as (s3 & R3 & E3).
  destruct (whole_node s3 k _ _ _ _ (ev_whole _ _ _ _ E3)) as [_ Hmq].
  exists s3. split; [|eapply evolves_trans; [exact E1|]; by eapply evolves_trans].
  rewrite truth_ne, R1 by done. cbn. rewrite R2. cbn. rewrite R3. cbn. by reads.
Qed.

(** The same for a right child. *)
Lemma take_right s k q cq t x SR y E F : whole s (plug k (Node q cq (Node x false (Node y true E F) SR) t)) ->
  exists s', (forall X (K : rb_mem -> outcome X),
      (pred ← get_red s q; s ← set_red s x pred; s ← set_red s q 0; sl ← get_left s x;
       s ← if truth sl then set_red s sl 0 else Ret s; s ← rb_rotate_right s q; K s) = K s') /\
    evolves s (plug k (Node q cq (Node x false (Node y true E F) SR) t)) s'
      (plug k (Node x cq (Node y false E F) (Node q false SR t))).
Proof.
  intros Hw. destruct (whole_node s k _ _ _ _ Hw) as [Hq Hmq].
  destruct (recolour_to s (MkFrame L q cq t :: k) x false (Node y true E F) SR cq (colour cq) Hw eq_refl) as (s1 & R1 & E1).
  destruct (recolour_to s1 k q cq (Node x cq (Node y true E F) SR) t false 0 (ev_whole _ _ _ _ E1) eq_refl) as (s2 & R2 & E2).
  pose proof (ev_whole _ _ _ _ E2) as Hw2. destruct (whole_node s2 (MkFrame L q false t :: k) _ _ _ _ Hw2) as [_ Hmx].
  destruct (whole_node s2 (MkFrame L x cq SR :: MkFrame L q false t :: k) _ _ _ _ Hw2) as [Hy _].
  destruct (recolour_to s2 (MkFrame L x cq SR :: MkFrame L q false t :: k) y true E F false 0 Hw2 eq_refl) as (s3 & R3 & E3).
  destruct (rotate_right_spec k x q cq false (Node y false E F) SR t s3 (ev_whole _ _ _ _ E3)) as (s4 & R4 & E4).
  exists s4. split.
  - intros X K. reads. rewrite R1. cbn. rewrite R2. cbn. reads. cbn [ptr]. rewrite truth_ne by done. rewrite R3. cbn.
    by rewrite R4.
  - eapply evolves_trans; [exact E1|]. eapply evolves_trans; [exact E2|]. by eapply evolves_trans.
Qed.

Lemma near_right s k q cq t x y E F SL : whole s (plug k (Node q cq (Node x false SL (Node y true E F)) t)) ->
  exists s', (s ← if truth y then set_red s y 0 else Ret s; s ← set_red s x 1; s ← rb_rotate_left s x;
      sibling ← get_left s q; Ret (s, sibling)) = Ret (s', y) /\
    evolves s (plug k (Node q cq (Node x false SL (Node y true E F)) t)) s'
      (plug k (Node q cq (Node y false (Node x true SL E) F) t)).
Proof.
  intros Hw. destruct (whole_node s (MkFrame R x false SL :: MkFrame L q cq t :: k) _ _ _ _ Hw) as [Hy _].
  destruct (recolour_to s (MkFrame R x false SL :: MkFrame L q cq t :: k) y true E F false 0 Hw eq_refl) as (s1 & R1 & E1).
  destruct (recolour_to s1 (MkFrame L q cq t :: k) x false SL (Node y false E F) true 1 (ev_whole _ _ _ _ E1) eq_refl)
    as (s2 & R2 & E2).
  destruct (rotate_left_spec (MkFrame L q cq t :: k) x y true false SL E F s2 (ev_whole _ _ _ _ E2)) as (s3 & R3 & E3).
  destruct (whole_node s3 k _ _ _ _ (ev_whole _ _ _ _ E3)) as [_ Hmq].
  exists s3. split; [|eapply evolves_trans; [exact E1|]; by eapply evolves_trans].
  rewrite truth_ne, R1 by done. cbn. rewrite R2. cbn. rewrite R3. cbn. by reads.
Qed.

Section settle.
  Context (k : zipper) (cq : bool) (n : nat) (b : bool).
  Hypothesis (Hb : cq = true -> b = true).
  Hypothesis (Hk : allows b (if cq then S n else S (S n)) k).

(** The subtree that replaces the parent's when the round is the last. *)
Lemma settled A B p : rb false (S n) A -> rb false (S n) B -> rb_tree (plug k (Node p cq A B)).
Proof.
  intros HA HB. destruct (rb_plug k (Node p cq A B) b cq _ Hk) as [m ?]; [|done|by exists m].
  destruct cq; by econstructor.
Qed.
End settle.

Lemma climbed (cq : bool) n A B p : (exists ca cb, rb ca n A /\ rb cb n B) ->
  short (pred (if cq then S n else S (S n))) (Node p cq A B).
Proof. intros (ca & cb & HA & HB). destruct cq; cbn; [right; eauto 10|left; by econstructor]. Qed.
Lemma black_root t : match t with Leaf => true | Node _ c _ _ => negb c end = negb (red_root t).
Proof. by destruct t. Qed.

(** ** One round with a black sibling *)

Lemma red_root_node t : red_root t = true -> exists p l r, t = Node p true l r.
Proof. destruct t as [|p [] l r]; eauto; done. Qed.

Lemma rb_of_root c n t : rb c n t -> red_root t = false -> rb false n t.
Proof. intros Ht Hr. by rewrite (rb_red_root _ _ _ Ht) in Hr; subst. Qed.

Lemma settle_left_spec s k q cq t x SL SR n b cl cr : rb false n t -> (cq = true -> b = true) ->
  allows b (if cq then S n else S (S n)) k -> rb cl n SL -> rb cr n SR ->
  whole s (plug k (Node q cq t (Node x false SL SR))) ->
  fixed s (plug k (Node q cq t (Node x false SL SR))) k cq (pred (if cq then S n else S (S n))) (settle_left s q x).
Proof.
  intros Ht Hb Hk HL HR Hw. destruct (whole_node s (MkFrame R q cq t :: k) _ _ _ _ Hw) as [Hx Hmx].
  pose proof (is_black_spec s (MkFrame L x false SR :: MkFrame R q cq t :: k) SL Hw) as HbL.
  pose proof (is_black_spec s (MkFrame R x false SL :: MkFrame R q cq t :: k) SR Hw) as HbR.
  rewrite black_root in HbL, HbR.
  unfold settle_left. rewrite truth_ne by done. cbn [negb]. reads. rewrite HbL. run_bind. reads. rewrite HbR. run_bind.
  clear HbL HbR. destruct (red_root SR) eqn:ER; cbn [negb]; [|destruct (red_root SL) eqn:EL; cbn [negb andb]].
  - apply red_root_node in ER as (y & E & F & ->). rewrite andb_false_r. run_bind.
    destruct (take_left s k q cq t x SL y E F Hw) as (s' & HK & Ev). right. eexists s', _. rewrite HK.
    split; [done|]. split; [exact Ev|]. inversion HR; subst. apply (settled k cq n b Hb Hk); by econstructor.
  - apply red_root_node in EL as (y & E & F & ->). cbn [ptr].
    destruct (near_left s k q cq t x y E F SR Hw) as (s1 & -> & E1). run_bind.
    destruct (take_left s1 k q cq t y E x F SR (ev_whole _ _ _ _ E1)) as (s' & HK & Ev). right. eexists s', _. rewrite HK.
    split; [done|]. split; [by eapply evolves_trans|]. inversion HL; subst.
    apply (settled k cq n b Hb Hk); by econstructor.
  - destruct (recolour_to s (MkFrame R q cq t :: k) x false SL SR true 1 Hw eq_refl) as (s1 & -> & E1). run_bind.
    destruct (whole_node s1 k _ _ _ _ (ev_whole _ _ _ _ E1)) as [_ Hmq]. reads.
    left. exists s1, (Node q cq t (Node x true SL SR)). split; [done|]. split; [done|]. split; [done|].
    apply climbed. exists false, true. split; [done|]. constructor; by eapply rb_of_root.
Qed.

Lemma settle_right_spec s k q cq t x SL SR n b cl cr : rb false n t -> (cq = true -> b = true) ->
  allows b (if cq then S n else S (S n)) k -> rb cl n SL -> rb cr n SR ->
  whole s (plug k (Node q cq (Node x false SL SR) t)) ->
  fixed s (plug k (Node q cq (Node x false SL SR) t)) k cq (pred (if cq then S n else S (S n))) (settle_right s q x).
Proof.
  intros Ht Hb Hk HL HR Hw. destruct (whole_node s (MkFrame L q cq t :: k) _ _ _ _ Hw) as [Hx Hmx].
  pose proof (is_black_spec s (MkFrame L x false SR :: MkFrame L q cq t :: k) SL Hw) as HbL.
  pose proof (is_black_spec s (MkFrame R x false SL :: MkFrame L q cq t :: k) SR Hw) as HbR.
  rewrite black_root in HbL, HbR.
  unfold settle_right. rewrite truth_ne by done. cbn [negb]. reads. rewrite HbL. run_bind. reads. rewrite HbR. run_bind.
  clear HbL HbR. destruct (red_root SL) eqn:EL; cbn [negb andb]; [|destruct (red_root SR) eqn:ER; cbn [negb andb]].
  - apply red_root_node in EL as (y & E & F & ->). run_bind.
    destruct (take_right s k q cq t x SR y E F Hw) as (s' & HK & Ev). right. eexists s', _. rewrite HK.
    split; [done|]. split; [exact Ev|]. inversion HL; subst. apply (settled k cq n b Hb Hk); by econstructor.
  - apply red_root_node in ER as (y & E & F & ->). cbn [ptr].
    destruct (near_right s k q cq t x y E F SL Hw) as (s1 & -> & E1). run_bind.
    destruct (take_right s1 k q cq t y F x SL E (ev_whole _ _ _ _ E1)) as (s' & HK & Ev). right. eexists s', _. rewrite HK.
    split; [done|]. split; [by eapply evolves_trans|]. inversion HR; subst.
    apply (settled k cq n b Hb Hk); by econstructor.
  - destruct (recolour_to s (MkFrame L q cq t :: k) x false SL SR true 1 Hw eq_refl) as (s1 & -> & E1). run_bind.
    destruct (whole_node s1 k _ _ _ _ (ev_whole _ _ _ _ E1)) as [_ Hmq]. reads.
    left. exists s1, (Node q cq (Node x true SL SR) t). split; [done|]. split; [done|]. split; [done|].
    apply climbed. exists true, false. split; [|done]. constructor; by eapply rb_of_root.
Qed.

(** ** A whole round

    [t] is the short subtree, [S] its sibling; a red sibling adds one level to the context. *)
Lemma fixed_trans s0 t0 s t k c n res : evolves s0 t0 s t -> fixed s t k c n res -> fixed s0 t0 k c n res.
Proof.
  intros E [(s' & t' & -> & E' & H)|(s' & t' & -> & E' & H)]; [left|right]; eexists s', t';
    (split; [done|]; split; [by eapply evolves_trans|done]).
Qed.

(** The context is one level smaller, or what is left is red. *)
Definition round_fixed (s : rb_mem) (t0 : tree) (k : zipper) (res : outcome (rb_mem * Z * Z)) : Prop :=
  exists k' c n b, fixed s t0 k' c n res /\ allows b (S n) k' /\ (k' = k \/ c = true).

Lemma black_tall n t : rb false (S n) t -> exists p l r cl cr, t = Node p false l r /\ rb cl n l /\ rb cr n r.
Proof. inversion 1; subst. eauto 10. Qed.

Lemma fixup_left_spec s k q cq t o n b : rb false n t -> allows b (S n) (MkFrame L q cq o :: k) ->
  whole s (plug (MkFrame L q cq o :: k) t) ->
  round_fixed s (plug (MkFrame L q cq o :: k) t) k (fixup_left s q).
Proof.
  intros Ht Hk Hw. destruct (whole_node s k _ _ _ _ Hw) as [Hq Hmq].
  pose proof (is_red_spec s (MkFrame R q cq t :: k) o Hw) as Hr. fold (red_root o) in Hr.
  cbn [f_ptr f_red f_other f_side] in Hq, Hmq. unfold fixup_left. reads. rewrite Hr. run_bind.
  inversion Hk as [|? ? ? ? ? Hk' Ho|? b' co ? ? ? ? Hk' Ho]; subst.
  - destruct (black_tall _ _ Ho) as (x & SL & SR & cl & cr & -> & HL & HR). cbn [red_root].
    exists k, true, n, true. split; [|split; [done|by left]]. by eapply (settle_left_spec s k q true t x SL SR n true).
  - destruct co.
    + inversion Ho as [|? x SL SR HL HR|]; subst. cbn [red_root].
      destruct (black_tall _ _ HL) as (y & E & F & ce & cf & -> & HE & HF).
      destruct (lift_right k q x t (Node y false E F) SR s Hw) as (s1 & HK & E1). rewrite HK.
      destruct (whole_node s1 (MkFrame L x false SR :: k) _ _ _ _ (ev_whole _ _ _ _ E1)) as [_ Hmq1]. reads.
      assert (Hk1 : allows true (S n) (MkFrame L x false SR :: k)) by by econstructor.
      exists (MkFrame L x false SR :: k), true, n, true. split; [|split; [done|by right]].
      eapply fixed_trans; [exact E1|].
      by eapply (settle_left_spec s1 (MkFrame L x false SR :: k) q true t y E F n true); [..|apply E1].
    + destruct (black_tall _ _ Ho) as (x & SL & SR & cl & cr & -> & HL & HR). cbn [red_root].
      exists k, false, (S n), b'. split; [|split; [done|by left]].
      by eapply (settle_left_spec s k q false t x SL SR n b').
Qed.

Lemma fixup_right_spec s k q cq t o n b : rb false n t -> allows b (S n) (MkFrame R q cq o :: k) ->
  whole s (plug (MkFrame R q cq o :: k) t) ->
  round_fixed s (plug (MkFrame R q cq o :: k) t) k (fixup_right s q).
Proof.
  intros Ht Hk Hw. destruct (whole_node s k _ _ _ _ Hw) as [Hq Hmq].
  pose proof (is_red_spec s (MkFrame L q cq t :: k) o Hw) as Hr. fold (red_root o) in Hr.
  cbn [f_ptr f_red f_other f_side] in Hq, Hmq. unfold fixup_right. reads. rewrite Hr. run_bind.
  inversion Hk as [|? ? ? ? ? Hk' Ho|? b' co ? ? ? ? Hk' Ho]; subst.
  - destruct (black_tall _ _ Ho) as (x & SL & SR & cl & cr & -> & HL & HR). cbn [red_root].
    exists k, true, n, true. split; [|split; [done|by left]]. by eapply (settle_right_spec s k q true t x SL SR n true).
  - destruct co.
    + inversion Ho as [|? x SL SR HL HR|]; subst. cbn [red_root].
      destruct (black_tall _ _ HR) as (y & E & F & ce & cf & -> & HE & HF).
      destruct (lift_left k q x SL (Node y false E F) t s Hw) as (s1 & HK & E1). rewrite HK.
      destruct (whole_node s1 (MkFrame R x false SL :: k) _ _ _ _ (ev_whole _ _ _ _ E1)) as [_ Hmq1]. reads.
      assert (Hk1 : allows true (S n) (MkFrame R x false SL :: k)) by by econstructor.
      exists (MkFrame R x false SL :: k), true, n, true. split; [|split; [done|by right]].
      eapply fixed_trans; [exact E1|].
      by eapply (settle_right_spec s1 (MkFrame R x false SL :: k) q true t y E F n true); [..|apply E1].
    + destruct (black_tall _ _ Ho) as (x & SL & SR & cl & cr & -> & HL & HR). cbn [red_root].
      exists k, false, (S n), b'. split; [|split; [done|by left]].
      by eapply (settle_right_spec s k q false t x SL SR n b').
Qed.

(** ** The loop *)

Definition blacken (t : tree) : tree := match t with Leaf => Leaf | Node p _ l r => Node p false l r end.

Lemma blacken_black n t : rb false n t -> blacken t = t.
Proof. by inversion 1. Qed.

Lemma short_red n t : short n t -> red_root t = true -> rb false (S n) (blacken t).
Proof.
  intros [Ht|(p & l & r & cl & cr & -> & Hl & Hr)] Hc; [by rewrite (rb_red_root _ _ _ Ht) in Hc|]. by econstructor.
Qed.
Lemma short_black n t : short n t -> red_root t = false -> rb false n t.
Proof. intros [Ht|(p & l & r & cl & cr & -> & _)] Hc; done. Qed.
Lemma short_blacken n t : short n t -> exists m, rb false m (blacken t).
Proof.
  intros Ht. destruct (red_root t) eqn:E; [eauto using short_red|]. pose proof (short_black _ _ Ht E) as Hb.
  rewrite (blacken_black _ _ Hb). eauto.
Qed.

Lemma not_root s f k t : whole s (plug (f :: k) t) -> ptr t =? rb_root s = false.
Proof.
  intros Hw. apply Z.eqb_neq. intros He. pose proof Hw as (Hn & _ & _)%whole_plug. rewrite focus_nodup in Hn.
  destruct Hw as [_ Hroot Hrep]. assert (Hin : exists p, ptr (plug (f :: k) t) = p /\ p ∈ around (f :: k) /\ p <> 0).
  { clear -Hrep. revert f t Hrep; induction k as [|g k IH]; intros f t Hrep.
    - exists (f_ptr f). destruct f as [[] q c o]; cbn in *; set_solver.
    - destruct (IH g (fill f t) Hrep) as (p & Hp & Hin & H0). exists p. split; [done|]. split; [|done].
      rewrite around_cons. set_solver. }
  destruct Hin as (p & Hp & Hin & H0). rewrite Hroot, Hp in He. apply NoDup_app in Hn as (_ & Hd & _).
  apply (Hd p); [|done]. rewrite <-He. apply ptr_elem. congruence.
Qed.

(** The code's test for the side the short subtree is on. *)
Lemma which_side s f k t n b : whole s (plug (f :: k) t) -> rb false n t -> allows b (S n) (f :: k) ->
  exists pl, get_left s (f_ptr f) = Ret pl /\ (ptr t =? pl) = match f_side f with L => true | R => false end.
Proof.
  intros Hw Ht Hk. destruct f as [[] q c o]; cbn [f_side f_ptr]; destruct (whole_node s k _ _ _ _ Hw) as [Hq Hm]; cbn in Hm.
  - exists (ptr t). split; [by reads|]. apply Z.eqb_refl.
  - exists (ptr o). split; [by reads|]. apply Z.eqb_neq. destruct t as [|p c' l r]; cbn [ptr].
    + assert (Ho : exists co, rb co (S n) o) by (inversion Hk; subst; eauto). destruct Ho as [co Ho].
      destruct o as [|p co' l r]; [by inversion Ho|].
      destruct (whole_node s (MkFrame L q c Leaf :: k) _ _ _ _ Hw) as [Hp _]. cbn. congruence.
    + destruct (whole_node s (MkFrame R q c o :: k) _ _ _ _ Hw) as [Hp _].
      by apply (siblings_ne' s k q c o (Node p c' l r) Hw).
Qed.

Definition loop_done (s : rb_mem) (t0 : tree) (res : outcome (rb_mem * Z)) : Prop :=
  exists s' k t, res = Ret (s', ptr t) /\ evolves s t0 s' (plug k t) /\ rb_tree (plug k (blacken t)).

Lemma erase_loop_spec fuel s k t n b : short n t -> allows b (S n) k -> whole s (plug k t) ->
  (if red_root t then 0 < fuel else S (length k) < fuel)%nat ->
  loop_done s (plug k t) (erase_fixup_loop fuel s (ptr t) (up k)).
Proof.
  revert s k t n b; induction fuel as [|fuel IH]; intros s k t n b Ht Hk Hw Hf; [destruct (red_root t); lia|].
  cbn [erase_fixup_loop]. destruct k as [|f k].
  { destruct Hw as [Hn Hroot Hrep]. cbn [plug] in *. rewrite Hroot, Z.eqb_refl. exists s, [], t. split; [done|].
    split; [by apply evolves_refl|]. destruct (short_blacken _ _ Ht) as [m ?]. by exists m. }
  rewrite (not_root _ _ _ _ Hw), (is_black_spec _ _ _ Hw), black_root. run_bind.
  assert (Hup : truth (up (f :: k)) = true) by by erewrite up_truth by by apply whole_plug in Hw as (_ & Hk' & _).
  rewrite Hup, negb_involutive. destruct (red_root t) eqn:Er; cbn [orb negb].
  { exists s, (f :: k), t. split; [done|]. split; [by apply evolves_refl|].
    destruct (rb_plug (f :: k) (blacken t) b false (S n) Hk) as [m ?]; [by apply short_red|done|by exists m]. }
  apply short_black in Ht as Hrb; [|done]. cbn [up]. destruct (which_side _ _ _ _ _ _ Hw Hrb Hk) as (pl & -> & Hside).
  cbn [mbind outcome_bind]. rewrite Hside.
  assert (Hround : round_fixed s (plug (f :: k) t) k
    (if match f_side f with L => true | R => false end then fixup_left s (f_ptr f) else fixup_right s (f_ptr f))).
  { destruct f as [[] q c o]; [by eapply fixup_left_spec|by eapply fixup_right_spec]. }
  destruct Hround as (k' & c & n' & b' & [(s1 & t1 & -> & E1 & Hc & Ht1)|(s1 & t1 & -> & E1 & Ht1)] & Hk' & Hor);
    cbn [mbind outcome_bind length] in *.
  - edestruct (IH s1 k' t1 n' b') as (s2 & k2 & t2 & -> & E2 & HT); [done|done|apply E1| |].
    { rewrite Hc. destruct c; [lia|]. destruct Hor as [->|]; [lia|done]. }
    exists s2, k2, t2. split; [done|]. split; [by eapply evolves_trans|done].
  - destruct fuel as [|fuel]; [lia|]. cbn [erase_fixup_loop]. rewrite Z.eqb_refl.
    exists s1, [], t1. destruct (ev_whole _ _ _ _ E1) as [_ <- _]. split; [done|]. split; [done|].
    destruct Ht1 as [m Hm]. cbn. exists m. by rewrite (blacken_black _ _ Hm).
Qed.

Lemma erase_fixup_spec s k t n b : short n t -> allows b (S n) k -> whole s (plug k t) ->
  exists s' t', rb_erase_fixup s (ptr t) (up k) = Ret s' /\ evolves s (plug k t) s' t' /\ rb_tree t'.
Proof.
  intros Ht Hk Hw. unfold rb_erase_fixup.
  destruct (erase_loop_spec (rounds s) s k t n b Ht Hk Hw) as (s1 & k1 & t1 & -> & E1 & HT).
  { pose proof (zipper_rounds _ _ _ Hw). destruct (red_root t); lia. }
  cbn [mbind outcome_bind]. destruct t1 as [|p c l r]; cbn [ptr blacken] in *.
  - exists s1, (plug k1 Leaf). done.
  - destruct (whole_node _ _ _ _ _ _ (ev_whole _ _ _ _ E1)) as [Hp _]. rewrite truth_ne by done.
    destruct (recolour_to s1 k1 p c l r false 0 (ev_whole _ _ _ _ E1) eq_refl) as (s2 & -> & E2).
    exists s2, (plug k1 (Node p false l r)). split; [done|]. split; [by eapply evolves_trans|done].
Qed.
