(* ===== verification/RbTreeRemove.v ===== *)
(** * Red-black tree: removal and traversal

    [rb_erase] takes a node out of the represented tree and keeps it a
    red-black tree; [rb_first] and [rb_next] walk the elements in order. *)
From S2P Require Import Prelude RbTree RbTreeShape RbTreeInsert RbTreeErase.

(** ** Positions *)

Lemma plug_app k1 k2 t : plug (k1 ++ k2) t = plug k2 (plug k1 t).
Proof. revert t; induction k1 as [|f k1 IH]; intros t; cbn; auto. Qed.

Lemma before_app k1 k2 : before (k1 ++ k2) = before k2 ++ before k1.
Proof. induction k1 as [|f k1 IH]; cbn; [by rewrite app_nil_r|]. by rewrite IH, app_assoc. Qed.
Lemma after_app k1 k2 : after (k1 ++ k2) = after k1 ++ after k2.
Proof. induction k1 as [|f k1 IH]; cbn; [done|]. by rewrite IH, app_assoc. Qed.

Lemma find_position t p : p ∈ elems t -> exists k c l r, t = plug k (Node p c l r).
Proof.
  induction t as [|q c l IHl r IHr]; cbn; [set_solver|]. rewrite elem_of_app, elem_of_cons. intros [H|[->|H]].
  - destruct (IHl H) as (k & c' & l' & r' & ->). exists (k ++ [MkFrame L q c r]), c', l', r'. by rewrite plug_app.
  - by exists [], c, l, r.
  - destruct (IHr H) as (k & c' & l' & r' & ->). exists (k ++ [MkFrame R q c l]), c', l', r'. by rewrite plug_app.
Qed.

(** The first node of a subtree. *)
Lemma leftmost t : t <> Leaf -> exists k y c r, t = plug k (Node y c Leaf r) /\ Forall (fun f => f_side f = L) k.
Proof.
  induction t as [|p c l IHl r _]; [done|]. intros _. destruct l as [|q c' l' r']; [by exists [], p, c, r|].
  destruct IHl as (k & y & cy & ry & -> & Hk); [done|]. exists (k ++ [MkFrame L p c r]), y, cy, ry.
  rewrite plug_app. split; [done|]. apply Forall_app. split; [done|]. by repeat constructor.
Qed.

Lemma subtree_first_loop_spec fuel s k0 k y c r : whole s (plug k0 (plug k (Node y c Leaf r))) ->
  Forall (fun f => f_side f = L) k -> (length k < fuel)%nat ->
  subtree_first_loop fuel s (ptr (plug k (Node y c Leaf r))) = Ret y.
Proof.
  revert k0 k; induction fuel as [|fuel IH]; intros k0 k Hw Hk Hf; [lia|]. cbn [subtree_first_loop].
  destruct k as [|f k _] using rev_ind.
  - destruct (whole_node s k0 _ _ _ _ Hw) as [_ Hm]. cbn [plug ptr]. by reads.
  - apply Forall_app in Hk as [Hk [Hfl _]%Forall_cons]. rewrite plug_app in *. cbn [plug] in *. unfold fill in *.
    rewrite Hfl in *. destruct (whole_node s k0 _ _ _ _ Hw) as [_ Hm]. cbn [ptr]. reads. rewrite length_app in Hf. cbn in Hf.
    assert (Hw' : whole s (plug (MkFrame L (f_ptr f) (f_red f) (f_other f) :: k0) (plug k (Node y c Leaf r)))) by done.
    assert (Hne : ptr (plug k (Node y c Leaf r)) <> 0).
    { destruct (plug k (Node y c Leaf r)) as [|p' c' l' r'] eqn:E.
      - assert (Hel := elems_plug k (Node y c Leaf r)). rewrite E in Hel. cbn in Hel. by destruct (before k).
      - by destruct (whole_node s _ _ _ _ _ Hw') as [? _]. }
    rewrite truth_ne by done. apply (IH _ k Hw' Hk). lia.
Qed.

Lemma subtree_first_spec s k0 k y c r : whole s (plug k0 (plug k (Node y c Leaf r))) ->
  Forall (fun f => f_side f = L) k -> rb_subtree_first s (ptr (plug k (Node y c Leaf r))) = Ret y.
Proof.
  intros Hw Hk. eapply subtree_first_loop_spec; [done..|]. rewrite <-plug_app in Hw. pose proof (zipper_rounds _ _ _ Hw) as Hl.
  rewrite length_app in Hl. lia.
Qed.

(** ** Replacing a node *)

Definition replaced (s : rb_mem) (k : zipper) (t : tree) : rb_mem :=
  MkMem (reparent (rb_nodes (relink s k (ptr t))) t (up k)) (rb_root (relink s k (ptr t))).

Lemma replace_Ret s k old n t v : repk s k old -> old <> 0 -> old ∉ around k ->
  rb_nodes s !! old = Some n -> rb_parent n = up k -> rep (rb_nodes s) v t -> (forall q, q ∈ elems t -> q ∉ around k) ->
  rb_replace_node s old (ptr t) = Ret (replaced s k t).
Proof.
  intros Hk Hold Ha Hm Hp Ht Hd. unfold rb_replace_node. rewrite (get_parent_Ret _ _ _ Hm), Hp. cbn [mbind outcome_bind].
  rewrite (relink_left_Ret _ _ _ _ Hk Hold Ha). cbn [mbind outcome_bind].
  assert (Ht' : rep (rb_nodes (relink s k (ptr t))) v t).
  { eapply rep_frame; [|exact Ht]. intros q Hq. apply relink_other. auto. }
  erewrite get_parent_Ret by (rewrite relink_other by done; exact Hm). rewrite Hp. cbn [mbind outcome_bind].
  apply (reparent_Ret _ _ _ (up k) Ht').
Qed.

Lemma replaced_repk s k h t : repk s k h -> NoDup (around k) -> (forall q, q ∈ elems t -> q ∉ around k) ->
  repk (replaced s k t) k (ptr t).
Proof.
  intros Hk Hn Hd. eapply repk_frame; [| |apply (relink_repk s k h (ptr t) Hk Hn)]; [|done].
  intros q Hq. cbn. apply reparent_other. intros Hin. by apply (Hd q Hin).
Qed.

Lemma replaced_rep s k v t : rep (rb_nodes s) v t -> NoDup (elems t) -> (forall q, q ∈ elems t -> q ∉ around k) ->
  rep (rb_nodes (replaced s k t)) (up k) t.
Proof.
  intros Ht Hn Hd. apply (reparent_spec _ v); [|done]. eapply rep_frame; [|exact Ht]. intros q Hq. apply relink_other. auto.
Qed.

Lemma replaced_other s k t q : q ∉ elems t -> q ∉ around k -> rb_nodes (replaced s k t) !! q = rb_nodes s !! q.
Proof. intros H1 H2. cbn. rewrite reparent_other by done. by apply relink_other. Qed.

(** A node with one child, [t], is taken out. *)
Lemma splice_spec s k p c l r t : whole s (plug k (Node p c l r)) -> (l = Leaf /\ t = r) \/ (r = Leaf /\ t = l) ->
  rb_replace_node s p (ptr t) = Ret (replaced s k t) /\ whole (replaced s k t) (plug k t) /\
  p ∉ elems t /\ p ∉ around k.
Proof.
  intros Hw Ht. pose proof Hw as (Hn & Hk & Hp & Hm & Hl & Hr)%whole_plug. rewrite focus_nodup in Hn. cbn in Hn.
  assert (Hnd : NoDup (elems t ++ around k) /\ p ∉ elems t /\ p ∉ around k /\ rep (rb_nodes s) p t).
  { rewrite <-app_assoc in Hn. destruct Ht as [[-> ->]|[-> ->]]; cbn in Hn.
    - apply NoDup_cons in Hn. set_solver.
    - rewrite <-Permutation_middle in Hn. apply NoDup_cons in Hn. set_solver. }
  destruct Hnd as (Hnd & Hpt & Hpk & Hrt). pose proof Hnd as (Hnt & Hd & Hnk)%NoDup_app.
  split; [by eapply replace_Ret|]. split; [|done]. apply whole_plug. rewrite focus_nodup. split; [done|].
  split; [by eapply replaced_repk|by eapply replaced_rep].
Qed.

(** A node [y] outside the tree takes the place of [p], keeping its right subtree. *)
Lemma transplant s k p y c A B X n0 : NoDup (p :: y :: elems A ++ elems B ++ around k) -> p <> 0 -> y <> 0 ->
  repk s k p -> rb_nodes s !! p = Some (MkRb (up k) (ptr A) X (colour c)) -> ptr A <> 0 -> rep (rb_nodes s) p A ->
  rb_nodes s !! y = Some n0 -> rb_right n0 = ptr B -> rep (rb_nodes s) y B ->
  exists s', (forall X (K : rb_mem -> outcome X),
      (s ← rb_replace_node s p y; nl ← get_left s p; s ← set_left s y nl; rl ← get_left s y;
       s ← set_parent s rl y; red ← get_red s p; s ← set_red s y red; K s) = K s') /\
    whole s' (plug k (Node y c A B)) /\
    (forall q, q <> y -> q ∉ elems A -> q ∉ around k -> rb_nodes s' !! q = rb_nodes s !! q).
Proof.
  intros Hn Hp Hy Hk Hmp HA0 HA Hmy HyB HB. pose proof Hn as [_ Hny]%NoDup_cons. split_nodup Hn.
  assert (p <> y /\ p ∉ elems A /\ p ∉ around k /\ y ∉ elems A /\ y ∉ around k) as (? & ? & ? & ? & ?) by set_solver.
  assert (FA : forall q, q ∈ elems A -> y <> q /\ q ∉ around k) by set_solver.
  assert (FB : forall q, q ∈ elems B -> y <> q /\ q ∉ elems A /\ q ∉ around k) by set_solver.
  assert (FK : forall q, q ∈ around k -> y <> q /\ q ∉ elems A) by set_solver.
  set (s1 := MkMem (<[y := MkRb (up k) (rb_left n0) (ptr B) (rb_red n0)]> (rb_nodes (relink s k y))) (rb_root (relink s k y))).
  assert (R1 : rb_replace_node s p y = Ret s1).
  { unfold rb_replace_node. reads. rewrite (relink_left_Ret _ _ _ _ Hk Hp) by done. run_bind. rewrite truth_ne by done.
    erewrite get_parent_Ret by look. run_bind. erewrite set_parent_Ret by look. run_bind. by rewrite HyB. }
  apply (relink_repk _ _ _ y) in Hk; [|done].
  assert (HA1 : rep (<[y := MkRb (up k) (ptr A) (ptr B) (rb_red n0)]> (rb_nodes s1)) p A).
  { refine (rep_frame _ _ _ _ _ HA). unfold s1. outside FA. }
  destruct A as [|a ca la ra]; [done|]. set (A := Node a ca la ra) in *.
  exists (MkMem (<[y := MkRb (up k) (ptr A) (ptr B) (colour c)]>
    (reparent (<[y := MkRb (up k) (ptr A) (ptr B) (rb_red n0)]> (rb_nodes s1)) A y)) (rb_root s1)).
  split; [|split].
  - intros T K. rewrite R1. clear R1. subst s1. run_bind. erewrite get_left_Ret by look. run_bind. erewrite set_left_Ret by look. run_bind.
    erewrite get_left_Ret by look. run_bind.
    match goal with |- context [set_parent ?s2 _ _] => pose proof (reparent_Ret s2 p A y HA1) as HR end.
    rewrite truth_ne in HR by done. rewrite HR. run_bind.
    erewrite get_red_Ret by look. run_bind. erewrite set_red_Ret by look. run_bind. done.
  - apply whole_plug. split; [|split].
    + rewrite focus_nodup. cbn [elems]. by rewrite <-app_assoc, <-app_comm_cons, <-Permutation_middle.
    + refine (repk_frame _ _ _ _ _ _ Hk); [|done]. unfold s1. outside FK.
    + cbn [rep]. split; [done|]. split; [look|]. apply (reparent_spec _ _ _ y) in HA1; [|done]. split.
      * refine (rep_frame _ _ _ _ _ HA1). outside FA.
      * refine (rep_frame _ _ _ _ _ HB). unfold s1. outside FB.
  - intros q Hq HqA Hqk. assert (y <> q) by done. unfold s1. look.
Qed.

(** What [erase_two] leaves: the successor [y] in the place of [p], and the hole where [y] was. *)
Definition two_result (s : rb_mem) (k kb : zipper) (p y : Z) (c cy : bool) (A C : tree)
    (res : outcome (rb_mem * Z * Z * Z)) : Prop :=
  exists s', res = Ret (s', ptr C, up (kb ++ MkFrame R y c A :: k), colour cy) /\
    whole s' (plug (kb ++ MkFrame R y c A :: k) C) /\
    (forall q, q <> p -> q ∉ elems (plug k (Node p c A (plug kb (Node y cy Leaf C)))) -> rb_nodes s' !! q = rb_nodes s !! q) /\
    is_Some (rb_nodes s' !! p).

Lemma two_near s k p y c cy A C : ptr A <> 0 -> whole s (plug k (Node p c A (Node y cy Leaf C))) ->
  two_result s k [] p y c cy A C (erase_two s p).
Proof.
  intros HA0 Hw. pose proof Hw as (Hn & Hk & Hp & Hm & HA & Hy & Hmy & _ & HC)%whole_plug. rewrite focus_nodup in Hn.
  cbn in Hn. rewrite <-app_assoc in Hn. cbn in Hn.
  assert (Hn' : NoDup (p :: y :: elems A ++ elems C ++ around k)).
  { rewrite <-Permutation_middle in Hn. rewrite NoDup_cons in *. destruct Hn as [Hpn Hn].
    rewrite <-Permutation_middle in Hn. rewrite NoDup_cons in *. set_solver. }
  pose proof (subtree_first_spec s (MkFrame R p c A :: k) [] y cy C Hw (Forall_nil_2 _)) as Hfirst. cbn [plug ptr] in Hfirst, Hm.
  assert (FC : forall q, q ∈ elems C -> p <> q /\ y <> q /\ q ∉ elems A /\ q ∉ around k) by (split_nodup Hn'; set_solver).
  assert (HnC : p ∉ elems C /\ y ∉ elems C) by (split_nodup Hn'; set_solver). destruct HnC.
  assert (FAk : forall q, q ∈ elems A \/ q ∈ around k -> q ∉ elems C) by (split_nodup Hn'; set_solver).
  set (s1 := MkMem (reparent (rb_nodes s) C y) (rb_root s)).
  assert (HCn : NoDup (elems C)) by (split_nodup Hn'; done).
  destruct (transplant s1 k p y c A C y (MkRb p 0 (ptr C) (colour cy)) Hn' Hp Hy) as (s2 & HK & Hw2 & F2); try done.
  - refine (repk_frame _ _ _ _ _ _ Hk); [|done]. intros q Hq. apply reparent_other. auto.
  - cbn. by rewrite reparent_other.
  - refine (rep_frame _ _ _ _ _ HA). intros q Hq. apply reparent_other. auto.
  - cbn. by rewrite reparent_other.
  - by apply (reparent_spec _ y).
  - exists s2. split; [|split; [done|split]].
    + unfold erase_two. reads. rewrite Hfirst. run_bind. reads. rewrite Z.eqb_refl.
      rewrite (reparent_Ret s y C y HC). run_bind. fold s1. by rewrite HK.
    + intros q Hqp Hq. rewrite in_plug in Hq. cbn in Hq. rewrite F2 by set_solver. apply reparent_other. set_solver.
    + rewrite F2; [cbn; rewrite reparent_other by done; by eexists|..]; split_nodup Hn'; set_solver.
Qed.

Lemma elems_hole k t : elems (plug k t) ≡ₚ elems t ++ around k.
Proof. rewrite elems_plug. unfold around. rewrite !app_assoc. apply Permutation_app_tail, Permutation_app_comm. Qed.

Lemma around_app k1 k2 : around (k1 ++ k2) ≡ₚ around k1 ++ around k2.
Proof.
  induction k1 as [|f k1 IH]; [done|]. cbn [app]. rewrite !around_cons, IH. cbn. by rewrite <-app_assoc.
Qed.

Lemma plug_node f k t : exists p c l r, plug (f :: k) t = Node p c l r.
Proof.
  revert f t; induction k as [|g k IH]; intros f t; [destruct f as [[] q c o]; cbn; eauto 10|]. apply (IH g (fill f t)).
Qed.

(** The middle of the far case: [y] is out of the tree and takes over the right subtree. *)
Lemma adopt s k p y c A B n0 : whole s (plug k (Node p c A B)) -> B <> Leaf -> y ∉ elems (plug k (Node p c A B)) ->
  rb_nodes s !! y = Some n0 ->
  exists s', (forall X (K : rb_mem -> outcome X),
      (nr ← get_right s p; s ← set_right s y nr; rr ← get_right s y; s ← set_parent s rr y; K s) = K s') /\
    repk s' k p /\ rb_nodes s' !! p = Some (MkRb (up k) (ptr A) (ptr B) (colour c)) /\ rep (rb_nodes s') p A /\
    rep (rb_nodes s') y B /\ rb_nodes s' !! y = Some (MkRb (rb_parent n0) (rb_left n0) (ptr B) (rb_red n0)) /\
    (forall q, q <> y -> q ∉ elems B -> rb_nodes s' !! q = rb_nodes s !! q).
Proof.
  intros Hw HB Hy Hmy. pose proof Hw as (Hn & Hk & Hp & Hm & HA & HrB)%whole_plug. rewrite in_plug in Hy.
  rewrite focus_nodup in Hn. cbn in Hn, Hy. rewrite <-app_assoc in Hn. cbn in Hn. split_nodup Hn.
  assert (y <> p /\ y ∉ elems B /\ p ∉ elems B) as (? & ? & ?) by set_solver.
  assert (FA : forall q, q ∈ elems A -> y <> q /\ q ∉ elems B) by set_solver.
  assert (FB : forall q, q ∈ elems B -> y <> q) by set_solver.
  assert (FK : forall q, q ∈ around k -> y <> q /\ q ∉ elems B) by set_solver.
  set (m1 := <[y := MkRb (rb_parent n0) (rb_left n0) (ptr B) (rb_red n0)]> (rb_nodes s)).
  assert (HB1 : rep m1 p B). { refine (rep_frame _ _ _ _ _ HrB). unfold m1. outside FB. }
  exists (MkMem (reparent m1 B y) (rb_root s)). unfold m1 in *. split; [|split; [|split_and!]].
  - intros X K. reads. erewrite set_right_Ret by look. run_bind. erewrite get_right_Ret by look. run_bind.
    match goal with |- context [set_parent ?s2 _ _] => pose proof (reparent_Ret s2 p B y HB1) as HR end.
    rewrite (ptr_0 _ _ _ HB1) in HR. destruct B; [done|]. by rewrite HR.
  - refine (repk_frame _ _ _ _ _ _ Hk); [|done]. outside FK.
  - look.
  - refine (rep_frame _ _ _ _ _ HA). outside FA.
  - by apply (reparent_spec _ p).
  - look.
  - intros q Hq1 Hq2. assert (y <> q) by done. look.
Qed.

Lemma two_far s k f kb p y c cy A C : ptr A <> 0 -> Forall (fun f => f_side f = L) (f :: kb) ->
  whole s (plug k (Node p c A (plug (f :: kb) (Node y cy Leaf C)))) ->
  two_result s k (f :: kb) p y c cy A C (erase_two s p).
Proof.
  intros HA0 HL Hw. set (K := f :: kb) in *. set (K' := K ++ MkFrame R p c A :: k).
  assert (HwK : whole s (plug K' (Node y cy Leaf C))) by (unfold K'; by rewrite plug_app).
  destruct (whole_node s k _ _ _ _ Hw) as [Hp Hm]. destruct (whole_node s K' _ _ _ _ HwK) as [Hy Hmy].
  pose proof (subtree_first_spec s (MkFrame R p c A :: k) K y cy C Hw HL) as Hfirst.
  destruct (splice_spec s K' y cy Leaf C C HwK) as (R1 & Hw1 & HyC & HyK); [by left|].
  set (s1 := replaced s K' C) in *. assert (Hmy1 : rb_nodes s1 !! y = Some (MkRb (up K') 0 (ptr C) (colour cy))).
  { unfold s1. by rewrite replaced_other. }
  assert (Hw1' : whole s1 (plug k (Node p c A (plug K C)))) by (unfold K' in Hw1; by rewrite plug_app in Hw1).
  assert (HB0 : plug K C <> Leaf) by (destruct (plug_node f kb C) as (? & ? & ? & ? & E); unfold K; by rewrite E).
  assert (Hy1 : y ∉ elems (plug k (Node p c A (plug K C)))).
  { change (y ∉ elems (plug (MkFrame R p c A :: k) (plug K C))). rewrite <-plug_app. rewrite elems_hole. fold K'. set_solver. }
  destruct (adopt s1 k p y c A (plug K C) _ Hw1' HB0 Hy1 Hmy1) as (s2 & HK2 & Hk2 & Hmp2 & HA2 & HB2 & Hmy2 & F2).
  assert (Hn2 : NoDup (p :: y :: elems A ++ elems (plug K C) ++ around k)).
  { destruct Hw1' as [Hn _ _]. rewrite elems_hole in Hn, Hy1. cbn in Hn, Hy1. rewrite <-app_assoc in Hn, Hy1. cbn in Hn, Hy1.
    rewrite <-Permutation_middle in Hn, Hy1. apply NoDup_cons in Hn as [Hp1 Hn]. rewrite !NoDup_cons. set_solver. }
  destruct (transplant s2 k p y c A (plug K C) _ _ Hn2 Hp Hy Hk2 Hmp2 HA0 HA2 Hmy2 eq_refl HB2) as (s3 & HK3 & Hw3 & F3).
  assert (Hpk : f_ptr f <> p).
  { destruct Hw as [Hn _ _]. rewrite elems_hole in Hn. cbn [elems] in Hn. apply NoDup_app in Hn as (Hn & _).
    apply NoDup_app in Hn as (_ & _ & [Hn _]%NoDup_cons). rewrite elems_hole in Hn. unfold K in Hn. rewrite around_cons in Hn. set_solver. }
  exists s3. split; [|split; [by rewrite plug_app|split]].
  - unfold erase_two. reads. rewrite Hfirst. run_bind. reads. unfold K' at 1. cbn [app up K]. rewrite (proj2 (Z.eqb_neq _ _)) by done.
    reads. rewrite R1. run_bind. fold s1. rewrite HK2. run_bind. rewrite HK3. done.
  - intros q Hqp Hq. change (q ∉ elems (plug (MkFrame R p c A :: k) (plug K (Node y cy Leaf C)))) in Hq.
    rewrite <-plug_app, elems_hole in Hq. fold K' in Hq.
    apply not_elem_of_app in Hq as [[Hqy HqC]%not_elem_of_cons HqK].
    assert (Hparts := HqK). unfold K' in Hparts. rewrite around_app, around_cons in Hparts.
    apply not_elem_of_app in Hparts as [HqK2 [_ [HqA Hqk]%not_elem_of_app]%not_elem_of_cons].
    rewrite F3, F2; [by apply replaced_other|done| |done..]. rewrite elems_hole. by apply not_elem_of_app.
  - apply NoDup_cons in Hn2 as [Hn2 _]. apply not_elem_of_cons in Hn2 as [Hpy [HpA [_ Hpk']%not_elem_of_app]%not_elem_of_app].
    rewrite F3, Hmp2; [by eexists|done..].
Qed.

Lemma before_left k : Forall (fun f => f_side f = L) k -> before k = [].
Proof. induction 1 as [|f k Hf _ IH]; [done|]. cbn. by rewrite IH, Hf. Qed.

Lemma erase_two_spec s k p c A B : A <> Leaf -> B <> Leaf -> whole s (plug k (Node p c A B)) ->
  exists kb y cy C, B = plug kb (Node y cy Leaf C) /\ before kb = [] /\ two_result s k kb p y c cy A C (erase_two s p).
Proof.
  intros HA HB Hw. assert (HA0 : ptr A <> 0).
  { destruct A as [|a ca la ra]; [done|]. by destruct (whole_node s (MkFrame L p c B :: k) _ _ _ _ Hw). }
  destruct (leftmost B HB) as (kb & y & cy & C & -> & HL). exists kb, y, cy, C. split; [done|].
  split; [by apply before_left|]. destruct kb as [|f kb]; [by apply two_near|by apply two_far].
Qed.

(** ** Removal *)

Lemma allows_rename b m k1 d p y c o k2 :
  allows b m (k1 ++ MkFrame d p c o :: k2) -> allows b m (k1 ++ MkFrame d y c o :: k2).
Proof.
  revert b m; induction k1 as [|f k1 IH]; intros b m H; inversion H; subst; cbn; eauto with rbtree.
Qed.

Lemma short_of_rb c n t : rb c n t -> short n t.
Proof. intros H. destruct c; [|by left]. inversion H; subst. right. eauto 10. Qed.

(** The end of [rb_erase]: the hole is repaired when the node that left it was black. *)
Lemma erase_repair s k t b m cy y l r : whole s (plug k t) -> allows b m k -> rb cy m (Node y cy l r) ->
  (l = Leaf /\ t = r) \/ (r = Leaf /\ t = l) -> (cy = true -> b = true) ->
  exists s' t', (if negb (truth (colour cy)) then rb_erase_fixup s (ptr t) (up k) else Ret s) = Ret s' /\
    evolves s (plug k t) s' t' /\ rb_tree t'.
Proof.
  intros Hw Hk Hy Ht Hb. destruct cy; cbn [colour truth Z.eqb negb].
  - exists s, (plug k t). split; [done|]. split; [by apply evolves_refl|]. apply (rb_plug k t b false m Hk); [|done].
    inversion Hy as [|? ? ? ? Hl Hr|]; subst. by destruct Ht as [[_ ->]|[_ ->]].
  - inversion Hy as [| |n cl cr ? ? ? Hl Hr]; subst. assert (Hs : short n t).
    { destruct Ht as [[_ ->]|[_ ->]]; by eapply short_of_rb. }
    apply (erase_fixup_spec s k t n b Hs Hk Hw).
Qed.

(** [p] is gone from the tree, the order of the others is kept and nothing else is touched. *)
Record removed (s : rb_mem) (t : tree) (p : Z) (s' : rb_mem) (t' : tree) : Prop := {
  rm_whole : whole s' t';
  rm_rb : rb_tree t';
  rm_elems : exists l1 l2, elems t = l1 ++ p :: l2 /\ elems t' = l1 ++ l2;
  rm_node : rb_nodes s' !! p = Some (MkRb 0 0 0 1);
  rm_frame : forall q, q ∉ elems t -> rb_nodes s' !! q = rb_nodes s !! q }.

Lemma node_init_spec s t p : whole s t -> p ∉ elems t -> is_Some (rb_nodes s !! p) ->
  exists s', rb_node_init s p = Ret s' /\ whole s' t /\ rb_nodes s' !! p = Some (MkRb 0 0 0 1) /\
    forall q, q <> p -> rb_nodes s' !! q = rb_nodes s !! q.
Proof.
  intros [Hn Hr Ht] Hp [n Hm]. unfold rb_node_init. erewrite put_Ret by done. eexists. split; [done|]. cbn. split; [|split].
  - split; [done..|]. eapply rep_frame; [|done]. intros q Hq. cbn. rewrite lookup_insert_ne; [done|congruence].
  - apply lookup_insert_eq.
  - intros q Hq. by rewrite lookup_insert_ne.
Qed.

(** From the state after the node has left the tree to the end of [rb_erase]. *)
Lemma erase_finish s s1 t p k child b m cy y l r : whole s1 (plug k child) -> allows b m k -> rb cy m (Node y cy l r) ->
  (l = Leaf /\ child = r) \/ (r = Leaf /\ child = l) -> (cy = true -> b = true) ->
  (exists l1 l2, elems t = l1 ++ p :: l2 /\ elems (plug k child) = l1 ++ l2) -> NoDup (elems t) ->
  is_Some (rb_nodes s1 !! p) -> (forall q, q ∉ elems t -> rb_nodes s1 !! q = rb_nodes s !! q) ->
  exists s' t', (s ← if negb (truth (colour cy)) then rb_erase_fixup s1 (ptr child) (up k) else Ret s1;
      rb_node_init s p) = Ret s' /\ removed s t p s' t'.
Proof.
  intros Hw Hk Hy Hch Hb (l1 & l2 & Ht & Hc) Hn Hp Hf.
  destruct (erase_repair s1 k child b m cy y l r Hw Hk Hy Hch Hb) as (s2 & t2 & -> & [W2 E2 F2] & HT). cbn [mbind outcome_bind].
  assert (Hpn : p ∉ elems t2).
  { rewrite E2, Hc. rewrite Ht in Hn. rewrite <-Permutation_middle in Hn. by apply NoDup_cons in Hn as [? _]. }
  assert (Hin : forall q, q ∈ elems t2 -> q ∈ elems t) by (intros q; rewrite E2, Hc, Ht; set_solver).
  destruct (node_init_spec s2 t2 p W2 Hpn) as (s3 & -> & W3 & Hp3 & F3); [rewrite F2; [done|by rewrite <-E2]|].
  exists s3, t2. split; [done|]. split; try done.
  - exists l1, l2. by rewrite E2.
  - intros q Hq. assert (q <> p) by (intros ->; apply Hq; rewrite Ht; set_solver).
    rewrite F3, F2, Hf; [done..|rewrite <-E2; auto|done].
Qed.

Lemma erase_one s k p c l r child : whole s (plug k (Node p c l r)) -> rb_tree (plug k (Node p c l r)) ->
  (l = Leaf /\ child = r) \/ (r = Leaf /\ child = l) ->
  exists s' t', (s1 ← rb_replace_node s p (ptr child);
      s2 ← if negb (truth (colour c)) then rb_erase_fixup s1 (ptr child) (up k) else Ret s1; rb_node_init s2 p) = Ret s' /\
    removed s (plug k (Node p c l r)) p s' t'.
Proof.
  intros Hw [n0 Hrb] Hch. destruct (whole_node _ _ _ _ _ _ Hw) as [Hp Hm]. pose proof (wh_nodup _ _ Hw) as Hn.
  destruct (splice_spec s k p c l r child Hw Hch) as (-> & W1 & Hpc & Hpk). cbn [mbind outcome_bind].
  destruct (rb_unplug _ _ _ Hrb) as (b & c' & m & Hnode & Hk & Hb).
  assert (c' = c) as -> by (by rewrite <-(rb_red_root _ _ _ Hnode)).
  eapply erase_finish; try done.
  - rewrite !elems_plug. destruct Hch as [[-> ->]|[-> ->]]; cbn.
    + exists (before k), (elems r ++ after k). done.
    + exists (before k ++ elems l), (after k). by rewrite <-!app_assoc.
  - rewrite replaced_other by done. by eexists.
  - intros q Hq. rewrite in_plug in Hq. apply replaced_other; [|set_solver].
    destruct Hch as [[-> ->]|[-> ->]]; cbn in Hq; set_solver.
Qed.

Lemma erase_both s k p c A B : whole s (plug k (Node p c A B)) -> rb_tree (plug k (Node p c A B)) ->
  A <> Leaf -> B <> Leaf ->
  exists s' t', ('(s, child, child_parent, replacement_red) ← erase_two s p;
      s ← if negb (truth replacement_red) then rb_erase_fixup s child child_parent else Ret s; rb_node_init s p) = Ret s' /\
    removed s (plug k (Node p c A B)) p s' t'.
Proof.
  intros Hw [n0 Hrb] HA HB. pose proof (wh_nodup _ _ Hw) as Hn.
  destruct (erase_two_spec s k p c A B HA HB Hw) as (kb & y & cy & C & -> & Hkb & s1 & -> & W1 & F1 & Hp1).
  cbn [mbind outcome_bind].
  change (rb false n0 (plug (MkFrame R p c A :: k) (plug kb (Node y cy Leaf C)))) in Hrb. rewrite <-plug_app in Hrb.
  destruct (rb_unplug _ _ _ Hrb) as (b & c' & m & Hnode & Hk & Hb).
  assert (c' = cy) as -> by (by rewrite <-(rb_red_root _ _ _ Hnode)). apply (allows_rename _ _ _ _ _ y) in Hk.
  eapply erase_finish; try done; [by left| |].
  - rewrite !elems_plug. cbn. rewrite !elems_plug. cbn. rewrite Hkb, !before_app, !after_app, Hkb. cbn.
    exists (before k ++ elems A), (y :: elems C ++ after kb ++ after k). rewrite <-!app_assoc. cbn. rewrite ?app_nil_r.
    by rewrite <-!app_assoc.
  - intros q Hq. apply F1; [|done]. intros ->. apply Hq. rewrite in_plug. cbn. set_solver.
Qed.

Lemma erase_spec s t p : whole s t -> rb_tree t -> p ∈ elems t ->
  exists s' t', rb_erase s p = Ret s' /\ removed s t p s' t'.
Proof.
  intros Hw Hrb Hin. destruct (find_position t p Hin) as (k & c & l & r & ->).
  destruct (whole_node _ _ _ _ _ _ Hw) as [Hp Hm]. unfold rb_erase. reads.
  pose proof Hw as (_ & _ & _ & _ & Hl & Hr)%whole_plug.
  rewrite (ptr_0 _ _ _ Hl), (ptr_0 _ _ _ Hr).
  destruct l as [|pl cl ll rl]; cbn [negb].
  { destruct (erase_one s k p c Leaf r r Hw Hrb ltac:(by left)) as (s' & t' & E & HR). exists s', t'. split; [|done].
    rewrite <-E. by destruct (rb_replace_node s p (ptr r)). }
  destruct r as [|pr cr lr rr]; cbn [negb].
  { destruct (erase_one s k p c (Node pl cl ll rl) Leaf (Node pl cl ll rl) Hw Hrb ltac:(by right)) as (s' & t' & E & HR).
    exists s', t'. split; [|done]. rewrite <-E. by destruct (rb_replace_node s p _). }
  by apply erase_both.
Qed.
