(* ===== verification/RbTreeTheorems.v ===== *)
(** * What kernel/rbtree.c guarantees

    Insertion and removal keep a red-black tree and change its in-order
    sequence as intended; traversal follows that sequence; no loop needs more
    rounds than twice the logarithm of the number of nodes. *)
From S2P Require Import Prelude RbTree RbTreeShape RbTreeInsert RbTreeErase RbTreeRemove.

(** ** Traversal *)

Lemma first_spec s t : whole s t -> rb_first s = Ret (hd 0 (elems t)).
Proof.
  intros Hw. unfold rb_first. destruct Hw as [Hn Hroot Hrep] eqn:E. clear E. rewrite Hroot, (ptr_0 _ _ _ Hrep).
  destruct t as [|p c l r]; [done|]. destruct (leftmost (Node p c l r)) as (k & y & cy & ry & Ht & Hk); [done|].
  rewrite Ht in *. rewrite (subtree_first_spec s [] k y cy ry); [|by split|done].
  by rewrite elems_plug, before_left.
Qed.

Lemma next_loop_spec fuel s k t : whole s (plug k t) -> ptr t <> 0 -> (length k < fuel)%nat ->
  next_loop fuel s (ptr t) (up k) = Ret (hd 0 (after k)).
Proof.
  revert k t; induction fuel as [|fuel IH]; intros k t Hw Ht Hf; [lia|]. cbn [next_loop].
  destruct k as [|f k]; [done|]. assert (Hup : truth (up (f :: k)) = true).
  { by erewrite up_truth by by apply whole_plug in Hw as (_ & Hk & _). }
  rewrite Hup. cbn [negb up]. destruct f as [[] q c o]; cbn [f_ptr after f_side app];
    destruct (whole_node s k _ _ _ _ Hw) as [Hq Hm]; cbn [f_ptr f_red f_other] in Hq, Hm; reads.
  - by rewrite (proj2 (Z.eqb_neq _ _)) by by apply (siblings_ne s k q c t o).
  - rewrite Z.eqb_refl. reads. apply (IH k (Node q c o t)); [done..|]. cbn in Hf. lia.
Qed.

Lemma next_spec s k p c l r : whole s (plug k (Node p c l r)) -> rb_next s p = Ret (hd 0 (elems r ++ after k)).
Proof.
  intros Hw. destruct (whole_node _ _ _ _ _ _ Hw) as [Hp Hm]. unfold rb_next. reads.
  pose proof Hw as (_ & _ & _ & _ & _ & Hr)%whole_plug. rewrite (ptr_0 _ _ _ Hr). destruct r as [|pr cr lr rr].
  - reads. apply (next_loop_spec _ s k (Node p c l Leaf)); [done..|]. pose proof (zipper_rounds _ _ _ Hw). lia.
  - destruct (leftmost (Node pr cr lr rr)) as (k' & y & cy & ry & Ht & Hk); [done|]. rewrite Ht in *.
    rewrite (subtree_first_spec s (MkFrame R p c l :: k) k' y cy ry Hw Hk). by rewrite elems_plug, before_left.
Qed.

Lemma middle_unique (l1 l2 l1' l2' : list Z) p : NoDup (l1 ++ p :: l2) -> l1 ++ p :: l2 = l1' ++ p :: l2' -> l2 = l2'.
Proof.
  revert l1'; induction l1 as [|x l1 IH]; intros [|x' l1'] Hn He; cbn in *.
  - congruence.
  - injection He as -> ->. apply NoDup_cons in Hn as [Hn _]. set_solver.
  - injection He as -> <-. apply NoDup_cons in Hn as [Hn _]. set_solver.
  - injection He as -> He. apply NoDup_cons in Hn as [_ Hn]. eauto.
Qed.

(** ** Height *)

Fixpoint height (t : tree) : nat := match t with Leaf => 0 | Node _ _ l r => S (Nat.max (height l) (height r)) end.

Lemma rb_height c n t : rb c n t -> (height t <= 2 * n + (if c then 1 else 0))%nat.
Proof. induction 1; cbn [height]; repeat match goal with c : bool |- _ => destruct c end; lia. Qed.

Lemma rb_size c n t : rb c n t -> (2 ^ n <= S (length (elems t)))%nat.
Proof. induction 1; cbn -[Nat.pow]; rewrite ?length_app; cbn -[Nat.pow]; [done|lia|]. rewrite Nat.pow_succ_r'. lia. Qed.

Lemma rb_tree_height t : rb_tree t -> (height t <= 2 * Nat.log2 (S (length (elems t))))%nat.
Proof.
  intros [n Hn]. pose proof (rb_height _ _ _ Hn). pose proof (rb_size _ _ _ Hn) as Hs.
  apply Nat.log2_le_pow2 in Hs; [|lia]. cbn in *. lia.
Qed.

Lemma left_spine k y c r : Forall (fun f => f_side f = L) k -> (length k < height (plug k (Node y c Leaf r)))%nat.
Proof.
  assert (G : forall t, Forall (fun f => f_side f = L) k -> (length k + height t <= height (plug k t))%nat).
  { induction k as [|f k IH]; intros t Hk; [done|]. apply Forall_cons in Hk as [Hf Hk]. cbn [plug length].
    specialize (IH (fill f t) Hk). unfold fill in *. rewrite Hf in *. cbn [height] in IH. lia. }
  intros Hk. specialize (G (Node y c Leaf r) Hk). cbn [height] in G. lia.
Qed.

(** ** Theorems *)

(** A three-node tree and two nodes outside it. *)
Definition example_tree : tree := Node 20 false (Node 10 true Leaf Leaf) (Node 30 true Leaf Leaf).
Definition example_store : rb_mem :=
  MkMem (list_to_map [(10, MkRb 20 0 0 1); (20, MkRb 0 10 30 0); (30, MkRb 20 0 0 1); (40, MkRb 0 0 0 1); (50, MkRb 7 7 7 7)]) 20.

Lemma example_whole : whole example_store example_tree.
Proof. split; [by apply (bool_decide_unpack _); vm_compute|done|]. by cbn. Qed.
Lemma example_rb : rb_tree example_tree.
Proof. exists 1%nat. repeat econstructor. Qed.

(** Linking a new node at an empty place of a red-black tree and rebalancing gives a red-black tree whose
    in-order sequence has the node exactly at that place; only nodes of the tree and the new node are written. *)
Theorem rb_insert_correct s k p : whole s (plug k Leaf) -> rb_tree (plug k Leaf) -> is_Some (rb_nodes s !! p) ->
  p <> 0 -> p ∉ elems (plug k Leaf) ->
  exists s' t', (s ← rb_link_node s p (up k) (link_of k); rb_insert_color s p) = Ret s' /\
    whole s' t' /\ rb_tree t' /\ elems t' = before k ++ p :: after k /\
    forall q, q <> p -> q ∉ elems (plug k Leaf) -> rb_nodes s' !! q = rb_nodes s !! q.
Proof.
  intros Hw Hrb Hp Hp0 Hin. destruct (link_spec s k p Hw Hp Hp0 Hin) as (s1 & -> & W1 & F1). cbn [mbind outcome_bind].
  destruct (insert_color_spec s1 k p W1 Hrb) as (s2 & t2 & -> & [W2 E2 F2] & R2). exists s2, t2.
  rewrite elems_plug in E2. split_and!; try done. intros q Hq Hqt. rewrite F2, F1; [done..|].
  rewrite in_plug in *. cbn. set_solver.
Qed.

Lemma rb_insert_correct_witness :
  exists s' t', (s ← rb_link_node example_store 40 30 (AtRight 30); rb_insert_color s 40) = Ret s' /\
    whole s' t' /\ elems t' = [10; 20; 30; 40] /\ rb_nodes s' !! 50 = Some (MkRb 7 7 7 7).
Proof.
  pose (k := [MkFrame R 30 true Leaf; MkFrame R 20 false (Node 10 true Leaf Leaf)]).
  destruct (rb_insert_correct example_store k 40 example_whole example_rb) as (s' & t' & E & W & _ & El & F);
    [by eexists|done|by apply (bool_decide_unpack _); vm_compute|].
  exists s', t'. split; [exact E|]. split; [exact W|]. split; [exact El|].
  rewrite F; [reflexivity|done|by apply (bool_decide_unpack _); vm_compute].
Defined.

(** C3: erasing a node of a red-black tree gives a red-black tree with the node taken out of the in-order sequence
    and re-initialised; nodes outside the tree are not written. *)
Theorem rb_erase_correct s t p : whole s t -> rb_tree t -> p ∈ elems t ->
  exists s' t', rb_erase s p = Ret s' /\ whole s' t' /\ rb_tree t' /\
    (exists l1 l2, elems t = l1 ++ p :: l2 /\ elems t' = l1 ++ l2) /\
    rb_nodes s' !! p = Some (MkRb 0 0 0 1) /\ (forall q, q ∉ elems t -> rb_nodes s' !! q = rb_nodes s !! q).
Proof.
  intros Hw Hrb Hp. destruct (erase_spec s t p Hw Hrb Hp) as (s' & t' & E & [W R El N F]). by exists s', t'.
Qed.

Lemma rb_erase_correct_witness :
  exists s' t', rb_erase example_store 20 = Ret s' /\ whole s' t' /\ rb_tree t' /\ rb_root s' = 30.
Proof.
  destruct (rb_erase_correct example_store example_tree 20 example_whole example_rb) as (s' & t' & E & W & R & _).
  { by apply (bool_decide_unpack _); vm_compute. }
  exists s', t'. split; [exact E|]. split; [exact W|]. split; [exact R|]. vm_compute in E. injection E as <-. reflexivity.
Defined.

(** [rb_first] returns the first node of the in-order sequence and [rb_next] the one after its argument, null
    at the end. *)
Theorem rb_traversal_correct s t : whole s t ->
  rb_first s = Ret (hd 0 (elems t)) /\
  forall l1 p l2, elems t = l1 ++ p :: l2 -> rb_next s p = Ret (hd 0 l2).
Proof.
  intros Hw. split; [by apply first_spec|]. intros l1 p l2 He.
  destruct (find_position t p) as (k & c & l & r & ->); [rewrite He; set_solver|]. rewrite (next_spec s k p c l r Hw).
  pose proof (wh_nodup _ _ Hw) as Hn. rewrite elems_plug in *. cbn in *. rewrite <-app_assoc in *. cbn in *.
  rewrite app_assoc in Hn, He. by rewrite (middle_unique _ _ _ _ _ Hn He).
Qed.

Lemma rb_traversal_correct_witness :
  rb_first example_store = Ret 10 /\ rb_next example_store 10 = Ret 20 /\ rb_next example_store 30 = Ret 0.
Proof.
  destruct (rb_traversal_correct example_store example_tree example_whole) as [H1 H2].
  split; [exact H1|]. split; [exact (H2 [] 10 [20; 30] eq_refl)|exact (H2 [10; 20] 30 [] eq_refl)].
Defined.

(** In a red-black tree of [n] nodes the descent to the first node takes at most [2 * log2 (n + 1)] rounds. *)
Theorem rb_first_rounds s t fuel : whole s t -> rb_tree t -> t <> Leaf ->
  (2 * Nat.log2 (S (length (elems t))) <= fuel)%nat ->
  subtree_first_loop fuel s (rb_root s) = Ret (hd 0 (elems t)).
Proof.
  intros Hw Hrb Ht Hf. pose proof (rb_tree_height t Hrb). rewrite (wh_root _ _ Hw).
  destruct (leftmost t Ht) as (k & y & cy & ry & -> & Hk). pose proof (left_spine k y cy ry Hk).
  rewrite (subtree_first_loop_spec fuel s [] k y cy ry); [|done..|lia]. by rewrite elems_plug, before_left.
Qed.

Lemma rb_first_rounds_witness : subtree_first_loop 4 example_store 20 = Ret 10.
Proof. exact (rb_first_rounds example_store example_tree 4 example_whole example_rb ltac:(done) ltac:(vm_compute; lia)). Defined.
