(* ===== verification/Timeline.v ===== *)
(** * The timeline of the run queue

    What the scheduler asks of the ordered structure that holds the runnable
    threads, as an interface with laws, and the red-black tree of
    kernel/rbtree.c with the search loop of [enqueue_entity_locked]
    (kernel/scheduler.c) as its implementation.  A node is named by the thread
    it is embedded in, so [rb_entry] and [&thread->sched.run_node] are the
    identity. *)
From S2P Require Import Prelude RbTree RbTreeShape RbTreeInsert RbTreeErase RbTreeRemove RbTreeTheorems.

Class Timeline (T : Type) := {
  tl_init : T -> T;
  tl_node_init : T -> Z -> outcome T;
  (** [tl_insert before s p]: [before q] tells whether [p] goes before [q] *)
  tl_insert : (Z -> outcome bool) -> T -> Z -> outcome T;
  tl_erase : T -> Z -> outcome T;
  tl_first : T -> outcome Z }.

(** [tl_alloc D s]: the nodes of [D] are allocated; [tl_ok D s l]: moreover [s] holds the sequence [l]. *)
Class TimelineLaws (T : Type) {HT : Timeline T} := {
  tl_alloc : gset Z -> T -> Prop;
  tl_ok : gset Z -> T -> list Z -> Prop;
  tl_init_ok D s : tl_alloc D s -> tl_ok D (tl_init s) [];
  tl_ok_nodup D s l : tl_ok D s l -> NoDup l;
  tl_ok_nonnull D s l p : tl_ok D s l -> p ∈ l -> p <> 0;
  tl_node_init_ok D s l p : tl_ok D s l -> p ∈ D -> p ∉ l -> exists s', tl_node_init s p = Ret s' /\ tl_ok D s' l;
  tl_first_ok D s l : tl_ok D s l -> tl_first s = Ret (hd 0 l);
  tl_erase_ok D s l1 p l2 : tl_ok D s (l1 ++ p :: l2) -> exists s', tl_erase s p = Ret s' /\ tl_ok D s' (l1 ++ l2);
  tl_insert_ok D s l1 l2 p before : tl_ok D s (l1 ++ l2) -> p ∈ D -> p <> 0 -> p ∉ l1 ++ l2 ->
    (forall q, q ∈ l1 -> before q = Ret false) -> (forall q, q ∈ l2 -> before q = Ret true) ->
    exists s', tl_insert before s p = Ret s' /\ tl_ok D s' (l1 ++ p :: l2) }.

(** ** The red-black tree as a timeline *)

(** [*link] *)
Definition load_link (s : rb_mem) (link : rb_link) : outcome Z :=
  match link with AtRoot => Ret (rb_root s) | AtLeft p => get_left s p | AtRight p => get_right s p end.

Fixpoint find_link (fuel : nat) (before : Z -> outcome bool) (s : rb_mem) (parent : Z) (link : rb_link)
  : outcome (Z * rb_link) :=
  match fuel with
  | O => Fault
  | S fuel =>
      node ← load_link s link;
      if negb (truth node) then Ret (parent, link) else
      b ← before node;
      find_link fuel before s node (if b : bool then AtLeft node else AtRight node)
  end.

Definition timeline_insert (before : Z -> outcome bool) (s : rb_mem) (p : Z) : outcome rb_mem :=
  '(parent, link) ← find_link (rounds s) before s 0 AtRoot;
  s ← rb_link_node s p parent link;
  rb_insert_color s p.

#[export] Instance rb_timeline : Timeline rb_mem := {|
  tl_init := rb_root_init;
  tl_node_init := rb_node_init;
  tl_insert := timeline_insert;
  tl_erase := rb_erase;
  tl_first := rb_first |}.

(** ** The search *)

Lemma load_link_spec s k t : whole s (plug k t) -> load_link s (link_of k) = Ret (ptr t).
Proof.
  intros Hw. destruct k as [|[[] q c o] k].
  - cbn. by rewrite (wh_root _ _ Hw).
  - destruct (whole_node s k _ _ _ _ Hw) as [_ Hm]. cbn in *. by reads.
  - destruct (whole_node s k _ _ _ _ Hw) as [_ Hm]. cbn in *. by reads.
Qed.

(** Two lists that answer [false] and then [true] are split at the same place. *)
Lemma split_unique (before : Z -> outcome bool) l1 l2 A B :
  (forall q, q ∈ l1 -> before q = Ret false) -> (forall q, q ∈ l2 -> before q = Ret true) ->
  l1 ++ l2 = A ++ B ->
  (forall q, q ∈ A -> before q = Ret false) -> (forall q, q ∈ B -> before q = Ret true) -> A = l1 /\ B = l2.
Proof.
  intros F1 T2. revert l1 F1; induction A as [|a A IH]; intros [|x l1] F1 He FA TB; cbn in *.
  - by rewrite He.
  - exfalso. assert (Hx : x ∈ B) by (rewrite <-He; set_solver). specialize (F1 x ltac:(set_solver)).
    specialize (TB x Hx). congruence.
  - exfalso. assert (Ha : a ∈ l2) by (rewrite He; set_solver). specialize (T2 a Ha).
    specialize (FA a ltac:(set_solver)). congruence.
  - injection He as -> He. destruct (IH l1) as [-> ->]; try done; set_solver.
Qed.

Lemma cut_before (before : Z -> outcome bool) l1 l2 A q B :
  (forall q, q ∈ l1 -> before q = Ret false) -> (forall q, q ∈ l2 -> before q = Ret true) ->
  l1 ++ l2 = A ++ q :: B -> before q = Ret false -> forall x, x ∈ A -> before x = Ret false.
Proof.
  intros F1 T2. revert l1 F1; induction A as [|a A IH]; intros [|y l1] F1 He Hq x Hx; cbn in *; [set_solver..| |].
  - rewrite T2 in Hq; [done|]. rewrite He. set_solver.
  - injection He as -> He. apply elem_of_cons in Hx as [->|Hx]; [apply F1; set_solver|].
    apply (IH l1); [|done..]. intros z Hz. apply F1. set_solver.
Qed.

Lemma cut_after (before : Z -> outcome bool) l1 l2 A q B :
  (forall q, q ∈ l1 -> before q = Ret false) -> (forall q, q ∈ l2 -> before q = Ret true) ->
  l1 ++ l2 = A ++ q :: B -> before q = Ret true -> forall x, x ∈ B -> before x = Ret true.
Proof.
  intros F1 T2. revert l1 F1; induction A as [|a A IH]; intros [|y l1] F1 He Hq x Hx; cbn in *.
  - apply T2. rewrite He. set_solver.
  - injection He as -> He. rewrite F1 in Hq; [done|set_solver].
  - apply T2. rewrite He. set_solver.
  - injection He as -> He. apply (IH l1); [|done..]. intros z Hz. apply F1. set_solver.
Qed.

Lemma height_length t : (height t <= length (elems t))%nat.
Proof. induction t; cbn [height elems]; rewrite ?length_app; cbn [length]; lia. Qed.

Section search.
  Context (s : rb_mem) (before : Z -> outcome bool) (l1 l2 : list Z).
  Hypotheses (F1 : forall q, q ∈ l1 -> before q = Ret false) (T2 : forall q, q ∈ l2 -> before q = Ret true).

Lemma find_link_spec t : forall fuel k, whole s (plug k t) -> (height t < fuel)%nat ->
  l1 ++ l2 = RbTreeShape.before k ++ elems t ++ after k ->
  (forall q, q ∈ RbTreeShape.before k -> before q = Ret false) -> (forall q, q ∈ after k -> before q = Ret true) ->
  exists k', find_link fuel before s (up k) (link_of k) = Ret (up k', link_of k') /\ plug k' Leaf = plug k t /\
    RbTreeShape.before k' = l1 /\ after k' = l2.
Proof.
  induction t as [|p c l IHl r IHr]; intros [|fuel] k Hw Hf He FK TK; [cbn in Hf; lia| |cbn in Hf; lia|];
    cbn [find_link]; rewrite (load_link_spec s k _ Hw); cbn [mbind outcome_bind ptr].
  { exists k. split; [done|]. split; [done|]. by apply (split_unique before l1 l2). }
  destruct (whole_node s k _ _ _ _ Hw) as [Hp _]. rewrite truth_ne by done. cbn [negb height elems] in *.
  assert (Hpin : p ∈ l1 \/ p ∈ l2) by (apply elem_of_app; rewrite He; set_solver).
  rewrite <-app_assoc in He. cbn in He. destruct Hpin as [Hin|Hin].
  - pose proof (F1 p Hin) as Hb. rewrite Hb. cbn [mbind outcome_bind].
    destruct (IHr fuel (MkFrame R p c l :: k)) as (k' & Hrun & HT & HB & HA); [done|lia| | |done|by exists k'].
    + cbn. rewrite He, <-!app_assoc. done.
    + cbn. intros q. rewrite !elem_of_app, list_elem_of_singleton. intros [Hq|[Hq| ->]]; [by apply FK| |done].
      rewrite app_assoc in He. eapply (cut_before before l1 l2 _ p); [done..|]. set_solver.
  - pose proof (T2 p Hin) as Hb. rewrite Hb. cbn [mbind outcome_bind].
    destruct (IHl fuel (MkFrame L p c r :: k)) as (k' & Hrun & HT & HB & HA); [done|lia| | | |by exists k'].
    + cbn. by rewrite He, app_nil_r.
    + cbn. rewrite app_nil_r. done.
    + cbn. intros q. rewrite elem_of_cons, elem_of_app. intros [->|[Hq|Hq]]; [done| |by apply TK].
      rewrite app_assoc in He. eapply (cut_after before l1 l2 _ p); [done..|]. set_solver.
Qed.
End search.

(** ** The laws *)

Definition rb_ok (D : gset Z) (s : rb_mem) (l : list Z) : Prop :=
  exists t, whole s t /\ rb_tree t /\ elems t = l /\ forall p, p ∈ D -> is_Some (rb_nodes s !! p).

Lemma kept_alloc s s' t' (D : gset Z) : (forall p, p ∈ D -> is_Some (rb_nodes s !! p)) -> whole s' t' ->
  (forall q, q ∈ D -> q ∉ elems t' -> rb_nodes s' !! q = rb_nodes s !! q \/ is_Some (rb_nodes s' !! q)) ->
  forall p, p ∈ D -> is_Some (rb_nodes s' !! p).
Proof.
  intros HD [_ _ Hr] HF p Hp. destruct (decide (p ∈ elems t')) as [Hin|Hin]; [by eapply rep_dom|].
  destruct (HF p Hp Hin) as [->|]; auto.
Qed.

Lemma rb_erase_ok D s l1 p l2 : rb_ok D s (l1 ++ p :: l2) -> exists s', rb_erase s p = Ret s' /\ rb_ok D s' (l1 ++ l2).
Proof.
  intros (t & Hw & Hrb & He & HD). destruct (erase_spec s t p Hw Hrb) as (s' & t' & E & [W R (a & b & Ha & Hb) N F]).
  { rewrite He. set_solver. }
  exists s'. split; [done|]. exists t'. split; [done|]. split; [done|]. split.
  - rewrite Hb. rewrite He in Ha. pose proof (wh_nodup _ _ Hw) as Hn. rewrite He in Hn.
    pose proof (middle_unique _ _ _ _ _ Hn Ha) as ->. apply app_inv_tail in Ha as ->. done.
  - eapply kept_alloc; [exact HD|exact W|]. intros q Hq Hqt. destruct (decide (q = p)) as [->|Hqp]; [right; by rewrite N|].
    left. apply F. rewrite Ha. rewrite Hb in Hqt. set_solver.
Qed.

Lemma timeline_insert_ok D s l1 l2 p before : rb_ok D s (l1 ++ l2) -> p ∈ D -> p <> 0 -> p ∉ l1 ++ l2 ->
  (forall q, q ∈ l1 -> before q = Ret false) -> (forall q, q ∈ l2 -> before q = Ret true) ->
  exists s', timeline_insert before s p = Ret s' /\ rb_ok D s' (l1 ++ p :: l2).
Proof.
  intros (t & Hw & Hrb & He & HD) HpD Hp0 Hpn F1 T2. unfold timeline_insert.
  destruct (find_link_spec s before l1 l2 F1 T2 t (rounds s) []) as (k & Hrun & HT & HB & HA); [done| | |set_solver..|].
  { pose proof (height_length t). pose proof (elems_size _ _ Hw). unfold rounds. lia. }
  { cbn. by rewrite app_nil_r. }
  cbn [up link_of] in Hrun. rewrite Hrun. cbn [mbind outcome_bind plug] in *. rewrite <-HT in *.
  destruct (link_spec s k p Hw) as (s1 & -> & W1 & F1'); [by apply HD|done|by rewrite He|]. cbn [mbind outcome_bind].
  destruct (insert_color_spec s1 k p W1 Hrb) as (s2 & t2 & -> & [W2 E2 F2] & R2). exists s2. split; [done|].
  exists t2. split; [done|]. split; [done|]. split; [by rewrite E2, elems_plug, HB, HA|].
  eapply kept_alloc; [exact HD|exact W2|]. intros q Hq Hqt. left. rewrite E2 in Hqt. rewrite F2 by done.
  rewrite in_plug in Hqt. cbn in Hqt. apply F1'; [set_solver|]. rewrite in_plug. set_solver.
Qed.

Lemma rb_node_init_ok D s l p : rb_ok D s l -> p ∈ D -> p ∉ l -> exists s', rb_node_init s p = Ret s' /\ rb_ok D s' l.
Proof.
  intros (t & Hw & Hrb & <- & HD) HpD Hpn. destruct (node_init_spec s t p Hw Hpn (HD p HpD)) as (s' & E & W & N & F).
  exists s'. split; [done|]. exists t. split_and!; try done. intros q Hq.
  destruct (decide (q = p)) as [->|Hqp]; [by rewrite N|]. rewrite F by done. auto.
Qed.

Lemma rb_root_init_ok (D : gset Z) s : (forall p, p ∈ D -> is_Some (rb_nodes s !! p)) -> rb_ok D (rb_root_init s) [].
Proof. intros HD. exists Leaf. split; [split; [constructor|done|done]|]. split; [exists 0%nat; constructor|]. by split. Qed.

#[export] Instance rb_timeline_laws : TimelineLaws rb_mem.
Proof.
  refine {| tl_alloc := fun D s => forall p, p ∈ D -> is_Some (rb_nodes s !! p); tl_ok := rb_ok |}.
  - exact rb_root_init_ok.
  - intros D s l (t & Hw & _ & <- & _). apply Hw.
  - intros D s l p (t & Hw & _ & <- & _) Hp. destruct (find_position t p Hp) as (k & c & a & b & ->).
    by destruct (whole_node s k _ _ _ _ Hw).
  - exact rb_node_init_ok.
  - intros D s l (t & Hw & _ & <- & _). by apply first_spec.
  - exact rb_erase_ok.
  - exact timeline_insert_ok.
Defined.
