(* ===== verification/Scheduler.v ===== *)
(** * The scheduler: the code

    kernel/scheduler.c with the thread and CPU fields it uses
    (kernel/include/thread.h, kernel/include/scheduler.h), over any [Timeline].
    A section under [runqueue.lock] is one step.  [me] is the logical id of the
    CPU that runs the code and [now] what [ktime_get_ns] returned; a thread
    pointer is a [Z] with 0 for null.  The owner of [thread->lock] is part of
    the thread; taking a lock another CPU holds is [Fault], since the step has
    to wait until it is free. *)
From S2P Require Import Prelude Timeline.

Inductive thread_state :=
| THREAD_UNUSED | THREAD_ALLOCATED | THREAD_RUNNABLE | THREAD_RUNNING | THREAD_SLEEPING | THREAD_EXITED.
#[global] Instance thread_state_eq_dec : EqDecision thread_state.
Proof. solve_decision. Defined.

Record sched_entity := MkEntity {
  vruntime : Z; exec_start : Z; sum_exec_runtime : Z; user_runtime : Z; system_runtime : Z; mode_start : Z;
  slice_ns : Z; weight : Z; nice : Z; initialized : bool; on_runqueue : bool; user_mode : bool }.

Record thread := MkThread {
  tid : Z; id_p : Z; trapframe : Z; state : thread_state; home : Z; kernel_thread : bool; process_reaper : Z;
  lock_owner : option nat; sched_of : sched_entity }.

Record cpu := MkCpu {
  current : Z; selected : Z; online : bool; idle : bool; need_resched : bool; idle_since_ns : Z; idle_time_ns : Z }.

Record runqueue (T : Type) := MkRq {
  threads : gmap Z thread; timeline : T; total_weight : Z; min_vruntime : Z; count : Z; cpus : list cpu;
  context_switches : Z }.
Arguments MkRq {T}.
Arguments threads {T}.
Arguments timeline {T}.
Arguments total_weight {T}.
Arguments min_vruntime {T}.
Arguments count {T}.
Arguments cpus {T}.
Arguments context_switches {T}.

(** ** Field updates *)

Definition with_vruntime (e : sched_entity) (v : Z) : sched_entity :=
  MkEntity v (exec_start e) (sum_exec_runtime e) (user_runtime e) (system_runtime e) (mode_start e) (slice_ns e)
    (weight e) (nice e) (initialized e) (on_runqueue e) (user_mode e).
Definition with_exec_start (e : sched_entity) (v : Z) : sched_entity :=
  MkEntity (vruntime e) v (sum_exec_runtime e) (user_runtime e) (system_runtime e) (mode_start e) (slice_ns e)
    (weight e) (nice e) (initialized e) (on_runqueue e) (user_mode e).
Definition with_sum_exec (e : sched_entity) (v : Z) : sched_entity :=
  MkEntity (vruntime e) (exec_start e) v (user_runtime e) (system_runtime e) (mode_start e) (slice_ns e)
    (weight e) (nice e) (initialized e) (on_runqueue e) (user_mode e).
Definition with_mode (e : sched_entity) (user system start : Z) : sched_entity :=
  MkEntity (vruntime e) (exec_start e) (sum_exec_runtime e) user system start (slice_ns e)
    (weight e) (nice e) (initialized e) (on_runqueue e) (user_mode e).
Definition with_slice (e : sched_entity) (v : Z) : sched_entity :=
  MkEntity (vruntime e) (exec_start e) (sum_exec_runtime e) (user_runtime e) (system_runtime e) (mode_start e) v
    (weight e) (nice e) (initialized e) (on_runqueue e) (user_mode e).
Definition with_nice (e : sched_entity) (n w : Z) : sched_entity :=
  MkEntity (vruntime e) (exec_start e) (sum_exec_runtime e) (user_runtime e) (system_runtime e) (mode_start e)
    (slice_ns e) w n (initialized e) (on_runqueue e) (user_mode e).
Definition with_initialized (e : sched_entity) (b : bool) : sched_entity :=
  MkEntity (vruntime e) (exec_start e) (sum_exec_runtime e) (user_runtime e) (system_runtime e) (mode_start e)
    (slice_ns e) (weight e) (nice e) b (on_runqueue e) (user_mode e).
Definition with_queued (e : sched_entity) (b : bool) : sched_entity :=
  MkEntity (vruntime e) (exec_start e) (sum_exec_runtime e) (user_runtime e) (system_runtime e) (mode_start e)
    (slice_ns e) (weight e) (nice e) (initialized e) b (user_mode e).
Definition with_user_mode (e : sched_entity) (b : bool) : sched_entity :=
  MkEntity (vruntime e) (exec_start e) (sum_exec_runtime e) (user_runtime e) (system_runtime e) (mode_start e)
    (slice_ns e) (weight e) (nice e) (initialized e) (on_runqueue e) b.

Definition with_sched (t : thread) (e : sched_entity) : thread :=
  MkThread (tid t) (id_p t) (trapframe t) (state t) (home t) (kernel_thread t) (process_reaper t) (lock_owner t) e.
Definition with_state (t : thread) (st : thread_state) : thread :=
  MkThread (tid t) (id_p t) (trapframe t) st (home t) (kernel_thread t) (process_reaper t) (lock_owner t) (sched_of t).
Definition with_owner (t : thread) (o : option nat) : thread :=
  MkThread (tid t) (id_p t) (trapframe t) (state t) (home t) (kernel_thread t) (process_reaper t) o (sched_of t).

Definition with_current (c : cpu) (t : Z) : cpu :=
  MkCpu t (selected c) (online c) (idle c) (need_resched c) (idle_since_ns c) (idle_time_ns c).
Definition with_selected (c : cpu) (t : Z) : cpu :=
  MkCpu (current c) t (online c) (idle c) (need_resched c) (idle_since_ns c) (idle_time_ns c).
Definition with_idle (c : cpu) (b : bool) : cpu :=
  MkCpu (current c) (selected c) (online c) b (need_resched c) (idle_since_ns c) (idle_time_ns c).
Definition with_resched (c : cpu) (b : bool) : cpu :=
  MkCpu (current c) (selected c) (online c) (idle c) b (idle_since_ns c) (idle_time_ns c).
Definition with_idle_clock (c : cpu) (since total : Z) : cpu :=
  MkCpu (current c) (selected c) (online c) (idle c) (need_resched c) since total.

(** ** Arithmetic *)

Definition NICE_0_LOAD : Z := 1024.
Definition SCHED_TARGET_LATENCY_NS : Z := 48000000.
Definition SCHED_MIN_GRANULARITY_NS : Z := 6000000.
Definition SCHED_WAKEUP_GRANULARITY_NS : Z := 4000000.
Definition SCHED_MIN_SLICE_NS : Z := 1000000.

Definition nice_weights : list Z :=
  [88761; 71755; 56483; 46273; 36291; 29154; 23254; 18705; 14949; 11916;
   9548; 7620; 6100; 4904; 3906; 3121; 2501; 1991; 1586; 1277;
   1024; 820; 655; 526; 423; 335; 272; 215; 172; 137;
   110; 87; 70; 56; 45; 36; 29; 23; 18; 15].

Definition add_saturate (left right : Z) : Z :=
  if UINT64_MAX - right <? left then UINT64_MAX else left +64 right.

(** Weights are never zero. *)
Definition scale_runtime (runtime weight : Z) : Z :=
  (runtime / weight *64 NICE_0_LOAD) +64 (runtime mod weight *64 NICE_0_LOAD) / weight.

Definition is_running (t : thread) : bool := bool_decide (state t = THREAD_RUNNING).

Definition entity_vruntime_now (t : thread) (now : Z) : Z :=
  let e := sched_of t in
  if is_running t && truth (exec_start e) && (exec_start e <? now)
  then add_saturate (vruntime e) (scale_runtime (now - exec_start e) (weight e))
  else vruntime e.

Definition account_mode (t : thread) (now : Z) : thread :=
  let e := sched_of t in
  if negb (truth (mode_start e)) || (now <=? mode_start e)
  then with_sched t (with_mode e (user_runtime e) (system_runtime e) now)
  else
    let delta := now - mode_start e in
    with_sched t (if user_mode e
                  then with_mode e (user_runtime e +64 delta) (system_runtime e) now
                  else with_mode e (user_runtime e) (system_runtime e +64 delta) now).

Definition account_runtime (t : thread) (now : Z) : thread :=
  let t := account_mode t now in
  let e := sched_of t in
  if negb (truth (exec_start e)) || (now <=? exec_start e) then with_sched t (with_exec_start e now)
  else
    let delta := now - exec_start e in
    let e := with_sum_exec e (add_saturate (sum_exec_runtime e) delta) in
    let e := with_vruntime e (add_saturate (vruntime e) (scale_runtime delta (weight e))) in
    with_sched t (with_exec_start e now).

(** The result is the user and the system time. *)
Definition scheduler_thread_times (t : thread) (now : Z) : Z * Z :=
  let e := sched_of t in
  if is_running t && truth (mode_start e) && (mode_start e <? now) then
    if user_mode e then (add_saturate (user_runtime e) (now - mode_start e), system_runtime e)
    else (user_runtime e, add_saturate (system_runtime e) (now - mode_start e))
  else (user_runtime e, system_runtime e).

(** ** Run queue operations *)

Section operations.
  Context {T : Type} {HT : Timeline T}.
  Implicit Types (s : runqueue T) (t : Z).

Definition thread_at s t : outcome thread := deref (threads s !! t).
Definition put_thread s t (th : thread) : runqueue T :=
  MkRq (<[t := th]> (threads s)) (timeline s) (total_weight s) (min_vruntime s) (count s) (cpus s) (context_switches s).
Definition set_timeline s (tl : T) (w n : Z) : runqueue T :=
  MkRq (threads s) tl w (min_vruntime s) n (cpus s) (context_switches s).
Definition set_min s (v : Z) : runqueue T :=
  MkRq (threads s) (timeline s) (total_weight s) v (count s) (cpus s) (context_switches s).
Definition set_cpus s (cs : list cpu) : runqueue T :=
  MkRq (threads s) (timeline s) (total_weight s) (min_vruntime s) (count s) cs (context_switches s).
Definition upd_cpu s (i : nat) (f : cpu -> cpu) : outcome (runqueue T) :=
  c ← rd (cpus s) i; Ret (set_cpus s (<[i := f c]> (cpus s))).

Definition scheduler_init s : runqueue T :=
  MkRq (threads s) (tl_init (timeline s)) 0 0 0 (cpus s) 0.

Definition spinlock_holding (th : thread) (me : nat) : bool := bool_decide (lock_owner th = Some me).
Definition lock_thread s (me : nat) t : outcome (runqueue T) :=
  th ← thread_at s t;
  match lock_owner th with
  | None => Ret (put_thread s t (with_owner th (Some me)))
  | Some c => if decide (c = me) then Panic "spainlock_acquire" else Fault
  end.
Definition unlock_thread s (me : nat) t : outcome (runqueue T) :=
  th ← thread_at s t;
  if spinlock_holding th me then Ret (put_thread s t (with_owner th None)) else Panic "spinlock_release".

Definition entity_before s (left right : Z) : outcome bool :=
  l ← thread_at s left; r ← thread_at s right;
  Ret (if negb (vruntime (sched_of l) =? vruntime (sched_of r)) then vruntime (sched_of l) <? vruntime (sched_of r)
       else if negb (tid l =? tid r) then tid l <? tid r
       else left <? right).

Definition enqueue_entity_locked s t : outcome (runqueue T) :=
  tl ← tl_insert (entity_before s t) (timeline s) t;
  th ← thread_at s t;
  let s := put_thread s t (with_sched th (with_queued (sched_of th) true)) in
  Ret (set_timeline s tl (total_weight s +64 weight (sched_of th)) (count s +32 1)).

Definition dequeue_entity_locked s t : outcome (runqueue T) :=
  th ← thread_at s t;
  if negb (on_runqueue (sched_of th)) || negb (truth (count s)) || (total_weight s <? weight (sched_of th))
  then Panic "invalid CFS dequeue" else
  tl ← tl_erase (timeline s) t;
  let s := put_thread s t (with_sched th (with_queued (sched_of th) false)) in
  Ret (set_timeline s tl (total_weight s -64 weight (sched_of th)) (count s -32 1)).

Definition place_entity_locked s t : outcome (runqueue T) :=
  th ← thread_at s t;
  let floor := if SCHED_WAKEUP_GRANULARITY_NS <? min_vruntime s
               then min_vruntime s - SCHED_WAKEUP_GRANULARITY_NS else 0 in
  let e := sched_of th in
  Ret (if negb (initialized e)
       then put_thread s t (with_sched th (with_initialized (with_vruntime e (min_vruntime s)) true))
       else if vruntime e <? floor then put_thread s t (with_sched th (with_vruntime e floor))
       else s).

(** One CPU of the loop of [update_min_vruntime_locked]. *)
Definition min_over_cpu s (sel now : Z) (minimum : Z) (c : cpu) : outcome Z :=
  minimum ← if truth (current c) && negb (current c =? sel) then
              (th ← thread_at s (current c);
               let v := entity_vruntime_now th now in
               Ret (if is_running th && (v <? minimum) then v else minimum))
            else Ret minimum;
  if truth (selected c) && negb (selected c =? sel) then
    th ← thread_at s (selected c);
    Ret (if vruntime (sched_of th) <? minimum then vruntime (sched_of th) else minimum)
  else Ret minimum.

Definition update_min_vruntime_locked s (sel now : Z) : outcome (runqueue T) :=
  node ← tl_first (timeline s);
  minimum ← if truth sel then th ← thread_at s sel; Ret (vruntime (sched_of th)) else Ret UINT64_MAX;
  minimum ← if truth node
            then th ← thread_at s node;
                 Ret (if vruntime (sched_of th) <? minimum then vruntime (sched_of th) else minimum)
            else Ret minimum;
  minimum ← for_each (min_over_cpu s sel now) (cpus s) minimum;
  Ret (if negb (minimum =? UINT64_MAX) && (min_vruntime s <? minimum) then set_min s minimum else s).

(** The first other CPU that is online and idle, from index [i] on. *)
Fixpoint find_idle (l : list cpu) (i me : nat) : option nat :=
  match l with
  | [] => None
  | c :: l => if bool_decide (i = me) || negb (online c) || negb (idle c) then find_idle l (S i) me else Some i
  end.

(** [None] stands for the result -1. *)
Definition claim_idle_cpu_locked s (me : nat) : outcome (runqueue T * option nat) :=
  c ← rd (cpus s) me;
  if idle c then s ← upd_cpu s me (fun c => with_idle c false); Ret (s, None)
  else match find_idle (cpus s) 0 me with
       | Some i => s ← upd_cpu s i (fun c => with_idle c false); Ret (s, Some i)
       | None => Ret (s, None)
       end.

Fixpoint preempt_loop s (wake_vruntime now : Z) (l : list cpu) (i : nat) (greatest : Z) (target : option nat)
  : outcome (option nat) :=
  match l with
  | [] => Ret target
  | c :: l =>
      if negb (online c) || negb (truth (current c)) then preempt_loop s wake_vruntime now l (S i) greatest target else
      th ← thread_at s (current c);
      let v := entity_vruntime_now th now in
      if negb (is_running th) || (v <=? add_saturate wake_vruntime SCHED_WAKEUP_GRANULARITY_NS) ||
         (bool_decide (is_Some target) && (v <=? greatest))
      then preempt_loop s wake_vruntime now l (S i) greatest target
      else preempt_loop s wake_vruntime now l (S i) v (Some i)
  end.

Definition select_preempt_cpu_locked s (waking now : Z) : outcome (runqueue T * option nat) :=
  th ← thread_at s waking;
  let v := vruntime (sched_of th) in
  target ← preempt_loop s v now (cpus s) 0 v None;
  match target with
  | Some i => s ← upd_cpu s i (fun c => with_resched c true); Ret (s, target)
  | None => Ret (s, None)
  end.

(** The CPU an interrupt is sent to, if any. *)
Definition wake_cpu (me : nat) (target : option nat) : option nat :=
  match target with Some i => if decide (i = me) then None else Some i | None => None end.

Fixpoint find_current (l : list cpu) (i : nat) (t : Z) : option nat :=
  match l with [] => None | c :: l => if negb (current c =? t) then find_current l (S i) t else Some i end.

(** Ask the CPU that runs [t] to reschedule. *)
Definition resched_current s t : outcome (runqueue T * option nat) :=
  match find_current (cpus s) 0 t with
  | Some i => s ← upd_cpu s i (fun c => with_resched c true); Ret (s, Some i)
  | None => Ret (s, None)
  end.

Definition scheduler_kick s (me : nat) t : outcome (runqueue T * option nat) :=
  if negb (truth t) then Ret (s, None) else
  '(s, target) ← resched_current s t;
  Ret (s, wake_cpu me target).

Definition scheduler_enqueue s (me : nat) t (wake_idle : bool) (now : Z) : outcome (runqueue T * option nat) :=
  th ← thread_at s t;
  if negb (spinlock_holding th me) then Panic "runnable lock" else
  let previous := state th in
  if on_runqueue (sched_of th) ||
     (negb (bool_decide (previous = THREAD_ALLOCATED)) && negb (bool_decide (previous = THREAD_RUNNING)) &&
      negb (bool_decide (previous = THREAD_SLEEPING)))
  then Panic "invalid runnable thread" else
  let running := bool_decide (previous = THREAD_RUNNING) in
  let s := if running then put_thread s t (account_runtime th now) else s in
  s ← update_min_vruntime_locked s (if running then t else 0) now;
  s ← if negb running then place_entity_locked s t else Ret s;
  th ← thread_at s t;
  let s := put_thread s t (with_state th THREAD_RUNNABLE) in
  s ← enqueue_entity_locked s t;
  '(s, target) ← if wake_idle then claim_idle_cpu_locked s me else Ret (s, None);
  '(s, target) ← if wake_idle && negb (bool_decide (is_Some target)) then select_preempt_cpu_locked s t now
                 else Ret (s, target);
  Ret (s, wake_cpu me target).

Definition scheduler_make_runnable s (me : nat) t (now : Z) : outcome (runqueue T * option nat) :=
  scheduler_enqueue s me t true now.

(** One CPU of the loop of [calculate_slice_locked]; the pair is [runnable] and [total_weight]. *)
Definition slice_over_cpu s (sel : Z) (acc : Z * Z) (c : cpu) : outcome (Z * Z) :=
  acc ← if truth (current c) && negb (current c =? sel) then
          (th ← thread_at s (current c);
           Ret (if is_running th then (acc.1 +32 1, acc.2 +64 weight (sched_of th)) else acc))
        else Ret acc;
  if truth (selected c) && negb (selected c =? sel) then
    th ← thread_at s (selected c); Ret (acc.1 +32 1, acc.2 +64 weight (sched_of th))
  else Ret acc.

Definition slice_of (runnable total w : Z) : Z :=
  let period := runnable *64 SCHED_MIN_GRANULARITY_NS in
  let period := if period <? SCHED_TARGET_LATENCY_NS then SCHED_TARGET_LATENCY_NS else period in
  let slice := (period / total *64 w) +64 (period mod total *64 w) / total in
  if slice <? SCHED_MIN_SLICE_NS then SCHED_MIN_SLICE_NS else slice.

Definition calculate_slice_locked s (sel : Z) : outcome Z :=
  th ← thread_at s sel;
  let w := weight (sched_of th) in
  '(runnable, total) ← for_each (slice_over_cpu s sel) (cpus s) (count s +32 1, total_weight s +64 w);
  Ret (slice_of runnable total w).

Definition scheduler_inherit s (me : nat) (child parent now : Z) : outcome (runqueue T) :=
  if negb (truth child) || negb (truth parent) then Panic "invalid scheduler inheritance" else
  c ← thread_at s child;
  if negb (spinlock_holding c me) || negb (bool_decide (state c = THREAD_ALLOCATED)) || on_runqueue (sched_of c)
  then Panic "invalid scheduler inheritance" else
  p ← thread_at s parent;
  let e := with_nice (sched_of c) (nice (sched_of p)) (weight (sched_of p)) in
  let e := with_vruntime e (entity_vruntime_now p now) in
  Ret (put_thread s child (with_sched c (with_initialized e (initialized (sched_of p))))).

(** The result is the return value and the CPU to interrupt. *)
Definition scheduler_set_nice s (me : nat) t (n now : Z) : outcome (Z * runqueue T * option nat) :=
  if negb (truth t) || (n <? -20) || (19 <? n) then Ret (-1, s, None) else
  s ← lock_thread s me t;
  th ← thread_at s t;
  let running := is_running th in
  let s := if running then put_thread s t (account_runtime th now) else s in
  th ← thread_at s t;
  let queued := on_runqueue (sched_of th) in
  s ← if queued then dequeue_entity_locked s t else Ret s;
  th ← thread_at s t;
  w ← rd nice_weights (Z.to_nat (n + 20));
  let s := put_thread s t (with_sched th (with_nice (sched_of th) n w)) in
  s ← if queued then enqueue_entity_locked s t else Ret s;
  '(s, target) ← if running then resched_current s t else Ret (s, None);
  s ← unlock_thread s me t;
  Ret (0, s, wake_cpu me target).

Definition scheduler_get_nice s (me : nat) t : outcome (Z * runqueue T) :=
  if negb (truth t) then Ret (0, s) else
  s ← lock_thread s me t;
  th ← thread_at s t;
  s ← unlock_thread s me t;
  Ret (nice (sched_of th), s).

(** [intr] tells whether interrupts are enabled. *)
Definition scheduler_next s (me : nat) (intr : bool) (now : Z) : outcome (runqueue T * Z) :=
  if intr then Panic "scheduler interrupts enabled" else
  c ← rd (cpus s) me;
  if truth (current c) || truth (selected c) then Panic "busy scheduler CPU" else
  s ← upd_cpu s me (fun c => with_idle c false);
  node ← tl_first (timeline s);
  if truth node then
    s ← dequeue_entity_locked s node;
    s ← update_min_vruntime_locked s node now;
    slice ← calculate_slice_locked s node;
    th ← thread_at s node;
    let s := put_thread s node (with_sched th (with_slice (sched_of th) slice)) in
    s ← upd_cpu s me (fun c => with_selected c node);
    Ret (s, node)
  else if truth (count s) || truth (total_weight s) then Panic "CFS runqueue count"
  else s ← upd_cpu s me (fun c => with_idle c true); Ret (s, 0).

(** ** The scheduler loop, from one switch to the next *)

Definition scheduler_enter s (me : nat) : outcome (runqueue T) :=
  upd_cpu s me (fun c => with_idle (with_selected (with_current c 0) 0) false).

Definition idle_begin s (me : nat) (now : Z) : outcome (runqueue T) :=
  upd_cpu s me (fun c => with_idle_clock c now (idle_time_ns c)).
Definition idle_end s (me : nat) (now : Z) : outcome (runqueue T) :=
  upd_cpu s me (fun c =>
    let start := idle_since_ns c in
    with_idle_clock c 0 (if truth start && (start <? now) then idle_time_ns c +64 (now - start) else idle_time_ns c)).

(** After [scheduler_next] gave [next], up to the switch to it. *)
Definition scheduler_start s (me : nat) (next now : Z) : outcome (runqueue T) :=
  s ← lock_thread s me next;
  th ← thread_at s next;
  c ← rd (cpus s) me;
  if negb (bool_decide (state th = THREAD_RUNNABLE)) || on_runqueue (sched_of th) ||
     (negb (truth (home th)) && negb (kernel_thread th)) || negb (selected c =? next) || truth (current c)
  then Panic "invalid scheduled thread" else
  let e := with_exec_start (sched_of th) now in
  let e := with_user_mode (with_mode e (user_runtime e) (system_runtime e) now) false in
  let s := put_thread s next (with_sched (with_state th THREAD_RUNNING) e) in
  s ← upd_cpu s me (fun c => with_current (with_resched (with_selected c 0) false) next);
  Ret (MkRq (threads s) (timeline s) (total_weight s) (min_vruntime s) (count s) (cpus s) (context_switches s +64 1)).

(** [thread_sched_init] of kernel/thread.c *)
Definition thread_sched_init s t : outcome (runqueue T) :=
  tl ← tl_node_init (timeline s) t;
  th ← thread_at s t;
  let s := put_thread s t (with_sched th (MkEntity 0 0 0 0 0 0 0 1024 0 false false false)) in
  Ret (set_timeline s tl (total_weight s) (count s)).

(** [kernel_thread_reap] of kernel/thread.c, on the fields modelled here; [waits] tells whether [on_waitqueue] or
    [on_timeout_queue] is set. *)
Definition kernel_thread_reap s (me : nat) t (waits : bool) : outcome (runqueue T) :=
  th ← thread_at s t;
  if negb (spinlock_holding th me) || negb (kernel_thread th) || negb (bool_decide (state th = THREAD_EXITED)) ||
     on_runqueue (sched_of th) || waits
  then Panic "reap kernel thread" else
  thread_sched_init (put_thread s t (MkThread 0 (id_p th) (trapframe th) THREAD_UNUSED (home th) false 0 (lock_owner th)
    (sched_of th))) t.

(** The search of [kernel_thread_create] and its use of [spinlock_trylock]: the thread found is locked. *)
Fixpoint find_unused s (me : nat) (ts : list Z) : outcome (runqueue T * Z) :=
  match ts with
  | [] => Ret (s, 0)
  | t :: ts =>
      th ← thread_at s t;
      match lock_owner th with
      | Some c => if decide (c = me) then Panic "spainlock_acquire" else find_unused s me ts
      | None =>
          if bool_decide (state th = THREAD_UNUSED) then Ret (put_thread s t (with_owner th (Some me)), t)
          else find_unused s me ts
      end
  end.

(** [kernel_thread_create] of kernel/thread.c, on the fields modelled here: [ts] are the addresses of the thread
    table and [tid] what [kernel_tid_alloc] returned. *)
Definition kernel_thread_create s (me : nat) (ts : list Z) (name function tid now : Z)
  : outcome (runqueue T * Z * option nat) :=
  if negb (truth name) || negb (truth function) then Ret (s, 0, None) else
  '(s, t) ← find_unused s me ts;
  if negb (truth t) then Ret (s, 0, None) else
  th ← thread_at s t;
  s ← thread_sched_init (put_thread s t (MkThread tid (-1) 0 THREAD_ALLOCATED 0 true 0 (lock_owner th)
    (sched_of th))) t;
  '(s, ipi) ← scheduler_make_runnable s me t now;
  s ← unlock_thread s me t;
  Ret (s, t, ipi).

(** ** Threads of a process *)

(** The fields of [struct process] that the threads use: the address, the slots, the counts, the times of the threads
    that are gone and the owner of the lock. *)
Record process := MkProcess {
  p_address : Z; p_thread : list Z; tnums : Z; live_threads : Z; retired_user_time_ns : Z; retired_system_time_ns : Z;
  p_lock_owner : option nat }.
Definition PROC_MAXTHREAD : Z := 32.

Definition with_slots (p : process) (slots : list Z) (n live : Z) : process :=
  MkProcess (p_address p) slots n live (retired_user_time_ns p) (retired_system_time_ns p) (p_lock_owner p).

(** The first slot that holds [t], from index [i] on. *)
Fixpoint find_slot (slots : list Z) (i : nat) (t : Z) : option nat :=
  match slots with [] => None | x :: slots => if x =? t then Some i else find_slot slots (S i) t end.

(** [thread_alloc]: [ts] are the addresses of the thread table, [tf] what [palloc_zero] and [new_tid] what [tid_alloc]
    return. *)
Definition thread_alloc s (p : process) (me : nat) (ts : list Z) (tf new_tid : Z) : outcome (runqueue T * process * Z) :=
  if negb (bool_decide (p_lock_owner p = Some me)) then Panic "thread_alloc process lock" else
  if tnums p =? PROC_MAXTHREAD then Ret (s, p, 0) else
  match find_slot (p_thread p) 0 0 with
  | None => Panic "thread slot count"
  | Some slot =>
      '(s, t) ← find_unused s me ts;
      if negb (truth t) then Ret (s, p, 0) else
      th ← thread_at s t;
      let p := with_slots p (<[slot := t]> (p_thread p)) (tnums p + 1) (live_threads p + 1) in
      s ← thread_sched_init (put_thread s t (MkThread (tid th) (Z.of_nat slot) (trapframe th) THREAD_ALLOCATED (p_address p)
            false 0 (lock_owner th) (sched_of th))) t;
      th ← thread_at s t;
      let th := MkThread (tid th) (id_p th) tf (state th) (home th) (kernel_thread th) (process_reaper th) (lock_owner th)
                  (sched_of th) in
      if negb (truth tf) then
        let p := with_slots p (<[Z.to_nat (id_p th) := 0]> (p_thread p)) (tnums p - 1) (live_threads p - 1) in
        s ← unlock_thread (put_thread s t (MkThread (tid th) (id_p th) tf THREAD_UNUSED 0 (kernel_thread th) (process_reaper th)
              (lock_owner th) (sched_of th))) me t;
        Ret (s, p, 0)
      else
        Ret (put_thread s t (MkThread new_tid (id_p th) tf (state th) (home th) (kernel_thread th) (process_reaper th)
               (lock_owner th) (sched_of th)), p, t)
  end.

(** [thread_free] for a thread whose [home] is [p]; [vfork] tells whether [vfork_child] is set, [waits] whether
    [on_waitqueue] or [waiting_on] is.  The page of the trapframe goes back to the allocator. *)
Definition thread_free s (p : process) (me : nat) t (vfork waits : bool) : outcome (runqueue T * process * option Z) :=
  th ← thread_at s t;
  if negb (bool_decide (p_lock_owner p = Some me)) || negb (spinlock_holding th me) then Panic "thread_free locks" else
  if on_runqueue (sched_of th) then Panic "thread_free runnable" else
  if vfork then Panic "thread_free vfork parent" else
  if waits then Panic "thread_free waiting" else
  if tnums p =? 0 then Panic "thread_free" else
  match find_slot (p_thread p) 0 t with
  | None => Panic "thread_free slot"
  | Some i =>
      let e := sched_of th in
      let exited := bool_decide (state th = THREAD_EXITED) in
      if negb exited && negb (truth (live_threads p)) then Panic "thread_free live count" else
      let p := MkProcess (p_address p) (<[i := 0]> (p_thread p)) (tnums p - 1)
                 (if exited then live_threads p else live_threads p - 1)
                 (retired_user_time_ns p +64 user_runtime e) (retired_system_time_ns p +64 system_runtime e)
                 (p_lock_owner p) in
      s ← thread_sched_init (put_thread s t (MkThread 0 (-1) 0 THREAD_UNUSED 0 (kernel_thread th) 0 (lock_owner th) e)) t;
      Ret (s, p, if truth (trapframe th) then Some (trapframe th) else None)
  end.

(** What is left to do for a thread that exited. *)
Inductive reap := NoReap | ReapProcess | ReapUser.

(** After the switch back from [next].  [ReapProcess] goes on with [process_auto_reap] without the lock, [ReapUser]
    with [user_thread_reap] with it. *)
Definition scheduler_leave s (me : nat) (next : Z) (waits : bool) : outcome (runqueue T * reap) :=
  c ← rd (cpus s) me;
  if negb (current c =? next) || truth (selected c) then Panic "invalid current thread" else
  s ← upd_cpu s me (fun c => with_current c 0);
  th ← thread_at s next;
  if bool_decide (state th = THREAD_EXITED) then
    if kernel_thread th then
      s ← kernel_thread_reap s me next waits; s ← unlock_thread s me next; Ret (s, NoReap)
    else if process_reaper th =? 2 then s ← unlock_thread s me next; Ret (s, ReapProcess)
    else if negb (truth (process_reaper th)) then Ret (s, ReapUser)
    else s ← unlock_thread s me next; Ret (s, NoReap)
  else s ← unlock_thread s me next; Ret (s, NoReap).

(** The checks of [sched] before the switch; [depth] is [lock_nest_depth]. *)
Definition sched s (me : nat) (intr : bool) (depth : Z) : outcome unit :=
  c ← rd (cpus s) me;
  if negb (truth (current c)) then Panic "sched holding" else
  th ← thread_at s (current c);
  if negb (spinlock_holding th me) then Panic "sched holding"
  else if intr then Panic "sched intr open"
  else if negb (depth =? 1) then Panic "sched lock_nest_depth"
  else if is_running th then Panic "sched running"
  else Ret tt.

(** [yield] up to the switch; taking the lock has turned interrupts off. *)
Definition yield s (me : nat) (depth now : Z) : outcome (runqueue T * option nat) :=
  c ← rd (cpus s) me;
  s ← lock_thread s me (current c);
  '(s, ipi) ← scheduler_enqueue s me (current c) false now;
  _ ← sched s me false depth;
  Ret (s, ipi).

(** [scheduler_block_current] and the part of [scheduler_exit_locked] before [sched] differ in the state they set. *)
Definition stop_current s (me : nat) (now : Z) (why : string) (st : thread_state) : outcome (runqueue T) :=
  c ← rd (cpus s) me;
  if negb (truth (current c)) then Panic why else
  th ← thread_at s (current c);
  if negb (spinlock_holding th me) || negb (is_running th) then Panic why else
  let th := account_runtime th now in
  let s := put_thread s (current c) th in
  s ← update_min_vruntime_locked s (current c) (exec_start (sched_of th));
  th ← thread_at s (current c);
  Ret (put_thread s (current c) (with_state th st)).
Definition scheduler_block_current s (me : nat) (now : Z) : outcome (runqueue T) :=
  stop_current s me now "block non-running thread" THREAD_SLEEPING.
(** Up to the switch, which does not come back. *)
Definition scheduler_exit_locked s (me : nat) (intr : bool) (depth now : Z) : outcome (runqueue T) :=
  s ← stop_current s me now "exit non-running thread" THREAD_EXITED;
  _ ← sched s me intr depth;
  Ret s.
Definition scheduler_exit s (me : nat) (depth now : Z) : outcome (runqueue T) :=
  c ← rd (cpus s) me;
  if negb (truth (current c)) then Panic "exit without thread" else
  s ← lock_thread s me (current c);
  scheduler_exit_locked s me false depth now.

Definition scheduler_request_resched s (me : nat) : outcome (runqueue T) :=
  upd_cpu s me (fun c => if truth (current c) then with_resched c true else c).

Definition scheduler_tick s (me : nat) (now : Z) : outcome (runqueue T) :=
  c ← rd (cpus s) me;
  if negb (truth (current c)) then Ret s else
  th ← thread_at s (current c);
  if negb (is_running th) then Ret s else
  let e := sched_of th in
  let elapsed := if exec_start e <? now then now - exec_start e else 0 in
  node ← tl_first (timeline s);
  if truth node then
    leftmost ← thread_at s node;
    if (slice_ns e <=? elapsed) ||
       (add_saturate (vruntime (sched_of leftmost)) SCHED_WAKEUP_GRANULARITY_NS <? entity_vruntime_now th now)
    then upd_cpu s me (fun c => with_resched c true) else Ret s
  else Ret s.

Definition scheduler_should_resched s (me : nat) : outcome (bool * runqueue T) :=
  c ← rd (cpus s) me;
  if negb (truth (current c)) then Ret (false, s) else
  th ← thread_at s (current c);
  if negb (is_running th) then Ret (false, s) else
  s ← upd_cpu s me (fun c => with_resched c false);
  Ret (need_resched c, s).

(** [scheduler_account_kernel_enter] and [scheduler_account_user_enter] *)
Definition account_enter s (me : nat) (now : Z) (user : bool) : outcome (runqueue T) :=
  c ← rd (cpus s) me;
  if negb (truth (current c)) then Ret s else
  th ← thread_at s (current c);
  let th := account_mode th now in
  Ret (put_thread s (current c) (with_sched th (with_user_mode (sched_of th) user))).

Fixpoint idle_total (l : list cpu) (now idle : Z) : Z :=
  match l with
  | [] => idle
  | c :: l =>
      let idle := idle +64 idle_time_ns c in
      let since := idle_since_ns c in
      idle_total l now (if truth since && (since <? now) then idle +64 (now - since) else idle)
  end.
Definition scheduler_idle_time_ns s (now : Z) : Z := idle_total (cpus s) now 0.
Definition scheduler_context_switches s : Z := context_switches s.
End operations.
