(* ===== verification/SchedulerQueue.v ===== *)
(** * The run queue

    The order of the entities, the part of the scheduler's invariant that
    concerns the queue, and what [enqueue_entity_locked],
    [dequeue_entity_locked], [place_entity_locked] and
    [update_min_vruntime_locked] do to a queue that satisfies it. *)
From stdpp Require Import sorting.
From S2P Require Import Prelude Timeline Scheduler.

(** ** Entities *)

(** A weight is the one of the nice value. *)
Record entity_ok (e : sched_entity) : Prop := {
  ent_vruntime : is_u64 (vruntime e);
  ent_exec : is_u64 (exec_start e);
  ent_nice : -20 <= nice e <= 19;
  ent_weight : nice_weights !! Z.to_nat (nice e + 20) = Some (weight e) }.

Lemma weights_range : Forall (fun w => 15 <= w <= 88761) nice_weights.
Proof. repeat constructor; lia. Qed.

Lemma weight_range e : entity_ok e -> 15 <= weight e <= 88761.
Proof. intros H. exact (Forall_lookup_1 _ _ _ _ weights_range (ent_weight e H)). Qed.

Lemma nice_weight n : -20 <= n <= 19 -> exists w, nice_weights !! Z.to_nat (n + 20) = Some w.
Proof. intros H. apply lookup_lt_is_Some_2. cbn. lia. Qed.

Lemma add_saturate_min x y : is_u64 x -> is_u64 y -> add_saturate x y = Z.min UINT64_MAX (x + y).
Proof.
  unfold add_saturate, UINT64_MAX, is_u64. intros Hx Hy. destruct (_ <? _) eqn:E; [apply Z.ltb_lt in E; lia|].
  apply Z.ltb_ge in E. rewrite wrap64_id by (unfold is_u64; lia). lia.
Qed.

Lemma add_saturate_range x y : is_u64 x -> is_u64 y -> is_u64 (add_saturate x y) /\ x <= add_saturate x y.
Proof. intros Hx Hy. rewrite add_saturate_min by done. unfold is_u64, UINT64_MAX in *. lia. Qed.

Lemma scale_runtime_range r w : is_u64 (scale_runtime r w).
Proof. apply wrap64_range. Qed.

Lemma vruntime_now_range t now : entity_ok (sched_of t) -> is_u64 now ->
  is_u64 (entity_vruntime_now t now) /\ vruntime (sched_of t) <= entity_vruntime_now t now.
Proof.
  intros [V E _ _] Hn. unfold entity_vruntime_now. destruct (_ && _); [|split; [done|lia]].
  apply add_saturate_range; [done|apply scale_runtime_range].
Qed.

(** What accounting the running time leaves alone. *)
Record accounted (t t' : thread) : Prop := {
  acc_tid : tid t' = tid t; acc_state : state t' = state t; acc_home : home t' = home t;
  acc_kernel : kernel_thread t' = kernel_thread t; acc_owner : lock_owner t' = lock_owner t;
  acc_nice : nice (sched_of t') = nice (sched_of t); acc_weight : weight (sched_of t') = weight (sched_of t);
  acc_queued : on_runqueue (sched_of t') = on_runqueue (sched_of t) }.

Lemma account_mode_frame t now : accounted t (account_mode t now) /\
  vruntime (sched_of (account_mode t now)) = vruntime (sched_of t) /\
  exec_start (sched_of (account_mode t now)) = exec_start (sched_of t) /\
  sum_exec_runtime (sched_of (account_mode t now)) = sum_exec_runtime (sched_of t).
Proof. unfold account_mode. destruct (_ || _); [|destruct (user_mode (sched_of t))]; repeat split. Qed.

Lemma account_runtime_frame t now : accounted t (account_runtime t now) /\
  exec_start (sched_of (account_runtime t now)) = now.
Proof.
  destruct (account_mode_frame t now) as [[A1 A2 A3 A4 A5 A6 A7 A8] _]. unfold account_runtime.
  destruct (_ || _); (split; [split|]); try done.
Qed.

Lemma account_runtime_ok t now : entity_ok (sched_of t) -> is_u64 now -> entity_ok (sched_of (account_runtime t now)).
Proof.
  intros [V E N W] Hn. destruct (account_runtime_frame t now) as [A He].
  destruct (account_mode_frame t now) as (_ & Hv & _).
  split; rewrite ?(acc_nice _ _ A), ?(acc_weight _ _ A), ?He; try done.
  unfold account_runtime. destruct (_ || _); cbn; rewrite Hv; [done|].
  apply add_saturate_range; [done|apply scale_runtime_range].
Qed.

Lemma account_mode_ok t now : entity_ok (sched_of t) -> entity_ok (sched_of (account_mode t now)).
Proof.
  intros [V E N W]. destruct (account_mode_frame t now) as (A & Hv & He & _).
  split; rewrite ?(acc_nice _ _ A), ?(acc_weight _ _ A), ?He, ?Hv; done.
Qed.

(** ** The order of the queue *)

Definition precedes (m : gmap Z thread) (p q : Z) : bool :=
  match m !! p, m !! q with
  | Some l, Some r =>
      if negb (vruntime (sched_of l) =? vruntime (sched_of r)) then vruntime (sched_of l) <? vruntime (sched_of r)
      else if negb (tid l =? tid r) then tid l <? tid r
      else p <? q
  | _, _ => false
  end.

Definition queue_sorted (m : gmap Z thread) : list Z -> Prop := StronglySorted (fun p q => precedes m p q = true).

Ltac compare_keys :=
  repeat match goal with
  | H : context [?x =? ?y] |- _ => destruct (Z.eqb_spec x y); cbn [negb] in *
  | |- context [?x =? ?y] => destruct (Z.eqb_spec x y); cbn [negb] in *
  end;
  rewrite ?Z.ltb_lt, ?Z.ltb_ge in *; try lia.

Lemma precedes_trans m p q r : precedes m p q = true -> precedes m q r = true -> precedes m p r = true.
Proof.
  unfold precedes. destruct (m !! p), (m !! q), (m !! r); try done. intros H1 H2. compare_keys.
Qed.

Lemma precedes_total m p q : is_Some (m !! p) -> is_Some (m !! q) -> p <> q -> precedes m p q = false ->
  precedes m q p = true.
Proof. unfold precedes. intros [a ->] [b ->] Hne H. compare_keys. Qed.

Lemma precedes_asym m p q : precedes m p q = true -> precedes m q p = false.
Proof. unfold precedes. destruct (m !! p), (m !! q); try done. intros H. compare_keys. Qed.

(** The order only looks at the two threads. *)
Lemma precedes_agree m m' p q : m' !! p = m !! p -> m' !! q = m !! q -> precedes m' p q = precedes m p q.
Proof. unfold precedes. by intros -> ->. Qed.

Lemma precedes_vruntime m p q a b : m !! p = Some a -> m !! q = Some b -> precedes m p q = true ->
  vruntime (sched_of a) <= vruntime (sched_of b).
Proof. unfold precedes. intros -> -> H. compare_keys. Qed.

Lemma precedes_insert m t th th' p q : m !! t = Some th -> tid th' = tid th ->
  vruntime (sched_of th') = vruntime (sched_of th) -> precedes (<[t := th']> m) p q = precedes m p q.
Proof.
  intros Ht E1 E2. unfold precedes. destruct (decide (p = t)) as [->|Hp], (decide (q = t)) as [->|Hq];
    rewrite ?lookup_insert_eq, ?lookup_insert_ne, ?Ht, ?E1, ?E2 by done; done.
Qed.

(** Where a new entity goes. *)
Lemma queue_split m l p : queue_sorted m l -> (forall q, q ∈ l -> is_Some (m !! q)) -> is_Some (m !! p) ->
  exists l1 l2, l = l1 ++ l2 /\ (forall q, q ∈ l1 -> precedes m p q = false) /\ (forall q, q ∈ l2 -> precedes m p q = true).
Proof.
  intros Hs HD Hp. induction Hs as [|q l Hs IH Hq]; [by exists [], []; split_and!; [|set_solver..]|].
  destruct (precedes m p q) eqn:E.
  - exists [], (q :: l). split; [done|]. split; [set_solver|]. intros x [->|Hx]%elem_of_cons; [done|].
    rewrite Forall_forall in Hq. eapply precedes_trans; [exact E|]. by apply Hq.
  - destruct IH as (l1 & l2 & -> & F & G); [set_solver|]. exists (q :: l1), l2. split; [done|]. split; [|done].
    intros x [->|Hx]%elem_of_cons; auto.
Qed.

Lemma sorted_insert m l1 l2 p : queue_sorted m (l1 ++ l2) -> (forall q, q ∈ l1 ++ l2 -> is_Some (m !! q)) ->
  is_Some (m !! p) -> p ∉ l1 ++ l2 ->
  (forall q, q ∈ l1 -> precedes m p q = false) -> (forall q, q ∈ l2 -> precedes m p q = true) ->
  queue_sorted m (l1 ++ p :: l2).
Proof.
  unfold queue_sorted. rewrite !StronglySorted_app. intros (HX & H1 & H2) HD Hp Hn F G.
  assert (HP : forall q, q ∈ l1 -> precedes m q p = true).
  { intros q Hq. apply precedes_total; [done|apply HD; set_solver|set_solver|by apply F]. }
  split_and!; [|done|].
  - intros x y Hx [->|Hy]%elem_of_cons; auto.
  - rewrite StronglySorted_cons, Forall_forall. auto.
Qed.

Lemma sorted_delete m l1 p l2 : queue_sorted m (l1 ++ p :: l2) -> queue_sorted m (l1 ++ l2).
Proof.
  unfold queue_sorted. rewrite !StronglySorted_app, StronglySorted_cons. intros (HX & H1 & _ & H2). split_and!; try done.
  intros x y Hx Hy. apply HX; set_solver.
Qed.

Lemma sorted_agree m m' l : (forall p q, p ∈ l -> q ∈ l -> precedes m' p q = precedes m p q) -> queue_sorted m l ->
  queue_sorted m' l.
Proof.
  intros HA Hs. induction Hs as [|p l Hs IH Hp]; [constructor|]. rewrite Forall_forall in Hp.
  apply StronglySorted_cons. split; [|apply IH; set_solver]. apply Forall_forall. intros q Hq.
  rewrite HA by set_solver. auto.
Qed.

(** ** The weight of the queue *)

Definition weight_of (m : gmap Z thread) (p : Z) : Z := from_option (fun t => weight (sched_of t)) 0 (m !! p).
Definition load (m : gmap Z thread) (l : list Z) : Z := foldr (fun p acc => weight_of m p + acc) 0 l.

Lemma load_app m l1 l2 : load m (l1 ++ l2) = load m l1 + load m l2.
Proof. induction l1; cbn [load foldr app] in *; fold (load m); unfold load in *; cbn; lia. Qed.
Lemma load_cons m p l : load m (p :: l) = weight_of m p + load m l.
Proof. done. Qed.
Lemma load_agree m m' l : (forall p, p ∈ l -> weight_of m' p = weight_of m p) -> load m' l = load m l.
Proof. induction l as [|p l IH]; intros H; [done|]. rewrite !load_cons, H, IH; set_solver. Qed.
Lemma load_range m l : (forall p, p ∈ l -> 0 <= weight_of m p <= 88761) -> 0 <= load m l <= 88761 * Z.of_nat (length l).
Proof.
  induction l as [|p l IH]; intros H; [cbn; lia|]. rewrite load_cons. cbn [length].
  pose proof (H p ltac:(set_solver)). specialize (IH ltac:(set_solver)). lia.
Qed.

Lemma nodup_size (m : gmap Z thread) l : NoDup l -> (forall p, p ∈ l -> is_Some (m !! p)) -> (length l <= size m)%nat.
Proof.
  intros Hn HD. rewrite <-size_dom, <-(size_list_to_set (C := gset Z) l) by done. apply subseteq_size.
  intros p. rewrite elem_of_list_to_set, elem_of_dom. apply HD.
Qed.

(** ** The invariant of the queue *)

Definition never : string -> Prop := fun _ => False.

Section queue.
  Context {T : Type} {HT : Timeline T} {HL : TimelineLaws T}.
  Implicit Types (s : runqueue T) (l : list Z) (t : Z).

Record queue_ok s l : Prop := {
  q_tl : tl_ok (dom (threads s)) (timeline s) l;
  q_in : forall t, t ∈ l <-> exists th, threads s !! t = Some th /\ on_runqueue (sched_of th) = true;
  q_sorted : queue_sorted (threads s) l;
  q_count : count s = Z.of_nat (length l);
  q_weight : total_weight s = load (threads s) l;
  q_ent : forall t th, threads s !! t = Some th -> t <> 0 /\ entity_ok (sched_of th);
  q_size : Z.of_nat (size (threads s)) < 2 ^ 31;
  q_min : is_u64 (min_vruntime s) }.

Lemma q_dom s l t : queue_ok s l -> t ∈ l -> is_Some (threads s !! t).
Proof. intros H Ht. apply (q_in s l H) in Ht as (th & -> & _). by eexists. Qed.

Lemma q_weight_of s l t : queue_ok s l -> t ∈ l -> 15 <= weight_of (threads s) t <= 88761.
Proof.
  intros H Ht. destruct (q_dom s l t H Ht) as [th Hth]. unfold weight_of. rewrite Hth.
  exact (weight_range _ (proj2 (q_ent s l H t th Hth))).
Qed.

Lemma q_length s l : queue_ok s l -> 0 <= count s < 2 ^ 31 /\ Z.of_nat (length l) < 2 ^ 31.
Proof.
  intros H. pose proof (nodup_size (threads s) l (tl_ok_nodup _ _ _ (q_tl s l H)) (fun t => q_dom s l t H)).
  pose proof (q_size s l H). pose proof (q_count s l H). lia.
Qed.

Lemma q_load s l : queue_ok s l -> 0 <= total_weight s < 2 ^ 48.
Proof.
  intros H. rewrite (q_weight s l H). pose proof (q_length s l H).
  pose proof (load_range (threads s) l) as HR. destruct HR as [A B]; [|lia].
  intros p Hp. pose proof (q_weight_of s l p H Hp). lia.
Qed.

(** An update of a thread that is not queued, or that keeps its key and weight. *)
Lemma queue_put s l t th th' : queue_ok s l -> threads s !! t = Some th ->
  on_runqueue (sched_of th') = on_runqueue (sched_of th) -> entity_ok (sched_of th') ->
  (on_runqueue (sched_of th) = true -> tid th' = tid th /\ vruntime (sched_of th') = vruntime (sched_of th) /\
     weight (sched_of th') = weight (sched_of th)) ->
  queue_ok (put_thread s t th') l.
Proof.
  intros H Hth Hq He Hk.
  assert (HE : forall p, p ∈ l -> exists a b, threads s !! p = Some a /\ <[t := th']> (threads s) !! p = Some b /\
                tid b = tid a /\ vruntime (sched_of b) = vruntime (sched_of a) /\ weight (sched_of b) = weight (sched_of a)).
  { intros p Hp. apply (q_in s l H) in Hp as (a & Ha & Hqa). destruct (decide (p = t)) as [->|Hne].
    - rewrite Hth in Ha. injection Ha as <-. exists th, th'. rewrite lookup_insert_eq. split_and!; try done; by apply Hk.
    - exists a, a. by rewrite lookup_insert_ne. }
  split; cbn [put_thread threads timeline count total_weight min_vruntime].
  - rewrite dom_insert_lookup_L by done. apply (q_tl s l H).
  - intros p. rewrite (q_in s l H p). destruct (decide (p = t)) as [->|Hne].
    + rewrite lookup_insert_eq, Hth. split; intros (x & [= <-] & Hx); eexists; (split; [done|]); congruence.
    + by rewrite lookup_insert_ne.
  - eapply sorted_agree; [|apply (q_sorted s l H)]. intros p q Hp Hq'. unfold precedes.
    destruct (HE p Hp) as (a & a' & -> & -> & -> & -> & _), (HE q Hq') as (b & b' & -> & -> & -> & -> & _). done.
  - apply (q_count s l H).
  - rewrite (q_weight s l H). symmetry. apply load_agree. intros p Hp. unfold weight_of.
    by destruct (HE p Hp) as (a & a' & -> & -> & _ & _ & E).
  - intros p x. destruct (decide (p = t)) as [->|Hne].
    + rewrite lookup_insert_eq. intros [= <-]. split; [apply (q_ent s l H t th Hth)|done].
    + rewrite lookup_insert_ne by done. apply (q_ent s l H).
  - rewrite map_size_insert_Some by done. apply (q_size s l H).
  - apply (q_min s l H).
Qed.

(** [requeued s t th tl w n]: [s] with a new record for [t] and a new queue. *)
Definition requeued s t (th : thread) (tl : T) (w n : Z) : runqueue T :=
  MkRq (<[t := th]> (threads s)) tl w (min_vruntime s) n (cpus s) (context_switches s).

Lemma entity_before_Ret s p q : is_Some (threads s !! p) -> is_Some (threads s !! q) ->
  entity_before s p q = Ret (precedes (threads s) p q).
Proof. unfold entity_before, thread_at, precedes. intros [a Ha] [b Hb]. by rewrite Ha, Hb. Qed.

Lemma enqueue_ok s l t th : queue_ok s l -> threads s !! t = Some th -> on_runqueue (sched_of th) = false ->
  exists tl l1 l2, l = l1 ++ l2 /\
    let s' := requeued s t (with_sched th (with_queued (sched_of th) true)) tl (total_weight s + weight (sched_of th))
                (count s + 1) in
    enqueue_entity_locked s t = Ret s' /\ queue_ok s' (l1 ++ t :: l2).
Proof.
  intros H Hth Hq. assert (Hn : t ∉ l). { intros Hin. apply (q_in s l H) in Hin as (x & ? & ?). congruence. }
  destruct (queue_split (threads s) l t) as (l1 & l2 & -> & F & G);
    [apply H|intros q; by apply q_dom|by eexists|].
  destruct (q_ent _ _ H t th Hth) as [Ht0 He]. pose proof (weight_range _ He) as HW.
  destruct (tl_insert_ok (dom (threads s)) (timeline s) l1 l2 t (entity_before s t)) as (tl & Htl & Hok).
  { apply H. } { by apply elem_of_dom_2 in Hth. } { done. } { done. }
  1,2: intros q Hin; rewrite entity_before_Ret; [f_equal; auto|by eexists|eapply q_dom; [done|set_solver]].
  exists tl, l1, l2. split; [done|]. pose proof (q_length _ _ H) as [HC HC']. pose proof (q_load _ _ H) as HWt.
  split.
  - unfold enqueue_entity_locked. rewrite Htl. cbn [mbind outcome_bind]. unfold thread_at. rewrite Hth.
    cbn [deref mbind outcome_bind]. cbn -[Z.pow]. rewrite wrap64_id, wrap32_id by (unfold is_u64, is_u32; lia). done.
  - set (th' := with_sched th _). assert (HP : forall p q, precedes (<[t := th']> (threads s)) p q = precedes (threads s) p q)
      by (intros; by apply precedes_insert with th).
    split; cbn [requeued threads timeline count total_weight min_vruntime].
    + by rewrite dom_insert_lookup_L.
    + intros p. destruct (decide (p = t)) as [->|Hne].
      * rewrite lookup_insert_eq. split; [intros _; by eexists|set_solver].
      * rewrite lookup_insert_ne, <-(q_in _ _ H p) by done. set_solver.
    + apply (sorted_agree (threads s)); [auto|]. apply sorted_insert;
        [apply H|intros q Hin; by eapply q_dom|by eexists|done..].
    + rewrite (q_count _ _ H), !length_app. cbn. lia.
    + rewrite (q_weight _ _ H), !load_app, load_cons.
      replace (weight_of (<[t := th']> (threads s)) t) with (weight (sched_of th))
        by (unfold weight_of; by rewrite lookup_insert_eq).
      rewrite !(load_agree (threads s) (<[t:=th']> _)); [lia|..];
        intros p Hp; unfold weight_of; rewrite lookup_insert_ne by set_solver; done.
    + intros p x. destruct (decide (p = t)) as [->|Hne].
      * rewrite lookup_insert_eq. intros [= <-]. split; [done|]. by destruct He.
      * rewrite lookup_insert_ne by done. apply H.
    + rewrite map_size_insert_Some by done. apply H.
    + apply H.
Qed.

Lemma dequeue_ok s l1 t l2 th : queue_ok s (l1 ++ t :: l2) -> threads s !! t = Some th ->
  exists tl,
    let s' := requeued s t (with_sched th (with_queued (sched_of th) false)) tl (total_weight s - weight (sched_of th))
                (count s - 1) in
    dequeue_entity_locked s t = Ret s' /\ queue_ok s' (l1 ++ l2).
Proof.
  intros H Hth. pose proof (tl_ok_nodup _ _ _ (q_tl _ _ H)) as Hnd.
  destruct (q_ent _ _ H t th Hth) as [Ht0 He]. pose proof (weight_range _ He) as HW.
  destruct (tl_erase_ok (dom (threads s)) (timeline s) l1 t l2) as (tl & Htl & Hok); [apply H|].
  assert (Hq : on_runqueue (sched_of th) = true).
  { destruct (proj1 (q_in _ _ H t)) as (x & Hx & Hxq); [set_solver|]. congruence. }
  assert (Hn : t ∉ l1 ++ l2) by (apply NoDup_app in Hnd as (_ & ? & [? ?]%NoDup_cons); set_solver).
  assert (HLo : forall k, (forall p, p ∈ k -> p <> t) ->
            load (<[t := with_sched th (with_queued (sched_of th) false)]> (threads s)) k = load (threads s) k).
  { intros k Hk. apply load_agree. intros p Hp. unfold weight_of. by rewrite lookup_insert_ne by (symmetry; auto). }
  pose proof (q_length _ _ H) as [HC HC']. pose proof (q_load _ _ H) as HWt. pose proof (q_weight _ _ H) as Hsum.
  pose proof (q_count _ _ H) as HCe. rewrite length_app in HCe. cbn in HCe.
  rewrite load_app, load_cons in Hsum. unfold weight_of in Hsum. rewrite Hth in Hsum. cbn in Hsum.
  assert (HR : forall k, (forall p, p ∈ k -> p ∈ l1 ++ t :: l2) -> 0 <= load (threads s) k).
  { intros k Hk. apply load_range. intros p Hp. pose proof (q_weight_of _ _ p H (Hk p Hp)). lia. }
  pose proof (HR l1 ltac:(set_solver)). pose proof (HR l2 ltac:(set_solver)).
  exists tl. split.
  - unfold dequeue_entity_locked, thread_at. rewrite Hth. cbn [deref mbind outcome_bind]. rewrite Hq. cbn [negb orb].
    unfold truth. rewrite (proj2 (Z.eqb_neq (count s) 0)) by lia. rewrite (proj2 (Z.ltb_ge _ _)) by lia.
    cbn [negb orb]. rewrite Htl. cbn [mbind outcome_bind]. cbn -[Z.pow].
    rewrite wrap64_id, wrap32_id by (unfold is_u64, is_u32; lia). done.
  - split; cbn [requeued threads timeline count total_weight min_vruntime].
    + by rewrite dom_insert_lookup_L.
    + intros p. destruct (decide (p = t)) as [->|Hne].
      * rewrite lookup_insert_eq. split; [done|]. by intros (x & [= <-] & [=]).
      * rewrite lookup_insert_ne, <-(q_in _ _ H p) by done. set_solver.
    + apply (sorted_agree (threads s)); [intros; by apply precedes_insert with th|]. eapply sorted_delete. apply H.
    + rewrite HCe, length_app. lia.
    + rewrite load_app, !HLo by set_solver. lia.
    + intros p x. destruct (decide (p = t)) as [->|Hne].
      * rewrite lookup_insert_eq. intros [= <-]. split; [done|]. by destruct He.
      * rewrite lookup_insert_ne by done. apply H.
    + rewrite map_size_insert_Some by done. apply H.
    + apply H.
Qed.

(** ** The least virtual runtime *)

Definition vruntime_of s t : list Z :=
  match threads s !! t with Some th => [vruntime (sched_of th)] | None => [] end.
Definition clock_of s (now : Z) t : list Z :=
  match threads s !! t with Some th => if is_running th then [entity_vruntime_now th now] else [] | None => [] end.

(** The virtual runtimes [update_min_vruntime_locked] looks at, when [sel] is running or about to. *)
Definition cpu_clocks s (sel now : Z) (c : cpu) : list Z :=
  (if truth (current c) && negb (current c =? sel) then clock_of s now (current c) else []) ++
  (if truth (selected c) && negb (selected c =? sel) then vruntime_of s (selected c) else []).
Definition clocks s l (sel now : Z) : list Z :=
  vruntime_of s sel ++ vruntime_of s (hd 0 l) ++ (cpus s ≫= cpu_clocks s sel now).

Definition least (l : list Z) : Z := foldr Z.min UINT64_MAX l.

Lemma least_cons x l : least (x :: l) = Z.min x (least l).
Proof. done. Qed.
Lemma least_max l : least l <= UINT64_MAX.
Proof. induction l; rewrite ?least_cons; [done|lia]. Qed.
Lemma least_app l1 l2 : least (l1 ++ l2) = Z.min (least l1) (least l2).
Proof.
  pose proof (least_max l2). induction l1 as [|x l1 IH]; cbn [app]; [change (least []) with UINT64_MAX; lia|].
  rewrite !least_cons. lia.
Qed.
Lemma least_le l x : x ∈ l -> least l <= x.
Proof. induction 1; rewrite least_cons; lia. Qed.
Lemma least_u64 l : (forall x, x ∈ l -> is_u64 x) -> is_u64 (least l).
Proof.
  induction l as [|x l IH]; intros H; [change (least []) with UINT64_MAX; unfold is_u64, UINT64_MAX; lia|].
  rewrite least_cons.
  specialize (IH ltac:(set_solver)). pose proof (H x ltac:(set_solver)). unfold is_u64 in *. lia.
Qed.

(** The CPUs point to threads of the table. *)
Definition cpus_known s : Prop := forall c, c ∈ cpus s ->
  (current c <> 0 -> is_Some (threads s !! current c)) /\ (selected c <> 0 -> is_Some (threads s !! selected c)).

Lemma min_step (b : bool) x m : (if b && (x <? m) then x else m) = (if b then Z.min m x else m).
Proof. destruct b; cbn; [|done]. destruct (Z.ltb_spec x m); lia. Qed.

Lemma min_over_cpu_Ret s sel now m c : m <= UINT64_MAX ->
  (current c <> 0 -> is_Some (threads s !! current c)) -> (selected c <> 0 -> is_Some (threads s !! selected c)) ->
  min_over_cpu s sel now m c = Ret (Z.min m (least (cpu_clocks s sel now c))).
Proof.
  intros Hm Hc Hs. unfold min_over_cpu, cpu_clocks, clock_of, vruntime_of, thread_at, truth. rewrite least_app.
  assert (E : forall y, (if vruntime (sched_of y) <? m then vruntime (sched_of y) else m) = Z.min m (vruntime (sched_of y)))
    by (intros y; destruct (Z.ltb_spec (vruntime (sched_of y)) m); lia).
  destruct (Z.eqb_spec (current c) 0) as [_|Hc0]; cbn [negb andb].
  2: destruct (Hc Hc0) as [x Hx]; rewrite Hx; destruct (negb (current c =? sel)); cbn [deref mbind outcome_bind];
     rewrite ?min_step; [destruct (is_running x)|].
  all: destruct (Z.eqb_spec (selected c) 0) as [_|Hs0]; cbn [negb andb].
  all: try (destruct (Hs Hs0) as [y Hy]; rewrite Hy; destruct (negb (selected c =? sel)); cbn [deref mbind outcome_bind]).
  all: cbn -[UINT64_MAX]; rewrite ?E; f_equal; try lia.
  all: repeat match goal with |- context [?a <? ?b] => destruct (Z.ltb_spec a b) end; lia.
Qed.

Lemma min_loop_Ret s sel now cs m : m <= UINT64_MAX ->
  (forall c, c ∈ cs -> (current c <> 0 -> is_Some (threads s !! current c)) /\
                       (selected c <> 0 -> is_Some (threads s !! selected c))) ->
  for_each (min_over_cpu s sel now) cs m = Ret (Z.min m (least (cs ≫= cpu_clocks s sel now))).
Proof.
  revert m; induction cs as [|c cs IH]; intros m Hm H; cbn [for_each mbind list_bind].
  - f_equal. cbn. lia.
  - destruct (H c ltac:(set_solver)) as [H1 H2]. rewrite min_over_cpu_Ret by done. cbn [mbind outcome_bind].
    rewrite IH; [|lia|set_solver]. f_equal. rewrite least_app. lia.
Qed.

(** [min_vruntime] follows the least of the clocks, upwards only. *)
Definition raised (old m : Z) : Z := if m =? UINT64_MAX then old else Z.max old m.

Lemma update_min_ok s l sel now : queue_ok s l -> cpus_known s -> (sel <> 0 -> is_Some (threads s !! sel)) ->
  update_min_vruntime_locked s sel now = Ret (set_min s (raised (min_vruntime s) (least (clocks s l sel now)))).
Proof.
  intros H HC Hsel. unfold update_min_vruntime_locked. rewrite (tl_first_ok _ _ _ (q_tl s l H)). cbn [mbind outcome_bind].
  assert (H0 : threads s !! 0 = None).
  { destruct (threads s !! 0) as [th|] eqn:E; [|done]. by destruct (q_ent s l H 0 th E). }
  assert (Hself : (if truth sel then th ← thread_at s sel; Ret (vruntime (sched_of th)) else Ret UINT64_MAX) =
                  Ret (least (vruntime_of s sel))).
  { unfold truth, thread_at, vruntime_of. destruct (Z.eqb_spec sel 0) as [->|Hs]; cbn [negb]; [by rewrite H0|].
    destruct (Hsel Hs) as [th Hth]. pose proof (ent_vruntime _ (proj2 (q_ent s l H sel th Hth))) as Hv.
    rewrite Hth. cbn. f_equal. unfold is_u64, UINT64_MAX in *. lia. }
  rewrite Hself. cbn [mbind outcome_bind]. set (m0 := least (vruntime_of s sel)).
  assert (Hm0 : m0 <= UINT64_MAX). { subst m0. unfold vruntime_of. destruct (threads s !! sel); cbn; lia. }
  assert (Hfst : (if truth (hd 0 l)
             then th ← thread_at s (hd 0 l); Ret (if vruntime (sched_of th) <? m0 then vruntime (sched_of th) else m0)
             else Ret m0) = Ret (Z.min m0 (least (vruntime_of s (hd 0 l))))).
  { unfold truth, thread_at, vruntime_of. destruct l as [|p l]; cbn [hd].
    - rewrite H0. cbn. f_equal. lia.
    - destruct (q_dom _ _ p H) as [th Hth]; [set_solver|]. rewrite Hth.
      destruct (Z.eqb_spec p 0) as [->|Hp]; [congruence|]. cbn. f_equal.
      destruct (Z.ltb_spec (vruntime (sched_of th)) m0); lia. }
  rewrite Hfst. cbn [mbind outcome_bind]. rewrite min_loop_Ret; [|lia|exact HC]. cbn [mbind outcome_bind].
  subst m0. rewrite <-!least_app. rewrite <-app_assoc. fold (clocks s l sel now). unfold raised.
  destruct (Z.eqb_spec (least (clocks s l sel now)) UINT64_MAX); cbn [negb andb]; [by destruct s|].
  destruct (Z.ltb_spec (min_vruntime s) (least (clocks s l sel now))); [rewrite Z.max_r by lia; done|].
  rewrite Z.max_l by lia. by destruct s.
Qed.

Lemma queue_set_min s l v : queue_ok s l -> is_u64 v -> queue_ok (set_min s v) l.
Proof. intros H Hv. by destruct H; split. Qed.

Lemma clocks_u64 s l sel now x : queue_ok s l -> is_u64 now -> x ∈ clocks s l sel now -> is_u64 x.
Proof.
  intros H Hn. assert (HV : forall t, x ∈ vruntime_of s t -> is_u64 x).
  { intros t. unfold vruntime_of. destruct (threads s !! t) eqn:E; [|set_solver]. intros ->%list_elem_of_singleton.
    apply (q_ent _ _ H _ _ E). }
  unfold clocks. rewrite !elem_of_app, list_elem_of_bind. intros [Hx|[Hx|(c & Hx & _)]]; [by eapply HV..|].
  unfold cpu_clocks in Hx. apply elem_of_app in Hx as [Hx|Hx]; (destruct (_ && _) in Hx; [|set_solver]); [|by eapply HV].
  unfold clock_of in Hx. destruct (threads s !! _) eqn:E; [|set_solver]. destruct (is_running _); [|set_solver].
  apply list_elem_of_singleton in Hx as ->. exact (proj1 (vruntime_now_range _ now (proj2 (q_ent _ _ H _ _ E)) Hn)).
Qed.

Lemma raised_range s l sel now : queue_ok s l -> is_u64 now ->
  is_u64 (raised (min_vruntime s) (least (clocks s l sel now))) /\
  min_vruntime s <= raised (min_vruntime s) (least (clocks s l sel now)).
Proof.
  intros H Hn. pose proof (q_min s l H) as Hm.
  pose proof (least_u64 _ (fun x => clocks_u64 s l sel now x H Hn)) as HL'.
  unfold raised, is_u64 in *. destruct (_ =? _); lia.
Qed.
End queue.
