(* ===== verification/SchedulerPlace.v ===== *)
(** * Where threads are

    The part of the scheduler's invariant that relates the state of a thread,
    the queue flag, the owner of its lock and the [current] and [selected]
    fields of the CPUs, and the transitions that keep it. *)
From S2P Require Import Prelude Timeline Scheduler SchedulerQueue.

(** A thread that left the state RUNNING stays [current] until the switch, and its CPU keeps its lock meanwhile; a
    selected thread is neither queued nor selected twice; a runnable thread is queued or selected, never lost. *)
Record place (m : gmap Z thread) (cs : list cpu) : Prop := {
  pl_current i c : cs !! i = Some c -> current c <> 0 ->
    exists th, m !! current c = Some th /\ (state th = THREAD_RUNNING \/ lock_owner th = Some i);
  pl_alone i j c d : cs !! i = Some c -> cs !! j = Some d -> current c = current d -> current c <> 0 -> i = j;
  pl_selected i c : cs !! i = Some c -> selected c <> 0 ->
    current c = 0 /\
    exists th, m !! selected c = Some th /\ state th = THREAD_RUNNABLE /\ on_runqueue (sched_of th) = false;
  pl_claimed i j c d : cs !! i = Some c -> cs !! j = Some d -> selected c = selected d -> selected c <> 0 -> i = j;
  pl_running t th : m !! t = Some th -> state th = THREAD_RUNNING -> exists i c, cs !! i = Some c /\ current c = t;
  pl_runnable t th : m !! t = Some th -> state th = THREAD_RUNNABLE ->
    on_runqueue (sched_of th) = true \/ exists i c, cs !! i = Some c /\ selected c = t;
  pl_queued t th : m !! t = Some th -> on_runqueue (sched_of th) = true -> state th = THREAD_RUNNABLE;
  pl_home t th : m !! t = Some th -> state th <> THREAD_UNUSED -> home th <> 0 \/ kernel_thread th = true }.

(** Lookups in an updated table or CPU list, by cases. *)
Ltac look_thread :=
  match goal with
  | H : <[?t := _]> _ !! ?p = Some ?x |- _ =>
      apply lookup_insert_Some in H as [[? ?]|[? H]]; [subst p x|]
  end.
Ltac look_cpu :=
  match goal with
  | H : <[?i := _]> _ !! ?j = Some ?c |- _ =>
      apply list_lookup_insert_Some in H as [(? & ? & _)|[? H]]; [subst j c|]
  end.

Section update.
  Context (m : gmap Z thread) (cs : list cpu) (HP : place m cs).

(** A new record for one thread. *)
Lemma place_put t th' :
  (forall i c, cs !! i = Some c -> current c = t -> state th' = THREAD_RUNNING \/ lock_owner th' = Some i) ->
  (forall i c, cs !! i = Some c -> selected c = t -> state th' = THREAD_RUNNABLE /\ on_runqueue (sched_of th') = false) ->
  (state th' = THREAD_RUNNING -> exists i c, cs !! i = Some c /\ current c = t) ->
  (state th' = THREAD_RUNNABLE -> on_runqueue (sched_of th') = true \/ exists i c, cs !! i = Some c /\ selected c = t) ->
  (on_runqueue (sched_of th') = true -> state th' = THREAD_RUNNABLE) ->
  (state th' <> THREAD_UNUSED -> home th' <> 0 \/ kernel_thread th' = true) ->
  place (<[t := th']> m) cs.
Proof.
  intros HC HS HR HQ HI HH. split.
  - intros i c Hi Hc. destruct (decide (current c = t)) as [E|Hne].
    + exists th'. rewrite E, lookup_insert_eq. eauto.
    + rewrite lookup_insert_ne by done. by apply HP.
  - apply HP.
  - intros i c Hi Hc. destruct (pl_selected _ _ HP i c Hi Hc) as [H0 H1]. split; [done|].
    destruct (decide (selected c = t)) as [E|Hne].
    + exists th'. rewrite E, lookup_insert_eq. eauto.
    + by rewrite lookup_insert_ne.
  - apply HP.
  - intros p x Hx Hst. look_thread; [auto|by eapply HP].
  - intros p x Hx Hst. look_thread; [auto|by eapply HP].
  - intros p x Hx Hst. look_thread; [auto|by eapply HP].
  - intros p x Hx Hst. look_thread; [auto|by eapply HP].
Qed.

(** What the invariant says of one thread. *)
Lemma current_is t th i c : m !! t = Some th -> t <> 0 -> cs !! i = Some c -> current c = t ->
  state th = THREAD_RUNNING \/ lock_owner th = Some i.
Proof. intros Ht H0 Hi <-. destruct (pl_current _ _ HP i c Hi H0) as (x & Hx & ?). by simplify_eq. Qed.

Lemma selected_is t th i c : m !! t = Some th -> t <> 0 -> cs !! i = Some c -> selected c = t ->
  state th = THREAD_RUNNABLE /\ on_runqueue (sched_of th) = false /\ current c = 0.
Proof. intros Ht H0 Hi <-. destruct (pl_selected _ _ HP i c Hi H0) as (? & x & Hx & ? & ?). by simplify_eq. Qed.

(** A new record that keeps the place of the thread, with a new owner of its lock where that is allowed. *)
Lemma place_owner t th th' : m !! t = Some th -> t <> 0 -> state th' = state th ->
  on_runqueue (sched_of th') = on_runqueue (sched_of th) -> home th' = home th ->
  kernel_thread th' = kernel_thread th ->
  (forall i, lock_owner th = Some i ->
     lock_owner th' = Some i \/ forall c, cs !! i = Some c -> current c = t -> state th = THREAD_RUNNING) ->
  place (<[t := th']> m) cs.
Proof.
  intros Ht H0 E1 E2 E3 E4 HO. apply place_put; rewrite ?E1, ?E2, ?E3, ?E4; try (by eapply HP).
  - intros i c Hi Hc. destruct (current_is t th i c) as [|Ho]; [done..|by left|]. destruct (HO i Ho) as [|HR]; [by right|].
    left. eauto.
  - intros i c Hi Hc. destruct (selected_is t th i c) as (? & ? & _); done.
Qed.

Lemma place_quiet t th th' : m !! t = Some th -> t <> 0 -> state th' = state th ->
  on_runqueue (sched_of th') = on_runqueue (sched_of th) -> lock_owner th' = lock_owner th -> home th' = home th ->
  kernel_thread th' = kernel_thread th -> place (<[t := th']> m) cs.
Proof. intros Ht H0 E1 E2 E3 E4 E5. eapply place_owner; try done. intros i Hi. left. congruence. Qed.

(** Becoming runnable and queued. *)
Lemma place_queue t th th' : m !! t = Some th -> t <> 0 -> state th <> THREAD_RUNNABLE -> state th <> THREAD_UNUSED ->
  (forall i c, cs !! i = Some c -> current c = t -> lock_owner th' = Some i) ->
  state th' = THREAD_RUNNABLE -> on_runqueue (sched_of th') = true -> home th' = home th ->
  kernel_thread th' = kernel_thread th -> place (<[t := th']> m) cs.
Proof.
  intros Ht H0 H1 H2 HO E1 E2 E3 E4. apply place_put; rewrite ?E1, ?E2, ?E3, ?E4; try done; eauto.
  - intros i c Hi Hc. by destruct (selected_is t th i c) as (? & _).
  - intros _. by eapply HP.
Qed.

(** Leaving the state RUNNING for one that is not runnable. *)
Lemma place_stop t th th' me c : m !! t = Some th -> t <> 0 -> state th = THREAD_RUNNING -> cs !! me = Some c ->
  current c = t -> lock_owner th' = Some me -> state th' <> THREAD_RUNNING -> state th' <> THREAD_RUNNABLE ->
  on_runqueue (sched_of th') = on_runqueue (sched_of th) -> home th' = home th ->
  kernel_thread th' = kernel_thread th -> place (<[t := th']> m) cs.
Proof.
  intros Ht H0 H1 Hme Hc E1 E2 E3 E4 E5 E6. apply place_put; try done; rewrite ?E4, ?E5, ?E6.
  - intros i d Hi Hd. right. rewrite E1. f_equal. apply (pl_alone _ _ HP me i c d); congruence.
  - intros i d Hi Hd. destruct (selected_is t th i d) as (? & _); [done..|congruence].
  - intros HQ. pose proof (pl_queued _ _ HP t th Ht HQ). congruence.
  - intros _. eapply HP; [done|congruence].
Qed.

(** A thread that no CPU runs or selected, and that is not runnable afterwards either. *)
Lemma place_aside t th th' : m !! t = Some th -> t <> 0 -> state th <> THREAD_RUNNABLE ->
  (forall i c, cs !! i = Some c -> current c <> t) ->
  state th' <> THREAD_RUNNING -> state th' <> THREAD_RUNNABLE -> on_runqueue (sched_of th') = false ->
  (state th' <> THREAD_UNUSED -> home th' <> 0 \/ kernel_thread th' = true) -> place (<[t := th']> m) cs.
Proof.
  intros Ht H0 H1 HC E1 E2 E3 E4. apply place_put; try done; rewrite ?E3; try done.
  - intros i c Hi Hc. by destruct (HC i c Hi).
  - intros i c Hi Hc. by destruct (selected_is t th i c) as (? & _).
Qed.

(** Other fields of a CPU. *)
Lemma place_flags i c c' : cs !! i = Some c -> current c' = current c -> selected c' = selected c ->
  place m (<[i := c']> cs).
Proof.
  intros Hi E1 E2.
  assert (HB : forall j d', <[i := c']> cs !! j = Some d' ->
            exists d, cs !! j = Some d /\ current d' = current d /\ selected d' = selected d).
  { intros j d' Hj. look_cpu; eauto. }
  assert (HF : forall j d, cs !! j = Some d ->
            exists d', <[i := c']> cs !! j = Some d' /\ current d' = current d /\ selected d' = selected d).
  { intros j d Hj. destruct (decide (i = j)) as [<-|Hne].
    - simplify_eq. exists c'. split_and!; try done. apply list_lookup_insert_eq. by eapply lookup_lt_Some.
    - exists d. by rewrite list_lookup_insert_ne. }
  split.
  - intros j d' Hj. destruct (HB j d' Hj) as (d & Hd & -> & _). by apply HP.
  - intros j k d' e' Hj Hk. destruct (HB j d' Hj) as (d & Hd & -> & _), (HB k e' Hk) as (e & He & -> & _). by eapply HP.
  - intros j d' Hj. destruct (HB j d' Hj) as (d & Hd & -> & ->). by eapply HP.
  - intros j k d' e' Hj Hk. destruct (HB j d' Hj) as (d & Hd & _ & ->), (HB k e' Hk) as (e & He & _ & ->). by eapply HP.
  - intros t th Ht Hst. destruct (pl_running _ _ HP t th Ht Hst) as (j & d & Hd & Hc).
    destruct (HF j d Hd) as (d' & Hd' & E & _). exists j, d'. by rewrite E.
  - intros t th Ht Hst. destruct (pl_runnable _ _ HP t th Ht Hst) as [|(j & d & Hd & Hc)]; [by left|right].
    destruct (HF j d Hd) as (d' & Hd' & _ & E). exists j, d'. by rewrite E.
  - apply HP.
  - apply HP.
Qed.

(** ** The switches of a CPU *)

Lemma cpu_kept me c' j d : cs !! j = Some d -> j <> me -> <[me := c']> cs !! j = Some d.
Proof. intros Hj Hne. by rewrite list_lookup_insert_ne. Qed.
Lemma cpu_new me c c' : cs !! me = Some c -> <[me := c']> cs !! me = Some c'.
Proof. intros H. apply list_lookup_insert_eq. by eapply lookup_lt_Some. Qed.

Hypothesis no_null : m !! 0 = None.

(** [scheduler_next]: a queued thread is selected. *)
Lemma place_select me c c' t th th' : cs !! me = Some c -> current c = 0 -> selected c = 0 ->
  m !! t = Some th -> t <> 0 -> on_runqueue (sched_of th) = true ->
  current c' = 0 -> selected c' = t -> state th' = state th -> on_runqueue (sched_of th') = false ->
  lock_owner th' = lock_owner th -> home th' = home th -> kernel_thread th' = kernel_thread th ->
  place (<[t := th']> m) (<[me := c']> cs).
Proof.
  intros Hme Hc Hs Ht H0 HQ Ec Es E1 E2 E3 E4 E5. pose proof (pl_queued _ _ HP t th Ht HQ) as HR.
  assert (HN : forall i d, cs !! i = Some d -> selected d <> t).
  { intros i d Hi Hd. destruct (selected_is t th i d) as (_ & ? & _); [done..|congruence]. }
  split.
  - intros i d Hi Hd. look_cpu; [congruence|]. destruct (pl_current _ _ HP i d Hi Hd) as (x & Hx & Hxs).
    destruct (decide (current d = t)) as [Edt|Hne].
    + rewrite Edt in *. simplify_eq. exists th'. by rewrite lookup_insert_eq, E1, E3.
    + exists x. by rewrite lookup_insert_ne.
  - intros i j d e Hi Hj. look_cpu; [congruence|]. look_cpu; [congruence|]. by eapply HP.
  - intros i d Hi Hd. look_cpu.
    + split; [done|]. exists th'. rewrite Es, lookup_insert_eq. split; [done|]. by rewrite E1.
    + destruct (pl_selected _ _ HP i d Hi Hd) as (? & x & Hx & ?). split; [done|]. exists x.
      rewrite lookup_insert_ne; [done|]. intros Et. by eapply HN.
  - intros i j d e Hi Hj. repeat look_cpu; try done.
    + rewrite Es. intros E _. by destruct (HN i d Hi).
    + rewrite Es. intros E _. by destruct (HN j e Hj).
    + by eapply HP.
  - intros p x Hx Hst. look_thread; [congruence|]. destruct (pl_running _ _ HP p x Hx Hst) as (i & d & Hi & Hd).
    exists i, d. split; [|done]. apply cpu_kept; [done|]. intros ->. congruence.
  - intros p x Hx Hst. look_thread; [right; exists me, c'; split; [by eapply cpu_new|done]|].
    destruct (pl_runnable _ _ HP p x Hx Hst) as [|(i & d & Hi & Hd)]; [by left|right]. exists i, d. split; [|done].
    apply cpu_kept; [done|]. intros ->. congruence.
  - intros p x Hx. look_thread; [congruence|]. by eapply HP.
  - intros p x Hx. look_thread; [|by eapply HP]. rewrite E1, E4, E5. by eapply HP.
Qed.

(** [scheduler]: the selected thread runs. *)
Lemma place_start me c c' t th th' : cs !! me = Some c -> selected c = t -> m !! t = Some th -> t <> 0 ->
  lock_owner th = None -> current c' = t -> selected c' = 0 -> state th' = THREAD_RUNNING ->
  on_runqueue (sched_of th') = false -> home th' = home th -> kernel_thread th' = kernel_thread th ->
  place (<[t := th']> m) (<[me := c']> cs).
Proof.
  intros Hme Hs Ht H0 HO Ec Es E1 E2 E3 E4. destruct (selected_is t th me c) as (HR & HQ & Hc0); try done.
  assert (HN : forall i d, cs !! i = Some d -> current d <> t).
  { intros i d Hi Hd. destruct (current_is t th i d) as [?|?]; congruence. }
  split.
  - intros i d Hi Hd. look_cpu; [exists th'; rewrite Ec, lookup_insert_eq; by auto|].
    destruct (pl_current _ _ HP i d Hi Hd) as (x & Hx & Hxs). exists x.
    rewrite lookup_insert_ne; [done|]. intros Et. by eapply HN.
  - intros i j d e Hi Hj. repeat look_cpu; try done.
    + rewrite Ec. intros E _. by destruct (HN i d Hi).
    + rewrite Ec. intros E _. by destruct (HN j e Hj).
    + by eapply HP.
  - intros i d Hi Hd. look_cpu; [congruence|]. destruct (pl_selected _ _ HP i d Hi Hd) as (? & x & Hx & ?).
    split; [done|]. exists x. rewrite lookup_insert_ne; [done|]. intros Et.
    destruct (pl_claimed _ _ HP me i c d Hme Hi); congruence.
  - intros i j d e Hi Hj. repeat look_cpu; try done; [congruence..|]. by eapply HP.
  - intros p x Hx Hst. look_thread; [exists me, c'; split; [by eapply cpu_new|done]|].
    destruct (pl_running _ _ HP p x Hx Hst) as (i & d & Hi & Hd).
    exists i, d. split; [|done]. apply cpu_kept; [done|]. intros ->. congruence.
  - intros p x Hx Hst. look_thread; [congruence|].
    destruct (pl_runnable _ _ HP p x Hx Hst) as [|(i & d & Hi & Hd)]; [by left|right]. exists i, d. split; [|done].
    apply cpu_kept; [done|]. intros ->. congruence.
  - intros p x Hx. look_thread; [congruence|]. by eapply HP.
  - intros p x Hx. look_thread; [|by eapply HP]. rewrite E3, E4. intros _. eapply HP; [done|congruence].
Qed.

(** [scheduler], after the switch: the CPU runs no thread. *)
Lemma place_leave me c c' t th : cs !! me = Some c -> current c = t -> m !! t = Some th -> t <> 0 ->
  state th <> THREAD_RUNNING -> current c' = 0 -> selected c' = 0 -> place m (<[me := c']> cs).
Proof.
  intros Hme Hc Ht H0 HR Ec Es.
  assert (Hs : selected c = 0).
  { destruct (decide (selected c = 0)) as [|Hne]; [done|]. destruct (pl_selected _ _ HP me c Hme Hne). congruence. }
  split.
  - intros i d Hi Hd. look_cpu; [congruence|]. by apply HP.
  - intros i j d e Hi Hj. repeat look_cpu; try done; [congruence..|]. by eapply HP.
  - intros i d Hi Hd. look_cpu; [congruence|]. by eapply HP.
  - intros i j d e Hi Hj. repeat look_cpu; try done; [congruence..|]. by eapply HP.
  - intros p x Hx Hst. destruct (pl_running _ _ HP p x Hx Hst) as (i & d & Hi & Hd).
    exists i, d. split; [|done]. apply cpu_kept; [done|]. intros ->. congruence.
  - intros p x Hx Hst. destruct (pl_runnable _ _ HP p x Hx Hst) as [|(i & d & Hi & Hd)]; [by left|right].
    exists i, d. split; [|done]. apply cpu_kept; [done|]. intros ->. congruence.
  - apply HP.
  - apply HP.
Qed.
End update.
