(* ===== verification/SchedulerOps.v ===== *)
(** * What the scheduler's operations do

    The invariant of the scheduler, and for each operation of
    kernel/scheduler.c that it returns without a panic in a state that
    satisfies the invariant and the conditions of its callers, and keeps the
    invariant. *)
From S2P Require Import Prelude Timeline Scheduler SchedulerQueue SchedulerPlace.

Section operations.
  Context {T : Type} {HT : Timeline T} {HL : TimelineLaws T}.
  Implicit Types (s : runqueue T) (l : list Z) (t : Z) (me : nat).

Record sched_ok s l : Prop := {
  ok_queue : queue_ok s l;
  ok_place : place (threads s) (cpus s) }.

Lemma ok_null s l : sched_ok s l -> threads s !! 0 = None.
Proof.
  intros [H _]. destruct (threads s !! 0) as [th|] eqn:E; [|done]. by destruct (q_ent s l H 0 th E).
Qed.
Lemma ok_nonnull s l t th : sched_ok s l -> threads s !! t = Some th -> t <> 0.
Proof. intros [H _] E. by destruct (q_ent s l H t th E). Qed.
Lemma ok_entity s l t th : sched_ok s l -> threads s !! t = Some th -> entity_ok (sched_of th).
Proof. intros [H _] E. by destruct (q_ent s l H t th E). Qed.

Lemma place_known s : place (threads s) (cpus s) -> cpus_known s.
Proof.
  intros HP c Hc. apply list_elem_of_lookup in Hc as [i Hi]. split; intros H0.
  - destruct (pl_current _ _ HP i c Hi H0) as (th & Hth & _). by eexists.
  - destruct (pl_selected _ _ HP i c Hi H0) as (_ & th & Hth & _). by eexists.
Qed.

(** A thread that is not runnable is not queued. *)
Lemma not_queued s l t th : sched_ok s l -> threads s !! t = Some th -> state th <> THREAD_RUNNABLE ->
  on_runqueue (sched_of th) = false.
Proof.
  intros [_ HP] Ht Hst. destruct (on_runqueue (sched_of th)) eqn:E; [|done]. by destruct Hst; eapply HP.
Qed.

Lemma thread_at_Ret s t th : threads s !! t = Some th -> thread_at s t = Ret th.
Proof. unfold thread_at. by intros ->. Qed.

(** ** Updates *)

Lemma ok_put s l t th th' : sched_ok s l -> threads s !! t = Some th ->
  state th' = state th -> lock_owner th' = lock_owner th -> home th' = home th -> kernel_thread th' = kernel_thread th ->
  on_runqueue (sched_of th') = on_runqueue (sched_of th) -> entity_ok (sched_of th') ->
  (on_runqueue (sched_of th) = true -> tid th' = tid th /\ vruntime (sched_of th') = vruntime (sched_of th) /\
     weight (sched_of th') = weight (sched_of th)) ->
  sched_ok (put_thread s t th') l.
Proof.
  intros [H HP] Ht E1 E2 E3 E4 E5 He Hk. split; [by eapply queue_put|]. cbn.
  eapply place_quiet; try done. by destruct (q_ent s l H t th Ht).
Qed.

(** The owner of a thread's lock changes. *)
Lemma ok_owner s l t th o : sched_ok s l -> threads s !! t = Some th ->
  (forall i, lock_owner th = Some i ->
     o = Some i \/ forall c, cpus s !! i = Some c -> current c = t -> state th = THREAD_RUNNING) ->
  sched_ok (put_thread s t (with_owner th o)) l.
Proof.
  intros H Ht HO. pose proof (ok_nonnull s l t th H Ht). pose proof (ok_entity s l t th H Ht). destruct H as [H HP].
  split; [by eapply queue_put|]. cbn. by eapply place_owner.
Qed.

Lemma queue_cpus s l cs : queue_ok s l -> queue_ok (set_cpus s cs) l.
Proof. intros H. by destruct H; split. Qed.
Lemma ok_min s l v : sched_ok s l -> is_u64 v -> sched_ok (set_min s v) l.
Proof. intros [H HP] Hv. split; [by apply queue_set_min|done]. Qed.

(** Flags of a CPU change. *)
Lemma ok_flags s l i c (f : cpu -> cpu) : sched_ok s l -> cpus s !! i = Some c ->
  current (f c) = current c -> selected (f c) = selected c ->
  upd_cpu s i f = Ret (set_cpus s (<[i := f c]> (cpus s))) /\ sched_ok (set_cpus s (<[i := f c]> (cpus s))) l.
Proof.
  intros [H HP] Hi E1 E2. split; [unfold upd_cpu; by rewrite (rd_Ret _ _ _ Hi)|].
  split; [by apply queue_cpus|]. cbn. by eapply place_flags.
Qed.

Lemma lock_ok s l me t th : sched_ok s l -> threads s !! t = Some th -> lock_owner th = None ->
  lock_thread s me t = Ret (put_thread s t (with_owner th (Some me))) /\
  sched_ok (put_thread s t (with_owner th (Some me))) l.
Proof.
  intros H Ht HO. unfold lock_thread. rewrite (thread_at_Ret s t th Ht). cbn. rewrite HO. split; [done|].
  eapply ok_owner; try done. intros i Hi. congruence.
Qed.

Lemma unlock_ok s l me t th : sched_ok s l -> threads s !! t = Some th -> lock_owner th = Some me ->
  (forall c, cpus s !! me = Some c -> current c = t -> state th = THREAD_RUNNING) ->
  unlock_thread s me t = Ret (put_thread s t (with_owner th None)) /\ sched_ok (put_thread s t (with_owner th None)) l.
Proof.
  intros H Ht HO HC. unfold unlock_thread. rewrite (thread_at_Ret s t th Ht). cbn. unfold spinlock_holding.
  rewrite bool_decide_true by done. split; [done|].
  eapply ok_owner; try done. intros i Hi. right. assert (i = me) by congruence. subst i. exact HC.
Qed.

Lemma update_ok s l sel now : sched_ok s l -> is_u64 now -> (sel <> 0 -> is_Some (threads s !! sel)) ->
  exists v, update_min_vruntime_locked s sel now = Ret (set_min s v) /\ sched_ok (set_min s v) l /\ min_vruntime s <= v.
Proof.
  intros H Hn Hs. destruct (raised_range s l sel now (ok_queue s l H) Hn) as [R1 R2]. eexists.
  split; [apply update_min_ok; [apply H|by apply place_known, H|done]|]. split; [by apply ok_min|done].
Qed.

Lemma account_ok s l t th now : sched_ok s l -> threads s !! t = Some th -> state th = THREAD_RUNNING -> is_u64 now ->
  sched_ok (put_thread s t (account_runtime th now)) l.
Proof.
  intros H Ht Hst Hn. destruct (account_runtime_frame th now) as [[A1 A2 A3 A4 A5 A6 A7 A8] _].
  eapply ok_put; try done.
  - apply account_runtime_ok; [by eapply ok_entity|done].
  - rewrite (not_queued s l t th); [done..|congruence].
Qed.

(** ** Waking a CPU *)

(** Only CPUs differ, and each runs the same thread. *)
Definition flags_of s s' : Prop := exists cs, s' = set_cpus s cs /\ (current <$> cs) = (current <$> cpus s).

Lemma flags_refl s : flags_of s s.
Proof. exists (cpus s). by destruct s. Qed.
Lemma flags_trans s1 s2 s3 : flags_of s1 s2 -> flags_of s2 s3 -> flags_of s1 s3.
Proof. intros (cs & -> & E1) (cs' & -> & E2). exists cs'. split; [done|]. by rewrite E2. Qed.
Lemma flags_upd s i c c' : cpus s !! i = Some c -> current c' = current c ->
  flags_of s (set_cpus s (<[i := c']> (cpus s))).
Proof.
  intros Hi E. eexists. split; [done|]. rewrite list_fmap_insert, E. apply list_insert_id.
  by rewrite list_lookup_fmap, Hi.
Qed.
Lemma flags_current s s' i c : flags_of s s' -> cpus s' !! i = Some c ->
  exists d, cpus s !! i = Some d /\ current d = current c.
Proof.
  intros (cs & -> & E) Hc. cbn in Hc. assert (HX : (current <$> cpus s) !! i = Some (current c)).
  { by rewrite <-E, list_lookup_fmap, Hc. }
  rewrite list_lookup_fmap in HX. destruct (cpus s !! i) as [d|]; [|done]. injection HX as HX. eauto.
Qed.

Lemma find_idle_Some cs i me k : find_idle cs i me = Some k -> (i <= k)%nat /\
  exists c, cs !! (k - i)%nat = Some c /\ online c = true /\ idle c = true /\ k <> me.
Proof.
  revert i; induction cs as [|c cs IH]; intros i; cbn [find_idle]; [done|].
  destruct (bool_decide (i = me)) eqn:E1, (online c) eqn:E2, (idle c) eqn:E3; cbn [negb orb].
  all: try (intros (Hk & d & Hd & ?)%IH; split; [lia|]; exists d;
            replace (k - i)%nat with (S (k - S i)) by lia; done).
  intros [= <-]. split; [lia|]. exists c. rewrite Nat.sub_diag. apply bool_decide_eq_false in E1. done.
Qed.

Lemma find_idle_None cs i me : find_idle cs i me = None ->
  forall k c, cs !! k = Some c -> (i + k)%nat <> me -> online c = true -> idle c = false.
Proof.
  revert i; induction cs as [|d cs IH]; intros i; cbn [find_idle]; [done|].
  destruct (bool_decide (i = me) || negb (online d) || negb (idle d)) eqn:E; [|done].
  intros HN [|k] c; cbn; intros Hk Hne Ho.
  - injection Hk as ->. rewrite Ho in E. rewrite bool_decide_eq_false_2 in E by lia. by destruct (idle c).
  - eapply (IH (S i)); try done. lia.
Qed.

Lemma claim_ok s l me : sched_ok s l -> (me < length (cpus s))%nat ->
  exists s' o, claim_idle_cpu_locked s me = Ret (s', o) /\ sched_ok s' l /\ flags_of s s'.
Proof.
  intros H Hme. apply lookup_lt_is_Some_2 in Hme as [c Hc]. unfold claim_idle_cpu_locked.
  rewrite (rd_Ret _ _ _ Hc). cbn [mbind outcome_bind]. destruct (idle c).
  - destruct (ok_flags s l me c (fun c => with_idle c false)) as [-> H']; try done. do 2 eexists. split; [done|].
    split; [done|]. by eapply flags_upd.
  - destruct (find_idle (cpus s) 0 me) as [k|] eqn:E.
    + destruct (find_idle_Some _ _ _ _ E) as (_ & d & Hd & _). rewrite Nat.sub_0_r in Hd.
      destruct (ok_flags s l k d (fun c => with_idle c false)) as [-> H']; try done.
      do 2 eexists. split; [done|]. split; [done|]. by eapply flags_upd.
    + do 2 eexists. split; [done|]. split; [done|]. apply flags_refl.
Qed.

Lemma preempt_loop_Ret s v now cs i g o : (forall c, c ∈ cs -> current c <> 0 -> is_Some (threads s !! current c)) ->
  (forall k, o = Some k -> (k < i)%nat) ->
  exists o', preempt_loop s v now cs i g o = Ret o' /\ forall k, o' = Some k -> (k < i + length cs)%nat.
Proof.
  revert i g o; induction cs as [|c cs IH]; intros i g o HC Ho; cbn [preempt_loop].
  { exists o. split; [done|]. intros k Hk. cbn. specialize (Ho k Hk). lia. }
  assert (HS : forall g o, (forall k, o = Some k -> (k < S i)%nat) ->
            exists o', preempt_loop s v now cs (S i) g o = Ret o' /\ forall k, o' = Some k -> (k < i + length (c :: cs))%nat).
  { intros g' o1 Ho1. destruct (IH (S i) g' o1) as (o' & E & Hk); [set_solver|done|]. exists o'. split; [done|].
    intros k Hk'. specialize (Hk k Hk'). cbn. lia. }
  assert (Hlt : forall k, o = Some k -> (k < S i)%nat) by (intros k Hk; specialize (Ho k Hk); lia).
  unfold truth. destruct (Z.eqb_spec (current c) 0) as [E|E]; cbn [negb]; [rewrite orb_true_r; auto|].
  destruct (online c); cbn [negb orb]; [|auto].
  destruct (HC c ltac:(set_solver) E) as [th Hth]. rewrite (thread_at_Ret s _ th Hth). cbn [mbind outcome_bind].
  destruct (_ || _); [auto|]. apply HS. intros k [= <-]. lia.
Qed.

Lemma preempt_ok s l t now : sched_ok s l -> is_Some (threads s !! t) ->
  exists s' o, select_preempt_cpu_locked s t now = Ret (s', o) /\ sched_ok s' l /\ flags_of s s'.
Proof.
  intros H [th Ht]. unfold select_preempt_cpu_locked. rewrite (thread_at_Ret s t th Ht). cbn [mbind outcome_bind].
  destruct (preempt_loop_Ret s (vruntime (sched_of th)) now (cpus s) 0 (vruntime (sched_of th)) None)
    as (o & -> & Hk); [by intros c Hc; apply place_known; [apply H|]|done|].
  cbn [mbind outcome_bind]. destruct o as [k|].
  - destruct (lookup_lt_is_Some_2 (cpus s) k) as [c Hc]; [by apply Hk|].
    destruct (ok_flags s l k c (fun c => with_resched c true)) as [-> H']; try done.
    do 2 eexists. split; [done|]. split; [done|]. by eapply flags_upd.
  - do 2 eexists. split; [done|]. split; [done|]. apply flags_refl.
Qed.

Lemma find_current_Some cs i t k : find_current cs i t = Some k -> (i <= k)%nat /\
  exists c, cs !! (k - i)%nat = Some c /\ current c = t.
Proof.
  revert i; induction cs as [|c cs IH]; intros i; cbn [find_current]; [done|].
  destruct (Z.eqb_spec (current c) t); cbn [negb].
  - intros [= <-]. split; [lia|]. exists c. by rewrite Nat.sub_diag.
  - intros (Hk & d & Hd & ?)%IH. split; [lia|]. exists d. by replace (k - i)%nat with (S (k - S i)) by lia.
Qed.

Lemma resched_ok s l t : sched_ok s l ->
  exists s' o, resched_current s t = Ret (s', o) /\ sched_ok s' l /\ flags_of s s'.
Proof.
  intros H. unfold resched_current. destruct (find_current (cpus s) 0 t) as [k|] eqn:E.
  - destruct (find_current_Some _ _ _ _ E) as (_ & c & Hc & _). rewrite Nat.sub_0_r in Hc.
    destruct (ok_flags s l k c (fun c => with_resched c true)) as [-> H']; try done.
    do 2 eexists. split; [done|]. split; [done|]. by eapply flags_upd.
  - do 2 eexists. split; [done|]. split; [done|]. apply flags_refl.
Qed.

(** ** Becoming runnable *)

Lemma place_entity_ok s l t th : sched_ok s l -> threads s !! t = Some th -> state th <> THREAD_RUNNABLE ->
  exists v b, let th' := with_sched th (with_initialized (with_vruntime (sched_of th) v) b) in
    place_entity_locked s t = Ret (put_thread s t th') /\ sched_ok (put_thread s t th') l.
Proof.
  intros H Ht Hst. pose proof (ok_entity s l t th H Ht) as [V E N W]. pose proof (q_min s l (ok_queue s l H)) as Hm.
  assert (HV : forall v b, is_u64 v ->
            sched_ok (put_thread s t (with_sched th (with_initialized (with_vruntime (sched_of th) v) b))) l).
  { intros v b Hv. eapply ok_put; try done. cbn. by rewrite (not_queued s l t th). }
  assert (Heta : put_thread s t (with_sched th (with_initialized (with_vruntime (sched_of th) (vruntime (sched_of th)))
                   (initialized (sched_of th)))) = s).
  { destruct s as [m ? ? ? ? ? ?], th as [? ? ? ? ? ? ? ? []]; cbn in *. unfold put_thread; cbn. f_equal. by apply insert_id. }
  unfold place_entity_locked. rewrite (thread_at_Ret s t th Ht). cbn [mbind outcome_bind].
  destruct (initialized (sched_of th)) eqn:Ei; cbn [negb]; [|by do 2 eexists; split; [done|apply HV]].
  destruct (_ <? _).
  - exists (if SCHED_WAKEUP_GRANULARITY_NS <? min_vruntime s then min_vruntime s - SCHED_WAKEUP_GRANULARITY_NS else 0), true.
    split; [|apply HV].
    + destruct th as [? ? ? ? ? ? ? ? []]; cbn in *; by subst.
    + unfold is_u64, SCHED_WAKEUP_GRANULARITY_NS in *. case_if; bool_to_prop; lia.
  - exists (vruntime (sched_of th)), true. cbv zeta. rewrite Heta. done.
Qed.

(** Whether a thread may be put on the queue by CPU [me]. *)
Definition wakeable s me t (th : thread) : Prop :=
  threads s !! t = Some th /\ lock_owner th = Some me /\
  (state th = THREAD_ALLOCATED \/ state th = THREAD_SLEEPING \/
   state th = THREAD_RUNNING /\ exists c, cpus s !! me = Some c /\ current c = t).

Lemma wakeable_current s l me t th i c : sched_ok s l -> wakeable s me t th -> cpus s !! i = Some c -> current c = t ->
  i = me.
Proof.
  intros H (Ht & HO & Hst) Hi Hc. pose proof (ok_nonnull s l t th H Ht) as H0.
  destruct Hst as [Hst|[Hst|[Hst (d & Hd & Hdc)]]];
    [destruct (current_is _ _ (ok_place s l H) t th i c); congruence..|].
  apply (pl_alone _ _ (ok_place s l H) i me c d); congruence.
Qed.

(** The part of [scheduler_enqueue] up to the insertion. *)
Lemma settle_ok s l me t th now : sched_ok s l -> wakeable s me t th -> is_u64 now ->
  let running := bool_decide (state th = THREAD_RUNNING) in
  let s0 := if running then put_thread s t (account_runtime th now) else s in
  exists v th1, let s1 := put_thread (set_min s v) t th1 in
    (s ← update_min_vruntime_locked s0 (if running then t else 0) now;
     if negb running then place_entity_locked s t else Ret s) = Ret s1 /\
    sched_ok s1 l /\ min_vruntime s <= v /\ state th1 = state th /\ lock_owner th1 = Some me /\
    home th1 = home th /\ kernel_thread th1 = kernel_thread th /\ on_runqueue (sched_of th1) = false /\ tid th1 = tid th.
Proof.
  intros H (Ht & HO & Hst) Hn. cbv zeta. assert (HR : state th <> THREAD_RUNNABLE) by (intros E; rewrite E in Hst; naive_solver).
  pose proof (not_queued s l t th H Ht HR) as HQ. case_bool_decide as E.
  - pose proof (account_ok s l t th now H Ht E Hn) as H0. destruct (account_runtime_frame th now) as [[A1 A2 A3 A4 A5 A6 A7 A8] _].
    destruct (update_ok _ l t now H0 Hn) as (v & -> & H1 & Hv); [intros _; eexists; apply lookup_insert_eq|].
    exists v, (account_runtime th now). cbn [mbind outcome_bind negb]. split_and!; try done; congruence.
  - destruct (update_ok s l 0 now H Hn) as (v & -> & H1 & Hv); [done|]. cbn [mbind outcome_bind negb].
    destruct (place_entity_ok (set_min s v) l t th H1 Ht HR) as (w & b & -> & H2).
    exists v, (with_sched th (with_initialized (with_vruntime (sched_of th) w) b)). split_and!; done.
Qed.

(** The part of [scheduler_enqueue] from the insertion on. *)
Lemma insert_ok s l t th : sched_ok s l -> threads s !! t = Some th -> state th <> THREAD_RUNNABLE ->
  state th <> THREAD_UNUSED -> (forall i c, cpus s !! i = Some c -> current c = t -> lock_owner th = Some i) ->
  exists s' l1 l2 th', (s ← Ret (put_thread s t (with_state th THREAD_RUNNABLE)); enqueue_entity_locked s t) = Ret s' /\
    l = l1 ++ l2 /\ sched_ok s' (l1 ++ t :: l2) /\ min_vruntime s' = min_vruntime s /\ cpus s' = cpus s /\
    threads s' = <[t := th']> (threads s) /\ state th' = THREAD_RUNNABLE /\ lock_owner th' = lock_owner th.
Proof.
  intros H Ht HR HU HC. pose proof (ok_nonnull s l t th H Ht) as H0. pose proof (not_queued s l t th H Ht HR) as HQ.
  assert (H1 : queue_ok (put_thread s t (with_state th THREAD_RUNNABLE)) l).
  { eapply queue_put; [apply H|exact Ht|done|exact (ok_entity s l t th H Ht)|done]. }
  destruct (enqueue_ok _ l t (with_state th THREAD_RUNNABLE) H1) as (tl & l1 & l2 & -> & E & H2);
    [apply lookup_insert_eq|done|].
  cbn [mbind outcome_bind]. rewrite E. do 4 eexists. split; [done|]. split; [done|]. split; [split; [done|]|].
  - cbn. rewrite insert_insert_eq. by apply (place_queue _ _ (ok_place _ _ H) t th).
  - cbn. split_and!; [done|done|apply insert_insert_eq|done|done].
Qed.

Lemma wake_tail_ok s l me t wake now : sched_ok s l -> is_Some (threads s !! t) -> (me < length (cpus s))%nat ->
  exists s' o, (
    '(s, target) ← if wake : bool then claim_idle_cpu_locked s me else Ret (s, None);
    '(s, target) ← if wake && negb (bool_decide (is_Some target)) then select_preempt_cpu_locked s t now
                   else Ret (s, target);
    Ret (s, wake_cpu me target)) = Ret (s', o) /\ sched_ok s' l /\ flags_of s s'.
Proof.
  intros H Ht Hme. destruct wake; [|do 2 eexists; split; [done|]; split; [done|]; apply flags_refl].
  destruct (claim_ok s l me H Hme) as (s1 & o1 & -> & H1 & F1). cbn [mbind outcome_bind andb].
  case_bool_decide; cbn [negb]; [do 2 eexists; split; [done|]; by split|].
  destruct (preempt_ok s1 l t now H1) as (s2 & o2 & -> & H2 & F2); [by destruct F1 as (cs & -> & _)|].
  cbn [mbind outcome_bind]. do 2 eexists. split; [done|]. split; [done|]. by eapply flags_trans.
Qed.

Lemma enqueue_op_ok s l me t th wake now : sched_ok s l -> wakeable s me t th -> is_u64 now ->
  (me < length (cpus s))%nat ->
  exists s' o l1 l2 th', scheduler_enqueue s me t wake now = Ret (s', o) /\ l = l1 ++ l2 /\ sched_ok s' (l1 ++ t :: l2) /\
    min_vruntime s <= min_vruntime s' /\ threads s' = <[t := th']> (threads s) /\
    state th' = THREAD_RUNNABLE /\ lock_owner th' = Some me /\ (wake = false -> cpus s' = cpus s) /\
    (current <$> cpus s') = (current <$> cpus s).
Proof.
  intros H HW Hn Hme. destruct (settle_ok s l me t th now H HW Hn) as (v & th1 & E1 & H1 & Hv & S1 & S2 & S3 & S4 & S5 & _).
  pose proof HW as (Ht & HO & Hst). pose proof (ok_nonnull s l t th H Ht) as H0.
  assert (HR : state th <> THREAD_RUNNABLE) by (intros E; rewrite E in Hst; naive_solver).
  assert (HU : state th <> THREAD_UNUSED) by (intros E; rewrite E in Hst; naive_solver).
  assert (HB : negb (bool_decide (state th = THREAD_ALLOCATED)) && negb (bool_decide (state th = THREAD_RUNNING)) &&
               negb (bool_decide (state th = THREAD_SLEEPING)) = false).
  { destruct Hst as [-> |[-> |[-> _]]]; done. }
  unfold scheduler_enqueue. rewrite (thread_at_Ret s t th Ht). cbn [mbind outcome_bind]. unfold spinlock_holding.
  rewrite bool_decide_true by done. rewrite (not_queued s l t th H Ht HR), HB. cbn [negb orb].
  erewrite (bind_chain _ _ _ _ E1). rewrite (thread_at_Ret _ t th1) by apply lookup_insert_eq. cbn [mbind outcome_bind].
  destruct (insert_ok _ l t th1 H1) as (s3 & l1 & l2 & th3 & E3 & -> & H3 & M3 & C3 & T3 & S6 & S7);
    [apply lookup_insert_eq|congruence|congruence| |].
  { intros i c Hi Hc. by rewrite (wakeable_current s l me t th i c H HW Hi Hc). }
  cbn [mbind outcome_bind] in E3. rewrite E3. cbn [mbind outcome_bind].
  destruct (wake_tail_ok s3 _ me t wake now H3) as (s4 & o & E4 & H4 & cs & -> & F4);
    [eexists; rewrite T3; apply lookup_insert_eq|by rewrite C3|].
  cbn [mbind outcome_bind] in E4. rewrite E4. do 5 eexists. split; [done|]. split; [done|]. split; [done|]. split_and!.
  - cbn. rewrite M3. done.
  - cbn. rewrite T3. cbn. apply insert_insert_eq.
  - done.
  - by rewrite S7.
  - intros ->. injection E4 as <- <-. rewrite C3. done.
  - cbn. by rewrite F4, C3.
Qed.

(** ** The time slice *)

(** The weights of the threads that run on the CPUs or are about to, other than [sel]. *)
Definition cpu_weights s (sel : Z) (c : cpu) : list Z :=
  (if truth (current c) && negb (current c =? sel)
   then match threads s !! current c with Some th => if is_running th then [weight (sched_of th)] else [] | None => [] end
   else []) ++
  (if truth (selected c) && negb (selected c =? sel)
   then match threads s !! selected c with Some th => [weight (sched_of th)] | None => [] end
   else []).
Definition total (l : list Z) : Z := foldr Z.add 0 l.

Lemma total_app l1 l2 : total (l1 ++ l2) = total l1 + total l2.
Proof. induction l1 as [|x l1 IH]; unfold total in *; cbn [app foldr]; lia. Qed.

Lemma slice_over_cpu_Ret s sel r w c :
  (current c <> 0 -> is_Some (threads s !! current c)) -> (selected c <> 0 -> is_Some (threads s !! selected c)) ->
  slice_over_cpu s sel (wrap32 r, wrap64 w) c =
  Ret (wrap32 (r + Z.of_nat (length (cpu_weights s sel c))), wrap64 (w + total (cpu_weights s sel c))).
Proof.
  intros Hc Hs. unfold slice_over_cpu, cpu_weights, thread_at, truth.
  assert (A : forall x y, wrap32 x +32 y = wrap32 (x + y)) by (intros; unfold wrap32; rewrite Zplus_mod_idemp_l; done).
  assert (E : forall a b a' b', a = a' -> b = b' -> Ret (wrap32 a, wrap64 b) = Ret (wrap32 a', wrap64 b')) by (by intros; subst).
  destruct (Z.eqb_spec (current c) 0) as [_|Hc0]; cbn [negb andb].
  2: destruct (Hc Hc0) as [x Hx]; rewrite Hx; destruct (negb (current c =? sel)); cbn [deref mbind outcome_bind];
     [destruct (is_running x)|].
  all: destruct (Z.eqb_spec (selected c) 0) as [_|Hs0]; cbn [negb andb].
  all: try (destruct (Hs Hs0) as [y Hy]; rewrite Hy; destruct (negb (selected c =? sel)); cbn [deref mbind outcome_bind]).
  all: cbn [andb app length total foldr mbind outcome_bind fst snd];
       repeat (rewrite A || rewrite wrap64_add_l || rewrite <-Z.add_assoc).
  all: apply E; lia.
Qed.

Lemma slice_loop_Ret s sel cs r w :
  (forall c, c ∈ cs -> (current c <> 0 -> is_Some (threads s !! current c)) /\
                       (selected c <> 0 -> is_Some (threads s !! selected c))) ->
  for_each (slice_over_cpu s sel) cs (wrap32 r, wrap64 w) =
  Ret (wrap32 (r + Z.of_nat (length (cs ≫= cpu_weights s sel))), wrap64 (w + total (cs ≫= cpu_weights s sel))).
Proof.
  revert r w; induction cs as [|c cs IH]; intros r w H; cbn [for_each mbind list_bind].
  - cbn [length total foldr]. by rewrite !Z.add_0_r.
  - destruct (H c ltac:(set_solver)) as [H1 H2]. rewrite slice_over_cpu_Ret by done. cbn [mbind outcome_bind].
    rewrite IH by set_solver. rewrite length_app, total_app. do 3 f_equal; lia.
Qed.

Lemma slice_Ret s t th : cpus_known s -> threads s !! t = Some th ->
  calculate_slice_locked s t =
  Ret (slice_of (wrap32 (count s + 1 + Z.of_nat (length (cpus s ≫= cpu_weights s t))))
                (wrap64 (total_weight s + weight (sched_of th) + total (cpus s ≫= cpu_weights s t))) (weight (sched_of th))).
Proof.
  intros HC Ht. unfold calculate_slice_locked. rewrite (thread_at_Ret s t th Ht). cbn [mbind outcome_bind].
  by rewrite slice_loop_Ret.
Qed.

(** ** The switches *)

Lemma known_requeued s t th tl w n : cpus_known s -> cpus_known (requeued s t th tl w n).
Proof.
  intros HC c Hc. destruct (HC c Hc) as [H1 H2]. cbn. rewrite !lookup_insert_is_Some'. auto.
Qed.

Lemma next_idle_ok s me c now : sched_ok s [] -> cpus s !! me = Some c -> current c = 0 -> selected c = 0 ->
  let s' := set_cpus s (<[me := with_idle c true]> (cpus s)) in
  scheduler_next s me false now = Ret (s', 0) /\ sched_ok s' [].
Proof.
  intros H Hc E1 E2. unfold scheduler_next. rewrite (rd_Ret _ _ _ Hc). cbn [mbind outcome_bind]. rewrite E1, E2.
  change (truth 0) with false. cbn [orb].
  destruct (ok_flags s [] me c (fun c => with_idle c false) H Hc) as [-> H0]; try done. cbn [mbind outcome_bind].
  rewrite (tl_first_ok _ _ _ (q_tl _ _ (ok_queue _ _ H0))). cbn [mbind outcome_bind hd].
  change (truth 0) with false. cbn iota.
  rewrite (q_count _ _ (ok_queue _ _ H0)), (q_weight _ _ (ok_queue _ _ H0)). cbn [length load foldr Z.of_nat].
  change (truth 0) with false. cbn [orb].
  destruct (ok_flags (set_cpus s (<[me := with_idle c false]> (cpus s))) [] me (with_idle c false) (fun c => with_idle c true) H0)
    as [-> H1]; try done.
  { cbn. apply list_lookup_insert_eq. by eapply lookup_lt_Some. }
  cbn [mbind outcome_bind set_cpus cpus] in *. unfold set_cpus in *. cbn in *. rewrite list_insert_insert_eq in *. done.
Qed.

Lemma bind_insert_same {A B} (f : A -> list B) (cs : list A) i c c' : cs !! i = Some c -> f c' = f c ->
  (<[i := c']> cs ≫= f) = cs ≫= f.
Proof.
  revert i; induction cs as [|d cs IH]; intros [|i] Hi Hf; [done..| |]; cbn in *.
  - injection Hi as ->. by rewrite Hf.
  - f_equal. by apply IH.
Qed.

(** The weights beside [p] do not depend on the record of [p]. *)
Lemma weights_beside s s' p th' d : threads s' = <[p := th']> (threads s) -> cpu_weights s' p d = cpu_weights s p d.
Proof.
  intros E. unfold cpu_weights. rewrite E.
  assert (HE : forall q, q =? p = false -> <[p := th']> (threads s) !! q = threads s !! q).
  { intros q Hq. apply lookup_insert_ne. intros ->. by rewrite Z.eqb_refl in Hq. }
  f_equal; [destruct (current d =? p) eqn:Hq|destruct (selected d =? p) eqn:Hq]; cbn [negb andb]; rewrite ?andb_false_r;
    try done; by rewrite HE.
Qed.

Lemma next_pick_ok s me c p l now : sched_ok s (p :: l) -> cpus s !! me = Some c -> current c = 0 -> selected c = 0 ->
  is_u64 now ->
  exists s' th th', scheduler_next s me false now = Ret (s', p) /\ sched_ok s' l /\ min_vruntime s <= min_vruntime s' /\
    threads s !! p = Some th /\ threads s' = <[p := th']> (threads s) /\
    th' = with_sched th (with_slice (with_queued (sched_of th) false) (slice_ns (sched_of th'))) /\
    cpus s' = <[me := with_selected (with_idle c false) p]> (cpus s) /\
    slice_ns (sched_of th') =
      slice_of (wrap32 (count s + Z.of_nat (length (cpus s ≫= cpu_weights s p))))
               (wrap64 (total_weight s + total (cpus s ≫= cpu_weights s p))) (weight (sched_of th)).
Proof.
  intros H Hc E1 E2 Hn. destruct (q_dom _ _ p (ok_queue _ _ H)) as [th Ht]; [set_solver|].
  pose proof (ok_nonnull _ _ p th H Ht) as Hp0.
  unfold scheduler_next. rewrite (rd_Ret _ _ _ Hc). cbn [mbind outcome_bind]. rewrite E1, E2.
  change (truth 0) with false. cbn [orb].
  destruct (ok_flags s (p :: l) me c (fun c => with_idle c false) H Hc) as [-> H0]; try done. cbn [mbind outcome_bind].
  rewrite (tl_first_ok _ _ _ (q_tl _ _ (ok_queue _ _ H0))). cbn [mbind outcome_bind hd].
  unfold truth. rewrite (proj2 (Z.eqb_neq p 0)) by done. cbn [negb].
  destruct (dequeue_ok _ [] p l th (ok_queue _ _ H0) Ht) as (tl & -> & H1). cbn [mbind outcome_bind app] in *.
  set (s1 := requeued _ _ _ _ _ _) in *.
  assert (K1 : cpus_known s1) by (apply known_requeued, place_known, H0).
  rewrite (update_min_ok s1 l p now H1 K1) by (intros _; eexists; apply lookup_insert_eq). cbn [mbind outcome_bind].
  destruct (raised_range s1 l p now H1 Hn) as [R1 R2]. set (v := raised _ _) in *.
  assert (H2 : queue_ok (set_min s1 v) l) by (by apply queue_set_min).
  set (th1 := with_sched th (with_queued (sched_of th) false)) in *.
  assert (T1 : threads (set_min s1 v) !! p = Some th1) by apply lookup_insert_eq.
  rewrite (slice_Ret (set_min s1 v) p th1 K1 T1). cbn [mbind outcome_bind]. rewrite (thread_at_Ret _ p th1 T1). cbn [mbind outcome_bind].
  assert (HE : (cpus (set_min s1 v) ≫= cpu_weights (set_min s1 v) p) = cpus s ≫= cpu_weights s p).
  { change (cpus (set_min s1 v)) with (<[me := with_idle c false]> (cpus s)).
    rewrite (bind_insert_same _ (cpus s) me c) by done. apply list_bind_ext; [|done]. intros d. by apply weights_beside with th1. }
  rewrite HE. clear HE. set (sl := slice_of _ _ _).
  assert (Hnew : <[me := with_idle c false]> (cpus s) !! me = Some (with_idle c false)).
  { apply list_lookup_insert_eq. by eapply lookup_lt_Some. }
  unfold upd_cpu. rewrite (rd_Ret _ _ (with_idle c false)) by exact Hnew. cbn [mbind outcome_bind].
  exists (set_cpus (put_thread (set_min s1 v) p (with_sched th1 (with_slice (sched_of th1) sl)))
            (<[me := with_selected (with_idle c false) p]> (cpus s))), th, (with_sched th1 (with_slice (sched_of th1) sl)).
  split; [by unfold set_cpus; cbn; rewrite list_insert_insert_eq|]. split; [split|].
  - apply queue_cpus. apply (queue_put _ l p th1 _ H2 T1); [done|by destruct (ok_entity _ _ p th H Ht)|done].
  - cbn. rewrite insert_insert_eq. by apply (place_select _ _ (ok_place _ _ H) (ok_null _ _ H) me c _ p th);
      try done; destruct (proj1 (q_in _ _ (ok_queue _ _ H) p)) as (x & Hx & Hq); [set_solver|congruence].
  - split_and!; try done; [cbn; apply insert_insert_eq|]. cbn [with_sched with_slice sched_of slice_ns]. subst sl.
    cbn [th1 s1 set_min requeued set_cpus count total_weight with_sched with_queued sched_of weight].
    f_equal; f_equal; lia.
Qed.
End operations.
