(* ===== verification/SchedulerSteps.v ===== *)
(** * The steps of the scheduler

    The operations that switch threads, change their parameters or create
    them, and the runs of the scheduler: every step that is allowed returns and
    keeps the invariant of [SchedulerOps]. *)
From S2P Require Import Prelude Timeline Scheduler SchedulerQueue SchedulerPlace SchedulerOps.

Section steps.
  Context {T : Type} {HT : Timeline T} {HL : TimelineLaws T}.
  Implicit Types (s : runqueue T) (l : list Z) (t : Z) (me : nat).

(** [keeps s s']: the invariant holds again and [min_vruntime] did not decrease. *)
Definition keeps s s' : Prop := (exists l, sched_ok s' l) /\ min_vruntime s <= min_vruntime s'.

Lemma keeps_intro s s' l : sched_ok s' l -> min_vruntime s <= min_vruntime s' -> keeps s s'.
Proof. intros. split; [by exists l|done]. Qed.

(** ** Starting and leaving a thread *)

Lemma start_ok s l me c t th now : sched_ok s l -> cpus s !! me = Some c -> selected c = t -> threads s !! t = Some th ->
  lock_owner th = None -> is_u64 now ->
  exists s' th', scheduler_start s me t now = Ret s' /\ sched_ok s' l /\ min_vruntime s' = min_vruntime s /\
    threads s' = <[t := th']> (threads s) /\ state th' = THREAD_RUNNING /\ lock_owner th' = Some me /\
    cpus s' = <[me := with_current (with_resched (with_selected c 0) false) t]> (cpus s).
Proof.
  intros H Hc Hs Ht HO Hn. pose proof (ok_nonnull s l t th H Ht) as H0.
  destruct (selected_is _ _ (ok_place s l H) t th me c Ht H0 Hc Hs) as (HR & HQ & Hc0).
  unfold scheduler_start. destruct (lock_ok s l me t th H Ht HO) as [-> H1]. cbn [mbind outcome_bind].
  rewrite (thread_at_Ret _ t (with_owner th (Some me))) by apply lookup_insert_eq. cbn [mbind outcome_bind].
  rewrite (rd_Ret (cpus (put_thread s t _)) me c) by exact Hc. cbn [mbind outcome_bind].
  cbn [with_owner state sched_of home kernel_thread]. rewrite HR, HQ, Hs, Hc0, Z.eqb_refl, bool_decide_true by done.
  assert (HH : negb (truth (home th)) && negb (kernel_thread th) = false).
  { destruct (pl_home _ _ (ok_place s l H) t th Ht) as [Hh|Hk]; [congruence| |].
    - unfold truth. rewrite (proj2 (Z.eqb_neq _ _)) by done. done.
    - rewrite Hk. apply andb_false_r. }
  rewrite HH. change (truth 0) with false. cbn [negb orb].
  unfold upd_cpu. rewrite (rd_Ret (cpus (put_thread _ _ _)) me c) by exact Hc. cbn [mbind outcome_bind].
  do 2 eexists. split; [done|]. split; [split|].
  - destruct (ok_entity s l t th H Ht) as [V E N W].
    pose proof (queue_put s l t th (with_sched (with_state (with_owner th (Some me)) THREAD_RUNNING)
      (with_user_mode (with_mode (with_exec_start (sched_of th) now) (user_runtime (sched_of th))
         (system_runtime (sched_of th)) now) false)) (ok_queue s l H) Ht) as HP.
    destruct HP as [P1 P2 P3 P4 P5 P6 P7 P8]; [done|by split|cbn; congruence|].
    split; cbn in *; rewrite ?insert_insert_eq; done.
  - cbn. rewrite insert_insert_eq. by apply (place_start _ _ (ok_place s l H) (ok_null s l H) me c _ t th).
  - cbn. split_and!; [done|apply insert_insert_eq|done..].
Qed.

Lemma sched_init_ok s l t th : sched_ok s l -> threads s !! t = Some th -> state th <> THREAD_RUNNABLE ->
  exists s' th', thread_sched_init s t = Ret s' /\ sched_ok s' l /\ min_vruntime s' = min_vruntime s /\ cpus s' = cpus s /\
    threads s' = <[t := th']> (threads s) /\ th' = with_sched th (sched_of th').
Proof.
  intros H Ht HR. pose proof (not_queued s l t th H Ht HR) as HQ.
  assert (Hn : t ∉ l). { intros Hin. apply (q_in s l (ok_queue s l H)) in Hin as (x & ? & ?). congruence. }
  destruct (tl_node_init_ok (dom (threads s)) (timeline s) l t) as (tl & E & Hok);
    [apply H|by apply elem_of_dom|done|].
  unfold thread_sched_init. rewrite E. cbn [mbind outcome_bind]. rewrite (thread_at_Ret s t th Ht). cbn [mbind outcome_bind].
  do 2 eexists. split; [done|]. split.
  - assert (H1 : sched_ok (put_thread s t (with_sched th (MkEntity 0 0 0 0 0 0 0 1024 0 false false false))) l).
    { apply (ok_put s l t th _ H Ht); cbn; rewrite ?HQ; done. }
    destruct H1 as [[P1 P2 P3 P4 P5 P6 P7 P8] HP]. split; [|done]. split; cbn in *; try done.
    by rewrite dom_insert_lookup_L.
  - done.
Qed.

(** A record for a thread that is set aside: not runnable, not current. *)
Lemma ok_aside s l t th th' : sched_ok s l -> threads s !! t = Some th -> state th <> THREAD_RUNNABLE ->
  (forall i c, cpus s !! i = Some c -> current c <> t) -> state th' <> THREAD_RUNNING -> state th' <> THREAD_RUNNABLE ->
  sched_of th' = sched_of th -> (state th' <> THREAD_UNUSED -> home th' <> 0 \/ kernel_thread th' = true) ->
  sched_ok (put_thread s t th') l.
Proof.
  intros H Ht HR HC E1 E2 E3 E4. pose proof (not_queued s l t th H Ht HR) as HQ. split.
  - apply (queue_put s l t th); rewrite ?E3; try done; [apply H|exact (ok_entity s l t th H Ht)|congruence].
  - cbn. apply (place_aside _ _ (ok_place s l H) t th); rewrite ?E3; try done. exact (ok_nonnull s l t th H Ht).
Qed.

Lemma reap_ok s l me t th : sched_ok s l -> threads s !! t = Some th -> lock_owner th = Some me ->
  kernel_thread th = true -> state th = THREAD_EXITED -> (forall i c, cpus s !! i = Some c -> current c <> t) ->
  exists s' th', kernel_thread_reap s me t false = Ret s' /\ sched_ok s' l /\ min_vruntime s' = min_vruntime s /\
    cpus s' = cpus s /\ threads s' !! t = Some th' /\ lock_owner th' = Some me.
Proof.
  intros H Ht HO HK HE HC. assert (HR : state th <> THREAD_RUNNABLE) by congruence.
  unfold kernel_thread_reap. rewrite (thread_at_Ret s t th Ht). cbn [mbind outcome_bind]. unfold spinlock_holding.
  rewrite HK, (not_queued s l t th H Ht HR), !bool_decide_true by done. cbn [negb orb].
  set (th1 := MkThread 0 _ _ THREAD_UNUSED _ _ _ _ _).
  assert (H1 : sched_ok (put_thread s t th1) l) by (by apply (ok_aside s l t th)).
  destruct (sched_init_ok _ l t th1 H1) as (s' & th' & -> & H2 & M & C & TH & E); [apply lookup_insert_eq|done|].
  exists s', th'. split_and!; try done; [rewrite TH; apply lookup_insert_eq|]. by rewrite E.
Qed.

Lemma unlock_aside s l me t th : sched_ok s l -> threads s !! t = Some th -> lock_owner th = Some me ->
  (forall c, cpus s !! me = Some c -> current c <> t) ->
  exists s', unlock_thread s me t = Ret s' /\ sched_ok s' l /\ min_vruntime s' = min_vruntime s /\
    threads s' = <[t := with_owner th None]> (threads s).
Proof.
  intros H Ht HO HC. destruct (unlock_ok s l me t th H Ht HO) as [-> H1].
  - intros c Hc E. by destruct (HC c Hc).
  - eexists. split; [done|]. by split.
Qed.

Lemma leave_ok s l me c t th : sched_ok s l -> cpus s !! me = Some c -> current c = t -> threads s !! t = Some th ->
  lock_owner th = Some me -> state th <> THREAD_RUNNING ->
  exists s' r, scheduler_leave s me t false = Ret (s', r) /\ keeps s s'.
Proof.
  intros H Hc Ec Ht HO HR. pose proof (ok_nonnull s l t th H Ht) as H0.
  assert (Es : selected c = 0).
  { destruct (decide (selected c = 0)) as [|Hne]; [done|].
    destruct (pl_selected _ _ (ok_place s l H) me c Hc Hne). congruence. }
  unfold scheduler_leave. rewrite (rd_Ret _ _ _ Hc). cbn [mbind outcome_bind]. rewrite Ec, Es, Z.eqb_refl.
  change (truth 0) with false. cbn [negb orb]. unfold upd_cpu. rewrite (rd_Ret _ _ _ Hc). cbn [mbind outcome_bind].
  set (s1 := set_cpus s _). assert (H1 : sched_ok s1 l).
  { split; [apply queue_cpus, H|]. cbn. by apply (place_leave _ _ (ok_place s l H) (ok_null s l H) me c _ t th). }
  assert (HC : forall i d, cpus s1 !! i = Some d -> current d <> t).
  { intros i d Hi Hd. cbn in Hi. apply list_lookup_insert_Some in Hi as [(_ & <- & _)|[Hne Hi]]; [cbn in Hd; congruence|].
    apply Hne. apply (pl_alone _ _ (ok_place s l H) me i c d); congruence. }
  assert (T1 : threads s1 !! t = Some th) by exact Ht. rewrite (thread_at_Ret s1 t th T1). cbn [mbind outcome_bind].
  destruct (unlock_aside s1 l me t th H1 T1 HO (HC me)) as (s2 & E2 & H2 & M2 & _).
  assert (K2 : keeps s s2) by (apply (keeps_intro s s2 l H2); rewrite M2; done).
  assert (K1 : keeps s s1) by (by apply (keeps_intro s s1 l H1)).
  case_bool_decide as HE; [destruct (kernel_thread th) eqn:HK; [|destruct (_ =? 2); [|destruct (truth _)]]|]; cbn [negb].
  2,3,5: rewrite E2; cbn [mbind outcome_bind]; eauto.
  2: eauto.
  destruct (reap_ok s1 l me t th H1 T1 HO HK HE HC) as (s3 & th3 & -> & H3 & M3 & C3 & T3 & O3). cbn [mbind outcome_bind].
  destruct (unlock_aside s3 l me t th3 H3 T3 O3) as (s4 & -> & H4 & M4 & _); [rewrite C3; apply HC|]. cbn [mbind outcome_bind].
  do 2 eexists. split; [done|]. apply (keeps_intro s s4 l H4). rewrite M4, M3. done.
Qed.

(** ** Giving up the CPU *)

Lemma sched_Ret s me c t th : cpus s !! me = Some c -> current c = t -> t <> 0 -> threads s !! t = Some th ->
  lock_owner th = Some me -> state th <> THREAD_RUNNING -> sched s me false 1 = Ret tt.
Proof.
  intros Hc Ec H0 Ht HO HR. unfold sched. rewrite (rd_Ret _ _ _ Hc). cbn [mbind outcome_bind]. rewrite Ec.
  unfold truth. rewrite (proj2 (Z.eqb_neq t 0)) by done. cbn [negb]. rewrite (thread_at_Ret s t th Ht).
  cbn [mbind outcome_bind]. unfold spinlock_holding, is_running. by rewrite bool_decide_true, bool_decide_false.
Qed.

Lemma yield_ok s l me c t th now : sched_ok s l -> cpus s !! me = Some c -> current c = t -> threads s !! t = Some th ->
  state th = THREAD_RUNNING -> lock_owner th = None -> is_u64 now ->
  exists s' o, yield s me 1 now = Ret (s', o) /\ keeps s s'.
Proof.
  intros H Hc Ec Ht HR HO Hn. pose proof (ok_nonnull s l t th H Ht) as H0.
  unfold yield. rewrite (rd_Ret _ _ _ Hc). cbn [mbind outcome_bind]. rewrite Ec.
  destruct (lock_ok s l me t th H Ht HO) as [-> H1]. cbn [mbind outcome_bind].
  destruct (enqueue_op_ok _ l me t (with_owner th (Some me)) false now H1)
    as (s2 & o & l1 & l2 & th2 & -> & -> & H2 & M2 & T2 & S2 & O2 & C2 & _).
  { split; [apply lookup_insert_eq|]. split; [done|]. right; right. split; [done|]. by exists c. }
  { done. } { by eapply lookup_lt_Some. }
  cbn [mbind outcome_bind]. rewrite (sched_Ret s2 me c t th2); [|rewrite C2; done|done|done| |done|congruence].
  - do 2 eexists. split; [done|]. by apply (keeps_intro s s2 _ H2).
  - rewrite T2. apply lookup_insert_eq.
Qed.

Lemma stop_ok s l me c t th now why st : sched_ok s l -> cpus s !! me = Some c -> current c = t ->
  threads s !! t = Some th -> state th = THREAD_RUNNING -> lock_owner th = Some me -> is_u64 now ->
  st <> THREAD_RUNNING -> st <> THREAD_RUNNABLE ->
  exists s' th', stop_current s me now why st = Ret s' /\ sched_ok s' l /\ min_vruntime s <= min_vruntime s' /\
    cpus s' = cpus s /\ threads s' = <[t := th']> (threads s) /\ state th' = st /\ lock_owner th' = Some me.
Proof.
  intros H Hc Ec Ht HR HO Hn S1 S2. pose proof (ok_nonnull s l t th H Ht) as H0.
  unfold stop_current. rewrite (rd_Ret _ _ _ Hc). cbn [mbind outcome_bind]. rewrite Ec.
  unfold truth. rewrite (proj2 (Z.eqb_neq t 0)) by done. cbn [negb]. rewrite (thread_at_Ret s t th Ht).
  cbn [mbind outcome_bind]. unfold spinlock_holding, is_running. rewrite !bool_decide_true by done. cbn [negb orb].
  pose proof (account_ok s l t th now H Ht HR Hn) as H1.
  destruct (account_runtime_frame th now) as [[A1 A2 A3 A4 A5 A6 A7 A8] ->]. set (th1 := account_runtime th now) in *.
  destruct (update_ok _ l t now H1 Hn) as (v & -> & H2 & Hv); [intros _; eexists; apply lookup_insert_eq|].
  cbn [mbind outcome_bind].
  assert (T2 : threads (set_min (put_thread s t th1) v) !! t = Some th1) by apply lookup_insert_eq.
  rewrite (thread_at_Ret _ t th1 T2). cbn [mbind outcome_bind]. exists (put_thread (set_min (put_thread s t th1) v) t (with_state th1 st)),
    (with_state th1 st). split; [done|]. split; [split|].
  - apply (queue_put _ l t th1 _ (ok_queue _ _ H2) T2); try done. exact (ok_entity _ l t th1 H2 T2).
  - cbn. rewrite insert_insert_eq. apply (place_stop _ _ (ok_place s l H) t th _ me c); try done; cbn; congruence.
  - cbn. split_and!; try done; [apply insert_insert_eq|congruence].
Qed.

Lemma exit_ok s l me c t th now : sched_ok s l -> cpus s !! me = Some c -> current c = t -> threads s !! t = Some th ->
  state th = THREAD_RUNNING -> lock_owner th = None -> is_u64 now ->
  exists s', scheduler_exit s me 1 now = Ret s' /\ keeps s s'.
Proof.
  intros H Hc Ec Ht HR HO Hn. pose proof (ok_nonnull s l t th H Ht) as H0.
  unfold scheduler_exit. rewrite (rd_Ret _ _ _ Hc). cbn [mbind outcome_bind]. rewrite Ec.
  unfold truth. rewrite (proj2 (Z.eqb_neq t 0)) by done. cbn [negb].
  destruct (lock_ok s l me t th H Ht HO) as [-> H1]. cbn [mbind outcome_bind]. unfold scheduler_exit_locked.
  destruct (stop_ok _ l me c t (with_owner th (Some me)) now "exit non-running thread" THREAD_EXITED H1)
    as (s2 & th2 & -> & H2 & M2 & C2 & T2 & S2 & O2); try done; [apply lookup_insert_eq|].
  cbn [mbind outcome_bind]. rewrite (sched_Ret s2 me c t th2); [|rewrite C2; done|done|done| |done|congruence].
  - eexists. split; [done|]. by apply (keeps_intro s s2 _ H2).
  - rewrite T2. apply lookup_insert_eq.
Qed.

(** ** Nice values *)

(** The queue with the new weight of [t]. *)
Lemma renice_ok s l t th n w : sched_ok s l -> threads s !! t = Some th -> -20 <= n <= 19 ->
  nice_weights !! Z.to_nat (n + 20) = Some w ->
  let queued := on_runqueue (sched_of th) in
  let th' := with_sched th (with_nice (sched_of th) n w) in
  exists s' l', (forall X (K : runqueue T -> outcome X),
      (s ← if queued then dequeue_entity_locked s t else Ret s;
       th ← thread_at s t; w ← rd nice_weights (Z.to_nat (n + 20));
       s ← if queued then enqueue_entity_locked (put_thread s t (with_sched th (with_nice (sched_of th) n w))) t
           else Ret (put_thread s t (with_sched th (with_nice (sched_of th) n w)));
       K s) = K s') /\
    sched_ok s' l' /\ l' ≡ₚ l /\ min_vruntime s' = min_vruntime s /\ cpus s' = cpus s /\ threads s' = <[t := th']> (threads s).
Proof.
  intros H Ht Hr Hw. cbv zeta. pose proof (ok_entity s l t th H Ht) as [V E N W].
  destruct (on_runqueue (sched_of th)) eqn:HQ.
  - assert (Hin : t ∈ l) by (apply (q_in s l (ok_queue s l H)); eauto). apply list_elem_of_split in Hin as (l1 & l2 & ->).
    destruct (dequeue_ok s l1 t l2 th (ok_queue _ _ H) Ht) as (tl & -> & H1). set (s1 := requeued _ _ _ _ _ _) in *.
    set (th1 := with_sched th (with_queued (sched_of th) false)) in *.
    assert (T1 : threads s1 !! t = Some th1) by apply lookup_insert_eq.
    set (th2 := with_sched th1 (with_nice (sched_of th1) n w)).
    assert (H2 : queue_ok (put_thread s1 t th2) (l1 ++ l2)).
    { apply (queue_put s1 _ t th1); try done; by split. }
    destruct (enqueue_ok _ _ t th2 H2) as (tl2 & k1 & k2 & Hk & E2 & H3); [apply lookup_insert_eq|done|].
    assert (HT' : forall x, <[t := x]> (threads (put_thread s1 t th2)) = <[t := x]> (threads s)).
    { intros x. cbn. by rewrite !insert_insert_eq. }
    assert (Hth : with_sched th2 (with_queued (sched_of th2) true) = with_sched th (with_nice (sched_of th) n w)).
    { destruct th as [? ? ? ? ? ? ? ? []]. cbn in *. by subst. }
    eexists _, _. split.
    { intros X K. cbn [mbind outcome_bind]. rewrite (thread_at_Ret s1 t th1 T1). cbn [mbind outcome_bind].
      rewrite (rd_Ret _ _ _ Hw). cbn [mbind outcome_bind]. fold th2. rewrite E2. cbn [mbind outcome_bind]. done. }
    split; [split; [exact H3|]|].
    + cbn -[th2]. rewrite Hth. cbn. rewrite !insert_insert_eq. apply (place_quiet _ _ (ok_place _ _ H) t th); try done.
      exact (ok_nonnull _ _ t th H Ht).
    + split_and!; [|done|done|cbn [requeued threads]; by rewrite Hth, HT'].
      rewrite <-!Permutation_middle. by rewrite Hk.
  - exists (put_thread s t (with_sched th (with_nice (sched_of th) n w))), l. split.
    { intros X K. cbn [mbind outcome_bind]. rewrite (thread_at_Ret s t th Ht). cbn [mbind outcome_bind].
      by rewrite (rd_Ret _ _ _ Hw). }
    split; [|done]. apply (ok_put s l t th); try done; try (by split); congruence.
Qed.

Lemma running_alone s l me c t th : sched_ok s l -> threads s !! t = Some th -> lock_owner th = None ->
  cpus s !! me = Some c -> current c = t -> state th = THREAD_RUNNING.
Proof.
  intros H Ht HO Hc Ec. destruct (current_is _ _ (ok_place s l H) t th me c Ht) as [|]; try done; [|congruence].
  exact (ok_nonnull s l t th H Ht).
Qed.

Lemma set_nice_ok s l me t th n now : sched_ok s l -> threads s !! t = Some th -> lock_owner th = None ->
  -20 <= n <= 19 -> is_u64 now ->
  exists s' o th', scheduler_set_nice s me t n now = Ret (0, s', o) /\ keeps s s' /\ threads s' !! t = Some th' /\
    nice (sched_of th') = n /\ nice_weights !! Z.to_nat (n + 20) = Some (weight (sched_of th')).
Proof.
  intros H Ht HO Hr Hn. pose proof (ok_nonnull s l t th H Ht) as H0. destruct (nice_weight n Hr) as [w Hw].
  unfold scheduler_set_nice, truth. rewrite (proj2 (Z.eqb_neq t 0)) by done.
  rewrite (proj2 (Z.ltb_ge n (-20))), (proj2 (Z.ltb_ge 19 n)) by lia. cbn [negb orb].
  destruct (lock_ok s l me t th H Ht HO) as [-> H1]. cbn [mbind outcome_bind]. set (th1 := with_owner th (Some me)) in *.
  rewrite (thread_at_Ret _ t th1) by apply lookup_insert_eq. cbn [mbind outcome_bind].
  assert (HA : exists th2, (if is_running th1 then put_thread (put_thread s t th1) t (account_runtime th1 now)
                            else put_thread s t th1) = put_thread s t th2 /\
               sched_ok (put_thread s t th2) l /\ state th2 = state th /\ lock_owner th2 = Some me).
  { unfold is_running. case_bool_decide as HR; [|by exists th1]. exists (account_runtime th1 now).
    unfold put_thread at 1. cbn. rewrite insert_insert_eq. split; [done|].
    destruct (account_runtime_frame th1 now) as [[A1 A2 A3 A4 A5 A6 A7 A8] _]. split; [|done].
    pose proof (account_ok _ l t th1 now H1 (lookup_insert_eq _ _ _) HR Hn) as HX.
    unfold put_thread in HX at 1. cbn in HX. by rewrite insert_insert_eq in HX. }
  destruct HA as (th2 & -> & H2 & S2 & O2). assert (T2 : threads (put_thread s t th2) !! t = Some th2) by apply lookup_insert_eq.
  rewrite (thread_at_Ret _ t th2 T2). cbn [mbind outcome_bind].
  destruct (renice_ok _ l t th2 n w H2 T2 Hr Hw) as (s3 & l3 & E3 & H3 & _ & M3 & C3 & T3).
  cbv zeta. change (is_running (with_owner th (Some me))) with (is_running th). rewrite E3.
  set (th3 := with_sched th2 _) in *. assert (L3 : threads s3 !! t = Some th3) by (rewrite T3; apply lookup_insert_eq).
  assert (HG : exists s4 o, (if is_running th1 then resched_current s3 t else Ret (s3, None)) = Ret (s4, o) /\
                 sched_ok s4 l3 /\ flags_of s3 s4).
  { destruct (is_running th1); [by apply resched_ok|]. do 2 eexists. split; [done|]. split; [done|]. apply flags_refl. }
  destruct HG as (s4 & o & -> & H4 & F4). cbn [mbind outcome_bind]. pose proof F4 as (cs & E4 & _).
  destruct (unlock_ok s4 l3 me t th3 H4) as [-> H5]; [by rewrite E4|done| |].
  { intros d Hd Ed. destruct (flags_current s3 s4 me d F4 Hd) as (d' & Hd' & Ed'). rewrite C3 in Hd'. cbn. rewrite S2.
    apply (running_alone s l me d' t th H Ht HO Hd'). congruence. }
  cbn [mbind outcome_bind]. do 3 eexists. split; [done|]. split; [|split; [apply lookup_insert_eq|done]].
  apply (keeps_intro s _ l3 H5). rewrite E4. cbn. rewrite M3. done.
Qed.

Lemma get_nice_ok s l me t th : sched_ok s l -> threads s !! t = Some th -> lock_owner th = None ->
  exists s', scheduler_get_nice s me t = Ret (nice (sched_of th), s') /\ keeps s s'.
Proof.
  intros H Ht HO. pose proof (ok_nonnull s l t th H Ht) as H0. unfold scheduler_get_nice, truth.
  rewrite (proj2 (Z.eqb_neq t 0)) by done. cbn [negb]. destruct (lock_ok s l me t th H Ht HO) as [-> H1].
  cbn [mbind outcome_bind]. rewrite (thread_at_Ret _ t (with_owner th (Some me))) by apply lookup_insert_eq.
  cbn [mbind outcome_bind]. destruct (unlock_ok _ l me t (with_owner th (Some me)) H1) as [-> H2];
    [apply lookup_insert_eq|done|intros c Hc Ec; exact (running_alone s l me c t th H Ht HO Hc Ec)|].
  eexists. split; [done|]. by apply (keeps_intro s _ l H2).
Qed.

Lemma inherit_ok s l me ch th p ph now : sched_ok s l -> threads s !! ch = Some th -> lock_owner th = Some me ->
  state th = THREAD_ALLOCATED -> threads s !! p = Some ph -> is_u64 now ->
  exists s', scheduler_inherit s me ch p now = Ret s' /\ keeps s s'.
Proof.
  intros H Ht HO HA Hp Hn. pose proof (ok_nonnull s l ch th H Ht) as H0. pose proof (ok_nonnull s l p ph H Hp) as H0'.
  assert (HR : state th <> THREAD_RUNNABLE) by congruence. pose proof (not_queued s l ch th H Ht HR) as HQ.
  unfold scheduler_inherit, truth. rewrite !(proj2 (Z.eqb_neq _ 0)) by done. cbn [negb orb].
  rewrite (thread_at_Ret s ch th Ht). cbn [mbind outcome_bind]. unfold spinlock_holding.
  rewrite HQ, !bool_decide_true by done. cbn [negb orb]. rewrite (thread_at_Ret s p ph Hp). cbn [mbind outcome_bind].
  eexists. split; [done|]. eapply (keeps_intro s _ l); [|done].
  pose proof (ok_entity s l p ph H Hp) as HE. destruct (vruntime_now_range ph now HE Hn) as [V _].
  pose proof (ok_entity s l ch th H Ht) as [_ E _ _]. destruct HE as [_ _ N W].
  apply (ok_put s l ch th); try done. cbn. by rewrite HQ.
Qed.

Lemma account_enter_ok s l me now user : sched_ok s l -> (me < length (cpus s))%nat ->
  exists s', account_enter s me now user = Ret s' /\ keeps s s'.
Proof.
  intros H Hme. apply lookup_lt_is_Some_2 in Hme as [c Hc]. unfold account_enter. rewrite (rd_Ret _ _ _ Hc).
  cbn [mbind outcome_bind]. unfold truth. destruct (Z.eqb_spec (current c) 0) as [E|E]; cbn [negb].
  { eexists. split; [done|]. by apply (keeps_intro s s l H). }
  destruct (pl_current _ _ (ok_place s l H) me c Hc E) as (th & Ht & _). rewrite (thread_at_Ret s _ th Ht).
  cbn [mbind outcome_bind]. eexists. split; [done|]. eapply (keeps_intro s _ l); [|done].
  destruct (account_mode_frame th now) as ([A1 A2 A3 A4 A5 A6 A7 A8] & V & _).
  pose proof (account_mode_ok th now (ok_entity s l _ th H Ht)) as HE.
  apply (ok_put s l _ th _ H Ht); try done. by destruct HE.
Qed.

(** ** Operations on the flags of a CPU *)

Lemma flag_ok s l me c (f : cpu -> cpu) : sched_ok s l -> cpus s !! me = Some c -> current (f c) = current c ->
  selected (f c) = selected c -> exists s', upd_cpu s me f = Ret s' /\ keeps s s'.
Proof.
  intros H Hc E1 E2. destruct (ok_flags s l me c f H Hc E1 E2) as [-> H1]. eexists. split; [done|].
  by apply (keeps_intro s _ l H1).
Qed.

Lemma kick_ok s l me t : sched_ok s l -> exists s' o, scheduler_kick s me t = Ret (s', o) /\ keeps s s'.
Proof.
  intros H. unfold scheduler_kick. destruct (truth t); cbn [negb].
  - destruct (resched_ok s l t H) as (s' & o & -> & H1 & cs & -> & _). do 2 eexists. split; [done|].
    by apply (keeps_intro s _ l H1).
  - do 2 eexists. split; [done|]. by apply (keeps_intro s s l H).
Qed.

Lemma tick_ok s l me now : sched_ok s l -> (me < length (cpus s))%nat ->
  exists s', scheduler_tick s me now = Ret s' /\ keeps s s'.
Proof.
  intros H Hme. apply lookup_lt_is_Some_2 in Hme as [c Hc].
  assert (K : exists s', Ret s = Ret s' /\ keeps s s') by (exists s; split; [done|]; by apply (keeps_intro s s l H)).
  unfold scheduler_tick. rewrite (rd_Ret _ _ _ Hc). cbn [mbind outcome_bind]. unfold truth.
  destruct (Z.eqb_spec (current c) 0) as [E|E]; cbn [negb]; [done|].
  destruct (pl_current _ _ (ok_place s l H) me c Hc E) as (th & Ht & _). rewrite (thread_at_Ret s _ th Ht).
  cbn [mbind outcome_bind]. destruct (is_running th); cbn [negb]; [|done].
  rewrite (tl_first_ok _ _ _ (q_tl _ _ (ok_queue _ _ H))). cbn [mbind outcome_bind].
  destruct (Z.eqb_spec (hd 0 l) 0) as [E0|E0]; cbn [negb]; [done|]. destruct l as [|p l]; [done|]. cbn [hd] in *.
  destruct (q_dom _ _ p (ok_queue _ _ H)) as [x Hx]; [set_solver|]. rewrite (thread_at_Ret s p x Hx).
  cbn [mbind outcome_bind]. destruct (_ || _); [|done]. by eapply flag_ok.
Qed.

Lemma should_resched_ok s l me : sched_ok s l -> (me < length (cpus s))%nat ->
  exists b s', scheduler_should_resched s me = Ret (b, s') /\ keeps s s'.
Proof.
  intros H Hme. apply lookup_lt_is_Some_2 in Hme as [c Hc].
  assert (K : exists b s', Ret (false, s) = Ret (b, s') /\ keeps s s')
    by (do 2 eexists; split; [done|]; by apply (keeps_intro s s l H)).
  unfold scheduler_should_resched. rewrite (rd_Ret _ _ _ Hc). cbn [mbind outcome_bind]. unfold truth.
  destruct (Z.eqb_spec (current c) 0) as [E|E]; cbn [negb]; [done|].
  destruct (pl_current _ _ (ok_place s l H) me c Hc E) as (th & Ht & _). rewrite (thread_at_Ret s _ th Ht).
  cbn [mbind outcome_bind]. destruct (is_running th); cbn [negb]; [|done].
  destruct (flag_ok s l me c (fun c => with_resched c false) H Hc) as (s' & -> & H1); try done. cbn [mbind outcome_bind].
  eauto.
Qed.

(** ** Creating a kernel thread *)

(** The table of threads: each is known, and this CPU holds none of their locks. *)
Definition table s me (ts : list Z) : Prop :=
  forall t, t ∈ ts -> exists th, threads s !! t = Some th /\ lock_owner th <> Some me.

Lemma find_unused_Ret s me ts : table s me ts ->
  find_unused s me ts = Ret (s, 0) \/
  exists t th, t ∈ ts /\ threads s !! t = Some th /\ state th = THREAD_UNUSED /\ lock_owner th = None /\
    find_unused s me ts = Ret (put_thread s t (with_owner th (Some me)), t).
Proof.
  induction ts as [|t ts IH]; intros HT'; cbn [find_unused]; [by left|].
  destruct (HT' t) as (th & Ht & HO); [set_solver|].
  assert (HI : table s me ts) by (intros x Hx; apply HT'; set_solver).
  assert (HK : find_unused s me ts = Ret (s, 0) \/
    exists t' th, t' ∈ t :: ts /\ threads s !! t' = Some th /\ state th = THREAD_UNUSED /\ lock_owner th = None /\
      find_unused s me ts = Ret (put_thread s t' (with_owner th (Some me)), t')).
  { destruct (IH HI) as [|(u & uh & Hu & ?)]; [by left|right]. exists u, uh. split; [set_solver|done]. }
  rewrite (thread_at_Ret s t th Ht). cbn [mbind outcome_bind]. destruct (lock_owner th) as [i|] eqn:E.
  - destruct (decide (i = me)) as [->|]; done.
  - case_bool_decide; [|done]. right. exists t, th. split; [set_solver|done].
Qed.

Lemma create_ok s l me ts name f tid now : sched_ok s l -> table s me ts -> (me < length (cpus s))%nat -> is_u64 now ->
  exists s' t o, kernel_thread_create s me ts name f tid now = Ret (s', t, o) /\ keeps s s'.
Proof.
  intros H HT' Hme Hn.
  assert (K : exists s' t (o : option nat), Ret (s, 0, None) = Ret (s', t, o) /\ keeps s s').
  { do 3 eexists. split; [done|]. by apply (keeps_intro s s l H). }
  unfold kernel_thread_create. destruct (_ || _); [done|].
  destruct (find_unused_Ret s me ts HT') as [-> |(t & th & _ & Ht & HU & HO & ->)]; cbn [mbind outcome_bind]; [done|].
  pose proof (ok_nonnull s l t th H Ht) as H0. unfold truth. rewrite (proj2 (Z.eqb_neq t 0)) by done. cbn [negb].
  rewrite (thread_at_Ret _ t (with_owner th (Some me))) by apply lookup_insert_eq. cbn [mbind outcome_bind].
  assert (HC : forall i c, cpus s !! i = Some c -> current c <> t).
  { intros i c Hi Ec. destruct (current_is _ _ (ok_place s l H) t th i c Ht H0 Hi Ec); congruence. }
  set (th1 := MkThread tid _ _ THREAD_ALLOCATED 0 true 0 _ _).
  assert (H1 : sched_ok (put_thread (put_thread s t (with_owner th (Some me))) t th1) l).
  { apply (ok_aside _ l t (with_owner th (Some me))); try done; [|apply lookup_insert_eq|cbn; congruence|by right].
    by apply lock_ok. }
  destruct (sched_init_ok _ l t th1 H1) as (s2 & th2 & -> & H2 & M2 & C2 & T2 & E2); [apply lookup_insert_eq|done|].
  cbn [mbind outcome_bind].
  destruct (enqueue_op_ok s2 l me t th2 true now H2) as (s3 & o & l1 & l2 & th3 & E3 & _ & H3 & M3 & T3 & S3 & O3 & _ & C3).
  { split; [rewrite T2; apply lookup_insert_eq|]. rewrite E2. split; [done|]. by left. }
  { done. } { by rewrite C2. }
  unfold scheduler_make_runnable. rewrite E3. cbn [mbind outcome_bind].
  destruct (unlock_aside s3 _ me t th3 H3) as (s4 & -> & H4 & M4 & _); [rewrite T3; apply lookup_insert_eq|done| |].
  { intros c Hc Ec. assert (HX : (current <$> cpus s3) !! me = Some t) by (rewrite list_lookup_fmap, Hc; cbn; congruence).
    rewrite C3, C2, list_lookup_fmap in HX. cbn in HX. destruct (cpus s !! me) as [d|] eqn:Hd; [|done].
    injection HX as HX. by destruct (HC me d Hd). }
  cbn [mbind outcome_bind]. do 3 eexists. split; [done|]. apply (keeps_intro s s4 _ H4).
  rewrite M4. etrans; [|exact M3]. rewrite M2. done.
Qed.
End steps.

(** * Threads of a process

    [thread_alloc] and [thread_free] of kernel/thread.c: what they do to the
    slots of the process and to the scheduler's invariant. *)

(** ** Slots *)

Definition used (slots : list Z) : list Z := filter (fun t => t <> 0) slots.
#[global] Arguments used : simpl never.

Lemma find_slot_Some slots i t k : find_slot slots i t = Some k -> (i <= k)%nat /\ slots !! (k - i)%nat = Some t.
Proof.
  revert i; induction slots as [|x slots IH]; intros i; cbn [find_slot]; [done|].
  destruct (Z.eqb_spec x t) as [->|Hne].
  - intros [= <-]. split; [lia|]. by rewrite Nat.sub_diag.
  - intros (Hk & ?)%IH. split; [lia|]. by replace (k - i)%nat with (S (k - S i)) by lia.
Qed.

Lemma find_slot_None slots i t : find_slot slots i t = None -> t ∉ slots.
Proof.
  revert i; induction slots as [|x slots IH]; intros i; cbn [find_slot]; [set_solver|].
  destruct (Z.eqb_spec x t) as [->|Hne]; [done|]. intros H%IH. set_solver.
Qed.

Lemma used_full slots : 0 ∉ slots -> used slots = slots.
Proof.
  unfold used. induction slots as [|x slots IH]; intros H; [done|]. rewrite filter_cons_True by set_solver.
  f_equal. apply IH. set_solver.
Qed.

Lemma used_fill slots i t : slots !! i = Some 0 -> t <> 0 -> length (used (<[i := t]> slots)) = S (length (used slots)).
Proof.
  unfold used. revert i; induction slots as [|x slots IH]; intros [|i] Hi Ht; cbn in Hi; try done.
  - injection Hi as ->. cbn [insert list_insert]. rewrite filter_cons_True, filter_cons_False by auto. done.
  - cbn [insert list_insert]. destruct (decide (x = 0)) as [->|Hx].
    + rewrite !filter_cons_False by auto. by apply IH.
    + rewrite !filter_cons_True by done. cbn. f_equal. by apply IH.
Qed.

Lemma used_clear slots i t : slots !! i = Some t -> t <> 0 -> length (used slots) = S (length (used (<[i := 0]> slots))).
Proof.
  intros Hi Ht. rewrite <-(used_fill (<[i := 0]> slots) i t); [|apply list_lookup_insert_eq; by eapply lookup_lt_Some|done].
  by rewrite list_insert_insert_eq, list_insert_id.
Qed.

Section threads.
  Context {T : Type} {HT : Timeline T} {HL : TimelineLaws T}.
  Implicit Types (s : runqueue T) (p : process) (t : Z) (me : nat).

(** The slots of a process hold its threads, each at its index, and [tnums] counts them. *)
Record process_ok s p : Prop := {
  pr_address : p_address p <> 0;
  pr_slots : Z.of_nat (length (p_thread p)) = PROC_MAXTHREAD;
  pr_count : tnums p = Z.of_nat (length (used (p_thread p)));
  pr_home i t : p_thread p !! i = Some t -> t <> 0 ->
    exists th, threads s !! t = Some th /\ home th = p_address p /\ id_p th = Z.of_nat i /\ state th <> THREAD_UNUSED }.

Lemma process_free_slot s p : process_ok s p -> tnums p <> PROC_MAXTHREAD ->
  exists i, find_slot (p_thread p) 0 0 = Some i /\ p_thread p !! i = Some 0.
Proof.
  intros [HA HS HC HH] Hn. destruct (find_slot (p_thread p) 0 0) as [i|] eqn:E.
  - exists i. split; [done|]. destruct (find_slot_Some _ _ _ _ E) as [_ H]. by rewrite Nat.sub_0_r in H.
  - apply find_slot_None, used_full in E. rewrite E in HC. lia.
Qed.

Lemma put_put s t a b : put_thread (put_thread s t a) t b = put_thread s t b.
Proof. unfold put_thread. cbn. by rewrite insert_insert_eq. Qed.

Lemma process_put s s' p t x : process_ok s p -> threads s' = <[t := x]> (threads s) -> t ∉ p_thread p -> process_ok s' p.
Proof.
  intros [HA HS HC HH] E Hn. split; try done. intros i u Hu H0. destruct (HH i u Hu H0) as (th & Hth & ?). exists th.
  rewrite E, lookup_insert_ne; [done|]. intros ->. apply Hn. by eapply list_elem_of_lookup_2.
Qed.

Lemma process_fill s s' p t x i : process_ok s p -> threads s' = <[t := x]> (threads s) -> t ∉ p_thread p -> t <> 0 ->
  p_thread p !! i = Some 0 -> home x = p_address p -> id_p x = Z.of_nat i -> state x <> THREAD_UNUSED ->
  process_ok s' (with_slots p (<[i := t]> (p_thread p)) (tnums p + 1) (live_threads p + 1)).
Proof.
  intros HP E Hn H0 Hi E1 E2 E3. destruct (process_put s s' p t x HP E Hn) as [HA HS HC HH]. split; cbn; try done.
  - by rewrite length_insert.
  - rewrite used_fill by done. lia.
  - intros j u Hu Hu0. apply list_lookup_insert_Some in Hu as [(<- & <- & _)|[_ Hu]]; [|by apply HH].
    exists x. by rewrite E, lookup_insert_eq.
Qed.

(** A new record for an unused thread that this CPU locked. *)
Lemma fresh_ok s l me t th x : sched_ok s l -> threads s !! t = Some th -> state th = THREAD_UNUSED -> lock_owner th = None ->
  state x = THREAD_ALLOCATED -> home x <> 0 -> sched_of x = sched_of th ->
  let s1 := put_thread (put_thread s t (with_owner th (Some me))) t x in
  exists s' x', thread_sched_init s1 t = Ret s' /\ sched_ok s' l /\ min_vruntime s' = min_vruntime s /\
    cpus s' = cpus s /\ threads s' = <[t := x']> (threads s) /\ x' = with_sched x (sched_of x') /\
    (forall i c, cpus s' !! i = Some c -> current c <> t).
Proof.
  intros H Ht HU HO E1 E2 E3. cbv zeta. pose proof (ok_nonnull s l t th H Ht) as H0.
  assert (HC : forall i c, cpus s !! i = Some c -> current c <> t).
  { intros i c Hi Ec. destruct (current_is _ _ (ok_place s l H) t th i c Ht H0 Hi Ec); congruence. }
  assert (H1 : sched_ok (put_thread (put_thread s t (with_owner th (Some me))) t x) l).
  { apply (ok_aside _ l t (with_owner th (Some me))); [by apply lock_ok|apply lookup_insert_eq|cbn; congruence|done|
      congruence|congruence|done|by left]. }
  destruct (sched_init_ok _ l t x H1) as (s2 & x2 & -> & H2 & M2 & C2 & T2 & E); [apply lookup_insert_eq|congruence|].
  exists s2, x2. split_and!; try done.
  - rewrite T2. cbn. by rewrite !insert_insert_eq.
  - by rewrite C2.
Qed.

Lemma alloc_ok s l p me ts tf new_tid : sched_ok s l -> process_ok s p -> table s me ts -> p_lock_owner p = Some me ->
  exists s' p' t, thread_alloc s p me ts tf new_tid = Ret (s', p', t) /\ keeps s s' /\ process_ok s' p' /\
    (t = 0 /\ p' = p \/
     t <> 0 /\ t ∉ p_thread p /\ (forall i c, cpus s' !! i = Some c -> current c <> t) /\
     (exists i, p_thread p !! i = Some 0 /\
        p' = with_slots p (<[i := t]> (p_thread p)) (tnums p + 1) (live_threads p + 1)) /\
     exists th, threads s' !! t = Some th /\ state th = THREAD_ALLOCATED /\ home th = p_address p /\
       lock_owner th = Some me /\ tid th = new_tid /\ trapframe th = tf /\ tf <> 0).
Proof.
  intros H HP HT' HL'. assert (K0 : keeps s s) by (by apply (keeps_intro s s l H)).
  unfold thread_alloc. rewrite bool_decide_true by done. cbn [negb].
  destruct (Z.eqb_spec (tnums p) PROC_MAXTHREAD) as [|Hn]; [exists s, p, 0; split_and!; [done..|by left]|].
  destruct (process_free_slot s p HP Hn) as (i & -> & Hi).
  destruct (find_unused_Ret s me ts HT') as [-> |(t & th & _ & Ht & HU & HO & ->)]; cbn [mbind outcome_bind].
  { exists s, p, 0. split_and!; [done..|by left]. }
  pose proof (ok_nonnull s l t th H Ht) as H0. unfold truth. rewrite (proj2 (Z.eqb_neq t 0)) by done. cbn [negb].
  assert (HN : t ∉ p_thread p).
  { intros [j Hj]%list_elem_of_lookup. destruct (pr_home s p HP j t Hj H0) as (x & Hx & _ & _ & Hs). congruence. }
  rewrite (thread_at_Ret _ t (with_owner th (Some me))) by apply lookup_insert_eq. cbn [mbind outcome_bind].
  set (x := MkThread (tid _) _ _ THREAD_ALLOCATED _ _ _ _ _).
  destruct (fresh_ok s l me t th x H Ht HU HO) as (s1 & x1 & E1 & H1 & M1 & C1 & T1 & X1 & HC); [done|by apply HP|done|].
  assert (S1 : state x1 = THREAD_ALLOCATED) by (by rewrite X1).
  rewrite E1. cbn [mbind outcome_bind]. assert (L1 : threads s1 !! t = Some x1) by (rewrite T1; apply lookup_insert_eq).
  rewrite (thread_at_Ret s1 t x1 L1). cbn [mbind outcome_bind]. rewrite X1. cbn [with_sched tid id_p trapframe state home
    kernel_thread process_reaper lock_owner sched_of x]. destruct (Z.eqb_spec tf 0) as [Htf|Htf]; cbn [negb].
  - set (y := MkThread _ _ tf THREAD_UNUSED _ _ _ _ _).
    assert (H2 : sched_ok (put_thread s1 t y) l) by (apply (ok_aside s1 l t x1); rewrite ?S1; done).
    destruct (unlock_aside _ l me t y H2) as (s3 & E3 & H3 & M3 & T3); [apply lookup_insert_eq|done|apply HC|].
    rewrite E3. cbn [mbind outcome_bind]. do 3 eexists. split; [done|]. split; [|].
    { apply (keeps_intro s s3 l H3). rewrite M3. cbn. lia. }
    assert (EP : with_slots (with_slots p (<[i:=t]> (p_thread p)) (tnums p + 1) (live_threads p + 1))
       (<[Z.to_nat (Z.of_nat i):=0]> (<[i:=t]> (p_thread p))) (tnums p + 1 - 1) (live_threads p + 1 - 1) = p).
    { unfold with_slots. cbn. rewrite Nat2Z.id, list_insert_insert_eq, (list_insert_id (p_thread p) i 0 Hi).
      replace (tnums p + 1 - 1) with (tnums p) by lia. replace (live_threads p + 1 - 1) with (live_threads p) by lia.
      by destruct p. }
    cbn in EP |- *. rewrite EP. split; [|by left]. eapply (process_put s s3 p t); [done| |done].
    rewrite T3. cbn. by rewrite T1, !insert_insert_eq.
  - set (y := MkThread new_tid _ tf _ _ _ _ _ _). do 3 eexists. split; [done|].
    assert (H2 : sched_ok (put_thread s1 t y) l) by (apply (ok_aside s1 l t x1); rewrite ?S1; try done; left; apply HP).
    split; [apply (keeps_intro s _ l H2); cbn; lia|]. split.
    + apply (process_fill s _ p t y); try done. cbn. by rewrite T1, insert_insert_eq.
    + right. split; [done|]. split; [done|]. split; [done|]. split; [by exists i|]. exists y. cbn. by rewrite lookup_insert_eq.
Qed.

Lemma slot_unique s p i j t : process_ok s p -> t <> 0 -> p_thread p !! i = Some t -> p_thread p !! j = Some t -> i = j.
Proof.
  intros HP H0 Hi Hj. destruct (pr_home s p HP i t Hi H0) as (a & Ha & _ & Ia & _).
  destruct (pr_home s p HP j t Hj H0) as (b & Hb & _ & Ib & _). simplify_eq. lia.
Qed.

Lemma process_clear s s' p t x i live u v : process_ok s p -> threads s' = <[t := x]> (threads s) -> t <> 0 ->
  p_thread p !! i = Some t ->
  process_ok s' (MkProcess (p_address p) (<[i := 0]> (p_thread p)) (tnums p - 1) live u v (p_lock_owner p)).
Proof.
  intros HP E H0 Hi. pose proof HP as [HA HS HC HH]. split; cbn; try done.
  - by rewrite length_insert.
  - rewrite HC, (used_clear (p_thread p) i t) by done. lia.
  - intros j w Hw Hw0. apply list_lookup_insert_Some in Hw as [(<- & <- & _)|[Hne Hw]]; [done|].
    destruct (HH j w Hw Hw0) as (th & Hth & ?). exists th. rewrite E, lookup_insert_ne; [done|]. intros ->.
    apply Hne. by eapply slot_unique.
Qed.

Lemma free_ok s l p me t th : sched_ok s l -> process_ok s p -> threads s !! t = Some th -> t ∈ p_thread p ->
  p_lock_owner p = Some me -> lock_owner th = Some me -> state th <> THREAD_RUNNABLE ->
  (forall i c, cpus s !! i = Some c -> current c <> t) -> (state th = THREAD_EXITED \/ live_threads p <> 0) ->
  exists s' p' tf, thread_free s p me t false false = Ret (s', p', tf) /\ keeps s s' /\ process_ok s' p' /\
    tnums p' = tnums p - 1 /\ tf = (if truth (trapframe th) then Some (trapframe th) else None) /\
    (exists i, p_thread p !! i = Some t /\ p_thread p' = <[i := 0]> (p_thread p)) /\
    live_threads p' = (if decide (state th = THREAD_EXITED) then live_threads p else live_threads p - 1) /\
    exists th', threads s' !! t = Some th' /\ state th' = THREAD_UNUSED /\ lock_owner th' = Some me.
Proof.
  intros H HP Ht Hin HO' HO HR HC HLive. pose proof (ok_nonnull s l t th H Ht) as H0.
  unfold thread_free. rewrite (thread_at_Ret s t th Ht). cbn [mbind outcome_bind]. unfold spinlock_holding.
  rewrite (not_queued s l t th H Ht HR), !(bool_decide_true (_ = Some me)) by done. cbn [negb orb].
  pose proof Hin as [j Hj]%list_elem_of_lookup. rewrite (proj2 (Z.eqb_neq (tnums p) 0)).
  2: { rewrite (pr_count s p HP), (used_clear (p_thread p) j t) by done. lia. }
  destruct (find_slot (p_thread p) 0 t) as [i|] eqn:E; [|by apply find_slot_None in E].
  apply find_slot_Some in E as [_ Hi]. rewrite Nat.sub_0_r in Hi.
  assert (HB : negb (bool_decide (state th = THREAD_EXITED)) && negb (truth (live_threads p)) = false).
  { case_bool_decide; [done|]. destruct HLive as [|HLive]; [done|]. unfold truth. by rewrite (proj2 (Z.eqb_neq _ _) HLive). }
  rewrite HB. set (x := MkThread 0 (-1) 0 _ _ _ _ _ _).
  assert (H1 : sched_ok (put_thread s t x) l) by (by apply (ok_aside s l t th)).
  destruct (sched_init_ok _ l t x H1) as (s2 & x2 & -> & H2 & M2 & C2 & T2 & E2); [apply lookup_insert_eq|done|].
  cbn [mbind outcome_bind]. cbn in T2. rewrite insert_insert_eq in T2. do 3 eexists. split; [done|]. split_and!; try done.
  - apply (keeps_intro s s2 l H2). by rewrite M2.
  - by eapply (process_clear s s2 p t x2 i).
  - by exists i.
  - cbn. by destruct (decide _) as [->|]; case_bool_decide.
  - exists x2. rewrite T2, lookup_insert_eq, E2. done.
Qed.
End threads.
