(* ===== verification/SchedulerTheorems.v ===== *)
(** * The scheduler is correct

    Runs of the scheduler as sequences of calls made by the CPUs, the safety of
    every state they reach, and the functional properties of the choice of the
    next thread, of virtual runtimes and of time slices. *)
From S2P Require Import Prelude RbTree Timeline Scheduler SchedulerQueue SchedulerPlace SchedulerOps SchedulerSteps.

Definition NTHREAD : Z := 64.

(** ** Calls *)

Inductive call :=
| Lock (me : nat) (t : Z) | Unlock (me : nat) (t : Z)
| Wake (me : nat) (t now : Z) | Yield (me : nat) (now : Z) | Block (me : nat) (now : Z) | Exit (me : nat) (now : Z)
| Next (me : nat) (now : Z) | Start (me : nat) (t now : Z) | Leave (me : nat) (t : Z)
| SetNice (me : nat) (t n now : Z) | GetNice (me : nat) (t : Z) | Inherit (me : nat) (child parent now : Z)
| Kick (me : nat) (t : Z) | Tick (me : nat) (now : Z) | RequestResched (me : nat) | ShouldResched (me : nat)
| AccountEnter (me : nat) (now : Z) (user : bool) | IdleBegin (me : nat) (now : Z) | IdleEnd (me : nat) (now : Z)
| CreateKernelThread (me : nat) (ts : list Z) (name function new_tid now : Z)
| AllocThread (me : nat) (p : process) (ts : list Z) (tf new_tid : Z) | FreeThread (me : nat) (p : process) (t : Z).

Section runs.
  Context {T : Type} {HT : Timeline T} {HL : TimelineLaws T}.
  Implicit Types (s : runqueue T) (t : Z) (me : nat).

Definition perform (c : call) s : outcome (runqueue T) :=
  match c with
  | Lock me t => lock_thread s me t
  | Unlock me t => unlock_thread s me t
  | Wake me t now => '(s, _) ← scheduler_make_runnable s me t now; Ret s
  | Yield me now => '(s, _) ← yield s me 1 now; Ret s
  | Block me now => scheduler_block_current s me now
  | Exit me now => scheduler_exit s me 1 now
  | Next me now => '(s, _) ← scheduler_next s me false now; Ret s
  | Start me t now => scheduler_start s me t now
  | Leave me t => '(s, _) ← scheduler_leave s me t false; Ret s
  | SetNice me t n now => '(_, s, _) ← scheduler_set_nice s me t n now; Ret s
  | GetNice me t => '(_, s) ← scheduler_get_nice s me t; Ret s
  | Inherit me child parent now => scheduler_inherit s me child parent now
  | Kick me t => '(s, _) ← scheduler_kick s me t; Ret s
  | Tick me now => scheduler_tick s me now
  | RequestResched me => scheduler_request_resched s me
  | ShouldResched me => '(_, s) ← scheduler_should_resched s me; Ret s
  | AccountEnter me now user => account_enter s me now user
  | IdleBegin me now => idle_begin s me now
  | IdleEnd me now => idle_end s me now
  | CreateKernelThread me ts name function new_tid now =>
      '(s, _, _) ← kernel_thread_create s me ts name function new_tid now; Ret s
  | AllocThread me p ts tf new_tid => '(s, _, _) ← thread_alloc s p me ts tf new_tid; Ret s
  | FreeThread me p t => '(s, _, _) ← thread_free s p me t false false; Ret s
  end.

(** The thread of a CPU. *)
Definition runs s me t : Prop := exists c, cpus s !! me = Some c /\ current c = t.
Definition selects s me t : Prop := exists c, cpus s !! me = Some c /\ selected c = t.
Definition is_thread s t (P : thread -> Prop) : Prop := exists th, threads s !! t = Some th /\ P th.

(** The conditions under which the kernel makes a call: a lock that is taken is free, one that is released is held and
    not by a thread on its way to the switch; a thread gives up its own CPU while it runs; the scheduler loop picks a
    thread when it has none, starts the one it picked and leaves it once it stopped running. *)
Definition allowed (c : call) s : Prop :=
  match c with
  | Lock me t => is_thread s t (fun th => lock_owner th = None)
  | Unlock me t => is_thread s t (fun th => lock_owner th = Some me /\ (runs s me t -> state th = THREAD_RUNNING))
  | Wake me t now => (me < length (cpus s))%nat /\ is_u64 now /\
      is_thread s t (fun th => lock_owner th = Some me /\ (state th = THREAD_ALLOCATED \/ state th = THREAD_SLEEPING))
  | Yield me now | Exit me now => is_u64 now /\ exists t, runs s me t /\
      is_thread s t (fun th => state th = THREAD_RUNNING /\ lock_owner th = None)
  | Block me now => is_u64 now /\ exists t, runs s me t /\
      is_thread s t (fun th => state th = THREAD_RUNNING /\ lock_owner th = Some me)
  | Next me now => is_u64 now /\ exists c, cpus s !! me = Some c /\ current c = 0 /\ selected c = 0
  | Start me t now => is_u64 now /\ (exists c, cpus s !! me = Some c /\ selected c = t) /\
      is_thread s t (fun th => lock_owner th = None)
  | Leave me t => runs s me t /\ is_thread s t (fun th => lock_owner th = Some me /\ state th <> THREAD_RUNNING)
  | SetNice me t n now => is_u64 now /\ is_thread s t (fun th => lock_owner th = None)
  | GetNice me t => is_thread s t (fun th => lock_owner th = None)
  | Inherit me child parent now => is_u64 now /\ is_thread s parent (fun _ => True) /\
      is_thread s child (fun th => lock_owner th = Some me /\ state th = THREAD_ALLOCATED)
  | Kick me t => True
  | Tick me _ | RequestResched me | ShouldResched me | AccountEnter me _ _ | IdleBegin me _ | IdleEnd me _ =>
      (me < length (cpus s))%nat
  | CreateKernelThread me ts _ _ _ now => (me < length (cpus s))%nat /\ is_u64 now /\ table s me ts
  | AllocThread me p ts _ _ => process_ok s p /\ table s me ts /\ p_lock_owner p = Some me
  | FreeThread me p t => process_ok s p /\ t ∈ p_thread p /\ p_lock_owner p = Some me /\ (forall i, ~ runs s i t) /\
      is_thread s t (fun th => lock_owner th = Some me /\ state th <> THREAD_RUNNABLE /\
        (state th = THREAD_EXITED \/ live_threads p <> 0))
  end.

(** A result with more than the state. *)
Lemma keeps_fst {A} s (m : outcome (runqueue T * A)) : (exists s' o, m = Ret (s', o) /\ keeps s s') ->
  exists s', ('(s, _) ← m; Ret s) = Ret s' /\ keeps s s'.
Proof. intros (s' & o & -> & H). by exists s'. Qed.
Lemma keeps_snd {A} s (m : outcome (A * runqueue T)) : (exists o s', m = Ret (o, s') /\ keeps s s') ->
  exists s', ('(_, s) ← m; Ret s) = Ret s' /\ keeps s s'.
Proof. intros (o & s' & -> & H). by exists s'. Qed.

Lemma call_ok c s l : sched_ok s l -> allowed c s -> exists s', perform c s = Ret s' /\ keeps s s'.
Proof.
  intros H HA. assert (K : forall s', sched_ok s' l -> min_vruntime s' = min_vruntime s -> keeps s s').
  { intros s' H' M. apply (keeps_intro s s' l H'). lia. }
  destruct c; cbn [perform allowed] in *.
  - destruct HA as (th & Ht & HO). destruct (lock_ok s l me t th H Ht HO) as [-> H1]. eauto.
  - destruct HA as (th & Ht & HO & HR). destruct (unlock_ok s l me t th H Ht HO) as [-> H1]; [|eauto].
    intros c Hc Ec. apply HR. by exists c.
  - destruct HA as (Hme & Hn & th & Ht & HO & HS). apply keeps_fst.
    destruct (enqueue_op_ok s l me t th true now H) as (s' & o & l1 & l2 & th' & E & _ & H1 & M & _); try done.
    { split; [done|]. split; [done|]. tauto. }
    exists s', o. split; [done|]. by apply (keeps_intro s s' _ H1).
  - destruct HA as (Hn & t & (c & Hc & Ec) & th & Ht & HR & HO). apply keeps_fst. by eapply yield_ok.
  - destruct HA as (Hn & t & (c & Hc & Ec) & th & Ht & HR & HO).
    destruct (stop_ok s l me c t th now "block non-running thread" THREAD_SLEEPING H) as (s' & th' & E & H1 & M & _); try done.
    exists s'. split; [done|]. by apply (keeps_intro s s' l H1).
  - destruct HA as (Hn & t & (c & Hc & Ec) & th & Ht & HR & HO). by eapply exit_ok.
  - destruct HA as (Hn & c & Hc & E1 & E2). apply keeps_fst. destruct l as [|p l].
    + destruct (next_idle_ok s me c now H Hc E1 E2) as [E H1]. do 2 eexists. split; [done|]. by apply K.
    + destruct (next_pick_ok s me c p l now H Hc E1 E2 Hn) as (s' & th & th' & E & H1 & M & _). exists s', p.
      split; [done|]. by apply (keeps_intro s s' l H1).
  - destruct HA as (Hn & (c & Hc & Ec) & th & Ht & HO).
    destruct (start_ok s l me c t th now H Hc Ec Ht HO Hn) as (s' & th' & E & H1 & M & _). eauto.
  - destruct HA as ((c & Hc & Ec) & th & Ht & HO & HR). apply keeps_fst. by eapply leave_ok.
  - destruct HA as (Hn & th & Ht & HO). destruct (decide (-20 <= n <= 19)) as [Hr|Hr].
    + destruct (set_nice_ok s l me t th n now H Ht HO Hr Hn) as (s' & o & th' & -> & HK & _). eauto.
    + unfold scheduler_set_nice. replace (negb (truth t) || (n <? -20) || (19 <? n)) with true; [eauto|].
      symmetry. rewrite !orb_true_iff, !Z.ltb_lt. lia.
  - destruct HA as (th & Ht & HO). apply keeps_snd. destruct (get_nice_ok s l me t th H Ht HO) as (s' & E & HK). eauto.
  - destruct HA as (Hn & (ph & Hp & _) & th & Ht & HO & HS). by eapply inherit_ok.
  - apply keeps_fst. by apply (kick_ok s l).
  - by apply (tick_ok s l).
  - apply lookup_lt_is_Some_2 in HA as [c Hc]. eapply flag_ok; [done|done|by destruct (truth _)..].
  - apply keeps_snd. by apply (should_resched_ok s l).
  - by apply (account_enter_ok s l).
  - apply lookup_lt_is_Some_2 in HA as [c Hc]. by eapply flag_ok.
  - apply lookup_lt_is_Some_2 in HA as [c Hc]. by eapply flag_ok.
  - destruct HA as (Hme & Hn & HT'). destruct (create_ok s l me ts name function new_tid now H HT' Hme Hn) as (s' & t & o & -> & HK).
    eauto.
  - destruct HA as (HP & HT' & HO). destruct (alloc_ok s l p me ts tf new_tid H HP HT' HO) as (s' & p' & t & -> & HK & _). eauto.
  - destruct HA as (HP & Hin & HO' & HC & th & Ht & HO & HR & HV).
    destruct (free_ok s l p me t th H HP Ht Hin HO' HO HR) as (s' & p' & tf & -> & HK & _); try done; [|eauto].
    intros i c Hi Ec. apply (HC i). by exists c.
Qed.

(** ** Reachable states *)

Definition step s s' : Prop := exists c, allowed c s /\ perform c s = Ret s'.

(** What [thread_setup] and [cpu_init] leave behind: unused threads and CPUs without a thread. *)
Record boot s : Prop := {
  boot_threads t th : threads s !! t = Some th -> t <> 0 /\ state th = THREAD_UNUSED /\
    on_runqueue (sched_of th) = false /\ entity_ok (sched_of th);
  boot_cpus i c : cpus s !! i = Some c -> current c = 0 /\ selected c = 0;
  boot_nodes : tl_alloc (dom (threads s)) (timeline s);
  boot_size : Z.of_nat (size (threads s)) < 2 ^ 31 }.

Definition reachable s : Prop := exists s0, boot s0 /\ rtc step (scheduler_init s0) s.

Lemma boot_ok s : boot s -> sched_ok (scheduler_init s) [].
Proof.
  intros [BT BC BN BS]. split; [split|split]; cbn; try done.
  - by apply tl_init_ok.
  - intros t. split; [set_solver|]. intros (th & Ht & Hq). destruct (BT t th Ht) as (_ & _ & E & _). congruence.
  - constructor.
  - intros t th Ht. destruct (BT t th Ht) as (H0 & _ & _ & He). done.
  - intros i c Hi. by destruct (BC i c Hi) as [-> _].
  - intros i j c d Hi. by destruct (BC i c Hi) as [-> _].
  - intros i c Hi. by destruct (BC i c Hi) as [_ ->].
  - intros i j c d Hi. by destruct (BC i c Hi) as [_ ->].
  - intros t th Ht. destruct (BT t th Ht) as (_ & -> & _). done.
  - intros t th Ht. destruct (BT t th Ht) as (_ & -> & _). done.
  - intros t th Ht. destruct (BT t th Ht) as (_ & _ & -> & _). done.
  - intros t th Ht. destruct (BT t th Ht) as (_ & -> & _). done.
Qed.

Lemma step_ok s s' l : sched_ok s l -> step s s' -> keeps s s'.
Proof. intros H (c & HA & E). destruct (call_ok c s l H HA) as (s1 & E1 & K). congruence. Qed.

Lemma reachable_ok s : reachable s -> exists l, sched_ok s l.
Proof.
  intros (s0 & HB & HR). assert (H0 : exists l, sched_ok (scheduler_init s0) l) by (exists []; by apply boot_ok).
  clear HB. induction HR as [|a b c Hab _ IH]; [done|]. apply IH. destruct H0 as [l H0]. by apply (step_ok a b l H0).
Qed.

Lemma reachable_step s s' : reachable s -> step s s' -> reachable s'.
Proof. intros (s0 & HB & HR) HS. exists s0. split; [done|]. eapply rtc_r; [done|done]. Qed.

(** C5: No call that the kernel makes ever panics or faults, whatever the order in which the CPUs make them, and
    [min_vruntime] never decreases. *)
Theorem scheduler_never_panics s c : reachable s -> allowed c s ->
  exists s', perform c s = Ret s' /\ reachable s' /\ min_vruntime s <= min_vruntime s'.
Proof.
  intros HR HA. destruct (reachable_ok s HR) as [l H]. destruct (call_ok c s l H HA) as (s' & E & _ & M). exists s'.
  split; [done|]. split; [|done]. eapply reachable_step; [done|]. by exists c.
Qed.

(** C20: In every reachable state no two CPUs run the same thread and no two have selected the same one, a thread that
    runs is on one CPU, a runnable thread is either in the run queue or selected by exactly one CPU and never both, a CPU
    that selected a thread runs none and the thread is runnable, and a thread that stopped running keeps its lock until
    its CPU has left it. *)
Theorem scheduler_placement s : reachable s ->
  (forall i j t, t <> 0 -> runs s i t -> runs s j t -> i = j) /\
  (forall i j t, t <> 0 -> selects s i t -> selects s j t -> i = j) /\
  (forall t th, threads s !! t = Some th -> state th = THREAD_RUNNING -> exists! i, runs s i t) /\
  (forall t th, threads s !! t = Some th -> state th = THREAD_RUNNABLE ->
     (on_runqueue (sched_of th) = true /\ (forall i, ~ selects s i t)) \/
     (on_runqueue (sched_of th) = false /\ exists! i, selects s i t)) /\
  (forall i t, t <> 0 -> selects s i t -> runs s i 0 /\ is_thread s t (fun th => state th = THREAD_RUNNABLE)) /\
  (forall t th i, threads s !! t = Some th -> runs s i t -> state th <> THREAD_RUNNING -> lock_owner th = Some i).
Proof.
  intros [l H]%reachable_ok. pose proof (ok_place s l H) as HP.
  assert (HA : forall i j t, t <> 0 -> runs s i t -> runs s j t -> i = j).
  { intros i j t H0 (c & Hc & <-) (d & Hd & Ed). by apply (pl_alone _ _ HP i j c d). }
  assert (HB : forall i j t, t <> 0 -> selects s i t -> selects s j t -> i = j).
  { intros i j t H0 (c & Hc & <-) (d & Hd & Ed). by apply (pl_claimed _ _ HP i j c d). }
  split; [done|]. split; [done|]. split; [|split; [|split]].
  - intros t th Ht HR. destruct (pl_running _ _ HP t th Ht HR) as (i & c & Hc & Ec). exists i. split; [by exists c|].
    intros j Hj. apply (HA i j t); [exact (ok_nonnull s l t th H Ht)|by exists c|done].
  - intros t th Ht HR. pose proof (ok_nonnull s l t th H Ht) as H0. destruct (on_runqueue (sched_of th)) eqn:HQ.
    + left. split; [done|]. intros i (c & Hc & Ec).
      destruct (selected_is _ _ HP t th i c Ht H0 Hc Ec) as (_ & ? & _). congruence.
    + right. split; [done|]. destruct (pl_runnable _ _ HP t th Ht HR) as [|(i & c & Hc & Ec)]; [congruence|].
      exists i. split; [by exists c|]. intros j Hj. apply (HB i j t); [done|by exists c|done].
  - intros i t H0 (c & Hc & <-). destruct (pl_selected _ _ HP i c Hc H0) as (E & th & Ht & HR & _).
    split; [by exists c|by exists th].
  - intros t th i Ht (c & Hc & Ec) HR. pose proof (ok_nonnull s l t th H Ht) as H0.
    by destruct (current_is _ _ HP t th i c Ht H0 Hc Ec).
Qed.

(** In every reachable state the timeline holds exactly the threads marked as queued, all of them runnable, each
    once and in increasing order of virtual runtime (then thread id, then address); [count] is their number and
    [total_weight] the sum of their weights. *)
Theorem run_queue_consistent s : reachable s -> exists l,
  tl_ok (dom (threads s)) (timeline s) l /\ NoDup l /\ queue_sorted (threads s) l /\
  count s = Z.of_nat (length l) /\ total_weight s = load (threads s) l /\
  (forall t, t ∈ l <-> is_thread s t (fun th => on_runqueue (sched_of th) = true)) /\
  (forall t, t ∈ l -> is_thread s t (fun th => state th = THREAD_RUNNABLE /\ entity_ok (sched_of th))).
Proof.
  intros [l H]%reachable_ok. pose proof (ok_queue s l H) as HQ. exists l.
  split_and!; try apply HQ; [exact (tl_ok_nodup _ _ _ (q_tl s l HQ))|].
  intros t Ht. apply (q_in s l HQ) in Ht as (th & Hth & Hq). exists th. split; [done|].
  split; [exact (pl_queued _ _ (ok_place s l H) t th Hth Hq)|exact (ok_entity s l t th H Hth)].
Qed.

(** [scheduler_next] on a CPU without a thread picks the queued thread that comes first, takes it off the queue
    and marks it as selected by this CPU; it reports an idle CPU only when no thread is queued. *)
Theorem scheduler_next_least s me c now : reachable s -> cpus s !! me = Some c -> current c = 0 -> selected c = 0 ->
  is_u64 now ->
  exists s' t, scheduler_next s me false now = Ret (s', t) /\
    ((t = 0 /\ (forall u, ~ is_thread s u (fun th => on_runqueue (sched_of th) = true)) /\
      cpus s' !! me = Some (with_idle c true)) \/
     (is_thread s t (fun th => on_runqueue (sched_of th) = true) /\
      (forall u, is_thread s u (fun th => on_runqueue (sched_of th) = true) -> u = t \/ precedes (threads s) t u = true) /\
      is_thread s' t (fun th => on_runqueue (sched_of th) = false /\ state th = THREAD_RUNNABLE) /\
      cpus s' !! me = Some (with_selected (with_idle c false) t))).
Proof.
  intros [l H]%reachable_ok Hc E1 E2 Hn. pose proof (ok_queue s l H) as HQ. destruct l as [|p l].
  - destruct (next_idle_ok s me c now H Hc E1 E2) as [E _]. do 2 eexists. split; [exact E|]. left. split; [done|]. split.
    + intros u Hu. apply (q_in s [] HQ) in Hu. set_solver.
    + cbn. apply list_lookup_insert_eq. by eapply lookup_lt_Some.
  - destruct (next_pick_ok s me c p l now H Hc E1 E2 Hn) as (s' & th & th' & E & H1 & _ & Ht & T1 & X & C1 & _).
    exists s', p. split; [done|]. right. split; [apply (q_in s _ HQ); set_solver|]. split; [|split].
    + intros u Hu. apply (q_in s _ HQ) in Hu. apply elem_of_cons in Hu as [->|Hu]; [by left|right].
      pose proof (q_sorted s _ HQ) as Hs. apply sorting.StronglySorted_cons in Hs as [Hs _]. rewrite Forall_forall in Hs. auto.
    + exists th'. rewrite T1, lookup_insert_eq. split; [done|]. rewrite X. cbn. split; [done|].
      apply (pl_queued _ _ (ok_place s _ H) p th Ht). destruct (proj1 (q_in s _ HQ p)) as (x & Hx & Hq); [set_solver|]. congruence.
    + rewrite C1. apply list_lookup_insert_eq. by eapply lookup_lt_Some.
Qed.
End runs.

(** ** Virtual runtimes and time slices *)

(** Scaling in two parts is exact. *)
Lemma split_div a k w : 0 < w -> a / w * k + a mod w * k / w = a * k / w.
Proof.
  intros Hw. rewrite (Z.div_mod a w) at 3 by lia.
  replace ((w * (a / w) + a mod w) * k) with (a mod w * k + a / w * k * w) by ring.
  rewrite Z.div_add by lia. ring.
Qed.

(** For every weight of the table, [scale_runtime] is the runtime scaled by 1024 over the weight, rounded down,
    for all runtimes up to 2^57 ns (more than four years); the parts it computes do not overflow. *)
Theorem scale_runtime_exact runtime w : 0 <= runtime < 2 ^ 57 -> w ∈ nice_weights ->
  scale_runtime runtime w = runtime * NICE_0_LOAD / w.
Proof.
  intros Hr Hw. pose proof (proj1 (Forall_forall _ _) weights_range w Hw) as HW. cbv beta in HW. unfold scale_runtime, NICE_0_LOAD.
  pose proof (Z.mod_pos_bound runtime w ltac:(lia)) as Hm. pose proof (Z.div_pos runtime w ltac:(lia) ltac:(lia)) as Hp.
  assert (Hd : runtime / w <= runtime / 15) by (apply Z.div_le_compat_l; lia).
  assert (Hd' : runtime / 15 < 2 ^ 54) by (apply Z.div_lt_upper_bound; lia).
  rewrite (wrap64_id (runtime / w * 1024)), (wrap64_id (runtime mod w * 1024)) by (unfold is_u64; lia).
  rewrite wrap64_id; [apply split_div; lia|].
  assert (HX : runtime mod w * 1024 / w < 1024) by (apply Z.div_lt_upper_bound; lia).
  assert (HY : 0 <= runtime mod w * 1024 / w) by (apply Z.div_pos; lia). unfold is_u64. lia.
Qed.

Lemma slice_of_exact runnable tw w : 1 <= runnable < 2 ^ 31 -> 15 <= w <= tw -> tw * w < 2 ^ 64 ->
  slice_of runnable tw w =
  Z.max SCHED_MIN_SLICE_NS (Z.max SCHED_TARGET_LATENCY_NS (runnable * SCHED_MIN_GRANULARITY_NS) * w / tw).
Proof.
  intros Hn Hw Ht. unfold slice_of, SCHED_MIN_SLICE_NS, SCHED_TARGET_LATENCY_NS, SCHED_MIN_GRANULARITY_NS.
  rewrite (wrap64_id (runnable * 6000000)) by (unfold is_u64; lia).
  set (period := Z.max 48000000 (runnable * 6000000)).
  replace (if runnable * 6000000 <? 48000000 then 48000000 else runnable * 6000000) with period
    by (unfold period; destruct (Z.ltb_spec (runnable * 6000000) 48000000); lia).
  assert (HP : 0 <= period < 2 ^ 54) by lia.
  pose proof (Z.mod_pos_bound period tw ltac:(lia)) as Hm. pose proof (Z.div_pos period tw ltac:(lia) ltac:(lia)) as Hq.
  assert (HA : period / tw * w <= period).
  { transitivity (period / tw * tw); [nia|]. pose proof (Z.div_mod period tw ltac:(lia)). nia. }
  assert (HB : 0 <= period mod tw * w < 2 ^ 64) by nia.
  assert (HC : period mod tw * w / tw < 2 ^ 54).
  { apply Z.div_lt_upper_bound; [lia|]. pose proof (Z.mod_le period tw ltac:(lia) ltac:(lia)).
    apply Z.le_lt_trans with (period mod tw * tw); [apply Z.mul_le_mono_nonneg_l; lia|].
    rewrite Z.mul_comm. apply Z.mul_lt_mono_pos_l; lia. }
  rewrite (wrap64_id (period / tw * w)), (wrap64_id (period mod tw * w)) by (unfold is_u64; nia).
  assert (HD : 0 <= period mod tw * w / tw) by (apply Z.div_pos; lia).
  rewrite (wrap64_id (_ + _)) by (unfold is_u64; nia). rewrite split_div by lia.
  destruct (Z.ltb_spec (period * w / tw) 1000000); lia.
Qed.

Lemma total_nonneg l : (forall x, x ∈ l -> 0 <= x <= 88761) -> 0 <= total l <= 88761 * Z.of_nat (length l).
Proof.
  induction l as [|x l IH]; intros H; [cbn; lia|]. change (total (x :: l)) with (x + total l). cbn [length].
  pose proof (H x ltac:(set_solver)). specialize (IH ltac:(set_solver)). lia.
Qed.

Section slices.
  Context {T : Type} {HT : Timeline T} {HL : TimelineLaws T}.
  Implicit Types (s : runqueue T).

Lemma cpu_weights_range s l t c x : sched_ok s l -> x ∈ cpu_weights s t c -> 0 <= x <= 88761.
Proof.
  intros H Hx. assert (HW : forall u th, threads s !! u = Some th -> 0 <= weight (sched_of th) <= 88761).
  { intros u th Hu. pose proof (weight_range _ (ok_entity s l u th H Hu)). lia. }
  unfold cpu_weights in Hx. apply elem_of_app in Hx as [Hx|Hx]; (destruct (_ && _) in Hx; [|set_solver]).
  - destruct (threads s !! current c) eqn:E; [|set_solver]. destruct (is_running _); [|set_solver].
    apply list_elem_of_singleton in Hx as ->. by eapply HW.
  - destruct (threads s !! selected c) eqn:E; [|set_solver]. apply list_elem_of_singleton in Hx as ->. by eapply HW.
Qed.

Lemma cpu_weights_length s t cs : (length (cs ≫= cpu_weights s t) <= 2 * length cs)%nat.
Proof.
  induction cs as [|c cs IH]; [done|]. cbn [mbind list_bind length]. rewrite length_app.
  assert (length (cpu_weights s t c) <= 2)%nat; [|unfold mbind in *; lia].
  unfold cpu_weights. rewrite length_app.
  destruct (_ && _), (_ && _); repeat case_match; cbn; lia.
Qed.

(** The slice that [scheduler_next] gives to the thread it picks is the share of the period that its weight has in
    the weight of all runnable threads, rounded down, and at least the minimal slice.  The period is 6 ms for each of
    the threads that are queued, running or about to run, and at least 48 ms; nothing overflows. *)
Theorem scheduler_slice_share s me c now t th s' : reachable s ->
  Z.of_nat (size (threads s)) <= NTHREAD -> (length (cpus s) <= 1024)%nat ->
  cpus s !! me = Some c -> current c = 0 -> selected c = 0 -> is_u64 now ->
  scheduler_next s me false now = Ret (s', t) -> threads s !! t = Some th ->
  let others := cpus s ≫= cpu_weights s t in
  is_thread s' t (fun th' => slice_ns (sched_of th') =
    Z.max SCHED_MIN_SLICE_NS
      (Z.max SCHED_TARGET_LATENCY_NS ((count s + Z.of_nat (length others)) * SCHED_MIN_GRANULARITY_NS) *
       weight (sched_of th) / (total_weight s + total others))).
Proof.
  intros [l H]%reachable_ok HN HCs Hc E1 E2 Hn E Ht. cbv zeta. pose proof (ok_queue s l H) as HQ. destruct l as [|p l].
  { destruct (next_idle_ok s me c now H Hc E1 E2) as [E' _]. rewrite E in E'. injection E' as _ ->.
    rewrite (ok_null s _ H) in Ht. done. }
  destruct (next_pick_ok s me c p l now H Hc E1 E2 Hn) as (s1 & th0 & th1 & E' & _ & _ & T0 & T1 & _ & _ & HS).
  rewrite E in E'. injection E' as <- <-. rewrite T0 in Ht. injection Ht as <-.
  exists th1. rewrite T1, lookup_insert_eq. split; [done|]. rewrite HS.
  set (others := cpus s ≫= cpu_weights s t) in *. pose proof (cpu_weights_length s t (cpus s)) as HLen. fold others in HLen.
  assert (HTot : 0 <= total others <= 88761 * Z.of_nat (length others)).
  { apply total_nonneg. intros x (d & Hx & _)%list_elem_of_bind. by eapply cpu_weights_range. }
  pose proof (nodup_size (threads s) (t :: l) (tl_ok_nodup _ _ _ (q_tl s _ HQ)) (fun u => q_dom s _ u HQ)) as HSz.
  pose proof (q_count s _ HQ) as HCt. pose proof (q_weight s _ HQ) as HW. rewrite load_cons in HW.
  assert (HL' : 0 <= load (threads s) l <= 88761 * Z.of_nat (length l)).
  { apply load_range. intros u Hu. pose proof (q_weight_of s _ u HQ ltac:(set_solver)). lia. }
  pose proof (weight_range _ (ok_entity s _ t th0 H T0)) as Hw. unfold weight_of in HW. rewrite T0 in HW. cbn in HW.
  unfold NTHREAD in HN. cbn [length] in HSz, HCt.
  rewrite wrap32_id by (unfold is_u32; lia). rewrite wrap64_id by (unfold is_u64; lia).
  apply slice_of_exact; [lia|lia|]. nia.
Qed.
End slices.

(** ** Threads of a process *)

(** When a thread slot and a trapframe page are available, [thread_alloc] takes a thread that is not in use, and
    [thread_free] of it gives back the page and restores the slots and the counts of the process. *)
Theorem thread_alloc_free {T} {HT : Timeline T} {HL : TimelineLaws T} (s : runqueue T) p me ts tf new_tid s' p' t :
  reachable s -> process_ok s p -> table s me ts -> p_lock_owner p = Some me -> live_threads p >= 0 ->
  thread_alloc s p me ts tf new_tid = Ret (s', p', t) -> t <> 0 ->
  process_ok s' p' /\ t ∉ p_thread p /\ t ∈ p_thread p' /\
  exists s'' p'', thread_free s' p' me t false false = Ret (s'', p'', Some tf) /\ process_ok s'' p'' /\
    p_thread p'' = p_thread p /\ tnums p'' = tnums p /\ live_threads p'' = live_threads p.
Proof.
  intros [l H]%reachable_ok HP HT' HO HLive E H0.
  destruct (alloc_ok s l p me ts tf new_tid H HP HT' HO) as (s1 & p1 & t1 & E1 & [[l1 H1] _] & HP1 & HA).
  rewrite E in E1. injection E1 as <- <- <-.
  destruct HA as [[-> _]|(_ & HN & HC & (i & Hi & ->) & th & Ht & HS & _ & HOt & _ & HF & Htf)]; [done|].
  assert (Hj : <[i := t]> (p_thread p) !! i = Some t) by (apply list_lookup_insert_eq; by eapply lookup_lt_Some).
  assert (Hin : t ∈ <[i := t]> (p_thread p)) by (by eapply list_elem_of_lookup_2).
  split; [done|]. split; [done|]. split; [done|].
  destruct (free_ok s' l1 _ me t th H1 HP1 Ht Hin HO HOt) as (s2 & p2 & o & E2 & _ & HP2 & N2 & -> & (j & Hj2 & S2) & L2 & _);
    [congruence|done|right; cbn; lia|].
  exists s2, p2. rewrite E2. rewrite HF. unfold truth. rewrite (proj2 (Z.eqb_neq tf 0)) by done. split; [done|]. split; [done|].
  cbn in S2, N2, L2. rewrite (slot_unique s' _ j i t HP1 H0 Hj2 Hj) in S2.
  rewrite S2, list_insert_insert_eq, list_insert_id by done. split; [done|]. split; [lia|].
  rewrite L2. destruct (decide _); [congruence|lia].
Qed.

(** ** An example: two CPUs and a table of three threads *)

Definition example_unused : thread :=
  MkThread 0 0 0 THREAD_UNUSED 0 false 0 None (MkEntity 0 0 0 0 0 0 0 1024 0 false false false).
Definition example_nodes : rb_mem := MkMem (<[16 := MkRb 0 0 0 0]> (<[32 := MkRb 0 0 0 0]>
  (<[48 := MkRb 0 0 0 0]> ∅))) 7.
Definition example_cpu : cpu := MkCpu 0 0 true false false 0 0.
Definition example_boot : runqueue rb_mem :=
  MkRq (<[16 := example_unused]> (<[32 := example_unused]> (<[48 := example_unused]> ∅))) example_nodes 1 2 3
    [example_cpu; example_cpu] 4.

Lemma example_boots : boot example_boot.
Proof.
  split.
  - intros t th Ht. cbn in Ht. rewrite !lookup_insert_Some in Ht.
    destruct Ht as [[<- <-]|[_ [[<- <-]|[_ [[<- <-]|[_ [=]]]]]]]; (split; [done|]); by split_and!.
  - intros i c Hi. cbn in Hi. destruct i as [|[|i]]; cbn in Hi; by simplify_eq.
  - intros p Hp. cbn in Hp. rewrite !dom_insert_L, dom_empty_L in Hp. cbn.
    assert (p = 16 \/ p = 32 \/ p = 48) as [-> | [-> | ->]] by set_solver; by eexists.
  - reflexivity.
Qed.

Definition after (c : call) (s : runqueue rb_mem) : runqueue rb_mem :=
  match perform c s with Ret s' => s' | _ => s end.
Definition example_create (i : Z) (me : nat) : call := CreateKernelThread me [16; 32; 48] 1 1 (- i) (1000 * i).

(** Two kernel threads were created, by different CPUs. *)
Definition example_queued : runqueue rb_mem :=
  after (example_create 2 1) (after (example_create 1 0) (scheduler_init example_boot)).

Lemma table_check (s : runqueue rb_mem) me ts :
  forallb (fun t => match threads s !! t with Some th => negb (bool_decide (lock_owner th = Some me)) | None => false end) ts
  = true -> table s me ts.
Proof.
  intros H t Ht. rewrite forallb_forall in H. specialize (H t (proj1 (list_elem_of_In _ _) Ht)).
  destruct (threads s !! t) as [th|]; [|done]. exists th. split; [done|]. by case_bool_decide.
Qed.

Lemma example_allowed (s : runqueue rb_mem) i me : (me < length (cpus s))%nat -> is_u64 (1000 * i) -> table s me [16; 32; 48] ->
  allowed (example_create i me) s.
Proof. done. Qed.

Lemma example_reachable : reachable example_queued.
Proof.
  exists example_boot. split; [exact example_boots|]. eapply rtc_l; [|eapply rtc_l; [|apply rtc_refl]].
  - exists (example_create 1 0). split; [|vm_compute; reflexivity].
    apply example_allowed; [vm_compute; lia|unfold is_u64; lia|apply table_check; reflexivity].
  - exists (example_create 2 1). split; [|vm_compute; reflexivity].
    apply example_allowed; [vm_compute; lia|unfold is_u64; lia|apply table_check; vm_compute; reflexivity].
Qed.

Lemma scheduler_never_panics_witness :
  exists s', perform (Next 0 5000) example_queued = Ret s' /\ reachable s' /\ min_vruntime example_queued <= min_vruntime s'.
Proof.
  apply (scheduler_never_panics example_queued (Next 0 5000)); [exact example_reachable|].
  split; [unfold is_u64; lia|]. eexists. split; [vm_compute; reflexivity|]. by split.
Defined.

Lemma scheduler_placement_witness : exists th, threads example_queued !! 16 = Some th /\
  state th = THREAD_RUNNABLE /\ on_runqueue (sched_of th) = true /\ forall i, ~ selects example_queued i 16.
Proof.
  destruct (scheduler_placement example_queued example_reachable) as (_ & _ & _ & H & _).
  eexists. split; [vm_compute; reflexivity|]. split; [reflexivity|]. split; [reflexivity|].
  edestruct (H 16) as [[_ HN]|[HN _]]; [vm_compute; reflexivity|reflexivity|exact HN|discriminate HN].
Defined.

Lemma run_queue_consistent_witness : exists l, queue_sorted (threads example_queued) l /\ length l = 2%nat.
Proof.
  destruct (run_queue_consistent example_queued example_reachable) as (l & _ & _ & Hs & Hc & _). exists l. split; [exact Hs|].
  vm_compute (count _) in Hc. lia.
Defined.

Lemma scheduler_next_least_witness : exists s' t, scheduler_next example_queued 1 false 9000 = Ret (s', t) /\ t = 32.
Proof.
  destruct (scheduler_next_least example_queued 1 example_cpu 9000 example_reachable) as (s' & t & E & _);
    [vm_compute; reflexivity|reflexivity|reflexivity|unfold is_u64; lia|].
  exists s', t. split; [exact E|]. apply (f_equal (fun o => match o with Ret (_, t) => t | _ => 0 end)) in E.
  rewrite <-E. vm_compute. reflexivity.
Defined.

Lemma scale_runtime_exact_witness : scale_runtime 1000000007 335 = 1000000007 * 1024 / 335.
Proof. apply (scale_runtime_exact 1000000007 335); [lia|]. apply (proj2 (list_elem_of_In _ _)). vm_compute. tauto. Defined.

Lemma scheduler_slice_share_witness : exists s' t th,
  scheduler_next example_queued 1 false 9000 = Ret (s', t) /\ threads s' !! t = Some th /\
  slice_ns (sched_of th) = 48000000 * 1024 / 2048.
Proof.
  assert (HE : exists s', scheduler_next example_queued 1 false 9000 = Ret (s', 32))
    by (eexists; vm_compute; reflexivity).
  destruct HE as [s' E].
  assert (HT : exists th, threads example_queued !! 32 = Some th /\ weight (sched_of th) = 1024)
    by (eexists; vm_compute; split; reflexivity).
  destruct HT as (th & Ht & Hw).
  destruct (scheduler_slice_share example_queued 1 example_cpu 9000 32 th s' example_reachable) as (th' & Hth & HS);
    [vm_compute; discriminate|vm_compute; lia|vm_compute; reflexivity|reflexivity|reflexivity|unfold is_u64; lia|exact E|exact Ht|].
  exists s', 32, th'. split; [exact E|]. split; [exact Hth|]. rewrite HS, Hw. vm_compute. reflexivity.
Defined.

Definition example_process : process := MkProcess 4096 (replicate 32 0) 0 0 0 0 (Some 0%nat).

Lemma example_process_ok (s : runqueue rb_mem) : process_ok s example_process.
Proof.
  split; [discriminate|reflexivity|reflexivity|]. intros i t Hi H0. apply lookup_replicate in Hi as [-> _]. by destruct H0.
Qed.

Lemma thread_alloc_free_witness : exists s' p' t s'' p'',
  thread_alloc example_queued example_process 0 [16; 32; 48] 8192 1 = Ret (s', p', t) /\
  thread_free s' p' 0 t false false = Ret (s'', p'', Some 8192) /\ p_thread p'' = replicate 32 0.
Proof.
  assert (HE : exists s' p', thread_alloc example_queued example_process 0 [16; 32; 48] 8192 1 = Ret (s', p', 48))
    by (do 2 eexists; vm_compute; reflexivity).
  destruct HE as (s' & p' & E).
  destruct (thread_alloc_free example_queued example_process 0 [16; 32; 48] 8192 1 s' p' 48 example_reachable)
    as (_ & _ & _ & s'' & p'' & E2 & _ & E3 & _);
    [apply example_process_ok|apply table_check; vm_compute; reflexivity|reflexivity|vm_compute; discriminate|exact E|discriminate|].
  exists s', p', 48, s'', p''. split; [exact E|]. split; [exact E2|exact E3].
Defined.
