(* ===== verification/Vm.v ===== *)
(** * Page tables: the code

    arch/riscv/vm.c and arch/riscv/vm_layout.c over any allocator of
    reference-counted page frames.  A page that serves as a page table is a list
    of 512 entries in [tables]; a pointer to an entry is the address of its
    table and its index.  [flushes] counts the calls of [cpu_tlb_flush_all];
    [sfence_vma] has no effect here.  A page table that is freed leaves
    [tables].  Loops over pages run over the list of their addresses. *)
From S2P Require Import Prelude Vma.

(** ** Page frames *)

(** What the page tables need of kernel/palloc.c, with the contents of memory. *)
Class Frames (St : Type) := {
  fr_alloc : St -> bool -> outcome (Z * St);    (* [palloc_zero] when [true], [alloc_pages(0, 0)] when [false] *)
  fr_put : St -> Z -> outcome St;               (* [pfree] *)
  fr_get : St -> Z -> outcome (Z * St);         (* [palloc_get] *)
  fr_count : St -> Z -> outcome Z;              (* [palloc_refcount] *)
  fr_byte : St -> Z -> Z;
  fr_write : St -> Z -> list Z -> St }.

(** The [n] bytes at [a]. *)
Definition bytes_at {St} {FS : Frames St} (s : St) (a n : Z) : list Z := fr_byte s <$> seqZ a n.

(** ** Entries *)

Definition PGSHIFT : Z := 12.
Definition SV39_LEVEL_MAX : nat := 2.
Definition PTEXMASK : Z := 0x1FF.
Definition PTEXSHIFT (level : nat) : Z := PGSHIFT + 9 * Z.of_nat level.
Definition PTEX (level : nat) (va : Z) : nat := Z.to_nat (Z.land (Z.shiftr va (PTEXSHIFT level)) PTEXMASK).
Definition PA2PTE (pa : Z) : Z := wrap64 (Z.shiftl (Z.shiftr pa 12) 10).
Definition PTE2PA (pte : Z) : Z := wrap64 (Z.shiftl (Z.shiftr pte 10) 12).
Definition PTE_V : Z := Z.shiftl 1 0.
Definition PTE_R : Z := Z.shiftl 1 1.
Definition PTE_W : Z := Z.shiftl 1 2.
Definition PTE_X : Z := Z.shiftl 1 3.
Definition PTE_U : Z := Z.shiftl 1 4.
Definition PTE_A : Z := Z.shiftl 1 6.
Definition PTE_D : Z := Z.shiftl 1 7.
Definition PTE_SW_USER : Z := Z.shiftl 1 8.
Definition PTE_SW_COW : Z := Z.shiftl 1 9.
(** [PTE_R | PTE_W | PTE_X] *)
Definition PTE_RWX : Z := Z.lor (Z.lor PTE_R PTE_W) PTE_X.
Definition LINUX_MAP_SHARED : Z := 0x1.
Definition USER_SIGRETURN : Z := 0x40000000.

(** [x & bits] as a truth value, and [x &= ~bits]. *)
Definition has_bits (x bits : Z) : bool := truth (Z.land x bits).
Definition without (x bits : Z) : Z := Z.land x (Z.lnot bits).

Definition sv39_level_size (level : nat) : Z :=
  if (SV39_LEVEL_MAX <? level)%nat then 0 else Z.shiftl 1 (PTEXSHIFT level).

(** From [level] down. *)
Fixpoint best_map_level (level : nat) (virtual physical size : Z) : nat :=
  match level with
  | O => O
  | S l =>
      let leaf_size := sv39_level_size level in
      if (leaf_size <=? size) && negb (truth (virtual mod leaf_size)) && negb (truth (physical mod leaf_size))
      then level else best_map_level l virtual physical size
  end.
Definition sv39_best_map_level (virtual physical size : Z) : nat := best_map_level SV39_LEVEL_MAX virtual physical size.

(** The addresses [a], [a + PGSIZE], ... below [e]. *)
Definition page_range (a e : Z) : list Z :=
  (fun i => a + Z.of_nat i * PGSIZE) <$> seq 0 (Z.to_nat ((e - a + PGSIZE - 1) / PGSIZE)).

Section vm.
  Context {St : Type} {FS : Frames St}.

Record vm := MkVm { frames : St; tables : gmap Z (list Z); flushes : Z }.
Implicit Types (V : vm) (pgdir va pa : Z).

Definition with_frames V (s : St) : vm := MkVm s (tables V) (flushes V).
Definition cpu_tlb_flush_all V : vm := MkVm (frames V) (tables V) (flushes V + 1).

Definition pte_load V (p : Z * nat) : outcome Z := es ← deref (tables V !! p.1); rd es p.2.
Definition pte_store V (p : Z * nat) (v : Z) : outcome vm :=
  es ← deref (tables V !! p.1);
  es ← wr es p.2 v;
  Ret (MkVm (frames V) (<[p.1 := es]> (tables V)) (flushes V)).

Definition empty_table : list Z := replicate 512 0.

(** A zeroed page taken as a page table; 0 when there is none. *)
Definition table_alloc V : outcome (Z * vm) :=
  '(p, s) ← fr_alloc (frames V) true;
  Ret (p, if truth p then MkVm s (<[p := empty_table]> (tables V)) (flushes V) else with_frames V s).

Definition put_page V pa : outcome vm := s ← fr_put (frames V) pa; Ret (with_frames V s).

(** The loop of [vm_walk]; the result is the entry and its level, or null. *)
Fixpoint walk_loop (level target : nat) V pgdir va (allocate : bool) : outcome (vm * option (Z * nat * nat)) :=
  match level with
  | O => Ret (V, Some (pgdir, PTEX target va, target))
  | S l =>
      if (level <=? target)%nat then Ret (V, Some (pgdir, PTEX target va, target)) else
      let p := (pgdir, PTEX level va) in
      pte ← pte_load V p;
      if has_bits pte PTE_V then
        if has_bits pte PTE_RWX then Ret (V, Some (p, level))
        else walk_loop l target V (PTE2PA pte) va allocate
      else if negb allocate then Ret (V, None) else
        '(next, V) ← table_alloc V;
        if negb (truth next) then Ret (V, None) else
        V ← pte_store V p (Z.lor (PA2PTE next) PTE_V);
        walk_loop l target V next va allocate
  end.
Definition vm_walk V pgdir va (allocate : bool) (target : nat) : outcome (vm * option (Z * nat * nat)) :=
  if (MAXVA <=? va) || (SV39_LEVEL_MAX <? target)%nat then Ret (V, None)
  else walk_loop SV39_LEVEL_MAX target V pgdir va allocate.

(** [PTE]; without [flag] the tables stay as they are. *)
Definition PTE V pgdir va (flag : bool) : outcome (vm * option (Z * nat)) :=
  '(V, r) ← vm_walk V pgdir va flag 0;
  Ret (V, match r with Some (p, _) => Some p | None => None end).

Definition user_va2pa V pgdir va (permissions : Z) : outcome (vm * Z) :=
  if MAXVA <=? va then Ret (V, 0) else
  '(V, r) ← vm_walk V pgdir va false 0;
  match r with
  | None => Ret (V, 0)
  | Some (p, level) =>
      pte ← pte_load V p;
      if negb (has_bits pte PTE_V) then Ret (V, 0) else
      if negb (has_bits pte PTE_U) || negb (Z.land pte permissions =? permissions) then Ret (V, 0) else
      V ← if has_bits permissions PTE_W then pte_store V p (Z.lor pte (Z.lor PTE_A PTE_D)) else Ret V;
      pte ← pte_load V p;
      let leaf_size := sv39_level_size level in
      Ret (V, PTE2PA pte +64 Z.land (Z.land va (leaf_size - 1)) (Z.lnot (PGSIZE - 1)))
  end.
Definition va2pa V pgdir va : outcome (vm * Z) := user_va2pa V pgdir va 0.

Definition kvm_va2pa V (kernel_pgdir va : Z) : outcome Z :=
  if negb (truth kernel_pgdir) || (MAXVA <=? va) then Ret 0 else
  '(V, r) ← vm_walk V kernel_pgdir va false 0;
  match r with
  | None => Ret 0
  | Some (p, level) =>
      pte ← pte_load V p;
      if negb (has_bits pte PTE_V) || negb (has_bits pte PTE_RWX) then Ret 0
      else Ret (PTE2PA pte +64 Z.land va (sv39_level_size level - 1))
  end.

Definition vm_map_leaf V pgdir va pa (level : nat) (perm : Z) : outcome (Z * vm) :=
  let leaf_size := sv39_level_size level in
  if negb (truth leaf_size) || truth (va mod leaf_size) || truth (pa mod leaf_size) then Ret (-1, V) else
  '(V, r) ← vm_walk V pgdir va true level;
  match r with
  | None => Ret (-1, V)
  | Some (p, found_level) =>
      if negb (found_level =? level)%nat then Ret (-1, V) else
      pte ← pte_load V p;
      if has_bits pte PTE_V then Ret (-1, V) else
      V ← pte_store V p (Z.lor (Z.lor (PA2PTE pa) PTE_V) perm);
      Ret (0, V)
  end.

(** A round maps at least one page. *)
Fixpoint map_largest_loop (fuel : nat) V pgdir va pa (size perm : Z) : outcome (Z * vm) :=
  match fuel with
  | O => Fault
  | S fuel =>
      if negb (truth size) then Ret (0, V) else
      let level := sv39_best_map_level va pa size in
      let leaf_size := sv39_level_size level in
      '(rc, V) ← vm_map_leaf V pgdir va pa level perm;
      if rc <? 0 then Ret (-1, V) else
      map_largest_loop fuel V pgdir (va +64 leaf_size) (pa +64 leaf_size) (size -64 leaf_size) perm
  end.
Definition vm_map_largest V pgdir va pa (size perm : Z) : outcome (Z * vm) :=
  if negb (truth size) || (MAXVA <=? va) || (MAXVA - va <? size) || (pa +64 size <? pa) || truth (va mod PGSIZE) ||
     truth (pa mod PGSIZE) || truth (size mod PGSIZE)
  then Ret (-1, V)
  else map_largest_loop (S (Z.to_nat (size / PGSIZE))) V pgdir va pa size perm.

(** The loop ends at [end_], or at [MAXVA] if the range wrapped around. *)
Fixpoint map_loop (fuel : nat) V pgdir (start end_ pa perm : Z) : outcome (Z * vm) :=
  match fuel with
  | O => Fault
  | S fuel =>
      '(V, r) ← PTE V pgdir start true;
      match r with
      | None => Ret (-1, V)
      | Some p =>
          pte ← pte_load V p;
          if has_bits pte PTE_V then Panic "vm_map remap" else
          V ← pte_store V p (Z.lor (Z.lor (PA2PTE pa) PTE_V) perm);
          if start =? end_ then Ret (0, V)
          else map_loop fuel V pgdir (start +64 PGSIZE) end_ (pa +64 PGSIZE) perm
      end
  end.
Definition map_rounds (start end_ : Z) : nat :=
  S (Z.to_nat ((if start <=? end_ then end_ - start else MAXVA - start) / PGSIZE)).
Definition vm_map V pgdir va pa (size perm : Z) : outcome (Z * vm) :=
  if negb (truth size) then Panic "vm_map size" else
  let start := PGROUNDDOWN va in
  let end_ := PGROUNDDOWN (va +64 size -64 1) in
  map_loop (map_rounds start end_) V pgdir start end_ pa perm.

Definition pagedir_alloc V : outcome (Z * vm) := table_alloc V.

(** The recursion goes one level down at a time; [depth] is the number of levels. *)
Fixpoint pagedir_free_from (depth : nat) V pgdir : outcome vm :=
  match depth with
  | O => Fault
  | S depth =>
      V ← for_each (fun V i =>
            pte ← pte_load V (pgdir, i);
            if has_bits pte PTE_V && (Z.land pte PTE_RWX =? 0) then
              V ← pagedir_free_from depth V (PTE2PA pte);
              pte_store V (pgdir, i) 0
            else if has_bits pte PTE_V then Panic "pagedir_free"
            else Ret V) (seq 0 512) V;
      put_page (MkVm (frames V) (delete pgdir (tables V)) (flushes V)) pgdir
  end.
Definition pagedir_free V pgdir : outcome vm := pagedir_free_from 3 V pgdir.

(** ** Unmapping *)

Fixpoint unmap_pages (addrs : list Z) V pgdir (do_free : bool) : outcome vm :=
  match addrs with
  | [] => Ret V
  | addr :: addrs =>
      '(V, r) ← PTE V pgdir addr false;
      match r with
      | None => Panic "vm_unmap PTE"
      | Some p =>
          pte ← pte_load V p;
          if negb (has_bits pte PTE_V) then Panic "vm_unmap not mapped" else
          if Z.land pte 0x3ff =? PTE_V then Panic "vm_unmap not a leaf" else
          V ← if do_free then put_page V (PTE2PA pte) else Ret V;
          V ← pte_store V p 0;
          unmap_pages addrs V pgdir do_free
      end
  end.
Definition vm_unmap V pgdir va (npages : Z) (do_free : bool) : outcome vm :=
  if truth (va mod PGSIZE) then Panic "uvmunmap: not aligned" else
  unmap_pages (page_range va (va +64 (npages *64 PGSIZE))) V pgdir do_free.

Definition vm_mapped V pgdir va : outcome bool :=
  '(V, r) ← PTE V pgdir va false;
  match r with
  | None => Ret false
  | Some p => pte ← pte_load V p; Ret (has_bits pte PTE_V && has_bits pte PTE_RWX)
  end.

Fixpoint unmap_range_loop (addrs : list Z) V pgdir : outcome vm :=
  match addrs with
  | [] => Ret V
  | addr :: addrs =>
      '(V, r) ← PTE V pgdir addr false;
      match r with
      | None => unmap_range_loop addrs V pgdir
      | Some p =>
          pte ← pte_load V p;
          if negb (has_bits pte PTE_V) || negb (has_bits pte PTE_RWX) then unmap_range_loop addrs V pgdir else
          V ← pte_store V p 0;
          V ← put_page V (PTE2PA pte);
          unmap_range_loop addrs V pgdir
      end
  end.
Definition vm_unmap_range V pgdir va (size : Z) : outcome vm :=
  if negb (truth size) then Ret V else
  V ← unmap_range_loop (page_range (PGROUNDDOWN va) (PGROUNDUP (va +64 size))) V pgdir;
  Ret (cpu_tlb_flush_all V).

Definition vm_dealloc V pgdir (oldsz newsz : Z) : outcome (Z * vm) :=
  if oldsz <=? newsz then Ret (oldsz, V) else
  V ← if PGROUNDUP newsz <? PGROUNDUP oldsz
      then vm_unmap_range V pgdir (PGROUNDUP newsz) (PGROUNDUP oldsz - PGROUNDUP newsz) else Ret V;
  Ret (newsz, V).

(** ** Mapping fresh pages *)

(** Whether one of the pages is mapped. *)
Fixpoint any_mapped (addrs : list Z) V pgdir : outcome bool :=
  match addrs with
  | [] => Ret false
  | addr :: addrs => b ← vm_mapped V pgdir addr; if b : bool then Ret true else any_mapped addrs V pgdir
  end.

(** The result is the address where memory ran out, if it did. *)
Fixpoint alloc_user_loop (addrs : list Z) V pgdir (permissions : Z) : outcome (option Z * vm) :=
  match addrs with
  | [] => Ret (None, V)
  | addr :: addrs =>
      '(page, s) ← fr_alloc (frames V) true;
      let V := with_frames V s in
      if negb (truth page) then Ret (Some addr, V) else
      '(rc, V) ← vm_map V pgdir addr page PGSIZE (Z.lor permissions PTE_SW_USER);
      if rc <? 0 then V ← put_page V page; Ret (Some addr, V)
      else alloc_user_loop addrs V pgdir permissions
  end.

(** Permissions allow some access, and no writing without reading. *)
Definition bad_permissions (permissions : Z) : bool :=
  negb (has_bits permissions PTE_RWX) || (has_bits permissions PTE_W && negb (has_bits permissions PTE_R)).

Definition vm_alloc_user_range V pgdir (start end_ permissions : Z) : outcome (Z * vm) :=
  if (end_ <? start) || truth (start mod PGSIZE) || truth (end_ mod PGSIZE) || (MAXVA <? end_) then Ret (-1, V) else
  if bad_permissions permissions then Ret (-1, V) else
  busy ← any_mapped (page_range start end_) V pgdir;
  if busy : bool then Ret (-1, V) else
  '(failed, V) ← alloc_user_loop (page_range start end_) V pgdir permissions;
  match failed with
  | None => Ret (0, V)
  | Some addr => V ← vm_unmap_range V pgdir start (addr - start); Ret (-1, V)
  end.

Definition vm_alloc_range V pgdir (start end_ eperm : Z) : outcome (Z * vm) :=
  vm_alloc_user_range V pgdir start end_ (Z.lor (Z.lor PTE_R PTE_U) eperm).
Definition vm_alloc V pgdir (oldsz newsz eperm : Z) : outcome (Z * vm) :=
  if newsz <=? oldsz then Ret (oldsz, V) else
  '(rc, V) ← vm_alloc_range V pgdir (PGROUNDUP oldsz) (PGROUNDUP newsz) eperm;
  Ret (if rc <? 0 then 0 else newsz, V).

Definition vm_alloc_load_range V pgdir (start end_ permissions : Z) : outcome (Z * vm) :=
  if (end_ <? start) || truth (start mod PGSIZE) || truth (end_ mod PGSIZE) || (MAXVA <? end_) ||
     bad_permissions permissions
  then Ret (-1, V) else
  shared ← if start <? end_ then vm_mapped V pgdir start else Ret false;
  if shared : bool then
    '(V, r) ← PTE V pgdir start false;
    match r with
    | None => Ret (-1, V)
    | Some p =>
        pte ← pte_load V p;
        if negb (has_bits pte PTE_SW_USER) then Ret (-1, V) else
        V ← if has_bits permissions PTE_U then
              let pte := if negb (has_bits pte PTE_U) then without pte PTE_RWX else pte in
              pte_store V p (Z.lor pte permissions)
            else Ret V;
        vm_alloc_user_range V pgdir (start +64 PGSIZE) end_ permissions
    end
  else vm_alloc_user_range V pgdir start end_ permissions.

Definition vm_user_pa V pgdir va : outcome Z :=
  if MAXVA <=? va then Ret 0 else
  '(V, r) ← PTE V pgdir va false;
  match r with
  | None => Ret 0
  | Some p =>
      pte ← pte_load V p;
      if negb (has_bits pte PTE_V) || negb (has_bits pte PTE_SW_USER) || negb (has_bits pte PTE_RWX) then Ret 0
      else Ret (PTE2PA pte +64 Z.land va (PGSIZE - 1))
  end.

(** ** Protection and copy on write *)

(** The first loop of [vm_protect_user_range]: every mapped page belongs to the user. *)
Fixpoint protect_check (addrs : list Z) V pgdir : outcome bool :=
  match addrs with
  | [] => Ret true
  | addr :: addrs =>
      '(V, r) ← PTE V pgdir addr false;
      match r with
      | None => protect_check addrs V pgdir
      | Some p =>
          pte ← pte_load V p;
          if negb (has_bits pte PTE_V) then protect_check addrs V pgdir else
          if negb (has_bits pte PTE_SW_USER) || negb (has_bits pte PTE_RWX) then Ret false
          else protect_check addrs V pgdir
      end
  end.

(** [software] and [page_permissions] for one page; [references] is the count of its frame. *)
Definition protect_bits (area : vm_area) (pte permissions references : Z) : Z * Z :=
  if has_bits permissions PTE_W then
    if (Z.land (flags area) 0xf =? LINUX_MAP_PRIVATE) && (1 <? references) then (PTE_SW_COW, without permissions PTE_W)
    else if is_file area && (Z.land (flags area) 0xf =? LINUX_MAP_SHARED) && negb (has_bits pte PTE_W)
    then (0, without permissions PTE_W)
    else (0, permissions)
  else if negb (Z.land (flags area) 0xf =? LINUX_MAP_PRIVATE) then (0, permissions)
  else (Z.land pte PTE_SW_COW, permissions).

Fixpoint protect_pages (addrs : list Z) V pgdir (permissions : Z) (vmas : list vm_area) : outcome (Z * vm) :=
  match addrs with
  | [] => Ret (0, cpu_tlb_flush_all V)
  | addr :: addrs =>
      '(V, r) ← PTE V pgdir addr false;
      match r with
      | None => protect_pages addrs V pgdir permissions vmas
      | Some p =>
          pte ← pte_load V p;
          if negb (has_bits pte PTE_V) then protect_pages addrs V pgdir permissions vmas else
          match vma_find vmas addr ≫= (fun i => vmas !! i) with
          | None => Ret (-1, V)
          | Some area =>
              references ← fr_count (frames V) (PTE2PA pte);
              let (software, page_permissions) := protect_bits area pte permissions references in
              V ← pte_store V p (Z.lor (Z.lor (Z.lor (Z.lor (Z.lor (PA2PTE (PTE2PA pte)) PTE_V) PTE_SW_USER) software)
                    (Z.land pte (Z.lor PTE_A PTE_D))) page_permissions);
              protect_pages addrs V pgdir permissions vmas
          end
      end
  end.
Definition vm_protect_user_range V pgdir (start end_ permissions : Z) (vmas : list vm_area) : outcome (Z * vm) :=
  if (end_ <=? start) || truth (start mod PGSIZE) || truth (end_ mod PGSIZE) || (MAXVA <? end_) ||
     bad_permissions permissions
  then Ret (-1, V) else
  ok ← protect_check (page_range start end_) V pgdir;
  if negb ok then Ret (-1, V) else protect_pages (page_range start end_) V pgdir permissions vmas.

Definition vm_resolve_cow V pgdir va : outcome (Z * vm) :=
  '(V, r) ← PTE V pgdir (PGROUNDDOWN va) false;
  match r with
  | None => Ret (0, V)
  | Some p =>
      pte ← pte_load V p;
      if negb (has_bits pte PTE_V) || negb (has_bits pte PTE_SW_USER) then Ret (0, V) else
      if negb (has_bits pte PTE_SW_COW) then Ret (if has_bits pte PTE_W then 1 else 0, V) else
      let old_pa := PTE2PA pte in
      references ← fr_count (frames V) old_pa;
      if negb (truth references) then Ret (-1, V) else
      if references =? 1 then
        V ← pte_store V p (without (Z.lor pte PTE_W) PTE_SW_COW);
        Ret (1, cpu_tlb_flush_all V)
      else
        '(page, s) ← fr_alloc (frames V) false;
        let V := with_frames V s in
        if negb (truth page) then Ret (-1, V) else
        let V := with_frames V (fr_write (frames V) page (bytes_at (frames V) old_pa PGSIZE)) in
        V ← pte_store V p (without (Z.lor (Z.lor (PA2PTE page) (Z.land pte 0x3ff)) PTE_W) PTE_SW_COW);
        V ← put_page V old_pa;
        Ret (1, cpu_tlb_flush_all V)
  end.

Definition vm_clear V pgdir va : outcome vm :=
  '(V, r) ← PTE V pgdir va false;
  match r with
  | None => Panic "vm_clear"
  | Some p => pte ← pte_load V p; pte_store V p (without pte PTE_U)
  end.

(** ** Whole address spaces *)

(** The user part of a walk over the entries of a table, from the index list [idx] on.  The result is whether it
    succeeded and whether an entry of the parent changed; [walk] copies a table one level down. *)
Fixpoint copy_entries (walk : vm -> Z -> Z -> bool -> outcome (Z * vm * bool)) (level : nat)
  (idx : list nat) V (old new base : Z) (vmas : list vm_area) (changed : bool) : outcome (Z * vm * bool) :=
  match idx with
  | [] => Ret (0, V, changed)
  | i :: idx =>
      pte ← pte_load V (old, i);
      if negb (has_bits pte PTE_V) then copy_entries walk level idx V old new base vmas changed else
      let va := Z.lor base (Z.shiftl (Z.of_nat i) (PGSHIFT + 9 * Z.of_nat level)) in
      if va =? USER_SIGRETURN then copy_entries walk level idx V old new base vmas changed else
      if negb (has_bits pte PTE_RWX) then
        '(rc, V, changed) ← walk V (PTE2PA pte) va changed;
        if rc <? 0 then Ret (-1, V, changed)
        else copy_entries walk level idx V old new base vmas changed
      else if negb (has_bits pte (Z.lor PTE_U PTE_SW_USER)) then
        copy_entries walk level idx V old new base vmas changed
      else
        match vma_find vmas va ≫= (fun i => vmas !! i) with
        | None => Ret (-1, V, changed)
        | Some area =>
            let pa := PTE2PA pte in
            '(rc, s) ← fr_get (frames V) pa;
            let V := with_frames V s in
            if rc <? 0 then Ret (-1, V, changed) else
            let share := (Z.land (flags area) 0xf =? LINUX_MAP_PRIVATE) && has_bits pte PTE_W in
            let child_pte := if share then Z.lor (without pte PTE_W) PTE_SW_COW else pte in
            V ← if share then pte_store V (old, i) child_pte else Ret V;
            let changed := changed || share in
            '(rc, V) ← vm_map V new va pa PGSIZE (Z.land child_pte 0x3ff);
            if rc <? 0 then V ← put_page V pa; Ret (-1, V, changed)
            else copy_entries walk level idx V old new base vmas changed
        end
  end.

Fixpoint vm_copy_walk (level : nat) (new : Z) (vmas : list vm_area) V (old base : Z) (changed : bool)
  : outcome (Z * vm * bool) :=
  copy_entries
    (match level with
     | O => fun V _ _ changed => Ret (-1, V, changed)
     | S l => vm_copy_walk l new vmas
     end) level (seq 0 512) V old new base vmas changed.

Fixpoint vm_free_user_walk (level : nat) V pgdir : outcome vm :=
  for_each (fun V i =>
    pte ← pte_load V (pgdir, i);
    if negb (has_bits pte PTE_V) then Ret V else
    if negb (has_bits pte PTE_RWX) then
      match level with O => Ret V | S l => vm_free_user_walk l V (PTE2PA pte) end
    else if has_bits pte (Z.lor PTE_U PTE_SW_USER) then
      V ← put_page V (PTE2PA pte); pte_store V (pgdir, i) 0
    else Ret V) (seq 0 512) V.
Definition vm_free_user V pgdir : outcome vm := vm_free_user_walk 2 V pgdir.

Definition vm_copy V (old new : Z) (vmas : list vm_area) : outcome (Z * vm) :=
  '(rc, V, parent_changed) ← vm_copy_walk 2 new vmas V old 0 false;
  if rc <? 0 then
    V ← vm_free_user V new;
    Ret (-1, if parent_changed : bool then cpu_tlb_flush_all V else V)
  else Ret (0, if parent_changed : bool then cpu_tlb_flush_all V else V).

Fixpoint vm_user_resident_walk (level : nat) V pgdir : outcome Z :=
  for_each (fun count i =>
    pte ← pte_load V (pgdir, i);
    if negb (has_bits pte PTE_V) then Ret count else
    if negb (has_bits pte PTE_RWX) then
      match level with
      | O => Ret count
      | S l => n ← vm_user_resident_walk l V (PTE2PA pte); Ret (count +64 n)
      end
    else if has_bits pte PTE_U then Ret (count +64 sv39_level_size level / PGSIZE)
    else Ret count) (seq 0 512) 0.
Definition vm_user_resident_pages V pgdir : outcome Z :=
  if truth pgdir then vm_user_resident_walk SV39_LEVEL_MAX V pgdir else Ret 0.

(** ** Copies between the kernel and user space *)

Section copies.
  (** [mmap_handle_fault] for the current process, if its page table is this one: whether the fault was resolved. *)
  Context (handle_fault : vm -> Z -> Z -> bool -> outcome (vm * bool)).

(** [tries] bounds the rounds of the loop. *)
Fixpoint user_copy_va2pa_pinned (tries : nat) V pgdir va (permissions : Z) (fault : bool) : outcome (vm * Z * Z) :=
  match tries with
  | O => Fault
  | S tries =>
      '(V, physical) ← user_va2pa V pgdir va permissions;
      if negb (truth physical) then
        if negb fault then Ret (V, 0, 0) else
        '(V, resolved) ← handle_fault V pgdir va (has_bits permissions PTE_W);
        if negb resolved then Ret (V, 0, 0) else user_copy_va2pa_pinned tries V pgdir va permissions fault
      else
        let page := PGROUNDDOWN physical in
        '(rc, s) ← fr_get (frames V) page;
        let V := with_frames V s in
        if rc <? 0 then user_copy_va2pa_pinned tries V pgdir va permissions fault else
        '(V, validated) ← user_va2pa V pgdir va permissions;
        if validated =? physical then Ret (V, physical, page) else
        V ← put_page V page;
        user_copy_va2pa_pinned tries V pgdir va permissions fault
  end.

(** Every round copies at least one byte. *)
Fixpoint copyout_loop (fuel tries : nat) V pgdir (dstva : Z) (src : list Z) (fault : bool) : outcome (Z * vm) :=
  match fuel with
  | O => Fault
  | S fuel =>
      match src with
      | [] => Ret (0, V)
      | _ =>
          let va0 := PGROUNDDOWN dstva in
          '(V, pa0, pinned) ← user_copy_va2pa_pinned tries V pgdir va0 PTE_W fault;
          if negb (truth pa0) then Ret (-1, V) else
          let n := Z.min (PGSIZE - (dstva - va0)) (Z.of_nat (length src)) in
          let V := with_frames V (fr_write (frames V) (pa0 +64 (dstva - va0)) (take (Z.to_nat n) src)) in
          V ← put_page V pinned;
          copyout_loop fuel tries V pgdir (va0 +64 PGSIZE) (drop (Z.to_nat n) src) fault
      end
  end.
Definition copyout_internal (tries : nat) V pgdir (dstva : Z) (src : list Z) (fault : bool) : outcome (Z * vm) :=
  copyout_loop (S (length src)) tries V pgdir dstva src fault.
Definition copyout (tries : nat) V pgdir (dstva : Z) (src : list Z) : outcome (Z * vm) :=
  copyout_internal tries V pgdir dstva src true.
Definition copyout_nofault (tries : nat) V pgdir (dstva : Z) (src : list Z) : outcome (Z * vm) :=
  copyout_internal tries V pgdir dstva src false.

Fixpoint prefault_pages (addrs : list Z) (tries : nat) V pgdir : outcome (Z * vm) :=
  match addrs with
  | [] => Ret (0, V)
  | page :: addrs =>
      '(V, pa, pinned) ← user_copy_va2pa_pinned tries V pgdir page PTE_W true;
      if negb (truth pa) then Ret (-1, V) else
      V ← put_page V pinned;
      prefault_pages addrs tries V pgdir
  end.
Definition vm_prefault_user_write (tries : nat) V pgdir (address length : Z) : outcome (Z * vm) :=
  if negb (truth length) then Ret (0, V) else
  if (MAXVA <=? address) || (MAXVA - address <? length) then Ret (-1, V) else
  prefault_pages (page_range (PGROUNDDOWN address) (address + length)) tries V pgdir.

(** The result is the return value and the bytes copied so far. *)
Fixpoint copyin_loop (fuel tries : nat) V pgdir (srcva len : Z) (dst : list Z) : outcome (Z * vm * list Z) :=
  match fuel with
  | O => Fault
  | S fuel =>
      if negb (0 <? len) then Ret (0, V, dst) else
      let va0 := PGROUNDDOWN srcva in
      '(V, pa0, pinned) ← user_copy_va2pa_pinned tries V pgdir va0 PTE_R true;
      if negb (truth pa0) then Ret (-1, V, dst) else
      let n := Z.min (PGSIZE - (srcva - va0)) len in
      let dst := dst ++ bytes_at (frames V) (pa0 +64 (srcva - va0)) n in
      V ← put_page V pinned;
      copyin_loop fuel tries V pgdir (va0 +64 PGSIZE) (len - n) dst
  end.
Definition copyin (tries : nat) V pgdir (srcva len : Z) : outcome (Z * vm * list Z) :=
  copyin_loop (S (Z.to_nat len)) tries V pgdir srcva len [].

(** The bytes before the first zero, and whether there is one. *)
Fixpoint until_zero (l : list Z) : list Z * bool :=
  match l with
  | [] => ([], false)
  | b :: l => if b =? 0 then ([], true) else let (r, z) := until_zero l in (b :: r, z)
  end.

(** A string that ends has its zero byte in the result. *)
Fixpoint copyinstr_loop (fuel tries : nat) V pgdir (srcva max : Z) (dst : list Z) : outcome (Z * vm * list Z) :=
  match fuel with
  | O => Fault
  | S fuel =>
      if negb (0 <? max) then Ret (-1, V, dst) else
      let va0 := PGROUNDDOWN srcva in
      '(V, pa0, pinned) ← user_copy_va2pa_pinned tries V pgdir va0 PTE_R true;
      if negb (truth pa0) then Ret (-1, V, dst) else
      let n := Z.min (PGSIZE - (srcva - va0)) max in
      let (part, got_null) := until_zero (bytes_at (frames V) (pa0 +64 (srcva - va0)) n) in
      V ← put_page V pinned;
      if got_null then Ret (0, V, dst ++ part ++ [0])
      else copyinstr_loop fuel tries V pgdir (va0 +64 PGSIZE) (max - n) (dst ++ part)
  end.
Definition copyinstr (tries : nat) V pgdir (srcva max : Z) : outcome (Z * vm * list Z) :=
  copyinstr_loop (S (Z.to_nat max)) tries V pgdir srcva max [].
End copies.

(** ** The kernel's address space *)

(** [ranges] are the managed ranges of the page allocator. *)
Fixpoint kvm_mapping_selftest V (kernel_pgdir : Z) (ranges : list (Z * Z)) : outcome Z :=
  match ranges with
  | [] => Ret 0
  | (start, end_) :: ranges =>
      a ← kvm_va2pa V kernel_pgdir start;
      b ← kvm_va2pa V kernel_pgdir (end_ - PGSIZE);
      if negb (a =? start) || negb (b =? end_ - PGSIZE) then Ret (-1) else
      let candidate := Z.land (start +64 sv39_level_size 2 -64 1) (Z.lnot (sv39_level_size 2 - 1)) in
      if (start <=? candidate) && (candidate <=? end_) && (sv39_level_size 2 <=? end_ - candidate) then
        '(_, r) ← vm_walk V kernel_pgdir candidate false 0;
        match r with
        | Some (_, level) => if (level =? 2)%nat then kvm_mapping_selftest V kernel_pgdir ranges else Ret (-1)
        | None => Ret (-1)
        end
      else kvm_mapping_selftest V kernel_pgdir ranges
  end.

Fixpoint map_mmio_loop (pages : list Z) V (kernel_pgdir : Z) : outcome (Z * vm) :=
  match pages with
  | [] => Ret (0, V)
  | page :: pages =>
      b ← vm_mapped V kernel_pgdir page;
      if b : bool then map_mmio_loop pages V kernel_pgdir else
      '(rc, V) ← vm_map V kernel_pgdir page page PGSIZE (Z.lor PTE_R PTE_W);
      if rc <? 0 then Ret (-1, V) else map_mmio_loop pages V kernel_pgdir
  end.
Definition kvm_map_mmio V (kernel_pgdir address size : Z) : outcome (Z * vm) :=
  if negb (truth size) || (MAXVA <=? address) || (MAXVA - address <? size) then Ret (-1, V) else
  map_mmio_loop (page_range (PGROUNDDOWN address) (PGROUNDUP (address + size))) V kernel_pgdir.
End vm.
Arguments vm : clear implicits.
#[global] Arguments empty_table : simpl never.
