(* ===== verification/VmSpace.v ===== *)
(** * Page table entries and indices

    The arithmetic of Sv39 entries and indices: an entry is a frame number and
    ten flag bits, and an address below [MAXVA] is determined by its three
    indices and its offset. *)
From S2P Require Import Prelude Vma Vm.

(** Bounds of closed flag expressions. *)
Ltac flag_bound := split; [apply Z.leb_le; vm_compute; reflexivity|apply Z.ltb_lt; vm_compute; reflexivity].

Lemma lor_pow2 n a f : 0 <= n -> 0 <= f < 2 ^ n -> Z.lor (a * 2 ^ n) f = a * 2 ^ n + f.
Proof.
  intros Hn Hf. destruct (Z.eq_dec f 0) as [->|]; [by rewrite Z.lor_0_r, Z.add_0_r|]. assert (Hd : Z.land (a * 2 ^ n) f = 0).
  { apply Z.bits_inj'. intros k Hk. rewrite Z.land_spec, Z.bits_0, <-Z.shiftl_mul_pow2 by done.
    rewrite Z.shiftl_spec by lia. destruct (Z.ltb_spec k n) as [|Hk'].
    - by rewrite Z.testbit_neg_r by lia.
    - rewrite (Z.bits_above_log2 f k), andb_false_r; [done|lia|].
      apply Z.log2_lt_pow2; [lia|]. apply Z.lt_le_trans with (2 ^ n); [lia|]. apply Z.pow_le_mono_r; lia. }
  pose proof (Z.add_lor_land (a * 2 ^ n) f). lia.
Qed.

Lemma lor_low a f : 0 <= f < 1024 -> Z.lor (a * 1024) f = a * 1024 + f.
Proof. change 1024 with (2 ^ 10). by apply lor_pow2. Qed.

Lemma PA2PTE_eq pa : is_u64 pa -> PA2PTE pa = pa / 4096 * 1024.
Proof.
  intros [H0 H1]. unfold PA2PTE. rewrite Z.shiftr_div_pow2, Z.shiftl_mul_pow2 by lia.
  change (2 ^ 12) with 4096. change (2 ^ 10) with 1024. apply wrap64_id. unfold is_u64.
  assert (pa / 4096 < 2 ^ 52) by (apply Z.div_lt_upper_bound; lia). pose proof (Z.div_pos pa 4096 H0 ltac:(lia)). lia.
Qed.

Lemma PTE2PA_eq w : PTE2PA w = wrap64 (w / 1024 * 4096).
Proof. unfold PTE2PA. by rewrite Z.shiftr_div_pow2, Z.shiftl_mul_pow2 by lia. Qed.

(** An entry made of an aligned address and flags. *)
Definition entry_of (pa f : Z) : Z := pa / 4096 * 1024 + f.

Lemma PTE2PA_entry pa f : is_u64 pa -> pa mod PGSIZE = 0 -> 0 <= f < 1024 -> PTE2PA (entry_of pa f) = pa.
Proof.
  unfold PGSIZE. intros Hp Ha Hf. rewrite PTE2PA_eq. unfold entry_of.
  rewrite (Z.add_comm _ f), Z.div_add, (Z.div_small f) by lia. rewrite Z.add_0_l.
  replace (pa / 4096 * 4096) with pa; [by apply wrap64_id|]. pose proof (Z.div_mod pa 4096 ltac:(lia)). lia.
Qed.

Lemma entry_flags pa f : 0 <= f < 1024 -> entry_of pa f mod 1024 = f.
Proof. intros Hf. unfold entry_of. by rewrite Z.add_comm, Z.mod_add, Z.mod_small by lia. Qed.

Lemma entry_range pa f : is_u64 pa -> 0 <= f < 1024 -> is_u64 (entry_of pa f).
Proof.
  unfold entry_of, is_u64. intros [H0 H1] Hf. assert (pa / 4096 < 2 ^ 52) by (apply Z.div_lt_upper_bound; lia).
  pose proof (Z.div_pos pa 4096 H0 ltac:(lia)). lia.
Qed.

(** Tests of flags look at the low ten bits. *)
Lemma land_mod a b : 0 <= b < 1024 -> Z.land a b = Z.land (a mod 1024) b.
Proof.
  intros Hb. change 1024 with (2 ^ 10). rewrite <-Z.land_ones by lia. rewrite <-Z.land_assoc. f_equal.
  rewrite Z.land_comm, Z.land_ones by lia. symmetry. apply Z.mod_small. lia.
Qed.

Lemma has_bits_mod a b : 0 <= b < 1024 -> has_bits a b = has_bits (a mod 1024) b.
Proof. intros Hb. unfold has_bits. by rewrite land_mod. Qed.

Lemma has_bits_entry pa f b : 0 <= f < 1024 -> 0 <= b < 1024 -> has_bits (entry_of pa f) b = has_bits f b.
Proof. intros Hf Hb. by rewrite has_bits_mod, entry_flags. Qed.

(** ** Bits as a decidable fact *)

Lemma flags_bound f g : 0 <= f < 1024 -> 0 <= g < 1024 -> 0 <= Z.lor f g < 1024.
Proof.
  intros Hf Hg. split; [apply Z.lor_nonneg; lia|].
  destruct (Z.eq_dec (Z.lor f g) 0) as [->|Hn]; [lia|].
  assert (HL : 0 <= Z.lor f g) by (apply Z.lor_nonneg; lia). change 1024 with (2 ^ 10).
  apply Z.log2_lt_pow2; [lia|]. rewrite Z.log2_lor by lia. apply Z.max_lub_lt.
  - destruct (Z.eq_dec f 0) as [->|]; [cbn; lia|]. apply Z.log2_lt_pow2; lia.
  - destruct (Z.eq_dec g 0) as [->|]; [cbn; lia|]. apply Z.log2_lt_pow2; lia.
Qed.

Lemma entry_lor pa f g : 0 <= f < 1024 -> 0 <= g < 1024 -> Z.lor (entry_of pa f) g = entry_of pa (Z.lor f g).
Proof.
  intros Hf Hg. unfold entry_of. rewrite <-(lor_low _ f), <-Z.lor_assoc by done. apply lor_low. by apply flags_bound.
Qed.

(** The entries the code builds. *)
Lemma new_entry pa perm : is_u64 pa -> 0 <= perm < 1024 ->
  Z.lor (Z.lor (PA2PTE pa) PTE_V) perm = entry_of pa (Z.lor PTE_V perm).
Proof.
  intros Hp Hf. rewrite PA2PTE_eq by done. rewrite lor_low by flag_bound. fold (entry_of pa PTE_V).
  apply entry_lor; [flag_bound|done].
Qed.

Lemma table_entry pa : is_u64 pa -> Z.lor (PA2PTE pa) PTE_V = entry_of pa PTE_V.
Proof. intros Hp. rewrite PA2PTE_eq by done. apply lor_low. flag_bound. Qed.

Lemma entry_split w : is_u64 w -> w = entry_of (w / 1024 * 4096) (w mod 1024).
Proof.
  intros Hw. unfold entry_of. rewrite Z.div_mul by lia. pose proof (Z.div_mod w 1024 ltac:(lia)). lia.
Qed.

Lemma has_bits_lor f g b : has_bits (Z.lor f g) b = has_bits f b || has_bits g b.
Proof.
  unfold has_bits, truth. rewrite Z.land_lor_distr_l.
  destruct (Z.eqb_spec (Z.lor (Z.land f b) (Z.land g b)) 0) as [E|E].
  - apply Z.lor_eq_0_iff in E as [-> ->]. done.
  - destruct (Z.eqb_spec (Z.land f b) 0) as [E1|]; [|done]. destruct (Z.eqb_spec (Z.land g b) 0) as [E2|]; [|done].
    destruct E. by rewrite E1, E2.
Qed.

(** ** Indices *)

Lemma PTEX_eq level va : 0 <= va -> PTEX level va = Z.to_nat (va / 2 ^ (12 + 9 * Z.of_nat level) mod 512).
Proof.
  intros Hv. unfold PTEX, PTEXSHIFT, PGSHIFT, PTEXMASK. rewrite Z.shiftr_div_pow2 by lia. f_equal.
  change 0x1FF with (Z.ones 9). rewrite Z.land_ones by lia. done.
Qed.

Lemma PTEX_lt level va : 0 <= va -> (PTEX level va < 512)%nat.
Proof.
  intros Hv. rewrite PTEX_eq by done. pose proof (Z.mod_pos_bound (va / 2 ^ (12 + 9 * Z.of_nat level)) 512). lia.
Qed.

(** An address below [MAXVA] is its indices and its offset. *)
Lemma va_of_indices va : 0 <= va < MAXVA ->
  va = (Z.of_nat (PTEX 2 va) * 2 ^ 18 + Z.of_nat (PTEX 1 va) * 2 ^ 9 + Z.of_nat (PTEX 0 va)) * 4096 + va mod 4096.
Proof.
  intros [H0 H1]. change MAXVA with (2 ^ 38) in H1. rewrite !PTEX_eq, !Z2Nat.id by (try apply Z.mod_pos_bound; lia).
  change (2 ^ (12 + 9 * Z.of_nat 2)) with (2 ^ 30). change (2 ^ (12 + 9 * Z.of_nat 1)) with (2 ^ 21).
  change (2 ^ (12 + 9 * Z.of_nat 0)) with (2 ^ 12). Z.div_mod_to_equations. lia.
Qed.

Lemma same_page va vb : 0 <= va < MAXVA -> 0 <= vb < MAXVA -> va mod PGSIZE = 0 -> vb mod PGSIZE = 0 ->
  PTEX 2 va = PTEX 2 vb -> PTEX 1 va = PTEX 1 vb -> PTEX 0 va = PTEX 0 vb -> va = vb.
Proof.
  unfold PGSIZE. intros Ha Hb Ma Mb E2 E1 E0. rewrite (va_of_indices va Ha), (va_of_indices vb Hb), E2, E1, E0, Ma, Mb. done.
Qed.

(** ** Paths and addresses *)

(** The first address below the table at a path. *)
Definition path_base (p : list nat) : Z :=
  match p with [] => 0 | [i] => Z.of_nat i * 2 ^ 30 | i :: j :: _ => Z.of_nat i * 2 ^ 30 + Z.of_nat j * 2 ^ 21 end.

(** The bytes an entry of a level covers. *)
Definition level_span (level : nat) : Z := 2 ^ (12 + 9 * Z.of_nat level).

(** The address [vm_copy_walk] computes for an entry. *)
Lemma entry_va p i level : (length p + level = 2)%nat -> (i < 512)%nat ->
  Z.lor (path_base p) (Z.shiftl (Z.of_nat i) (PGSHIFT + 9 * Z.of_nat level)) = path_base p + Z.of_nat i * level_span level.
Proof.
  intros Hl Hi. rewrite Z.shiftl_mul_pow2 by (unfold PGSHIFT; lia). unfold level_span, PGSHIFT.
  destruct p as [|x [|y [|? ?]]]; cbn [length] in Hl; cbn [path_base].
  - by rewrite Z.lor_0_l.
  - replace level with 1%nat by lia. apply (lor_pow2 30); lia.
  - replace level with 0%nat by lia.
    replace (Z.of_nat x * 2 ^ 30 + Z.of_nat y * 2 ^ 21) with ((Z.of_nat x * 2 ^ 9 + Z.of_nat y) * 2 ^ 21) by lia. apply (lor_pow2 21); lia.
  - lia.
Qed.

Lemma cover_two i va : (i < 512)%nat -> path_base [i] <= va < path_base [i] + level_span 2 -> PTEX 2 va = i.
Proof.
  unfold path_base, level_span. change (2 ^ (12 + 9 * Z.of_nat 2)) with (2 ^ 30). intros Hi Hva. rewrite PTEX_eq by lia.
  change (2 ^ (12 + 9 * Z.of_nat 2)) with (2 ^ 30). Z.div_mod_to_equations. lia.
Qed.

Lemma cover_one i j va : (i < 512)%nat -> (j < 512)%nat -> path_base [i; j] <= va < path_base [i; j] + level_span 1 ->
  PTEX 2 va = i /\ PTEX 1 va = j.
Proof.
  unfold path_base, level_span. change (2 ^ (12 + 9 * Z.of_nat 1)) with (2 ^ 21). intros Hi Hj Hva. rewrite !PTEX_eq by lia.
  change (2 ^ (12 + 9 * Z.of_nat 2)) with (2 ^ 30). change (2 ^ (12 + 9 * Z.of_nat 1)) with (2 ^ 21). Z.div_mod_to_equations. lia.
Qed.

Lemma cover_page i j k va : (i < 256)%nat -> (j < 512)%nat -> (k < 512)%nat -> va = path_base [i; j] + Z.of_nat k * PGSIZE ->
  PTEX 2 va = i /\ PTEX 1 va = j /\ PTEX 0 va = k /\ 0 <= va < MAXVA /\ va mod PGSIZE = 0.
Proof.
  unfold path_base, PGSIZE. change MAXVA with (2 ^ 38). intros Hi Hj Hk Hva. rewrite !PTEX_eq by lia.
  change (2 ^ (12 + 9 * Z.of_nat 2)) with (2 ^ 30). change (2 ^ (12 + 9 * Z.of_nat 1)) with (2 ^ 21).
  change (2 ^ (12 + 9 * Z.of_nat 0)) with (2 ^ 12). Z.div_mod_to_equations. lia.
Qed.

Lemma path_base_app p i l : (length p + S l = 2)%nat -> path_base (p ++ [i]) = path_base p + Z.of_nat i * level_span (S l).
Proof.
  intros Hl. destruct p as [|x [|? ?]]; cbn in Hl; [replace l with 1%nat by lia|replace l with 0%nat by lia|lia]; cbn [app path_base];
    unfold level_span; [change (2 ^ (12 + 9 * Z.of_nat 2)) with (2 ^ 30)|change (2 ^ (12 + 9 * Z.of_nat 1)) with (2 ^ 21)]; lia.
Qed.

Lemma span_S l : level_span (S l) = 512 * level_span l.
Proof. unfold level_span. replace (12 + 9 * Z.of_nat (S l)) with (9 + (12 + 9 * Z.of_nat l)) by lia. rewrite Z.pow_add_r by lia. done. Qed.

(** ** Clearing bits *)

Lemma without_range f b : 0 <= f < 1024 -> 0 <= b -> 0 <= without f b < 1024.
Proof.
  intros Hf Hb. unfold without. rewrite <-Z.ldiff_land. assert (E : 0 <= Z.ldiff f b <= f); [|lia].
  apply Z.ldiff_le; [lia|]. rewrite Z.ldiff_ldiff_l, Z.lor_comm, <-Z.ldiff_ldiff_l, Z.ldiff_diag. apply Z.ldiff_0_l.
Qed.

Lemma without_high a f b : 0 <= f < 1024 -> 0 <= b < 1024 -> without (a * 1024 + f) b = a * 1024 + without f b.
Proof.
  intros Hf Hb. assert (Hw : 0 <= without f b < 1024) by (apply without_range; lia).
  rewrite <-!lor_low by done. unfold without. rewrite Z.land_lor_distr_l. f_equal.
  apply Z.bits_inj'. intros k Hk. rewrite Z.land_spec, Z.lnot_spec by lia.
  destruct (Z.lt_ge_cases k 10) as [Hlt|Hge].
  - replace (Z.testbit (a * 1024) k) with false; [done|]. change 1024 with (2 ^ 10). by rewrite Z.mul_pow2_bits_low.
  - rewrite (Z.bits_above_log2 b k); [by rewrite andb_true_r|lia|].
    destruct (Z.eq_dec b 0) as [->|]; [cbn; lia|]. apply Z.log2_lt_pow2; [lia|]. pose proof (Z.pow_le_mono_r 2 10 k). lia.
Qed.

Lemma has_bits_without x b c : Z.land c b = 0 -> has_bits (without x b) c = has_bits x c.
Proof.
  intros H. unfold has_bits, without. f_equal. rewrite <-Z.land_assoc. f_equal. apply Z.bits_inj'. intros k Hk.
  rewrite Z.land_spec, Z.lnot_spec by lia. apply (f_equal (fun z => Z.testbit z k)) in H. rewrite Z.land_spec, Z.bits_0 in H.
  destruct (Z.testbit b k), (Z.testbit c k); done.
Qed.

Lemma has_bits_cleared x b : has_bits (without x b) b = false.
Proof. unfold has_bits, without. rewrite <-Z.land_assoc, (Z.land_comm _ b), Z.land_lnot_diag, Z.land_0_r. done. Qed.

(** The address of an entry does not depend on its flags. *)
Lemma PTE2PA_high a f : 0 <= f < 1024 -> PTE2PA (a * 1024 + f) = wrap64 (a * 4096).
Proof. intros Hf. rewrite PTE2PA_eq. by rewrite Z.add_comm, Z.div_add, (Z.div_small f), Z.add_0_l by lia. Qed.

(** Rewriting the flags of an entry. *)
Definition with_flags (w f : Z) : Z := w / 1024 * 1024 + f.

Lemma with_flags_same w : w = with_flags w (w mod 1024).
Proof. unfold with_flags. pose proof (Z.div_mod w 1024 ltac:(lia)). lia. Qed.

Lemma with_flags_facts w f : is_u64 w -> 0 <= f < 1024 ->
  PTE2PA (with_flags w f) = PTE2PA w /\ is_u64 (with_flags w f) /\ with_flags w f mod 1024 = f /\
  forall b, 0 <= b < 1024 -> has_bits (with_flags w f) b = has_bits f b.
Proof.
  intros Hw Hf. unfold with_flags. split_and!.
  - rewrite PTE2PA_high by done. by rewrite PTE2PA_eq.
  - unfold is_u64 in *. Z.div_mod_to_equations. lia.
  - by rewrite Z.add_comm, Z.mod_add, Z.mod_small by lia.
  - intros b Hb. rewrite has_bits_mod by done. by rewrite Z.add_comm, Z.mod_add, Z.mod_small by lia.
Qed.

Lemma mod_flags w b : 0 <= b < 1024 -> has_bits (w mod 1024) b = has_bits w b.
Proof. intros Hb. by rewrite <-has_bits_mod. Qed.

Lemma lor_flags w g : 0 <= g < 1024 -> Z.lor w g = with_flags w (Z.lor (w mod 1024) g).
Proof.
  intros Hg. pose proof (Z.mod_pos_bound w 1024 ltac:(lia)) as Hm. rewrite (with_flags_same w) at 1. unfold with_flags.
  rewrite <-lor_low by done. rewrite <-Z.lor_assoc. apply lor_low. by apply flags_bound.
Qed.

Lemma without_flags w b : 0 <= b < 1024 -> without w b = with_flags w (without (w mod 1024) b).
Proof.
  intros Hb. pose proof (Z.mod_pos_bound w 1024 ltac:(lia)) as Hm. rewrite (with_flags_same w) at 1. unfold with_flags. by apply without_high.
Qed.

(** * Address spaces

    What the page tables rely on of the frame allocator ([FramesLaws]), and the
    abstraction of a page table: a tree of tables [D] (path of indices to the
    address of a table) and the map [M] from page addresses to leaf entries it
    implements.  [aspace] adds the books: the count of every frame is the
    number of leaves that own it, plus one if it is a table of the space, plus
    the references of everything else. *)

(** ** Counting in finite maps *)

Definition tally {K A} `{Countable K} (P : K -> A -> bool) (m : gmap K A) : Z :=
  Z.of_nat (size (filter (fun kv => P kv.1 kv.2 = true) m)).
Definition b2z (b : bool) : Z := if b then 1 else 0.

Section tally.
  Context {K A} `{Countable K} (P : K -> A -> bool).
  Implicit Types m : gmap K A.

Lemma tally_nonneg m : 0 <= tally P m.
Proof. unfold tally. lia. Qed.

Lemma tally_insert m k x : m !! k = None -> tally P (<[k := x]> m) = tally P m + b2z (P k x).
Proof.
  intros Hk. unfold tally, b2z. destruct (P k x) eqn:E.
  - rewrite map_filter_insert_True by done. rewrite map_size_insert_None; [lia|]. apply map_lookup_filter_None. by left.
  - rewrite map_filter_insert_False by (cbn; congruence). rewrite delete_id by done. lia.
Qed.

Lemma tally_delete m k x : m !! k = Some x -> tally P (delete k m) = tally P m - b2z (P k x).
Proof.
  intros Hk. rewrite <-(insert_id m k x Hk) at 2. rewrite <-insert_delete_eq. rewrite tally_insert by apply lookup_delete_eq.
  lia.
Qed.

Lemma tally_update m k x y : m !! k = Some x -> tally P (<[k := y]> m) = tally P m - b2z (P k x) + b2z (P k y).
Proof. intros Hk. rewrite <-insert_delete_eq, tally_insert by apply lookup_delete_eq. by rewrite (tally_delete m k x). Qed.

Lemma tally_pos m k x : m !! k = Some x -> P k x = true -> 0 < tally P m.
Proof. intros Hk Hx. pose proof (tally_delete m k x Hk) as E. pose proof (tally_nonneg (delete k m)). unfold b2z in E. rewrite Hx in E. lia. Qed.

Lemma tally_inv m : 0 < tally P m -> exists k x, m !! k = Some x /\ P k x = true.
Proof.
  intros Ht. unfold tally in Ht. destruct (map_choose (filter (fun kv => P kv.1 kv.2 = true) m)) as (k & x & Hk).
  - intros E. rewrite E, map_size_empty in Ht. lia.
  - apply map_lookup_filter_Some in Hk. eauto.
Qed.

Lemma tally_empty : tally P (∅ : gmap K A) = 0.
Proof. unfold tally. by rewrite map_filter_empty, map_size_empty. Qed.
End tally.

(** ** Frames *)

(** [fr_ok s g]: [g] gives the reference count of every page.  Pages that are [fr_reserved] are never given out: the
    image of the kernel. *)
Class FramesLaws (St : Type) {FS : Frames St} := {
  fr_ok : St -> (Z -> Z) -> Prop;
  fr_reserved : Z -> Prop;
  fr_reserved_ok s g p : fr_ok s g -> fr_reserved p -> g p = 0;
  fr_ok_ext s g g' : (forall a, g a = g' a) -> fr_ok s g -> fr_ok s g';
  fr_addr s g p : fr_ok s g -> g p <> 0 -> 0 < p /\ p + PGSIZE < 2 ^ 64 /\ p mod PGSIZE = 0;
  fr_count_ok s g a : fr_ok s g -> fr_count s a = Ret (g a) /\ is_u32 (g a);
  fr_alloc_ok s g zero : fr_ok s g -> exists p s', fr_alloc s zero = Ret (p, s') /\
    (p = 0 /\ s' = s \/
     0 < p /\ is_u64 p /\ p mod PGSIZE = 0 /\ g p = 0 /\ fr_ok s' (upd g p 1) /\
     forall x, fr_byte s' x = if zero && bool_decide (p <= x < p + PGSIZE) then 0 else fr_byte s x);
  fr_put_ok s g p : fr_ok s g -> g p <> 0 -> exists s', fr_put s p = Ret s' /\ fr_ok s' (upd g p (g p - 1)) /\
    forall x, fr_byte s' x = fr_byte s x \/ p <= x < p + PGSIZE /\ g p = 1;
  fr_put_bad s g p : fr_ok s g -> g p = 0 -> fr_put s p = Panic "put invalid page";
  fr_get_ok s g p : fr_ok s g ->
    if decide (g p <> 0 /\ g p <> UINT32_MAX)
    then exists s', fr_get s p = Ret (0, s') /\ fr_ok s' (upd g p (g p + 1)) /\ forall x, fr_byte s' x = fr_byte s x
    else fr_get s p = Ret (-1, s);
  fr_write_ok s g a l : fr_ok s g -> fr_ok (fr_write s a l) g /\
    forall x, fr_byte (fr_write s a l) x = default (fr_byte s x) (if decide (a <= x) then l !! Z.to_nat (x - a) else None) }.

(** ** The tree of tables *)

(** The path to the table that holds the entry of [va] at a level. *)
Definition prefix (va : Z) (level : nat) : list nat :=
  match level with O => [PTEX 2 va; PTEX 1 va] | S O => [PTEX 2 va] | _ => [] end.

(** A valid entry that maps a page. *)
Definition is_leaf (w : Z) : bool := has_bits w PTE_V && has_bits w PTE_RWX.
(** A leaf that owns a reference on its frame: the user pages, but for the page of the signal trampoline, which is a part
    of the kernel image. *)
Definition owned (va w : Z) : bool := negb (va =? USER_SIGRETURN) && has_bits w (Z.lor PTE_U PTE_SW_USER).

Lemma has_either w b c : has_bits w b = true \/ has_bits w c = true -> has_bits w (Z.lor b c) = true.
Proof.
  unfold has_bits, truth. rewrite Z.land_lor_distr_r, !negb_true_iff, !Z.eqb_neq, Z.lor_eq_0_iff. tauto.
Qed.
Lemma owned_user va w : va <> USER_SIGRETURN -> has_bits w PTE_U = true \/ has_bits w PTE_SW_USER = true -> owned va w = true.
Proof. intros Hva Hw. unfold owned. rewrite (proj2 (Z.eqb_neq va _)) by done. by apply has_either. Qed.

Section space.
  Context {St : Type} {FS : Frames St} {FL : FramesLaws St}.
  Implicit Types (V : vm St) (D : gmap (list nat) Z) (M : gmap Z Z) (pgdir va a w : Z).

(** The tables below the root are reached by the valid entries without permissions of the two upper levels; the third
    level holds leaves.  [M] is exactly those leaves. *)
Record space V pgdir D M : Prop := {
  sp_root : D !! [] = Some pgdir;
  sp_table p a : D !! p = Some a -> (length p <= 2)%nat /\ 0 < a /\ is_u64 a /\ a mod PGSIZE = 0 /\
    exists es, tables V !! a = Some es /\ length es = 512%nat;
  sp_inj p q a : D !! p = Some a -> D !! q = Some a -> p = q;
  sp_upper p a es i w : D !! p = Some a -> (length p < 2)%nat -> tables V !! a = Some es -> es !! i = Some w ->
    if has_bits w PTE_V then has_bits w PTE_RWX = false /\ D !! (p ++ [i]) = Some (PTE2PA w) else D !! (p ++ [i]) = None;
  sp_lower p a es i w : D !! p = Some a -> length p = 2%nat -> tables V !! a = Some es -> es !! i = Some w ->
    has_bits w PTE_V = true -> has_bits w PTE_RWX = true /\ is_u64 w;
  sp_up p i b : D !! (p ++ [i]) = Some b -> is_Some (D !! p) /\ (i < 512)%nat;
  sp_low i b : D !! [i] = Some b -> (i < 256)%nat;
  sp_map va w : M !! va = Some w <-> 0 <= va < MAXVA /\ va mod PGSIZE = 0 /\
    exists a es, D !! prefix va 0 = Some a /\ tables V !! a = Some es /\ es !! PTEX 0 va = Some w /\
      has_bits w PTE_V = true }.

Definition refs M (f : Z) : Z := tally (fun va w => owned va w && (PTE2PA w =? f)) M.
Definition tabs D (f : Z) : Z := tally (fun _ a => a =? f) D.

(** An address space and its books; [o] counts the references of everything else. *)
Record aspace V pgdir D M (o : Z -> Z) : Prop := {
  as_space : space V pgdir D M;
  as_frames : fr_ok (frames V) (fun f => o f + refs M f + tabs D f);
  as_others f : 0 <= o f }.

(** Tables of the space. *)
Definition table_of D a : Prop := exists p, D !! p = Some a.

(** Tables elsewhere stay as they are. *)
Definition elsewhere V V' D' : Prop := forall a, ~ table_of D' a -> tables V' !! a = tables V !! a.

Lemma fr_alloc_null s g zero p s' : fr_ok s g -> fr_alloc s zero = Ret (p, s') -> truth p = false -> p = 0 /\ s' = s.
Proof.
  intros H E Hp. destruct (fr_alloc_ok s g zero H) as (q & s1 & E1 & [[-> ->]|(Hq & _)]); rewrite E in E1;
    injection E1 as -> ->; [done|]. unfold truth in Hp. apply negb_false_iff, Z.eqb_eq in Hp. lia.
Qed.

Lemma vm_walk_enter V pgdir va b : 0 <= va < MAXVA -> vm_walk V pgdir va b 0 = walk_loop 2 0 V pgdir va b.
Proof. intros Hva. unfold vm_walk. by rewrite (proj2 (Z.leb_gt MAXVA va)) by lia. Qed.

Section one.
  Context V pgdir D M (HS : space V pgdir D M).

Lemma table_lookup p a i : D !! p = Some a -> (i < 512)%nat ->
  exists es w, tables V !! a = Some es /\ length es = 512%nat /\ es !! i = Some w /\ pte_load V (a, i) = Ret w.
Proof.
  intros Hp Hi. destruct (sp_table _ _ _ _ HS p a Hp) as (_ & _ & _ & _ & es & Hes & Hl).
  destruct (lookup_lt_is_Some_2 es i) as [w Hw]; [lia|]. exists es, w. split_and!; try done.
  unfold pte_load. cbn. rewrite Hes. cbn. by apply rd_Ret.
Qed.

(** One step down the tree. *)
Lemma step_down p a i : D !! p = Some a -> (length p < 2)%nat -> (i < 512)%nat ->
  exists w, pte_load V (a, i) = Ret w /\
    if has_bits w PTE_V then has_bits w PTE_RWX = false /\ D !! (p ++ [i]) = Some (PTE2PA w) else D !! (p ++ [i]) = None.
Proof.
  intros Hp Hl Hi. destruct (table_lookup p a i Hp Hi) as (es & w & Hes & _ & Hw & E). exists w. split; [done|].
  by eapply (sp_upper _ _ _ _ HS).
Qed.

(** The walk without allocation finds the table of the third level. *)
Lemma walk_find va : 0 <= va < MAXVA ->
  vm_walk V pgdir va false 0 = Ret (V, match D !! prefix va 0 with Some a => Some (a, PTEX 0 va, 0%nat) | None => None end).
Proof.
  intros Hva. rewrite vm_walk_enter by done. cbn [walk_loop].
  change (2 <=? 0)%nat with false. change (1 <=? 0)%nat with false. cbn iota.
  assert (H2 : (PTEX 2 va < 512)%nat) by (apply PTEX_lt; lia). assert (H1 : (PTEX 1 va < 512)%nat) by (apply PTEX_lt; lia).
  destruct (step_down [] pgdir (PTEX 2 va) (sp_root _ _ _ _ HS) ltac:(cbn; lia) H2) as (w2 & -> & E2). cbn [mbind outcome_bind app] in *.
  assert (HN : D !! [PTEX 2 va] = None -> D !! prefix va 0 = None).
  { intros HN. destruct (D !! prefix va 0) as [b|] eqn:E; [|done].
    destruct (sp_up _ _ _ _ HS [PTEX 2 va] (PTEX 1 va) b E) as [[? ?] _]. congruence. }
  destruct (has_bits w2 PTE_V); [destruct E2 as [-> E2]|by rewrite HN].
  destruct (step_down [PTEX 2 va] (PTE2PA w2) (PTEX 1 va) E2 ltac:(cbn; lia) H1) as (w1 & -> & E1). cbn [mbind outcome_bind app] in *.
  destruct (has_bits w1 PTE_V); [destruct E1 as [-> E1]|]; unfold prefix; rewrite E1; done.
Qed.

Lemma PTE_find va : 0 <= va < MAXVA ->
  PTE V pgdir va false = Ret (V, match D !! prefix va 0 with Some a => Some (a, PTEX 0 va) | None => None end).
Proof. intros Hva. unfold PTE. rewrite walk_find by done. cbn. by destruct (D !! _). Qed.

(** The entry of a page at the third level. *)
Lemma leaf_lookup va a : 0 <= va < MAXVA -> va mod PGSIZE = 0 -> D !! prefix va 0 = Some a ->
  exists w, pte_load V (a, PTEX 0 va) = Ret w /\
    if has_bits w PTE_V then M !! va = Some w /\ has_bits w PTE_RWX = true /\ is_u64 w else M !! va = None.
Proof.
  intros Hva Ha HD. destruct (table_lookup _ a (PTEX 0 va) HD) as (es & w & Hes & _ & Hw & E); [apply PTEX_lt; lia|].
  exists w. split; [done|]. destruct (has_bits w PTE_V) eqn:HV.
  - split; [|exact (sp_lower _ _ _ _ HS _ a es _ w HD eq_refl Hes Hw HV)]. apply (sp_map _ _ _ _ HS). split_and!; try done; try lia. eauto 10.
  - destruct (M !! va) as [w'|] eqn:EM; [|done]. apply (sp_map _ _ _ _ HS) in EM as (_ & _ & a' & es' & HD' & Hes' & Hw' & HV').
    simplify_eq. congruence.
Qed.

Lemma unmapped_None va : D !! prefix va 0 = None -> M !! va = None.
Proof.
  intros HD. destruct (M !! va) as [w|] eqn:EM; [|done]. apply (sp_map _ _ _ _ HS) in EM as (_ & _ & a & es & HD' & _). congruence.
Qed.

Lemma map_range va w : M !! va = Some w -> 0 <= va < MAXVA /\ va mod PGSIZE = 0 /\ is_leaf w = true /\ is_u64 w.
Proof.
  intros HM. apply (sp_map _ _ _ _ HS) in HM as (Hva & Ha & a & es & HD & Hes & Hw & HV).
  destruct (sp_lower _ _ _ _ HS _ a es _ w HD eq_refl Hes Hw HV) as [HR Hu]. unfold is_leaf. by rewrite HV, HR.
Qed.

(** The indices of a path to a table. *)
Lemma path_small p a : D !! p = Some a -> forall j, j ∈ p -> (j < 512)%nat.
Proof.
  intros Hp. destruct (sp_table _ _ _ _ HS p a Hp) as (Hl & _). destruct p as [|x [|y [|? ?]]]; cbn in Hl; try lia.
  - intros j Hj. by apply elem_of_nil in Hj.
  - intros j ->%list_elem_of_singleton. pose proof (sp_low _ _ _ _ HS x a Hp). lia.
  - destruct (sp_up _ _ _ _ HS [x] y a Hp) as [[b Hb] Hy]. pose proof (sp_low _ _ _ _ HS x b Hb).
    intros j [-> | ->%list_elem_of_singleton]%elem_of_cons; lia.
Qed.

(** No leaf below an entry that is not there. *)
Lemma no_table_no_leaf p i l va : (length p + S l = 2)%nat -> (i < 512)%nat -> (forall j, j ∈ p -> (j < 512)%nat) -> D !! (p ++ [i]) = None ->
  path_base (p ++ [i]) <= va < path_base (p ++ [i]) + level_span (S l) -> M !! va = None.
Proof.
  intros Hl Hi Hp HN Hva. apply unmapped_None.
  destruct p as [|x [|? ?]]; cbn in Hl; [replace l with 1%nat in * by lia|replace l with 0%nat in * by lia|lia]; cbn [app] in *.
  - unfold prefix. rewrite (cover_two i va Hi Hva). destruct (D !! [i; PTEX 1 va]) eqn:E; [|done].
    destruct (sp_up _ _ _ _ HS [i] _ _ E) as [[? ?] _]. congruence.
  - unfold prefix. destruct (cover_one x i va) as [-> ->]; [apply Hp; by left|done|done|done].
Qed.
End one.

(** ** Writing a leaf *)

Definition set_word M va w : gmap Z Z := if has_bits w PTE_V then <[va := w]> M else delete va M.

(** The tables with one entry changed. *)
Definition stored V a (es : list Z) i w : vm St := MkVm (frames V) (<[a := <[i := w]> es]> (tables V)) (flushes V).

Lemma pte_store_Ret V a i es w : tables V !! a = Some es -> (i < length es)%nat ->
  pte_store V (a, i) w = Ret (stored V a es i w).
Proof. intros Ha Hi. unfold pte_store. cbn. rewrite Ha. cbn. by rewrite wr_Ret. Qed.

Lemma same_leaf D V pgdir M va vb a : space V pgdir D M -> 0 <= va < MAXVA -> 0 <= vb < MAXVA -> va mod PGSIZE = 0 ->
  vb mod PGSIZE = 0 -> D !! prefix va 0 = Some a -> D !! prefix vb 0 = Some a -> PTEX 0 va = PTEX 0 vb -> va = vb.
Proof.
  intros HS Ha Hb Ma Mb Da Db E. pose proof (sp_inj _ _ _ _ HS _ _ _ Da Db) as Ep. cbn in Ep. injection Ep as E2 E1.
  by apply same_page.
Qed.

Lemma space_set V pgdir D M va a es w : space V pgdir D M -> 0 <= va < MAXVA -> va mod PGSIZE = 0 ->
  D !! prefix va 0 = Some a -> tables V !! a = Some es ->
  (has_bits w PTE_V = true -> has_bits w PTE_RWX = true /\ is_u64 w) ->
  space (stored V a es (PTEX 0 va) w) pgdir D (set_word M va w).
Proof.
  intros HS Hva Ha HD Hes Hw. assert (Hl : length es = 512%nat).
  { destruct (sp_table _ _ _ _ HS _ _ HD) as (_ & _ & _ & _ & es' & ? & ?). congruence. }
  assert (HI : (PTEX 0 va < length es)%nat) by (rewrite Hl; apply PTEX_lt; lia).
  split; cbn [stored tables].
  - apply HS.
  - intros p b Hb. destruct (sp_table _ _ _ _ HS p b Hb) as (A1 & A2 & A3 & A4 & es' & Hes' & Hl').
    split_and!; try done. destruct (decide (b = a)) as [->|Hne].
    + exists (<[PTEX 0 va := w]> es). by rewrite lookup_insert_eq, length_insert.
    + exists es'. by rewrite lookup_insert_ne.
  - apply HS.
  - intros p b es' i w' Hb Hp. assert (b <> a).
    { intros ->. pose proof (sp_inj _ _ _ _ HS _ _ _ HD Hb) as E. rewrite <-E in Hp. cbn in Hp. lia. }
    rewrite lookup_insert_ne by done. exact (sp_upper _ _ _ _ HS p b es' i w' Hb Hp).
  - intros p b es' i w' Hb Hp. destruct (decide (b = a)) as [->|Hne].
    + rewrite lookup_insert_eq. intros [= <-] Hi HV. destruct (decide (i = PTEX 0 va)) as [->|Hi'].
      * rewrite list_lookup_insert_eq in Hi by done. injection Hi as <-. auto.
      * rewrite list_lookup_insert_ne in Hi by done. by eapply (sp_lower _ _ _ _ HS).
    + rewrite lookup_insert_ne by done. exact (sp_lower _ _ _ _ HS p b es' i w' Hb Hp).
  - apply HS.
  - apply HS.
  - intros vb w'. destruct (decide (vb = va)) as [->|Hne].
    + transitivity (w' = w /\ has_bits w PTE_V = true).
      { unfold set_word. destruct (has_bits w PTE_V); [rewrite lookup_insert_eq; naive_solver|].
        rewrite lookup_delete_eq. naive_solver. }
      split.
      * intros [-> HV]. split_and!; try done; try lia. exists a, (<[PTEX 0 va := w]> es). rewrite lookup_insert_eq.
        split_and!; try done. by apply list_lookup_insert_eq.
      * intros (_ & _ & a' & es' & HD' & Hes' & Hw' & HV). simplify_eq. rewrite lookup_insert_eq in Hes'. simplify_eq.
        rewrite list_lookup_insert_eq in Hw' by done. by simplify_eq.
    + transitivity (M !! vb = Some w').
      { unfold set_word. destruct (has_bits w PTE_V); [by rewrite lookup_insert_ne|by rewrite lookup_delete_ne]. }
      rewrite (sp_map _ _ _ _ HS vb w'). split; intros (Hvb & Hb & a' & es' & HD' & Hes' & Hw' & HV);
        (split; [done|]; split; [done|]); destruct (decide (a' = a)) as [->|Hna].
      * simplify_eq. exists a, (<[PTEX 0 va := w]> es). rewrite lookup_insert_eq. split_and!; try done.
        rewrite list_lookup_insert_ne; [done|]. intros E. apply Hne. symmetry. by eapply (same_leaf D V pgdir M).
      * exists a', es'. by rewrite lookup_insert_ne.
      * rewrite lookup_insert_eq in Hes'. simplify_eq. exists a, es. split_and!; try done.
        rewrite list_lookup_insert_ne in Hw'; [done|]. intros E. apply Hne. symmetry. by eapply (same_leaf D V pgdir M).
      * rewrite lookup_insert_ne in Hes' by done. eauto 10.
Qed.

(** The books after a change of one leaf. *)
Lemma refs_set M va w f : M !! va = None -> has_bits w PTE_V = true ->
  refs (set_word M va w) f = refs M f + b2z (owned va w && (PTE2PA w =? f)).
Proof. intros HM HV. unfold set_word, refs. rewrite HV. by apply (tally_insert (fun va w => owned va w && (PTE2PA w =? f))). Qed.
Lemma refs_replace M va w' w f : M !! va = Some w' -> has_bits w PTE_V = true ->
  refs (set_word M va w) f = refs M f - b2z (owned va w' && (PTE2PA w' =? f)) + b2z (owned va w && (PTE2PA w =? f)).
Proof. intros HM HV. unfold set_word, refs. rewrite HV. by apply (tally_update (fun va w => owned va w && (PTE2PA w =? f))). Qed.
Lemma refs_clear M va w' f : M !! va = Some w' -> refs (set_word M va 0) f = refs M f - b2z (owned va w' && (PTE2PA w' =? f)).
Proof. intros HM. unfold set_word, refs. change (has_bits 0 PTE_V) with false. by apply (tally_delete (fun va w => owned va w && (PTE2PA w =? f))). Qed.

(** ** Growing the tree *)

(** The tables with an empty table [next] linked from entry [i] of table [a]. *)
Definition linked V (s : St) a (es : list Z) i next : vm St :=
  MkVm s (<[a := <[i := entry_of next PTE_V]> es]> (<[next := empty_table]> (tables V))) (flushes V).

Lemma empty_lookup i w : empty_table !! i = Some w -> w = 0 /\ (i < 512)%nat.
Proof. apply lookup_replicate. Qed.

Lemma app_last_inj (p q : list nat) i j : p ++ [i] = q ++ [j] -> p = q /\ i = j.
Proof. intros E. apply app_inj_tail in E. naive_solver. Qed.

Section grow.
  Context V pgdir D M (s : St) (p : list nat) (a next : Z) (es : list Z) (i : nat) (w : Z).
  Hypotheses (HS : space V pgdir D M) (Hp : D !! p = Some a) (Hl : (length p < 2)%nat) (Hes : tables V !! a = Some es)
    (Hi : es !! i = Some w) (HV : has_bits w PTE_V = false) (Hlow : p = [] -> (i < 256)%nat)
    (Hn : 0 < next) (Hu : is_u64 next) (Ha : next mod PGSIZE = 0) (Hfresh : ~ table_of D next).

Lemma child_None : D !! (p ++ [i]) = None.
Proof. pose proof (sp_upper _ _ _ _ HS p a es i w Hp Hl Hes Hi) as E. by rewrite HV in E. Qed.

Lemma grown_table b : table_of D b -> b <> a -> <[a := <[i := entry_of next PTE_V]> es]> (<[next := empty_table]> (tables V)) !! b
  = tables V !! b.
Proof. intros Hb Hne. rewrite !lookup_insert_ne; [done|intros ->; done|done]. Qed.

Lemma space_grow : space (linked V s a es i next) pgdir (<[p ++ [i] := next]> D) M.
Proof.
  pose proof child_None as HN. assert (Hla : length es = 512%nat).
  { destruct (sp_table _ _ _ _ HS _ _ Hp) as (_ & _ & _ & _ & es' & ? & ?). congruence. }
  assert (Hil : (i < 512)%nat) by (rewrite <-Hla; by eapply lookup_lt_Some).
  assert (Hna : next <> a) by (intros ->; apply Hfresh; by exists p).
  assert (Hlen : length (p ++ [i]) = S (length p)) by (rewrite length_app; cbn; lia).
  split; cbn [linked tables].
  - rewrite lookup_insert_ne; [apply HS|]. by destruct p.
  - intros q b [[<- <-]|[Hq Hb]]%lookup_insert_Some.
    + rewrite Hlen. split_and!; try done; try lia. exists (empty_table). rewrite lookup_insert_ne, lookup_insert_eq by done. done.
    + destruct (sp_table _ _ _ _ HS q b Hb) as (A1 & A2 & A3 & A4 & es' & Hes' & Hl'). split_and!; try done.
      destruct (decide (b = a)) as [->|Hne].
      * exists (<[i := entry_of next PTE_V]> es). rewrite lookup_insert_eq, length_insert. split; [done|congruence].
      * exists es'. rewrite grown_table; [done|by exists q|done].
  - intros q q' b [[<- <-]|[Hq Hb]]%lookup_insert_Some [[<- Eb]|[Hq' Hb']]%lookup_insert_Some.
    + done.
    + destruct Hfresh. by exists q'.
    + subst b. destruct Hfresh. by exists q.
    + by eapply HS.
  - intros q b es' j w' [[<- <-]|[Hq Hb]]%lookup_insert_Some Hlq.
    + rewrite lookup_insert_ne, lookup_insert_eq by done. intros <-%(inj Some) [-> _]%empty_lookup. change (has_bits 0 PTE_V) with false.
      rewrite lookup_insert_ne by (intros [E _]%app_last_inj; apply (f_equal length) in E; lia).
      destruct (D !! ((p ++ [i]) ++ [j])) as [x|] eqn:E; [|done]. destruct (sp_up _ _ _ _ HS _ _ _ E) as [[? ?] _]. congruence.
    + destruct (decide (b = a)) as [->|Hne].
      * pose proof (sp_inj _ _ _ _ HS _ _ _ Hp Hb) as <-. rewrite lookup_insert_eq. intros [= <-] Hj.
        destruct (decide (j = i)) as [->|Hji].
        { rewrite list_lookup_insert_eq in Hj by lia. injection Hj as <-.
          rewrite !has_bits_entry by flag_bound. change (has_bits PTE_V PTE_V) with true. change (has_bits PTE_V PTE_RWX) with false.
          rewrite lookup_insert_eq, PTE2PA_entry by (try done; flag_bound). done. }
        rewrite list_lookup_insert_ne in Hj by done. rewrite lookup_insert_ne by (intros [_ ?]%app_last_inj; done).
        exact (sp_upper _ _ _ _ HS p a es j w' Hp Hl Hes Hj).
      * rewrite grown_table by (try done; by exists q). rewrite lookup_insert_ne; [exact (sp_upper _ _ _ _ HS q b es' j w' Hb Hlq)|].
        intros [<- _]%app_last_inj. congruence.
  - intros q b es' j w' [[<- <-]|[Hq Hb]]%lookup_insert_Some Hlq.
    + rewrite lookup_insert_ne, lookup_insert_eq by done. intros <-%(inj Some) [-> _]%empty_lookup. done.
    + assert (b <> a) by (intros ->; pose proof (sp_inj _ _ _ _ HS _ _ _ Hp Hb) as E; rewrite <-E in Hlq; lia).
      rewrite grown_table by (try done; by exists q). exact (sp_lower _ _ _ _ HS q b es' j w' Hb Hlq).
  - intros q j b [[[<- <-]%app_last_inj _]|[Hq Hb]]%lookup_insert_Some.
    + split; [|done]. rewrite lookup_insert_ne; [by exists a|]. intros E. apply (f_equal length) in E. lia.
    + destruct (sp_up _ _ _ _ HS q j b Hb) as [Hs Hj]. split; [|done]. apply lookup_insert_is_Some'. by right.
  - intros j b [[E _]|[Hq Hb]]%lookup_insert_Some; [|by eapply HS].
    destruct p as [|x [|? ?]]; cbn in E; try done. injection E as ->. by apply Hlow.
  - intros vb w'. rewrite (sp_map _ _ _ _ HS vb w').
    split; intros (Hvb & Hb & b & es' & HD' & Hes' & Hw' & HV'); (split; [done|]; split; [done|]).
    + assert (b <> a) by (intros ->; pose proof (sp_inj _ _ _ _ HS _ _ _ Hp HD') as E; rewrite E in Hl; cbn in Hl; lia).
      exists b, es'. rewrite grown_table by (try done; by eexists). split_and!; try done.
      rewrite lookup_insert_ne; [done|]. intros E. congruence.
    + apply lookup_insert_Some in HD' as [[E <-]|[Hq HD']].
      * rewrite lookup_insert_ne, lookup_insert_eq in Hes' by done. apply (inj Some) in Hes' as <-. by apply empty_lookup in Hw' as [-> _].
      * assert (b <> a) by (intros ->; pose proof (sp_inj _ _ _ _ HS _ _ _ Hp HD') as E; rewrite E in Hl; cbn in Hl; lia).
        rewrite grown_table in Hes' by (try done; by eexists). eauto 10.
Qed.
End grow.
End space.
