(* ===== verification/VmMap.v ===== *)
(** * Mapping and unmapping

    The walk with allocation, [vm_map], [vm_unmap_range] and
    [vm_alloc_user_range] as operations on the map of an address space, with
    the books of the frames. *)
From S2P Require Import Prelude Vma Vm VmSpace.

Section map.
  Context {St : Type} {FS : Frames St} {FL : FramesLaws St}.
  Implicit Types (V : vm St) (D : gmap (list nat) Z) (M : gmap Z Z) (pgdir va a w : Z) (o : Z -> Z).

(** References of a frame in a space with its books. *)
Definition count_of D M o (f : Z) : Z := o f + refs M f + tabs D f.

Lemma count_parts V pgdir D M o f : aspace V pgdir D M o -> 0 <= o f /\ 0 <= refs M f /\ 0 <= tabs D f.
Proof. intros [_ _ H]. split; [done|]. split; apply tally_nonneg. Qed.

Lemma fresh_frame V pgdir D M o f : aspace V pgdir D M o -> count_of D M o f = 0 -> ~ table_of D f.
Proof.
  intros HA H0 [p Hp]. destruct (count_parts V pgdir D M o f HA) as (? & ? & ?). unfold count_of in H0.
  assert (0 < tabs D f); [|lia]. apply (tally_pos (fun _ a => a =? f) D p f Hp). apply Z.eqb_refl.
Qed.

(** The tree grew: the map, the tables elsewhere and the contents of the frames in use are the same. *)
Record grows V V' D D' M o : Prop := {
  gr_sub : D ⊆ D';
  gr_else : elsewhere V V' D';
  gr_flush : flushes V <= flushes V';
  gr_tabs f : 0 < count_of D M o f -> tabs D' f = tabs D f;
  gr_bytes f x : 0 < count_of D M o f -> f <= x < f + PGSIZE -> f mod PGSIZE = 0 ->
    fr_byte (frames V') x = fr_byte (frames V) x }.

Lemma grows_refl V D M o : grows V V D D M o.
Proof. by split. Qed.

Lemma tabs_mono D D' f : D ⊆ D' -> tabs D f <= tabs D' f.
Proof.
  intros HD. unfold tabs, tally. apply Nat2Z.inj_le, map_subseteq_size. by apply map_filter_subseteq_mono.
Qed.

Lemma refs_mono M M' f : M ⊆ M' -> refs M f <= refs M' f.
Proof.
  intros HM. unfold refs, tally. apply Nat2Z.inj_le, map_subseteq_size. by apply map_filter_subseteq_mono.
Qed.

Lemma count_mono D D' M M' o f : D ⊆ D' -> M ⊆ M' -> count_of D M o f <= count_of D' M' o f.
Proof. intros HD HM. pose proof (tabs_mono D D' f HD). pose proof (refs_mono M M' f HM). unfold count_of. lia. Qed.

Lemma grows_trans_sub V1 V2 V3 D1 D2 D3 M M2 o : M ⊆ M2 ->
  grows V1 V2 D1 D2 M o -> grows V2 V3 D2 D3 M2 o -> grows V1 V3 D1 D3 M o.
Proof.
  intros HM [A1 A2 A3 A5 A4] [B1 B2 B3 B5 B4]. split.
  - by etrans.
  - intros a Ha. rewrite B2 by done. apply A2. intros [p Hp]. apply Ha. exists p. by eapply lookup_weaken.
  - lia.
  - intros f Hc. rewrite B5; [by apply A5|]. pose proof (count_mono D1 D2 M M2 o f A1 HM). lia.
  - intros f x Hc Hx Hf. rewrite (B4 f x); [by apply (A4 f)| |done|done].
    pose proof (count_mono D1 D2 M M2 o f A1 HM). lia.
Qed.

Lemma grows_trans V1 V2 V3 D1 D2 D3 M o : grows V1 V2 D1 D2 M o -> grows V2 V3 D2 D3 M o -> grows V1 V3 D1 D3 M o.
Proof. by apply grows_trans_sub. Qed.

Lemma count_nonneg V pgdir D M o f : aspace V pgdir D M o -> 0 <= count_of D M o f.
Proof. intros HA. destruct (count_parts V pgdir D M o f HA) as (? & ? & ?). unfold count_of. lia. Qed.

Lemma with_same V : with_frames V (frames V) = V.
Proof. by destruct V. Qed.

Lemma tabs_insert D q next f : D !! q = None -> tabs (<[q := next]> D) f = tabs D f + b2z (next =? f).
Proof. intros HN. unfold tabs. by apply (tally_insert (fun _ a => a =? f)). Qed.

(** Linking a new table below table [a], at path [p], and going on with it. *)
Lemma link_ok V pgdir D M o p a i w : aspace V pgdir D M o -> D !! p = Some a -> (length p < 2)%nat -> (i < 512)%nat ->
  (p = [] -> (i < 256)%nat) -> pte_load V (a, i) = Ret w -> has_bits w PTE_V = false ->
  let expr (K : vm St -> Z -> outcome (vm St * option (Z * nat * nat))) :=
    '(next, V) ← table_alloc V;
    if negb (truth next) then Ret (V, None) else
    V ← pte_store V (a, i) (Z.lor (PA2PTE next) PTE_V);
    K V next in
  (forall K, expr K = Ret (V, None)) \/
  exists V' next, (forall K, expr K = K V' next) /\ aspace V' pgdir (<[p ++ [i] := next]> D) M o /\
    grows V V' D (<[p ++ [i] := next]> D) M o.
Proof.
  intros HA Hp Hl Hi Hlow Hw HV. cbv zeta. pose proof (as_space _ _ _ _ _ HA) as HS.
  destruct (table_lookup V pgdir D M HS p a i Hp Hi) as (es & w' & Hes & Hlen & Hi' & E). assert (w' = w) as -> by congruence.
  unfold table_alloc. destruct (fr_alloc_ok (frames V) _ true (as_frames _ _ _ _ _ HA)) as (next & s & -> & [[-> ->]|HN]).
  { left. intros K. cbn [mbind outcome_bind]. change (truth 0) with false. cbn [negb]. by rewrite with_same. }
  destruct HN as (Hpos & Hu & Ha & H0 & Hok & Hb). right.
  pose proof (fresh_frame V pgdir D M o next HA H0) as Hfr.
  assert (Hna : next <> a) by (intros ->; apply Hfr; by exists p).
  assert (HT : truth next = true) by (unfold truth; rewrite (proj2 (Z.eqb_neq next 0)); [done|lia]).
  exists (linked V s a es i next), next. split; [|split].
  - intros K. cbn [mbind outcome_bind]. rewrite HT. cbn [negb]. rewrite table_entry by done.
    rewrite (pte_store_Ret _ a i es); [done|cbn; by rewrite lookup_insert_ne|lia].
  - split.
    + by apply (space_grow V pgdir D M s p a next es i w).
    + eapply fr_ok_ext; [|exact Hok]. intros f. cbn. pose proof (child_None V pgdir D M p a es i w HS Hp Hl Hes Hi' HV) as HC.
      rewrite tabs_insert by done. unfold upd. unfold count_of in H0. unfold b2z.
      destruct (Z.eqb_spec next f) as [->|Hne]; [rewrite decide_True by done; lia|rewrite decide_False by done; lia].
    + apply HA.
  - split.
    + apply insert_subseteq. by eapply (child_None V pgdir D M p a es i w).
    + intros b Hb'. cbn. rewrite !lookup_insert_ne; [done| |].
      * intros ->. apply Hb'. exists (p ++ [i]). apply lookup_insert_eq.
      * intros ->. apply Hb'. exists p. rewrite lookup_insert_ne; [done|]. intros E'. apply (f_equal length) in E'.
        rewrite length_app in E'. cbn in E'. lia.
    + done.
    + intros f Hc. rewrite tabs_insert by (by eapply (child_None V pgdir D M p a es i w)). unfold b2z.
      destruct (Z.eqb_spec next f) as [->|]; [unfold count_of in Hc; lia|lia].
    + intros f x Hc Hx Hf. cbn. rewrite Hb. cbn [andb]. rewrite bool_decide_false; [done|]. intros Hx'.
      assert (f = next) as ->; [|unfold count_of in Hc; lia]. unfold PGSIZE in *. Z.div_mod_to_equations. lia.
Qed.

(** One level of the walk. *)
Lemma down_ok V pgdir D M o p a va l : aspace V pgdir D M o -> 0 <= va < MAXVA -> D !! p = Some a -> (length p < 2)%nat ->
  (p = [] -> (PTEX (S l) va < 256)%nat) ->
  walk_loop (S l) 0 V a va true = Ret (V, None) \/
  exists V' D' a', walk_loop (S l) 0 V a va true = walk_loop l 0 V' a' va true /\ aspace V' pgdir D' M o /\
    D' !! (p ++ [PTEX (S l) va]) = Some a' /\ grows V V' D D' M o.
Proof.
  intros HA Hva Hp Hl Hlow. pose proof (as_space _ _ _ _ _ HA) as HS.
  assert (Hi : (PTEX (S l) va < 512)%nat) by (apply PTEX_lt; lia). cbn [walk_loop]. change (S l <=? 0)%nat with false. cbn iota.
  destruct (step_down V pgdir D M HS p a (PTEX (S l) va) Hp Hl Hi) as (w & E & HW). rewrite E. cbn [mbind outcome_bind].
  destruct (has_bits w PTE_V) eqn:HV.
  - destruct HW as [-> HD]. right. exists V, D, (PTE2PA w). by split_and!.
  - cbn [negb]. destruct (link_ok V pgdir D M o p a _ w HA Hp Hl Hi Hlow E HV) as [E2|(V' & next & E2 & HA' & HG)].
    + left. apply (E2 (fun V next => walk_loop l 0 V next va true)).
    + right. exists V', (<[p ++ [PTEX (S l) va] := next]> D), next. split; [apply (E2 (fun V next => walk_loop l 0 V next va true))|].
      split_and!; try done. apply lookup_insert_eq.
Qed.

Lemma PTEX_low va : 0 <= va < MAXVA -> (PTEX 2 va < 256)%nat.
Proof.
  intros Hva. rewrite PTEX_eq by lia. change MAXVA with (2 ^ 38) in Hva. change (2 ^ (12 + 9 * Z.of_nat 2)) with (2 ^ 30).
  assert (0 <= va / 2 ^ 30 < 256) by (split; [apply Z.div_pos; lia|apply Z.div_lt_upper_bound; lia]).
  rewrite Z.mod_small by lia. lia.
Qed.

(** [PTE] with allocation finds the table of the third level or reports that memory ran out. *)
Lemma PTE_alloc V pgdir D M o va : aspace V pgdir D M o -> 0 <= va < MAXVA ->
  exists V' D' r, PTE V pgdir va true = Ret (V', r) /\ aspace V' pgdir D' M o /\ grows V V' D D' M o /\
    (r = None \/ exists a, D' !! prefix va 0 = Some a /\ r = Some (a, PTEX 0 va)).
Proof.
  intros HA Hva. unfold PTE. rewrite vm_walk_enter by done.
  destruct (down_ok V pgdir D M o [] pgdir va 1 HA Hva (sp_root _ _ _ _ (as_space _ _ _ _ _ HA)) ltac:(cbn; lia)
              (fun _ => PTEX_low va Hva)) as [E|(V1 & D1 & a1 & E & HA1 & HD1 & HG1)]; rewrite E.
  { exists V, D, None. split_and!; [done|done|apply grows_refl|by left]. }
  cbn [app] in HD1.
  destruct (down_ok V1 pgdir D1 M o [PTEX 2 va] a1 va 0 HA1 Hva HD1 ltac:(cbn; lia) ltac:(done))
    as [E'|(V2 & D2 & a2 & E' & HA2 & HD2 & HG2)]; rewrite E'.
  { exists V1, D1, None. split_and!; [done|done|done|by left]. }
  cbn [app] in HD2. exists V2, D2, (Some (a2, PTEX 0 va)). split; [done|]. split; [done|]. split; [by eapply grows_trans|].
  right. by exists a2.
Qed.

(** ** Writing the entry of a page *)

(** [o] without one reference on [f], if [b]. *)
Definition less o (b : bool) (f : Z) : Z -> Z := fun x => o x - b2z (b && (f =? x)).

(** A store at the third level: the map, the books and everything else. *)
Lemma store_ok V pgdir D M va a w : space V pgdir D M -> 0 <= va < MAXVA -> va mod PGSIZE = 0 ->
  D !! prefix va 0 = Some a -> (has_bits w PTE_V = true -> has_bits w PTE_RWX = true /\ is_u64 w) ->
  exists es, pte_store V (a, PTEX 0 va) w = Ret (stored V a es (PTEX 0 va) w) /\
    space (stored V a es (PTEX 0 va) w) pgdir D (set_word M va w) /\
    elsewhere V (stored V a es (PTEX 0 va) w) D.
Proof.
  intros HS Hva Ha HD Hw.
  destruct (table_lookup V pgdir D M HS _ a (PTEX 0 va) HD) as (es & w' & Hes & Hl & _); [apply PTEX_lt; lia|].
  exists es. split; [apply pte_store_Ret; [done|rewrite Hl; apply PTEX_lt; lia]|]. split; [by apply space_set|].
  intros b Hb. cbn. rewrite lookup_insert_ne; [done|]. intros ->. apply Hb. by eexists.
Qed.

Lemma round_page va : 0 <= va < MAXVA -> va mod PGSIZE = 0 ->
  PGROUNDDOWN va = va /\ PGROUNDDOWN (va +64 PGSIZE -64 1) = va.
Proof.
  intros Hva Ha. change MAXVA with (2 ^ 38) in Hva. unfold PGSIZE in *.
  rewrite (wrap64_id (va + 4096)), wrap64_id by (unfold is_u64; lia). rewrite !PGROUNDDOWN_mod. unfold PGSIZE.
  split; Z.div_mod_to_equations; lia.
Qed.

(** What [vm_map] of one page does: it fails when there is no memory for a table, and otherwise adds the leaf, which
    takes over a reference on the frame if it owns one. *)
Lemma map_page_ok V pgdir D M o va pa perm : aspace V pgdir D M o -> 0 <= va < MAXVA -> va mod PGSIZE = 0 ->
  M !! va = None -> is_u64 pa -> pa mod PGSIZE = 0 -> 0 <= perm < 1024 -> has_bits perm PTE_RWX = true ->
  let w := entry_of pa (Z.lor PTE_V perm) in
  (owned va w = true -> 1 <= o pa) ->
  exists V' D' rc, vm_map V pgdir va pa PGSIZE perm = Ret (rc, V') /\ grows V V' D D' M o /\
    (rc = -1 /\ aspace V' pgdir D' M o \/
     rc = 0 /\ aspace V' pgdir D' (<[va := w]> M) (less o (owned va w) pa)).
Proof.
  intros HA Hva Hal HM Hu Hpa Hperm HRWX w Ho. destruct (round_page va Hva Hal) as [E1 E2].
  unfold vm_map. change (truth PGSIZE) with true. cbn [negb]. rewrite E1, E2. unfold map_rounds. cbn [map_loop].
  destruct (PTE_alloc V pgdir D M o va HA Hva) as (V1 & D1 & r & -> & HA1 & HG & [-> |(a & HD & ->)]); cbn [mbind outcome_bind].
  { exists V1, D1, (-1). split_and!; try done. by left. }
  pose proof (as_space _ _ _ _ _ HA1) as HS1.
  destruct (leaf_lookup V1 pgdir D1 M HS1 va a Hva Hal HD) as (w0 & -> & HW). cbn [mbind outcome_bind].
  destruct (has_bits w0 PTE_V); [destruct HW as [HW _]; congruence|].
  rewrite new_entry by done. fold w.
  assert (Hfb : 0 <= Z.lor PTE_V perm < 1024) by (apply flags_bound; [flag_bound|done]).
  assert (HwV : has_bits w PTE_V = true).
  { unfold w. rewrite has_bits_entry by (try done; flag_bound). by rewrite has_bits_lor. }
  assert (HwR : has_bits w PTE_RWX = true).
  { unfold w. rewrite has_bits_entry by (try done; flag_bound). rewrite has_bits_lor, HRWX. apply orb_true_r. }
  assert (Hwu : is_u64 w) by (by apply entry_range).
  destruct (store_ok V1 pgdir D1 M va a w HS1 Hva Hal HD (fun _ => conj HwR Hwu)) as (es & -> & HS2 & HE).
  cbn [mbind outcome_bind]. rewrite Z.eqb_refl. eexists _, D1, 0. split; [done|]. split.
  - destruct HG as [G1 G2 G3 G5 G4]. split; try done. intros b Hb. rewrite HE by done. by apply G2.
  - right. split; [done|]. assert (Hset : set_word M va w = <[va := w]> M) by (unfold set_word; by rewrite HwV).
    split; [by rewrite <-Hset|..].
    + eapply fr_ok_ext; [|exact (as_frames _ _ _ _ _ HA1)]. intros f. cbn. unfold less. rewrite <-Hset, refs_set by done.
      unfold w at 3. rewrite PTE2PA_entry by done. lia.
    + intros f. unfold less. pose proof (as_others _ _ _ _ _ HA1 f). unfold b2z.
      destruct (owned va w) eqn:Hw; cbn [andb]; [|lia]. destruct (Z.eqb_spec pa f) as [<-|]; [specialize (Ho eq_refl)|]; lia.
Qed.

(** ** References changing hands *)

Lemma aspace_ext V pgdir D M o o' : (forall f, o f = o' f) -> aspace V pgdir D M o -> aspace V pgdir D M o'.
Proof.
  intros E [A B C]. split; [done| |intros f; by rewrite <-E]. eapply fr_ok_ext; [|exact B]. intros f. cbn. by rewrite E.
Qed.

(** [o] with one more reference on [f], if [b]. *)
Definition plus o (b : bool) (f : Z) : Z -> Z := fun x => o x + b2z (b && (f =? x)).

Lemma less_plus o b f x : less (plus o b f) b f x = o x.
Proof. unfold less, plus. lia. Qed.

(** A space depends on the tables only. *)
Lemma space_tables V V' pgdir D M : tables V' = tables V -> space V pgdir D M -> space V' pgdir D M.
Proof. destruct V, V'. cbn. intros -> [A B C F G H I J]. by split. Qed.

(** Dropping a reference held outside of the space. *)
Lemma put_ok V pgdir D M o f : aspace V pgdir D M o -> 1 <= o f ->
  exists V', put_page V f = Ret V' /\ aspace V' pgdir D M (less o true f) /\ tables V' = tables V /\ flushes V' = flushes V /\
    forall x, fr_byte (frames V') x = fr_byte (frames V) x \/ f <= x < f + PGSIZE /\ count_of D M o f = 1.
Proof.
  intros HA Ho. destruct (count_parts V pgdir D M o f HA) as (_ & ? & ?).
  destruct (fr_put_ok (frames V) _ f (as_frames _ _ _ _ _ HA)) as (s & E & Hok & Hb); [cbv beta; lia|].
  exists (with_frames V s). unfold put_page. rewrite E. cbn. split; [done|]. split; [|done]. split.
  - eapply space_tables; [|apply HA]. done.
  - eapply fr_ok_ext; [|exact Hok]. intros x. cbn. unfold upd, less, b2z. cbn.
    destruct (Z.eqb_spec f x) as [->|]; [rewrite decide_True by done|rewrite decide_False by done]; lia.
  - intros x. unfold less, b2z. cbn. pose proof (as_others _ _ _ _ _ HA x). destruct (Z.eqb_spec f x) as [->|]; lia.
Qed.

(** Taking a fresh page. *)
Lemma take_ok V pgdir D M o zero : aspace V pgdir D M o -> exists p s, fr_alloc (frames V) zero = Ret (p, s) /\
  (p = 0 /\ s = frames V \/
   0 < p /\ is_u64 p /\ p mod PGSIZE = 0 /\ count_of D M o p = 0 /\ aspace (with_frames V s) pgdir D M (plus o true p) /\
   grows V (with_frames V s) D D M o /\ (zero = true -> forall x, p <= x < p + PGSIZE -> fr_byte s x = 0)).
Proof.
  intros HA. destruct (fr_alloc_ok (frames V) _ zero (as_frames _ _ _ _ _ HA)) as (p & s & E & H). exists p, s. split; [done|].
  destruct H as [H|(Hp & Hu & Ha & H0 & Hok & Hb)]; [by left|right]. split_and!; try done; try lia.
  - split.
    + eapply space_tables; [|apply HA]. done.
    + eapply fr_ok_ext; [|exact Hok]. intros x. cbn. unfold upd, plus, b2z. cbn. unfold count_of in H0.
      destruct (Z.eqb_spec p x) as [->|]; [rewrite decide_True by done|rewrite decide_False by done]; lia.
    + intros x. unfold plus, b2z. pose proof (as_others _ _ _ _ _ HA x). destruct (true && (p =? x)); lia.
  - split; [done|done|cbn; lia|done|]. intros f x Hc Hx Hf. cbn. rewrite Hb. rewrite bool_decide_false; [by rewrite andb_false_r|].
    intros Hx'. assert (f = p) as ->; [|unfold count_of in Hc; lia]. unfold PGSIZE in *. Z.div_mod_to_equations. lia.
  - intros -> x Hx. rewrite Hb. by rewrite bool_decide_true.
Qed.

(** Clearing a leaf hands its reference to the caller. *)
Lemma clear_ok V pgdir D M o va a w : aspace V pgdir D M o -> M !! va = Some w -> D !! prefix va 0 = Some a ->
  exists V', pte_store V (a, PTEX 0 va) 0 = Ret V' /\ aspace V' pgdir D (delete va M) (plus o (owned va w) (PTE2PA w)) /\
    elsewhere V V' D /\ flushes V' = flushes V /\ frames V' = frames V.
Proof.
  intros HA HM HD. destruct (map_range V pgdir D M (as_space _ _ _ _ _ HA) va w HM) as (Hva & Ha & _).
  destruct (store_ok V pgdir D M va a 0 (as_space _ _ _ _ _ HA) Hva Ha HD ltac:(done)) as (es & E & HS & HE). eexists. split; [exact E|].
  split; [|done]. change (set_word M va 0) with (delete va M) in HS. split; [done|..].
  - eapply fr_ok_ext; [|exact (as_frames _ _ _ _ _ HA)]. intros f. cbn. change (delete va M) with (set_word M va 0).
    rewrite (refs_clear M va w) by done. unfold plus. lia.
  - intros f. unfold plus, b2z. pose proof (as_others _ _ _ _ _ HA f). destruct (owned va w && _); lia.
Qed.

(** ** Unmapping *)

(** Leaves went away: the tables elsewhere and the contents of the frames still in use are the same. *)
Record shrinks V V' D M' o : Prop := {
  sh_else : elsewhere V V' D;
  sh_flush : flushes V' = flushes V;
  sh_bytes f x : 0 < count_of D M' o f -> f <= x < f + PGSIZE -> f mod PGSIZE = 0 ->
    fr_byte (frames V') x = fr_byte (frames V) x }.

Lemma shrinks_refl V D M o : shrinks V V D M o.
Proof. by split. Qed.

Lemma shrinks_trans V1 V2 V3 D M M' o : M' ⊆ M -> shrinks V1 V2 D M o -> shrinks V2 V3 D M' o -> shrinks V1 V3 D M' o.
Proof.
  intros HM [A1 A2 A3] [B1 B2 B3]. split.
  - intros a Ha. by rewrite B1, A1.
  - congruence.
  - intros f x Hc Hx Hf. rewrite (B3 f x) by done. apply (A3 f); try done.
    pose proof (count_mono D D M' M o f ltac:(done) HM). lia.
Qed.

Lemma PTE2PA_aligned w : PTE2PA w mod PGSIZE = 0.
Proof.
  rewrite PTE2PA_eq. unfold PGSIZE, wrap64. change (2 ^ 64) with (2 ^ 52 * 4096). rewrite Zmult_mod_distr_r.
  apply Z.mod_mul. lia.
Qed.

(** Removing one owned leaf. *)
Lemma drop_leaf V pgdir D M o va a w : aspace V pgdir D M o -> M !! va = Some w -> D !! prefix va 0 = Some a -> owned va w = true ->
  exists V1 V', pte_store V (a, PTEX 0 va) 0 = Ret V1 /\ put_page V1 (PTE2PA w) = Ret V' /\
    aspace V' pgdir D (delete va M) o /\ shrinks V V' D (delete va M) o.
Proof.
  intros HA HM HD Ho. destruct (clear_ok V pgdir D M o va a w HA HM HD) as (V1 & E1 & HA1 & HE & HF & HB). rewrite Ho in HA1.
  set (f := PTE2PA w) in *. assert (Hc : plus o true f f = o f + 1) by (unfold plus; by rewrite Z.eqb_refl).
  destruct (put_ok V1 pgdir D _ _ f HA1) as (V' & E2 & HA2 & HT & HF2 & Hb); [rewrite Hc; pose proof (as_others _ _ _ _ _ HA f); lia|].
  exists V1, V'. split_and!; try done; [eapply aspace_ext; [|exact HA2]; intros x; apply less_plus|]. split.
  - intros b Hb'. rewrite HT. by apply HE.
  - congruence.
  - intros g x Hg Hx Hga. destruct (Hb x) as [->|[Hx' H1]]; [by rewrite HB|]. exfalso.
    pose proof (PTE2PA_aligned w). assert (g = f) as ->; [fold f in H; unfold PGSIZE in *; Z.div_mod_to_equations; lia|].
    unfold count_of in *. lia.
Qed.
End map.
