(* ===== verification/VmAlloc.v ===== *)
(** * Ranges of pages

    The loops over ranges: [vm_unmap_range] removes exactly the leaves of a
    range, and [vm_alloc_user_range] maps fresh zeroed pages over a whole range
    or leaves the space as it was. *)
From S2P Require Import Prelude Vma Vm VmSpace VmMap.

(** ** The addresses of a range *)

Lemma elem_of_page_range a e va : va ∈ page_range a e <-> a <= va < e /\ (va - a) mod PGSIZE = 0.
Proof.
  unfold page_range, PGSIZE. rewrite list_elem_of_fmap. split.
  - intros (i & -> & Hi%elem_of_seq). split; [|replace (a + Z.of_nat i * 4096 - a) with (Z.of_nat i * 4096) by lia; apply Z.mod_mul; lia].
    Z.div_mod_to_equations. lia.
  - intros [Hr Hm]. exists (Z.to_nat ((va - a) / 4096)). rewrite elem_of_seq. Z.div_mod_to_equations. lia.
Qed.

Lemma NoDup_page_range a e : NoDup (page_range a e).
Proof. apply NoDup_fmap_2; [|apply NoDup_seq]. intros i j. unfold PGSIZE. lia. Qed.

Lemma page_range_split a e l1 va l2 k : page_range a e = l1 ++ va :: l2 -> k ∈ page_range a e -> k ∈ l1 <-> k < va.
Proof.
  intros E. assert (HL : forall i x, page_range a e !! i = Some x -> x = a + Z.of_nat i * PGSIZE).
  { intros i x. unfold page_range. rewrite list_lookup_fmap, fmap_Some. intros (j & [-> _]%lookup_seq & ->). lia. }
  assert (Hva : va = a + Z.of_nat (length l1) * PGSIZE) by (apply HL; rewrite E; by apply list_lookup_middle).
  intros Hk. unfold PGSIZE in *. split.
  - intros [i Hi]%list_elem_of_lookup_1. pose proof (lookup_lt_Some _ _ _ Hi).
    rewrite (HL i k) by (rewrite E; by apply lookup_app_l_Some). lia.
  - intros Hlt. destruct (list_elem_of_lookup_1 _ _ Hk) as [i Hi]. pose proof (HL i k Hi). rewrite E in Hi.
    rewrite lookup_app_l in Hi by lia. by eapply list_elem_of_lookup_2.
Qed.

(** A user page address. *)
Definition page_va (va : Z) : Prop := 0 <= va < MAXVA /\ va mod PGSIZE = 0.

Lemma page_range_va a e : 0 <= a -> a mod PGSIZE = 0 -> e <= MAXVA -> Forall page_va (page_range a e).
Proof.
  intros Ha Hm He. apply Forall_forall. intros va [Hr Hv]%elem_of_page_range. split; [lia|].
  replace va with (va - a + a) by lia. rewrite <-Z.add_mod_idemp_l, Hv by (unfold PGSIZE; lia). done.
Qed.

Section alloc.
  Context {St : Type} {FS : Frames St} {FL : FramesLaws St}.
  Implicit Types (V : vm St) (D : gmap (list nat) Z) (M : gmap Z Z) (pgdir va a w : Z) (o : Z -> Z).

(** ** Unmapping a range *)

(** [M] without the pages of [l]. *)
Definition drop_pages (l : list Z) M : gmap Z Z := filter (fun kv => kv.1 ∉ l) M.

Lemma drop_pages_cons va l M : drop_pages l (delete va M) = drop_pages (va :: l) M.
Proof.
  unfold drop_pages. apply map_eq. intros k. apply option_eq. intros w.
  rewrite !map_lookup_filter_Some, lookup_delete_Some, not_elem_of_cons. cbn. naive_solver.
Qed.
Lemma drop_pages_none va l M : M !! va = None -> drop_pages (va :: l) M = drop_pages l M.
Proof. intros HM. rewrite <-drop_pages_cons. by rewrite delete_id. Qed.

Lemma unmap_range_loop_ok l V pgdir D M o : aspace V pgdir D M o -> Forall page_va l ->
  (forall va w, va ∈ l -> M !! va = Some w -> owned va w = true) ->
  exists V', unmap_range_loop l V pgdir = Ret V' /\ aspace V' pgdir D (drop_pages l M) o /\ shrinks V V' D (drop_pages l M) o.
Proof.
  revert V M. induction l as [|va l IH]; intros V M HA Hl Ho.
  { exists V. cbn. unfold drop_pages. rewrite map_filter_id by (intros; apply not_elem_of_nil). split_and!; try done. }
  inversion Hl as [|? ? [Hva Ha] Hl']; subst. cbn [unmap_range_loop]. pose proof (as_space _ _ _ _ _ HA) as HS.
  assert (Hsub : forall va w, va ∈ l -> M !! va = Some w -> owned va w = true) by (intros; eapply Ho; [by right|done]).
  rewrite (PTE_find V pgdir D M HS) by done. cbn [mbind outcome_bind].
  destruct (D !! prefix va 0) as [a|] eqn:HD;
    [|rewrite drop_pages_none by (by eapply (unmapped_None V pgdir D)); by apply IH].
  destruct (leaf_lookup V pgdir D M HS va a Hva Ha HD) as (w & -> & HW). cbn [mbind outcome_bind].
  destruct (has_bits w PTE_V); cbn [negb orb]; [|rewrite drop_pages_none by done; by apply IH].
  destruct HW as (HM & -> & Hu). cbn [negb].
  destruct (drop_leaf V pgdir D M o va a w HA HM HD ltac:(by eapply Ho; [left|])) as (V1 & V2 & -> & E & HA2 & HSh).
  cbn [mbind outcome_bind]. rewrite E. cbn [mbind outcome_bind].
  destruct (IH V2 (delete va M) HA2 Hl') as (V' & E' & HA' & HSh').
  { intros vb w' Hin [_ HM']%lookup_delete_Some. by eapply Hsub. }
  rewrite drop_pages_cons in *. exists V'. split_and!; try done.
  eapply shrinks_trans; [|done|done]. rewrite <-drop_pages_cons. apply map_filter_subseteq.
Qed.

(** [M] without the pages that meet [va, va + size). *)
Definition drop_range (va size : Z) M : gmap Z Z := filter (fun kv => ~ (PGROUNDDOWN va <= kv.1 < va + size)) M.

Lemma drop_range_pages V pgdir D M va size : space V pgdir D M -> 0 <= va -> 0 < size -> va + size <= MAXVA ->
  drop_pages (page_range (PGROUNDDOWN va) (PGROUNDUP (va +64 size))) M = drop_range va size M.
Proof.
  intros HS H0 H1 H2. unfold drop_pages, drop_range. apply map_eq. intros k. apply option_eq. intros w.
  rewrite !map_lookup_filter_Some. cbn. split; intros [HM HN]; (split; [done|]); contradict HN;
    destruct (map_range V pgdir D M HS k w HM) as (Hk & Hm & _); revert HN; rewrite elem_of_page_range;
    change MAXVA with (2 ^ 38) in *; rewrite wrap64_id by (unfold is_u64; lia);
    rewrite PGROUNDUP_mod, PGROUNDDOWN_mod by (unfold PGSIZE; lia); unfold PGSIZE in *; Z.div_mod_to_equations; lia.
Qed.

Lemma vm_unmap_range_ok V pgdir D M o va size : aspace V pgdir D M o -> 0 <= va -> 0 < size -> va + size <= MAXVA ->
  (forall k w, PGROUNDDOWN va <= k < va + size -> M !! k = Some w -> owned k w = true) ->
  exists V', vm_unmap_range V pgdir va size = Ret (cpu_tlb_flush_all V') /\
    aspace V' pgdir D (drop_range va size M) o /\ shrinks V V' D (drop_range va size M) o.
Proof.
  intros HA H0 H1 H2 Ho. unfold vm_unmap_range. unfold truth at 1. rewrite (proj2 (Z.eqb_neq size 0)) by lia. cbn [negb].
  assert (HU : PGROUNDUP (va +64 size) <= MAXVA /\ va + size <= PGROUNDUP (va +64 size) < va + size + PGSIZE).
  { change MAXVA with (2 ^ 38) in *. rewrite wrap64_id by (unfold is_u64; lia). rewrite PGROUNDUP_mod by (unfold PGSIZE; lia).
    unfold PGSIZE. Z.div_mod_to_equations. lia. }
  assert (HL : 0 <= PGROUNDDOWN va <= va /\ PGROUNDDOWN va mod PGSIZE = 0).
  { rewrite PGROUNDDOWN_mod. unfold PGSIZE. Z.div_mod_to_equations. lia. }
  destruct (unmap_range_loop_ok (page_range (PGROUNDDOWN va) (PGROUNDUP (va +64 size))) V pgdir D M o HA) as (V' & E & HA' & HSh).
  - apply page_range_va; lia.
  - intros k w [Hk Hm]%elem_of_page_range HM. eapply Ho; [|done].
    destruct (map_range V pgdir D M (as_space _ _ _ _ _ HA) k w HM) as (_ & Hm' & _). split; [lia|].
    change MAXVA with (2 ^ 38) in *. rewrite wrap64_id in Hk by (unfold is_u64; lia).
    rewrite PGROUNDUP_mod in Hk by (unfold PGSIZE; lia). unfold PGSIZE in *. Z.div_mod_to_equations. lia.
  - rewrite E. cbn [mbind outcome_bind]. rewrite (drop_range_pages V pgdir D) in HA', HSh by (try apply HA; lia). by exists V'.
Qed.

(** ** Mapping fresh pages *)

Lemma vm_mapped_ok V pgdir D M va : space V pgdir D M -> page_va va -> vm_mapped V pgdir va = Ret (bool_decide (is_Some (M !! va))).
Proof.
  intros HS [Hva Ha]. unfold vm_mapped. rewrite (PTE_find V pgdir D M HS) by done. cbn [mbind outcome_bind].
  destruct (D !! prefix va 0) as [a|] eqn:HD.
  - destruct (leaf_lookup V pgdir D M HS va a Hva Ha HD) as (w & -> & HW). cbn [mbind outcome_bind].
    destruct (has_bits w PTE_V); [destruct HW as (-> & -> & _)|rewrite HW]; [by rewrite bool_decide_true by eauto|].
    by rewrite bool_decide_false by (intros [? ?]; done).
  - rewrite (unmapped_None V pgdir D M HS va HD). by rewrite bool_decide_false by (intros [? ?]; done).
Qed.

Lemma any_mapped_ok l V pgdir D M : space V pgdir D M -> Forall page_va l ->
  any_mapped l V pgdir = Ret (bool_decide (Exists (fun va => is_Some (M !! va)) l)).
Proof.
  intros HS. induction 1 as [|va l Hva Hl IH]; cbn [any_mapped].
  { by rewrite bool_decide_false by (by intros ?%Exists_nil). }
  rewrite (vm_mapped_ok V pgdir D M va HS Hva). cbn [mbind outcome_bind]. destruct (bool_decide_reflect (is_Some (M !! va))) as [HI|HI].
  - by rewrite bool_decide_true by (by left).
  - rewrite IH. f_equal. apply bool_decide_ext. rewrite Exists_cons. naive_solver.
Qed.

(** The entry flags of a fresh user page. *)
Definition user_flags (perm : Z) : Z := Z.lor PTE_V (Z.lor perm PTE_SW_USER).

(** [va] is mapped to a frame unused before, with no other reference and only zero bytes. *)
Definition fresh_page V D' M' D M o (flags va : Z) : Prop := exists p, M' !! va = Some (entry_of p flags) /\
  0 < p /\ p mod PGSIZE = 0 /\ is_u64 p /\ count_of D M o p = 0 /\ count_of D' M' o p = 1 /\
  forall x, p <= x < p + PGSIZE -> fr_byte (frames V) x = 0.

(** [M'] is [M] with fresh pages at the addresses of [l]. *)
Record populated V D' M' D M o flags (l : list Z) : Prop := {
  po_old : M ⊆ M';
  po_dom va : is_Some (M' !! va) -> is_Some (M !! va) \/ va ∈ l;
  po_refs f : 0 < count_of D M o f -> refs M' f = refs M f;
  po_new : Forall (fresh_page V D' M' D M o flags) l }.

Lemma map_subset_insert (M : gmap Z Z) k w : M !! k = None -> M ⊆ <[k := w]> M.
Proof. apply insert_subseteq. Qed.

Section loop.
  Context pgdir o (perm : Z) (Hperm : 0 <= perm < 1024) (HRWX : has_bits perm PTE_RWX = true).

Lemma user_flags_facts : 0 <= Z.lor perm PTE_SW_USER < 1024 /\ has_bits (Z.lor perm PTE_SW_USER) PTE_RWX = true /\
  0 <= user_flags perm < 1024.
Proof.
  assert (0 <= Z.lor perm PTE_SW_USER < 1024) by (apply flags_bound; [done|flag_bound]).
  split_and!; try lia; [by rewrite has_bits_lor, HRWX|apply flags_bound; [flag_bound|done]..].
Qed.

Lemma user_owned va p : va <> USER_SIGRETURN -> owned va (entry_of p (user_flags perm)) = true.
Proof.
  intros Hva. unfold owned. rewrite (proj2 (Z.eqb_neq va _)) by done. rewrite has_bits_entry by (try apply user_flags_facts; flag_bound). unfold user_flags.
  rewrite !has_bits_lor. change (has_bits PTE_SW_USER (Z.lor PTE_U PTE_SW_USER)) with true. by rewrite !orb_true_r.
Qed.

(** One round of the loop: a fresh page is mapped, or nothing changes but the tree. *)
Lemma alloc_round V D M va : aspace V pgdir D M o -> page_va va -> va <> USER_SIGRETURN -> M !! va = None ->
  let round (K : vm St -> outcome (option Z * vm St)) :=
    '(page, s) ← fr_alloc (frames V) true;
    let V := with_frames V s in
    if negb (truth page) then Ret (Some va, V) else
    '(rc, V) ← vm_map V pgdir va page PGSIZE (Z.lor perm PTE_SW_USER);
    if rc <? 0 then V ← put_page V page; Ret (Some va, V) else K V in
  exists V' D', grows V V' D D' M o /\
    ((forall K, round K = Ret (Some va, V')) /\ aspace V' pgdir D' M o \/
     exists p, (forall K, round K = K V') /\ aspace V' pgdir D' (<[va := entry_of p (user_flags perm)]> M) o /\
       0 < p /\ is_u64 p /\ p mod PGSIZE = 0 /\ count_of D M o p = 0 /\
       count_of D' (<[va := entry_of p (user_flags perm)]> M) o p = 1 /\ forall x, p <= x < p + PGSIZE -> fr_byte (frames V') x = 0).
Proof.
  intros HA [Hva Ha] Hsig HM. cbv zeta. destruct user_flags_facts as (F1 & F2 & F3).
  destruct (take_ok V pgdir D M o true HA) as (p & s & -> & [[-> ->]|(Hp & Hu & Hpa & H0 & HA1 & HG1 & Hz)]).
  { exists V, D. split; [apply grows_refl|]. left. split; [|done]. intros K. cbn. by rewrite with_same. }
  assert (HT : truth p = true) by (unfold truth; rewrite (proj2 (Z.eqb_neq p 0)); [done|lia]).
  assert (Hop : plus o true p p = o p + 1) by (unfold plus; by rewrite Z.eqb_refl).
  assert (H1 : forall D' , D ⊆ D' -> 0 < count_of D' M (plus o true p) p).
  { intros D' HD. pose proof (tabs_mono D D' p HD). unfold count_of in *. lia. }
  destruct (map_page_ok _ pgdir D M _ va p _ HA1 Hva Ha HM Hu Hpa F1 F2) as (V2 & D2 & rc & E & HG2 & HC).
  { intros _. rewrite Hop. pose proof (as_others _ _ _ _ _ HA p). lia. }
  cbn [mbind outcome_bind]. rewrite HT. cbn [negb]. rewrite E. fold (user_flags perm) in HC.
  assert (HG : grows V V2 D D2 M o).
  { assert (HC1 : forall f, 0 < count_of D M o f -> 0 < count_of D M (plus o true p) f).
    { intros f Hc. unfold count_of, plus, b2z in *. destruct (true && (p =? f)); lia. }
    destruct HG2 as [A1 A2 A3 A5 A4]. eapply grows_trans; [exact HG1|]. split; eauto. }
  destruct HC as [[-> HA2]|[-> HA2]].
  - destruct (put_ok V2 pgdir D2 M _ p HA2) as (V3 & E3 & HA3 & HT3 & HF3 & Hb); [pose proof (as_others _ _ _ _ _ HA p); lia|].
    exists V3, D2. split.
    + destruct HG as [A1 A2 A3 A5 A4]. split; try done; [intros b Hb'; rewrite HT3; by apply A2|lia|].
      intros f x Hc Hx Hf. destruct (Hb x) as [->|[Hx' _]]; [by apply (A4 f)|]. exfalso.
      assert (f = p) as ->; [|lia]. unfold PGSIZE in *. Z.div_mod_to_equations. lia.
    + left. split; [intros K; cbn; by rewrite E3|]. eapply aspace_ext; [|exact HA3]. intros x. apply less_plus.
  - rewrite user_owned in HA2 by done. exists V2, D2. split; [done|]. right. exists p. split_and!; try done.
    + eapply aspace_ext; [|exact HA2]. intros x. apply less_plus.
    + destruct (count_parts V pgdir D M o p HA) as (? & ? & ?). unfold count_of in H0 |- *.
      rewrite (gr_tabs _ _ _ _ _ _ HG2) by (by apply H1). unfold refs at 1.
      rewrite (tally_insert (fun va w => owned va w && (PTE2PA w =? p))) by done.
      rewrite user_owned, PTE2PA_entry, Z.eqb_refl by done. fold (refs M p). cbn. lia.
    + intros x Hx. destruct HG2 as [A1 A2 A3 A5 A4]. rewrite (A4 p x); [by apply Hz|by apply H1|done|done].
Qed.

Lemma populated_nil V D' D M flags : populated V D' M D M o flags [].
Proof. split; try done. by left. Qed.

Lemma populated_cons V1 V' D1 D' M M' D va p l : aspace V1 pgdir D1 (<[va := entry_of p (user_flags perm)]> M) o ->
  aspace V' pgdir D' M' o -> D ⊆ D1 -> M !! va = None -> 0 < p -> is_u64 p -> p mod PGSIZE = 0 -> count_of D M o p = 0 ->
  count_of D1 (<[va := entry_of p (user_flags perm)]> M) o p = 1 ->
  (forall x, p <= x < p + PGSIZE -> fr_byte (frames V1) x = 0) ->
  grows V1 V' D1 D' (<[va := entry_of p (user_flags perm)]> M) o ->
  populated V' D' M' D1 (<[va := entry_of p (user_flags perm)]> M) o (user_flags perm) l ->
  populated V' D' M' D M o (user_flags perm) (va :: l).
Proof.
  intros HA1 HA' HD HM Hp Hu Ha H0 H1 Hz HG [P1 P2 P3 P4]. destruct user_flags_facts as (F1 & F2 & F3).
  set (M1 := <[va := entry_of p (user_flags perm)]> M) in *.
  assert (HM1 : M ⊆ M1) by (by apply map_subset_insert).
  assert (Hp1 : 0 < count_of D1 M1 o p) by lia. split.
  - by etrans.
  - intros k Hk. destruct (P2 k Hk) as [H|H]; [|right; by right]. apply lookup_insert_is_Some' in H as [<-|H]; [right; by left|by left].
  - intros f Hc. rewrite P3 by (pose proof (count_mono D D1 M M1 o f HD HM1); lia).
    unfold refs at 1, M1. rewrite (tally_insert (fun va w => owned va w && (PTE2PA w =? f))) by done.
    rewrite PTE2PA_entry by done. fold (refs M f). destruct (Z.eqb_spec p f) as [->|]; [lia|]. rewrite andb_false_r. cbn. lia.
  - constructor.
    + exists p. split_and!; try done; try lia.
      * eapply lookup_weaken; [|exact P1]. apply lookup_insert_eq.
      * rewrite <-H1. unfold count_of. rewrite P3 by done. by rewrite (gr_tabs _ _ _ _ _ _ HG).
      * intros x Hx. rewrite (gr_bytes _ _ _ _ _ _ HG p x) by done. by apply Hz.
    + eapply Forall_impl; [exact P4|]. intros k (q & Q1 & Q2 & Q3 & Q4 & Q5 & Q6 & Q7). exists q. split_and!; try done.
      pose proof (count_mono D D1 M M1 o q HD HM1). pose proof (count_mono D1 D' M1 M' o q (gr_sub _ _ _ _ _ _ HG) P1).
      assert (0 <= count_of D M o q); [|lia]. unfold count_of.
      pose proof (as_others _ _ _ _ _ HA1 q). pose proof (tally_nonneg (fun _ a => a =? q) D).
      pose proof (tally_nonneg (fun va w => owned va w && (PTE2PA w =? q)) M). unfold refs, tabs. lia.
Qed.

(** The loop maps fresh pages at the addresses of a prefix of the list, all of it unless memory runs out. *)
Lemma alloc_user_loop_ok l V D M : aspace V pgdir D M o -> NoDup l -> Forall page_va l ->
  (forall va, va ∈ l -> va <> USER_SIGRETURN /\ M !! va = None) ->
  exists V' D' M' l1 l2, l = l1 ++ l2 /\ alloc_user_loop l V pgdir perm = Ret (head l2, V') /\ aspace V' pgdir D' M' o /\
    grows V V' D D' M o /\ populated V' D' M' D M o (user_flags perm) l1.
Proof.
  revert V D M. induction l as [|va l IH]; intros V D M HA Hnd Hl HN.
  { exists V, D, M, [], []. split_and!; try done; apply populated_nil. }
  apply NoDup_cons in Hnd as [Hni Hnd]. inversion Hl as [|? ? Hva Hl']; subst.
  destruct (HN va) as [Hsig HM]; [by left|].
  destruct (alloc_round V D M va HA Hva Hsig HM) as (V1 & D1 & HG1 & [[E HA1]|(p & E & HA1 & Hp & Hu & Ha & H0 & H1 & Hz)]).
  - exists V1, D1, M, [], (va :: l). split_and!; try done; [exact (E (fun V => alloc_user_loop l V pgdir perm))|apply populated_nil].
  - destruct (IH V1 D1 _ HA1 Hnd Hl') as (V' & D' & M' & l1 & l2 & -> & E' & HA' & HG' & HP).
    { intros k Hk. destruct (HN k) as [? ?]; [by right|]. rewrite lookup_insert_ne by (intros ->; done). done. }
    exists V', D', M', (va :: l1), l2. split_and!; try done.
    + rewrite <-E'. exact (E (fun V => alloc_user_loop (l1 ++ l2) V pgdir perm)).
    + eapply grows_trans_sub; [|exact HG1|exact HG']. by apply map_subset_insert.
    + eapply populated_cons; try done. apply HG1.
Qed.
End loop.

(** Dropping the fresh pages gives the old map back. *)
Lemma drop_populated V D' M' D M o flags start end_ l1 va l2 pgdir :
  space V pgdir D' M' -> 0 <= start -> start mod PGSIZE = 0 -> page_range start end_ = l1 ++ va :: l2 ->
  (forall k, k ∈ page_range start end_ -> M !! k = None) -> populated V D' M' D M o flags l1 ->
  drop_range start (va - start) M' = M.
Proof.
  intros HS H0 Ha E HN [P1 P2 _ _]. unfold drop_range.
  assert (Hva : va ∈ page_range start end_) by (rewrite E; apply elem_of_app; right; by left).
  pose proof (proj1 (elem_of_page_range _ _ _) Hva) as [Hv1 Hv2].
  assert (Hr : PGROUNDDOWN start = start) by (rewrite PGROUNDDOWN_mod; unfold PGSIZE in *; Z.div_mod_to_equations; lia).
  apply map_eq. intros k. apply option_eq. intros w. rewrite map_lookup_filter_Some, Hr. cbn. split.
  - intros [HM Hk]. destruct (P2 k ltac:(eauto)) as [[w' Hw]|Hin].
    + rewrite Hw, <-HM. symmetry. by eapply lookup_weaken.
    + exfalso. assert (Hkr : k ∈ page_range start end_) by (rewrite E; apply elem_of_app; by left).
      apply (page_range_split start end_ l1 va l2 k E Hkr) in Hin. apply elem_of_page_range in Hkr. lia.
  - intros HM. pose proof (lookup_weaken M M' k w HM P1) as HM'. split; [done|]. intros Hk.
    destruct (map_range V pgdir D' M' HS k w HM') as (_ & Hm & _).
    rewrite HN in HM; [done|]. apply elem_of_page_range. unfold PGSIZE in *. Z.div_mod_to_equations. lia.
Qed.

Lemma grow_shrink V V1 V2 D D' M o : grows V V1 D D' M o -> shrinks V1 V2 D' M o -> grows V (cpu_tlb_flush_all V2) D D' M o.
Proof.
  intros [A1 A2 A3 A4 A5] [B1 B2 B3]. split; try done.
  - intros a Ha. cbn. by rewrite B1, A2.
  - cbn. lia.
  - intros f x Hc Hx Hf. cbn. rewrite (B3 f x); [by apply (A5 f)| |done|done].
    pose proof (count_mono D D' M M o f A1 ltac:(done)). lia.
Qed.

Lemma grow_flush V V1 D D' M o : grows V V1 D D' M o -> grows V (cpu_tlb_flush_all V1) D D' M o.
Proof. intros H. eapply grow_shrink; [exact H|apply shrinks_refl]. Qed.

(** What the arguments of [vm_alloc_user_range] must satisfy. *)
Definition alloc_args (start end_ perm : Z) : bool :=
  negb ((end_ <? start) || truth (start mod PGSIZE) || truth (end_ mod PGSIZE) || (MAXVA <? end_) || bad_permissions perm).

Lemma alloc_args_facts start end_ perm : alloc_args start end_ perm = true ->
  start <= end_ <= MAXVA /\ start mod PGSIZE = 0 /\ end_ mod PGSIZE = 0 /\ has_bits perm PTE_RWX = true /\
  bad_permissions perm = false.
Proof.
  unfold alloc_args, bad_permissions, truth.
  destruct (Z.ltb_spec end_ start), (Z.eqb_spec (start mod PGSIZE) 0), (Z.eqb_spec (end_ mod PGSIZE) 0), (Z.ltb_spec MAXVA end_),
    (has_bits perm PTE_RWX); cbn; try done. intros ->%negb_true_iff. lia.
Qed.

(** The pages after the failing one are unmapped and the ones before it are given back. *)
Lemma alloc_undo V V1 pgdir D1 M1 D M o perm start end_ l1 va l2 :
  0 <= perm < 1024 -> has_bits perm PTE_RWX = true -> end_ <= USER_SIGRETURN -> aspace V1 pgdir D1 M1 o -> 0 <= start -> start mod PGSIZE = 0 ->
  end_ <= MAXVA -> page_range start end_ = l1 ++ va :: l2 -> (forall k, k ∈ page_range start end_ -> M !! k = None) ->
  populated V1 D1 M1 D M o (user_flags perm) l1 -> grows V V1 D D1 M o ->
  exists V', vm_unmap_range V1 pgdir start (va - start) = Ret V' /\ aspace V' pgdir D1 M o /\ grows V V' D D1 M o.
Proof.
  intros Hp HR Hsig HA H0 Ha He E HN HP HG.
  assert (Hva : va ∈ page_range start end_) by (rewrite E; apply elem_of_app; right; by left).
  pose proof (proj1 (elem_of_page_range _ _ _) Hva) as [Hv1 Hv2].
  destruct (decide (va = start)) as [->|Hne].
  - exists V1. unfold vm_unmap_range. rewrite Z.sub_diag. cbn. split; [done|].
    assert (M1 = M) as ->; [|done]. destruct HP as [P1 P2 _ _]. symmetry. apply map_eq. intros k. apply option_eq. intros w.
    split; [intros; by eapply lookup_weaken|]. intros HM. destruct (P2 k ltac:(eauto)) as [[w' Hw]|Hin].
    + rewrite Hw. rewrite <-HM. symmetry. by eapply lookup_weaken.
    + exfalso. assert (Hkr : k ∈ page_range start end_) by (rewrite E; apply elem_of_app; by left).
      apply (page_range_split start end_ l1 start l2 k E Hkr) in Hin. apply elem_of_page_range in Hkr. lia.
  - destruct (vm_unmap_range_ok V1 pgdir D1 M1 o start (va - start) HA) as (V' & E' & HA' & HSh); [lia..| |].
    + intros k w Hk HM. destruct (po_dom _ _ _ _ _ _ _ _ HP k ltac:(eauto)) as [[w' Hw]|Hin].
      * exfalso. rewrite HN in Hw; [done|]. destruct (map_range V1 pgdir D1 M1 (as_space _ _ _ _ _ HA) k w HM) as (_ & Hm & _).
        apply elem_of_page_range. rewrite PGROUNDDOWN_mod in Hk. unfold PGSIZE in *. Z.div_mod_to_equations. lia.
      * pose proof (proj1 (Forall_forall _ _) (po_new _ _ _ _ _ _ _ _ HP) k Hin) as (p & Hpk & _).
        rewrite HM in Hpk. apply (inj Some) in Hpk as ->. apply user_owned; [done|done|lia].
    + rewrite (drop_populated V1 D1 M1 D M o (user_flags perm) start end_ l1 va l2 pgdir) in HA', HSh by (try apply HA; done).
      eexists. split; [exact E'|]. split; [|by eapply grow_shrink].
      destruct HA' as [A B C]. split; [|done|done]. by eapply space_tables; [|exact A].
Qed.

Lemma vm_alloc_user_range_ok V pgdir D M o start end_ perm : aspace V pgdir D M o -> 0 <= start -> end_ <= USER_SIGRETURN ->
  0 <= perm < 1024 -> exists rc V' D', vm_alloc_user_range V pgdir start end_ perm = Ret (rc, V') /\ grows V V' D D' M o /\
    (rc = -1 /\ aspace V' pgdir D' M o \/
     rc = 0 /\ alloc_args start end_ perm = true /\ (forall k, k ∈ page_range start end_ -> M !! k = None) /\
     exists M', aspace V' pgdir D' M' o /\ populated V' D' M' D M o (user_flags perm) (page_range start end_)).
Proof.
  intros HA H0 Hsig Hperm. unfold vm_alloc_user_range. destruct (alloc_args start end_ perm) eqn:HR; cycle 1.
  { exists (-1), V, D. split; [|split; [apply grows_refl|by left]]. unfold alloc_args in HR. apply negb_false_iff in HR.
    destruct (_ || (MAXVA <? end_)); [done|]. cbn [orb] in HR. by rewrite HR. }
  destruct (alloc_args_facts start end_ perm HR) as (Hr & Ha & He & HRWX & Hbad). pose proof HR as HR'.
  unfold alloc_args in HR'. rewrite Hbad, orb_false_r in HR'. apply negb_true_iff in HR' as ->. rewrite Hbad.
  assert (HF : Forall page_va (page_range start end_)) by (apply page_range_va; [lia|done|lia]).
  rewrite (any_mapped_ok _ V pgdir D M (as_space _ _ _ _ _ HA) HF). cbn [mbind outcome_bind].
  destruct (bool_decide_reflect (Exists (fun va => is_Some (M !! va)) (page_range start end_))) as [HE|HE].
  { exists (-1), V, D. split; [done|]. split; [apply grows_refl|by left]. }
  assert (HN : forall k, k ∈ page_range start end_ -> M !! k = None).
  { intros k Hk. destruct (M !! k) eqn:EM; [|done]. destruct HE. apply Exists_exists. exists k. eauto. }
  destruct (alloc_user_loop_ok pgdir o perm Hperm HRWX _ V D M HA (NoDup_page_range _ _) HF)
    as (V1 & D1 & M1 & l1 & l2 & El & E1 & HA1 & HG1 & HP).
  { intros k Hk. split; [|by apply HN]. apply elem_of_page_range in Hk. lia. }
  rewrite E1. cbn [mbind outcome_bind].
  destruct l2 as [|va l2]; cbn [head].
  - rewrite app_nil_r in El. subst l1. exists 0, V1, D1. split; [done|]. split; [done|]. right. eauto 10.
  - destruct (alloc_undo V V1 pgdir D1 M1 D M o perm start end_ l1 va l2) as (V2 & -> & HA2 & HG2); try done; try lia.
    exists (-1), V2, D1. split; [done|]. split; [done|by left].
Qed.
End alloc.
