(* ===== verification/VmFrames.v ===== *)
(** * The page allocator under the page tables

    kernel/palloc.c provides the page frames of arch/riscv/vm.c: the instance of
    [Frames] and the proof of its laws. *)
From S2P Require Import Prelude MemRange Buddy BuddyBlocks BuddyCorrect BuddyOps PageAlloc Vma Vm VmSpace.

#[export] Instance pages_frames (poison : bool) : Frames pages := {
  fr_alloc P zero := if zero : bool then palloc_zero P else alloc_pages P 0 0;
  fr_put := pfree poison;
  fr_get := palloc_get;
  fr_count := palloc_refcount;
  fr_byte := mem;
  fr_write P a l := with_mem P (fun x => default (mem P x) (if decide (a <= x) then l !! Z.to_nat (x - a) else None)) }.

Lemma pages_inv_ext P g g' : (forall a, g a = g' a) -> pages_inv P g -> pages_inv P g'.
Proof.
  intros E [A B C D F]. split; try done.
  - intros i r a Hi Ha Hm. rewrite <-E. by eapply C.
  - intros a. by rewrite <-E.
  - intros a. by rewrite <-E.
Qed.

Lemma pages_alloc_ok poison P g zero : pages_inv P g -> exists p P', @fr_alloc _ (pages_frames poison) P zero = Ret (p, P') /\
  (p = 0 /\ P' = P \/
   0 < p /\ is_u64 p /\ p mod PGSIZE = 0 /\ g p = 0 /\ pages_inv P' (upd g p 1) /\
   shapes (page_allocator P') = shapes (page_allocator P) /\
   forall x, mem P' x = if zero && bool_decide (p <= x < p + PGSIZE) then 0 else mem P x).
Proof.
  intros HP. set (fl := if zero : bool then PALLOC_ZERO else 0).
  assert (E : @fr_alloc _ (pages_frames poison) P zero = alloc_pages P 0 fl) by (by destruct zero). rewrite E.
  destruct (alloc_pages_spec P g 0 fl HP) as [[-> _]|(p & P' & -> & Ha)]; [destruct zero; auto|exists 0, P; auto|].
  exists p, P'. split; [done|]. right. destruct Ha as [Hpos HP' Hsh (s & Hs & Hf) Hap _ _ Hm].
  destruct (pi_buddy _ _ HP) as [B HI]. destruct (list_elem_of_lookup_1 _ _ Hs) as [i Hi].
  pose proof (shape_ok _ _ _ _ _ _ HI Hi) as (_ & _ & ?). pose proof Hf as (_ & _ & Hal & ?).
  change (buddy_order_size 0) with PGSIZE in *. split; [done|]. split; [unfold is_u64, PGSIZE in *; lia|].
  split; [by eapply aligned_page|]. split_and!.
  - destruct (decide (g p = 0)) as [|Hg]; [done|]. exfalso.
    apply (pi_alloc _ _ HP), Hap in Hg. unfold apart in Hg. pose proof (size_pos 0). lia.
  - done.
  - done.
  - intros x. rewrite Hm. subst fl. destruct zero; cbn [andb]; [|done]. change (PALLOC_ZERO =? PALLOC_ZERO) with true. cbn iota. unfold fill.
    destruct (Z.leb_spec p x), (Z.ltb_spec x (p + PGSIZE)); cbn [andb]; case_bool_decide; done || lia.
Qed.

Lemma pages_addr_ok P g p : pages_inv P g -> g p <> 0 -> 0 < p /\ p + PGSIZE < 2 ^ 64 /\ p mod PGSIZE = 0.
Proof.
  intros HP Hg%(pi_alloc _ _ HP). destruct (pi_buddy _ _ HP) as [B HI]. apply (is_allocated_iff _ _ _ _ HI) in Hg.
  destruct (block_region _ _ _ _ _ _ _ HI Hg) as (i & s & Hi & Hf).
  pose proof (shape_ok _ _ _ _ _ _ HI Hi) as (? & ? & ?). pose proof Hf as (_ & ? & Hal & ?).
  change (buddy_order_size 0) with PGSIZE in *. split; [lia|]. split; [lia|]. by eapply aligned_page.
Qed.

(** Pages outside of the managed regions. *)
Definition unmanaged (res : Z -> Prop) (P : pages) : Prop :=
  forall x s, res x -> s ∈ shapes (page_allocator P) -> ~ s_start s <= x < s_end s.

Lemma unmanaged_shapes res P P' : shapes (page_allocator P') = shapes (page_allocator P) -> unmanaged res P -> unmanaged res P'.
Proof. intros E H x s Hx Hs. apply (H x s Hx). by rewrite <-E. Qed.

Lemma unmanaged_not P g res x : pages_inv P g -> unmanaged res P -> res x -> ~ managed P x.
Proof.
  intros HP HR Hx [(i & r & Hi & Hr) _].
  assert (Hb : (ref_bounds <$> page_ref_regions P) !! i = Some (pr_start r, pr_end r)) by (by rewrite list_lookup_fmap, Hi).
  rewrite (pi_bounds _ _ HP), list_lookup_fmap in Hb. apply fmap_Some in Hb as (s & Hs & [= E1 E2]).
  apply (HR x s Hx); [by eapply list_elem_of_lookup_2|lia].
Qed.

#[export] Instance pages_frames_laws poison (res : Z -> Prop) : @FramesLaws pages (pages_frames poison).
Proof.
  refine {| fr_ok P g := pages_inv P g /\ unmanaged res P; fr_reserved := res |}.
  - intros P g p [HP HR] Hp. apply (refcount_zero _ _ HP). by eapply unmanaged_not.
  - intros P g g' E [HP HR]. split; [by eapply pages_inv_ext|done].
  - intros P g p [HP _]. by apply (pages_addr_ok P g).
  - intros P g a [HP _]. split; [by apply palloc_refcount_spec|apply HP].
  - intros P g zero [HP HR]. destruct (pages_alloc_ok poison P g zero HP) as (p & P' & E & Hcase). exists p, P'. split; [done|].
    destruct Hcase as [Hz|(? & ? & ? & ? & ? & Hsh & ?)]; [by left|right]. split_and!; try done. by eapply unmanaged_shapes.
  - intros P g p [HP HR] Hg. pose proof (pfree_spec poison P g p HP) as H. rewrite decide_False in H by done.
    destruct H as (P' & E & HP' & Hsh & _ & _ & Hm). exists P'. split_and!; try done. by eapply unmanaged_shapes.
  - intros P g p [HP _] Hg. pose proof (pfree_spec poison P g p HP) as H. by rewrite decide_True in H.
  - intros P g p [HP HR]. pose proof (palloc_get_spec P g p HP) as H. cbn. case_decide as Hd; case_decide as Hd'; try tauto.
    destruct H as (P' & E & HP' & Ea & Hm). exists P'. split_and!; try done; [|by rewrite Hm].
    eapply unmanaged_shapes; [|done]. by rewrite Ea.
  - intros P g a l [HP HR]. split; [|done]. split; [by apply pages_inv_mem|done].
Defined.
