(* ===== verification/VmAccess.v ===== *)
(** * Access to user memory

    [translate] is the address translation an address space defines;
    [user_va2pa] computes it, and [copyout], [copyin] and [copyinstr] are the
    byte-by-byte transfers through it. *)
From S2P Require Import Prelude Vma Vm VmSpace VmMap VmAlloc.

(** ** Accessed and dirty bits *)

Definition AD : Z := Z.lor PTE_A PTE_D.

(** User access with all of [perm]. *)
Definition access (w perm : Z) : bool := has_bits w PTE_U && (Z.land w perm =? perm).

Lemma lor_AD_bits w b : has_bits AD b = false -> has_bits (Z.lor w AD) b = has_bits w b.
Proof. intros H. by rewrite has_bits_lor, H, orb_false_r. Qed.

Lemma lor_AD_pa w : is_u64 w -> PTE2PA (Z.lor w AD) = PTE2PA w /\ is_u64 (Z.lor w AD).
Proof.
  intros Hw. assert (Hm : 0 <= w mod 1024 < 1024) by (apply Z.mod_pos_bound; lia).
  assert (Hf : 0 <= Z.lor (w mod 1024) AD < 1024) by (apply flags_bound; [done|flag_bound]).
  assert (E : Z.lor w AD = w / 1024 * 1024 + Z.lor (w mod 1024) AD).
  { rewrite (entry_split w Hw) at 1. rewrite entry_lor by (done || flag_bound). unfold entry_of. by rewrite Z.div_mul by lia. }
  rewrite E, !PTE2PA_eq. split.
  - f_equal. f_equal. rewrite Z.add_comm, Z.div_add by lia. rewrite (Z.div_small (Z.lor _ _)) by lia. lia.
  - unfold is_u64 in *. Z.div_mod_to_equations. lia.
Qed.

Lemma access_AD w perm : Z.land AD perm = 0 -> access (Z.lor w AD) perm = access w perm.
Proof. intros H. unfold access. rewrite lor_AD_bits by done. by rewrite Z.land_lor_distr_l, H, Z.lor_0_r. Qed.

(** ** Translation *)

Definition translate (M : gmap Z Z) (perm va : Z) : option Z :=
  w ← M !! PGROUNDDOWN va; if access w perm then Some (PTE2PA w + va mod PGSIZE) else None.

(** The leaves are the same but for accessed and dirty bits. *)
Definition touched (M M' : gmap Z Z) : Prop :=
  forall va, M' !! va = M !! va \/ exists w, M !! va = Some w /\ is_u64 w /\ M' !! va = Some (Z.lor w AD).

Lemma touched_refl M : touched M M.
Proof. by left. Qed.

Lemma touched_trans M1 M2 M3 : touched M1 M2 -> touched M2 M3 -> touched M1 M3.
Proof.
  intros H1 H2 va. destruct (H1 va) as [E1|(w & Hw & Hu & E1)], (H2 va) as [E2|(w' & Hw' & Hu' & E2)].
  - left. congruence.
  - right. exists w'. split_and!; congruence.
  - right. exists w. split_and!; congruence.
  - right. exists w. split_and!; try done. assert (w' = Z.lor w AD) as -> by congruence. by rewrite <-Z.lor_assoc, Z.lor_diag in E2.
Qed.

Lemma touched_translate M M' perm va : Z.land AD perm = 0 -> touched M M' -> translate M' perm va = translate M perm va.
Proof.
  intros HP HT. unfold translate. destruct (HT (PGROUNDDOWN va)) as [->|(w & -> & Hu & ->)]; [done|]. cbn.
  rewrite access_AD by done. by rewrite (proj1 (lor_AD_pa w Hu)).
Qed.

Section access.
  Context {St : Type} {FS : Frames St} {FL : FramesLaws St}.
  Implicit Types (V : vm St) (D : gmap (list nat) Z) (M : gmap Z Z) (pgdir va a w : Z) (o : Z -> Z).

(** Nothing changed but accessed and dirty bits of this space. *)
Record quiet V V' D M M' : Prop := {
  qu_else : elsewhere V V' D;
  qu_flush : flushes V' = flushes V;
  qu_touched : touched M M' }.

Lemma quiet_refl V D M : quiet V V D M M.
Proof. split; try done. apply touched_refl. Qed.

Lemma quiet_trans V1 V2 V3 D M1 M2 M3 : quiet V1 V2 D M1 M2 -> quiet V2 V3 D M2 M3 -> quiet V1 V3 D M1 M3.
Proof.
  intros [A1 A2 A3] [B1 B2 B3]. split; [|congruence|by eapply touched_trans].
  intros a Ha. by rewrite B1, A1.
Qed.

Lemma touch_ok V pgdir D M o va a w : aspace V pgdir D M o -> M !! va = Some w -> D !! prefix va 0 = Some a ->
  exists V', pte_store V (a, PTEX 0 va) (Z.lor w AD) = Ret V' /\ aspace V' pgdir D (<[va := Z.lor w AD]> M) o /\
    quiet V V' D M (<[va := Z.lor w AD]> M) /\ frames V' = frames V.
Proof.
  intros HA HM HD. destruct (map_range V pgdir D M (as_space _ _ _ _ _ HA) va w HM) as (Hva & Ha & Hl & Hu).
  unfold is_leaf in Hl. apply andb_true_iff in Hl as [HV HR]. destruct (lor_AD_pa w Hu) as [Epa Hu'].
  assert (HV' : has_bits (Z.lor w AD) PTE_V = true) by (by rewrite lor_AD_bits).
  destruct (store_ok V pgdir D M va a (Z.lor w AD) (as_space _ _ _ _ _ HA) Hva Ha HD) as (es & E & HS & HE).
  { intros _. by rewrite lor_AD_bits. }
  unfold set_word in HS. rewrite HV' in HS. eexists. split; [exact E|]. split; [split; [done|..]|split; [split|done]].
  - eapply fr_ok_ext; [|exact (as_frames _ _ _ _ _ HA)]. intros f. cbn.
    replace (<[va:=Z.lor w AD]> M) with (set_word M va (Z.lor w AD)) by (unfold set_word; by rewrite HV').
    rewrite (refs_replace M va w) by done. unfold owned. rewrite lor_AD_bits, Epa by done. lia.
  - apply HA.
  - done.
  - done.
  - intros vb. destruct (decide (vb = va)) as [->|Hne]; [right; exists w; by rewrite lookup_insert_eq|left; by apply lookup_insert_ne].
Qed.

(** A page with user access owns a reference on its frame. *)
Lemma access_frame V pgdir D M o va w perm : aspace V pgdir D M o -> M !! va = Some w -> va <> USER_SIGRETURN ->
  access w perm = true -> let pa := PTE2PA w in 0 < pa /\ pa + PGSIZE < 2 ^ 64 /\ pa mod PGSIZE = 0 /\ owned va w = true /\ 0 < refs M pa.
Proof.
  intros HA HM Hsig Hac. cbv zeta. apply andb_true_iff in Hac as [HU _]. set (pa := PTE2PA w).
  assert (Ho : owned va w = true) by (apply owned_user; auto).
  assert (Hr : 0 < refs M pa) by (apply (tally_pos _ M va w HM); by rewrite Ho, Z.eqb_refl).
  destruct (count_parts V pgdir D M o pa HA) as (? & _ & ?).
  destruct (fr_addr _ _ pa (as_frames _ _ _ _ _ HA)) as (? & ? & ?); [cbv beta; lia|]. done.
Qed.

(** [user_va2pa] of a page. *)
Lemma user_va2pa_ok V pgdir D M o va perm : aspace V pgdir D M o -> page_va va -> Z.land AD perm = 0 ->
  match translate M perm va with
  | None => user_va2pa V pgdir va perm = Ret (V, 0)
  | Some pa => exists V' M', user_va2pa V pgdir va perm = Ret (V', pa) /\ aspace V' pgdir D M' o /\ quiet V V' D M M' /\
      frames V' = frames V /\ (has_bits perm PTE_W = false -> V' = V)
  end.
Proof.
  intros HA [Hva Ha] HP. pose proof (as_space _ _ _ _ _ HA) as HS. unfold translate.
  assert (PGROUNDDOWN va = va) as -> by (rewrite PGROUNDDOWN_mod; unfold PGSIZE in *; Z.div_mod_to_equations; lia).
  rewrite Ha. unfold user_va2pa. rewrite (proj2 (Z.leb_gt MAXVA va)) by lia.
  rewrite (walk_find V pgdir D M HS) by done. cbn [mbind outcome_bind].
  destruct (D !! prefix va 0) as [a|] eqn:HD; [|by rewrite (unmapped_None V pgdir D M HS va HD)].
  destruct (leaf_lookup V pgdir D M HS va a Hva Ha HD) as (w & Ew & HW). rewrite Ew. cbn [mbind outcome_bind].
  destruct (has_bits w PTE_V); cbn [negb]; [|by rewrite HW]. destruct HW as (HM & HR & Hu). rewrite HM. cbn [mbind option_bind].
  destruct (access w perm) eqn:Hac; unfold access in Hac.
  2:{ by rewrite <-negb_andb, Hac. }
  rewrite <-negb_andb, Hac. cbn [negb].
  assert (Hz : forall w', PTE2PA w' = PTE2PA w ->
    PTE2PA w' +64 Z.land (Z.land va (sv39_level_size 0 - 1)) (Z.lnot (PGSIZE - 1)) = PTE2PA w + 0).
  { intros w' ->. change (sv39_level_size 0 - 1) with (Z.ones 12). change (PGSIZE - 1) with (Z.ones 12).
    rewrite <-Z.land_assoc, Z.land_lnot_diag, Z.land_0_r. rewrite !Z.add_0_r. apply wrap64_id. rewrite PTE2PA_eq. apply wrap64_range. }
  destruct (has_bits perm PTE_W) eqn:HPW.
  - destruct (touch_ok V pgdir D M o va a w HA HM HD) as (V' & E' & HA' & HQ & HF). fold AD. rewrite E'. cbn [mbind outcome_bind].
    destruct (leaf_lookup V' pgdir D _ (as_space _ _ _ _ _ HA') va a Hva Ha HD) as (w' & -> & HW'). cbn [mbind outcome_bind].
    assert (w' = Z.lor w AD) as ->.
    { rewrite lookup_insert_eq in HW'. destruct (has_bits w' PTE_V); [destruct HW' as [HW' _]; congruence|done]. }
    rewrite Hz by (by apply lor_AD_pa). exists V', (<[va := Z.lor w AD]> M). split_and!; done.
  - cbn [mbind outcome_bind]. rewrite Ew. cbn [mbind outcome_bind]. rewrite Hz by done. exists V, M. split_and!; try done.
    apply quiet_refl.
Qed.

(** No reference count is at its limit. *)
Definition unsaturated D M o : Prop := forall f, count_of D M o f < UINT32_MAX.

Lemma refs_touched V V' pgdir D M M' o o' f : aspace V pgdir D M o -> aspace V' pgdir D M' o -> frames V' = frames V ->
  o' = o -> count_of D M' o' f = count_of D M o f.
Proof.
  intros HA HA' HF ->. destruct (fr_count_ok _ _ f (as_frames _ _ _ _ _ HA)) as [E1 _].
  destruct (fr_count_ok _ _ f (as_frames _ _ _ _ _ HA')) as [E2 _]. rewrite HF, E1 in E2. injection E2 as E2. unfold count_of. lia.
Qed.

Section pinned.
  Context (handle_fault : vm St -> Z -> Z -> bool -> outcome (vm St * bool)).

(** A page with access is pinned: the caller holds one more reference. *)
Lemma pinned_ok tries V pgdir D M o va perm pa fault : aspace V pgdir D M o -> page_va va -> va <> USER_SIGRETURN ->
  Z.land AD perm = 0 -> translate M perm va = Some pa -> unsaturated D M o ->
  exists V' M', user_copy_va2pa_pinned handle_fault (S tries) V pgdir va perm fault = Ret (V', pa, pa) /\
    aspace V' pgdir D M' (plus o true pa) /\ quiet V V' D M M' /\ (forall x, fr_byte (frames V') x = fr_byte (frames V) x) /\
    0 < refs M' pa /\ 0 < pa /\ pa + PGSIZE < 2 ^ 64.
Proof.
  intros HA Hva Hsig HP Ht Hun. cbn [user_copy_va2pa_pinned]. pose proof (user_va2pa_ok V pgdir D M o va perm HA Hva HP) as H1.
  rewrite Ht in H1. destruct H1 as (V1 & M1 & -> & HA1 & HQ1 & HF1 & _). cbn [mbind outcome_bind].
  pose proof Ht as Ht1. rewrite <-(touched_translate M M1) in Ht1 by (try done; apply HQ1).
  assert (Hpa : exists w, M1 !! va = Some w /\ access w perm = true /\ pa = PTE2PA w).
  { unfold translate in Ht1. destruct Hva as [Hva Ha]. replace (PGROUNDDOWN va) with va in Ht1
      by (rewrite PGROUNDDOWN_mod; unfold PGSIZE in *; Z.div_mod_to_equations; lia).
    destruct (M1 !! va) as [w|]; [|done]. cbn in Ht1. exists w. destruct (access w perm); [|done]. split_and!; try done.
    injection Ht1 as <-. rewrite Ha. lia. }
  destruct Hpa as (w & HM1 & Hac & Epa). destruct (access_frame V1 pgdir D M1 o va w perm HA1 HM1 Hsig Hac) as (G1 & G2 & G3 & How & G4).
  rewrite <-Epa in *.
  assert (HT : truth pa = true) by (unfold truth; rewrite (proj2 (Z.eqb_neq pa 0)); [done|lia]). rewrite HT. cbn [negb].
  assert (PGROUNDDOWN pa = pa) as -> by (rewrite PGROUNDDOWN_mod; unfold PGSIZE in *; Z.div_mod_to_equations; lia).
  assert (Hc : 0 < count_of D M1 o pa < UINT32_MAX).
  { destruct (count_parts V1 pgdir D M1 o pa HA1) as (? & _ & ?). split; [unfold count_of; lia|].
    rewrite (refs_touched V V1 pgdir D M M1 o o pa) by done. apply Hun. }
  pose proof (fr_get_ok (frames V1) _ pa (as_frames _ _ _ _ _ HA1)) as HG. rewrite decide_True in HG by (unfold count_of in Hc; lia).
  destruct HG as (s & -> & Hok & Hb). cbn [mbind outcome_bind]. change (0 <? 0) with false. cbn iota.
  assert (HA2 : aspace (with_frames V1 s) pgdir D M1 (plus o true pa)).
  { split; [eapply space_tables; [|apply HA1]; done| |].
    - eapply fr_ok_ext; [|exact Hok]. intros f. cbn. unfold upd, plus, b2z. cbn.
      destruct (Z.eqb_spec pa f) as [->|]; [rewrite decide_True by done|rewrite decide_False by done]; lia.
    - intros f. unfold plus, b2z. pose proof (as_others _ _ _ _ _ HA1 f). destruct (true && (pa =? f)); lia. }
  pose proof (user_va2pa_ok _ pgdir D M1 _ va perm HA2 Hva HP) as H2. rewrite Ht1 in H2.
  destruct H2 as (V3 & M3 & -> & HA3 & HQ3 & HF3 & _). cbn [mbind outcome_bind]. rewrite Z.eqb_refl.
  exists V3, M3. split; [done|]. split; [done|]. split; [|split; [intros x; rewrite HF3; cbn; by rewrite Hb, HF1|split; [|done]]].
  - eapply quiet_trans; [exact HQ1|]. destruct HQ3 as [Q1 Q2 Q3]. by split.
  - pose proof (refs_touched _ V3 pgdir D M1 M3 _ _ pa HA2 HA3 HF3 eq_refl) as E. unfold count_of in E. lia.
Qed.

(** A page without access and no fault handling. *)
Lemma pinned_none tries V pgdir D M o va perm : aspace V pgdir D M o -> 0 <= va -> va mod PGSIZE = 0 -> Z.land AD perm = 0 ->
  translate M perm va = None -> user_copy_va2pa_pinned handle_fault (S tries) V pgdir va perm false = Ret (V, 0, 0).
Proof.
  intros HA Hva Ha HP Ht. cbn [user_copy_va2pa_pinned]. destruct (Z.le_gt_cases MAXVA va) as [Hge|Hlt].
  - unfold user_va2pa. by rewrite (proj2 (Z.leb_le MAXVA va)).
  - pose proof (user_va2pa_ok V pgdir D M o va perm HA (conj (conj Hva Hlt) Ha) HP) as H1. rewrite Ht in H1. by rewrite H1.
Qed.

(** Unpinning: the frame stays in use and keeps its contents. *)
Lemma unpin_ok V pgdir D M o pa : aspace V pgdir D M (plus o true pa) -> (forall f, 0 <= o f) -> 0 < refs M pa ->
  exists V', put_page V pa = Ret V' /\ aspace V' pgdir D M o /\ tables V' = tables V /\ flushes V' = flushes V /\
    forall x, fr_byte (frames V') x = fr_byte (frames V) x.
Proof.
  intros HA Ho Hr. assert (Hop : plus o true pa pa = o pa + 1) by (unfold plus; by rewrite Z.eqb_refl).
  destruct (put_ok V pgdir D M _ pa HA) as (V' & E & HA' & HT & HF & Hb); [rewrite Hop; specialize (Ho pa); lia|].
  exists V'. split_and!; try done; [eapply aspace_ext; [|exact HA']; intros x; apply less_plus|].
  intros x. destruct (Hb x) as [|[_ H1]]; [done|]. exfalso. unfold count_of in H1. rewrite Hop in H1.
  pose proof (tally_nonneg (fun _ a => a =? pa) D). specialize (Ho pa). unfold tabs in H1. lia.
Qed.
End pinned.
End access.
