(* ===== verification/VmCopy.v ===== *)
(** * Copies between kernel and user memory

    [store_bytes] and [load_bytes] transfer one byte at a time through an
    address translation.  The copy loops of arch/riscv/vm.c, which go page by
    page and pin each page, do the same. *)
From S2P Require Import Prelude Vma Vm VmSpace VmMap VmAlloc VmAccess.

(** ** Byte by byte *)

(** Memory and the bytes that could not be stored. *)
Fixpoint store_bytes (t : Z -> option Z) (va : Z) (l : list Z) (m : Z -> Z) : (Z -> Z) * list Z :=
  match l with
  | [] => (m, [])
  | b :: l' => match t va with Some pa => store_bytes t (va + 1) l' (upd m pa b) | None => (m, l) end
  end.

Fixpoint load_bytes (t : Z -> option Z) (va : Z) (n : nat) (m : Z -> Z) : option (list Z) :=
  match n with
  | O => Some []
  | S n => pa ← t va; l ← load_bytes t (va + 1) n m; Some (m pa :: l)
  end.

(** [l] written at [a]. *)
Definition write_block (m : Z -> Z) (a : Z) (l : list Z) (x : Z) : Z :=
  default (m x) (if decide (a <= x) then l !! Z.to_nat (x - a) else None).

Section bytes.
  Context (t : Z -> option Z).
  Implicit Types (m : Z -> Z) (l : list Z) (va pa : Z).

Lemma store_bytes_ext va l m m' : (forall x, m x = m' x) ->
  (forall x, (store_bytes t va l m).1 x = (store_bytes t va l m').1 x) /\ (store_bytes t va l m).2 = (store_bytes t va l m').2.
Proof.
  revert va m m'. induction l as [|b l IH]; intros va m m' E; cbn; [done|]. destruct (t va); [|done].
  apply IH. intros x. unfold upd. by case_decide.
Qed.

Lemma write_block_cons m a b l x : write_block m a (b :: l) x = write_block (upd m a b) (a + 1) l x.
Proof.
  unfold write_block, upd. destruct (decide (a <= x)) as [Ha|Ha], (decide (a + 1 <= x)) as [Hb|Hb]; try lia.
  - replace (Z.to_nat (x - a)) with (S (Z.to_nat (x - (a + 1)))) by lia. cbn. rewrite (decide_False (P := x = a)) by lia. done.
  - replace x with a by lia. rewrite Z.sub_diag. cbn. by rewrite decide_True.
  - cbn. rewrite decide_False by lia. done.
Qed.

(** A block inside one page. *)
Lemma store_block va pa l1 l2 m : (forall i, 0 <= i < Z.of_nat (length l1) -> t (va + i) = Some (pa + i)) ->
  (forall x, (store_bytes t va (l1 ++ l2) m).1 x = (store_bytes t (va + Z.of_nat (length l1)) l2 (write_block m pa l1)).1 x) /\
  (store_bytes t va (l1 ++ l2) m).2 = (store_bytes t (va + Z.of_nat (length l1)) l2 (write_block m pa l1)).2.
Proof.
  revert va pa m. induction l1 as [|b l1 IH]; intros va pa m Ht.
  - cbn [app length Z.of_nat]. rewrite Z.add_0_r. apply store_bytes_ext. intros x. unfold write_block. by case_decide.
  - cbn [app store_bytes]. assert (t va = Some pa) as -> by (rewrite <-(Z.add_0_r va), <-(Z.add_0_r pa); apply Ht; cbn; lia).
    destruct (IH (va + 1) (pa + 1) (upd m pa b)) as [E1 E2].
    { intros i Hi. replace (va + 1 + i) with (va + (i + 1)) by lia. rewrite Ht by (cbn; lia). f_equal. lia. }
    replace (va + Z.of_nat (length (b :: l1))) with (va + 1 + Z.of_nat (length l1)) by (cbn; lia).
    destruct (store_bytes_ext (va + 1 + Z.of_nat (length l1)) l2 (write_block m pa (b :: l1)) (write_block (upd m pa b) (pa + 1) l1)) as [F1 F2].
    { intros x. apply write_block_cons. }
    split; [intros x; by rewrite E1, F1|by rewrite E2, F2].
Qed.

Lemma load_bytes_ext va n m m' : (forall x, m x = m' x) -> load_bytes t va n m = load_bytes t va n m'.
Proof.
  intros E. revert va. induction n as [|n IH]; intros va; cbn; [done|]. destruct (t va); cbn; [|done]. by rewrite IH, E.
Qed.

Lemma load_block va pa n k m : (forall i, 0 <= i < Z.of_nat n -> t (va + i) = Some (pa + i)) ->
  load_bytes t va (n + k) m = (fun l => (m <$> seqZ pa (Z.of_nat n)) ++ l) <$> load_bytes t (va + Z.of_nat n) k m.
Proof.
  revert va pa. induction n as [|n IH]; intros va pa Ht.
  - cbn. rewrite Z.add_0_r. by destruct (load_bytes t va k m).
  - cbn [Nat.add load_bytes]. assert (t va = Some pa) as -> by (rewrite <-(Z.add_0_r va), <-(Z.add_0_r pa); apply Ht; lia). cbn [mbind option_bind].
    rewrite (IH (va + 1) (pa + 1)).
    + replace (va + Z.of_nat (S n)) with (va + 1 + Z.of_nat n) by lia. rewrite (seqZ_cons pa) by lia.
      replace (Z.succ pa) with (pa + 1) by lia. replace (Z.pred (Z.of_nat (S n))) with (Z.of_nat n) by lia.
      by destruct (load_bytes t (va + 1 + Z.of_nat n) k m).
    + intros i Hi. replace (va + 1 + i) with (va + (i + 1)) by lia. rewrite Ht by lia. f_equal. lia.
Qed.

(** Bytes stored are the bytes loaded, if no two addresses share a cell. *)
Lemma store_other va l m x : (forall i, 0 <= i < Z.of_nat (length l) -> t (va + i) <> Some x) ->
  (store_bytes t va l m).1 x = m x.
Proof.
  revert va m. induction l as [|b l IH]; intros va m Hx; cbn; [done|]. destruct (t va) as [pa|] eqn:E; [|done].
  rewrite IH.
  - unfold upd. rewrite decide_False; [done|]. intros ->. apply (Hx 0); [cbn; lia|]. by rewrite Z.add_0_r.
  - intros i Hi. replace (va + 1 + i) with (va + (i + 1)) by lia. apply Hx. cbn. lia.
Qed.
End bytes.

Lemma store_bytes_trans (t t' : Z -> option Z) va l m : (forall a, t a = t' a) -> store_bytes t va l m = store_bytes t' va l m.
Proof. intros E. revert va m. induction l as [|b l IH]; intros va m; cbn; [done|]. rewrite E. by destruct (t' va). Qed.
Lemma load_bytes_trans (t t' : Z -> option Z) va n m : (forall a, t a = t' a) -> load_bytes t va n m = load_bytes t' va n m.
Proof. intros E. revert va. induction n as [|n IH]; intros va; cbn; [done|]. rewrite E. destruct (t' va); cbn; [|done]. by rewrite IH. Qed.

Lemma load_store (t t' : Z -> option Z) va l m :
  (forall i, 0 <= i < Z.of_nat (length l) -> exists pa, t (va + i) = Some pa /\ t' (va + i) = Some pa) ->
  (forall i j, 0 <= i < Z.of_nat (length l) -> 0 <= j < Z.of_nat (length l) -> t (va + i) = t (va + j) -> i = j) ->
  load_bytes t' va (length l) (store_bytes t va l m).1 = Some l.
Proof.
  revert va m. induction l as [|b l IH]; intros va m Ht Hinj; [done|]. cbn [length] in *.
  destruct (Ht 0) as (pa & E & E'); [lia|]. rewrite Z.add_0_r in E, E'. cbn. rewrite E, E'. cbn [mbind option_bind].
  rewrite IH; cbn.
  - do 2 f_equal. rewrite store_other; [unfold upd; by rewrite decide_True|]. intros i Hi Hi'.
    assert (i + 1 = 0); [|lia]. apply Hinj; [lia|lia|]. rewrite Z.add_0_r, E, <-Hi'. f_equal. lia.
  - intros i Hi. destruct (Ht (i + 1)) as (q & Q1 & Q2); [lia|]. exists q. replace (va + 1 + i) with (va + (i + 1)) by lia. done.
  - intros i j Hi Hj Hij. assert (i + 1 = j + 1); [|lia]. apply Hinj; [lia|lia|].
    replace (va + (i + 1)) with (va + 1 + i) by lia. rewrite Hij. f_equal. lia.
Qed.

(** ** Page by page *)

Lemma translate_off M perm va i : 0 <= i -> va mod PGSIZE + i < PGSIZE ->
  translate M perm (va + i) = (fun pa => pa + va mod PGSIZE + i) <$> translate M perm (PGROUNDDOWN va).
Proof.
  intros Hi Ho. unfold translate.
  assert (E : PGROUNDDOWN (va + i) = PGROUNDDOWN va /\ PGROUNDDOWN (PGROUNDDOWN va) = PGROUNDDOWN va /\
    (va + i) mod PGSIZE = va mod PGSIZE + i /\ PGROUNDDOWN va mod PGSIZE = 0).
  { rewrite !PGROUNDDOWN_mod. unfold PGSIZE in *. Z.div_mod_to_equations. lia. }
  destruct E as (-> & -> & -> & ->). destruct (M !! PGROUNDDOWN va) as [w|]; cbn; [|done]. destruct (access w perm); cbn; [|done].
  f_equal. lia.
Qed.

Lemma page_round va : 0 <= va -> PGROUNDDOWN va = va - va mod PGSIZE /\ 0 <= PGROUNDDOWN va <= va /\ PGROUNDDOWN va mod PGSIZE = 0 /\
  0 <= va mod PGSIZE < PGSIZE.
Proof. intros Hv. rewrite PGROUNDDOWN_mod. unfold PGSIZE. Z.div_mod_to_equations. lia. Qed.

Section copies.
  Context {St : Type} {FS : Frames St} {FL : FramesLaws St}.
  Context (handle_fault : vm St -> Z -> Z -> bool -> outcome (vm St * bool)).
  Implicit Types (V : vm St) (D : gmap (list nat) Z) (M : gmap Z Z) (pgdir va a w : Z) (o : Z -> Z).

Lemma page_of V pgdir D M perm va pa : space V pgdir D M -> translate M perm va = Some pa -> page_va (PGROUNDDOWN va).
Proof.
  intros HS Ht. unfold translate in Ht. destruct (M !! PGROUNDDOWN va) as [w|] eqn:E; [|done].
  destruct (map_range V pgdir D M HS _ w E) as (? & ? & _). by split.
Qed.

(** Writing to a pinned page. *)
Lemma write_ok V pgdir D M o a l : aspace V pgdir D M o ->
  aspace (with_frames V (fr_write (frames V) a l)) pgdir D M o /\
  forall x, fr_byte (fr_write (frames V) a l) x = write_block (fr_byte (frames V)) a l x.
Proof.
  intros HA. destruct (fr_write_ok (frames V) _ a l (as_frames _ _ _ _ _ HA)) as [Hok Hb]. split; [|exact Hb].
  split; [eapply space_tables; [|apply HA]; done|exact Hok|apply HA].
Qed.

Lemma refs_touch M M' f : touched M M' -> refs M' f = refs M f.
Proof.
  intros HT. unfold refs, tally. rewrite <-!size_dom. do 2 f_equal. apply set_eq. intros va. rewrite !elem_of_dom.
  unfold is_Some. setoid_rewrite map_lookup_filter_Some. cbn [fst snd].
  destruct (HT va) as [->|(w & Hw & Hu & Hw')]; [done|]. rewrite Hw, Hw'.
  assert (E : owned va (Z.lor w AD) && (PTE2PA (Z.lor w AD) =? f) = owned va w && (PTE2PA w =? f)).
  { unfold owned. by rewrite lor_AD_bits, (proj1 (lor_AD_pa w Hu)). }
  split; intros (x & <-%(inj Some) & H); eexists; (split; [done|]); congruence.
Qed.

Lemma unsaturated_touch D M M' o : touched M M' -> unsaturated D M o -> unsaturated D M' o.
Proof. intros HT Hun f. unfold count_of. rewrite (refs_touch M M') by done. apply Hun. Qed.

(** One round of [copyout] on a page with access. *)
Lemma copyout_round tries V pgdir D M o va pa (l : list Z) fault : aspace V pgdir D M o -> 0 <= va < USER_SIGRETURN -> unsaturated D M o ->
  translate M PTE_W (PGROUNDDOWN va) = Some pa ->
  let n := Z.min (PGSIZE - (va - PGROUNDDOWN va)) (Z.of_nat (length l)) in
  exists V1 V2 M', user_copy_va2pa_pinned handle_fault (S tries) V pgdir (PGROUNDDOWN va) PTE_W fault = Ret (V1, pa, pa) /\
    truth pa = true /\
    put_page (with_frames V1 (fr_write (frames V1) (pa +64 (va - PGROUNDDOWN va)) (take (Z.to_nat n) l))) pa = Ret V2 /\
    aspace V2 pgdir D M' o /\ quiet V V2 D M M' /\
    forall x, fr_byte (frames V2) x = write_block (fr_byte (frames V)) (pa + va mod PGSIZE) (take (Z.to_nat n) l) x.
Proof.
  intros HA [H0 Hsig] Hun Ht n. destruct (page_round va H0) as (Er & Hr & Hm & Ho).
  assert (Hv : page_va (PGROUNDDOWN va)).
  { replace (PGROUNDDOWN va) with (PGROUNDDOWN (PGROUNDDOWN va)) by (rewrite !PGROUNDDOWN_mod; unfold PGSIZE; Z.div_mod_to_equations; lia).
    eapply (page_of V pgdir D M); [apply HA|done]. }
  destruct (pinned_ok handle_fault tries V pgdir D M o _ PTE_W pa fault HA Hv ltac:(lia) ltac:(done) Ht Hun)
    as (V1 & M1 & -> & HA1 & HQ1 & Hb1 & Href & Hpos & Htop).
  set (lw := take (Z.to_nat n) l). replace (va - PGROUNDDOWN va) with (va mod PGSIZE) by lia.
  rewrite wrap64_id by (unfold is_u64, PGSIZE in *; lia).
  destruct (write_ok V1 pgdir D M1 _ (pa + va mod PGSIZE) lw HA1) as [HA2 Hb2].
  destruct (unpin_ok _ pgdir D M1 o pa HA2 (as_others _ _ _ _ _ HA) Href) as (V2 & E2 & HA3 & HT & HF & Hb3).
  exists V1, V2, M1. split_and!; try done.
  - unfold truth. rewrite (proj2 (Z.eqb_neq pa 0)); [done|lia].
  - destruct HQ1 as [Q1 Q2 Q3]. split; [|by rewrite HF|done]. intros b Hb. rewrite HT. by apply Q1.
  - intros x. rewrite Hb3. cbn. rewrite Hb2. unfold write_block. by rewrite Hb1.
Qed.

(** [copyout] is [store_bytes]; only without fault handling can it be cut short by a page without access. *)
Lemma copyout_loop_ok fuel tries V pgdir D M o va (l : list Z) fault : aspace V pgdir D M o -> 0 <= va ->
  va + Z.of_nat (length l) <= USER_SIGRETURN -> unsaturated D M o -> (length l < fuel)%nat -> let r := store_bytes (translate M PTE_W) va l (fr_byte (frames V)) in
  (fault = true -> r.2 = []) ->
  exists V' M', copyout_loop handle_fault fuel (S tries) V pgdir va l fault = Ret (if decide (r.2 = []) then 0 else -1, V') /\
    aspace V' pgdir D M' o /\ quiet V V' D M M' /\ forall x, fr_byte (frames V') x = r.1 x.
Proof.
  revert V M va l. induction fuel as [|fuel IH]; intros V M va l HA H0 Hsig Hun Hf; [lia|]. intros r Hfault. cbn [copyout_loop].
  destruct (page_round va H0) as (Er & Hr & Hm & Ho).
  destruct l as [|b l']; [exists V, M; split_and!; try done; apply quiet_refl|]. set (l := b :: l') in *.
  pose proof (translate_off M PTE_W va 0 ltac:(lia) ltac:(lia)) as Hoff. rewrite Z.add_0_r in Hoff.
  destruct (translate M PTE_W (PGROUNDDOWN va)) as [pa|] eqn:Ht; cbn [fmap option_fmap option_map] in Hoff; cycle 1.
  { assert (r = (fr_byte (frames V), l)) as -> by (unfold r; cbn; by rewrite Hoff). cbn [fst snd] in *.
    destruct fault; [by specialize (Hfault eq_refl)|].
    rewrite (pinned_none handle_fault tries V pgdir D M o) by (done || lia). cbn. exists V, M. split_and!; try done. apply quiet_refl. }
  destruct (copyout_round tries V pgdir D M o va pa l fault HA ltac:(cbn in Hsig; lia) Hun Ht) as (V1 & V2 & M2 & E1 & HT & E2 & HA2 & HQ2 & Hb2).
  rewrite E1. cbn [mbind outcome_bind]. rewrite HT. cbn [negb]. rewrite E2. cbn [mbind outcome_bind].
  set (n := Z.min (PGSIZE - (va - PGROUNDDOWN va)) (Z.of_nat (length l))) in *.
  assert (Hn : 0 < n <= Z.of_nat (length l) /\ va mod PGSIZE + n <= PGSIZE) by (subst n l; cbn [length]; unfold PGSIZE in *; lia).
  destruct (page_of V pgdir D M PTE_W va _ (as_space _ _ _ _ _ HA) Hoff) as [[_ Hmax] _]. change MAXVA with (2 ^ 38) in Hmax.
  rewrite wrap64_id by (unfold is_u64, PGSIZE in *; lia).
  assert (Hlen : length (take (Z.to_nat n) l) = Z.to_nat n) by (rewrite length_take; lia).
  destruct (store_block (translate M PTE_W) va (pa + va mod PGSIZE) (take (Z.to_nat n) l) (drop (Z.to_nat n) l) (fr_byte (frames V))) as [S1 S2].
  { intros i Hi. rewrite translate_off by lia. by rewrite Ht. }
  rewrite take_drop in S1, S2. fold r in S1, S2. rewrite Hlen, Z2Nat.id in S1, S2 by lia.
  assert (Hnext : forall m, store_bytes (translate M PTE_W) (va + n) (drop (Z.to_nat n) l) m =
    store_bytes (translate M2 PTE_W) (PGROUNDDOWN va + PGSIZE) (drop (Z.to_nat n) l) m).
  { intros m. rewrite (store_bytes_trans (translate M2 PTE_W) (translate M PTE_W))
      by (intros a; apply touched_translate; [done|apply HQ2]).
    destruct (decide (n = Z.of_nat (length l))) as [El|Hne]; [by rewrite drop_ge by lia|]. f_equal. lia. }
  rewrite Hnext in S2. setoid_rewrite Hnext in S1.
  destruct (store_bytes_ext (translate M2 PTE_W) (PGROUNDDOWN va + PGSIZE) (drop (Z.to_nat n) l) _ _ Hb2) as [X1 X2].
  destruct (IH V2 M2 (PGROUNDDOWN va + PGSIZE) (drop (Z.to_nat n) l) HA2) as (V' & M' & -> & HA' & HQ' & Hb').
  - unfold PGSIZE. lia.
  - rewrite length_drop. change USER_SIGRETURN with (262144 * 4096) in *. unfold PGSIZE in *. Z.div_mod_to_equations. lia.
  - eapply unsaturated_touch; [apply HQ2|done].
  - rewrite length_drop. lia.
  - intros Hf'. rewrite X2, <-S2. auto.
  - exists V', M'. rewrite X2, <-S2. split_and!; try done; [by eapply quiet_trans|]. intros x. by rewrite Hb', X1, <-S1.
Qed.

(** One round of [copyin] or [copyinstr] on a page with access. *)
Lemma read_round tries V pgdir D M o va pa fault : aspace V pgdir D M o -> 0 <= va < USER_SIGRETURN -> unsaturated D M o ->
  translate M PTE_R (PGROUNDDOWN va) = Some pa ->
  exists V1 V2 M', user_copy_va2pa_pinned handle_fault (S tries) V pgdir (PGROUNDDOWN va) PTE_R fault = Ret (V1, pa, pa) /\
    truth pa = true /\ put_page V1 pa = Ret V2 /\ pa +64 (va - PGROUNDDOWN va) = pa + va mod PGSIZE /\
    (forall n, bytes_at (frames V1) (pa + va mod PGSIZE) n = bytes_at (frames V) (pa + va mod PGSIZE) n) /\
    aspace V2 pgdir D M' o /\ quiet V V2 D M M' /\ (forall x, fr_byte (frames V2) x = fr_byte (frames V) x) /\
    PGROUNDDOWN va < MAXVA.
Proof.
  intros HA [H0 Hsig] Hun Ht. destruct (page_round va H0) as (Er & Hr & Hm & Ho).
  assert (Hv : page_va (PGROUNDDOWN va)).
  { replace (PGROUNDDOWN va) with (PGROUNDDOWN (PGROUNDDOWN va)) by (rewrite !PGROUNDDOWN_mod; unfold PGSIZE; Z.div_mod_to_equations; lia).
    eapply (page_of V pgdir D M); [apply HA|done]. }
  destruct (pinned_ok handle_fault tries V pgdir D M o _ PTE_R pa fault HA Hv ltac:(lia) ltac:(done) Ht Hun)
    as (V1 & M1 & -> & HA1 & HQ1 & Hb1 & Href & Hpos & Htop).
  destruct (unpin_ok _ pgdir D M1 o pa HA1 (as_others _ _ _ _ _ HA) Href) as (V2 & E2 & HA3 & HT & HF & Hb3).
  exists V1, V2, M1. split_and!; try done.
  - unfold truth. rewrite (proj2 (Z.eqb_neq pa 0)); [done|lia].
  - replace (va - PGROUNDDOWN va) with (va mod PGSIZE) by lia. apply wrap64_id. unfold is_u64, PGSIZE in *. lia.
  - intros n. unfold bytes_at. apply list_fmap_ext. intros i x _. apply Hb1.
  - destruct HQ1 as [Q1 Q2 Q3]. split; [|by rewrite HF|done]. intros b Hb. rewrite HT. by apply Q1.
  - intros x. by rewrite Hb3, Hb1.
  - apply Hv.
Qed.

(** The bytes of the next page, and what is left. *)
Lemma load_page M perm va pa n k m l : 0 <= va -> translate M perm (PGROUNDDOWN va) = Some pa -> va mod PGSIZE + Z.of_nat n <= PGSIZE ->
  load_bytes (translate M perm) va (n + k) m = Some l ->
  exists l2, l = (m <$> seqZ (pa + va mod PGSIZE) (Z.of_nat n)) ++ l2 /\
    load_bytes (translate M perm) (va + Z.of_nat n) k m = Some l2.
Proof.
  intros H0 Ht Hn. rewrite (load_block _ va (pa + va mod PGSIZE)).
  - intros (l2 & E & ->)%fmap_Some. eauto.
  - intros i Hi. destruct (page_round va H0) as (_ & _ & _ & ?). rewrite translate_off by lia. by rewrite Ht.
Qed.

Lemma load_first M perm va n m l : 0 <= va -> load_bytes (translate M perm) va (S n) m = Some l ->
  exists pa, translate M perm (PGROUNDDOWN va) = Some pa.
Proof.
  intros H0 E. destruct (page_round va H0) as (_ & _ & _ & ?). cbn in E.
  pose proof (translate_off M perm va 0 ltac:(lia) ltac:(lia)) as Ho. rewrite Z.add_0_r in Ho.
  destruct (translate M perm (PGROUNDDOWN va)) as [pa|]; [by exists pa|]. by rewrite Ho in E.
Qed.

Lemma copyin_loop_ok fuel tries V pgdir D M o va len dst l : aspace V pgdir D M o -> 0 <= va ->
  va + len <= USER_SIGRETURN -> unsaturated D M o -> (Z.to_nat len < fuel)%nat -> load_bytes (translate M PTE_R) va (Z.to_nat len) (fr_byte (frames V)) = Some l ->
  exists V' M', copyin_loop handle_fault fuel (S tries) V pgdir va len dst = Ret (0, V', dst ++ l) /\
    aspace V' pgdir D M' o /\ quiet V V' D M M' /\ forall x, fr_byte (frames V') x = fr_byte (frames V) x.
Proof.
  revert V M va len dst l. induction fuel as [|fuel IH]; intros V M va len dst l HA H0 Hsig Hun Hf HL; [lia|]. cbn [copyin_loop].
  destruct (page_round va H0) as (Er & Hr & Hm & Ho). destruct (Z.ltb_spec 0 len) as [Hpos|Hz]; cbn [negb]; cycle 1.
  { replace (Z.to_nat len) with 0%nat in HL by lia. injection HL as <-. rewrite app_nil_r. exists V, M. split_and!; try done. apply quiet_refl. }
  destruct (Z.to_nat len) as [|k] eqn:Ek; [lia|]. destruct (load_first _ _ _ _ _ _ H0 HL) as [pa Ht].
  destruct (read_round tries V pgdir D M o va pa true HA ltac:(lia) Hun Ht) as (V1 & V2 & M2 & E1 & HT & E2 & Eo & Hby & HA2 & HQ2 & Hb2 & Hmax).
  rewrite E1. cbn [mbind outcome_bind]. rewrite HT. cbn [negb]. rewrite E2. cbn [mbind outcome_bind]. rewrite Eo, Hby.
  change MAXVA with (2 ^ 38) in Hmax. rewrite wrap64_id by (unfold is_u64, PGSIZE in *; lia).
  set (n := Z.min (PGSIZE - (va - PGROUNDDOWN va)) len).
  assert (Hn : 0 < n <= len /\ va mod PGSIZE + n <= PGSIZE) by (subst n; unfold PGSIZE in *; lia).
  replace (S k) with (Z.to_nat n + Z.to_nat (len - n))%nat in HL by lia.
  destruct (load_page M PTE_R va pa (Z.to_nat n) (Z.to_nat (len - n)) _ l H0 Ht ltac:(lia) HL) as (l2 & -> & HL2).
  rewrite Z2Nat.id in HL2 |- * by lia.
  assert (HL3 : load_bytes (translate M2 PTE_R) (PGROUNDDOWN va + PGSIZE) (Z.to_nat (len - n)) (fr_byte (frames V2)) = Some l2).
  { rewrite (load_bytes_trans _ (translate M PTE_R)) by (intros a; apply touched_translate; [done|apply HQ2]).
    rewrite (load_bytes_ext _ _ _ _ _ Hb2). rewrite <-HL2.
    destruct (decide (n = len)) as [->|Hne]; [by rewrite Z.sub_diag|]. f_equal. lia. }
  destruct (IH V2 M2 (PGROUNDDOWN va + PGSIZE) (len - n) (dst ++ bytes_at (frames V) (pa + va mod PGSIZE) n) l2 HA2) as (V' & M' & -> & HA' & HQ' & Hb').
  - unfold PGSIZE. lia.
  - change USER_SIGRETURN with (262144 * 4096) in *. unfold PGSIZE in *. Z.div_mod_to_equations. lia.
  - eapply unsaturated_touch; [apply HQ2|done].
  - lia.
  - done.
  - exists V', M'. rewrite <-app_assoc. split_and!; try done; [by eapply quiet_trans|]. intros x. by rewrite Hb', Hb2.
Qed.

Lemma until_zero_end l r : 0 ∉ l -> until_zero (l ++ 0 :: r) = (l, true).
Proof.
  induction l as [|b l IH]; intros Hl; cbn; [done|]. apply not_elem_of_cons in Hl as [Hb Hl].
  rewrite (proj2 (Z.eqb_neq b 0)) by done. by rewrite IH.
Qed.
Lemma until_zero_none l : 0 ∉ l -> until_zero l = (l, false).
Proof.
  induction l as [|b l IH]; intros Hl; cbn; [done|]. apply not_elem_of_cons in Hl as [Hb Hl].
  rewrite (proj2 (Z.eqb_neq b 0)) by done. by rewrite IH.
Qed.

(** A string that ends on this page. *)
Lemma string_here M va pa n m (str : list Z) : 0 <= va -> translate M PTE_R (PGROUNDDOWN va) = Some pa ->
  Z.of_nat (length str) < n -> va mod PGSIZE + n <= PGSIZE -> 0 ∉ str ->
  load_bytes (translate M PTE_R) va (S (length str)) m = Some (str ++ [0]) ->
  until_zero (m <$> seqZ (pa + va mod PGSIZE) n) = (str, true).
Proof.
  intros H0 Ht Hn Ho Hz HL. rewrite <-(Nat.add_0_r (S (length str))) in HL.
  destruct (load_page M PTE_R va pa (S (length str)) 0 m _ H0 Ht ltac:(lia) HL) as (l2 & E & [= <-]). rewrite app_nil_r in E.
  replace n with (Z.of_nat (S (length str)) + (n - Z.of_nat (S (length str)))) by lia.
  rewrite seqZ_app, fmap_app, <-E by lia. rewrite <-app_assoc. by apply until_zero_end.
Qed.

(** A string that goes on to the next page. *)
Lemma string_beyond M va pa n m (str : list Z) : 0 <= va -> translate M PTE_R (PGROUNDDOWN va) = Some pa ->
  0 <= n <= Z.of_nat (length str) -> va mod PGSIZE + n <= PGSIZE -> 0 ∉ str ->
  load_bytes (translate M PTE_R) va (S (length str)) m = Some (str ++ [0]) ->
  exists s1 s2, str = s1 ++ s2 /\ Z.of_nat (length s1) = n /\ until_zero (m <$> seqZ (pa + va mod PGSIZE) n) = (s1, false) /\
    load_bytes (translate M PTE_R) (va + n) (S (length s2)) m = Some (s2 ++ [0]).
Proof.
  intros H0 Ht Hn Ho Hz HL. replace (S (length str)) with (Z.to_nat n + S (length str - Z.to_nat n))%nat in HL by lia.
  destruct (load_page M PTE_R va pa (Z.to_nat n) _ m _ H0 Ht ltac:(lia) HL) as (l2 & E & HL2). rewrite Z2Nat.id in E, HL2 by lia.
  set (s1 := m <$> seqZ (pa + va mod PGSIZE) n) in *.
  assert (Hl1 : length s1 = Z.to_nat n) by (unfold s1; by rewrite length_fmap, length_seqZ).
  assert (Es : s1 = take (Z.to_nat n) str).
  { rewrite <-(take_app_length s1 l2), <-E, Hl1. apply take_app_le. lia. }
  assert (E2 : l2 = drop (Z.to_nat n) str ++ [0]).
  { rewrite <-(drop_app_length s1 l2), <-E, Hl1. apply drop_app_le. lia. }
  exists s1, (drop (Z.to_nat n) str). split_and!.
  - by rewrite Es, take_drop.
  - lia.
  - apply until_zero_none. rewrite Es. intros Hin. apply Hz. rewrite <-(take_drop (Z.to_nat n) str). apply elem_of_app. by left.
  - rewrite <-E2, length_drop. done.
Qed.

Lemma copyinstr_loop_ok fuel tries V pgdir D M o va max dst str : aspace V pgdir D M o -> 0 <= va ->
  va + Z.of_nat (length str) < USER_SIGRETURN -> unsaturated D M o -> (Z.to_nat max < fuel)%nat -> Z.of_nat (length str) < max -> 0 ∉ str ->
  load_bytes (translate M PTE_R) va (S (length str)) (fr_byte (frames V)) = Some (str ++ [0]) ->
  exists V' M', copyinstr_loop handle_fault fuel (S tries) V pgdir va max dst = Ret (0, V', dst ++ str ++ [0]) /\
    aspace V' pgdir D M' o /\ quiet V V' D M M' /\ forall x, fr_byte (frames V') x = fr_byte (frames V) x.
Proof.
  revert V M va max dst str. induction fuel as [|fuel IH]; intros V M va max dst str HA H0 Hsig Hun Hf Hmax Hz HL; [lia|].
  cbn [copyinstr_loop]. destruct (page_round va H0) as (Er & Hr & Hm & Ho).
  rewrite (proj2 (Z.ltb_lt 0 max)) by lia. cbn [negb]. destruct (load_first _ _ _ _ _ _ H0 HL) as [pa Ht].
  destruct (read_round tries V pgdir D M o va pa true HA ltac:(lia) Hun Ht) as (V1 & V2 & M2 & E1 & HT & E2 & Eo & Hby & HA2 & HQ2 & Hb2 & HM).
  rewrite E1. cbn [mbind outcome_bind]. rewrite HT. cbn [negb]. rewrite E2, Eo, Hby.
  change MAXVA with (2 ^ 38) in HM. set (n := Z.min (PGSIZE - (va - PGROUNDDOWN va)) max). unfold bytes_at.
  assert (Hn : 0 < n <= max /\ va mod PGSIZE + n <= PGSIZE) by (subst n; unfold PGSIZE in *; lia).
  destruct (Z.lt_ge_cases (Z.of_nat (length str)) n) as [Hlt|Hge].
  - rewrite (string_here M va pa n _ str) by (done || lia). cbn [mbind outcome_bind]. eauto 10.
  - destruct (string_beyond M va pa n (fr_byte (frames V)) str) as (s1 & s2 & -> & Hl1 & -> & HL2); try done; try lia.
    cbn [mbind outcome_bind]. rewrite wrap64_id by (unfold is_u64, PGSIZE in *; lia). rewrite length_app in *.
    apply not_elem_of_app in Hz as [Hz1 Hz2].
    destruct (IH V2 M2 (PGROUNDDOWN va + PGSIZE) (max - n) (dst ++ s1) s2 HA2) as (V' & M' & -> & HA' & HQ' & Hb').
    + unfold PGSIZE. lia.
    + lia.
    + eapply unsaturated_touch; [apply HQ2|done].
    + lia.
    + lia.
    + done.
    + rewrite (load_bytes_trans _ (translate M PTE_R)) by (intros a; apply touched_translate; [done|apply HQ2]).
      rewrite (load_bytes_ext _ _ _ _ _ Hb2). rewrite <-HL2. f_equal. lia.
    + exists V', M'. rewrite <-!app_assoc. split_and!; try done; [by eapply quiet_trans|]. intros x. by rewrite Hb', Hb2.
Qed.
End copies.
