(* ===== verification/VmCow.v ===== *)
(** * Copy on write

    [vm_resolve_cow] makes a shared page private: the leaf becomes writable, its
    frame has no other reference, and the contents are the ones it had. *)
From S2P Require Import Prelude Vma Vm VmSpace VmMap VmAlloc VmAccess VmCopy.

Lemma PGROUNDDOWN_page va : 0 <= va < MAXVA -> page_va (PGROUNDDOWN va).
Proof. intros Hva. rewrite PGROUNDDOWN_mod. unfold page_va, PGSIZE. Z.div_mod_to_equations. lia. Qed.

(** The flags of a page made private. *)
Definition private_flags (f : Z) : Z := without (Z.lor f PTE_W) PTE_SW_COW.

Lemma private_flags_facts f : 0 <= f < 1024 -> has_bits f PTE_V = true -> has_bits f PTE_SW_USER = true ->
  0 <= private_flags f < 1024 /\ has_bits (private_flags f) PTE_V = true /\ has_bits (private_flags f) PTE_RWX = true /\
  has_bits (private_flags f) (Z.lor PTE_U PTE_SW_USER) = true.
Proof.
  intros Hf HV HU. unfold private_flags.
  assert (HO : has_bits f (Z.lor PTE_U PTE_SW_USER) = true) by (apply has_either; auto).
  split; [apply without_range; [apply flags_bound; [done|flag_bound]|done]|].
  split_and!; rewrite has_bits_without, has_bits_lor by done; [by rewrite HV|by rewrite orb_comm|by rewrite HO].
Qed.

Section cow.
  Context {St : Type} {FS : Frames St} {FL : FramesLaws St}.
  Implicit Types (V : vm St) (D : gmap (list nat) Z) (M : gmap Z Z) (pgdir va a w : Z) (o : Z -> Z).

(** Replacing a leaf: references move between it and the rest. *)
Lemma replace_ok V pgdir D M o o' va a w w' : aspace V pgdir D M o -> M !! va = Some w -> D !! prefix va 0 = Some a ->
  has_bits w' PTE_V = true -> has_bits w' PTE_RWX = true -> is_u64 w' -> (forall f, 0 <= o' f) ->
  (forall f, o' f + b2z (owned va w' && (PTE2PA w' =? f)) = o f + b2z (owned va w && (PTE2PA w =? f))) ->
  exists V', pte_store V (a, PTEX 0 va) w' = Ret V' /\ aspace V' pgdir D (<[va := w']> M) o' /\
    elsewhere V V' D /\ flushes V' = flushes V /\ frames V' = frames V.
Proof.
  intros HA HM HD HV HR Hu Ho E. destruct (map_range V pgdir D M (as_space _ _ _ _ _ HA) va w HM) as (Hva & Ha & _).
  destruct (store_ok V pgdir D M va a w' (as_space _ _ _ _ _ HA) Hva Ha HD (fun _ => conj HR Hu)) as (es & Es & HS & HE). eexists. split; [exact Es|].
  split; [|done]. assert (Hset : set_word M va w' = <[va := w']> M) by (unfold set_word; by rewrite HV).
  rewrite Hset in HS. split; [done| |done]. eapply fr_ok_ext; [|exact (as_frames _ _ _ _ _ HA)]. intros f. cbn.
  rewrite <-Hset, (refs_replace M va w) by done. specialize (E f). lia.
Qed.

(** What making a page private means. *)
Record made_private V V' pgdir D M o va w w' : Prop := {
  mp_space : aspace V' pgdir D (<[va := w']> M) o;
  mp_flags : w' mod 1024 = private_flags (w mod 1024);
  mp_sole : count_of D (<[va := w']> M) o (PTE2PA w') = 1;
  mp_same i : 0 <= i < PGSIZE -> fr_byte (frames V') (PTE2PA w' + i) = fr_byte (frames V) (PTE2PA w + i);
  mp_others f x : f <> PTE2PA w' -> 0 < count_of D (<[va := w']> M) o f -> f <= x < f + PGSIZE -> f mod PGSIZE = 0 ->
    fr_byte (frames V') x = fr_byte (frames V) x;
  mp_else : elsewhere V V' D }.

Lemma owned_frame V pgdir D M o va w : aspace V pgdir D M o -> M !! va = Some w -> owned va w = true ->
  0 < refs M (PTE2PA w) /\ 0 < count_of D M o (PTE2PA w).
Proof.
  intros HA HM Ho. assert (Hr : 0 < refs M (PTE2PA w)) by (apply (tally_pos _ M va w HM); by rewrite Ho, Z.eqb_refl).
  destruct (count_parts V pgdir D M o (PTE2PA w) HA) as (? & _ & ?). unfold count_of. lia.
Qed.

Lemma refs_update M va w w' f : M !! va = Some w ->
  refs (<[va := w']> M) f = refs M f - b2z (owned va w && (PTE2PA w =? f)) + b2z (owned va w' && (PTE2PA w' =? f)).
Proof. intros HM. unfold refs. by apply (tally_update (fun va w => owned va w && (PTE2PA w =? f))). Qed.

Section resolve.
  Context V pgdir D M o va a w (HA : aspace V pgdir D M o) (HM : M !! va = Some w) (HD : D !! prefix va 0 = Some a)
    (HV : has_bits w PTE_V = true) (HU : has_bits w PTE_SW_USER = true) (Hu : is_u64 w)
    (Hsig : va <> USER_SIGRETURN).

Lemma flags_ok : 0 <= w mod 1024 < 1024 /\ owned va w = true /\ 0 <= private_flags (w mod 1024) < 1024 /\
  forall w', is_u64 w' -> w' mod 1024 = private_flags (w mod 1024) ->
    has_bits w' PTE_V = true /\ has_bits w' PTE_RWX = true /\ owned va w' = true.
Proof.
  pose proof (Z.mod_pos_bound w 1024 ltac:(lia)) as Hm.
  destruct (private_flags_facts (w mod 1024) Hm) as (F1 & F2 & F3 & F4); [by rewrite mod_flags by flag_bound..|].
  split; [done|]. split; [|split; [done|]].
  - apply owned_user; auto.
  - intros w' Hu' E. unfold owned. rewrite (proj2 (Z.eqb_neq va _)) by done. rewrite <-!(mod_flags w') by flag_bound. by rewrite E.
Qed.

(** The last reference: only the flags change. *)
Lemma resolve_last : count_of D M o (PTE2PA w) = 1 ->
  exists V', pte_store V (a, PTEX 0 va) (without (Z.lor w PTE_W) PTE_SW_COW) = Ret V' /\
    made_private V V' pgdir D M o va w (with_flags w (private_flags (w mod 1024))) /\ flushes V' = flushes V.
Proof.
  intros H1. destruct flags_ok as (Hm & How & Hp & Hf). set (w' := with_flags w (private_flags (w mod 1024))).
  destruct (with_flags_facts w _ Hu Hp) as (Epa & Hu' & Em & _). fold w' in Epa, Hu', Em. destruct (Hf w' Hu' Em) as (FV & FR & FO).
  assert (E : without (Z.lor w PTE_W) PTE_SW_COW = w').
  { rewrite lor_flags, without_flags by flag_bound. unfold w', private_flags.
    assert (0 <= Z.lor (w mod 1024) PTE_W < 1024) by (apply flags_bound; [done|flag_bound]).
    destruct (with_flags_facts w (Z.lor (w mod 1024) PTE_W) Hu ltac:(done)) as (_ & _ & -> & _). unfold with_flags.
    by rewrite Z.div_add_l, (Z.div_small (Z.lor (w mod 1024) PTE_W)), Z.add_0_r by lia. }
  rewrite E. destruct (replace_ok V pgdir D M o o va a w w' HA HM HD FV FR Hu' (as_others _ _ _ _ _ HA)) as (V' & Es & HA' & HE & HF & HB).
  { intros f. by rewrite FO, How, Epa. }
  exists V'. split; [done|]. split; [|done].
  assert (Hc : forall f, count_of D (<[va := w']> M) o f = count_of D M o f).
  { intros f. unfold count_of. rewrite (refs_update M va w) by done. rewrite FO, How, Epa. lia. }
  split; try done; [by rewrite Hc, Epa|by rewrite Epa, HB|by rewrite HB].
Qed.

(** More references: a fresh frame gets the contents. *)
Lemma resolve_copy p s : 1 < count_of D M o (PTE2PA w) -> 0 < p -> is_u64 p -> p mod PGSIZE = 0 -> count_of D M o p = 0 ->
  aspace (with_frames V s) pgdir D M (plus o true p) -> grows V (with_frames V s) D D M o ->
  let V1 := with_frames V (fr_write s p (bytes_at s (PTE2PA w) PGSIZE)) in
  exists V2 V3 w', pte_store V1 (a, PTEX 0 va) (without (Z.lor (Z.lor (PA2PTE p) (Z.land w 0x3ff)) PTE_W) PTE_SW_COW) = Ret V2 /\
    put_page V2 (PTE2PA w) = Ret V3 /\ made_private V V3 pgdir D M o va w w' /\ flushes V3 = flushes V.
Proof.
  intros Hmany Hpos Hup Hpa H0 HA1 HG1 V1. destruct flags_ok as (Hm & How & Hp & Hf).
  set (w' := entry_of p (private_flags (w mod 1024))).
  assert (Epa : PTE2PA w' = p) by (by apply PTE2PA_entry). assert (Hu' : is_u64 w') by (by apply entry_range).
  assert (Em : w' mod 1024 = private_flags (w mod 1024)) by (by apply entry_flags). destruct (Hf w' Hu' Em) as (FV & FR & FO).
  assert (E : without (Z.lor (Z.lor (PA2PTE p) (Z.land w 0x3ff)) PTE_W) PTE_SW_COW = w').
  { change 0x3ff with (Z.ones 10). rewrite Z.land_ones by lia. change (2 ^ 10) with 1024. rewrite PA2PTE_eq, lor_low by done.
    fold (entry_of p (w mod 1024)). rewrite entry_lor by (done || flag_bound). unfold w', entry_of, private_flags.
    apply without_high; [apply flags_bound; [done|flag_bound]|flag_bound]. }
  destruct (write_ok (with_frames V s) pgdir D M _ p (bytes_at s (PTE2PA w) PGSIZE) HA1) as [HA2 Hb2]. cbn [frames with_frames] in HA2, Hb2.
  fold (with_frames V (fr_write s p (bytes_at s (PTE2PA w) PGSIZE))) in HA2. fold V1 in HA2.
  assert (Hop : forall f, 0 <= plus o true (PTE2PA w) f).
  { intros f. unfold plus, b2z. pose proof (as_others _ _ _ _ _ HA f). destruct (true && _); lia. }
  destruct (replace_ok V1 pgdir D M _ (plus o true (PTE2PA w)) va a w w' HA2 HM HD FV FR Hu' Hop) as (V2 & Es & HA3 & HE & HF & HB).
  { intros f. unfold plus. rewrite FO, How, Epa. cbn [andb]. lia. }
  destruct (put_ok V2 pgdir D _ _ (PTE2PA w) HA3) as (V3 & E3 & HA4 & HT3 & HF3 & Hb3).
  { unfold plus. rewrite Z.eqb_refl. pose proof (as_others _ _ _ _ _ HA (PTE2PA w)). cbn. lia. }
  assert (HA5 : aspace V3 pgdir D (<[va := w']> M) o) by (eapply aspace_ext; [|exact HA4]; intros x; apply less_plus).
  assert (Hne : p <> PTE2PA w) by (intros Ep; rewrite Ep in H0; lia).
  assert (Hc : forall f, count_of D (<[va := w']> M) o f = count_of D M o f - b2z (PTE2PA w =? f) + b2z (p =? f)).
  { intros f. unfold count_of. rewrite (refs_update M va w) by done. rewrite FO, How, Epa. cbn [andb]. lia. }
  assert (Hkeep : forall x, fr_byte (frames V3) x = write_block (fr_byte s) p (bytes_at s (PTE2PA w) PGSIZE) x).
  { intros x. rewrite <-Hb2. destruct (Hb3 x) as [->|[_ H1]]; [by rewrite HB|]. exfalso. unfold count_of in H1, Hmany. unfold plus in H1.
    rewrite (refs_update M va w) in H1 by done. rewrite FO, How, Epa, Z.eqb_refl, (proj2 (Z.eqb_neq p _)) in H1 by done. cbn in H1. lia. }
  exists V2, V3, w'. rewrite E. split; [done|]. split; [done|]. split; [|by rewrite HF3, HF]. split; try done.
  - rewrite Epa, Hc, Z.eqb_refl, (proj2 (Z.eqb_neq _ _)) by done. cbn. lia.
  - intros i Hi. rewrite Hkeep, Epa. unfold write_block, bytes_at. rewrite decide_True by lia.
    rewrite list_lookup_fmap, lookup_seqZ_lt by lia. cbn. replace (PTE2PA w + Z.of_nat (Z.to_nat (p + i - p))) with (PTE2PA w + i) by lia.
    apply (gr_bytes _ _ _ _ _ _ HG1 (PTE2PA w)); [lia|lia|apply PTE2PA_aligned].
  - intros f x Hfp Hcf Hx Hfa. rewrite Epa in Hfp. rewrite Hkeep. unfold write_block. assert (Hout : ~ (p <= x < p + PGSIZE)).
    { intros Hx'. apply Hfp. unfold PGSIZE in *. Z.div_mod_to_equations. lia. }
    rewrite Hc, (proj2 (Z.eqb_neq p f)) in Hcf by done. cbn in Hcf. unfold b2z in Hcf.
    assert (Hs : fr_byte s x = fr_byte (frames V) x) by (apply (gr_bytes _ _ _ _ _ _ HG1 f); try done; destruct (_ =? f); lia).
    rewrite <-Hs. case_decide; [|done]. rewrite lookup_ge_None_2; [done|]. unfold bytes_at. rewrite length_fmap, length_seqZ. lia.
  - intros b Hb. rewrite HT3. rewrite HE by done. done.
Qed.
End resolve.

Lemma made_private_flush V V' pgdir D M o va w w' : made_private V V' pgdir D M o va w w' ->
  made_private V (cpu_tlb_flush_all V') pgdir D M o va w w'.
Proof.
  intros [[A B C] A2 A3 A4 A5 A6]. split; try done. split; [|done|done]. eapply space_tables; [|exact A]. done.
Qed.

Lemma vm_resolve_cow_ok V pgdir D M o va : aspace V pgdir D M o -> 0 <= va < MAXVA -> PGROUNDDOWN va <> USER_SIGRETURN ->
  let page := PGROUNDDOWN va in
  match M !! page with
  | Some w =>
      if has_bits w PTE_SW_USER then
        if has_bits w PTE_SW_COW then
          (exists V' w', vm_resolve_cow V pgdir va = Ret (1, V') /\ made_private V V' pgdir D M o page w w' /\
             flushes V' = flushes V + 1) \/
          vm_resolve_cow V pgdir va = Ret (-1, V) /\ 1 < count_of D M o (PTE2PA w)
        else vm_resolve_cow V pgdir va = Ret (b2z (has_bits w PTE_W), V)
      else vm_resolve_cow V pgdir va = Ret (0, V)
  | None => vm_resolve_cow V pgdir va = Ret (0, V)
  end.
Proof.
  intros HA Hva Hsig page. fold page in Hsig. destruct (PGROUNDDOWN_page va Hva) as [Hp Ha]. fold page in Hp, Ha.
  pose proof (as_space _ _ _ _ _ HA) as HS. unfold vm_resolve_cow. fold page.
  rewrite (PTE_find V pgdir D M HS) by done. cbn [mbind outcome_bind].
  destruct (D !! prefix page 0) as [a|] eqn:HD; [|by rewrite (unmapped_None V pgdir D M HS page HD)].
  destruct (leaf_lookup V pgdir D M HS page a Hp Ha HD) as (w & -> & HW). cbn [mbind outcome_bind].
  destruct (has_bits w PTE_V) eqn:HV; cbn [negb orb]; [|by rewrite HW]. destruct HW as (HM & HR & Hu). rewrite HM.
  destruct (has_bits w PTE_SW_USER) eqn:HU; cbn [negb]; [|done].
  destruct (has_bits w PTE_SW_COW) eqn:HC; cbn [negb]; [|done].
  destruct (flags_ok page w HV HU Hsig) as (_ & How & _). destruct (owned_frame V pgdir D M o page w HA HM How) as [_ Hc].
  destruct (fr_count_ok _ _ (PTE2PA w) (as_frames _ _ _ _ _ HA)) as [-> _]. cbn [mbind outcome_bind]. fold (count_of D M o (PTE2PA w)).
  assert (HTc : truth (count_of D M o (PTE2PA w)) = true) by (unfold truth; rewrite (proj2 (Z.eqb_neq _ 0)); [done|lia]).
  rewrite HTc. cbn [negb].
  destruct (Z.eqb_spec (count_of D M o (PTE2PA w)) 1) as [H1|H1].
  - left. destruct (resolve_last V pgdir D M o page a w HA HM HD HV HU Hu Hsig H1) as (V' & -> & HP & HF). cbn [mbind outcome_bind].
    eexists _, _. split; [done|]. split; [by apply made_private_flush|cbn; lia].
  - destruct (take_ok V pgdir D M o false HA) as (p & s & -> & [[-> ->]|(Hpos & Hup & Hpa & H0 & HA1 & HG1 & _)]).
    { right. cbn [mbind outcome_bind]. cbv zeta. rewrite with_same. split; [reflexivity|lia]. }
    left. cbn [mbind outcome_bind]. assert (HT : truth p = true) by (unfold truth; rewrite (proj2 (Z.eqb_neq p 0)); [done|lia]).
    rewrite HT. cbn [negb]. cbn [frames with_frames].
    destruct (resolve_copy V pgdir D M o page a w HA HM HD HV HU Hsig p s) as (V2 & V3 & w' & E2 & E3 & HP & HF); try done; [lia|].
    fold (with_frames V (fr_write s p (bytes_at s (PTE2PA w) PGSIZE))).
    change (with_frames (with_frames V s) (fr_write s p (bytes_at s (PTE2PA w) PGSIZE))) with (with_frames V (fr_write s p (bytes_at s (PTE2PA w) PGSIZE))).
    rewrite E2. cbn [mbind outcome_bind]. rewrite E3. cbn [mbind outcome_bind]. eexists _, _. split; [done|].
    split; [by apply made_private_flush|cbn; lia].
Qed.
End cow.
