(* ===== verification/VmFork.v ===== *)
(** * Copying an address space

    [vm_copy] walks the tables of the parent in the order of addresses.  After
    the pages below a bound, the parent has its private writable pages marked
    copy-on-write ([parent_upto]) and the child maps the same frames
    ([child_upto]).  [two] keeps the books of both spaces over one allocator. *)
From S2P Require Import Prelude Vma Vm VmSpace VmMap VmAlloc VmAccess VmCopy VmCow.

Section two.
  Context {St : Type} {FS : Frames St} {FL : FramesLaws St}.
  Implicit Types (V : vm St) (D : gmap (list nat) Z) (M : gmap Z Z) (old new va a w : Z) (o : Z -> Z).

(** Two spaces with separate tables. *)
Record two V old D M new D2 M2 o : Prop := {
  tw_parent : space V old D M;
  tw_child : space V new D2 M2;
  tw_frames : fr_ok (frames V) (fun f => o f + refs M f + tabs D f + refs M2 f + tabs D2 f);
  tw_others f : 0 <= o f;
  tw_apart a : table_of D a -> ~ table_of D2 a }.

(** What one space is for the other. *)
Definition other M D o : Z -> Z := fun f => o f + refs M f + tabs D f.

Lemma parts_nonneg M D f : 0 <= refs M f /\ 0 <= tabs D f.
Proof. split; apply tally_nonneg. Qed.

Lemma two_parent V old D M new D2 M2 o : two V old D M new D2 M2 o -> aspace V old D M (other M2 D2 o).
Proof.
  intros [A B C F G]. split; [done| |].
  - eapply fr_ok_ext; [|exact C]. intros f. unfold other. cbn. lia.
  - intros f. unfold other. destruct (parts_nonneg M2 D2 f). specialize (F f). lia.
Qed.

Lemma two_child V old D M new D2 M2 o : two V old D M new D2 M2 o -> aspace V new D2 M2 (other M D o).
Proof.
  intros [A B C F G]. split; [done| |].
  - eapply fr_ok_ext; [|exact C]. intros f. unfold other. cbn. lia.
  - intros f. unfold other. destruct (parts_nonneg M D f). specialize (F f). lia.
Qed.

(** A space whose tables stay as they are. *)
Lemma space_else V V' pgdir D M : (forall a, table_of D a -> tables V' !! a = tables V !! a) -> space V pgdir D M -> space V' pgdir D M.
Proof.
  intros E HS. assert (ED : forall p a, D !! p = Some a -> tables V' !! a = tables V !! a) by (intros p a Hp; apply E; by exists p).
  split.
  - apply HS.
  - intros p a Hp. rewrite (ED p a Hp). exact (sp_table _ _ _ _ HS p a Hp).
  - apply HS.
  - intros p a es i w Hp. rewrite (ED p a Hp). exact (sp_upper _ _ _ _ HS p a es i w Hp).
  - intros p a es i w Hp. rewrite (ED p a Hp). exact (sp_lower _ _ _ _ HS p a es i w Hp).
  - apply HS.
  - apply HS.
  - intros va w. rewrite (sp_map _ _ _ _ HS va w). do 2 (apply and_iff_compat_l).
    split; intros (a & es & HD & Hes & H); exists a, es; rewrite (ED _ a HD) in *; done.
Qed.

Lemma table_counted D a : table_of D a -> 0 < tabs D a.
Proof. intros [p Hp]. apply (tally_pos (fun _ x => x =? a) D p a Hp). apply Z.eqb_refl. Qed.

Lemma table_uncounted D a : tabs D a = 0 <-> ~ table_of D a.
Proof.
  split; [intros H0 H%table_counted; lia|]. intros HN. destruct (Z.lt_ge_cases 0 (tabs D a)) as [Hlt|Hge].
  - apply (tally_inv (fun _ x => x =? a)) in Hlt as (p & x & Hp & ->%Z.eqb_eq). destruct HN. by exists p.
  - pose proof (tally_nonneg (fun _ x => x =? a) D). unfold tabs in *. lia.
Qed.

(** A step of the child that only takes fresh frames for tables. *)
Lemma two_child_step V V' old D M new D2 D2' M2 M2' o o' o1 : two V old D M new D2 M2 o -> aspace V' new D2' M2' (other M D o') ->
  grows V V' D2 D2' M2 (other M D o1) -> (forall f, 0 <= o1 f) -> (forall f, 0 <= o' f) -> two V' old D M new D2' M2' o'.
Proof.
  intros [A B C F G] HA' HG Ho1 Ho'.
  assert (HN : forall a, table_of D a -> ~ table_of D2' a).
  { intros a Ha. apply table_uncounted. rewrite (gr_tabs _ _ _ _ _ _ HG); [by apply table_uncounted, G|].
    apply table_counted in Ha. destruct (parts_nonneg M2 D2 a), (parts_nonneg M D a). specialize (Ho1 a). unfold count_of, other. lia. }
  split; [|apply HA'| |done|done].
  - eapply space_else; [|exact A]. intros a Ha. apply (gr_else _ _ _ _ _ _ HG). by apply HN.
  - eapply fr_ok_ext; [|exact (as_frames _ _ _ _ _ HA')]. intros f. unfold other. cbn. lia.
Qed.

(** A step of the parent on its own tables. *)
Lemma two_parent_step V V' old D M M' new D2 M2 o o' : two V old D M new D2 M2 o -> aspace V' old D M' (other M2 D2 o') ->
  elsewhere V V' D -> (forall f, 0 <= o' f) -> two V' old D M' new D2 M2 o'.
Proof.
  intros [A B C F G] HA' HE Ho'. split; [apply HA'| | |done|done].
  - eapply space_else; [|exact B]. intros a Ha. apply HE. intros Ha'. by apply (G a).
  - eapply fr_ok_ext; [|exact (as_frames _ _ _ _ _ HA')]. intros f. unfold other. cbn. lia.
Qed.

(** One more reference on a frame in use. *)
Lemma two_get V old D M new D2 M2 o f s : two V old D M new D2 M2 o -> fr_ok s (upd (fun f => o f + refs M f + tabs D f + refs M2 f + tabs D2 f) f
    (o f + refs M f + tabs D f + refs M2 f + tabs D2 f + 1)) -> two (with_frames V s) old D M new D2 M2 (plus o true f).
Proof.
  intros [A B C F G] Hok. split; [by eapply space_tables; [|exact A]|by eapply space_tables; [|exact B]| | |done].
  - eapply fr_ok_ext; [|exact Hok]. intros x. cbn. unfold upd, plus, b2z. cbn.
    destruct (Z.eqb_spec f x) as [->|]; [rewrite decide_True by done|rewrite decide_False by done]; lia.
  - intros x. unfold plus, b2z. specialize (F x). destruct (true && (f =? x)); lia.
Qed.

(** Dropping a reference on a frame the parent maps. *)
Lemma two_put V old D M new D2 M2 o f : two V old D M new D2 M2 (plus o true f) -> (forall f, 0 <= o f) -> 0 < refs M f ->
  exists V', put_page V f = Ret V' /\ two V' old D M new D2 M2 o /\ tables V' = tables V /\ flushes V' = flushes V /\
    forall x, fr_byte (frames V') x = fr_byte (frames V) x.
Proof.
  intros HT Ho Hr.
  assert (HP : aspace V old D M (plus (other M2 D2 o) true f)).
  { eapply aspace_ext; [|exact (two_parent _ _ _ _ _ _ _ _ HT)]. intros x. unfold other, plus. lia. }
  destruct (unpin_ok V old D M (other M2 D2 o) f HP) as (V' & E & HA & HTb & HF & Hb); [|done|].
  - intros x. unfold other. destruct (parts_nonneg M2 D2 x). specialize (Ho x). lia.
  - exists V'. split_and!; try done. eapply two_parent_step; try done. intros a _. by rewrite HTb.
Qed.
End two.

(** ** The maps after the pages below a bound *)

Section maps.
  Context (vmas : list vm_area).
  Implicit Types (M : gmap Z Z) (va w b : Z).

(** The leaves [vm_copy] copies. *)
Definition user va w : bool := (va <? USER_SIGRETURN) && has_bits w (Z.lor PTE_U PTE_SW_USER).

(** The area of an address. *)
Definition area_of va : option vm_area := vma_find vmas va ≫= (fun i => vmas !! i).

(** Private writable pages become copy-on-write in both spaces. *)
Definition shares va w : bool :=
  match area_of va with Some area => (Z.land (flags area) 0xf =? LINUX_MAP_PRIVATE) && has_bits w PTE_W | None => false end.
Definition fork_entry va w : Z := if shares va w then Z.lor (without w PTE_W) PTE_SW_COW else w.
Definition child_entry va w : Z := entry_of (PTE2PA w) (Z.lor PTE_V (Z.land (fork_entry va w) 0x3ff)).

Definition parent_upto b M : gmap Z Z :=
  map_imap (fun va w => Some (if (va <? b) && user va w then fork_entry va w else w)) M.
Definition child_upto b M M2 : gmap Z Z :=
  M2 ∪ map_imap (fun va w => if (va <? b) && user va w then Some (child_entry va w) else None) M.

Lemma parent_lookup b M va : parent_upto b M !! va = (fun w => if (va <? b) && user va w then fork_entry va w else w) <$> M !! va.
Proof. unfold parent_upto. rewrite map_lookup_imap. by destruct (M !! va). Qed.

Lemma child_lookup b M M2 va : child_upto b M M2 !! va = match M2 !! va with
  | Some w => Some w
  | None => w ← M !! va; if (va <? b) && user va w then Some (child_entry va w) else None
  end.
Proof.
  unfold child_upto. destruct (M2 !! va) eqn:E.
  - by apply lookup_union_Some_l.
  - rewrite lookup_union_r by done. by rewrite map_lookup_imap.
Qed.

Lemma upto_skip b b' M M2 : b <= b' -> (forall va w, b <= va < b' -> M !! va = Some w -> user va w = false) ->
  parent_upto b' M = parent_upto b M /\ child_upto b' M M2 = child_upto b M M2.
Proof.
  intros Hb Hn. assert (E : forall va w, M !! va = Some w -> (va <? b') && user va w = (va <? b) && user va w).
  { intros va w Hw. destruct (Z.ltb_spec va b), (Z.ltb_spec va b'); try done; try lia. cbn. by apply (Hn va w). }
  split; apply map_eq; intros va.
  - rewrite !parent_lookup. destruct (M !! va) as [w|] eqn:Hw; cbn; [|done]. by rewrite (E va w Hw).
  - rewrite !child_lookup. destruct (M2 !! va); [done|]. destruct (M !! va) as [w|] eqn:Hw; cbn; [|done]. by rewrite (E va w Hw).
Qed.

(** One user page further; all addresses are page aligned. *)
Lemma upto_page va w M M2 : M !! va = Some w -> user va w = true -> M2 !! va = None ->
  (forall k x, M !! k = Some x -> k mod PGSIZE = 0) -> va mod PGSIZE = 0 ->
  parent_upto (va + PGSIZE) M = <[va := fork_entry va w]> (parent_upto va M) /\
  child_upto (va + PGSIZE) M M2 = <[va := child_entry va w]> (child_upto va M M2).
Proof.
  intros HM HU H2 Hal Ha. assert (E : forall k x, M !! k = Some x -> k <> va -> (k <? va + PGSIZE) = (k <? va)).
  { intros k x Hk Hne. specialize (Hal k x Hk). unfold PGSIZE in *.
    destruct (Z.ltb_spec k (va + 4096)), (Z.ltb_spec k va); try done; Z.div_mod_to_equations; lia. }
  assert (Hlt : (va <? va + PGSIZE) = true) by (apply Z.ltb_lt; unfold PGSIZE; lia).
  split; apply map_eq; intros k; (destruct (decide (k = va)) as [->|Hne]; [rewrite lookup_insert_eq|rewrite lookup_insert_ne by done]).
  - rewrite parent_lookup, HM. cbn. by rewrite Hlt, HU.
  - rewrite !parent_lookup. destruct (M !! k) as [x|] eqn:Hk; cbn; [|done]. by rewrite (E k x Hk).
  - rewrite child_lookup, H2, HM. cbn. by rewrite Hlt, HU.
  - rewrite !child_lookup. destruct (M2 !! k); [done|]. destruct (M !! k) as [x|] eqn:Hk; cbn; [|done]. by rewrite (E k x Hk).
Qed.

Lemma user_owned_leaf va w : user va w = true -> owned va w = true /\ va <> USER_SIGRETURN /\ va < USER_SIGRETURN.
Proof.
  unfold user, owned. intros [Hlt%Z.ltb_lt ->]%andb_true_iff. rewrite (proj2 (Z.eqb_neq va _)) by lia. split; [done|lia].
Qed.

(** The entries [vm_copy] writes are leaves of the same frame. *)
Lemma fork_entry_facts va w : is_u64 w -> has_bits w PTE_V = true -> has_bits w PTE_RWX = true ->
  (has_bits w PTE_W = true -> has_bits w PTE_R = true) ->
  let c := fork_entry va w in
  is_u64 c /\ PTE2PA c = PTE2PA w /\ has_bits c PTE_V = true /\ has_bits c PTE_RWX = true /\
  forall b, 0 <= b < 1024 -> Z.land b PTE_W = 0 -> has_bits PTE_SW_COW b = false -> has_bits c b = has_bits w b.
Proof.
  intros Hu HV HR HW c. unfold c, fork_entry. destruct (shares va w) eqn:Hs; [|done].
  assert (Hw : has_bits w PTE_W = true).
  { unfold shares in Hs. destruct (area_of va); [|done]. by apply andb_true_iff in Hs as [_ ->]. }
  pose proof (Z.mod_pos_bound w 1024 ltac:(lia)) as Hm.
  assert (Hf0 : 0 <= without (w mod 1024) PTE_W < 1024) by (apply without_range; [done|done]).
  destruct (with_flags_facts w _ Hu Hf0) as (E1 & U1 & F1 & B1). rewrite <-without_flags in E1, U1, F1, B1 by flag_bound.
  set (x := without w PTE_W) in *.
  assert (Hf1 : 0 <= Z.lor (x mod 1024) PTE_SW_COW < 1024) by (apply flags_bound; [apply Z.mod_pos_bound; lia|flag_bound]).
  destruct (with_flags_facts x _ U1 Hf1) as (E2 & U2 & F2 & B2). rewrite <-lor_flags in E2, U2, F2, B2 by flag_bound.
  assert (B : forall b, 0 <= b < 1024 -> Z.land b PTE_W = 0 -> has_bits PTE_SW_COW b = false -> has_bits (Z.lor x PTE_SW_COW) b = has_bits w b).
  { intros b Hb Hbw Hbc. rewrite has_bits_lor, Hbc, orb_false_r. unfold x. by apply has_bits_without. }
  split; [done|]. split; [congruence|]. split; [by rewrite B by (flag_bound || done)|]. split; [|done].
  rewrite has_bits_lor. apply orb_true_iff. left. change PTE_RWX with (Z.lor PTE_R (Z.lor PTE_W PTE_X)). apply has_either. left.
  unfold x. rewrite has_bits_without by done. auto.
Qed.

Lemma child_entry_facts va w : is_u64 w -> has_bits w PTE_V = true -> has_bits w PTE_RWX = true ->
  (has_bits w PTE_W = true -> has_bits w PTE_R = true) ->
  let perm := Z.land (fork_entry va w) 0x3ff in
  0 <= perm < 1024 /\ has_bits perm PTE_RWX = true /\
  (has_bits w (Z.lor PTE_U PTE_SW_USER) = true -> va <> USER_SIGRETURN -> owned va (child_entry va w) = true) /\
  PTE2PA (child_entry va w) = PTE2PA w /\ is_u64 (PTE2PA w) /\ PTE2PA w mod PGSIZE = 0.
Proof.
  intros Hu HV HR HW perm. destruct (fork_entry_facts va w Hu HV HR HW) as (Uc & Ec & HVc & HRc & Hb).
  assert (Em : perm = fork_entry va w mod 1024) by (unfold perm; change 0x3ff with (Z.ones 10); by rewrite Z.land_ones by lia).
  assert (Hp : 0 <= perm < 1024) by (rewrite Em; apply Z.mod_pos_bound; lia).
  assert (Hpu : is_u64 (PTE2PA w)) by (rewrite PTE2PA_eq; apply wrap64_range).
  assert (Hfl : 0 <= Z.lor PTE_V perm < 1024) by (apply flags_bound; [flag_bound|done]).
  split; [done|]. split; [rewrite Em, mod_flags by flag_bound; done|]. split; [|split; [|split; [done|apply PTE2PA_aligned]]].
  - intros HU Hsig. unfold owned, child_entry. fold perm. rewrite (proj2 (Z.eqb_neq va _)) by done.
    rewrite has_bits_entry by (done || flag_bound). rewrite has_bits_lor. apply orb_true_iff. right.
    rewrite Em, mod_flags by flag_bound. by rewrite Hb by (done || flag_bound).
  - apply PTE2PA_entry; [done|apply PTE2PA_aligned|done].
Qed.
End maps.

(** * The walk of [vm_copy]

    [fork_inv bp bc] holds when the parent is marked below [bp] and the child
    has the pages below [bc].  A walk over a table moves both bounds over the
    addresses the table covers, or fails and leaves them somewhere. *)

Section walk.
  Context {St : Type} {FS : Frames St} {FL : FramesLaws St}.
  Implicit Types (V : vm St) (D : gmap (list nat) Z) (va a w : Z) (ch : bool).
  Context (vmas : list vm_area) (V0 : vm St) (old new : Z) (D0 D20 : gmap (list nat) Z) (M M2 : gmap Z Z) (o : Z -> Z).
  Context (Hstart : two V0 old D0 M new D20 M2 o)
    (Hempty : forall va, va < USER_SIGRETURN -> M2 !! va = None)
    (Habove : forall va w, M !! va = Some w -> USER_SIGRETURN < va -> has_bits w (Z.lor PTE_U PTE_SW_USER) = false)
    (Hread : forall va w, M !! va = Some w -> has_bits w PTE_W = true -> has_bits w PTE_R = true).

(** References at the start. *)
Definition cnt0 (f : Z) : Z := o f + refs M f + tabs D0 f + refs M2 f + tabs D20 f.

Record fork_inv (bp bc : Z) V D2 ch : Prop := {
  fi_two : two V old D0 (parent_upto vmas bp M) new D2 (child_upto vmas bc M M2) o;
  fi_sub : D20 ⊆ D2;
  fi_bytes f x : 0 < cnt0 f -> f <= x < f + PGSIZE -> f mod PGSIZE = 0 -> fr_byte (frames V) x = fr_byte (frames V0) x;
  fi_else a : ~ table_of D0 a -> ~ table_of D2 a -> tables V !! a = tables V0 !! a;
  fi_flush : flushes V0 <= flushes V;
  fi_changed : ch = false -> parent_upto vmas bp M = M }.

Lemma leaf_facts va w : M !! va = Some w -> page_va va /\ is_u64 w /\ has_bits w PTE_V = true /\ has_bits w PTE_RWX = true.
Proof.
  intros HM. destruct (map_range V0 old D0 M (tw_parent _ _ _ _ _ _ _ _ Hstart) va w HM) as (? & ? & Hl & ?).
  unfold is_leaf in Hl. apply andb_true_iff in Hl as [? ?]. done.
Qed.

Lemma parent_refs b f : refs (parent_upto vmas b M) f = refs M f.
Proof.
  unfold refs, tally. rewrite <-!size_dom. do 2 f_equal. apply set_eq. intros va. rewrite !elem_of_dom. unfold is_Some.
  setoid_rewrite map_lookup_filter_Some. cbn [fst snd]. rewrite parent_lookup.
  destruct (M !! va) as [w|] eqn:HM; cbn; [|naive_solver]. destruct (leaf_facts va w HM) as (_ & Hu & HV & HR).
  set (w' := if (va <? b) && user va w then fork_entry vmas va w else w).
  assert (E : owned va w' && (PTE2PA w' =? f) = owned va w && (PTE2PA w =? f)).
  { unfold w'. destruct (_ && user va w) eqn:Eu; [|done].
    destruct (fork_entry_facts vmas va w Hu HV HR (Hread va w HM)) as (_ & -> & _ & _ & Hb).
    unfold owned. by rewrite Hb by (done || flag_bound). }
  split; intros (x & <-%(inj Some) & H); eexists; (split; [done|]); congruence.
Qed.

Lemma child_sub b : M2 ⊆ child_upto vmas b M M2.
Proof. apply map_subseteq_spec. intros va w Hw. rewrite child_lookup. by rewrite Hw. Qed.

(** Counts never go below the ones at the start. *)
Lemma counts_grow D2 b b' f : D20 ⊆ D2 ->
  cnt0 f <= o f + refs (parent_upto vmas b M) f + tabs D0 f + refs (child_upto vmas b' M M2) f + tabs D2 f.
Proof.
  intros HD. rewrite parent_refs. unfold cnt0. pose proof (refs_mono M2 (child_upto vmas b' M M2) f (child_sub b')).
  pose proof (tabs_mono D20 D2 f HD). lia.
Qed.

Lemma fork_start : fork_inv 0 0 V0 D20 false.
Proof.
  assert (Hz : forall va w, M !! va = Some w -> (va <? 0) = false).
  { intros va w HM. destruct (leaf_facts va w HM) as ([[? ?] _] & _). apply Z.ltb_ge. lia. }
  assert (E1 : parent_upto vmas 0 M = M).
  { apply map_eq. intros va. rewrite parent_lookup. destruct (M !! va) as [w|] eqn:HM; cbn; [|done]. by rewrite (Hz va w HM). }
  assert (E2 : child_upto vmas 0 M M2 = M2).
  { apply map_eq. intros va. rewrite child_lookup. destruct (M2 !! va); [done|]. destruct (M !! va) as [w|] eqn:HM; cbn; [|done].
    by rewrite (Hz va w HM). }
  split; try done. by rewrite E1, E2.
Qed.

Lemma fork_skip b b' V D2 ch : b <= b' -> (forall va w, b <= va < b' -> M !! va = Some w -> user va w = false) ->
  fork_inv b b V D2 ch -> fork_inv b' b' V D2 ch.
Proof.
  intros Hb Hn [A B C E F G]. destruct (upto_skip vmas b b' M M2 Hb Hn) as [E1 E2]. split; try done; by rewrite ?E1, ?E2.
Qed.

(** ** One user page *)

Section page.
  Context (va a w : Z) (HM : M !! va = Some w) (HU : user va w = true) (HD : D0 !! prefix va 0 = Some a).

Lemma page_new : M2 !! va = None /\ child_upto vmas va M M2 !! va = None /\ parent_upto vmas va M !! va = Some w.
Proof.
  destruct (user_owned_leaf va w HU) as (_ & _ & Hlt). assert (E : M2 !! va = None) by (by apply Hempty). split; [done|].
  rewrite child_lookup, parent_lookup, E, HM. cbn. by rewrite Z.ltb_irrefl.
Qed.

Lemma page_next : parent_upto vmas (va + PGSIZE) M = <[va := fork_entry vmas va w]> (parent_upto vmas va M) /\
  child_upto vmas (va + PGSIZE) M M2 = <[va := child_entry vmas va w]> (child_upto vmas va M M2).
Proof.
  destruct page_new as (? & _). apply upto_page; try done.
  - intros k x Hk. destruct (leaf_facts k x Hk) as ([_ ?] & _). done.
  - destruct (leaf_facts va w HM) as ([_ ?] & _). done.
Qed.

(** The mark in the parent, with a reference taken for the child. *)
Lemma page_mark V D2 : two V old D0 (parent_upto vmas va M) new D2 (child_upto vmas va M M2) (plus o true (PTE2PA w)) ->
  exists V', (if shares vmas va w then pte_store V (a, PTEX 0 va) (fork_entry vmas va w) else Ret V) = Ret V' /\
    two V' old D0 (parent_upto vmas (va + PGSIZE) M) new D2 (child_upto vmas va M M2) (plus o true (PTE2PA w)) /\
    frames V' = frames V /\ flushes V' = flushes V /\ elsewhere V V' D0.
Proof.
  intros HT. destruct page_new as (_ & _ & HP), page_next as [E _]. destruct (leaf_facts va w HM) as (Hva & Hu & HV & HR).
  destruct (fork_entry_facts vmas va w Hu HV HR (Hread va w HM)) as (Uc & Ec & HVc & HRc & Hb).
  destruct (shares vmas va w) eqn:Hs; cycle 1.
  { exists V. split_and!; try done. rewrite E. unfold fork_entry. rewrite Hs. by rewrite insert_id. }
  destruct (replace_ok V old D0 _ _ (other (child_upto vmas va M M2) D2 (plus o true (PTE2PA w))) va a w (fork_entry vmas va w) (two_parent _ _ _ _ _ _ _ _ HT) HP HD HVc HRc Uc)
    as (V' & Es & HA' & HE & HF & HB).
  - exact (as_others _ _ _ _ _ (two_parent _ _ _ _ _ _ _ _ HT)).
  - intros f. unfold owned. rewrite Ec, Hb by (done || flag_bound). lia.
  - exists V'. split; [done|]. split; [|done]. rewrite E. eapply two_parent_step; try done. exact (tw_others _ _ _ _ _ _ _ _ HT).
Qed.

Lemma changed_next ch : (ch = false -> parent_upto vmas va M = M) -> ch || shares vmas va w = false -> parent_upto vmas (va + PGSIZE) M = M.
Proof.
  intros Hc [-> Hs]%orb_false_iff. destruct page_next as [E _], page_new as (_ & _ & HP). rewrite E. unfold fork_entry. rewrite Hs.
  rewrite insert_id by done. by apply Hc.
Qed.

(** The child takes over the reference, or it is dropped again. *)
Lemma page_map V D2 : two V old D0 (parent_upto vmas (va + PGSIZE) M) new D2 (child_upto vmas va M M2) (plus o true (PTE2PA w)) ->
  D20 ⊆ D2 ->
  exists V' D2' rc, vm_map V new va (PTE2PA w) PGSIZE (Z.land (fork_entry vmas va w) 0x3ff) = Ret (rc, V') /\
    D2 ⊆ D2' /\ elsewhere V V' D2' /\ flushes V <= flushes V' /\
    (forall f x, 0 < cnt0 f -> f <= x < f + PGSIZE -> f mod PGSIZE = 0 -> fr_byte (frames V') x = fr_byte (frames V) x) /\
    (rc = 0 /\ two V' old D0 (parent_upto vmas (va + PGSIZE) M) new D2' (child_upto vmas (va + PGSIZE) M M2) o \/
     rc = -1 /\ two V' old D0 (parent_upto vmas (va + PGSIZE) M) new D2' (child_upto vmas va M M2) (plus o true (PTE2PA w))).
Proof.
  intros HT HS. destruct page_new as (_ & HC & _), page_next as [_ E]. destruct (leaf_facts va w HM) as ([Hva Ha] & Hu & HV & HR).
  destruct (child_entry_facts vmas va w Hu HV HR (Hread va w HM)) as (Hp & HpR & How & Epa & Hpu & Hpa).
  pose proof (tw_others _ _ _ _ _ _ _ _ HT) as Ho. destruct (user_owned_leaf va w HU) as (_ & Hsig & _).
  assert (Howned : owned va (child_entry vmas va w) = true).
  { apply How; [|done]. unfold user in HU. by apply andb_true_iff in HU as [_ ->]. }
  pose proof (map_page_ok V new D2 _ _ va (PTE2PA w) _ (two_child _ _ _ _ _ _ _ _ HT) Hva Ha HC Hpu Hpa Hp HpR) as HMap.
  cbv zeta in HMap. fold (child_entry vmas va w) in HMap. destruct HMap as (V' & D2' & rc & Em & HG & Hrc).
  { intros _. unfold other, plus. rewrite Z.eqb_refl. destruct (parts_nonneg (parent_upto vmas (va + PGSIZE) M) D0 (PTE2PA w)).
    pose proof (tw_others _ _ _ _ _ _ _ _ Hstart (PTE2PA w)). cbn. lia. }
  exists V', D2', rc. split; [done|]. do 3 (split; [apply HG|]). split.
  { intros f x Hf. apply (gr_bytes _ _ _ _ _ _ HG). pose proof (counts_grow D2 (va + PGSIZE) va f HS). unfold count_of, other, plus, b2z.
    destruct (true && _); lia. }
  destruct Hrc as [[-> HA']|[-> HA']]; [right|left]; (split; [done|]).
  - eapply two_child_step; try done.
  - rewrite E. eapply (two_child_step V V' old D0 _ new D2 D2' _ _ _ o); [exact HT| |exact HG|done|].
    + eapply aspace_ext; [|exact HA']. intros f. rewrite Howned. unfold less, other, plus. lia.
    + apply Hstart.
Qed.

(** The code for a user page whose area is [area]. *)
Lemma page_copy V D2 ch area : fork_inv va va V D2 ch -> area_of vmas va = Some area ->
  let expr (K : vm St -> bool -> outcome (Z * vm St * bool)) :=
    let pa := PTE2PA w in
    '(rc, s) ← fr_get (frames V) pa;
    let V := with_frames V s in
    if rc <? 0 then Ret (-1, V, ch) else
    let share := (Z.land (flags area) 0xf =? LINUX_MAP_PRIVATE) && has_bits w PTE_W in
    let child_pte := if share then Z.lor (without w PTE_W) PTE_SW_COW else w in
    V ← if share then pte_store V (a, PTEX 0 va) child_pte else Ret V;
    let ch := ch || share in
    '(rc, V) ← vm_map V new va pa PGSIZE (Z.land child_pte 0x3ff);
    if rc <? 0 then V ← put_page V pa; Ret (-1, V, ch) else K V ch in
  (exists V' D2' ch', (forall K, expr K = K V' ch') /\ fork_inv (va + PGSIZE) (va + PGSIZE) V' D2' ch') \/
  (exists V' D2' ch' bp bc, (forall K, expr K = Ret (-1, V', ch')) /\ fork_inv bp bc V' D2' ch').
Proof.
  intros HI Harea expr. assert (Es : (Z.land (flags area) 0xf =? LINUX_MAP_PRIVATE) && has_bits w PTE_W = shares vmas va w).
  { unfold shares. by rewrite Harea. }
  unfold expr. rewrite Es. fold (fork_entry vmas va w). destruct HI as [HT HS HB HE HF HC].
  pose proof (fr_get_ok (frames V) _ (PTE2PA w) (tw_frames _ _ _ _ _ _ _ _ HT)) as HG. case_decide as Hd; cycle 1.
  { rewrite HG. right. cbn [mbind outcome_bind]. change (-1 <? 0) with true. cbv iota zeta. exists V, D2, ch, va, va.
    split; [intros; by rewrite with_same|done]. }
  destruct HG as (s & -> & Hok & Hb). cbn [mbind outcome_bind]. change (0 <? 0) with false. cbv iota zeta.
  pose proof (two_get _ _ _ _ _ _ _ _ (PTE2PA w) s HT Hok) as HT1.
  destruct (page_mark (with_frames V s) D2 HT1) as (V2 & E2 & HT2 & HF2 & HL2 & HE2). rewrite E2. cbn [mbind outcome_bind].
  destruct (page_map V2 D2 HT2 HS) as (V3 & D3 & rc & E3 & HS3 & HE3 & HL3 & HB3 & Hrc). rewrite E3. cbn [mbind outcome_bind].
  assert (HB' : forall f x, 0 < cnt0 f -> f <= x < f + PGSIZE -> f mod PGSIZE = 0 -> fr_byte (frames V3) x = fr_byte (frames V0) x).
  { intros f x Hf Hx Ha. rewrite (HB3 f x), HF2 by done. cbn. rewrite Hb. by apply (HB f). }
  assert (HE' : forall b, ~ table_of D0 b -> ~ table_of D3 b -> tables V3 !! b = tables V0 !! b).
  { intros b H1 H2. rewrite HE3, HE2 by done. cbn. apply HE; [done|]. intros [p Hp]. apply H2. exists p. by eapply lookup_weaken. }
  assert (HS' : D20 ⊆ D3) by (by etrans). assert (HL' : flushes V0 <= flushes V3) by (cbn in HL2; lia).
  destruct Hrc as [[-> HT3]|[-> HT3]].
  - left. exists V3, D3, (ch || shares vmas va w). split; [done|]. split; try done. by apply changed_next.
  - right. change (-1 <? 0) with true. cbv iota.
    destruct (two_put V3 _ _ _ _ _ _ o (PTE2PA w) HT3) as (V4 & E4 & HT4 & HTb & HF4 & Hb4).
    { apply Hstart. }
    { rewrite parent_refs. apply (tally_pos _ M va w HM). destruct (user_owned_leaf va w HU) as (-> & _). by rewrite Z.eqb_refl. }
    rewrite E4. exists V4, D3, (ch || shares vmas va w), (va + PGSIZE), va. split; [done|]. split; try done.
    + intros f x Hf Hx Ha. rewrite Hb4. by apply (HB' f).
    + intros b H1 H2. rewrite HTb. by apply HE'.
    + lia.
    + by apply changed_next.
Qed.
End page.

(** ** The tables *)

Lemma parent_space bp bc V D2 ch : fork_inv bp bc V D2 ch -> space V old D0 (parent_upto vmas bp M).
Proof. intros HI. apply (fi_two _ _ _ _ _ HI). Qed.

(** The result of a walk that ends at [e]. *)
Definition walked (e : Z) (r : outcome (Z * vm St * bool)) : Prop :=
  exists rc V D2 ch bp bc, r = Ret (rc, V, ch) /\ fork_inv bp bc V D2 ch /\ (rc = 0 /\ bp = e /\ bc = e \/ rc = -1).

Lemma walk_table walk i2 i1 a i n V D2 ch : D0 !! [i2; i1] = Some a -> (i + n = 512)%nat ->
  let base := path_base [i2; i1] in
  fork_inv (base + Z.of_nat i * PGSIZE) (base + Z.of_nat i * PGSIZE) V D2 ch ->
  walked (base + 512 * PGSIZE) (copy_entries walk 0 (seq i n) V a new base vmas ch).
Proof.
  intros HD Hin base. pose proof (tw_parent _ _ _ _ _ _ _ _ Hstart) as HS0.
  destruct (sp_up _ _ _ _ HS0 [i2] i1 a HD) as [[b Hb] Hi1]. pose proof (sp_low _ _ _ _ HS0 i2 b Hb) as Hi2.
  revert i V D2 ch Hin. induction n as [|n IH]; intros i V D2 ch Hin HI.
  { replace i with 512%nat in HI by lia. exists 0, V, D2, ch, (base + 512 * PGSIZE), (base + 512 * PGSIZE). split; [done|]. split; [done|by left]. }
  cbn [seq copy_entries]. set (va := base + Z.of_nat i * PGSIZE) in *.
  destruct (cover_page i2 i1 i va Hi2 Hi1 ltac:(lia) eq_refl) as (E2 & E1 & E0 & Hva & Ha).
  assert (Eva : Z.lor base (Z.shiftl (Z.of_nat i) (PGSHIFT + 9 * Z.of_nat 0)) = va) by (apply (entry_va [i2; i1]); [done|lia]).
  assert (HDv : D0 !! prefix va 0 = Some a) by (unfold prefix; by rewrite E2, E1).
  destruct (leaf_lookup V old D0 _ (parent_space _ _ _ _ _ HI) va a Hva Ha HDv) as (w & Hload & HW). rewrite E0 in Hload.
  rewrite Hload. cbn [mbind outcome_bind]. rewrite Eva. rewrite parent_lookup, Z.ltb_irrefl in HW. cbn [andb] in HW.
  assert (Hnext : (forall x, M !! va = Some x -> user va x = false) -> walked (base + 512 * PGSIZE) (copy_entries walk 0 (seq (S i) n) V a new base vmas ch)).
  { intros Hn. apply (IH (S i) V D2 ch); [lia|]. replace (base + Z.of_nat (S i) * PGSIZE) with (va + PGSIZE) by (unfold va, PGSIZE; lia).
    apply (fork_skip va); [unfold PGSIZE; lia| |done]. intros k x Hk HMk. destruct (leaf_facts k x HMk) as ([_ Hka] & _).
    assert (k = va) as -> by (unfold PGSIZE in *; Z.div_mod_to_equations; lia). by apply Hn. }
  destruct (has_bits w PTE_V) eqn:HV; cbn [negb]; cycle 1.
  { apply Hnext. destruct (M !! va); [done|]. intros x Hx. discriminate Hx. }
  destruct HW as (HW & HR & Hu). assert (HM : M !! va = Some w) by (destruct (M !! va); [by injection HW as ->|done]).
  destruct (Z.eqb_spec va USER_SIGRETURN) as [Esig|Hsig].
  { apply Hnext. intros x _. unfold user. rewrite Esig, Z.ltb_irrefl. done. }
  rewrite HR. cbn [negb]. destruct (has_bits w (Z.lor PTE_U PTE_SW_USER)) eqn:HUS; cbn [negb]; cycle 1.
  { apply Hnext. intros x Hx. assert (x = w) as -> by congruence. unfold user. rewrite HUS. apply andb_false_r. }
  assert (HUser : user va w = true).
  { unfold user. rewrite HUS, andb_true_r. apply Z.ltb_lt. destruct (Z.lt_trichotomy va USER_SIGRETURN) as [|[|Hgt]]; [done|done|].
    rewrite (Habove va w HM Hgt) in HUS. done. }
  fold (area_of vmas va). destruct (area_of vmas va) as [area|] eqn:Harea; cycle 1.
  { exists (-1), V, D2, ch, va, va. split; [done|]. split; [done|by right]. }
  destruct (page_copy va a w HM HUser HDv V D2 ch area HI Harea) as [(V' & D2' & ch' & E & HI')|(V' & D2' & ch' & bp & bc & E & HI')];
    rewrite E0 in E.
  - rewrite (E (fun V ch => copy_entries walk 0 (seq (S i) n) V a new base vmas ch)). apply (IH (S i) V' D2' ch'); [lia|].
    by replace (base + Z.of_nat (S i) * PGSIZE) with (va + PGSIZE) by (unfold va, PGSIZE; lia).
  - rewrite (E (fun V ch => copy_entries walk 0 (seq (S i) n) V a new base vmas ch)). exists (-1), V', D2', ch', bp, bc.
    split; [done|]. split; [done|by right].
Qed.

(** The walk one level down. *)
Definition walks (l : nat) (walk : vm St -> Z -> Z -> bool -> outcome (Z * vm St * bool)) : Prop :=
  forall p a V D2 ch, (length p + l = 2)%nat -> D0 !! p = Some a -> fork_inv (path_base p) (path_base p) V D2 ch ->
    walked (path_base p + 512 * level_span l) (walk V a (path_base p) ch).

Lemma walk_directory walk l p a i n V D2 ch : walks l walk -> (length p + S l = 2)%nat -> D0 !! p = Some a -> (i + n = 512)%nat ->
  let base := path_base p in
  fork_inv (base + Z.of_nat i * level_span (S l)) (base + Z.of_nat i * level_span (S l)) V D2 ch ->
  walked (base + 512 * level_span (S l)) (copy_entries walk (S l) (seq i n) V a new base vmas ch).
Proof.
  intros Hwalk Hl HD Hin base. pose proof (tw_parent _ _ _ _ _ _ _ _ Hstart) as HS0. assert (Hspan : 0 < level_span (S l)) by (unfold level_span; lia).
  revert i V D2 ch Hin. induction n as [|n IH]; intros i V D2 ch Hin HI.
  { replace i with 512%nat in HI by lia. exists 0, V, D2, ch, (base + 512 * level_span (S l)), (base + 512 * level_span (S l)).
    split; [done|]. split; [done|by left]. }
  cbn [seq copy_entries]. set (va := base + Z.of_nat i * level_span (S l)) in *.
  assert (Eva : Z.lor base (Z.shiftl (Z.of_nat i) (PGSHIFT + 9 * Z.of_nat (S l))) = va) by (apply entry_va; lia).
  assert (Eb : path_base (p ++ [i]) = va) by (by apply path_base_app).
  assert (Hnext : base + Z.of_nat (S i) * level_span (S l) = va + level_span (S l)) by (unfold va; lia).
  destruct (step_down V old D0 _ (parent_space _ _ _ _ _ HI) p a i HD ltac:(lia) ltac:(lia)) as (w & -> & HW). cbn [mbind outcome_bind]. rewrite Eva.
  assert (Hskip : (forall k x, va <= k < va + level_span (S l) -> M !! k = Some x -> user k x = false) ->
    walked (base + 512 * level_span (S l)) (copy_entries walk (S l) (seq (S i) n) V a new base vmas ch)).
  { intros Hn. apply (IH (S i) V D2 ch); [lia|]. rewrite Hnext. apply (fork_skip va); [lia|done|done]. }
  destruct (has_bits w PTE_V); cbn [negb]; cycle 1.
  { apply Hskip. intros k x Hk HMk. rewrite (no_table_no_leaf V0 old D0 M HS0 p i l k) in HMk; [done|done|lia|by eapply (path_small V0 old D0 M HS0)|done|by rewrite Eb]. }
  destruct HW as [-> HDi]. destruct (Z.eqb_spec va USER_SIGRETURN) as [Esig|Hsig].
  { apply Hskip. intros k x Hk _. unfold user. rewrite (proj2 (Z.ltb_ge k _)) by lia. done. }
  cbn [negb]. destruct (Hwalk (p ++ [i]) (PTE2PA w) V D2 ch) as (rc & V' & D2' & ch' & bp & bc & E & HI' & Hrc).
  - rewrite length_app. cbn. lia.
  - done.
  - by rewrite Eb.
  - rewrite Eb in E. rewrite E. cbn [mbind outcome_bind]. destruct Hrc as [(-> & -> & ->)| ->].
    + change (0 <? 0) with false. cbn iota. apply (IH (S i) V' D2' ch'); [lia|]. rewrite Hnext, span_S. by rewrite Eb in HI'.
    + change (-1 <? 0) with true. cbn iota. exists (-1), V', D2', ch', bp, bc. split; [done|]. split; [done|by right].
Qed.

Lemma copy_walk_S l V a base ch : vm_copy_walk (S l) new vmas V a base ch =
  copy_entries (vm_copy_walk l new vmas) (S l) (seq 0 512) V a new base vmas ch.
Proof. reflexivity. Qed.
Lemma copy_walk_O V a base ch : vm_copy_walk 0 new vmas V a base ch =
  copy_entries (fun V _ _ ch => Ret (-1, V, ch)) 0 (seq 0 512) V a new base vmas ch.
Proof. reflexivity. Qed.

Lemma copy_walk_ok : walked (2 ^ 39) (vm_copy_walk 2 new vmas V0 old 0 false).
Proof.
  assert (H0 : walks 0 (vm_copy_walk 0 new vmas)).
  { intros p a V D2 ch Hl HD HI. destruct p as [|i2 [|i1 [|? ?]]]; cbn [length] in Hl; try lia. rewrite copy_walk_O.
    refine (walk_table _ i2 i1 a 0 512 V D2 ch HD _ _); [reflexivity|]. rewrite Z.add_0_r. exact HI. }
  assert (H1 : walks 1 (vm_copy_walk 1 new vmas)).
  { intros p a V D2 ch Hl HD HI. rewrite copy_walk_S.
    refine (walk_directory _ 0 p a 0 512 V D2 ch H0 Hl HD _ _); [reflexivity|]. rewrite Z.add_0_r. exact HI. }
  rewrite copy_walk_S. refine (walk_directory _ 1 [] old 0 512 V0 D20 false H1 _ _ _ _); [reflexivity|apply Hstart|reflexivity|].
  rewrite Z.add_0_r. exact fork_start.
Qed.
End walk.
