(* ===== verification/VmFree.v ===== *)
(** * Freeing an address space

    [vm_free_user] drops the user pages of a space and [pagedir_free] its
    tables.  Together with [vm_unmap] of the pages of the kernel they give every
    frame back. *)
From S2P Require Import Prelude Vma Vm VmSpace VmMap VmAlloc.

Section free.
  Context {St : Type} {FS : Frames St} {FL : FramesLaws St}.
  Implicit Types (V : vm St) (D : gmap (list nat) Z) (M : gmap Z Z) (pgdir va a w b : Z) (o : Z -> Z).

(** ** User pages *)

(** A leaf [vm_free_user] drops. *)
Definition user_bits w : bool := has_bits w (Z.lor PTE_U PTE_SW_USER).

(** [M] without the user leaves below [b]. *)
Definition freed b M : gmap Z Z := filter (fun kv => (kv.1 <? b) && user_bits kv.2 = false) M.

Lemma freed_skip b b' M : b <= b' -> (forall va w, b <= va < b' -> M !! va = Some w -> user_bits w = false) -> freed b' M = freed b M.
Proof.
  intros Hb Hn. apply map_eq. intros va. apply option_eq. intros w. unfold freed. rewrite !map_lookup_filter_Some. cbn.
  split; intros [HM Hf]; (split; [done|]); destruct (Z.ltb_spec va b), (Z.ltb_spec va b'); try done; try lia; cbn in *; by apply (Hn va w).
Qed.

Lemma freed_page va w M : M !! va = Some w -> user_bits w = true -> (forall k x, M !! k = Some x -> k mod PGSIZE = 0) ->
  freed (va + PGSIZE) M = delete va (freed va M) /\ freed va M !! va = Some w.
Proof.
  intros HM HU Hal. split.
  - apply map_eq. intros k. apply option_eq. intros x. unfold freed. rewrite lookup_delete_Some, !map_lookup_filter_Some. cbn.
    pose proof (Hal va w HM) as Ha. unfold PGSIZE in *.
    assert (Hk : k = va \/ M !! k = None \/ (k <? va + 4096) = (k <? va)).
    { destruct (decide (k = va)) as [|Hne]; [by left|]. destruct (M !! k) as [y|] eqn:E; [|auto]. right; right. specialize (Hal k y E).
      destruct (Z.ltb_spec k (va + 4096)), (Z.ltb_spec k va); try done; Z.div_mod_to_equations; lia. }
    destruct Hk as [-> |[Hk|Hk]].
    + rewrite HM. split; [|naive_solver]. intros [<-%(inj Some) Hf]. rewrite HU, (proj2 (Z.ltb_lt va _)) in Hf by lia. done.
    + rewrite Hk. naive_solver.
    + rewrite Hk. split; [|naive_solver]. intros [Hx Hf]. split; [|done]. intros Ek. subst k.
      rewrite Z.ltb_irrefl, (proj2 (Z.ltb_lt va (va + 4096))) in Hk by lia. done.
  - unfold freed. rewrite map_lookup_filter_Some. cbn. by rewrite Z.ltb_irrefl.
Qed.

(** Dropping a user page the way [vm_free_user_walk] does, the reference first. *)
Lemma free_leaf V pgdir D M o va a w : aspace V pgdir D M o -> M !! va = Some w -> D !! prefix va 0 = Some a -> owned va w = true ->
  exists V1 V', put_page V (PTE2PA w) = Ret V1 /\ pte_store V1 (a, PTEX 0 va) 0 = Ret V' /\
    aspace V' pgdir D (delete va M) o /\ shrinks V V' D (delete va M) o.
Proof.
  intros HA HM HD Ho. destruct (map_range V pgdir D M (as_space _ _ _ _ _ HA) va w HM) as (Hva & Ha & _).
  set (f := PTE2PA w). assert (Hr : 0 < refs M f) by (apply (tally_pos _ M va w HM); by rewrite Ho, Z.eqb_refl).
  destruct (count_parts V pgdir D M o f HA) as (? & _ & ?).
  destruct (fr_put_ok (frames V) _ f (as_frames _ _ _ _ _ HA)) as (s & E & Hok & Hb); [cbv beta; lia|].
  assert (HS1 : space (with_frames V s) pgdir D M) by (eapply space_tables; [|apply HA]; done).
  destruct (store_ok (with_frames V s) pgdir D M va a 0 HS1 Hva Ha HD ltac:(done)) as (es & Es & HS & HE).
  change (set_word M va 0) with (delete va M) in HS. exists (with_frames V s). eexists. unfold put_page. rewrite E.
  split; [done|]. split; [exact Es|].
  assert (Hrefs : forall x, refs (delete va M) x = refs M x - b2z (f =? x)).
  { intros x. change (delete va M) with (set_word M va 0). rewrite (refs_clear M va w) by done. by rewrite Ho. }
  split; [split; [done| |apply HA]|split; [done|done|]].
  - eapply fr_ok_ext; [|exact Hok]. intros x. cbn. rewrite Hrefs. unfold upd, b2z.
    destruct (Z.eqb_spec f x) as [<-|]; [rewrite decide_True by done|rewrite decide_False by done]; lia.
  - intros g x Hg Hx Hga. cbn. destruct (Hb x) as [|[Hx' H1]]; [done|]. exfalso. pose proof (PTE2PA_aligned w) as Hfa. fold f in Hfa.
    assert (g = f) as -> by (unfold PGSIZE in *; Z.div_mod_to_equations; lia). unfold count_of in Hg. rewrite Hrefs, Z.eqb_refl in Hg.
    cbn in Hg. lia.
Qed.

Section walk.
  Context (V0 : vm St) (pgdir : Z) (D : gmap (list nat) Z) (M : gmap Z Z) (o : Z -> Z) (HA0 : aspace V0 pgdir D M o).

(** The page of the signal trampoline is mapped; its frame is not counted. *)
Definition sig_mapped : Prop := exists w, M !! USER_SIGRETURN = Some w /\ user_bits w = true /\ count_of D M o (PTE2PA w) = 0.
Context (Hsig : forall w, M !! USER_SIGRETURN = Some w -> user_bits w = true -> count_of D M o (PTE2PA w) = 0).

Definition free_inv b V : Prop :=
  aspace V pgdir D (freed b M) o /\ shrinks V0 V D (freed b M) o /\ (USER_SIGRETURN < b -> ~ sig_mapped).

(** A walk that ends at [e], or stops at the signal trampoline. *)
Definition frees (e : Z) (r : outcome (vm St)) : Prop :=
  (exists V, r = Ret V /\ free_inv e V) \/ r = Panic "put invalid page" /\ sig_mapped.

Lemma free_start : free_inv 0 V0.
Proof.
  assert (E : freed 0 M = M).
  { unfold freed. apply map_filter_id. intros va w HM. destruct (map_range V0 pgdir D M (as_space _ _ _ _ _ HA0) va w HM) as ([? _] & _).
    cbn. by rewrite (proj2 (Z.ltb_ge va 0)). }
  unfold free_inv. rewrite E. split; [done|]. split; [apply shrinks_refl|]. intros Hlt. unfold USER_SIGRETURN in Hlt. lia.
Qed.

Lemma free_aligned k x : M !! k = Some x -> k mod PGSIZE = 0.
Proof. intros HM. by destruct (map_range V0 pgdir D M (as_space _ _ _ _ _ HA0) k x HM) as (_ & ? & _). Qed.

(** One user page. *)
Lemma free_page V va a w : free_inv va V -> M !! va = Some w -> user_bits w = true -> D !! prefix va 0 = Some a ->
  frees (va + PGSIZE) (V ← put_page V (PTE2PA w); pte_store V (a, PTEX 0 va) 0).
Proof.
  intros (HA & HSh & HN) HM HU HD. destruct (freed_page va w M HM HU free_aligned) as [E1 E2].
  destruct (decide (va = USER_SIGRETURN)) as [->|Hne].
  - right. assert (H0 : count_of D M o (PTE2PA w) = 0) by (by apply Hsig). split; [|by exists w]. unfold put_page.
    assert (H0' : count_of D (freed USER_SIGRETURN M) o (PTE2PA w) = 0).
    { pose proof (count_mono D D (freed USER_SIGRETURN M) M o (PTE2PA w) ltac:(done) ltac:(apply map_filter_subseteq)).
      pose proof (count_nonneg V pgdir D _ o (PTE2PA w) HA). lia. }
    by rewrite (fr_put_bad _ _ (PTE2PA w) (as_frames _ _ _ _ _ HA) H0').
  - left. assert (Ho : owned va w = true) by (unfold owned; rewrite (proj2 (Z.eqb_neq va _)); done).
    destruct (free_leaf V pgdir D _ o va a w HA E2 HD Ho) as (V1 & V' & -> & E & HA' & HSh'). cbn [mbind outcome_bind]. rewrite E.
    exists V'. split; [done|]. rewrite <-E1 in HA', HSh'. split; [done|]. split.
    + eapply shrinks_trans; [|exact HSh|exact HSh']. rewrite E1. apply delete_subseteq.
    + intros Hlt. apply HN. pose proof (free_aligned va w HM). change USER_SIGRETURN with (262144 * 4096) in *. unfold PGSIZE in *.
      Z.div_mod_to_equations. lia.
Qed.

Lemma frees_bind e e' r f : frees e r -> (forall V, free_inv e V -> frees e' (f V)) -> frees e' (r ≫= f).
Proof. intros [(V & -> & HI)|[-> HS]] Hf; [by apply Hf|by right]. Qed.

Lemma free_skip b b' V : b <= b' -> (forall va w, b <= va < b' -> M !! va = Some w -> user_bits w = false) -> free_inv b V -> free_inv b' V.
Proof.
  intros Hb Hn (HA & HSh & HN). unfold free_inv. rewrite (freed_skip b b' M Hb Hn). split; [done|]. split; [done|].
  intros Hlt (w & HM & HU & H0). destruct (Z.lt_ge_cases USER_SIGRETURN b) as [Hl|Hge]; [apply HN; [done|by exists w]|].
  rewrite (Hn USER_SIGRETURN w) in HU by (done || lia). done.
Qed.

(** One entry of a table; [sub] walks the table below. *)
Definition free_step (sub : vm St -> Z -> outcome (vm St)) a V i : outcome (vm St) :=
  pte ← pte_load V (a, i);
  if negb (has_bits pte PTE_V) then Ret V else
  if negb (has_bits pte PTE_RWX) then sub V (PTE2PA pte)
  else if has_bits pte (Z.lor PTE_U PTE_SW_USER) then
    V ← put_page V (PTE2PA pte); pte_store V (a, i) 0
  else Ret V.

Lemma free_walk_O V a : vm_free_user_walk 0 V a = for_each (free_step (fun V _ => Ret V) a) (seq 0 512) V.
Proof. reflexivity. Qed.
Lemma free_walk_S l V a : vm_free_user_walk (S l) V a = for_each (free_step (vm_free_user_walk l) a) (seq 0 512) V.
Proof. reflexivity. Qed.

Lemma free_space b V : free_inv b V -> space V pgdir D (freed b M).
Proof. intros (HA & _). apply HA. Qed.

Lemma free_table sub i2 i1 a i n V : D !! [i2; i1] = Some a -> (i + n = 512)%nat ->
  let base := path_base [i2; i1] in
  free_inv (base + Z.of_nat i * PGSIZE) V -> frees (base + 512 * PGSIZE) (for_each (free_step sub a) (seq i n) V).
Proof.
  intros HD Hin base. pose proof (as_space _ _ _ _ _ HA0) as HS0.
  destruct (sp_up _ _ _ _ HS0 [i2] i1 a HD) as [[b Hb] Hi1]. pose proof (sp_low _ _ _ _ HS0 i2 b Hb) as Hi2.
  revert i V Hin. induction n as [|n IH]; intros i V Hin HI.
  { replace i with 512%nat in HI by lia. left. by exists V. }
  cbn [seq for_each]. set (va := base + Z.of_nat i * PGSIZE) in *.
  destruct (cover_page i2 i1 i va Hi2 Hi1 ltac:(lia) eq_refl) as (E2 & E1 & E0 & Hva & Ha).
  assert (HDv : D !! prefix va 0 = Some a) by (unfold prefix; by rewrite E2, E1).
  assert (Hnext : base + Z.of_nat (S i) * PGSIZE = va + PGSIZE) by (unfold va, PGSIZE; lia).
  apply (frees_bind (va + PGSIZE)); [|intros V'; rewrite <-Hnext; apply (IH (S i)); lia].
  assert (Hskip : (forall x, M !! va = Some x -> user_bits x = false) -> frees (va + PGSIZE) (Ret V)).
  { intros Hn. left. exists V. split; [done|]. apply (free_skip va); [unfold PGSIZE; lia| |done]. intros k x Hk HMk.
    pose proof (free_aligned k x HMk) as Hka. assert (k = va) as -> by (unfold PGSIZE in *; Z.div_mod_to_equations; lia). by apply Hn. }
  destruct (leaf_lookup V pgdir D _ (free_space _ _ HI) va a Hva Ha HDv) as (w & Hload & HW). rewrite E0 in Hload.
  unfold free_step. rewrite Hload. cbn [mbind outcome_bind].
  assert (Hlook : freed va M !! va = M !! va).
  { unfold freed. apply option_eq. intros x. rewrite map_lookup_filter_Some. cbn. rewrite Z.ltb_irrefl. naive_solver. }
  rewrite Hlook in HW. destruct (has_bits w PTE_V); cbn [negb]; [|apply Hskip; intros x Hx; congruence].
  destruct HW as (HM & -> & _). cbn [negb]. destruct (has_bits w (Z.lor PTE_U PTE_SW_USER)) eqn:HU.
  - rewrite <-E0. by apply free_page.
  - apply Hskip. intros x Hx. assert (x = w) as -> by congruence. done.
Qed.

Definition free_walks (l : nat) (sub : vm St -> Z -> outcome (vm St)) : Prop :=
  forall p a V, (length p + l = 2)%nat -> D !! p = Some a -> free_inv (path_base p) V -> frees (path_base p + 512 * level_span l) (sub V a).

Lemma free_directory sub l p a i n V : free_walks l sub -> (length p + S l = 2)%nat -> D !! p = Some a -> (i + n = 512)%nat ->
  let base := path_base p in
  free_inv (base + Z.of_nat i * level_span (S l)) V -> frees (base + 512 * level_span (S l)) (for_each (free_step sub a) (seq i n) V).
Proof.
  intros Hsub Hl HD Hin base. pose proof (as_space _ _ _ _ _ HA0) as HS0. assert (Hspan : 0 < level_span (S l)) by (unfold level_span; lia).
  revert i V Hin. induction n as [|n IH]; intros i V Hin HI.
  { replace i with 512%nat in HI by lia. left. by exists V. }
  cbn [seq for_each]. set (va := base + Z.of_nat i * level_span (S l)) in *.
  assert (Eb : path_base (p ++ [i]) = va) by (by apply path_base_app).
  assert (Hnext : base + Z.of_nat (S i) * level_span (S l) = va + level_span (S l)) by (unfold va; lia).
  apply (frees_bind (va + level_span (S l))); [|intros V'; rewrite <-Hnext; apply (IH (S i)); lia]. unfold free_step.
  destruct (step_down V pgdir D _ (free_space _ _ HI) p a i HD ltac:(lia) ltac:(lia)) as (w & -> & HW). cbn [mbind outcome_bind].
  destruct (has_bits w PTE_V); cbn [negb]; cycle 1.
  { left. exists V. split; [done|]. apply (free_skip va); [lia| |done]. intros k x Hk HMk.
    rewrite (no_table_no_leaf V0 pgdir D M HS0 p i l k) in HMk; [done|done|lia|by eapply (path_small V0 pgdir D M HS0)|done|by rewrite Eb]. }
  destruct HW as [-> HDi]. cbn [negb]. rewrite <-Eb, span_S. apply Hsub; [rewrite length_app; cbn; lia|done|by rewrite Eb].
Qed.

Lemma free_user_ok : frees (2 ^ 39) (vm_free_user V0 pgdir).
Proof.
  assert (H0 : free_walks 0 (vm_free_user_walk 0)).
  { intros p a V Hl HD HI. destruct p as [|i2 [|i1 [|? ?]]]; cbn [length] in Hl; try lia. rewrite free_walk_O.
    refine (free_table _ i2 i1 a 0 512 V HD _ _); [reflexivity|]. rewrite Z.add_0_r. exact HI. }
  assert (H1 : free_walks 1 (vm_free_user_walk 1)).
  { intros p a V Hl HD HI. rewrite free_walk_S. refine (free_directory _ 0 p a 0 512 V H0 Hl HD _ _); [reflexivity|].
    rewrite Z.add_0_r. exact HI. }
  unfold vm_free_user. rewrite free_walk_S. refine (free_directory _ 1 [] pgdir 0 512 V0 H1 _ _ _ _); [reflexivity|apply HA0|reflexivity|].
  rewrite Z.add_0_r. exact free_start.
Qed.
End walk.

(** [M] without its user leaves. *)
Definition no_user M : gmap Z Z := filter (fun kv => user_bits kv.2 = false) M.

Lemma freed_all V pgdir D M : space V pgdir D M -> freed (2 ^ 39) M = no_user M.
Proof.
  intros HS. apply map_eq. intros va. apply option_eq. intros w. unfold freed, no_user. rewrite !map_lookup_filter_Some. cbn.
  split; intros [HM Hf]; (split; [done|]); destruct (map_range V pgdir D M HS va w HM) as ([? Hlt] & _); change MAXVA with (2 ^ 38) in Hlt;
    rewrite (proj2 (Z.ltb_lt va _)) in * by lia; done.
Qed.

(** [vm_free_user] drops every user page, unless the page of the signal trampoline is mapped. *)
Lemma vm_free_user_ok V pgdir D M o : aspace V pgdir D M o ->
  (forall w, M !! USER_SIGRETURN = Some w -> user_bits w = true -> count_of D M o (PTE2PA w) = 0) ->
  (exists V', vm_free_user V pgdir = Ret V' /\ aspace V' pgdir D (no_user M) o /\ shrinks V V' D (no_user M) o /\
     ~ sig_mapped D M o) \/
  vm_free_user V pgdir = Panic "put invalid page" /\ sig_mapped D M o.
Proof.
  intros HA Hsig. destruct (free_user_ok V pgdir D M o HA Hsig) as [(V' & E & HA' & HSh & HN)|H]; [left|by right].
  rewrite (freed_all V pgdir D M (as_space _ _ _ _ _ HA)) in HA', HSh. exists V'. split_and!; try done. by apply HN.
Qed.
End free.

(** * Page directories

    [pagedir_alloc] starts an empty space and [pagedir_free] gives the tables of
    a space without leaves back. *)

Section dir.
  Context {St : Type} {FS : Frames St} {FL : FramesLaws St}.
  Implicit Types (V : vm St) (D : gmap (list nat) Z) (M : gmap Z Z) (pgdir va a w b : Z) (o : Z -> Z) (p q : list nat).

(** ** A new space *)

Lemma empty_space (T : gmap Z (list Z)) (s : St) n a : 0 < a -> is_u64 a -> a mod PGSIZE = 0 ->
  space (MkVm s (<[a := empty_table]> T) n) a {[ [] := a ]} ∅.
Proof.
  intros H0 Hu Ha. split; cbn [tables].
  - apply lookup_singleton_eq.
  - intros p b [<- <-]%lookup_singleton_Some. split_and!; try done; [cbn; lia|]. exists empty_table. by rewrite lookup_insert_eq.
  - intros p q b [<- _]%lookup_singleton_Some [<- _]%lookup_singleton_Some. done.
  - intros p b es i w [<- <-]%lookup_singleton_Some _ Hes Hi. rewrite lookup_insert_eq in Hes. apply (inj Some) in Hes as <-.
    apply empty_lookup in Hi as [-> _]. change (has_bits 0 PTE_V) with false. cbn iota. by rewrite lookup_singleton_ne.
  - intros p b es i w [<- <-]%lookup_singleton_Some Hl. done.
  - intros p i b [E _]%lookup_singleton_Some. by destruct p.
  - intros i b [E _]%lookup_singleton_Some. done.
  - intros va w. split; [done|]. intros (_ & _ & b & es & [E _]%lookup_singleton_Some & _). done.
Qed.

Lemma refs_empty f : refs ∅ f = 0.
Proof. apply (tally_empty (fun va w => owned va w && (PTE2PA w =? f))). Qed.

Lemma tabs_root a f : tabs {[ [] := a ]} f = b2z (a =? f).
Proof.
  rewrite <-insert_empty, tabs_insert by apply lookup_empty. assert (tabs ∅ f = 0) as ->; [|done].
  apply (tally_empty (fun (_ : list nat) x => x =? f)).
Qed.

(** [pagedir_alloc] takes one frame, unused before. *)
Lemma pagedir_alloc_ok V (o : Z -> Z) : fr_ok (frames V) o -> (forall f, 0 <= o f) -> exists a V', pagedir_alloc V = Ret (a, V') /\
  (a = 0 /\ V' = V \/
   0 < a /\ o a = 0 /\ aspace V' a {[ [] := a ]} ∅ o /\ (forall b, b <> a -> tables V' !! b = tables V !! b) /\ flushes V' = flushes V /\
   forall f x, 0 < o f -> f <= x < f + PGSIZE -> f mod PGSIZE = 0 -> fr_byte (frames V') x = fr_byte (frames V) x).
Proof.
  intros Hok Ho. unfold pagedir_alloc, table_alloc. destruct (fr_alloc_ok (frames V) o true Hok) as (a & s & -> & [[-> ->]|Ha]).
  { exists 0, V. cbn [mbind outcome_bind]. change (truth 0) with false. cbn iota. rewrite with_same. auto. }
  destruct Ha as (H0 & Hu & Hal & Hz & Hok' & Hb). cbn [mbind outcome_bind].
  assert (HT : truth a = true) by (unfold truth; rewrite (proj2 (Z.eqb_neq a 0)); [done|lia]). rewrite HT.
  eexists _, _. split; [done|]. right. split; [done|]. split; [done|]. split; [split|split; [|split]].
  - by apply empty_space.
  - eapply fr_ok_ext; [|exact Hok']. intros f. cbn. rewrite refs_empty, tabs_root. unfold upd, b2z.
    destruct (Z.eqb_spec a f) as [->|]; [rewrite decide_True by done|rewrite decide_False by done]; lia.
  - done.
  - intros b Hne. cbn. by rewrite lookup_insert_ne.
  - done.
  - intros f x Hf Hx Hfa. cbn. rewrite Hb. rewrite bool_decide_false; [by rewrite andb_false_r|]. intros Hx'.
    assert (f = a) as ->; [|lia]. unfold PGSIZE in *. Z.div_mod_to_equations. lia.
Qed.

(** ** Giving the tables back *)

(** The tree without the tables at and below [q]. *)
Definition prune q D : gmap (list nat) Z := filter (fun kv => ~ q `prefix_of` kv.1) D.

Lemma prune_lookup q D p a : prune q D !! p = Some a <-> D !! p = Some a /\ ~ q `prefix_of` p.
Proof. unfold prune. by rewrite map_lookup_filter_Some. Qed.

Lemma prune_table q D a : table_of (prune q D) a -> table_of D a.
Proof. intros [p [Hp _]%prune_lookup]. by exists p. Qed.

Lemma prefix_last p q i j : p ++ [i] `prefix_of` q ++ [j] <-> p ++ [i] `prefix_of` q \/ p = q /\ i = j.
Proof.
  split.
  - intros [k E]. destruct k as [|x k] using rev_ind.
    + rewrite app_nil_r in E. apply app_last_inj in E as [-> ->]. by right.
    + rewrite app_assoc in E. apply app_last_inj in E as [-> _]. left. by exists k.
  - intros [H|[-> ->]]; [by apply prefix_app_r|done].
Qed.

Lemma not_own_child p i : ~ p ++ [i] `prefix_of` p.
Proof. intros H%prefix_length. rewrite length_app in H. cbn in H. lia. Qed.


(** Clearing the entry of a child whose tables are gone. *)
Lemma space_prune V V' pgdir D p i a es : space V pgdir D ∅ -> D !! p = Some a -> (length p < 2)%nat -> (i < 512)%nat ->
  tables V !! a = Some es -> (forall b, table_of (prune (p ++ [i]) D) b -> tables V' !! b = tables V !! b) ->
  space (stored V' a es i 0) pgdir (prune (p ++ [i]) D) ∅.
Proof.
  intros HS Hp Hl Hi Hes Hsame. set (D' := prune (p ++ [i]) D).
  assert (Hp' : D' !! p = Some a) by (apply prune_lookup; split; [done|apply not_own_child]).
  assert (Htab : forall q b, D' !! q = Some b -> b <> a -> tables (stored V' a es i 0) !! b = tables V !! b).
  { intros q b Hq Hne. cbn. rewrite lookup_insert_ne by done. apply Hsame. by exists q. }
  assert (Hat : tables (stored V' a es i 0) !! a = Some (<[i := 0]> es)) by (cbn; apply lookup_insert_eq).
  assert (Hq : forall q b, D' !! q = Some b -> D !! q = Some b /\ ~ p ++ [i] `prefix_of` q) by (intros q b; apply prune_lookup).
  assert (Hpa : forall q, D !! q = Some a -> q = p) by (intros q Hqa; by eapply (sp_inj _ _ _ _ HS)).
  split.
  - apply prune_lookup. split; [apply HS|]. intros H%prefix_length. rewrite length_app in H. cbn in H. lia.
  - intros q b Hb. destruct (Hq q b Hb) as [HqD _]. destruct (sp_table _ _ _ _ HS q b HqD) as (A1 & A2 & A3 & A4 & es' & Hes' & Hl').
    split_and!; try done. destruct (decide (b = a)) as [->|Hne]; [|exists es'; by rewrite (Htab q b)].
    exists (<[i := 0]> es). rewrite length_insert. split; [done|congruence].
  - intros q r b [Hqb _]%Hq [Hrb _]%Hq. by eapply (sp_inj _ _ _ _ HS).
  - intros q b es' j w Hb Hlq. destruct (Hq q b Hb) as [HqD Hnq]. destruct (decide (b = a)) as [->|Hne].
    + rewrite Hat. intros <-%(inj Some). pose proof (Hpa q HqD) as ->. destruct (decide (j = i)) as [->|Hji].
      * rewrite list_lookup_insert_eq; [|destruct (sp_table _ _ _ _ HS p a Hp) as (_ & _ & _ & _ & e & He & Hle); congruence].
        intros <-%(inj Some). change (has_bits 0 PTE_V) with false. cbn iota. apply eq_None_not_Some. intros [x [_ Hx]%Hq]. by apply Hx.
      * rewrite list_lookup_insert_ne by done. intros Hj. pose proof (sp_upper _ _ _ _ HS p a es j w Hp Hl Hes Hj) as HW.
        assert (HE : D' !! (p ++ [j]) = D !! (p ++ [j])); [|by rewrite HE].
        apply option_eq. intros x. unfold D'. rewrite prune_lookup, prefix_last. split; [naive_solver|].
        intros Hx. split; [done|]. intros [H|[_ ->]]; [by eapply not_own_child|done].
    + rewrite (Htab q b Hb Hne). intros Hes' Hj. pose proof (sp_upper _ _ _ _ HS q b es' j w HqD Hlq Hes' Hj) as HW.
      assert (HE : D' !! (q ++ [j]) = D !! (q ++ [j])); [|by rewrite HE].
      apply option_eq. intros x. unfold D'. rewrite prune_lookup, prefix_last. split; [naive_solver|].
      intros Hx. split; [done|]. intros [H|[-> _]]; [done|]. by rewrite Hp in HqD; injection HqD as ->.
  - intros q b es' j w Hb Hlq. destruct (Hq q b Hb) as [HqD _]. assert (b <> a) by (intros ->; rewrite (Hpa q HqD) in Hlq; lia).
    rewrite (Htab q b) by done. exact (sp_lower _ _ _ _ HS q b es' j w HqD Hlq).
  - intros q j b Hb. destruct (Hq _ b Hb) as [HqD Hnq]. destruct (sp_up _ _ _ _ HS q j b HqD) as [[c Hc] Hj]. split; [|done].
    exists c. apply prune_lookup. split; [done|]. intros H. apply Hnq. by apply prefix_app_r.
  - intros j b Hb. destruct (Hq _ b Hb) as [HqD _]. exact (sp_low _ _ _ _ HS j b HqD).
  - intros va w. split; [done|]. intros (Hva & Ha & b & es' & Hb & Hes' & Hw & HV). destruct (Hq _ b Hb) as [HqD _].
    assert (b <> a) by (intros ->; pose proof (Hpa _ HqD) as E; rewrite <-E in Hl; cbn in Hl; lia). rewrite (Htab _ b Hb) in Hes' by done.
    apply (sp_map _ _ _ _ HS va w). eauto 10.
Qed.

(** The frames of the tables at and below [p] are back. *)
Record released V V' D p o : Prop := {
  re_frames : fr_ok (frames V') (fun f => o f + tabs (prune p D) f);
  re_kept b : table_of (prune p D) b -> tables V' !! b = tables V !! b;
  re_else b : ~ table_of D b -> tables V' !! b = tables V !! b;
  re_flush : flushes V' = flushes V;
  re_bytes f x : 0 < o f + tabs (prune p D) f -> f <= x < f + PGSIZE -> f mod PGSIZE = 0 ->
    fr_byte (frames V') x = fr_byte (frames V) x }.

(** Between two spaces over the same root, of which the second lost tables below [p]. *)
Record pruned V V' D D' p o : Prop := {
  pr_sub : D' ⊆ D;
  pr_prune : prune p D' = prune p D;
  pr_kept b : table_of (prune p D) b -> tables V' !! b = tables V !! b;
  pr_else b : ~ table_of D b -> tables V' !! b = tables V !! b;
  pr_flush : flushes V' = flushes V;
  pr_bytes f x : 0 < o f + tabs D' f -> f <= x < f + PGSIZE -> f mod PGSIZE = 0 ->
    fr_byte (frames V') x = fr_byte (frames V) x }.

Lemma pruned_refl V D p o : pruned V V D D p o.
Proof. by split. Qed.

Lemma pruned_trans V1 V2 V3 D1 D2 D3 p o : pruned V1 V2 D1 D2 p o -> pruned V2 V3 D2 D3 p o -> pruned V1 V3 D1 D3 p o.
Proof.
  intros [A1 A2 A3 A4 A5 A6] [B1 B2 B3 B4 B5 B6]. split.
  - by etrans.
  - congruence.
  - intros b Hb. rewrite B3, A3 by congruence. done.
  - intros b Hb. rewrite B4; [by apply A4|]. intros [q Hq]. apply Hb. exists q. by eapply lookup_weaken.
  - congruence.
  - intros f x Hf Hx Ha. rewrite (B6 f x) by done. apply (A6 f); try done. pose proof (tabs_mono D3 D2 f B1). lia.
Qed.

Lemma prefix_closed V pgdir D M p k b : space V pgdir D M -> D !! (p ++ k) = Some b -> is_Some (D !! p).
Proof.
  intros HS. revert b. induction k as [|j k IH] using rev_ind; intros b Hb; [rewrite app_nil_r in Hb; by exists b|].
  rewrite app_assoc in Hb. destruct (sp_up _ _ _ _ HS _ _ _ Hb) as [[c Hc] _]. by eapply IH.
Qed.

Lemma no_children V pgdir D M p : space V pgdir D M -> (forall j, (j < 512)%nat -> D !! (p ++ [j]) = None) -> prune p D = delete p D.
Proof.
  intros HS Hn. apply map_eq. intros q. apply option_eq. intros b. rewrite prune_lookup, lookup_delete_Some. split.
  - intros [Hq Hp]. split; [|done]. intros ->. by apply Hp.
  - intros [Hne Hq]. split; [done|]. intros [k ->]. destruct k as [|j k]; [rewrite app_nil_r in Hne; done|].
    replace (p ++ j :: k) with ((p ++ [j]) ++ k) in Hq by (by rewrite <-app_assoc).
    destruct (prefix_closed V pgdir D M _ k b HS Hq) as [c Hc]. destruct (sp_up _ _ _ _ HS p j c Hc) as [_ Hj]. by rewrite Hn in Hc.
Qed.

(** One entry of a directory; [sub] frees the table below. *)
Definition dir_step (sub : vm St -> Z -> outcome (vm St)) a V i : outcome (vm St) :=
  pte ← pte_load V (a, i);
  if has_bits pte PTE_V && (Z.land pte PTE_RWX =? 0) then
    V ← sub V (PTE2PA pte);
    pte_store V (a, i) 0
  else if has_bits pte PTE_V then Panic "pagedir_free"
  else Ret V.

Lemma pagedir_free_S d V a : pagedir_free_from (S d) V a =
  (V ← for_each (dir_step (pagedir_free_from d) a) (seq 0 512) V;
   put_page (MkVm (frames V) (delete a (tables V)) (flushes V)) a).
Proof. reflexivity. Qed.

Section one.
  Context (pgdir : Z) (o : Z -> Z) (p : list nat) (a : Z).

Definition frees_below (sub : vm St -> Z -> outcome (vm St)) : Prop :=
  forall V D i c, aspace V pgdir D ∅ o -> D !! (p ++ [i]) = Some c -> exists V', sub V c = Ret V' /\ released V V' D (p ++ [i]) o.

Lemma dir_step_ok sub V D i : frees_below sub -> aspace V pgdir D ∅ o -> D !! p = Some a -> (length p < 2)%nat -> (i < 512)%nat ->
  exists V' D', dir_step sub a V i = Ret V' /\ aspace V' pgdir D' ∅ o /\ D' !! p = Some a /\ D' !! (p ++ [i]) = None /\ pruned V V' D D' p o.
Proof.
  intros Hsub HA Hp Hl Hi. pose proof (as_space _ _ _ _ _ HA) as HS. unfold dir_step.
  destruct (step_down V pgdir D ∅ HS p a i Hp Hl Hi) as (w & -> & HW). cbn [mbind outcome_bind].
  destruct (has_bits w PTE_V); cbn [andb]; cycle 1.
  { exists V, D. split_and!; try done. }
  destruct HW as [HR HD]. unfold has_bits, truth in HR. apply negb_false_iff in HR as ->.
  destruct (Hsub V D i (PTE2PA w) HA HD) as (V1 & -> & [R1 R2 R3 R4 R5]). cbn [mbind outcome_bind].
  destruct (sp_table _ _ _ _ HS p a Hp) as (_ & _ & _ & _ & es & Hes & Hlen). set (D' := prune (p ++ [i]) D) in *.
  assert (Hp' : D' !! p = Some a) by (apply prune_lookup; split; [done|apply not_own_child]).
  assert (Hes1 : tables V1 !! a = Some es) by (rewrite R2; [done|by exists p]).
  rewrite (pte_store_Ret V1 a i es) by (done || lia). exists (stored V1 a es i 0), D'. split; [done|]. split; [split|].
  - by eapply space_prune.
  - eapply fr_ok_ext; [|exact R1]. intros f. cbn. rewrite refs_empty. lia.
  - apply HA.
  - split; [done|]. split; [apply eq_None_not_Some; intros [x [_ Hx]%prune_lookup]; by apply Hx|].
    assert (Hpp : prune p D' = prune p D).
    { apply map_eq. intros q. apply option_eq. intros b. unfold D'. rewrite !prune_lookup. split; [naive_solver|].
      intros [Hq Hnp]. split; [|done]. split; [done|]. intros H. apply Hnp. etrans; [|exact H]. by apply prefix_app_r. }
    split; [apply map_filter_subseteq|done| | |done|done].
    + intros b Hb. assert (Hb' : table_of D' b).
      { destruct Hb as [q [Hq Hnp]%prune_lookup]. exists q. apply prune_lookup. split; [done|]. intros H. apply Hnp. etrans; [|exact H]. by apply prefix_app_r. }
      cbn. rewrite lookup_insert_ne; [by apply R2|]. intros ->. destruct Hb as [q [Hq Hnp]%prune_lookup].
      apply Hnp. by rewrite (sp_inj _ _ _ _ HS q p b Hq Hp).
    + intros b Hb. cbn. rewrite lookup_insert_ne; [by apply R3|]. intros ->. apply Hb. by exists p.
Qed.

Lemma dir_loop_ok sub i n V D : frees_below sub -> aspace V pgdir D ∅ o -> D !! p = Some a -> (length p < 2)%nat -> (i + n = 512)%nat ->
  (forall j, (j < i)%nat -> D !! (p ++ [j]) = None) ->
  exists V' D', for_each (dir_step sub a) (seq i n) V = Ret V' /\ aspace V' pgdir D' ∅ o /\ D' !! p = Some a /\
    (forall j, (j < 512)%nat -> D' !! (p ++ [j]) = None) /\ pruned V V' D D' p o.
Proof.
  intros Hsub. revert i V D. induction n as [|n IH]; intros i V D HA Hp Hl Hin Hdone.
  { replace i with 512%nat in * by lia. exists V, D. split_and!; try done. }
  cbn [seq for_each]. destruct (dir_step_ok sub V D i Hsub HA Hp Hl ltac:(lia)) as (V1 & D1 & -> & HA1 & Hp1 & Hi1 & HP1).
  cbn [mbind outcome_bind]. destruct (IH (S i) V1 D1 HA1 Hp1 Hl ltac:(lia)) as (V' & D' & -> & HA' & Hp' & Hn & HP').
  - intros j Hj. destruct (decide (j = i)) as [->|]; [done|]. apply eq_None_not_Some. intros [x Hx].
    apply (lookup_weaken _ D) in Hx; [|apply HP1]. rewrite Hdone in Hx by lia. done.
  - exists V', D'. split_and!; try done. by eapply pruned_trans.
Qed.
End one.

(** A table of the third level has no valid entry. *)
Lemma last_table_ok sub pgdir V D o i2 i1 a i n : aspace V pgdir D ∅ o -> D !! [i2; i1] = Some a -> (i + n = 512)%nat ->
  for_each (dir_step sub a) (seq i n) V = Ret V.
Proof.
  intros HA HD. pose proof (as_space _ _ _ _ _ HA) as HS.
  destruct (sp_up _ _ _ _ HS [i2] i1 a HD) as [[b Hb] Hi1]. pose proof (sp_low _ _ _ _ HS i2 b Hb) as Hi2.
  revert i. induction n as [|n IH]; intros i Hin; [done|]. cbn [seq for_each].
  destruct (cover_page i2 i1 i _ Hi2 Hi1 ltac:(lia) eq_refl) as (E2 & E1 & E0 & Hva & Ha).
  set (va := path_base [i2; i1] + Z.of_nat i * PGSIZE) in *.
  assert (HDv : D !! prefix va 0 = Some a) by (unfold prefix; by rewrite E2, E1).
  destruct (leaf_lookup V pgdir D ∅ HS va a Hva Ha HDv) as (w & Hload & HW). rewrite E0 in Hload.
  assert (dir_step sub a V i = Ret V) as ->; [|cbn [mbind outcome_bind]; apply IH; lia].
  unfold dir_step. rewrite Hload. cbn [mbind outcome_bind]. by destruct (has_bits w PTE_V); [destruct HW as [? _]|].
Qed.

(** Giving back a table without children. *)
Lemma put_table V0 V D0 D pgdir o p a : pruned V0 V D0 D p o -> aspace V pgdir D ∅ o -> D !! p = Some a ->
  (forall j, (j < 512)%nat -> D !! (p ++ [j]) = None) ->
  exists V', put_page (MkVm (frames V) (delete a (tables V)) (flushes V)) a = Ret V' /\ released V0 V' D0 p o.
Proof.
  intros [P1 P2 P3 P4 P5 P6] HA Hp Hn. pose proof (as_space _ _ _ _ _ HA) as HS.
  assert (Hc : 0 < tabs D a) by (apply (tally_pos (fun _ x => x =? a) D p a Hp); apply Z.eqb_refl).
  pose proof (as_others _ _ _ _ _ HA a) as Ho.
  destruct (fr_put_ok (frames V) _ a (as_frames _ _ _ _ _ HA)) as (s & E & Hok & Hb); [cbv beta; rewrite refs_empty; lia|].
  unfold put_page. cbn [frames]. rewrite E. eexists. split; [reflexivity|].
  pose proof (no_children V pgdir D ∅ p HS Hn) as Ed. rewrite P2 in Ed.
  assert (Ht : forall f, tabs (prune p D0) f = tabs D f - b2z (a =? f)).
  { intros f. rewrite Ed. unfold tabs. by rewrite (tally_delete (fun _ x => x =? f) D p a). }
  assert (Hne : forall b, table_of (prune p D0) b -> b <> a).
  { rewrite Ed. intros b [q [Hq Hb']%lookup_delete_Some] ->. by rewrite (sp_inj _ _ _ _ HS p q a Hp Hb') in Hq. }
  split; cbn [with_frames frames tables flushes].
  - eapply fr_ok_ext; [|exact Hok]. intros f. cbn. rewrite Ht, !refs_empty. unfold upd, b2z.
    destruct (Z.eqb_spec a f) as [<-|]; [rewrite decide_True by done|rewrite decide_False by done]; rewrite ?refs_empty; lia.
  - intros b Hb'. rewrite lookup_delete_ne by (symmetry; by apply Hne). by apply P3.
  - intros b Hb'. rewrite lookup_delete_ne; [by apply P4|]. intros ->. apply Hb'. exists p. by eapply lookup_weaken.
  - done.
  - intros f x Hf Hx Hfa. rewrite Ht in Hf. destruct (Hb x) as [->|[Hx' H1]].
    + apply (P6 f); try done. unfold b2z in Hf. destruct (a =? f); lia.
    + exfalso. destruct (sp_table _ _ _ _ HS p a Hp) as (_ & _ & _ & Haa & _).
      assert (f = a) as -> by (unfold PGSIZE in *; Z.div_mod_to_equations; lia). cbv beta in H1. rewrite refs_empty in H1.
      rewrite Z.eqb_refl in Hf. cbn in Hf. lia.
Qed.

Lemma pagedir_free_from_ok depth V D pgdir o p a : aspace V pgdir D ∅ o -> D !! p = Some a -> (length p + depth = 3)%nat ->
  exists V', pagedir_free_from depth V a = Ret V' /\ released V V' D p o.
Proof.
  revert V D p a. induction depth as [|depth IH]; intros V D p a HA Hp Hd.
  { destruct (sp_table _ _ _ _ (as_space _ _ _ _ _ HA) p a Hp) as (? & _). lia. }
  rewrite pagedir_free_S. destruct (decide (length p < 2)%nat) as [Hl|Hl].
  - assert (Hsub : frees_below pgdir o p (pagedir_free_from depth)).
    { intros V1 D1 i c HA1 Hc. apply IH; [done|done|]. rewrite length_app. cbn. lia. }
    destruct (dir_loop_ok pgdir o p a _ 0 512 V D Hsub HA Hp Hl ltac:(reflexivity) ltac:(lia)) as (V1 & D1 & -> & HA1 & Hp1 & Hn & HP).
    cbn [mbind outcome_bind]. by eapply (put_table V V1 D D1).
  - destruct (sp_table _ _ _ _ (as_space _ _ _ _ _ HA) p a Hp) as (Hl2 & _). destruct p as [|i2 [|i1 [|? ?]]]; cbn [length] in *; try lia.
    rewrite (last_table_ok _ pgdir V D o i2 i1 a 0 512 HA Hp) by reflexivity. cbn [mbind outcome_bind].
    eapply (put_table V V D D); [apply pruned_refl|done|done|]. intros j _. apply eq_None_not_Some. intros [b Hb].
    destruct (sp_table _ _ _ _ (as_space _ _ _ _ _ HA) _ b Hb) as (Hl3 & _). cbn in Hl3. lia.
Qed.

(** [pagedir_free] gives back all tables of a space without leaves. *)
Lemma pagedir_free_ok V D pgdir o : aspace V pgdir D ∅ o ->
  exists V', pagedir_free V pgdir = Ret V' /\ fr_ok (frames V') o /\ (forall b, ~ table_of D b -> tables V' !! b = tables V !! b) /\
    flushes V' = flushes V /\
    forall f x, 0 < o f -> f <= x < f + PGSIZE -> f mod PGSIZE = 0 -> fr_byte (frames V') x = fr_byte (frames V) x.
Proof.
  intros HA. destruct (pagedir_free_from_ok 3 V D pgdir o [] pgdir HA) as (V' & E & [R1 R2 R3 R4 R5]); [apply HA|done|].
  assert (E0 : forall f, tabs (prune [] D) f = 0).
  { intros f. assert (prune [] D = ∅) as ->; [|apply (tally_empty (fun (_ : list nat) x => x =? f))].
    apply map_empty. intros q. apply eq_None_not_Some. intros [b [_ Hb]%prune_lookup]. apply Hb, prefix_nil. }
  exists V'. split; [done|]. split; [|split; [done|split; [done|]]].
  - eapply fr_ok_ext; [|exact R1]. intros f. cbn. rewrite E0. lia.
  - intros f x Hf. apply R5. rewrite E0. lia.
Qed.
End dir.
