(* ===== verification/VmForkCorrect.v ===== *)
(** * What [vm_copy] promises

    The maps of parent and child after a copy, what the two see of memory, and
    the outcome of [vm_copy] on every path. *)
From S2P Require Import Prelude Vma Vm VmSpace VmMap VmAlloc VmAccess VmCopy VmCow VmFork VmFree.

Section maps.
  Context (vmas : list vm_area).
  Implicit Types (M : gmap Z Z) (va w : Z).

Definition fork_parent M : gmap Z Z := map_imap (fun va w => Some (if user va w then fork_entry vmas va w else w)) M.
Definition fork_child M M2 : gmap Z Z := M2 ∪ map_imap (fun va w => if user va w then Some (child_entry vmas va w) else None) M.

(** Leaves as a page table holds them. *)
Definition leaves M : Prop := forall va w, M !! va = Some w ->
  page_va va /\ is_u64 w /\ has_bits w PTE_V = true /\ has_bits w PTE_RWX = true /\ (has_bits w PTE_W = true -> has_bits w PTE_R = true).

Lemma fork_all b M M2 : leaves M -> MAXVA <= b -> parent_upto vmas b M = fork_parent M /\ child_upto vmas b M M2 = fork_child M M2.
Proof.
  intros HL Hb. assert (E : forall va w, M !! va = Some w -> (va <? b) = true).
  { intros va w HM. destruct (HL va w HM) as ([? _] & _). apply Z.ltb_lt. lia. }
  unfold parent_upto, child_upto, fork_parent, fork_child. split; [|f_equal]; apply map_eq; intros va; rewrite !map_lookup_imap;
    (destruct (M !! va) as [w|] eqn:HM; cbn; [|done]); by rewrite (E va w HM).
Qed.

Lemma fork_parent_lookup M va : fork_parent M !! va = (fun w => if user va w then fork_entry vmas va w else w) <$> M !! va.
Proof. unfold fork_parent. rewrite map_lookup_imap. by destruct (M !! va). Qed.

Lemma fork_child_lookup M M2 va : M2 !! va = None ->
  fork_child M M2 !! va = (w ← M !! va; if user va w then Some (child_entry vmas va w) else None).
Proof. intros H2. unfold fork_child. rewrite lookup_union_r by done. by rewrite map_lookup_imap. Qed.

(** Access through an entry of the copy. *)
Lemma access_fork va w perm : is_u64 w -> has_bits w PTE_V = true -> has_bits w PTE_RWX = true ->
  (has_bits w PTE_W = true -> has_bits w PTE_R = true) -> perm = PTE_R \/ perm = PTE_W ->
  access (fork_entry vmas va w) perm = access w perm && negb (shares vmas va w && (perm =? PTE_W)) /\
  access (child_entry vmas va w) perm = access w perm && negb (shares vmas va w && (perm =? PTE_W)).
Proof.
  intros Hu HV HR HW Hp. destruct (fork_entry_facts vmas va w Hu HV HR HW) as (Uc & _ & _ & _ & Hb).
  destruct (child_entry_facts vmas va w Hu HV HR HW) as (Hpr & _).
  assert (Hone : forall x, (Z.land x perm =? perm) = has_bits x perm).
  { intros x. unfold has_bits, truth. assert (Hx : Z.land x perm = 0 \/ Z.land x perm = perm).
    { assert (Hk : exists k, 0 <= k /\ perm = 2 ^ k) by (destruct Hp as [-> | ->]; [exists 1|exists 2]; done).
      destruct Hk as (k & Hk & ->). destruct (Z.testbit x k) eqn:Ex; [right|left]; apply Z.bits_inj'; intros i Hi; rewrite Z.land_spec, ?Z.bits_0,
        Z.pow2_bits_eqb by done; destruct (Z.eqb_spec k i) as [->|]; rewrite ?Ex, ?andb_false_r; done. }
    destruct Hx as [-> | ->]; [destruct Hp as [-> | ->]; done|]. rewrite Z.eqb_refl. by destruct Hp as [-> | ->]. }
  assert (Hf : access (fork_entry vmas va w) perm = access w perm && negb (shares vmas va w && (perm =? PTE_W))).
  { unfold access. rewrite !Hone. rewrite (Hb PTE_U) by (done || flag_bound). destruct Hp as [-> | ->].
    - rewrite (Hb PTE_R) by (done || flag_bound). change (PTE_R =? PTE_W) with false. by rewrite andb_false_r, andb_true_r.
    - change (PTE_W =? PTE_W) with true. rewrite andb_true_r. unfold fork_entry. destruct (shares vmas va w); [|by rewrite andb_true_r].
      cbn [negb]. rewrite andb_false_r, has_bits_lor, has_bits_cleared. apply andb_false_r. }
  split; [done|]. rewrite <-Hf. unfold access. rewrite !Hone. unfold child_entry.
  assert (0 <= Z.lor PTE_V (Z.land (fork_entry vmas va w) 0x3ff) < 1024) by (apply flags_bound; [flag_bound|done]).
  assert (Hlow : forall b, 0 <= b < 1024 -> has_bits PTE_V b = false ->
    has_bits (entry_of (PTE2PA w) (Z.lor PTE_V (Z.land (fork_entry vmas va w) 0x3ff))) b = has_bits (fork_entry vmas va w) b).
  { intros b Hb1 Hb2. rewrite has_bits_entry, has_bits_lor, Hb2 by done. cbn [orb]. change 0x3ff with (Z.ones 10).
    rewrite Z.land_ones by lia. by apply mod_flags. }
  rewrite (Hlow PTE_U) by (done || flag_bound). destruct Hp as [-> | ->]; by rewrite Hlow by (done || flag_bound).
Qed.

Lemma child_entry_pa va w : is_u64 w -> has_bits w PTE_V = true -> has_bits w PTE_RWX = true ->
  (has_bits w PTE_W = true -> has_bits w PTE_R = true) -> PTE2PA (fork_entry vmas va w) = PTE2PA w /\ PTE2PA (child_entry vmas va w) = PTE2PA w.
Proof.
  intros Hu HV HR HW. destruct (fork_entry_facts vmas va w Hu HV HR HW) as (_ & E & _).
  destruct (child_entry_facts vmas va w Hu HV HR HW) as (_ & _ & _ & E' & _). done.
Qed.

(** What an address means after the copy: reads are the same in both spaces, writes to private pages are not possible. *)
Definition shared_at M va : bool := match M !! PGROUNDDOWN va with Some w => shares vmas (PGROUNDDOWN va) w | None => false end.

Lemma access_user w perm : access w perm = true -> has_bits w (Z.lor PTE_U PTE_SW_USER) = true.
Proof. unfold access. intros [H _]%andb_true_iff. apply has_either. by left. Qed.

Lemma fork_translate M M2 perm va : leaves M -> (forall k, k < USER_SIGRETURN -> M2 !! k = None) -> 0 <= va < USER_SIGRETURN ->
  perm = PTE_R \/ perm = PTE_W ->
  let t := if shared_at M va && (perm =? PTE_W) then None else translate M perm va in
  translate (fork_parent M) perm va = t /\ translate (fork_child M M2) perm va = t.
Proof.
  intros HL H2 Hva Hp t. destruct (page_round va ltac:(lia)) as (_ & Hr & _). set (k := PGROUNDDOWN va) in *.
  unfold t, translate, shared_at. fold k. rewrite fork_parent_lookup, fork_child_lookup by (apply H2; lia).
  destruct (M !! k) as [w|] eqn:HM; cbn [fmap option_fmap option_map mbind option_bind]; [|by destruct (_ && _)]. destruct (HL k w HM) as (_ & Hu & HV & HR & HW).
  destruct (access_fork k w perm Hu HV HR HW Hp) as [A1 A2], (child_entry_pa k w Hu HV HR HW) as [E1 E2].
  destruct (user k w) eqn:HU; cbn [fmap option_fmap option_map mbind option_bind].
  - rewrite A1, A2, E1, E2. destruct (shares vmas k w && (perm =? PTE_W)); cbn [negb]; by rewrite ?andb_false_r, ?andb_true_r.
  - assert (access w perm = false) as ->; [|split; by destruct (shares vmas k w && (perm =? PTE_W))]. destruct (access w perm) eqn:Hac; [|done].
    apply access_user in Hac. unfold user in HU. rewrite Hac, (proj2 (Z.ltb_lt k _)) in HU by lia. done.
Qed.
End maps.

Section vm_copy.
  Context {St : Type} {FS : Frames St} {FL : FramesLaws St}.
  Implicit Types (V : vm St) (D : gmap (list nat) Z) (M : gmap Z Z) (old new va a w : Z) (o : Z -> Z).

(** A parent and a fresh child: user leaves of the parent lie below the signal page, and the child maps nothing but the
    signal page, which belongs to the image of the kernel, and pages of the kernel. *)
Record fork_ready V old D M new D2 M2 o : Prop := {
  fr_two : two V old D M new D2 M2 o;
  fr_above va w : M !! va = Some w -> USER_SIGRETURN < va -> user_bits w = false;
  fr_readable va w : M !! va = Some w -> has_bits w PTE_W = true -> has_bits w PTE_R = true;
  fr_empty va : va < USER_SIGRETURN -> M2 !! va = None;
  fr_kernel va w : M2 !! va = Some w -> va <> USER_SIGRETURN -> user_bits w = false;
  fr_signal w : M2 !! USER_SIGRETURN = Some w -> fr_reserved (PTE2PA w) }.

(** The signal page is mapped for the user. *)
Definition signal_mapped M : bool := match M !! USER_SIGRETURN with Some w => user_bits w | None => false end.

(** Memory in use and the tables of other spaces are the same. *)
Record undisturbed V V' D D2 D2' M M2 o : Prop := {
  un_sub : D2 ⊆ D2';
  un_bytes f x : 0 < o f + refs M f + tabs D f + refs M2 f + tabs D2 f -> f <= x < f + PGSIZE -> f mod PGSIZE = 0 ->
    fr_byte (frames V') x = fr_byte (frames V) x;
  un_else a : ~ table_of D a -> ~ table_of D2' a -> tables V' !! a = tables V !! a }.

Lemma ready_leaves V old D M new D2 M2 o : fork_ready V old D M new D2 M2 o -> leaves M.
Proof.
  intros HF va w HM. destruct (map_range V old D M (tw_parent _ _ _ _ _ _ _ _ (fr_two _ _ _ _ _ _ _ _ HF)) va w HM) as (? & ? & Hl & ?).
  unfold is_leaf in Hl. apply andb_true_iff in Hl as [? ?]. split; [done|]. split_and!; try done. by eapply (fr_readable _ _ _ _ _ _ _ _ HF).
Qed.

Lemma no_user_child vmas b M M2 : leaves M -> (forall va w, M2 !! va = Some w -> user_bits w = false) -> no_user (child_upto vmas b M M2) = M2.
Proof.
  intros HL Hn. apply map_eq. intros va. apply option_eq. intros w. unfold no_user. rewrite map_lookup_filter_Some. cbn. rewrite child_lookup.
  destruct (M2 !! va) as [w2|] eqn:H2; [naive_solver|]. destruct (M !! va) as [x|] eqn:HM; cbn; [|naive_solver].
  destruct (_ && user va x) eqn:HU; [|naive_solver]. split; [|done]. intros [<-%(inj Some) Hf]. exfalso.
  destruct (HL va x HM) as (_ & Hu & HV & HR & HW). apply andb_true_iff in HU as [_ HU]. destruct (user_owned_leaf va x HU) as (_ & Hsig & _).
  destruct (child_entry_facts vmas va x Hu HV HR HW) as (_ & _ & How & _). unfold user in HU. apply andb_true_iff in HU as [_ HU].
  specialize (How HU Hsig). unfold owned in How. apply andb_true_iff in How as [_ How]. unfold user_bits in Hf. congruence.
Qed.

(** Reserved frames have no references. *)
Lemma reserved_count V pgdir D M o f : aspace V pgdir D M o -> fr_reserved f -> count_of D M o f = 0.
Proof. intros HA Hf. exact (fr_reserved_ok _ _ f (as_frames _ _ _ _ _ HA) Hf). Qed.

Lemma two_flush V old D M new D2 M2 o : two V old D M new D2 M2 o -> two (cpu_tlb_flush_all V) old D M new D2 M2 o.
Proof. intros [A B C E F]. split; try done; [by eapply space_tables; [|exact A]|by eapply space_tables; [|exact B]]. Qed.

Context V old D M new D2 M2 o (HF : fork_ready V old D M new D2 M2 o) (vmas : list vm_area).
Local Notation state bp bc V' D2' ch := (fork_inv vmas V old new D D2 M M2 o bp bc V' D2' ch).

Lemma copy_walk : exists rc V1 D1 ch bp bc, vm_copy_walk 2 new vmas V old 0 false = Ret (rc, V1, ch) /\ state bp bc V1 D1 ch /\
  (rc = 0 /\ parent_upto vmas bp M = fork_parent vmas M /\ child_upto vmas bc M M2 = fork_child vmas M M2 \/ rc = -1).
Proof.
  destruct (copy_walk_ok vmas V old new D D2 M M2 o (fr_two _ _ _ _ _ _ _ _ HF) (fr_empty _ _ _ _ _ _ _ _ HF)
    (fr_above _ _ _ _ _ _ _ _ HF) (fr_readable _ _ _ _ _ _ _ _ HF)) as (rc & V1 & D1 & ch & bp & bc & E & HI & Hrc).
  exists rc, V1, D1, ch, bp, bc. split; [done|]. split; [done|]. destruct Hrc as [(-> & -> & ->)|Hrc]; [left|by right]. split; [done|].
  apply fork_all; [by eapply ready_leaves|]. change MAXVA with (2 ^ 38). lia.
Qed.

Lemma state_undisturbed bp bc V1 D1 ch : state bp bc V1 D1 ch -> undisturbed V V1 D D2 D1 M M2 o.
Proof. intros [A B C E F G]. by split. Qed.

(** Failure: the child loses the pages it got, unless the signal page is in the way. *)
Lemma copy_undo bp bc V1 D1 ch : state bp bc V1 D1 ch ->
  if signal_mapped M2 then vm_free_user V1 new = Panic "put invalid page"
  else exists V2, vm_free_user V1 new = Ret V2 /\ two V2 old D (parent_upto vmas bp M) new D1 M2 o /\
    undisturbed V V2 D D2 D1 M M2 o /\ flushes V2 = flushes V1.
Proof.
  intros HI. pose proof (fi_two _ _ _ _ _ _ _ _ _ _ _ _ _ _ HI) as HT. pose proof (two_child _ _ _ _ _ _ _ _ HT) as HC.
  pose proof (ready_leaves _ _ _ _ _ _ _ _ HF) as HL. destruct (state_undisturbed _ _ _ _ _ HI) as [U1 U2 U3].
  assert (Hlook : child_upto vmas bc M M2 !! USER_SIGRETURN = M2 !! USER_SIGRETURN).
  { rewrite child_lookup. destruct (M2 !! USER_SIGRETURN); [done|]. destruct (M !! USER_SIGRETURN) as [w|]; cbn; [|done].
    unfold user. rewrite Z.ltb_irrefl. cbn. by rewrite andb_false_r. }
  destruct (vm_free_user_ok V1 new D1 _ _ HC) as [(V2 & E & HA & HSh & HN)|[E (w & HM & HU & _)]].
  { intros w HM _. eapply reserved_count; [exact HC|]. apply (fr_signal _ _ _ _ _ _ _ _ HF). by rewrite <-Hlook. }
  - destruct (signal_mapped M2) eqn:Hsm; unfold signal_mapped in Hsm.
    + destruct (M2 !! USER_SIGRETURN) as [w|] eqn:H2; [|done]. destruct HN. exists w. split; [done|]. split; [done|].
      eapply reserved_count; [exact HC|]. by apply (fr_signal _ _ _ _ _ _ _ _ HF).
    + assert (Hnu : forall va w, M2 !! va = Some w -> user_bits w = false).
      { intros va w Hw. destruct (decide (va = USER_SIGRETURN)) as [->|Hne]; [by rewrite Hw in Hsm|by eapply (fr_kernel _ _ _ _ _ _ _ _ HF)]. }
      rewrite no_user_child in HA, HSh by done.
      assert (HA' : two V2 old D (parent_upto vmas bp M) new D1 M2 o).
      { destruct HT as [T1 T2 T3 T4 T5]. split; [|apply HA| |done|done].
        - eapply space_else; [|exact T1]. intros b Hb. apply (sh_else _ _ _ _ _ HSh). by apply T5.
        - eapply fr_ok_ext; [|exact (as_frames _ _ _ _ _ HA)]. intros f. unfold other. cbn. lia. }
      exists V2. split; [done|]. split; [done|]. split; [|apply HSh]. split; [done| |].
      * intros f x Hf Hx Ha. rewrite (sh_bytes _ _ _ _ _ HSh f x); [by apply (U2 f)| |done|done]. unfold count_of, other.
        rewrite (parent_refs vmas V old new D D2 M M2 o) by (done || apply HF). pose proof (tabs_mono D2 D1 f U1). lia.
      * intros b H1 H3. rewrite (sh_else _ _ _ _ _ HSh) by done. by apply U3.
  - rewrite Hlook in HM. unfold signal_mapped. by rewrite HM, HU.
Qed.

Lemma vm_copy_ok :
  (exists V' D2', vm_copy V old new vmas = Ret (0, V') /\ two V' old D (fork_parent vmas M) new D2' (fork_child vmas M M2) o /\
     undisturbed V V' D D2 D2' M M2 o /\ (fork_parent vmas M = M \/ flushes V < flushes V')) \/
  if signal_mapped M2 then vm_copy V old new vmas = Panic "put invalid page"
  else exists V' D2' bp, vm_copy V old new vmas = Ret (-1, V') /\ two V' old D (parent_upto vmas bp M) new D2' M2 o /\
    undisturbed V V' D D2 D2' M M2 o /\ (parent_upto vmas bp M = M \/ flushes V < flushes V').
Proof.
  destruct copy_walk as (rc & V1 & D1 & ch & bp & bc & E & HI & Hrc). unfold vm_copy. rewrite E. cbn [mbind outcome_bind].
  pose proof (fi_flush _ _ _ _ _ _ _ _ _ _ _ _ _ _ HI) as HL. pose proof (fi_changed _ _ _ _ _ _ _ _ _ _ _ _ _ _ HI) as HC.
  destruct Hrc as [(-> & Ep & Ec)| ->].
  - left. change (0 <? 0) with false. cbn iota. pose proof (fi_two _ _ _ _ _ _ _ _ _ _ _ _ _ _ HI) as HT. rewrite Ep, Ec in HT.
    destruct (state_undisturbed _ _ _ _ _ HI) as [U1 U2 U3]. destruct ch.
    + exists (cpu_tlb_flush_all V1), D1. split; [done|]. split; [by apply two_flush|]. split; [by split|]. right. cbn. lia.
    + exists V1, D1. split; [done|]. split; [done|]. split; [by split|]. left. rewrite <-Ep. by apply HC.
  - right. change (-1 <? 0) with true. cbn iota. pose proof (copy_undo bp bc V1 D1 ch HI) as HU.
    destruct (signal_mapped M2).
    + by rewrite HU.
    + destruct HU as (V2 & -> & HT & [U1 U2 U3] & HF2). cbn [mbind outcome_bind]. destruct ch.
      * exists (cpu_tlb_flush_all V2), D1, bp. split; [done|]. split; [by apply two_flush|]. split; [by split|]. right. cbn. lia.
      * exists V2, D1, bp. split; [done|]. split; [done|]. split; [by split|]. left. by apply HC.
Qed.
End vm_copy.
