(* ===== verification/UserSpace.v ===== *)
(** * Address spaces of processes: the code

    [process_pagedir] and [process_freepagedir] of kernel/process.c: a new
    address space maps the trampoline, the signal trampoline and a trapframe;
    the end of a process gives everything back. *)
From S2P Require Import Prelude Vma Scheduler Vm VmSpace VmMap VmAlloc VmFree.

Definition TRAMPOLINE : Z := MAXVA - PGSIZE.
Definition TRAPFRAME (x : Z) : Z := TRAMPOLINE - PGSIZE * (x + 1).

Section userspace.
  Context {St : Type} {FS : Frames St}.
  (** The addresses of the code in the kernel image. *)
  Context (trampoline sigtrampoline sigtrampoline_end : Z).
  Implicit Types (V : vm St) (pgdir : Z).

Definition process_pagedir V (p : option process) (t : option thread) : outcome (Z * vm St) :=
  match p, t with
  | Some p, Some t =>
      if negb (home t =? p_address p) || (id_p t <? 0) || (PROC_MAXTHREAD <=? id_p t) then Ret (0, V) else
      '(pgdir, V) ← pagedir_alloc V;
      if negb (truth pgdir) then Ret (0, V) else
      '(ret, V) ← vm_map V pgdir TRAMPOLINE trampoline PGSIZE (Z.lor PTE_R PTE_X);
      if truth ret then V ← pagedir_free V pgdir; Ret (0, V) else
      '(ret, V) ← if PGSIZE <? sigtrampoline_end - sigtrampoline then Ret (-1, V)
                  else vm_map V pgdir USER_SIGRETURN sigtrampoline PGSIZE (Z.lor (Z.lor PTE_U PTE_R) PTE_X);
      if ret <? 0 then
        V ← vm_unmap V pgdir TRAMPOLINE 1 false;
        V ← pagedir_free V pgdir; Ret (0, V)
      else
      '(ret, V) ← vm_map V pgdir (TRAPFRAME (id_p t)) (trapframe t) PGSIZE (Z.lor PTE_W PTE_R);
      if truth ret then
        V ← vm_unmap V pgdir USER_SIGRETURN 1 false;
        V ← vm_unmap V pgdir TRAMPOLINE 1 false;
        V ← pagedir_free V pgdir; Ret (0, V)
      else Ret (pgdir, V)
  | _, _ => Ret (0, V)
  end.

(** [if (vm_mapped(pgdir, va)) vm_unmap(pgdir, va, 1, 0)] *)
Definition unmap_if_mapped V pgdir (va : Z) : outcome (vm St) :=
  b ← vm_mapped V pgdir va;
  if b : bool then vm_unmap V pgdir va 1 false else Ret V.

Definition process_freepagedir V pgdir : outcome (vm St) :=
  V ← for_each (fun V i => unmap_if_mapped V pgdir (TRAPFRAME (Z.of_nat i))) (seq 0 (Z.to_nat PROC_MAXTHREAD)) V;
  V ← unmap_if_mapped V pgdir USER_SIGRETURN;
  V ← unmap_if_mapped V pgdir TRAMPOLINE;
  V ← vm_free_user V pgdir;
  pagedir_free V pgdir.
End userspace.

(** * Address spaces of processes

    A new address space maps exactly its three pages, or nothing is lost; the
    end of a process gives every frame of its space back. *)

Section userspace.
  Context {St : Type} {FS : Frames St} {FL : FramesLaws St}.
  Implicit Types (V : vm St) (D : gmap (list nat) Z) (M : gmap Z Z) (pgdir va a w b : Z) (o : Z -> Z).

(** ** Unmapping pages of the kernel *)

Lemma page_range_one va : page_range va (va + PGSIZE) = [va].
Proof.
  unfold page_range. replace (va + PGSIZE - va + PGSIZE - 1) with (2 * PGSIZE - 1) by lia.
  change (Z.to_nat ((2 * PGSIZE - 1) / PGSIZE)) with 1%nat. cbn [seq fmap list_fmap]. by rewrite Z.mul_0_l, Z.add_0_r.
Qed.

Lemma one_page va : 0 <= va < MAXVA -> va +64 (1 *64 PGSIZE) = va + PGSIZE.
Proof.
  intros Hva. change MAXVA with (2 ^ 38) in Hva. unfold PGSIZE. rewrite (wrap64_id (1 * 4096)) by (unfold is_u64; lia).
  apply wrap64_id. unfold is_u64. lia.
Qed.

Lemma leaf_flags w : has_bits w PTE_RWX = true -> (Z.land w 0x3ff =? PTE_V) = false.
Proof.
  intros HR. apply Z.eqb_neq. intros E. apply (f_equal (fun x => has_bits x PTE_RWX)) in E. revert E.
  change 0x3ff with (Z.ones 10). rewrite Z.land_ones by lia. change (2 ^ 10) with 1024. rewrite mod_flags by flag_bound.
  rewrite HR. by vm_compute.
Qed.

(** [vm_unmap] of a page that owns no frame. *)
Lemma vm_unmap_one V pgdir D M o va w : aspace V pgdir D M o -> M !! va = Some w -> owned va w = false ->
  exists V', vm_unmap V pgdir va 1 false = Ret V' /\ aspace V' pgdir D (delete va M) o /\ elsewhere V V' D /\
    flushes V' = flushes V /\ frames V' = frames V.
Proof.
  intros HA HM Ho. pose proof (as_space _ _ _ _ _ HA) as HS. destruct (map_range V pgdir D M HS va w HM) as (Hva & Ha & Hl & Hu).
  unfold is_leaf in Hl. apply andb_true_iff in Hl as [HV HR].
  unfold vm_unmap. rewrite Ha, one_page by done. change (truth 0) with false. cbn iota. rewrite page_range_one. cbn [unmap_pages].
  rewrite (PTE_find V pgdir D M HS) by done. cbn [mbind outcome_bind].
  destruct (D !! prefix va 0) as [a|] eqn:HD; [|by rewrite (unmapped_None V pgdir D M HS va HD) in HM].
  destruct (leaf_lookup V pgdir D M HS va a Hva Ha HD) as (w' & -> & HW). cbn [mbind outcome_bind].
  assert (w' = w) as ->.
  { destruct (has_bits w' PTE_V); [destruct HW as [HW _]|]; congruence. }
  rewrite HV, leaf_flags by done. cbn [negb].
  destruct (clear_ok V pgdir D M o va a w HA HM HD) as (V' & -> & HA' & HE & HF & HB). cbn [mbind outcome_bind].
  exists V'. split_and!; try done. eapply aspace_ext; [|exact HA']. intros f. rewrite Ho. unfold plus. cbn. lia.
Qed.

Lemma unmap_if_mapped_ok V pgdir D M o va : aspace V pgdir D M o -> page_va va ->
  (forall w, M !! va = Some w -> owned va w = false) ->
  exists V', unmap_if_mapped V pgdir va = Ret V' /\ aspace V' pgdir D (delete va M) o /\ elsewhere V V' D /\ frames V' = frames V.
Proof.
  intros HA Hva Ho. unfold unmap_if_mapped. rewrite (vm_mapped_ok V pgdir D M va (as_space _ _ _ _ _ HA) Hva). cbn [mbind outcome_bind].
  destruct (bool_decide_reflect (is_Some (M !! va))) as [[w HM]|HN].
  - destruct (vm_unmap_one V pgdir D M o va w HA HM (Ho w HM)) as (V' & E & HA' & HE & _ & HB). eauto.
  - exists V. rewrite delete_id by (by apply eq_None_not_Some). split_and!; try done.
Qed.

(** ** The end of a process *)

Lemma trapframe_page x : 0 <= x < PROC_MAXTHREAD -> page_va (TRAPFRAME x) /\ TRAPFRAME x <> USER_SIGRETURN.
Proof.
  unfold page_va, TRAPFRAME, TRAMPOLINE, PROC_MAXTHREAD, USER_SIGRETURN, PGSIZE. change MAXVA with (2 ^ 38). intros Hx.
  split; [split; [lia|]|lia]. replace (2 ^ 38 - 4096 - 4096 * (x + 1)) with ((2 ^ 26 - 2 - x) * 4096) by lia. apply Z.mod_mul. lia.
Qed.

Lemma unmap_frames_ok l V pgdir D M o : aspace V pgdir D M o -> (forall i, i ∈ l -> Z.of_nat i < PROC_MAXTHREAD) ->
  (forall i w, i ∈ l -> M !! TRAPFRAME (Z.of_nat i) = Some w -> owned (TRAPFRAME (Z.of_nat i)) w = false) ->
  exists V' M', for_each (fun V i => unmap_if_mapped V pgdir (TRAPFRAME (Z.of_nat i))) l V = Ret V' /\ aspace V' pgdir D M' o /\
    elsewhere V V' D /\ frames V' = frames V /\ M' ⊆ M /\
    forall va, M' !! va = None \/ M' !! va = M !! va /\ forall i, i ∈ l -> va <> TRAPFRAME (Z.of_nat i).
Proof.
  revert V M. induction l as [|i l IH]; intros V M HA Hl Ho.
  { exists V, M. split_and!; try done. intros va. right. split; [done|]. intros i Hi. by apply elem_of_nil in Hi. }
  cbn [for_each]. destruct (unmap_if_mapped_ok V pgdir D M o (TRAPFRAME (Z.of_nat i)) HA) as (V1 & -> & HA1 & HE1 & HB1).
  { apply trapframe_page. split; [lia|]. apply Hl. by left. }
  { intros w. apply Ho. by left. }
  cbn [mbind outcome_bind]. destruct (IH V1 (delete (TRAPFRAME (Z.of_nat i)) M) HA1) as (V' & M' & -> & HA' & HE' & HB' & HS & HM').
  - intros j Hj. apply Hl. by right.
  - intros j w Hj [_ HM]%lookup_delete_Some. apply Ho; [by right|done].
  - exists V', M'. split_and!; try done.
    + intros b Hb. by rewrite HE', HE1.
    + congruence.
    + etrans; [exact HS|apply delete_subseteq].
    + intros va. destruct (HM' va) as [|[E Hne]]; [by left|]. destruct (decide (va = TRAPFRAME (Z.of_nat i))) as [->|Hva].
      * left. rewrite E. apply lookup_delete_eq.
      * right. split; [by rewrite E, lookup_delete_ne|]. intros j [->|Hj]%elem_of_cons; [done|by apply Hne].
Qed.

(** The pages of the kernel in a user space. *)
Definition kernel_page va : Prop := va = TRAMPOLINE \/ exists i, 0 <= i < PROC_MAXTHREAD /\ va = TRAPFRAME i.

Lemma trampoline_page : page_va TRAMPOLINE /\ TRAMPOLINE <> USER_SIGRETURN.
Proof. unfold page_va, TRAMPOLINE, USER_SIGRETURN, PGSIZE. change MAXVA with (2 ^ 38). split; [split; [lia|reflexivity]|lia]. Qed.

Lemma unowned va w : user_bits w = false -> owned va w = false.
Proof. unfold owned, user_bits. intros ->. apply andb_false_r. Qed.

Lemma signal_unowned w : owned USER_SIGRETURN w = false.
Proof. unfold owned. by rewrite Z.eqb_refl. Qed.

Lemma process_freepagedir_ok V pgdir D M o : aspace V pgdir D M o ->
  (forall va w, M !! va = Some w -> va <> USER_SIGRETURN -> kernel_page va <-> user_bits w = false) ->
  exists V', process_freepagedir V pgdir = Ret V' /\ fr_ok (frames V') o /\ (forall b, ~ table_of D b -> tables V' !! b = tables V !! b) /\
    forall f x, 0 < o f -> f <= x < f + PGSIZE -> f mod PGSIZE = 0 -> fr_byte (frames V') x = fr_byte (frames V) x.
Proof.
  intros HA HK. unfold process_freepagedir. destruct trampoline_page as [Htp Hts].
  destruct (unmap_frames_ok (seq 0 (Z.to_nat PROC_MAXTHREAD)) V pgdir D M o HA) as (V1 & M1 & -> & HA1 & HE1 & HB1 & HS1 & HM1).
  { intros i Hi%elem_of_seq. unfold PROC_MAXTHREAD in *. lia. }
  { intros i w Hi%elem_of_seq HM. assert (Hr : 0 <= Z.of_nat i < PROC_MAXTHREAD) by (unfold PROC_MAXTHREAD in *; lia).
    apply unowned, (HK _ w HM); [by apply trapframe_page|]. right. eauto. }
  cbn [mbind outcome_bind].
  assert (Hsig : page_va USER_SIGRETURN) by (split; [unfold USER_SIGRETURN; change MAXVA with (2 ^ 38); lia|reflexivity]).
  destruct (unmap_if_mapped_ok V1 pgdir D M1 o USER_SIGRETURN HA1 Hsig) as (V2 & -> & HA2 & HE2 & HB2); [intros; apply signal_unowned|].
  cbn [mbind outcome_bind].
  destruct (unmap_if_mapped_ok V2 pgdir D _ o TRAMPOLINE HA2 Htp) as (V3 & -> & HA3 & HE3 & HB3).
  { intros w [_ HM]%lookup_delete_Some. apply unowned, (HK TRAMPOLINE w); [by eapply lookup_weaken|done|by left]. }
  cbn [mbind outcome_bind]. set (M3 := delete TRAMPOLINE (delete USER_SIGRETURN M1)) in *.
  destruct (vm_free_user_ok V3 pgdir D M3 o HA3) as [(V4 & -> & HA4 & HSh & _)|(_ & w & HM & _)].
  { intros w [_ [Hne _]%lookup_delete_Some]%lookup_delete_Some. done. }
  2:{ apply lookup_delete_Some in HM as [_ [Hne _]%lookup_delete_Some]. done. }
  assert (E : no_user M3 = ∅).
  { apply map_empty. intros va. apply eq_None_not_Some. intros [w Hw]. unfold no_user in Hw. apply map_lookup_filter_Some in Hw as [HM HU]. cbn in HU.
    unfold M3 in HM. apply lookup_delete_Some in HM as [Hn1 [Hn2 HM]%lookup_delete_Some].
    destruct (HM1 va) as [HN|[E Hn3]]; [congruence|]. rewrite E in HM. apply (HK va w HM) in HU as [->|(i & Hi & ->)]; [done| |done].
    apply (Hn3 (Z.to_nat i)); [apply elem_of_seq; unfold PROC_MAXTHREAD in *; lia|]. by rewrite Z2Nat.id by lia. }
  rewrite E in HA4, HSh. cbn [mbind outcome_bind]. destruct (pagedir_free_ok V4 D pgdir o HA4) as (V' & -> & Hok & HT & HF & Hb).
  exists V'. split; [done|]. split; [done|]. split.
  - intros b Hnb. rewrite HT, (sh_else _ _ _ _ _ HSh), HE3, HE2, HE1 by done. done.
  - intros f x Hf Hx Ha. rewrite (Hb f x) by done. rewrite (sh_bytes _ _ _ _ _ HSh f x); [by rewrite HB3, HB2, HB1| |done|done].
    destruct (count_parts V4 pgdir D ∅ o f HA4) as (? & ? & ?). unfold count_of. lia.
Qed.

(** ** A new address space *)

(** Frames in use elsewhere, and the tables among them, stay as they are. *)
Record builds V V' D o : Prop := {
  bu_tables b : 0 < o b -> tables V' !! b = tables V !! b /\ ~ table_of D b;
  bu_bytes f x : 0 < o f -> f <= x < f + PGSIZE -> f mod PGSIZE = 0 -> fr_byte (frames V') x = fr_byte (frames V) x }.

Lemma builds_grow V V1 V2 D D' M o pgdir : builds V V1 D o -> aspace V1 pgdir D M o -> grows V1 V2 D D' M o -> builds V V2 D' o.
Proof.
  intros [A1 A2] HA [G1 G2 G3 G4 G5]. assert (Hc : forall f, 0 < o f -> 0 < count_of D M o f).
  { intros f Hf. destruct (count_parts V1 pgdir D M o f HA) as (_ & ? & ?). unfold count_of. lia. }
  split.
  - intros b Hb. destruct (A1 b Hb) as [E Hn]. assert (Hn' : ~ table_of D' b).
    { intros [q Hq]. assert (0 < tabs D' b) by (apply (tally_pos (fun _ x => x =? b) D' q b Hq); apply Z.eqb_refl).
      rewrite G4 in H by auto. apply (tally_inv (fun _ x => x =? b)) in H as (p & x & Hp & ->%Z.eqb_eq). apply Hn. by exists p. }
    split; [by rewrite G2|done].
  - intros f x Hf Hx Ha. rewrite (G5 f x) by auto. by apply (A2 f).
Qed.

Lemma builds_same V V1 V2 D o : builds V V1 D o -> elsewhere V1 V2 D -> frames V2 = frames V1 -> builds V V2 D o.
Proof.
  intros [A1 A2] HE HF. split.
  - intros b Hb. destruct (A1 b Hb) as [E Hn]. split; [by rewrite HE|done].
  - intros f x Hf Hx Ha. rewrite HF. by apply (A2 f).
Qed.

(** One of the pages of the kernel; [flags] make no owner. *)
Lemma builds_map V V1 D M o pgdir va pa perm : builds V V1 D o -> aspace V1 pgdir D M o -> page_va va -> M !! va = None ->
  is_u64 pa -> pa mod PGSIZE = 0 -> 0 <= perm < 1024 -> has_bits perm PTE_RWX = true ->
  let w := entry_of pa (Z.lor PTE_V perm) in owned va w = false ->
  exists V2 D2 rc, vm_map V1 pgdir va pa PGSIZE perm = Ret (rc, V2) /\ builds V V2 D2 o /\
    (rc = -1 /\ aspace V2 pgdir D2 M o \/ rc = 0 /\ aspace V2 pgdir D2 (<[va := w]> M) o).
Proof.
  intros HB HA [Hva Ha] HM Hu Hpa Hp HR w Ho.
  destruct (map_page_ok V1 pgdir D M o va pa perm HA Hva Ha HM Hu Hpa Hp HR) as (V2 & D2 & rc & E & HG & Hrc).
  { fold w. congruence. }
  exists V2, D2, rc. split; [done|]. split; [by eapply builds_grow|]. destruct Hrc as [[-> HA2]|[-> HA2]]; [by left|right].
  split; [done|]. fold w in HA2. eapply aspace_ext; [|exact HA2]. intros f. rewrite Ho. unfold less. cbn. lia.
Qed.

Lemma builds_free V V1 D o pgdir : builds V V1 D o -> aspace V1 pgdir D ∅ o ->
  exists V2, pagedir_free V1 pgdir = Ret V2 /\ fr_ok (frames V2) o /\ builds V V2 ∅ o.
Proof.
  intros [A1 A2] HA. destruct (pagedir_free_ok V1 D pgdir o HA) as (V2 & E & Hok & HT & _ & Hb). exists V2. split; [done|]. split; [done|]. split.
  - intros b Hf. destruct (A1 b Hf) as [E1 Hn]. split; [by rewrite HT|]. intros [p Hp]. by rewrite lookup_empty in Hp.
  - intros f x Hf Hx Ha. rewrite (Hb f x) by done. by apply (A2 f).
Qed.

Section build.
  Context (trampoline sigtrampoline sigtrampoline_end : Z).
  Context (Htr : is_u64 trampoline /\ trampoline mod PGSIZE = 0) (Hsg : is_u64 sigtrampoline /\ sigtrampoline mod PGSIZE = 0).

(** The leaves of a new address space. *)
Definition tramp_entry : Z := entry_of trampoline (Z.lor PTE_V (Z.lor PTE_R PTE_X)).
Definition signal_entry : Z := entry_of sigtrampoline (Z.lor PTE_V (Z.lor (Z.lor PTE_U PTE_R) PTE_X)).
Definition frame_entry (t : thread) : Z := entry_of (trapframe t) (Z.lor PTE_V (Z.lor PTE_W PTE_R)).
Definition user_map (t : thread) : gmap Z Z :=
  <[TRAPFRAME (id_p t) := frame_entry t]> (<[USER_SIGRETURN := signal_entry]> (<[TRAMPOLINE := tramp_entry]> ∅)).

(** Ends with failure: everything taken is given back. *)
Definition gives_back V (o : Z -> Z) (r : outcome (Z * vm St)) : Prop :=
  exists V', r = Ret (0, V') /\ fr_ok (frames V') o /\ builds V V' ∅ o.

Lemma fail_empty V V1 D o pgdir : builds V V1 D o -> aspace V1 pgdir D ∅ o ->
  gives_back V o (V ← pagedir_free V1 pgdir; Ret (0, V)).
Proof. intros HB HA. destruct (builds_free V V1 D o pgdir HB HA) as (V2 & -> & ? & ?). cbn. by exists V2. Qed.

Lemma fail_tramp V V1 D o pgdir w : builds V V1 D o -> aspace V1 pgdir D (<[TRAMPOLINE := w]> ∅) o -> owned TRAMPOLINE w = false ->
  gives_back V o (V ← vm_unmap V1 pgdir TRAMPOLINE 1 false; V ← pagedir_free V pgdir; Ret (0, V)).
Proof.
  intros HB HA Ho. destruct (vm_unmap_one V1 pgdir D _ o TRAMPOLINE w HA (lookup_insert_eq _ _ _) Ho) as (V2 & -> & HA2 & HE & _ & HF).
  cbn [mbind outcome_bind]. rewrite delete_insert_id in HA2 by apply lookup_empty. eapply fail_empty; [by eapply builds_same|done].
Qed.

Lemma fail_signal V V1 D o pgdir w w' : builds V V1 D o -> aspace V1 pgdir D (<[USER_SIGRETURN := w']> (<[TRAMPOLINE := w]> ∅)) o ->
  owned TRAMPOLINE w = false ->
  gives_back V o (V ← vm_unmap V1 pgdir USER_SIGRETURN 1 false; V ← vm_unmap V pgdir TRAMPOLINE 1 false; V ← pagedir_free V pgdir; Ret (0, V)).
Proof.
  intros HB HA Ho.
  destruct (vm_unmap_one V1 pgdir D _ o USER_SIGRETURN w' HA (lookup_insert_eq _ _ _) (signal_unowned w')) as (V2 & -> & HA2 & HE & _ & HF).
  cbn [mbind outcome_bind]. rewrite delete_insert_id in HA2 by (by rewrite lookup_insert_ne).
  eapply fail_tramp; [by eapply builds_same|done|done].
Qed.

Lemma tramp_unowned : owned TRAMPOLINE tramp_entry = false.
Proof. apply unowned. unfold user_bits, tramp_entry. by rewrite has_bits_entry by flag_bound. Qed.

Lemma frame_unowned t : owned (TRAPFRAME (id_p t)) (frame_entry t) = false.
Proof. apply unowned. unfold user_bits, frame_entry. by rewrite has_bits_entry by flag_bound. Qed.

Lemma process_pagedir_ok V (o : Z -> Z) p t : fr_ok (frames V) o -> (forall f, 0 <= o f) ->
  (forall t', t = Some t' -> is_u64 (trapframe t') /\ trapframe t' mod PGSIZE = 0) ->
  let r := process_pagedir trampoline sigtrampoline sigtrampoline_end V p t in
  gives_back V o r \/
  exists pgdir V' D t', r = Ret (pgdir, V') /\ 0 < pgdir /\ t = Some t' /\ 0 <= id_p t' < PROC_MAXTHREAD /\
    aspace V' pgdir D (user_map t') o /\ builds V V' D o.
Proof.
  intros Hok Ho Htf r. assert (Hnone : gives_back V o (Ret (0, V))).
  { exists V. split; [done|]. split; [done|]. split; [|done]. intros b _. split; [done|]. intros [q Hq]. by rewrite lookup_empty in Hq. }
  unfold r, process_pagedir. destruct p as [p|]; [|by left]. destruct t as [t|]; [|by left].
  destruct (_ || (PROC_MAXTHREAD <=? id_p t)) eqn:Hg; [by left|].
  assert (Hid : 0 <= id_p t < PROC_MAXTHREAD).
  { apply orb_false_iff in Hg as [[_ H1]%orb_false_iff H2]. lia. }
  destruct (Htf t eq_refl) as [Hf1 Hf2]. destruct (pagedir_alloc_ok V o Hok Ho) as (a & V1 & -> & [[-> ->]|Ha]); [by left|].
  destruct Ha as (Hpos & Ha0 & HA1 & HT1 & _ & Hb1). cbn [mbind outcome_bind].
  assert (HT : truth a = true) by (unfold truth; rewrite (proj2 (Z.eqb_neq a 0)); [done|lia]). rewrite HT. cbn [negb].
  assert (HB1 : builds V V1 {[ [] := a ]} o).
  { split; [|done]. intros b Hb. assert (b <> a) by (intros ->; lia). split; [by apply HT1|]. intros [q [_ Hq]%lookup_singleton_Some]. congruence. }
  destruct trampoline_page as [Htp Hts]. destruct (trapframe_page (id_p t) Hid) as [Hfp Hfs].
  destruct (builds_map V V1 _ ∅ o a TRAMPOLINE trampoline (Z.lor PTE_R PTE_X) HB1 HA1 Htp (lookup_empty _) (proj1 Htr) (proj2 Htr)
    ltac:(flag_bound) eq_refl tramp_unowned) as (V2 & D2 & rc & -> & HB2 & [[-> HA2]|[-> HA2]]); cbn [mbind outcome_bind].
  { left. eapply fail_empty; done. }
  fold tramp_entry in HA2. change (truth 0) with false. cbn iota.
  destruct (PGSIZE <? sigtrampoline_end - sigtrampoline).
  { left. cbn [mbind outcome_bind]. eapply fail_tramp; [done|done|apply tramp_unowned]. }
  assert (Hsp : page_va USER_SIGRETURN) by (split; [unfold USER_SIGRETURN; change MAXVA with (2 ^ 38); lia|reflexivity]).
  destruct (builds_map V V2 D2 _ o a USER_SIGRETURN sigtrampoline (Z.lor (Z.lor PTE_U PTE_R) PTE_X) HB2 HA2 Hsp
    ltac:(by rewrite lookup_insert_ne) (proj1 Hsg) (proj2 Hsg) ltac:(flag_bound) eq_refl (signal_unowned _))
    as (V3 & D3 & rc & -> & HB3 & [[-> HA3]|[-> HA3]]); cbn [mbind outcome_bind].
  { left. eapply fail_tramp; [done|done|apply tramp_unowned]. }
  fold signal_entry in HA3. change (0 <? 0) with false. cbn iota.
  assert (Hft : TRAPFRAME (id_p t) <> TRAMPOLINE) by (unfold TRAPFRAME, PGSIZE; lia).
  destruct (builds_map V V3 D3 _ o a (TRAPFRAME (id_p t)) (trapframe t) (Z.lor PTE_W PTE_R) HB3 HA3 Hfp
    ltac:(by rewrite !lookup_insert_ne) Hf1 Hf2 ltac:(flag_bound) eq_refl (frame_unowned t))
    as (V4 & D4 & rc & -> & HB4 & [[-> HA4]|[-> HA4]]); cbn [mbind outcome_bind].
  { left. eapply fail_signal; [done|done|apply tramp_unowned]. }
  change (truth 0) with false. cbn iota. right. exists a, V4, D4, t. split_and!; try done; lia.
Qed.
End build.
End userspace.
