(* ===== verification/VmExample.v ===== *)
(** * A machine with 64 pages

    Address spaces over the page allocator of kernel/palloc.c: a process, its
    memory and its child, as the theorems about address spaces use them. *)
From S2P Require Import Prelude MemRange Buddy BuddyBlocks BuddyCorrect BuddyOps PageAlloc Vma Vm VmSpace VmMap VmAlloc.
From S2P Require Import Scheduler VmFrames VmAccess VmCopy VmCow VmFork VmFree VmForkCorrect UserSpace.

(** ** Memory *)

Definition vm_allocator : buddy_allocator :=
  match buddy_add_region buddy_init 0x80400000 0x80440000 0x80400000 (replicate 64 0) 64 with
  | Ret (_, A) => A
  | _ => buddy_init
  end.
Definition vm_pages : pages := MkPages vm_allocator [MkRefRegion 0x80400000 0x80440000 (replicate 64 0)] (fun _ => 0xaa).

(** The image of the kernel lies below. *)
Definition image (x : Z) : Prop := 0x80200000 <= x < 0x80400000.

Lemma vm_allocator_fresh : buddy_ok vm_allocator /\ (forall a k, ~ is_allocated vm_allocator a k) /\
  shapes vm_allocator = [MkShape 0x80400000 0x80440000 0x80400000].
Proof.
  destruct (buddy_add_region_spec buddy_init ∅ 0x80400000 0x80440000 0x80400000 (replicate 64 0) 64)
    as (A' & B' & He & HI & Hs & HB); [apply buddy_init_inv| |done..|].
  - unfold acceptable. cbn. split_and!; try done; [unfold MEMRANGE_MAX; lia|].
    by intros r ?%not_elem_of_nil.
  - unfold vm_allocator. rewrite He. split; [by exists B'|]. split; [|exact Hs].
    intros a k. rewrite (is_allocated_iff _ _ _ _ HI), HB. by rewrite lookup_empty.
Qed.

Lemma vm_pages_ok : pages_inv vm_pages (fun _ => 0) /\ unmanaged image vm_pages.
Proof.
  destruct vm_allocator_fresh as (Hok & Hno & Hs). split; [split|].
  - exact Hok.
  - by vm_compute.
  - intros i r a Hi Ha Hm. apply list_lookup_singleton_Some in Hi as [_ <-]. cbn [pr_start pr_end pr_refs] in *.
    apply (lookup_replicate_2 64). unfold PGSIZE. Z.div_mod_to_equations. lia.
  - done.
  - intros a. split; [by intros ?%Hno|done].
  - intros x s Hx. cbn [vm_pages page_allocator]. rewrite Hs. intros ->%list_elem_of_singleton. unfold image in Hx. cbn. lia.
Qed.

#[export] Instance example_frames : Frames pages := pages_frames false.
#[export] Instance example_frames_laws : FramesLaws pages := pages_frames_laws false image.

(** Results of a run. *)
Definition got {A B} (r : outcome (A * B)) : option A := match r with Ret (a, _) => Some a | _ => None end.
Definition ran {A B} (d : B) (r : outcome (A * B)) : B := match r with Ret (_, b) => b | _ => d end.

Lemma ran_eq {A B} (d : B) (r : outcome (A * B)) a b a' : r = Ret (a, b) -> got r = Some a' -> a = a' /\ ran d r = b.
Proof. intros ->. cbn. naive_solver. Qed.

(** ** A process *)

Definition no_entity : sched_entity := MkEntity 0 0 0 0 0 0 0 0 0 false false false.
Definition a_thread : thread := MkThread 1 0 0x80300000 THREAD_RUNNING 0x1000 false 0 None no_entity.
Definition a_process : process := MkProcess 0x1000 [] 1 1 0 0 None.
Definition new_space (V : vm pages) : outcome (Z * vm pages) :=
  process_pagedir 0x80200000 0x80201000 0x80201008 V (Some a_process) (Some a_thread).
Definition a_map : gmap Z Z := user_map 0x80200000 0x80201000 a_thread.

Lemma new_space_ok V (o : Z -> Z) pg : fr_ok (frames V) o -> (forall f, 0 <= o f) -> got (new_space V) = Some pg -> pg <> 0 ->
  exists D, aspace (ran V (new_space V)) pg D a_map o /\ builds V (ran V (new_space V)) D o.
Proof.
  intros Hok Ho Hg Hne.
  destruct (process_pagedir_ok 0x80200000 0x80201000 0x80201008 ltac:(done) ltac:(done) V o (Some a_process) (Some a_thread) Hok Ho)
    as [(V' & E & _)|(pg' & V' & D & t & E & _ & [= <-] & _ & HA & HB)].
  - intros t [= <-]. done.
  - fold (new_space V) in E. destruct (ran_eq V _ _ _ _ E Hg) as [<- _]. done.
  - fold (new_space V) in E. destruct (ran_eq V _ _ _ _ E Hg) as [<- ->]. by exists D.
Qed.

Definition V0 : vm pages := MkVm vm_pages ∅ 0.
Definition V1 : vm pages := ran V0 (new_space V0).
Definition pg1 : Z := 0x80400000.

Lemma V0_ok : fr_ok (frames V0) (fun _ => 0).
Proof. exact vm_pages_ok. Qed.

Lemma V1_ok : exists D, aspace V1 pg1 D a_map (fun _ => 0).
Proof.
  destruct (new_space_ok V0 (fun _ => 0) pg1 V0_ok ltac:(done)) as (D & HA & _); [by vm_compute|done|]. by exists D.
Qed.

(** ** Its memory *)

Definition low : Z := 0x8000000.
Definition rw : Z := Z.lor (Z.lor PTE_R PTE_W) PTE_U.
Definition fill_pages (n : Z) : outcome (Z * vm pages) := vm_alloc_user_range V1 pg1 low (low + n * PGSIZE) rw.

(** The leaves of the process with [n] pages of memory. *)
Definition mapped (n : Z) (M : gmap Z Z) : Prop := forall va w, M !! va = Some w ->
  a_map !! va = Some w \/ va ∈ page_range low (low + n * PGSIZE) /\ exists p, w = entry_of p (user_flags rw).

Lemma fill_pages_ok n : 0 <= n < 64 -> got (fill_pages n) = Some 0 ->
  exists D M, aspace (ran V1 (fill_pages n)) pg1 D M (fun _ => 0) /\ mapped n M /\ a_map ⊆ M /\
    Forall (fun va => exists p, M !! va = Some (entry_of p (user_flags rw))) (page_range low (low + n * PGSIZE)).
Proof.
  intros Hn Hg. destruct V1_ok as [D HA].
  destruct (vm_alloc_user_range_ok V1 pg1 D a_map (fun _ => 0) low (low + n * PGSIZE) rw HA) as (rc & V' & D' & E & _ & Hrc).
  - unfold low. lia.
  - unfold low, PGSIZE, USER_SIGRETURN. lia.
  - unfold rw. flag_bound.
  - destruct (ran_eq V1 _ _ _ _ E Hg) as [-> ER]. unfold fill_pages. rewrite ER.
    destruct Hrc as [[? _]|(_ & _ & _ & M & HA' & [P1 P2 P3 P4])]; [done|]. exists D', M. split; [done|]. split; [|split; [done|]].
    + intros va w HM. destruct (P2 va ltac:(eauto)) as [[x Hx]|Hin].
      * left. rewrite Hx, <-HM. symmetry. by eapply lookup_weaken.
      * right. split; [done|]. destruct (proj1 (Forall_forall _ _) P4 va Hin) as (p & Hp & _). exists p. congruence.
    + eapply Forall_impl; [exact P4|]. intros va (p & Hp & _). by exists p.
Qed.

(** ** Its child *)

Definition with_child (n : Z) : vm pages := let V := ran V1 (fill_pages n) in ran V (new_space V).

Lemma builds_two V V' old D M new D2 M2 (o : Z -> Z) : aspace V old D M o -> aspace V' new D2 M2 (other M D o) ->
  builds V V' D2 (other M D o) -> two V' old D M new D2 M2 o.
Proof.
  intros HA HA' [B1 B2]. assert (Ht : forall b, table_of D b -> 0 < other M D o b).
  { intros b Hb%table_counted. destruct (count_parts V old D M o b HA) as (? & ? & ?). unfold other. lia. }
  split.
  - eapply space_else; [|apply HA]. intros b Hb. by apply B1, Ht.
  - apply HA'.
  - eapply fr_ok_ext; [|exact (as_frames _ _ _ _ _ HA')]. intros f. unfold other. cbn. lia.
  - apply HA.
  - intros b Hb. by apply B1, Ht.
Qed.

Lemma a_map_lookup va w : a_map !! va = Some w ->
  va = TRAPFRAME 0 /\ w = frame_entry a_thread \/ va = USER_SIGRETURN /\ w = signal_entry 0x80201000 \/
  va = TRAMPOLINE /\ w = tramp_entry 0x80200000.
Proof.
  unfold a_map, user_map. change (id_p a_thread) with 0. intros H. apply lookup_insert_Some in H as [[<- <-]|[_ H]]; [by left|].
  apply lookup_insert_Some in H as [[<- <-]|[_ H]]; [by right; left|]. apply lookup_insert_Some in H as [[<- <-]|[_ H]]; [by right; right|].
  by rewrite lookup_empty in H.
Qed.

Lemma rw_page_bits p : user_bits (entry_of p (user_flags rw)) = true /\
  has_bits (entry_of p (user_flags rw)) PTE_R = true /\ access (entry_of p (user_flags rw)) PTE_R = true /\
  access (entry_of p (user_flags rw)) PTE_W = true.
Proof.
  assert (Hb : forall b, 0 <= b < 1024 -> has_bits (entry_of p (user_flags rw)) b = has_bits (user_flags rw) b).
  { intros b Hb. apply has_bits_entry; [unfold user_flags, rw; flag_bound|done]. }
  unfold user_bits, access. rewrite !Hb by flag_bound. rewrite !(land_mod (entry_of _ _)) by flag_bound.
  rewrite entry_flags by (unfold user_flags, rw; flag_bound). by vm_compute.
Qed.

Lemma example_ready n pg2 : 0 <= n < 64 -> got (fill_pages n) = Some 0 ->
  got (new_space (ran V1 (fill_pages n))) = Some pg2 -> pg2 <> 0 ->
  exists D M D2, fork_ready (with_child n) pg1 D M pg2 D2 a_map (fun _ => 0) /\ mapped n M /\
    Forall (fun va => exists p, M !! va = Some (entry_of p (user_flags rw))) (page_range low (low + n * PGSIZE)).
Proof.
  intros Hn Hg Hg2 Hne. destruct (fill_pages_ok n Hn Hg) as (D & M & HA & HM & Hsub & HF).
  destruct (new_space_ok (ran V1 (fill_pages n)) (other M D (fun _ => 0)) pg2) as (D2 & HA2 & HB2); [| |done|done|].
  { eapply fr_ok_ext; [|exact (as_frames _ _ _ _ _ HA)]. intros f. unfold other. cbn. lia. }
  { intros f. destruct (parts_nonneg M D f). unfold other. lia. }
  exists D, M, D2. split; [|done]. split.
  - by eapply builds_two.
  - intros va w Hw Hlt. destruct (HM va w Hw) as [Ha|[[Hr _]%elem_of_page_range _]].
    + destruct (a_map_lookup va w Ha) as [[-> ->]|[[-> ->]|[-> ->]]]; [|lia|]; by vm_compute.
    + unfold low, USER_SIGRETURN, PGSIZE in *. lia.
  - intros va w Hw _. destruct (HM va w Hw) as [Ha|[_ [p ->]]]; [|apply rw_page_bits].
    destruct (a_map_lookup va w Ha) as [[_ ->]|[[_ ->]|[_ ->]]]; by vm_compute.
  - intros va Hlt. destruct (a_map !! va) as [w|] eqn:E; [|done]. exfalso.
    destruct (a_map_lookup va w E) as [[-> _]|[[-> _]|[-> _]]]; revert Hlt; by vm_compute.
  - intros va w Hw Hns. destruct (a_map_lookup va w Hw) as [[_ ->]|[[-> _]|[_ ->]]]; [by vm_compute|done|by vm_compute].
  - intros w Hw. destruct (a_map_lookup _ w Hw) as [[E _]|[[_ ->]|[E _]]]; [discriminate E| |discriminate E].
    change (image (PTE2PA (signal_entry 0x80201000))). split; vm_compute; [discriminate|reflexivity].
Qed.

(** ** Reference counts *)

Definition few (P : pages) : bool := forallb (fun r => forallb (fun c => c <? UINT32_MAX) (pr_refs r)) (page_ref_regions P).

Lemma read_ref_few P ref c : few P = true -> read_ref P ref = Ret c -> c < UINT32_MAX.
Proof.
  intros HF. unfold read_ref. destruct (page_ref_regions P !! ref.1) as [r|] eqn:Hr; [|unfold rd; by rewrite Hr].
  rewrite (rd_Ret _ _ _ Hr). cbn. destruct (pr_refs r !! ref.2) as [x|] eqn:Hx; [|unfold rd; by rewrite Hx].
  rewrite (rd_Ret _ _ _ Hx). intros [= <-]. unfold few in HF. rewrite forallb_forall in HF.
  assert (Hin : In r (page_ref_regions P)) by (apply list_elem_of_In; by eapply list_elem_of_lookup_2).
  specialize (HF r Hin). rewrite forallb_forall in HF. apply Z.ltb_lt, HF, list_elem_of_In. by eapply list_elem_of_lookup_2.
Qed.

Lemma few_unsaturated (V : vm pages) pgdir D M (o : Z -> Z) : aspace V pgdir D M o -> few (frames V) = true -> unsaturated D M o.
Proof.
  intros HA HF f. destruct (fr_count_ok _ _ f (as_frames _ _ _ _ _ HA)) as [E _]. cbn in E. unfold palloc_refcount in E. unfold count_of.
  destruct (page_ref_pointer (frames V) f) as [ref|]; [|injection E as E; unfold UINT32_MAX; lia].
  destruct (buddy_allocated _ _ _) as [[|]| |]; cbn in E; try done; [|injection E as E; unfold UINT32_MAX; lia].
  by eapply read_ref_few.
Qed.

(** No fault is resolved. *)
Definition no_fault (V : vm pages) (pgdir va : Z) (write : bool) : outcome (vm pages * bool) := Ret (V, false).

(** The area of the memory of the process. *)
Definition areas (n : Z) : list vm_area := [MkArea low (low + n * PGSIZE) 0 0 3 2 VMA_ANONYMOUS VMA_HEAP 0 0].
