(* ===== verification/VmTheorems.v ===== *)
(** * Properties of address spaces

    The properties of arch/riscv/vm.c and of the address spaces of processes,
    with runs over the page allocator of kernel/palloc.c. *)
From S2P Require Import Prelude MemRange Buddy BuddyBlocks BuddyCorrect BuddyOps PageAlloc Vma Vm VmSpace VmMap VmAlloc.
From S2P Require Import Scheduler VmFrames VmAccess VmCopy VmCow VmFork VmFree VmForkCorrect UserSpace VmExample.

(** ** Properties *)

Section properties.
  Context {St : Type} {FS : Frames St} {FL : FramesLaws St}.
  Implicit Types (V : vm St) (D : gmap (list nat) Z) (M : gmap Z Z) (pgdir old new va a w : Z) (o : Z -> Z).

(** [vm_alloc_user_range] maps fresh pages, full of zeros and with no other reference, over the whole range and
    changes no other leaf, or it fails and the space is what it was; it never panics.  Memory in use and the tables of
    other spaces stay the same either way. *)
Theorem vm_alloc_user_range_correct V pgdir D M o start end_ perm :
  aspace V pgdir D M o -> 0 <= start -> end_ <= USER_SIGRETURN -> 0 <= perm < 1024 ->
  exists rc V' D', vm_alloc_user_range V pgdir start end_ perm = Ret (rc, V') /\ grows V V' D D' M o /\
    (rc = -1 /\ aspace V' pgdir D' M o \/
     rc = 0 /\ alloc_args start end_ perm = true /\ (forall k, k ∈ page_range start end_ -> M !! k = None) /\
     exists M', aspace V' pgdir D' M' o /\ populated V' D' M' D M o (user_flags perm) (page_range start end_)).
Proof. apply vm_alloc_user_range_ok. Qed.

(** [vm_unmap_range] removes exactly the leaves that meet the range and drops one reference for each; frames still
    in use keep their contents, and the TLB is flushed once. *)
Theorem vm_unmap_range_correct V pgdir D M o va size :
  aspace V pgdir D M o -> 0 <= va -> 0 < size -> va + size <= MAXVA ->
  (forall k w, PGROUNDDOWN va <= k < va + size -> M !! k = Some w -> owned k w = true) ->
  exists V', vm_unmap_range V pgdir va size = Ret V' /\ aspace V' pgdir D (drop_range va size M) o /\ elsewhere V V' D /\
    flushes V' = flushes V + 1 /\
    forall f x, 0 < count_of D (drop_range va size M) o f -> f <= x < f + PGSIZE -> f mod PGSIZE = 0 ->
      fr_byte (frames V') x = fr_byte (frames V) x.
Proof.
  intros HA H0 H1 H2 Ho. destruct (vm_unmap_range_ok V pgdir D M o va size HA H0 H1 H2 Ho) as (V' & E & [A B C] & [S1 S2 S3]).
  exists (cpu_tlb_flush_all V'). split; [done|]. split; [split; [|done|done]|].
  - by eapply space_tables; [|exact A].
  - split; [done|]. split; [cbn; lia|done].
Qed.

(** C10: [copyout_nofault] goes page by page and pins each page, and does what storing the bytes one by one through the
    address translation does: it fails exactly when a byte cannot be stored, after the bytes before it. *)
Theorem copyout_correct handle tries V pgdir D M o va (src : list Z) :
  aspace V pgdir D M o -> 0 <= va -> va + Z.of_nat (length src) <= USER_SIGRETURN -> unsaturated D M o ->
  let r := store_bytes (translate M PTE_W) va src (fr_byte (frames V)) in
  exists V' M', copyout_nofault handle (S tries) V pgdir va src = Ret (if decide (r.2 = []) then 0 else -1, V') /\
    aspace V' pgdir D M' o /\ quiet V V' D M M' /\ forall x, fr_byte (frames V') x = r.1 x.
Proof.
  intros HA H0 H1 Hun r. unfold copyout_nofault, copyout_internal.
  destruct (copyout_loop_ok handle (S (length src)) tries V pgdir D M o va src false HA H0 H1 Hun) as (V' & M' & E & H); [lia|done|].
  eauto.
Qed.

(** What [copyout] wrote to such pages is in the memory of the process after it. *)
Lemma copyout_stored handle tries V pgdir D M o va (src : list Z) :
  aspace V pgdir D M o -> 0 <= va -> va + Z.of_nat (length src) <= USER_SIGRETURN -> unsaturated D M o ->
  (forall i, 0 <= i < Z.of_nat (length src) ->
     exists pa, translate M PTE_W (va + i) = Some pa /\ translate M PTE_R (va + i) = Some pa) ->
  (forall i j, 0 <= i < Z.of_nat (length src) -> 0 <= j < Z.of_nat (length src) ->
     translate M PTE_W (va + i) = translate M PTE_W (va + j) -> i = j) ->
  exists V1 M1, copyout handle (S tries) V pgdir va src = Ret (0, V1) /\ aspace V1 pgdir D M1 o /\ unsaturated D M1 o /\
    load_bytes (translate M1 PTE_R) va (length src) (fr_byte (frames V1)) = Some src.
Proof.
  intros HA H0 H1 Hun Ht Hinj. set (r := store_bytes (translate M PTE_W) va src (fr_byte (frames V))).
  assert (Hr : r.2 = []).
  { unfold r. clear -Ht. generalize (fr_byte (frames V)). revert va Ht. induction src as [|b l IH]; intros va Ht m; [done|]. cbn.
    destruct (Ht 0) as (pa & E & _); [cbn; lia|]. rewrite Z.add_0_r in E. rewrite E. apply IH. intros i Hi.
    destruct (Ht (i + 1)) as (q & Q1 & Q2); [cbn; lia|]. exists q. by replace (va + 1 + i) with (va + (i + 1)) by lia. }
  unfold copyout, copyout_internal.
  destruct (copyout_loop_ok handle (S (length src)) tries V pgdir D M o va src true HA H0 H1 Hun) as (V1 & M1 & E & HA1 & HQ1 & Hb1); [lia|done|].
  fold r in E, Hb1. rewrite decide_True in E by done. exists V1, M1. split; [done|]. split; [done|]. split; [eapply unsaturated_touch; [apply HQ1|done]|].
  rewrite (load_bytes_trans _ (translate M PTE_R)) by (intros a; apply touched_translate; [done|apply HQ1]).
  rewrite (load_bytes_ext _ _ _ _ _ Hb1). by apply load_store.
Qed.
(** [copyin] of bytes that are in the memory of the process. *)
Lemma copyin_stored handle tries V1 pgdir D M1 o va (src : list Z) : aspace V1 pgdir D M1 o -> unsaturated D M1 o -> 0 <= va -> va + Z.of_nat (length src) <= USER_SIGRETURN ->
  load_bytes (translate M1 PTE_R) va (length src) (fr_byte (frames V1)) = Some src ->
  exists V2, copyin handle (S tries) V1 pgdir va (Z.of_nat (length src)) = Ret (0, V2, src).
Proof.
  intros HA1 Hun1 H0 H1 HL. unfold copyin.
  destruct (copyin_loop_ok handle (S (Z.to_nat (Z.of_nat (length src)))) tries V1 pgdir D M1 o va (Z.of_nat (length src)) [] src HA1 H0 H1 Hun1)
    as (V2 & M2 & -> & _); [lia|by rewrite Nat2Z.id|]. by exists V2.
Qed.

(** What [copyout] writes to pages that can be read and written, no two of them on one frame, [copyin] reads
    back, and [copyinstr] as well when it is a string. *)
Theorem user_copy_roundtrip handle tries V pgdir D M o va (src : list Z) :
  aspace V pgdir D M o -> 0 <= va -> va + Z.of_nat (length src) <= USER_SIGRETURN -> unsaturated D M o ->
  (forall i, 0 <= i < Z.of_nat (length src) ->
     exists pa, translate M PTE_W (va + i) = Some pa /\ translate M PTE_R (va + i) = Some pa) ->
  (forall i j, 0 <= i < Z.of_nat (length src) -> 0 <= j < Z.of_nat (length src) ->
     translate M PTE_W (va + i) = translate M PTE_W (va + j) -> i = j) ->
  exists V1, copyout handle (S tries) V pgdir va src = Ret (0, V1) /\
    (exists V2, copyin handle (S tries) V1 pgdir va (Z.of_nat (length src)) = Ret (0, V2, src)) /\
    forall str, src = str ++ [0] -> 0 ∉ str ->
      exists V2, copyinstr handle (S tries) V1 pgdir va (Z.of_nat (length src)) = Ret (0, V2, src).
Proof.
  intros HA H0 H1 Hun Ht Hinj. destruct (copyout_stored handle tries V pgdir D M o va src HA H0 H1 Hun Ht Hinj) as (V1 & M1 & E & HA1 & Hun1 & HL). exists V1. split; [done|]. split.
  - by apply (copyin_stored handle tries V1 pgdir D M1 o).
  - intros str -> Hz. unfold copyinstr. rewrite length_app in *. cbn [length] in *.
    destruct (copyinstr_loop_ok handle (S (Z.to_nat (Z.of_nat (length str + 1)))) tries V1 pgdir D M1 o va (Z.of_nat (length str + 1)) [] str HA1 H0)
      as (V2 & M2 & -> & _); [lia|done|lia|lia|done| |by exists V2]. by replace (S (length str)) with (length str + 1)%nat by lia.
Qed.


(** C2: a copy of an address space that succeeds gives parent and child the same memory: both read at every user
    address what the parent read before, both write where the parent could unless the page is private, and private
    pages are writable in neither.  The books of both spaces balance, memory in use is untouched, and the TLB is flushed
    if a leaf of the parent changed. *)
Theorem vm_copy_correct V old D M new D2 M2 o vmas V' : fork_ready V old D M new D2 M2 o ->
  vm_copy V old new vmas = Ret (0, V') ->
  exists D2' Mp Mc, two V' old D Mp new D2' Mc o /\ undisturbed V V' D D2 D2' M M2 o /\ (Mp = M \/ flushes V < flushes V') /\
    forall va, 0 <= va < USER_SIGRETURN ->
      translate Mp PTE_R va = translate M PTE_R va /\ translate Mc PTE_R va = translate M PTE_R va /\
      let t := if shared_at vmas M va then None else translate M PTE_W va in
      translate Mp PTE_W va = t /\ translate Mc PTE_W va = t.
Proof.
  intros HF E. destruct (vm_copy_ok V old D M new D2 M2 o HF vmas) as [(V1 & D1 & E1 & HT & HU & HL)|HN].
  - rewrite E in E1. injection E1 as <-. exists D1, (fork_parent vmas M), (fork_child vmas M M2). split_and!; try done. intros va Hva.
    pose proof (ready_leaves _ _ _ _ _ _ _ _ HF) as HLv. pose proof (fr_empty _ _ _ _ _ _ _ _ HF) as HE.
    destruct (fork_translate vmas M M2 PTE_R va HLv HE Hva (or_introl eq_refl)) as [R1 R2].
    destruct (fork_translate vmas M M2 PTE_W va HLv HE Hva (or_intror eq_refl)) as [W1 W2].
    change (PTE_R =? PTE_W) with false in *. change (PTE_W =? PTE_W) with true in *. rewrite andb_false_r in R1, R2. rewrite andb_true_r in W1, W2. done.
  - destruct (signal_mapped M2); [by rewrite HN in E|]. destruct HN as (? & ? & ? & E1 & _). by rewrite E in E1.
Qed.

(** C26: [vm_copy] cannot fail for a child that has the signal page, as every child has: when memory runs out or a
    page has no area, the cleanup releases the signal page, which is not a counted frame, and the kernel panics.  Only
    without that page would it return an error, with the child as it was. *)
Theorem vm_copy_failure V old D M new D2 M2 o vmas : fork_ready V old D M new D2 M2 o ->
  (exists V', vm_copy V old new vmas = Ret (0, V')) \/
  if signal_mapped M2 then vm_copy V old new vmas = Panic "put invalid page"
  else exists V' D2' Mp, vm_copy V old new vmas = Ret (-1, V') /\ two V' old D Mp new D2' M2 o /\
    undisturbed V V' D D2 D2' M M2 o /\ (Mp = M \/ flushes V < flushes V').
Proof.
  intros HF. destruct (vm_copy_ok V old D M new D2 M2 o HF vmas) as [(V' & D1 & E & _)|HN]; [left; by exists V'|right].
  destruct (signal_mapped M2); [done|]. destruct HN as (V' & D1 & bp & HN). eauto.
Qed.

(** C39: reading user memory from the signal page never ends: a round of the loop that pins the page translates it,
    fails to take a reference on a page of the kernel image and starts again in the same state.  So no number of rounds
    lets [copyin] or [copyinstr] return. *)
Theorem signal_page_read_diverges handle V pgdir D M o w va n : aspace V pgdir D M o ->
  M !! USER_SIGRETURN = Some w -> access w PTE_R = true -> fr_reserved (PTE2PA w) -> PTE2PA w <> 0 ->
  USER_SIGRETURN <= va < USER_SIGRETURN + PGSIZE -> 0 < n ->
  (forall tries, user_copy_va2pa_pinned handle (S tries) V pgdir USER_SIGRETURN PTE_R true =
                 user_copy_va2pa_pinned handle tries V pgdir USER_SIGRETURN PTE_R true) /\
  (forall tries, copyin handle tries V pgdir va n = Fault /\ copyinstr handle tries V pgdir va n = Fault).
Proof.
  intros HA HM Hac Hres Hpa Hva Hn.
  assert (Hpage : page_va USER_SIGRETURN) by (split; [unfold USER_SIGRETURN; change MAXVA with (2 ^ 38); lia|reflexivity]).
  assert (Hround : forall tries, user_copy_va2pa_pinned handle (S tries) V pgdir USER_SIGRETURN PTE_R true =
                                 user_copy_va2pa_pinned handle tries V pgdir USER_SIGRETURN PTE_R true).
  { intros tries. cbn [user_copy_va2pa_pinned]. pose proof (user_va2pa_ok V pgdir D M o USER_SIGRETURN PTE_R HA Hpage eq_refl) as H.
    assert (Ht : translate M PTE_R USER_SIGRETURN = Some (PTE2PA w)).
    { unfold translate. change (PGROUNDDOWN USER_SIGRETURN) with USER_SIGRETURN. rewrite HM. cbn [mbind option_bind]. rewrite Hac.
      change (USER_SIGRETURN mod PGSIZE) with 0. by rewrite Z.add_0_r. }
    rewrite Ht in H. destruct H as (V' & M' & -> & _ & _ & _ & EV). rewrite (EV eq_refl). cbn [mbind outcome_bind].
    assert (HT : truth (PTE2PA w) = true) by (unfold truth; by rewrite (proj2 (Z.eqb_neq _ 0))). rewrite HT. cbn [negb].
    assert (PGROUNDDOWN (PTE2PA w) = PTE2PA w) as ->.
    { pose proof (PTE2PA_aligned w). rewrite PGROUNDDOWN_mod. unfold PGSIZE in *. Z.div_mod_to_equations. lia. }
    pose proof (fr_get_ok (frames V) _ (PTE2PA w) (as_frames _ _ _ _ _ HA)) as HG.
    pose proof (fr_reserved_ok _ _ _ (as_frames _ _ _ _ _ HA) Hres) as H0. cbv beta in H0.
    rewrite decide_False in HG by (intros [Hc _]; by apply Hc).
    rewrite HG. cbn [mbind outcome_bind]. change (-1 <? 0) with true. cbn iota. by rewrite with_same. }
  split; [done|]. assert (HF : forall tries, user_copy_va2pa_pinned handle tries V pgdir USER_SIGRETURN PTE_R true = Fault).
  { induction tries as [|tries IH]; [done|]. by rewrite Hround. }
  assert (Eva : PGROUNDDOWN va = USER_SIGRETURN).
  { rewrite PGROUNDDOWN_mod. change USER_SIGRETURN with (262144 * 4096) in *. unfold PGSIZE in *. Z.div_mod_to_equations. lia. }
  intros tries. unfold copyin, copyinstr. cbn [copyin_loop copyinstr_loop]. rewrite (proj2 (Z.ltb_lt 0 n)) by done. cbn [negb].
  rewrite Eva, HF. done.
Qed.

(** [process_pagedir] gives a space that maps exactly the trampoline, the signal page and the trapframe of the
    thread, or fails and gives back every frame it took.  It never panics, and memory in use and other tables stay. *)
Theorem process_pagedir_correct trampoline sigtrampoline sigtrampoline_end V (o : Z -> Z) p t :
  is_u64 trampoline /\ trampoline mod PGSIZE = 0 -> is_u64 sigtrampoline /\ sigtrampoline mod PGSIZE = 0 ->
  fr_ok (frames V) o -> (forall f, 0 <= o f) ->
  (forall t', t = Some t' -> is_u64 (trapframe t') /\ trapframe t' mod PGSIZE = 0) ->
  let r := process_pagedir trampoline sigtrampoline sigtrampoline_end V p t in
  (exists V', r = Ret (0, V') /\ fr_ok (frames V') o /\ builds V V' ∅ o) \/
  exists pgdir V' D t', r = Ret (pgdir, V') /\ 0 < pgdir /\ t = Some t' /\ 0 <= id_p t' < PROC_MAXTHREAD /\
    aspace V' pgdir D (user_map trampoline sigtrampoline t') o /\ builds V V' D o.
Proof. intros H1 H2. by apply process_pagedir_ok. Qed.

(** [process_freepagedir] always ends, without panic, and gives back every frame and table of the space: the
    counts left are those of the rest of the system, whose memory and tables stay the same. *)
Theorem process_freepagedir_correct V pgdir D M o : aspace V pgdir D M o ->
  (forall va w, M !! va = Some w -> va <> USER_SIGRETURN -> kernel_page va <-> user_bits w = false) ->
  exists V', process_freepagedir V pgdir = Ret V' /\ fr_ok (frames V') o /\ (forall b, ~ table_of D b -> tables V' !! b = tables V !! b) /\
    forall f x, 0 < o f -> f <= x < f + PGSIZE -> f mod PGSIZE = 0 -> fr_byte (frames V') x = fr_byte (frames V) x.
Proof. apply process_freepagedir_ok. Qed.
End properties.

(** ** The properties at work *)

Lemma vm_alloc_user_range_witness : exists D V' D' M',
  vm_alloc_user_range V1 pg1 low (low + 2 * PGSIZE) rw = Ret (0, V') /\ aspace V' pg1 D' M' (fun _ => 0) /\
  populated V' D' M' D a_map (fun _ => 0) (user_flags rw) (page_range low (low + 2 * PGSIZE)).
Proof.
  destruct V1_ok as [D HA].
  destruct (vm_alloc_user_range_correct V1 pg1 D a_map (fun _ => 0) low (low + 2 * PGSIZE) rw HA) as (rc & V' & D' & E & _ & Hrc).
  - vm_compute. discriminate.
  - vm_compute. discriminate.
  - unfold rw. flag_bound.
  - assert (rc = 0) as ->.
    { assert (Hg : got (vm_alloc_user_range V1 pg1 low (low + 2 * PGSIZE) rw) = Some 0) by (vm_compute; reflexivity).
      rewrite E in Hg. injection Hg as ->. reflexivity. }
    destruct Hrc as [[Hd _]|(_ & _ & _ & M' & HA' & HP)]; [discriminate Hd|]. exists D, V', D', M'. exact (conj E (conj HA' HP)).
Defined.

Lemma two_pages : exists D M, aspace (ran V1 (fill_pages 2)) pg1 D M (fun _ => 0) /\ mapped 2 M /\
  (exists p, M !! low = Some (entry_of p (user_flags rw))) /\ few (frames (ran V1 (fill_pages 2))) = true.
Proof.
  destruct (fill_pages_ok 2 ltac:(lia)) as (D & M & HA & HM & _ & HF); [vm_compute; reflexivity|]. exists D, M. split; [done|]. split; [done|].
  split; [|by vm_compute]. apply (proj1 (Forall_forall _ _) HF). apply elem_of_page_range. unfold low, PGSIZE. split; [lia|]. by rewrite Z.sub_diag.
Qed.

Lemma mapped_owned n M k w : mapped n M -> low <= k < low + n * PGSIZE -> n <= 64 -> M !! k = Some w -> owned k w = true.
Proof.
  intros HM Hk Hn Hw. destruct (HM k w Hw) as [Ha|[_ [p ->]]].
  - exfalso. destruct (a_map_lookup k w Ha) as [[-> _]|[[-> _]|[-> _]]]; unfold TRAPFRAME, TRAMPOLINE, USER_SIGRETURN, low, PGSIZE in *;
      change MAXVA with (2 ^ 38) in *; lia.
  - apply user_owned; [unfold rw; flag_bound|done|]. unfold low, USER_SIGRETURN, PGSIZE in *. lia.
Qed.

Lemma vm_unmap_range_witness : exists D M V', let V := ran V1 (fill_pages 2) in
  vm_unmap_range V pg1 low 0x1000 = Ret V' /\ aspace V' pg1 D (drop_range low 0x1000 M) (fun _ => 0) /\ flushes V' = flushes V + 1.
Proof.
  destruct two_pages as (D & M & HA & HM & _).
  destruct (vm_unmap_range_correct _ pg1 D M (fun _ => 0) low 0x1000 HA) as (V' & E & HA' & _ & HF & _).
  - vm_compute. discriminate.
  - lia.
  - vm_compute. discriminate.
  - intros k w Hk Hw. change (PGROUNDDOWN low) with low in Hk. eapply (mapped_owned 2); [exact HM|unfold PGSIZE; lia|lia|exact Hw].
  - exists D, M, V'. exact (conj E (conj HA' HF)).
Defined.

(** Four bytes across a page boundary. *)
Lemma copyout_witness : exists V' D M', let V := ran V1 (fill_pages 2) in
  copyout_nofault no_fault 1 V pg1 (low + 4094) [1; 2; 3; 4] = Ret (0, V') /\ aspace V' pg1 D M' (fun _ => 0).
Proof.
  destruct two_pages as (D & M & HA & HM & _ & HF).
  destruct (copyout_correct no_fault 0 _ pg1 D M (fun _ => 0) (low + 4094) [1; 2; 3; 4] HA) as (V' & M' & E & HA' & _).
  - vm_compute. discriminate.
  - vm_compute. discriminate.
  - exact (few_unsaturated _ _ _ _ _ HA HF).
  - assert (Hg : got (copyout_nofault no_fault 1 (ran V1 (fill_pages 2)) pg1 (low + 4094) [1; 2; 3; 4]) = Some 0) by (vm_compute; reflexivity).
    destruct (ran_eq V1 _ _ _ _ E Hg) as [Erc _]. exists V', D, M'. exact (conj (eq_trans E (f_equal (fun c => Ret (c, V')) Erc)) HA').
Defined.

Lemma no_zero : 0 ∉ [104; 105].
Proof. rewrite !not_elem_of_cons. split; [done|]. split; [done|apply not_elem_of_nil]. Qed.

(** A string in user memory. *)
Lemma user_copy_roundtrip_witness : exists V1' V2 V3, let V := ran V1 (fill_pages 2) in
  copyout no_fault 1 V pg1 (low + 16) [104; 105; 0] = Ret (0, V1') /\
  copyin no_fault 1 V1' pg1 (low + 16) 3 = Ret (0, V2, [104; 105; 0]) /\
  copyinstr no_fault 1 V1' pg1 (low + 16) 3 = Ret (0, V3, [104; 105; 0]).
Proof.
  destruct two_pages as (D & M & HA & HM & [p Hp] & HF). destruct (rw_page_bits p) as (_ & _ & HR & HW).
  assert (Ht : forall perm i, access (entry_of p (user_flags rw)) perm = true -> 0 <= i < 3 ->
    translate M perm (low + 16 + i) = Some (PTE2PA (entry_of p (user_flags rw)) + (16 + i))).
  { intros perm i Hac Hi. unfold translate. rewrite PGROUNDDOWN_mod. unfold PGSIZE, low in *.
    replace ((0x8000000 + 16 + i) mod 4096) with (16 + i) by (Z.div_mod_to_equations; lia).
    replace (0x8000000 + 16 + i - (16 + i)) with 0x8000000 by lia. rewrite Hp. cbn [mbind option_bind]. by rewrite Hac. }
  destruct (user_copy_roundtrip no_fault 0 _ pg1 D M (fun _ => 0) (low + 16) [104; 105; 0] HA) as (V1' & E1 & [V2 E2] & HS).
  - vm_compute. discriminate.
  - vm_compute. discriminate.
  - exact (few_unsaturated _ _ _ _ _ HA HF).
  - intros i Hi. cbn [length Z.of_nat Pos.of_succ_nat Pos.succ] in Hi. rewrite !Ht by done. eauto.
  - intros i j Hi Hj. cbn [length Z.of_nat Pos.of_succ_nat Pos.succ] in Hi, Hj. rewrite !Ht by done. intros [= E]. lia.
  - destruct (HS [104; 105] eq_refl no_zero) as [V3 E3]. exists V1', V2, V3. exact (conj E1 (conj E2 E3)).
Defined.

(** A child of the process with two pages. *)
Definition pg2 : Z := 0x80409000.

Lemma two_ready : exists D M D2, fork_ready (with_child 2) pg1 D M pg2 D2 a_map (fun _ => 0) /\
  exists p, M !! low = Some (entry_of p (user_flags rw)).
Proof.
  destruct (example_ready 2 pg2 ltac:(lia)) as (D & M & D2 & HR & _ & HF); [vm_compute; reflexivity|vm_compute; reflexivity|done|].
  exists D, M, D2. split; [done|]. apply (proj1 (Forall_forall _ _) HF). apply elem_of_page_range. unfold low, PGSIZE. split; [lia|].
  by rewrite Z.sub_diag.
Qed.

Local Notation forked := (vm_copy (with_child 2) pg1 pg2 (areas 2)).

Lemma got_ran {A B} (d : B) (r : outcome (A * B)) a : got r = Some a -> r = Ret (a, ran d r).
Proof. destruct r as [[a' b]| |]; cbn; [intros [= ->]; done|done..]. Qed.

Lemma forked_Ret : forked = Ret (0, ran V1 forked).
Proof. apply got_ran. vm_compute. reflexivity. Qed.

Lemma vm_copy_witness : exists D M D2 Mp Mc, two (ran V1 forked) pg1 D Mp pg2 D2 Mc (fun _ => 0) /\
  translate Mc PTE_R low = translate M PTE_R low /\ translate M PTE_R low <> None.
Proof.
  destruct two_ready as (D & M & D2 & HR & p & Hp).
  destruct (vm_copy_correct _ pg1 D M pg2 D2 a_map (fun _ => 0) (areas 2) _ HR forked_Ret) as (D2' & Mp & Mc & HT & _ & _ & Htr).
  exists D, M, D2', Mp, Mc. split; [exact HT|]. split; [apply (Htr low); vm_compute; split; [discriminate|reflexivity]|].
  unfold translate. change (PGROUNDDOWN low) with low. rewrite Hp. cbn [mbind option_bind].
  destruct (rw_page_bits p) as (_ & _ & -> & _). discriminate.
Defined.


(** With 52 pages of memory the machine has none left for the tables of the child. *)
Lemma vm_copy_failure_witness : vm_copy (with_child 52) pg1 0x8043b000 (areas 52) = Panic "put invalid page".
Proof.
  destruct (example_ready 52 0x8043b000 ltac:(lia)) as (D & M & D2 & HR & _); [vm_compute; reflexivity|vm_compute; reflexivity|discriminate|].
  destruct (vm_copy_failure _ pg1 D M 0x8043b000 D2 a_map (fun _ => 0) (areas 52) HR) as [[V' E]|HN].
  - exfalso. assert (Hg : got (vm_copy (with_child 52) pg1 0x8043b000 (areas 52)) = None) by (vm_compute; reflexivity). rewrite E in Hg. discriminate Hg.
  - exact HN.
Defined.

Lemma signal_page_read_witness : copyin no_fault 5 V1 pg1 USER_SIGRETURN 64 = Fault /\ copyinstr no_fault 5 V1 pg1 USER_SIGRETURN 64 = Fault.
Proof.
  destruct V1_ok as [D HA].
  assert (Hpa : PTE2PA (signal_entry 0x80201000) = 0x80201000) by (vm_compute; reflexivity).
  apply (signal_page_read_diverges no_fault V1 pg1 D a_map (fun _ => 0) (signal_entry 0x80201000) USER_SIGRETURN 64 HA).
  - reflexivity.
  - vm_compute. reflexivity.
  - rewrite Hpa. split; vm_compute; [discriminate|reflexivity].
  - rewrite Hpa. discriminate.
  - split; vm_compute; [discriminate|reflexivity].
  - reflexivity.
Defined.

Lemma new_space_got : got (process_pagedir 0x80200000 0x80201000 0x80201008 V0 (Some a_process) (Some a_thread)) = Some pg1.
Proof. vm_compute. reflexivity. Qed.

Lemma process_pagedir_witness : exists V' D,
  process_pagedir 0x80200000 0x80201000 0x80201008 V0 (Some a_process) (Some a_thread) = Ret (pg1, V') /\
  aspace V' pg1 D (user_map 0x80200000 0x80201000 a_thread) (fun _ => 0).
Proof.
  destruct (process_pagedir_correct 0x80200000 0x80201000 0x80201008 V0 (fun _ => 0) (Some a_process) (Some a_thread))
    as [(V' & E & _)|(pg & V' & D & t & E & _ & Ht & _ & HA & _)].
  - split; [split; vm_compute; [discriminate|reflexivity]|reflexivity].
  - split; [split; vm_compute; [discriminate|reflexivity]|reflexivity].
  - exact V0_ok.
  - intros f. reflexivity.
  - intros t Ht. injection Ht as <-. split; [split; vm_compute; [discriminate|reflexivity]|reflexivity].
  - exfalso. destruct (ran_eq V0 _ _ _ _ E new_space_got) as [Hpg _]. discriminate Hpg.
  - destruct (ran_eq V0 _ _ _ _ E new_space_got) as [-> _]. injection Ht as <-. exists V', D. exact (conj E HA).
Defined.

Lemma a_map_kernel va w : a_map !! va = Some w -> va <> USER_SIGRETURN -> kernel_page va /\ user_bits w = false.
Proof.
  intros Ha Hsig. destruct (a_map_lookup va w Ha) as [[-> ->]|[[-> _]|[-> ->]]]; [|destruct (Hsig eq_refl)|].
  - split; [right; exists 0; split; [split; [discriminate|reflexivity]|reflexivity]|vm_compute; reflexivity].
  - split; [left; reflexivity|vm_compute; reflexivity].
Qed.

Lemma mapped_kernel n M : mapped n M -> n <= 64 -> forall va w, M !! va = Some w -> va <> USER_SIGRETURN -> kernel_page va <-> user_bits w = false.
Proof.
  intros HM Hn va w Hw Hsig. destruct (HM va w Hw) as [Ha|[[Hr _]%elem_of_page_range [p ->]]].
  - destruct (a_map_kernel va w Ha Hsig). split; intros _; assumption.
  - destruct (rw_page_bits p) as (-> & _). split; [|intros Hd; discriminate Hd]. intros [->|(i & Hi & ->)]; exfalso;
      unfold TRAPFRAME, TRAMPOLINE, PROC_MAXTHREAD, low, PGSIZE in *; change MAXVA with (2 ^ 38) in *; lia.
Qed.

Lemma process_freepagedir_witness : exists V', process_freepagedir (ran V1 (fill_pages 2)) pg1 = Ret V' /\ fr_ok (frames V') (fun _ => 0).
Proof.
  destruct two_pages as (D & M & HA & HM & _).
  destruct (process_freepagedir_correct _ pg1 D M (fun _ => 0) HA) as (V' & E & Hok & _).
  - apply (mapped_kernel 2 M HM). lia.
  - exists V'. exact (conj E Hok).
Defined.
