(* ===== verification/Pipe.v ===== *)
(** * Pipes: the code

    kernel/fs/pipe.c.  A pipe is a ring buffer of one page under a spinlock.
    The sections between taking and releasing the lock are functions; a call is
    a value of [call] that says where in its function the caller is, and
    [advance] runs it to the next point where the lock is not held.  Memory is
    reached through the interface [UserMemory]. *)
From S2P Require Import Prelude.

(** ** Constants (kernel/include/vfs.h) *)

Definition PIPE_CAPACITY : Z := PGSIZE.
Definition PIPE_BUF : Z := PGSIZE.
Definition VFS_OK : Z := 0.
Definition VFS_ERR_BADF : Z := -4.
Definition VFS_ERR_INVAL : Z := -8.
Definition VFS_ERR_NOMEM : Z := -13.
Definition VFS_ERR_FAULT : Z := -22.
Definition VFS_ERR_AGAIN : Z := -23.
Definition VFS_ERR_PIPE : Z := -48.
Definition VFS_ERR_INTR : Z := -49.
Definition VFS_OPEN_READ : Z := Z.shiftl 1 0.
Definition VFS_OPEN_WRITE : Z := Z.shiftl 1 1.
Definition VFS_OPEN_NONBLOCK : Z := Z.shiftl 1 7.
Definition VFS_POLL_IN : Z := 0x001.
Definition VFS_POLL_OUT : Z := 0x004.
Definition VFS_POLL_ERR : Z := 0x008.
Definition VFS_POLL_HUP : Z := 0x010.

(** ** Data *)

Record vfs_iovec := MkIovec { iov_base : Z; iov_length : Z }.

Record vfs_pipe := MkPipe {
  buffer : list Z; read_position : Z; write_position : Z; used : Z;
  readers : Z; writers : Z; read_busy : bool
}.

Definition set_ring (p : vfs_pipe) b rp wp u : vfs_pipe := MkPipe b rp wp u (readers p) (writers p) (read_busy p).
Definition set_busy (p : vfs_pipe) (b : bool) : vfs_pipe :=
  MkPipe (buffer p) (read_position p) (write_position p) (used p) (readers p) (writers p) b.
Definition set_ends (p : vfs_pipe) r w : vfs_pipe :=
  MkPipe (buffer p) (read_position p) (write_position p) (used p) r w (read_busy p).

(** [memmove] between two different arrays, undefined outside either. *)
Definition slice (l : list Z) (off n : Z) : outcome (list Z) :=
  if (0 <=? off) && (0 <=? n) && (off + n <=? Z.of_nat (length l)) then Ret (take (Z.to_nat n) (drop (Z.to_nat off) l)) else Fault.
Definition splice (l : list Z) (off : Z) (bs : list Z) : outcome (list Z) :=
  if (0 <=? off) && (off + Z.of_nat (length bs) <=? Z.of_nat (length l))
  then Ret (take (Z.to_nat off) l ++ bs ++ drop (Z.to_nat off + length bs) l) else Fault.

(** What pipes use of the memory of processes: [copyout_nofault], [copyin] and [vm_prefault_user_write] of
    arch/riscv/vm.c for the page table of the caller, and [memmove] for buffers in the kernel. *)
Class UserMemory (U : Type) := {
  um_copyout_nofault : U -> Z -> Z -> list Z -> outcome (Z * U);
  um_copyin : U -> Z -> Z -> Z -> outcome (Z * U * list Z);
  um_prefault_write : U -> Z -> Z -> Z -> outcome (Z * U);
  um_store : U -> Z -> list Z -> U;
  um_load : U -> Z -> Z -> list Z
}.

(** ** Ring buffer *)

Definition pipe_copy_in (p : vfs_pipe) (source : list Z) (count : Z) : outcome vfs_pipe :=
  let first := if PIPE_CAPACITY -32 write_position p <? count then PIPE_CAPACITY -32 write_position p else count in
  bs ← slice source 0 first;
  b ← splice (buffer p) (write_position p) bs;
  b ← if first <? count then bs ← slice source first (count -32 first); splice b 0 bs else Ret b;
  Ret (set_ring p b (read_position p) ((write_position p +32 count) mod PIPE_CAPACITY) (used p +32 count)).

Section pipe.
  Context {U : Type} {UM : UserMemory U}.
  Implicit Types (p : vfs_pipe) (u : U).

(** [int either_copyin(void *dst, int user_src, uint64 src, uint64 len)] of kernel/process.c, with the bytes copied. *)
Definition either_copyin (process : option Z) u (user : bool) (src len : Z) : outcome (Z * U * list Z) :=
  if user then pagetable ← deref process; um_copyin u pagetable src len else Ret (0, u, um_load u src len).

Fixpoint prefault_iovecs (pagetable : Z) u (iovecs : list vfs_iovec) (total limit : Z) : outcome (Z * U) :=
  match iovecs with
  | [] => Ret (VFS_OK, u)
  | v :: iovecs =>
      if negb (total <? limit) then Ret (VFS_OK, u) else
      let chunk := wrap32 (iov_length v) in
      let chunk := if limit -32 total <? chunk then limit -32 total else chunk in
      '(rc, u) ← um_prefault_write u pagetable (iov_base v) chunk;
      if rc <? 0 then Ret (VFS_ERR_FAULT, u) else prefault_iovecs pagetable u iovecs (total +32 chunk) limit
  end.
Definition pipe_prefault_output (process : option Z) u (user : bool) (iovecs : list vfs_iovec) (limit : Z) : outcome (Z * U) :=
  if negb user then Ret (VFS_OK, u) else
  match process with
  | None => Ret (VFS_ERR_FAULT, u)
  | Some pagetable => prefault_iovecs pagetable u iovecs 0 limit
  end.

(** The number of bytes one round moves. *)
Definition out_chunk p (user : bool) (destination count copied : Z) : Z :=
  let chunk := count -32 copied in
  let contiguous := PIPE_CAPACITY -32 read_position p in
  let chunk := if used p <? chunk then used p else chunk in
  let chunk := if contiguous <? chunk then contiguous else chunk in
  let room := PGSIZE -64 (destination +64 copied) mod PGSIZE in
  if user && (room <? chunk) then room else chunk.

(** The result: the pipe and memory, the bytes copied, the error, and the pieces moved with their addresses.  Every
    round moves at least one byte. *)
Fixpoint copy_out_loop (fuel : nat) (process : option Z) p u (user : bool) (destination count copied : Z) (pieces : list (Z * list Z)) :
    outcome (vfs_pipe * U * Z * Z * list (Z * list Z)) :=
  match fuel with
  | O => Fault
  | S fuel =>
      if negb ((copied <? count) && truth (used p)) then Ret (p, u, copied, VFS_OK, pieces) else
      let chunk := out_chunk p user destination count copied in
      bs ← slice (buffer p) (read_position p) chunk;
      '(rc, u) ← match user, process with
                 | true, None => Ret (-1, u)
                 | true, Some pagetable => um_copyout_nofault u pagetable (destination +64 copied) bs
                 | false, _ => Ret (0, um_store u (destination +64 copied) bs)
                 end;
      if rc <? 0 then Ret (p, u, copied, VFS_ERR_FAULT, pieces) else
      let p := set_ring p (buffer p) ((read_position p +32 chunk) mod PIPE_CAPACITY) (write_position p) (used p -32 chunk) in
      copy_out_loop fuel process p u user destination count (copied +32 chunk) (pieces ++ [(destination +64 copied, bs)])
  end.
Definition pipe_copy_out (process : option Z) p u (user : bool) (destination count : Z) :
    outcome (vfs_pipe * U * Z * Z * list (Z * list Z)) :=
  copy_out_loop (S (Z.to_nat count)) process p u user destination count 0 [].

(** ** Reading *)

(** The sum of the lengths, unless it exceeds the maximum. *)
Fixpoint iovec_total (iovecs : list vfs_iovec) (requested : Z) : option Z :=
  match iovecs with
  | [] => Some requested
  | v :: iovecs => if 0x7fffffff -64 requested <? iov_length v then None else iovec_total iovecs (requested +64 iov_length v)
  end.

Record reader := MkReader { rd_process : option Z; rd_user : bool; rd_iovecs : list vfs_iovec; rd_nonblock : bool; rd_requested : Z }.

(** The loop of [pipe_readv] under the lock, up to a return, a sleep or the claim of the pipe. *)
Inductive read_turn :=
| ReadReturn (result : Z)
| ReadSleep
| ReadClaim (available : Z).

Definition read_head p (c : reader) : read_turn :=
  if negb (truth (used p)) || read_busy p then
    if negb (truth (used p)) && negb (truth (writers p)) && negb (read_busy p) then ReadReturn 0
    else if rd_nonblock c then ReadReturn VFS_ERR_AGAIN else ReadSleep
  else ReadClaim (if rd_requested c <? used p then wrap32 (rd_requested c) else used p).

Fixpoint read_iovecs (process : option Z) p u (user : bool) (iovecs : list vfs_iovec) (available total error : Z) (pieces : list (Z * list Z)) :
    outcome (vfs_pipe * U * Z * Z * list (Z * list Z)) :=
  match iovecs with
  | [] => Ret (p, u, total, error, pieces)
  | v :: iovecs =>
      if negb (total <? available) then Ret (p, u, total, error, pieces) else
      let length := wrap32 (iov_length v) in
      let length := if available -64 total <? length then wrap32 (available -64 total) else length in
      '(p, u, copied, error, moved) ← pipe_copy_out process p u user (iov_base v) length;
      let total := total +64 copied in
      if (error <? 0) || negb (copied =? length) then Ret (p, u, total, error, pieces ++ moved)
      else read_iovecs process p u user iovecs available total error (pieces ++ moved)
  end.

(** From taking the lock again to the end: the result, the pieces moved and whether writers are woken. *)
Definition read_finish p u (c : reader) (available error : Z) : outcome (vfs_pipe * U * Z * list (Z * list Z) * bool) :=
  '(p, u, total, error, pieces) ←
     if error <? 0 then Ret (p, u, 0, error, []) else read_iovecs (rd_process c) p u (rd_user c) (rd_iovecs c) available 0 error [];
  Ret (set_busy p false, u, (if truth total then total else error), pieces, truth total).

(** ** Writing *)

(** How a run of the loop of [pipe_write_staged] under the lock ends: with a result and whether the pipe is broken, or
    asleep. *)
Inductive write_turn :=
| WriteReturn (result : Z) (broken : bool)
| WriteSleep (total result : Z).

(** Also the bytes put into the pipe, after which readers are woken.  A round that moves bytes either moves all or fills
    the pipe, so the second round ends the run. *)
Fixpoint write_staged_loop (fuel : nat) p (nonblock : bool) (source : list Z) (count : Z) (atomic : bool) (total result : Z) (bytes : list Z) :
    outcome (vfs_pipe * write_turn * list Z) :=
  match fuel with
  | O => Fault
  | S fuel =>
      if negb (total <? count) then Ret (p, WriteReturn result false, bytes) else
      if negb (truth (readers p)) then Ret (p, WriteReturn (if truth total then total else VFS_ERR_PIPE) true, bytes) else
      let available := PIPE_CAPACITY -32 used p in
      if (atomic && (available <? count)) || negb (truth available) then
        if nonblock then Ret (p, WriteReturn (if truth total then total else VFS_ERR_AGAIN) false, bytes)
        else Ret (p, WriteSleep total result, bytes)
      else
        let chunk := count -32 total in
        let chunk := if available <? chunk then available else chunk in
        bs ← slice source total chunk;
        p ← pipe_copy_in p bs chunk;
        let total := total +32 chunk in
        write_staged_loop fuel p nonblock source count atomic total total (bytes ++ bs)
  end.
Definition pipe_write_staged p (nonblock : bool) (source : list Z) (count : Z) (atomic : bool) (total result : Z) :=
  write_staged_loop 2 p nonblock source count atomic total result [].

(** A call of [pipe_write_user], within [pipe_write] ([wr_rest = []], [wr_done = 0]) or the loop of [pipe_writev]; or of
    [pipe_write_staged] for the gathered bytes of a small [pipe_writev]. *)
Record writer := MkWriter {
  wr_process : option Z; wr_user : bool; wr_nonblock : bool;
  wr_gathered : bool; wr_rest : list vfs_iovec; wr_done : Z;
  wr_source : Z; wr_count : Z; wr_total : Z; wr_atomic : bool
}.
Definition writer_at (w : writer) (total : Z) : writer :=
  MkWriter (wr_process w) (wr_user w) (wr_nonblock w) (wr_gathered w) (wr_rest w) (wr_done w) (wr_source w) (wr_count w) total (wr_atomic w).
Definition writer_next (w : writer) (v : vfs_iovec) (iovecs : list vfs_iovec) (done : Z) : writer :=
  MkWriter (wr_process w) (wr_user w) (wr_nonblock w) false iovecs done (iov_base v) (iov_length v) 0 false.

(** ** Calls *)

Inductive call :=
| ReadLoop (c : reader)
| ReadAsleep (c : reader)
| ReadFault (c : reader) (available : Z)
| ReadCopy (c : reader) (available error : Z)
| WriteEnter (w : writer)
| WriteGather (w : writer) (iovecs : list vfs_iovec) (staging : list Z)
| WriteStage (w : writer)
| WriteLoop (w : writer) (staging : list Z) (total result : Z)
| WriteAsleep (w : writer) (staging : list Z) (total result : Z)
| Finished (result : Z).

(** [pipe_readv]; the calls are made through files whose private pointer is the pipe. *)
Definition pipe_readv (process : option Z) (user : bool) (iovecs : list vfs_iovec) (flags : Z) : call :=
  match iovec_total iovecs 0 with
  | None => Finished VFS_ERR_INVAL
  | Some requested =>
      if negb (truth requested) then Finished 0
      else ReadLoop (MkReader process user iovecs (truth (Z.land flags VFS_OPEN_NONBLOCK)) requested)
  end.
Definition pipe_read (process : option Z) (user : bool) (destination count flags : Z) : call :=
  pipe_readv process user [MkIovec destination count] flags.

Definition pipe_write (process : option Z) (user : bool) (source count flags : Z) : call :=
  WriteEnter (MkWriter process user (truth (Z.land flags VFS_OPEN_NONBLOCK)) false [] 0 source count 0 (count <=? PIPE_BUF)).

(** [page]: whether [palloc] gives a page for the bytes of a small call. *)
Definition pipe_writev (page : bool) (process : option Z) (user : bool) (iovecs : list vfs_iovec) (flags : Z) : call :=
  let nonblock := truth (Z.land flags VFS_OPEN_NONBLOCK) in
  match iovec_total iovecs 0 with
  | None => Finished VFS_ERR_INVAL
  | Some total =>
      if negb (truth total) then Finished 0 else
      if total <=? PIPE_BUF then
        if page then WriteGather (MkWriter process user nonblock true [] 0 0 total 0 true) iovecs [] else Finished VFS_ERR_NOMEM
      else
        match iovecs with
        | [] => Finished 0
        | v :: iovecs => WriteEnter (MkWriter process user nonblock false iovecs 0 (iov_base v) (iov_length v) 0 false)
        end
  end.

(** [pipe_write_user] returned [result]: the rest of [pipe_writev]. *)
Definition user_return (w : writer) (result : Z) : call :=
  if result <? 0 then Finished (if truth (wr_done w) then wr_done w else result) else
  let done := wr_done w +64 result in
  if negb (result =? wr_count w) then Finished done else
  match wr_rest w with
  | [] => Finished done
  | v :: iovecs => WriteEnter (writer_next w v iovecs done)
  end.

(** [pipe_write_staged] returned [result] for the [chunk] bytes staged. *)
Definition staged_return (w : writer) (chunk result : Z) : call :=
  if wr_gathered w then Finished result else
  if result <? 0 then user_return w (if truth (wr_total w) then wr_total w else result) else
  let total := wr_total w +64 result in
  if negb (wrap32 result =? chunk) then user_return w total else WriteStage (writer_at w total).

(** What a call did on its way to the next point: bytes put into the pipe, pieces moved out of it, the waiters it woke
    and whether it raised SIGPIPE. *)
Record turn := MkTurn {
  t_call : call; t_pipe : vfs_pipe; t_mem : U; t_wrote : list Z; t_moved : list (Z * list Z);
  t_wake_readers : bool; t_wake_writers : bool; t_sigpipe : bool
}.
Definition quiet_turn c p u : outcome turn := Ret (MkTurn c p u [] [] false false false).

(** [page]: whether [palloc] succeeds. *)
Definition advance (page : bool) (c : call) p u : outcome turn :=
  match c with
  | ReadLoop r =>
      match read_head p r with
      | ReadReturn result => quiet_turn (Finished result) p u
      | ReadSleep => quiet_turn (ReadAsleep r) p u
      | ReadClaim available => quiet_turn (ReadFault r available) (set_busy p true) u
      end
  | ReadFault r available =>
      '(error, u) ← pipe_prefault_output (rd_process r) u (rd_user r) (rd_iovecs r) available;
      quiet_turn (ReadCopy r available error) p u
  | ReadCopy r available error =>
      '(p, u, result, moved, wake) ← read_finish p u r available error;
      Ret (MkTurn (Finished result) p u [] moved true wake false)
  | WriteEnter w =>
      if negb (truth (wr_count w)) then quiet_turn (user_return w 0) p u else
      if 0x7fffffff <? wr_count w then quiet_turn (user_return w VFS_ERR_INVAL) p u else
      if negb page then quiet_turn (user_return w VFS_ERR_NOMEM) p u else
      quiet_turn (WriteStage (writer_at w 0)) p u
  | WriteGather w [] staging => quiet_turn (WriteLoop w staging 0 0) p u
  | WriteGather w (v :: iovecs) staging =>
      '(rc, u, bs) ← either_copyin (wr_process w) u (wr_user w) (iov_base v) (iov_length v);
      if rc <? 0 then quiet_turn (Finished VFS_ERR_FAULT) p u else quiet_turn (WriteGather w iovecs (staging ++ bs)) p u
  | WriteStage w =>
      if negb (wr_total w <? wr_count w) then quiet_turn (user_return w (wr_total w)) p u else
      let chunk := if PGSIZE <? wr_count w -64 wr_total w then PGSIZE else wrap32 (wr_count w -64 wr_total w) in
      '(rc, u, bs) ← either_copyin (wr_process w) u (wr_user w) (wr_source w +64 wr_total w) chunk;
      if rc <? 0 then quiet_turn (user_return w (if truth (wr_total w) then wr_total w else VFS_ERR_FAULT)) p u
      else quiet_turn (WriteLoop w bs 0 0) p u
  | WriteLoop w staging total result =>
      let count := Z.of_nat (length staging) in
      '(p, t, bytes) ← pipe_write_staged p (wr_nonblock w) staging count (wr_atomic w) total result;
      let wake := negb (bool_decide (bytes = [])) in
      match t with
      | WriteReturn result broken => Ret (MkTurn (staged_return w count result) p u bytes [] wake false broken)
      | WriteSleep total result => Ret (MkTurn (WriteAsleep w staging total result) p u bytes [] wake false false)
      end
  | ReadAsleep _ | WriteAsleep _ _ _ _ | Finished _ => Fault
  end.

(** A wait that a signal ends. *)
Definition interrupt (c : call) : option call :=
  match c with
  | ReadAsleep _ => Some (Finished VFS_ERR_INTR)
  | WriteAsleep w staging total _ =>
      Some (staged_return w (Z.of_nat (length staging)) (if truth total then total else VFS_ERR_INTR))
  | _ => None
  end.

(** [wait_queue_wake_all]: the sleepers go back to the head of their loop. *)
Definition wake (readers_too writers_too : bool) (c : call) : call :=
  match c with
  | ReadAsleep r => if readers_too then ReadLoop r else c
  | WriteAsleep w staging total result => if writers_too then WriteLoop w staging total result else c
  | _ => c
  end.

Definition asleep (c : call) : bool := match c with ReadAsleep _ | WriteAsleep _ _ _ _ => true | _ => false end.
End pipe.

(** ** The ends of a pipe *)

Definition pipe_poll (p : vfs_pipe) (flags events : Z) : Z :=
  if truth (Z.land flags VFS_OPEN_READ) then
    let ready := if truth (Z.land events VFS_POLL_IN) && truth (used p) then VFS_POLL_IN else 0 in
    if negb (truth (writers p)) then Z.lor ready VFS_POLL_HUP else ready
  else
    if negb (truth (readers p)) then VFS_POLL_ERR
    else if truth (Z.land events VFS_POLL_OUT) && (used p <? PIPE_CAPACITY) then VFS_POLL_OUT else 0.

(** [pipe_release] under the lock: the pipe, the waiters woken and whether the pipe is destroyed. *)
Definition pipe_release (p : vfs_pipe) (flags : Z) : outcome (vfs_pipe * bool * bool * bool) :=
  '(p, wake_writers) ←
     if truth (Z.land flags VFS_OPEN_READ) then
       if negb (truth (readers p)) then Panic "pipe reader underflow" else Ret (set_ends p (readers p -32 1) (writers p), true)
     else Ret (p, false);
  '(p, wake_readers) ←
     if truth (Z.land flags VFS_OPEN_WRITE) then
       if negb (truth (writers p)) then Panic "pipe writer underflow" else Ret (set_ends p (readers p) (writers p -32 1), true)
     else Ret (p, false);
  Ret (p, wake_readers, wake_writers, negb (truth (readers p)) && negb (truth (writers p))).

(** The pipe of [vfs_pipe], over the page for its bytes. *)
Definition new_pipe (page : list Z) : vfs_pipe := MkPipe page 0 0 0 1 1 false.

Arguments turn U : clear implicits.
