(* ===== verification/PipeRing.v ===== *)
(** * Pipes: the ring buffer

    The bytes in a pipe as a sequence: [pipe_copy_in] appends to it and
    [pipe_copy_out] removes from its front what it hands over. *)
From S2P Require Import Prelude Pipe.

(** The bytes in the pipe, oldest first. *)
Definition contents (p : vfs_pipe) : list Z :=
  take (Z.to_nat (used p)) (drop (Z.to_nat (read_position p)) (buffer p ++ buffer p)).

Record ring_ok (p : vfs_pipe) : Prop := {
  ring_length : length (buffer p) = 4096%nat;
  ring_read : 0 <= read_position p < 4096;
  ring_used : 0 <= used p <= 4096;
  ring_write : write_position p = (read_position p + used p) mod 4096
}.

Lemma wrap_small x : 0 <= x < 2 ^ 32 -> wrap32 x = x.
Proof. apply wrap32_id. Qed.

Lemma length_contents p : ring_ok p -> Z.of_nat (length (contents p)) = used p.
Proof. intros [H1 H2 H3 _]. unfold contents. rewrite length_take, length_drop, length_app. lia. Qed.

Lemma contents_lookup p i : ring_ok p -> (i < Z.to_nat (used p))%nat ->
  contents p !! i = buffer p !! Z.to_nat ((read_position p + Z.of_nat i) mod 4096).
Proof.
  intros [H1 H2 H3 _] Hi. unfold contents. rewrite lookup_take_lt by done. rewrite lookup_drop.
  destruct (decide (read_position p + Z.of_nat i < 4096)).
  - rewrite lookup_app_l by lia. f_equal. rewrite Z.mod_small by lia. lia.
  - rewrite lookup_app_r by lia. f_equal. replace (read_position p + Z.of_nat i) with (read_position p + Z.of_nat i - 4096 + 1 * 4096) by lia.
    rewrite Z.mod_add, Z.mod_small by lia. lia.
Qed.

Lemma ring_slice_Ret (l : list Z) off n : 0 <= off -> 0 <= n -> off + n <= Z.of_nat (length l) ->
  slice l off n = Ret (take (Z.to_nat n) (drop (Z.to_nat off) l)).
Proof. intros. unfold slice. by rewrite !(proj2 (Z.leb_le _ _)) by lia. Qed.

Lemma splice_Ret (l : list Z) off bs : 0 <= off -> off + Z.of_nat (length bs) <= Z.of_nat (length l) ->
  exists l', splice l off bs = Ret l' /\ length l' = length l /\
    forall i, l' !! i = if decide (Z.to_nat off <= i < Z.to_nat off + length bs)%nat then bs !! (i - Z.to_nat off)%nat else l !! i.
Proof.
  intros Ho Hl. unfold splice. rewrite !(proj2 (Z.leb_le _ _)) by lia. eexists. split; [done|]. split.
  - rewrite !length_app, length_take, length_drop. lia.
  - intros i. destruct (decide (i < Z.to_nat off)%nat) as [Hi|Hi].
    + rewrite lookup_app_l by (rewrite length_take; lia). rewrite lookup_take_lt by done. rewrite decide_False by lia. done.
    + rewrite lookup_app_r by (rewrite length_take; lia). rewrite length_take. replace (Z.to_nat off `min` length l)%nat with (Z.to_nat off) by lia.
      case_decide as Hd.
      * by rewrite lookup_app_l by lia.
      * rewrite lookup_app_r, lookup_drop by lia. f_equal. lia.
Qed.

(** ** Appending *)

(** The two moves: up to the end of the page, and the rest to its start. *)
Lemma copy_in_moves p source n : ring_ok p -> n = Z.of_nat (length source) -> n <= 4096 ->
  exists b, pipe_copy_in p source n = Ret (set_ring p b (read_position p) ((write_position p + n) mod 4096) (used p +32 n)) /\
    length b = 4096%nat /\ let first := Z.min n (4096 - write_position p) in
    forall i, b !! i = if decide (Z.of_nat i < n - first) then source !! Z.to_nat (first + Z.of_nat i)
                else if decide (write_position p <= Z.of_nat i < write_position p + first) then source !! Z.to_nat (Z.of_nat i - write_position p)
                else buffer p !! i.
Proof.
  intros [H1 H2 H3 H4] En Hn. set (w := write_position p) in *. assert (Hw : 0 <= w < 4096) by (rewrite H4; apply Z.mod_pos_bound; lia).
  set (first := Z.min n (4096 - w)).
  assert (Hf : 0 <= first <= n /\ first <= 4096 - w /\ (first = n \/ first = 4096 - w)) by (unfold first; lia). unfold pipe_copy_in. fold w. unfold PIPE_CAPACITY, PGSIZE. rewrite !(wrap_small (4096 - w)) by lia.
  rewrite (wrap_small (w + n)) by lia. replace (if 4096 - w <? n then 4096 - w else n) with first by (unfold first; case_match; lia).
  rewrite (ring_slice_Ret source 0 first) by lia. cbn [mbind outcome_bind].
  destruct (splice_Ret (buffer p) w (take (Z.to_nat first) (drop (Z.to_nat 0) source))) as (b1 & -> & Hl1 & Hb1);
    [lia|rewrite length_take, length_drop; lia|]. cbn [mbind outcome_bind].
  assert (Hb1' : forall i, b1 !! i = if decide (w <= Z.of_nat i < w + first) then source !! Z.to_nat (Z.of_nat i - w) else buffer p !! i).
  { intros i. rewrite Hb1, length_take, length_drop. case_decide as Ha; case_decide as Hc; try lia; [|done].
    rewrite lookup_take_lt, lookup_drop by lia. f_equal. lia. }
  destruct (Z.ltb_spec first n) as [Hs|Hs].
  - rewrite (wrap_small (n - first)), ring_slice_Ret by lia. cbn [mbind outcome_bind].
    destruct (splice_Ret b1 0 (take (Z.to_nat (n - first)) (drop (Z.to_nat first) source))) as (b2 & -> & Hl2 & Hb2);
      [lia|rewrite length_take, length_drop; lia|]. exists b2. split; [done|]. split; [lia|]. intros i.
    rewrite Hb2, Hb1', length_take, length_drop. case_decide as Ha.
    + rewrite (decide_True (P := Z.of_nat i < n - first)) by lia. rewrite lookup_take_lt, lookup_drop by lia. f_equal. lia.
    + by rewrite (decide_False (P := Z.of_nat i < n - first)) by lia.
  - exists b1. split; [done|]. split; [lia|]. intros i. rewrite Hb1'. by rewrite (decide_False (P := Z.of_nat i < n - first)) by lia.
Qed.

Lemma copy_in_buffer p source n : ring_ok p -> n = Z.of_nat (length source) -> n <= 4096 ->
  exists b, pipe_copy_in p source n = Ret (set_ring p b (read_position p) ((write_position p + n) mod 4096) (used p +32 n)) /\
    length b = 4096%nat /\ forall i, 0 <= i < 4096 -> let d := (i - write_position p) mod 4096 in
      b !! Z.to_nat i = if decide (d < n) then source !! Z.to_nat d else buffer p !! Z.to_nat i.
Proof.
  intros HR En Hn. pose proof HR as [H1 H2 H3 H4]. destruct (copy_in_moves p source n HR En Hn) as (b & E & Hl & Hb). exists b.
  split; [done|]. split; [done|]. intros i Hi. cbv zeta in *. rewrite Hb, Z2Nat.id by lia. set (w := write_position p) in *.
  assert (Hw : 0 <= w < 4096) by (rewrite H4; apply Z.mod_pos_bound; lia). destruct (decide (i < w)) as [Hlt|Hge].
  - replace ((i - w) mod 4096) with (i - w + 4096) by (rewrite <-(Z.mod_add _ 1), Z.mod_small; lia).
    rewrite (decide_False (P := w <= i < _)) by lia. case_decide as Ha; case_decide as Hc; try lia; [|done]. f_equal. lia.
  - rewrite (Z.mod_small (i - w)) by lia. rewrite (decide_False (P := i < n - _)) by lia.
    case_decide as Ha; case_decide as Hc; try lia; done.
Qed.

Lemma pipe_copy_in_ok p source : ring_ok p -> used p + Z.of_nat (length source) <= 4096 ->
  exists p', pipe_copy_in p source (Z.of_nat (length source)) = Ret p' /\ ring_ok p' /\ contents p' = contents p ++ source /\
    used p' = used p + Z.of_nat (length source) /\ readers p' = readers p /\ writers p' = writers p /\ read_busy p' = read_busy p.
Proof.
  intros HR Hn. pose proof HR as [H1 H2 H3 H4]. destruct (copy_in_buffer p source _ HR eq_refl ltac:(lia)) as (b & -> & Hlb & Hb).
  rewrite wrap_small by lia. eexists. split; [done|]. set (p' := set_ring _ _ _ _ _).
  assert (HR' : ring_ok p').
  { split; cbn; try done; [lia|]. rewrite H4, Z.add_mod_idemp_l by lia. f_equal. lia. }
  split; [done|]. split; [|done]. apply list_eq. intros i. pose proof (length_contents p HR) as Hlc. pose proof (length_contents p' HR') as Hlc'.
  cbn [p' used set_ring] in Hlc'.
  destruct (decide (i < Z.to_nat (used p + Z.of_nat (length source)))%nat) as [Hi|Hi].
  2:{ rewrite !lookup_ge_None_2; [done|rewrite length_app; lia|lia]. }
  rewrite (contents_lookup p' i HR') by (cbn; lia). cbn [p' buffer read_position set_ring].
  set (j := (read_position p + Z.of_nat i) mod 4096). assert (Hj : 0 <= j < 4096) by (apply Z.mod_pos_bound; lia).
  rewrite (Hb j Hj). cbv zeta. replace ((j - write_position p) mod 4096) with ((Z.of_nat i - used p) mod 4096).
  2:{ unfold j. rewrite H4, Zminus_mod_idemp_l, Zminus_mod_idemp_r. f_equal. lia. }
  destruct (decide (i < Z.to_nat (used p))%nat) as [Hu|Hu].
  - replace ((Z.of_nat i - used p) mod 4096) with (Z.of_nat i - used p + 4096) by (rewrite <-(Z.mod_add _ 1), Z.mod_small; lia).
    rewrite decide_False by lia. rewrite lookup_app_l by lia. symmetry. by apply contents_lookup.
  - rewrite Z.mod_small by lia. rewrite decide_True by lia. rewrite lookup_app_r by lia. f_equal. lia.
Qed.

(** ** Removing *)

Lemma ring_take p chunk : ring_ok p -> 0 < chunk <= used p -> chunk <= 4096 - read_position p ->
  exists bs, slice (buffer p) (read_position p) chunk = Ret bs /\ Z.of_nat (length bs) = chunk /\
    let p' := set_ring p (buffer p) ((read_position p + chunk) mod 4096) (write_position p) (used p - chunk) in
    ring_ok p' /\ contents p = bs ++ contents p'.
Proof.
  intros [H1 H2 H3 H4] Hc Hr. set (bs := take (Z.to_nat chunk) (drop (Z.to_nat (read_position p)) (buffer p))). exists bs.
  assert (Hlb : length bs = Z.to_nat chunk) by (unfold bs; rewrite length_take, length_drop; lia).
  split; [apply ring_slice_Ret; lia|]. split; [lia|]. cbv zeta. split.
  { split; cbn; [done|apply Z.mod_pos_bound; lia|lia|]. rewrite H4, Z.add_mod_idemp_l by lia. f_equal. lia. }
  unfold contents. cbn [set_ring used read_position buffer]. rewrite <-(take_drop (Z.to_nat chunk) (take _ _)). f_equal.
  - rewrite take_take, drop_app_le by lia. replace (Z.to_nat chunk `min` Z.to_nat (used p))%nat with (Z.to_nat chunk) by lia.
    unfold bs. rewrite take_app_le; [done|]. rewrite length_drop. lia.
  - replace (Z.to_nat (used p)) with (Z.to_nat chunk + Z.to_nat (used p - chunk))%nat by lia. rewrite <-take_drop_commute, drop_drop.
    destruct (decide (read_position p + chunk < 4096)).
    + rewrite Z.mod_small, Z2Nat.inj_add by lia. done.
    + replace (read_position p + chunk) with 4096 by lia. rewrite Z_mod_same_full, drop_0.
      replace (Z.to_nat (read_position p) + Z.to_nat chunk)%nat with (length (buffer p)) by lia.
      rewrite drop_app_length, take_app_le by lia. done.
Qed.

(** ** Handing bytes over *)

(** What pipes rely on: operations on a valid page table and a range of user addresses return, and keep every page
    table valid. *)
Class UserMemoryLaws (U : Type) {UM : UserMemory U} := {
  um_ok : U -> Z -> Prop;
  um_range : Z -> Z -> Prop;
  um_kept (u u' : U) : Prop := forall pg, um_ok u pg -> um_ok u' pg;
  um_range_u64 a n : um_range a n -> is_u64 a;
  um_range_sub a n i m : um_range a n -> 0 <= i -> 0 <= m -> i + m <= n -> um_range (a +64 i) m;
  um_copyout_ret u pg va bs : um_ok u pg -> um_range va (Z.of_nat (length bs)) ->
    exists rc u', um_copyout_nofault u pg va bs = Ret (rc, u') /\ um_kept u u';
  um_copyin_ret u pg va n : um_ok u pg -> um_range va n -> 0 <= n ->
    exists rc u' bs, um_copyin u pg va n = Ret (rc, u', bs) /\ um_kept u u' /\ (0 <= rc -> Z.of_nat (length bs) = n);
  um_prefault_ret u pg va n : um_ok u pg -> um_range va n -> 0 <= n ->
    exists rc u', um_prefault_write u pg va n = Ret (rc, u') /\ um_kept u u';
  um_store_ret u a bs : um_kept u (um_store u a bs);
  um_load_ret u a n : 0 <= n -> Z.of_nat (length (um_load u a n)) = n
}.

(** The bytes of a list of pieces, which follow each other from an address on. *)
Definition data (pieces : list (Z * list Z)) : list Z := concat (snd <$> pieces).
Arguments data : simpl never.
Lemma data_nil : data [] = [].
Proof. done. Qed.
Lemma data_cons a bs pieces : data ((a, bs) :: pieces) = bs ++ data pieces.
Proof. done. Qed.
Fixpoint laid (a : Z) (pieces : list (Z * list Z)) : Prop :=
  match pieces with
  | [] => True
  | (b, bs) :: pieces => b = wrap64 a /\ laid (a + Z.of_nat (length bs)) pieces
  end.

(** What stays of a pipe when bytes move. *)
Definition same_ends (p p' : vfs_pipe) : Prop := readers p' = readers p /\ writers p' = writers p /\ read_busy p' = read_busy p.

Section copy_out.
  Context {U : Type} {UM : UserMemory U} {UL : UserMemoryLaws U}.
  Implicit Types (p : vfs_pipe) (u : U) (process : option Z).

(** One piece handed over. *)
Definition hands process u (user : bool) (a : Z) (bs : list Z) : outcome (Z * U) :=
  match user, process with
  | true, None => Ret (-1, u)
  | true, Some pagetable => um_copyout_nofault u pagetable a bs
  | false, _ => Ret (0, um_store u a bs)
  end.
(** The pieces are handed over one after the other, all with success. *)
Fixpoint handed process u (user : bool) (pieces : list (Z * list Z)) (u' : U) : Prop :=
  match pieces with
  | [] => u' = u
  | (a, bs) :: pieces => exists rc u1, hands process u user a bs = Ret (rc, u1) /\ 0 <= rc /\ handed process u1 user pieces u'
  end.

Definition memory_ok process u (user : bool) : Prop := user = true -> exists pg, process = Some pg /\ um_ok u pg.
Definition buffer_ok (user : bool) (a n : Z) : Prop := user = true -> um_range a n.
Lemma buffer_sub user a n i m : buffer_ok user a n -> 0 <= i -> 0 <= m -> i + m <= n -> buffer_ok user (a +64 i) m.
Proof. intros H Hi Hm Hn Hu. by eapply um_range_sub; [by apply H|..]. Qed.
Lemma buffer_prefix user a n m : buffer_ok user a n -> 0 <= m <= n -> buffer_ok user a m.
Proof.
  intros H Hm Hu. specialize (H Hu). pose proof (um_range_sub a n 0 m H ltac:(lia) ltac:(lia) ltac:(lia)) as Hs.
  by rewrite Z.add_0_r, wrap64_id in Hs by (by eapply um_range_u64).
Qed.

Lemma kept_refl u : um_kept u u.
Proof. by intros pg. Qed.
#[local] Hint Resolve kept_refl : core.
Lemma kept_trans u1 u2 u3 : um_kept u1 u2 -> um_kept u2 u3 -> um_kept u1 u3.
Proof. intros H1 H2 pg H. by apply H2, H1. Qed.
Lemma memory_kept process u u' user : memory_ok process u user -> um_kept u u' -> memory_ok process u' user.
Proof. intros H K Hu. destruct (H Hu) as (pg & ? & ?). eauto. Qed.

Lemma hands_ret process u user a bs : memory_ok process u user -> buffer_ok user a (Z.of_nat (length bs)) -> exists rc u', hands process u user a bs = Ret (rc, u') /\ um_kept u u'.
Proof.
  intros H HB. unfold hands. destruct user.
  - destruct (H eq_refl) as (pg & -> & Hpg). by apply um_copyout_ret; [|apply HB].
  - exists 0, (um_store u a bs). split; [done|apply um_store_ret].
Qed.

Lemma out_chunk_ok p user destination count copied : ring_ok p -> 0 <= copied < count -> count < 2 ^ 31 -> used p <> 0 ->
  let n := out_chunk p user destination count copied in 0 < n <= used p /\ n <= 4096 - read_position p /\ n <= count - copied.
Proof.
  intros [H1 H2 H3 H4] Hc Hm Hu. unfold out_chunk, PIPE_CAPACITY, PGSIZE. rewrite (wrap_small (count - copied)), (wrap_small (4096 - read_position p)) by lia.
  pose proof (Z.mod_pos_bound (destination +64 copied) 4096 ltac:(lia)). rewrite !(wrap64_id (4096 - _)) by (unfold is_u64; lia).
  cbv zeta. repeat case_match; lia.
Qed.

(** What [copy_out_loop] does from [copied] on: it removes from the front of the pipe the bytes it hands over, and stops
    early only when handing over fails. *)
Definition out_spec process user destination limit p u p' u' n error pieces : Prop :=
  ring_ok p' /\ same_ends p p' /\ contents p = data pieces ++ contents p' /\ Z.of_nat (length (data pieces)) = n /\
  laid destination pieces /\ um_kept u u' /\ (exists u1, handed process u user pieces u1 /\ (error = VFS_OK -> u' = u1)) /\
  (error = VFS_OK /\ n = Z.min limit (used p) \/ error = VFS_ERR_FAULT /\ 0 <= n < Z.min limit (used p)).

Lemma copy_out_loop_ok process user destination count fuel : count < 2 ^ 31 -> buffer_ok user destination count -> forall p u copied pieces,
  ring_ok p -> 0 <= copied <= count -> count - copied < Z.of_nat fuel -> memory_ok process u user ->
  exists p' u' n error moved,
    copy_out_loop fuel process p u user destination count copied pieces = Ret (p', u', copied + n, error, pieces ++ moved) /\
    out_spec process user (destination + copied) (count - copied) p u p' u' n error moved.
Proof.
  intros Hm HB. induction fuel as [|fuel IH]; intros p u copied pieces HR Hc Hf HM; [lia|]. cbn [copy_out_loop].
  pose proof HR as [H1 H2 H3 H4]. unfold truth.
  destruct (Z.ltb_spec copied count) as [Hlt|Hge]; cbn [andb negb].
  2:{ exists p, u, 0, VFS_OK, []. rewrite app_nil_r, Z.add_0_r. split; [done|]. split_and!; try done; [by exists u|]. left. split; [done|lia]. }
  destruct (Z.eqb_spec (used p) 0) as [Hz|Hz]; cbn [negb].
  { exists p, u, 0, VFS_OK, []. rewrite app_nil_r, Z.add_0_r. split; [done|]. split_and!; try done; [by exists u|]. left. split; [done|lia]. }
  destruct (out_chunk_ok p user destination count copied HR ltac:(lia) Hm Hz) as (Hn & Hn2 & Hn3).
  set (n := out_chunk p user destination count copied) in *. destruct (ring_take p n HR Hn Hn2) as (bs & -> & Hlb & HR' & HC). cbn [mbind outcome_bind].
  destruct (hands_ret process u user (destination +64 copied) bs HM (buffer_sub user destination count copied (Z.of_nat (length bs)) HB ltac:(lia) ltac:(lia) ltac:(lia))) as (rc & u1 & Eh & K1). fold (hands process u user (destination +64 copied) bs).
  rewrite Eh. cbn [mbind outcome_bind]. destruct (Z.ltb_spec rc 0) as [Hrc|Hrc].
  { exists p, u1, 0, VFS_ERR_FAULT, []. rewrite app_nil_r, Z.add_0_r. split; [done|]. split_and!; try done; [by exists u|]. right. split; [done|lia]. }
  rewrite (wrap_small (read_position p + n)), (wrap_small (used p - n)), (wrap_small (copied + n)) by lia.
  destruct (IH (set_ring p (buffer p) ((read_position p + n) mod PIPE_CAPACITY) (write_position p) (used p - n)) u1 (copied + n)
    (pieces ++ [(destination +64 copied, bs)]) HR' ltac:(lia) ltac:(lia) (memory_kept _ _ _ _ HM K1))
    as (p' & u' & m & error & moved & -> & HR2 & HE & HC2 & Hlm & Hlaid & K2 & (u2 & Hh & Hu2) & Hend).
  exists p', u', (n + m), error, ((destination +64 copied, bs) :: moved). split; [by rewrite <-app_assoc, Z.add_assoc|].
  split_and!; try done.
  - rewrite HC. change PIPE_CAPACITY with 4096 in HC2. rewrite HC2, data_cons. by rewrite app_assoc.
  - rewrite data_cons, length_app. lia.
  - cbn. split; [done|]. by replace (destination + copied + Z.of_nat (length bs)) with (destination + (copied + n)) by lia.
  - by eapply kept_trans.
  - exists u2. split; [|done]. cbn. eauto.
  - cbn [used set_ring] in Hend. destruct Hend as [[-> ->]|[-> Hmm]]; [left|right]; split; try done; lia.
Qed.

Lemma pipe_copy_out_ok process user destination count p u : ring_ok p -> 0 <= count < 2 ^ 31 -> buffer_ok user destination count -> memory_ok process u user ->
  exists p' u' n error moved, pipe_copy_out process p u user destination count = Ret (p', u', n, error, moved) /\
    out_spec process user destination count p u p' u' n error moved.
Proof.
  intros HR Hc HB HM. destruct (copy_out_loop_ok process user destination count (S (Z.to_nat count)) ltac:(lia) HB p u 0 [] HR ltac:(lia) ltac:(lia) HM)
    as (p' & u' & n & error & moved & E & HS). exists p', u', n, error, moved. split; [exact E|]. by rewrite Z.add_0_r, Z.sub_0_r in HS.
Qed.
End copy_out.
