(* ===== verification/PipeSteps.v ===== *)
(** * Pipes: reads and writes

    What the sections of [pipe_readv] and [pipe_write_staged] under the lock do
    to the bytes in the pipe. *)
From S2P Require Import Prelude Pipe PipeRing.

Definition sum_length (iovecs : list vfs_iovec) : Z := foldr (fun v n => iov_length v + n) 0 iovecs.
Definition sizes_ok (iovecs : list vfs_iovec) : Prop := Forall (fun v => 0 <= iov_length v) iovecs.

Lemma sum_length_pos iovecs : sizes_ok iovecs -> 0 <= sum_length iovecs.
Proof. induction 1 as [|v l Hv _ IH]; cbn; [done|]. fold (sum_length l). lia. Qed.

Lemma iovec_total_ok iovecs : sizes_ok iovecs -> forall n, 0 <= n <= 0x7fffffff ->
  iovec_total iovecs n = if decide (n + sum_length iovecs <= 0x7fffffff) then Some (n + sum_length iovecs) else None.
Proof.
  induction 1 as [|v iovecs Hv Hs IH]; intros n Hn; cbn [iovec_total sum_length foldr].
  - rewrite Z.add_0_r, decide_True by lia. done.
  - fold (sum_length iovecs). pose proof (sum_length_pos _ Hs). rewrite (wrap64_id (_ - n)) by (unfold is_u64; lia).
    destruct (Z.ltb_spec (0x7fffffff - n) (iov_length v)); [by rewrite decide_False by lia|].
    rewrite wrap64_id by (unfold is_u64; lia). rewrite IH by lia. by rewrite Z.add_assoc.
Qed.

Lemma data_app a b : data (a ++ b) = data a ++ data b.
Proof. unfold data. by rewrite fmap_app, concat_app. Qed.

Lemma same_ends_trans p1 p2 p3 : same_ends p1 p2 -> same_ends p2 p3 -> same_ends p1 p3.
Proof. unfold same_ends. naive_solver congruence. Qed.

(** Pieces go to the buffers in order, each filled before the next is used. *)
Fixpoint placed (iovecs : list vfs_iovec) (pieces : list (Z * list Z)) : Prop :=
  match iovecs with
  | [] => pieces = []
  | v :: iovecs => exists a b, pieces = a ++ b /\ laid (iov_base v) a /\ Z.of_nat (length (data a)) <= iov_length v /\
      (data b = [] \/ Z.of_nat (length (data a)) = iov_length v) /\ placed iovecs b
  end.

Lemma placed_nil iovecs : sizes_ok iovecs -> placed iovecs [].
Proof. induction 1; cbn; [done|]. exists [], []. by split_and!; [|..|left|]. Qed.

(** ** Reading *)

Section reading.
  Context {U : Type} {UM : UserMemory U} {UL : UserMemoryLaws U}.
  Implicit Types (p : vfs_pipe) (u : U) (process : option Z).

Lemma handed_app process u user a b u1 u2 : handed process u user a u1 -> handed process u1 user b u2 -> handed process u user (a ++ b) u2.
Proof.
  revert u. induction a as [|[x bs] a IH]; intros u; cbn; [by intros ->|]. intros (rc & v & ? & ? & ?) ?. exists rc, v. eauto.
Qed.

Definition buffers_ok (user : bool) (iovecs : list vfs_iovec) : Prop := Forall (fun v => buffer_ok user (iov_base v) (iov_length v)) iovecs.

(** The effect of reading: [n] bytes leave the front of the pipe for the buffers; it stops early only on a fault. *)
Definition read_spec process user iovecs limit p u p' u' n error pieces : Prop :=
  ring_ok p' /\ same_ends p p' /\ contents p = data pieces ++ contents p' /\ Z.of_nat (length (data pieces)) = n /\
  placed iovecs pieces /\ um_kept u u' /\ (exists u1, handed process u user pieces u1 /\ (error = VFS_OK -> u' = u1)) /\
  (error = VFS_OK /\ n = limit \/ error = VFS_ERR_FAULT /\ 0 <= n < limit).

Lemma read_iovecs_ok process user iovecs : sizes_ok iovecs -> buffers_ok user iovecs -> sum_length iovecs < 2 ^ 31 -> forall p u available total error pieces,
  ring_ok p -> 0 <= total <= available -> available < 2 ^ 31 -> available - total <= used p -> available - total <= sum_length iovecs -> error = VFS_OK ->
  memory_ok process u user ->
  exists p' u' n error' moved,
    read_iovecs process p u user iovecs available total error pieces = Ret (p', u', total + n, error', pieces ++ moved) /\
    read_spec process user iovecs (available - total) p u p' u' n error' moved.
Proof.
  induction 1 as [|v iovecs Hv Hs IH]; intros HB Hsum p u available total error pieces HR Ht Hav Hu Ha -> HM; cbn [read_iovecs sum_length foldr] in *.
  { exists p, u, 0, VFS_OK, []. rewrite app_nil_r, Z.add_0_r. split; [done|]. split_and!; try done; [apply kept_refl|by exists u|]. left. split; [done|lia]. }
  apply Forall_cons in HB as [HBv HB]. fold (sum_length iovecs) in *. pose proof (sum_length_pos _ Hs) as Hp. pose proof (ring_used p HR) as Hub. destruct (Z.ltb_spec total available) as [Hlt|Hge]; cbn [negb].
  2:{ exists p, u, 0, VFS_OK, []. rewrite app_nil_r, Z.add_0_r. split; [done|]. split_and!; try done; [|apply kept_refl|by exists u|].
      - apply (placed_nil (v :: iovecs)). by constructor.
      - left. split; [done|lia]. }
  rewrite (wrap32_id (iov_length v)), (wrap64_id (available - total)), (wrap32_id (available - total)) by (unfold is_u32, is_u64; lia).
  set (len := if available - total <? iov_length v then available - total else iov_length v).
  assert (Hlen : len = Z.min (available - total) (iov_length v)) by (unfold len; case_match; lia).
  destruct (pipe_copy_out_ok process user (iov_base v) len p u HR ltac:(lia) (buffer_prefix user _ _ len HBv ltac:(lia)) HM)
    as (p1 & u1 & n & e & moved & -> & HR1 & HE & HC & Hl & HL & K & (u2 & Hh & Hu2) & Hend). cbn [mbind outcome_bind].
  assert (Hn : 0 <= n <= len) by lia. rewrite (wrap64_id (total + n)) by (unfold is_u64; lia).
  assert (Hpl : placed (v :: iovecs) moved).
  { exists moved, []. rewrite app_nil_r. split; [done|]. split; [done|]. split; [lia|]. split; [by left|by apply placed_nil]. }
  destruct Hend as [[-> Hmin]|[-> Hmin]].
  2:{ cbn [Z.ltb VFS_ERR_FAULT Z.compare orb]. exists p1, u1, n, VFS_ERR_FAULT, moved. split; [done|]. split_and!; try done; [by exists u2|].
      right. split; [done|lia]. }
  assert (n = len) as -> by lia. rewrite Z.eqb_refl. cbn [Z.ltb VFS_OK Z.compare orb negb].
  pose proof (length_contents p HR) as Lp. pose proof (length_contents p1 HR1) as Lp1. rewrite HC, length_app in Lp.
  destruct (IH HB ltac:(lia) p1 u1 available (total + len) VFS_OK (pieces ++ moved) HR1 ltac:(lia) ltac:(lia) ltac:(lia) ltac:(lia) eq_refl (memory_kept _ _ _ _ HM K))
    as (p' & u' & m & e' & moved' & -> & HR2 & HE2 & HC2 & Hl2 & HL2 & K2 & (u3 & Hh3 & Hu3) & Hend2).
  exists p', u', (len + m), e', (moved ++ moved'). split; [by rewrite app_assoc, Z.add_assoc|]. split_and!; try done.
  - by eapply same_ends_trans.
  - by rewrite data_app, HC, HC2, app_assoc.
  - rewrite data_app, length_app. lia.
  - exists moved, moved'. split_and!; try done; [lia|]. destruct (decide (data moved' = [])) as [|Hne]; [by left|right].
    destruct (data moved'); [done|]. cbn in Hl2. lia.
  - by eapply kept_trans.
  - exists u3. split; [|done]. eapply handed_app; [exact Hh|]. by rewrite <-Hu2.
  - destruct Hend2 as [[-> ->]|[-> ?]]; [left|right]; split; try done; lia.
Qed.
End reading.

(** ** Writing *)

(** Why a writer waits. *)
Definition blocked (p : vfs_pipe) (count : Z) (atomic : bool) : Prop := atomic = true /\ 4096 - used p < count \/ used p = 4096.

(** A run of the loop appends the bytes from [total] on, as many as it moves, and ends for one of the reasons the code
    knows.  An atomic write moves everything or nothing. *)
Definition write_spec p nonblock source atomic total p' t bytes : Prop :=
  let count := Z.of_nat (length source) in
  let n := total + Z.of_nat (length bytes) in
  ring_ok p' /\ same_ends p p' /\ contents p' = contents p ++ bytes /\ bytes = take (length bytes) (drop (Z.to_nat total) source) /\
  (atomic = true -> total = 0 -> bytes = [] \/ bytes = source) /\
  match t with
  | WriteReturn result broken =>
      n = count /\ result = count /\ broken = false \/
      bytes = [] /\ readers p = 0 /\ total < count /\ result = (if truth total then total else VFS_ERR_PIPE) /\ broken = true \/
      nonblock = true /\ readers p <> 0 /\ blocked p' count atomic /\ n < count /\ result = (if truth n then n else VFS_ERR_AGAIN) /\ broken = false
  | WriteSleep total' result =>
      nonblock = false /\ readers p <> 0 /\ blocked p' count atomic /\ n < count /\ total' = n /\ result = n
  end.

Lemma blocked_test p count atomic : ring_ok p ->
  (atomic && (PIPE_CAPACITY -32 used p <? count)) || negb (truth (PIPE_CAPACITY -32 used p)) = true <-> blocked p count atomic.
Proof.
  intros HR. pose proof (ring_used p HR). unfold PIPE_CAPACITY, PGSIZE, blocked, truth. rewrite wrap_small by lia.
  destruct atomic; cbn [andb]; destruct (Z.ltb_spec (4096 - used p) count); destruct (Z.eqb_spec (4096 - used p) 0); cbn; split; intros; try done; try lia; auto with lia.
Qed.

(** A round that does not move bytes. *)
Lemma write_round p nonblock source atomic total fuel bytes : ring_ok p -> 0 <= total <= Z.of_nat (length source) ->
  (total = Z.of_nat (length source) \/ readers p = 0 \/ blocked p (Z.of_nat (length source)) atomic) ->
  exists t, write_staged_loop (S fuel) p nonblock source (Z.of_nat (length source)) atomic total total bytes = Ret (p, t, bytes) /\
    write_spec p nonblock source atomic total p t [].
Proof.
  intros HR Ht Hwhy. cbn [write_staged_loop]. set (count := Z.of_nat (length source)) in *.
  assert (HB : forall t, match t with
      | WriteReturn result broken => total = count /\ result = count /\ broken = false \/
          readers p = 0 /\ total < count /\ result = (if truth total then total else VFS_ERR_PIPE) /\ broken = true \/
          nonblock = true /\ readers p <> 0 /\ blocked p count atomic /\ total < count /\ result = (if truth total then total else VFS_ERR_AGAIN) /\ broken = false
      | WriteSleep total' result => nonblock = false /\ readers p <> 0 /\ blocked p count atomic /\ total < count /\ total' = total /\ result = total
      end -> write_spec p nonblock source atomic total p t []).
  { intros t H. unfold write_spec. cbn [length Z.of_nat]. rewrite Z.add_0_r, app_nil_r. split_and!; try done; [by left|]. destruct t; naive_solver. }
  destruct (Z.ltb_spec total count) as [Hlt|Hge]; cbn [negb].
  2:{ eexists. split; [done|]. apply HB. left. split_and!; [lia|lia|done]. }
  unfold truth at 1. destruct (Z.eqb_spec (readers p) 0) as [Hz|Hz]; cbn [negb].
  { eexists. split; [done|]. apply HB. right. left. done. }
  destruct Hwhy as [?|[?|Hb]]; [lia|done|]. rewrite (proj2 (blocked_test p count atomic HR) Hb).
  destruct nonblock; eexists; (split; [done|]); apply HB; [right; right|]; done.
Qed.

Lemma pipe_write_staged_ok p nonblock source atomic total : ring_ok p -> 0 <= total <= Z.of_nat (length source) -> Z.of_nat (length source) < 2 ^ 31 ->
  exists p' t bytes, pipe_write_staged p nonblock source (Z.of_nat (length source)) atomic total total = Ret (p', t, bytes) /\
    write_spec p nonblock source atomic total p' t bytes.
Proof.
  intros HR Ht Hc. unfold pipe_write_staged. set (count := Z.of_nat (length source)) in *. pose proof (ring_used p HR) as Hu.
  destruct (decide (total = count \/ readers p = 0 \/ blocked p count atomic)) as [Hwhy|Hwhy].
  { destruct (write_round p nonblock source atomic total 1 [] HR Ht Hwhy) as (t & E & HS). by exists p, t, []. }
  assert (Hlt : total < count) by (destruct (decide (total = count)); [tauto|lia]). assert (Hr : readers p <> 0) by tauto.
  assert (Hnb : ~ blocked p count atomic) by tauto.
  remember 1%nat as f eqn:Ef. cbn [write_staged_loop]. rewrite (proj2 (Z.ltb_lt _ _) Hlt). cbn [negb].
  unfold truth at 1. rewrite (proj2 (Z.eqb_neq _ _) Hr). cbn [negb].
  destruct ((atomic && _) || _) eqn:Eb; [by apply blocked_test in Eb|]. unfold PIPE_CAPACITY, PGSIZE in *.
  rewrite (wrap_small (4096 - used p)), (wrap_small (count - total)) by lia.
  set (chunk := if 4096 - used p <? count - total then 4096 - used p else count - total).
  assert (Hch : chunk = Z.min (4096 - used p) (count - total)) by (unfold chunk; case_match; lia).
  assert (Hav : used p <> 4096) by (intros ?; apply Hnb; by right).
  rewrite (ring_slice_Ret source total chunk) by lia. cbn [mbind outcome_bind]. set (bs := take (Z.to_nat chunk) (drop (Z.to_nat total) source)).
  assert (Hlb : Z.of_nat (length bs) = chunk) by (unfold bs; rewrite length_take, length_drop; lia).
  destruct (pipe_copy_in_ok p bs HR ltac:(lia)) as (p1 & E1 & HR1 & HC1 & Hu1 & Hr1 & Hw1 & Hb1). rewrite Hlb in E1. rewrite E1.
  cbn [mbind outcome_bind]. rewrite (wrap_small (total + chunk)) by lia.
  destruct (write_round p1 nonblock source atomic (total + chunk) 0 ([] ++ bs) HR1 ltac:(lia)) as (t & E & HS).
  { fold count. destruct (decide (chunk = count - total)); [left; lia|right; right]. right. lia. }
  fold count in E. rewrite Ef, E. exists p1, t, bs. split; [done|]. destruct HS as (_ & _ & _ & _ & _ & HT).
  split_and!; try done.
  - unfold bs. rewrite length_take, length_drop. f_equal. lia.
  - intros -> ->. right. assert (chunk = count) as Ech. { unfold blocked in Hnb. destruct (decide (4096 - used p < count)); [tauto|lia]. }
    unfold bs. rewrite Ech, drop_0. unfold count. by rewrite Nat2Z.id, firstn_all.
  - fold count in HT. cbn [length Z.of_nat] in HT. rewrite !Z.add_0_r in HT. rewrite Hlb, <-Hr1. destruct t; [|done].
    destruct HT as [HT|[(_ & Hbad & _)|HT]]; [by left|congruence|by right; right].
Qed.

(** * Pipes: calls side by side

    The system of one pipe, the calls in progress on it and the memory they
    use.  A step runs one call to its next point without the lock, starts a
    call, interrupts or kills a sleeper, closes an end or lets memory change. *)

(** What the system did: a call started, a call ran and put bytes into the pipe or took pieces out of it. *)
Inductive event :=
| Started (t : nat)
| Ran (t : nat) (wrote : list Z) (moved : list (Z * list Z))
| Silent.

(** The last event comes first. *)
Fixpoint written (tr : list event) : list Z :=
  match tr with
  | [] => []
  | Ran _ w _ :: tr => written tr ++ w
  | _ :: tr => written tr
  end.
Fixpoint delivered (tr : list event) : list Z :=
  match tr with
  | [] => []
  | Ran _ _ m :: tr => delivered tr ++ data m
  | _ :: tr => delivered tr
  end.
(** The bytes the current call of thread [t] has moved. *)
Fixpoint progress (t : nat) (tr : list event) : Z :=
  match tr with
  | [] => 0
  | Started t' :: tr => if decide (t' = t) then 0 else progress t tr
  | Ran t' w m :: tr => if decide (t' = t) then progress t tr + Z.of_nat (length w + length (data m)) else progress t tr
  | Silent :: tr => progress t tr
  end.

Inductive request :=
| ReadRequest (process : option Z) (user : bool) (iovecs : list vfs_iovec) (flags : Z)
| WriteRequest (process : option Z) (user : bool) (source count flags : Z)
| WritevRequest (page : bool) (process : option Z) (user : bool) (iovecs : list vfs_iovec) (flags : Z).
Definition begin (r : request) : call :=
  match r with
  | ReadRequest process user iovecs flags => pipe_readv process user iovecs flags
  | WriteRequest process user source count flags => pipe_write process user source count flags
  | WritevRequest page process user iovecs flags => pipe_writev page process user iovecs flags
  end.

Definition reading (c : call) : bool := match c with ReadLoop _ | ReadAsleep _ | ReadFault _ _ | ReadCopy _ _ _ => true | _ => false end.
Definition writing (c : call) : bool :=
  match c with WriteEnter _ | WriteGather _ _ _ | WriteStage _ | WriteLoop _ _ _ _ | WriteAsleep _ _ _ _ => true | _ => false end.

Section system.
  Context {U : Type} {UM : UserMemory U} {UL : UserMemoryLaws U}.

Record system := MkSystem { s_pipe : vfs_pipe; s_mem : U; s_calls : gmap nat call; s_read_open : bool; s_write_open : bool }.

(** A call comes through an open end, with lengths that are not negative and, for buffers of the user, a page table and
    ranges of user addresses. *)
Definition request_ok (s : system) (r : request) : Prop :=
  match r with
  | ReadRequest process user iovecs _ => s_read_open s = true /\ memory_ok process (s_mem s) user /\ sizes_ok iovecs /\ buffers_ok user iovecs
  | WriteRequest process user source count _ => s_write_open s = true /\ memory_ok process (s_mem s) user /\ 0 <= count /\ buffer_ok user source count
  | WritevRequest _ process user iovecs _ => s_write_open s = true /\ memory_ok process (s_mem s) user /\ sizes_ok iovecs /\ buffers_ok user iovecs
  end.

(** [pipe_release] for one end: with both ends closed the pipe is destroyed, which nobody may be waiting for. *)
Definition close (s : system) (flags : Z) : outcome system :=
  '(p, wake_readers, wake_writers, destroy) ← pipe_release (s_pipe s) flags;
  let calls := wake wake_readers wake_writers <$> s_calls s in
  if destroy && existsb (fun x => asleep x.2) (map_to_list calls) then Panic "release pipe with waiters" else
  Ret (MkSystem p (s_mem s) calls (s_read_open s && negb (truth (Z.land flags VFS_OPEN_READ)))
         (s_write_open s && negb (truth (Z.land flags VFS_OPEN_WRITE)))).

(** An end is closed when no call uses it: a call holds a reference on its file. *)
Inductive step (s : system) : event -> system -> Prop :=
| step_start t r : s_calls s !! t = None -> request_ok s r ->
    step s (Started t) (MkSystem (s_pipe s) (s_mem s) (<[t := begin r]> (s_calls s)) (s_read_open s) (s_write_open s))
| step_run t c page T : s_calls s !! t = Some c -> advance page c (s_pipe s) (s_mem s) = Ret T ->
    step s (Ran t (t_wrote T) (t_moved T))
      (MkSystem (t_pipe T) (t_mem T) (wake (t_wake_readers T) (t_wake_writers T) <$> <[t := t_call T]> (s_calls s)) (s_read_open s) (s_write_open s))
| step_interrupt t c c' : s_calls s !! t = Some c -> interrupt c = Some c' ->
    step s Silent (MkSystem (s_pipe s) (s_mem s) (<[t := c']> (s_calls s)) (s_read_open s) (s_write_open s))
| step_leave t c : s_calls s !! t = Some c -> (asleep c = true \/ exists r, c = Finished r) ->
    step s Silent (MkSystem (s_pipe s) (s_mem s) (delete t (s_calls s)) (s_read_open s) (s_write_open s))
| step_close_read s' : s_read_open s = true -> (forall t c, s_calls s !! t = Some c -> reading c = false) ->
    close s VFS_OPEN_READ = Ret s' -> step s Silent s'
| step_close_write s' : s_write_open s = true -> (forall t c, s_calls s !! t = Some c -> writing c = false) ->
    close s VFS_OPEN_WRITE = Ret s' -> step s Silent s'
| step_memory u : um_kept (s_mem s) u ->
    step s Silent (MkSystem (s_pipe s) u (s_calls s) (s_read_open s) (s_write_open s)).

(** The executions from [vfs_pipe] on. *)
Inductive exec : list event -> system -> Prop :=
| exec_new page u : length page = 4096%nat -> exec [] (MkSystem (new_pipe page) u ∅ true true)
| exec_step tr s e s' : exec tr s -> step s e s' -> exec (e :: tr) s'.

(** ** Invariant *)

Definition reader_ok (u : U) (open : bool) (r : reader) : Prop :=
  open = true /\ memory_ok (rd_process r) u (rd_user r) /\ sizes_ok (rd_iovecs r) /\ buffers_ok (rd_user r) (rd_iovecs r) /\ sum_length (rd_iovecs r) = rd_requested r /\
  0 < rd_requested r < 2 ^ 31.
Definition writer_ok (u : U) (open : bool) (w : writer) : Prop :=
  open = true /\ memory_ok (wr_process w) u (wr_user w) /\ sizes_ok (wr_rest w) /\ buffers_ok (wr_user w) (wr_rest w) /\
  (wr_gathered w = false -> buffer_ok (wr_user w) (wr_source w) (wr_count w)) /\ 0 <= wr_count w /\ 0 <= wr_total w /\ 0 <= wr_done w /\
  (wr_done w = 0 /\ wr_rest w = [] \/ wr_done w + wr_count w + sum_length (wr_rest w) < 2 ^ 31).
(** A call of [pipe_write_staged] that has moved [total] bytes, of [g] bytes that the whole call has moved. *)
Definition staged_at (w : writer) (staging : list Z) (total g : Z) : Prop :=
  0 <= total <= Z.of_nat (length staging) /\ Z.of_nat (length staging) <= 4096 /\ g = wr_done w + wr_total w + total /\
  if wr_gathered w then wr_done w = 0 /\ wr_total w = 0 else wr_total w + Z.of_nat (length staging) <= wr_count w /\ wr_count w < 2 ^ 31.
Definition staged_ok (w : writer) (staging : list Z) (total result g : Z) : Prop :=
  staged_at w staging total g /\ result = total /\ (wr_atomic w = true -> total = 0).

(** What holds of a call that has moved [g] bytes.  A reader sleeps only while another one is at work or the pipe is
    empty and can still be written, a writer only while its bytes do not fit and the pipe can still be read. *)
Definition call_ok (p : vfs_pipe) (u : U) (ro wo : bool) (g : Z) (c : call) : Prop :=
  match c with
  | ReadLoop r => reader_ok u ro r /\ g = 0
  | ReadAsleep r => reader_ok u ro r /\ g = 0 /\ rd_nonblock r = false /\ (read_busy p = true \/ used p = 0 /\ writers p <> 0)
  | ReadFault r a => reader_ok u ro r /\ g = 0 /\ 0 < a <= used p /\ a <= rd_requested r
  | ReadCopy r a e => reader_ok u ro r /\ g = 0 /\ 0 < a <= used p /\ a <= rd_requested r /\ (e = VFS_OK \/ e = VFS_ERR_FAULT)
  | WriteEnter w => writer_ok u wo w /\ wr_gathered w = false /\ g = wr_done w
  | WriteGather w iovecs staging => writer_ok u wo w /\ wr_gathered w = true /\ g = 0 /\ wr_done w = 0 /\ wr_total w = 0 /\ sizes_ok iovecs /\ buffers_ok (wr_user w) iovecs /\
      Z.of_nat (length staging) + sum_length iovecs <= 4096
  | WriteStage w => writer_ok u wo w /\ wr_gathered w = false /\ wr_total w <= wr_count w /\ wr_count w < 2 ^ 31 /\ g = wr_done w + wr_total w
  | WriteLoop w staging total result => writer_ok u wo w /\ staged_ok w staging total result g
  | WriteAsleep w staging total result => writer_ok u wo w /\ staged_ok w staging total result g /\ wr_nonblock w = false /\ readers p <> 0 /\
      blocked p (Z.of_nat (length staging)) (wr_atomic w) /\ total < Z.of_nat (length staging)
  | Finished r => (0 <= r -> g = r) /\ (r < 0 -> g = 0)
  end.

(** The reader at work. *)
Definition claims (c : call) : bool := match c with ReadFault _ _ | ReadCopy _ _ _ => true | _ => false end.

Record inv (tr : list event) (s : system) : Prop := {
  i_ring : ring_ok (s_pipe s);
  i_ends : readers (s_pipe s) = (if s_read_open s then 1 else 0) /\ writers (s_pipe s) = (if s_write_open s then 1 else 0);
  i_calls : forall t c, s_calls s !! t = Some c -> call_ok (s_pipe s) (s_mem s) (s_read_open s) (s_write_open s) (progress t tr) c;
  i_busy : forall t c, s_calls s !! t = Some c -> claims c = true -> read_busy (s_pipe s) = true;
  i_alone : forall t c t' c', s_calls s !! t = Some c -> s_calls s !! t' = Some c' -> claims c = true -> claims c' = true -> t = t';
  i_held : read_busy (s_pipe s) = true -> exists t c, s_calls s !! t = Some c /\ claims c = true;
  i_stream : written tr = delivered tr ++ contents (s_pipe s)
}.

(** ** One call *)

Lemma user_return_ok p u ro wo w r g : writer_ok u wo w -> (r < 0 \/ 0 <= r <= wr_count w /\ r < 2 ^ 31) -> g = wr_done w + Z.max 0 r ->
  call_ok p u ro wo g (user_return w r).
Proof.
  intros (Ho & HM & Hs & HB & HBs & Hc & Ht & Hd & Hb) Hr ->. unfold user_return, truth. pose proof (sum_length_pos _ Hs) as Hp.
  destruct (Z.ltb_spec r 0).
  { destruct (Z.eqb_spec (wr_done w) 0); cbn; lia. }
  assert (Hw : wr_done w +64 r = wr_done w + r) by (apply wrap64_id; unfold is_u64; lia). rewrite Hw.
  destruct (Z.eqb_spec r (wr_count w)) as [->|]; cbn [negb]; [|cbn; lia].
  destruct (wr_rest w) as [|v rest] eqn:Er; [cbn; lia|]. unfold call_ok, writer_ok, writer_next. cbn. destruct Hb as [[_ ?]|Hb]; [done|]. apply Forall_cons in Hs as [Hv Hs]. apply Forall_cons in HB as [HBv HB].
  cbn [sum_length foldr] in Hb, Hp. fold (sum_length rest) in Hb, Hp. split_and!; try done; try lia. right. fold (sum_length rest). lia.
Qed.

Lemma staged_return_ok p u ro wo w staging n result g : writer_ok u wo w -> staged_at w staging n g ->
  (result = n \/ n = 0 /\ result < 0) -> call_ok p u ro wo g (staged_return w (Z.of_nat (length staging)) result).
Proof.
  intros HW (Hn & Hl & Hg & Hk) Hr. pose proof HW as (Ho & HM & Hs & HB & HBs & Hc & Ht & Hd & Hb). unfold staged_return, truth.
  destruct (wr_gathered w) eqn:Eg; [cbn; lia|]. destruct Hk as [Hk1 Hk2]. destruct (Z.ltb_spec result 0) as [Hneg|Hneg].
  - destruct (Z.eqb_spec (wr_total w) 0) as [Hz|Hz]; cbn [negb]; (apply user_return_ok; [done|lia|lia]).
  - assert (result = n) as -> by lia. rewrite (wrap64_id (wr_total w + n)), wrap32_id by (unfold is_u64, is_u32; lia).
    destruct (Z.eqb_spec n (Z.of_nat (length staging))) as [->|]; cbn [negb].
    + unfold call_ok, writer_ok, writer_at. cbn. split_and!; try done; try lia; auto.
    + apply user_return_ok; [done|lia|lia].
Qed.

(** What a run of one call means for the pipe and for the others. *)
Record turn_ok (p : vfs_pipe) (u : U) (ro wo : bool) (g : Z) (c : call) (T : turn U) : Prop := {
  to_ring : ring_ok (t_pipe T);
  to_ends : readers (t_pipe T) = readers p /\ writers (t_pipe T) = writers p;
  to_mem : um_kept u (t_mem T);
  to_stream : contents p ++ t_wrote T = data (t_moved T) ++ contents (t_pipe T);
  to_call : call_ok (t_pipe T) (t_mem T) ro wo (g + Z.of_nat (length (t_wrote T) + length (data (t_moved T)))) (t_call T);
  to_busy : read_busy (t_pipe T) = claims (t_call T) || (read_busy p && negb (claims c));
  to_claim : claims (t_call T) = true -> claims c = true \/ read_busy p = false;
  to_readers : t_wake_readers T = false -> used (t_pipe T) = used p /\ (read_busy p = true -> read_busy (t_pipe T) = true);
  to_writers : t_wake_writers T = false -> used p <= used (t_pipe T);
  to_others : claims c = false -> used p <= used (t_pipe T)
}.

(** A run that touches neither the pipe nor the claim. *)
Lemma quiet_turn_ok p u ro wo g c c' u' : ring_ok p -> um_kept u u' -> call_ok p u' ro wo g c' -> claims c' = false -> claims c = false ->
  turn_ok p u ro wo g c (MkTurn c' p u' [] [] false false false).
Proof.
  intros HR K HC H1 H2. split; cbn; rewrite ?data_nil, ?app_nil_r, ?Z.add_0_r, ?H1, ?H2, ?andb_true_r; done.
Qed.

Lemma claims_user_return w r : claims (user_return w r) = false.
Proof. unfold user_return. by repeat case_match. Qed.
Lemma claims_staged_return w n r : claims (staged_return w n r) = false.
Proof. unfold staged_return. repeat case_match; try done; apply claims_user_return. Qed.

Lemma reader_kept u u' ro r : reader_ok u ro r -> um_kept u u' -> reader_ok u' ro r.
Proof. intros (? & ? & ?) K. split; [done|]. split; [by eapply memory_kept|done]. Qed.
Lemma writer_kept u u' wo w : writer_ok u wo w -> um_kept u u' -> writer_ok u' wo w.
Proof. intros (? & ? & ?) K. split; [done|]. split; [by eapply memory_kept|done]. Qed.

Lemma prefault_ok r u a : memory_ok (rd_process r) u (rd_user r) -> sizes_ok (rd_iovecs r) -> buffers_ok (rd_user r) (rd_iovecs r) -> sum_length (rd_iovecs r) < 2 ^ 31 ->
  0 <= a < 2 ^ 31 -> exists e u', pipe_prefault_output (rd_process r) u (rd_user r) (rd_iovecs r) a = Ret (e, u') /\
  um_kept u u' /\ (e = VFS_OK \/ e = VFS_ERR_FAULT).
Proof.
  intros HM Hs HB Hl Ha. unfold pipe_prefault_output. destruct (rd_user r); cbn [negb].
  2:{ exists VFS_OK, u. split_and!; [done|apply kept_refl|by left]. }
  destruct (HM eq_refl) as (pg & -> & Hpg). clear HM. assert (Ht : 0 <= 0 <= a) by lia. revert Ht. generalize 0 at 2 4 as total. revert u Hpg HB Hl.
  induction Hs as [|v iovecs Hv Hs IH]; intros u Hpg HB Hl total Ht; cbn [prefault_iovecs].
  { exists VFS_OK, u. split_and!; [done|apply kept_refl|by left]. }
  apply Forall_cons in HB as [HBv HB]. cbn [sum_length foldr] in Hl. fold (sum_length iovecs) in Hl. pose proof (sum_length_pos _ Hs).
  destruct (Z.ltb_spec total a); cbn [negb].
  2:{ exists VFS_OK, u. split_and!; [done|apply kept_refl|by left]. }
  rewrite (wrap32_id (iov_length v)), (wrap32_id (a - total)) by (unfold is_u32; lia).
  set (chunk := if a - total <? iov_length v then a - total else iov_length v).
  assert (Hch : 0 <= chunk <= iov_length v /\ chunk <= a - total) by (unfold chunk; destruct (Z.ltb_spec (a - total) (iov_length v)); lia).
  destruct (um_prefault_ret u pg (iov_base v) chunk Hpg (buffer_prefix true _ _ chunk HBv ltac:(lia) eq_refl) ltac:(lia)) as (rc & u1 & -> & K).
  cbn [mbind outcome_bind]. destruct (rc <? 0); [exists VFS_ERR_FAULT, u1; by split_and!; [| |right]|].
  rewrite (wrap32_id (total + chunk)) by (unfold is_u32; lia).
  destruct (IH u1 (K pg Hpg) HB ltac:(lia) (total + chunk) ltac:(lia)) as (e & u2 & -> & K2 & He).
  exists e, u2. split_and!; [done|by eapply kept_trans|done].
Qed.

Lemma copyin_ok w u src n : memory_ok (wr_process w) u (wr_user w) -> buffer_ok (wr_user w) src n -> 0 <= n -> exists rc u' bs, either_copyin (wr_process w) u (wr_user w) src n = Ret (rc, u', bs) /\
  um_kept u u' /\ (0 <= rc -> Z.of_nat (length bs) = n).
Proof.
  intros HM HB Hn. unfold either_copyin. destruct (wr_user w).
  - destruct (HM eq_refl) as (pg & -> & Hpg). cbn [deref mbind outcome_bind]. by apply um_copyin_ret; [|apply HB|].
  - exists 0, u, (um_load u src n). split_and!; [done|apply kept_refl|]. intros _. by apply um_load_ret.
Qed.

Lemma used_contents p : ring_ok p -> used p = Z.of_nat (length (contents p)).
Proof. intros H. by rewrite length_contents. Qed.

Lemma contents_busy p b : contents (set_busy p b) = contents p.
Proof. done. Qed.
Lemma ring_busy p b : ring_ok p -> ring_ok (set_busy p b).
Proof. by intros [? ? ? ?]. Qed.

Lemma read_loop_ok page p u ro (wo : bool) g r : ring_ok p -> writers p = (if wo then 1 else 0) -> call_ok p u ro wo g (ReadLoop r) ->
  exists T, advance page (ReadLoop r) p u = Ret T /\ turn_ok p u ro wo g (ReadLoop r) T.
Proof.
  intros HR Hw (HO & ->). pose proof HO as (_ & _ & _ & _ & _ & Hq). pose proof (ring_used p HR) as Hu. cbn [advance]. unfold read_head, truth.
  destruct (Z.eqb_spec (used p) 0) as [Hz|Hz]; destruct (read_busy p) eqn:Eb; cbn [negb orb andb]; rewrite ?andb_false_r; cbn [andb].
  1,3: destruct (rd_nonblock r) eqn:En; eexists; (split; [done|]); apply quiet_turn_ok; try done; try apply kept_refl; cbn; split_and!; auto.
  - rewrite andb_true_r. destruct (Z.eqb_spec (writers p) 0) as [Hw0|Hw0]; cbn [negb].
    { eexists. split; [done|]. apply quiet_turn_ok; try done; apply kept_refl. }
    destruct (rd_nonblock r) eqn:En; eexists; (split; [done|]); apply quiet_turn_ok; try done; try apply kept_refl. cbn. split_and!; auto.
  - eexists. split; [done|]. assert (Ha : forall a, a = Z.min (rd_requested r) (used p) -> (if rd_requested r <? used p then wrap32 (rd_requested r) else used p) = a).
    { intros a ->. rewrite wrap32_id by (unfold is_u32; lia). destruct (Z.ltb_spec (rd_requested r) (used p)); lia. }
    rewrite (Ha _ eq_refl). split; cbn; rewrite ?data_nil, ?app_nil_r; try done; [by apply ring_busy|apply kept_refl| |by right].
    split; [done|]. split; [done|]. cbn. lia.
Qed.

Lemma read_copy_ok page p u ro wo g r a e : ring_ok p -> read_busy p = true -> call_ok p u ro wo g (ReadCopy r a e) ->
  exists T, advance page (ReadCopy r a e) p u = Ret T /\ turn_ok p u ro wo g (ReadCopy r a e) T.
Proof.
  intros HR Hb (HO & -> & Ha & Har & He). pose proof HO as (_ & HM & Hs & HB & Hsum & Hq). cbn [advance]. unfold read_finish.
  destruct He as [-> | ->].
  - cbn [Z.ltb VFS_OK Z.compare]. destruct (read_iovecs_ok (rd_process r) (rd_user r) (rd_iovecs r) Hs HB ltac:(lia) p u a 0 VFS_OK [] HR ltac:(lia) ltac:(lia) ltac:(lia) ltac:(lia) eq_refl HM)
      as (p' & u' & n & e' & moved & Er & HR' & (E1 & E2 & E3) & HC & Hl & HP & K & _ & Hend).
    change (if 0 <? 0 then _ else _) with (read_iovecs (rd_process r) p u (rd_user r) (rd_iovecs r) a 0 VFS_OK []). rewrite Er. cbn [mbind outcome_bind].
    eexists. split; [done|]. rewrite Z.add_0_l in *. rewrite Z.sub_0_r in Hend.
    assert (Hres : (if truth n then n else e') = n /\ 0 < n \/ (if truth n then n else e') = VFS_ERR_FAULT /\ n = 0).
    { unfold truth. destruct (Z.eqb_spec n 0); cbn; destruct Hend as [[-> ?]|[-> ?]]; [lia|by right|left; lia|left; lia]. }
    split; cbn; rewrite ?data_nil, ?app_nil_r, ?andb_false_r, ?andb_true_r; try done.
    + by apply ring_busy.
    + destruct Hres as [[-> ?]|[-> ->]]; unfold VFS_ERR_FAULT; lia.
    + unfold truth. destruct (Z.eqb_spec n 0) as [->|]; [|done]. intros _. rewrite (used_contents p HR), (used_contents p' HR'), HC, length_app. lia.
  - eexists. split; [done|]. split; cbn; rewrite ?data_nil, ?app_nil_r, ?andb_false_r, ?andb_true_r; try done; [by apply ring_busy|apply kept_refl].
Qed.

Lemma write_loop_ok page p u ro wo g w staging total result : ring_ok p -> call_ok p u ro wo g (WriteLoop w staging total result) ->
  exists T, advance page (WriteLoop w staging total result) p u = Ret T /\ turn_ok p u ro wo g (WriteLoop w staging total result) T.
Proof.
  intros HR (HW & HS). pose proof HS as ((Ht & Hl & Hg & Hk) & -> & Hat). cbn [advance].
  destruct (pipe_write_staged_ok p (wr_nonblock w) staging (wr_atomic w) total HR Ht ltac:(lia)) as (p' & t & bytes & -> & HR' & (E1 & E2 & E3) & HC & Hby & Hall & HT).
  cbn [mbind outcome_bind]. pose proof (used_contents p HR) as U1. pose proof (used_contents p' HR') as U2. rewrite HC, length_app in U2.
  assert (HA : staged_at w staging (total + Z.of_nat (length bytes)) (g + Z.of_nat (length bytes))).
  { pose proof (f_equal length Hby) as Hlb. rewrite length_take, length_drop in Hlb. split_and!; try done; lia. }
  assert (Htu : forall c', claims c' = false -> call_ok p' u ro wo (g + Z.of_nat (length bytes)) c' -> forall b,
    turn_ok p u ro wo g (WriteLoop w staging total total) (MkTurn c' p' u bytes [] (negb (bool_decide (bytes = []))) false b)).
  { intros c' Hc' Hok b. split; cbn; rewrite ?data_nil, ?Nat.add_0_r, ?Hc', ?andb_true_r; try done; [apply kept_refl| |lia|lia].
    case_bool_decide as Hbb; [|done]. intros _. subst bytes. cbn in U2. split; [lia|congruence]. }
  destruct t as [res broken|total' result'].
  - eexists. split; [done|]. apply Htu; [apply claims_staged_return|]. apply (staged_return_ok _ _ _ _ _ _ _ _ _ HW HA).
    unfold truth in HT. destruct HT as [(Hc & -> & _)|[(-> & _ & Hlt & -> & _)|(_ & _ & _ & Hlt & -> & _)]]; [left; lia|..].
    + cbn [length Z.of_nat]. rewrite Z.add_0_r. destruct (Z.eqb_spec total 0); cbn; [by right|by left].
    + destruct (Z.eqb_spec (total + Z.of_nat (length bytes)) 0); cbn; [by right|by left].
  - destruct HT as (Hnb & Hr & Hbl & Hlt & -> & ->). eexists. split; [done|]. apply Htu; [done|]. cbn. split; [done|]. rewrite E1.
    split; [|done]. split; [done|]. split; [done|]. intros Ha. destruct (Hall Ha (Hat Ha)) as [-> | ->]; [cbn; specialize (Hat Ha)|]; lia.
Qed.

(** Every call that is not asleep or finished runs to its next point. *)
Lemma advance_ok page p u ro (wo : bool) g c : ring_ok p -> writers p = (if wo then 1 else 0) -> (claims c = true -> read_busy p = true) ->
  call_ok p u ro wo g c -> asleep c = false -> (forall r, c <> Finished r) -> exists T, advance page c p u = Ret T /\ turn_ok p u ro wo g c T.
Proof.
  intros HR Hw Hcl HC Ha Hf. destruct c as [r|r|r a|r a e|w|w iovecs staging|w|w staging total result|w staging total result|r]; try done.
  - by apply read_loop_ok.
  - destruct HC as (HO & -> & Hau & Har). pose proof HO as (_ & HM & Hs & HB & Hsum & Hq).
    destruct (prefault_ok r u a HM Hs HB ltac:(lia) ltac:(lia)) as (e & u' & E & K & He). cbn [advance]. rewrite E. cbn [mbind outcome_bind].
    eexists. split; [done|]. specialize (Hcl eq_refl). split; cbn; rewrite ?data_nil, ?app_nil_r; try done; [|by left]. split; [by eapply reader_kept|]. done.
  - by apply read_copy_ok; [|apply Hcl|].
  - destruct HC as (HW & Hg & ->). pose proof HW as (_ & _ & _ & _ & _ & Hc & _ & Hd & _). cbn [advance]. unfold truth.
    assert (Hret : forall r, (r < 0 \/ 0 <= r <= wr_count w /\ r < 2 ^ 31) -> Z.max 0 r = 0 -> turn_ok p u ro wo (wr_done w) (WriteEnter w) (MkTurn (user_return w r) p u [] [] false false false)).
    { intros r Hr Hr0. apply quiet_turn_ok; try done; [apply kept_refl| |apply claims_user_return]. apply user_return_ok; [done|done|lia]. }
    destruct (Z.eqb_spec (wr_count w) 0); cbn [negb]; [eexists; split; [done|]; apply Hret; lia|].
    destruct (Z.ltb_spec 0x7fffffff (wr_count w)); [eexists; split; [done|]; apply Hret; [by left|done]|].
    destruct page; cbn [negb]; [|eexists; split; [done|]; apply Hret; [by left|done]].
    eexists. split; [done|]. apply quiet_turn_ok; try done; [apply kept_refl|]. unfold call_ok, writer_ok, writer_at in *. cbn. split_and!; try done; try lia; naive_solver.
  - destruct HC as (HW & Hg & -> & Hd & Ht & Hs & HB & Hl). destruct iovecs as [|v iovecs]; cbn [advance].
    { eexists. split; [done|]. apply quiet_turn_ok; try done; [apply kept_refl|]. cbn. split; [done|]. split; [|done]. cbn [sum_length foldr] in Hl.
      unfold staged_at. rewrite Hg. split_and!; try done; lia. }
    apply Forall_cons in Hs as [Hv Hs]. apply Forall_cons in HB as [HBv HB]. cbn [sum_length foldr] in Hl. fold (sum_length iovecs) in Hl. pose proof (sum_length_pos _ Hs).
    destruct (copyin_ok w u (iov_base v) (iov_length v)) as (rc & u' & bs & -> & K & Hlen); [apply HW|done|done|]. cbn [mbind outcome_bind].
    destruct (Z.ltb_spec rc 0); (eexists; split; [done|]); apply quiet_turn_ok; try done. cbn. split; [by eapply writer_kept|].
    split_and!; try done. rewrite length_app. specialize (Hlen ltac:(lia)). lia.
  - destruct HC as (HW & Hg & Htc & Hc & ->). pose proof HW as (_ & HM & _ & _ & HBs & _ & Ht & Hd & _). cbn [advance].
    destruct (Z.ltb_spec (wr_total w) (wr_count w)); cbn [negb].
    2:{ eexists. split; [done|]. apply quiet_turn_ok; try done; [apply kept_refl| |apply claims_user_return]. apply user_return_ok; [done|lia|lia]. }
    rewrite (wrap64_id (wr_count w - wr_total w)), (wrap32_id (wr_count w - wr_total w)) by (unfold is_u64, is_u32; lia).
    set (chunk := if PGSIZE <? wr_count w - wr_total w then PGSIZE else wr_count w - wr_total w).
    assert (Hch : 0 < chunk <= 4096 /\ chunk <= wr_count w - wr_total w) by (unfold chunk, PGSIZE; destruct (Z.ltb_spec 4096 (wr_count w - wr_total w)); lia).
    destruct (copyin_ok w u (wr_source w +64 wr_total w) chunk HM (buffer_sub _ _ _ (wr_total w) chunk (HBs Hg) ltac:(lia) ltac:(lia) ltac:(lia)) ltac:(lia)) as (rc & u' & bs & -> & K & Hlen). cbn [mbind outcome_bind].
    destruct (Z.ltb_spec rc 0); (eexists; split; [done|]); apply quiet_turn_ok; try done; try apply claims_user_return.
    + apply user_return_ok; [by eapply writer_kept|..]; unfold truth, VFS_ERR_FAULT; destruct (Z.eqb_spec (wr_total w) 0); cbn; lia.
    + specialize (Hlen ltac:(lia)). cbn. split; [by eapply writer_kept|]. split; [|done]. unfold staged_at. rewrite Hg. split_and!; lia.
  - by apply write_loop_ok.
  - by destruct (Hf r).
Qed.
End system.
Arguments system U : clear implicits.
