(* ===== verification/PipeTheorems.v ===== *)
(** * Pipes: the theorems

    In every execution the invariant of [PipeSteps.v] holds, hence bytes come
    out in the order they went in, no wake-up is lost and results count bytes. *)
From S2P Require Import Prelude Pipe PipeRing PipeSteps.

Section preservation.
  Context {U : Type} {UM : UserMemory U} {UL : UserMemoryLaws U}.
  Implicit Types (p : vfs_pipe) (u : U) (s : system U).

Lemma wake_ok p u ro wo g c a b : call_ok p u ro wo g c -> call_ok p u ro wo g (wake a b c).
Proof. destruct c, a, b; cbn; naive_solver. Qed.
Lemma claims_wake a b c : claims (wake a b c) = claims c.
Proof. by destruct c, a, b. Qed.

Lemma call_kept p u u' ro wo g c : call_ok p u ro wo g c -> um_kept u u' -> call_ok p u' ro wo g c.
Proof. destruct c; cbn; intros H K; try done; destruct H as [H ?]; (split; [|done]); by first [eapply reader_kept|eapply writer_kept]. Qed.

(** The others, when one call has run. *)
Lemma others_ok p u ro wo g c T g' c' : turn_ok p u ro wo g c T -> call_ok p u ro wo g' c' -> (claims c' = true -> claims c = false) ->
  call_ok (t_pipe T) (t_mem T) ro wo g' (wake (t_wake_readers T) (t_wake_writers T) c').
Proof.
  intros HT HC Hcl. apply (call_kept _ u); [|apply HT]. destruct HT as [HR [E1 E2] _ _ _ _ _ HWR HWW HO]. pose proof (ring_used _ HR) as Hu.
  destruct c' as [r|r|r a|r a e|w|w iovecs staging|w|w staging total result|w staging total result|r]; try done.
  - destruct HC as (? & ? & ? & Hw). cbn. destruct (t_wake_readers T); [done|]. destruct (HWR eq_refl) as [Eu Hb]. cbn. rewrite Eu, E2. naive_solver.
  - destruct HC as (? & ? & ? & ?). specialize (HO (Hcl eq_refl)). cbn. split_and!; try done; lia.
  - destruct HC as (? & ? & ? & ? & ?). specialize (HO (Hcl eq_refl)). cbn. split_and!; try done; lia.
  - destruct HC as (? & ? & ? & ? & Hb & ?). cbn. destruct (t_wake_writers T); [done|]. specialize (HWW eq_refl). cbn. rewrite E1. split_and!; try done.
    unfold blocked in *. destruct Hb as [[? ?]|?]; [left; split; [done|lia]|right; lia].
Qed.

Lemma begin_ok tr s r : inv tr s -> request_ok s r -> call_ok (s_pipe s) (s_mem s) (s_read_open s) (s_write_open s) 0 (begin r) /\ claims (begin r) = false.
Proof.
  intros _ HR. destruct r as [process user iovecs flags|process user source count flags|page process user iovecs flags]; cbn [begin request_ok] in *; destruct HR as (Ho & HM & Hs & HB).
  - unfold pipe_readv. rewrite iovec_total_ok by done. pose proof (sum_length_pos _ Hs). case_decide; [|done]. rewrite Z.add_0_l. unfold truth.
    destruct (Z.eqb_spec (sum_length iovecs) 0); cbn [negb]; [done|]. unfold call_ok, reader_ok. cbn -[sum_length]. split_and!; try done; lia.
  - unfold pipe_write, call_ok, writer_ok. cbn. split_and!; try done; [by constructor..|by left].
  - unfold pipe_writev. rewrite iovec_total_ok by done. pose proof (sum_length_pos _ Hs). case_decide; [|done]. rewrite Z.add_0_l. unfold truth.
    destruct (Z.eqb_spec (sum_length iovecs) 0); cbn [negb]; [done|]. unfold PIPE_BUF, PGSIZE. destruct (Z.leb_spec (sum_length iovecs) 4096).
    + destruct page; [|done]. unfold call_ok, writer_ok. cbn -[sum_length]. split_and!; try done; [by constructor..|by left].
    + destruct iovecs as [|v iovecs]; [done|]. apply Forall_cons in Hs as [Hv Hs]. apply Forall_cons in HB as [HBv HB]. cbn [sum_length foldr] in *. fold (sum_length iovecs) in *.
      unfold call_ok, writer_ok. cbn -[sum_length]. split_and!; try done. right. lia.
Qed.

Lemma interrupt_ok p u ro wo g c c' : call_ok p u ro wo g c -> interrupt c = Some c' -> call_ok p u ro wo g c' /\ claims c = false /\ claims c' = false.
Proof.
  destruct c as [| | | | | | | |w staging total result|]; try done; cbn [interrupt]; intros HC [= <-].
  - destruct HC as (_ & -> & _). cbn. split; [|done]. split; unfold VFS_ERR_INTR; lia.
  - destruct HC as (HW & [HA _] & _). split_and!; [|done|apply claims_staged_return]. apply (staged_return_ok _ _ _ _ _ _ _ _ _ HW HA).
    unfold truth. destruct (Z.eqb_spec total 0); cbn; [by right|by left].
Qed.

(** Closing an end that no call uses. *)
Definition end_flags (rd : bool) : Z := if rd then VFS_OPEN_READ else VFS_OPEN_WRITE.
Definition uses (rd : bool) (c : call) : bool := if rd then reading c else writing c.

Lemma release_end p (rd ro wo : bool) : readers p = (if ro then 1 else 0) -> writers p = (if wo then 1 else 0) -> (if rd then ro else wo) = true ->
  pipe_release p (end_flags rd) = Ret (set_ends p (if ro && negb rd then 1 else 0) (if wo && rd then 1 else 0), negb rd, rd, negb (ro && negb rd || wo && rd)).
Proof.
  intros E1 E2 Ho. unfold pipe_release. destruct rd; cbn [end_flags].
  - change (truth (Z.land VFS_OPEN_READ VFS_OPEN_READ)) with true. change (truth (Z.land VFS_OPEN_READ VFS_OPEN_WRITE)) with false.
    subst ro. rewrite E1. cbn. rewrite E2. unfold set_ends. cbn. by destruct wo.
  - change (truth (Z.land VFS_OPEN_WRITE VFS_OPEN_READ)) with false. change (truth (Z.land VFS_OPEN_WRITE VFS_OPEN_WRITE)) with true.
    subst wo. cbn [mbind outcome_bind]. rewrite E2. cbn. rewrite E1. unfold set_ends. cbn. by destruct ro.
Qed.

Lemma unused_wake (rd : bool) c : uses rd c = false -> asleep (wake (negb rd) rd c) = false.
Proof. by destruct rd, c. Qed.

Lemma close_end s (rd : bool) tr : inv tr s -> (if rd then s_read_open s else s_write_open s) = true ->
  (forall t c, s_calls s !! t = Some c -> uses rd c = false) ->
  exists s', close s (end_flags rd) = Ret s' /\ inv (Silent :: tr) s'.
Proof.
  intros [HR [E1 E2] HC HB HA HH HS] Ho Hno. unfold close. rewrite (release_end _ rd _ _ E1 E2 Ho). cbn [mbind outcome_bind].
  assert (Hcalls : forall t c, (wake (negb rd) rd <$> s_calls s) !! t = Some c -> exists c0, s_calls s !! t = Some c0 /\ c = wake (negb rd) rd c0).
  { intros t c Hc. rewrite lookup_fmap in Hc. apply fmap_Some in Hc as (c0 & ? & ->). eauto. }
  assert (Hex : existsb (fun x => asleep x.2) (map_to_list (wake (negb rd) rd <$> s_calls s)) = false).
  { apply not_true_iff_false. intros Hx. apply existsb_exists in Hx as ([t c] & Hin & Hsl). apply list_elem_of_In, elem_of_map_to_list in Hin.
    apply Hcalls in Hin as (c0 & Hc0 & ->). cbn in Hsl. by rewrite (unused_wake rd c0 (Hno t c0 Hc0)) in Hsl. }
  rewrite Hex, andb_false_r. eexists. split; [done|].
  replace (negb (truth (Z.land (end_flags rd) VFS_OPEN_READ))) with (negb rd) by (by destruct rd).
  replace (negb (truth (Z.land (end_flags rd) VFS_OPEN_WRITE))) with rd by (by destruct rd).
  split; cbn; try done.
  - by destruct HR.
  - intros t c (c0 & Hc0 & ->)%Hcalls. specialize (HC t c0 Hc0). specialize (Hno t c0 Hc0).
    destruct c0, rd; try done; cbn in *; rewrite ?andb_true_r, ?andb_false_r; naive_solver.
  - intros t c (c0 & Hc0 & ->)%Hcalls. rewrite claims_wake. eauto.
  - intros t c t' c' (c0 & Hc0 & ->)%Hcalls (c0' & Hc0' & ->)%Hcalls. rewrite !claims_wake. eauto.
  - intros Hb. destruct (HH Hb) as (t & c & Hc & Hcl). exists t, (wake (negb rd) rd c). by rewrite lookup_fmap, Hc, claims_wake.
Qed.

(** With both ends closed no call is in progress. *)
Lemma closed_idle tr s t c : inv tr s -> s_read_open s = false -> s_write_open s = false -> s_calls s !! t = Some c -> exists r, c = Finished r.
Proof.
  intros HI E1 E2 Hc. pose proof (i_calls _ _ HI t c Hc) as HC. rewrite E1, E2 in HC.
  destruct c; cbn in HC; unfold reader_ok, writer_ok in HC; naive_solver.
Qed.

(** ** The invariant holds *)

Lemma inv_new page u : length page = 4096%nat -> inv [] (MkSystem (new_pipe page) u ∅ true true).
Proof. intros Hl. by split; cbn. Qed.

Lemma inv_run tr s t c page T : inv tr s -> s_calls s !! t = Some c -> advance page c (s_pipe s) (s_mem s) = Ret T ->
  inv (Ran t (t_wrote T) (t_moved T) :: tr)
    (MkSystem (t_pipe T) (t_mem T) (wake (t_wake_readers T) (t_wake_writers T) <$> <[t := t_call T]> (s_calls s)) (s_read_open s) (s_write_open s)).
Proof.
  intros HI Hc HT. pose proof HI as [HR [E1 E2] HC HB HA HH HS].
  destruct (advance_ok page (s_pipe s) (s_mem s) (s_read_open s) (s_write_open s) (progress t tr) c HR E2 (HB t c Hc) (HC t c Hc)) as (T' & ET & HOK).
  { destruct c; try done. }
  { intros r ->. done. }
  rewrite HT in ET. injection ET as <-. set (w := wake (t_wake_readers T) (t_wake_writers T)).
  assert (Hcalls : forall t' c', (w <$> <[t := t_call T]> (s_calls s)) !! t' = Some c' ->
    t' = t /\ c' = w (t_call T) \/ t' <> t /\ exists c0, s_calls s !! t' = Some c0 /\ c' = w c0).
  { intros t' c'. rewrite lookup_fmap. destruct (decide (t' = t)) as [->|Hne].
    - rewrite lookup_insert_eq. cbn. intros [= <-]. by left.
    - rewrite lookup_insert_ne by done. intros (c0 & ? & ->)%fmap_Some. right. eauto. }
  assert (Hnew : forall t' c0, t' <> t -> s_calls s !! t' = Some c0 -> claims c0 = true -> claims c = false /\ claims (t_call T) = false).
  { intros t' c0 Hne Hc0 Hcl. assert (Hcc : claims c = false). { destruct (claims c) eqn:E; [|done]. exfalso. apply Hne. eapply HA; eauto. }
    split; [done|]. destruct (claims (t_call T)) eqn:E; [|done]. destruct (to_claim _ _ _ _ _ _ _ HOK E) as [?|Hb]; [congruence|]. by rewrite (HB t' c0 Hc0 Hcl) in Hb. }
  split; cbn [s_pipe s_mem s_calls s_read_open s_write_open].
  - apply HOK.
  - destruct (to_ends _ _ _ _ _ _ _ HOK) as [-> ->]. done.
  - intros t' c' [[-> ->]|(Hne & c0 & Hc0 & ->)]%Hcalls; cbn [progress].
    + rewrite decide_True by done. apply wake_ok, HOK.
    + rewrite decide_False by done. eapply others_ok; [done|by apply HC|]. intros Hcl. by apply (Hnew t' c0).
  - intros t' c' [[-> ->]|(Hne & c0 & Hc0 & ->)]%Hcalls; unfold w; rewrite claims_wake; intros Hcl; rewrite (to_busy _ _ _ _ _ _ _ HOK).
    + by rewrite Hcl.
    + destruct (Hnew t' c0 Hne Hc0 Hcl) as [-> ->]. by rewrite (HB t' c0 Hc0 Hcl).
  - intros t1 c1 t2 c2 [[-> ->]|(Hne1 & c01 & Hc01 & ->)]%Hcalls [[-> ->]|(Hne2 & c02 & Hc02 & ->)]%Hcalls; unfold w; rewrite !claims_wake; intros H1 H2; [done|..].
    + destruct (Hnew t2 c02 Hne2 Hc02 H2) as [_ ?]. congruence.
    + destruct (Hnew t1 c01 Hne1 Hc01 H1) as [_ ?]. congruence.
    + eauto.
  - rewrite (to_busy _ _ _ _ _ _ _ HOK). destruct (claims (t_call T)) eqn:E; cbn [orb].
    + intros _. exists t, (w (t_call T)). by rewrite lookup_fmap, lookup_insert_eq; unfold w; rewrite claims_wake.
    + intros [Hb Hcl]%andb_prop. destruct (HH Hb) as (t' & c' & Hc' & Hcl'). assert (t' <> t) as Hne. { intros ->. rewrite Hc in Hc'. injection Hc' as <-. by rewrite Hcl' in Hcl. }
      exists t', (w c'). rewrite lookup_fmap, lookup_insert_ne, Hc' by done. unfold w. by rewrite claims_wake.
  - cbn. pose proof (to_stream _ _ _ _ _ _ _ HOK) as Hst. rewrite HS, <-!app_assoc, Hst. done.
Qed.

(** Changes of the calls in progress alone. *)
Lemma inv_calls tr s e m : inv tr s -> written (e :: tr) = written tr -> delivered (e :: tr) = delivered tr ->
  (forall t c, m !! t = Some c -> s_calls s !! t = Some c /\ progress t (e :: tr) = progress t tr \/
     claims c = false /\ call_ok (s_pipe s) (s_mem s) (s_read_open s) (s_write_open s) (progress t (e :: tr)) c) ->
  (forall t c, s_calls s !! t = Some c -> claims c = true -> m !! t = Some c) ->
  inv (e :: tr) (MkSystem (s_pipe s) (s_mem s) m (s_read_open s) (s_write_open s)).
Proof.
  intros [HR HE HC HB HA HH HS] Hw Hd Hm Hcl. split; cbn [s_pipe s_mem s_calls s_read_open s_write_open]; try done.
  - intros t c Hc. destruct (Hm t c Hc) as [[Ho Hp]|[_ H]]; [rewrite Hp; by apply HC|done].
  - intros t c Hc Hcc. destruct (Hm t c Hc) as [[Ho _]|[H _]]; [eauto|congruence].
  - intros t c t' c' Hc Hc' H1 H2. destruct (Hm t c Hc) as [[Ho _]|[H _]]; [|congruence]. destruct (Hm t' c' Hc') as [[Ho' _]|[H _]]; [eauto|congruence].
  - intros Hb. destruct (HH Hb) as (t & c & Hc & Hcc). eauto.
  - by rewrite Hw, Hd.
Qed.

Lemma inv_step tr s e s' : inv tr s -> step s e s' -> inv (e :: tr) s'.
Proof.
  intros HI Hst. destruct Hst as [t r Hn HR|t c page T Hc HT|t c c' Hc Hi|t c Hc Hl|s' Ho Hno E|s' Ho Hno E|u HK].
  - apply inv_calls; try done.
    + intros t' c'. destruct (decide (t = t')) as [<-|Hne].
      * rewrite lookup_insert_eq. intros [= <-]. right. destruct (begin_ok tr s r HI HR) as [? ?]. cbn [progress]. by rewrite decide_True.
      * rewrite lookup_insert_ne by done. left. cbn [progress]. by rewrite decide_False.
    + intros t' c' Hc'. destruct (decide (t = t')) as [<-|]; [congruence|]. by rewrite lookup_insert_ne.
  - by eapply inv_run.
  - destruct (interrupt_ok _ _ _ _ _ _ _ (i_calls _ _ HI t c Hc) Hi) as (Hok & Hcl & Hcl'). apply inv_calls; try done.
    + intros t' c0. destruct (decide (t = t')) as [<-|]; [rewrite lookup_insert_eq; intros [= <-]; by right|rewrite lookup_insert_ne by done; by left].
    + intros t' c0 Hc0 Hx. destruct (decide (t = t')) as [<-|]; [congruence|]. by rewrite lookup_insert_ne.
  - apply inv_calls; try done.
    + intros t' c0 [_ ?]%lookup_delete_Some. by left.
    + intros t' c0 Hc0 Hx. rewrite lookup_delete_ne; [done|]. intros ->. rewrite Hc in Hc0. injection Hc0 as <-. destruct Hl as [Hl|[r ->]]; [|done]. by destruct c.
  - destruct (close_end s true tr HI Ho Hno) as (s1 & E1 & HI1). cbn in E1. congruence.
  - destruct (close_end s false tr HI Ho Hno) as (s1 & E1 & HI1). cbn in E1. congruence.
  - destruct HI as [HR HE HC HB HA HH HS]. split; cbn; try done. intros t c Hc. by eapply call_kept; [apply HC|].
Qed.

Lemma inv_exec tr s : exec tr s -> inv tr s.
Proof. induction 1; [by apply inv_new|by eapply inv_step]. Qed.
End preservation.

(** ** Properties *)

Section properties.
  Context {U : Type} {UM : UserMemory U} {UL : UserMemoryLaws U}.
  Implicit Types (s : system U).

(** A call that is neither asleep nor over. *)
Definition runnable (c : call) : Prop := asleep c = false /\ forall r, c <> Finished r.

(** C1: a pipe is a queue: in every execution, whatever calls run side by side, sleep, fail or are interrupted, the bytes
    handed to readers followed by those still in the pipe are the bytes written, in order, and never more than the
    capacity wait in the pipe. *)
Theorem pipe_fifo tr s : exec tr s -> written tr = delivered tr ++ contents (s_pipe s) /\ Z.of_nat (length (contents (s_pipe s))) <= PIPE_CAPACITY.
Proof.
  intros HI%inv_exec. split; [apply HI|]. rewrite length_contents by apply HI. apply (ring_used _ (i_ring _ _ HI)).
Qed.

(** No call on a pipe faults or panics: every call that is not asleep runs to its next point, an end that no call uses
    can be closed, and when both ends are closed no call is left. *)
Theorem pipe_calls_safe tr s : exec tr s ->
  (forall t c page, s_calls s !! t = Some c -> runnable c -> exists T, advance page c (s_pipe s) (s_mem s) = Ret T) /\
  (forall rd : bool, (if rd then s_read_open s else s_write_open s) = true -> (forall t c, s_calls s !! t = Some c -> uses rd c = false) ->
     exists s', close s (end_flags rd) = Ret s') /\
  (s_read_open s = false -> s_write_open s = false -> forall t c, s_calls s !! t = Some c -> exists r, c = Finished r).
Proof.
  intros HI%inv_exec. split_and!.
  - intros t c page Hc [Ha Hf].
    destruct (advance_ok page _ _ _ _ _ c (i_ring _ _ HI) (proj2 (i_ends _ _ HI)) (i_busy _ _ HI t c Hc) (i_calls _ _ HI t c Hc) Ha Hf) as (T & E & _). by exists T.
  - intros rd Ho Hno. destruct (close_end s rd tr HI Ho Hno) as (s' & E & _). eauto.
  - intros E1 E2 t c Hc. by eapply closed_idle.
Qed.

(** C17: no wake-up is lost: whoever sleeps would go back to sleep if it looked again, since a reader finds the pipe claimed
    or empty and a writer finds no room.  When a reader and a writer sleep, a third call is at work and can run. *)
Theorem pipe_no_lost_wakeup tr s : exec tr s ->
  (forall t r, s_calls s !! t = Some (ReadAsleep r) -> read_head (s_pipe s) r = ReadSleep) /\
  (forall t w staging total result, s_calls s !! t = Some (WriteAsleep w staging total result) ->
     pipe_write_staged (s_pipe s) (wr_nonblock w) staging (Z.of_nat (length staging)) (wr_atomic w) total result =
     Ret (s_pipe s, WriteSleep total result, [])) /\
  (forall t r t' w staging total result, s_calls s !! t = Some (ReadAsleep r) -> s_calls s !! t' = Some (WriteAsleep w staging total result) ->
     exists t'' c, s_calls s !! t'' = Some c /\ runnable c).
Proof.
  intros HI%inv_exec. pose proof (i_ring _ _ HI) as HR. split_and!.
  - intros t r Hc. destruct (i_calls _ _ HI t _ Hc) as (_ & _ & Hnb & Hw). unfold read_head, truth. rewrite Hnb.
    destruct Hw as [-> |[-> Hw]]; [by rewrite orb_true_r, !andb_false_r|]. cbn. by rewrite (proj2 (Z.eqb_neq _ _) Hw).
  - intros t w staging total result Hc. destruct (i_calls _ _ HI t _ Hc) as (_ & [(Ht & Hl & _) [-> _]] & Hnb & Hr & Hb & Hlt).
    unfold pipe_write_staged. cbn [write_staged_loop]. rewrite (proj2 (Z.ltb_lt _ _) Hlt). unfold truth at 1. rewrite (proj2 (Z.eqb_neq _ _) Hr). cbn [negb].
    by rewrite (proj2 (blocked_test _ _ _ HR) Hb), Hnb.
  - intros t r t' w staging total result Hc Hc'. destruct (i_calls _ _ HI t _ Hc) as (_ & _ & _ & Hw).
    destruct (i_calls _ _ HI t' _ Hc') as (_ & [(Ht & Hl & _) _] & _ & _ & Hb & _). destruct Hw as [Hbusy|[Hz _]].
    + destruct (i_held _ _ HI Hbusy) as (t0 & c & Hc0 & Hcl). exists t0, c. split; [done|]. by destruct c.
    + exfalso. destruct Hb as [[_ ?]|?]; lia.
Qed.

(** Results count bytes: a call that has finished with a result that is not negative has moved that many bytes, one
    that failed has moved none.  A write of at most [PIPE_BUF] bytes goes into the pipe in one piece or not at all. *)
Theorem pipe_results tr s : exec tr s ->
  (forall t r, s_calls s !! t = Some (Finished r) -> progress t tr = Z.max 0 r) /\
  (forall t w staging total result page T, s_calls s !! t = Some (WriteLoop w staging total result) -> wr_atomic w = true ->
     advance page (WriteLoop w staging total result) (s_pipe s) (s_mem s) = Ret T -> t_wrote T = [] \/ t_wrote T = staging).
Proof.
  intros HI%inv_exec. split.
  - intros t r Hc. destruct (i_calls _ _ HI t _ Hc) as [H1 H2]. destruct (Z.le_gt_cases 0 r); [rewrite H1|rewrite H2]; lia.
  - intros t w staging total result page T Hc Ha. destruct (i_calls _ _ HI t _ Hc) as (_ & [(Ht & Hl & _) [-> Hat]]). cbn [advance].
    destruct (pipe_write_staged_ok (s_pipe s) (wr_nonblock w) staging (wr_atomic w) total (i_ring _ _ HI) Ht ltac:(lia)) as (p' & t' & bytes & -> & _ & _ & _ & _ & Hall & _).
    specialize (Hall Ha (Hat Ha)). cbn [mbind outcome_bind]. destruct t'; intros [= <-]; done.
Qed.

(** A reader that has claimed [a] bytes gets the next [a] bytes of the pipe: they go to its buffers in order, each filled
    before the next is used, in pieces whose copies all succeed; after a fault it keeps what was copied before, and the
    rest stays in the pipe. *)
Theorem pipe_read_correct tr s t r a e page : exec tr s -> s_calls s !! t = Some (ReadCopy r a e) ->
  exists T result, advance page (ReadCopy r a e) (s_pipe s) (s_mem s) = Ret T /\ t_call T = Finished result /\
    contents (s_pipe s) = data (t_moved T) ++ contents (t_pipe T) /\ placed (rd_iovecs r) (t_moved T) /\
    (exists u, handed (rd_process r) (s_mem s) (rd_user r) (t_moved T) u /\ (result = a -> t_mem T = u)) /\
    (result = a /\ data (t_moved T) = take (Z.to_nat a) (contents (s_pipe s)) \/
     result = VFS_ERR_FAULT /\ data (t_moved T) = [] \/ 0 < result < a /\ Z.of_nat (length (data (t_moved T))) = result).
Proof.
  intros HI%inv_exec Hc. destruct (i_calls _ _ HI t _ Hc) as (HO & _ & Ha & Har & He). pose proof HO as (_ & HM & Hs & HB & Hsum & Hq).
  pose proof (i_ring _ _ HI) as HR. cbn [advance]. unfold read_finish. destruct He as [-> | ->].
  - destruct (read_iovecs_ok (rd_process r) (rd_user r) (rd_iovecs r) Hs HB ltac:(lia) (s_pipe s) (s_mem s) a 0 VFS_OK [] HR ltac:(lia) ltac:(lia) ltac:(lia) ltac:(lia) eq_refl HM)
      as (p' & u' & n & e' & moved & Er & HR' & _ & HC & Hl & HP & K & (u1 & Hh & Hu1) & Hend).
    change (if VFS_OK <? 0 then _ else _) with (read_iovecs (rd_process r) (s_pipe s) (s_mem s) (rd_user r) (rd_iovecs r) a 0 VFS_OK []). rewrite Er.
    cbn [mbind outcome_bind]. do 2 eexists. split; [done|]. split; [done|]. cbn [t_moved t_pipe t_mem app]. rewrite Z.add_0_l, Z.sub_0_r in *. unfold truth.
    split; [by rewrite contents_busy|]. split; [done|]. destruct Hend as [[-> ->]|[-> Hn]].
    + rewrite (proj2 (Z.eqb_neq a 0)) by lia. cbn [negb]. split; [exists u1; auto|]. left. split; [done|]. rewrite HC, take_app_le by lia.
      rewrite take_ge by lia. done.
    + split; [exists u1; split; [done|]; destruct (Z.eqb_spec n 0); cbn [negb]; unfold VFS_ERR_FAULT; lia|]. right. destruct (Z.eqb_spec n 0) as [->|]; cbn [negb].
      * left. split; [done|]. by apply length_zero_iff_nil, Nat2Z.inj.
      * right. lia.
  - do 2 eexists. split; [done|]. split; [done|]. cbn. split; [done|]. split; [by apply placed_nil|]. split; [exists (s_mem s); done|]. right. left. done.
Qed.
End properties.
