(* ===== verification/PipeExample.v ===== *)
(** * Pipes: the properties at work

    A flat memory that implements the interface of pipes, and executions over it. *)
From S2P Require Import Prelude Vma Vm VmSpace VmMap VmAlloc VmAccess VmCopy Pipe PipeRing PipeSteps PipeTheorems.

(** ** A memory without page tables *)

Fixpoint flat_store (u : gmap Z Z) (a : Z) (bs : list Z) : gmap Z Z :=
  match bs with [] => u | b :: bs => flat_store (<[a := b]> u) (a + 1) bs end.
Definition flat_load (u : gmap Z Z) (a n : Z) : list Z := (fun x => default 0 (u !! x)) <$> seqZ a n.

#[export] Instance flat_memory : UserMemory (gmap Z Z) := {
  um_copyout_nofault u _ a bs := Ret (0, flat_store u a bs);
  um_copyin u _ a n := Ret (0, u, flat_load u a n);
  um_prefault_write u _ _ _ := Ret (0, u);
  um_store := flat_store;
  um_load := flat_load
}.

Lemma length_flat_load u a n : 0 <= n -> Z.of_nat (length (flat_load u a n)) = n.
Proof. intros. unfold flat_load. rewrite length_fmap, length_seqZ. lia. Qed.

#[export] Program Instance flat_memory_laws : UserMemoryLaws (gmap Z Z) := { um_ok _ _ := True; um_range a _ := is_u64 a }.
Next Obligation. done. Qed.
Next Obligation. intros. apply wrap64_range. Qed.
Next Obligation. intros. do 2 eexists. done. Qed.
Next Obligation. intros. do 3 eexists. split_and!; [done|done|]. intros _. by apply length_flat_load. Qed.
Next Obligation. intros. do 2 eexists. done. Qed.
Next Obligation. done. Qed.
Next Obligation. intros. by apply length_flat_load. Qed.

(** ** Executions *)

Inductive act := Start (t : nat) (r : request) | Go (t : nat).
Definition act_ok (a : act) : Prop :=
  match a with
  | Start _ (ReadRequest process _ iovecs _) | Start _ (WritevRequest _ process _ iovecs _) =>
      is_Some process /\ Forall (fun v => 0 <= iov_length v /\ is_u64 (iov_base v)) iovecs
  | Start _ (WriteRequest process _ source count _) => is_Some process /\ 0 <= count /\ is_u64 source
  | Go _ => True
  end.

Definition perform (x : list event * system (gmap Z Z)) (a : act) : list event * system (gmap Z Z) :=
  let s := x.2 in
  match a with
  | Start t r => (Started t :: x.1, MkSystem (s_pipe s) (s_mem s) (<[t := begin r]> (s_calls s)) (s_read_open s) (s_write_open s))
  | Go t =>
      match s_calls s !! t with
      | Some c =>
          match advance true c (s_pipe s) (s_mem s) with
          | Ret T => (Ran t (t_wrote T) (t_moved T) :: x.1,
              MkSystem (t_pipe T) (t_mem T) (wake (t_wake_readers T) (t_wake_writers T) <$> <[t := t_call T]> (s_calls s)) (s_read_open s) (s_write_open s))
          | _ => x
          end
      | None => x
      end
  end.
Definition may (x : list event * system (gmap Z Z)) (a : act) : bool :=
  match a with Start t _ => bool_decide (s_calls x.2 !! t = None) && s_read_open x.2 && s_write_open x.2 | Go _ => true end.
Fixpoint may_all (x : list event * system (gmap Z Z)) (l : list act) : bool :=
  match l with [] => true | a :: l => may x a && may_all (perform x a) l end.

Lemma perform_exec x a : exec x.1 x.2 -> act_ok a -> may x a = true -> exec (perform x a).1 (perform x a).2.
Proof.
  intros HE Ha Hm. destruct a as [t r|t]; cbn in *.
  - apply andb_prop in Hm as [[Hn Hr]%andb_prop Hw]. apply bool_decide_eq_true in Hn. eapply exec_step; [done|]. apply step_start; [done|].
    destruct r; cbn in *; unfold buffer_ok, memory_ok; [destruct Ha as [[pg ->] Hf]..|destruct Ha as [[pg ->] Hf]]; cbn; split_and!; eauto;
      try (by eapply Forall_impl; [exact Hf|]; intros v [? ?]); try (by eapply Forall_impl; [exact Hf|]; intros v [? ?] ?); naive_solver.
  - destruct (s_calls x.2 !! t) as [c|] eqn:Hc; [|done]. destruct (advance true c _ _) as [T| |] eqn:ET; cbn; [|done..].
    eapply exec_step; [done|]. by eapply step_run.
Qed.

Lemma performed l : forall x, exec x.1 x.2 -> Forall act_ok l -> may_all x l = true -> exec (foldl perform x l).1 (foldl perform x l).2.
Proof.
  induction l as [|a l IH]; intros x HE Hl Hm; cbn in *; [done|]. apply Forall_cons in Hl as [Ha Hl]. apply andb_prop in Hm as [Hm1 Hm2].
  apply IH; [by apply perform_exec|done|done].
Qed.

Definition fresh_page : list Z := replicate 4096 0.
Definition start : list event * system (gmap Z Z) := ([], MkSystem (new_pipe fresh_page) {[0x1000 := 104; 0x1001 := 105]} ∅ true true).
Lemma start_exec : exec start.1 start.2.
Proof. apply exec_new. apply length_replicate. Qed.

(** Thread 1 writes two bytes, thread 2 reads one of them, thread 3 sleeps on another pipe that nobody has written. *)
Definition transfer : list act :=
  [Start 1 (WriteRequest (Some 0) true 0x1000 2 0); Go 1; Go 1; Go 1; Go 1; Start 2 (ReadRequest (Some 0) true [MkIovec 0x2000 1] 0); Go 2; Go 2].
Definition delivery : list act := transfer ++ [Go 2].
Definition wait : list act := [Start 3 (ReadRequest (Some 0) true [MkIovec 0x2000 1] 0); Go 3].

Lemma transfer_exec : exec (foldl perform start transfer).1 (foldl perform start transfer).2.
Proof. apply performed; [apply start_exec|repeat constructor; cbn; try done; by eexists|vm_compute; reflexivity]. Qed.
Lemma delivery_exec : exec (foldl perform start delivery).1 (foldl perform start delivery).2.
Proof. apply performed; [apply start_exec|repeat constructor; cbn; try done; by eexists|vm_compute; reflexivity]. Qed.
Lemma wait_exec : exec (foldl perform start wait).1 (foldl perform start wait).2.
Proof. apply performed; [apply start_exec|repeat constructor; cbn; try done; by eexists|vm_compute; reflexivity]. Qed.

Lemma pipe_fifo_witness : let x := foldl perform start delivery in
  written x.1 = delivered x.1 ++ contents (s_pipe x.2) /\ written x.1 = [104; 105] /\ delivered x.1 = [104].
Proof. split; [exact (proj1 (pipe_fifo _ _ delivery_exec))|]. split; vm_compute; reflexivity. Defined.

(** The reader about to copy. *)
Definition copier : call := ReadCopy (MkReader (Some 0) true [MkIovec 0x2000 1] false 1) 1 0.
Lemma copier_here : s_calls (foldl perform start transfer).2 !! 2%nat = Some copier.
Proof. vm_compute. reflexivity. Qed.

Lemma pipe_calls_safe_witness : exists T, let s := (foldl perform start transfer).2 in
  s_calls s !! 2%nat = Some copier /\ advance true copier (s_pipe s) (s_mem s) = Ret T.
Proof.
  destruct (proj1 (pipe_calls_safe _ _ transfer_exec) 2%nat copier true copier_here) as [T HT]; [split; [reflexivity|intros r Hr; discriminate Hr]|].
  exists T. exact (conj copier_here HT).
Defined.

Lemma pipe_no_lost_wakeup_witness : exists r, let s := (foldl perform start wait).2 in
  s_calls s !! 3%nat = Some (ReadAsleep r) /\ read_head (s_pipe s) r = ReadSleep.
Proof.
  exists (MkReader (Some 0) true [MkIovec 0x2000 1] false 1).
  assert (Hc : s_calls (foldl perform start wait).2 !! 3%nat = Some (ReadAsleep (MkReader (Some 0) true [MkIovec 0x2000 1] false 1))) by (vm_compute; reflexivity).
  split; [exact Hc|]. exact (proj1 (pipe_no_lost_wakeup _ _ wait_exec) 3%nat _ Hc).
Defined.

Lemma pipe_results_witness : let x := foldl perform start delivery in s_calls x.2 !! 1%nat = Some (Finished 2) /\ progress 1 x.1 = 2.
Proof.
  assert (Hc : s_calls (foldl perform start delivery).2 !! 1%nat = Some (Finished 2)) by (vm_compute; reflexivity).
  split; [exact Hc|]. exact (proj1 (pipe_results _ _ delivery_exec) 1%nat 2 Hc).
Defined.

Lemma pipe_read_witness : exists T, let s := (foldl perform start transfer).2 in
  s_calls s !! 2%nat = Some copier /\ advance true copier (s_pipe s) (s_mem s) = Ret T /\
  contents (s_pipe s) = data (t_moved T) ++ contents (t_pipe T).
Proof.
  destruct (pipe_read_correct _ _ _ _ _ _ true transfer_exec copier_here) as (T & r & E & _ & HC & _). exists T. exact (conj copier_here (conj E HC)).
Defined.

(** * Pipes: user memory

    The copy routines of arch/riscv/vm.c implement the interface of pipes for
    the address space of a process whose missing pages cannot be supplied. *)

Section memory.
  Context {St : Type} {FS : Frames St} {FL : FramesLaws St}.
  Implicit Types (V : vm St) (D : gmap (list nat) Z) (M : gmap Z Z).

(** [mmap_handle_fault] where no area supplies pages. *)
Definition unresolved V (pgdir va : Z) (write : bool) : outcome (vm St * bool) := Ret (V, false).

Lemma pinned_unresolved tries V pgdir D M o va perm : aspace V pgdir D M o -> 0 <= va -> va mod PGSIZE = 0 -> Z.land AD perm = 0 ->
  translate M perm va = None -> user_copy_va2pa_pinned unresolved (S tries) V pgdir va perm true = Ret (V, 0, 0).
Proof.
  intros HA Hva Ha HP Ht. cbn [user_copy_va2pa_pinned]. destruct (Z.le_gt_cases MAXVA va) as [Hge|Hlt].
  - unfold user_va2pa. by rewrite (proj2 (Z.leb_le MAXVA va)).
  - pose proof (user_va2pa_ok V pgdir D M o va perm HA (conj (conj Hva Hlt) Ha) HP) as H1. rewrite Ht in H1. by rewrite H1.
Qed.

(** A page that is pinned and released. *)
Lemma page_below va : 0 <= va -> va < USER_SIGRETURN -> 0 <= PGROUNDDOWN va < USER_SIGRETURN /\ PGROUNDDOWN va mod PGSIZE = 0 /\ PGROUNDDOWN va <= va < PGROUNDDOWN va + PGSIZE.
Proof. intros H0 H1. rewrite PGROUNDDOWN_mod. unfold PGSIZE, USER_SIGRETURN in *. Z.div_mod_to_equations. lia. Qed.

Lemma copyin_returns fuel tries : forall V pgdir D M o va len dst, aspace V pgdir D M o -> unsaturated D M o -> 0 <= va -> 0 <= len ->
  va + len <= USER_SIGRETURN -> (Z.to_nat len < fuel)%nat ->
  exists rc V' bs M', copyin_loop unresolved fuel (S tries) V pgdir va len dst = Ret (rc, V', dst ++ bs) /\ aspace V' pgdir D M' o /\ unsaturated D M' o /\
    (0 <= rc -> Z.of_nat (length bs) = len).
Proof.
  induction fuel as [|fuel IH]; intros V pgdir D M o va len dst HA Hun H0 Hl Hsig Hf; [lia|]. cbn [copyin_loop].
  destruct (Z.ltb_spec 0 len) as [Hpos|Hz]; cbn [negb]; cycle 1.
  { exists 0, V, [], M. rewrite app_nil_r. split_and!; try done. cbn. lia. }
  destruct (page_below va H0 ltac:(lia)) as (Hp & Hm & Hr). destruct (translate M PTE_R (PGROUNDDOWN va)) as [pa|] eqn:Ht.
  2:{ rewrite (pinned_unresolved tries V pgdir D M o) by (done || lia). exists (-1), V, [], M. rewrite app_nil_r. split_and!; try done. }
  destruct (read_round unresolved tries V pgdir D M o va pa true HA ltac:(lia) Hun Ht) as (V1 & V2 & M2 & E1 & HT & E2 & Eo & Hby & HA2 & HQ2 & Hb2 & Hmax).
  rewrite E1. cbn [mbind outcome_bind]. rewrite HT. cbn [negb]. rewrite E2. cbn [mbind outcome_bind].
  change MAXVA with (2 ^ 38) in Hmax. rewrite (wrap64_id (PGROUNDDOWN va + PGSIZE)) by (unfold is_u64, PGSIZE in *; lia).
  set (n := Z.min (PGSIZE - (va - PGROUNDDOWN va)) len). assert (Hn : 0 < n <= len /\ (n = len \/ va + n = PGROUNDDOWN va + PGSIZE)).
  { unfold n. lia. }
  set (got := bytes_at _ _ n). assert (Hg : Z.of_nat (length got) = n) by (unfold got, bytes_at; rewrite length_fmap, length_seqZ; lia).
  assert (Hun2 : unsaturated D M2 o) by (eapply unsaturated_touch; [apply HQ2|done]).
  destruct (decide (n = len)) as [->|Hne].
  - rewrite Z.sub_diag. destruct fuel as [|fuel]; [lia|]. cbn [copyin_loop]. exists 0, V2, got, M2. split_and!; try done.
  - destruct (IH V2 pgdir D M2 o (PGROUNDDOWN va + PGSIZE) (len - n) (dst ++ got) HA2 Hun2) as (rc & V' & bs & M' & -> & HA' & Hun' & Hlen); try lia.
    exists rc, V', (got ++ bs), M'. split; [by rewrite app_assoc|]. split_and!; try done. rewrite length_app. lia.
Qed.

Lemma prefault_returns tries addrs : forall V pgdir D M o, aspace V pgdir D M o -> unsaturated D M o ->
  Forall (fun page => 0 <= page < USER_SIGRETURN /\ page mod PGSIZE = 0) addrs ->
  exists rc V' M', prefault_pages unresolved addrs (S tries) V pgdir = Ret (rc, V') /\ aspace V' pgdir D M' o /\ unsaturated D M' o.
Proof.
  induction addrs as [|page addrs IH]; intros V pgdir D M o HA Hun Hall; [by exists 0, V, M|].
  apply Forall_cons in Hall as [[Hp Hm] Hall]. unfold prefault_pages. fold (prefault_pages (St := St)).
  destruct (translate M PTE_W page) as [pa|] eqn:Ht.
  2:{ rewrite (pinned_unresolved tries V pgdir D M o) by (done || lia). by exists (-1), V, M. }
  assert (Hv : page_va page). { split; [|done]. change MAXVA with (2 ^ 38). unfold USER_SIGRETURN in Hp. lia. }
  destruct (pinned_ok unresolved tries V pgdir D M o page PTE_W pa true HA Hv ltac:(lia) eq_refl Ht Hun) as (V1 & M1 & E1 & HA1 & HQ1 & Hb1 & Hr & Hpa & _).
  rewrite E1. cbn [mbind outcome_bind]. unfold truth. rewrite (proj2 (Z.eqb_neq pa 0)) by lia. cbn [negb].
  destruct (unpin_ok V1 pgdir D M1 o pa HA1 (as_others _ _ _ _ _ HA) Hr) as (V2 & -> & HA2 & _). cbn [mbind outcome_bind].
  apply (IH V2 pgdir D M1 o HA2); [|done]. eapply unsaturated_touch; [apply HQ1|done].
Qed.

(** ** The instance *)

(** The memory of the process with page table [root]: no count of references is at its maximum. *)
Definition process_memory (root : Z) V (pg : Z) : Prop := pg = root /\ exists D M o, aspace V root D M o /\ unsaturated D M o.

#[export] Instance vm_memory : UserMemory (vm St) := {
  um_copyout_nofault V pg a bs := copyout_nofault unresolved 1 V pg a bs;
  um_copyin V pg a n := copyin unresolved 1 V pg a n;
  um_prefault_write V pg a n := vm_prefault_user_write unresolved 1 V pg a n;
  um_store V a bs := with_frames V (fr_write (frames V) a bs);
  um_load V a n := bytes_at (frames V) a n
}.

#[export] Program Instance vm_memory_laws (root : Z) : UserMemoryLaws (vm St) := {
  um_ok := process_memory root;
  um_range a n := 0 <= a /\ 0 <= n /\ a + n <= USER_SIGRETURN
}.
Next Obligation. intros root a n (? & ? & ?). unfold is_u64, USER_SIGRETURN in *. lia. Qed.
Next Obligation. intros root a n i m (? & ? & ?) ? ? ?. rewrite wrap64_id by (unfold is_u64, USER_SIGRETURN in *; lia). lia. Qed.
Next Obligation.
  intros root V pg va bs [-> (D & M & o & HA & Hun)] (H0 & _ & H1). cbn. unfold copyout_nofault, copyout_internal.
  destruct (copyout_loop_ok unresolved (S (length bs)) 0 V root D M o va bs false HA H0 H1 Hun ltac:(lia)) as (V' & M' & E & HA' & HQ & _); [intros Hf; discriminate Hf|].
  do 2 eexists. split; [exact E|]. intros pg [-> _]. split; [done|]. exists D, M', o. split; [done|]. eapply unsaturated_touch; [apply HQ|exact Hun].
Qed.
Next Obligation.
  intros root V pg va n [-> (D & M & o & HA & Hun)] (H0 & _ & H1) Hn. cbn. unfold copyin.
  destruct (copyin_returns (S (Z.to_nat n)) 0 V root D M o va n [] HA Hun H0 Hn H1) as (rc & V' & bs & M' & E & HA' & Hun' & Hl); [lia|].
  exists rc, V', bs. split; [exact E|]. split; [|done]. intros pg [-> _]. split; [done|]. by exists D, M', o.
Qed.
Next Obligation.
  intros root V pg va n [-> (D & M & o & HA & Hun)] (H0 & _ & H1) Hn. cbn. unfold vm_prefault_user_write, truth.
  destruct (Z.eqb_spec n 0); cbn [negb]; [by exists 0, V|]. change MAXVA with (2 ^ 38). unfold USER_SIGRETURN in H1.
  rewrite (proj2 (Z.leb_gt _ _)), (proj2 (Z.ltb_ge _ _)) by lia. cbn [orb]. destruct (page_below va H0 ltac:(unfold USER_SIGRETURN; lia)) as (Hp & Hm & Hr).
  destruct (prefault_returns 0 (page_range (PGROUNDDOWN va) (va + n)) V root D M o HA Hun) as (rc & V' & M' & E & HA' & Hun').
  - apply Forall_forall. intros page [Hr' Hd]%elem_of_page_range. unfold USER_SIGRETURN, PGSIZE in *. split; [lia|]. Z.div_mod_to_equations. lia.
  - exists rc, V'. split; [exact E|]. intros pg [-> _]. split; [done|]. by exists D, M', o.
Qed.
Next Obligation.
  intros root V a bs pg [-> (D & M & o & HA & Hun)]. split; [done|]. exists D, M, o. split; [|done]. destruct HA as [HS HF HO]. split; [by eapply space_tables; [|exact HS]| |done].
  apply fr_write_ok, HF.
Qed.
Next Obligation. intros root V a n Hn. cbn. unfold bytes_at. rewrite length_fmap, length_seqZ. lia. Qed.
End memory.
