(* ===== verification/Dma.v ===== *)
(** * Memory for devices

    drivers/dma/mapping.c over the kernel page table of Vm: a buffer that is
    mapped is contiguous on the bus and inside the mask of the device.  The
    barriers have no effect here. *)
From S2P Require Import Prelude Vma Vm VmSpace VmMap.

Inductive dma_data_direction := DMA_BIDIRECTIONAL | DMA_TO_DEVICE | DMA_FROM_DEVICE.
#[export] Instance dma_data_direction_eq : EqDecision dma_data_direction.
Proof. solve_decision. Defined.

(** [mask] is the mask of the device, all ones without a device. *)
Definition dma_range_valid (mask address size : Z) : bool :=
  if negb (truth size) || (address +64 size -64 1 <? address) then false
  else (address <=? mask) && (size -64 1 <=? mask -64 address).

Section dma.
  Context {St : Type} {FS : Frames St}.
  Implicit Types (V : vm St).

(** The pointer and the bus address, when there is memory for the device. *)
Definition dma_alloc_coherent V (kernel_pgdir mask size : Z) : outcome (option (Z * Z) * vm St) :=
  if negb (truth size) || (PGSIZE <? size) then Ret (None, V) else
  '(cpu_address, s) ← fr_alloc (frames V) true;
  let V := with_frames V s in
  if negb (truth cpu_address) then Ret (None, V) else
  address ← kvm_va2pa V kernel_pgdir cpu_address;
  if negb (dma_range_valid mask address size) then V ← put_page V cpu_address; Ret (None, V)
  else Ret (Some (cpu_address, address), V).

Definition dma_free_coherent V (kernel_pgdir size cpu_address dma_address : Z) : outcome (vm St) :=
  if negb (truth cpu_address) || negb (truth size) || (PGSIZE <? size) then Panic "invalid coherent DMA free" else
  address ← kvm_va2pa V kernel_pgdir cpu_address;
  if negb (address =? dma_address) then Panic "invalid coherent DMA free" else put_page V cpu_address.

(** The loop over the pages from [page] to [end]: whether they are mapped one after the other. *)
Fixpoint map_pages (fuel : nat) V (kernel_pgdir page end_ previous : Z) : outcome bool :=
  match fuel with
  | O => Fault
  | S fuel =>
      physical ← kvm_va2pa V kernel_pgdir page;
      if negb (truth physical) || (truth previous && negb (physical =? previous +64 PGSIZE)) then Ret false else
      if page =? end_ then Ret true else map_pages fuel V kernel_pgdir (page +64 PGSIZE) end_ physical
  end.

(** The bus address, when mapping succeeds; every [dma_data_direction] is valid. *)
Definition dma_map_single V (kernel_pgdir mask cpu_address size : Z) (direction : dma_data_direction) : outcome (option Z) :=
  if negb (truth cpu_address) || negb (truth size) || (cpu_address +64 size -64 1 <? cpu_address) then Ret None else
  first ← kvm_va2pa V kernel_pgdir cpu_address;
  if negb (truth first) || negb (dma_range_valid mask first size) then Ret None else
  let page := PGROUNDDOWN cpu_address in
  let end_ := PGROUNDDOWN (cpu_address +64 size -64 1) in
  ok ← map_pages (S (Z.to_nat ((end_ - page) / PGSIZE))) V kernel_pgdir page end_ 0;
  Ret (if ok : bool then Some first else None).

(** ** Translation inside a page *)

Lemma PTEX_page level va vb : 0 <= va -> 0 <= vb -> va / 4096 = vb / 4096 -> PTEX level va = PTEX level vb.
Proof.
  intros Ha Hb E. rewrite !PTEX_eq by done. rewrite Z.pow_add_r, <-!Z.div_div by lia. change (2 ^ 12) with 4096. by rewrite E.
Qed.

Lemma walk_page level target V pgdir va vb : 0 <= va -> 0 <= vb -> va / 4096 = vb / 4096 ->
  walk_loop level target V pgdir va false = walk_loop level target V pgdir vb false.
Proof.
  intros Ha Hb E. revert V pgdir. induction level as [|l IH]; intros V pgdir; cbn [walk_loop]; rewrite ?(PTEX_page _ va vb) by done; [done|].
  case_match; [done|]. destruct (pte_load _ _); cbn; try done. case_match; [|done]. case_match; [done|by apply IH].
Qed.

(** The part of an address inside its leaf. *)
Lemma leaf_offset level va : 0 <= va -> Z.land (PGROUNDDOWN va) (sv39_level_size level - 1) mod 4096 = 0 /\
  Z.land va (sv39_level_size level - 1) = Z.land (PGROUNDDOWN va) (sv39_level_size level - 1) + va mod 4096.
Proof.
  intros Hv. rewrite PGROUNDDOWN_mod. unfold PGSIZE. assert (Hk : forall k x, 0 <= k -> Z.land x (2 ^ k - 1) = x mod 2 ^ k).
  { intros k x Hk. rewrite <-Z.land_ones by done. by rewrite Z.ones_equiv, <-Z.sub_1_r. }
  destruct level as [|[|[|l]]].
  - change (sv39_level_size 0) with (2 ^ 12). rewrite !Hk by lia. Z.div_mod_to_equations; lia.
  - change (sv39_level_size 1) with (2 ^ 21). rewrite !Hk by lia. Z.div_mod_to_equations; lia.
  - change (sv39_level_size 2) with (2 ^ 30). rewrite !Hk by lia. Z.div_mod_to_equations; lia.
  - change (sv39_level_size _ - 1) with (-1). rewrite !Z.land_m1_r. Z.div_mod_to_equations; lia.
Qed.

(** A page is translated byte for byte, to an aligned address, or not at all. *)
Lemma kvm_page V k va r : 0 <= va -> kvm_va2pa V k va = Ret r ->
  r = 0 /\ kvm_va2pa V k (PGROUNDDOWN va) = Ret 0 \/
  exists p, kvm_va2pa V k (PGROUNDDOWN va) = Ret p /\ r = p + va mod 4096 /\ 0 <= p /\ p mod 4096 = 0 /\ p + 4096 <= 2 ^ 64.
Proof.
  intros Hv E. pose proof (PGROUNDDOWN_mod va) as Hr. unfold PGSIZE in Hr. unfold kvm_va2pa in *.
  assert (EM : (MAXVA <=? PGROUNDDOWN va) = (MAXVA <=? va)).
  { rewrite Hr. change MAXVA with (2 ^ 38). destruct (Z.leb_spec (2 ^ 38) va); [apply Z.leb_le|apply Z.leb_gt]; Z.div_mod_to_equations; lia. }
  assert (Hd : va / 4096 = PGROUNDDOWN va / 4096 /\ 0 <= PGROUNDDOWN va) by (rewrite Hr; Z.div_mod_to_equations; lia). destruct Hd as [Hd H0].
  unfold vm_walk in *. rewrite EM. destruct (_ || _); [injection E as <-; by left|]. destruct (_ || _); [injection E as <-; by left|].
  rewrite <-(walk_page _ _ _ _ va (PGROUNDDOWN va)) by done. destruct (walk_loop _ _ _ _ va _) as [[V' [[p level]|]]| |]; cbn [mbind outcome_bind] in *; try done; [|injection E as <-; by left].
  destruct (pte_load V' p) as [pte| |]; cbn [mbind outcome_bind] in *; try done. destruct (_ || _); [injection E as <-; by left|]. injection E as <-. right.
  eexists. split; [done|]. destruct (leaf_offset level va Hv) as [Ho ->]. assert (Ha : PTE2PA pte mod 4096 = 0) by (apply PTE2PA_aligned).
  unfold wrap64 in *. set (x := PTE2PA pte) in *. set (y := Z.land _ _) in *. clearbody x y. Z.div_mod_to_equations; lia.
Qed.

(** ** Mapping *)

Section single.
  Context (V : vm St) (k : Z).
  (** The kernel page table can be walked. *)
  Context (Htotal : forall va, is_u64 va -> exists pa, kvm_va2pa V k va = Ret pa).

(** [n] more pages follow the page at [page] one after the other, from [p] on. *)
Fixpoint run (n : nat) (page p : Z) : Prop :=
  kvm_va2pa V k page = Ret p /\ p <> 0 /\ match n with O => True | S n => run n (page + 4096) (p +64 PGSIZE) end.

Lemma follows_test p previous : negb (truth p) || (truth previous && negb (p =? previous +64 PGSIZE)) = false <-> p <> 0 /\ (previous <> 0 -> p = previous +64 PGSIZE).
Proof.
  unfold truth. destruct (Z.eqb_spec p 0), (Z.eqb_spec previous 0), (Z.eqb_spec p (previous +64 PGSIZE)); cbn; intuition congruence.
Qed.

Lemma map_pages_S fuel page end_ previous : map_pages (S fuel) V k page end_ previous =
  (physical ← kvm_va2pa V k page;
   if negb (truth physical) || (truth previous && negb (physical =? previous +64 PGSIZE)) then Ret false else
   if page =? end_ then Ret true else map_pages fuel V k (page +64 PGSIZE) end_ physical).
Proof. done. Qed.

Lemma map_pages_ok n page previous : 0 <= page -> page + Z.of_nat n * 4096 < 2 ^ 64 ->
  exists b : bool, map_pages (S n) V k page (page + Z.of_nat n * 4096) previous = Ret b /\
    (b = true <-> exists p, run n page p /\ (previous <> 0 -> p = previous +64 PGSIZE)).
Proof.
  revert page previous. induction n as [|n IH]; intros page previous Hp He; (destruct (Htotal page) as [p Ep]; [unfold is_u64; lia|]);
    rewrite map_pages_S, Ep; cbn [mbind outcome_bind];
    (destruct (_ || _) eqn:E; [exists false; split; [done|]; split; [done|]; intros (p' & Hr & Hf); cbn [run] in Hr; destruct Hr as (E' & Hne & _); rewrite Ep in E'; injection E' as <-;
       rewrite (proj2 (follows_test p previous) (conj Hne Hf)) in E; discriminate|]); apply follows_test in E as [Hne Hf].
  - replace (page + Z.of_nat 0 * 4096) with page by lia. rewrite Z.eqb_refl. exists true. split; [done|]. split; [|done]. intros _. exists p. done.
  - rewrite (proj2 (Z.eqb_neq _ _)) by lia. assert (Ew : page +64 PGSIZE = page + 4096) by (apply wrap64_id; unfold is_u64, PGSIZE; lia). rewrite Ew.
    replace (page + Z.of_nat (S n) * 4096) with (page + 4096 + Z.of_nat n * 4096) by lia.
    destruct (IH (page + 4096) p) as (b & -> & Hb); [lia|lia|]. exists b. split; [done|]. rewrite Hb. cbn [run]. split.
    + intros (p' & Hr & Hp'). exists p. split; [|done]. split_and!; try done. by rewrite <-Hp'.
    + intros (p' & (E' & _ & Hr) & _). rewrite Ep in E'. injection E' as <-. by exists (p +64 PGSIZE).
Qed.

Lemma kvm_range va r : 0 <= va -> kvm_va2pa V k va = Ret r -> is_u64 r.
Proof.
  intros Hv E. destruct (kvm_page V k va r Hv E) as [[-> _]|(p & _ & -> & ? & ? & ?)]; unfold is_u64; [lia|]. Z.div_mod_to_equations; lia.
Qed.

(** Without wrapping around, a run is translated by adding. *)
Lemma run_ok n page p : is_u64 p -> p + Z.of_nat n * 4096 < 2 ^ 64 ->
  run n page p <-> p <> 0 /\ forall j, 0 <= j <= Z.of_nat n -> kvm_va2pa V k (page + j * 4096) = Ret (p + j * 4096).
Proof.
  revert page p. induction n as [|n IH]; intros page p Hp Hn; cbn [run].
  - split; [intros (E & Hne & _); split; [done|]; intros j Hj; replace j with 0 by lia; by rewrite !Z.mul_0_l, !Z.add_0_r|].
    intros [Hne H]. specialize (H 0 ltac:(lia)). by rewrite Z.mul_0_l, !Z.add_0_r in H.
  - unfold is_u64, PGSIZE in *. rewrite wrap64_id by (unfold is_u64; lia). rewrite IH by lia. split.
    + intros (E & Hne & _ & H). split; [done|]. intros j Hj. destruct (decide (j = 0)) as [->|?]; [by rewrite Z.mul_0_l, !Z.add_0_r|].
      specialize (H (j - 1) ltac:(lia)). replace (page + j * 4096) with (page + 4096 + (j - 1) * 4096) by lia. rewrite H. f_equal. lia.
    + intros (Hne & H). split; [|split; [done|split; [lia|]]].
      * specialize (H 0 ltac:(lia)). by rewrite Z.mul_0_l, !Z.add_0_r in H.
      * intros j Hj. specialize (H (j + 1) ltac:(lia)). replace (page + 4096 + j * 4096) with (page + (j + 1) * 4096) by lia. rewrite H. f_equal. lia.
Qed.

(** The bytes of a buffer are contiguous when its pages are. *)
Lemma bytes_pages cpu size bus : 0 <= cpu -> 0 < size -> cpu + size <= 2 ^ 64 ->
  (forall i, 0 <= i < size -> kvm_va2pa V k (cpu + i) = Ret (bus + i)) /\ 4096 <= bus <->
  exists p, p <> 0 /\ 0 <= p /\ bus = p + cpu mod 4096 /\
    forall j, 0 <= j <= (cpu + size - 1) / 4096 - cpu / 4096 -> kvm_va2pa V k (PGROUNDDOWN cpu + j * 4096) = Ret (p + j * 4096).
Proof.
  intros Hc Hs He. pose proof (PGROUNDDOWN_mod cpu) as Hr. unfold PGSIZE in Hr. split.
  - intros [H Hb]. pose proof (H 0 ltac:(lia)) as H0. rewrite !Z.add_0_r in H0. destruct (kvm_page V k cpu bus Hc H0) as [[? _]|(p & E & -> & ? & ? & ?)]; [lia|].
    exists p. split; [Z.div_mod_to_equations; lia|]. split_and!; [done|done|]. intros j Hj. destruct (decide (j = 0)) as [->|?]; [by rewrite Z.mul_0_l, !Z.add_0_r|].
    specialize (H (j * 4096 - cpu mod 4096)). replace (PGROUNDDOWN cpu + j * 4096) with (cpu + (j * 4096 - cpu mod 4096)) by lia.
    rewrite H; [f_equal; lia|]. clear H H0 E. Z.div_mod_to_equations; lia.
  - intros (p & Hne & Hp & -> & H). assert (Hal : p mod 4096 = 0).
    { pose proof (H 0 ltac:(split; [lia|]; Z.div_mod_to_equations; lia)) as H0. rewrite Z.mul_0_l, !Z.add_0_r in H0.
      destruct (kvm_page V k (PGROUNDDOWN cpu) p) as [[? _]|(q & _ & -> & ? & ? & ?)]; [rewrite Hr; Z.div_mod_to_equations; lia|done|lia|].
      rewrite Hr in *. Z.div_mod_to_equations; lia. }
    split; [|Z.div_mod_to_equations; lia]. intros i Hi. destruct (Htotal (cpu + i)) as [r E]; [unfold is_u64; lia|]. rewrite E. f_equal.
    specialize (H ((cpu + i) / 4096 - cpu / 4096) ltac:(Z.div_mod_to_equations; lia)).
    assert (Hpg : PGROUNDDOWN cpu + ((cpu + i) / 4096 - cpu / 4096) * 4096 = PGROUNDDOWN (cpu + i)).
    { rewrite !PGROUNDDOWN_mod. unfold PGSIZE. Z.div_mod_to_equations; lia. }
    rewrite Hpg in H. destruct (kvm_page V k (cpu + i) r ltac:(lia) E) as [[_ E']|(q & E' & -> & _)]; rewrite H in E'; injection E' as E'; clear H E Hpg; Z.div_mod_to_equations; lia.
Qed.

Lemma range_valid_ok mask address size : is_u64 mask -> is_u64 address -> is_u64 size ->
  dma_range_valid mask address size = true <-> 0 < size /\ address + size - 1 <= mask.
Proof.
  unfold is_u64, dma_range_valid, truth, wrap64. intros Hm Ha Hs. destruct (Z.eqb_spec size 0) as [->|Hne]; cbn [negb orb]; [split; [done|lia]|].
  assert (E : ((address + size) mod 2 ^ 64 - 1) mod 2 ^ 64 = (address + size - 1) mod 2 ^ 64) by apply Zminus_mod_idemp_l. rewrite E.
  rewrite !(Z.mod_small (size - 1)) by lia. destruct (Z.ltb_spec ((address + size - 1) mod 2 ^ 64) address) as [H|H].
  - split; [done|]. intros [_ Hle]. rewrite Z.mod_small in H; lia.
  - rewrite andb_true_iff, !Z.leb_le. split.
    + intros [H1 H2]. rewrite Z.mod_small in H2 by lia. lia.
    + intros [_ Hle]. rewrite Z.mod_small by lia. lia.
Qed.

(** No wrapping around in the addresses of the buffer. *)
Lemma wraps_test a size : is_u64 a -> is_u64 size -> size <> 0 -> (a +64 size -64 1 <? a) = false <-> a + size <= 2 ^ 64.
Proof.
  unfold is_u64, wrap64. intros Ha Hs Hne. rewrite Zminus_mod_idemp_l, Z.ltb_ge. split; intros H; [|rewrite Z.mod_small; lia].
  destruct (Z_le_gt_dec (a + size) (2 ^ 64)); [done|]. replace (a + size - 1) with (a + size - 1 - 2 ^ 64 + 1 * 2 ^ 64) in H by lia. rewrite Z.mod_add, Z.mod_small in H; lia.
Qed.

(** What a mapped buffer must be. *)
Definition mappable (mask cpu size bus : Z) : Prop :=
  cpu <> 0 /\ 0 < size /\ cpu + size <= 2 ^ 64 /\ PGSIZE <= bus /\ bus + size - 1 <= mask /\
  forall i, 0 <= i < size -> kvm_va2pa V k (cpu + i) = Ret (bus + i).

Lemma first_page cpu size : 0 <= cpu -> 0 < size -> PGROUNDDOWN (cpu + size - 1) = PGROUNDDOWN cpu + Z.of_nat (Z.to_nat ((cpu + size - 1) / 4096 - cpu / 4096)) * 4096 /\
  (PGROUNDDOWN (cpu + size - 1) - PGROUNDDOWN cpu) / PGSIZE = (cpu + size - 1) / 4096 - cpu / 4096 /\ 0 <= (cpu + size - 1) / 4096 - cpu / 4096.
Proof.
  intros Hc Hs. assert (0 <= (cpu + size - 1) / 4096 - cpu / 4096) by (Z.div_mod_to_equations; lia). rewrite Z2Nat.id by done. rewrite !PGROUNDDOWN_mod. unfold PGSIZE.
  split_and!; [Z.div_mod_to_equations; lia| |done]. symmetry. apply (Z.div_unique _ _ _ 0); [lia|]. Z.div_mod_to_equations; lia.
Qed.

Lemma run_bytes cpu size first : 0 <= cpu -> 0 < size -> cpu + size <= 2 ^ 64 -> kvm_va2pa V k cpu = Ret first -> first + size <= 2 ^ 64 ->
  (exists p, run (Z.to_nat ((cpu + size - 1) / 4096 - cpu / 4096)) (PGROUNDDOWN cpu) p) <->
  (forall i, 0 <= i < size -> kvm_va2pa V k (cpu + i) = Ret (first + i)) /\ PGSIZE <= first.
Proof.
  intros Hc Hs He Ef Hfit. destruct (first_page cpu size Hc Hs) as (_ & _ & Hpos). set (n := Z.to_nat _). unfold PGSIZE. rewrite bytes_pages by done.
  assert (Hrun : forall p, run n (PGROUNDDOWN cpu) p -> kvm_va2pa V k (PGROUNDDOWN cpu) = Ret p) by (intros p; destruct n; by intros [? _]).
  assert (Hget : forall p, (forall j, 0 <= j <= (cpu + size - 1) / 4096 - cpu / 4096 -> kvm_va2pa V k (PGROUNDDOWN cpu + j * 4096) = Ret (p + j * 4096)) -> kvm_va2pa V k (PGROUNDDOWN cpu) = Ret p).
  { intros p H. specialize (H 0 ltac:(lia)). by rewrite Z.mul_0_l, !Z.add_0_r in H. }
  destruct (kvm_page V k cpu first Hc Ef) as [[-> E0]|(p & Ep & -> & Hp & Hal & Htop)].
  - split; [|intros (p & Hne & _ & _ & H); apply Hget in H; congruence]. intros (p & Hr). pose proof (Hrun p Hr) as E. rewrite E0 in E. injection E as <-. destruct n; by destruct Hr as (_ & ? & _).
  - assert (Hu : is_u64 p) by (unfold is_u64; lia). assert (Hlt : p + Z.of_nat n * 4096 < 2 ^ 64).
    { unfold n. rewrite Z2Nat.id by done. clear Hrun Hget. Z.div_mod_to_equations; lia. }
    assert (Hn : Z.of_nat n = (cpu + size - 1) / 4096 - cpu / 4096) by (apply Z2Nat.id; done). split.
    + intros (p' & Hr). pose proof (Hrun p' Hr) as E. rewrite Ep in E. injection E as <-. apply run_ok in Hr as [Hne H]; [|done..]. rewrite Hn in H. by exists p.
    + intros (p' & Hne & _ & E & H). assert (p' = p) as -> by lia. exists p. apply run_ok; [done|done|]. by rewrite Hn.
Qed.

(** [dma_map_single] always returns, and maps a buffer exactly when all of its bytes, page boundaries included, are
    translated to one contiguous range of bus addresses that is inside the mask of the device; the result is the
    start of that range. *)
Theorem dma_map_single_correct mask cpu size direction : is_u64 mask -> is_u64 cpu -> is_u64 size ->
  exists r, dma_map_single V k mask cpu size direction = Ret r /\ forall bus, r = Some bus <-> mappable mask cpu size bus.
Proof.
  intros Hm Hc Hs. unfold dma_map_single, mappable. unfold truth at 1 2. destruct (Z.eqb_spec cpu 0) as [->|Hc0]; [eexists; split; [done|naive_solver]|].
  destruct (Z.eqb_spec size 0) as [->|Hs0]; [eexists; split; [done|]; intros bus; split; [done|lia]|]. cbn [negb orb].
  pose proof (wraps_test cpu size Hc Hs Hs0) as Hw. destruct (_ <? cpu) eqn:E; [eexists; split; [done|]; intros bus; split; [done|]; intros (_ & _ & H & _); by apply Hw in H|].
  apply proj1 in Hw. specialize (Hw eq_refl). destruct (Htotal cpu Hc) as [first Ef]. rewrite Ef. cbn [mbind outcome_bind]. unfold is_u64 in Hc, Hs.
  pose proof (kvm_range cpu first ltac:(lia) Ef) as Hfr. pose proof (range_valid_ok mask first size Hm Hfr ltac:(unfold is_u64; lia)) as Hrv.
  assert (Hfirst : forall bus, (forall i, 0 <= i < size -> kvm_va2pa V k (cpu + i) = Ret (bus + i)) -> first = bus).
  { intros bus H. specialize (H 0 ltac:(lia)). rewrite !Z.add_0_r in H. congruence. }
  destruct (negb (truth first) || _) eqn:E2.
  { eexists. split; [done|]. intros bus. split; [done|]. intros (_ & _ & _ & Hb & Hbm & H). apply Hfirst in H as <-. rewrite (proj2 Hrv) in E2 by lia.
    unfold truth, PGSIZE in *. rewrite (proj2 (Z.eqb_neq _ _)) in E2 by lia. done. }
  apply orb_false_iff in E2 as [_ Hv%negb_false_iff%Hrv]. rewrite wrap64_sub_l, (wrap64_id (cpu + size - 1)) by (unfold is_u64; lia).
  destruct (first_page cpu size) as (Hend & Hn & Hpos); [lia|lia|]. rewrite Hn, Hend.
  destruct (map_pages_ok (Z.to_nat ((cpu + size - 1) / 4096 - cpu / 4096)) (PGROUNDDOWN cpu) 0) as (b & -> & Hb).
  { rewrite PGROUNDDOWN_mod. unfold PGSIZE. Z.div_mod_to_equations; lia. }
  { rewrite <-Hend, PGROUNDDOWN_mod. unfold PGSIZE. Z.div_mod_to_equations; lia. }
  cbn [mbind outcome_bind]. eexists. split; [done|]. intros bus.
  assert (Hb' : b = true <-> (forall i, 0 <= i < size -> kvm_va2pa V k (cpu + i) = Ret (first + i)) /\ PGSIZE <= first).
  { unfold is_u64 in *. rewrite Hb, <-run_bytes by (done || lia). split; [intros (p & Hr & _); eauto|intros (p & Hr); exists p; split; [done|lia]]. }
  destruct b; split.
  - intros [= <-]. destruct (proj1 Hb' eq_refl) as [H Hpg]. split_and!; try done; lia.
  - intros (_ & _ & _ & _ & _ & H). apply Hfirst in H as <-. done.
  - done.
  - intros (_ & _ & _ & Hpg & _ & H). pose proof (Hfirst bus H) as <-. by discriminate (proj2 Hb' (conj H Hpg)).
Qed.
End single.

(** ** Coherent memory *)

(** Reading a table depends on the tables only. *)
Lemma walk_tables l t V V' pgdir va : tables V = tables V' ->
  (exists r, walk_loop l t V pgdir va false = Ret (V, r) /\ walk_loop l t V' pgdir va false = Ret (V', r)) \/
  (walk_loop l t V pgdir va false = Fault /\ walk_loop l t V' pgdir va false = Fault).
Proof.
  intros E. revert pgdir. induction l as [|l IH]; intros pgdir; cbn [walk_loop]; [left; eauto|]. case_match; [left; eauto|]. unfold pte_load. rewrite E.
  destruct (deref (tables V' !! _)) as [es|why|] eqn:Ed; cbn [mbind outcome_bind]; [|by destruct (tables V' !! _)|by right].
  destruct (rd es _) as [pte|why|] eqn:Er; [|unfold rd in Er; by destruct (es !! _)|by right]. cbn [mbind outcome_bind]. case_match; [|left; eauto]. case_match; [left; eauto|apply IH].
Qed.
Lemma kvm_tables V V' k va : tables V = tables V' -> kvm_va2pa V k va = kvm_va2pa V' k va.
Proof.
  intros E. unfold kvm_va2pa, vm_walk. destruct (_ || _); [done|]. destruct (_ || _); [done|].
  destruct (walk_tables SV39_LEVEL_MAX 0 V V' k va E) as [([[p level]|] & -> & ->)|[-> ->]]; try done. cbn [mbind outcome_bind]. unfold pte_load. by rewrite E.
Qed.

Section coherent.
  Context {LS : FramesLaws St} (V : vm St) (k : Z).
  Context (Htotal : forall va, is_u64 va -> exists pa, kvm_va2pa V k va = Ret pa).

Lemma put_back s g p : fr_ok s (upd g p 1) -> g p = 0 -> exists s', fr_put s p = Ret s' /\ fr_ok s' g.
Proof.
  intros HF Hg. destruct (fr_put_ok s (upd g p 1) p HF) as (s' & E & HF' & _); [unfold upd; by rewrite decide_True|]. exists s'. split; [done|].
  eapply fr_ok_ext; [|exact HF']. intros a. unfold upd. rewrite (decide_True (P := p = p)) by done. case_decide; [subst; by rewrite Hg|done].
Qed.

(** Memory for a device is one zeroed page that nobody holds, on the bus inside the mask of the device; when
    there is none nothing is kept.  Freeing it with its bus address gives the page back. *)
Theorem dma_coherent_roundtrip mask size g : is_u64 mask -> is_u64 size -> fr_ok (frames V) g ->
  exists r V', dma_alloc_coherent V k mask size = Ret (r, V') /\ tables V' = tables V /\
    match r with
    | None => fr_ok (frames V') g
    | Some (cpu, bus) => 0 < cpu /\ g cpu = 0 /\ fr_ok (frames V') (upd g cpu 1) /\ bytes_at (frames V') cpu PGSIZE = replicate (Z.to_nat PGSIZE) 0 /\
        kvm_va2pa V k cpu = Ret bus /\ 0 < size <= PGSIZE /\ bus + size - 1 <= mask /\
        exists V'', dma_free_coherent V' k size cpu bus = Ret V'' /\ fr_ok (frames V'') g
    end.
Proof.
  intros Hm Hs HF. unfold dma_alloc_coherent. destruct (negb (truth size) || _) eqn:E1; [by exists None, V|].
  destruct (fr_alloc_ok (frames V) g true HF) as (p & s & -> & [[-> ->]|(Hp & Hu & Hal & Hg & HF' & Hz)]); cbn [mbind outcome_bind]; [by exists None, (with_frames V (frames V))|].
  unfold truth at 1. rewrite (proj2 (Z.eqb_neq p 0)) by lia. cbn [negb]. rewrite (kvm_tables (with_frames V s) V) by done. destruct (Htotal p Hu) as [bus Eb]. rewrite Eb. cbn [mbind outcome_bind].
  unfold is_u64 in Hu. pose proof (kvm_range V k p bus ltac:(lia) Eb) as Hbr. destruct (put_back s g p HF' Hg) as (s' & Ep & HF'').
  destruct (dma_range_valid mask bus size) eqn:Ev; cbn [negb].
  - apply range_valid_ok in Ev; [|done..]. eexists _, _. split; [done|]. split; [done|]. apply orb_false_iff in E1 as [Et El%Z.ltb_ge]. split_and!; try done; try lia.
    + unfold bytes_at. apply (list_eq_same_length _ _ (Z.to_nat PGSIZE)); [by rewrite length_replicate|by rewrite length_fmap, length_seqZ|].
      intros i x y Hi Hx Hy. apply lookup_replicate in Hy as [-> _]. apply list_lookup_fmap_Some in Hx as (a & -> & [-> Hr]%lookup_seqZ). cbn [with_frames frames]. rewrite Hz, bool_decide_true; [done|lia].
    + unfold dma_free_coherent. unfold truth at 1. rewrite (proj2 (Z.eqb_neq p 0)) by lia. rewrite Et, (proj2 (Z.ltb_ge _ _)) by lia. cbn [negb orb].
      rewrite (kvm_tables _ V), Eb by done. cbn [mbind outcome_bind]. rewrite Z.eqb_refl. cbn [negb]. unfold put_page. cbn [frames with_frames]. rewrite Ep. cbn [mbind outcome_bind]. by eexists.
  - unfold put_page. cbn [frames with_frames]. rewrite Ep. cbn [mbind outcome_bind]. by exists None, (with_frames (with_frames V s) s').
Qed.
End coherent.
End dma.
