(* ===== verification/Virtqueue.v ===== *)
(** * Split virtqueues: the code

    drivers/virtio/ring.c.  The arrays of a queue that are indexed by
    descriptor are one array of records; the two rings are the memory shared
    with the device.  The mapping of a buffer is a parameter: it is
    [dma_map_single] for the device of the queue. *)
From S2P Require Import Prelude Dma.

Definition wrap16 (x : Z) : Z := x mod 2 ^ 16.
Definition UINT16_MAX : Z := 2 ^ 16 - 1.

(** ** Data (kernel/include/virtio_ring.h) *)

Definition VRING_DESC_F_NEXT : Z := 1.
Definition VRING_DESC_F_WRITE : Z := 2.

Record virtio_buffer := MkBuffer { vb_address : Z; vb_length : Z; vb_direction : dma_data_direction }.
Record vring_desc := MkDesc { d_address : Z; d_length : Z; d_flags : Z; d_next : Z }.
Definition zero_desc : vring_desc := MkDesc 0 0 0 0.

(** The entries at one index of [free_next], [tokens], [dma_addresses], [dma_lengths], [dma_directions], [chain_heads]
    and [descriptors]. *)
Record slot := MkSlot {
  free_next : Z; token : Z; dma_address : Z; dma_length : Z; dma_direction : dma_data_direction; chain_head : Z; desc : vring_desc
}.
Record virtqueue := MkQueue {
  q_size : Z; available_shadow : Z; used_shadow : Z; free_count : Z; free_head : Z; slots : list slot;
  avail_ring : list Z; avail_index : Z; used_ring : list (Z * Z); used_index : Z
}.

Definition set_free (q : virtqueue) count head (l : list slot) : virtqueue :=
  MkQueue (q_size q) (available_shadow q) (used_shadow q) count head l (avail_ring q) (avail_index q) (used_ring q) (used_index q).
Definition set_slots (q : virtqueue) (l : list slot) : virtqueue := set_free q (free_count q) (free_head q) l.
Definition set_available (q : virtqueue) shadow ring index : virtqueue :=
  MkQueue (q_size q) shadow (used_shadow q) (free_count q) (free_head q) (slots q) ring index (used_ring q) (used_index q).
Definition set_used_shadow (q : virtqueue) shadow : virtqueue :=
  MkQueue (q_size q) (available_shadow q) shadow (free_count q) (free_head q) (slots q) (avail_ring q) (avail_index q) (used_ring q) (used_index q).

Definition set_free_next (s : slot) x := MkSlot x (token s) (dma_address s) (dma_length s) (dma_direction s) (chain_head s) (desc s).
Definition set_token (s : slot) x := MkSlot (free_next s) x (dma_address s) (dma_length s) (dma_direction s) (chain_head s) (desc s).
Definition set_chain_head (s : slot) x := MkSlot (free_next s) (token s) (dma_address s) (dma_length s) (dma_direction s) x (desc s).
Definition set_desc (s : slot) x := MkSlot (free_next s) (token s) (dma_address s) (dma_length s) (dma_direction s) (chain_head s) x.

Definition slot_of (q : virtqueue) (d : Z) : outcome slot := if d <? 0 then Fault else rd (slots q) (Z.to_nat d).
Definition put_slot (q : virtqueue) (d : Z) (s : slot) : outcome virtqueue :=
  if d <? 0 then Fault else l ← wr (slots q) (Z.to_nat d) s; Ret (set_slots q l).

(** ** Operations *)

Definition vring_available_size (size : Z) : Z := 4 + 2 * size + 2.
Definition vring_used_size (size : Z) : Z := 4 + 8 * size + 2.

(** The queue over arrays from [calloc] and pages from [dma_alloc_coherent], all zero; [allocated]: whether all of them
    could be had. *)
Definition virtqueue_create (device allocated : bool) (size : Z) : option virtqueue :=
  if negb device || negb (truth size) || truth (Z.land size (size - 1)) || (PGSIZE <? 16 * size) ||
     (PGSIZE <? vring_available_size size) || (PGSIZE <? vring_used_size size) then None else
  if negb allocated then None else
  Some (MkQueue size 0 0 size 0
    ((fun d => MkSlot (wrap16 (d + 1)) 0 0 0 DMA_BIDIRECTIONAL UINT16_MAX zero_desc) <$> seqZ 0 size)
    (replicate (Z.to_nat size) 0) 0 (replicate (Z.to_nat size) (0, 0)) 0).

Definition virtqueue_destroy (q : virtqueue) : outcome unit :=
  if negb (free_count q =? q_size q) && truth (q_size q) then Panic "destroy busy virtqueue" else Ret tt.

Definition virtqueue_alloc_desc (q : virtqueue) : outcome (Z * virtqueue) :=
  let descriptor := free_head q in
  if negb (truth (free_count q)) then Panic "virtqueue descriptor underflow" else
  s ← slot_of q descriptor;
  Ret (descriptor, set_free q (wrap16 (free_count q - 1)) (free_next s) (slots q)).

Definition virtqueue_free_desc (q : virtqueue) (descriptor : Z) : outcome virtqueue :=
  s ← slot_of q descriptor;
  q ← put_slot q descriptor (set_free_next s (free_head q));
  Ret (set_free q (wrap16 (free_count q + 1)) descriptor (slots q)).

Fixpoint alloc_descs (n : nat) (q : virtqueue) : outcome (list Z * virtqueue) :=
  match n with
  | O => Ret ([], q)
  | S n => '(d, q) ← virtqueue_alloc_desc q; '(ds, q) ← alloc_descs n q; Ret (d :: ds, q)
  end.
Definition free_descs (q : virtqueue) (ds : list Z) : outcome virtqueue := for_each virtqueue_free_desc ds q.

(** The descriptor of a mapped buffer with the descriptors that follow. *)
Definition buffer_desc (address length : Z) (direction : dma_data_direction) (following : list Z) : vring_desc :=
  MkDesc address length
    (Z.lor (if decide (direction = DMA_FROM_DEVICE) then VRING_DESC_F_WRITE else 0) (match following with [] => 0 | _ => VRING_DESC_F_NEXT end))
    (match following with [] => 0 | d :: _ => d end).

Section operations.
  (** [dma_map_single] for the device of the queue. *)
  Context (dma_map : virtio_buffer -> option Z).

(** The buffers mapped until one cannot be, with whether all were. *)
Fixpoint map_buffers (q : virtqueue) (buffers : list virtio_buffer) (allocated : list Z) : outcome (virtqueue * list (Z * Z * dma_data_direction) * bool) :=
  match buffers, allocated with
  | b :: buffers, descriptor :: allocated =>
      match dma_map b with
      | None => Ret (q, [], false)
      | Some address =>
          s ← slot_of q descriptor;
          q ← put_slot q descriptor (MkSlot (free_next s) (token s) address (vb_length b) (vb_direction b) (chain_head s)
                (buffer_desc address (vb_length b) (vb_direction b) allocated));
          '(q, mapped, ok) ← map_buffers q buffers allocated;
          Ret (q, (address, vb_length b, vb_direction b) :: mapped, ok)
      end
  | _, _ => Ret (q, [], true)
  end.

(** The loop at [unwind], over the descriptors of the buffers that were mapped: what the calls of [dma_unmap_single] undo. *)
Fixpoint unmap_descs (q : virtqueue) (descriptors : list Z) : outcome (list (Z * Z * dma_data_direction)) :=
  match descriptors with
  | [] => Ret []
  | descriptor :: descriptors =>
      s ← slot_of q descriptor;
      undone ← unmap_descs q descriptors;
      Ret ((dma_address s, dma_length s, dma_direction s) :: undone)
  end.

Definition set_head (head : Z) (q : virtqueue) (descriptor : Z) : outcome virtqueue :=
  s ← slot_of q descriptor; put_slot q descriptor (set_chain_head s head).

(** Also the mappings made, and those undone. *)
Definition virtqueue_add (q : virtqueue) (buffers : list virtio_buffer) (tok : Z) :
    outcome (Z * virtqueue * list (Z * Z * dma_data_direction) * list (Z * Z * dma_data_direction)) :=
  let count := Z.of_nat (length buffers) in
  if negb (truth count) || (32 <? count) || negb (truth tok) then Ret (-2, q, [], []) else
  if existsb (fun b => bool_decide (vb_direction b <> DMA_TO_DEVICE /\ vb_direction b <> DMA_FROM_DEVICE)) buffers then Ret (-2, q, [], []) else
  if free_count q <? count then Ret (-1, q, [], []) else
  '(allocated, q) ← alloc_descs (length buffers) q;
  '(q, mapped, ok) ← map_buffers q buffers allocated;
  if negb ok then
    undone ← unmap_descs q (take (length mapped) allocated);
    q ← free_descs q allocated;
    Ret (-2, q, mapped, undone) else
  head ← rd allocated 0;
  q ← for_each (set_head head) allocated q;
  s ← slot_of q head;
  q ← put_slot q head (set_token s tok);
  ring ← wr (avail_ring q) (Z.to_nat (available_shadow q mod q_size q)) head;
  let shadow := wrap16 (available_shadow q + 1) in
  Ret (0, set_available q shadow ring shadow, mapped, []).
End operations.

(** The first loop of [virtqueue_release_chain]. *)
Fixpoint check_chain (fuel : nat) (q : virtqueue) (head descriptor count : Z) : outcome unit :=
  match fuel with
  | O => Fault
  | S fuel =>
      if (q_size q <=? descriptor) || (q_size q <=? count) then Panic "invalid virtqueue descriptor chain" else
      s ← slot_of q descriptor;
      if negb (chain_head s =? head) then Panic "invalid virtqueue descriptor chain" else
      if negb (truth (Z.land (d_flags (desc s)) VRING_DESC_F_NEXT)) then Ret tt
      else check_chain fuel q head (d_next (desc s)) (wrap16 (count + 1))
  end.
(** The second loop, with the mappings undone. *)
Fixpoint release_chain (fuel : nat) (q : virtqueue) (descriptor : Z) (unmapped : list (Z * Z * dma_data_direction)) :
    outcome (virtqueue * list (Z * Z * dma_data_direction)) :=
  match fuel with
  | O => Fault
  | S fuel =>
      s ← slot_of q descriptor;
      let unmapped := unmapped ++ [(dma_address s, dma_length s, dma_direction s)] in
      q ← put_slot q descriptor (MkSlot (free_next s) (token s) (dma_address s) (dma_length s) (dma_direction s) UINT16_MAX zero_desc);
      q ← virtqueue_free_desc q descriptor;
      if negb (truth (Z.land (d_flags (desc s)) VRING_DESC_F_NEXT)) then Ret (q, unmapped)
      else release_chain fuel q (d_next (desc s)) unmapped
  end.
Definition virtqueue_release_chain (q : virtqueue) (head : Z) : outcome (virtqueue * list (Z * Z * dma_data_direction)) :=
  _ ← check_chain (S (Z.to_nat (q_size q))) q head head 0;
  release_chain (S (Z.to_nat (q_size q))) q head [].

Definition virtqueue_used_pending_locked (q : virtqueue) : outcome Z :=
  let pending := wrap16 (used_index q - used_shadow q) in
  if q_size q <? pending then Panic "invalid virtqueue used index" else Ret pending.

(** The token (0 when nothing is used), the length and the mappings undone. *)
Definition virtqueue_get_used (q : virtqueue) : outcome (Z * Z * virtqueue * list (Z * Z * dma_data_direction)) :=
  pending ← virtqueue_used_pending_locked q;
  if negb (truth pending) then Ret (0, 0, q, []) else
  '(id, len) ← rd (used_ring q) (Z.to_nat (used_shadow q mod q_size q));
  if q_size q <=? id then Panic "invalid virtqueue used descriptor" else
  s ← slot_of q id;
  if negb (truth (token s)) then Panic "invalid virtqueue used descriptor" else
  q ← put_slot q id (set_token s 0);
  '(q, unmapped) ← virtqueue_release_chain q id;
  Ret (token s, len, set_used_shadow q (wrap16 (used_shadow q + 1)), unmapped).

Fixpoint detach_from (ds : list Z) (q : virtqueue) : outcome (Z * virtqueue * list (Z * Z * dma_data_direction)) :=
  match ds with
  | [] => Ret (0, q, [])
  | d :: ds =>
      s ← slot_of q d;
      if negb (truth (token s)) then detach_from ds q else
      q ← put_slot q d (set_token s 0);
      '(q, unmapped) ← virtqueue_release_chain q d;
      Ret (token s, q, unmapped)
  end.
Definition virtqueue_detach_unused (q : virtqueue) : outcome (Z * virtqueue * list (Z * Z * dma_data_direction)) :=
  detach_from (seqZ 0 (q_size q)) q.

Definition virtqueue_has_used (q : virtqueue) : outcome bool := pending ← virtqueue_used_pending_locked q; Ret (truth pending).
Definition virtqueue_num_free (q : virtqueue) : Z := free_count q.
