(* ===== verification/VirtqueueInv.v ===== *)
(** * Split virtqueues: descriptors

    The descriptors of a queue are free or belong to one chain of buffers; what
    allocating, describing and releasing descriptors does to that partition. *)
From S2P Require Import Prelude Dma Virtqueue.

Notation mapping := (Z * Z * dma_data_direction)%type.

Definition at_ (l : list slot) (d : Z) : option slot := if decide (0 <= d) then l !! Z.to_nat d else None.
Definition put (l : list slot) (d : Z) (s : slot) : list slot := <[Z.to_nat d := s]> l.

Lemma at_range l d s : at_ l d = Some s -> 0 <= d < Z.of_nat (length l).
Proof. unfold at_. case_decide; [|done]. intros ?%lookup_lt_Some. lia. Qed.
Lemma at_some l d : 0 <= d < Z.of_nat (length l) -> is_Some (at_ l d).
Proof. intros. unfold at_. rewrite decide_True by lia. apply lookup_lt_is_Some. lia. Qed.
Lemma at_put_eq l d s : 0 <= d < Z.of_nat (length l) -> at_ (put l d s) d = Some s.
Proof. intros. unfold at_, put. rewrite decide_True by lia. apply list_lookup_insert_eq. lia. Qed.
Lemma at_put_ne l d d' s : 0 <= d -> d <> d' -> at_ (put l d s) d' = at_ l d'.
Proof. intros. unfold at_, put. case_decide; [|done]. apply list_lookup_insert_ne. lia. Qed.
Lemma length_put l d s : length (put l d s) = length l.
Proof. apply length_insert. Qed.

Lemma slot_of_at q d s : at_ (slots q) d = Some s -> slot_of q d = Ret s.
Proof. unfold at_, slot_of. case_decide as Hd; [|done]. intros H. rewrite (proj2 (Z.ltb_ge _ _)) by done. by apply rd_Ret. Qed.
Lemma put_slot_at q d s : 0 <= d < Z.of_nat (length (slots q)) -> put_slot q d s = Ret (set_slots q (put (slots q) d s)).
Proof. intros H. unfold put_slot. rewrite (proj2 (Z.ltb_ge _ _)) by lia. rewrite wr_Ret by lia. done. Qed.

(** ** Lists of descriptors *)

(** A list linked by [free_next] from [head] on, without tokens. *)
Fixpoint linked (l : list slot) (head : Z) (fl : list Z) : Prop :=
  match fl with
  | [] => True
  | d :: fl => head = d /\ exists s, at_ l d = Some s /\ token s = 0 /\ linked l (free_next s) fl
  end.

(** Descriptors that describe mapped buffers, each linked to the next. *)
Fixpoint described (l : list slot) (ch : list (Z * mapping)) : Prop :=
  match ch with
  | [] => True
  | (d, m) :: ch => (exists s, at_ l d = Some s /\ (dma_address s, dma_length s, dma_direction s) = m /\
      desc s = buffer_desc (dma_address s) (dma_length s) (dma_direction s) ch.*1) /\ described l ch
  end.

(** Every descriptor of the list has the property. *)
Definition all_slots (l : list slot) (P : Z -> slot -> Prop) (ds : list Z) : Prop := Forall (fun d => exists s, at_ l d = Some s /\ P d s) ds.

Definition agree (l l' : list slot) (ds : list Z) : Prop := forall d, d ∈ ds -> at_ l' d = at_ l d.

Lemma linked_agree l l' head fl : agree l l' fl -> linked l head fl -> linked l' head fl.
Proof.
  revert head. induction fl as [|d fl IH]; intros head HA; cbn; [done|]. intros (-> & s & Hs & Ht & Hl). split; [done|]. exists s.
  rewrite HA by set_solver. split_and!; [done|done|]. apply IH; [|done]. intros x Hx. apply HA. set_solver.
Qed.
Lemma described_agree l l' ch : agree l l' ch.*1 -> described l ch -> described l' ch.
Proof.
  induction ch as [|[d m] ch IH]; intros HA; cbn; [done|]. intros [(s & Hs & Hm) Hd]. split.
  - exists s. split; [|done]. rewrite HA; [done|]. cbn. set_solver.
  - apply IH; [|done]. intros x Hx. apply HA. cbn. set_solver.
Qed.
Lemma all_slots_agree l l' P ds : agree l l' ds -> all_slots l P ds -> all_slots l' P ds.
Proof. intros HA. unfold all_slots. rewrite !Forall_forall. intros H d Hd. rewrite HA by done. by apply H. Qed.
Lemma agree_put l d s ds : 0 <= d -> d ∉ ds -> agree l (put l d s) ds.
Proof. intros Hd Hn x Hx. apply at_put_ne; [done|]. by intros ->. Qed.
Lemma agree_trans l1 l2 l3 ds : agree l1 l2 ds -> agree l2 l3 ds -> agree l1 l3 ds.
Proof. intros H1 H2 x Hx. by rewrite H2, H1. Qed.

Lemma linked_all l head fl : linked l head fl -> all_slots l (fun _ s => token s = 0) fl.
Proof.
  revert head. induction fl as [|d fl IH]; intros head; [constructor|]. intros (_ & s & ? & ? & ?). constructor; [eauto|by eapply IH].
Qed.
Lemma linked_app l head ds fl : linked l head (ds ++ fl) -> exists head', linked l head' fl /\ linked l head ds.
Proof.
  revert head. induction ds as [|d ds IH]; intros head; cbn; [by exists head|]. intros (-> & s & Hs & Ht & Hl). destruct (IH _ Hl) as (h & ? & ?). exists h. eauto 10.
Qed.

(** What the operations on descriptors leave alone. *)
Record same_rings (q q' : virtqueue) : Prop := {
  sr_size : q_size q' = q_size q;
  sr_avail : available_shadow q' = available_shadow q /\ avail_ring q' = avail_ring q /\ avail_index q' = avail_index q;
  sr_used : used_shadow q' = used_shadow q /\ used_ring q' = used_ring q /\ used_index q' = used_index q;
  sr_length : length (slots q') = length (slots q)
}.
Lemma same_rings_refl q : same_rings q q.
Proof. by split. Qed.
Lemma same_rings_trans q1 q2 q3 : same_rings q1 q2 -> same_rings q2 q3 -> same_rings q1 q3.
Proof. intros [? [? [? ?]] [? [? ?]] ?] [? [? [? ?]] [? [? ?]] ?]. split; split_and?; congruence. Qed.

(** ** Allocating and freeing *)

Lemma alloc_descs_ok ds : forall q fl, linked (slots q) (free_head q) (ds ++ fl) -> free_count q = Z.of_nat (length (ds ++ fl)) -> free_count q < 2 ^ 16 ->
  exists q', alloc_descs (length ds) q = Ret (ds, q') /\ same_rings q q' /\ slots q' = slots q /\ linked (slots q') (free_head q') fl /\
    free_count q' = Z.of_nat (length fl).
Proof.
  induction ds as [|d ds IH]; intros q fl HL HC Hb; cbn [alloc_descs length app] in *.
  { by exists q. }
  destruct HL as (Hh & s & Hs & Ht & HL). unfold virtqueue_alloc_desc, truth. rewrite (proj2 (Z.eqb_neq _ _)) by lia. cbn [negb]. rewrite Hh, (slot_of_at q d s Hs).
  cbn [mbind outcome_bind]. assert (Hw : wrap16 (free_count q - 1) = Z.of_nat (length (ds ++ fl))) by (unfold wrap16; rewrite Z.mod_small; lia).
  destruct (IH (set_free q (wrap16 (free_count q - 1)) (free_next s) (slots q)) fl HL Hw) as (q' & -> & HR & HS & HL' & HC'); [cbn; lia|].
  exists q'. split; [done|]. split_and!; try done. by destruct HR.
Qed.

Lemma free_desc_ok q fl d : linked (slots q) (free_head q) fl -> free_count q = Z.of_nat (length fl) -> free_count q + 1 < 2 ^ 16 -> d ∉ fl ->
  (exists s, at_ (slots q) d = Some s /\ token s = 0) ->
  exists q', virtqueue_free_desc q d = Ret q' /\ same_rings q q' /\ linked (slots q') (free_head q') (d :: fl) /\
    free_count q' = Z.of_nat (length (d :: fl)) /\ (forall ds, d ∉ ds -> agree (slots q) (slots q') ds).
Proof.
  intros HL HC Hb Hd (s & Hs & Ht). pose proof (at_range _ _ _ Hs) as Hr. unfold virtqueue_free_desc. rewrite (slot_of_at q d s Hs). cbn [mbind outcome_bind].
  rewrite put_slot_at by done. cbn [mbind outcome_bind]. eexists. split; [done|]. cbn [set_free set_slots slots free_head free_count]. split_and!.
  - split; cbn; try done. apply length_put.
  - cbn. split; [done|]. eexists. rewrite at_put_eq by done. split; [done|]. split; [done|]. cbn. eapply linked_agree; [|done]. by apply agree_put; [lia|].
  - unfold wrap16. rewrite Z.mod_small; cbn [length]; lia.
  - intros ds Hn. apply agree_put; [lia|done].
Qed.

Lemma free_descs_ok ds : forall q fl, linked (slots q) (free_head q) fl -> free_count q = Z.of_nat (length fl) ->
  Z.of_nat (length ds + length fl) < 2 ^ 16 -> NoDup (ds ++ fl) -> all_slots (slots q) (fun _ s => token s = 0) ds ->
  exists q', free_descs q ds = Ret q' /\ same_rings q q' /\ linked (slots q') (free_head q') (reverse ds ++ fl) /\
    free_count q' = Z.of_nat (length (reverse ds ++ fl)) /\ (forall l, (forall d, d ∈ ds -> d ∉ l) -> agree (slots q) (slots q') l).
Proof.
  induction ds as [|d ds IH]; intros q fl HL HC Hb HN HA; unfold free_descs in *; cbn [for_each].
  { by exists q. }
  apply NoDup_cons in HN as [Hd HN]. apply Forall_cons in HA as [Hs HA]. cbn [length] in Hb.
  destruct (free_desc_ok q fl d HL HC ltac:(lia) ltac:(set_solver) Hs) as (q1 & -> & HR1 & HL1 & HC1 & HG1). cbn [mbind outcome_bind].
  destruct (IH q1 (d :: fl) HL1 HC1) as (q' & -> & HR & HL' & HC' & HG); [cbn; lia|..].
  - rewrite <-Permutation_middle. constructor; [set_solver|done].
  - eapply all_slots_agree; [|done]. apply HG1. set_solver.
  - exists q'. split; [done|]. rewrite reverse_cons, <-app_assoc. cbn. split_and!; try done; [by eapply same_rings_trans|].
    intros l Hl. eapply agree_trans; [apply HG1, Hl; set_solver|apply HG]. intros x Hx. apply Hl. set_solver.
Qed.

(** ** Describing buffers *)

(** The same buffer and descriptor. *)
Definition alike (s s' : slot) : Prop := (dma_address s', dma_length s', dma_direction s', desc s') = (dma_address s, dma_length s, dma_direction s, desc s).
Lemma described_alike l l' ch : (forall d s, d ∈ ch.*1 -> at_ l d = Some s -> exists s', at_ l' d = Some s' /\ alike s s') -> described l ch -> described l' ch.
Proof.
  induction ch as [|[d m] ch IH]; intros HA; cbn; [done|]. intros [(s & Hs & Hm & He) Hd]. split.
  - destruct (HA d s ltac:(cbn; set_solver) Hs) as (s' & Hs' & [= E1 E2 E3 E4]). exists s'. rewrite E1, E2, E3, E4. done.
  - apply IH; [|done]. intros x sx Hx. apply HA. cbn. set_solver.
Qed.

Lemma mapM_cons {A B} (f : A -> option B) x l : mapM f (x :: l) = match f x with Some y => cons y <$> mapM f l | None => None end.
Proof. cbn. destruct (f x); [|done]. cbn. by destruct (mapM f l). Qed.

Section mapping.
  Context (dma_map : virtio_buffer -> option Z).

Definition map_one (b : virtio_buffer) : option mapping := (fun a => (a, vb_length b, vb_direction b)) <$> dma_map b.

(** Descriptors that remember mappings, and the loop that undoes these. *)
Definition remembered (l : list slot) : list Z -> list mapping -> Prop :=
  Forall2 (fun d m => exists s, at_ l d = Some s /\ (dma_address s, dma_length s, dma_direction s) = m).
Lemma unmap_descs_ok q ds ms : remembered (slots q) ds ms -> unmap_descs q ds = Ret ms.
Proof.
  induction 1 as [|d m ds ms (s & Hs & <-) _ IH]; [done|]. cbn [unmap_descs]. rewrite (slot_of_at q d s Hs). cbn [mbind outcome_bind]. by rewrite IH.
Qed.

(** What mapping buffers does: the slots keep their links and tokens, with all buffers mapped they describe them, and
    otherwise the first of them remember the mappings made. *)
Lemma map_buffers_ok buffers : forall ds q, length ds = length buffers -> NoDup ds -> Forall (fun d => 0 <= d < Z.of_nat (length (slots q))) ds ->
  exists q' mapped ok, map_buffers dma_map q buffers ds = Ret (q', mapped, ok) /\ same_rings q q' /\
    free_head q' = free_head q /\ free_count q' = free_count q /\ (forall l, (forall d, d ∈ ds -> d ∉ l) -> agree (slots q) (slots q') l) /\
    (forall d s, at_ (slots q) d = Some s -> exists s', at_ (slots q') d = Some s' /\ token s' = token s /\ free_next s' = free_next s) /\
    (if ok : bool then mapM map_one buffers = Some mapped /\ described (slots q') (zip ds mapped)
     else mapM map_one buffers = None /\ mapM map_one (take (length mapped) buffers) = Some mapped /\ remembered (slots q') (take (length mapped) ds) mapped).
Proof.
  induction buffers as [|b buffers IH]; intros ds q Hl HN HR; (destruct ds as [|d ds]; [|]); try done; cbn [map_buffers].
  { exists q, [], true. split_and!; try done. intros d s Hs. by exists s. }
  apply NoDup_cons in HN as [Hd HN]. apply Forall_cons in HR as [Hr HR]. injection Hl as Hl. rewrite mapM_cons.
  assert (E1 : map_one b = (fun a => (a, vb_length b, vb_direction b)) <$> dma_map b) by done. rewrite E1.
  destruct (dma_map b) as [a|] eqn:Eb; cbn [fmap option_fmap option_map] in *.
  2:{ exists q, [], false. split_and!; try done; [intros x s Hs; by exists s|constructor]. }
  destruct (at_some _ _ Hr) as [s Hs]. rewrite (slot_of_at q d s Hs). cbn [mbind outcome_bind]. rewrite put_slot_at by done. cbn [mbind outcome_bind].
  set (s1 := MkSlot _ _ _ _ _ _ _). set (q1 := set_slots q (put (slots q) d s1)).
  destruct (IH ds q1 Hl HN) as (q' & mapped & ok & -> & HR' & Hfh & Hfc & HG & HT & HM); [cbn; by rewrite length_put|]. cbn [mbind outcome_bind].
  exists q', ((a, vb_length b, vb_direction b) :: mapped), ok. split; [done|].
  assert (Hs1 : at_ (slots q') d = Some s1).
  { rewrite (HG [d]); [|intros x Hx; set_solver|set_solver]. apply at_put_eq. lia. }
  assert (Hrings : same_rings q q1) by (split; cbn; try done; apply length_put).
  split; [by eapply same_rings_trans|]. split_and!; try done.
  - intros l Hx. eapply agree_trans; [|apply HG; intros y Hy; apply Hx; set_solver]. apply agree_put; [lia|]. apply Hx. set_solver.
  - intros x sx Hsx. destruct (decide (x = d)) as [->|Hne].
    + exists s1. rewrite Hs in Hsx. injection Hsx as <-. done.
    + apply HT. cbn. rewrite at_put_ne by (done || lia). done.
  - destruct ok; destruct HM as [HM HD].
    + rewrite HM. cbn. split; [done|]. split; [|done]. exists s1. split; [done|]. split; [done|]. cbn. f_equal.
      rewrite fst_zip; [done|]. apply length_mapM in HM. lia.
    + rewrite HM. split; [done|]. cbn [length take]. destruct HD as [HD HU]. rewrite mapM_cons, E1, HD. split; [done|].
      constructor; [by exists s1|exact HU].
Qed.
End mapping.

Lemma set_heads_ok head ds : forall q, NoDup ds -> Forall (fun d => 0 <= d < Z.of_nat (length (slots q))) ds ->
  exists q', for_each (set_head head) ds q = Ret q' /\ same_rings q q' /\ free_head q' = free_head q /\ free_count q' = free_count q /\
    forall d, at_ (slots q') d = if decide (d ∈ ds) then (fun s => set_chain_head s head) <$> at_ (slots q) d else at_ (slots q) d.
Proof.
  induction ds as [|d ds IH]; intros q HN HR; cbn [for_each]; [by exists q|].
  apply NoDup_cons in HN as [Hd HN]. apply Forall_cons in HR as [Hr HR]. destruct (at_some _ _ Hr) as [s Hs].
  assert (E : set_head head q d = Ret (set_slots q (put (slots q) d (set_chain_head s head)))).
  { unfold set_head. rewrite (slot_of_at q d s Hs). cbn [mbind outcome_bind]. by apply put_slot_at. }
  rewrite E. cbn [mbind outcome_bind]. destruct (IH (set_slots q (put (slots q) d (set_chain_head s head))) HN) as (q' & -> & HR' & Hfh & Hfc & HA); [cbn; by rewrite length_put|].
  exists q'. split; [done|]. split; [eapply same_rings_trans; [|exact HR']; split; cbn; try done; apply length_put|]. split_and!; try done.
  intros x. rewrite HA. cbn. destruct (decide (x = d)) as [->|Hne].
  - rewrite decide_False by done. rewrite decide_True by set_solver. rewrite at_put_eq, Hs by lia. done.
  - rewrite at_put_ne by (done || lia). destruct (decide (x ∈ ds)); [rewrite decide_True by set_solver|rewrite decide_False by set_solver]; done.
Qed.

(** ** Releasing a chain *)

Lemma desc_next a n dir following : truth (Z.land (d_flags (buffer_desc a n dir following)) VRING_DESC_F_NEXT) = match following with [] => false | _ => true end.
Proof. unfold buffer_desc. cbn. by destruct following; case_decide. Qed.

Lemma check_chain_ok q head ch : forall fuel d m count, described (slots q) ((d, m) :: ch) -> all_slots (slots q) (fun _ s => chain_head s = head) (d :: ch.*1) ->
  Z.of_nat (length (slots q)) = q_size q -> (S (length ch) <= fuel)%nat -> 0 <= count -> count + Z.of_nat (length ch) < q_size q -> q_size q < 2 ^ 16 ->
  check_chain fuel q head d count = Ret tt.
Proof.
  induction ch as [|[d' m'] ch IH]; intros fuel d m count [(s & Hs & Hm & He) HD] HA Hsz Hf Hc0 Hc Hb; (destruct fuel as [|fuel]; [cbn in Hf; lia|]); cbn [check_chain].
  all: pose proof (at_range _ _ _ Hs) as Hr; apply Forall_cons in HA as [(s' & Hs' & Hh) HA]; rewrite Hs in Hs'; injection Hs' as <-.
  all: cbn [length] in Hf, Hc; rewrite (proj2 (Z.leb_gt (q_size q) d)), (proj2 (Z.leb_gt (q_size q) count)) by lia; cbn [orb].
  all: rewrite (slot_of_at q d s Hs); cbn [mbind outcome_bind]; rewrite Hh, Z.eqb_refl; cbn [negb]; rewrite He, desc_next; cbn [fmap list_fmap negb].
  - done.
  - cbn [d_next buffer_desc fst]. unfold wrap16. rewrite Z.mod_small by lia. eapply (IH fuel d' m'); try done; lia.
Qed.

Lemma release_chain_ok ch : forall fuel q fl d m unmapped, described (slots q) ((d, m) :: ch) -> all_slots (slots q) (fun _ s => token s = 0) (d :: ch.*1) ->
  linked (slots q) (free_head q) fl -> free_count q = Z.of_nat (length fl) -> NoDup (d :: ch.*1 ++ fl) -> Z.of_nat (S (length ch) + length fl) < 2 ^ 16 ->
  (S (length ch) <= fuel)%nat ->
  exists q', release_chain fuel q d unmapped = Ret (q', unmapped ++ m :: ch.*2) /\ same_rings q q' /\
    linked (slots q') (free_head q') (reverse (d :: ch.*1) ++ fl) /\ free_count q' = Z.of_nat (length (d :: ch.*1) + length fl) /\
    (forall l, (forall x, x ∈ d :: ch.*1 -> x ∉ l) -> agree (slots q) (slots q') l).
Proof.
  induction ch as [|[d' m'] ch IH]; intros fuel q fl d m unmapped [(s & Hs & Hm & He) HD] HA HL HC HN Hb Hf; (destruct fuel as [|fuel]; [cbn in Hf; lia|]); cbn [release_chain].
  all: pose proof (at_range _ _ _ Hs) as Hr; apply Forall_cons in HA as [(s' & Hs' & Ht) HA]; rewrite Hs in Hs'; injection Hs' as <-.
  all: rewrite (slot_of_at q d s Hs); cbn [mbind outcome_bind]; rewrite put_slot_at by done; cbn [mbind outcome_bind].
  all: set (s1 := MkSlot _ _ _ _ _ _ zero_desc); set (q1 := set_slots q (put (slots q) d s1)).
  all: assert (Hq1 : same_rings q q1) by (split; cbn; try done; apply length_put).
  all: apply NoDup_cons in HN as [Hdn HN]; cbn [length] in Hb, Hf.
  all: destruct (free_desc_ok q1 fl d) as (q2 & -> & HR2 & HL2 & HC2 & HG2); [eapply linked_agree; [apply agree_put; [lia|set_solver]|done]|done|cbn; lia|set_solver|exists s1; split; [apply at_put_eq; lia|done]|].
  all: cbn [mbind outcome_bind]; rewrite He, desc_next; cbn [fmap list_fmap negb].
  all: assert (HG : forall l, d ∉ l -> agree (slots q) (slots q2) l) by (intros l Hl; apply (agree_trans _ (slots q1)); [apply agree_put; [lia|done]|by apply HG2]).
  - exists q2. rewrite Hm. split; [done|]. split; [by eapply same_rings_trans|]. split; [done|]. split; [cbn in HC2 |- *; lia|]. intros l Hl. apply HG, Hl. set_solver.
  - cbn [d_next buffer_desc fst]. rewrite Hm. cbn [fmap list_fmap] in *.
    destruct (IH fuel q2 (d :: fl) d' m' (unmapped ++ [m])) as (q' & -> & HR' & HL' & HC' & HG'); try done; try lia.
    + eapply described_agree; [|exact HD]. apply HG. set_solver.
    + eapply all_slots_agree; [|exact HA]. apply HG. set_solver.
    + rewrite app_comm_cons, <-Permutation_middle. by constructor.
    + cbn [length]. lia.
    + exists q'. split; [by rewrite <-app_assoc|]. split; [exact (same_rings_trans _ _ _ Hq1 (same_rings_trans _ _ _ HR2 HR'))|]. split.
      * rewrite (reverse_cons _ d), <-app_assoc. done.
      * split; [cbn [length] in *; lia|]. intros l Hl. eapply agree_trans; [apply HG, Hl; set_solver|apply HG']. intros x Hx. apply Hl. set_solver.
Qed.
