(* ===== verification/VirtqueueSystem.v ===== *)
(** * Split virtqueues: operations

    [virtqueue_add] turns free descriptors into a chain that describes the
    buffers; completing a chain makes its descriptors free again. *)
From S2P Require Import Prelude Dma Virtqueue VirtqueueInv.

(** A chain in use: its token, and its descriptors with the mappings of the buffers. *)
Notation chain := (Z * list (Z * mapping))%type.
Definition descs (c : chain) : list Z := c.2.*1.
Definition head_of (c : chain) : Z := match c.2 with (h, _) :: _ => h | [] => 0 end.

Definition chain_ok (l : list slot) (c : chain) : Prop :=
  c.1 <> 0 /\ c.2 <> [] /\ described l c.2 /\ all_slots l (fun _ s => chain_head s = head_of c) (descs c) /\
  all_slots l (fun d s => token s = if decide (d = head_of c) then c.1 else 0) (descs c).

Record queue_ok (q : virtqueue) (fl : list Z) (os : list chain) : Prop := {
  q_power : exists k, 0 <= k <= 8 /\ q_size q = 2 ^ k;
  q_slots : Z.of_nat (length (slots q)) = q_size q;
  q_rings : Z.of_nat (length (avail_ring q)) = q_size q /\ Z.of_nat (length (used_ring q)) = q_size q;
  q_count : free_count q = Z.of_nat (length fl);
  q_linked : linked (slots q) (free_head q) fl;
  q_chains : Forall (chain_ok (slots q)) os;
  q_parts : fl ++ concat (descs <$> os) ≡ₚ seqZ 0 (q_size q);
  q_shadows : 0 <= available_shadow q < 2 ^ 16 /\ 0 <= used_shadow q < 2 ^ 16 /\ avail_index q = available_shadow q
}.

Lemma q_bound q fl os : queue_ok q fl os -> 1 <= q_size q <= 256.
Proof. intros H. destruct (q_power _ _ _ H) as (k & Hk & ->). split; [|change 256 with (2 ^ 8); apply Z.pow_le_mono_r; lia]. pose proof (Z.pow_pos_nonneg 2 k). lia. Qed.
Lemma q_nodup q fl os : queue_ok q fl os -> NoDup (fl ++ concat (descs <$> os)).
Proof. intros H. rewrite (q_parts _ _ _ H). apply NoDup_seqZ. Qed.
Lemma q_total q fl os : queue_ok q fl os -> Z.of_nat (length fl + length (concat (descs <$> os))) = q_size q.
Proof. intros H. rewrite <-length_app, (q_parts _ _ _ H), length_seqZ. pose proof (q_bound _ _ _ H). lia. Qed.
Lemma q_range q fl os d : queue_ok q fl os -> d ∈ fl ++ concat (descs <$> os) -> 0 <= d < q_size q.
Proof. intros H. rewrite (q_parts _ _ _ H), elem_of_seqZ. lia. Qed.

Lemma elem_of_chains (os : list chain) c d : c ∈ os -> d ∈ descs c -> d ∈ concat (descs <$> os).
Proof.
  intros Hc Hd. apply list_elem_of_In, in_concat. exists (descs c). split; apply list_elem_of_In; [|done]. apply list_elem_of_fmap. eauto.
Qed.

Lemma chain_agree l l' c : agree l l' (descs c) -> chain_ok l c -> chain_ok l' c.
Proof. intros HA (? & ? & ? & ? & ?). split_and!; try done; [by eapply described_agree|by eapply all_slots_agree..]. Qed.
Lemma chains_agree l l' os : agree l l' (concat (descs <$> os)) -> Forall (chain_ok l) os -> Forall (chain_ok l') os.
Proof.
  intros HA. rewrite !Forall_forall. intros H c Hc. eapply chain_agree; [|by apply H]. intros d Hd. apply HA. by eapply elem_of_chains.
Qed.

(** A step that changes descriptors but not the rings. *)
Lemma queue_rings q q' fl os fl' os' : queue_ok q fl os -> same_rings q q' -> free_count q' = Z.of_nat (length fl') ->
  linked (slots q') (free_head q') fl' -> Forall (chain_ok (slots q')) os' -> fl' ++ concat (descs <$> os') ≡ₚ fl ++ concat (descs <$> os) -> queue_ok q' fl' os'.
Proof.
  intros [H1 H2 H3 H4 H5 H6 H7 H8] [E1 (E2 & E3 & E4) (E5 & E6 & E7) E8] HC HL HF HP.
  split; rewrite ?E1, ?E2, ?E3, ?E4, ?E5, ?E6, ?E8; try done. by rewrite HP.
Qed.

(** ** Adding *)

Section add.
  Context (dma_map : virtio_buffer -> option Z).

(** What a request must be. *)
Definition request_valid (buffers : list virtio_buffer) (tok : Z) : Prop :=
  1 <= Z.of_nat (length buffers) <= 32 /\ tok <> 0 /\ Forall (fun b => vb_direction b = DMA_TO_DEVICE \/ vb_direction b = DMA_FROM_DEVICE) buffers.

Lemma valid_test buffers tok :
  (negb (truth (Z.of_nat (length buffers))) || (32 <? Z.of_nat (length buffers)) || negb (truth tok)) ||
  existsb (fun b => bool_decide (vb_direction b <> DMA_TO_DEVICE /\ vb_direction b <> DMA_FROM_DEVICE)) buffers = false <-> request_valid buffers tok.
Proof.
  unfold request_valid, truth. rewrite !orb_false_iff, !negb_false_iff, !negb_true_iff, !Z.eqb_neq, Z.ltb_ge.
  rewrite <-not_true_iff_false, existsb_exists. setoid_rewrite bool_decide_eq_true. rewrite Forall_forall. setoid_rewrite list_elem_of_In.
  split.
  - intros [[[H1 H2] H3] H]. split_and!; [lia|lia|done|]. intros b Hb. destruct (vb_direction b) eqn:E; auto. destruct H. exists b. by rewrite E.
  - intros [[H1 H2] [H3 H]]. split_and!; [lia|lia|done|]. intros (b & Hb & ? & ?). destruct (H b Hb); done.
Qed.

(** Publishing the chain [ds] with the mappings. *)
Lemma publish_ok q fl os ds mapped tok : queue_ok q (ds ++ fl) os -> length mapped = length ds -> ds <> [] -> tok <> 0 ->
  forall q1, same_rings q q1 -> linked (slots q1) (free_head q1) fl -> free_count q1 = Z.of_nat (length fl) ->
  (forall l, (forall d, d ∈ ds -> d ∉ l) -> agree (slots q) (slots q1) l) -> all_slots (slots q1) (fun _ s => token s = 0) ds ->
  described (slots q1) (zip ds mapped) -> forall h, rd ds 0 = Ret h ->
  exists q', (q2 ← for_each (set_head h) ds q1; s ← slot_of q2 h; put_slot q2 h (set_token s tok)) = Ret q' /\ same_rings q q' /\
    queue_ok q' fl ((tok, zip ds mapped) :: os).
Proof.
  intros HQ Hlen Hne Htok q1 HR1 HL1 HC1 HG1 HT1 HD1 h Hh. pose proof (q_nodup _ _ _ HQ) as HN. rewrite <-app_assoc in HN.
  assert (HNd : NoDup ds) by (by apply NoDup_app in HN as [? _]).
  assert (Hdis : forall d, d ∈ ds -> d ∉ fl ++ concat (descs <$> os)) by (apply NoDup_app in HN as (_ & ? & _); done).
  pose proof (q_slots _ _ _ HQ) as Hsl. destruct HR1 as [E1 E2 E3 E4].
  assert (Hrange : Forall (fun d => 0 <= d < Z.of_nat (length (slots q1))) ds).
  { apply Forall_forall. intros d Hd. rewrite E4, Hsl. eapply q_range; [done|]. set_solver. }
  destruct (set_heads_ok h ds q1 HNd Hrange) as (q2 & -> & HR2 & Hfh & Hfc & HA2). cbn [mbind outcome_bind].
  destruct ds as [|h' ds]; [done|]. injection Hh as ->. destruct mapped as [|m mapped]; [done|].
  apply Forall_cons in Hrange as [Hr0 Hrange]. destruct (at_some (slots q1) h Hr0) as [s Hs].
  assert (Hs2 : at_ (slots q2) h = Some (set_chain_head s h)) by (rewrite HA2, decide_True by set_solver; by rewrite Hs).
  rewrite (slot_of_at q2 h _ Hs2). cbn [mbind outcome_bind]. rewrite put_slot_at by (rewrite (sr_length _ _ HR2); done). eexists. split; [done|].
  set (q' := set_slots q2 _). assert (Hh0 : 0 <= h < Z.of_nat (length (slots q2))) by (rewrite (sr_length _ _ HR2); done).
  assert (HR' : same_rings q q').
  { eapply same_rings_trans; [by split|]. eapply same_rings_trans; [done|]. split; cbn; try done. apply length_put. }
  assert (Hat : forall d, at_ (slots q') d = if decide (d ∈ h :: ds) then (fun s => if decide (d = h) then set_token (set_chain_head s h) tok else set_chain_head s h) <$> at_ (slots q1) d else at_ (slots q1) d).
  { intros d. cbn. destruct (decide (d = h)) as [->|Hdh].
    - rewrite at_put_eq by done. rewrite decide_True by set_solver. by rewrite Hs.
    - rewrite at_put_ne by (done || lia). rewrite HA2. done. }
  assert (HG' : forall l, (forall d, d ∈ h :: ds -> d ∉ l) -> agree (slots q) (slots q') l).
  { intros l Hl. eapply agree_trans; [by apply HG1|]. intros d Hd. rewrite Hat, decide_False; [done|]. intros Hin. by apply (Hl d). }
  assert (Hzip : (zip (h :: ds) (m :: mapped)).*1 = h :: ds) by (apply fst_zip; cbn in *; lia).
  assert (Hall : forall P Q, all_slots (slots q1) P (h :: ds) -> (forall d s, d ∈ h :: ds -> P d s -> Q d (if decide (d = h) then set_token (set_chain_head s h) tok else set_chain_head s h)) ->
    all_slots (slots q') Q (h :: ds)).
  { intros P Q HP HPQ. apply Forall_forall. intros d Hd. apply (proj1 (Forall_forall _ _) HP) in Hd as Hd'. destruct Hd' as (sd & Hsd & Hp).
    eexists. rewrite Hat, decide_True, Hsd by done. split; [done|]. by apply HPQ. }
  split; [done|]. eapply (queue_rings q); [done|done|..].
  - cbn. by rewrite Hfc.
  - cbn [q' set_slots free_head set_free]. rewrite Hfh. eapply linked_agree; [|exact HL1]. intros d Hd. rewrite Hat, decide_False; [done|]. intros Hin. apply (Hdis d Hin). set_solver.
  - constructor.
    + split_and!; [done|done|..]; cbn [snd fst].
      * eapply described_alike; [|exact HD1]. intros d sd Hd Hsd. rewrite Hat, Hsd. cbn. case_decide; eexists; (split; [done|]); [by case_decide|done].
      * unfold descs. cbn [snd]. rewrite Hzip. apply (Hall _ _ HT1). intros d sd _ _. cbn. by case_decide.
      * unfold descs. cbn [snd]. rewrite Hzip. apply (Hall _ _ HT1). intros d sd _ Ht. cbn. by case_decide.
    + eapply chains_agree; [|apply HQ]. apply HG'. intros d Hd Hin. apply (Hdis d Hd). set_solver.
  - rewrite fmap_cons, concat_cons. unfold descs at 1. cbn [snd]. rewrite Hzip, app_assoc. apply Permutation_app_tail, Permutation_app_comm.
Qed.

(** The three ends of [virtqueue_add]. *)
Definition add_result (q : virtqueue) (fl : list Z) (os : list chain) (buffers : list virtio_buffer) (tok rc : Z) (q' : virtqueue) (mapped undone : list mapping) : Prop :=
  (rc = 0 /\ request_valid buffers tok /\ mapM (map_one dma_map) buffers = Some mapped /\ undone = [] /\
   exists ds fl' q1, fl = ds ++ fl' /\ length ds = length buffers /\ same_rings q q1 /\ queue_ok q1 fl' ((tok, zip ds mapped) :: os) /\
     q' = set_available q1 (wrap16 (available_shadow q + 1)) (<[Z.to_nat (available_shadow q mod q_size q) := hd 0 ds]> (avail_ring q)) (wrap16 (available_shadow q + 1))) \/
  (rc = -1 /\ request_valid buffers tok /\ q' = q /\ mapped = [] /\ undone = [] /\ Z.of_nat (length fl) < Z.of_nat (length buffers)) \/
  (rc = -2 /\ undone = mapped /\ same_rings q q' /\
   (~ request_valid buffers tok /\ q' = q /\ mapped = [] \/
    mapM (map_one dma_map) buffers = None /\ mapM (map_one dma_map) (take (length mapped) buffers) = Some mapped) /\
   exists fl', fl' ≡ₚ fl /\ queue_ok q' fl' os).

Lemma virtqueue_add_ok q fl os buffers tok : queue_ok q fl os ->
  exists rc q' mapped undone, virtqueue_add dma_map q buffers tok = Ret (rc, q', mapped, undone) /\ add_result q fl os buffers tok rc q' mapped undone.
Proof.
  intros HQ. pose proof (q_bound _ _ _ HQ) as Hsz. pose proof (q_total _ _ _ HQ) as Htot. pose proof (q_nodup _ _ _ HQ) as HN. pose proof (q_count _ _ _ HQ) as HC.
  assert (Hfb : free_count q < 2 ^ 16) by lia. unfold virtqueue_add. pose proof (valid_test buffers tok) as HV.
  assert (Hbad : (negb (truth (Z.of_nat (length buffers))) || (32 <? Z.of_nat (length buffers)) || negb (truth tok)) ||
    existsb (fun b => bool_decide (vb_direction b <> DMA_TO_DEVICE /\ vb_direction b <> DMA_FROM_DEVICE)) buffers = true -> add_result q fl os buffers tok (-2) q [] []).
  { intros Hb. right. right. split; [done|]. split; [done|]. split; [apply same_rings_refl|]. split; [left|exists fl; split; [reflexivity|exact HQ]].
    split; [|done]. intros Hv%HV. by rewrite Hv in Hb. }
  destruct (negb (truth (Z.of_nat (length buffers))) || (32 <? Z.of_nat (length buffers)) || negb (truth tok)) eqn:E1; [exists (-2), q, [], []; split; [done|by apply Hbad]|].
  destruct (existsb _ buffers) eqn:E2; [exists (-2), q, [], []; split; [done|by apply Hbad]|]. assert (Hv : request_valid buffers tok) by (by apply HV).
  destruct (Z.ltb_spec (free_count q) (Z.of_nat (length buffers))) as [Hlt|Hge].
  { exists (-1), q, [], []. split; [done|]. right. left. split_and!; try done. lia. }
  set (ds := take (length buffers) fl). set (fl' := drop (length buffers) fl). assert (Efl : fl = ds ++ fl') by (symmetry; apply take_drop).
  assert (Hld : length ds = length buffers) by (unfold ds; rewrite length_take; lia). rewrite Efl in HQ, HN, HC.
  destruct (alloc_descs_ok ds q fl' (q_linked _ _ _ HQ) HC Hfb) as (q1 & Ea & HR1 & HS1 & HL1 & HC1). rewrite Hld in Ea. rewrite Ea. cbn [mbind outcome_bind].
  assert (HNd : NoDup ds) by (apply NoDup_app in HN as [HN _]; by apply NoDup_app in HN as [? _]).
  assert (Hdis : forall d, d ∈ ds -> d ∉ fl' ++ concat (descs <$> os)) by (rewrite <-app_assoc in HN; apply NoDup_app in HN as (_ & ? & _); done).
  assert (Hrange : Forall (fun d => 0 <= d < Z.of_nat (length (slots q1))) ds).
  { apply Forall_forall. intros d Hd. rewrite HS1, (q_slots _ _ _ HQ). eapply q_range; [done|]. set_solver. }
  destruct (map_buffers_ok dma_map buffers ds q1 Hld HNd Hrange) as (q2 & mapped & ok & -> & HR2 & Hfh & Hfc & HG2 & HT2 & HM). cbn [mbind outcome_bind].
  assert (HT : all_slots (slots q2) (fun _ s => token s = 0) ds).
  { pose proof (linked_app _ _ _ _ (q_linked _ _ _ HQ)) as (_ & _ & Hl%linked_all). eapply Forall_impl; [exact Hl|]. intros d (s & Hs & Ht). rewrite <-HS1 in Hs.
    destruct (HT2 d s Hs) as (s' & ? & ? & _). exists s'. split; [done|congruence]. }
  assert (HL2 : linked (slots q2) (free_head q2) fl') by (rewrite Hfh; eapply linked_agree; [apply HG2; intros d Hd Hin; apply (Hdis d Hd); set_solver|done]).
  assert (HC2 : free_count q2 = Z.of_nat (length fl')) by congruence. assert (HR02 : same_rings q q2) by (by eapply same_rings_trans).
  assert (HG02 : forall l, (forall d, d ∈ ds -> d ∉ l) -> agree (slots q) (slots q2) l) by (intros l Hl; rewrite <-HS1; by apply HG2).
  destruct ok; destruct HM as [HM HD]; cbn [negb].
  - destruct ds as [|h ds0] eqn:Eds; [destruct Hv as [Hv _]; cbn in Hld; lia|]. cbn [rd deref lookup list_lookup mbind outcome_bind].
    assert (Hlm : length mapped = length (h :: ds0)) by (apply length_mapM in HM; congruence).
    destruct (publish_ok q fl' os (h :: ds0) mapped tok HQ Hlm ltac:(done) (proj1 (proj2 Hv)) q2 HR02 HL2 HC2 HG02 HT HD h eq_refl) as (q3 & E3 & HR3 & HQ3).
    apply bind_Ret in E3 as (q2' & -> & E3). cbn [mbind outcome_bind]. apply bind_Ret in E3 as (s & -> & E3). cbn [mbind outcome_bind]. rewrite E3. cbn [mbind outcome_bind].
    pose proof HR3 as [S1 (S2 & S3 & S4) S5 S6]. pose proof (Z.mod_pos_bound (available_shadow q) (q_size q) ltac:(lia)) as Hmod. pose proof (q_rings _ _ _ HQ) as [Hring _].
    rewrite S1, S2, S3, wr_Ret by lia. cbn [mbind outcome_bind]. do 4 eexists. split; [done|]. left. split_and!; try done.
    exists (h :: ds0), fl', q3. split_and!; try done.
  - destruct HD as [HD HU]. rewrite (unmap_descs_ok q2 _ _ HU). cbn [mbind outcome_bind]. destruct (free_descs_ok ds q2 fl' HL2 HC2) as (q3 & -> & HR3 & HL3 & HC3 & HG3); [rewrite Efl, length_app in Htot; lia|by apply NoDup_app in HN as [? _]|done|].
    cbn [mbind outcome_bind]. do 4 eexists. split; [done|]. right. right. split_and!; try done; [by eapply same_rings_trans|by right|].
    exists (reverse ds ++ fl'). split; [rewrite Efl; apply Permutation_app_tail, reverse_Permutation|]. eapply (queue_rings q); [done|by eapply same_rings_trans|done|done|..].
    + eapply chains_agree; [|apply HQ]. eapply agree_trans; [apply HG02|apply HG3]; intros d Hd Hin; apply (Hdis d Hd); set_solver.
    + apply Permutation_app_tail, Permutation_app_tail, reverse_Permutation.
Qed.
End add.

(** ** Completing *)

(** Taking the token of a chain leaves its descriptors as they are. *)
Lemma take_token q h s m ch tok : at_ (slots q) h = Some s -> NoDup (h :: ch.*1) -> described (slots q) ((h, m) :: ch) ->
  all_slots (slots q) (fun _ s => chain_head s = h) (h :: ch.*1) -> all_slots (slots q) (fun d s => token s = if decide (d = h) then tok else 0) (h :: ch.*1) ->
  let q1 := set_slots q (put (slots q) h (set_token s 0)) in
  put_slot q h (set_token s 0) = Ret q1 /\ same_rings q q1 /\ described (slots q1) ((h, m) :: ch) /\
  all_slots (slots q1) (fun _ s => chain_head s = h) (h :: ch.*1) /\ all_slots (slots q1) (fun _ s => token s = 0) (h :: ch.*1) /\
  forall l, h ∉ l -> agree (slots q) (slots q1) l.
Proof.
  intros Hs HN HD HH HT q1. pose proof (at_range _ _ _ Hs) as Hr. apply NoDup_cons in HN as [Hh _].
  assert (HG : forall l, h ∉ l -> agree (slots q) (slots q1) l) by (intros l Hl; apply agree_put; [lia|done]).
  assert (Hat : at_ (slots q1) h = Some (set_token s 0)) by (apply at_put_eq; lia).
  split_and!; try done.
  - by apply put_slot_at.
  - split; cbn; try done. apply length_put.
  - destruct HD as [(s' & Hs' & HD) HD']. rewrite Hs in Hs'. injection Hs' as <-. split; [eexists; split; [exact Hat|done]|]. by eapply described_agree; [apply HG|].
  - apply Forall_cons in HH as [(s' & Hs' & HH) HH']. rewrite Hs in Hs'. injection Hs' as <-. constructor; [eexists; split; [exact Hat|done]|]. by eapply all_slots_agree; [apply HG|].
  - apply Forall_cons in HT as [_ HT]. constructor; [eexists; split; [exact Hat|done]|]. eapply all_slots_agree; [by apply HG|]. apply Forall_forall. intros d Hd.
    destruct (proj1 (Forall_forall _ _) HT d Hd) as (sd & ? & Ht). exists sd. split; [done|]. rewrite Ht, decide_False; [done|]. by intros ->.
Qed.

Lemma complete_ok q fl os1 c os2 : queue_ok q fl (os1 ++ c :: os2) ->
  exists s q1 q', at_ (slots q) (head_of c) = Some s /\ token s = c.1 /\ put_slot q (head_of c) (set_token s 0) = Ret q1 /\
    virtqueue_release_chain q1 (head_of c) = Ret (q', c.2.*2) /\ same_rings q q' /\ queue_ok q' (reverse (descs c) ++ fl) (os1 ++ os2).
Proof.
  intros HQ. pose proof (q_bound _ _ _ HQ) as Hsz. pose proof (q_total _ _ _ HQ) as Htot. pose proof (q_nodup _ _ _ HQ) as HN. pose proof (q_slots _ _ _ HQ) as Hsl.
  pose proof (q_chains _ _ _ HQ) as HCh. apply Forall_app in HCh as [HCh1 [HCc HCh2]%Forall_cons]. destruct HCc as (Htok & Hne & HD & HH & HT).
  assert (HP : fl ++ concat (descs <$> os1 ++ c :: os2) ≡ₚ descs c ++ fl ++ concat (descs <$> os1 ++ os2)).
  { rewrite !fmap_app, fmap_cons, !concat_app, concat_cons. rewrite (Permutation_app_comm (concat (descs <$> os1)) (descs c ++ _)), <-app_assoc, (Permutation_app_comm (concat (descs <$> os2))).
    rewrite !app_assoc. apply Permutation_app_tail, Permutation_app_tail, Permutation_app_comm. }
  rewrite HP in HN. rewrite <-length_app, HP, !length_app in Htot. apply NoDup_app in HN as (HNc & Hdis & HNo). apply NoDup_app in HNo as (HNf & _ & _).
  destruct c as [tok [|[h m] ch]]; [done|]. change (descs (tok, (h, m) :: ch)) with (h :: ch.*1) in *. change (head_of (tok, (h, m) :: ch)) with h in *. cbn [fst snd length] in *.
  pose proof HT as [(s & Hs & Ht) _]%Forall_cons. rewrite decide_True in Ht by done.
  destruct (take_token q h s m ch tok Hs HNc HD HH HT) as (E1 & HR1 & HD1 & HH1 & HT1 & HG1). set (q1 := set_slots q _) in *. exists s, q1.
  pose proof HR1 as [S1 S2 S3 S4]. unfold virtqueue_release_chain.
  rewrite (check_chain_ok q1 h ch _ h m 0 HD1 HH1), S1; [|rewrite ?S1, ?S4; rewrite ?length_fmap in *; lia..]. cbn [mbind outcome_bind].
  destruct (release_chain_ok ch (S (Z.to_nat (q_size q))) q1 fl h m [] HD1 HT1) as (q' & -> & HR' & HL' & HC' & HG').
  - eapply linked_agree; [|apply HQ]. apply HG1. set_solver.
  - apply HQ.
  - change (NoDup ((h :: ch.*1) ++ fl)). apply NoDup_app. split_and!; [done| |done]. set_solver.
  - rewrite ?length_fmap in *. lia.
  - rewrite ?length_fmap in *. lia.
  - exists q'. split_and!; try done; [by eapply same_rings_trans|]. eapply (queue_rings q); [done|by eapply same_rings_trans|..].
    + rewrite HC', length_app, length_reverse. done.
    + done.
    + eapply (chains_agree (slots q)); [|by apply Forall_app]. eapply agree_trans; [apply HG1|apply HG']; set_solver.
    + rewrite HP, reverse_Permutation, <-app_assoc. done.
Qed.

(** The next completion of the device: the chain [c] with [len] bytes written. *)
Lemma get_used_ok q fl os1 c os2 len : queue_ok q fl (os1 ++ c :: os2) -> 0 < wrap16 (used_index q - used_shadow q) <= q_size q ->
  used_ring q !! Z.to_nat (used_shadow q mod q_size q) = Some (head_of c, len) ->
  exists q1, virtqueue_get_used q = Ret (c.1, len, set_used_shadow q1 (wrap16 (used_shadow q + 1)), c.2.*2) /\
    same_rings q q1 /\ queue_ok q1 (reverse (descs c) ++ fl) (os1 ++ os2).
Proof.
  intros HQ Hp Hu. destruct (complete_ok q fl os1 c os2 HQ) as (s & q1 & q' & Hs & Ht & E1 & E2 & HR & HQ'). pose proof (at_range _ _ _ Hs) as Hr.
  unfold virtqueue_get_used, virtqueue_used_pending_locked. rewrite (proj2 (Z.ltb_ge _ _)) by lia. cbn [mbind outcome_bind]. unfold truth at 1.
  rewrite (proj2 (Z.eqb_neq _ _)) by lia. cbn [negb]. rewrite (rd_Ret _ _ _ Hu). cbn [mbind outcome_bind].
  rewrite (proj2 (Z.leb_gt _ _)) by (rewrite <-(q_slots _ _ _ HQ); lia). rewrite (slot_of_at q _ s Hs). cbn [mbind outcome_bind].
  pose proof (q_chains _ _ _ HQ) as HCh. apply Forall_app in HCh as [_ [(Htok & _) _]%Forall_cons].
  unfold truth. rewrite Ht, (proj2 (Z.eqb_neq _ _) Htok). cbn [negb]. rewrite E1. cbn [mbind outcome_bind]. rewrite E2. cbn [mbind outcome_bind].
  exists q'. destruct HR as [R1 R2 [R3 R4] R5]. by rewrite R3.
Qed.

(** * Split virtqueues: driver and device

    Steps of the driver and of a device that follows the protocol: it takes the
    published chains in order and completes each chain it holds once. *)

(** The queue, the device's position in the available ring, the chains it holds, and whether it is running. *)
Record vsys := MkV { v_q : virtqueue; v_cursor : Z; v_held : list Z; v_live : bool }.

(** A request taken by the queue or given back, with the mappings made or undone. *)
Inductive vevent := Added (tok : Z) (mapped : list mapping) | Returned (tok : Z) (unmapped : list mapping) | Quiet.
(** The requests given to and got back from the queue; the last event comes first. *)
Fixpoint added (tr : list vevent) : list (Z * list mapping) := match tr with [] => [] | Added t m :: tr => (t, m) :: added tr | _ :: tr => added tr end.
Fixpoint returned (tr : list vevent) : list (Z * list mapping) := match tr with [] => [] | Returned t m :: tr => (t, m) :: returned tr | _ :: tr => returned tr end.
(** The request a chain is for. *)
Definition request (c : chain) : Z * list mapping := (c.1, c.2.*2).

Definition set_used (q : virtqueue) ring index : virtqueue :=
  MkQueue (q_size q) (available_shadow q) (used_shadow q) (free_count q) (free_head q) (slots q) (avail_ring q) (avail_index q) ring index.
Definition token_event (tok : Z) (unmapped : list mapping) : vevent := if truth tok then Returned tok unmapped else Quiet.

(** What the device reads, following the chain from a descriptor: address, length and whether it may write. *)
Fixpoint read_chain (fuel : nat) (l : list slot) (d : Z) : list (Z * Z * bool) :=
  match fuel, at_ l d with
  | S fuel, Some s =>
      (d_address (desc s), d_length (desc s), truth (Z.land (d_flags (desc s)) VRING_DESC_F_WRITE)) ::
      (if truth (Z.land (d_flags (desc s)) VRING_DESC_F_NEXT) then read_chain fuel l (d_next (desc s)) else [])
  | _, _ => []
  end.
Definition device_view (m : mapping) : Z * Z * bool := (m.1.1, m.1.2, bool_decide (m.2 = DMA_FROM_DEVICE)).

Inductive vstep (v : vsys) : vevent -> vsys -> Prop :=
| vstep_add dma_map buffers tok rc q' mapped undone : v_live v = true -> virtqueue_add dma_map (v_q v) buffers tok = Ret (rc, q', mapped, undone) ->
    vstep v (if rc =? 0 then Added tok mapped else Quiet) (MkV q' (v_cursor v) (v_held v) true)
| vstep_consume h : v_live v = true -> v_cursor v <> avail_index (v_q v) -> avail_ring (v_q v) !! Z.to_nat (v_cursor v mod q_size (v_q v)) = Some h ->
    vstep v Quiet (MkV (v_q v) (wrap16 (v_cursor v + 1)) (v_held v ++ [h]) true)
| vstep_complete h len l1 l2 : v_live v = true -> v_held v = l1 ++ h :: l2 ->
    vstep v Quiet (MkV (set_used (v_q v) (<[Z.to_nat (used_index (v_q v) mod q_size (v_q v)) := (h, len)]> (used_ring (v_q v))) (wrap16 (used_index (v_q v) + 1)))
                     (v_cursor v) (l1 ++ l2) true)
| vstep_get tok len q' unmapped : v_live v = true -> virtqueue_get_used (v_q v) = Ret (tok, len, q', unmapped) ->
    vstep v (token_event tok unmapped) (MkV q' (v_cursor v) (v_held v) true)
| vstep_reset : vstep v Quiet (MkV (v_q v) (v_cursor v) [] false)
| vstep_detach tok q' unmapped : v_live v = false -> virtqueue_detach_unused (v_q v) = Ret (tok, q', unmapped) ->
    vstep v (token_event tok unmapped) (MkV q' (v_cursor v) [] false).

Inductive vexec : list vevent -> vsys -> Prop :=
| vexec_new size q : 0 <= size -> virtqueue_create true true size = Some q -> vexec [] (MkV q 0 [] true)
| vexec_step tr v e v' : vexec tr v -> vstep v e v' -> vexec (e :: tr) v'.

(** ** Rings *)

(** From position [from] to [to] (exclusive) the ring holds the list. *)
Record ring_holds {A} (ring : list A) (size from to : Z) (l : list A) : Prop := {
  rh_count : wrap16 (to - from) = Z.of_nat (length l);
  rh_fit : Z.of_nat (length l) <= size;
  rh_at i x : l !! i = Some x -> ring !! Z.to_nat ((from + Z.of_nat i) mod size) = Some x
}.

Definition ring_size (size : Z) : Prop := exists k, 0 <= k <= 8 /\ size = 2 ^ k.

Lemma ring_size_bound size : ring_size size -> 1 <= size <= 256.
Proof. intros (k & Hk & ->). split; [pose proof (Z.pow_pos_nonneg 2 k); lia|]. change 256 with (2 ^ 8). apply Z.pow_le_mono_r; lia. Qed.

Lemma wrap16_mod size x : ring_size size -> wrap16 x mod size = x mod size.
Proof.
  intros Hs. pose proof (ring_size_bound _ Hs). destruct Hs as (k & Hk & ->). unfold wrap16. symmetry. apply Znumtheory.Zmod_div_mod; [lia|lia|].
  exists (2 ^ (16 - k)). rewrite <-Z.pow_add_r by lia. f_equal. lia.
Qed.

Lemma wrap16_add x y : wrap16 (wrap16 x + y) = wrap16 (x + y).
Proof. apply Zplus_mod_idemp_l. Qed.
Lemma wrap16_small x : 0 <= x < 2 ^ 16 -> wrap16 x = x.
Proof. apply Z.mod_small. Qed.

(** Two positions of one window are the same slot only if they are the same position. *)
Lemma mod_window size a i j : 0 < size -> 0 <= i < size -> 0 <= j < size -> (a + i) mod size = (a + j) mod size -> i = j.
Proof.
  intros Hs Hi Hj E. assert (H : (i - j) mod size = 0).
  { replace (i - j) with ((a + i) - (a + j)) by lia. rewrite Zminus_mod, E, Z.sub_diag. by apply Z.mod_0_l; lia. }
  apply Z.mod_divide in H as [k Hk]; [|lia]. destruct (Z.lt_trichotomy k 0) as [?|[-> |?]]; [nia|lia|nia].
Qed.

Lemma ring_push {A} (ring : list A) size from to l x : ring_holds ring size from to l -> ring_size size -> Z.of_nat (length ring) = size ->
  Z.of_nat (length l) < size -> ring_holds (<[Z.to_nat (to mod size) := x]> ring) size from (wrap16 (to + 1)) (l ++ [x]).
Proof.
  intros [Hc Hf Ha] Hs Hr Hl. pose proof (ring_size_bound _ Hs) as Hb.
  assert (Hto : to mod size = (from + Z.of_nat (length l)) mod size).
  { rewrite <-Hc. rewrite <-(wrap16_mod size (from + _)) by done. rewrite Z.add_comm, wrap16_add, wrap16_mod by done. f_equal. lia. }
  split.
  - rewrite length_app. cbn [length]. replace (wrap16 (to + 1) - from) with (wrap16 (to + 1) + (- from)) by lia. rewrite wrap16_add.
    replace (to + 1 + - from) with ((to - from) + 1) by lia. rewrite <-wrap16_add, Hc, wrap16_small; lia.
  - rewrite length_app. cbn. lia.
  - intros i y Hy. pose proof (Z.mod_pos_bound (from + Z.of_nat i) size ltac:(lia)). pose proof (Z.mod_pos_bound to size ltac:(lia)).
    apply lookup_app_Some in Hy as [Hy|[Hi Hy]].
    + apply lookup_lt_Some in Hy as Hlt. rewrite list_lookup_insert_ne; [by apply Ha|]. intros E. apply Z2Nat.inj in E; [|lia|lia]. rewrite Hto in E.
      apply mod_window in E; lia.
    + apply list_lookup_singleton_Some in Hy as [Hi0 <-]. replace (Z.of_nat i) with (Z.of_nat (length l)) by lia. rewrite <-Hto. apply list_lookup_insert_eq. lia.
Qed.

Lemma ring_pop {A} (ring : list A) size from to x l : ring_holds ring size from to (x :: l) -> ring_size size ->
  ring !! Z.to_nat (from mod size) = Some x /\ ring_holds ring size (wrap16 (from + 1)) to l.
Proof.
  intros [Hc Hf Ha] Hs. pose proof (ring_size_bound _ Hs) as Hb. cbn [length] in Hc, Hf. split; [rewrite <-(Ha 0%nat x eq_refl); by rewrite Z.add_0_r|]. split.
  - assert (E : wrap16 (to - wrap16 (from + 1)) = wrap16 ((to - from) + -1)).
    { unfold wrap16. rewrite Zminus_mod_idemp_r. f_equal. lia. }
    rewrite E, <-wrap16_add, Hc, wrap16_small; lia.
  - lia.
  - intros i y Hy. rewrite <-(Ha (S i) y Hy). do 2 f_equal. rewrite Z.add_mod, wrap16_mod, <-Z.add_mod by (done || lia). f_equal. lia.
Qed.
Lemma ring_nil {A} (ring : list A) size from : 0 <= size -> ring_holds ring size from from [].
Proof. intros Hs. split; [by rewrite Z.sub_diag|done|done]. Qed.
