(* ===== verification/VirtqueueTheorems.v ===== *)
(** * Split virtqueues: the theorems

    In every run of driver and device the queue stays consistent: requests come
    back once, and the device sees the buffers that were added. *)
From S2P Require Import Prelude PageAlloc Vm VmSpace VmExample Dma Virtqueue VirtqueueInv VirtqueueSystem.

(** While the device runs: [pub] is published and not yet taken, [done] completed and not yet returned. *)
Record rings_ok (v : vsys) (os : list chain) (pub : list Z) (done : list (Z * Z)) : Prop := {
  r_cursor : 0 <= v_cursor v < 2 ^ 16;
  r_used : 0 <= used_index (v_q v) < 2 ^ 16;
  r_pub : ring_holds (avail_ring (v_q v)) (q_size (v_q v)) (v_cursor v) (avail_index (v_q v)) pub;
  r_done : ring_holds (used_ring (v_q v)) (q_size (v_q v)) (used_shadow (v_q v)) (used_index (v_q v)) done;
  r_heads : pub ++ v_held v ++ done.*1 ≡ₚ head_of <$> os
}.

Record vinv (tr : list vevent) (v : vsys) (fl : list Z) (os : list chain) : Prop := {
  vi_queue : queue_ok (v_q v) fl os;
  vi_tokens : added tr ≡ₚ returned tr ++ (request <$> os);
  vi_rings : v_live v = true -> exists pub done, rings_ok v os pub done
}.

(** ** Creation *)

Lemma power_of_two_test size : 0 < size <= 256 -> Z.land size (size - 1) = 0 -> ring_size size.
Proof.
  intros Hs Hl. assert (H : forallb (fun x => negb (Z.land x (x - 1) =? 0) || existsb (fun k => x =? 2 ^ k) (seqZ 0 9)) (seqZ 1 256) = true) by (vm_compute; reflexivity).
  rewrite forallb_forall in H. specialize (H size). rewrite Hl in H. cbn [Z.eqb negb orb] in H.
  apply existsb_exists in H as (k & Hk%list_elem_of_In%elem_of_seqZ & ->%Z.eqb_eq); [exists k; split; [lia|done]|]. apply list_elem_of_In, elem_of_seqZ. lia.
Qed.

Lemma new_linked size : 0 <= size < 2 ^ 16 -> forall n k, 0 <= k -> k + Z.of_nat n = size ->
  linked ((fun d => MkSlot (wrap16 (d + 1)) 0 0 0 DMA_BIDIRECTIONAL UINT16_MAX zero_desc) <$> seqZ 0 size) k (seqZ k (Z.of_nat n)).
Proof.
  intros Hs n. induction n as [|n IH]; intros k Hk Hn; [done|]. rewrite (seqZ_cons k) by lia. replace (Z.pred (Z.of_nat (S n))) with (Z.of_nat n) by lia. cbn [linked].
  split; [done|]. eexists. unfold at_. rewrite decide_True, list_lookup_fmap, lookup_seqZ_lt by lia. split; [done|]. split; [done|]. cbn [free_next].
  unfold wrap16. rewrite Z2Nat.id by lia. rewrite Z.add_0_l, Z.mod_small by lia. destruct n; [done|]. by apply IH; lia.
Qed.

Lemma new_queue_ok size q : 0 <= size -> virtqueue_create true true size = Some q -> queue_ok q (seqZ 0 size) [] /\ q_size q = size /\ used_shadow q = 0 /\
  used_index q = 0 /\ available_shadow q = 0.
Proof.
  intros Hs. unfold virtqueue_create. destruct (_ || _) eqn:E; [done|]. intros [= <-]. cbn [negb orb] in E.
  apply orb_false_iff in E as [[[[E2 E3]%orb_false_iff E4]%orb_false_iff _]%orb_false_iff _]. unfold truth in *.
  apply negb_false_iff, negb_true_iff, Z.eqb_neq in E2. apply negb_false_iff, Z.eqb_eq in E3. apply Z.ltb_ge in E4. unfold PGSIZE in E4.
  assert (Hb : 0 < size <= 256) by lia. split; [|done]. split; cbn; rewrite ?length_fmap, ?length_replicate, ?length_seqZ, ?app_nil_r; try done; try lia.
  - by apply power_of_two_test.
  - rewrite <-(Z2Nat.id size) at 2 by lia. apply (new_linked size); lia.
Qed.

Lemma vinv_new size q : 0 <= size -> virtqueue_create true true size = Some q -> vinv [] (MkV q 0 [] true) (seqZ 0 size) [].
Proof.
  intros Hs HE. destruct (new_queue_ok size q Hs HE) as (HQ & E1 & E2 & E3 & E4). split; [done|done|]. intros _. exists [], []. pose proof (q_bound _ _ _ HQ).
  pose proof (q_shadows _ _ _ HQ) as (_ & _ & E5). split; cbn; try done; [by rewrite E3|rewrite E5, E4; apply ring_nil; lia|rewrite E2, E3; apply ring_nil; lia].
Qed.

Lemma heads_fit q fl os : queue_ok q fl os -> Z.of_nat (length os) <= q_size q - Z.of_nat (length fl).
Proof.
  intros HQ. pose proof (q_total _ _ _ HQ) as Ht. pose proof (q_chains _ _ _ HQ) as HC. assert (Hl : (length os <= length (concat (descs <$> os)))%nat); [|lia].
  clear -HC. induction HC as [|c os (_ & Hne & _) HC IH]; [done|]. rewrite fmap_cons, concat_cons, length_app. destruct c as [tok [|x ch]]; [done|]. cbn [length descs fmap list_fmap snd]. lia.
Qed.

Lemma vinv_add dma_map tr v fl os buffers tok rc q' mapped undone : vinv tr v fl os -> v_live v = true ->
  virtqueue_add dma_map (v_q v) buffers tok = Ret (rc, q', mapped, undone) ->
  exists fl' os', vinv ((if rc =? 0 then Added tok mapped else Quiet) :: tr) (MkV q' (v_cursor v) (v_held v) true) fl' os'.
Proof.
  intros [HQ HT HR] Hlive E. destruct (HR Hlive) as (pub & don & [R1 R2 R3 R4 R5]). pose proof (q_shadows _ _ _ HQ) as (S1 & S2 & S3).
  destruct (virtqueue_add_ok dma_map (v_q v) fl os buffers tok HQ) as (rc' & q1 & m1 & u1 & E1 & Hres). rewrite E in E1. injection E1 as <- <- <- <-.
  destruct Hres as [(-> & Hv & HM & _ & ds & fl' & q1 & -> & Hld & HS & HQ1 & ->)|[(-> & _ & -> & _)|(-> & _ & [Q1 (Q2 & Q3 & Q4) (Q5 & Q6 & Q7) Q8] & _ & fl' & HP & HQ')]]; cbn [Z.eqb].
  - exists fl', ((tok, zip ds mapped) :: os). pose proof HS as [Q1 (Q2 & Q3 & Q4) (Q5 & Q6 & Q7) Q8]. pose proof HQ1 as [P1 P2 P3 P4 P5 P6 P7 P8].
    pose proof (heads_fit _ _ _ HQ1) as Hfit. cbn [length] in Hfit. apply length_mapM in HM as Hlm. destruct Hv as [Hb _]. rewrite Q1 in Hfit.
    assert (Hpub : Z.of_nat (length pub) < q_size (v_q v)). { apply Permutation_length in R5. rewrite !length_app, !length_fmap in R5. lia. }
    destruct ds as [|h ds]; [cbn in Hld; lia|]. destruct mapped as [|m mapped]; [cbn in Hlm; lia|].
    split; [|change ((tok, m :: mapped) :: added tr ≡ₚ returned tr ++ request (tok, zip (h :: ds) (m :: mapped)) :: (request <$> os)); rewrite HT;
      unfold request at 2; cbn [fst snd]; rewrite snd_zip by (cbn in *; lia); apply Permutation_middle|].
    + split; cbn; try done; [rewrite length_insert, <-Q3; exact P3|]. split; [apply Z.mod_pos_bound; lia|]. split; [apply P8|done].
    + intros _. exists (pub ++ [h]), don. split; cbn; rewrite ?Q1, ?Q5, ?Q6, ?Q7; try done.
      * rewrite S3 in R3. apply ring_push; [done|exact (q_power _ _ _ HQ)|exact (proj1 (q_rings _ _ _ HQ))|done].
      * rewrite <-app_assoc. cbn. rewrite <-Permutation_middle. by apply Permutation_cons.
  - exists fl, os. split; [done|done|]. intros _. exists pub, don. by split.
  - exists fl', os. split; [done|done|]. intros _. exists pub, don. split; cbn; rewrite ?Q1, ?Q3, ?Q4, ?Q5, ?Q6, ?Q7; done.
Qed.

(** ** The device *)

Lemma vinv_consume tr v fl os h : vinv tr v fl os -> v_live v = true -> v_cursor v <> avail_index (v_q v) ->
  avail_ring (v_q v) !! Z.to_nat (v_cursor v mod q_size (v_q v)) = Some h ->
  vinv (Quiet :: tr) (MkV (v_q v) (wrap16 (v_cursor v + 1)) (v_held v ++ [h]) true) fl os.
Proof.
  intros [HQ HT HR] Hlive Hne Hh. destruct (HR Hlive) as (pub & don & [R1 R2 R3 R4 R5]). pose proof (q_shadows _ _ _ HQ) as (S1 & S2 & S3).
  split; [done|done|]. intros _. destruct pub as [|x pub].
  { destruct Hne. pose proof (rh_count _ _ _ _ _ R3) as Hc. cbn in Hc. rewrite S3 in *. unfold wrap16 in Hc. apply Z.mod_divide in Hc as [k Hk]; [|done]. lia. }
  apply ring_pop in R3 as [Hx R3]; [|exact (q_power _ _ _ HQ)]. rewrite Hx in Hh. injection Hh as ->. exists pub, don. split; cbn; try done.
  - apply Z.mod_pos_bound. lia.
  - rewrite <-R5. rewrite <-(app_assoc (v_held v)). cbn. rewrite !app_assoc. symmetry. apply (Permutation_middle (pub ++ v_held v) (don.*1) h).
Qed.

Lemma vinv_complete tr v fl os h len l1 l2 : vinv tr v fl os -> v_live v = true -> v_held v = l1 ++ h :: l2 ->
  vinv (Quiet :: tr) (MkV (set_used (v_q v) (<[Z.to_nat (used_index (v_q v) mod q_size (v_q v)) := (h, len)]> (used_ring (v_q v))) (wrap16 (used_index (v_q v) + 1)))
                     (v_cursor v) (l1 ++ l2) true) fl os.
Proof.
  intros [HQ HT HR] Hlive Hh. destruct (HR Hlive) as (pub & don & [R1 R2 R3 R4 R5]). pose proof (heads_fit _ _ _ HQ) as Hfit. rewrite Hh in R5.
  split; [|done|].
  - destruct HQ as [P1 P2 P3 P4 P5 P6 P7 P8]. split; cbn; try done. by rewrite length_insert.
  - intros _. exists pub, (don ++ [(h, len)]). split; cbn; try done.
    + apply Z.mod_pos_bound. lia.
    + apply ring_push; [done|exact (q_power _ _ _ HQ)|exact (proj2 (q_rings _ _ _ HQ))|]. apply Permutation_length in R5. rewrite !length_app, !length_fmap in R5. cbn in R5. lia.
    + rewrite <-R5. apply Permutation_app_head. rewrite fmap_app. cbn. rewrite <-!app_assoc. apply Permutation_app_head. cbn. rewrite app_assoc.
      symmetry. rewrite <-(Permutation_cons_append (l2 ++ don.*1)). done.
Qed.

(** ** Getting requests back *)

(** Where the next completion is: the oldest one of the device, a chain in use. *)
Lemma next_used v fl os pub don : queue_ok (v_q v) fl os -> rings_ok v os pub don ->
  don = [] /\ virtqueue_get_used (v_q v) = Ret (0, 0, v_q v, []) \/
  exists len don' os1 c os2 q1, don = (head_of c, len) :: don' /\ os = os1 ++ c :: os2 /\
    virtqueue_get_used (v_q v) = Ret (c.1, len, set_used_shadow q1 (wrap16 (used_shadow (v_q v) + 1)), c.2.*2) /\
    same_rings (v_q v) q1 /\ queue_ok q1 (reverse (descs c) ++ fl) (os1 ++ os2).
Proof.
  intros HQ [R1 R2 R3 R4 R5]. destruct don as [|[h len] don].
  - left. split; [done|]. unfold virtqueue_get_used, virtqueue_used_pending_locked. rewrite (rh_count _ _ _ _ _ R4). pose proof (q_bound _ _ _ HQ).
    rewrite (proj2 (Z.ltb_ge _ _)) by (cbn; lia). done.
  - right. assert (Hin : h ∈ head_of <$> os) by (rewrite <-R5; set_solver). apply list_elem_of_fmap in Hin as (c & -> & (os1 & os2 & ->)%list_elem_of_split).
    pose proof (rh_count _ _ _ _ _ R4) as Hc. pose proof (rh_fit _ _ _ _ _ R4) as Hf. apply ring_pop in R4 as [Hx R4]; [|exact (q_power _ _ _ HQ)].
    destruct (get_used_ok (v_q v) fl os1 c os2 len HQ) as (q1 & E & HS & HQ1); [cbn in Hc, Hf; lia|done|]. exists len, don, os1, c, os2, q1. done.
Qed.

Lemma token_event_chain q fl os1 c os2 : queue_ok q fl (os1 ++ c :: os2) -> token_event c.1 c.2.*2 = Returned c.1 c.2.*2.
Proof.
  intros HQ. pose proof (q_chains _ _ _ HQ) as [_ [(Ht & _) _]%Forall_cons]%Forall_app. unfold token_event, truth. by rewrite (proj2 (Z.eqb_neq _ _) Ht).
Qed.

Lemma tokens_drop tr (os1 : list chain) c os2 : added tr ≡ₚ returned tr ++ (request <$> os1 ++ c :: os2) -> added tr ≡ₚ (request c :: returned tr) ++ (request <$> os1 ++ os2).
Proof. intros ->. rewrite !fmap_app, fmap_cons. cbn. rewrite !app_assoc. symmetry. apply Permutation_middle. Qed.

Lemma vinv_get tr v fl os tok len q' unmapped : vinv tr v fl os -> v_live v = true -> virtqueue_get_used (v_q v) = Ret (tok, len, q', unmapped) ->
  exists fl' os', vinv (token_event tok unmapped :: tr) (MkV q' (v_cursor v) (v_held v) true) fl' os'.
Proof.
  intros [HQ HT HR] Hlive E. destruct (HR Hlive) as (pub & don & HRO).
  destruct (next_used v fl os pub don HQ HRO) as [[-> E1]|(len1 & don1 & os1 & c & os2 & q1 & -> & -> & E1 & HS & HQ1)]; rewrite E in E1.
  - injection E1 as -> -> -> ->. exists fl, os. split; [done|done|]. intros _. exists pub, []. destruct HRO. by split.
  - injection E1 as -> -> -> ->. rewrite (token_event_chain _ _ _ _ _ HQ). exists (reverse (descs c) ++ fl), (os1 ++ os2). destruct HRO as [R1 R2 R3 R4 R5].
    destruct HS as [Q1 (Q2 & Q3 & Q4) (Q5 & Q6 & Q7) Q8]. split; [|exact (tokens_drop _ _ _ _ HT)|].
    + destruct HQ1 as [P1 P2 P3 P4 P5 P6 P7 P8]. split; cbn; try done. split; [apply P8|]. split; [apply Z.mod_pos_bound; lia|apply P8].
    + intros _. exists pub, don1. split; cbn; rewrite ?Q1, ?Q3, ?Q4, ?Q5, ?Q6, ?Q7; try done.
      * apply ring_pop in R4 as [_ R4]; [done|exact (q_power _ _ _ HQ)].
      * rewrite fmap_app, fmap_cons in R5. cbn [fst fmap list_fmap] in R5. rewrite fmap_app. apply (Permutation_cons_inv (a := head_of c)).
        rewrite app_assoc in R5 |- *. etransitivity; [apply (Permutation_middle (pub ++ v_held v) (don1.*1) (head_of c))|]. rewrite R5.
        symmetry. apply Permutation_middle.
Qed.

(** ** After a reset *)

(** A descriptor with a token is the head of a chain. *)
Lemma token_head q fl os d : queue_ok q fl os -> 0 <= d < q_size q ->
  exists s, at_ (slots q) d = Some s /\ (token s = 0 /\ (forall c, c ∈ os -> head_of c <> d) \/ exists os1 c os2, os = os1 ++ c :: os2 /\ d = head_of c /\ token s = c.1 /\ c.1 <> 0).
Proof.
  intros HQ Hd. destruct (at_some (slots q) d) as [s Hs]; [rewrite (q_slots _ _ _ HQ); done|]. exists s. split; [done|]. pose proof (q_chains _ _ _ HQ) as HC.
  destruct (decide (Exists (fun c => head_of c = d) os)) as [(c & Hc & <-)%Exists_exists|Hno].
  - right. apply list_elem_of_split in Hc as (os1 & os2 & ->). exists os1, c, os2. apply Forall_app in HC as [_ [HC _]%Forall_cons]. destruct HC as (Ht & Hne & _ & _ & Hall).
    split_and!; try done. destruct c as [tok [|[h m] ch]]; [done|]. apply Forall_cons in Hall as [(s' & Hs' & Ht') _]. cbn in Hs, Hs'. rewrite Hs in Hs'. injection Hs' as <-.
    by rewrite decide_True in Ht'.
  - left. rewrite Exists_exists in Hno. split; [|intros c Hc <-; by apply Hno; exists c]. assert (Hin : d ∈ fl ++ concat (descs <$> os)) by (rewrite (q_parts _ _ _ HQ); apply elem_of_seqZ; lia).
    apply elem_of_app in Hin as [Hin|Hin].
    + pose proof (linked_all _ _ _ (q_linked _ _ _ HQ)) as Hl. destruct (proj1 (Forall_forall _ _) Hl d Hin) as (s' & Hs' & Ht). congruence.
    + apply list_elem_of_In, in_concat in Hin as (l & Hl%list_elem_of_In & Hin%list_elem_of_In). apply list_elem_of_fmap in Hl as (c & -> & Hc).
      destruct (proj1 (Forall_forall _ _) HC c Hc) as (_ & _ & _ & _ & Hall). destruct (proj1 (Forall_forall _ _) Hall d Hin) as (s' & Hs' & Ht).
      rewrite Hs in Hs'. injection Hs' as <-. rewrite decide_False in Ht; [done|]. intros ->. apply Hno. by exists c.
Qed.

Definition detached (q : virtqueue) (fl : list Z) (os : list chain) (r : outcome (Z * virtqueue * list mapping)) : Prop :=
  exists os1 c os2 q', os = os1 ++ c :: os2 /\ r = Ret (c.1, q', c.2.*2) /\ same_rings q q' /\ queue_ok q' (reverse (descs c) ++ fl) (os1 ++ os2).

Lemma detach_from_ok q fl os ds : queue_ok q fl os -> Forall (fun d => 0 <= d < q_size q) ds ->
  detach_from ds q = Ret (0, q, []) /\ (forall c, c ∈ os -> head_of c ∉ ds) \/ detached q fl os (detach_from ds q).
Proof.
  intros HQ. induction ds as [|d ds IH]; intros Hds; cbn [detach_from]; [left; split; [done|set_solver]|]. apply Forall_cons in Hds as [Hd Hds].
  destruct (token_head q fl os d HQ Hd) as (s & Hs & [[Ht Hno]|(os1 & c & os2 & -> & -> & Ht & Hne)]); rewrite (slot_of_at q _ s Hs); cbn [mbind outcome_bind]; unfold truth.
  - rewrite Ht. cbn. destruct (IH Hds) as [[E H]|H]; [left|by right]. split; [done|]. set_solver.
  - right. destruct (complete_ok q fl os1 c os2 HQ) as (s' & q1 & q' & Hs' & _ & E1 & E2 & HR & HQ'). rewrite Hs in Hs'. injection Hs' as <-.
    rewrite Ht, (proj2 (Z.eqb_neq _ _) Hne). cbn [negb]. rewrite E1. cbn [mbind outcome_bind]. rewrite E2. cbn [mbind outcome_bind]. exists os1, c, os2, q'. done.
Qed.

Lemma head_in_descs (l : list slot) (c : chain) : chain_ok l c -> head_of c ∈ descs c.
Proof. intros (_ & Hne & _). destruct c as [tok [|[h m] ch]]; [done|]. cbn. set_solver. Qed.

Lemma detach_ok q fl os : queue_ok q fl os -> os = [] /\ virtqueue_detach_unused q = Ret (0, q, []) \/ detached q fl os (virtqueue_detach_unused q).
Proof.
  intros HQ. unfold virtqueue_detach_unused. destruct (detach_from_ok q fl os (seqZ 0 (q_size q)) HQ) as [[E H]|H]; [|left|by right].
  - apply Forall_forall. intros d Hd%elem_of_seqZ. lia.
  - split; [|done]. destruct os as [|c os]; [done|]. destruct (H c ltac:(set_solver)). rewrite <-(q_parts _ _ _ HQ), fmap_cons, concat_cons.
    pose proof (q_chains _ _ _ HQ) as [Hc _]%Forall_cons. apply head_in_descs in Hc. set_solver.
Qed.

Lemma vinv_detach tr v fl os tok q' unmapped : vinv tr v fl os -> virtqueue_detach_unused (v_q v) = Ret (tok, q', unmapped) ->
  exists fl' os', vinv (token_event tok unmapped :: tr) (MkV q' (v_cursor v) [] false) fl' os'.
Proof.
  intros [HQ HT HR] E. destruct (detach_ok _ _ _ HQ) as [[-> E1]|(os1 & c & os2 & q1 & -> & E1 & HS & HQ1)]; rewrite E in E1; injection E1 as -> -> ->.
  - exists fl, []. by split.
  - exists (reverse (descs c) ++ fl), (os1 ++ os2). rewrite (token_event_chain _ _ _ _ _ HQ). split; [done|exact (tokens_drop _ _ _ _ HT)|done].
Qed.

Lemma vinv_exec tr v : vexec tr v -> exists fl os, vinv tr v fl os.
Proof.
  induction 1 as [size q Hs E|tr v e v' _ (fl & os & HI) Hst]; [eauto using vinv_new|]. destruct Hst.
  - by eapply vinv_add.
  - eauto using vinv_consume.
  - eauto using vinv_complete.
  - by eapply vinv_get.
  - exists fl, os. destruct HI. by split.
  - by eapply vinv_detach.
Qed.

(** ** What callers and device can rely on *)

Lemma flags_next addr len dir l : truth (Z.land (d_flags (buffer_desc addr len dir l)) VRING_DESC_F_NEXT) = match l with [] => false | _ => true end.
Proof. unfold buffer_desc. cbn [d_flags]. case_decide; by destruct l. Qed.
Lemma flags_write addr len dir l : truth (Z.land (d_flags (buffer_desc addr len dir l)) VRING_DESC_F_WRITE) = bool_decide (dir = DMA_FROM_DEVICE).
Proof. unfold buffer_desc. cbn [d_flags]. case_decide; case_bool_decide; try done; by destruct l. Qed.

Lemma read_chain_ok q ch fuel : described (slots q) ch -> ch <> [] -> (length ch <= fuel)%nat ->
  read_chain fuel (slots q) (match ch with (h, _) :: _ => h | [] => 0 end) = device_view <$> ch.*2.
Proof.
  revert fuel. induction ch as [|[d m] ch IH]; intros fuel HD Hne Hf; [done|]. destruct fuel as [|fuel]; [cbn in Hf; lia|]. destruct HD as [(s & Hs & <- & Hd) HD].
  cbn [read_chain]. rewrite Hs, Hd, flags_next, flags_write. cbn [buffer_desc d_address d_length d_next fmap list_fmap]. unfold device_view at 1. f_equal.
  destruct ch as [|[d' m'] ch]; [done|]. apply IH; [done|done|cbn in *; lia].
Qed.

Lemma chain_fits q fl os c : queue_ok q fl os -> c ∈ os -> Z.of_nat (length c.2) <= q_size q.
Proof.
  intros HQ (os1 & os2 & ->)%list_elem_of_split. pose proof (q_total _ _ _ HQ) as Ht. rewrite fmap_app, concat_app, fmap_cons, concat_cons, !length_app in Ht.
  unfold descs at 2 in Ht. rewrite length_fmap in Ht. lia.
Qed.

Lemma device_reads q fl os c : queue_ok q fl os -> c ∈ os -> read_chain (Z.to_nat (q_size q)) (slots q) (head_of c) = device_view <$> (request c).2.
Proof.
  intros HQ Hc. pose proof (chain_fits _ _ _ _ HQ Hc) as Hl. destruct (proj1 (Forall_forall _ _) (q_chains _ _ _ HQ) c Hc) as (_ & Hne & HD & _).
  apply (read_chain_ok q c.2); [done|done|lia].
Qed.

Lemma all_returned q fl os : queue_ok q fl os -> free_count q = q_size q <-> os = [].
Proof.
  intros HQ. rewrite (q_count _ _ _ HQ). pose proof (q_total _ _ _ HQ) as Ht. split; [|intros ->; cbn in Ht; lia]. intros E. destruct os as [|c os]; [done|].
  rewrite fmap_cons, concat_cons, length_app in Ht. pose proof (q_chains _ _ _ HQ) as [Hc _]%Forall_cons. apply head_in_descs in Hc. destruct (descs c); [set_solver|]. cbn in Ht. lia.
Qed.

Lemma destroy_ok tr v fl os : vinv tr v fl os -> virtqueue_destroy (v_q v) = Ret tt <-> added tr ≡ₚ returned tr.
Proof.
  intros [HQ HT _]. pose proof (q_bound _ _ _ HQ) as Hb. transitivity (os = []).
  - rewrite <-(all_returned _ _ _ HQ). unfold virtqueue_destroy, truth. rewrite (proj2 (Z.eqb_neq (q_size (v_q v)) 0)) by lia.
    destruct (Z.eqb_spec (free_count (v_q v)) (q_size (v_q v))); cbn; by split.
  - rewrite HT. split; [intros ->; cbn; by rewrite app_nil_r|]. intros E%Permutation_length. rewrite length_app, length_fmap in E. by destruct os; [|cbn in E; lia].
Qed.

(** C8: In every run, the requests taken by the queue are those given back, each with exactly the mappings that
    were made for it, and those in use; chains in use share no descriptor and account for the descriptors that are not
    free.  The device, following the chain of a request in use, reads the buffers of the request in order, and holds
    only such chains; the driver gets back a request in use, or nothing. *)
Theorem virtqueue_requests tr v : vexec tr v -> exists os : list chain,
  added tr ≡ₚ returned tr ++ (request <$> os) /\ NoDup (concat (descs <$> os)) /\
  virtqueue_num_free (v_q v) = q_size (v_q v) - Z.of_nat (length (concat (descs <$> os))) /\
  (forall c, c ∈ os -> read_chain (Z.to_nat (q_size (v_q v))) (slots (v_q v)) (head_of c) = device_view <$> (request c).2) /\
  (v_live v = true -> (forall h, h ∈ v_held v -> h ∈ head_of <$> os) /\
    forall tok len q' unmapped, virtqueue_get_used (v_q v) = Ret (tok, len, q', unmapped) ->
      tok = 0 /\ q' = v_q v /\ unmapped = [] \/ (tok, unmapped) ∈ request <$> os).
Proof.
  intros (fl & os & [HQ HT HR])%vinv_exec. exists os. split; [done|]. split; [by apply q_nodup, NoDup_app in HQ as (_ & _ & ?)|]. split; [|split; [by eauto using device_reads|]].
  - unfold virtqueue_num_free. rewrite (q_count _ _ _ HQ). pose proof (q_total _ _ _ HQ). lia.
  - intros Hl. destruct (HR Hl) as (pub & don & HRO). split; [intros h Hh; rewrite <-(r_heads _ _ _ _ HRO); set_solver|]. intros tok len q' unmapped E.
    destruct (next_used v fl os pub don HQ HRO) as [[-> E1]|(len1 & don1 & os1 & c & os2 & q1 & -> & -> & E1 & _)]; rewrite E in E1; injection E1 as -> -> -> ->; [by left|right].
    apply list_elem_of_fmap. exists c. split; [done|set_solver].
Qed.

(** No run makes the driver panic: adding, asking for and getting completions from a running device always
    return, and so does detaching after a reset; destroying the queue succeeds exactly when every request was given
    back. *)
Theorem virtqueue_calls_safe tr v : vexec tr v ->
  (v_live v = true -> (forall dma_map buffers tok, exists r, virtqueue_add dma_map (v_q v) buffers tok = Ret r) /\
     (exists r, virtqueue_get_used (v_q v) = Ret r) /\ exists b, virtqueue_has_used (v_q v) = Ret b) /\
  (exists r, virtqueue_detach_unused (v_q v) = Ret r) /\ (virtqueue_destroy (v_q v) = Ret tt <-> added tr ≡ₚ returned tr).
Proof.
  intros (fl & os & HI)%vinv_exec. split; [|split; [|by eapply destroy_ok]]; destruct HI as [HQ HT HR].
  - intros Hl. destruct (HR Hl) as (pub & don & HRO). split; [|split].
    + intros dma_map buffers tok. destruct (virtqueue_add_ok dma_map (v_q v) fl os buffers tok HQ) as (rc & q' & m & u & E & _). eauto.
    + destruct (next_used v fl os pub don HQ HRO) as [[-> E]|(len1 & don1 & os1 & c & os2 & q1 & _ & _ & E & _)]; eauto.
    + unfold virtqueue_has_used, virtqueue_used_pending_locked. rewrite (rh_count _ _ _ _ _ (r_done _ _ _ _ HRO)), (proj2 (Z.ltb_ge _ _)) by apply (rh_fit _ _ _ _ _ (r_done _ _ _ _ HRO)).
      cbn. eauto.
  - destruct (detach_ok _ _ _ HQ) as [[_ ->]|(os1 & c & os2 & q1 & _ & -> & _)]; eauto.
Qed.

(** C24: [virtqueue_add] always returns.  It publishes a request that is valid, whose buffers can all be mapped and for
    which there are descriptors: the next entry of the available ring leads the device to the buffers, in order and with
    their directions.  Without enough descriptors nothing changes.  When a buffer cannot be mapped, the mappings made for
    the buffers before it are undone, each with its address, length and direction, no descriptor is lost and nothing is
    published. *)
Theorem virtqueue_add_correct tr v dma_map buffers tok : vexec tr v -> exists rc q' mapped undone,
  virtqueue_add dma_map (v_q v) buffers tok = Ret (rc, q', mapped, undone) /\
  (rc = 0 /\ request_valid buffers tok /\ mapM (map_one dma_map) buffers = Some mapped /\ undone = [] /\
     virtqueue_num_free q' = virtqueue_num_free (v_q v) - Z.of_nat (length buffers) /\ avail_index q' = wrap16 (avail_index (v_q v) + 1) /\
     (exists h, avail_ring q' !! Z.to_nat (avail_index (v_q v) mod q_size q') = Some h /\ read_chain (Z.to_nat (q_size q')) (slots q') h = device_view <$> mapped) \/
   rc = -1 /\ request_valid buffers tok /\ q' = v_q v /\ mapped = [] /\ undone = [] /\ virtqueue_num_free (v_q v) < Z.of_nat (length buffers) \/
   rc = -2 /\ ~ request_valid buffers tok /\ q' = v_q v /\ mapped = [] /\ undone = [] \/
   rc = -2 /\ mapM (map_one dma_map) buffers = None /\ mapM (map_one dma_map) (take (length mapped) buffers) = Some mapped /\ undone = mapped /\
     virtqueue_num_free q' = virtqueue_num_free (v_q v) /\ avail_ring q' = avail_ring (v_q v) /\ avail_index q' = avail_index (v_q v)).
Proof.
  intros (fl & os & [HQ _ _])%vinv_exec. pose proof (q_shadows _ _ _ HQ) as (S1 & S2 & S3). pose proof (q_bound _ _ _ HQ) as Hb. unfold virtqueue_num_free.
  destruct (virtqueue_add_ok dma_map (v_q v) fl os buffers tok HQ) as (rc & q' & mapped & undone & E & Hres). exists rc, q', mapped, undone. split; [done|].
  destruct Hres as [(-> & Hv & HM & -> & ds & fl' & q1 & -> & Hld & HS & HQ1 & ->)|[(-> & Hv & -> & -> & -> & Hlt)|(-> & -> & HS & Hw & fl' & HP & HQ')]].
  - left. cbn. rewrite (q_count _ _ _ HQ1), (q_count _ _ _ HQ), length_app, Hld, S3, (sr_size _ _ HS). split_and!; try done; [lia|].
    exists (hd 0 ds). split; [apply list_lookup_insert_eq; pose proof (Z.mod_pos_bound (available_shadow (v_q v)) (q_size (v_q v)) ltac:(lia)); pose proof (q_rings _ _ _ HQ); lia|].
    pose proof (device_reads q1 _ _ _ HQ1 (list_elem_of_here _ _)) as Hd. apply length_mapM in HM. unfold request in Hd. cbn [snd fst] in Hd. rewrite snd_zip in Hd by lia.
    destruct ds as [|h ds]; [destruct Hv as [? _]; cbn in Hld; lia|]. destruct mapped as [|m mapped]; [cbn in *; lia|]. rewrite (sr_size _ _ HS) in Hd. exact Hd.
  - right. left. rewrite (q_count _ _ _ HQ). done.
  - right. right. destruct Hw as [(? & -> & ->)|[? ?]]; [by left|right]. destruct HS as [Q1 (Q2 & Q3 & Q4) _ _]. rewrite (q_count _ _ _ HQ), (q_count _ _ _ HQ'), HP. done.
Qed.

(** * Devices: an example

    A kernel page table with one leaf over physical memory, the buffers a
    driver gives to a device, and a run of a queue with four descriptors. *)

(** ** The kernel page table *)

(** The gigabyte from 0x80000000 on, mapped to itself. *)
Definition kernel_leaf : Z := Z.lor (PA2PTE 0x80000000) (Z.lor PTE_V PTE_RWX).
Definition kernel_table : list Z := [0; 0; kernel_leaf] ++ replicate 509 0.
Definition kv : vm pages := MkVm vm_pages {[0x80201000 := kernel_table]} 0.

Lemma kernel_total va : is_u64 va -> exists pa, kvm_va2pa kv 0x80201000 va = Ret pa.
Proof.
  intros [Hv _]. unfold kvm_va2pa. destruct (_ || _); [eauto|]. unfold vm_walk. destruct (_ || _); [eauto|]. unfold SV39_LEVEL_MAX. cbn [walk_loop Nat.leb].
  destruct (lookup_lt_is_Some_2 kernel_table (PTEX 2 va) (PTEX_lt 2 va Hv)) as [pte Hp].
  assert (Hl : pte = kernel_leaf \/ pte = 0).
  { apply list_elem_of_lookup_2 in Hp. unfold kernel_table in Hp. apply elem_of_app in Hp as [Hp|[-> _]%elem_of_replicate]; [set_solver|by right]. }
  assert (Hld : pte_load kv (0x80201000, PTEX 2 va) = Ret pte) by (unfold pte_load; cbn [fst snd kv tables]; rewrite lookup_singleton_eq; by apply rd_Ret).
  rewrite Hld. cbn [mbind outcome_bind]. destruct Hl as [-> | ->].
  - assert (Hv1 : has_bits kernel_leaf PTE_V = true) by done. assert (Hx1 : has_bits kernel_leaf PTE_RWX = true) by done. rewrite Hv1, Hx1. change (2 <=? 0)%nat with false. cbn [mbind outcome_bind]. rewrite Hld. cbn [mbind outcome_bind]. rewrite Hv1, Hx1. cbn [negb orb]. eauto.
  - change (2 <=? 0)%nat with false. change (has_bits 0 PTE_V) with false. cbn [negb mbind outcome_bind]. eauto.
Qed.

(** Three pages less two bytes, across page boundaries, for a device with 32 address bits. *)
Lemma dma_map_single_witness : dma_map_single kv 0x80201000 (2 ^ 32 - 1) 0x80400001 0x2ffe DMA_TO_DEVICE = Ret (Some 0x80400001) /\
  mappable kv 0x80201000 (2 ^ 32 - 1) 0x80400001 0x2ffe 0x80400001.
Proof.
  destruct (dma_map_single_correct kv 0x80201000 kernel_total (2 ^ 32 - 1) 0x80400001 0x2ffe DMA_TO_DEVICE) as (r & E & H); [by vm_compute..|].
  assert (E1 : dma_map_single kv 0x80201000 (2 ^ 32 - 1) 0x80400001 0x2ffe DMA_TO_DEVICE = Ret (Some 0x80400001)) by (vm_compute; reflexivity).
  split; [exact E1|]. apply H. rewrite E1 in E. by injection E.
Defined.

Lemma dma_coherent_witness : exists r V', dma_alloc_coherent kv 0x80201000 (2 ^ 32 - 1) 64 = Ret (r, V') /\ tables V' = tables kv.
Proof.
  destruct (dma_coherent_roundtrip kv 0x80201000 kernel_total (2 ^ 32 - 1) 64 (fun _ => 0)) as (r & V' & E & Et & _); [by vm_compute..|exact V0_ok|].
  exists r, V'. exact (conj E Et).
Defined.

(** ** A queue *)

(** The mapping of the device, over the kernel page table. *)
Definition bus_map (b : virtio_buffer) : option Z :=
  match dma_map_single kv 0x80201000 (2 ^ 32 - 1) (vb_address b) (vb_length b) (vb_direction b) with Ret r => r | _ => None end.
Definition header : virtio_buffer := MkBuffer 0x80400000 16 DMA_TO_DEVICE.
Definition payload : virtio_buffer := MkBuffer 0x80401000 512 DMA_FROM_DEVICE.
Definition outside : virtio_buffer := MkBuffer 0x40000000 512 DMA_FROM_DEVICE.

Definition queue0 : virtqueue := Eval vm_compute in match virtqueue_create true true 4 with Some q => q | None => MkQueue 0 0 0 0 0 [] [] 0 [] 0 end.
Definition after_add (q : virtqueue) bs tok : virtqueue := match virtqueue_add bus_map q bs tok with Ret (_, q, _, _) => q | _ => q end.
Definition after_get (q : virtqueue) : virtqueue := match virtqueue_get_used q with Ret (_, _, q, _) => q | _ => q end.

Definition queue1 : virtqueue := Eval vm_compute in after_add queue0 [header; payload] 7.
Definition queue2 : virtqueue := Eval vm_compute in after_add queue1 [header] 8.
(** The device completes the second request first. *)
Definition queue3 : virtqueue := Eval vm_compute in set_used queue2 (<[0%nat := (2, 0)]> (used_ring queue2)) 1.
Definition queue4 : virtqueue := Eval vm_compute in after_get queue3.

Definition mapped_header : mapping := (0x80400000, 16, DMA_TO_DEVICE).
Definition mapped_payload : mapping := (0x80401000, 512, DMA_FROM_DEVICE).

Definition run_trace : list vevent :=
  [Returned 8 [mapped_header]; Quiet; Quiet; Quiet; Added 8 [mapped_header]; Added 7 [mapped_header; mapped_payload]].
Definition run_state : vsys := MkV queue4 2 [0] true.

Lemma run_exec : vexec run_trace run_state.
Proof.
  refine (vexec_step _ _ (token_event 8 [mapped_header]) _ (vexec_step _ (MkV queue2 2 [0; 2] true) Quiet _ (vexec_step _ (MkV queue2 1 [0] true) Quiet _ (vexec_step _ (MkV queue2 0 [] true) Quiet _
    (vexec_step _ _ _ _ (vexec_step _ _ _ _ (vexec_new 4 queue0 _ _) (vstep_add (MkV queue0 0 [] true) bus_map [header; payload] 7 0 queue1 [mapped_header; mapped_payload] [] _ _))
      (vstep_add (MkV queue1 0 [] true) bus_map [header] 8 0 queue2 [mapped_header] [] _ _))
    (vstep_consume (MkV queue2 0 [] true) 0 _ _ _)) (vstep_consume (MkV queue2 1 [0] true) 2 _ _ _)) (vstep_complete (MkV queue2 2 [0; 2] true) 2 0 [0] [] _ _))
    (vstep_get (MkV queue3 2 [0] true) 8 0 queue4 [mapped_header] _ _)); by vm_compute.
Qed.

Lemma virtqueue_requests_witness : exists os, added run_trace ≡ₚ returned run_trace ++ (request <$> os) /\
  forall c, c ∈ os -> read_chain 4 (slots queue4) (head_of c) = device_view <$> (request c).2.
Proof. destruct (virtqueue_requests run_trace run_state run_exec) as (os & Ha & _ & _ & Hr & _). exists os. exact (conj Ha Hr). Defined.

Lemma virtqueue_calls_safe_witness : exists r, virtqueue_detach_unused queue4 = Ret r.
Proof. destruct (virtqueue_calls_safe run_trace run_state run_exec) as (_ & H & _). exact H. Defined.

(** A request that fits, and one whose second buffer lies outside of memory. *)
Lemma virtqueue_add_witness : virtqueue_num_free (after_add queue4 [payload] 9) = virtqueue_num_free queue4 - 1 /\
  exists q', virtqueue_add bus_map queue4 [payload; outside] 9 = Ret (-2, q', [mapped_payload], [mapped_payload]) /\ virtqueue_num_free q' = virtqueue_num_free queue4.
Proof.
  split.
  - destruct (virtqueue_add_correct run_trace run_state bus_map [payload] 9 run_exec) as (rc & q' & m & u & E & H). unfold after_add.
    change (v_q run_state) with queue4 in *. rewrite E. destruct H as [(_ & _ & _ & _ & H & _)|[(-> & _)|[(-> & _)|(-> & _)]]]; [exact H|vm_compute in E; discriminate E..].
  - destruct (virtqueue_add_correct run_trace run_state bus_map [payload; outside] 9 run_exec) as (rc & q' & m & u & E & H).
    change (v_q run_state) with queue4 in *. exists q'. destruct H as [(-> & _)|[(-> & _)|[(_ & _ & _ & -> & _)|(-> & _ & _ & -> & H & _)]]]; [vm_compute in E; discriminate E..|].
    split; [|exact H]. rewrite E. vm_compute in E. injection E as _ <-. reflexivity.
Defined.
