(* ===== verification/Wait.v ===== *)
(** * Wait queues: the code

    kernel/wait.c.  The waiters of a queue and the waiters with a deadline are
    lists of threads in order, which is what the intrusive lists of IntrusiveList
    represent.  Everything that changes them holds [timeout_queue.lock], so an
    operation is one step; [wait_queue_sleep_deadline] is cut where it runs
    without that lock.  Of a thread only the fields wait.c uses are kept; what
    [signal_pending_unblocked] and [signal_fatal_pending] answer are two of them. *)
From S2P Require Import Prelude Scheduler.

Definition WAIT_SIGNAL_NONE : Z := 0.
Definition WAIT_SIGNAL_INTERRUPTIBLE : Z := 1.
Definition WAIT_SIGNAL_KILLABLE : Z := 2.
Definition WAIT_QUEUE_TIMEOUT : Z := -1.
Definition WAIT_QUEUE_INTERRUPTED : Z := -2.
Definition WAIT_QUEUE_TERMINATED : Z := -3.

Record waiter := MkWaiter {
  w_state : thread_state;
  waiting_on : Z; on_waitqueue : bool; wait_deadline : Z; wait_result : Z; on_timeout_queue : bool; wait_interruptible : Z;
  wait_private : Z; wait_bitset : Z;
  signal_sequence : Z; fatal_signal_sequence : Z; unblocked_pending : bool; fatal_pending : bool; exit_requested : bool
}.

(** The fields of a wait changed together. *)
Definition set_wait (x : waiter) queue on deadline result timed mode : waiter :=
  MkWaiter (w_state x) queue on deadline result timed mode (wait_private x) (wait_bitset x)
    (signal_sequence x) (fatal_signal_sequence x) (unblocked_pending x) (fatal_pending x) (exit_requested x).
Definition set_state (x : waiter) (st : thread_state) : waiter :=
  MkWaiter st (waiting_on x) (on_waitqueue x) (wait_deadline x) (wait_result x) (on_timeout_queue x) (wait_interruptible x) (wait_private x) (wait_bitset x)
    (signal_sequence x) (fatal_signal_sequence x) (unblocked_pending x) (fatal_pending x) (exit_requested x).
Definition set_private (x : waiter) private bitset : waiter :=
  MkWaiter (w_state x) (waiting_on x) (on_waitqueue x) (wait_deadline x) (wait_result x) (on_timeout_queue x) (wait_interruptible x) private bitset
    (signal_sequence x) (fatal_signal_sequence x) (unblocked_pending x) (fatal_pending x) (exit_requested x).
Definition set_signals (x : waiter) sequence fatal_sequence unblocked fatal exit : waiter :=
  MkWaiter (w_state x) (waiting_on x) (on_waitqueue x) (wait_deadline x) (wait_result x) (on_timeout_queue x) (wait_interruptible x) (wait_private x) (wait_bitset x)
    sequence fatal_sequence unblocked fatal exit.

(** Threads and queues by address, and [timeout_queue]. *)
Record waits := MkWaits { w_threads : gmap Z waiter; w_queues : gmap Z (list Z); w_timeouts : list Z }.

Definition get_thread (W : waits) (t : Z) : outcome waiter := deref (w_threads W !! t).
Definition get_queue (W : waits) (q : Z) : outcome (list Z) := deref (w_queues W !! q).
Definition put_thread (W : waits) (t : Z) (x : waiter) : waits := MkWaits (<[t := x]> (w_threads W)) (w_queues W) (w_timeouts W).
Definition put_queue (W : waits) (q : Z) (l : list Z) : waits := MkWaits (w_threads W) (<[q := l]> (w_queues W)) (w_timeouts W).
Definition put_timeouts (W : waits) (l : list Z) : waits := MkWaits (w_threads W) (w_queues W) l.

(** [list_remove] of the node of a thread. *)
Definition unlink (t : Z) (l : list Z) : list Z := filter (fun u => u <> t) l.

(** [scheduler_block_current] and [scheduler_make_runnable], as far as the state of the thread goes. *)
Definition block_thread (W : waits) (t : Z) : outcome waits :=
  x ← get_thread W t;
  if negb (bool_decide (w_state x = THREAD_RUNNING)) then Panic "block non-running thread" else Ret (put_thread W t (set_state x THREAD_SLEEPING)).
Definition make_runnable (W : waits) (t : Z) : outcome waits :=
  x ← get_thread W t;
  if negb (bool_decide (w_state x = THREAD_ALLOCATED)) && negb (bool_decide (w_state x = THREAD_RUNNING)) && negb (bool_decide (w_state x = THREAD_SLEEPING))
  then Panic "invalid runnable thread" else Ret (put_thread W t (set_state x THREAD_RUNNABLE)).

(** ** Going to sleep *)

Fixpoint timeout_place (W : waits) (t deadline : Z) (l : list Z) : outcome (list Z) :=
  match l with
  | [] => Ret [t]
  | queued :: rest =>
      x ← get_thread W queued;
      if deadline <? wait_deadline x then Ret (t :: queued :: rest) else l ← timeout_place W t deadline rest; Ret (queued :: l)
  end.
Definition timeout_insert_locked (W : waits) (t : Z) : outcome waits :=
  x ← get_thread W t;
  l ← timeout_place W t (wait_deadline x) (w_timeouts W);
  Ret (put_timeouts (put_thread W t (set_wait x (waiting_on x) (on_waitqueue x) (wait_deadline x) (wait_result x) true (wait_interruptible x))) l).

(** Off the queue and the timeouts, with a result. *)
Definition end_wait (W : waits) (t result : Z) : outcome waits :=
  x ← get_thread W t;
  l ← get_queue W (waiting_on x);
  let W := put_queue W (waiting_on x) (unlink t l) in
  let W := if on_timeout_queue x then put_timeouts W (unlink t (w_timeouts W)) else W in
  Ret (put_thread W t (set_wait x 0 false (wait_deadline x) result false 0)).

Definition sequence_of (x : waiter) (signal_mode : Z) : Z :=
  if signal_mode =? WAIT_SIGNAL_KILLABLE then fatal_signal_sequence x else signal_sequence x.

(** [wait_queue_sleep_deadline] up to the load of the sequence; nothing when the thread has to exit. *)
Definition sleep_enter (W : waits) (t signal_mode : Z) : outcome (option Z) :=
  x ← get_thread W t;
  if exit_requested x then Ret None else Ret (Some (if truth signal_mode then sequence_of x signal_mode else 0)).
(** The check for signals: whether the call ends as interrupted. *)
Definition sleep_pending (W : waits) (t signal_mode : Z) : outcome bool :=
  x ← get_thread W t;
  Ret ((signal_mode =? WAIT_SIGNAL_KILLABLE) && fatal_pending x || (signal_mode =? WAIT_SIGNAL_INTERRUPTIBLE) && unblocked_pending x).

Inductive sleep_end := Asleep | SleepInterrupted | SleepTerminated.
(** From the locks to [sched]. *)
Definition sleep_queue (W : waits) (t queue deadline signal_mode sequence : Z) : outcome (waits * sleep_end) :=
  x ← get_thread W t;
  if negb (bool_decide (w_state x = THREAD_RUNNING)) || on_waitqueue x || truth (waiting_on x) || on_timeout_queue x then Panic "invalid wait state" else
  l ← get_queue W queue;
  let W := put_queue (put_thread W t (set_wait x queue true deadline 0 (on_timeout_queue x) signal_mode)) queue (l ++ [t]) in
  W ← if truth deadline then timeout_insert_locked W t else Ret W;
  if exit_requested x then W ← end_wait W t WAIT_QUEUE_TERMINATED; Ret (W, SleepTerminated) else
  if truth signal_mode && negb (sequence =? sequence_of x signal_mode) then W ← end_wait W t WAIT_QUEUE_INTERRUPTED; Ret (W, SleepInterrupted) else
  W ← block_thread W t;
  Ret (W, Asleep).

(** After [sched]; nothing when the thread exits. *)
Definition sleep_resume (W : waits) (t : Z) : outcome (waits * option Z) :=
  x ← get_thread W t;
  if on_waitqueue x || truth (waiting_on x) || on_timeout_queue x then Panic "scheduled wait entry" else
  let W := put_thread W t (set_wait x (waiting_on x) (on_waitqueue x) (wait_deadline x) (wait_result x) (on_timeout_queue x) 0) in
  if wait_result x =? WAIT_QUEUE_TERMINATED
  then if negb (exit_requested x) then Panic "terminated wait without request" else Ret (W, None)
  else Ret (W, Some (wait_result x)).

(** The deadline of [wait_queue_sleep_timeout] and [wait_queue_sleep_interruptible_timeout], for a timeout in ticks. *)
Definition timeout_deadline (now delta : Z) : Z :=
  let deadline := now +64 delta in if deadline <? now then UINT64_MAX else deadline.

(** ** Waking *)

Definition wait_queue_wake_locked (W : waits) (queue t result : Z) : outcome waits :=
  x ← get_thread W t;
  if negb (on_waitqueue x) || negb (waiting_on x =? queue) || negb (bool_decide (w_state x = THREAD_SLEEPING)) then Panic "invalid wait queue entry" else
  W ← end_wait W t result;
  make_runnable W t.

Definition wait_queue_wake_one (W : waits) (queue : Z) : outcome (waits * Z) :=
  l ← get_queue W queue;
  match l with [] => Ret (W, 0) | t :: _ => W ← wait_queue_wake_locked W queue t 0; Ret (W, 1) end.

Fixpoint wake_all_loop (fuel : nat) (W : waits) (queue count : Z) : outcome (waits * Z) :=
  match fuel with
  | O => Fault
  | S fuel =>
      l ← get_queue W queue;
      match l with [] => Ret (W, count) | t :: _ => W ← wait_queue_wake_locked W queue t 0; wake_all_loop fuel W queue (count + 1) end
  end.
Definition wait_queue_wake_all (W : waits) (queue : Z) : outcome (waits * Z) :=
  l ← get_queue W queue; wake_all_loop (S (length l)) W queue 0.

(** The nodes that are left, with the next one read before a thread is woken. *)
Fixpoint wake_mask_loop (l : list Z) (W : waits) (queue count mask woken : Z) : outcome (waits * Z) :=
  match l with
  | [] => Ret (W, woken)
  | t :: next =>
      if count <=? woken then Ret (W, woken) else
      x ← get_thread W t;
      if negb (truth (Z.land (wait_bitset x) mask)) then wake_mask_loop next W queue count mask woken else
      W ← wait_queue_wake_locked W queue t 0;
      wake_mask_loop next W queue count mask (woken + 1)
  end.
Definition wait_queue_wake_mask (W : waits) (queue count mask : Z) : outcome (waits * Z) :=
  if (count <=? 0) || negb (truth mask) then Ret (W, 0) else l ← get_queue W queue; wake_mask_loop l W queue count mask 0.

Fixpoint requeue_loop (fuel : nat) (W : waits) (source destination count private moved : Z) : outcome (waits * Z) :=
  match fuel with
  | O => Fault
  | S fuel =>
      if count <=? moved then Ret (W, moved) else
      l ← get_queue W source;
      match l with
      | [] => Ret (W, moved)
      | t :: _ =>
          x ← get_thread W t;
          if negb (bool_decide (w_state x = THREAD_SLEEPING)) || negb (on_waitqueue x) || negb (waiting_on x =? source) then Panic "invalid requeue entry" else
          let W := put_queue W source (unlink t l) in
          l ← get_queue W destination;
          let W := put_queue W destination (l ++ [t]) in
          let x := set_wait x destination (on_waitqueue x) (wait_deadline x) (wait_result x) (on_timeout_queue x) (wait_interruptible x) in
          requeue_loop fuel (put_thread W t (set_private x private (wait_bitset x))) source destination count private (moved + 1)
      end
  end.
Definition wait_queue_requeue (W : waits) (source destination count private : Z) : outcome (waits * Z) :=
  if (source =? destination) || (count <=? 0) then Ret (W, 0) else
  l ← get_queue W source; requeue_loop (S (length l)) W source destination count private 0.

Definition wait_queue_wake_thread (W : waits) (t : Z) : outcome (waits * Z) :=
  x ← get_thread W t;
  if negb (truth (waiting_on x)) then Ret (W, 0) else
  if negb (bool_decide (w_state x = THREAD_SLEEPING)) || negb (on_waitqueue x) then Ret (W, 0) else
  W ← end_wait W t 0;
  W ← make_runnable W t;
  Ret (W, 1).

Definition wait_queue_signal_thread (W : waits) (t : Z) (fatal : bool) : outcome (waits * Z) :=
  x ← get_thread W t;
  let signal_mode := wait_interruptible x in
  if negb (truth (waiting_on x)) || negb (truth signal_mode) || ((signal_mode =? WAIT_SIGNAL_KILLABLE) && negb fatal) then Ret (W, 0) else
  if negb (bool_decide (w_state x = THREAD_SLEEPING)) || negb (on_waitqueue x) then Ret (W, 0) else
  W ← end_wait W t WAIT_QUEUE_INTERRUPTED;
  W ← make_runnable W t;
  Ret (W, 1).

Definition wait_queue_terminate_thread (W : waits) (t : Z) : outcome (waits * Z) :=
  x ← get_thread W t;
  if negb (truth (waiting_on x)) then Ret (W, 0) else
  if negb (bool_decide (w_state x = THREAD_SLEEPING)) || negb (on_waitqueue x) then Ret (W, 0) else
  W ← wait_queue_wake_locked W (waiting_on x) t WAIT_QUEUE_TERMINATED;
  Ret (W, 1).

Fixpoint expire_loop (fuel : nat) (W : waits) (now : Z) : outcome waits :=
  match fuel with
  | O => Fault
  | S fuel =>
      match w_timeouts W with
      | [] => Ret W
      | t :: _ =>
          x ← get_thread W t;
          if now <? wait_deadline x then Ret W else
          if negb (truth (waiting_on x)) then Panic "timeout without wait queue" else
          W ← wait_queue_wake_locked W (waiting_on x) t (-1);
          expire_loop fuel W now
      end
  end.
Definition wait_queue_expire (W : waits) (now : Z) : outcome waits := expire_loop (S (length (w_timeouts W))) W now.

Definition wait_queue_empty (W : waits) (queue : Z) : outcome bool :=
  l ← get_queue W queue; Ret (match l with [] => true | _ => false end).
