(* ===== verification/WaitInv.v ===== *)
(** * Wait queues: the invariant

    A thread that sleeps is on exactly one queue, and among the timeouts exactly
    when its wait has a deadline; the timeouts are in the order of the deadlines. *)
From S2P Require Import Prelude Scheduler Wait.

Definition deadline_of (W : waits) (t : Z) : Z := match w_threads W !! t with Some x => wait_deadline x | None => 0 end.
Definition earlier (W : waits) (t u : Z) : Prop := deadline_of W t <= deadline_of W u.

Record wait_ok (W : waits) : Prop := {
  wk_zero : w_queues W !! 0 = None;
  wk_queue q l t : w_queues W !! q = Some l -> t ∈ l ->
    exists x, w_threads W !! t = Some x /\ waiting_on x = q /\ on_waitqueue x = true /\ w_state x = THREAD_SLEEPING;
  wk_thread t x : w_threads W !! t = Some x -> waiting_on x <> 0 \/ on_waitqueue x = true \/ w_state x = THREAD_SLEEPING \/ on_timeout_queue x = true ->
    exists l, w_queues W !! waiting_on x = Some l /\ t ∈ l;
  wk_nodup q l : w_queues W !! q = Some l -> NoDup l;
  wk_timed t : t ∈ w_timeouts W <-> exists x, w_threads W !! t = Some x /\ on_timeout_queue x = true;
  wk_deadline t x : w_threads W !! t = Some x -> w_state x = THREAD_SLEEPING -> on_timeout_queue x = truth (wait_deadline x);
  wk_once : NoDup (w_timeouts W);
  wk_sorted : StronglySorted (earlier W) (w_timeouts W)
}.

(** ** Lists *)

Lemma elem_of_unlink t u l : u ∈ unlink t l <-> u ∈ l /\ u <> t.
Proof. unfold unlink. rewrite list_elem_of_filter. tauto. Qed.
Lemma unlink_none t l : t ∉ l -> unlink t l = l.
Proof.
  induction l as [|u l IH]; intros H; [done|]. unfold unlink. rewrite filter_cons_True by set_solver. f_equal. apply IH. set_solver.
Qed.
Lemma unlink_snoc t l : t ∉ l -> unlink t (l ++ [t]) = l.
Proof. intros H. unfold unlink. rewrite filter_app, filter_cons_False by naive_solver. cbn. rewrite app_nil_r. by apply unlink_none. Qed.
Lemma unlink_head t l : t ∉ l -> unlink t (t :: l) = l.
Proof. intros H. unfold unlink. rewrite filter_cons_False by naive_solver. by apply unlink_none. Qed.
Lemma NoDup_unlink t l : NoDup l -> NoDup (unlink t l).
Proof. apply NoDup_filter. Qed.

Lemma sorted_impl {A} (R S : A -> A -> Prop) l : (forall x y, x ∈ l -> y ∈ l -> R x y -> S x y) -> StronglySorted R l -> StronglySorted S l.
Proof.
  intros H HS. induction HS as [|a l HS IH HF]; constructor; [apply IH; intros x y Hx Hy; apply H; set_solver|].
  rewrite Forall_forall in *. intros y Hy. apply H; [set_solver..|by apply HF].
Qed.
Lemma sorted_unlink (R : Z -> Z -> Prop) t l : StronglySorted R l -> StronglySorted R (unlink t l).
Proof.
  induction 1 as [|a l HS IH HF]; [constructor|]. unfold unlink. destruct (decide (a = t)) as [->|Hne]; [rewrite filter_cons_False by naive_solver; done|].
  rewrite filter_cons_True by done. constructor; [done|]. rewrite Forall_forall in *. intros y [Hy _]%elem_of_unlink. by apply HF.
Qed.

(** ** Waking *)

Definition woken_thread (x : waiter) (result : Z) : waiter := set_state (set_wait x 0 false (wait_deadline x) result false 0) THREAD_RUNNABLE.
(** The state after a thread is woken. *)
Definition woken (W : waits) (t : Z) (x : waiter) (l : list Z) (result : Z) : waits :=
  MkWaits (<[t := woken_thread x result]> (w_threads W)) (<[waiting_on x := unlink t l]> (w_queues W)) (unlink t (w_timeouts W)).

Lemma sleeping_queue W t x : wait_ok W -> w_threads W !! t = Some x -> w_state x = THREAD_SLEEPING ->
  exists l, w_queues W !! waiting_on x = Some l /\ t ∈ l /\ on_waitqueue x = true /\ waiting_on x <> 0.
Proof.
  intros HW Hx Hs. destruct (wk_thread _ HW t x Hx) as (l & Hl & Ht); [auto|]. exists l. destruct (wk_queue _ HW _ _ _ Hl Ht) as (y & Hy & Hq & Ho & _).
  rewrite Hx in Hy. injection Hy as <-. split_and!; try done. intros E. rewrite E, (wk_zero _ HW) in Hl. done.
Qed.

Lemma timeouts_unlink W t x : wait_ok W -> w_threads W !! t = Some x -> (if on_timeout_queue x then unlink t (w_timeouts W) else w_timeouts W) = unlink t (w_timeouts W).
Proof.
  intros HW Hx. destruct (on_timeout_queue x) eqn:E; [done|]. rewrite unlink_none; [done|]. intros (y & Hy & Hyt)%(wk_timed _ HW). congruence.
Qed.

Lemma end_wait_ok W t x l result : wait_ok W -> w_threads W !! t = Some x -> w_queues W !! waiting_on x = Some l ->
  end_wait W t result = Ret (MkWaits (<[t := set_wait x 0 false (wait_deadline x) result false 0]> (w_threads W)) (<[waiting_on x := unlink t l]> (w_queues W)) (unlink t (w_timeouts W))).
Proof.
  intros HW Hx Hl. unfold end_wait, get_thread, get_queue. rewrite Hx. cbn [deref mbind outcome_bind]. rewrite Hl. cbn [deref mbind outcome_bind].
  f_equal. rewrite <-(timeouts_unlink W t x) by done. by destruct (on_timeout_queue x).
Qed.

Lemma wait_wake_ok W t x result : wait_ok W -> w_threads W !! t = Some x -> w_state x = THREAD_SLEEPING ->
  exists l, w_queues W !! waiting_on x = Some l /\ t ∈ l /\ (W1 ← end_wait W t result; make_runnable W1 t) = Ret (woken W t x l result).
Proof.
  intros HW Hx Hs. destruct (sleeping_queue W t x HW Hx Hs) as (l & Hl & Ht & _). exists l. split_and!; try done. rewrite (end_wait_ok W t x l) by done. cbn [mbind outcome_bind].
  unfold make_runnable, get_thread. cbn [w_threads]. rewrite lookup_insert_eq. cbn [deref mbind outcome_bind]. cbn [set_wait w_state]. rewrite Hs. cbn.
  unfold put_thread, woken. cbn. by rewrite insert_insert_eq.
Qed.

Lemma woken_ok W t x l result : wait_ok W -> w_threads W !! t = Some x -> w_state x = THREAD_SLEEPING -> w_queues W !! waiting_on x = Some l ->
  wait_ok (woken W t x l result).
Proof.
  intros HW Hx Hs Hl. assert (Hq : forall q m u, <[waiting_on x := unlink t l]> (w_queues W) !! q = Some m -> u ∈ m -> exists m', w_queues W !! q = Some m' /\ u ∈ m' /\ u <> t).
  { intros q m u. rewrite lookup_insert_Some. intros [[<- <-]|[Hne Hm]]; [intros [? ?]%elem_of_unlink; eauto|]. intros Hu. exists m. split_and!; try done. intros ->.
    destruct (wk_queue _ HW _ _ _ Hm Hu) as (y & Hy & Hyq & _). congruence. }
  split; cbn [woken w_threads w_queues w_timeouts].
  - rewrite lookup_insert_ne; [apply HW|]. intros E. rewrite E, (wk_zero _ HW) in Hl. done.
  - intros q m u Hm Hu. destruct (Hq q m u Hm Hu) as (m' & Hm' & Hu' & Hne). rewrite lookup_insert_ne by done. by eapply wk_queue.
  - intros u y. rewrite lookup_insert_Some. intros [[<- <-]|[Hne Hy]]; [cbn; naive_solver|]. intros Hc. destruct (wk_thread _ HW u y Hy Hc) as (m & Hm & Hu).
    destruct (decide (waiting_on x = waiting_on y)) as [E|E]; [|rewrite lookup_insert_ne by done; eauto]. rewrite E, lookup_insert_eq. eexists. split; [done|].
    apply elem_of_unlink. rewrite E, Hm in Hl. injection Hl as ->. done.
  - intros q m. rewrite lookup_insert_Some. intros [[<- <-]|[_ Hm]]; [|by eapply wk_nodup]. apply NoDup_unlink. by eapply wk_nodup.
  - intros u. rewrite elem_of_unlink, (wk_timed _ HW). destruct (decide (u = t)) as [->|Hne].
    + rewrite lookup_insert_eq. split; [naive_solver|]. intros (y & [= <-] & Hy). done.
    + rewrite lookup_insert_ne by done. naive_solver.
  - intros u y. rewrite lookup_insert_Some. intros [[<- <-]|[_ Hy]]; [done|by apply (wk_deadline _ HW u)].
  - apply NoDup_unlink, HW.
  - apply sorted_unlink. eapply sorted_impl; [|apply HW]. intros a b Ha Hb. unfold earlier, deadline_of. cbn.
    rewrite !lookup_insert. repeat case_decide; subst; rewrite ?Hx; done.
Qed.

(** ** Going to sleep *)

Definition asleep_thread (x : waiter) (q deadline mode : Z) : waiter := set_state (set_wait x q true deadline 0 (truth deadline) mode) THREAD_SLEEPING.

Lemma timeout_place_ok W t d l : (forall u, u ∈ l -> is_Some (w_threads W !! u)) ->
  exists l1 l2, l = l1 ++ l2 /\ timeout_place W t d l = Ret (l1 ++ t :: l2) /\ Forall (fun u => deadline_of W u <= d) l1 /\
    match l2 with [] => True | u :: _ => d < deadline_of W u end.
Proof.
  induction l as [|u l IH]; intros Hl; [by exists [], []|]. cbn [timeout_place]. destruct (Hl u) as [x Hx]; [set_solver|]. unfold get_thread. rewrite Hx. cbn [deref mbind outcome_bind].
  destruct (Z.ltb_spec d (wait_deadline x)) as [Hlt|Hge].
  - exists [], (u :: l). split_and!; try done. unfold deadline_of. by rewrite Hx.
  - destruct IH as (l1 & l2 & -> & -> & HF & H2); [set_solver|]. exists (u :: l1), l2. split_and!; try done. constructor; [|done]. unfold deadline_of. by rewrite Hx.
Qed.

Lemma place_sorted W l1 l2 t d : StronglySorted (earlier W) (l1 ++ l2) -> deadline_of W t = d -> Forall (fun u => deadline_of W u <= d) l1 ->
  match l2 with [] => True | u :: _ => d < deadline_of W u end -> StronglySorted (earlier W) (l1 ++ t :: l2).
Proof.
  intros HS Hd HF H2. induction l1 as [|u l1 IH]; cbn in *.
  - constructor; [done|]. destruct l2 as [|u l2]; [done|]. inversion HS as [|? ? HS' HF' E]; subst. constructor; [unfold earlier; lia|]. eapply Forall_impl; [exact HF'|].
    unfold earlier. intros; lia.
  - inversion HS as [|? ? HS' HF' E]; subst. apply Forall_cons in HF as [Hu HF]. constructor; [by apply IH|]. rewrite Forall_app, Forall_cons in *. destruct HF' as [? ?].
    split_and!; try done.
Qed.

Lemma awake_free W t x : wait_ok W -> w_threads W !! t = Some x -> w_state x <> THREAD_SLEEPING ->
  waiting_on x = 0 /\ on_waitqueue x = false /\ on_timeout_queue x = false /\ t ∉ w_timeouts W /\ forall q l, w_queues W !! q = Some l -> t ∉ l.
Proof.
  intros HW Hx Hs. assert (Hno : ~ (waiting_on x <> 0 \/ on_waitqueue x = true \/ w_state x = THREAD_SLEEPING \/ on_timeout_queue x = true)).
  { intros Hc. destruct (wk_thread _ HW t x Hx Hc) as (l & Hl & Ht). destruct (wk_queue _ HW _ _ _ Hl Ht) as (y & Hy & _ & _ & Hys). congruence. }
  split_and!; [destruct (decide (waiting_on x = 0)); tauto|destruct (on_waitqueue x); tauto|destruct (on_timeout_queue x); tauto|..].
  - intros (y & Hy & Ho)%(wk_timed _ HW). rewrite Hx in Hy. injection Hy as <-. tauto.
  - intros q l Hl Ht. destruct (wk_queue _ HW _ _ _ Hl Ht) as (y & Hy & _ & _ & Hys). congruence.
Qed.

(** The state of a thread that is queued, before the last checks. *)
Definition queued (W : waits) (t : Z) (y : waiter) (q : Z) (l ts : list Z) : waits := MkWaits (<[t := y]> (w_threads W)) (<[q := l ++ [t]]> (w_queues W)) ts.

Lemma wait_enqueue_ok W t x q l deadline mode : wait_ok W -> w_threads W !! t = Some x -> w_state x = THREAD_RUNNING -> w_queues W !! q = Some l ->
  exists ts l1 l2, let W1 := put_queue (put_thread W t (set_wait x q true deadline 0 false mode)) q (l ++ [t]) in
    (if truth deadline then timeout_insert_locked W1 t else Ret W1) = Ret (queued W t (set_wait x q true deadline 0 (truth deadline) mode) q l ts) /\
    w_timeouts W = l1 ++ l2 /\ ts = (if truth deadline then l1 ++ t :: l2 else w_timeouts W) /\ Forall (fun u => deadline_of W u <= deadline) l1 /\
    match l2 with [] => True | u :: _ => deadline < deadline_of W u end.
Proof.
  intros HW Hx Hs Hl. destruct (awake_free W t x HW Hx ltac:(congruence)) as (E1 & E2 & E3 & Ht & _). cbv zeta. set (W1 := put_queue _ _ _).
  assert (Hd : forall u, u ∈ w_timeouts W -> deadline_of W1 u = deadline_of W u).
  { intros u Hu. unfold deadline_of. cbn. rewrite lookup_insert_ne; [done|]. by intros ->. }
  destruct (timeout_place_ok W1 t deadline (w_timeouts W)) as (l1 & l2 & El & Ep & HF & H2).
  { intros u Hu. cbn. rewrite lookup_insert_is_Some'. right. apply (wk_timed _ HW) in Hu as (y & Hy & _). eauto. }
  exists (if truth deadline then l1 ++ t :: l2 else w_timeouts W), l1, l2. rewrite El in Hd. split_and!; try done.
  - destruct (truth deadline); [|done]. unfold timeout_insert_locked, get_thread. cbn [W1 put_queue put_thread w_threads]. rewrite lookup_insert_eq. cbn [deref mbind outcome_bind set_wait wait_deadline].
    change (w_timeouts _) with (w_timeouts W). fold W1. rewrite Ep. cbn [mbind outcome_bind]. unfold queued, put_timeouts, put_thread. cbn. by rewrite insert_insert_eq.
  - rewrite Forall_forall in *. intros u Hu. rewrite <-Hd by set_solver. by apply HF.
  - destruct l2 as [|u l2]; [done|]. rewrite <-Hd by set_solver. done.
Qed.

(** A wait that ended before the thread slept. *)
Definition gave_up (W : waits) (t : Z) (x : waiter) (deadline result : Z) : waits := put_thread W t (set_wait x 0 false deadline result false 0).
(** A thread that sleeps. *)
Definition slept (W : waits) (t : Z) (x : waiter) (q : Z) (l ts : list Z) (deadline mode : Z) : waits := queued W t (asleep_thread x q deadline mode) q l ts.

Lemma slept_ok W t x q l ts l1 l2 deadline mode : wait_ok W -> w_threads W !! t = Some x -> w_state x = THREAD_RUNNING -> w_queues W !! q = Some l -> 
  w_timeouts W = l1 ++ l2 -> ts = (if truth deadline then l1 ++ t :: l2 else w_timeouts W) -> Forall (fun u => deadline_of W u <= deadline) l1 ->
  match l2 with [] => True | u :: _ => deadline < deadline_of W u end -> wait_ok (slept W t x q l ts deadline mode).
Proof.
  intros HW Hx Hs Hl Et Ets HF H2. destruct (awake_free W t x HW Hx ltac:(congruence)) as (E1 & E2 & E3 & Ht & Hfree).
  assert (Hts : forall u, u ∈ ts <-> u ∈ w_timeouts W \/ u = t /\ truth deadline = true) by (intros u; rewrite Ets, Et; destruct (truth deadline); set_solver).
  assert (Hq0 : q <> 0) by (intros ->; rewrite (wk_zero _ HW) in Hl; done).
  split; cbn [slept queued w_threads w_queues w_timeouts].
  - rewrite lookup_insert_ne by done. apply HW.
  - intros q' m u. rewrite lookup_insert_Some. intros [[<- <-]|[Hne Hm]] Hu.
    + apply elem_of_app in Hu as [Hu| ->%list_elem_of_singleton]; [|rewrite lookup_insert_eq; by eexists]. rewrite lookup_insert_ne by (intros ->; by apply (Hfree _ _ Hl)). by eapply wk_queue.
    + rewrite lookup_insert_ne by (intros ->; by apply (Hfree _ _ Hm)). by eapply wk_queue.
  - intros u y. rewrite lookup_insert_Some. intros [[<- <-]|[Hne Hy]] Hc; [cbn; rewrite lookup_insert_eq; eexists; split; [done|set_solver]|].
    destruct (wk_thread _ HW u y Hy Hc) as (m & Hm & Hu). destruct (decide (q = waiting_on y)) as [->|?]; [rewrite lookup_insert_eq; eexists; split; [done|]|rewrite lookup_insert_ne by done; eauto].
    rewrite Hm in Hl. injection Hl as ->. set_solver.
  - intros q' m. rewrite lookup_insert_Some. intros [[<- <-]|[_ Hm]]; [|by eapply wk_nodup]. apply NoDup_app. split_and!; [by eapply wk_nodup| |apply NoDup_singleton].
    intros u Hu ->%list_elem_of_singleton. by apply (Hfree _ _ Hl).
  - intros u. rewrite Hts, (wk_timed _ HW). destruct (decide (u = t)) as [->|Hne]; [rewrite lookup_insert_eq|rewrite lookup_insert_ne by done; naive_solver].
    split; [intros [(y & Hy & Ho)|[_ ?]]; [congruence|by eexists]|]. intros (y & [= <-] & Ho). auto.
  - intros u y. rewrite lookup_insert_Some. intros [[<- <-]|[_ Hy]]; [done|by apply (wk_deadline _ HW u)].
  - rewrite Ets. pose proof (wk_once _ HW) as HN. rewrite Et in *. destruct (truth deadline); [|done]. rewrite <-Permutation_middle. by constructor.
  - rewrite Ets. assert (HS : StronglySorted (earlier (slept W t x q l ts deadline mode)) (w_timeouts W)).
    { eapply sorted_impl; [|apply HW]. intros a b Ha Hb. unfold earlier, deadline_of. cbn. rewrite !lookup_insert_ne by (intros ->; done). done. }
    destruct (truth deadline); [|done]. rewrite Et in *. apply (place_sorted _ _ _ _ deadline); [done|unfold deadline_of; cbn; by rewrite lookup_insert_eq|..].
    + rewrite Forall_forall in *. intros u Hu. unfold deadline_of. cbn. rewrite lookup_insert_ne by (intros ->; set_solver). by apply HF.
    + destruct l2 as [|u l2]; [done|]. unfold deadline_of in *. cbn. rewrite lookup_insert_ne by (intros ->; set_solver). done.
Qed.

Lemma end_queued W t x q l ts l1 l2 deadline mode result : w_threads W !! t = Some x -> w_queues W !! q = Some l -> t ∉ l -> t ∉ w_timeouts W ->
  w_timeouts W = l1 ++ l2 -> ts = (if truth deadline then l1 ++ t :: l2 else w_timeouts W) ->
  end_wait (queued W t (set_wait x q true deadline 0 (truth deadline) mode) q l ts) t result = Ret (gave_up W t x deadline result).
Proof.
  intros Hx Hl Htl Htt Et Ets. unfold end_wait, get_thread, get_queue. cbn [queued w_threads w_queues]. rewrite lookup_insert_eq. cbn [deref mbind outcome_bind set_wait waiting_on].
  rewrite lookup_insert_eq. cbn [deref mbind outcome_bind]. rewrite unlink_snoc by done. cbn [set_wait on_timeout_queue wait_deadline]. unfold gave_up, put_thread, put_queue, put_timeouts.
  assert (Eu : unlink t (l1 ++ t :: l2) = w_timeouts W).
  { rewrite Et in *. unfold unlink. rewrite filter_app, filter_cons_False by naive_solver. fold (unlink t l1) (unlink t l2). rewrite !unlink_none by set_solver. done. }
  unfold unlink in Eu.
  destruct (truth deadline); cbn; rewrite Ets, ?Eu, !insert_insert_eq, (insert_id (w_queues W)) by done; done.
Qed.

Lemma gave_up_ok W t x deadline result : wait_ok W -> w_threads W !! t = Some x -> w_state x <> THREAD_SLEEPING -> wait_ok (gave_up W t x deadline result).
Proof.
  intros HW Hx Hs. destruct (awake_free W t x HW Hx Hs) as (E1 & E2 & E3 & Ht & Hfree). split; cbn [gave_up put_thread w_threads w_queues w_timeouts]; try apply HW.
  - intros q l u Hl Hu. rewrite lookup_insert_ne by (intros ->; by apply (Hfree _ _ Hl)). by eapply wk_queue.
  - intros u y. rewrite lookup_insert_Some. intros [[<- <-]|[Hne Hy]]; [cbn; naive_solver|by apply wk_thread].
  - intros u. rewrite (wk_timed _ HW). destruct (decide (u = t)) as [->|Hne]; [rewrite lookup_insert_eq|by rewrite lookup_insert_ne]. cbn. naive_solver.
  - intros u y. rewrite lookup_insert_Some. intros [[<- <-]|[_ Hy]]; [cbn; naive_solver|by apply (wk_deadline _ HW u)].
  - eapply sorted_impl; [|apply HW]. intros a b Ha Hb. unfold earlier, deadline_of. cbn. by rewrite !lookup_insert_ne by (intros ->; done).
Qed.

(** The three ends of the locked part of a sleep. *)
Definition sleep_result (W : waits) (t : Z) (x : waiter) (q : Z) (l : list Z) (deadline mode seq : Z) (W' : waits) (e : sleep_end) : Prop :=
  match e with
  | SleepTerminated => exit_requested x = true /\ W' = gave_up W t x deadline WAIT_QUEUE_TERMINATED
  | SleepInterrupted => exit_requested x = false /\ mode <> 0 /\ seq <> sequence_of x mode /\ W' = gave_up W t x deadline WAIT_QUEUE_INTERRUPTED
  | Asleep => exit_requested x = false /\ (mode <> 0 -> seq = sequence_of x mode) /\ exists ts, W' = slept W t x q l ts deadline mode
  end.

Lemma sleep_queue_ok W t x q l deadline mode seq : wait_ok W -> w_threads W !! t = Some x -> w_state x = THREAD_RUNNING -> w_queues W !! q = Some l ->
  exists W' e, sleep_queue W t q deadline mode seq = Ret (W', e) /\ wait_ok W' /\ sleep_result W t x q l deadline mode seq W' e.
Proof.
  intros HW Hx Hs Hl. destruct (awake_free W t x HW Hx ltac:(congruence)) as (E1 & E2 & E3 & Ht & Hfree).
  unfold sleep_queue. unfold get_thread at 1. rewrite Hx. cbn [deref mbind outcome_bind]. rewrite bool_decide_true, E1, E2, E3 by done. cbn [negb orb truth Z.eqb].
  unfold get_queue at 1. rewrite Hl. cbn [deref mbind outcome_bind]. destruct (wait_enqueue_ok W t x q l deadline mode HW Hx Hs Hl) as (ts & l1 & l2 & -> & Et & Ets & HF & H2). cbn [mbind outcome_bind].
  assert (Hend : forall r, end_wait (queued W t (set_wait x q true deadline 0 (truth deadline) mode) q l ts) t r = Ret (gave_up W t x deadline r)).
  { intros r. by apply (end_queued W t x q l ts l1 l2); auto; apply (Hfree q). }
  destruct (exit_requested x) eqn:Ee; [rewrite Hend; cbn; do 2 eexists; split; [done|]; split; [by apply gave_up_ok; [..|congruence]|done]|].
  destruct (truth mode && _) eqn:Em.
  - rewrite Hend. cbn. do 2 eexists. split; [done|]. split; [by apply gave_up_ok; [..|congruence]|]. apply andb_true_iff in Em as [Em En]. unfold truth in Em.
    apply negb_true_iff, Z.eqb_neq in Em, En. done.
  - unfold block_thread, get_thread. cbn [queued w_threads]. rewrite lookup_insert_eq. cbn [deref mbind outcome_bind set_wait w_state]. rewrite bool_decide_true by done. cbn.
    do 2 eexists. split; [done|]. unfold put_thread. cbn. rewrite insert_insert_eq. split; [by apply (slept_ok W t x q l ts l1 l2 deadline mode)|]. split; [done|]. split; [|by exists ts].
    intros Hm. unfold truth in Em. rewrite (proj2 (Z.eqb_neq mode 0) Hm) in Em. cbn in Em. by apply negb_false_iff, Z.eqb_eq in Em.
Qed.

(** ** The operations that wake *)

Lemma wake_locked_ok W q l t result : wait_ok W -> w_queues W !! q = Some l -> t ∈ l ->
  exists x, w_threads W !! t = Some x /\ waiting_on x = q /\ w_state x = THREAD_SLEEPING /\
    wait_queue_wake_locked W q t result = Ret (woken W t x l result) /\ wait_ok (woken W t x l result).
Proof.
  intros HW Hl Ht. destruct (wk_queue _ HW _ _ _ Hl Ht) as (x & Hx & Hq & Ho & Hs). exists x. destruct (wait_wake_ok W t x result HW Hx Hs) as (l' & Hl' & _ & E).
  rewrite Hq, Hl in Hl'. injection Hl' as <-. split_and!; try done; [|apply woken_ok; try done; by rewrite Hq].
  unfold wait_queue_wake_locked, get_thread at 1. rewrite Hx. cbn [deref mbind outcome_bind]. rewrite Ho, Hq, Z.eqb_refl, bool_decide_true by done. cbn [negb orb]. exact E.
Qed.

(** Exactly the threads of the list are woken, with one result. *)
Record woke (W W' : waits) (sel : list Z) (result : Z) : Prop := {
  wo_threads u : w_threads W' !! u = if decide (u ∈ sel) then (fun x => woken_thread x result) <$> w_threads W !! u else w_threads W !! u;
  wo_queues q : w_queues W' !! q = filter (fun u => u ∉ sel) <$> w_queues W !! q;
  wo_timeouts : w_timeouts W' = filter (fun u => u ∉ sel) (w_timeouts W)
}.

Lemma filter_all {A} (P : A -> Prop) `{!forall x, Decision (P x)} (l : list A) : (forall x, x ∈ l -> P x) -> filter P l = l.
Proof. induction l as [|x l IH]; intros Hl; [done|]. rewrite filter_cons_True by (apply Hl; set_solver). f_equal. apply IH. set_solver. Qed.
Lemma filter_none {A} (P : A -> Prop) `{!forall x, Decision (P x)} (l : list A) : (forall x, x ∈ l -> ~ P x) -> filter P l = [].
Proof. induction l as [|x l IH]; intros Hl; [done|]. rewrite filter_cons_False by (apply Hl; set_solver). apply IH. set_solver. Qed.
Lemma filter_ext_in {A} (P Q : A -> Prop) `{!forall x, Decision (P x), !forall x, Decision (Q x)} (l : list A) :
  (forall x, x ∈ l -> P x <-> Q x) -> filter P l = filter Q l.
Proof.
  induction l as [|x l IH]; intros Hl; [done|]. assert (Hx : P x <-> Q x) by (apply Hl; set_solver).
  destruct (decide (P x)); [rewrite !filter_cons_True by tauto; f_equal|rewrite !filter_cons_False by tauto]; apply IH; set_solver.
Qed.
Lemma not_elem_take {A} n (l : list A) x : x ∉ l -> x ∉ take n l.
Proof. intros H Hx. apply H. rewrite <-(take_drop n l). set_solver. Qed.

Lemma woke_nil W result : woke W W [] result.
Proof.
  split.
  - intros u. by rewrite decide_False by set_solver.
  - intros q. destruct (w_queues W !! q) as [l|]; [|done]. cbn. f_equal. symmetry. apply filter_all. set_solver.
  - symmetry. apply filter_all. set_solver.
Qed.

Lemma filter_unlink t sel (l : list Z) : filter (fun u => u ∉ sel) (unlink t l) = filter (fun u => u ∉ t :: sel) l.
Proof. unfold unlink. rewrite list_filter_filter. apply list_filter_iff. intros u. set_solver. Qed.

Lemma woke_cons W t x l sel result W' : wait_ok W -> w_threads W !! t = Some x -> w_state x = THREAD_SLEEPING -> w_queues W !! waiting_on x = Some l -> t ∉ sel ->
  woke (woken W t x l result) W' sel result -> woke W W' (t :: sel) result.
Proof.
  intros HW Hx Hs Hl Ht [H1 H2 H3]. split.
  - intros u. rewrite H1. cbn. destruct (decide (u = t)) as [->|Hne].
    + rewrite decide_False, decide_True, lookup_insert_eq by set_solver. by rewrite Hx.
    + rewrite lookup_insert_ne by done. destruct (decide (u ∈ sel)); [rewrite decide_True by set_solver|rewrite decide_False by set_solver]; done.
  - intros q. rewrite H2. cbn. destruct (decide (q = waiting_on x)) as [->|Hne].
    + rewrite lookup_insert_eq, Hl. cbn. by rewrite filter_unlink.
    + rewrite lookup_insert_ne by done. destruct (w_queues W !! q) as [m|] eqn:Em; [|done]. cbn. f_equal. rewrite <-filter_unlink. f_equal. rewrite unlink_none; [done|].
      intros Hin. destruct (wk_queue _ HW _ _ _ Em Hin) as (y & Hy & Hq & _). congruence.
  - rewrite H3. cbn. apply filter_unlink.
Qed.

Definition matches (W : waits) (mask t : Z) : Prop := exists x, w_threads W !! t = Some x /\ Z.land (wait_bitset x) mask <> 0.
#[export] Instance matches_dec W mask t : Decision (matches W mask t).
Proof.
  unfold matches. destruct (w_threads W !! t) as [x|]; [|right; naive_solver].
  destruct (decide (Z.land (wait_bitset x) mask <> 0)); [left; eauto|right; naive_solver].
Defined.

Lemma wake_mask_loop_ok rest W q l count mask n : wait_ok W -> w_queues W !! q = Some l -> (forall t, t ∈ rest -> t ∈ l) -> NoDup rest ->
  let sel := take (Z.to_nat (count - n)) (filter (matches W mask) rest) in
  exists W', wake_mask_loop rest W q count mask n = Ret (W', n + Z.of_nat (length sel)) /\ wait_ok W' /\ woke W W' sel 0.
Proof.
  revert W l n. induction rest as [|t rest IH]; intros W l n HW Hl Hr HN; cbn [wake_mask_loop].
  { exists W. rewrite filter_nil, take_nil. cbn. rewrite Z.add_0_r. split_and!; try done. apply woke_nil. }
  apply NoDup_cons in HN as [Ht HN]. destruct (Z.leb_spec count n) as [Hge|Hlt].
  { exists W. replace (Z.to_nat (count - n)) with 0%nat by lia. cbn. rewrite Z.add_0_r. split_and!; try done. apply woke_nil. }
  destruct (wake_locked_ok W q l t 0 HW Hl) as (x & Hx & Hq & Hs & E & HW1); [set_solver|]. unfold get_thread. rewrite Hx. cbn [deref mbind outcome_bind]. unfold truth.
  destruct (Z.eqb_spec (Z.land (wait_bitset x) mask) 0) as [Hz|Hnz]; cbn [negb].
  - rewrite filter_cons_False by (unfold matches; naive_solver). apply (IH W l); try done. set_solver.
  - rewrite filter_cons_True by (unfold matches; naive_solver). rewrite E. cbn [mbind outcome_bind].
    destruct (IH (woken W t x l 0) (unlink t l) (n + 1)) as (W' & E' & HW' & HWo); [done|cbn; by rewrite Hq, lookup_insert_eq|intros u Hu; apply elem_of_unlink; split; [set_solver|by intros ->]|done|].
    assert (Ef : filter (matches (woken W t x l 0) mask) rest = filter (matches W mask) rest).
    { apply filter_ext_in. intros u Hu. unfold matches. cbn. rewrite lookup_insert_ne; [done|]. by intros ->. }
    rewrite Ef in E', HWo. replace (Z.to_nat (count - n)) with (S (Z.to_nat (count - (n + 1)))) by lia. cbn [take]. exists W'. split_and!; [|done|].
    + rewrite E'. do 2 f_equal. cbn [length]. lia.
    + eapply woke_cons; [done|done|done|by rewrite Hq| |done]. apply not_elem_take. rewrite list_elem_of_filter. tauto.
Qed.

(** * Wait queues: what the operations do

    Waking takes threads from the front of a queue; moving keeps their order;
    deadlines that have passed end exactly the waits that have them. *)

Lemma wake_mask_ok W q l count mask : wait_ok W -> w_queues W !! q = Some l ->
  let sel := if decide (mask = 0) then [] else take (Z.to_nat count) (filter (matches W mask) l) in
  exists W', wait_queue_wake_mask W q count mask = Ret (W', Z.of_nat (length sel)) /\ wait_ok W' /\ woke W W' sel 0.
Proof.
  intros HW Hl. unfold wait_queue_wake_mask, truth. destruct (Z.leb_spec count 0) as [Hc|Hc]; cbn [orb].
  { exists W. replace (Z.to_nat count) with 0%nat by lia. rewrite take_0. cbv zeta. replace (if decide (mask = 0) then [] else []) with (@nil Z) by (by case_decide).
    split_and!; try done. apply woke_nil. }
  destruct (Z.eqb_spec mask 0) as [->|Hm]; cbn [negb]; [rewrite decide_True by done; exists W; split_and!; try done; apply woke_nil|]. rewrite decide_False by done.
  unfold get_queue. rewrite Hl. cbn [deref mbind outcome_bind]. destruct (wake_mask_loop_ok l W q l count mask 0 HW Hl) as (W' & E & HW' & HWo); [done|by eapply wk_nodup|].
  rewrite Z.sub_0_r in E, HWo. exists W'. done.
Qed.

Lemma wake_one_ok W q l : wait_ok W -> w_queues W !! q = Some l ->
  exists W', wait_queue_wake_one W q = Ret (W', Z.of_nat (length (take 1 l))) /\ wait_ok W' /\ woke W W' (take 1 l) 0.
Proof.
  intros HW Hl. unfold wait_queue_wake_one, get_queue. rewrite Hl. cbn [deref mbind outcome_bind]. destruct l as [|t l]; [exists W; split_and!; try done; apply woke_nil|].
  destruct (wake_locked_ok W q (t :: l) t 0 HW Hl) as (x & Hx & Hq & Hs & E & HW1); [set_solver|]. rewrite E. cbn. eexists. split_and!; [done|done|].
  eapply woke_cons; [done|done|done|by rewrite Hq|set_solver|apply woke_nil].
Qed.

Lemma wake_all_loop_ok l W q n fuel : wait_ok W -> w_queues W !! q = Some l -> (length l < fuel)%nat ->
  exists W', wake_all_loop fuel W q n = Ret (W', n + Z.of_nat (length l)) /\ wait_ok W' /\ woke W W' l 0.
Proof.
  revert W n fuel. induction l as [|t l IH]; intros W n fuel HW Hl Hf; (destruct fuel as [|fuel]; [cbn in Hf; lia|]); cbn [wake_all_loop]; unfold get_queue; rewrite Hl; cbn [deref mbind outcome_bind].
  { exists W. rewrite Z.add_0_r. split_and!; try done. apply woke_nil. }
  destruct (wake_locked_ok W q (t :: l) t 0 HW Hl) as (x & Hx & Hq & Hs & E & HW1); [set_solver|]. rewrite E. cbn [mbind outcome_bind].
  pose proof (wk_nodup _ HW _ _ Hl) as [Ht HN]%NoDup_cons. destruct (IH (woken W t x (t :: l) 0) (n + 1) fuel) as (W' & -> & HW' & HWo); [done| |cbn in Hf; lia|].
  - cbn. rewrite Hq, lookup_insert_eq. f_equal. by apply unlink_head.
  - exists W'. split_and!; [do 2 f_equal; cbn [length]; lia|done|]. eapply woke_cons; [done|done|done|by rewrite Hq|done|done].
Qed.
Lemma wake_all_ok W q l : wait_ok W -> w_queues W !! q = Some l ->
  exists W', wait_queue_wake_all W q = Ret (W', Z.of_nat (length l)) /\ wait_ok W' /\ woke W W' l 0.
Proof.
  intros HW Hl. unfold wait_queue_wake_all, get_queue at 1. rewrite Hl. cbn [deref mbind outcome_bind].
  destruct (wake_all_loop_ok l W q 0 (S (length l)) HW Hl) as (W' & -> & ?); [lia|]. eauto.
Qed.

(** ** One thread *)

(** Waking a thread that sleeps, and leaving any other alone. *)
Definition one_woken (W : waits) (t : Z) (x : waiter) (b : bool) (result : Z) (W' : waits) (n : Z) : Prop :=
  if b then n = 1 /\ woke W W' [t] result else n = 0 /\ W' = W.

Lemma wake_single W t x result : wait_ok W -> w_threads W !! t = Some x -> w_state x = THREAD_SLEEPING ->
  exists W', (W1 ← end_wait W t result; make_runnable W1 t) = Ret W' /\ wait_ok W' /\ woke W W' [t] result.
Proof.
  intros HW Hx Hs. destruct (wait_wake_ok W t x result HW Hx Hs) as (l & Hl & Ht & E). exists (woken W t x l result). split_and!; [done|by apply woken_ok|].
  eapply woke_cons; [done|done|done|done|set_solver|apply woke_nil].
Qed.

Lemma sleeping_flags W t x : wait_ok W -> w_threads W !! t = Some x ->
  bool_decide (w_state x = THREAD_SLEEPING) = on_waitqueue x /\ bool_decide (w_state x = THREAD_SLEEPING) = truth (waiting_on x).
Proof.
  intros HW Hx. unfold truth. destruct (decide (w_state x = THREAD_SLEEPING)) as [Hs|Hs].
  - destruct (sleeping_queue W t x HW Hx Hs) as (l & _ & _ & -> & Hq). rewrite bool_decide_true, (proj2 (Z.eqb_neq _ _) Hq) by done. done.
  - destruct (awake_free W t x HW Hx Hs) as (-> & -> & _). rewrite bool_decide_false by done. done.
Qed.

Lemma wake_thread_ok W t x : wait_ok W -> w_threads W !! t = Some x ->
  exists W' n, wait_queue_wake_thread W t = Ret (W', n) /\ wait_ok W' /\ one_woken W t x (bool_decide (w_state x = THREAD_SLEEPING)) 0 W' n.
Proof.
  intros HW Hx. destruct (sleeping_flags W t x HW Hx) as [E1 E2]. unfold wait_queue_wake_thread, get_thread. rewrite Hx. cbn [deref mbind outcome_bind]. rewrite <-E1, <-E2.
  case_bool_decide as Hs; cbn [negb orb]; [|do 2 eexists; split; [done|]; by split].
  destruct (wake_single W t x 0 HW Hx Hs) as (W' & E & HW' & HWo). apply bind_Ret in E as (W1 & -> & E). cbn [mbind outcome_bind]. rewrite E. cbn. do 2 eexists. split; [done|]. by split.
Qed.

(** A signal ends a wait in its mode. *)
Definition signal_ends (x : waiter) (fatal : bool) : bool :=
  bool_decide (w_state x = THREAD_SLEEPING) && truth (wait_interruptible x) && negb ((wait_interruptible x =? WAIT_SIGNAL_KILLABLE) && negb fatal).

Lemma signal_thread_ok W t x fatal : wait_ok W -> w_threads W !! t = Some x ->
  exists W' n, wait_queue_signal_thread W t fatal = Ret (W', n) /\ wait_ok W' /\ one_woken W t x (signal_ends x fatal) WAIT_QUEUE_INTERRUPTED W' n.
Proof.
  intros HW Hx. destruct (sleeping_flags W t x HW Hx) as [E1 E2]. unfold wait_queue_signal_thread, get_thread, signal_ends. rewrite Hx. cbn [deref mbind outcome_bind]. rewrite <-E1, <-E2.
  case_bool_decide as Hs; cbn [negb orb andb]; [|do 2 eexists; split; [done|]; by split]. destruct (truth (wait_interruptible x)); cbn [negb orb andb]; [|do 2 eexists; split; [done|]; by split].
  destruct (_ && _); cbn [negb]; [do 2 eexists; split; [done|]; by split|].
  destruct (wake_single W t x WAIT_QUEUE_INTERRUPTED HW Hx Hs) as (W' & E & HW' & HWo). apply bind_Ret in E as (W1 & -> & E). cbn [mbind outcome_bind]. rewrite E. cbn. do 2 eexists. split; [done|]. by split.
Qed.

Lemma terminate_thread_ok W t x : wait_ok W -> w_threads W !! t = Some x ->
  exists W' n, wait_queue_terminate_thread W t = Ret (W', n) /\ wait_ok W' /\ one_woken W t x (bool_decide (w_state x = THREAD_SLEEPING)) WAIT_QUEUE_TERMINATED W' n.
Proof.
  intros HW Hx. destruct (sleeping_flags W t x HW Hx) as [E1 E2]. unfold wait_queue_terminate_thread, get_thread at 1. rewrite Hx. cbn [deref mbind outcome_bind]. rewrite <-E1, <-E2.
  case_bool_decide as Hs; cbn [negb orb]; [|do 2 eexists; split; [done|]; by split].
  destruct (sleeping_queue W t x HW Hx Hs) as (l & Hl & Ht & _). destruct (wake_locked_ok W (waiting_on x) l t WAIT_QUEUE_TERMINATED HW Hl Ht) as (y & Hy & _ & _ & E & HW').
  rewrite Hx in Hy. injection Hy as <-. rewrite E. cbn. do 2 eexists. split; [done|]. split; [done|]. split; [done|]. eapply woke_cons; [done|done|done|done|set_solver|apply woke_nil].
Qed.

(** ** Deadlines *)

Lemma expire_loop_ok fuel W now : wait_ok W -> (length (w_timeouts W) < fuel)%nat ->
  exists W', expire_loop fuel W now = Ret W' /\ wait_ok W' /\ woke W W' (filter (fun t => deadline_of W t <= now) (w_timeouts W)) (-1).
Proof.
  revert W. induction fuel as [|fuel IH]; intros W HW Hf; [lia|]. cbn [expire_loop]. destruct (w_timeouts W) as [|t ts] eqn:Et.
  { exists W. rewrite filter_nil. split_and!; try done. apply woke_nil. }
  pose proof (wk_once _ HW) as HN. rewrite Et in HN. apply NoDup_cons in HN as [Ht HN]. pose proof (wk_sorted _ HW) as HS. rewrite Et in HS. inversion HS as [|? ? HS' HF E]; subst.
  destruct (proj1 (wk_timed _ HW t)) as (x & Hx & Ho); [rewrite Et; set_solver|]. unfold get_thread. rewrite Hx. cbn [deref mbind outcome_bind].
  assert (Hdt : deadline_of W t = wait_deadline x) by (unfold deadline_of; by rewrite Hx). destruct (Z.ltb_spec now (wait_deadline x)) as [Hlt|Hge].
  { exists W. split_and!; try done. replace (filter _ _) with (@nil Z); [apply woke_nil|]. symmetry. apply filter_none.
    rewrite Forall_forall in HF. unfold earlier in HF. intros u [->|Hu]%elem_of_cons; [lia|]. specialize (HF u Hu). lia. }
  destruct (wk_thread _ HW t x Hx) as (l & Hl & Htl); [auto|]. destruct (wk_queue _ HW _ _ _ Hl Htl) as (y & Hy & Hq & _ & Hs). rewrite Hx in Hy. injection Hy as <-.
  destruct (sleeping_flags W t x HW Hx) as [_ E2]. rewrite bool_decide_true in E2 by done. rewrite <-E2. cbn [negb].
  destruct (wake_locked_ok W (waiting_on x) l t (-1) HW Hl Htl) as (y & Hy & _ & _ & E & HW1). rewrite Hx in Hy. injection Hy as <-. rewrite E. cbn [mbind outcome_bind].
  assert (Ets : w_timeouts (woken W t x l (-1)) = ts) by (cbn; rewrite Et; by apply unlink_head).
  destruct (IH (woken W t x l (-1)) HW1) as (W' & -> & HW' & HWo); [rewrite Ets; cbn in Hf; lia|]. exists W'. split_and!; try done. rewrite Ets in HWo.
  rewrite filter_cons_True by lia. eapply woke_cons; [done|done|done|done|rewrite list_elem_of_filter; naive_solver|].
  erewrite filter_ext_in; [exact HWo|]. intros u Hu. unfold deadline_of. cbn. rewrite lookup_insert_ne; [done|]. by intros ->.
Qed.
Lemma timed_sleeps W t x : wait_ok W -> t ∈ w_timeouts W -> w_threads W !! t = Some x -> w_state x = THREAD_SLEEPING.
Proof.
  intros HW (y & Hy & Ho)%(wk_timed _ HW) Hx. rewrite Hx in Hy. injection Hy as <-. destruct (decide (w_state x = THREAD_SLEEPING)) as [|Hs]; [done|]. destruct (awake_free _ t x HW Hx Hs) as (_ & _ & ? & _). congruence.
Qed.
Lemma expire_ok W now : wait_ok W ->
  exists W', wait_queue_expire W now = Ret W' /\ wait_ok W' /\ woke W W' (filter (fun t => deadline_of W t <= now) (w_timeouts W)) (-1).
Proof. intros HW. apply expire_loop_ok; [done|lia]. Qed.

(** ** Moving *)

Definition moved_thread (x : waiter) (q private : Z) : waiter :=
  set_private (set_wait x q (on_waitqueue x) (wait_deadline x) (wait_result x) (on_timeout_queue x) (wait_interruptible x)) private (wait_bitset x).

Record requeued (W W' : waits) (src dst : Z) (l m mv : list Z) (private : Z) : Prop := {
  rq_threads u : w_threads W' !! u = if decide (u ∈ mv) then (fun x => moved_thread x dst private) <$> w_threads W !! u else w_threads W !! u;
  rq_source : w_queues W' !! src = Some (drop (length mv) l);
  rq_target : w_queues W' !! dst = Some (m ++ mv);
  rq_others q : q <> src -> q <> dst -> w_queues W' !! q = w_queues W !! q;
  rq_timeouts : w_timeouts W' = w_timeouts W
}.

(** The first thread of a queue moved to another. *)
Definition moved_first (W : waits) (t : Z) (x : waiter) (src dst : Z) (l m : list Z) (private : Z) : waits :=
  MkWaits (<[t := moved_thread x dst private]> (w_threads W)) (<[dst := m ++ [t]]> (<[src := l]> (w_queues W))) (w_timeouts W).

Lemma moved_first_ok W t x src dst l m private : wait_ok W -> w_queues W !! src = Some (t :: l) -> w_queues W !! dst = Some m -> src <> dst -> w_threads W !! t = Some x ->
  wait_ok (moved_first W t x src dst l m private).
Proof.
  intros HW Hl Hm Hne Hx. pose proof (wk_nodup _ HW _ _ Hl) as [Ht HN]%NoDup_cons. destruct (wk_queue _ HW _ _ t Hl) as (y & Hy & Hq & Ho & Hs); [set_solver|].
  rewrite Hx in Hy. injection Hy as <-. assert (Hat : forall q k, w_queues W !! q = Some k -> t ∈ k -> q = src).
  { intros q k Hk Htk. destruct (wk_queue _ HW _ _ _ Hk Htk) as (y & Hy & Hyq & _). congruence. }
  split; cbn [moved_first w_threads w_queues w_timeouts].
  - rewrite !lookup_insert_ne; [apply HW|..]; intros E; [rewrite E in Hl|rewrite E in Hm]; rewrite (wk_zero _ HW) in *; done.
  - intros q k u. rewrite !lookup_insert_Some. intros [[<- <-]|[Hqd [[<- <-]|[Hqs Hk]]]] Hu.
    + apply elem_of_app in Hu as [Hu| ->%list_elem_of_singleton]; [|rewrite lookup_insert_eq; eexists; split; [done|]; by split_and!].
      rewrite lookup_insert_ne; [by eapply wk_queue|]. intros ->. by apply Hat in Hm.
    + rewrite lookup_insert_ne; [|by intros ->]. eapply wk_queue; [done|done|]. set_solver.
    + rewrite lookup_insert_ne; [by eapply wk_queue|]. intros ->. by apply Hat in Hk.
  - intros u y. rewrite lookup_insert_Some. intros [[<- <-]|[Hut Hy]] Hc; [cbn; rewrite lookup_insert_eq; eexists; split; [done|set_solver]|].
    destruct (wk_thread _ HW u y Hy Hc) as (k & Hk & Hu). destruct (decide (waiting_on y = dst)) as [Ed|Hd]; [rewrite Ed in Hk |- *; rewrite lookup_insert_eq; eexists; split; [done|]|rewrite lookup_insert_ne by done].
    + rewrite Hm in Hk. injection Hk as ->. set_solver.
    + destruct (decide (waiting_on y = src)) as [E|Hsrc]; [rewrite E, lookup_insert_eq; eexists; split; [done|]|rewrite lookup_insert_ne by done; eauto].
      rewrite E, Hl in Hk. injection Hk as <-. set_solver.
  - intros q k. rewrite !lookup_insert_Some. intros [[<- <-]|[Hqd [[<- <-]|[Hqs Hk]]]]; [|done|by eapply wk_nodup].
    apply NoDup_app. split_and!; [by eapply wk_nodup| |apply NoDup_singleton]. intros u Hu ->%list_elem_of_singleton. by apply Hat in Hm.
  - intros u. rewrite (wk_timed _ HW). destruct (decide (u = t)) as [->|Hut]; [rewrite lookup_insert_eq, Hx; cbn|by rewrite lookup_insert_ne]. cbn. split; intros (y & [= <-] & Hy); by eexists.
  - intros u y. rewrite lookup_insert_Some. intros [[<- <-]|[_ Hy]]; [cbn; by apply (wk_deadline _ HW t)|by apply (wk_deadline _ HW u)].
  - apply HW.
  - eapply sorted_impl; [|apply HW]. intros a b Ha Hb. unfold earlier, deadline_of. cbn. rewrite !lookup_insert. repeat case_decide; subst; rewrite ?Hx; done.
Qed.

Lemma requeued_none W src dst l m private : w_queues W !! src = Some l -> w_queues W !! dst = Some m -> requeued W W src dst l m [] private.
Proof. intros Hl Hm. split; try done. by rewrite app_nil_r. Qed.

Lemma requeue_loop_ok fuel W src dst l m count private n : wait_ok W -> w_queues W !! src = Some l -> w_queues W !! dst = Some m -> src <> dst -> (length l < fuel)%nat ->
  let mv := take (Z.to_nat (count - n)) l in
  exists W', requeue_loop fuel W src dst count private n = Ret (W', n + Z.of_nat (length mv)) /\ wait_ok W' /\ requeued W W' src dst l m mv private.
Proof.
  revert W l m n. induction fuel as [|fuel IH]; intros W l m n HW Hl Hm Hne Hf; [lia|]. cbn [requeue_loop]. destruct (Z.leb_spec count n) as [Hge|Hlt].
  { exists W. replace (Z.to_nat (count - n)) with 0%nat by lia. cbn. rewrite Z.add_0_r. split_and!; try done. by apply requeued_none. }
  unfold get_queue. rewrite Hl. cbn [deref mbind outcome_bind]. destruct l as [|t l]; [exists W; rewrite take_nil, Z.add_0_r; split_and!; try done; by apply requeued_none|].
  pose proof (wk_nodup _ HW _ _ Hl) as [Ht HN]%NoDup_cons. destruct (wk_queue _ HW _ _ t Hl) as (x & Hx & Hq & Ho & Hs); [set_solver|].
  unfold get_thread. rewrite Hx. cbn [deref mbind outcome_bind]. rewrite Ho, Hq, Z.eqb_refl, bool_decide_true by done. cbn [negb orb].
  cbn [put_queue w_queues]. rewrite lookup_insert_ne, Hm by done. cbn [deref mbind outcome_bind]. rewrite unlink_head by done.
  match goal with |- context [requeue_loop fuel ?V] => replace V with (moved_first W t x src dst l m private) by (unfold moved_first, moved_thread, put_thread, put_queue; cbn; by rewrite Ho) end.
  destruct (IH (moved_first W t x src dst l m private) l (m ++ [t]) (n + 1)) as (W' & -> & HW' & [R1 R2 R3 R4 R5]); [by apply moved_first_ok|cbn; by rewrite lookup_insert_ne, lookup_insert_eq|cbn; by rewrite lookup_insert_eq|done|cbn in Hf; lia|].
  replace (Z.to_nat (count - n)) with (S (Z.to_nat (count - (n + 1)))) by lia. cbn [take]. set (mv := take _ l) in *.
  exists W'. split_and!; [do 2 f_equal; cbn [length]; lia|done|]. assert (Htm : t ∉ mv) by (by apply not_elem_take). split.
  - intros u. rewrite R1. cbn. destruct (decide (u = t)) as [->|Hut]; [rewrite decide_False, decide_True, lookup_insert_eq, Hx by set_solver; done|].
    rewrite lookup_insert_ne by done. destruct (decide (u ∈ mv)); [rewrite decide_True by set_solver|rewrite decide_False by set_solver]; done.
  - exact R2.
  - rewrite R3, <-app_assoc. done.
  - intros q Hqs Hqd. rewrite R4 by done. cbn. by rewrite !lookup_insert_ne.
  - done.
Qed.

Lemma requeue_ok W src dst l m count private : wait_ok W -> w_queues W !! src = Some l -> w_queues W !! dst = Some m -> src <> dst ->
  let mv := take (Z.to_nat count) l in
  exists W', wait_queue_requeue W src dst count private = Ret (W', Z.of_nat (length mv)) /\ wait_ok W' /\ requeued W W' src dst l m mv private.
Proof.
  intros HW Hl Hm Hne. unfold wait_queue_requeue. rewrite (proj2 (Z.eqb_neq src dst)) by done. destruct (Z.leb_spec count 0) as [Hc|Hc]; cbn [orb].
  - exists W. replace (Z.to_nat count) with 0%nat by lia. cbn. split_and!; try done. by apply requeued_none.
  - unfold get_queue. rewrite Hl. cbn [deref mbind outcome_bind]. destruct (requeue_loop_ok (S (length l)) W src dst l m count private 0 HW Hl Hm Hne) as (W' & E & ?); [lia|].
    rewrite Z.sub_0_r in *. eauto.
Qed.
