(* ===== verification/WaitSystem.v ===== *)
(** * Wait queues: threads, signals and timers

    Steps of threads that sleep, of whoever wakes them, of the timer, of
    signals and of requests to exit, in any order. *)
From S2P Require Import Prelude Scheduler Wait WaitInv.

(** Where a thread is in [wait_queue_sleep_deadline]: outside, behind the load of the sequence, behind the check for
    signals, behind [sched], or gone to exit. *)
Inductive phase := Outside | Entered (mode sequence : Z) | Checked (mode sequence : Z) | Blocked | Gone.

(** A signal on its way to a thread: whether it is fatal, and whether the sequence was advanced.  [s_exits]: requests to
    exit whose thread was not looked at yet.  [s_changed]: threads with a pending signal that became fatal by a change of
    its action, since they last looked and without a fatal signal posted since. *)
Record wsys := MkSys { s_waits : waits; s_phase : gmap Z phase; s_posts : list (Z * bool * bool); s_exits : list Z; s_changed : gset Z }.

Definition with_waits (s : wsys) W : wsys := MkSys W (s_phase s) (s_posts s) (s_exits s) (s_changed s).
Definition with_phase (s : wsys) W t p : wsys := MkSys W (<[t := p]> (s_phase s)) (s_posts s) (s_exits s) (s_changed s).
Definition unchanged (s : wsys) t : wsys := MkSys (s_waits s) (s_phase s) (s_posts s) (s_exits s) (s_changed s ∖ {[t]}).

(** [signal_target_wake_locked] up to the wake-up, and the pending bits before it. *)
Definition post_pending (x : waiter) (fatal : bool) : waiter :=
  set_signals x (signal_sequence x) (fatal_signal_sequence x) true (fatal || fatal_pending x) (exit_requested x).
Definition post_sequence (x : waiter) (fatal : bool) : waiter :=
  set_signals x (signal_sequence x +64 1) (if fatal then fatal_signal_sequence x +64 1 else fatal_signal_sequence x) (unblocked_pending x) (fatal_pending x) (exit_requested x).

(** The signals of a thread are counted anew: which of them are pending and not blocked, and which of those are fatal. *)
Definition recount (x : waiter) (unblocked fatal : bool) : waiter := set_signals x (signal_sequence x) (fatal_signal_sequence x) unblocked fatal (exit_requested x).

(** The flag tells whether the step advances a sequence.  [ws_recount]: another thread of the process takes, discards or
    redirects a pending signal or changes an action, in [rt_sigaction], [rt_sigtimedwait], [signal_user_return] and
    others; none of these makes a signal pending that was not, but a pending one may become fatal, and nobody is
    woken.  [ws_handle]: outside of a wait the thread itself takes signals and changes its mask. *)
Inductive wstep (s : wsys) : bool -> wsys -> Prop :=
| ws_enter t x mode seq : w_threads (s_waits s) !! t = Some x -> w_state x = THREAD_RUNNING -> s_phase s !! t = Some Outside -> mode ∈ [0; 1; 2] ->
    sleep_enter (s_waits s) t mode = Ret seq -> wstep s false (with_phase s (s_waits s) t (match seq with Some n => Entered mode n | None => Gone end))
| ws_check t x mode seq b : w_threads (s_waits s) !! t = Some x -> w_state x = THREAD_RUNNING -> s_phase s !! t = Some (Entered mode seq) ->
    sleep_pending (s_waits s) t mode = Ret b -> wstep s false (with_phase (unchanged s t) (s_waits s) t (if b : bool then Outside else Checked mode seq))
| ws_sleep t x mode seq q deadline W e : w_threads (s_waits s) !! t = Some x -> w_state x = THREAD_RUNNING -> s_phase s !! t = Some (Checked mode seq) ->
    sleep_queue (s_waits s) t q deadline mode seq = Ret (W, e) ->
    wstep s false (with_phase s W t (match e with Asleep => Blocked | SleepInterrupted => Outside | SleepTerminated => Gone end))
| ws_resume t x W r : w_threads (s_waits s) !! t = Some x -> w_state x = THREAD_RUNNING -> s_phase s !! t = Some Blocked ->
    sleep_resume (s_waits s) t = Ret (W, r) -> wstep s false (with_phase s W t (match r with Some _ => Outside | None => Gone end))
| ws_switch t x st : w_threads (s_waits s) !! t = Some x -> w_state x ∈ [THREAD_RUNNABLE; THREAD_RUNNING] -> st ∈ [THREAD_RUNNABLE; THREAD_RUNNING] ->
    wstep s false (with_waits s (put_thread (s_waits s) t (set_state x st)))
| ws_wake_one q W n : wait_queue_wake_one (s_waits s) q = Ret (W, n) -> wstep s false (with_waits s W)
| ws_wake_all q W n : wait_queue_wake_all (s_waits s) q = Ret (W, n) -> wstep s false (with_waits s W)
| ws_wake_mask q count mask W n : wait_queue_wake_mask (s_waits s) q count mask = Ret (W, n) -> wstep s false (with_waits s W)
| ws_requeue src dst count private W n : is_Some (w_queues (s_waits s) !! dst) -> wait_queue_requeue (s_waits s) src dst count private = Ret (W, n) -> wstep s false (with_waits s W)
| ws_wake_thread t W n : wait_queue_wake_thread (s_waits s) t = Ret (W, n) -> wstep s false (with_waits s W)
| ws_expire now W : wait_queue_expire (s_waits s) now = Ret W -> wstep s false (with_waits s W)
| ws_post t x fatal : w_threads (s_waits s) !! t = Some x ->
    wstep s false (MkSys (put_thread (s_waits s) t (post_pending x fatal)) (s_phase s) ((t, fatal, false) :: s_posts s) (s_exits s) (if fatal : bool then s_changed s ∖ {[t]} else s_changed s))
| ws_advance t x fatal l1 l2 : w_threads (s_waits s) !! t = Some x -> s_posts s = l1 ++ (t, fatal, false) :: l2 ->
    wstep s true (MkSys (put_thread (s_waits s) t (post_sequence x fatal)) (s_phase s) (l1 ++ (t, fatal, true) :: l2) (s_exits s) (s_changed s))
| ws_signal t fatal l1 l2 W n : s_posts s = l1 ++ (t, fatal, true) :: l2 -> wait_queue_signal_thread (s_waits s) t fatal = Ret (W, n) ->
    wstep s false (MkSys W (s_phase s) (l1 ++ l2) (s_exits s) (s_changed s))
| ws_recount t x unblocked fatal : w_threads (s_waits s) !! t = Some x -> (unblocked = true -> unblocked_pending x = true) ->
    wstep s false (MkSys (put_thread (s_waits s) t (recount x unblocked fatal)) (s_phase s) (s_posts s) (s_exits s)
      (if fatal && negb (fatal_pending x) then {[t]} ∪ s_changed s else s_changed s))
| ws_handle t x unblocked fatal : w_threads (s_waits s) !! t = Some x -> s_phase s !! t = Some Outside ->
    wstep s false (with_waits s (put_thread (s_waits s) t (recount x unblocked fatal)))
| ws_request t x : w_threads (s_waits s) !! t = Some x ->
    wstep s false (MkSys (put_thread (s_waits s) t (set_signals x (signal_sequence x) (fatal_signal_sequence x) (unblocked_pending x) (fatal_pending x) true)) (s_phase s) (s_posts s) (t :: s_exits s) (s_changed s))
| ws_terminate t l1 l2 W n : s_exits s = l1 ++ t :: l2 -> wait_queue_terminate_thread (s_waits s) t = Ret (W, n) ->
    wstep s false (MkSys W (s_phase s) (s_posts s) (l1 ++ l2) (s_changed s)).

(** Nobody waits yet. *)
Record fresh (s : wsys) : Prop := {
  f_zero : w_queues (s_waits s) !! 0 = None;
  f_empty q l : w_queues (s_waits s) !! q = Some l -> l = [];
  f_none : w_timeouts (s_waits s) = [];
  f_threads t x : w_threads (s_waits s) !! t = Some x -> w_state x ∈ [THREAD_RUNNABLE; THREAD_RUNNING] /\ waiting_on x = 0 /\ on_waitqueue x = false /\ on_timeout_queue x = false /\
    signal_sequence x = 0 /\ fatal_signal_sequence x = 0 /\ exit_requested x = false;
  f_phase t : s_phase s !! t = (fun _ => Outside) <$> w_threads (s_waits s) !! t;
  f_quiet : s_posts s = [] /\ s_exits s = [] /\ s_changed s = ∅
}.

(** [n] steps of the run advanced a sequence. *)
Inductive wexec : nat -> wsys -> Prop :=
| we_start s : fresh s -> wexec 0 s
| we_step n s b s' : wexec n s -> wstep s b s' -> wexec (if b then S n else n) s'.

(** ** The invariant *)

(** Somebody is about to wake the thread because of a signal. *)
Definition signal_due (posts : list (Z * bool * bool)) (t mode : Z) (advanced : bool) : Prop :=
  exists fatal b, (t, fatal, b) ∈ posts /\ (mode = WAIT_SIGNAL_KILLABLE -> fatal = true) /\ (b = true -> advanced = true).
(** The signals a wait in this mode is ended by. *)
Definition pending_for (x : waiter) (mode : Z) : Prop :=
  mode = WAIT_SIGNAL_KILLABLE /\ fatal_pending x = true \/ mode = WAIT_SIGNAL_INTERRUPTIBLE /\ unblocked_pending x = true.
(** Those that somebody is bound to wake the thread for. *)
Definition awaited (s : wsys) (t : Z) (x : waiter) (mode : Z) : Prop := pending_for x mode /\ (mode = WAIT_SIGNAL_KILLABLE -> t ∉ s_changed s).

Definition phase_ok (s : wsys) (t : Z) (x : waiter) (p : phase) : Prop :=
  (w_state x = THREAD_SLEEPING -> p = Blocked) /\ w_state x ∈ [THREAD_RUNNABLE; THREAD_RUNNING; THREAD_SLEEPING] /\ (t ∈ s_exits s -> exit_requested x = true) /\
  match p with
  | Entered mode seq => mode ∈ [0; 1; 2] /\ (mode <> 0 -> seq <= sequence_of x mode)
  | Checked mode seq => mode ∈ [0; 1; 2] /\ (mode <> 0 -> seq <= sequence_of x mode) /\ (awaited s t x mode -> signal_due (s_posts s) t mode false \/ seq < sequence_of x mode)
  | Blocked =>
      if decide (w_state x = THREAD_SLEEPING)
      then (awaited s t x (wait_interruptible x) -> signal_due (s_posts s) t (wait_interruptible x) true) /\ (exit_requested x = true -> t ∈ s_exits s)
      else wait_result x = WAIT_QUEUE_TERMINATED -> exit_requested x = true
  | _ => True
  end.

Record sys_ok (n : nat) (s : wsys) : Prop := {
  so_waits : wait_ok (s_waits s);
  so_dom t : is_Some (w_threads (s_waits s) !! t) <-> is_Some (s_phase s !! t);
  so_phase t x p : w_threads (s_waits s) !! t = Some x -> s_phase s !! t = Some p -> phase_ok s t x p;
  so_count t x : w_threads (s_waits s) !! t = Some x -> 0 <= signal_sequence x <= Z.of_nat n /\ 0 <= fatal_signal_sequence x <= Z.of_nat n;
  so_posts t fatal b : (t, fatal, b) ∈ s_posts s -> is_Some (w_threads (s_waits s) !! t);
  so_exits t : t ∈ s_exits s -> is_Some (w_threads (s_waits s) !! t)
}.

Lemma wait_fresh_ok s : fresh s -> sys_ok 0 s.
Proof.
  intros [F1 F2 F3 F4 F5 (F6 & F7 & _)]. split.
  - split; rewrite ?F3.
    + done.
    + intros q l t ->%F2. set_solver.
    + intros t x Hx Hc. destruct (F4 t x Hx) as (Hs & ? & ? & ? & _). destruct Hc as [?|[?|[Hc|?]]]; try congruence. rewrite Hc in Hs. set_solver.
    + intros q l ->%F2. constructor.
    + intros t. split; [set_solver|]. intros (x & Hx & Ho). destruct (F4 t x Hx) as (_ & _ & _ & ? & _). congruence.
    + intros t x Hx Hs. destruct (F4 t x Hx) as (Hr & _). rewrite Hs in Hr. set_solver.
    + constructor.
    + constructor.
  - intros t. rewrite F5, fmap_is_Some. done.
  - intros t x p Hx. rewrite F5, Hx. intros [= <-]. destruct (F4 t x Hx) as (Hs & _). split_and!; [intros E; rewrite E in Hs; set_solver|set_solver|rewrite F7; set_solver|done].
  - intros t x Hx. destruct (F4 t x Hx) as (_ & _ & _ & _ & -> & -> & _). lia.
  - rewrite F6. set_solver.
  - rewrite F7. set_solver.
Qed.

(** A change of one thread that its wait does not depend on. *)
Definition same_wait (x y : waiter) : Prop :=
  waiting_on y = waiting_on x /\ on_waitqueue y = on_waitqueue x /\ on_timeout_queue y = on_timeout_queue x /\ wait_deadline y = wait_deadline x /\
  (w_state y = THREAD_SLEEPING <-> w_state x = THREAD_SLEEPING).

Lemma put_same_ok W t x y : wait_ok W -> w_threads W !! t = Some x -> same_wait x y -> wait_ok (put_thread W t y).
Proof.
  intros HW Hx (S1 & S2 & S3 & S4 & S5). split; cbn [put_thread w_threads w_queues w_timeouts]; try apply HW.
  - intros q l u Hl Hu. destruct (wk_queue _ HW _ _ _ Hl Hu) as (z & Hz & ? & ? & ?). destruct (decide (u = t)) as [->|Hne]; [rewrite lookup_insert_eq|rewrite lookup_insert_ne by done; eauto].
    rewrite Hx in Hz. injection Hz as <-. exists y. split; [done|]. rewrite S1, S2, S5. done.
  - intros u z. rewrite lookup_insert_Some. intros [[<- <-]|[_ Hz]]; [rewrite S1, S2, S3, S5|]; by apply wk_thread.
  - intros u. rewrite (wk_timed _ HW). destruct (decide (u = t)) as [->|Hne]; [rewrite lookup_insert_eq, Hx|by rewrite lookup_insert_ne]. split; intros (z & [= <-] & Hz); eexists; (split; [done|]); congruence.
  - intros u z. rewrite lookup_insert_Some. intros [[<- <-]|[_ Hz]]; [rewrite S3, S4, S5; by apply (wk_deadline _ HW t)|by apply (wk_deadline _ HW u)].
  - eapply sorted_impl; [|apply HW]. intros a b _ _. unfold earlier, deadline_of. cbn. rewrite !lookup_insert. repeat case_decide; subst; rewrite ?Hx, ?S4; done.
Qed.

(** What the rest of a step must keep for a thread it does not touch. *)
Definition keeps (s s' : wsys) (t : Z) (x : waiter) : Prop :=
  (t ∈ s_exits s' -> t ∈ s_exits s) /\ (t ∈ s_changed s -> t ∈ s_changed s') /\ (forall mode, signal_due (s_posts s) t mode false -> signal_due (s_posts s') t mode false) /\
  (w_state x = THREAD_SLEEPING -> (t ∈ s_exits s -> t ∈ s_exits s') /\
    (pending_for x (wait_interruptible x) -> signal_due (s_posts s) t (wait_interruptible x) true -> signal_due (s_posts s') t (wait_interruptible x) true)).
Lemma keeps_refl s W P t x : keeps s (MkSys W P (s_posts s) (s_exits s) (s_changed s)) t x.
Proof. by split. Qed.
Lemma phase_keep s s' t x p : phase_ok s t x p -> keeps s s' t x -> phase_ok s' t x p.
Proof.
  intros (H1 & H2 & H3 & H4) (K1 & KC & K2 & K3). assert (KA : forall mode, awaited s' t x mode -> awaited s t x mode) by (intros mode [? HA]; split; [done|]; intros Hm Hc; exact (HA Hm (KC Hc))).
  split_and!; try done; [auto|]. destruct p; try done; [naive_solver|]. case_decide as Hs; [|done].
  destruct (K3 Hs) as [K4 K5], H4 as [H5 H6]. split; [|auto]. intros HA. apply K5; [apply HA|auto].
Qed.

(** A step that changes one thread. *)
Lemma thread_step n m s s' t x y p : sys_ok n s -> w_threads (s_waits s) !! t = Some x -> s_phase s !! t = Some p -> (n <= m)%nat ->
  wait_ok (s_waits s') -> (forall u, w_threads (s_waits s') !! u = if decide (u = t) then Some y else w_threads (s_waits s) !! u) ->
  (forall u z, u <> t -> s_phase s' !! u = s_phase s !! u /\ keeps s s' u z) ->
  (exists p', s_phase s' !! t = Some p' /\ phase_ok s' t y p') -> 0 <= signal_sequence y <= Z.of_nat m /\ 0 <= fatal_signal_sequence y <= Z.of_nat m ->
  (forall u fatal b, (u, fatal, b) ∈ s_posts s' -> u = t \/ exists b', (u, fatal, b') ∈ s_posts s) -> (forall u, u ∈ s_exits s' -> u = t \/ u ∈ s_exits s) -> sys_ok m s'.
Proof.
  intros [H1 H2 H3 H4 H5 H6] Hx Hp Hnm HW HT HO (p' & Hp' & HP) HC HPo HEx. split; [done|..].
  - intros u. rewrite HT. case_decide as E; [subst; rewrite Hp'; split; by eexists|]. rewrite (proj1 (HO u x E)). apply H2.
  - intros u z r. rewrite HT. case_decide as E; [subst; rewrite Hp'; intros [= <-] [= <-]; done|]. destruct (HO u z E) as [-> HK]. intros Hz Hr. eapply phase_keep; [|done]. by apply H3.
  - intros u z. rewrite HT. case_decide as E; [intros [= <-]; done|]. intros Hz. specialize (H4 u z Hz). lia.
  - intros u fatal b Hu. rewrite HT. case_decide as E; [by eexists|]. destruct (HPo _ _ _ Hu) as [->|[b' Hb]]; [done|by eapply H5].
  - intros u Hu. rewrite HT. case_decide as E; [by eexists|]. destruct (HEx _ Hu) as [->|Hu']; [done|by apply H6].
Qed.

(** A step that wakes threads. *)
Lemma wake_step n s W sel r posts exits : sys_ok n s -> wait_ok W -> woke (s_waits s) W sel r ->
  (forall t x, t ∈ sel -> w_threads (s_waits s) !! t = Some x -> w_state x = THREAD_SLEEPING /\ (r = WAIT_QUEUE_TERMINATED -> exit_requested x = true)) ->
  (forall p, p ∈ posts -> p ∈ s_posts s) -> (forall u, u ∈ exits -> u ∈ s_exits s) ->
  (forall u x p, u ∉ sel -> w_threads (s_waits s) !! u = Some x -> phase_ok s u x p -> phase_ok (MkSys W (s_phase s) posts exits (s_changed s)) u x p) ->
  sys_ok n (MkSys W (s_phase s) posts exits (s_changed s)).
Proof.
  intros [H1 H2 H3 H4 H5 H6] HW [O1 O2 O3] Hsel HPo HEx HK. split; cbn [s_waits s_phase s_posts s_exits]; [done|..].
  - intros u. rewrite O1, <-H2. case_decide; [rewrite fmap_is_Some|]; done.
  - intros u x p. rewrite O1. case_decide as Hu; [|intros Hx Hp; apply HK; auto]. intros (y & Hy & ->)%fmap_Some Hp. destruct (Hsel u y Hu Hy) as [Hs Hr].
    destruct (H3 u y p Hy Hp) as (Q1 & Q2 & Q3 & _). rewrite (Q1 Hs). split_and!; [done|cbn; set_solver|cbn; auto|]. cbn. done.
  - intros u x. rewrite O1. case_decide as Hu; [|by apply H4]. intros (y & Hy & ->)%fmap_Some. by apply (H4 u y).
  - intros u fatal b Hu. rewrite O1. apply HPo, H5 in Hu as Hs. case_decide; [by rewrite fmap_is_Some|done].
  - intros u Hu. rewrite O1. apply HEx, H6 in Hu as Hs. case_decide; [by rewrite fmap_is_Some|done].
Qed.

Lemma wake_plain n s W sel r : sys_ok n s -> wait_ok W -> woke (s_waits s) W sel r -> r <> WAIT_QUEUE_TERMINATED ->
  (forall t x, t ∈ sel -> w_threads (s_waits s) !! t = Some x -> w_state x = THREAD_SLEEPING) -> sys_ok n (with_waits s W).
Proof.
  intros HS HW HO Hr Hsel. apply (wake_step n s W sel r); [done|done|done|naive_solver|done|done|]. intros u x p _ _ HP. eapply phase_keep; [done|apply keeps_refl].
Qed.
