(* ===== verification/WaitSteps.v ===== *)
(** * Wait queues: every step keeps the invariant *)
From S2P Require Import Prelude Scheduler Wait WaitInv WaitSystem.

Lemma due_more posts t mode : signal_due posts t mode false -> signal_due posts t mode true.
Proof. intros (fatal & b & H & Hf & Hb). by exists fatal, b. Qed.
Lemma due_cons p posts t mode b : signal_due posts t mode b -> signal_due (p :: posts) t mode b.
Proof. intros (fatal & c & H & Hf & Hb). exists fatal, c. split_and!; try done. set_solver. Qed.
Lemma sequence_nonneg n s t x mode : sys_ok n s -> w_threads (s_waits s) !! t = Some x -> 0 <= sequence_of x mode <= Z.of_nat n.
Proof. intros HS Hx. destruct (so_count _ _ HS t x Hx). unfold sequence_of. by case_match. Qed.

(** ** Steps of the thread itself *)

Section own.
  Context (n : nat) (s : wsys) (t : Z) (x : waiter).
  Context (HS : sys_ok n s) (Hx : w_threads (s_waits s) !! t = Some x).

(** Only the place of the thread changes, and whether it looked at its signals. *)
Lemma phase_change p p' changed : s_phase s !! t = Some p -> phase_ok (MkSys (s_waits s) (<[t := p']> (s_phase s)) (s_posts s) (s_exits s) changed) t x p' ->
  (forall u, u <> t -> u ∈ s_changed s -> u ∈ changed) -> sys_ok n (MkSys (s_waits s) (<[t := p']> (s_phase s)) (s_posts s) (s_exits s) changed).
Proof.
  intros Hp HP HC. apply (thread_step n n s _ t x x p); try done.
  - apply HS.
  - intros u. case_decide; [by subst|done].
  - intros u z Hu. cbn. rewrite lookup_insert_ne by done. split; [done|]. split_and!; [done|exact (HC u Hu)|done|done].
  - exists p'. cbn. rewrite lookup_insert_eq. done.
  - by apply (so_count _ _ HS t).
  - eauto.
  - auto.
Qed.
Lemma phase_step p p' : s_phase s !! t = Some p -> phase_ok (with_phase s (s_waits s) t p') t x p' -> sys_ok n (with_phase s (s_waits s) t p').
Proof. intros Hp HP. by apply (phase_change p). Qed.

(** The thread changes but stays awake. *)
Lemma awake_step W p p' y : s_phase s !! t = Some p -> wait_ok W -> (forall u, w_threads W !! u = if decide (u = t) then Some y else w_threads (s_waits s) !! u) ->
  signal_sequence y = signal_sequence x -> fatal_signal_sequence y = fatal_signal_sequence x -> phase_ok (with_phase s W t p') t y p' -> sys_ok n (with_phase s W t p').
Proof.
  intros Hp HW HT E1 E2 HP. apply (thread_step n n s _ t x y p); try done.
  - intros u z Hu. cbn. rewrite lookup_insert_ne by done. split; [done|apply keeps_refl].
  - exists p'. cbn. rewrite lookup_insert_eq. done.
  - rewrite E1, E2. by apply (so_count _ _ HS t).
  - eauto.
  - auto.
Qed.

Context (Hrun : w_state x = THREAD_RUNNING).

Lemma enter_ok mode seq : s_phase s !! t = Some Outside -> mode ∈ [0; 1; 2] -> sleep_enter (s_waits s) t mode = Ret seq ->
  sys_ok n (with_phase s (s_waits s) t (match seq with Some n => Entered mode n | None => Gone end)).
Proof.
  intros Hp Hm E. eapply phase_step; [done|]. destruct (so_phase _ _ HS t x _ Hx Hp) as (H1 & H2 & H3 & _). unfold sleep_enter, get_thread in E. rewrite Hx in E. cbn in E.
  destruct (exit_requested x) eqn:Ee; injection E as <-; (split; [congruence|split; [done|split; [rewrite Ee; done|]]]); [done|split; [done|]].
  intros Hm0. unfold truth. rewrite (proj2 (Z.eqb_neq _ _) Hm0). cbn. lia.
Qed.

Lemma check_ok mode seq b : s_phase s !! t = Some (Entered mode seq) -> sleep_pending (s_waits s) t mode = Ret b ->
  sys_ok n (with_phase (unchanged s t) (s_waits s) t (if b : bool then Outside else Checked mode seq)).
Proof.
  intros Hp E. apply (phase_change (Entered mode seq)); [done|..|cbn; set_solver]. destruct (so_phase _ _ HS t x _ Hx Hp) as (H1 & H2 & H3 & H4 & H5). unfold sleep_pending, get_thread in E. rewrite Hx in E. cbn in E. injection E as <-.
  destruct (_ || _) eqn:E; (split; [congruence|split; [done|split; [auto|]]]); [done|split_and!; [done|done|]]. intros [[[-> Hf]|[-> Hu]] _]; rewrite ?Hf, ?Hu in E; done.
Qed.

Lemma resume_ok W r : s_phase s !! t = Some Blocked -> sleep_resume (s_waits s) t = Ret (W, r) -> sys_ok n (with_phase s W t (match r with Some _ => Outside | None => Gone end)).
Proof.
  intros Hp E. destruct (so_phase _ _ HS t x _ Hx Hp) as (H1 & H2 & H3 & _). unfold sleep_resume, get_thread in E. rewrite Hx in E. cbn [deref mbind outcome_bind] in E.
  destruct (_ || _) eqn:Eq; [done|]. set (y := set_wait _ _ _ _ _ _ _) in E. assert (HW : W = put_thread (s_waits s) t y).
  { destruct (_ =? _); [destruct (negb _); [done|]|]; by injection E. }
  subst W. eapply (awake_step _ Blocked _ y); try done.
  - apply (put_same_ok _ _ x); [apply HS|done|by split_and!].
  - intros u. cbn. rewrite lookup_insert. case_decide; case_decide; congruence.
  - destruct r; (split_and!; [cbn; congruence|cbn; by rewrite Hrun in *|cbn; auto|done]).
Qed.

Lemma sleep_ok mode seq q deadline W e : s_phase s !! t = Some (Checked mode seq) -> sleep_queue (s_waits s) t q deadline mode seq = Ret (W, e) ->
  sys_ok n (with_phase s W t (match e with Asleep => Blocked | SleepInterrupted => Outside | SleepTerminated => Gone end)).
Proof.
  intros Hp E. destruct (so_phase _ _ HS t x _ Hx Hp) as (H1 & H2 & H3 & H4 & H5 & H6). destruct (w_queues (s_waits s) !! q) as [l|] eqn:Hl.
  2: { unfold sleep_queue, get_thread, get_queue in E. rewrite Hx, Hl in E. cbn in E. by destruct (_ || _). }
  destruct (sleep_queue_ok (s_waits s) t x q l deadline mode seq (so_waits _ _ HS) Hx Hrun Hl) as (W' & e' & E' & HW & HR). rewrite E in E'. injection E' as <- <-.
  destruct e; cbn in HR.
  - destruct HR as (He & Hseq & ts & ->). eapply (awake_step _ _ _ (asleep_thread x q deadline mode)); try done.
    + intros u. cbn. rewrite lookup_insert. case_decide; case_decide; congruence.
    + split_and!; [done|cbn; set_solver|cbn; auto|]. cbn. split; [|congruence]. intros Hpe. change (awaited s t x mode) in Hpe.
      destruct (H6 Hpe) as [Hd|Hlt]; [by apply due_more|]. rewrite <-Hseq in Hlt; [lia|]. by destruct Hpe as [[[-> _]|[-> _]] _].
  - destruct HR as (_ & _ & _ & ->). eapply (awake_step _ _ _ (set_wait x 0 false deadline WAIT_QUEUE_INTERRUPTED false 0)); try done.
    + intros u. cbn. rewrite lookup_insert. case_decide; case_decide; congruence.
    + split_and!; [cbn; congruence|cbn; by rewrite Hrun in *|cbn; auto|done].
  - destruct HR as (_ & ->). eapply (awake_step _ _ _ (set_wait x 0 false deadline WAIT_QUEUE_TERMINATED false 0)); try done.
    + intros u. cbn. rewrite lookup_insert. case_decide; case_decide; congruence.
    + split_and!; [cbn; congruence|cbn; by rewrite Hrun in *|cbn; auto|done].
Qed.
End own.

(** ** Steps of others *)

Section others.
  Context (n : nat) (s : wsys) (HS : sys_ok n s).

Lemma queue_sleeping q l t x : w_queues (s_waits s) !! q = Some l -> t ∈ l -> w_threads (s_waits s) !! t = Some x -> w_state x = THREAD_SLEEPING.
Proof. intros Hl Ht Hx. destruct (wk_queue _ (so_waits _ _ HS) _ _ _ Hl Ht) as (y & Hy & _ & _ & ?). congruence. Qed.

Lemma step_wake_one q W k : wait_queue_wake_one (s_waits s) q = Ret (W, k) -> sys_ok n (with_waits s W).
Proof.
  intros E. destruct (w_queues (s_waits s) !! q) as [l|] eqn:Hl; [|unfold wait_queue_wake_one, get_queue in E; by rewrite Hl in E].
  destruct (wake_one_ok _ q l (so_waits _ _ HS) Hl) as (W' & E' & HW & HO). rewrite E in E'. injection E' as <- ->. eapply wake_plain; [done|done|exact HO|done|].
  intros t x Ht. apply (queue_sleeping q l); [done|]. destruct l; cbn in Ht; set_solver.
Qed.
Lemma step_wake_all q W k : wait_queue_wake_all (s_waits s) q = Ret (W, k) -> sys_ok n (with_waits s W).
Proof.
  intros E. destruct (w_queues (s_waits s) !! q) as [l|] eqn:Hl; [|unfold wait_queue_wake_all, get_queue at 1 in E; by rewrite Hl in E].
  destruct (wake_all_ok _ q l (so_waits _ _ HS) Hl) as (W' & E' & HW & HO). rewrite E in E'. injection E' as <- ->. eapply wake_plain; [done|done|exact HO|done|].
  intros t x Ht. by apply (queue_sleeping q l).
Qed.

Lemma wait_same_ok : sys_ok n (with_waits s (s_waits s)).
Proof. destruct HS. by destruct s. Qed.

Lemma step_wake_mask q count mask W k : wait_queue_wake_mask (s_waits s) q count mask = Ret (W, k) -> sys_ok n (with_waits s W).
Proof.
  intros E. destruct (w_queues (s_waits s) !! q) as [l|] eqn:Hl.
  2: { unfold wait_queue_wake_mask, get_queue in E. rewrite Hl in E. destruct (_ || _); [injection E as <- _; apply wait_same_ok|done]. }
  destruct (wake_mask_ok _ q l count mask (so_waits _ _ HS) Hl) as (W' & E' & HW & HO). rewrite E in E'. injection E' as <- ->. eapply wake_plain; [done|done|exact HO|done|].
  intros t x Ht. apply (queue_sleeping q l); [done|]. case_decide; [set_solver|]. destruct (decide (t ∈ l)); [done|].
  exfalso. revert Ht. apply not_elem_take. rewrite list_elem_of_filter. tauto.
Qed.

Lemma step_requeue src dst count private W k : is_Some (w_queues (s_waits s) !! dst) -> wait_queue_requeue (s_waits s) src dst count private = Ret (W, k) -> sys_ok n (with_waits s W).
Proof.
  intros [m Hm] E. destruct (decide (src = dst)) as [->|Hne].
  { unfold wait_queue_requeue in E. rewrite Z.eqb_refl in E. injection E as <- _. apply wait_same_ok. }
  destruct (w_queues (s_waits s) !! src) as [l|] eqn:Hl.
  2: { unfold wait_queue_requeue, get_queue at 1 in E. rewrite Hl in E. destruct (_ || _); [injection E as <- _; apply wait_same_ok|done]. }
  destruct (requeue_ok _ src dst l m count private (so_waits _ _ HS) Hl Hm Hne) as (W' & E' & HW & [R1 R2 R3 R4 R5]). rewrite E in E'. injection E' as <- ->.
  destruct HS as [H1 H2 H3 H4 H5 H6]. split; cbn [with_waits s_waits s_phase s_posts s_exits]; [done|..].
  - intros u. rewrite R1, <-H2. case_decide; [rewrite fmap_is_Some|]; done.
  - intros u x p. rewrite R1. case_decide; [intros (y & Hy & ->)%fmap_Some|intros Hy]; intros Hp; exact (H3 u _ p Hy Hp).
  - intros u x. rewrite R1. case_decide; [intros (y & Hy & ->)%fmap_Some; exact (H4 u y Hy)|apply H4].
  - intros u fatal b Hu. rewrite R1. apply H5 in Hu. case_decide; [by rewrite fmap_is_Some|done].
  - intros u Hu. rewrite R1. apply H6 in Hu. case_decide; [by rewrite fmap_is_Some|done].
Qed.

Lemma step_wake_thread t W k : wait_queue_wake_thread (s_waits s) t = Ret (W, k) -> sys_ok n (with_waits s W).
Proof.
  intros E. destruct (w_threads (s_waits s) !! t) as [x|] eqn:Hx; [|unfold wait_queue_wake_thread, get_thread in E; by rewrite Hx in E].
  destruct (wake_thread_ok _ t x (so_waits _ _ HS) Hx) as (W' & k' & E' & HW & HO). rewrite E in E'. injection E' as <- <-. unfold one_woken in HO.
  case_bool_decide as Hs; [|destruct HO as [_ ->]; apply wait_same_ok]. destruct HO as [_ HO]. eapply wake_plain; [done|done|exact HO|done|].
  intros u y ->%list_elem_of_singleton. congruence.
Qed.

Lemma step_expire now W : wait_queue_expire (s_waits s) now = Ret W -> sys_ok n (with_waits s W).
Proof.
  intros E. destruct (expire_ok _ now (so_waits _ _ HS)) as (W' & E' & HW & HO). rewrite E in E'. injection E' as <-. eapply wake_plain; [done|done|exact HO|done|].
  intros t x [_ (y & Hy & Ho)%(wk_timed _ (so_waits _ _ HS))]%list_elem_of_filter Hx. rewrite Hx in Hy. injection Hy as <-.
  destruct (wk_thread _ (so_waits _ _ HS) t x Hx) as (l & Hl & Ht); [auto|]. by eapply queue_sleeping.
Qed.

Lemma step_signal t fatal l1 l2 W k : s_posts s = l1 ++ (t, fatal, true) :: l2 -> wait_queue_signal_thread (s_waits s) t fatal = Ret (W, k) ->
  sys_ok n (MkSys W (s_phase s) (l1 ++ l2) (s_exits s) (s_changed s)).
Proof.
  intros Ep E. destruct (w_threads (s_waits s) !! t) as [x|] eqn:Hx; [|unfold wait_queue_signal_thread, get_thread in E; by rewrite Hx in E].
  destruct (signal_thread_ok _ t x fatal (so_waits _ _ HS) Hx) as (W' & k' & E' & HW & HO). rewrite E in E'. injection E' as <- <-. unfold one_woken in HO.
  assert (Hin : forall p, p ∈ l1 ++ l2 -> p ∈ s_posts s) by (rewrite Ep; set_solver).
  assert (Hdue : forall u mode b, signal_due (s_posts s) u mode b -> (u = t -> mode = WAIT_SIGNAL_KILLABLE /\ fatal = false \/ b = false) -> signal_due (l1 ++ l2) u mode b).
  { intros u mode b (f & c & Hp & Hf & Hc) Hu. exists f, c. split_and!; try done. rewrite Ep in Hp. apply elem_of_app in Hp as [Hp|[Hp|Hp]%elem_of_cons]; [set_solver| |set_solver].
    injection Hp as -> -> ->. destruct (Hu eq_refl) as [[Hm Hnf]|Hb0]; [rewrite Hf in Hnf; done|rewrite Hc in Hb0; done]. }
  destruct (signal_ends x fatal) eqn:Es.
  - destruct HO as [_ HO]. apply (wake_step n s W [t] WAIT_QUEUE_INTERRUPTED); try done.
    + intros u y ->%list_elem_of_singleton Hy. rewrite Hx in Hy. injection Hy as <-. unfold signal_ends in Es. split; [|done]. case_bool_decide; [done|by rewrite andb_false_l in Es].
    + intros u y p Hu Hy HP. eapply phase_keep; [done|]. split_and!; [done|done|intros mode Hd; apply Hdue; [done|auto]|]. intros _. split; [done|]. intros _ Hd. apply Hdue; [done|set_solver].
  - destruct HO as [_ ->]. apply (wake_step n s _ [] 0); try done; [apply woke_nil|set_solver|]. intros u y p _ Hy HP. eapply phase_keep; [done|].
    split_and!; [done|done|intros mode Hd; apply Hdue; [done|auto]|]. intros Hs. split; [done|]. intros Hpe Hd. apply Hdue; [done|]. intros ->. rewrite Hx in Hy. injection Hy as <-. left.
    unfold signal_ends in Es. rewrite bool_decide_true in Es by done. unfold truth in Es. destruct Hpe as [[Em _]|[Em _]]; rewrite Em in Es |- *; cbn in Es; [|done]. split; [done|]. by destruct fatal.
Qed.

Lemma step_terminate t l1 l2 W k : s_exits s = l1 ++ t :: l2 -> wait_queue_terminate_thread (s_waits s) t = Ret (W, k) -> sys_ok n (MkSys W (s_phase s) (s_posts s) (l1 ++ l2) (s_changed s)).
Proof.
  intros Ep E. destruct (w_threads (s_waits s) !! t) as [x|] eqn:Hx; [|unfold wait_queue_terminate_thread, get_thread in E; by rewrite Hx in E].
  destruct (terminate_thread_ok _ t x (so_waits _ _ HS) Hx) as (W' & k' & E' & HW & HO). rewrite E in E'. injection E' as <- <-. unfold one_woken in HO.
  destruct (so_dom _ _ HS t) as [Hd _]. destruct Hd as [p Hp]; [by eexists|]. destruct (so_phase _ _ HS t x p Hx Hp) as (_ & _ & Hex & _). rewrite Ep in Hex.
  case_bool_decide as Hs.
  - destruct HO as [_ HO]. apply (wake_step n s W [t] WAIT_QUEUE_TERMINATED); try done.
    + intros u y ->%list_elem_of_singleton Hy. rewrite Hx in Hy. injection Hy as <-. split; [done|]. intros _. apply Hex. set_solver.
    + rewrite Ep. set_solver.
    + intros u y q Hu Hy HP. eapply phase_keep; [done|]. split_and!; [rewrite Ep; set_solver|done|done|]. intros _. split; [rewrite Ep; set_solver|done].
  - destruct HO as [_ ->]. apply (wake_step n s _ [] 0); try done; [apply woke_nil|set_solver|rewrite Ep; set_solver|]. intros u y q _ Hy HP. eapply phase_keep; [done|].
    split_and!; [rewrite Ep; set_solver|done|done|]. intros Hsy. split; [|done]. rewrite Ep. assert (u <> t) by (intros ->; congruence). set_solver.
Qed.

(** A change of a thread that keeps its wait, with the posts and requests of the step. *)
Lemma flag_step m t x y p posts exits changed : w_threads (s_waits s) !! t = Some x -> s_phase s !! t = Some p -> (n <= m)%nat -> same_wait x y ->
  (forall u z, u <> t -> keeps s (MkSys (s_waits s) (s_phase s) posts exits changed) u z) -> phase_ok (MkSys (s_waits s) (s_phase s) posts exits changed) t y p ->
  0 <= signal_sequence y <= Z.of_nat m /\ 0 <= fatal_signal_sequence y <= Z.of_nat m ->
  (forall u fatal b, (u, fatal, b) ∈ posts -> u = t \/ exists b', (u, fatal, b') ∈ s_posts s) -> (forall u, u ∈ exits -> u = t \/ u ∈ s_exits s) ->
  sys_ok m (MkSys (put_thread (s_waits s) t y) (s_phase s) posts exits changed).
Proof.
  intros Hx Hp Hm HW HK HP HC HPo HEx. apply (thread_step n m s _ t x y p); try done.
  - apply (put_same_ok _ _ x); [apply HS|done|done].
  - intros u. cbn. rewrite lookup_insert. case_decide; case_decide; congruence.
  - intros u z Hu. split; [done|]. exact (HK u z Hu).
  - eauto.
Qed.

Lemma phase_of t x : w_threads (s_waits s) !! t = Some x -> exists p, s_phase s !! t = Some p /\ phase_ok s t x p.
Proof. intros Hx. destruct (proj1 (so_dom _ _ HS t)) as [p Hp]; [by eexists|]. exists p. split; [done|]. by apply (so_phase _ _ HS). Qed.

Lemma step_switch t x st : w_threads (s_waits s) !! t = Some x -> w_state x ∈ [THREAD_RUNNABLE; THREAD_RUNNING] -> st ∈ [THREAD_RUNNABLE; THREAD_RUNNING] ->
  sys_ok n (with_waits s (put_thread (s_waits s) t (set_state x st))).
Proof.
  intros Hx Hs Hst. destruct (phase_of t x Hx) as (p & Hp & H1 & H2 & H3 & H4). assert (Hn : w_state x <> THREAD_SLEEPING /\ st <> THREAD_SLEEPING) by (split; intros E; [rewrite E in Hs|rewrite E in Hst]; set_solver).
  apply (flag_step n t x _ p); [done|done|lia|..].
  - split_and!; try done. cbn. tauto.
  - intros u z _. apply keeps_refl.
  - split_and!; [cbn; tauto|cbn; set_solver|done|]. destruct p; try done. rewrite decide_False in H4 by tauto. by rewrite decide_False by (cbn; tauto).
  - exact (so_count _ _ HS t x Hx).
  - eauto.
  - auto.
Qed.

Lemma step_handle t x unblocked fatal : w_threads (s_waits s) !! t = Some x -> s_phase s !! t = Some Outside ->
  sys_ok n (with_waits s (put_thread (s_waits s) t (recount x unblocked fatal))).
Proof.
  intros Hx Hp. destruct (so_phase _ _ HS t x _ Hx Hp) as (H1 & H2 & H3 & _). apply (flag_step n t x _ Outside); [done|done|lia|..].
  - by split_and!.
  - intros u z _. apply keeps_refl.
  - by split_and!.
  - exact (so_count _ _ HS t x Hx).
  - eauto.
  - auto.
Qed.

(** A signal that was pending before ends the wait as before, unless it just became fatal. *)
Lemma step_recount t x unblocked fatal : w_threads (s_waits s) !! t = Some x -> (unblocked = true -> unblocked_pending x = true) ->
  sys_ok n (MkSys (put_thread (s_waits s) t (recount x unblocked fatal)) (s_phase s) (s_posts s) (s_exits s) (if fatal && negb (fatal_pending x) then {[t]} ∪ s_changed s else s_changed s)).
Proof.
  intros Hx Hu. destruct (phase_of t x Hx) as (p & Hp & H1 & H2 & H3 & H4). set (changed := if fatal && negb (fatal_pending x) then _ else _).
  assert (HC : forall u, u ∈ s_changed s -> u ∈ changed) by (intros u; unfold changed; destruct (fatal && negb (fatal_pending x)); set_solver).
  assert (HA : forall W P mode, awaited (MkSys W P (s_posts s) (s_exits s) changed) t (recount x unblocked fatal) mode -> awaited s t x mode).
  { intros W P mode [[[-> Hf]|[-> Hf]] Hn]; cbn in Hf, Hn; (split; [|by intros Hm Hc; apply (Hn Hm), HC]); [left|right; auto]. split; [done|].
    destruct (fatal_pending x) eqn:E; [done|]. destruct (Hn eq_refl). unfold changed. rewrite Hf. cbn. set_solver. }
  apply (flag_step n t x _ p); [done|done|lia|..].
  - by split_and!.
  - intros u z _. split_and!; [done|apply HC|done|done].
  - split_and!; [done|done|done|]. destruct p; try done.
    + destruct H4 as (Hm & Hq & Hd). split_and!; [done|done|]. intros Hpe. exact (Hd (HA _ _ _ Hpe)).
    + cbn in *. case_decide; [|done]. destruct H4 as [Hd He]. split; [|done]. intros Hpe. exact (Hd (HA _ _ _ Hpe)).
  - exact (so_count _ _ HS t x Hx).
  - eauto.
  - auto.
Qed.

Lemma step_request t x : w_threads (s_waits s) !! t = Some x ->
  sys_ok n (MkSys (put_thread (s_waits s) t (set_signals x (signal_sequence x) (fatal_signal_sequence x) (unblocked_pending x) (fatal_pending x) true)) (s_phase s) (s_posts s) (t :: s_exits s) (s_changed s)).
Proof.
  intros Hx. destruct (phase_of t x Hx) as (p & Hp & H1 & H2 & H3 & H4). apply (flag_step n t x _ p); [done|done|lia|..].
  - by split_and!.
  - intros u z Hu. split_and!; [set_solver|done|done|]. intros _. split; [set_solver|done].
  - split_and!; [done|done|done|]. destruct p; try done. cbn in *. case_decide; [|done]. destruct H4 as [H4 _]. split; [done|set_solver].
  - exact (so_count _ _ HS t x Hx).
  - eauto.
  - set_solver.
Qed.

Lemma step_post t x fatal : w_threads (s_waits s) !! t = Some x ->
  sys_ok n (MkSys (put_thread (s_waits s) t (post_pending x fatal)) (s_phase s) ((t, fatal, false) :: s_posts s) (s_exits s) (if fatal : bool then s_changed s ∖ {[t]} else s_changed s)).
Proof.
  intros Hx. destruct (phase_of t x Hx) as (p & Hp & H1 & H2 & H3 & H4). apply (flag_step n t x _ p); [done|done|lia|..].
  - by split_and!.
  - intros u z Hu. split_and!; [done|cbn; destruct fatal; set_solver|intros; by apply due_cons|]. intros _. split; [done|]. intros _ ?. by apply due_cons.
  - assert (Hnew : forall W P mode b, awaited (MkSys W P ((t, fatal, false) :: s_posts s) (s_exits s) (if fatal : bool then s_changed s ∖ {[t]} else s_changed s)) t (post_pending x fatal) mode ->
      awaited s t x mode \/ signal_due ((t, fatal, false) :: s_posts s) t mode b).
    { intros W P mode b [[[-> Hf]|[-> Hu]] Hn]; [cbn in Hf, Hn; destruct fatal; [right|left; split; [by left|done]]|right]; [exists true, false|exists fatal, false]; (split; [apply list_elem_of_here|done]). }
    split_and!; [done|done|done|]. destruct p; try done.
    + destruct H4 as (Hm & Hq & Hd). split_and!; [done|done|]. intros [Hpe|?]%(Hnew _ _ _ false); [|auto]. destruct (Hd Hpe); [left; by apply due_cons|by right].
    + cbn in *. case_decide; [|done]. destruct H4 as [Hd He]. split; [|done]. intros [Hpe|?]%(Hnew _ _ _ true); [|done]. by apply due_cons, Hd.
  - exact (so_count _ _ HS t x Hx).
  - intros u f b [[= -> -> ->]|?]%elem_of_cons; eauto.
  - auto.
Qed.

Lemma step_advance t x fatal l1 l2 : Z.of_nat (S n) < 2 ^ 64 -> w_threads (s_waits s) !! t = Some x -> s_posts s = l1 ++ (t, fatal, false) :: l2 ->
  sys_ok (S n) (MkSys (put_thread (s_waits s) t (post_sequence x fatal)) (s_phase s) (l1 ++ (t, fatal, true) :: l2) (s_exits s) (s_changed s)).
Proof.
  intros Hn Hx Ep. destruct (phase_of t x Hx) as (p & Hp & H1 & H2 & H3 & H4). destruct (so_count _ _ HS t x Hx) as [C1 C2].
  assert (E1 : signal_sequence x +64 1 = signal_sequence x + 1) by (apply wrap64_id; unfold is_u64; lia).
  assert (E2 : fatal_signal_sequence x +64 1 = fatal_signal_sequence x + 1) by (apply wrap64_id; unfold is_u64; lia).
  assert (Hle : forall mode, sequence_of x mode <= sequence_of (post_sequence x fatal) mode) by (intros mode; unfold sequence_of; cbn; rewrite E1, E2; destruct (_ =? _), fatal; lia).
  assert (Hdue : forall u mode b, signal_due (s_posts s) u mode b -> (u = t -> b = true) -> signal_due (l1 ++ (t, fatal, true) :: l2) u mode b).
  { intros u mode b (f & c & Hin & Hf & Hc) Hu. rewrite Ep in Hin. apply elem_of_app in Hin as [Hin|[[= -> -> ->]|Hin]%elem_of_cons]; [exists f, c; set_solver| |exists f, c; set_solver].
    exists fatal, true. split_and!; [set_solver|done|auto]. }
  assert (Hold : forall u mode, signal_due (s_posts s) u mode false -> signal_due (l1 ++ (t, fatal, true) :: l2) u mode false \/ u = t /\ (mode = WAIT_SIGNAL_KILLABLE -> fatal = true)).
  { intros u mode (f & c & Hin & Hf & Hc). rewrite Ep in Hin. apply elem_of_app in Hin as [Hin|[[= -> -> ->]|Hin]%elem_of_cons]; [left; exists f, c; set_solver| |left; exists f, c; set_solver]. auto. }
  apply (flag_step (S n) t x _ p); [done|done|lia|..].
  - by split_and!.
  - intros u z Hu. split_and!; [done|done|intros mode Hd; by destruct (Hold u mode Hd) as [?|[? _]]|]. intros _. split; [done|]. intros _ Hd. by apply Hdue.
  - split_and!; [done|done|done|]. destruct p; try done.
    + destruct H4 as (Hm & Hq). split; [done|]. intros Hm0. specialize (Hq Hm0). specialize (Hle mode). lia.
    + destruct H4 as (Hm & Hq & Hd). split_and!; [done|intros Hm0; specialize (Hq Hm0); specialize (Hle mode); lia|]. intros Hpe. change (awaited s t x mode) in Hpe. specialize (Hd Hpe).
      assert (Hm0 : mode <> 0) by (by destruct Hpe as [[[-> _]|[-> _]] _]). specialize (Hq Hm0). specialize (Hle mode).
      destruct Hd as [Hd|Hlt]; [|right; lia]. destruct (Hold t mode Hd) as [?|[_ Hf]]; [by left|right]. unfold sequence_of in *. cbn. rewrite E1, E2.
      destruct (Z.eqb_spec mode WAIT_SIGNAL_KILLABLE) as [Em|_]; [rewrite (Hf Em); lia|lia].
    + cbn in *. case_decide; [|done]. destruct H4 as [Hd He]. split; [|done]. intros Hpe. apply Hdue; [by apply Hd|done].
  - cbn. rewrite E1, E2. destruct fatal; lia.
  - rewrite Ep. intros u f b Hin. apply elem_of_app in Hin as [Hin|[[= -> -> ->]|Hin]%elem_of_cons]; [right; exists b; set_solver|by left|right; exists b; set_solver].
  - auto.
Qed.
End others.

Lemma wstep_ok n s (b : bool) s' : sys_ok n s -> Z.of_nat (if b then S n else n) < 2 ^ 64 -> wstep s b s' -> sys_ok (if b then S n else n) s'.
Proof.
  intros HS Hn Hst. destruct Hst;
    eauto using enter_ok, check_ok, sleep_ok, resume_ok, step_switch, step_wake_one, step_wake_all, step_wake_mask, step_requeue, step_wake_thread, step_expire, step_post, step_advance, step_signal, step_recount, step_handle, step_request, step_terminate.
Qed.
Lemma wexec_ok n s : wexec n s -> Z.of_nat n < 2 ^ 64 -> sys_ok n s.
Proof.
  induction 1 as [s Hf|n s b s' _ IH Hst]; intros Hn; [by apply wait_fresh_ok|]. apply (wstep_ok n s); [apply IH; destruct b; lia|done|done].
Qed.
