(* ===== verification/WaitTheorems.v ===== *)
(** * Wait queues: the theorems *)
From S2P Require Import Prelude RbTree Timeline Scheduler SchedulerQueue SchedulerPlace SchedulerOps SchedulerSteps SchedulerTheorems Wait WaitInv WaitSystem WaitSteps.

(** In every run no operation on wait queues panics or faults: threads go through every part of a sleep, and
    whoever wakes, moves, signals or terminates threads, the timer included, always finishes. *)
Theorem wait_calls_safe n s : wexec n s -> Z.of_nat n < 2 ^ 64 ->
  (forall t x mode, w_threads (s_waits s) !! t = Some x -> exists r b, sleep_enter (s_waits s) t mode = Ret r /\ sleep_pending (s_waits s) t mode = Ret b) /\
  (forall t x q deadline mode seq, w_threads (s_waits s) !! t = Some x -> w_state x = THREAD_RUNNING -> is_Some (w_queues (s_waits s) !! q) ->
     exists r, sleep_queue (s_waits s) t q deadline mode seq = Ret r) /\
  (forall t x, w_threads (s_waits s) !! t = Some x -> w_state x = THREAD_RUNNING -> s_phase s !! t = Some Blocked -> exists r, sleep_resume (s_waits s) t = Ret r) /\
  (forall q count mask, is_Some (w_queues (s_waits s) !! q) ->
     (exists r, wait_queue_wake_one (s_waits s) q = Ret r) /\ (exists r, wait_queue_wake_all (s_waits s) q = Ret r) /\ exists r, wait_queue_wake_mask (s_waits s) q count mask = Ret r) /\
  (forall src dst count private, is_Some (w_queues (s_waits s) !! src) -> is_Some (w_queues (s_waits s) !! dst) -> exists r, wait_queue_requeue (s_waits s) src dst count private = Ret r) /\
  (forall t x fatal, w_threads (s_waits s) !! t = Some x -> (exists r, wait_queue_wake_thread (s_waits s) t = Ret r) /\
     (exists r, wait_queue_signal_thread (s_waits s) t fatal = Ret r) /\ exists r, wait_queue_terminate_thread (s_waits s) t = Ret r) /\
  (forall now, exists W, wait_queue_expire (s_waits s) now = Ret W).
Proof.
  intros HE Hn. pose proof (wexec_ok n s HE Hn) as HS. pose proof (so_waits _ _ HS) as HW. split_and!.
  - intros t x mode Hx. unfold sleep_enter, sleep_pending, get_thread. rewrite Hx. cbn. destruct (exit_requested x); by do 2 eexists.
  - intros t x q deadline mode seq Hx Hs [l Hl]. destruct (sleep_queue_ok _ t x q l deadline mode seq HW Hx Hs Hl) as (W & e & E & _). eauto.
  - intros t x Hx Hs Hp. destruct (awake_free _ t x HW Hx ltac:(congruence)) as (E1 & E2 & E3 & _). destruct (so_phase _ _ HS t x _ Hx Hp) as (_ & _ & _ & H). rewrite decide_False in H by congruence.
    unfold sleep_resume, get_thread. rewrite Hx. cbn [deref mbind outcome_bind]. rewrite E1, E2, E3. cbn [orb truth Z.eqb negb]. destruct (Z.eqb_spec (wait_result x) WAIT_QUEUE_TERMINATED) as [E|E]; [|eauto]. rewrite (H E). cbn. eauto.
  - intros q count mask [l Hl]. destruct (wake_one_ok _ q l HW Hl) as (? & -> & _), (wake_all_ok _ q l HW Hl) as (? & -> & _), (wake_mask_ok _ q l count mask HW Hl) as (? & -> & _). split_and!; by eexists.
  - intros src dst count private [l Hl] [m Hm]. destruct (decide (src = dst)) as [->|Hne]; [unfold wait_queue_requeue; rewrite Z.eqb_refl; cbn; eauto|].
    destruct (requeue_ok _ src dst l m count private HW Hl Hm Hne) as (? & -> & _). eauto.
  - intros t x fatal Hx. destruct (wake_thread_ok _ t x HW Hx) as (? & ? & -> & _), (signal_thread_ok _ t x fatal HW Hx) as (? & ? & -> & _), (terminate_thread_ok _ t x HW Hx) as (? & ? & -> & _). split_and!; by eexists.
  - intros now. destruct (expire_ok _ now HW) as (W & -> & _). eauto.
Qed.

(** C6: In a run with fewer than 2^64 signals a thread never sleeps through a signal sent to it or a request to exit.
    When it sleeps and a signal its wait is ended by is pending, whoever posted the signal has not called
    [wait_queue_signal_thread] yet, and that call wakes it; when it was asked to exit, the request has not called
    [wait_queue_terminate_thread] yet, which wakes it as well.  The one exception is a killable wait with a signal that
    was pending before and became fatal when another thread of the process changed its action ([s_changed]): nobody wakes
    the thread for that.  [process_vfork], the only caller that waits this way, makes sure that its process has no other
    thread. *)
Theorem wait_no_lost_signal n s t x : wexec n s -> Z.of_nat n < 2 ^ 64 -> w_threads (s_waits s) !! t = Some x -> w_state x = THREAD_SLEEPING ->
  (pending_for x (wait_interruptible x) -> (wait_interruptible x = WAIT_SIGNAL_KILLABLE -> t ∉ s_changed s) -> exists fatal b, (t, fatal, b) ∈ s_posts s /\
     exists W, wait_queue_signal_thread (s_waits s) t fatal = Ret (W, 1) /\ woke (s_waits s) W [t] WAIT_QUEUE_INTERRUPTED) /\
  (exit_requested x = true -> t ∈ s_exits s /\ exists W, wait_queue_terminate_thread (s_waits s) t = Ret (W, 1) /\ woke (s_waits s) W [t] WAIT_QUEUE_TERMINATED).
Proof.
  intros HE Hn Hx Hs. pose proof (wexec_ok n s HE Hn) as HS. pose proof (so_waits _ _ HS) as HW. destruct (phase_of n s HS t x Hx) as (p & Hp & H1 & _ & _ & H4).
  rewrite (H1 Hs), decide_True in H4 by done. destruct H4 as [Hsig Hex]. split.
  - intros Hpe Hch. destruct (Hsig (conj Hpe Hch)) as (fatal & b & Hin & Hf & _). exists fatal, b. split; [done|]. destruct (signal_thread_ok _ t x fatal HW Hx) as (W & k & E & _ & HO).
    assert (Es : signal_ends x fatal = true).
    { unfold signal_ends. rewrite bool_decide_true by done. unfold truth. destruct Hpe as [[Em _]|[Em _]]; rewrite Em in *; [rewrite Hf by done|]; done. }
    rewrite Es in HO. destruct HO as [-> HO]. eauto.
  - intros He. split; [by apply Hex|]. destruct (terminate_thread_ok _ t x HW Hx) as (W & k & E & _ & HO). rewrite bool_decide_true in HO by done. destruct HO as [-> HO]. eauto.
Qed.

(** Wake-ups come in the order of the sleeps: [wait_queue_wake_mask] wakes exactly the first [count] waiters that match
    the mask, in the order in which they went to sleep, and leaves the others in that order; [wait_queue_requeue] moves
    the first [count] waiters to the end of the other queue.  Both return how many threads that were. *)
Theorem wait_wake_order n s q l count mask : wexec n s -> Z.of_nat n < 2 ^ 64 -> w_queues (s_waits s) !! q = Some l -> mask <> 0 ->
  (let sel := take (Z.to_nat count) (filter (matches (s_waits s) mask) l) in
   exists W, wait_queue_wake_mask (s_waits s) q count mask = Ret (W, Z.of_nat (length sel)) /\ woke (s_waits s) W sel 0) /\
  (forall dst m private, w_queues (s_waits s) !! dst = Some m -> q <> dst ->
   let mv := take (Z.to_nat count) l in
   exists W, wait_queue_requeue (s_waits s) q dst count private = Ret (W, Z.of_nat (length mv)) /\ requeued (s_waits s) W q dst l m mv private).
Proof.
  intros HE Hn Hl Hm. pose proof (so_waits _ _ (wexec_ok n s HE Hn)) as HW. split.
  - destruct (wake_mask_ok _ q l count mask HW Hl) as (W & E & _ & HO). rewrite decide_False in * by done. eauto.
  - intros dst m private Hd Hne. destruct (requeue_ok _ q dst l m count private HW Hl Hd Hne) as (W & E & _ & HR). eauto.
Qed.

(** The timer ends exactly the waits whose deadline has come: those threads become runnable with the result
    [WAIT_QUEUE_TIMEOUT], and every other thread stays as it is. *)
Theorem wait_expire_exact n s now : wexec n s -> Z.of_nat n < 2 ^ 64 ->
  exists W, wait_queue_expire (s_waits s) now = Ret W /\ forall t x, w_threads (s_waits s) !! t = Some x ->
    w_threads W !! t = Some (if bool_decide (w_state x = THREAD_SLEEPING /\ wait_deadline x <> 0 /\ wait_deadline x <= now) then woken_thread x WAIT_QUEUE_TIMEOUT else x).
Proof.
  intros HE Hn. pose proof (so_waits _ _ (wexec_ok n s HE Hn)) as HW. destruct (expire_ok _ now HW) as (W & E & _ & HO). exists W. split; [done|]. intros t x Hx.
  rewrite (wo_threads _ _ _ _ HO), Hx. rewrite (decide_ext _ (w_state x = THREAD_SLEEPING /\ wait_deadline x <> 0 /\ wait_deadline x <= now)); [case_decide; case_bool_decide; done|].
  rewrite list_elem_of_filter, (wk_timed _ HW). unfold deadline_of. rewrite Hx. split.
  - intros [Hd (y & [= <-] & Ho)]. destruct (decide (w_state x = THREAD_SLEEPING)) as [Hs|Hs]; [|destruct (awake_free _ t x HW Hx Hs) as (_ & _ & ? & _); congruence].
    pose proof (wk_deadline _ HW t x Hx Hs) as Ed. rewrite Ho in Ed. unfold truth in Ed. symmetry in Ed. apply negb_true_iff, Z.eqb_neq in Ed. done.
  - intros (Hs & Hd & Hle). split; [done|]. exists x. split; [done|]. rewrite (wk_deadline _ HW t x Hx Hs). unfold truth. by apply negb_true_iff, Z.eqb_neq.
Qed.

(** * Wait queues: an example

    A thread goes to sleep and a signal for it is posted; with it the theorems
    are applied to a state that is reached. *)

Definition idle_waiter : waiter := MkWaiter THREAD_RUNNING 0 false 0 0 false 0 0 UINT32_MAX 0 0 false false false.
(** The state an outcome holds, if it is one. *)
Definition state_or {A B} (d : A) (o : outcome (A * B)) : A := match o with Ret (a, _) => a | _ => d end.

(** Thread 5, and the queues 7 and 8. *)
Definition quiet : wsys := MkSys (MkWaits {[5 := idle_waiter]} {[7 := []; 8 := []]} []) {[5 := Outside]} [] [] ∅.
Definition entering : wsys := with_phase quiet (s_waits quiet) 5 (Entered WAIT_SIGNAL_INTERRUPTIBLE 0).
Definition checked : wsys := with_phase (unchanged entering 5) (s_waits entering) 5 (Checked WAIT_SIGNAL_INTERRUPTIBLE 0).
(** It sleeps with the deadline 100. *)
Definition sleeping : wsys := with_phase checked (state_or (s_waits checked) (sleep_queue (s_waits checked) 5 7 100 WAIT_SIGNAL_INTERRUPTIBLE 0)) 5 Blocked.
Definition sleeper : waiter := asleep_thread idle_waiter 7 100 WAIT_SIGNAL_INTERRUPTIBLE.
Definition posted : wsys := MkSys (put_thread (s_waits sleeping) 5 (post_pending sleeper false)) (s_phase sleeping) [(5, false, false)] [] ∅.

Lemma quiet_fresh : fresh quiet.
Proof.
  split; cbn; try done.
  - intros q l. rewrite lookup_insert_Some, lookup_singleton_Some. naive_solver.
  - intros t x [<- <-]%lookup_singleton_Some. cbn. split_and!; try done. set_solver.
  - intros t. destruct (decide (t = 5)) as [->|]; [by rewrite !lookup_singleton_eq|]. by rewrite !lookup_singleton_ne.
Qed.

Lemma sleeping_run : wexec 0 sleeping.
Proof.
  apply (we_step 0 checked false); [|eapply (ws_sleep checked 5 idle_waiter WAIT_SIGNAL_INTERRUPTIBLE 0 7 100 _ Asleep); reflexivity].
  apply (we_step 0 entering false); [|apply (ws_check entering 5 idle_waiter WAIT_SIGNAL_INTERRUPTIBLE 0 false); reflexivity].
  apply (we_step 0 quiet false); [by apply we_start, quiet_fresh|]. apply (ws_enter quiet 5 idle_waiter WAIT_SIGNAL_INTERRUPTIBLE (Some 0)); try reflexivity. set_solver.
Qed.
Lemma posted_run : wexec 0 posted.
Proof. apply (we_step 0 sleeping false); [apply sleeping_run|]. exact (ws_post sleeping 5 sleeper false eq_refl). Qed.

(** The exception cannot be dropped: thread 5 sleeps in a killable wait, a signal with a handler is posted, which does
    not end such a wait, and then another thread resets the action of the signal to the default.  Now a fatal signal is
    pending and nobody is about to wake the thread. *)
Definition killable_entering : wsys := with_phase quiet (s_waits quiet) 5 (Entered WAIT_SIGNAL_KILLABLE 0).
Definition killable_checked : wsys := with_phase (unchanged killable_entering 5) (s_waits quiet) 5 (Checked WAIT_SIGNAL_KILLABLE 0).
Definition killable_sleeper : waiter := asleep_thread idle_waiter 7 0 WAIT_SIGNAL_KILLABLE.
Definition killable_sleeping : wsys := with_phase killable_checked (state_or (s_waits quiet) (sleep_queue (s_waits quiet) 5 7 0 WAIT_SIGNAL_KILLABLE 0)) 5 Blocked.
Definition killable_posted : wsys := MkSys (put_thread (s_waits killable_sleeping) 5 (post_pending killable_sleeper false)) (s_phase killable_sleeping) [(5, false, false)] [] (s_changed killable_sleeping).
Definition posted_sleeper : waiter := post_sequence (post_pending killable_sleeper false) false.
Definition killable_advanced : wsys := MkSys (put_thread (s_waits killable_posted) 5 posted_sleeper) (s_phase killable_posted) [(5, false, true)] [] (s_changed killable_posted).
Definition killable_signalled : wsys := MkSys (state_or (s_waits killable_advanced) (wait_queue_signal_thread (s_waits killable_advanced) 5 false)) (s_phase killable_advanced) [] [] (s_changed killable_advanced).
Definition killable_changed : wsys := MkSys (put_thread (s_waits killable_signalled) 5 (recount posted_sleeper true true)) (s_phase killable_signalled) [] [] ({[5]} ∪ s_changed killable_signalled).

Theorem killable_misses_changed_action : exists n s x, wexec n s /\ w_threads (s_waits s) !! 5 = Some x /\ w_state x = THREAD_SLEEPING /\ wait_interruptible x = WAIT_SIGNAL_KILLABLE /\
  fatal_pending x = true /\ s_posts s = [] /\ s_exits s = [].
Proof.
  exists 1%nat, killable_changed, (recount posted_sleeper true true). split; [|by split_and!].
  apply (we_step 1 killable_signalled false); [|by apply (ws_recount killable_signalled 5 posted_sleeper true true)].
  apply (we_step 1 killable_advanced false); [|by apply (ws_signal killable_advanced 5 false [] [] _ 0)].
  apply (we_step 0 killable_posted true); [|by apply (ws_advance killable_posted 5 (post_pending killable_sleeper false) false [] [])].
  apply (we_step 0 killable_sleeping false); [|by apply (ws_post killable_sleeping 5 killable_sleeper false)].
  apply (we_step 0 killable_checked false); [|by apply (ws_sleep killable_checked 5 idle_waiter WAIT_SIGNAL_KILLABLE 0 7 0 _ Asleep)].
  apply (we_step 0 killable_entering false); [|by apply (ws_check killable_entering 5 idle_waiter WAIT_SIGNAL_KILLABLE 0 false)].
  apply (we_step 0 quiet false); [by apply we_start, quiet_fresh|]. apply (ws_enter quiet 5 idle_waiter WAIT_SIGNAL_KILLABLE (Some 0)); try reflexivity. set_solver.
Qed.

Lemma wait_calls_safe_witness : exists r, wait_queue_wake_all (s_waits posted) 7 = Ret r.
Proof. destruct (wait_calls_safe 0 posted posted_run) as (_ & _ & _ & H & _); [lia|]. apply (H 7 1 1). by exists [5]. Defined.

Lemma wait_no_lost_signal_witness : exists fatal b, (5, fatal, b) ∈ s_posts posted.
Proof.
  destruct (wait_no_lost_signal 0 posted 5 (post_pending sleeper false) posted_run) as [H _]; [lia|reflexivity|reflexivity|].
  destruct H as (fatal & b & H & _); [by right|discriminate|]. exists fatal, b. exact H.
Defined.

Lemma wait_wake_order_witness : exists W, wait_queue_wake_mask (s_waits posted) 7 3 1 = Ret (W, 1).
Proof.
  destruct (wait_wake_order 0 posted 7 [5] 3 1 posted_run) as [(W & E & _) _]; [lia|reflexivity|done|]. exists W. exact E.
Defined.

Lemma wait_expire_exact_witness : exists W x, wait_queue_expire (s_waits posted) 100 = Ret W /\ w_threads W !! 5 = Some x /\ wait_result x = WAIT_QUEUE_TIMEOUT.
Proof.
  destruct (wait_expire_exact 0 posted 100 posted_run) as (W & E & H); [lia|]. exists W, (woken_thread (post_pending sleeper false) WAIT_QUEUE_TIMEOUT).
  split; [exact E|]. split; [exact (H 5 (post_pending sleeper false) eq_refl)|reflexivity].
Defined.

(** * Wait queues over the scheduler

    Wait keeps of [scheduler_block_current] and [scheduler_make_runnable] only
    what they do to the state of the thread.  Here the scheduler of Scheduler is
    shown to do exactly that, in every state it reaches. *)

(** The threads of the wait queues are in the state the scheduler has them in. *)
Definition same_states {T} (s : runqueue T) (W : waits) : Prop :=
  forall t x, w_threads W !! t = Some x -> exists th, threads s !! t = Some th /\ state th = w_state x.

Section sched.
  Context {T : Type} {HT : Timeline T} {HL : TimelineLaws T}.
  Implicit Types s : runqueue T.

Lemma same_states_put s s' W t x st th' : same_states s W -> threads s' = <[t := th']> (threads s) -> state th' = st -> same_states s' (Wait.put_thread W t (set_state x st)).
Proof.
  intros HS ET Est u y Hu. unfold Wait.put_thread in Hu. cbn [w_threads] in Hu. rewrite ET. destruct (decide (u = t)) as [->|Hne].
  - rewrite lookup_insert_eq in Hu. injection Hu as <-. exists th'. by rewrite lookup_insert_eq.
  - rewrite lookup_insert_ne in Hu by done. rewrite lookup_insert_ne by done. by apply HS.
Qed.

(** C21: The two scheduler calls of the wait queues: in every reachable state of the scheduler, blocking the thread that runs
    on a CPU and making a thread runnable that sleeps succeed, and they change the states of the threads exactly as the
    wait queues assume. *)
Theorem wait_scheduler_refines s W me now : reachable s -> same_states s W -> is_u64 now -> (me < length (cpus s))%nat ->
  (forall t th x, runs s me t -> threads s !! t = Some th -> state th = THREAD_RUNNING -> lock_owner th = Some me -> w_threads W !! t = Some x ->
     exists s' W', scheduler_block_current s me now = Ret s' /\ block_thread W t = Ret W' /\ same_states s' W') /\
  (forall t th x, threads s !! t = Some th -> state th = THREAD_SLEEPING -> lock_owner th = Some me -> w_threads W !! t = Some x ->
     exists s' o W', scheduler_make_runnable s me t now = Ret (s', o) /\ make_runnable W t = Ret W' /\ same_states s' W').
Proof.
  intros [l HS]%reachable_ok HA Hn Hme. split.
  - intros t th x (c & Hc & Ec) Ht HR HO Hx. destruct (stop_ok s l me c t th now "block non-running thread" THREAD_SLEEPING HS Hc Ec Ht HR HO Hn) as (s' & th' & E & _ & _ & _ & ET & Est & _); [done|done|].
    destruct (HA t x Hx) as (th0 & Ht0 & E0). rewrite Ht in Ht0. injection Ht0 as <-. eexists s', _. split; [done|]. split; [|by eapply same_states_put].
    unfold block_thread, get_thread. rewrite Hx. cbn [deref mbind outcome_bind]. by rewrite bool_decide_true by congruence.
  - intros t th x Ht HR HO Hx. destruct (enqueue_op_ok s l me t th true now HS) as (s' & o & l1 & l2 & th' & E & _ & _ & _ & ET & Est & _); [split; [done|]; auto|done|done|].
    destruct (HA t x Hx) as (th0 & Ht0 & E0). rewrite Ht in Ht0. injection Ht0 as <-. eexists s', o, _. split; [done|]. split; [|by eapply same_states_put].
    unfold make_runnable, get_thread. rewrite Hx. cbn [deref mbind outcome_bind]. rewrite (bool_decide_true (w_state x = THREAD_SLEEPING)) by congruence. by rewrite !andb_false_r.
Qed.
End sched.

(** ** An example *)

(** The second thread of the example runs on CPU 0, with its lock held. *)
Definition example_running : runqueue rb_mem := after (Start 0 32 6000) (after (Next 0 5000) example_queued).

Lemma running_reachable : reachable example_running.
Proof.
  assert (H1 : reachable (after (Next 0 5000) example_queued)).
  { eapply reachable_step; [exact example_reachable|]. exists (Next 0 5000). split; [|vm_compute; reflexivity]. split; [unfold is_u64; lia|]. eexists. split; [vm_compute; reflexivity|]. by split. }
  eapply reachable_step; [exact H1|]. exists (Start 0 32 6000). split; [|vm_compute; reflexivity]. split; [unfold is_u64; lia|].
  split; [eexists; split; [vm_compute; reflexivity|reflexivity]|]. eexists. split; [vm_compute; reflexivity|reflexivity].
Qed.

Lemma wait_scheduler_refines_witness : exists s' W', scheduler_block_current example_running 0 7000 = Ret s' /\
  block_thread (MkWaits {[32 := MkWaiter THREAD_RUNNING 0 false 0 0 false 0 0 0 0 0 false false false]} ∅ []) 32 = Ret W' /\ same_states s' W'.
Proof.
  destruct (wait_scheduler_refines example_running (MkWaits {[32 := MkWaiter THREAD_RUNNING 0 false 0 0 false 0 0 0 0 0 false false false]} ∅ []) 0 7000) as [H _].
  - exact running_reachable.
  - intros t x Hx. cbn [w_threads] in Hx. apply lookup_singleton_Some in Hx as [<- <-]. eexists. split; [vm_compute; reflexivity|reflexivity].
  - unfold is_u64. lia.
  - vm_compute. lia.
  - eapply H; [eexists; split; [vm_compute; reflexivity|reflexivity]|vm_compute; reflexivity|reflexivity|reflexivity|reflexivity].
Defined.
