(* ===== verification/Sleeplock.v ===== *)
(** * Sleeping locks

    kernel/sleeplock.c over the wait queues of kernel/wait.c.  The queue of a
    lock has the address of the lock.  What runs under [lk->lk] is one step, so
    [sleeplock_acquire] is cut where it sleeps.  Threads take and release any
    number of locks while others ask them to exit, which ends a wait: the thread
    then leaves for [process_thread_exit] from inside [sleeplock_acquire].  A
    thread is one life of a [struct thread]: the owner of a lock is compared by
    address, so that a record used again for a new thread, after its first thread
    left with a lock, would pass for the owner; such reuse is not modelled. *)
From S2P Require Import Prelude Scheduler Wait WaitInv WaitSystem.

Record sleeplock := MkLock { locked : bool; owner : Z }.

Definition sleeplock_init (W : waits) (L : gmap Z sleeplock) (a : Z) : waits * gmap Z sleeplock :=
  (put_queue W a [], <[a := MkLock false 0]> L).
Definition sleeplock_holding (lk : sleeplock) (t : Z) : bool := locked lk && (t =? owner lk).

(** A round of the loop of [sleeplock_acquire]: nothing is left to do, or how the wait goes on. *)
Definition acquire_round (W : waits) (lk : sleeplock) (t a : Z) : outcome (waits * sleeplock * option sleep_end) :=
  if locked lk then
    entered ← sleep_enter W t WAIT_SIGNAL_NONE;
    match entered with
    | None => Ret (W, lk, Some SleepTerminated)
    | Some sequence => '(W, e) ← sleep_queue W t a 0 WAIT_SIGNAL_NONE sequence; Ret (W, lk, Some e)
    end
  else Ret (W, MkLock true t, None).
(** The same for a thread that was asleep in it. *)
Definition acquire_resume (W : waits) (lk : sleeplock) (t a : Z) : outcome (waits * sleeplock * option sleep_end) :=
  '(W, result) ← sleep_resume W t;
  match result with None => Ret (W, lk, Some SleepTerminated) | Some _ => acquire_round W lk t a end.

Definition sleeplock_release (W : waits) (lk : sleeplock) (t a : Z) : outcome (waits * sleeplock) :=
  if negb (locked lk) || negb (owner lk =? t) then Panic "sleeplock_release" else
  '(W, _) ← wait_queue_wake_one W a; Ret (W, MkLock false 0).

(** ** Threads that use locks *)

(** Outside of [sleeplock_acquire], inside of it, or gone to [process_thread_exit]. *)
Inductive use := Idle | Acquiring (a : Z) | Left.
(** [l_held]: which thread was told that it has which lock. *)
Record lsys := MkLsys { l_waits : waits; l_locks : gmap Z sleeplock; l_use : gmap Z use; l_held : gset (Z * Z) }.

Inductive lop :=
| LAcquire (t a : Z) | LResume (t : Z) | LRelease (t a : Z)
| LSwitch (t : Z) (state : thread_state) | LRequest (t : Z) | LTerminate (t : Z) | LExit (t : Z).

Definition after_round (s : lsys) (t a : Z) (r : waits * sleeplock * option sleep_end) : lsys :=
  let '(W, lk, e) := r in
  MkLsys W (<[a := lk]> (l_locks s))
    (<[t := match e with None => Idle | Some SleepTerminated => Left | Some _ => Acquiring a end]> (l_use s))
    (match e with None => {[(t, a)]} ∪ l_held s | Some _ => l_held s end).

Definition lock_perform (s : lsys) (o : lop) : outcome lsys :=
  match o with
  | LAcquire t a => lk ← deref (l_locks s !! a); r ← acquire_round (l_waits s) lk t a; Ret (after_round s t a r)
  | LResume t =>
      match l_use s !! t with
      | Some (Acquiring a) => lk ← deref (l_locks s !! a); r ← acquire_resume (l_waits s) lk t a; Ret (after_round s t a r)
      | _ => Fault
      end
  | LRelease t a =>
      lk ← deref (l_locks s !! a);
      '(W, lk) ← sleeplock_release (l_waits s) lk t a;
      Ret (MkLsys W (<[a := lk]> (l_locks s)) (l_use s) (l_held s ∖ {[(t, a)]}))
  | LSwitch t state => x ← get_thread (l_waits s) t; Ret (MkLsys (put_thread (l_waits s) t (set_state x state)) (l_locks s) (l_use s) (l_held s))
  | LRequest t =>
      x ← get_thread (l_waits s) t;
      let x := set_signals x (signal_sequence x) (fatal_signal_sequence x) (unblocked_pending x) (fatal_pending x) true in
      Ret (MkLsys (put_thread (l_waits s) t x) (l_locks s) (l_use s) (l_held s))
  | LTerminate t => '(W, _) ← wait_queue_terminate_thread (l_waits s) t; Ret (MkLsys W (l_locks s) (l_use s) (l_held s))
  | LExit t => Ret (MkLsys (l_waits s) (l_locks s) (<[t := Left]> (l_use s)) (l_held s))
  end.

(** A thread runs its own calls and releases what it has; only threads that were asked to exit are terminated; on its own
    a thread exits without locks. *)
Definition runs (s : lsys) (t : Z) : Prop := exists x, w_threads (l_waits s) !! t = Some x /\ w_state x = THREAD_RUNNING.
Definition lock_allowed (s : lsys) (o : lop) : Prop :=
  match o with
  | LAcquire t a => runs s t /\ l_use s !! t = Some Idle /\ is_Some (l_locks s !! a)
  | LResume t => runs s t /\ exists a, l_use s !! t = Some (Acquiring a)
  | LRelease t a => runs s t /\ l_use s !! t = Some Idle /\ (t, a) ∈ l_held s
  | LSwitch t state => state ∈ [THREAD_RUNNABLE; THREAD_RUNNING] /\ exists x, w_threads (l_waits s) !! t = Some x /\ w_state x ∈ [THREAD_RUNNABLE; THREAD_RUNNING]
  | LRequest t => is_Some (w_threads (l_waits s) !! t)
  | LTerminate t => exists x, w_threads (l_waits s) !! t = Some x /\ exit_requested x = true
  | LExit t => runs s t /\ l_use s !! t = Some Idle /\ forall a, (t, a) ∉ l_held s
  end.

Record lock_fresh (s : lsys) : Prop := {
  lf_waits : wait_ok (l_waits s);
  lf_locks a : l_locks s !! a = (fun _ => MkLock false 0) <$> w_queues (l_waits s) !! a;
  lf_empty a l : w_queues (l_waits s) !! a = Some l -> l = [];
  lf_threads t x : w_threads (l_waits s) !! t = Some x -> w_state x ∈ [THREAD_RUNNABLE; THREAD_RUNNING];
  lf_use t : l_use s !! t = (fun _ => Idle) <$> w_threads (l_waits s) !! t;
  lf_held : l_held s = ∅
}.
Inductive lock_steps (s : lsys) : lsys -> Prop :=
| lk_here : lock_steps s s
| lk_step s1 o s2 : lock_steps s s1 -> lock_allowed s1 o -> lock_perform s1 o = Ret s2 -> lock_steps s s2.
Definition lock_reachable (s : lsys) : Prop := exists s0, lock_fresh s0 /\ lock_steps s0 s.

(** ** The invariant *)

Definition use_ok (x : waiter) (p : use) : Prop :=
  w_state x ∈ [THREAD_RUNNABLE; THREAD_RUNNING; THREAD_SLEEPING] /\ (w_state x = THREAD_SLEEPING -> p = Acquiring (waiting_on x)) /\
  forall a, p = Acquiring a -> wait_result x = WAIT_QUEUE_TERMINATED -> exit_requested x = true.
(** Woken and on the way to look at lock [a] again. *)
Definition on_the_way (s : lsys) (t a : Z) : Prop :=
  l_use s !! t = Some (Acquiring a) /\ exists x, w_threads (l_waits s) !! t = Some x /\ w_state x <> THREAD_SLEEPING /\ wait_result x <> WAIT_QUEUE_TERMINATED.

Record lock_ok (s : lsys) : Prop := {
  lo_waits : wait_ok (l_waits s);
  lo_locks a : is_Some (l_locks s !! a) <-> is_Some (w_queues (l_waits s) !! a);
  lo_threads t : is_Some (l_use s !! t) <-> is_Some (w_threads (l_waits s) !! t);
  lo_use t x p : w_threads (l_waits s) !! t = Some x -> l_use s !! t = Some p -> use_ok x p;
  lo_target t a : l_use s !! t = Some (Acquiring a) -> is_Some (l_locks s !! a);
  lo_held t a : (t, a) ∈ l_held s <-> exists lk, l_locks s !! a = Some lk /\ locked lk = true /\ owner lk = t;
  lo_woken a lk l : l_locks s !! a = Some lk -> locked lk = false -> w_queues (l_waits s) !! a = Some l -> l <> [] -> exists t, on_the_way s t a
}.

Lemma lock_fresh_ok s : lock_fresh s -> lock_ok s.
Proof.
  intros [F1 F2 F3 F4 F5 F6]. split.
  - done.
  - intros a. rewrite F2, fmap_is_Some. done.
  - intros t. rewrite F5, fmap_is_Some. done.
  - intros t x p Hx. rewrite F5, Hx. intros [= <-]. pose proof (F4 t x Hx) as Hs. split_and!; [set_solver|intros E; rewrite E in Hs; set_solver|done].
  - intros t a. rewrite F5. by destruct (w_threads _ !! t).
  - intros t a. rewrite F6. split; [set_solver|]. intros (lk & Hlk & Hl & _). rewrite F2 in Hlk. destruct (w_queues _ !! a); naive_solver.
  - intros a lk l _ _ ->%F3. done.
Qed.

Section Steps.
  Context (s : lsys) (HS : lock_ok s) (W := l_waits s).

Lemma use_of t x : w_threads W !! t = Some x -> exists p, l_use s !! t = Some p /\ use_ok x p.
Proof. intros Hx. destruct (proj2 (lo_threads _ HS t)) as [p Hp]; [by eexists|]. exists p. split; [done|]. by apply (lo_use _ HS t). Qed.

(** Threads that sleep are woken. *)
Lemma lock_woke W' sel r :
  wait_ok W' -> woke W W' sel r -> (forall t x, t ∈ sel -> w_threads W !! t = Some x -> w_state x = THREAD_SLEEPING) ->
  (r = WAIT_QUEUE_TERMINATED -> forall t x, t ∈ sel -> w_threads W !! t = Some x -> exit_requested x = true) ->
  lock_ok (MkLsys W' (l_locks s) (l_use s) (l_held s)).
Proof.
  intros HW' [H1 H2 H3] Hsl Hex. split; cbn [l_waits l_locks l_use l_held]; try apply HS; [done|..].
  - intros a. rewrite H2, fmap_is_Some. apply HS.
  - intros t. rewrite H1. case_decide; [rewrite fmap_is_Some|]; apply HS.
  - intros t x p. rewrite H1. case_decide as Ht; [|apply (lo_use _ HS t)]. intros (y & Hy & ->)%fmap_Some Hp.
    destruct (lo_use _ HS t y p Hy Hp) as (U1 & U2 & U3). split_and!; [cbn; set_solver|done|]. intros a -> Hr. cbn in *. subst r. by eapply Hex.
  - intros a lk l Hlk Hf. rewrite H2. intros (l0 & Hl0 & ->)%fmap_Some Hne.
    destruct (lo_woken _ HS a lk l0 Hlk Hf Hl0) as (t & Hp & x & Hx & Hst & Hr); [intros ->; done|]. exists t. split; [done|]. exists x. split; [|done].
    cbn. rewrite H1, decide_False; [done|]. intros Ht. by apply Hst, (Hsl t).
Qed.

(** A thread changes in what its wait does not depend on. *)
Lemma lock_touch t x y :
  w_threads W !! t = Some x -> same_wait x y -> wait_result y = wait_result x -> (exit_requested x = true -> exit_requested y = true) ->
  w_state y ∈ [THREAD_RUNNABLE; THREAD_RUNNING; THREAD_SLEEPING] -> lock_ok (MkLsys (put_thread W t y) (l_locks s) (l_use s) (l_held s)).
Proof.
  intros Hx Hs Hr He Hst. split; cbn [l_waits l_locks l_use l_held]; try apply HS; [by apply (put_same_ok _ _ x); [apply HS|..]|..].
  - intros u. cbn. rewrite (lo_threads _ HS u), lookup_insert_is_Some. destruct (decide (t = u)) as [->|]; [|naive_solver]. fold W. rewrite Hx. split; eauto.
  - intros u z p. cbn. rewrite lookup_insert_Some. intros [[<- <-]|[_ Hz]] Hp; [|by apply (lo_use _ HS u)].
    destruct (lo_use _ HS t x p Hx Hp) as (U1 & U2 & U3), Hs as (S1 & _ & _ & _ & S5). split_and!; [done|by rewrite S5, S1|].
    intros a Hpa. rewrite Hr. intros Hterm. apply He. by eapply U3.
  - intros a lk l Hlk Hf Hl Hne. destruct (lo_woken _ HS a lk l Hlk Hf Hl Hne) as (u & Hp & z & Hz & Hzs & Hzr). exists u. split; [done|].
    destruct (decide (u = t)) as [->|Hut].
    + exists y. cbn. rewrite lookup_insert_eq. fold W in Hz. rewrite Hx in Hz. injection Hz as <-. destruct Hs as (_ & _ & _ & _ & S5). rewrite S5, Hr. done.
    + exists z. cbn. by rewrite lookup_insert_ne by done.
Qed.

(** The thread that runs a round of [sleeplock_acquire] is none of those others wait for. *)
Definition may_try (t a : Z) : Prop := l_use s !! t = Some Idle \/ l_use s !! t = Some (Acquiring a).
Lemma not_me t a b : may_try t a -> on_the_way s t b -> b = a.
Proof. intros [H|H] [Hp _]; rewrite H in Hp; congruence. Qed.

(** The state after a round: thread [t] is [y] and in use [p]; lock [a] is [lk']; queue [a] grew only if the lock is held. *)
Lemma lock_round W' t x y a lk lk' p held :
  w_threads W !! t = Some x -> may_try t a -> l_locks s !! a = Some lk -> wait_ok W' ->
  (forall u, w_threads W' !! u = if decide (u = t) then Some y else w_threads W !! u) ->
  (forall b, b <> a -> w_queues W' !! b = w_queues W !! b) -> is_Some (w_queues W' !! a) -> locked lk' = true -> use_ok y p ->
  (p = Acquiring a \/ forall b, p <> Acquiring b) ->
  (forall u b, (u, b) ∈ held <-> if decide (b = a) then owner lk' = u else (u, b) ∈ l_held s) ->
  lock_ok (MkLsys W' (<[a := lk']> (l_locks s)) (<[t := p]> (l_use s)) held).
Proof.
  intros Hx Ht Hlk HW' HT HQ Ha Hl Hy Hp Hh. split; cbn [l_waits l_locks l_use l_held]; [done|..].
  - intros b. destruct (decide (b = a)) as [->|Hb]; [rewrite lookup_insert_eq; split; eauto|]. rewrite lookup_insert_ne, HQ by done. apply HS.
  - intros u. rewrite HT. destruct (decide (u = t)) as [->|Hu]; [rewrite lookup_insert_eq; split; eauto|]. rewrite lookup_insert_ne by done. apply HS.
  - intros u z q. rewrite HT. destruct (decide (u = t)) as [->|Hu]; [rewrite lookup_insert_eq; congruence|]. rewrite lookup_insert_ne by done. apply (lo_use _ HS u).
  - intros u b. destruct (decide (b = a)) as [->|Hb]; [rewrite lookup_insert_eq; eauto|]. rewrite (lookup_insert_ne (l_locks s)) by done.
    destruct (decide (u = t)) as [->|Hu]; [rewrite lookup_insert_eq; naive_solver|]. rewrite lookup_insert_ne by done. apply (lo_target _ HS u).
  - intros u b. rewrite Hh. destruct (decide (b = a)) as [->|Hb]; [|rewrite lookup_insert_ne by done; apply HS]. rewrite lookup_insert_eq. naive_solver.
  - intros b k l Hk Hf Hq Hne. destruct (decide (b = a)) as [->|Hb]; [rewrite lookup_insert_eq in Hk; congruence|]. rewrite lookup_insert_ne in Hk by done.
    rewrite HQ in Hq by done. destruct (lo_woken _ HS b k l Hk Hf Hq Hne) as (u & Hu). exists u.
    assert (u <> t) by (intros ->; by apply Hb, (not_me t)). destruct Hu as [Hup (z & Hz & Hzs)]. split; cbn; [by rewrite lookup_insert_ne|].
    exists z. by rewrite HT, decide_False.
Qed.

Lemma round_ok t x a lk :
  w_threads W !! t = Some x -> w_state x = THREAD_RUNNING -> may_try t a -> l_locks s !! a = Some lk ->
  exists r, acquire_round W lk t a = Ret r /\ lock_ok (after_round s t a r) /\ (locked lk = false -> r = (W, MkLock true t, None)).
Proof.
  intros Hx Hrun Ht Hlk. pose proof (lo_waits _ HS) as HW. destruct (proj1 (lo_locks _ HS a)) as [l Hl]; [eauto|]. fold W in HW, Hl.
  destruct (use_of t x Hx) as (p0 & Hp0 & U1 & U2 & U3). unfold acquire_round. destruct (locked lk) eqn:El.
  2: { eexists. split; [done|]. split; [|done]. cbn [after_round]. eapply (lock_round W t x x a lk); eauto.
    - intros u. by case_decide; subst.
    - split_and!; [done|congruence|done].
    - intros u b. rewrite elem_of_union, elem_of_singleton. case_decide; [subst|naive_solver]. cbn. split; [|naive_solver].
      intros [?|(lk' & ? & ? & ?)%(lo_held _ HS)]; congruence. }
  unfold sleep_enter, get_thread. rewrite Hx. cbn [deref mbind outcome_bind].
  assert (Hheld : forall u b, (u, b) ∈ l_held s <-> if decide (b = a) then owner lk = u else (u, b) ∈ l_held s).
  { intros u b. case_decide; [subst|done]. rewrite (lo_held _ HS). split; [intros (? & ? & ? & ?); congruence|]. intros <-. eauto. }
  destruct (exit_requested x) eqn:Ex.
  { eexists. split; [done|]. split; [|done]. cbn [after_round]. eapply (lock_round W t x x a lk); eauto.
    - intros u. by case_decide; subst.
    - split_and!; [done|congruence|done]. }
  destruct (sleep_queue_ok W t x a l 0 WAIT_SIGNAL_NONE 0 HW Hx Hrun Hl) as (W' & e & E & HW' & HR). change (if truth WAIT_SIGNAL_NONE then _ else 0) with 0. cbn [mbind outcome_bind]. rewrite E. cbn [mbind outcome_bind].
  eexists. split; [done|]. split; [|done]. destruct e; cbn in HR; [|naive_solver|naive_solver congruence]. destruct HR as (_ & _ & ts & ->). cbn [after_round].
  eapply (lock_round _ t x (asleep_thread x a 0 WAIT_SIGNAL_NONE) a lk); eauto.
  - intros u. cbn. rewrite lookup_insert. case_decide; case_decide; congruence.
  - intros b Hb. cbn. by rewrite lookup_insert_ne.
  - cbn. rewrite lookup_insert_eq. eauto.
  - split_and!; [cbn; set_solver|done|done].
Qed.

Lemma lock_leave t x :
  w_threads W !! t = Some x -> w_state x <> THREAD_SLEEPING -> (forall a, ~ on_the_way s t a) ->
  lock_ok (MkLsys W (l_locks s) (<[t := Left]> (l_use s)) (l_held s)).
Proof.
  intros Hx Hst Hno. destruct (use_of t x Hx) as (p0 & Hp0 & U1 & _). split; cbn [l_waits l_locks l_use l_held]; try apply HS.
  - intros u. rewrite lookup_insert_is_Some, (lo_threads _ HS u). fold W. destruct (decide (t = u)) as [->|]; [rewrite Hx|]; naive_solver.
  - intros u z p Hz. rewrite lookup_insert_Some. intros [[<- <-]|[_ Hp]]; [|by apply (lo_use _ HS u)]. fold W in Hz. rewrite Hx in Hz. injection Hz as <-.
    by split_and!.
  - intros u a. rewrite lookup_insert_Some. intros [[_ ?]|[_ Hp]]; [done|by apply (lo_target _ HS u)].
  - intros a lk l Hlk Hf Hl Hne. destruct (lo_woken _ HS a lk l Hlk Hf Hl Hne) as (u & Hu). exists u.
    assert (u <> t) by (intros ->; by eapply Hno). destruct Hu as [Hup Hz]. split; [|done]. cbn. by rewrite lookup_insert_ne.
Qed.
End Steps.

Lemma lock_resume_ok s t x a lk : lock_ok s -> w_threads (l_waits s) !! t = Some x -> w_state x = THREAD_RUNNING -> l_use s !! t = Some (Acquiring a) ->
  l_locks s !! a = Some lk ->
  exists r, acquire_resume (l_waits s) lk t a = Ret r /\ lock_ok (after_round s t a r) /\
    (locked lk = false -> wait_result x <> WAIT_QUEUE_TERMINATED -> exists W, r = (W, MkLock true t, None)).
Proof.
  intros HS Hx Hrun Hp Hlk. destruct (awake_free _ t x (lo_waits _ HS) Hx ltac:(congruence)) as (E1 & E2 & E3 & _).
  destruct (lo_use _ HS t x _ Hx Hp) as (U1 & U2 & U3). set (y := set_wait x (waiting_on x) (on_waitqueue x) (wait_deadline x) (wait_result x) (on_timeout_queue x) 0).
  assert (HS1 : lock_ok (MkLsys (put_thread (l_waits s) t y) (l_locks s) (l_use s) (l_held s))) by (by apply (lock_touch s HS t x); [|split_and!|..]).
  assert (Hy : w_threads (put_thread (l_waits s) t y) !! t = Some y) by (cbn; by rewrite lookup_insert_eq).
  unfold acquire_resume, sleep_resume, get_thread. rewrite Hx. cbn [deref mbind outcome_bind]. fold y. rewrite E1, E2, E3. cbn [orb truth Z.eqb negb].
  destruct (Z.eqb_spec (wait_result x) WAIT_QUEUE_TERMINATED) as [Er|Er].
  - rewrite (U3 a eq_refl Er). cbn [negb mbind outcome_bind]. eexists. split; [done|]. split; [|done]. cbn [after_round]. rewrite insert_id by done.
    apply (lock_leave _ HS1 t y Hy); [cbn; congruence|]. intros b [_ (z & Hz & _ & Hn)]. cbn [l_waits] in Hz. rewrite Hy in Hz. injection Hz as <-. done.
  - destruct (round_ok _ HS1 t y a lk Hy Hrun (or_intror Hp) Hlk) as (r & E & HR & HF). exists r. split_and!; [done|done|]. intros Hf _. eexists. by apply HF.
Qed.

Lemma release_ok s t a : lock_ok s -> (t, a) ∈ l_held s ->
  exists s', lock_perform s (LRelease t a) = Ret s' /\ lock_ok s'.
Proof.
  intros HS (lk & Hlk & Hl & Ho)%(lo_held _ HS). destruct (proj1 (lo_locks _ HS a)) as [l Hq]; [eauto|]. pose proof (lo_waits _ HS) as HW.
  destruct (wake_one_ok _ a l HW Hq) as (W' & E & HW' & HO). cbn [lock_perform]. rewrite Hlk. cbn [deref mbind outcome_bind]. unfold sleeplock_release.
  rewrite Hl, Ho, Z.eqb_refl. cbn [negb orb]. rewrite E. cbn [mbind outcome_bind]. eexists. split; [done|].
  assert (Hsl : forall u x, u ∈ take 1 l -> w_threads (l_waits s) !! u = Some x -> w_state x = THREAD_SLEEPING /\ waiting_on x = a).
  { intros u x Hu Hx. destruct (wk_queue _ HW a l u Hq) as (z & Hz & ? & _ & ?); [destruct l; cbn in Hu; set_solver|]. split; congruence. }
  assert (HS1 : lock_ok (MkLsys W' (l_locks s) (l_use s) (l_held s))).
  { apply (lock_woke s HS W' (take 1 l) 0); [done|done| |done]. intros u x Hu Hx. by apply (Hsl u x). }
  split; cbn [l_waits l_locks l_use l_held]; try apply HS1.
  - intros b. destruct (decide (b = a)) as [->|Hb]; [|rewrite lookup_insert_ne by done; apply HS1]. rewrite lookup_insert_eq, (wo_queues _ _ _ _ HO), Hq. split; cbn; eauto.
  - intros u b Hu. destruct (decide (b = a)) as [->|Hb]; [rewrite lookup_insert_eq; eauto|]. rewrite lookup_insert_ne by done. by apply (lo_target _ HS1 u).
  - intros u b. rewrite elem_of_difference, elem_of_singleton, (lo_held _ HS). destruct (decide (b = a)) as [->|Hb]; [|rewrite lookup_insert_ne by done; naive_solver].
    rewrite lookup_insert_eq. split; [intros [(k & Hk & _ & Hu) Hne]; congruence|]. intros (k & [= <-] & ? & _). done.
  - intros b k m Hk Hf Hm Hne. destruct (decide (b = a)) as [->|Hb]; [|rewrite lookup_insert_ne in Hk by done; by apply (lo_woken _ HS1 b k m)].
    rewrite (wo_queues _ _ _ _ HO), Hq in Hm. injection Hm as <-. destruct l as [|h l]; [done|]. destruct (wk_queue _ HW a _ h Hq) as (x & Hx & Hxa & _ & Hxs); [set_solver|].
    exists h. destruct (use_of s HS h x Hx) as (p & Hp & _ & U2 & _). split; [cbn; by rewrite Hp, (U2 Hxs), Hxa|]. exists (woken_thread x 0).
    cbn [l_waits]. rewrite (wo_threads _ _ _ _ HO), decide_True, Hx by set_solver. done.
Qed.

Lemma lock_perform_ok s o : lock_ok s -> lock_allowed s o -> exists s', lock_perform s o = Ret s' /\ lock_ok s'.
Proof.
  intros HS Ha. destruct o as [t a|t|t a|t st|t|t|t]; cbn [lock_allowed lock_perform] in *.
  - destruct Ha as ((x & Hx & Hr) & Hp & [lk Hlk]). rewrite Hlk. cbn [deref mbind outcome_bind].
    destruct (round_ok s HS t x a lk Hx Hr (or_introl Hp) Hlk) as (r & -> & HR & _). cbn [mbind outcome_bind]. eauto.
  - destruct Ha as ((x & Hx & Hr) & a & Hp). rewrite Hp. destruct (lo_target _ HS t a Hp) as [lk Hlk]. rewrite Hlk. cbn [deref mbind outcome_bind].
    destruct (lock_resume_ok s t x a lk HS Hx Hr Hp Hlk) as (r & -> & HR & _). cbn [mbind outcome_bind]. eauto.
  - destruct Ha as (_ & _ & Hh). exact (release_ok s t a HS Hh).
  - destruct Ha as (Hst & x & Hx & Hs). unfold get_thread. rewrite Hx. cbn [deref mbind outcome_bind]. eexists. split; [done|].
    apply (lock_touch s HS t x); try done; [|cbn; set_solver]. split_and!; try done. cbn. split; intros E; exfalso; [rewrite E in Hst|rewrite E in Hs]; set_solver.
  - destruct Ha as [x Hx]. unfold get_thread. rewrite Hx. cbn [deref mbind outcome_bind]. eexists. split; [done|].
    destruct (use_of s HS t x Hx) as (p & _ & U1 & _). by apply (lock_touch s HS t x).
  - destruct Ha as (x & Hx & He). destruct (terminate_thread_ok _ t x (lo_waits _ HS) Hx) as (W' & n & -> & HW' & HO). cbn [mbind outcome_bind]. eexists. split; [done|].
    unfold one_woken in HO. case_bool_decide as Hs; [|destruct HO as [_ ->]; by destruct s]. destruct HO as [_ HO].
    eapply lock_woke; [done|done|exact HO| |]; [|intros _]; intros u z ->%list_elem_of_singleton; congruence.
  - destruct Ha as ((x & Hx & Hr) & Hp & _). eexists. split; [done|]. apply (lock_leave s HS t x Hx); [congruence|]. intros a [Hq _]. congruence.
Qed.

Lemma lock_steps_ok s s' : lock_ok s -> lock_steps s s' -> lock_ok s'.
Proof.
  intros HS. induction 1 as [|s1 o s2 _ IH Ha E]; [done|]. destruct (lock_perform_ok s1 o IH Ha) as (s3 & E' & H3). congruence.
Qed.
Lemma lock_reachable_ok s : lock_reachable s -> lock_ok s.
Proof. intros (s0 & F & H). eapply lock_steps_ok; [by apply lock_fresh_ok|done]. Qed.

(** ** The theorems *)

(** C35: in every run at most one thread has a lock, and it is the one [sleeplock_holding] confirms; no call panics or
    faults, neither the waits nor a release by the thread that was given the lock. *)
Theorem sleeplock_exclusion s : lock_reachable s ->
  (forall t u a, (t, a) ∈ l_held s -> (u, a) ∈ l_held s -> t = u) /\
  (forall t a lk, l_locks s !! a = Some lk -> (t, a) ∈ l_held s <-> sleeplock_holding lk t = true) /\
  (forall o, lock_allowed s o -> exists s', lock_perform s o = Ret s').
Proof.
  intros HS%lock_reachable_ok. split_and!.
  - intros t u a (k & Hk & _ & <-)%(lo_held _ HS) (k' & Hk' & _ & <-)%(lo_held _ HS). congruence.
  - intros t a lk Hlk. rewrite (lo_held _ HS). unfold sleeplock_holding. rewrite andb_true_iff, Z.eqb_eq. split; [intros (? & ? & ? & ?)|intros []]; naive_solver.
  - intros o Ha. destruct (lock_perform_ok s o HS Ha) as (s' & E & _). eauto.
Qed.

(** C18: no wake-up is lost: when a lock is free and threads sleep on it, some thread was woken to look at the lock
    again, and it takes the lock if it is still free then, even if it is asked to exit in the meantime. *)
Theorem sleeplock_no_lost_wakeup s a lk l : lock_reachable s ->
  l_locks s !! a = Some lk -> locked lk = false -> w_queues (l_waits s) !! a = Some l -> l <> [] ->
  exists t, on_the_way s t a /\
    (runs s t -> exists s', lock_perform s (LResume t) = Ret s' /\ (t, a) ∈ l_held s') /\
    (forall s', lock_perform s (LRequest t) = Ret s' -> on_the_way s' t a).
Proof.
  intros HS%lock_reachable_ok Hlk Hf Hl Hne. destruct (lo_woken _ HS a lk l Hlk Hf Hl Hne) as (t & Ht). exists t. split; [done|].
  destruct Ht as [Hp (x & Hx & Hs & Hr)]. split.
  - intros (y & Hy & Hrun). rewrite Hx in Hy. injection Hy as <-. cbn [lock_perform]. rewrite Hp, Hlk. cbn [deref mbind outcome_bind].
    destruct (lock_resume_ok s t x a lk HS Hx Hrun Hp Hlk) as (r & -> & _ & HF). destruct (HF Hf Hr) as [W ->]. cbn [mbind outcome_bind after_round].
    eexists. split; [done|]. cbn. set_solver.
  - intros s'. cbn [lock_perform]. unfold get_thread. rewrite Hx. cbn [deref mbind outcome_bind]. intros [= <-]. split; [done|]. cbn.
    eexists. split; [by rewrite lookup_insert_eq|]. done.
Qed.

Lemma left_keeps s o s' t a : lock_allowed s o -> lock_perform s o = Ret s' -> l_use s !! t = Some Left -> (t, a) ∈ l_held s ->
  l_use s' !! t = Some Left /\ (t, a) ∈ l_held s'.
Proof.
  intros Ha E Hl Hh.
  assert (Hround : forall u b r, (forall p, l_use s !! u = Some p -> p <> Left) -> is_Some (l_use s !! u) -> l_use (after_round s u b r) !! t = Some Left /\ (t, a) ∈ l_held (after_round s u b r)).
  { intros u b [[W lk] e] Hu [p Hp]. cbn. rewrite lookup_insert_ne; [|intros ->; apply (Hu p Hp); congruence]. split; [done|]. destruct e; set_solver. }
  destruct o as [u b|u|u b|u st|u|u|u]; cbn [lock_allowed lock_perform] in *.
  - destruct Ha as (_ & Hp & _). apply bind_Ret in E as (lk & _ & (r & _ & [= <-])%bind_Ret). apply Hround; [congruence|eauto].
  - destruct Ha as (_ & b & Hp). rewrite Hp in E. apply bind_Ret in E as (lk & _ & (r & _ & [= <-])%bind_Ret). apply Hround; [congruence|eauto].
  - destruct Ha as (_ & Hp & _). apply bind_Ret in E as (lk & _ & ([W k] & _ & [= <-])%bind_Ret). cbn. split; [done|].
    assert (u <> t) by congruence. set_solver.
  - apply bind_Ret in E as (x & _ & [= <-]). done.
  - apply bind_Ret in E as (x & _ & [= <-]). done.
  - apply bind_Ret in E as ([W n] & _ & [= <-]). done.
  - destruct Ha as (_ & Hp & _). injection E as <-. cbn. rewrite lookup_insert_ne by congruence. done.
Qed.

(** C36: a thread that is made to exit while it waits for one lock keeps the locks it has: from then on no run ever gives
    such a lock to anybody. *)
Theorem sleeplock_exit_strands s t a s' : lock_reachable s -> l_use s !! t = Some Left -> (t, a) ∈ l_held s -> lock_steps s s' ->
  l_use s' !! t = Some Left /\ (t, a) ∈ l_held s' /\ (forall u, (u, a) ∈ l_held s' -> u = t) /\
  (exists lk, l_locks s' !! a = Some lk /\ locked lk = true).
Proof.
  intros HR Hl Hh Hst. pose proof (lock_steps_ok s s' (lock_reachable_ok s HR) Hst) as HS'.
  assert (H : l_use s' !! t = Some Left /\ (t, a) ∈ l_held s').
  { clear HS'. induction Hst as [|s1 o s2 _ IH Ha E]; [done|]. destruct IH as [H1 H2]. by eapply left_keeps. }
  destruct H as [H1 H2]. pose proof H2 as (lk & Hlk & Hk & Ho)%(lo_held _ HS'). split_and!; [done|done| |eauto].
  intros u (k & Hk' & _ & <-)%(lo_held _ HS'). congruence.
Qed.

(** ** A concrete run

    Thread 1 takes lock 10 and waits for lock 20, which thread 2 has, as [mmap_process_fork] does with the lock of all
    mappings and the lock of the parent's.  It is asked to exit and leaves with lock 10, for which thread 3 then waits. *)
#[local] Instance use_eq_dec : EqDecision use.
Proof. solve_decision. Defined.
Definition thread_test (s : lsys) (t : Z) (test : waiter -> bool) : bool := match w_threads (l_waits s) !! t with Some x => test x | None => false end.
Definition runsb (s : lsys) (t : Z) : bool := thread_test s t (fun x => bool_decide (w_state x = THREAD_RUNNING)).
Definition lock_allowedb (s : lsys) (o : lop) : bool :=
  match o with
  | LAcquire t a => runsb s t && bool_decide (l_use s !! t = Some Idle) && bool_decide (is_Some (l_locks s !! a))
  | LResume t => runsb s t && match l_use s !! t with Some (Acquiring _) => true | _ => false end
  | LRelease t a => runsb s t && bool_decide (l_use s !! t = Some Idle) && bool_decide ((t, a) ∈ l_held s)
  | LSwitch t st => bool_decide (st ∈ [THREAD_RUNNABLE; THREAD_RUNNING]) && thread_test s t (fun x => bool_decide (w_state x ∈ [THREAD_RUNNABLE; THREAD_RUNNING]))
  | LRequest t => thread_test s t (fun _ => true)
  | LTerminate t => thread_test s t exit_requested
  | LExit t => runsb s t && bool_decide (l_use s !! t = Some Idle) && bool_decide (set_Forall (fun p => p.1 <> t) (l_held s))
  end.
Lemma thread_test_ok s t test : thread_test s t test = true -> exists x, w_threads (l_waits s) !! t = Some x /\ test x = true.
Proof. unfold thread_test. destruct (w_threads (l_waits s) !! t); [eauto|done]. Qed.
Lemma runsb_ok s t : runsb s t = true -> runs s t.
Proof. intros (x & Hx & H%bool_decide_eq_true)%thread_test_ok. by exists x. Qed.
Lemma lock_allowedb_ok s o : lock_allowedb s o = true -> lock_allowed s o.
Proof.
  destruct o as [t a|t|t a|t st|t|t|t]; cbn; rewrite ?andb_true_iff, ?bool_decide_eq_true; intros H.
  - destruct H as [[H%runsb_ok ?] ?]. done.
  - destruct H as [H%runsb_ok Hu]. split; [done|]. destruct (l_use s !! t) as [[| |]|]; try done. by eexists.
  - destruct H as [[H%runsb_ok ?] ?]. done.
  - destruct H as [? (x & Hx & H%bool_decide_eq_true)%thread_test_ok]. eauto.
  - apply thread_test_ok in H as (x & Hx & _). eauto.
  - by apply thread_test_ok.
  - destruct H as [[H%runsb_ok ?] Hf]. split_and!; try done. intros a Ha. by apply (Hf _ Ha).
Qed.
Fixpoint lock_run (s : lsys) (os : list lop) : option lsys :=
  match os with
  | [] => Some s
  | o :: os => if lock_allowedb s o then match lock_perform s o with Ret s' => lock_run s' os | _ => None end else None
  end.
Lemma lock_run_steps os : forall s0 s s', lock_steps s0 s -> lock_run s os = Some s' -> lock_steps s0 s'.
Proof.
  induction os as [|o os IH]; intros s0 s s' H E; cbn in *; [congruence|]. destruct (lock_allowedb s o) eqn:Ea; [|done]. destruct (lock_perform s o) as [s1| |] eqn:E1; try done.
  apply (IH s0 s1); [|done]. eapply lk_step; [done|by apply lock_allowedb_ok|done].
Qed.

Definition runner : waiter := MkWaiter THREAD_RUNNING 0 false 0 0 false 0 0 0 0 0 false false false.
Definition three_threads : lsys :=
  MkLsys (MkWaits {[1 := runner; 2 := runner; 3 := runner]} {[10 := []; 20 := []]} []) {[10 := MkLock false 0; 20 := MkLock false 0]} {[1 := Idle; 2 := Idle; 3 := Idle]} ∅.
Lemma three_fresh : lock_fresh three_threads.
Proof.
  assert (HT : forall t x, w_threads (l_waits three_threads) !! t = Some x -> x = runner).
  { intros t x. cbn. rewrite !lookup_insert_Some, lookup_singleton_Some. naive_solver. }
  assert (HQ : forall q l, w_queues (l_waits three_threads) !! q = Some l -> l = []).
  { intros q l. cbn. rewrite lookup_insert_Some, lookup_singleton_Some. naive_solver. }
  split; try done.
  - split; try done.
    + intros q l t ->%HQ. set_solver.
    + intros t x ->%HT. cbn. naive_solver.
    + intros q l ->%HQ. constructor.
    + intros t. split; [set_solver|]. intros (x & ->%HT & ?). done.
    + by intros t x ->%HT.
    + constructor.
    + constructor.
  - intros a. destruct (decide (a = 10)) as [->|]; [done|]. destruct (decide (a = 20)) as [->|]; [done|]. cbn. by rewrite !lookup_insert_ne, !lookup_singleton_ne by done.
  - intros t x ->%HT. cbn. set_solver.
  - intros t. destruct (decide (t = 1)) as [->|]; [done|]. destruct (decide (t = 2)) as [->|]; [done|]. destruct (decide (t = 3)) as [->|]; [done|].
    cbn. by rewrite !lookup_insert_ne, !lookup_singleton_ne by done.
Qed.

Lemma three_run os s : lock_run three_threads os = Some s -> lock_reachable s.
Proof. intros H. exists three_threads. split; [apply three_fresh|]. eapply lock_run_steps; [constructor|done]. Qed.

Definition stranding : list lop := [LAcquire 2 20; LAcquire 1 10; LAcquire 1 20; LRequest 1; LTerminate 1; LSwitch 1 THREAD_RUNNING; LResume 1].
Definition stranded : lsys := default three_threads (lock_run three_threads stranding).
Definition later : lsys := default three_threads (lock_run stranded [LRelease 2 20; LAcquire 3 10; LAcquire 2 20; LRelease 2 20]).
Lemma sleeplock_exit_strands_witness :
  lock_reachable stranded /\ (1, 10) ∈ l_held later /\ l_use later !! 3 = Some (Acquiring 10) /\ w_queues (l_waits later) !! 10 = Some [3].
Proof.
  assert (HR : lock_reachable stranded) by (apply (three_run stranding); vm_compute; reflexivity).
  split; [done|]. split; [|split; vm_compute; reflexivity].
  apply (sleeplock_exit_strands stranded 1 10 later); [done|vm_compute; reflexivity|vm_compute; reflexivity|].
  apply (lock_run_steps [LRelease 2 20; LAcquire 3 10; LAcquire 2 20; LRelease 2 20] stranded stranded); [constructor|vm_compute; reflexivity].
Defined.

(** Thread 2 waits for a lock that thread 1 releases. *)
Definition handing_over : list lop := [LAcquire 1 10; LAcquire 2 10; LAcquire 3 10; LRelease 1 10; LSwitch 2 THREAD_RUNNING].
Definition handed_over : lsys := default three_threads (lock_run three_threads handing_over).
Lemma sleeplock_exclusion_witness : lock_reachable handed_over /\ exists s', lock_perform handed_over (LResume 2) = Ret s'.
Proof.
  assert (HR : lock_reachable handed_over) by (apply (three_run handing_over); vm_compute; reflexivity).
  split; [done|]. apply (sleeplock_exclusion handed_over HR). apply lock_allowedb_ok. vm_compute. reflexivity.
Defined.
Lemma sleeplock_no_lost_wakeup_witness : lock_reachable handed_over /\ exists t, on_the_way handed_over t 10.
Proof.
  assert (HR : lock_reachable handed_over) by (apply (three_run handing_over); vm_compute; reflexivity).
  split; [done|]. destruct (sleeplock_no_lost_wakeup handed_over 10 (MkLock false 0) [3] HR) as (t & Ht & _); [vm_compute; reflexivity..|done|]. by exists t.
Defined.
