(* ===== verification/Workqueue.v ===== *)
(** * Deferred work

    kernel/workqueue.c over the wait queues of kernel/wait.c.  What runs under
    [system_workqueue.lock] is one step; [workqueue_thread] and
    [cancel_work_sync] are cut where they sleep.  The list of pending work is the
    sequence of its works, and the queue [completion] of a work has the address of
    the work.  The functions that run are any code: while one runs, the worker may
    make every call a thread may make. *)
From S2P Require Import Prelude Scheduler Wait WaitInv WaitSystem.

Record work := MkWork { work_pending : bool; work_running : bool }.
Record workqueue := MkQueue { q_waits : waits; q_works : gmap Z work; q_pending : list Z; q_current : Z }.

Section Workqueue.
  (** [system_workqueue.worker] and the address of [system_workqueue.wait]. *)
  Context (worker wait : Z).

Definition put_work (Q : workqueue) (w : Z) (x : work) : workqueue := MkQueue (q_waits Q) (<[w := x]> (q_works Q)) (q_pending Q) (q_current Q).
Definition put_waits (Q : workqueue) (W : waits) : workqueue := MkQueue W (q_works Q) (q_pending Q) (q_current Q).

(** Without a function [work_init] panics as well; nothing changes it afterwards, so that of the test of [schedule_work]
    only the null pointer is left. *)
Definition work_init (Q : workqueue) (w : Z) : outcome workqueue :=
  if w =? 0 then Panic "invalid work" else
  Ret (MkQueue (put_queue (q_waits Q) w []) (<[w := MkWork false false]> (q_works Q)) (q_pending Q) (q_current Q)).

Definition schedule_work (Q : workqueue) (w : Z) : outcome (workqueue * Z) :=
  if w =? 0 then Ret (Q, -1) else
  x ← deref (q_works Q !! w);
  if work_pending x then Ret (Q, 0) else
  '(W, _) ← wait_queue_wake_one (q_waits Q) wait;
  Ret (MkQueue W (<[w := MkWork true (work_running x)]> (q_works Q)) (q_pending Q ++ [w]) (q_current Q), 1).

(** The work leaves the list. *)
Definition remove_work (Q : workqueue) (w : Z) (x : work) : workqueue :=
  MkQueue (q_waits Q) (<[w := MkWork false (work_running x)]> (q_works Q)) (unlink w (q_pending Q)) (q_current Q).
Definition cancel_work (Q : workqueue) (w : Z) : outcome (workqueue * Z) :=
  if w =? 0 then Ret (Q, -1) else
  x ← deref (q_works Q !! w);
  if negb (work_pending x) then Ret (Q, 0) else Ret (remove_work Q w x, 1).

(** [wait_queue_sleep] up to [sched]. *)
Definition sleep_on (W : waits) (t queue : Z) : outcome (waits * sleep_end) :=
  entered ← sleep_enter W t WAIT_SIGNAL_NONE;
  match entered with None => Ret (W, SleepTerminated) | Some sequence => sleep_queue W t queue 0 WAIT_SIGNAL_NONE sequence end.

(** A round of the loop of [cancel_work_sync]: it ends because the work does not run, or because the work calls it on
    itself; or the thread waits. *)
Inductive cancel_end := CancelIdle | CancelSelf | CancelWaits (e : sleep_end).
Definition cancel_round (Q : workqueue) (t w cancelled : Z) : outcome (workqueue * Z * cancel_end) :=
  x ← deref (q_works Q !! w);
  let '(Q, cancelled) := if work_pending x then (remove_work Q w x, 1) else (Q, cancelled) in
  if negb (work_running x) then Ret (Q, cancelled, CancelIdle) else
  if (q_current Q =? w) && (t =? worker) then Ret (Q, 1, CancelSelf) else
  '(W, e) ← sleep_on (q_waits Q) t w; Ret (put_waits Q W, 1, CancelWaits e).

Definition cancel_work_sync (Q : workqueue) (t w : Z) : outcome (workqueue * Z * cancel_end) :=
  if w =? 0 then Ret (Q, -1, CancelIdle) else cancel_round Q t w 0.

(** A round of the loop of [workqueue_thread] under the lock: work to run, or how the wait goes. *)
Definition worker_round (Q : workqueue) : outcome (workqueue * (Z + sleep_end)) :=
  match q_pending Q with
  | [] => '(W, e) ← sleep_on (q_waits Q) worker wait; Ret (put_waits Q W, inr e)
  | w :: rest => Ret (MkQueue (q_waits Q) (<[w := MkWork false true]> (q_works Q)) rest w, inl w)
  end.
(** After the function of the work. *)
Definition worker_finish (Q : workqueue) (w : Z) : outcome workqueue :=
  x ← deref (q_works Q !! w);
  '(W, _) ← wait_queue_wake_all (q_waits Q) w;
  Ret (MkQueue W (<[w := MkWork (work_pending x) false]> (q_works Q)) (q_pending Q) 0).

Definition workqueue_in_worker (t : Z) : bool := truth worker && (t =? worker).

(** ** The worker and the threads that use it *)

(** The worker looks for work, sleeps, or runs a work; another thread is outside, waits in [cancel_work_sync], or went
    to [process_thread_exit]. *)
Inductive duty := Looks | Waits | Executes (w : Z) | Elsewhere | Cancels (w cancelled : Z) | Departed.
(** What happened to works, in order. *)
Inductive event := Scheduled (w : Z) | Cancelled (w : Z) | Started (w : Z) | Finished (w : Z) | Synced (w : Z).
Record qsys := MkQsys { y_queue : workqueue; y_duty : gmap Z duty; y_trace : list event }.

Inductive qop :=
| QSchedule (t w : Z) | QCancel (t w : Z) | QSync (t w : Z) | QSyncResume (t : Z) | QLook | QWorkerResume | QFinish
| QSwitch (t : Z) (state : thread_state) | QRequest (t : Z) | QTerminate (t : Z).

Definition y_waits (y : qsys) : waits := q_waits (y_queue y).
Definition was_pending (Q : workqueue) (w : Z) : bool := match q_works Q !! w with Some x => work_pending x | None => false end.
Definition after_cancel (y : qsys) (t w : Z) (r : workqueue * Z * cancel_end) : qsys :=
  let '(Q, cancelled, e) := r in
  MkQsys Q
    (match e with
     | CancelIdle => if t =? worker then y_duty y else <[t := Elsewhere]> (y_duty y)
     | CancelSelf => y_duty y
     | CancelWaits SleepTerminated => <[t := Departed]> (y_duty y)
     | CancelWaits _ => <[t := Cancels w cancelled]> (y_duty y)
     end)
    (y_trace y ++ (if was_pending (y_queue y) w then [Cancelled w] else []) ++ (match e with CancelIdle => [Synced w] | _ => [] end)).
Definition after_look (y : qsys) (r : workqueue * (Z + sleep_end)) : qsys :=
  match r with
  | (Q, inl w) => MkQsys Q (<[worker := Executes w]> (y_duty y)) (y_trace y ++ [Started w])
  | (Q, inr SleepTerminated) => MkQsys Q (<[worker := Departed]> (y_duty y)) (y_trace y)
  | (Q, inr _) => MkQsys Q (<[worker := Waits]> (y_duty y)) (y_trace y)
  end.
Definition with_queue (y : qsys) (Q : workqueue) (l : list event) : qsys := MkQsys Q (y_duty y) (y_trace y ++ l).

Definition work_perform (y : qsys) (o : qop) : outcome qsys :=
  let Q := y_queue y in
  match o with
  | QSchedule t w => '(Q', r) ← schedule_work Q w; Ret (with_queue y Q' (if r =? 1 then [Scheduled w] else []))
  | QCancel t w => '(Q', r) ← cancel_work Q w; Ret (with_queue y Q' (if r =? 1 then [Cancelled w] else []))
  | QSync t w => r ← cancel_work_sync Q t w; Ret (after_cancel y t w r)
  | QSyncResume t =>
      match y_duty y !! t with
      | Some (Cancels w cancelled) =>
          '(W, result) ← sleep_resume (q_waits Q) t;
          match result with
          | None => Ret (MkQsys (put_waits Q W) (<[t := Departed]> (y_duty y)) (y_trace y))
          | Some _ => r ← cancel_round (put_waits Q W) t w cancelled; Ret (after_cancel y t w r)
          end
      | _ => Fault
      end
  | QLook => r ← worker_round Q; Ret (after_look y r)
  | QWorkerResume =>
      '(W, result) ← sleep_resume (q_waits Q) worker;
      match result with
      | None => Ret (MkQsys (put_waits Q W) (<[worker := Departed]> (y_duty y)) (y_trace y))
      | Some _ => r ← worker_round (put_waits Q W); Ret (after_look y r)
      end
  | QFinish =>
      match y_duty y !! worker with
      | Some (Executes w) => Q' ← worker_finish Q w; Ret (MkQsys Q' (<[worker := Looks]> (y_duty y)) (y_trace y ++ [Finished w]))
      | _ => Fault
      end
  | QSwitch t state => x ← get_thread (q_waits Q) t; Ret (with_queue y (put_waits Q (put_thread (q_waits Q) t (set_state x state))) [])
  | QRequest t =>
      x ← get_thread (q_waits Q) t;
      let x := set_signals x (signal_sequence x) (fatal_signal_sequence x) (unblocked_pending x) (fatal_pending x) true in
      Ret (with_queue y (put_waits Q (put_thread (q_waits Q) t x)) [])
  | QTerminate t => '(W, _) ← wait_queue_terminate_thread (q_waits Q) t; Ret (with_queue y (put_waits Q W) [])
  end.

(** A thread that runs and is not inside a call; the worker makes calls while it runs a work. *)
Definition on_cpu (y : qsys) (t : Z) : Prop := exists x, w_threads (y_waits y) !! t = Some x /\ w_state x = THREAD_RUNNING.
Definition may_call (y : qsys) (t : Z) : Prop :=
  on_cpu y t /\ (y_duty y !! t = Some Elsewhere \/ t = worker /\ exists w, y_duty y !! t = Some (Executes w)).
Definition known_work (y : qsys) (w : Z) : Prop := is_Some (q_works (y_queue y) !! w).
(** Nobody asks the worker, a kernel thread, to exit. *)
Definition work_allowed (y : qsys) (o : qop) : Prop :=
  match o with
  | QSchedule t w | QCancel t w | QSync t w => may_call y t /\ known_work y w
  | QSyncResume t => on_cpu y t /\ exists w c, y_duty y !! t = Some (Cancels w c)
  | QLook => on_cpu y worker /\ y_duty y !! worker = Some Looks
  | QWorkerResume => on_cpu y worker /\ y_duty y !! worker = Some Waits
  | QFinish => on_cpu y worker /\ exists w, y_duty y !! worker = Some (Executes w)
  | QSwitch t state => state ∈ [THREAD_RUNNABLE; THREAD_RUNNING] /\ exists x, w_threads (y_waits y) !! t = Some x /\ w_state x ∈ [THREAD_RUNNABLE; THREAD_RUNNING]
  | QRequest t => t <> worker /\ is_Some (w_threads (y_waits y) !! t)
  | QTerminate t => t <> worker /\ exists x, w_threads (y_waits y) !! t = Some x /\ exit_requested x = true
  end.

(** ** The specification: a queue of distinct works, one of which runs at a time *)

Definition spec_step (q : list Z * option Z) (e : event) : option (list Z * option Z) :=
  let '(l, c) := q in
  match e with
  | Scheduled w => if bool_decide (w ∈ l) then None else Some (l ++ [w], c)
  | Cancelled w => if bool_decide (w ∈ l) then Some (unlink w l, c) else None
  | Started w => match l, c with x :: l, None => if x =? w then Some (l, Some w) else None | _, _ => None end
  | Finished w => if bool_decide (c = Some w) then Some (l, None) else None
  | Synced w => if bool_decide (w ∉ l /\ c <> Some w) then Some (l, c) else None
  end.
Definition spec_run (es : list event) : option (list Z * option Z) :=
  foldl (fun q e => q ≫= fun q => spec_step q e) (Some ([], None)) es.
Definition running_work (Q : workqueue) : option Z := if q_current Q =? 0 then None else Some (q_current Q).

Record work_fresh (y : qsys) : Prop := {
  wf_waits : wait_ok (y_waits y);
  wf_queues q l : w_queues (y_waits y) !! q = Some l -> l = [];
  wf_wait : is_Some (w_queues (y_waits y) !! wait);
  wf_works w x : q_works (y_queue y) !! w = Some x -> x = MkWork false false /\ w <> wait /\ is_Some (w_queues (y_waits y) !! w);
  wf_list : q_pending (y_queue y) = [] /\ q_current (y_queue y) = 0 /\ y_trace y = [];
  wf_threads t x : w_threads (y_waits y) !! t = Some x -> w_state x ∈ [THREAD_RUNNABLE; THREAD_RUNNING] /\ exit_requested x = false;
  wf_duty t : y_duty y !! t = (fun _ => if t =? worker then Looks else Elsewhere) <$> w_threads (y_waits y) !! t;
  wf_worker : is_Some (w_threads (y_waits y) !! worker)
}.
Inductive work_reachable : qsys -> Prop :=
| wr_fresh y : work_fresh y -> work_reachable y
| wr_step y o y' : work_reachable y -> work_allowed y o -> work_perform y o = Ret y' -> work_reachable y'.

(** ** The invariant *)

Definition duty_ok (t : Z) (x : waiter) (d : duty) : Prop :=
  w_state x ∈ [THREAD_RUNNABLE; THREAD_RUNNING; THREAD_SLEEPING] /\
  (w_state x = THREAD_SLEEPING -> t = worker /\ d = Waits /\ waiting_on x = wait \/ t <> worker /\ exists c, d = Cancels (waiting_on x) c) /\
  (t = worker -> exit_requested x = false /\ (d = Waits -> wait_result x <> WAIT_QUEUE_TERMINATED) /\ (d = Looks \/ d = Waits \/ exists w, d = Executes w)) /\
  (t <> worker -> d = Elsewhere \/ d = Departed \/ exists w c, d = Cancels w c) /\
  (forall w c, d = Cancels w c -> wait_result x = WAIT_QUEUE_TERMINATED -> exit_requested x = true).

(** The wait queues and the threads. *)
Record threads_ok (W : waits) (D : gmap Z duty) : Prop := {
  to_waits : wait_ok W;
  to_wait : is_Some (w_queues W !! wait);
  to_duties t : is_Some (D !! t) <-> is_Some (w_threads W !! t);
  to_duty t x d : w_threads W !! t = Some x -> D !! t = Some d -> duty_ok t x d;
  to_worker : is_Some (w_threads W !! worker)
}.
(** The works, the list and the work that runs. *)
Record books_ok (Q : workqueue) (D : gmap Z duty) (es : list event) : Prop := {
  bo_queue w x : q_works Q !! w = Some x -> w <> wait /\ w <> 0 /\ is_Some (w_queues (q_waits Q) !! w);
  bo_nodup : NoDup (q_pending Q);
  bo_pending w : w ∈ q_pending Q <-> exists x, q_works Q !! w = Some x /\ work_pending x = true;
  bo_running w x : q_works Q !! w = Some x -> work_running x = true <-> q_current Q = w;
  bo_current : q_current Q <> 0 -> is_Some (q_works Q !! q_current Q);
  bo_exec w : D !! worker = Some (Executes w) <-> q_current Q = w /\ w <> 0;
  bo_target t w c : D !! t = Some (Cancels w c) -> is_Some (q_works Q !! w);
  bo_trace : spec_run es = Some (q_pending Q, running_work Q)
}.
(** Who sleeps has a reason. *)
Record sleep_ok (Q : workqueue) : Prop := {
  sl_worker x : w_threads (q_waits Q) !! worker = Some x -> w_state x = THREAD_SLEEPING -> q_pending Q = [];
  sl_sync w x l : q_works Q !! w = Some x -> w_queues (q_waits Q) !! w = Some l -> l <> [] -> q_current Q = w
}.
Definition work_ok (y : qsys) : Prop :=
  threads_ok (y_waits y) (y_duty y) /\ books_ok (y_queue y) (y_duty y) (y_trace y) /\ sleep_ok (y_queue y).

Lemma work_fresh_ok y : work_fresh y -> work_ok y.
Proof.
  intros [F1 F2 F3 F4 (F5 & F6 & F7) F8 F9 F10]. split_and!; split; try done.
  - intros t. by rewrite F9, fmap_is_Some.
  - intros t x d Hx. rewrite F9, Hx. intros [= <-]. destruct (F8 t x Hx) as [Hs He]. split_and!; [set_solver|intros E; rewrite E in Hs; set_solver|..];
      destruct (Z.eqb_spec t worker); naive_solver.
  - intros w x (-> & Hw & Hq)%F4. split_and!; [done| |done]. intros ->. fold (y_waits y) in Hq. rewrite (wk_zero _ F1) in Hq. by destruct Hq.
  - rewrite F5. constructor.
  - intros w. rewrite F5. split; [set_solver|]. intros (x & (-> & _)%F4 & ?). done.
  - intros w x Hx. pose proof (F4 w x Hx) as (-> & _ & Hq). rewrite F6. split; [done|]. intros <-. rewrite (wk_zero _ F1) in Hq. by destruct Hq.
  - intros w. rewrite F9, F6. destruct (w_threads (y_waits y) !! worker); cbn; rewrite ?Z.eqb_refl; naive_solver.
  - intros t w c. rewrite F9. destruct (w_threads (y_waits y) !! t); cbn; [destruct (t =? worker)|]; naive_solver.
  - unfold running_work. by rewrite F5, F6, F7.
  - intros w x l _ ->%F2. done.
Qed.

(** ** Threads *)

Section Threads.
  Context (W : waits) (D : gmap Z duty) (HT : threads_ok W D).

Lemma duty_of t x : w_threads W !! t = Some x -> exists d, D !! t = Some d /\ duty_ok t x d.
Proof. intros Hx. destruct (proj2 (to_duties _ _ HT t)) as [d Hd]; [by eexists|]. exists d. split; [done|]. by apply (to_duty _ _ HT). Qed.

Lemma threads_woke W' sel r : wait_ok W' -> woke W W' sel r ->
  (r = WAIT_QUEUE_TERMINATED -> forall t x, t ∈ sel -> w_threads W !! t = Some x -> t <> worker /\ exit_requested x = true) -> threads_ok W' D.
Proof.
  intros HW' [H1 H2 H3] Hex. split; [done|..].
  - rewrite H2, fmap_is_Some. apply (to_wait _ _ HT).
  - intros t. rewrite H1. case_decide; [rewrite fmap_is_Some|]; apply HT.
  - intros t x d. rewrite H1. case_decide as Ht; [|apply HT]. intros (z & Hz & ->)%fmap_Some Hd.
    destruct (to_duty _ _ HT t z d Hz Hd) as (U1 & U2 & U3 & U4 & U5). split_and!; [cbn; set_solver|done| |done|].
    + intros Et. destruct (U3 Et) as (V1 & V2 & V3). split_and!; [done| |done]. cbn. intros _ Er. by destruct (Hex Er t z Ht Hz).
    + cbn. intros w c Ed Er. by destruct (Hex Er t z Ht Hz).
  - rewrite H1. case_decide; [rewrite fmap_is_Some|]; apply (to_worker _ _ HT).
Qed.
(** One thread changes, with its duty. *)
Lemma threads_change W' t x y d : w_threads W !! t = Some x -> wait_ok W' -> (forall u, w_threads W' !! u = if decide (u = t) then Some y else w_threads W !! u) ->
  is_Some (w_queues W' !! wait) -> duty_ok t y d -> threads_ok W' (<[t := d]> D).
Proof.
  intros Hx HW' H1 H2 Hy. split; [done|done|..].
  - intros u. rewrite H1. case_decide; [subst; rewrite lookup_insert_eq; split; eauto|]. rewrite lookup_insert_ne by done. apply HT.
  - intros u z e. rewrite H1. case_decide; [subst; rewrite lookup_insert_eq; congruence|]. rewrite lookup_insert_ne by done. apply HT.
  - rewrite H1. case_decide; [eauto|]. apply (to_worker _ _ HT).
Qed.
Lemma threads_duty t x d : w_threads W !! t = Some x -> duty_ok t x d -> threads_ok W (<[t := d]> D).
Proof. intros Hx Hd. apply (threads_change W t x x); try done; [apply HT| |apply (to_wait _ _ HT)]. intros u. by case_decide; subst. Qed.
Lemma put_lookup_thread V t y u : w_threads (put_thread V t y) !! u = if decide (u = t) then Some y else w_threads V !! u.
Proof. cbn. rewrite lookup_insert. case_decide; case_decide; congruence. Qed.
Lemma threads_touch t x y d : w_threads W !! t = Some x -> D !! t = Some d -> same_wait x y -> duty_ok t y d -> threads_ok (put_thread W t y) D.
Proof.
  intros Hx Hd Hs Hy. rewrite <-(insert_id D t d Hd). apply (threads_change _ t x y); try done; [by apply (put_same_ok _ _ x); [apply HT|..]| |apply (to_wait _ _ HT)].
  apply put_lookup_thread.
Qed.

(** Only the worker sleeps on [wait]. *)
Lemma waits_worker l t : (forall w c, D !! t = Some (Cancels w c) -> w <> wait) -> w_queues W !! wait = Some l -> t ∈ l -> t = worker.
Proof.
  intros Hc Hl Ht. destruct (wk_queue _ (to_waits _ _ HT) _ _ _ Hl Ht) as (x & Hx & Hq & _ & Hs). destruct (duty_of t x Hx) as (d & Hd & _ & U2 & _).
  destruct (U2 Hs) as [[? _]|(_ & c & ->)]; [done|]. by destruct (Hc _ _ Hd).
Qed.

Lemma sleep_on_ok t x q l d : w_threads W !! t = Some x -> w_state x = THREAD_RUNNING -> w_queues W !! q = Some l ->
  (forall r, r <> WAIT_QUEUE_TERMINATED -> duty_ok t (set_state (set_wait x q true 0 r false 0) THREAD_SLEEPING) d) ->
  (exit_requested x = true -> duty_ok t x Departed) ->
  exists W' e, sleep_on W t q = Ret (W', e) /\
    threads_ok W' (<[t := match e with SleepTerminated => Departed | _ => d end]> D) /\
    match e with
    | Asleep => (forall b, w_queues W' !! b = if decide (b = q) then Some (l ++ [t]) else w_queues W !! b) /\ forall u, u <> t -> w_threads W' !! u = w_threads W !! u
    | SleepInterrupted => False
    | SleepTerminated => exit_requested x = true /\ W' = W
    end.
Proof.
  intros Hx Hrun Hl Hd Hexit. pose proof (to_waits _ _ HT) as HW. unfold sleep_on, sleep_enter, get_thread. rewrite Hx. cbn [deref mbind outcome_bind].
  destruct (exit_requested x) eqn:Ex; cbn [mbind outcome_bind].
  { exists W, SleepTerminated. split_and!; [done| |done|done]. apply (threads_duty t x); auto. }
  change (if truth WAIT_SIGNAL_NONE then _ else 0) with 0. destruct (sleep_queue_ok W t x q l 0 WAIT_SIGNAL_NONE 0 HW Hx Hrun Hl) as (W' & e & E & HW' & HR).
  exists W', e. split; [done|]. destruct e; cbn in HR; [|naive_solver|naive_solver congruence]. destruct HR as (_ & _ & ts & ->). split; [|split].
  - apply (threads_change _ t x (asleep_thread x q 0 WAIT_SIGNAL_NONE)); try done.
    + intros u. cbn. rewrite lookup_insert. case_decide; case_decide; congruence.
    + cbn. apply lookup_insert_is_Some'. right. apply (to_wait _ _ HT).
    + by apply Hd.
  - intros b. cbn. rewrite lookup_insert. case_decide; case_decide; congruence.
  - intros u Hu. cbn. by rewrite lookup_insert_ne.
Qed.
End Threads.

(** ** Works *)

Lemma spec_run_snoc es e : spec_run (es ++ [e]) = spec_run es ≫= fun q => spec_step q e.
Proof. unfold spec_run. by rewrite foldl_app. Qed.

Section Books.
  Context (Q : workqueue) (D : gmap Z duty) (es : list event) (HB : books_ok Q D es).

Lemma books_waits W' : (forall q, is_Some (w_queues (q_waits Q) !! q) -> is_Some (w_queues W' !! q)) -> books_ok (put_waits Q W') D es.
Proof. intros HW. split; try apply HB. intros w x Hx. destruct (bo_queue _ _ _ HB w x Hx) as (? & ? & ?). auto. Qed.
Lemma books_duty t d : t <> worker -> (forall w c, d = Cancels w c -> is_Some (q_works Q !! w)) -> books_ok Q (<[t := d]> D) es.
Proof.
  intros Ht Hd. split; try apply HB.
  - intros w. rewrite lookup_insert_ne by done. apply HB.
  - intros u w c. rewrite lookup_insert_Some. intros [[_ E]|[_ E]]; [by eapply Hd|by apply (bo_target _ _ _ HB u w c)].
Qed.
Lemma books_worker d : q_current Q = 0 -> d = Looks \/ d = Waits -> books_ok Q (<[worker := d]> D) es.
Proof.
  intros Hc Hd. split; try apply HB.
  - intros w. rewrite lookup_insert_eq. split; [intros E; destruct Hd; congruence|naive_solver].
  - intros u w c. rewrite lookup_insert_Some. intros [[_ E]|[_ E]]; [destruct Hd; congruence|by apply (bo_target _ _ _ HB u w c)].
Qed.

Lemma current_running w x : q_works Q !! w = Some x -> running_work Q = Some w <-> work_running x = true.
Proof.
  intros Hx. rewrite (bo_running _ _ _ HB w x Hx). destruct (bo_queue _ _ _ HB w x Hx) as (_ & Hw & _). unfold running_work.
  destruct (Z.eqb_spec (q_current Q) 0); naive_solver congruence.
Qed.

Lemma books_schedule w x : q_works Q !! w = Some x -> work_pending x = false ->
  books_ok (MkQueue (q_waits Q) (<[w := MkWork true (work_running x)]> (q_works Q)) (q_pending Q ++ [w]) (q_current Q)) D (es ++ [Scheduled w]).
Proof.
  intros Hx Hp. assert (Hw : w ∉ q_pending Q) by (intros (z & Hz & ?)%(bo_pending _ _ _ HB); congruence).
  split; cbn [q_waits q_works q_pending q_current]; try apply HB.
  - intros v z. rewrite lookup_insert_Some. intros [[<- _]|[_ Hz]]; [exact (bo_queue _ _ _ HB w x Hx)|exact (bo_queue _ _ _ HB v z Hz)].
  - apply NoDup_app. split_and!; [apply HB|set_solver|apply NoDup_singleton].
  - intros v. rewrite elem_of_app, list_elem_of_singleton, (bo_pending _ _ _ HB). destruct (decide (v = w)) as [->|Hv].
    + rewrite lookup_insert_eq. split; [eauto|auto].
    + rewrite lookup_insert_ne by done. naive_solver.
  - intros v z. rewrite lookup_insert_Some. intros [[<- <-]|[_ Hz]]; [exact (bo_running _ _ _ HB w x Hx)|exact (bo_running _ _ _ HB v z Hz)].
  - intros Hc%(bo_current _ _ _ HB). apply lookup_insert_is_Some'. auto.
  - intros t v c Hv%(bo_target _ _ _ HB). apply lookup_insert_is_Some'. auto.
  - rewrite spec_run_snoc, (bo_trace _ _ _ HB). cbn. by rewrite bool_decide_false.
Qed.
Lemma books_remove w x : q_works Q !! w = Some x -> work_pending x = true -> books_ok (remove_work Q w x) D (es ++ [Cancelled w]).
Proof.
  intros Hx Hp. assert (Hw : w ∈ q_pending Q) by (apply (bo_pending _ _ _ HB); eauto).
  split; cbn [remove_work q_waits q_works q_pending q_current]; try apply HB.
  - intros v z. rewrite lookup_insert_Some. intros [[<- _]|[_ Hz]]; [exact (bo_queue _ _ _ HB w x Hx)|exact (bo_queue _ _ _ HB v z Hz)].
  - apply NoDup_unlink, HB.
  - intros v. rewrite elem_of_unlink, (bo_pending _ _ _ HB). destruct (decide (v = w)) as [->|Hv].
    + rewrite lookup_insert_eq. naive_solver.
    + rewrite lookup_insert_ne by done. naive_solver.
  - intros v z. rewrite lookup_insert_Some. intros [[<- <-]|[_ Hz]]; [exact (bo_running _ _ _ HB w x Hx)|exact (bo_running _ _ _ HB v z Hz)].
  - intros Hc%(bo_current _ _ _ HB). apply lookup_insert_is_Some'. auto.
  - intros t v c Hv%(bo_target _ _ _ HB). apply lookup_insert_is_Some'. auto.
  - rewrite spec_run_snoc, (bo_trace _ _ _ HB). cbn. by rewrite bool_decide_true.
Qed.
Lemma books_synced w x : q_works Q !! w = Some x -> work_pending x = false -> work_running x = false -> books_ok Q D (es ++ [Synced w]).
Proof.
  intros Hx Hp Hr. split; try apply HB. rewrite spec_run_snoc, (bo_trace _ _ _ HB). cbn. rewrite bool_decide_true; [done|].
  rewrite (bo_pending _ _ _ HB), (current_running w x Hx). split; [intros (? & ? & ?)|]; congruence.
Qed.
Lemma books_start w rest : q_pending Q = w :: rest -> q_current Q = 0 ->
  books_ok (MkQueue (q_waits Q) (<[w := MkWork false true]> (q_works Q)) rest w) (<[worker := Executes w]> D) (es ++ [Started w]).
Proof.
  intros Hl Hc. pose proof (bo_nodup _ _ _ HB) as HN. rewrite Hl in HN. apply NoDup_cons in HN as [Hw HN].
  assert (Hx : exists x, q_works Q !! w = Some x) by (destruct (proj1 (bo_pending _ _ _ HB w)) as (x & ? & _); [rewrite Hl; set_solver|eauto]). destruct Hx as [x Hx].
  destruct (bo_queue _ _ _ HB w x Hx) as (Hww & Hw0 & Hwq). split; cbn [q_waits q_works q_pending q_current]; try done.
  - intros v z. rewrite lookup_insert_Some. intros [[<- _]|[_ Hz]]; [done|exact (bo_queue _ _ _ HB v z Hz)].
  - intros v. pose proof (bo_pending _ _ _ HB v) as Hv. rewrite Hl, elem_of_cons in Hv. destruct (decide (v = w)) as [->|Hne].
    + rewrite lookup_insert_eq. naive_solver.
    + rewrite lookup_insert_ne by done. naive_solver.
  - intros v z. rewrite lookup_insert_Some. intros [[<- <-]|[Hne Hz]]; [done|]. rewrite (bo_running _ _ _ HB v z Hz). split; [|congruence].
    destruct (bo_queue _ _ _ HB v z Hz) as (_ & ? & _). congruence.
  - intros _. rewrite lookup_insert_eq. eauto.
  - intros v. rewrite lookup_insert_eq. naive_solver.
  - intros t v c. rewrite lookup_insert_Some. intros [[_ ?]|[_ Hv%(bo_target _ _ _ HB)]]; [done|]. apply lookup_insert_is_Some'. auto.
  - rewrite spec_run_snoc, (bo_trace _ _ _ HB), Hl. unfold running_work. rewrite Hc, Z.eqb_refl. cbn. by rewrite Z.eqb_refl, (proj2 (Z.eqb_neq w 0)) by done.
Qed.
Lemma books_finish w x : q_works Q !! w = Some x -> q_current Q = w ->
  books_ok (MkQueue (q_waits Q) (<[w := MkWork (work_pending x) false]> (q_works Q)) (q_pending Q) 0) (<[worker := Looks]> D) (es ++ [Finished w]).
Proof.
  intros Hx Hc. destruct (bo_queue _ _ _ HB w x Hx) as (Hww & Hw0 & Hwq). split; cbn [q_waits q_works q_pending q_current]; try apply HB; try done.
  - intros v z. rewrite lookup_insert_Some. intros [[<- _]|[_ Hz]]; [done|exact (bo_queue _ _ _ HB v z Hz)].
  - intros v. rewrite (bo_pending _ _ _ HB v). destruct (decide (v = w)) as [->|Hne].
    + rewrite lookup_insert_eq. naive_solver.
    + by rewrite lookup_insert_ne.
  - intros v z. rewrite lookup_insert_Some. intros [[<- <-]|[Hne Hz]]; [naive_solver|]. rewrite (bo_running _ _ _ HB v z Hz).
    destruct (bo_queue _ _ _ HB v z Hz) as (_ & ? & _). naive_solver congruence.
  - intros v. rewrite lookup_insert_eq. naive_solver.
  - intros t v c. rewrite lookup_insert_Some. intros [[_ ?]|[_ Hv%(bo_target _ _ _ HB)]]; [done|]. apply lookup_insert_is_Some'. auto.
  - rewrite spec_run_snoc, (bo_trace _ _ _ HB). unfold running_work. rewrite Hc, (proj2 (Z.eqb_neq w 0)) by done. cbn. by rewrite bool_decide_true.
Qed.
End Books.

(** ** Steps *)

Lemma sleep_woke Q W' sel r : sleep_ok Q -> woke (q_waits Q) W' sel r -> sleep_ok (put_waits Q W').
Proof.
  intros [S1 S2] [H1 H2 _]. split; cbn.
  - intros x. rewrite H1. case_decide; [intros (z & _ & ->)%fmap_Some; done|apply S1].
  - intros w x l Hx. rewrite H2. intros (m & Hm & ->)%fmap_Some Hl. apply (S2 w x m Hx Hm). by intros ->.
Qed.
Lemma sleep_touch Q t x y : sleep_ok Q -> w_threads (q_waits Q) !! t = Some x -> same_wait x y -> sleep_ok (put_waits Q (put_thread (q_waits Q) t y)).
Proof.
  intros [S1 S2] Hx (_ & _ & _ & _ & E). split; cbn; [|done]. intros z. rewrite lookup_insert_Some. intros [[<- <-]|[_ Hz]]; [|by apply S1]. rewrite E. by apply S1.
Qed.
Lemma woke_keeps W W' sel r q : woke W W' sel r -> is_Some (w_queues W !! q) -> is_Some (w_queues W' !! q).
Proof. intros [_ H2 _] Hq. by rewrite H2, fmap_is_Some. Qed.
Lemma queue_asleep W q l t x : wait_ok W -> w_queues W !! q = Some l -> t ∈ l -> w_threads W !! t = Some x -> w_state x = THREAD_SLEEPING.
Proof. intros HW Hl Ht Hx. destruct (wk_queue _ HW _ _ _ Hl Ht) as (z & Hz & _ & _ & ?). congruence. Qed.

Lemma running_duty t x d : t <> worker -> w_state x = THREAD_RUNNING -> d = Elsewhere \/ d = Departed -> duty_ok t x d.
Proof. intros Ht Hx Hd. split_and!; [rewrite Hx; set_solver|congruence|done|tauto|]. intros w c ->. by destruct Hd. Qed.

Lemma worker_duty x d : exit_requested x = false -> w_state x = THREAD_RUNNING -> d = Looks \/ (exists w, d = Executes w) -> duty_ok worker x d.
Proof.
  intros He Hx Hd. split_and!; [rewrite Hx; set_solver|congruence| |done|].
  - intros _. split_and!; [done|intros ->; destruct Hd as [?|[? ?]]; done|]. destruct Hd as [->|[w ->]]; eauto.
  - intros w c ->. by destruct Hd as [?|[? ?]].
Qed.

Section Steps.
  Context (y : qsys) (HT : threads_ok (y_waits y) (y_duty y)) (HB : books_ok (y_queue y) (y_duty y) (y_trace y)) (HS : sleep_ok (y_queue y)).
  Context (Q := y_queue y) (W := y_waits y).

Lemma same_ok Q' : Q' = Q -> work_ok (with_queue y Q' []).
Proof. intros ->. unfold with_queue. rewrite app_nil_r. by split_and!. Qed.

Lemma schedule_ok w : known_work y w -> exists Q' r, schedule_work Q w = Ret (Q', r) /\ work_ok (with_queue y Q' (if r =? 1 then [Scheduled w] else [])).
Proof.
  intros [x Hx]. destruct (bo_queue _ _ _ HB w x Hx) as (Hww & Hw0 & _). unfold schedule_work. rewrite (proj2 (Z.eqb_neq w 0)) by done.
  fold Q in Hx. rewrite Hx. cbn [deref mbind outcome_bind]. destruct (work_pending x) eqn:Hp; [do 2 eexists; split; [done|]; by apply same_ok|].
  destruct (to_wait _ _ HT) as [l Hl]. destruct (wake_one_ok _ wait l (to_waits _ _ HT) Hl) as (W' & E & HW' & HO). unfold y_waits in E. fold Q in E. rewrite E. cbn [mbind outcome_bind].
  do 2 eexists. split; [done|]. change (1 =? 1) with true. cbn [with_queue]. split_and!.
  - by eapply threads_woke.
  - apply (books_waits _ _ _ (books_schedule _ _ _ HB w x Hx Hp)). cbn. intros q. by eapply woke_keeps.
  - destruct (sleep_woke Q W' _ _ HS HO) as [S1 S2]. split; cbn [y_queue q_waits q_works q_pending q_current with_queue] in *.
    + intros z Hz Hzs. exfalso. rewrite (wo_threads _ _ _ _ HO) in Hz. case_decide as Hd; [by apply fmap_Some in Hz as (? & _ & ->)|].
      destruct (sleeping_queue _ worker z (to_waits _ _ HT) Hz Hzs) as (l' & Hl' & Hin & _).
      destruct (duty_of _ _ HT worker z Hz) as (d & _ & _ & U2 & _). destruct (U2 Hzs) as [(_ & _ & Hq)|[? _]]; [|done]. rewrite Hq in Hl'. fold W in Hl, Hl'. rewrite Hl in Hl'. injection Hl' as <-.
      destruct l as [|h l]; [set_solver|]. apply Hd. cbn. rewrite (waits_worker _ _ HT (h :: l) h); [set_solver| |done|set_solver].
      intros v c Hv ->. destruct (bo_target _ _ _ HB h wait c Hv) as [k Hk]. by destruct (bo_queue _ _ _ HB wait k Hk).
    + intros v z m. rewrite lookup_insert_Some. intros [[<- _]|[_ Hz]]; eauto.
Qed.

Lemma sleep_remove w x : sleep_ok (remove_work Q w x) \/ q_works Q !! w = None.
Proof.
  destruct (q_works Q !! w) as [k|] eqn:Hk; [left|by right]. destruct HS as [S1 S2]. split; cbn.
  - intros z Hz Hzs. fold Q in S1. by rewrite (S1 z Hz Hzs).
  - intros v z m. rewrite lookup_insert_Some. intros [[<- _]|[_ Hz]]; fold Q in S2; eauto.
Qed.
Lemma cancel_ok w : known_work y w -> exists Q' r, cancel_work Q w = Ret (Q', r) /\ work_ok (with_queue y Q' (if r =? 1 then [Cancelled w] else [])).
Proof.
  intros [x Hx]. destruct (bo_queue _ _ _ HB w x Hx) as (Hww & Hw0 & _). unfold cancel_work. rewrite (proj2 (Z.eqb_neq w 0)) by done.
  fold Q in Hx. rewrite Hx. cbn [deref mbind outcome_bind]. destruct (work_pending x) eqn:Hp; cbn [negb]; [|do 2 eexists; split; [done|]; by apply same_ok].
  do 2 eexists. split; [done|]. change (1 =? 1) with true. split_and!; [done|by apply books_remove|]. destruct (sleep_remove w x) as [?|?]; [done|congruence].
Qed.

(** A round of [cancel_work_sync]. *)
Definition may_cancel (t w : Z) : Prop :=
  t = worker \/ t <> worker /\ (y_duty y !! t = Some Elsewhere \/ exists c, y_duty y !! t = Some (Cancels w c)).
Lemma sync_ok t x w c : known_work y w -> w_threads W !! t = Some x -> w_state x = THREAD_RUNNING -> may_cancel t w ->
  exists r, cancel_round Q t w c = Ret r /\ work_ok (after_cancel y t w r).
Proof.
  intros [k Hk] Hx Hrun Ht. fold Q in Hk. unfold cancel_round. rewrite Hk. cbn [deref mbind outcome_bind].
  assert (Ew : was_pending (y_queue y) w = work_pending k) by (unfold was_pending; fold Q; by rewrite Hk).
  set (es := y_trace y ++ if work_pending k then [Cancelled w] else []).
  assert (H1 : exists Q1 c1, (if work_pending k then (remove_work Q w k, 1) else (Q, c)) = (Q1, c1) /\ q_waits Q1 = W /\ q_current Q1 = q_current Q /\
    q_works Q1 !! w = Some (MkWork false (work_running k)) /\ books_ok Q1 (y_duty y) es /\ sleep_ok Q1).
  { unfold es. destruct (work_pending k) eqn:Hp; do 2 eexists; (split; [done|]); cbn.
    - split_and!; [done|done|by rewrite lookup_insert_eq|by apply books_remove|]. destruct (sleep_remove w k) as [?|?]; [done|congruence].
    - split_and!; [done|done|rewrite Hk; destruct k; cbn in *; congruence|by rewrite app_nil_r|done]. }
  destruct H1 as (Q1 & c1 & -> & E1 & E2 & Hk1 & HB1 & HS1). cbn [negb].
  assert (Hes : forall l, y_trace y ++ (if was_pending (y_queue y) w then [Cancelled w] else []) ++ l = es ++ l) by (intros l; unfold es; rewrite Ew; by rewrite app_assoc).
  destruct (work_running k) eqn:Hr; cbn [negb].
  2: { eexists. split; [done|]. cbn [after_cancel]. rewrite Hes.
    assert (HB2 : books_ok Q1 (y_duty y) (es ++ [Synced w])) by by eapply books_synced.
    destruct (Z.eqb_spec t worker) as [->|Hne]; (split_and!; [unfold y_waits; cbn; rewrite E1|..|done]); [done|done| |].
    - apply (threads_duty _ _ HT t x); [done|]. by apply running_duty; auto.
    - by apply books_duty. }
  assert (Hc : q_current Q1 = w). { by apply (bo_running _ _ _ HB1 w _ Hk1). }
  rewrite Hc, Z.eqb_refl. cbn [andb]. destruct (Z.eqb_spec t worker) as [->|Hne].
  { eexists. split; [done|]. cbn [after_cancel]. rewrite Hes, app_nil_r. split_and!; [unfold y_waits; cbn; by rewrite E1|done|done]. }
  destruct (bo_queue _ _ _ HB1 w _ Hk1) as (Hww & Hw0 & [l Hl]). rewrite E1 in Hl |- *.
  destruct (sleep_on_ok W (y_duty y) HT t x w l (Cancels w 1) Hx Hrun Hl) as (W' & e & -> & HT' & HE).
  { intros r Hnr. split_and!; [cbn; set_solver|right; cbn; eauto|done|eauto|done]. }
  { intros _. by apply running_duty; auto. }
  cbn [mbind outcome_bind]. eexists. split; [done|]. cbn [after_cancel]. rewrite Hes, app_nil_r. destruct e; [|done|].
  - destruct HE as [HQ HU]. split_and!; [done| |].
    + apply books_duty; [|done|intros ? ? [= -> _]; cbn; eauto]. apply books_waits; [done|]. intros q Hq. rewrite E1 in Hq. rewrite HQ. case_decide; eauto.
    + destruct HS1 as [S1 S2]. rewrite E1 in S1, S2. split; cbn.
      * rewrite (HU worker) by done. exact S1.
      * intros v z m Hz. rewrite HQ. case_decide; [subst; done|]. by apply (S2 v z).
  - destruct HE as [_ ->]. split_and!; [done| |].
    + apply books_duty; [|done|done]. apply books_waits; [done|]. by rewrite E1.
    + destruct HS1 as [S1 S2]. rewrite E1 in S1, S2. by split.
Qed.

Lemma not_executing : (forall w, y_duty y !! worker <> Some (Executes w)) -> q_current Q = 0.
Proof. intros H. destruct (decide (q_current Q = 0)) as [|Hne]; [done|]. exfalso. apply (H (q_current Q)). by apply (bo_exec _ _ _ HB). Qed.

Lemma look_ok x : w_threads W !! worker = Some x -> w_state x = THREAD_RUNNING -> exit_requested x = false -> (forall w, y_duty y !! worker <> Some (Executes w)) ->
  exists r, worker_round Q = Ret r /\ work_ok (after_look y r).
Proof.
  intros Hx Hrun He Hd. pose proof (not_executing Hd) as Hc. unfold worker_round. destruct (q_pending Q) as [|w rest] eqn:Hp.
  - destruct (to_wait _ _ HT) as [l Hl].
    destruct (sleep_on_ok W (y_duty y) HT worker x wait l Waits Hx Hrun Hl) as (W' & e & E & HT' & HE).
    { intros r Hnr. split_and!; [cbn; set_solver|auto| |done|done]. intros _. split_and!; auto. }
    { congruence. }
    unfold W, y_waits in E. fold Q in E. rewrite E. cbn [mbind outcome_bind]. eexists. split; [done|]. destruct e; [|done|naive_solver congruence]. destruct HE as [HQ HU]. cbn [after_look]. split_and!; [done| |].
    + apply books_worker; [|done|auto]. apply books_waits; [done|]. intros q Hq. rewrite HQ. case_decide; eauto.
    + destruct HS as [S1 S2]. split; cbn; [done|]. intros v z m Hz. rewrite HQ. case_decide; [|by apply (S2 v z)]. subst v.
      by destruct (bo_queue _ _ _ HB wait z Hz).
  - eexists. split; [done|]. cbn [after_look]. split_and!.
    + apply (threads_duty _ _ HT worker x); [done|]. apply worker_duty; eauto.
    + by apply books_start.
    + destruct HS as [S1 S2]. split; cbn; [intros z Hz Hzs; change (w_threads W !! worker = Some z) in Hz; congruence|]. intros v z m Hz Hm Hne. exfalso.
      assert (Hv : exists k, q_works Q !! v = Some k).
      { rewrite lookup_insert_Some in Hz. destruct Hz as [[<- _]|[_ Hz]]; [|by eexists]. destruct (proj1 (bo_pending _ _ _ HB w)) as (k & Hk & _); [fold Q; rewrite Hp; set_solver|].
        by exists k. }
      destruct Hv as [k Hk]. destruct (bo_queue _ _ _ HB v k Hk) as (_ & Hv0 & _). pose proof (S2 v k m Hk Hm Hne) as Hv. fold Q in Hv. congruence.
Qed.

Lemma finish_ok x w : w_threads W !! worker = Some x -> w_state x = THREAD_RUNNING -> y_duty y !! worker = Some (Executes w) ->
  exists Q', worker_finish Q w = Ret Q' /\ work_ok (MkQsys Q' (<[worker := Looks]> (y_duty y)) (y_trace y ++ [Finished w])).
Proof.
  intros Hx Hrun Hd. pose proof Hd as [Hc Hw0]%(bo_exec _ _ _ HB). destruct (bo_current _ _ _ HB) as [k Hk]; [congruence|]. rewrite Hc in Hk.
  destruct (bo_queue _ _ _ HB w k Hk) as (Hww & _ & [l Hl]). destruct (wake_all_ok _ w l (to_waits _ _ HT) Hl) as (W' & E & HW' & HO).
  unfold worker_finish. fold Q in Hk. rewrite Hk. cbn [deref mbind outcome_bind]. unfold y_waits in E. fold Q in E. rewrite E. cbn [mbind outcome_bind]. eexists. split; [done|].
  assert (Hx' : w_threads W' !! worker = Some x).
  { rewrite (wo_threads _ _ _ _ HO), decide_False; [done|]. intros Hin. pose proof (queue_asleep _ w l worker x (to_waits _ _ HT) Hl Hin Hx). congruence. }
  split_and!.
  - apply (threads_duty _ _ (threads_woke _ _ HT W' l 0 HW' HO ltac:(done)) worker x); [done|]. destruct (duty_of _ _ HT worker x Hx) as (d & _ & _ & _ & U3 & _).
    apply worker_duty; [by apply U3|done|auto].
  - apply (books_waits _ _ _ (books_finish _ _ _ HB w k Hk Hc)). cbn. intros q. by eapply woke_keeps.
  - destruct (sleep_woke Q W' _ _ HS HO) as [S1 S2]. split; cbn in *; [congruence|]. intros v z m Hz Hm Hne. exfalso.
    assert (Hv : q_current Q = v) by (destruct (decide (v = w)) as [->|]; [by eapply S2|rewrite lookup_insert_ne in Hz by done; by eapply S2]). fold Q in Hc. rewrite Hc in Hv. subst v.
    rewrite (wo_queues _ _ _ _ HO) in Hm. unfold y_waits in Hm. rewrite Hl in Hm. injection Hm as <-. apply Hne. apply filter_none. naive_solver.
Qed.

Lemma work_touch t x z d : w_threads W !! t = Some x -> y_duty y !! t = Some d -> same_wait x z -> duty_ok t z d ->
  work_ok (MkQsys (put_waits Q (put_thread W t z)) (y_duty y) (y_trace y)).
Proof.
  intros Hx Hd Hs Hz. split_and!; cbn.
  - by eapply threads_touch.
  - by apply books_waits.
  - by eapply sleep_touch.
Qed.
Lemma resume_result t x : w_threads W !! t = Some x -> w_state x = THREAD_RUNNING -> (wait_result x = WAIT_QUEUE_TERMINATED -> exit_requested x = true) ->
  let z := set_wait x (waiting_on x) (on_waitqueue x) (wait_deadline x) (wait_result x) (on_timeout_queue x) 0 in
  sleep_resume W t = Ret (put_thread W t z, if wait_result x =? WAIT_QUEUE_TERMINATED then None else Some (wait_result x)).
Proof.
  intros Hx Hrun He z. destruct (awake_free _ t x (to_waits _ _ HT) Hx ltac:(congruence)) as (E1 & E2 & E3 & _).
  unfold sleep_resume, get_thread. rewrite Hx. cbn [deref mbind outcome_bind]. fold z. rewrite E1, E2, E3. cbn [orb truth Z.eqb negb].
  destruct (Z.eqb_spec (wait_result x) WAIT_QUEUE_TERMINATED) as [Er|Er]; [by rewrite (He Er)|done].
Qed.
End Steps.

Lemma work_perform_ok y o : work_ok y -> work_allowed y o -> exists y', work_perform y o = Ret y' /\ work_ok y'.
Proof.
  intros HY Ha. pose proof HY as (HT & HB & HS). destruct o as [t w|t w|t w|t| | | |t st|t|t]; cbn [work_allowed work_perform] in *.
  - destruct Ha as [_ Hw]. destruct (schedule_ok y HT HB HS w Hw) as (Q' & r & -> & H). cbn [mbind outcome_bind]. eauto.
  - destruct Ha as [_ Hw]. destruct (cancel_ok y HT HB HS w Hw) as (Q' & r & -> & H). cbn [mbind outcome_bind]. eauto.
  - destruct Ha as [[(x & Hx & Hrun) Hd] Hw]. assert (Hm : may_cancel y t w).
    { destruct Hd as [Hd|[-> _]]; [|by left]. right. split; [|auto]. intros ->. destruct (duty_of _ _ HT _ x Hx) as (d & Hd' & _ & _ & U3 & _). naive_solver. }
    destruct (sync_ok y HT HB HS t x w 0 Hw Hx Hrun Hm) as (r & E & H). destruct Hw as [k Hk]. destruct (bo_queue _ _ _ HB w k Hk) as (_ & Hw0 & _).
    unfold cancel_work_sync. rewrite (proj2 (Z.eqb_neq w 0)) by done. rewrite E. cbn [mbind outcome_bind]. eauto.
  - destruct Ha as [(x & Hx & Hrun) (w & c & Hd)]. rewrite Hd. destruct (to_duty _ _ HT t x _ Hx Hd) as (U1 & U2 & U3 & U4 & U5).
    assert (Hne : t <> worker) by (intros E; destruct (U3 E) as (_ & _ & [?|[?|[? ?]]]); done).
    pose proof (resume_result y HT t x Hx Hrun (U5 w c eq_refl)) as E. cbv zeta in E. unfold y_waits in E. rewrite E. cbn [mbind outcome_bind].
    set (z := set_wait _ _ _ _ _ _ _). assert (HZ : duty_ok t z (Cancels w c)) by (split_and!; done).
    destruct (work_touch y HT HB HS t x z _ Hx Hd ltac:(by split_and!) HZ) as (HT1 & HB1 & HS1). destruct (wait_result x =? WAIT_QUEUE_TERMINATED).
    + eexists. split; [done|]. split_and!; [|by apply books_duty|done].
      apply (threads_duty _ _ HT1 t z); [unfold y_waits; cbn; by rewrite lookup_insert_eq|]. apply running_duty; auto.
    + destruct (sync_ok _ HT1 HB1 HS1 t z w c) as (r & E1 & H); [exact (bo_target _ _ _ HB t w c Hd)|unfold y_waits; cbn; by rewrite lookup_insert_eq|done|right; eauto|].
      unfold y_waits in E1. cbn [y_queue] in E1. rewrite E1. cbn [mbind outcome_bind]. eexists. split; [done|exact H].
  - destruct Ha as [(x & Hx & Hrun) Hd]. destruct (to_duty _ _ HT _ x _ Hx Hd) as (_ & _ & U3 & _).
    destruct (look_ok y HT HB HS x Hx Hrun) as (r & -> & H); [by apply U3|congruence|]. cbn [mbind outcome_bind]. eauto.
  - destruct Ha as [(x & Hx & Hrun) Hd]. destruct (to_duty _ _ HT _ x _ Hx Hd) as (U1 & U2 & U3 & U4 & U5). destruct (U3 eq_refl) as (V1 & V2 & V3).
    assert (Hnt : wait_result x <> WAIT_QUEUE_TERMINATED) by auto.
    pose proof (resume_result y HT worker x Hx Hrun ltac:(done)) as E. cbv zeta in E. unfold y_waits in E. rewrite E. cbn [mbind outcome_bind].
    rewrite (proj2 (Z.eqb_neq _ _) Hnt). set (z := set_wait _ _ _ _ _ _ _). assert (HZ : duty_ok worker z Waits) by (split_and!; done).
    destruct (work_touch y HT HB HS worker x z _ Hx Hd ltac:(by split_and!) HZ) as (HT1 & HB1 & HS1).
    destruct (look_ok _ HT1 HB1 HS1 z) as (r & E1 & H); [unfold y_waits; cbn; by rewrite lookup_insert_eq|done|done|cbn; congruence|].
    unfold y_waits in E1. cbn [y_queue] in E1. rewrite E1. cbn [mbind outcome_bind]. eexists. split; [done|]. by destruct r as [Q' [w|[]]].
  - destruct Ha as [(x & Hx & Hrun) (w & Hd)]. rewrite Hd. destruct (finish_ok y HT HB HS x w Hx Hrun Hd) as (Q' & -> & H). cbn [mbind outcome_bind]. eauto.
  - destruct Ha as (Hst & x & Hx & Hs). unfold get_thread, y_waits in *. rewrite Hx. cbn [deref mbind outcome_bind]. eexists. split; [done|]. unfold with_queue. rewrite app_nil_r.
    destruct (duty_of _ _ HT t x Hx) as (d & Hd & U1 & U2 & U). assert (Hn : w_state x <> THREAD_SLEEPING /\ st <> THREAD_SLEEPING) by (split; intros E; [rewrite E in Hs|rewrite E in Hst]; set_solver).
    apply (work_touch y HT HB HS t x _ d Hx Hd); split_and!; try done; try apply U; cbn; [tauto|set_solver|tauto].
  - destruct Ha as (Hne & x & Hx). unfold get_thread, y_waits in *. rewrite Hx. cbn [deref mbind outcome_bind]. eexists. split; [done|]. unfold with_queue. rewrite app_nil_r.
    destruct (duty_of _ _ HT t x Hx) as (d & Hd & U1 & U2 & U3 & U4 & U5). apply (work_touch y HT HB HS t x _ d Hx Hd); by split_and!.
  - destruct Ha as (Hne & x & Hx & He). destruct (terminate_thread_ok _ t x (to_waits _ _ HT) Hx) as (W' & n & E & HW' & HO). unfold y_waits in E. rewrite E. cbn [mbind outcome_bind].
    eexists. split; [done|]. unfold one_woken in HO. case_bool_decide; [|destruct HO as [_ ->]; destruct y as [[] ? ?]; by apply same_ok]. destruct HO as [_ HO].
    unfold with_queue. rewrite app_nil_r. split_and!; cbn.
    + eapply (threads_woke _ _ HT W' [t]); [done|exact HO|]. intros _ u z ->%list_elem_of_singleton Hz. split; congruence.
    + apply books_waits; [done|]. intros q. by eapply woke_keeps.
    + by eapply sleep_woke.
Qed.
Lemma work_reachable_ok y : work_reachable y -> work_ok y.
Proof.
  induction 1 as [y F|y o y' _ IH Ha E]; [by apply work_fresh_ok|]. destruct (work_perform_ok y o IH Ha) as (y1 & E1 & H). congruence.
Qed.

(** ** The theorems *)

(** C19: the system work queue implements a queue of distinct works that run one at a time, in the order in which they were
    scheduled: a call of [schedule_work] that returns 1 leads to one run or one cancellation, and when
    [cancel_work_sync] returns to another thread the work is neither queued nor running.  No call panics or faults. *)
Theorem workqueue_refines y : work_reachable y ->
  spec_run (y_trace y) = Some (q_pending (y_queue y), running_work (y_queue y)) /\
  (forall o, work_allowed y o -> exists y', work_perform y o = Ret y').
Proof.
  intros HY%work_reachable_ok. split; [apply HY|]. intros o Ha. destruct (work_perform_ok y o HY Ha) as (y' & E & _). eauto.
Qed.

(** Nobody sleeps without a reason: while works are queued the worker does not sleep, and a thread that sleeps in
    [cancel_work_sync] waits for a work that runs, at whose end it is woken. *)
Theorem workqueue_wakes y : work_reachable y ->
  (forall x, w_threads (y_waits y) !! worker = Some x -> q_pending (y_queue y) <> [] -> w_state x <> THREAD_SLEEPING) /\
  (forall t x w c, w_threads (y_waits y) !! t = Some x -> w_state x = THREAD_SLEEPING -> y_duty y !! t = Some (Cancels w c) ->
     y_duty y !! worker = Some (Executes w) /\
     forall y', work_perform y QFinish = Ret y' -> exists x', w_threads (y_waits y') !! t = Some x' /\ w_state x' = THREAD_RUNNABLE).
Proof.
  intros (HT & HB & HS)%work_reachable_ok. split.
  - intros x Hx Hp Hs. by apply Hp, (sl_worker _ HS x).
  - intros t x w c Hx Hs Hd. destruct (to_duty _ _ HT t x _ Hx Hd) as (_ & U2 & _). destruct (U2 Hs) as [(_ & ? & _)|(Hne & c' & [= Hw _])]; [done|].
    destruct (sleeping_queue _ t x (to_waits _ _ HT) Hx Hs) as (l & Hl & Ht & _). rewrite <-Hw in Hl. destruct (bo_target _ _ _ HB t w c Hd) as [k Hk].
    assert (Hc : q_current (y_queue y) = w) by (eapply (sl_sync _ HS); [exact Hk|exact Hl|intros ->; set_solver]).
    assert (He : y_duty y !! worker = Some (Executes w)) by (apply (bo_exec _ _ _ HB); split; [done|]; by destruct (bo_queue _ _ _ HB w k Hk) as (_ & ? & _)).
    split; [done|]. intros y'. cbn [work_perform]. rewrite He. destruct (wake_all_ok _ w l (to_waits _ _ HT) Hl) as (W' & E & _ & HO).
    unfold worker_finish. rewrite Hk. cbn [deref mbind outcome_bind]. unfold y_waits in E. rewrite E. cbn [mbind outcome_bind]. intros [= <-].
    exists (woken_thread x 0). split; [|done]. unfold y_waits. cbn. by rewrite (wo_threads _ _ _ _ HO), decide_True, Hx.
Qed.

(** ** Concrete runs *)

#[local] Instance duty_eq_dec : EqDecision duty.
Proof. solve_decision. Defined.
Definition test_thread (y : qsys) (t : Z) (test : waiter -> bool) : bool := match w_threads (y_waits y) !! t with Some x => test x | None => false end.
Definition on_cpub (y : qsys) (t : Z) : bool := test_thread y t (fun x => bool_decide (w_state x = THREAD_RUNNING)).
Definition executes (d : option duty) : bool := match d with Some (Executes _) => true | _ => false end.
Definition work_allowedb (y : qsys) (o : qop) : bool :=
  match o with
  | QSchedule t w | QCancel t w | QSync t w =>
      on_cpub y t && (bool_decide (y_duty y !! t = Some Elsewhere) || bool_decide (t = worker) && executes (y_duty y !! t)) && bool_decide (is_Some (q_works (y_queue y) !! w))
  | QSyncResume t => on_cpub y t && match y_duty y !! t with Some (Cancels _ _) => true | _ => false end
  | QLook => on_cpub y worker && bool_decide (y_duty y !! worker = Some Looks)
  | QWorkerResume => on_cpub y worker && bool_decide (y_duty y !! worker = Some Waits)
  | QFinish => on_cpub y worker && executes (y_duty y !! worker)
  | QSwitch t st => bool_decide (st ∈ [THREAD_RUNNABLE; THREAD_RUNNING]) && test_thread y t (fun x => bool_decide (w_state x ∈ [THREAD_RUNNABLE; THREAD_RUNNING]))
  | QRequest t => bool_decide (t <> worker) && test_thread y t (fun _ => true)
  | QTerminate t => bool_decide (t <> worker) && test_thread y t exit_requested
  end.
Lemma test_thread_ok y t test : test_thread y t test = true -> exists x, w_threads (y_waits y) !! t = Some x /\ test x = true.
Proof. unfold test_thread. destruct (w_threads (y_waits y) !! t); [eauto|done]. Qed.
Lemma on_cpub_ok y t : on_cpub y t = true -> on_cpu y t.
Proof. intros (x & Hx & H%bool_decide_eq_true)%test_thread_ok. by exists x. Qed.
Lemma executes_ok d : executes d = true -> exists w, d = Some (Executes w).
Proof. destruct d as [[]|]; try done. eauto. Qed.
Lemma work_allowedb_ok y o : work_allowedb y o = true -> work_allowed y o.
Proof.
  destruct o as [t w|t w|t w|t| | | |t st|t|t]; cbn; rewrite ?andb_true_iff, ?orb_true_iff, ?andb_true_iff, ?bool_decide_eq_true.
  1-3: intros [[H1%on_cpub_ok H2] H3]; split; [split; [done|]|done]; destruct H2 as [?|[? ?%executes_ok]]; auto.
  - intros [H1%on_cpub_ok H2]. split; [done|]. destruct (y_duty y !! t) as [[]|]; try done. eauto.
  - intros [H1%on_cpub_ok H2]. done.
  - intros [H1%on_cpub_ok H2]. done.
  - intros [H1%on_cpub_ok H2%executes_ok]. done.
  - intros [H1 (x & Hx & H2%bool_decide_eq_true)%test_thread_ok]. eauto.
  - intros [H1 (x & Hx & _)%test_thread_ok]. eauto.
  - intros [H1 H2%test_thread_ok]. done.
Qed.
Fixpoint work_run (y : qsys) (os : list qop) : option qsys :=
  match os with
  | [] => Some y
  | o :: os => if work_allowedb y o then match work_perform y o with Ret y' => work_run y' os | _ => None end else None
  end.
Lemma work_run_reachable os : forall y y', work_reachable y -> work_run y os = Some y' -> work_reachable y'.
Proof.
  induction os as [|o os IH]; intros y y' H E; cbn in *; [congruence|]. destruct (work_allowedb y o) eqn:Ea; [|done]. destruct (work_perform y o) as [y1| |] eqn:E1; try done.
  apply (IH y1); [|done]. eapply wr_step; [done|by apply work_allowedb_ok|done].
Qed.
End Workqueue.

(** The worker is thread 1, thread 2 uses works 200 and 300. *)
Definition ready : waiter := MkWaiter THREAD_RUNNING 0 false 0 0 false 0 0 0 0 0 false false false.
Definition two_works : qsys :=
  MkQsys (MkQueue (MkWaits {[1 := ready; 2 := ready]} {[100 := []; 200 := []; 300 := []]} []) {[200 := MkWork false false; 300 := MkWork false false]} [] 0)
    {[1 := Looks; 2 := Elsewhere]} [].
Lemma two_works_fresh : work_fresh 1 100 two_works.
Proof.
  assert (HT : forall t x, w_threads (y_waits two_works) !! t = Some x -> x = ready).
  { intros t x. cbn. rewrite !lookup_insert_Some, lookup_singleton_Some. naive_solver. }
  assert (HQ : forall q l, w_queues (y_waits two_works) !! q = Some l -> l = []).
  { intros q l. cbn. rewrite !lookup_insert_Some, lookup_singleton_Some. naive_solver. }
  split; try done.
  - split; try done.
    + intros q l t ->%HQ. set_solver.
    + intros t x ->%HT. cbn. naive_solver.
    + intros q l ->%HQ. constructor.
    + intros t. split; [set_solver|]. intros (x & ->%HT & ?). done.
    + by intros t x ->%HT.
    + constructor.
    + constructor.
  - intros w x. cbn. rewrite lookup_insert_Some, lookup_singleton_Some. intros [[<- <-]|[_ [<- <-]]]; done.
  - intros t x ->%HT. cbn. split; [set_solver|done].
  - intros t. destruct (decide (t = 1)) as [->|]; [done|]. destruct (decide (t = 2)) as [->|]; [done|]. cbn. by rewrite !lookup_insert_ne, !lookup_singleton_ne by done.
Qed.

(** The worker sleeps, is woken for work 200, and thread 2 waits for the end of that run while work 300 is queued. *)
Definition syncing : list qop := [QLook; QSchedule 2 200; QSwitch 1 THREAD_RUNNING; QWorkerResume; QSchedule 2 300; QSync 2 200].
Definition synced : qsys := default two_works (work_run 1 100 two_works syncing).
Lemma synced_reachable : work_reachable 1 100 synced.
Proof. apply (work_run_reachable 1 100 syncing two_works); [apply wr_fresh, two_works_fresh|vm_compute; reflexivity]. Qed.
Lemma workqueue_refines_witness : spec_run (y_trace synced) = Some ([300], Some 200) /\ y_trace synced = [Scheduled 200; Started 200; Scheduled 300].
Proof. split; [apply (workqueue_refines 1 100 synced synced_reachable)|vm_compute; reflexivity]. Defined.
Lemma workqueue_wakes_witness : work_reachable 1 100 synced /\ y_duty synced !! 1 = Some (Executes 200).
Proof.
  split; [apply synced_reachable|].
  refine (proj1 (proj2 (workqueue_wakes 1 100 synced synced_reachable) 2 (set_state (set_wait ready 200 true 0 0 false 0) THREAD_SLEEPING) 200 1 _ _ _)); vm_compute; reflexivity.
Defined.
