(* ===== verification/Elf.v ===== *)
(** * ELF images

    kernel/elf.c: which program headers make an acceptable image, and where its
    parts are once it is loaded.  The layout is built in place, so an operation
    that fails returns the layout as it left it, with [false] for -1. *)
From S2P Require Import Prelude.

Definition ELF_MAGIC : Z := 0x464c457f.
Definition ELF_CLASS_64 : Z := 2.
Definition ELF_DATA_LSB : Z := 1.
Definition ELF_VERSION_CURRENT : Z := 1.
Definition ELF_TYPE_EXEC : Z := 2.
Definition ELF_TYPE_DYN : Z := 3.
Definition ELF_MACHINE_RISCV : Z := 243.
Definition ELF_PHDR_TABLE_MAX : Z := 65536.
Definition ELF_PROG_LOAD : Z := 1.
Definition ELF_PROG_DYNAMIC : Z := 2.
Definition ELF_PROG_INTERP : Z := 3.
Definition ELF_PROG_PHDR : Z := 6.
Definition ELF_PROG_TLS : Z := 7.
Definition ELF_PROG_GNU_STACK : Z := 0x6474e551.
Definition ELF_PROG_GNU_RELRO : Z := 0x6474e552.
Definition ELF_PROG_FLAG_EXEC : Z := 1.
Definition ELF_PROG_FLAG_WRITE : Z := 2.
Definition ELF_PROG_FLAG_MASK : Z := 7.

(** The fields elf.c uses; [e_ident] are the first three bytes of [elf]. *)
Record elfhdr := MkElf {
  e_magic : Z; e_ident : Z * Z * Z; e_type : Z; e_machine : Z; e_version : Z; e_entry : Z; e_phoff : Z; e_ehsize : Z; e_phentsize : Z; e_phnum : Z
}.
Definition sizeof_elfhdr : Z := 64.
Record proghdr := MkProg { p_type : Z; p_flags : Z; p_off : Z; p_vaddr : Z; p_filesz : Z; p_memsz : Z; p_align : Z }.
Definition sizeof_proghdr : Z := 56.

Record elf_image_layout := MkLayout {
  map_start : Z; map_end : Z; load_end : Z; phdr : Z; explicit_phdr : Z; interp_offset : Z; interp_size : Z; entry : Z; phdr_size : Z; load_align : Z;
  l_type : Z; l_phnum : Z; load_count : Z; has_phdr : bool; has_explicit_phdr : bool; has_interp : bool; entry_in_executable : bool; stack_executable : bool
}.
Record elf_runtime_layout := MkRuntime { load_bias : Z; r_map_start : Z; r_map_end : Z; r_phdr : Z; r_entry : Z }.

(** ** The checks *)

Definition add_overflow (left right : Z) : bool * Z := let sum := left +64 right in (sum <? left, sum).
Definition power_of_two (value : Z) : bool := truth value && negb (truth (Z.land value (value -64 1))).
Definition program_alignment_valid (p : proghdr) : bool :=
  if p_align p <=? 1 then true else
  if negb (power_of_two (p_align p)) then false else
  Z.land (p_vaddr p) (p_align p -64 1) =? Z.land (p_off p) (p_align p -64 1).
Definition program_region_valid (p : proghdr) : bool :=
  if (p_memsz p <? p_filesz p) || (add_overflow (p_off p) (p_filesz p)).1 || (add_overflow (p_vaddr p) (p_memsz p)).1 then false
  else program_alignment_valid p.

(** ** Building the layout *)

Definition header_refused (h : elfhdr) : bool :=
  negb (e_magic h =? ELF_MAGIC) || negb ((e_ident h).1.1 =? ELF_CLASS_64) || negb ((e_ident h).1.2 =? ELF_DATA_LSB) || negb ((e_ident h).2 =? ELF_VERSION_CURRENT) ||
  (negb (e_type h =? ELF_TYPE_EXEC) && negb (e_type h =? ELF_TYPE_DYN)) || negb (e_machine h =? ELF_MACHINE_RISCV) || negb (e_version h =? ELF_VERSION_CURRENT) ||
  negb (e_ehsize h =? sizeof_elfhdr) || negb (e_phentsize h =? sizeof_proghdr) || negb (truth (e_phnum h)) || (e_phoff h <? sizeof_elfhdr).
Definition elf_image_layout_init (h : elfhdr) : option elf_image_layout :=
  if header_refused h then None else
  let table_size := e_phnum h *64 sizeof_proghdr in
  if (ELF_PHDR_TABLE_MAX <? table_size) || (add_overflow (e_phoff h) table_size).1 then None else
  Some (MkLayout 0 0 0 0 0 0 0 (e_entry h) table_size PGSIZE (e_type h) (e_phnum h) 0 false false false false false).

(** A loaded segment recorded: its pages, its end and whether the entry is in it. *)
Definition load_segment (L : elf_image_layout) (h : elfhdr) (p : proghdr) (segment_end : Z) : elf_image_layout :=
  let start := PGROUNDDOWN (p_vaddr p) in
  let stop := PGROUNDUP segment_end in
  MkLayout (if negb (truth (load_count L)) || (start <? map_start L) then start else map_start L) (if map_end L <? stop then stop else map_end L) segment_end
    (phdr L) (explicit_phdr L) (interp_offset L) (interp_size L) (entry L) (phdr_size L) (load_align L) (l_type L) (l_phnum L) ((load_count L + 1) mod 2 ^ 16)
    (has_phdr L) (has_explicit_phdr L) (has_interp L)
    (entry_in_executable L || (truth (Z.land (p_flags p) ELF_PROG_FLAG_EXEC) && (p_vaddr p <=? e_entry h) && (e_entry h <? segment_end))) (stack_executable L).
Definition set_align (L : elf_image_layout) (align : Z) : elf_image_layout :=
  MkLayout (map_start L) (map_end L) (load_end L) (phdr L) (explicit_phdr L) (interp_offset L) (interp_size L) (entry L) (phdr_size L) align (l_type L) (l_phnum L)
    (load_count L) (has_phdr L) (has_explicit_phdr L) (has_interp L) (entry_in_executable L) (stack_executable L).
Definition set_phdr (L : elf_image_layout) (address : Z) : elf_image_layout :=
  MkLayout (map_start L) (map_end L) (load_end L) address (explicit_phdr L) (interp_offset L) (interp_size L) (entry L) (phdr_size L) (load_align L) (l_type L) (l_phnum L)
    (load_count L) true (has_explicit_phdr L) (has_interp L) (entry_in_executable L) (stack_executable L).

Definition elf_load_layout_add (L : elf_image_layout) (h : elfhdr) (p : proghdr) : elf_image_layout * bool :=
  let '(overflow, segment_end) := add_overflow (p_vaddr p) (p_memsz p) in
  if negb (program_region_valid p) || truth (Z.land (p_flags p) (Z.lnot ELF_PROG_FLAG_MASK)) ||
     (truth (Z.land (p_flags p) ELF_PROG_FLAG_WRITE) && truth (Z.land (p_flags p) ELF_PROG_FLAG_EXEC)) ||
     negb (Z.land (p_vaddr p) (PGSIZE - 1) =? Z.land (p_off p) (PGSIZE - 1)) || overflow || (truth (load_count L) && (p_vaddr p <? load_end L))
  then (L, false) else
  let L := if load_align L <? p_align p then set_align L (p_align p) else L in
  if negb (truth (p_memsz p)) then (L, true) else
  if UINT64_MAX - (PGSIZE - 1) <? segment_end then (L, false) else
  let L := load_segment L h p segment_end in
  let table_end := e_phoff h +64 phdr_size L in
  let file_end := p_off p +64 p_filesz p in
  if (e_phoff h <? p_off p) || (file_end <? table_end) then (L, true) else
  let candidate := p_vaddr p +64 (e_phoff h -64 p_off p) in
  if has_phdr L && negb (phdr L =? candidate) then (L, false) else (set_phdr L candidate, true).

Definition set_interp (L : elf_image_layout) (offset size : Z) : elf_image_layout :=
  MkLayout (map_start L) (map_end L) (load_end L) (phdr L) (explicit_phdr L) offset size (entry L) (phdr_size L) (load_align L) (l_type L) (l_phnum L)
    (load_count L) (has_phdr L) (has_explicit_phdr L) true (entry_in_executable L) (stack_executable L).
Definition set_explicit (L : elf_image_layout) (address : Z) : elf_image_layout :=
  MkLayout (map_start L) (map_end L) (load_end L) (phdr L) address (interp_offset L) (interp_size L) (entry L) (phdr_size L) (load_align L) (l_type L) (l_phnum L)
    (load_count L) (has_phdr L) true (has_interp L) (entry_in_executable L) (stack_executable L).
Definition set_stack (L : elf_image_layout) : elf_image_layout :=
  MkLayout (map_start L) (map_end L) (load_end L) (phdr L) (explicit_phdr L) (interp_offset L) (interp_size L) (entry L) (phdr_size L) (load_align L) (l_type L) (l_phnum L)
    (load_count L) (has_phdr L) (has_explicit_phdr L) (has_interp L) (entry_in_executable L) true.

Definition elf_image_layout_add (L : elf_image_layout) (h : elfhdr) (p : proghdr) : elf_image_layout * bool :=
  if negb (l_type L =? e_type h) || negb (l_phnum L =? e_phnum h) || negb (entry L =? e_entry h) then (L, false) else
  if p_type p =? ELF_PROG_LOAD then elf_load_layout_add L h p else
  if p_type p =? ELF_PROG_INTERP then
    if has_interp L || negb (program_region_valid p) || (p_filesz p <? 2) then (L, false) else (set_interp L (p_off p) (p_filesz p), true)
  else if p_type p =? ELF_PROG_PHDR then
    if has_explicit_phdr L || negb (program_region_valid p) || negb (p_off p =? e_phoff h) || (p_filesz p <? phdr_size L) || (p_memsz p <? phdr_size L)
    then (L, false) else (set_explicit L (p_vaddr p), true)
  else if (p_type p =? ELF_PROG_DYNAMIC) || (p_type p =? ELF_PROG_TLS) || (p_type p =? ELF_PROG_GNU_RELRO) then (L, program_region_valid p)
  else if p_type p =? ELF_PROG_GNU_STACK then
    if truth (Z.land (p_flags p) (Z.lnot ELF_PROG_FLAG_MASK)) || negb (program_alignment_valid p) || truth (p_filesz p) then (L, false)
    else (if truth (Z.land (p_flags p) ELF_PROG_FLAG_EXEC) then set_stack L else L, true)
  else (L, negb (add_overflow (p_off p) (p_filesz p)).1).

Definition elf_image_layout_finish (L : elf_image_layout) : bool :=
  negb (negb (truth (load_count L)) || (map_end L <=? map_start L) || negb (has_phdr L) || negb (entry_in_executable L)) &&
  negb (has_explicit_phdr L && negb (explicit_phdr L =? phdr L)).

(** ** Loading *)

Definition elf_relocate_address (bias address : Z) : option Z :=
  let '(overflow, relocated) := add_overflow bias address in if overflow then None else Some relocated.
Definition elf_runtime_layout_of (L : elf_image_layout) (mapping_start address_limit : Z) : option elf_runtime_layout :=
  if truth (mapping_start mod PGSIZE) || negb (power_of_two (load_align L)) || (mapping_start <? map_start L) || ((l_type L =? ELF_TYPE_EXEC) && negb (mapping_start =? map_start L))
  then None else
  let bias := mapping_start -64 map_start L in
  if truth (Z.land bias (load_align L -64 1)) then None else
  stop ← elf_relocate_address bias (map_end L);
  if address_limit <? stop then None else
  table ← elf_relocate_address bias (phdr L);
  if address_limit <=? table then None else
  start ← elf_relocate_address bias (entry L);
  if address_limit <=? start then None else
  Some (MkRuntime bias mapping_start stop table start).

(** The loop over the bytes between the first and the last. *)
Fixpoint no_zero (path : list Z) (n i : nat) : outcome bool :=
  match n with O => Ret true | S n => c ← rd path i; if negb (truth c) then Ret false else no_zero path n (S i) end.
(** [path] is the memory behind the pointer, at least [size] bytes. *)
Definition elf_interpreter_path_valid (path : list Z) (size capacity : Z) : outcome bool :=
  if (size <? 2) || (capacity <? size) then Ret false else
  first ← rd path 0;
  if negb (first =? 47) then Ret false else
  last ← rd path (Z.to_nat (size - 1));
  if truth last then Ret false else
  no_zero path (Z.to_nat (size - 2)) 1%nat.
