(* ===== verification/ElfCorrect.v ===== *)
(** * ELF images: what an accepted image looks like

    The segments of an accepted image are ordered and disjoint, none is both
    writable and executable, and the program headers and the entry lie inside
    them; loading moves them by a multiple of every alignment. *)
From S2P Require Import Prelude Elf.

(** [elf_image_open] behind the reads: the loop over the program headers. *)
Fixpoint layout_adds (L : elf_image_layout) (h : elfhdr) (ps : list proghdr) : option elf_image_layout :=
  match ps with
  | [] => Some L
  | p :: ps => let '(L, ok) := elf_image_layout_add L h p in if ok : bool then layout_adds L h ps else None
  end.
Definition image_layout (h : elfhdr) (ps : list proghdr) : option elf_image_layout :=
  L ← elf_image_layout_init h; L ← layout_adds L h ps; if elf_image_layout_finish L then Some L else None.

(** Fields of their widths. *)
Definition prog_ok (p : proghdr) : Prop := is_u64 (p_off p) /\ is_u64 (p_vaddr p) /\ is_u64 (p_filesz p) /\ is_u64 (p_memsz p) /\ is_u64 (p_align p) /\ is_u32 (p_flags p).
Definition header_ok (h : elfhdr) : Prop := is_u64 (e_entry h) /\ is_u64 (e_phoff h) /\ 0 <= e_phnum h < 2 ^ 16.

Definition loaded (p : proghdr) : Prop := p_type p = ELF_PROG_LOAD /\ p_memsz p <> 0.
#[export] Instance loaded_dec p : Decision (loaded p).
Proof. unfold loaded. apply _. Defined.
Definition segments (ps : list proghdr) : list proghdr := filter loaded ps.
Definition segment_end (p : proghdr) : Z := p_vaddr p + p_memsz p.
Definition has_flag (p : proghdr) (flag : Z) : Prop := Z.land (p_flags p) flag <> 0.

(** ** The checks *)

Lemma add_overflow_spec a b : is_u64 a -> is_u64 b -> add_overflow a b = (bool_decide (2 ^ 64 <= a + b), a +64 b).
Proof.
  unfold is_u64. intros Ha Hb. unfold add_overflow. f_equal. case_bool_decide as H.
  - apply Z.ltb_lt. unfold wrap64. rewrite <-(Z.mod_add _ (-1)) by lia. rewrite Z.mod_small; lia.
  - apply Z.ltb_ge. rewrite wrap64_id by (unfold is_u64; lia). lia.
Qed.

Lemma power_of_two_spec v : is_u64 v -> power_of_two v = true <-> exists k, 0 <= k /\ v = 2 ^ k.
Proof.
  unfold is_u64, power_of_two, truth. intros Hv. destruct (Z.eqb_spec v 0) as [->|H0]; cbn [negb andb].
  - split; [done|]. intros (k & Hk & E). pose proof (Z.pow_pos_nonneg 2 k). lia.
  - rewrite wrap64_id by (unfold is_u64; lia). rewrite negb_involutive, Z.eqb_eq. split; [apply pow2_of_land; lia|].
    intros (k & Hk & ->). rewrite land_pow2_pred_mod by done. apply Z_mod_same_full.
Qed.

(** A segment starts at an address that is congruent to its offset modulo its alignment. *)
Definition aligned_segment (p : proghdr) : Prop := p_align p <= 1 \/ (exists k, 0 <= k /\ p_align p = 2 ^ k) /\ p_vaddr p mod p_align p = p_off p mod p_align p.

Lemma alignment_valid_spec p : prog_ok p -> program_alignment_valid p = true -> aligned_segment p.
Proof.
  intros (_ & _ & _ & _ & Ha & _). unfold program_alignment_valid, aligned_segment. destruct (Z.leb_spec (p_align p) 1) as [|Hgt]; [by left|]. destruct (power_of_two (p_align p)) eqn:Ep; [|done]. cbn [negb].
  apply power_of_two_spec in Ep as (k & Hk & E); [|done]. unfold is_u64 in Ha. rewrite wrap64_id by (unfold is_u64; lia). rewrite E, !land_pow2_pred_mod, Z.eqb_eq by done. intros H. right. eauto.
Qed.

Lemma region_valid_spec p : prog_ok p -> program_region_valid p = true ->
  p_filesz p <= p_memsz p /\ p_off p + p_filesz p < 2 ^ 64 /\ p_vaddr p + p_memsz p < 2 ^ 64 /\ aligned_segment p.
Proof.
  intros Hp. pose proof Hp as (H1 & H2 & H3 & H4 & _). unfold program_region_valid. rewrite !add_overflow_spec by done. cbn [fst].
  destruct (Z.ltb_spec (p_memsz p) (p_filesz p)); [done|]. cbn [orb]. case_bool_decide; [done|]. case_bool_decide; [done|]. cbn [orb]. intros Hv. split_and!; [done|lia|lia|by apply alignment_valid_spec].
Qed.

(** ** The invariant *)

Record segment_ok (p : proghdr) : Prop := {
  sg_loaded : loaded p;
  sg_file : p_filesz p <= p_memsz p /\ p_off p + p_filesz p < 2 ^ 64;
  sg_end : segment_end p + PGSIZE <= 2 ^ 64;
  sg_flags : ~ (has_flag p ELF_PROG_FLAG_WRITE /\ has_flag p ELF_PROG_FLAG_EXEC);
  sg_page : p_vaddr p mod PGSIZE = p_off p mod PGSIZE;
  sg_align : aligned_segment p
}.
(** The table of the program headers lies in the file part of the segment. *)
Definition holds_table (h : elfhdr) (size : Z) (p : proghdr) : Prop := p_off p <= e_phoff h /\ e_phoff h + size <= p_off p + p_filesz p.
Definition holds_entry (h : elfhdr) (p : proghdr) : Prop := has_flag p ELF_PROG_FLAG_EXEC /\ p_vaddr p <= e_entry h < segment_end p.
Definition after_segment (p q : proghdr) : Prop := segment_end p <= p_vaddr q.

Record layout_ok (h : elfhdr) (ps : list proghdr) (L : elf_image_layout) : Prop := {
  ly_header : l_type L = e_type h /\ l_phnum L = e_phnum h /\ entry L = e_entry h;
  ly_size : phdr_size L = e_phnum h * sizeof_proghdr /\ phdr_size L <= ELF_PHDR_TABLE_MAX /\ e_phoff h + phdr_size L < 2 ^ 64;
  ly_count : load_count L = Z.of_nat (length (segments ps));
  ly_segments : Forall segment_ok (segments ps);
  ly_order : StronglySorted after_segment (segments ps);
  ly_map p : p ∈ segments ps -> map_start L <= p_vaddr p /\ segment_end p <= load_end L;
  ly_end : load_end L <= map_end L /\ map_end L < 2 ^ 64 /\ 0 <= map_start L;
  ly_pages : map_start L mod PGSIZE = 0 /\ map_end L mod PGSIZE = 0;
  ly_align : (exists k, 0 <= k /\ load_align L = 2 ^ k) /\ is_u64 (load_align L) /\ PGSIZE <= load_align L /\ forall p, p ∈ segments ps -> p_align p <= load_align L;
  ly_phdr : has_phdr L = true -> exists p, p ∈ segments ps /\ holds_table h (phdr_size L) p /\ phdr L = p_vaddr p + (e_phoff h - p_off p);
  ly_entry : entry_in_executable L = true -> exists p, p ∈ segments ps /\ holds_entry h p
}.

Lemma init_layout_ok h L : header_ok h -> elf_image_layout_init h = Some L -> layout_ok h [] L /\ e_phnum h * sizeof_proghdr <= ELF_PHDR_TABLE_MAX.
Proof.
  intros (H1 & H2 & H3). unfold elf_image_layout_init. destruct (header_refused h); [done|]. unfold sizeof_proghdr, ELF_PHDR_TABLE_MAX. rewrite wrap64_id by (unfold is_u64; lia).
  rewrite add_overflow_spec by (done || (unfold is_u64; lia)). destruct (Z.ltb_spec 65536 (e_phnum h * 56)) as [|Hle]; [done|]. cbn [orb fst]. case_bool_decide; [done|]. intros [= <-]. split; [|done].
  split; cbn; try done; try lia; [unfold sizeof_proghdr, ELF_PHDR_TABLE_MAX; lia|constructor|set_solver|].
  split_and!; [by exists 12|done|done|set_solver].
Qed.

(** ** Adding a segment *)

Lemma segments_snoc ps p : segments (ps ++ [p]) = segments ps ++ (if decide (loaded p) then [p] else []).
Proof. unfold segments. by rewrite filter_app. Qed.
Lemma segments_length ps : (length (segments ps) <= length ps)%nat.
Proof. apply length_filter. Qed.

Lemma sorted_snoc {A} (R : A -> A -> Prop) l x : StronglySorted R l -> (forall y, y ∈ l -> R y x) -> StronglySorted R (l ++ [x]).
Proof.
  intros HS HR. induction HS as [|y l HS IH HF]; cbn; [repeat constructor|]. constructor; [apply IH; intros z Hz; apply HR; set_solver|]. rewrite Forall_app, Forall_singleton. split; [done|]. apply HR. set_solver.
Qed.

Lemma set_align_ok h ps L a k : layout_ok h ps L -> load_align L < a -> 0 <= k -> a = 2 ^ k -> is_u64 a -> layout_ok h ps (set_align L a).
Proof.
  intros [H1 H2 H3 H4 H5 H6 H7 H8 (_ & _ & H9 & H10) H11 H12] Hlt Hk Ea Ha. split; cbn [set_align l_type l_phnum entry phdr_size load_count map_start map_end load_end load_align has_phdr phdr entry_in_executable]; try done.
  split_and!; [eauto|done|lia|]. intros p Hp. specialize (H10 p Hp). lia.
Qed.

(** The alignment of a header taken into account. *)
Lemma align_step_ok h ps L p : layout_ok h ps L -> prog_ok p -> aligned_segment p ->
  let L1 := if load_align L <? p_align p then set_align L (p_align p) else L in
  layout_ok h ps L1 /\ p_align p <= load_align L1 /\ load_count L1 = load_count L /\ load_end L1 = load_end L.
Proof.
  intros HL Hp Ha. cbv zeta. destruct (Z.ltb_spec (load_align L) (p_align p)) as [Hlt|Hge]; [|by split_and!]. split_and!; try done.
  destruct (ly_align _ _ _ HL) as (_ & _ & H9 & _). unfold PGSIZE in H9. destruct Ha as [Ha|[(k & Hk & E) _]]; [lia|]. eapply set_align_ok; try done. by destruct Hp as (_ & _ & _ & _ & ? & _).
Qed.

Lemma page_down v : 0 <= v -> 0 <= PGROUNDDOWN v <= v /\ PGROUNDDOWN v mod PGSIZE = 0.
Proof.
  intros Hv. rewrite PGROUNDDOWN_mod. unfold PGSIZE. pose proof (Z.mod_pos_bound v 4096 ltac:(lia)). pose proof (Z.mod_le v 4096 Hv ltac:(lia)). split; [lia|]. rewrite Zminus_mod_idemp_r, Z.sub_diag. done.
Qed.
Lemma page_up v : 0 <= v -> v + PGSIZE <= 2 ^ 64 -> v <= PGROUNDUP v < 2 ^ 64 /\ PGROUNDUP v mod PGSIZE = 0.
Proof.
  intros Hv Hu. rewrite PGROUNDUP_mod by (unfold PGSIZE in *; lia). unfold PGSIZE in *. pose proof (Z.mod_pos_bound (v + 4096 - 1) 4096 ltac:(lia)). split; [lia|]. rewrite Zminus_mod_idemp_r, Z.sub_diag. done.
Qed.

Lemma load_segment_ok h ps L p : layout_ok h ps L -> prog_ok p -> segment_ok p -> (load_count L <> 0 -> load_end L <= p_vaddr p) -> p_align p <= load_align L -> Z.of_nat (length ps) < 2 ^ 16 - 1 ->
  layout_ok h (ps ++ [p]) (load_segment L h p (segment_end p)).
Proof.
  intros [H1 H2 H3 H4 H5 H6 H7 [H8 H8'] (H9 & H9' & H10 & H11) H12 H13] (_ & Hv & _ & Hm & _) Hs Hnext Ha Hlen. pose proof (sg_loaded _ Hs) as Hl. assert (Es : segments (ps ++ [p]) = segments ps ++ [p]) by (by rewrite segments_snoc, decide_True).
  unfold is_u64 in Hv, Hm. destruct (page_down (p_vaddr p)) as [D1 D2]; [lia|]. destruct (page_up (segment_end p)) as [U1 U2]; [unfold segment_end; lia|apply Hs|]. pose proof (segments_length ps) as Hsl.
  assert (Hse : p_vaddr p <= segment_end p) by (unfold segment_end; lia).
  assert (Hnil : load_count L = 0 -> segments ps = []) by (rewrite H3; intros; by apply length_zero_iff_nil; lia).
  assert (Hprev : forall q, q ∈ segments ps -> segment_end q <= p_vaddr p).
  { intros q Hq. destruct (decide (load_count L = 0)) as [E|E]; [rewrite Hnil in Hq by done; set_solver|]. destruct (H6 q Hq) as [_ Hle]. specialize (Hnext E). lia. }
  split; cbn [load_segment l_type l_phnum entry phdr_size load_count map_start map_end load_end load_align has_phdr phdr entry_in_executable]; rewrite ?Es; try done.
  - rewrite length_app. cbn [length]. rewrite H3, Z.mod_small by lia. lia.
  - rewrite Forall_app, Forall_singleton. done.
  - by apply sorted_snoc.
  - unfold truth. intros q [Hq| ->%list_elem_of_singleton]%elem_of_app.
    + destruct (H6 q Hq) as [Q1 Q2]. specialize (Hprev q Hq). assert (E0 : load_count L <> 0) by (intros E; rewrite Hnil in Hq by done; set_solver). rewrite (proj2 (Z.eqb_neq _ 0)) by done. cbn [negb orb].
      destruct (Z.ltb_spec (PGROUNDDOWN (p_vaddr p)) (map_start L)); lia.
    + destruct (Z.eqb_spec (load_count L) 0); cbn [negb orb]; [lia|]. destruct (Z.ltb_spec (PGROUNDDOWN (p_vaddr p)) (map_start L)); lia.
  - destruct (Z.ltb_spec (map_end L) (PGROUNDUP (segment_end p))); (split_and!; [lia|lia|]); destruct (_ || _); lia.
  - split; [by destruct (_ || _)|by destruct (_ <? _)].
  - split_and!; try done. intros q [Hq| ->%list_elem_of_singleton]%elem_of_app; [by apply H11|done].
  - intros Hh. destruct (H12 Hh) as (q & Hq & ?). exists q. split; [set_solver|done].
  - intros [Hh|Hh]%orb_true_iff; [destruct (H13 Hh) as (q & Hq & ?); exists q; split; [set_solver|done]|]. rewrite !andb_true_iff, Z.leb_le, Z.ltb_lt in Hh. destruct Hh as [[Hf ?] ?].
    exists p. split; [set_solver|]. split; [|done]. unfold truth in Hf. apply negb_true_iff, Z.eqb_neq in Hf. done.
Qed.

Lemma set_phdr_ok h ps L p : layout_ok h ps L -> p ∈ segments ps -> holds_table h (phdr_size L) p -> layout_ok h ps (set_phdr L (p_vaddr p + (e_phoff h - p_off p))).
Proof. intros [H1 H2 H3 H4 H5 H6 H7 H8 H9 H10 H11] Hp Ht. split; cbn [set_phdr l_type l_phnum entry phdr_size load_count map_start map_end load_end load_align has_phdr phdr entry_in_executable]; try done. eauto. Qed.

(** A header that is not a segment leaves the segments. *)
Lemma skip_ok h ps L p : layout_ok h ps L -> ~ loaded p -> layout_ok h (ps ++ [p]) L.
Proof.
  intros [H1 H2 H3 H4 H5 H6 H7 H8 H9 H10 H11] Hn. assert (Es : segments (ps ++ [p]) = segments ps) by (by rewrite segments_snoc, decide_False, app_nil_r). split; rewrite ?Es; done.
Qed.

(** The part of the header check that the segment keeps. *)
Lemma load_checks L p : prog_ok p -> negb (program_region_valid p) || truth (Z.land (p_flags p) (Z.lnot ELF_PROG_FLAG_MASK)) ||
     (truth (Z.land (p_flags p) ELF_PROG_FLAG_WRITE) && truth (Z.land (p_flags p) ELF_PROG_FLAG_EXEC)) ||
     negb (Z.land (p_vaddr p) (PGSIZE - 1) =? Z.land (p_off p) (PGSIZE - 1)) || bool_decide (2 ^ 64 <= p_vaddr p + p_memsz p) || (truth (load_count L) && (p_vaddr p <? load_end L)) = false ->
  p_filesz p <= p_memsz p /\ p_off p + p_filesz p < 2 ^ 64 /\ segment_end p < 2 ^ 64 /\ aligned_segment p /\ ~ (has_flag p ELF_PROG_FLAG_WRITE /\ has_flag p ELF_PROG_FLAG_EXEC) /\
  p_vaddr p mod PGSIZE = p_off p mod PGSIZE /\ (load_count L <> 0 -> load_end L <= p_vaddr p).
Proof.
  intros Hp H. rewrite !orb_false_iff, !negb_false_iff, !andb_false_iff, Z.eqb_eq in H. destruct H as (((((Hr & _) & Hwx) & Hpg) & _) & Hnext).
  destruct (region_valid_spec p Hp Hr) as (R1 & R2 & R3 & R4). unfold truth in *. rewrite !negb_false_iff, !Z.eqb_eq in Hwx. rewrite negb_false_iff, Z.eqb_eq, Z.ltb_ge in Hnext.
  split_and!; try done; [unfold has_flag; tauto| |tauto]. change (PGSIZE - 1) with (2 ^ 12 - 1) in Hpg. by rewrite !land_pow2_pred_mod in Hpg by done.
Qed.

Lemma load_add_ok h ps L p L' : header_ok h -> layout_ok h ps L -> prog_ok p -> p_type p = ELF_PROG_LOAD -> Z.of_nat (length ps) < 2 ^ 16 - 1 -> elf_load_layout_add L h p = (L', true) -> layout_ok h (ps ++ [p]) L'.
Proof.
  intros (_ & Hoff & Hnum) HL Hp Ht Hlen. pose proof Hp as (P1 & P2 & P3 & P4 & _). unfold elf_load_layout_add. rewrite add_overflow_spec by done.
  destruct (_ || _) eqn:EC; [done|]. apply (load_checks L p Hp) in EC as (C1 & C2 & C3 & C4 & C5 & C6 & C7). destruct (align_step_ok h ps L p HL Hp C4) as (HL1 & A1 & A2 & A3).
  set (L1 := if load_align L <? p_align p then _ else L) in *. unfold truth at 1. destruct (Z.eqb_spec (p_memsz p) 0) as [Hz|Hnz]; cbn [negb]; [intros [= <-]; apply skip_ok; [done|by intros [_ ?]]|].
  assert (Ev : p_vaddr p +64 p_memsz p = segment_end p) by (apply wrap64_id; unfold is_u64, segment_end in *; lia). rewrite Ev. destruct (Z.ltb_spec (UINT64_MAX - (PGSIZE - 1)) (segment_end p)) as [|Hend]; [done|].
  assert (Hs : segment_ok p) by (split; [by split|done|unfold UINT64_MAX, PGSIZE in *; lia|done|done|done]).
  assert (HL2 : layout_ok h (ps ++ [p]) (load_segment L1 h p (segment_end p))) by (apply load_segment_ok; [done|done|done|by rewrite A2, A3|done|done]).
  set (L2 := load_segment L1 h p (segment_end p)) in *. destruct (ly_size _ _ _ HL2) as (Z1 & Z2 & Z3). assert (0 <= phdr_size L2) by (rewrite Z1; unfold sizeof_proghdr; lia).
  unfold is_u64 in *. rewrite (wrap64_id (e_phoff h + _)), (wrap64_id (p_off p + _)) by (unfold is_u64; lia).
  destruct (Z.ltb_spec (e_phoff h) (p_off p)) as [|G1]; cbn [orb]; [by intros [= <-]|]. destruct (Z.ltb_spec (p_off p + p_filesz p) (e_phoff h + phdr_size L2)) as [|G2]; [by intros [= <-]|].
  rewrite (wrap64_id (e_phoff h - p_off p)) by (unfold is_u64; lia). rewrite (wrap64_id (p_vaddr p + _)) by (unfold is_u64, segment_end in *; lia).
  destruct (_ && _); [done|]. intros [= <-]. apply set_phdr_ok; [done| |done]. rewrite segments_snoc, decide_True by (by split). set_solver.
Qed.

Lemma other_ok h ps L L' : layout_ok h ps L -> l_type L' = l_type L -> l_phnum L' = l_phnum L -> entry L' = entry L -> phdr_size L' = phdr_size L -> load_count L' = load_count L -> map_start L' = map_start L -> map_end L' = map_end L ->
  load_end L' = load_end L -> load_align L' = load_align L -> has_phdr L' = has_phdr L -> phdr L' = phdr L -> entry_in_executable L' = entry_in_executable L -> layout_ok h ps L'.
Proof. intros [H1 H2 H3 H4 H5 H6 H7 H8 H9 H10 H11] E1 E2 E3 E4 E5 E6 E7 E8 E9 E10 E11 E12. split; rewrite ?E1, ?E2, ?E3, ?E4, ?E5, ?E6, ?E7, ?E8, ?E9, ?E10, ?E11, ?E12; done. Qed.

Lemma layout_add_ok h ps L p L' : header_ok h -> layout_ok h ps L -> prog_ok p -> Z.of_nat (length ps) < 2 ^ 16 - 1 -> elf_image_layout_add L h p = (L', true) -> layout_ok h (ps ++ [p]) L'.
Proof.
  intros Hh HL Hp Hlen. unfold elf_image_layout_add. destruct (_ || _); [done|]. destruct (Z.eqb_spec (p_type p) ELF_PROG_LOAD) as [Ht|Ht]; [by apply load_add_ok|].
  assert (Hn : ~ loaded p) by (by intros [? _]). pose proof (skip_ok h ps L p HL Hn) as HS.
  destruct (_ =? _); [destruct (_ || _); [done|]; intros [= <-]; by eapply other_ok|]. destruct (_ =? _); [destruct (_ || _); [done|]; intros [= <-]; by eapply other_ok|].
  destruct (_ || _); [by intros [= <- _]|]. destruct (_ =? _); [destruct (_ || _); [done|]; destruct (truth _); intros [= <-]; [by eapply other_ok|done]|by intros [= <- _]].
Qed.

Lemma layout_adds_ok h ps qs L L' : header_ok h -> layout_ok h ps L -> Forall prog_ok qs -> Z.of_nat (length ps + length qs) < 2 ^ 16 -> layout_adds L h qs = Some L' -> layout_ok h (ps ++ qs) L'.
Proof.
  intros Hh. revert ps L. induction qs as [|q qs IH]; intros ps L HL HF Hlen E; cbn [layout_adds] in E; [injection E as <-; by rewrite app_nil_r|].
  apply Forall_cons in HF as [Hq HF]. destruct (elf_image_layout_add L h q) as [L1 []] eqn:E1; [|done]. cbn [length] in Hlen.
  replace (ps ++ q :: qs) with ((ps ++ [q]) ++ qs) by (by rewrite <-app_assoc). apply (IH _ L1); [apply (layout_add_ok h ps L q L1); try done; lia|done|rewrite length_app; cbn [length]; lia|done].
Qed.

(** What is known of an accepted image. *)
Record image_ok (h : elfhdr) (ps : list proghdr) (L : elf_image_layout) : Prop := {
  im_layout : layout_ok h ps L;
  im_segments : segments ps <> [];
  im_size : 0 < phdr_size L;
  im_table : exists p, p ∈ segments ps /\ holds_table h (phdr_size L) p /\ phdr L = p_vaddr p + (e_phoff h - p_off p);
  im_entry : exists p, p ∈ segments ps /\ holds_entry h p
}.

Lemma image_layout_ok h ps L : header_ok h -> Forall prog_ok ps -> Z.of_nat (length ps) = e_phnum h -> image_layout h ps = Some L -> image_ok h ps L.
Proof.
  intros Hh HF Hlen. unfold image_layout. intros (L0 & E0 & E)%bind_Some. apply bind_Some in E as (L1 & E1 & E2). destruct (elf_image_layout_finish L1) eqn:Ef; [|done]. injection E2 as <-.
  destruct (init_layout_ok h L0 Hh E0) as [HL0 Hn]. assert (HL : layout_ok h ps L1).
  { apply (layout_adds_ok h [] ps L0 L1); try done. unfold sizeof_proghdr, ELF_PHDR_TABLE_MAX in Hn. cbn [length]. lia. }
  unfold elf_image_layout_finish in Ef. rewrite andb_true_iff, negb_true_iff, !orb_false_iff, !negb_false_iff in Ef. destruct Ef as [[[[Hc _] Hph] Hen] _]. 
  assert (Hs : segments ps <> []) by (intros E; unfold truth in Hc; by rewrite (ly_count _ _ _ HL), E in Hc).
  split; [done|done| |by apply (ly_phdr _ _ _ HL)|by apply (ly_entry _ _ _ HL)].
  destruct (ly_size _ _ _ HL) as (-> & _). destruct ps; [done|]. cbn [length] in Hlen. unfold sizeof_proghdr. lia.
Qed.
