(* ===== verification/ElfPlace.v ===== *)
(** * ELF images: finding a place

    [elf_image_place] of kernel/exec.c over the areas of Vma: an accepted image
    is put into free address space as its alignment asks, and every address the
    process is started with lies inside it. *)
From S2P Require Import Prelude Vma VmaCorrect VmaOps VmaGap Vm Elf ElfCorrect.

Definition USER_STACK_TOP : Z := 0x40000000.
Definition USER_STACK_SIZE : Z := 64 * PGSIZE.
Definition USER_STACK_RND_SIZE : Z := 16 * 1024 * 1024.
Definition USER_STACK_MIN_TOP : Z := USER_STACK_TOP - USER_STACK_RND_SIZE.
Definition USER_MMAP_TOP : Z := USER_STACK_MIN_TOP - USER_STACK_SIZE - PGSIZE.

Definition elf_image_place (L : elf_image_layout) (type : Z) (vmas : list vm_area) (hint : Z) : option elf_runtime_layout :=
  let length := map_end L -64 map_start L in
  if type =? ELF_TYPE_EXEC then
    let mapping_start := map_start L in
    if (mapping_start <? PGSIZE) || (USER_MMAP_TOP <? mapping_start) || (USER_MMAP_TOP - mapping_start <? length) || negb (vma_range_free vmas mapping_start (mapping_start +64 length))
    then None else elf_runtime_layout_of L mapping_start USER_MMAP_TOP
  else
    let low := map_start L in
    let low := if low <? PGSIZE then PGSIZE else low in
    let hint := if hint <? low then low else hint in
    mapping_start ← vma_find_gap_aligned vmas low USER_MMAP_TOP hint length (load_align L) (map_start L);
    elf_runtime_layout_of L mapping_start USER_MMAP_TOP.

(** ** The runtime layout *)

Section image.
  Context (h : elfhdr) (ps : list proghdr) (L : elf_image_layout) (HI : image_ok h ps L) (Hps : Forall prog_ok ps).

Lemma image_bounds : 0 <= map_start L < map_end L /\ map_end L < 2 ^ 64 /\ map_start L <= phdr L < map_end L /\ phdr L + phdr_size L <= map_end L /\ map_start L <= entry L < map_end L /\ map_end L - map_start L < 2 ^ 64.
Proof.
  destruct HI as [[(_ & _ & H1) _ _ H4 _ H6 (H7 & H7' & H7'') _ _ _ _] _ H2 (p & Hp & Ht & Ep) (q & Hq & _ & He)]. destruct (H6 p Hp) as [P1 P2], (H6 q Hq) as [Q1 Q2]. rewrite Forall_forall in H4. destruct (sg_file _ (H4 p Hp)) as [F1 _].
  destruct Ht as [T1 T2]. rewrite H1. unfold segment_end in *. lia.
Qed.

(** When the image can be loaded at an address. *)
Definition loadable (start limit : Z) : Prop :=
  start mod PGSIZE = 0 /\ map_start L <= start /\ (l_type L = ELF_TYPE_EXEC -> start = map_start L) /\ (start - map_start L) mod load_align L = 0 /\ start + (map_end L - map_start L) <= limit.

Lemma runtime_spec start limit : is_u64 start -> is_u64 limit ->
  match elf_runtime_layout_of L start limit with
  | Some R => loadable start limit /\ R = MkRuntime (start - map_start L) start (start - map_start L + map_end L) (start - map_start L + phdr L) (start - map_start L + entry L)
  | None => ~ loadable start limit
  end.
Proof.
  unfold is_u64. intros Hs Hl. destruct image_bounds as (B1 & B2 & B3 & B4 & B5 & _). destruct (ly_align _ _ _ (im_layout _ _ _ HI)) as (Hk & Ha & Ha' & _). unfold elf_runtime_layout_of, loadable, truth.
  rewrite (proj2 (power_of_two_spec _ Ha) Hk). cbn [negb]. destruct (Z.eqb_spec (start mod PGSIZE) 0); cbn [negb orb]; [|tauto]. destruct (Z.ltb_spec start (map_start L)); cbn [orb]; [lia|].
  destruct (Z.eqb_spec (l_type L) ELF_TYPE_EXEC) as [Et|Et]; cbn [andb]; [destruct (Z.eqb_spec start (map_start L)); cbn [negb]; [|naive_solver]|].
  all: rewrite (wrap64_id (start - _)) by (unfold is_u64; lia).
  all: destruct Hk as (k & Hk & Ek); assert (is_u64 (load_align L - 1)) by (unfold is_u64, PGSIZE in *; lia); rewrite wrap64_id by done; rewrite Ek, land_pow2_pred_mod by done; rewrite <-Ek.
  all: destruct (Z.eqb_spec ((start - map_start L) mod load_align L) 0); cbn [negb]; [|tauto]; unfold elf_relocate_address.
  all: rewrite (add_overflow_spec (start - map_start L) (map_end L)) by (unfold is_u64; lia).
  all: case_bool_decide; cbn [mbind option_bind]; [lia|]; rewrite (wrap64_id (_ + map_end L)) by (unfold is_u64; lia).
  all: destruct (Z.ltb_spec limit (start - map_start L + map_end L)); [lia|].
  all: rewrite (add_overflow_spec _ (phdr L)) by (unfold is_u64; lia); rewrite bool_decide_false by lia; cbn [mbind option_bind]; rewrite (wrap64_id (_ + phdr L)) by (unfold is_u64; lia).
  all: rewrite (proj2 (Z.leb_gt limit _)) by lia; rewrite (add_overflow_spec _ (entry L)) by (unfold is_u64; lia); rewrite bool_decide_false by lia; cbn [mbind option_bind]; rewrite (wrap64_id (_ + entry L)) by (unfold is_u64; lia).
  all: rewrite (proj2 (Z.leb_gt limit _)) by lia; split; [|done]; split_and!; try done; lia.
Qed.
End image.

(** ** The place *)

Lemma pow2_divides a b i j : a = 2 ^ i -> b = 2 ^ j -> 0 <= i -> 0 <= j -> a <= b -> (a | b).
Proof.
  intros -> -> Hi Hj Hle. apply Z.pow_le_mono_r_iff in Hle; [|lia..]. exists (2 ^ (j - i)). rewrite <-Z.pow_add_r by lia. f_equal. lia.
Qed.

(** A move by a multiple of the largest alignment keeps every segment congruent to its offset. *)
Lemma moved_aligned h ps L p bias : layout_ok h ps L -> p ∈ segments ps -> bias mod load_align L = 0 -> 1 < p_align p -> (bias + p_vaddr p) mod p_align p = p_off p mod p_align p.
Proof.
  intros HL Hp Hb Ha. pose proof (ly_segments _ _ _ HL) as HS. rewrite Forall_forall in HS. destruct (sg_align _ (HS p Hp)) as [?|[(i & Hi & Ei) Hc]]; [lia|].
  destruct (ly_align _ _ _ HL) as ((j & Hj & Ej) & _ & _ & Hle). specialize (Hle p Hp). assert (Hd : (p_align p | bias)).
  { apply Z.mod_divide in Hb; [|lia]. etransitivity; [|done]. by apply (pow2_divides _ _ i j). }
  apply Z.mod_divide in Hd; [|lia]. rewrite Z.add_mod, Hd, Z.add_0_l, Z.mod_mod by lia. done.
Qed.

Lemma free_range vmas s e : wf vmas -> s < e -> vma_range_free vmas s e = true <-> forall x, s <= x < e -> mapping vmas x = None.
Proof. intros [Hok Hs] Hse. unfold vma_range_free. rewrite (proj2 (Z.leb_gt _ _) Hse). by apply (range_free_spec vmas s e 0). Qed.

Section place.
  Context (h : elfhdr) (ps : list proghdr) (L : elf_image_layout) (vmas : list vm_area) (hint : Z).
  Context (HI : image_ok h ps L) (Hwf : wf vmas) (Hhint : is_u64 hint) (Hpage : hint mod PGSIZE = 0).

(** The addresses an image would take at [start] are free. *)
Definition room (start : Z) : Prop := forall x, start <= x < start + (map_end L - map_start L) -> mapping vmas x = None.

Lemma place_exec : l_type L = ELF_TYPE_EXEC ->
  match elf_image_place L ELF_TYPE_EXEC vmas hint with
  | Some R => PGSIZE <= r_map_start R /\ loadable L (r_map_start R) USER_MMAP_TOP /\ room (r_map_start R) /\ elf_runtime_layout_of L (r_map_start R) USER_MMAP_TOP = Some R
  | None => forall start, PGSIZE <= start -> loadable L start USER_MMAP_TOP -> ~ room start
  end.
Proof.
  intros Et. destruct (image_bounds h ps L HI) as (B1 & B2 & _ & _ & _ & B6). unfold elf_image_place. rewrite Z.eqb_refl. rewrite (wrap64_id (map_end L - _)) by (unfold is_u64; lia).
  destruct (Z.ltb_spec (map_start L) PGSIZE); cbn [orb]; [intros start Hst (_ & _ & Heq & _); specialize (Heq Et); lia|].
  destruct (Z.ltb_spec USER_MMAP_TOP (map_start L)); cbn [orb]; [intros start Hst (_ & _ & Heq & _ & Hle); specialize (Heq Et); lia|].
  destruct (Z.ltb_spec (USER_MMAP_TOP - map_start L) (map_end L - map_start L)); cbn [orb]; [intros start Hst (_ & _ & Heq & _ & Hle); specialize (Heq Et); lia|].
  rewrite wrap64_id by (unfold is_u64; lia). pose proof (free_range vmas (map_start L) (map_start L + (map_end L - map_start L)) Hwf ltac:(lia)) as HFr. destruct (vma_range_free _ _ _) eqn:Ef; cbn [negb].
  - pose proof (runtime_spec h ps L HI (map_start L) USER_MMAP_TOP) as HR. unfold is_u64 in HR. destruct (elf_runtime_layout_of L (map_start L) USER_MMAP_TOP) as [R|] eqn:ER.
    + destruct HR as [Hld ->]; [lia|done|]. cbn [r_map_start]. split_and!; try done. exact (proj1 HFr eq_refl).
    + exfalso. apply HR; [lia|done|]. destruct (ly_pages _ _ _ (im_layout _ _ _ HI)) as [Hp _]. split_and!; try done; try lia. by rewrite Z.sub_diag, Zmod_0_l.
  - intros start Hst (_ & _ & Heq & _) HRm. specialize (Heq Et). subst start. by apply HFr in HRm.
Qed.

Lemma place_dyn type : type = l_type L -> type <> ELF_TYPE_EXEC ->
  match elf_image_place L type vmas hint with
  | Some R => PGSIZE <= r_map_start R /\ loadable L (r_map_start R) USER_MMAP_TOP /\ room (r_map_start R) /\ elf_runtime_layout_of L (r_map_start R) USER_MMAP_TOP = Some R
  | None => forall start, PGSIZE <= start -> loadable L start USER_MMAP_TOP -> ~ room start
  end.
Proof.
  intros Ety Et. destruct (image_bounds h ps L HI) as (B1 & B2 & _ & _ & _ & B6). destruct (ly_pages _ _ _ (im_layout _ _ _ HI)) as [G1 G2]. destruct (ly_align _ _ _ (im_layout _ _ _ HI)) as ((k & Hk & Ek) & Ha & Hap & _).
  unfold elf_image_place. rewrite (proj2 (Z.eqb_neq type ELF_TYPE_EXEC)) by done. rewrite (wrap64_id (map_end L - _)) by (unfold is_u64; lia).
  set (low := if map_start L <? PGSIZE then PGSIZE else map_start L). assert (Hlow : low = Z.max PGSIZE (map_start L)) by (unfold low; destruct (Z.ltb_spec (map_start L) PGSIZE); lia).
  assert (Hlp : low mod PGSIZE = 0) by (unfold low; by destruct (_ <? _)). set (from := if hint <? low then low else hint). unfold is_u64, PGSIZE in *.
  assert (Hfrom : is_u64 from /\ from mod 4096 = 0) by (unfold is_u64, from; destruct (hint <? low); split; done || lia).
  pose proof (find_gap_spec vmas low USER_MMAP_TOP from (map_end L - map_start L) (load_align L) (map_start L) Hwf) as HG. destruct (vma_find_gap_aligned _ _ _ _ _ _ _) as [c|]; cbn [mbind option_bind].
  - destruct HG as (_ & k' & Ek' & [F1 F2 F3 F4] & _); [unfold is_u64; lia|by vm_compute|apply Hfrom|unfold is_u64; lia|unfold is_u64; lia|].
    assert (Hld : loadable L c USER_MMAP_TOP).
    { unfold congruent in F3. rewrite <-Ek' in F3. assert (E0 : (c - map_start L) mod load_align L = 0) by (rewrite Zminus_mod, F3, Z.sub_diag; apply Zmod_0_l).
      split_and!; [|lia|congruence|done|lia]. assert (Hd : (4096 | c - map_start L)). { apply Z.mod_divide in E0; [|lia]. etransitivity; [|done]. apply (pow2_divides _ _ 12 k); lia. }
      apply Z.mod_divide in Hd; [|lia]. unfold PGSIZE. replace c with (c - map_start L + map_start L) by lia. by rewrite Z.add_mod, Hd, G1. }
    pose proof (runtime_spec h ps L HI c USER_MMAP_TOP) as HR. unfold is_u64 in HR. assert (c < 2 ^ 64) by (unfold USER_MMAP_TOP, USER_STACK_MIN_TOP, USER_STACK_TOP, USER_STACK_RND_SIZE, USER_STACK_SIZE, PGSIZE in *; lia).
    destruct (elf_runtime_layout_of L c USER_MMAP_TOP) as [R|] eqn:ER; [|exfalso; by apply HR; [lia|..]]. destruct HR as [_ ->]; [lia|done|]. cbn [r_map_start]. split_and!; try done. lia.
  - intros start Hst (L1 & L2 & _ & L4 & L5) HRm. unfold is_u64 in HG. refine (HG _ _ _ _ _ _ k start Ek _); [lia|by vm_compute|apply Hfrom|lia|lia|..].
    + split_and!; try done; try lia; [unfold PGSIZE; by rewrite Zminus_mod, G1, G2|apply Hfrom|by exists k].
    + split; [lia|done| |done]. unfold congruent. rewrite <-Ek. apply Z.mod_divide in L4; [|lia]. destruct L4 as [m Em]. replace start with (map_start L + m * load_align L) by lia. by rewrite Z.mod_add by lia.
Qed.
End place.

(** C16: An accepted image is well formed: its segments come in order and do not overlap or wrap around, the part of a segment
    in the file is no longer than the segment and ends below 2^64 (nothing compares it with the size of the file), none is
    both writable and executable, each is congruent to its file offset modulo the page size and its alignment, the mapped range is
    page-aligned and holds them all, the table of program headers lies in the file part of a segment at the recorded
    address, and the entry lies in an executable segment. *)
Theorem elf_image_well_formed h ps L : header_ok h -> Forall prog_ok ps -> Z.of_nat (length ps) = e_phnum h -> image_layout h ps = Some L ->
  Forall segment_ok (segments ps) /\ StronglySorted after_segment (segments ps) /\
  map_start L mod PGSIZE = 0 /\ map_end L mod PGSIZE = 0 /\ (forall p, p ∈ segments ps -> map_start L <= p_vaddr p /\ segment_end p <= map_end L < 2 ^ 64) /\
  (exists p, p ∈ segments ps /\ holds_table h (phdr_size L) p /\ phdr L = p_vaddr p + (e_phoff h - p_off p)) /\ (exists p, p ∈ segments ps /\ holds_entry h p).
Proof.
  intros Hh HF Hn E. destruct (image_layout_ok h ps L Hh HF Hn E) as [HL _ _ HT HE]. destruct HL as [_ _ _ H4 H5 H6 (H7 & H7' & _) [H8 H8'] _ _ _]. split_and!; try done.
  intros p Hp. destruct (H6 p Hp). lia.
Qed.

(** C32: [elf_image_place] puts an accepted image into free address space below the stack, as a whole and at its alignment:
    every segment keeps its distance to the others and its congruence to the file, an image that is not relocatable
    stays where it is linked, and the mapped range, the entry and the table of program headers given to the process are
    those of the file moved by the one offset, the table and the entry inside their segments; it fails only when no
    suitable place is free. *)
Theorem elf_image_place_correct h ps L vmas hint : header_ok h -> Forall prog_ok ps -> Z.of_nat (length ps) = e_phnum h -> image_layout h ps = Some L -> wf vmas -> is_u64 hint -> hint mod PGSIZE = 0 ->
  match elf_image_place L (e_type h) vmas hint with
  | Some R => PGSIZE <= r_map_start R /\ r_map_end R <= USER_MMAP_TOP /\ (forall x, r_map_start R <= x < r_map_end R -> mapping vmas x = None) /\ (e_type h = ELF_TYPE_EXEC -> load_bias R = 0) /\
      r_map_start R = load_bias R + map_start L /\ r_map_end R = load_bias R + map_end L /\ r_entry R = load_bias R + e_entry h /\
      (forall p, p ∈ segments ps -> r_map_start R <= load_bias R + p_vaddr p /\ load_bias R + segment_end p <= r_map_end R /\
         (1 < p_align p -> (load_bias R + p_vaddr p) mod p_align p = p_off p mod p_align p)) /\
      (exists p, p ∈ segments ps /\ holds_table h (phdr_size L) p /\ r_phdr R = load_bias R + p_vaddr p + (e_phoff h - p_off p)) /\
      (exists p, p ∈ segments ps /\ has_flag p ELF_PROG_FLAG_EXEC /\ load_bias R + p_vaddr p <= r_entry R < load_bias R + segment_end p)
  | None => forall start, PGSIZE <= start -> loadable L start USER_MMAP_TOP -> ~ room L vmas start
  end.
Proof.
  intros Hh HF Hn E Hwf Hhint Hpage. pose proof (image_layout_ok h ps L Hh HF Hn E) as HI. pose proof HI as [HL _ _ (t & Ht & HT & Eph) (q & Hq & HX & HE)]. destruct (ly_header _ _ _ HL) as (Ety & _ & Een).
  assert (HP : match elf_image_place L (e_type h) vmas hint with
    | Some R => PGSIZE <= r_map_start R /\ loadable L (r_map_start R) USER_MMAP_TOP /\ room L vmas (r_map_start R) /\ elf_runtime_layout_of L (r_map_start R) USER_MMAP_TOP = Some R
    | None => forall start, PGSIZE <= start -> loadable L start USER_MMAP_TOP -> ~ room L vmas start end).
  { destruct (decide (e_type h = ELF_TYPE_EXEC)) as [Et|Et]; [rewrite Et; eapply place_exec; try done; congruence|by eapply place_dyn]. }
  destruct (elf_image_place L (e_type h) vmas hint) as [R|]; [|done]. destruct HP as (R1 & Hld & HRm & ER). destruct Hld as (D1 & D2 & D3 & D4 & D5). destruct (image_bounds h ps L HI) as (B1 & B2 & _ & _ & _ & B6).
  pose proof (runtime_spec h ps L HI (r_map_start R) USER_MMAP_TOP) as HR. rewrite ER in HR. destruct HR as [_ HR]; [unfold is_u64, USER_MMAP_TOP, USER_STACK_MIN_TOP, USER_STACK_TOP, USER_STACK_RND_SIZE, USER_STACK_SIZE, PGSIZE in *; lia|by vm_compute|].
  rewrite HR. cbn [load_bias r_map_start r_map_end r_phdr r_entry]. set (s := r_map_start R) in *. destruct (ly_end _ _ _ HL) as (Hle & _). split_and!; [done|lia|intros x Hx; apply HRm; lia|intros Et; rewrite D3 by congruence; lia|lia|lia|lia|..].
  - intros p Hp. destruct (ly_map _ _ _ HL p Hp). split_and!; [lia|lia|]. by eapply moved_aligned.
  - exists t. split_and!; try done. lia.
  - exists q. split_and!; try done; lia.
Qed.

(** ** The interpreter *)

(** A path is accepted exactly when it is an absolute path that fits, ends at its last byte and not before. *)
Theorem elf_interpreter_path_correct path size capacity : 0 <= size <= Z.of_nat (length path) ->
  exists b, elf_interpreter_path_valid path size capacity = Ret b /\
    (b = true <-> 2 <= size <= capacity /\ path !! 0%nat = Some 47 /\ path !! Z.to_nat (size - 1) = Some 0 /\ forall i, (1 <= i)%nat -> Z.of_nat i < size - 1 -> path !! i <> Some 0).
Proof.
  intros Hsz. unfold elf_interpreter_path_valid. destruct (Z.ltb_spec size 2) as [|H2]; cbn [orb]; [exists false; split; [done|]; split; [done|lia]|].
  destruct (Z.ltb_spec capacity size) as [|Hc]; [exists false; split; [done|]; split; [done|lia]|].
  destruct (lookup_lt_is_Some_2 path 0) as [c Ec]; [lia|]. rewrite (rd_Ret _ _ _ Ec). cbn [mbind outcome_bind]. destruct (Z.eqb_spec c 47) as [->|Hn]; cbn [negb]; [|exists false; split; [done|]; split; [done|]; intros (_ & E & _); congruence].
  destruct (lookup_lt_is_Some_2 path (Z.to_nat (size - 1))) as [z Ez]; [lia|]. rewrite (rd_Ret _ _ _ Ez). cbn [mbind outcome_bind]. unfold truth at 1. destruct (Z.eqb_spec z 0) as [->|Hn]; cbn [negb]; [|exists false; split; [done|]; split; [done|]; intros (_ & _ & E & _); congruence].
  assert (HLp : forall n i, (i + n < length path)%nat -> exists b, no_zero path n i = Ret b /\ (b = true <-> forall j, (i <= j < i + n)%nat -> path !! j <> Some 0)).
  { induction n as [|n IH]; intros i Hi; cbn [no_zero]; [exists true; split; [done|]; split; [|done]; intros _ j Hj; lia|]. destruct (lookup_lt_is_Some_2 path i) as [d Ed]; [lia|]. rewrite (rd_Ret _ _ _ Ed). cbn [mbind outcome_bind]. unfold truth.
    destruct (Z.eqb_spec d 0) as [->|Hd]; cbn [negb]; [exists false; split; [done|]; split; [done|]; intros H; by destruct (H i); [lia|]|].
    destruct (IH (S i)) as (b & E & Hb); [lia|]. exists b. split; [done|]. rewrite Hb. split; intros H j Hj; [destruct (decide (j = i)) as [->|]; [congruence|apply H; lia]|apply H; lia]. }
  destruct (HLp (Z.to_nat (size - 2)) 1%nat) as (b & E & Hb); [lia|]. exists b. split; [exact E|]. rewrite Hb. split; [intros H; split_and!; try done; intros i Hi Hlt; apply H; lia|]. intros (_ & _ & _ & H) j Hj. apply H; lia.
Qed.

(** ** An example: a small position-independent image *)

Definition example_header : elfhdr := MkElf ELF_MAGIC (ELF_CLASS_64, ELF_DATA_LSB, ELF_VERSION_CURRENT) ELF_TYPE_DYN ELF_MACHINE_RISCV ELF_VERSION_CURRENT 0x1100 64 sizeof_elfhdr sizeof_proghdr 3.
Definition example_text : proghdr := MkProg ELF_PROG_LOAD 5 0 0x1000 0x900 0x900 0x1000.
Definition example_stack : proghdr := MkProg ELF_PROG_GNU_STACK 6 0 0 0 0 16.
Definition example_programs : list proghdr := [example_text; example_stack; MkProg ELF_PROG_LOAD 6 0x1900 0x3900 0x100 0x700 0x2000].
Definition example_layout : elf_image_layout := match image_layout example_header example_programs with Some L => L | None => MkLayout 0 0 0 0 0 0 0 0 0 0 0 0 0 false false false false false end.

Lemma example_image : header_ok example_header /\ Forall prog_ok example_programs /\ image_layout example_header example_programs = Some example_layout.
Proof. split_and!; [done|repeat constructor; done|vm_compute; reflexivity]. Qed.

Lemma elf_image_well_formed_witness : exists p, p ∈ segments example_programs /\ holds_entry example_header p.
Proof. destruct example_image as (H1 & H2 & H3). destruct (elf_image_well_formed example_header example_programs example_layout H1 H2 eq_refl H3) as (_ & _ & _ & _ & _ & _ & H). exact H. Defined.

Lemma elf_image_place_witness : exists R, elf_image_place example_layout ELF_TYPE_DYN [] 0x8000000 = Some R /\ r_map_end R <= USER_MMAP_TOP.
Proof.
  destruct example_image as (H1 & H2 & H3). assert (Hwf : wf []) by (split; constructor).
  pose proof (elf_image_place_correct example_header example_programs example_layout [] 0x8000000 H1 H2 eq_refl H3 Hwf) as H. change (e_type example_header) with ELF_TYPE_DYN in H.
  destruct (elf_image_place example_layout ELF_TYPE_DYN [] 0x8000000) as [R|] eqn:E; [|vm_compute in E; discriminate]. exists R. split; [reflexivity|].
  destruct H as (_ & H & _); [unfold is_u64; lia|reflexivity|exact H].
Defined.
