(* ===== verification/Signal.v ===== *)
(** * Signals: pending signals and their targets

    kernel/signal.c up to the delivery.  A process has its threads in the slots
    of [process->thread], and a thread is its slot; the lock of the process is
    held by every operation here.  The calls that wake somebody are recorded in
    order: [wait_queue_signal_thread] with [scheduler_kick] for a thread, and
    [wait_queue_wake_all] for those who wait on [signal_wait]. *)
From S2P Require Import Prelude Scheduler.

Definition SIGNAL_COUNT : Z := 64.
Definition SIGNAL_QUEUE_FULL : Z := -2.
Definition SIGNAL_REALTIME_LIMIT : Z := 128.
Definition LINUX_SIGQUIT : Z := 3.
Definition LINUX_SIGILL : Z := 4.
Definition LINUX_SIGTRAP : Z := 5.
Definition LINUX_SIGABRT : Z := 6.
Definition LINUX_SIGBUS : Z := 7.
Definition LINUX_SIGFPE : Z := 8.
Definition LINUX_SIGKILL : Z := 9.
Definition LINUX_SIGSEGV : Z := 11.
Definition LINUX_SIGCHLD : Z := 17.
Definition LINUX_SIGCONT : Z := 18.
Definition LINUX_SIGSTOP : Z := 19.
Definition LINUX_SIGTSTP : Z := 20.
Definition LINUX_SIGTTIN : Z := 21.
Definition LINUX_SIGTTOU : Z := 22.
Definition LINUX_SIGURG : Z := 23.
Definition LINUX_SIGXCPU : Z := 24.
Definition LINUX_SIGXFSZ : Z := 25.
Definition LINUX_SIGWINCH : Z := 28.
Definition LINUX_SIGSYS : Z := 31.
Definition LINUX_SIGRTMIN : Z := 32.
Definition LINUX_SIG_DFL : Z := 0.
Definition LINUX_SIG_IGN : Z := 1.
Definition LINUX_SS_DISABLE : Z := 2.

Definition SIGNAL_BIT (signal : Z) : Z := Z.shiftl 1 (signal - 1).
Definition SIGNAL_UNMASKABLE : Z := Z.lor (SIGNAL_BIT LINUX_SIGKILL) (SIGNAL_BIT LINUX_SIGSTOP).

Record signal_info := MkInfo {
  i_signal : Z; i_error : Z; i_code : Z; i_sender_pid : Z; i_sender_uid : Z; i_sender_euid : Z; i_sender_sid : Z; i_status : Z; i_address : Z
}.
Definition no_info : signal_info := MkInfo 0 0 0 0 0 0 0 0 0.
Definition with_signal (i : signal_info) (signal : Z) : signal_info :=
  MkInfo signal (i_error i) (i_code i) (i_sender_pid i) (i_sender_uid i) (i_sender_euid i) (i_sender_sid i) (i_status i) (i_address i).

(** The queue of realtime signals is the sequence its list represents. *)
Record signal_pending := MkPending { bits : Z; information : list signal_info; realtime : list signal_info; realtime_count : Z }.
Record process_signal_action := MkAction { handler : Z; a_flags : Z; a_mask : Z }.

(** The fields of a thread that signal.c owns, and its state. *)
Record sthread := MkSthread {
  s_state : thread_state; signal_mask : Z; s_pending : signal_pending; process_signal_target : Z;
  altstack_sp : Z; altstack_size : Z; altstack_flags : Z; signal_saved_mask : Z; signal_restore_mask : bool; s_sequence : Z; s_fatal_sequence : Z
}.
Inductive wake_call := WakeThread (i : nat) (fatal : bool) | WakeWaiters.
Record sprocess := MkSprocess {
  p_live : bool; p_pending : signal_pending; signal_actions : list process_signal_action; p_threads : list (option sthread); stopped : bool; group_exiting : bool; p_calls : list wake_call
}.

Definition with_pending (p : sprocess) (x : signal_pending) : sprocess := MkSprocess (p_live p) x (signal_actions p) (p_threads p) (stopped p) (group_exiting p) (p_calls p).
Definition with_threads (p : sprocess) (l : list (option sthread)) : sprocess := MkSprocess (p_live p) (p_pending p) (signal_actions p) l (stopped p) (group_exiting p) (p_calls p).
Definition with_actions (p : sprocess) (l : list process_signal_action) : sprocess := MkSprocess (p_live p) (p_pending p) l (p_threads p) (stopped p) (group_exiting p) (p_calls p).
Definition with_stopped (p : sprocess) (b : bool) : sprocess := MkSprocess (p_live p) (p_pending p) (signal_actions p) (p_threads p) b (group_exiting p) (p_calls p).
Definition with_group_exiting (p : sprocess) (b : bool) : sprocess := MkSprocess (p_live p) (p_pending p) (signal_actions p) (p_threads p) (stopped p) b (p_calls p).
Definition called (p : sprocess) (c : wake_call) : sprocess := MkSprocess (p_live p) (p_pending p) (signal_actions p) (p_threads p) (stopped p) (group_exiting p) (p_calls p ++ [c]).
Definition set_target (t : sthread) (target : Z) : sthread :=
  MkSthread (s_state t) (signal_mask t) (s_pending t) target (altstack_sp t) (altstack_size t) (altstack_flags t) (signal_saved_mask t) (signal_restore_mask t) (s_sequence t) (s_fatal_sequence t).
Definition set_pending (t : sthread) (x : signal_pending) : sthread :=
  MkSthread (s_state t) (signal_mask t) x (process_signal_target t) (altstack_sp t) (altstack_size t) (altstack_flags t) (signal_saved_mask t) (signal_restore_mask t) (s_sequence t) (s_fatal_sequence t).
Definition set_mask (t : sthread) (mask saved : Z) (restore : bool) : sthread :=
  MkSthread (s_state t) mask (s_pending t) (process_signal_target t) (altstack_sp t) (altstack_size t) (altstack_flags t) saved restore (s_sequence t) (s_fatal_sequence t).
Definition set_altstack (t : sthread) (sp size flags : Z) : sthread :=
  MkSthread (s_state t) (signal_mask t) (s_pending t) (process_signal_target t) sp size flags (signal_saved_mask t) (signal_restore_mask t) (s_sequence t) (s_fatal_sequence t).
Definition set_sequences (t : sthread) (sequence fatal_sequence : Z) : sthread :=
  MkSthread (s_state t) (signal_mask t) (s_pending t) (process_signal_target t) (altstack_sp t) (altstack_size t) (altstack_flags t) (signal_saved_mask t) (signal_restore_mask t) sequence fatal_sequence.

(** The thread in a slot; a null or absent pointer is not followed. *)
Definition thread_of (p : sprocess) (i : nat) : outcome sthread := o ← rd (p_threads p) i; deref o.
Definition put_sthread (p : sprocess) (i : nat) (t : sthread) : sprocess := with_threads p (<[i := Some t]> (p_threads p)).

(** ** Signals and their defaults *)

Definition signal_mask_sanitize (mask : Z) : Z := Z.land mask (Z.lnot SIGNAL_UNMASKABLE).
Definition signal_valid (signal : Z) : bool := (1 <=? signal) && (signal <=? SIGNAL_COUNT).
Definition signal_default_ignored (signal : Z) : bool := (signal =? LINUX_SIGCHLD) || (signal =? LINUX_SIGURG) || (signal =? LINUX_SIGWINCH).
Definition signal_default_stops (signal : Z) : bool := (signal =? LINUX_SIGSTOP) || (signal =? LINUX_SIGTSTP) || (signal =? LINUX_SIGTTIN) || (signal =? LINUX_SIGTTOU).
Definition signal_default_cores (signal : Z) : bool :=
  (signal =? LINUX_SIGQUIT) || (signal =? LINUX_SIGILL) || (signal =? LINUX_SIGTRAP) || (signal =? LINUX_SIGABRT) || (signal =? LINUX_SIGBUS) || (signal =? LINUX_SIGFPE) ||
  (signal =? LINUX_SIGSEGV) || (signal =? LINUX_SIGXCPU) || (signal =? LINUX_SIGXFSZ) || (signal =? LINUX_SIGSYS).
Definition action_of (p : sprocess) (signal : Z) : outcome process_signal_action := rd (signal_actions p) (Z.to_nat (signal - 1)).
Definition signal_fatal_locked (p : sprocess) (signal : Z) : outcome bool :=
  a ← action_of p signal;
  if signal =? LINUX_SIGKILL then Ret true else
  Ret ((handler a =? LINUX_SIG_DFL) && negb (signal =? LINUX_SIGCONT) && negb (signal_default_ignored signal) && negb (signal_default_stops signal)).

(** ** Sets of pending signals *)

Definition signal_pending_init : signal_pending := MkPending 0 (replicate 64 no_info) [] 0.
Definition is_pending (x : signal_pending) (signal : Z) : bool := truth (Z.land (bits x) (SIGNAL_BIT signal)).
Definition clear_bit (b signal : Z) : Z := Z.land b (Z.lnot (SIGNAL_BIT signal)).
Definition signal_pending_clear (x : signal_pending) (signal : Z) : signal_pending :=
  MkPending (clear_bit (bits x) signal) (<[Z.to_nat (signal - 1) := no_info]> (information x)) (filter (fun e => i_signal e <> signal) (realtime x))
    (realtime_count x -32 Z.of_nat (length (filter (fun e => i_signal e = signal) (realtime x)))).

(** [room]: whether [malloc] finds memory for the entry.  An error, or the new set. *)
Definition signal_store_pending (x : signal_pending) (signal : Z) (info : option signal_info) (room : bool) : Z + signal_pending :=
  let i := with_signal (default no_info info) signal in
  if LINUX_SIGRTMIN <=? signal then
    if SIGNAL_REALTIME_LIMIT <=? realtime_count x then inl SIGNAL_QUEUE_FULL else
    if negb room then inl SIGNAL_QUEUE_FULL else
    inr (MkPending (Z.lor (bits x) (SIGNAL_BIT signal)) (information x) (realtime x ++ [i]) (realtime_count x +32 1))
  else if is_pending x signal then inr x else
  inr (MkPending (Z.lor (bits x) (SIGNAL_BIT signal)) (<[Z.to_nat (signal - 1) := i]> (information x)) (realtime x) (realtime_count x)).

(** ** Threads as targets *)

(** The loops over the slots of [process->thread]. *)
Definition each_thread (f : sthread -> sthread) (l : list (option sthread)) : list (option sthread) := fmap (M := list) (fmap (M := option) f) l.
Definition signal_target_clear_locked (p : sprocess) (signal : Z) : sprocess :=
  with_threads p (each_thread (fun t => set_target t (clear_bit (process_signal_target t) signal)) (p_threads p)).
Definition signal_clear_locked (p : sprocess) (signal : Z) : sprocess :=
  with_threads (with_pending p (signal_pending_clear (p_pending p) signal))
    (each_thread (fun t => set_target (set_pending t (signal_pending_clear (s_pending t) signal)) (clear_bit (process_signal_target t) signal)) (p_threads p)).

Definition targetable (t : sthread) (signal : Z) : bool :=
  negb (bool_decide (s_state t = THREAD_UNUSED)) && negb (bool_decide (s_state t = THREAD_ALLOCATED)) && negb (bool_decide (s_state t = THREAD_EXITED)) &&
  (truth (Z.land (SIGNAL_BIT signal) SIGNAL_UNMASKABLE) || negb (truth (Z.land (signal_mask t) (SIGNAL_BIT signal)))).
Definition signal_thread_targetable_locked (l : list (option sthread)) (i : nat) (signal : Z) (exclude : option nat) : bool :=
  match l !! i with Some (Some t) => negb (bool_decide (exclude = Some i)) && targetable t signal | _ => false end.
(** The first slot that satisfies the test. *)
Definition first_slot (test : nat -> bool) (n : nat) : option nat := head (filter (fun i => test i = true) (seq 0 n)).

Definition signal_process_generation_ignored_locked (p : sprocess) (signal : Z) : outcome bool :=
  a ← action_of p signal;
  if handler a =? LINUX_SIG_IGN then Ret true else
  if negb (handler a =? LINUX_SIG_DFL) || negb (signal_default_ignored signal) then Ret false else
  Ret (bool_decide (is_Some (first_slot (fun i => signal_thread_targetable_locked (p_threads p) i signal None) (length (p_threads p))))).
Definition signal_thread_generation_ignored_locked (p : sprocess) (t : sthread) (signal : Z) : outcome bool :=
  a ← action_of p signal;
  if handler a =? LINUX_SIG_IGN then Ret true else
  Ret ((handler a =? LINUX_SIG_DFL) && signal_default_ignored signal && negb (truth (Z.land (signal_mask t) (SIGNAL_BIT signal)))).

Definition signal_target_wake_locked (p : sprocess) (i : nat) (signal : Z) : outcome sprocess :=
  fatal ← signal_fatal_locked p signal;
  t ← thread_of p i;
  let t := set_sequences t (s_sequence t +64 1) (if fatal : bool then s_fatal_sequence t +64 1 else s_fatal_sequence t) in
  Ret (called (put_sthread p i t) (WakeThread i fatal)).

Definition targeted (l : list (option sthread)) (i : nat) (signal : Z) : bool :=
  match l !! i with Some (Some t) => truth (Z.land (process_signal_target t) (SIGNAL_BIT signal)) | _ => false end.
Definition signal_process_retarget_locked (p : sprocess) (signal : Z) (exclude : option nat) : outcome sprocess :=
  if negb (is_pending (p_pending p) signal) then Ret (signal_target_clear_locked p signal) else
  let n := length (p_threads p) in
  match first_slot (fun i => targeted (p_threads p) i signal && signal_thread_targetable_locked (p_threads p) i signal exclude) n with
  | Some _ => Ret p
  | None =>
      let p := signal_target_clear_locked p signal in
      match first_slot (fun i => signal_thread_targetable_locked (p_threads p) i signal exclude) n with
      | None => Ret p
      | Some i =>
          t ← thread_of p i;
          signal_target_wake_locked (put_sthread p i (set_target t (Z.lor (process_signal_target t) (SIGNAL_BIT signal)))) i signal
      end
  end.

(** The loops over a set of signals, from [signal] on. *)
Fixpoint retarget_each (fuel : nat) (p : sprocess) (set signal : Z) (exclude : option nat) : outcome sprocess :=
  if negb (truth set) then Ret p else
  match fuel with
  | O => Fault
  | S fuel =>
      p ← if truth (Z.land set 1) then signal_process_retarget_locked p signal exclude else Ret p;
      retarget_each fuel p (Z.shiftr set 1) (signal + 1) exclude
  end.
Definition signal_thread_mask_changed_locked (p : sprocess) : outcome sprocess := retarget_each 64 p (bits (p_pending p)) 1 None.
Definition signal_thread_detach_locked (p : sprocess) (i : nat) : outcome sprocess :=
  t ← thread_of p i;
  retarget_each 64 (put_sthread p i (set_target t 0)) (process_signal_target t) 1 (Some i).

(** ** Sending *)

(** The flag tells whether the process was stopped and goes on. *)
Definition signal_prepare_group_locked (p : sprocess) (signal : Z) : sprocess * bool :=
  if signal =? LINUX_SIGCONT then
    let p := signal_clear_locked (signal_clear_locked (signal_clear_locked (signal_clear_locked p LINUX_SIGSTOP) LINUX_SIGTSTP) LINUX_SIGTTIN) LINUX_SIGTTOU in
    (called (if stopped p then with_stopped p false else p) WakeWaiters, stopped p)
  else if signal_default_stops signal then (signal_clear_locked p LINUX_SIGCONT, false)
  else if signal =? LINUX_SIGKILL then (called (with_stopped p false) WakeWaiters, false)
  else (p, false).

Definition signal_wake_locked (p : sprocess) (target : option nat) (signal : Z) : outcome sprocess :=
  let p := called p WakeWaiters in
  match target with
  | None => signal_process_retarget_locked p signal None
  | Some i =>
      t ← thread_of p i;
      if negb (truth (Z.land (SIGNAL_BIT signal) SIGNAL_UNMASKABLE)) && truth (Z.land (signal_mask t) (SIGNAL_BIT signal)) then Ret p
      else signal_target_wake_locked p i signal
  end.

Definition signal_queue_process_locked (p : sprocess) (signal : Z) (info : option signal_info) (room : bool) : outcome (sprocess * Z) :=
  if negb (signal_valid signal) || negb (p_live p) then Ret (p, -1) else
  let '(p, resumed) := signal_prepare_group_locked p signal in
  ignored ← signal_process_generation_ignored_locked p signal;
  if ignored : bool then Ret (p, if resumed : bool then 1 else 0) else
  match signal_store_pending (p_pending p) signal info room with
  | inl result => Ret (p, result)
  | inr x => p ← signal_wake_locked (with_pending p x) None signal; Ret (p, if resumed : bool then 1 else 0)
  end.
Definition signal_queue_thread_locked (p : sprocess) (i : nat) (signal : Z) (info : option signal_info) (room : bool) : outcome (sprocess * Z) :=
  t ← thread_of p i;
  if bool_decide (s_state t = THREAD_UNUSED) || bool_decide (s_state t = THREAD_EXITED) || negb (signal_valid signal) || negb (p_live p) then Ret (p, -1) else
  let '(p, resumed) := signal_prepare_group_locked p signal in
  t ← thread_of p i;
  ignored ← signal_thread_generation_ignored_locked p t signal;
  if ignored : bool then Ret (p, if resumed : bool then 1 else 0) else
  match signal_store_pending (s_pending t) signal info room with
  | inl result => Ret (p, result)
  | inr x => p ← signal_wake_locked (put_sthread p i (set_pending t x)) (Some i) signal; Ret (p, if resumed : bool then 1 else 0)
  end.

(** ** Looking and taking *)

Definition unblocked (p : sprocess) (t : sthread) : Z :=
  Z.land (Z.lor (bits (s_pending t)) (Z.land (bits (p_pending p)) (process_signal_target t))) (Z.lnot (signal_mask t)).
Definition signal_pending_unblocked (p : sprocess) (i : nat) : outcome bool := t ← thread_of p i; Ret (truth (unblocked p t)).
Fixpoint fatal_each (fuel : nat) (p : sprocess) (set signal : Z) : outcome bool :=
  if negb (truth set) then Ret false else
  match fuel with
  | O => Fault
  | S fuel =>
      fatal ← if truth (Z.land set 1) then signal_fatal_locked p signal else Ret false;
      if fatal : bool then Ret true else fatal_each fuel p (Z.shiftr set 1) (signal + 1)
  end.
Definition signal_fatal_pending (p : sprocess) (i : nat) : outcome bool := t ← thread_of p i; fatal_each 64 p (unblocked p t) 1.

(** The lowest signal of a set, from [signal] on. *)
Fixpoint lowest_signal (fuel : nat) (set signal : Z) : outcome Z :=
  match fuel with O => Fault | S fuel => if truth (Z.land set (SIGNAL_BIT signal)) then Ret signal else lowest_signal fuel set (signal + 1) end.
(** The first entry of a signal, and the queue without it. *)
Fixpoint take_entry (l : list signal_info) (signal : Z) : option (signal_info * list signal_info) :=
  match l with
  | [] => None
  | e :: l => if i_signal e =? signal then Some (e, l) else '(found, l) ← take_entry l signal; Some (found, e :: l)
  end.
(** One signal out of a set: its information, the set, and whether the signal is gone from it. *)
Definition take_from (x : signal_pending) (signal : Z) : outcome (signal_info * signal_pending * bool) :=
  if LINUX_SIGRTMIN <=? signal then
    match take_entry (realtime x) signal with
    | None => Panic "missing realtime signal"
    | Some (e, l) =>
        let gone := negb (bool_decide (is_Some (take_entry l signal))) in
        Ret (e, MkPending (if gone then clear_bit (bits x) signal else bits x) (information x) l (realtime_count x -32 1), gone)
    end
  else
    e ← rd (information x) (Z.to_nat (signal - 1));
    Ret (e, MkPending (clear_bit (bits x) signal) (<[Z.to_nat (signal - 1) := no_info]> (information x)) (realtime x) (realtime_count x), true).
Definition signal_take_set_locked (p : sprocess) (i : nat) (set : Z) (honor_process_target : bool) : outcome (sprocess * option (Z * signal_info)) :=
  t ← thread_of p i;
  let available := if honor_process_target then Z.land (bits (p_pending p)) (process_signal_target t) else bits (p_pending p) in
  let available := Z.land (Z.lor (bits (s_pending t)) available) set in
  if negb (truth available) then Ret (p, None) else
  signal ← lowest_signal 64 available 1;
  if is_pending (s_pending t) signal then
    '(e, x, _) ← take_from (s_pending t) signal;
    Ret (put_sthread p i (set_pending t x), Some (signal, e))
  else
    '(e, x, gone) ← take_from (p_pending p) signal;
    let p := with_pending p x in
    Ret (if gone : bool then signal_target_clear_locked p signal else p, Some (signal, e)).
Definition signal_take_unblocked_locked (p : sprocess) (i : nat) : outcome (sprocess * option (Z * signal_info * process_signal_action)) :=
  t ← thread_of p i;
  '(p, taken) ← signal_take_set_locked p i (Z.lnot (signal_mask t)) true;
  match taken with
  | None => Ret (p, None)
  | Some (signal, e) => a ← action_of p signal; Ret (p, Some (signal, e, a))
  end.

(** * Signals: the calls

    The life of the signal state with its threads and process, the system calls
    of kernel/signal.c, one round of [signal_user_return], the stop and exit of
    kernel/process.c.  The results of copying from and to the user are arguments
    here. *)

Definition LINUX_EPERM : Z := 1.
Definition LINUX_ESRCH : Z := 3.
Definition LINUX_EINTR : Z := 4.
Definition LINUX_SIGSET_SIZE : Z := 8.
Definition LINUX_SI_USER : Z := 0.
Definition LINUX_SI_TKILL : Z := -6.
Definition LINUX_SIG_BLOCK : Z := 0.
Definition LINUX_SIG_UNBLOCK : Z := 1.
Definition LINUX_SIG_SETMASK : Z := 2.
Definition LINUX_SA_NOCLDSTOP : Z := 0x00000001.
Definition LINUX_SA_NOCLDWAIT : Z := 0x00000002.
Definition LINUX_SA_SIGINFO : Z := 0x00000004.
Definition LINUX_SA_ONSTACK : Z := 0x08000000.
Definition LINUX_SA_RESTART : Z := 0x10000000.
Definition LINUX_SA_NODEFER : Z := 0x40000000.
Definition LINUX_SA_RESETHAND : Z := 0x80000000.

Definition no_action : process_signal_action := MkAction 0 0 0.

(** ** Threads and processes come and go *)

Definition signal_thread_init (state : thread_state) : sthread := MkSthread state 0 signal_pending_init 0 0 0 LINUX_SS_DISABLE 0 false 0 0.
Definition signal_pending_destroy (x : signal_pending) : signal_pending := signal_pending_init.
Definition signal_thread_destroy (t : sthread) : sthread := signal_thread_init (s_state t).
Definition signal_process_init (p : sprocess) : sprocess := with_pending p signal_pending_init.
Definition signal_process_destroy (p : sprocess) : sprocess := with_pending p (signal_pending_destroy (p_pending p)).
Definition signal_thread_clone (p : sprocess) (child parent : nat) : outcome sprocess :=
  c ← thread_of p child; t ← thread_of p parent;
  Ret (put_sthread p child (set_mask (signal_thread_init (s_state c)) (signal_mask t) 0 false)).
(** In another process: the child thread of [process_fork]. *)
Definition signal_thread_fork (child parent : sthread) : sthread :=
  set_altstack (set_mask (signal_thread_init (s_state child)) (signal_mask parent) 0 false) (altstack_sp parent) (altstack_size parent) (altstack_flags parent).
Definition signal_process_fork (child parent : sprocess) : sprocess := with_actions child (signal_actions parent).
Definition signal_process_exec (p : sprocess) (i : nat) : outcome sprocess :=
  let p := with_actions p ((fun a => if handler a =? LINUX_SIG_IGN then a else no_action) <$> signal_actions p) in
  t ← thread_of p i;
  signal_thread_mask_changed_locked (put_sthread p i (set_mask (set_altstack t 0 0 LINUX_SS_DISABLE) (signal_mask t) (signal_saved_mask t) false)).

Definition set_state (t : sthread) (state : thread_state) : sthread :=
  MkSthread state (signal_mask t) (s_pending t) (process_signal_target t) (altstack_sp t) (altstack_size t) (altstack_flags t) (signal_saved_mask t) (signal_restore_mask t) (s_sequence t) (s_fatal_sequence t).
(** A slot taken by [slot_alloc], and given back by [slot_free]. *)
Definition slot_alloc (p : sprocess) (slot : nat) : outcome sprocess :=
  o ← rd (p_threads p) slot;
  Ret (with_threads p (<[slot := Some (signal_thread_init THREAD_ALLOCATED)]> (p_threads p))).
Definition slot_free (p : sprocess) (i : nat) : outcome sprocess :=
  p ← signal_thread_detach_locked p i;
  Ret (with_threads p (<[i := None]> (p_threads p))).

(** ** Faults *)

Definition signal_raise_current (p : sprocess) (i : nat) (signal code : Z) (room : bool) : outcome sprocess :=
  '(p, _) ← signal_queue_thread_locked p i signal (Some (MkInfo signal 0 code 0 0 0 0 0 0)) room; Ret p.
Definition reset_action (p : sprocess) (signal : Z) : sprocess := with_actions p (<[Z.to_nat (signal - 1) := no_action]> (signal_actions p)).
Definition signal_force_fault (p : sprocess) (i : nat) (signal code address : Z) (room : bool) : outcome sprocess :=
  t ← thread_of p i;
  let p := put_sthread p i (set_mask t (clear_bit (signal_mask t) signal) (signal_saved_mask t) (signal_restore_mask t)) in
  a ← action_of p signal;
  let p := if handler a =? LINUX_SIG_IGN then reset_action p signal else p in
  '(p, _) ← signal_queue_thread_locked p i signal (Some (MkInfo signal 0 code 0 0 0 0 0 address)) room; Ret p.

(** ** The way back to user mode *)

(** One round of the loop of [signal_user_return], up to the point where it
    sleeps, starts over, leaves the kernel or ends the process. *)
Inductive round_result :=
| Asleep
| NoSignal
| Again
| Stop (signal : Z)
| Exit (signal : Z) (core : bool)
| Handle (signal : Z) (information : signal_info) (action : process_signal_action) (frame_mask : Z).
Definition signal_user_return (p : sprocess) (i : nat) : outcome (sprocess * round_result) :=
  t ← thread_of p i;
  if stopped p && negb (is_pending (s_pending t) LINUX_SIGKILL) && negb (is_pending (p_pending p) LINUX_SIGKILL) then Ret (p, Asleep) else
  '(p, taken) ← signal_take_unblocked_locked p i;
  t ← thread_of p i;
  match taken with
  | None =>
      if signal_restore_mask t then
        p ← signal_thread_mask_changed_locked (put_sthread p i (set_mask t (signal_saved_mask t) (signal_saved_mask t) false)); Ret (p, NoSignal)
      else Ret (p, NoSignal)
  | Some (signal, information, action) =>
      if (handler action =? LINUX_SIG_IGN) || ((handler action =? LINUX_SIG_DFL) && signal_default_ignored signal) then Ret (p, Again) else
      if handler action =? LINUX_SIG_DFL then
        if signal =? LINUX_SIGCONT then Ret (p, Again) else
        if signal_default_stops signal then Ret (p, Stop signal) else
        Ret (p, Exit signal (signal_default_cores signal))
      else
        let frame_mask := if signal_restore_mask t then signal_saved_mask t else signal_mask t in
        let new_mask := Z.lor (signal_mask t) (a_mask action) in
        let new_mask := if truth (Z.land (a_flags action) LINUX_SA_NODEFER) then new_mask else Z.lor new_mask (SIGNAL_BIT signal) in
        p ← signal_thread_mask_changed_locked (put_sthread p i (set_mask t (signal_mask_sanitize new_mask) (signal_saved_mask t) false));
        let p := if truth (Z.land (a_flags action) LINUX_SA_RESETHAND) then reset_action p signal else p in
        Ret (p, Handle signal information action frame_mask)
  end.

(** [process_signal_stop] up to its loop, and the test of that loop; it sleeps
    with [wait_queue_sleep], which signals do not end. *)
Definition process_signal_stop (p : sprocess) : sprocess := if negb (stopped p) && negb (group_exiting p) then with_stopped p true else p.
Definition stays_stopped (p : sprocess) : bool := stopped p && negb (group_exiting p).
Definition process_signal_exit (p : sprocess) : sprocess := called (with_stopped (with_group_exiting p true) false) WakeWaiters.

(** The mask part of [sys_linux_rt_sigreturn], with the mask of the frame. *)
Definition sigreturn_mask (p : sprocess) (i : nat) (mask : Z) : outcome sprocess :=
  t ← thread_of p i;
  signal_thread_mask_changed_locked (put_sthread p i (set_mask t (signal_mask_sanitize mask) (signal_saved_mask t) false)).

(** ** System calls

    An argument read from the user: no address given, an address that cannot be
    read, or its value. *)
Inductive user_arg (A : Type) := NoArg | BadArg | Arg (a : A).
Arguments NoArg {A}.
Arguments BadArg {A}.
Arguments Arg {A} a.

Definition supported_flags : Z :=
  Z.lor LINUX_SA_NOCLDSTOP (Z.lor LINUX_SA_NOCLDWAIT (Z.lor LINUX_SA_SIGINFO (Z.lor LINUX_SA_ONSTACK (Z.lor LINUX_SA_RESTART (Z.lor LINUX_SA_NODEFER LINUX_SA_RESETHAND))))).
(** The process, the result and the old action; [old_ok]: [copyout] of it succeeds or is not asked for. *)
Definition sys_linux_rt_sigaction (p : sprocess) (signal : Z) (action : user_arg process_signal_action) (sigset_size : Z) (old_ok : bool) : outcome (sprocess * Z * option process_signal_action) :=
  if negb (signal_valid signal) || negb (sigset_size =? LINUX_SIGSET_SIZE) then Ret (p, - LINUX_EINVAL, None) else
  let finish p old := Ret (p, if old_ok then 0 else - LINUX_EFAULT, Some old) in
  match action with
  | BadArg => Ret (p, - LINUX_EFAULT, None)
  | NoArg => old ← action_of p signal; finish p old
  | Arg r =>
      let flags := wrap32 (a_flags r) in
      if (signal =? LINUX_SIGKILL) || (signal =? LINUX_SIGSTOP) || truth (Z.land flags (Z.lnot supported_flags)) then Ret (p, - LINUX_EINVAL, None) else
      old ← action_of p signal;
      let p := with_actions p (<[Z.to_nat (signal - 1) := MkAction (handler r) flags (signal_mask_sanitize (a_mask r))]> (signal_actions p)) in
      finish (if (handler r =? LINUX_SIG_IGN) || ((handler r =? LINUX_SIG_DFL) && signal_default_ignored signal) then signal_clear_locked p signal else p) old
  end.

Definition sys_linux_rt_sigprocmask (p : sprocess) (i : nat) (how : Z) (mask : user_arg Z) (sigset_size : Z) (old_ok : bool) : outcome (sprocess * Z * option Z) :=
  if negb (sigset_size =? LINUX_SIGSET_SIZE) then Ret (p, - LINUX_EINVAL, None) else
  match mask with
  | BadArg => Ret (p, - LINUX_EFAULT, None)
  | NoArg => t ← thread_of p i; Ret (p, if old_ok then 0 else - LINUX_EFAULT, Some (signal_mask t))
  | Arg mask =>
      t ← thread_of p i;
      let mask := signal_mask_sanitize mask in
      let new := if how =? LINUX_SIG_BLOCK then Some (Z.lor (signal_mask t) mask) else
                 if how =? LINUX_SIG_UNBLOCK then Some (Z.land (signal_mask t) (Z.lnot mask)) else
                 if how =? LINUX_SIG_SETMASK then Some mask else None in
      match new with
      | None => Ret (p, - LINUX_EINVAL, None)
      | Some new =>
          p ← signal_thread_mask_changed_locked (put_sthread p i (set_mask t new (signal_saved_mask t) (signal_restore_mask t)));
          Ret (p, if old_ok then 0 else - LINUX_EFAULT, Some (signal_mask t))
      end
  end.
Definition sys_linux_rt_sigpending (p : sprocess) (i : nat) : outcome Z :=
  t ← thread_of p i; Ret (Z.land (Z.lor (bits (p_pending p)) (bits (s_pending t))) (signal_mask t)).

(** [sys_linux_rt_sigsuspend] and [ppoll] up to their wait: the mask is replaced
    until the way back to user mode. *)
Definition suspend_mask (p : sprocess) (i : nat) (mask : Z) : outcome sprocess :=
  t ← thread_of p i;
  signal_thread_mask_changed_locked (put_sthread p i (set_mask t (signal_mask_sanitize mask) (signal_mask t) true)).
(** The test of the loop of [sys_linux_rt_sigsuspend]. *)
Definition stays_suspended (p : sprocess) (i : nat) : outcome bool :=
  b ← signal_pending_unblocked p i; Ret (negb b && negb (group_exiting p)).

(** One round of the loop of [sys_linux_rt_sigtimedwait], up to its sleep. *)
Inductive timedwait_result := Taken (signal : Z) (information : signal_info) | Interrupted | Expired | Wait (remaining : option Z).
Definition sys_linux_rt_sigtimedwait (p : sprocess) (i : nat) (set : Z) (timeout_ms : option Z) (elapsed : Z) : outcome (sprocess * timedwait_result) :=
  '(p, taken) ← signal_take_set_locked p i (signal_mask_sanitize set) false;
  t ← thread_of p i;
  match taken with
  | Some (signal, information) => Ret (p, Taken signal information)
  | None =>
      if truth (Z.land (Z.lor (bits (p_pending p)) (bits (s_pending t))) (Z.lnot (signal_mask t))) then Ret (p, Interrupted) else
      match timeout_ms with
      | None => Ret (p, Wait None)
      | Some timeout_ms => Ret (p, if timeout_ms <=? elapsed then Expired else Wait (Some (timeout_ms -64 elapsed)))
      end
  end.
Definition signal_timeout_ms (seconds nanoseconds : Z) : option Z :=
  if (seconds <? 0) || (nanoseconds <? 0) || (1000000000 <=? nanoseconds) then None else
  if (UINT64_MAX - 999999999) / 1000 <? seconds then Some UINT64_MAX else
  Some (seconds *64 1000 +64 (nanoseconds + 999999) / 1000000).
