(* ===== verification/SignalInv.v ===== *)
(** * Signals: well-formed pending sets

    The bits of signal sets, and [pending_ok], the invariant of a set of pending
    signals, with what storing, clearing and taking do to it. *)
From S2P Require Import Prelude Scheduler Signal.

Create HintDb signals.

(** ** Bits of signal sets *)

Definition holds (b signal : Z) : bool := Z.testbit b (signal - 1).
Definition is_signal (s : Z) : Prop := 1 <= s <= 64.

Lemma truth_land_bit b s : is_signal s -> truth (Z.land b (SIGNAL_BIT s)) = holds b s.
Proof.
  unfold is_signal, truth, SIGNAL_BIT, holds. intros Hs. rewrite Z.shiftl_1_l.
  destruct (Z.eqb_spec (Z.land b (2 ^ (s - 1))) 0) as [E|E]; cbn.
  - symmetry. apply (f_equal (fun x => Z.testbit x (s - 1))) in E. rewrite Z.land_spec, Z.pow2_bits_true, andb_true_r, Z.bits_0 in E by lia. done.
  - destruct (Z.testbit b (s - 1)) eqn:Eb; [done|]. exfalso. apply E. apply Z.bits_inj'. intros n Hn.
    rewrite Z.land_spec, Z.bits_0, Z.pow2_bits_eqb by lia. destruct (Z.eqb_spec (s - 1) n) as [<-|]; [by rewrite Eb|by rewrite andb_false_r].
Qed.
Lemma holds_bit s r : is_signal s -> is_signal r -> holds (SIGNAL_BIT s) r = (s =? r).
Proof. unfold is_signal, holds, SIGNAL_BIT. intros. rewrite Z.shiftl_1_l, Z.pow2_bits_eqb by lia. apply eq_true_iff_eq. rewrite !Z.eqb_eq. lia. Qed.
Lemma holds_lor a b s : holds (Z.lor a b) s = holds a s || holds b s.
Proof. apply Z.lor_spec. Qed.
Lemma holds_land a b s : holds (Z.land a b) s = holds a s && holds b s.
Proof. apply Z.land_spec. Qed.
Lemma holds_lnot a s : is_signal s -> holds (Z.lnot a) s = negb (holds a s).
Proof. unfold is_signal, holds. intros. apply Z.lnot_spec. lia. Qed.
Lemma holds_set b s r : is_signal s -> is_signal r -> holds (Z.lor b (SIGNAL_BIT s)) r = holds b r || (s =? r).
Proof. intros. by rewrite holds_lor, holds_bit. Qed.
Lemma holds_clear b s r : is_signal s -> is_signal r -> holds (clear_bit b s) r = holds b r && negb (s =? r).
Proof. intros. unfold clear_bit. by rewrite holds_land, holds_lnot, holds_bit. Qed.
Lemma is_pending_holds x s : is_signal s -> is_pending x s = holds (bits x) s.
Proof. apply truth_land_bit. Qed.

Lemma land_u64 a b : is_u64 a -> is_u64 (Z.land a b).
Proof.
  unfold is_u64. intros Ha. assert (0 <= Z.land a b) by (apply Z.land_nonneg; lia). enough (Z.land a b <= a) by lia.
  apply Z.ldiff_le; [lia|]. apply Z.bits_inj'. intros n Hn. rewrite Z.ldiff_spec, Z.land_spec, Z.bits_0. destruct (Z.testbit a n), (Z.testbit b n); done.
Qed.
Lemma lor_u64 a b : is_u64 a -> is_u64 b -> is_u64 (Z.lor a b).
Proof.
  unfold is_u64. intros Ha Hb. assert (0 <= Z.lor a b) by (apply Z.lor_nonneg; lia). split; [done|].
  destruct (Z.eq_dec (Z.lor a b) 0) as [->|]; [lia|]. apply Z.log2_lt_pow2; [lia|]. rewrite Z.log2_lor by lia.
  assert (forall x, 0 <= x < 2 ^ 64 -> Z.log2 x < 64) as Hl.
  { intros x Hx. destruct (Z.eq_dec x 0) as [->|]; [done|]. apply Z.log2_lt_pow2; lia. }
  pose proof (Hl a Ha). pose proof (Hl b Hb). lia.
Qed.
Lemma bit_u64 s : is_signal s -> is_u64 (SIGNAL_BIT s).
Proof. unfold is_signal, is_u64, SIGNAL_BIT. intros. rewrite Z.shiftl_1_l. split; [lia|]. apply Z.pow_lt_mono_r; lia. Qed.
#[export] Hint Resolve land_u64 lor_u64 bit_u64 : signals.

(** A signal set that is empty where the signals are is empty. *)
Lemma set_inhabited b : is_u64 b -> truth b = true -> exists s, is_signal s /\ holds b s = true.
Proof.
  unfold is_u64, truth, holds, is_signal. intros Hb Ht. bool_to_prop.
  exists (Z.log2 b + 1). replace (Z.log2 b + 1 - 1) with (Z.log2 b) by lia. split; [|by apply Z.bit_log2; lia].
  pose proof (Z.log2_nonneg b). assert (Z.log2 b < 64) by (apply Z.log2_lt_pow2; lia). lia.
Qed.
Lemma set_empty b s : truth b = false -> holds b s = false.
Proof. unfold truth, holds. intros H. bool_to_prop. subst. apply Z.bits_0. Qed.

(** ** Pending sets *)

Record pending_ok (x : signal_pending) : Prop := {
  po_bits : is_u64 (bits x);
  po_information : length (information x) = 64%nat;
  po_count : realtime_count x = Z.of_nat (length (realtime x));
  po_limit : (length (realtime x) <= 128)%nat;
  po_queued e : e ∈ realtime x -> 32 <= i_signal e <= 64;
  po_realtime s : 32 <= s <= 64 -> holds (bits x) s = true <-> exists e, e ∈ realtime x /\ i_signal e = s;
  po_standard s : 1 <= s < 32 -> holds (bits x) s = true -> exists e, information x !! Z.to_nat (s - 1) = Some e /\ i_signal e = s
}.

Lemma pending_init_ok : pending_ok signal_pending_init.
Proof.
  split; cbn; [by unfold is_u64|done|done|lia|..].
  - intros e He. by apply elem_of_nil in He.
  - intros s Hs. unfold holds. rewrite Z.bits_0. split; [done|]. intros (e & He & _). by apply elem_of_nil in He.
  - intros s Hs. unfold holds. by rewrite Z.bits_0.
Qed.

Lemma filter_lengths {A} (P : A -> Prop) `{!forall x, Decision (P x)} (l : list A) : (length (filter P l) + length (filter (fun x => ~ P x) l) = length l)%nat.
Proof. induction l as [|x l IH]; [done|]. rewrite !filter_cons. repeat case_decide; cbn; try tauto; lia. Qed.

Lemma slot_ne s r : is_signal s -> is_signal r -> s <> r -> Z.to_nat (s - 1) <> Z.to_nat (r - 1).
Proof. unfold is_signal. lia. Qed.

Lemma pending_clear_ok x s : is_signal s -> pending_ok x -> pending_ok (signal_pending_clear x s).
Proof.
  intros Hs [H1 H2 H3 H4 H5 H6 H7].
  pose proof (filter_lengths (fun e => i_signal e = s) (realtime x)) as Hl.
  split; cbn.
  - unfold clear_bit. auto with signals.
  - by rewrite length_insert.
  - rewrite H3. unwrap32. lia.
  - lia.
  - intros e He. apply list_elem_of_filter in He as [_ He]. auto.
  - intros r Hr. rewrite holds_clear, andb_true_iff, negb_true_iff, Z.eqb_neq, (H6 r Hr) by (unfold is_signal in *; lia).
    setoid_rewrite list_elem_of_filter. naive_solver.
  - intros r Hr. rewrite holds_clear by (unfold is_signal in *; lia). intros Hb. bool_to_prop.
    rewrite list_lookup_insert_ne by (apply slot_ne; unfold is_signal in *; lia). auto.
Qed.
Lemma pending_clear_holds x s r : is_signal s -> is_signal r -> holds (bits (signal_pending_clear x s)) r = holds (bits x) r && negb (s =? r).
Proof. apply holds_clear. Qed.

(** What a send does to a set: refused only when the realtime queue is full or
    there is no memory; otherwise exactly this signal becomes pending. *)
Lemma store_pending_ok x s info room : is_signal s -> pending_ok x ->
  match signal_store_pending x s info room with
  | inl e => e = SIGNAL_QUEUE_FULL /\ 32 <= s /\ (room = false \/ length (realtime x) = 128%nat)
  | inr x' => pending_ok x' /\ forall r, is_signal r -> holds (bits x') r = holds (bits x) r || (s =? r)
  end.
Proof.
  intros Hs [H1 H2 H3 H4 H5 H6 H7]. unfold signal_store_pending, LINUX_SIGRTMIN, SIGNAL_REALTIME_LIMIT.
  destruct (Z.leb_spec 32 s) as [Hrt|Hstd].
  - destruct (Z.leb_spec 128 (realtime_count x)); [by split; [|split; [|right; lia]]|]. destruct room; cbn; [|by auto].
    split; [|by intros; apply holds_set]. split; cbn; auto with signals.
    + rewrite H3, length_app. cbn. unwrap32. lia.
    + rewrite length_app. cbn. lia.
    + intros e. rewrite elem_of_app, list_elem_of_singleton. intros [He| ->]; [auto|]. cbn. unfold is_signal in *. lia.
    + intros r Hr. rewrite holds_set, orb_true_iff, Z.eqb_eq, (H6 r Hr) by (unfold is_signal in *; lia).
      setoid_rewrite elem_of_app. setoid_rewrite list_elem_of_singleton. split; [|naive_solver].
      intros [(e & He & Hes)|<-]; [eauto|]. eexists. split; [by right|done].
    + intros r Hr. rewrite holds_set by (unfold is_signal in *; lia). rewrite (proj2 (Z.eqb_neq s r)), orb_false_r by lia. auto.
  - rewrite is_pending_holds by done. destruct (holds (bits x) s) eqn:Eb.
    + split; [by split|]. intros r Hr. destruct (Z.eqb_spec s r) as [<-|]; [by rewrite Eb|by rewrite orb_false_r].
    + split; [|by intros; apply holds_set]. split; cbn; auto with signals.
      * by rewrite length_insert.
      * intros r Hr. rewrite holds_set by (unfold is_signal in *; lia). rewrite (proj2 (Z.eqb_neq s r)), orb_false_r by lia. auto.
      * intros r Hr. rewrite holds_set by (unfold is_signal in *; lia). destruct (Z.eqb_spec s r) as [<-|Hne].
        -- intros _. rewrite list_lookup_insert_eq by (rewrite H2; unfold is_signal in *; lia). eauto.
        -- rewrite orb_false_r, list_lookup_insert_ne by (apply slot_ne; unfold is_signal in *; lia). auto.
Qed.

(** The queue of one signal. *)
Definition queued (x : signal_pending) (s : Z) : list signal_info := filter (fun e => i_signal e = s) (realtime x).

Lemma take_entry_spec l s :
  match take_entry l s with
  | Some (e, l') => i_signal e = s /\ (exists l1 l2, l = l1 ++ e :: l2 /\ l' = l1 ++ l2 /\ Forall (fun e => i_signal e <> s) l1)
  | None => Forall (fun e => i_signal e <> s) l
  end.
Proof.
  induction l as [|x l IH]; cbn; [done|]. destruct (Z.eqb_spec (i_signal x) s) as [E|E].
  - split; [done|]. by exists [], l.
  - destruct (take_entry l s) as [[e l']|]; cbn; [|by constructor].
    destruct IH as (He & l1 & l2 & -> & -> & Hf). split; [done|]. exists (x :: l1), l2. split; [done|]. split; [done|]. by constructor.
Qed.

(** Taking a pending signal finds it: the information is the oldest queued for
    the signal, and the signal stays pending exactly when more are queued. *)
Lemma take_from_ok x s : is_signal s -> pending_ok x -> holds (bits x) s = true ->
  exists e x' gone, take_from x s = Ret (e, x', gone) /\ pending_ok x' /\ i_signal e = s /\
    (forall r, is_signal r -> holds (bits x') r = holds (bits x) r && negb (gone && (s =? r))) /\
    (if 32 <=? s then queued x s = e :: queued x' s /\ (forall r, r <> s -> queued x' r = queued x r) /\ gone = bool_decide (queued x' s = [])
     else information x !! Z.to_nat (s - 1) = Some e /\ gone = true /\ realtime x' = realtime x).
Proof.
  intros Hs [H1 H2 H3 H4 H5 H6 H7] Hb. unfold take_from, LINUX_SIGRTMIN. destruct (Z.leb_spec 32 s) as [Hrt|Hstd].
  - pose proof (take_entry_spec (realtime x) s) as Ht. destruct (take_entry (realtime x) s) as [[e l]|].
    2:{ exfalso. apply H6 in Hb as (e & He & Hes); [|unfold is_signal in *; lia]. rewrite Forall_forall in Ht. by apply (Ht e). }
    destruct Ht as (Hes & l1 & l2 & Hl & -> & Hf). eexists e, _, _. split; [done|].
    set (gone := negb _).
    assert (Hq1 : filter (fun e => i_signal e = s) l1 = []).
    { clear -Hf. induction Hf as [|y l Hy _ IH]; [done|]. rewrite filter_cons_False; done. }
    assert (Hgone : gone = bool_decide (filter (fun e => i_signal e = s) (l1 ++ l2) = [])).
    { unfold gone. pose proof (take_entry_spec (l1 ++ l2) s) as Ht. destruct (take_entry (l1 ++ l2) s) as [[e' l']|]; cbn.
      - symmetry. apply bool_decide_eq_false. destruct Ht as (He' & m1 & m2 & -> & _ & _). rewrite filter_app, filter_cons_True by done. by destruct (filter _ m1).
      - symmetry. apply bool_decide_eq_true. clear -Ht. induction Ht as [|y l Hy _ IH]; [done|]. by rewrite filter_cons_False. }
    assert (Hin : forall r, (exists e', e' ∈ l1 ++ l2 /\ i_signal e' = r) <-> (exists e', e' ∈ realtime x /\ i_signal e' = r) /\ (r = s -> gone = false)).
    { intros r. rewrite Hgone, bool_decide_eq_false. rewrite Hl. setoid_rewrite elem_of_app. setoid_rewrite elem_of_cons. split.
      - intros (e' & He' & <-). split; [naive_solver|]. intros Hr Hnil. apply (filter_nil_not_elem_of _ _ e' Hnil); [done|]. by apply elem_of_app.
      - intros [(e' & He' & <-) Hs']. destruct (decide (i_signal e' = s)) as [E|E]; [|exists e'; naive_solver].
        destruct (filter (fun e => i_signal e = s) (l1 ++ l2)) as [|e2 m] eqn:Ef; [by destruct (Hs' E)|].
        assert (He2 : e2 ∈ filter (fun e => i_signal e = s) (l1 ++ l2)) by (rewrite Ef; left). apply list_elem_of_filter in He2 as [Hs2 He2].
        exists e2. split; [by apply elem_of_app|congruence]. }
    assert (Hbits : forall r, is_signal r -> holds (if gone then clear_bit (bits x) s else bits x) r = holds (bits x) r && negb (gone && (s =? r))).
    { intros r Hr. destruct gone; cbn; [by apply holds_clear|by rewrite andb_true_r]. }
    split; [|split; [done|split; [done|]]].
    + split; cbn.
      * destruct gone; unfold clear_bit; auto with signals.
      * done.
      * rewrite H3, Hl, !length_app. cbn. rewrite Hl, length_app in H4. cbn in H4. unwrap32. lia.
      * rewrite Hl, length_app in H4. cbn in H4. rewrite length_app. lia.
      * intros e' He'. apply H5. rewrite Hl. set_solver.
      * intros r Hr. rewrite Hbits, Hin, andb_true_iff, (H6 r Hr), negb_true_iff, andb_false_iff, Z.eqb_neq by (unfold is_signal; lia).
        apply and_iff_compat_l. split; [by intros [?|?] ?; [|congruence]|]. intros Hg. destruct (decide (r = s)); [left; by apply Hg|right; congruence].
      * intros r Hr. rewrite Hbits by (unfold is_signal; lia). intros Hh. bool_to_prop. auto.
    + unfold queued. cbn [realtime]. rewrite Hl, !filter_app, Hq1, filter_cons_True by done. cbn [app].
      split; [done|]. split.
      * intros r Hr. rewrite !filter_app, filter_cons_False by congruence. done.
      * by rewrite Hgone, filter_app, Hq1.
  - destruct (H7 s) as (e & He & Hes); [unfold is_signal in *; lia|done|]. rewrite (rd_Ret _ _ e) by done.
    eexists e, _, true. split; [done|]. split; [|split; [done|split; [by intros; apply holds_clear|done]]].
    split; cbn; auto.
    + unfold clear_bit. auto with signals.
    + by rewrite length_insert.
    + intros r Hr. rewrite holds_clear, (proj2 (Z.eqb_neq s r)), andb_true_r by (unfold is_signal in *; lia). auto.
    + intros r Hr. rewrite holds_clear by (unfold is_signal in *; lia). intros Hh. bool_to_prop.
      rewrite list_lookup_insert_ne by (apply slot_ne; unfold is_signal in *; lia). auto.
Qed.
