(* ===== verification/SignalTargets.v ===== *)
(** * Signals: retargeting

    What a signal operation leaves as it is ([quiet]), which thread a signal of
    the process is targeted at ([tgt]), and the loops that choose new targets. *)
From S2P Require Import Prelude Scheduler Signal SignalInv.

(** A process without the targets and what goes with waking them. *)
Definition erase (t : sthread) : sthread := set_sequences (set_target t 0) 0 0.
Definition quiet (p : sprocess) : sprocess := MkSprocess (p_live p) (p_pending p) (signal_actions p) (each_thread erase (p_threads p)) (stopped p) (group_exiting p) [].
Definition tgt (p : sprocess) (i : nat) (s : Z) : bool := targeted (p_threads p) i s.
Definition tble (p : sprocess) (i : nat) (s : Z) (exclude : option nat) : bool := signal_thread_targetable_locked (p_threads p) i s exclude.

Definition mask_ok (m : Z) : Prop := is_u64 m /\ holds m LINUX_SIGKILL = false /\ holds m LINUX_SIGSTOP = false.
Definition thread_ok (t : sthread) : Prop := pending_ok (s_pending t) /\ mask_ok (signal_mask t) /\ mask_ok (signal_saved_mask t).
Definition base_ok (p : sprocess) : Prop :=
  pending_ok (p_pending p) /\ (length (signal_actions p) = 64%nat /\ Forall (fun a => is_u64 (a_mask a)) (signal_actions p)) /\ forall i t, p_threads p !! i = Some (Some t) -> thread_ok t.
(** Targets are pending, and no signal has two. *)
Definition targets_ok (p : sprocess) : Prop :=
  (forall i t, p_threads p !! i = Some (Some t) -> is_u64 (process_signal_target t)) /\
  (forall s i j, is_signal s -> tgt p i s = true -> tgt p j s = true -> i = j) /\
  (forall s i, is_signal s -> tgt p i s = true -> holds (bits (p_pending p)) s = true).
Definition signals_ok (p : sprocess) : Prop := base_ok p /\ targets_ok p.
(** A pending signal that a thread could take has such a thread for its target. *)
Definition settled (p : sprocess) (s : Z) (exclude : option nat) : Prop :=
  holds (bits (p_pending p)) s = true -> (exists i, tble p i s exclude = true) -> exists i, tgt p i s = true /\ tble p i s exclude = true.

(** ** Slots *)

Lemma lookup_each f l i : each_thread f l !! i = (fmap (M := option) f) <$> l !! i.
Proof. apply list_lookup_fmap. Qed.
Lemma length_each f l : length (each_thread f l) = length l.
Proof. apply length_fmap. Qed.
Lemma thread_of_Ret p i t : p_threads p !! i = Some (Some t) -> thread_of p i = Ret t.
Proof. intros H. unfold thread_of. by rewrite (rd_Ret _ _ _ H). Qed.
Lemma put_sthread_lookup p i t j : (i < length (p_threads p))%nat -> p_threads (put_sthread p i t) !! j = if decide (i = j) then Some (Some t) else p_threads p !! j.
Proof. intros Hi. cbn. case_decide; [subst; by apply list_lookup_insert_eq|by apply list_lookup_insert_ne]. Qed.

Lemma tgt_lookup p i s : is_signal s -> tgt p i s = match p_threads p !! i with Some (Some t) => holds (process_signal_target t) s | _ => false end.
Proof. intros Hs. unfold tgt, targeted. destruct (p_threads p !! i) as [[t|]|]; [|done..]. by apply truth_land_bit. Qed.
Lemma tgt_live p i s : tgt p i s = true -> exists t, p_threads p !! i = Some (Some t).
Proof. unfold tgt, targeted. destruct (p_threads p !! i) as [[t|]|]; [eauto|done..]. Qed.
Lemma tble_live p i s ex : tble p i s ex = true -> exists t, p_threads p !! i = Some (Some t) /\ ex <> Some i /\ targetable t s = true.
Proof.
  unfold tble, signal_thread_targetable_locked. destruct (p_threads p !! i) as [[t|]|]; [|done..].
  rewrite andb_true_iff, negb_true_iff, bool_decide_eq_false. eauto.
Qed.
Lemma tble_intro p i s ex t : p_threads p !! i = Some (Some t) -> ex <> Some i -> targetable t s = true -> tble p i s ex = true.
Proof. intros H1 H2 H3. unfold tble, signal_thread_targetable_locked. rewrite H1, H3, bool_decide_eq_false_2 by done. done. Qed.
Lemma targetable_erase t s : targetable (erase t) s = targetable t s.
Proof. done. Qed.

Lemma first_slot_Some f n i : first_slot f n = Some i -> (i < n)%nat /\ f i = true.
Proof.
  unfold first_slot. intros H. apply head_Some_elem_of in H. apply list_elem_of_filter in H as [Hf Hi]. apply elem_of_seq in Hi. split; [lia|done].
Qed.
Lemma first_slot_None f n : first_slot f n = None -> forall i, (i < n)%nat -> f i = false.
Proof.
  unfold first_slot. intros H i Hi. apply head_None in H. destruct (f i) eqn:E; [|done]. exfalso.
  apply (filter_nil_not_elem_of _ _ i H E). apply elem_of_seq. lia.
Qed.
Lemma tble_slot p i s ex : tble p i s ex = true -> (i < length (p_threads p))%nat.
Proof. intros H. apply tble_live in H as (t & H & _). by apply lookup_lt_Some in H. Qed.

(** ** What stays *)

Lemma quiet_lookup p q i t : quiet p = quiet q -> p_threads p !! i = Some (Some t) -> exists u, p_threads q !! i = Some (Some u) /\ erase u = erase t.
Proof.
  intros Hq Ht. assert (H : p_threads (quiet p) !! i = p_threads (quiet q) !! i) by by rewrite Hq. cbn in H. rewrite !lookup_each, Ht in H.
  destruct (p_threads q !! i) as [[u|]|]; cbn in H; [|done..]. exists u. split; [done|congruence].
Qed.
Lemma quiet_none p q i : quiet p = quiet q -> p_threads p !! i = Some None -> p_threads q !! i = Some None.
Proof.
  intros Hq Ht. assert (H : p_threads (quiet p) !! i = p_threads (quiet q) !! i) by by rewrite Hq. cbn in H. rewrite !lookup_each, Ht in H.
  by destruct (p_threads q !! i) as [[u|]|].
Qed.
Lemma quiet_length p q : quiet p = quiet q -> length (p_threads p) = length (p_threads q).
Proof. intros Hq. apply (f_equal (fun x => length (p_threads x))) in Hq. cbn in Hq. by rewrite !length_each in Hq. Qed.
Lemma quiet_fields p q : quiet p = quiet q -> p_live p = p_live q /\ p_pending p = p_pending q /\ signal_actions p = signal_actions q /\ stopped p = stopped q /\ group_exiting p = group_exiting q.
Proof. intros Hq. unfold quiet in Hq. injection Hq. auto. Qed.
Lemma erase_fields t u : erase t = erase u ->
  s_state t = s_state u /\ signal_mask t = signal_mask u /\ s_pending t = s_pending u /\ signal_saved_mask t = signal_saved_mask u /\ signal_restore_mask t = signal_restore_mask u /\
  altstack_sp t = altstack_sp u /\ altstack_size t = altstack_size u /\ altstack_flags t = altstack_flags u.
Proof. destruct t, u. cbn. unfold erase. cbn. intros. by simplify_eq. Qed.
Lemma thread_ok_erase t u : erase t = erase u -> thread_ok t -> thread_ok u.
Proof. intros H. apply erase_fields in H as (_ & Hm & Hp & Hs & _). unfold thread_ok. by rewrite Hm, Hp, Hs. Qed.
Lemma base_quiet p q : quiet p = quiet q -> base_ok p -> base_ok q.
Proof.
  intros Hq (H1 & H2 & H3). destruct (quiet_fields p q Hq) as (_ & E1 & E2 & _). split; [by rewrite <-E1|]. split; [by rewrite <-E2|].
  intros i u Hu. symmetry in Hq. destruct (quiet_lookup q p i u Hq Hu) as (t & Ht & He). apply (thread_ok_erase t); eauto.
Qed.
Lemma tble_quiet p q i s ex : quiet p = quiet q -> tble p i s ex = tble q i s ex.
Proof.
  intros Hq. apply eq_true_iff_eq. assert (forall p q, quiet p = quiet q -> tble p i s ex = true -> tble q i s ex = true) as H.
  { clear. intros p q Hq H. apply tble_live in H as (t & Ht & Hex & Hs). destruct (quiet_lookup p q i t Hq Ht) as (u & Hu & He).
    apply (tble_intro _ _ _ _ u); [done..|]. rewrite <-targetable_erase in *. congruence. }
  split; by apply H.
Qed.

(** ** Choosing targets *)

Lemma quiet_put p i t u : p_threads p !! i = Some (Some t) -> erase u = erase t -> quiet (put_sthread p i u) = quiet p.
Proof.
  intros Ht He. unfold quiet. cbn. f_equal. unfold each_thread. rewrite list_fmap_insert. cbn. rewrite He. apply list_insert_id. by rewrite list_lookup_fmap, Ht.
Qed.
Lemma quiet_called p c : quiet (called p c) = quiet p.
Proof. done. Qed.
Lemma quiet_clear p s : quiet (signal_target_clear_locked p s) = quiet p.
Proof. unfold quiet. cbn. f_equal. unfold each_thread. rewrite <-list_fmap_compose. apply list_fmap_ext. intros i [t|] _; done. Qed.

Lemma tgt_clear p s i r : is_signal s -> is_signal r -> tgt (signal_target_clear_locked p s) i r = tgt p i r && negb (s =? r).
Proof.
  intros Hs Hr. rewrite !tgt_lookup by done. cbn. rewrite lookup_each. destruct (p_threads p !! i) as [[t|]|]; cbn; [|done..]. by apply holds_clear.
Qed.
Lemma clear_targets_u64 p s : (forall i t, p_threads p !! i = Some (Some t) -> is_u64 (process_signal_target t)) ->
  forall i t, p_threads (signal_target_clear_locked p s) !! i = Some (Some t) -> is_u64 (process_signal_target t).
Proof.
  intros H i t. cbn. rewrite lookup_each. destruct (p_threads p !! i) as [[u|]|] eqn:Eu; cbn; [|done..]. intros [= <-]. cbn. unfold clear_bit. eauto with signals.
Qed.
(** Removing the targets of one signal keeps the others. *)
Lemma targets_ok_clear p s : is_signal s -> targets_ok p -> targets_ok (signal_target_clear_locked p s).
Proof.
  intros Hs (H1 & H2 & H3). split; [|split].
  - by apply clear_targets_u64.
  - intros r i j Hr. rewrite !tgt_clear by done. intros. bool_to_prop. eauto.
  - intros r i Hr. rewrite tgt_clear by done. intros. bool_to_prop. eauto.
Qed.

Lemma action_Ret p s : base_ok p -> is_signal s -> exists a, action_of p s = Ret a /\ signal_actions p !! Z.to_nat (s - 1) = Some a.
Proof.
  intros (_ & (Hl & _) & _) Hs. destruct (lookup_lt_is_Some_2 (signal_actions p) (Z.to_nat (s - 1))) as [a Ha]; [unfold is_signal in *; lia|].
  exists a. split; [|done]. by apply rd_Ret.
Qed.
Lemma fatal_Ret p s : base_ok p -> is_signal s -> exists b, signal_fatal_locked p s = Ret b.
Proof. intros Hb Hs. unfold signal_fatal_locked. destruct (action_Ret p s Hb Hs) as (a & -> & _). cbn. case_if; eauto. Qed.

(** Waking a thread for a signal records the call and leaves the rest. *)
Lemma target_wake_spec p i s t : base_ok p -> is_signal s -> p_threads p !! i = Some (Some t) ->
  exists p' fatal, signal_target_wake_locked p i s = Ret p' /\ quiet p' = quiet p /\ (signal_fatal_locked p s = Ret fatal /\ p_calls p' = p_calls p ++ [WakeThread i fatal]) /\
    (forall j u, p_threads p' !! j = Some (Some u) -> exists u0, p_threads p !! j = Some (Some u0) /\ process_signal_target u = process_signal_target u0) /\
    forall j r, tgt p' j r = tgt p j r.
Proof.
  intros Hb Hs Ht. unfold signal_target_wake_locked. destruct (fatal_Ret p s Hb Hs) as [fatal Hfatal]. rewrite Hfatal. cbn.
  rewrite (thread_of_Ret _ _ _ Ht). cbn. pose proof (lookup_lt_Some _ _ _ Ht) as Hi. eexists _, fatal. split; [done|].
  split; [rewrite quiet_called; by apply (quiet_put _ _ t)|]. split; [done|]. split.
  - intros j u. change (p_threads (called ?p _)) with (p_threads p). rewrite put_sthread_lookup by done. case_decide; [subst; intros [= <-]; eauto|eauto].
  - intros j r. unfold tgt, targeted. change (p_threads (called ?p _)) with (p_threads p). rewrite put_sthread_lookup by done. case_decide; [subst; by rewrite Ht|done].
Qed.

(** The calls that wake somebody made since, and a wake-up of a thread for a signal among them, for good if the signal is
    fatal. *)
Definition new_calls (p p' : sprocess) : list wake_call := drop (length (p_calls p)) (p_calls p').
Definition woken (p p' : sprocess) (i : nat) (s : Z) : Prop := exists fatal, signal_fatal_locked p s = Ret fatal /\ WakeThread i fatal ∈ new_calls p p'.
Lemma new_calls_app p p' l : p_calls p' = p_calls p ++ l -> new_calls p p' = l.
Proof. intros H. unfold new_calls. rewrite H. apply drop_app_length. Qed.
Lemma new_calls_trans p q p' c : p_calls p `prefix_of` p_calls q -> p_calls q `prefix_of` p_calls p' -> c ∈ new_calls p q \/ c ∈ new_calls q p' -> c ∈ new_calls p p'.
Proof.
  intros [l Hl] [m Hm]. rewrite (new_calls_app p q l Hl), (new_calls_app q p' m Hm), (new_calls_app p p' (l ++ m)); [|by rewrite Hm, Hl, app_assoc]. set_solver.
Qed.
Lemma fatal_actions p q s : signal_actions q = signal_actions p -> signal_fatal_locked q s = signal_fatal_locked p s.
Proof. intros H. unfold signal_fatal_locked, action_of. by rewrite H. Qed.
Lemma fatal_quiet p q s : quiet q = quiet p -> signal_fatal_locked q s = signal_fatal_locked p s.
Proof. intros (_ & _ & H & _)%quiet_fields. by apply fatal_actions. Qed.

(** What a retargeting call promises: only the targets of its signal change, the
    signal is settled, and a thread that becomes its target is woken. *)
Definition retargeted (p p' : sprocess) (s : Z) (ex : option nat) : Prop :=
  quiet p' = quiet p /\ targets_ok p' /\ (forall i r, is_signal r -> r <> s -> tgt p' i r = tgt p i r) /\ settled p' s ex /\
  (forall i, tgt p' i s = true -> tgt p i s = true \/ tble p' i s ex = true /\ woken p p' i s) /\ p_calls p `prefix_of` p_calls p'.

Lemma targets_ok_assign p s i t : is_signal s -> targets_ok p -> p_threads p !! i = Some (Some t) ->
  holds (bits (p_pending p)) s = true -> (forall j, tgt p j s = false) ->
  let p' := put_sthread p i (set_target t (Z.lor (process_signal_target t) (SIGNAL_BIT s))) in
  targets_ok p' /\ forall j r, is_signal r -> tgt p' j r = tgt p j r || (bool_decide (i = j) && (s =? r)).
Proof.
  intros Hs (H1 & H2 & H3) Ht Hp Hno p'. pose proof (lookup_lt_Some _ _ _ Ht) as Hi.
  assert (Htg : forall j r, is_signal r -> tgt p' j r = tgt p j r || (bool_decide (i = j) && (s =? r))).
  { intros j r Hr. rewrite !tgt_lookup by done. unfold p'. rewrite put_sthread_lookup by done. destruct (decide (i = j)) as [<-|Hne].
    - rewrite Ht, bool_decide_eq_true_2 by done. cbn. by apply holds_set.
    - rewrite bool_decide_eq_false_2 by done. by rewrite orb_false_r. }
  split; [|done]. split; [|split].
  - intros j u. unfold p'. rewrite put_sthread_lookup by done. case_decide; [intros [= <-]; cbn; eauto with signals|eauto].
  - intros r j k Hr. rewrite !Htg by done. destruct (Z.eqb_spec s r) as [<-|]; [|rewrite !andb_false_r, !orb_false_r; eauto].
    rewrite !Hno. cbn. rewrite !andb_true_r, !bool_decide_eq_true. congruence.
  - intros r j Hr. rewrite Htg by done. cbn. destruct (Z.eqb_spec s r) as [<-|]; [done|rewrite andb_false_r, orb_false_r; eauto].
Qed.

Lemma retarget_spec p s ex : base_ok p -> targets_ok p -> is_signal s -> exists p', signal_process_retarget_locked p s ex = Ret p' /\ retargeted p p' s ex.
Proof.
  intros Hb Ht Hs. unfold signal_process_retarget_locked. rewrite is_pending_holds by done.
  pose proof (targets_ok_clear p s Hs Ht) as Hc. pose proof (quiet_clear p s) as Hqc.
  assert (Hother : forall i r, is_signal r -> r <> s -> tgt (signal_target_clear_locked p s) i r = tgt p i r).
  { intros i r Hr Hne. rewrite tgt_clear, (proj2 (Z.eqb_neq s r)), andb_true_r by (congruence || done). done. }
  assert (Hnone : forall i, tgt (signal_target_clear_locked p s) i s = false) by (intros i; rewrite tgt_clear, Z.eqb_refl, andb_false_r; done).
  destruct (holds (bits (p_pending p)) s) eqn:Eb; cbn [negb].
  2:{ eexists. split; [done|]. split; [done|]. split; [done|]. split; [done|]. split; [intros H; cbn in H; congruence|]. split; [|done]. intros i. by rewrite Hnone. }
  destruct (first_slot _ _) as [k|] eqn:E1.
  { apply first_slot_Some in E1 as [_ E1]. bool_to_prop. eexists. split; [done|]. split; [done|]. split; [done|]. split; [done|]. split; [intros _ _; by exists k|]. split; [by left|done]. }
  destruct (first_slot (fun i => signal_thread_targetable_locked (p_threads (signal_target_clear_locked p s)) i s ex) _) as [k|] eqn:E2.
  - apply first_slot_Some in E2 as [_ E2]. change (signal_thread_targetable_locked _ k s ex) with (tble (signal_target_clear_locked p s) k s ex) in E2.
    destruct (tble_live _ _ _ _ E2) as (t & Hk & _). rewrite (thread_of_Ret _ _ _ Hk). cbn [mbind outcome_bind].
    destruct (targets_ok_assign _ s k t Hs Hc Hk Eb Hnone) as [Ha Htg]. cbv zeta in Ha, Htg. set (q := put_sthread _ k _) in *.
    assert (Hq : quiet q = quiet p) by (rewrite <-Hqc; by apply (quiet_put _ _ t)).
    assert (Hkq : p_threads q !! k = Some (Some (set_target t (Z.lor (process_signal_target t) (SIGNAL_BIT s))))).
    { unfold q. rewrite put_sthread_lookup by by apply lookup_lt_Some in Hk. by rewrite decide_True. }
    destruct (target_wake_spec q k s _ (base_quiet p q (eq_sym Hq) Hb) Hs Hkq) as (p' & fatal & -> & Hq' & [Hfatal Hcalls] & Hu & Htq).
    exists p'. split; [done|]. assert (Hqp : quiet p' = quiet p) by congruence.
    split; [done|]. split; [|split; [|split; [|split]]].
    + destruct Ha as (A1 & A2 & A3). split; [|split].
      * intros i u Hiu. destruct (Hu i u Hiu) as (u0 & Hu0 & ->). eauto.
      * intros r i j Hr. rewrite !Htq. eauto.
      * intros r i Hr. rewrite Htq. intros Hh. apply A3 in Hh; [|done]. apply quiet_fields in Hq' as (_ & -> & _). done.
    + intros i r Hr Hne. rewrite Htq, Htg, Hother, (proj2 (Z.eqb_neq s r)), andb_false_r, orb_false_r by (congruence || done). done.
    + intros _ _. exists k. rewrite Htq, Htg, Z.eqb_refl, bool_decide_eq_true_2, orb_true_r by done. split; [done|].
      rewrite (tble_quiet p' (signal_target_clear_locked p s)) by congruence. done.
    + intros i. rewrite Htq, Htg, Hnone, Z.eqb_refl, andb_true_r by done. cbn. rewrite bool_decide_eq_true. intros <-. right. split; [by rewrite (tble_quiet p' (signal_target_clear_locked p s)) by congruence|]. exists fatal. rewrite (new_calls_app p p' _ Hcalls), <-(fatal_quiet p q) by done. split; [done|set_solver].
    + rewrite Hcalls. by exists [WakeThread k fatal].
  - eexists. split; [done|]. split; [done|]. split; [done|]. split; [done|]. split; [|split; [|done]].
    + intros _ [i Hi]. exfalso. assert (Hlt := tble_slot _ _ _ _ Hi). cbn in Hlt. rewrite length_each in Hlt.
      pose proof (first_slot_None _ _ E2 i Hlt) as Hf. change (tble (signal_target_clear_locked p s) i s ex = false) in Hf. congruence.
    + intros i. by rewrite Hnone.
Qed.

(** ** The loops over a set *)

Lemma settled_keep p p' s ex : quiet p' = quiet p -> (forall i, tgt p' i s = tgt p i s) -> settled p s ex -> settled p' s ex.
Proof.
  intros Hq Ht Hs Hh [i Hi]. destruct (quiet_fields _ _ Hq) as (_ & E & _). rewrite E in Hh. destruct (Hs Hh) as (k & Hk & Hk').
  - exists i. by rewrite <-(tble_quiet p' p).
  - exists k. by rewrite Ht, (tble_quiet p' p).
Qed.

Definition each_result (p p' : sprocess) (ex : option nat) (inside : Z -> bool) : Prop :=
  quiet p' = quiet p /\ targets_ok p' /\ p_calls p `prefix_of` p_calls p' /\
  (forall s, is_signal s -> if inside s then settled p' s ex else forall i, tgt p' i s = tgt p i s) /\
  (forall i s, is_signal s -> tgt p' i s = true -> tgt p i s = true \/ tble p' i s ex = true /\ woken p p' i s).

Lemma retarget_each_spec fuel : forall p set signal ex, base_ok p -> targets_ok p -> 0 <= set < 2 ^ Z.of_nat fuel -> 1 <= signal -> signal + Z.of_nat fuel <= 65 ->
  exists p', retarget_each fuel p set signal ex = Ret p' /\ each_result p p' ex (fun r => (signal <=? r) && Z.testbit set (r - signal)).
Proof.
  assert (Hnil : forall p signal ex, targets_ok p -> each_result p p ex (fun r => (signal <=? r) && Z.testbit 0 (r - signal))).
  { intros p signal ex Ht. split; [done|]. split; [done|]. split; [done|]. split; [|by left]. intros s Hs. by rewrite Z.bits_0, andb_false_r. }
  induction fuel as [|fuel IH]; intros p set signal ex Hb Ht Hset Hsig Hf; cbn [retarget_each].
  - assert (set = 0) as -> by (cbn in Hset; lia). cbn. eauto.
  - destruct (Z.eqb_spec set 0) as [->|Hne]; [cbn; eauto|].
    unfold truth at 1. rewrite (proj2 (Z.eqb_neq set 0) Hne). cbn [negb].
    assert (Hs : is_signal signal) by (unfold is_signal; lia).
    assert (Hbit0 : truth (Z.land set 1) = Z.testbit set 0).
    { apply (truth_land_bit set 1). unfold is_signal. lia. }
    rewrite Hbit0.
    assert (Hshift : 0 <= Z.shiftr set 1 < 2 ^ Z.of_nat fuel).
    { rewrite Z.shiftr_div_pow2 by lia. change (2 ^ 1) with 2. rewrite Nat2Z.inj_succ, Z.pow_succ_r in Hset by lia. split; [apply Z.div_pos; lia|apply Z.div_lt_upper_bound; lia]. }
    assert (Hstep : exists q, (if Z.testbit set 0 then signal_process_retarget_locked p signal ex else Ret p) = Ret q /\
      each_result p q ex (fun r => (r =? signal) && Z.testbit set 0)).
    { destruct (Z.testbit set 0).
      - destruct (retarget_spec p signal ex Hb Ht Hs) as (q & Hq & H1 & H2 & H3 & H4 & H5 & H6). exists q. split; [done|]. split; [done|]. split; [done|]. split; [done|]. split.
        + intros r Hr. destruct (Z.eqb_spec r signal) as [->|]; cbn; [done|auto].
        + intros i r Hr Hi. destruct (decide (r = signal)) as [->|]; [eauto|]. left. by rewrite <-H3.
      - exists p. split; [done|]. split; [done|]. split; [done|]. split; [done|]. split; [|by left]. intros r Hr. by rewrite andb_false_r. }
    destruct Hstep as (q & -> & Q1 & Q2 & Q3 & Q4 & Q5). cbn [mbind outcome_bind].
    destruct (IH q (Z.shiftr set 1) (signal + 1) ex) as (p' & -> & R1 & R2 & R3 & R4 & R5); [by apply (base_quiet p)|done|done|lia|lia|].
    exists p'. split; [done|]. split; [congruence|]. split; [done|]. split; [by etrans|]. split.
    + intros r Hr. specialize (R4 r Hr). specialize (Q4 r Hr). cbn beta in *.
      destruct (Z.ltb_spec r signal).
      * rewrite (proj2 (Z.leb_gt (signal + 1) r)) in R4 by lia. rewrite (proj2 (Z.leb_gt signal r)) by lia. cbn [andb] in *.
        rewrite (proj2 (Z.eqb_neq r signal)) in Q4 by lia. cbn [andb] in Q4. intros i. by rewrite R4.
      * rewrite (proj2 (Z.leb_le signal r)) by lia. cbn [andb]. destruct (decide (r = signal)) as [Er|Hr'].
        -- subst r. rewrite Z.eqb_refl in Q4. rewrite (proj2 (Z.leb_gt (signal + 1) signal)) in R4 by lia. cbn [andb] in *. rewrite Z.sub_diag. destruct (Z.testbit set 0) eqn:E0; rewrite ?E0 in Q4; [by apply (settled_keep q)|intros i; by rewrite R4].
        -- rewrite (proj2 (Z.eqb_neq r signal)) in Q4 by done. rewrite (proj2 (Z.leb_le (signal + 1) r)), Z.shiftr_spec in R4 by lia. cbn [andb] in *. replace (r - (signal + 1) + 1) with (r - signal) in R4 by lia.
           destruct (Z.testbit set (r - signal)); [done|]. intros i. by rewrite R4.
    + intros i r Hr Hi. destruct (R5 i r Hr Hi) as [Hq|[H1 (f & H2 & H3)]].
      * destruct (Q5 i r Hr Hq) as [|[H1 (f & H2 & H3)]]; [by left|]. right. rewrite (tble_quiet p' q) by done. split; [done|]. exists f. split; [done|]. apply (new_calls_trans p q p'); auto.
      * right. split; [done|]. exists f. rewrite <-(fatal_quiet p q) by done. split; [done|]. apply (new_calls_trans p q p'); auto.
Qed.

(** After a change of masks every pending signal is settled. *)
Lemma mask_changed_spec p : signals_ok p -> exists p', signal_thread_mask_changed_locked p = Ret p' /\ quiet p' = quiet p /\ signals_ok p' /\ forall s, is_signal s -> settled p' s None.
Proof.
  intros [Hb Ht]. destruct (retarget_each_spec 64 p (bits (p_pending p)) 1 None Hb Ht) as (p' & Hp & H1 & H2 & _ & H4 & _); [apply Hb|lia|lia|].
  exists p'. split; [done|]. split; [done|]. split; [split; [by apply (base_quiet p)|done]|]. intros s Hs. specialize (H4 s Hs). cbn beta in H4.
  rewrite (proj2 (Z.leb_le 1 s)) in H4 by (unfold is_signal in Hs; lia). cbn in H4. destruct (Z.testbit (bits (p_pending p)) (s - 1)) eqn:E; [done|].
  intros Hh. exfalso. destruct (quiet_fields _ _ H1) as (_ & E' & _). rewrite E' in Hh. unfold holds in Hh. congruence.
Qed.

(** A detached thread is no target, and its signals are settled without it. *)
Lemma detach_spec p i t : signals_ok p -> p_threads p !! i = Some (Some t) ->
  exists p', signal_thread_detach_locked p i = Ret p' /\ quiet p' = quiet p /\ signals_ok p' /\
    (forall s, is_signal s -> tgt p' i s = false) /\
    (forall s, is_signal s -> if tgt p i s then settled p' s (Some i) else forall j, tgt p' j s = tgt p j s).
Proof.
  intros [Hb Ht] Hi. unfold signal_thread_detach_locked. rewrite (thread_of_Ret _ _ _ Hi). cbn [mbind outcome_bind].
  set (q := put_sthread p i (set_target t 0)). pose proof (lookup_lt_Some _ _ _ Hi) as Hlt.
  assert (Hq : quiet q = quiet p) by by apply (quiet_put _ _ t).
  assert (Hqt : forall j s, is_signal s -> tgt q j s = tgt p j s && negb (bool_decide (i = j))).
  { intros j s Hs. rewrite !tgt_lookup by done. unfold q. rewrite put_sthread_lookup by done. destruct (decide (i = j)) as [<-|].
    - rewrite bool_decide_eq_true_2, andb_false_r by done. cbn. unfold holds. apply Z.bits_0.
    - by rewrite bool_decide_eq_false_2, andb_true_r. }
  assert (Htq : targets_ok q).
  { destruct Ht as (T1 & T2 & T3). split; [|split].
    - intros j u. unfold q. rewrite put_sthread_lookup by done. case_decide; [|eauto]. intros [= <-]. cbn. by unfold is_u64.
    - intros s j k Hs. rewrite !Hqt by done. intros. bool_to_prop. eauto.
    - intros s j Hs. rewrite Hqt by done. intros. bool_to_prop. change (p_pending q) with (p_pending p). eauto. }
  destruct (retarget_each_spec 64 q (process_signal_target t) 1 (Some i)) as (p' & Hp & H1 & H2 & _ & H4 & H5);
    [by apply (base_quiet p)|done|by eapply Ht|lia|lia|].
  exists p'. split; [done|]. assert (Hqp : quiet p' = quiet p) by congruence. split; [done|]. split; [split; [by apply (base_quiet p)|done]|]. split.
  - intros s Hs. destruct (tgt p' i s) eqn:E; [|done]. exfalso. destruct (H5 i s Hs E) as [Hx|[Hx _]].
    + rewrite Hqt, bool_decide_eq_true_2, andb_false_r in Hx by done. done.
    + apply tble_live in Hx as (_ & _ & Hx & _). done.
  - intros s Hs. specialize (H4 s Hs). cbn beta in H4. rewrite (proj2 (Z.leb_le 1 s)) in H4 by (unfold is_signal in Hs; lia). cbn in H4.
    change (Z.testbit (process_signal_target t) (s - 1)) with (holds (process_signal_target t) s) in H4.
    rewrite (tgt_lookup p i s Hs), Hi. destruct (holds (process_signal_target t) s) eqn:E; [done|].
    intros j. rewrite H4, Hqt by done. case_bool_decide; [subst j|by rewrite andb_true_r].
    rewrite (tgt_lookup p i s Hs), Hi, E. done.
Qed.
