(* ===== verification/SignalOps.v ===== *)
(** * Signals: every operation keeps the invariant

    [signals_ok] for each operation of kernel/signal.c, and what happens to
    [covered]: the pending signals that some thread could take have a target. *)
From S2P Require Import Prelude Scheduler Signal SignalInv SignalTargets.

(** The threads of [E] have begun to exit; those of [F] were unblocked by a
    fault and have not gone through a change of masks since. *)
Definition covered (p : sprocess) (E F : gset nat) : Prop :=
  forall s, is_signal s -> holds (bits (p_pending p)) s = true -> (exists i, i ∉ E ∪ F /\ tble p i s None = true) ->
  exists i t, p_threads p !! i = Some (Some t) /\ tgt p i s = true /\ (i ∈ E \/ targetable t s = true).

Lemma covered_settled p E F : (forall s, is_signal s -> settled p s None) -> covered p E F.
Proof.
  intros H s Hs Hh (i & _ & Hi). destruct (H s Hs Hh) as (k & Hk & Hk'); [by exists i|]. apply tble_live in Hk' as (t & Ht & _ & Htb). exists k, t. auto.
Qed.
(** Coverage survives a step that adds no pending signal and no candidate, and keeps the targets. *)
Lemma covered_step p p' E E' F F' : covered p E F ->
  (forall s, is_signal s -> holds (bits (p_pending p')) s = true -> (exists i, i ∉ E' ∪ F' /\ tble p' i s None = true) ->
     holds (bits (p_pending p)) s = true /\ exists i, i ∉ E ∪ F /\ tble p i s None = true) ->
  (forall s i t, is_signal s -> holds (bits (p_pending p')) s = true -> p_threads p !! i = Some (Some t) -> tgt p i s = true -> i ∈ E \/ targetable t s = true ->
     exists t', p_threads p' !! i = Some (Some t') /\ tgt p' i s = true /\ (i ∈ E' \/ targetable t' s = true)) ->
  covered p' E' F'.
Proof.
  intros Hc H1 H2 s Hs Hh Hi. destruct (H1 s Hs Hh Hi) as [Hh' Hi']. destruct (Hc s Hs Hh' Hi') as (i & t & Ht & Hg & Ho).
  destruct (H2 s i t Hs Hh Ht Hg Ho) as (t' & H'). eauto.
Qed.
Lemma covered_quiet p p' E F : quiet p' = quiet p -> (forall i s, is_signal s -> tgt p i s = true -> tgt p' i s = true) -> covered p E F -> covered p' E F.
Proof.
  intros Hq Ht Hc. apply (covered_step p p' E E F F Hc).
  - intros s Hs Hh (i & Hi & Hb). destruct (quiet_fields _ _ Hq) as (_ & Ep & _). rewrite <-Ep. split; [done|]. exists i. by rewrite <-(tble_quiet p' p).
  - intros s i t Hs _ Hi Hg Ho. destruct (quiet_lookup p p' i t (eq_sym Hq) Hi) as (u & Hu & He). exists u. split; [done|]. split; [auto|].
    destruct Ho as [|Ho]; [by left|right]. rewrite <-targetable_erase in *. congruence.
Qed.

(** ** Updates that keep the invariant *)

Lemma signals_ok_put p i t u : signals_ok p -> p_threads p !! i = Some (Some t) -> thread_ok u -> process_signal_target u = process_signal_target t -> signals_ok (put_sthread p i u).
Proof.
  intros [(B1 & B2 & B3) (T1 & T2 & T3)] Hi Hu Htu. pose proof (lookup_lt_Some _ _ _ Hi) as Hlt.
  assert (Ht : forall j s, tgt (put_sthread p i u) j s = tgt p j s).
  { intros j s. unfold tgt, targeted. rewrite put_sthread_lookup by done. case_decide; [subst; by rewrite Hi, Htu|done]. }
  split; [split; [done|split; [done|]]|split; [|split]].
  - intros j v. rewrite put_sthread_lookup by done. case_decide; [intros [= <-]; done|eauto].
  - intros j v. rewrite put_sthread_lookup by done. case_decide; [intros [= <-]; rewrite Htu; eauto|eauto].
  - intros s j k Hs. rewrite !Ht. eauto.
  - intros s j Hs. rewrite Ht. eauto.
Qed.
Lemma tgt_put p i t u : p_threads p !! i = Some (Some t) -> process_signal_target u = process_signal_target t -> forall j s, tgt (put_sthread p i u) j s = tgt p j s.
Proof.
  intros Hi Htu j s. pose proof (lookup_lt_Some _ _ _ Hi) as Hlt. unfold tgt, targeted. rewrite put_sthread_lookup by done. case_decide; [subst; by rewrite Hi, Htu|done].
Qed.
(** A new thread in place of an old one with the same target and chances. *)
Lemma covered_put p E F i t u : covered p E F -> p_threads p !! i = Some (Some t) -> process_signal_target u = process_signal_target t ->
  (forall s, targetable u s = targetable t s) -> covered (put_sthread p i u) E F.
Proof.
  intros Hc Hi Htu Hs. pose proof (lookup_lt_Some _ _ _ Hi) as Hlt. apply (covered_step p _ E E F F Hc).
  - intros s Hsig Hh (j & Hj & Hb). split; [done|]. exists j. split; [done|]. apply tble_live in Hb as (v & Hv & _ & Hb).
    rewrite put_sthread_lookup in Hv by done. case_decide; [subst; simplify_eq; apply (tble_intro _ _ _ _ t); [done..|congruence]|by apply (tble_intro _ _ _ _ v)].
  - intros s j v Hsig _ Hv Hg Ho. rewrite put_sthread_lookup by done. rewrite (tgt_put p i t u) by done. case_decide; [subst; simplify_eq; exists u; rewrite Hs; auto|eauto].
Qed.
Lemma signals_ok_pending p x : signals_ok p -> pending_ok x -> (forall s i, is_signal s -> tgt p i s = true -> holds (bits x) s = true) -> signals_ok (with_pending p x).
Proof. intros [(B1 & B2 & B3) (T1 & T2 & T3)] Hx Hh. split; [by split|]. split; [done|]. split; [exact T2|exact Hh]. Qed.
Lemma signals_ok_actions p l : signals_ok p -> length l = 64%nat -> Forall (fun a => is_u64 (a_mask a)) l -> signals_ok (with_actions p l).
Proof. intros [(B1 & B2 & B3) Ht] H1 H2. by split. Qed.
Lemma signals_ok_called p c : signals_ok p -> signals_ok (called p c).
Proof. done. Qed.
Lemma signals_ok_stopped p b : signals_ok p -> signals_ok (with_stopped p b).
Proof. done. Qed.
Lemma signals_ok_quiet p p' : quiet p' = quiet p -> signals_ok p -> targets_ok p' -> signals_ok p'.
Proof. intros Hq [Hb _] Ht. split; [by apply (base_quiet p)|done]. Qed.
#[export] Hint Resolve signals_ok_called signals_ok_stopped : signals.

(** ** Masks *)

Lemma sanitize_ok m : is_u64 m -> mask_ok (signal_mask_sanitize m).
Proof.
  intros Hm. unfold mask_ok, signal_mask_sanitize. split; [auto with signals|]. rewrite !holds_land. split; apply andb_false_r.
Qed.
Lemma mask_ok_lor a b : mask_ok a -> mask_ok b -> mask_ok (Z.lor a b).
Proof. intros (A1 & A2 & A3) (B1 & B2 & B3). split; [auto with signals|]. by rewrite !holds_lor, A2, A3, B2, B3. Qed.
Lemma mask_ok_land a b : mask_ok a -> mask_ok (Z.land a b).
Proof. intros (A1 & A2 & A3). split; [auto with signals|]. by rewrite !holds_land, A2, A3. Qed.
Lemma mask_ok_0 : mask_ok 0.
Proof. done. Qed.
#[export] Hint Resolve sanitize_ok mask_ok_lor mask_ok_land mask_ok_0 : signals.

(** A thread whose own signal state changes, followed by a change of masks: the
    pattern of all calls that set a mask. *)
Lemma mask_update p i t u : signals_ok p -> p_threads p !! i = Some (Some t) -> thread_ok u -> process_signal_target u = process_signal_target t ->
  exists p', signal_thread_mask_changed_locked (put_sthread p i u) = Ret p' /\ quiet p' = quiet (put_sthread p i u) /\ signals_ok p' /\ forall E F, covered p' E F.
Proof.
  intros Hp Hi Hu Htu. destruct (mask_changed_spec (put_sthread p i u)) as (p' & H1 & H2 & H3 & H4); [by apply (signals_ok_put p i t)|].
  exists p'. split; [done|]. split; [done|]. split; [done|]. intros E F. by apply covered_settled.
Qed.

(** ** Clearing a signal everywhere *)

Lemma clear_locked_lookup p s i : p_threads (signal_clear_locked p s) !! i =
  (fmap (M := option) (fun t => set_target (set_pending t (signal_pending_clear (s_pending t) s)) (clear_bit (process_signal_target t) s))) <$> p_threads p !! i.
Proof. apply lookup_each. Qed.
Lemma clear_locked_tgt p s i r : is_signal s -> is_signal r -> tgt (signal_clear_locked p s) i r = tgt p i r && negb (s =? r).
Proof. intros Hs Hr. rewrite !tgt_lookup, clear_locked_lookup by done. destruct (p_threads p !! i) as [[t|]|]; cbn; [|done..]. by apply holds_clear. Qed.
Lemma clear_locked_ok p s : is_signal s -> signals_ok p -> signals_ok (signal_clear_locked p s).
Proof.
  intros Hs [(B1 & B2 & B3) (T1 & T2 & T3)]. split; [split; [by apply pending_clear_ok|split; [done|]]|split; [|split]].
  - intros i u. rewrite clear_locked_lookup. destruct (p_threads p !! i) as [[t|]|] eqn:Et; cbn; [|done..]. intros [= <-].
    destruct (B3 i t Et) as (P1 & P2 & P3). split; [by apply pending_clear_ok|done].
  - intros i u. rewrite clear_locked_lookup. destruct (p_threads p !! i) as [[t|]|] eqn:Et; cbn; [|done..]. intros [= <-]. cbn. unfold clear_bit. eauto with signals.
  - intros r i j Hr. rewrite !clear_locked_tgt by done. intros. bool_to_prop. eauto.
  - intros r i Hr. rewrite clear_locked_tgt by done. intros. bool_to_prop. cbn [p_pending with_threads with_pending signal_clear_locked].
    rewrite pending_clear_holds, andb_true_iff, negb_true_iff, Z.eqb_neq by done. eauto.
Qed.
Lemma clear_locked_covered p s E F : is_signal s -> covered p E F -> covered (signal_clear_locked p s) E F.
Proof.
  intros Hs Hc. apply (covered_step p _ E E F F Hc).
  - intros r Hr. cbn [p_pending with_threads with_pending signal_clear_locked]. rewrite pending_clear_holds by done. intros Hh (i & Hi & Hb). bool_to_prop. split; [done|].
    exists i. split; [done|]. apply tble_live in Hb as (u & Hu & _ & Hb). rewrite clear_locked_lookup in Hu.
    destruct (p_threads p !! i) as [[t|]|] eqn:Et; cbn in Hu; simplify_eq. by apply (tble_intro _ _ _ _ t).
  - intros r i t Hr. cbn [p_pending with_threads with_pending signal_clear_locked]. rewrite pending_clear_holds by done. intros Hh Ht Hg Ho. bool_to_prop.
    rewrite clear_locked_lookup, Ht. cbn. eexists. split; [done|]. rewrite clear_locked_tgt, Hg by done. split; [|done]. cbn. apply negb_true_iff, Z.eqb_neq. done.
Qed.

(** * Signals: sending and taking

    The operations that make a signal pending and those that take one. *)

(** The threads of [p'] are those of [p] up to pending signals and targets. *)
Definition same_threads (p p' : sprocess) : Prop :=
  forall i t, p_threads p !! i = Some (Some t) -> exists t', p_threads p' !! i = Some (Some t') /\ erase (set_pending t' (s_pending t)) = erase t.
#[global] Instance same_threads_preorder : PreOrder same_threads.
Proof.
  split.
  - intros p i t Ht. exists t. split; [done|]. by destruct t.
  - intros p q r H1 H2 i t Ht. destruct (H1 i t Ht) as (u & Hu & Eu). destruct (H2 i u Hu) as (v & Hv & Ev). exists v. split; [done|].
    destruct t, u, v. unfold erase, set_pending in *. cbn in *. by simplify_eq.
Qed.
Lemma same_threads_quiet p p' : quiet p' = quiet p -> same_threads p p'.
Proof. intros Hq i t Ht. destruct (quiet_lookup p p' i t (eq_sym Hq) Ht) as (u & Hu & Eu). exists u. split; [done|]. destruct t, u. unfold erase, set_pending in *. cbn in *. by simplify_eq. Qed.
Lemma same_threads_clear p s : same_threads p (signal_clear_locked p s).
Proof. intros i t Ht. rewrite clear_locked_lookup, Ht. cbn. eexists. split; [done|]. by destruct t. Qed.
Lemma same_threads_put p i t x : p_threads p !! i = Some (Some t) -> same_threads p (put_sthread p i (set_pending t x)).
Proof.
  intros Hi j u Hj. pose proof (lookup_lt_Some _ _ _ Hi) as Hlt. rewrite put_sthread_lookup by done. case_decide; [|exists u; split; [done|by destruct u]].
  subst j. rewrite Hi in Hj. injection Hj as <-. eexists. split; [done|by destruct t].
Qed.
Lemma same_fields t t' x : erase (set_pending t' x) = erase t -> s_state t' = s_state t /\ signal_mask t' = signal_mask t /\ signal_saved_mask t' = signal_saved_mask t /\ signal_restore_mask t' = signal_restore_mask t.
Proof. destruct t, t'. unfold erase, set_pending. cbn. intros. by simplify_eq. Qed.

(** A step that keeps the invariant, the coverage and the threads. *)
Definition smooth (p p' : sprocess) : Prop := signals_ok p' /\ same_threads p p' /\ forall E F, covered p E F -> covered p' E F.
Lemma smooth_refl p : signals_ok p -> smooth p p.
Proof. done. Qed.
Lemma smooth_trans p q r : smooth p q -> smooth q r -> smooth p r.
Proof. intros (A1 & A2 & A3) (B1 & B2 & B3). split; [done|]. split; [by etrans|auto]. Qed.
Lemma smooth_clear p s : is_signal s -> signals_ok p -> smooth p (signal_clear_locked p s).
Proof. intros Hs Hp. split; [by apply clear_locked_ok|]. split; [apply same_threads_clear|]. intros E F. by apply clear_locked_covered. Qed.
Lemma smooth_called p q c : smooth p q -> smooth p (called q c).
Proof. done. Qed.
Lemma smooth_stopped p q b : smooth p q -> smooth p (with_stopped q b).
Proof. done. Qed.
Ltac is_signal_solver := unfold is_signal, LINUX_SIGSTOP, LINUX_SIGTSTP, LINUX_SIGTTIN, LINUX_SIGTTOU, LINUX_SIGCONT, LINUX_SIGKILL in *; lia.

Lemma prepare_smooth p s : signals_ok p -> smooth p (signal_prepare_group_locked p s).1.
Proof.
  intros Hp. unfold signal_prepare_group_locked. repeat case_if; cbn [fst];
    repeat first [apply smooth_called|apply smooth_stopped|by apply smooth_refl].
  all: try (by apply smooth_clear; [is_signal_solver|]).
  all: assert (H4 : smooth p (signal_clear_locked (signal_clear_locked (signal_clear_locked (signal_clear_locked p LINUX_SIGSTOP) LINUX_SIGTSTP) LINUX_SIGTTIN) LINUX_SIGTTOU)).
  1,3: repeat match goal with |- smooth ?p (signal_clear_locked ?q ?s) => assert (signals_ok q); [|apply (smooth_trans p q); [|apply smooth_clear; [is_signal_solver|done]]] end; try done; repeat (apply clear_locked_ok; [is_signal_solver|]); try done.
  all: done.
Qed.
Lemma prepare_live p s : p_live (signal_prepare_group_locked p s).1 = p_live p /\ signal_actions (signal_prepare_group_locked p s).1 = signal_actions p.
Proof. unfold signal_prepare_group_locked. by repeat case_if. Qed.

(** ** Sending *)

Lemma covered_retargeted p p' s E F :
  (forall r, is_signal r -> r <> s -> holds (bits (p_pending p)) r = true -> (exists i, i ∉ E ∪ F /\ tble p i r None = true) ->
     exists i t, p_threads p !! i = Some (Some t) /\ tgt p i r = true /\ (i ∈ E \/ targetable t r = true)) ->
  retargeted p p' s None -> covered p' E F.
Proof.
  intros Hc (Hq & _ & Ho & Hset & _) r Hr Hh (i & Hi & Hb). destruct (quiet_fields _ _ Hq) as (_ & Ep & _).
  destruct (decide (r = s)) as [->|Hne].
  - destruct (Hset Hh) as (k & Hk & Hk'); [by exists i|]. apply tble_live in Hk' as (t & Ht & _ & Htb). exists k, t. auto.
  - rewrite Ep in Hh. destruct (Hc r Hr Hne Hh) as (k & t & Ht & Hg & Hok); [exists i; by rewrite <-(tble_quiet p' p)|].
    destruct (quiet_lookup p p' k t (eq_sym Hq) Ht) as (u & Hu & He). exists k, u. split; [done|]. rewrite Ho by done. split; [done|].
    destruct Hok as [|Hok]; [by left|right]. rewrite <-targetable_erase in *. congruence.
Qed.

(** A signal made pending on the process is settled. *)
Lemma store_process_spec p s x : is_signal s -> signals_ok p -> pending_ok x -> (forall r, is_signal r -> holds (bits x) r = holds (bits (p_pending p)) r || (s =? r)) ->
  exists p', signal_wake_locked (with_pending p x) None s = Ret p' /\ smooth p p' /\ quiet p' = quiet (with_pending p x) /\ p_calls p `prefix_of` p_calls p' /\ WakeWaiters ∈ new_calls p p' /\ settled p' s None /\
    (forall i, tgt p' i s = true -> tgt p i s = true \/ woken p p' i s).
Proof.
  intros Hs Hp Hx Hb. assert (Hq : signals_ok (with_pending p x)).
  { apply signals_ok_pending; [done..|]. intros r i Hr Hg. rewrite Hb by done. destruct Hp as [_ (_ & _ & T3)]. by rewrite (T3 r i). }
  unfold signal_wake_locked. destruct (retarget_spec (called (with_pending p x) WakeWaiters) s None) as (p' & -> & Hr); [apply Hq|apply Hq|done|].
  exists p'. split; [done|]. pose proof Hr as (R1 & R2 & R3 & R4 & R5 & R6).
  assert (H0 : p_calls p `prefix_of` p_calls (called (with_pending p x) WakeWaiters)) by by exists [WakeWaiters].
  split; [|split; [done|split; [by etrans|split; [|split; [done|]]]]].
  - split; [|split].
    + by apply (signals_ok_quiet (called (with_pending p x) WakeWaiters)).
    + apply (same_threads_quiet (called (with_pending p x) WakeWaiters)). done.
    + intros E F Hc. eapply covered_retargeted; [|exact Hr]. intros r Hsr Hne. cbn. rewrite Hb by done.
      rewrite (proj2 (Z.eqb_neq s r)), orb_false_r by congruence. apply Hc. done.
  - apply (new_calls_trans p _ p' _ H0 R6). left. rewrite (new_calls_app p _ [WakeWaiters]) by done. set_solver.
  - intros i Hi. destruct (R5 i Hi) as [|[_ (f & Hf & Hc)]]; [by left|]. right. exists f. split; [done|]. apply (new_calls_trans p _ p' _ H0 R6). by right.
Qed.

Lemma queue_process_spec p s info room : signals_ok p -> exists p' rc, signal_queue_process_locked p s info room = Ret (p', rc) /\ smooth p p'.
Proof.
  intros Hp. unfold signal_queue_process_locked. case_if; [eexists _, _; split; [done|by apply smooth_refl]|].
  pose proof (prepare_smooth p s Hp) as Hsm. destruct (signal_prepare_group_locked p s) as [q resumed]. cbn [fst] in Hsm. bool_to_prop.
  assert (Hs : is_signal s) by (unfold signal_valid, SIGNAL_COUNT, is_signal in *; bool_to_prop; lia).
  pose proof Hsm as (Hq & _). assert (exists b, signal_process_generation_ignored_locked q s = Ret b) as [b ->].
  { unfold signal_process_generation_ignored_locked. destruct (action_Ret q s (proj1 Hq) Hs) as (a & -> & _). cbn. repeat case_if; eauto. }
  cbn [mbind outcome_bind]. destruct b; [by eexists _, _|].
  pose proof (store_pending_ok (p_pending q) s info room Hs (proj1 (proj1 Hq))) as Hst. destruct (signal_store_pending _ _ _ _) as [e|x]; [by eexists _, _|].
  destruct Hst as [Hx Hb]. destruct (store_process_spec q s x Hs Hq Hx Hb) as (p' & -> & Hp' & _). cbn. eexists _, _. split; [done|]. by apply (smooth_trans p q).
Qed.

(** A thread of the process in some slot. *)
Lemma queue_thread_spec p i t s info room : signals_ok p -> p_threads p !! i = Some (Some t) -> exists p' rc, signal_queue_thread_locked p i s info room = Ret (p', rc) /\ smooth p p'.
Proof.
  intros Hp Hi. unfold signal_queue_thread_locked. rewrite (thread_of_Ret _ _ _ Hi). cbn [mbind outcome_bind]. case_if; [eexists _, _; split; [done|by apply smooth_refl]|].
  pose proof (prepare_smooth p s Hp) as Hsm. destruct (signal_prepare_group_locked p s) as [q resumed]. cbn [fst] in Hsm. bool_to_prop.
  assert (Hs : is_signal s) by (unfold signal_valid, SIGNAL_COUNT, is_signal in *; bool_to_prop; lia).
  pose proof Hsm as (Hq & Hth & _). destruct (Hth i t Hi) as (u & Hu & Eu). rewrite (thread_of_Ret _ _ _ Hu). cbn [mbind outcome_bind].
  assert (exists b, signal_thread_generation_ignored_locked q u s = Ret b) as [b ->].
  { unfold signal_thread_generation_ignored_locked. destruct (action_Ret q s (proj1 Hq) Hs) as (a & -> & _). cbn. case_if; eauto. }
  cbn [mbind outcome_bind]. destruct b; [by eexists _, _|].
  pose proof (proj2 (proj2 (proj1 Hq)) i u Hu) as (Hpu & Hmu & Hsu).
  pose proof (store_pending_ok (s_pending u) s info room Hs Hpu) as Hst. destruct (signal_store_pending _ _ _ _) as [e|x]; [by eexists _, _|].
  destruct Hst as [Hx _]. pose proof (lookup_lt_Some _ _ _ Hu) as Hlt.
  assert (Hsm2 : smooth q (put_sthread q i (set_pending u x))).
  { split; [by apply (signals_ok_put q i u)|]. split; [by apply same_threads_put|]. intros E F Hc. by apply (covered_put q E F i u). }
  assert (Hlook : p_threads (called (put_sthread q i (set_pending u x)) WakeWaiters) !! i = Some (Some (set_pending u x))).
  { change (p_threads (called ?p _)) with (p_threads p). rewrite put_sthread_lookup by done. by rewrite decide_True. }
  unfold signal_wake_locked. rewrite (thread_of_Ret _ _ _ Hlook). cbn [mbind outcome_bind].
  assert (Hsm3 : smooth p (called (put_sthread q i (set_pending u x)) WakeWaiters)) by (apply smooth_called; by apply (smooth_trans p q)).
  match goal with |- context [if ?a && ?b then _ else _] => destruct (a && b) end; [cbn; eexists _, _; by split|]. pose proof Hsm3 as (Hq3 & _).
  destruct (target_wake_spec _ i s _ (proj1 Hq3) Hs Hlook) as (p' & fatal & -> & Hqt & _ & Hut & Htt). cbn. eexists _, _. split; [done|].
  apply (smooth_trans p (called (put_sthread q i (set_pending u x)) WakeWaiters)); [done|]. split; [|split].
  - apply (signals_ok_quiet (called (put_sthread q i (set_pending u x)) WakeWaiters)); [done..|]. destruct Hq3 as [_ (T1 & T2 & T3)]. split; [|split].
    + intros j v Hv. destruct (Hut j v Hv) as (v0 & Hv0 & ->). eauto.
    + intros r j k Hr. rewrite !Htt. eauto.
    + intros r j Hr. rewrite Htt. destruct (quiet_fields _ _ Hqt) as (_ & -> & _). eauto.
  - by apply same_threads_quiet.
  - intros E F. apply covered_quiet; [done|]. intros j r _. by rewrite Htt.
Qed.

(** ** Taking *)

Lemma lowest_spec fuel b : forall s, is_signal s -> s + Z.of_nat fuel = 65 -> (exists r, s <= r <= 64 /\ holds b r = true) ->
  exists r, lowest_signal fuel b s = Ret r /\ s <= r <= 64 /\ holds b r = true /\ forall q, s <= q < r -> holds b q = false.
Proof.
  induction fuel as [|fuel IH]; intros s Hs Hf (r & Hr & Hb); [exfalso; lia|]. cbn [lowest_signal]. rewrite truth_land_bit by done.
  destruct (holds b s) eqn:Es.
  - exists s. split; [done|]. unfold is_signal in Hs. split; [lia|]. split; [done|]. lia.
  - assert (r <> s) by congruence. destruct (IH (s + 1)) as (q & Hq & H1 & H2 & H3); [unfold is_signal in *; lia|lia|exists r; split; [lia|done]|].
    exists q. split; [done|]. split; [lia|]. split; [done|]. intros k Hk. destruct (decide (k = s)) as [->|]; [done|]. apply H3. lia.
Qed.

(** The signals a thread may take out of a set. *)
Definition available (p : sprocess) (t : sthread) (set : Z) (honor : bool) : Z :=
  Z.land (Z.lor (bits (s_pending t)) (if honor then Z.land (bits (p_pending p)) (process_signal_target t) else bits (p_pending p))) set.

(** The set a signal is taken from. *)
Definition source_of (p : sprocess) (t : sthread) (s : Z) : signal_pending := if holds (bits (s_pending t)) s then s_pending t else p_pending p.

Lemma take_process_smooth p s x gone : is_signal s -> signals_ok p -> pending_ok x -> (forall r, is_signal r -> holds (bits x) r = holds (bits (p_pending p)) r && negb (gone && (s =? r))) ->
  smooth p (if gone : bool then signal_target_clear_locked (with_pending p x) s else with_pending p x).
Proof.
  intros Hs Hp Hx Hb. pose proof Hp as [(B1 & B2 & B3) (T1 & T2 & T3)]. set (q := if gone then _ else _).
  assert (Hqt : forall i r, is_signal r -> tgt q i r = tgt p i r && negb (gone && (s =? r))).
  { intros i r Hr. unfold q. destruct gone; cbn [andb negb]; [by apply (tgt_clear (with_pending p x))|by rewrite andb_true_r]. }
  assert (Hqq : quiet q = quiet (with_pending p x)) by (unfold q; destruct gone; [apply quiet_clear|done]).
  assert (Hqp : p_pending q = x) by (unfold q; by destruct gone).
  split; [|split].
  - split; [apply (base_quiet (with_pending p x)); [done|by split]|]. split; [|split].
    + unfold q. destruct gone; [by apply clear_targets_u64|done].
    + intros r i j Hr. rewrite !Hqt by done. intros. bool_to_prop. eauto.
    + intros r i Hr. rewrite Hqt, Hqp, Hb by done. intros Hh. apply andb_true_iff in Hh as [Hh1 Hh2]. rewrite Hh2, (T3 r i) by done. done.
  - by apply (same_threads_quiet (with_pending p x)).
  - intros E F Hc. apply (covered_step p q E E F F Hc).
    + intros r Hr. rewrite Hqp, Hb by done. intros Hh (i & Hi & Hbl). apply andb_true_iff in Hh as [Hh _]. split; [done|]. exists i. by rewrite (tble_quiet q (with_pending p x)) in Hbl.
    + intros r i t Hr. rewrite Hqp, Hb by done. intros Hh Ht Hg Ho. apply andb_true_iff in Hh as [_ Hh].
      destruct (quiet_lookup (with_pending p x) q i t (eq_sym Hqq) Ht) as (u & Hu & He). exists u. rewrite Hqt, Hg, Hh by done. split; [done|]. split; [done|].
      destruct Ho as [|Ho]; [by left|right]. rewrite <-targetable_erase in *. congruence.
Qed.

Lemma take_set_spec p i t set honor : signals_ok p -> p_threads p !! i = Some (Some t) ->
  exists p' taken, signal_take_set_locked p i set honor = Ret (p', taken) /\ smooth p p' /\
    match taken with
    | None => p' = p /\ forall s, is_signal s -> holds (available p t set honor) s = false
    | Some (s, e) => is_signal s /\ holds (available p t set honor) s = true /\ (forall r, 1 <= r < s -> holds (available p t set honor) r = false) /\ i_signal e = s /\
        exists x gone, take_from (source_of p t s) s = Ret (e, x, gone) /\
          p' = if holds (bits (s_pending t)) s then put_sthread p i (set_pending t x) else if gone : bool then signal_target_clear_locked (with_pending p x) s else with_pending p x
    end.
Proof.
  intros Hp Hi. pose proof Hp as [(B1 & B2 & B3) (T1 & T2 & T3)]. destruct (B3 i t Hi) as (P1 & P2 & P3). unfold signal_take_set_locked. rewrite (thread_of_Ret _ _ _ Hi). cbn [mbind outcome_bind].
  change (Z.land _ set) with (available p t set honor).
  assert (Hu : is_u64 (available p t set honor)).
  { unfold available. apply land_u64, lor_u64; [apply P1|]. destruct honor; [apply land_u64|]; apply B1. }
  destruct (truth (available p t set honor)) eqn:Ea; cbn [negb].
  2:{ eexists _, None. split; [done|]. split; [by apply smooth_refl|]. split; [done|]. intros s _. by apply set_empty. }
  destruct (set_inhabited _ Hu Ea) as (s0 & Hs0 & Hh0).
  destruct (lowest_spec 64 (available p t set honor) 1) as (s & -> & Hs & Hh & Hlow); [is_signal_solver|lia|by exists s0|].
  assert (Hsig : is_signal s) by (unfold is_signal; lia). cbn [mbind outcome_bind]. rewrite is_pending_holds by done.
  destruct (holds (bits (s_pending t)) s) eqn:Eown.
  - destruct (take_from_ok (s_pending t) s Hsig P1 Eown) as (e & x & gone & Htk & Hx & He & _). rewrite Htk. cbn. eexists _, (Some (s, e)). split; [done|]. split; [|refine (conj Hsig (conj Hh (conj _ (conj He (ex_intro _ x (ex_intro _ gone _)))))); [|unfold source_of; by rewrite Eown, Htk]; intros r Hr; by apply Hlow].
    split; [by apply (signals_ok_put p i t)|]. split; [by apply same_threads_put|]. intros E F Hc. by apply (covered_put p E F i t).
  - assert (Epr : holds (bits (p_pending p)) s = true).
    { unfold available in Hh. rewrite holds_land, holds_lor, Eown in Hh. cbn in Hh. apply andb_true_iff in Hh as [Hh _]. destruct honor; [|done]. rewrite holds_land in Hh. by apply andb_true_iff in Hh as [Hh _]. }
    destruct (take_from_ok (p_pending p) s Hsig B1 Epr) as (e & x & gone & Htk & Hx & He & Hb & _). rewrite Htk. cbn. eexists _, (Some (s, e)). split; [done|]. split; [by apply (take_process_smooth p s x gone)|]. refine (conj Hsig (conj Hh (conj _ (conj He (ex_intro _ x (ex_intro _ gone _)))))); [|unfold source_of; by rewrite Eown, Htk]; intros r Hr; by apply Hlow.
Qed.
