(* ===== verification/SignalSteps.v ===== *)
(** * Signals: a process and everything that happens to its signal state

    A state is a process with the threads that have begun to exit and those a
    fault has unblocked.  The operations are the calls made with the process
    lock held, one at a time and in any order. *)
From S2P Require Import Prelude Scheduler Signal SignalInv SignalTargets SignalOps.

Record ssys := MkSsys { y_process : sprocess; y_exiting : gset nat; y_forced : gset nat }.

Inductive sop :=
| OpSend (signal : Z) (info : option signal_info) (room : bool)
| OpSendThread (i : nat) (signal : Z) (info : option signal_info) (room : bool)
| OpSigaction (signal : Z) (action : user_arg process_signal_action) (size : Z) (old_ok : bool)
| OpSigprocmask (i : nat) (how : Z) (mask : user_arg Z) (size : Z) (old_ok : bool)
| OpSuspend (i : nat) (mask : Z)
| OpTimedwait (i : nat) (set : Z) (timeout_ms : option Z) (elapsed : Z)
| OpReturn (i : nat)
| OpSigreturn (i : nat) (mask : Z)
| OpStop
| OpFatal
| OpFault (i : nat) (signal code address : Z) (room : bool)
| OpExec (i : nat)
| OpClone (child parent : nat)
| OpStart (child parent : nat)
| OpState (i : nat) (state : thread_state)
| OpExit (i : nat)
| OpExited (i : nat)
| OpFree (i : nat).

Definition process_clone_thread (p : sprocess) (child parent : nat) : outcome sprocess := p ← slot_alloc p child; signal_thread_clone p child parent.
Definition change_state (p : sprocess) (i : nat) (state : thread_state) : outcome sprocess := t ← thread_of p i; Ret (put_sthread p i (set_state t state)).

Definition sig_perform (o : sop) (y : ssys) : outcome ssys :=
  let p := y_process y in let E := y_exiting y in let F := y_forced y in
  match o with
  | OpSend signal info room => '(p, _) ← signal_queue_process_locked p signal info room; Ret (MkSsys p E F)
  | OpSendThread i signal info room => '(p, _) ← signal_queue_thread_locked p i signal info room; Ret (MkSsys p E F)
  | OpSigaction signal action size old_ok => '(p, _, _) ← sys_linux_rt_sigaction p signal action size old_ok; Ret (MkSsys p E F)
  | OpSigprocmask i how mask size old_ok => '(p, _, _) ← sys_linux_rt_sigprocmask p i how mask size old_ok; Ret (MkSsys p E F)
  | OpSuspend i mask => p ← suspend_mask p i mask; Ret (MkSsys p E ∅)
  | OpTimedwait i set timeout_ms elapsed => '(p, _) ← sys_linux_rt_sigtimedwait p i set timeout_ms elapsed; Ret (MkSsys p E F)
  | OpReturn i => '(p, r) ← signal_user_return p i; Ret (MkSsys p E (match r with Handle _ _ _ _ => ∅ | _ => F end))
  | OpSigreturn i mask => p ← sigreturn_mask p i mask; Ret (MkSsys p E ∅)
  | OpStop => Ret (MkSsys (process_signal_stop p) E F)
  | OpFatal => Ret (MkSsys (process_signal_exit p) E F)
  | OpFault i signal code address room => p ← signal_force_fault p i signal code address room; Ret (MkSsys p E ({[i]} ∪ F))
  | OpExec i => p ← signal_process_exec p i; Ret (MkSsys p E ∅)
  | OpClone child parent => p ← process_clone_thread p child parent; Ret (MkSsys p E F)
  | OpStart child parent => p ← change_state p child THREAD_RUNNABLE; Ret (MkSsys p E F)
  | OpState i state => p ← change_state p i state; Ret (MkSsys p E F)
  | OpExit i => p ← signal_thread_detach_locked p i; Ret (MkSsys p ({[i]} ∪ E) F)
  | OpExited i => p ← change_state p i THREAD_EXITED; Ret (MkSsys p E F)
  | OpFree i => p ← slot_free p i; Ret (MkSsys p (E ∖ {[i]}) (F ∖ {[i]}))
  end.

(** ** Who may do what *)

Definition u64b (x : Z) : bool := (0 <=? x) && (x <? 2 ^ 64).
Definition slot_ok (y : ssys) (i : nat) (test : sthread -> bool) : bool := match p_threads (y_process y) !! i with Some (Some t) => test t | _ => false end.
Definition in_state (state : thread_state) (t : sthread) : bool := bool_decide (s_state t = state).
Definition is_live (t : sthread) : bool := in_state THREAD_RUNNABLE t || in_state THREAD_RUNNING t || in_state THREAD_SLEEPING t.
(** A running thread that has not begun to exit. *)
Definition caller (y : ssys) (i : nat) : bool := slot_ok y i (in_state THREAD_RUNNING) && bool_decide (i ∉ y_exiting y).
Definition arg_ok {A} (test : A -> bool) (a : user_arg A) : bool := match a with Arg a => test a | _ => true end.

(** A child thread starts with the mask of its parent, which waits for it in
    [process_clone_thread]. *)
Definition sig_allowed (o : sop) (y : ssys) : bool :=
  match o with
  | OpSend _ _ _ | OpStop | OpFatal => true
  | OpSendThread i _ _ _ => slot_ok y i (fun _ => true)
  | OpSigaction _ action _ _ => arg_ok (fun a => u64b (a_mask a)) action
  | OpSigprocmask i _ mask _ _ => caller y i && arg_ok u64b mask
  | OpSuspend i mask | OpSigreturn i mask => caller y i && u64b mask
  | OpTimedwait i _ _ _ | OpReturn i | OpExec i | OpExit i => caller y i
  | OpFault i signal _ _ _ => caller y i && signal_valid signal
  | OpClone child parent => caller y parent && match p_threads (y_process y) !! child with Some None => true | _ => false end
  | OpStart child parent =>
      caller y parent && negb (bool_decide (parent ∈ y_forced y)) && bool_decide (child ∉ y_exiting y) &&
      slot_ok y child (fun c => in_state THREAD_ALLOCATED c && slot_ok y parent (fun t => signal_mask c =? signal_mask t))
  | OpState i state => slot_ok y i is_live && (bool_decide (state = THREAD_RUNNABLE) || bool_decide (state = THREAD_RUNNING) || bool_decide (state = THREAD_SLEEPING))
  | OpExited i => slot_ok y i (in_state THREAD_RUNNING) && bool_decide (i ∈ y_exiting y)
  | OpFree i => slot_ok y i (fun t => in_state THREAD_EXITED t && bool_decide (i ∈ y_exiting y) || in_state THREAD_ALLOCATED t)
  end.

(** A process right after [fork]: the child thread and the actions of [signal_process_fork]. *)
Definition forked (parent : sprocess) (t : sthread) : ssys :=
  MkSsys (signal_process_fork (MkSprocess true signal_pending_init (replicate 64 no_action) (Some (signal_thread_fork (signal_thread_init THREAD_RUNNABLE) t) :: replicate 31 None) false false []) parent) ∅ ∅.

Inductive sig_reachable (y0 : ssys) : ssys -> Prop :=
| sig_start : sig_reachable y0 y0
| sig_step y o y' : sig_reachable y0 y -> sig_allowed o y = true -> sig_perform o y = Ret y' -> sig_reachable y0 y'.

(** ** The invariant of the system *)

Definition sys_ok (y : ssys) : Prop := signals_ok (y_process y) /\ covered (y_process y) (y_exiting y) (y_forced y).

Lemma forked_ok parent i t : signals_ok parent -> p_threads parent !! i = Some (Some t) -> sys_ok (forked parent t).
Proof.
  intros [(B1 & B2 & B3) _] Ht. destruct (B3 i t Ht) as (P1 & P2 & P3).
  assert (Hl : forall j u, p_threads (y_process (forked parent t)) !! j = Some (Some u) -> j = 0%nat /\ u = signal_thread_fork (signal_thread_init THREAD_RUNNABLE) t).
  { intros [|j] u; cbn; [by intros [= <-]|]. intros Hj. by apply (lookup_replicate_1 31 None (Some u) j) in Hj as [? _]. }
  split; [split; [split; [apply pending_init_ok|split; [done|]]|split; [|split]]|].
  - intros j u Hj. destruct (Hl j u Hj) as [_ ->]. split; [apply pending_init_ok|]. split; [exact P2|apply mask_ok_0].
  - intros j u Hj. by destruct (Hl j u Hj) as [_ ->].
  - intros s j k Hs Hj Hk. destruct (tgt_live _ _ _ Hj) as (u & Hu), (tgt_live _ _ _ Hk) as (v & Hv). destruct (Hl j u Hu) as [-> _], (Hl k v Hv) as [-> _]. done.
  - intros s j Hs Hj. destruct (tgt_live _ _ _ Hj) as (u & Hu). rewrite tgt_lookup, Hu in Hj by done. destruct (Hl j u Hu) as [_ ->]. cbn in Hj. unfold holds in Hj. by rewrite Z.bits_0 in Hj.
  - intros s Hs Hh. exfalso. cbn in Hh. unfold holds in Hh. by rewrite Z.bits_0 in Hh.
Qed.

(** ** The operations, one by one *)

Lemma covered_F p E F : covered p E ∅ -> covered p E F.
Proof. intros H s Hs Hh (i & Hi & Hb). apply H; [done..|]. exists i. split; [set_solver|done]. Qed.
Lemma slot_ok_spec y i test : slot_ok y i test = true -> exists t, p_threads (y_process y) !! i = Some (Some t) /\ test t = true.
Proof. unfold slot_ok. destruct (p_threads (y_process y) !! i) as [[t|]|]; [eauto|done..]. Qed.
Lemma caller_spec y i : caller y i = true -> exists t, p_threads (y_process y) !! i = Some (Some t) /\ s_state t = THREAD_RUNNING /\ i ∉ y_exiting y.
Proof.
  unfold caller. rewrite andb_true_iff, bool_decide_eq_true. intros [H1 H2]. apply slot_ok_spec in H1 as (t & Ht & Hs). unfold in_state in Hs. apply bool_decide_eq_true in Hs. eauto.
Qed.
Lemma u64b_spec x : u64b x = true -> is_u64 x.
Proof. unfold u64b, is_u64. intros. bool_to_prop. lia. Qed.
Lemma thread_ok_mask t m saved r : thread_ok t -> mask_ok m -> mask_ok saved -> thread_ok (set_mask t m saved r).
Proof. by intros (H1 & H2 & H3) Hm Hs. Qed.
Lemma thread_ok_of p i t : signals_ok p -> p_threads p !! i = Some (Some t) -> thread_ok t.
Proof. intros [(_ & _ & H) _]. apply H. Qed.
Lemma smooth_sys p p' E F : smooth p p' -> covered p E F -> sys_ok (MkSsys p' E F).
Proof. intros (H1 & _ & H3) Hc. split; [done|]. by apply H3. Qed.

(** A call that changes the caller's mask and reports it. *)
Lemma mask_call p i t m saved r : signals_ok p -> p_threads p !! i = Some (Some t) -> mask_ok m -> mask_ok saved ->
  exists p', signal_thread_mask_changed_locked (put_sthread p i (set_mask t m saved r)) = Ret p' /\ signals_ok p' /\ forall E F, covered p' E F.
Proof.
  intros Hp Hi Hm Hs. destruct (mask_update p i t (set_mask t m saved r)) as (p' & H1 & _ & H2); [done..| |done|by eauto].
  apply thread_ok_mask; [by apply (thread_ok_of p i)|done..].
Qed.

Lemma insert_action_ok p s a : signals_ok p -> is_u64 (a_mask a) -> signals_ok (with_actions p (<[Z.to_nat (s - 1) := a]> (signal_actions p))).
Proof. intros Hp Ha. pose proof Hp as [(_ & (H1 & H2) & _) _]. apply signals_ok_actions; [done|by rewrite length_insert|]. by apply Forall_insert. Qed.
Lemma smooth_actions p q l : signals_ok (with_actions q l) -> smooth p q -> smooth p (with_actions q l).
Proof. intros H (H1 & H2 & H3). by split. Qed.

Lemma sigaction_smooth p s action size ok : signals_ok p -> arg_ok (fun a => u64b (a_mask a)) action = true ->
  exists p' r, sys_linux_rt_sigaction p s action size ok = Ret (p', r.1, r.2) /\ smooth p p'.
Proof.
  intros Hp Ha. unfold sys_linux_rt_sigaction. case_if; [exists p, (- LINUX_EINVAL, None); split; [done|by apply smooth_refl]|].
  assert (Hs : is_signal s) by (bool_to_prop; unfold signal_valid, SIGNAL_COUNT, is_signal in *; bool_to_prop; lia).
  destruct (action_Ret p s (proj1 Hp) Hs) as (old & Hold & _). rewrite Hold. cbn [mbind outcome_bind].
  destruct action as [| |r]; [eexists p, (_, _); split; [done|by apply smooth_refl]|eexists p, (_, _); split; [done|by apply smooth_refl]|].
  match goal with |- context [if ?b then Ret (p, _, None) else _] => destruct b end; [eexists p, (_, _); split; [done|by apply smooth_refl]|].
  cbn in Ha. apply u64b_spec in Ha. set (q := with_actions p _).
  assert (Hq : smooth p q) by (apply smooth_actions; [apply insert_action_ok; [done|cbn; by apply sanitize_ok]|by apply smooth_refl]).
  eexists _, (_, _). split; [done|]. case_if; [|done]. apply (smooth_trans p q); [done|]. apply smooth_clear; [done|apply Hq].
Qed.

Lemma sigprocmask_ok p i t how mask size ok : signals_ok p -> p_threads p !! i = Some (Some t) -> arg_ok u64b mask = true ->
  exists p' r, sys_linux_rt_sigprocmask p i how mask size ok = Ret (p', r.1, r.2) /\ signals_ok p' /\ forall E F, covered p E F -> covered p' E F.
Proof.
  intros Hp Hi Ha. unfold sys_linux_rt_sigprocmask. case_if; [by exists p, (- LINUX_EINVAL, None)|]. rewrite (thread_of_Ret _ _ _ Hi). cbn [mbind outcome_bind].
  destruct mask as [| |m]; [by eexists p, (_, _)|by eexists p, (_, _)|]. cbn in Ha. apply u64b_spec in Ha.
  destruct (thread_ok_of p i t Hp Hi) as (_ & Hm & Hsv).
  assert (Hgen : forall new, mask_ok new -> exists p' (r : Z * option Z),
    (p ← signal_thread_mask_changed_locked (put_sthread p i (set_mask t new (signal_saved_mask t) (signal_restore_mask t))); Ret (p, if ok then 0 else - LINUX_EFAULT, Some (signal_mask t))) = Ret (p', r.1, r.2) /\
    signals_ok p' /\ forall E F, covered p E F -> covered p' E F).
  { intros new Hnew. destruct (mask_call p i t new (signal_saved_mask t) (signal_restore_mask t) Hp Hi Hnew Hsv) as (p' & -> & H1 & H2). cbn. eexists p', (_, _). by split. }
  repeat case_if; try (by eexists p, (_, _)); apply Hgen; auto with signals.
Qed.

(** * Signals: every step of the system keeps its invariant *)

Lemma suspend_ok p i t mask : signals_ok p -> p_threads p !! i = Some (Some t) -> is_u64 mask ->
  exists p', suspend_mask p i mask = Ret p' /\ signals_ok p' /\ forall E F, covered p' E F.
Proof.
  intros Hp Hi Hm. unfold suspend_mask. rewrite (thread_of_Ret _ _ _ Hi). destruct (thread_ok_of p i t Hp Hi) as (_ & H1 & _). apply mask_call; auto with signals.
Qed.
Lemma sigreturn_ok p i t mask : signals_ok p -> p_threads p !! i = Some (Some t) -> is_u64 mask ->
  exists p', sigreturn_mask p i mask = Ret p' /\ signals_ok p' /\ forall E F, covered p' E F.
Proof.
  intros Hp Hi Hm. unfold sigreturn_mask. rewrite (thread_of_Ret _ _ _ Hi). destruct (thread_ok_of p i t Hp Hi) as (_ & _ & H1). apply mask_call; auto with signals.
Qed.
Lemma exec_ok p i t : signals_ok p -> p_threads p !! i = Some (Some t) -> exists p', signal_process_exec p i = Ret p' /\ signals_ok p' /\ forall E F, covered p' E F.
Proof.
  intros Hp Hi. unfold signal_process_exec. set (q := with_actions p _).
  assert (Hq : signals_ok q).
  { pose proof Hp as [(_ & (H1 & H2) & _) _]. apply signals_ok_actions; [done|by rewrite length_fmap|]. apply Forall_fmap. eapply Forall_impl; [exact H2|]. intros a Ha. cbn. by case_if. }
  rewrite (thread_of_Ret q i t Hi). cbn [mbind outcome_bind]. destruct (thread_ok_of p i t Hp Hi) as (P1 & P2 & P3).
  destruct (mask_update q i t (set_mask (set_altstack t 0 0 LINUX_SS_DISABLE) (signal_mask t) (signal_saved_mask t) false) Hq Hi) as (p' & H1 & _ & H2); [by split|done|]. by exists p'.
Qed.

Lemma timedwait_ok p i t set timeout elapsed : signals_ok p -> p_threads p !! i = Some (Some t) -> exists p' r, sys_linux_rt_sigtimedwait p i set timeout elapsed = Ret (p', r) /\ smooth p p'.
Proof.
  intros Hp Hi. unfold sys_linux_rt_sigtimedwait. destruct (take_set_spec p i t (signal_mask_sanitize set) false Hp Hi) as (p' & taken & -> & Hs & _). cbn [mbind outcome_bind].
  destruct Hs as (H1 & H2 & H3). destruct (H2 i t Hi) as (u & Hu & _). rewrite (thread_of_Ret _ _ _ Hu). cbn [mbind outcome_bind].
  destruct taken as [[s e]|]; [by eexists _, _|]. case_if; [by eexists _, _|]. destruct timeout; by eexists _, _.
Qed.

Lemma take_unblocked_ok p i t : signals_ok p -> p_threads p !! i = Some (Some t) ->
  exists p' r, signal_take_unblocked_locked p i = Ret (p', r) /\ smooth p p' /\ match r with Some (s, e, a) => is_signal s /\ is_u64 (a_mask a) | None => True end.
Proof.
  intros Hp Hi. unfold signal_take_unblocked_locked. rewrite (thread_of_Ret _ _ _ Hi). cbn [mbind outcome_bind].
  destruct (take_set_spec p i t (Z.lnot (signal_mask t)) true Hp Hi) as (p' & taken & -> & Hs & Ht). cbn [mbind outcome_bind].
  destruct taken as [[s e]|]; [|by eexists _, None]. destruct Ht as (Hsig & _). destruct (action_Ret p' s (proj1 (proj1 Hs)) Hsig) as (a & -> & Ha). cbn.
  eexists _, (Some (s, e, a)). split; [done|]. split; [done|]. split; [done|]. destruct Hs as [[(_ & (_ & Hm) & _) _] _]. rewrite Forall_lookup in Hm. eauto.
Qed.
Lemma signal_return_ok p i t : signals_ok p -> p_threads p !! i = Some (Some t) ->
  exists p' r, signal_user_return p i = Ret (p', r) /\ signals_ok p' /\ match r with Handle _ _ _ _ => forall E F, covered p' E F | _ => forall E F, covered p E F -> covered p' E F end.
Proof.
  intros Hp Hi. unfold signal_user_return. rewrite (thread_of_Ret _ _ _ Hi). cbn [mbind outcome_bind]. case_if; [by eexists _, Asleep|].
  destruct (take_unblocked_ok p i t Hp Hi) as (q & r & -> & Hs & Hr). cbn [mbind outcome_bind]. destruct Hs as (Hq & Hth & Hc). destruct (Hth i t Hi) as (u & Hu & _).
  rewrite (thread_of_Ret _ _ _ Hu). cbn [mbind outcome_bind]. destruct (thread_ok_of q i u Hq Hu) as (_ & P2 & P3).
  destruct r as [[[s e] a]|].
  - destruct Hr as [Hsig Ha]. case_if; [by eexists _, Again|]. case_if; [case_if; [by eexists _, Again|]; case_if; [by eexists _, (Stop s)|by eexists _, (Exit _ _)]|].
    cbv zeta. destruct (mask_call q i u (signal_mask_sanitize (if truth (Z.land (a_flags a) LINUX_SA_NODEFER) then Z.lor (signal_mask u) (a_mask a) else Z.lor (Z.lor (signal_mask u) (a_mask a)) (SIGNAL_BIT s))) (signal_saved_mask u) false Hq Hu) as (p' & -> & H1 & H2); [|done|].
    { apply sanitize_ok. destruct P2 as (P2 & _). case_if; auto with signals. }
    cbn. eexists _, (Handle _ _ _ _). split; [done|]. case_if; [|done]. split; [by apply insert_action_ok|exact H2].
  - case_if; [|by eexists _, NoSignal].
    destruct (mask_call q i u (signal_saved_mask u) (signal_saved_mask u) false Hq Hu P3 P3) as (p' & -> & H1 & H2). cbn. by eexists _, NoSignal.
Qed.

(** A fault unblocks its signal; the thread does not count as a candidate until the next change of masks. *)
Lemma force_fault_ok p i t s code address room : signals_ok p -> p_threads p !! i = Some (Some t) -> is_signal s ->
  exists p', signal_force_fault p i s code address room = Ret p' /\ signals_ok p' /\ forall E F, covered p E F -> covered p' E ({[i]} ∪ F).
Proof.
  intros Hp Hi Hs. unfold signal_force_fault. rewrite (thread_of_Ret _ _ _ Hi). cbn [mbind outcome_bind]. set (u := set_mask t _ _ _). set (q := put_sthread p i u).
  destruct (thread_ok_of p i t Hp Hi) as (P1 & P2 & P3). pose proof (lookup_lt_Some _ _ _ Hi) as Hlt.
  assert (Hq : signals_ok q) by (apply (signals_ok_put p i t); [done..| |done]; split; [done|split; [apply mask_ok_land; done|done]]).
  assert (Hqi : p_threads q !! i = Some (Some u)) by (unfold q; rewrite put_sthread_lookup, decide_True by done; done).
  assert (Hcq : forall E F, covered p E F -> covered q E ({[i]} ∪ F)).
  { intros E F Hc. apply (covered_step p q E E F _ Hc).
    - intros r Hr Hh (j & Hj & Hb). split; [done|]. exists j. split; [set_solver|]. apply tble_live in Hb as (v & Hv & _ & Hb). unfold q in Hv. rewrite put_sthread_lookup, decide_False in Hv by set_solver. by apply (tble_intro _ _ _ _ v).
    - intros r j v Hr _ Hv Hg Ho. unfold q. rewrite put_sthread_lookup by done. rewrite (tgt_put p i t u) by done. case_decide; [|eauto]. subst. simplify_eq. exists u. split; [done|]. split; [done|].
      destruct Ho as [|Ho]; [by left|right]. unfold targetable in *. rewrite !truth_land_bit in * by done. cbn. rewrite holds_clear by done.
      destruct (holds (signal_mask t) r); [|done]. bool_to_prop. destruct (truth (Z.land (SIGNAL_BIT r) SIGNAL_UNMASKABLE)); [|naive_solver]. apply andb_true_iff. split; [|done]. by rewrite !andb_true_iff, !negb_true_iff. }
  destruct (action_Ret q s (proj1 Hq) Hs) as (a & -> & _). cbn [mbind outcome_bind]. set (q2 := if handler a =? LINUX_SIG_IGN then reset_action q s else q).
  assert (Hq2 : signals_ok q2 /\ p_threads q2 !! i = Some (Some u) /\ forall E F, covered q E F -> covered q2 E F).
  { unfold q2. case_if; [|done]. split; [by apply insert_action_ok|done]. }
  destruct Hq2 as (Hq2 & Hi2 & Hc2). destruct (queue_thread_spec q2 i u s (Some (MkInfo s 0 code 0 0 0 0 0 address)) room Hq2 Hi2) as (p' & rc & -> & (H1 & _ & H3)). cbn.
  exists p'. split; [done|]. split; [done|]. auto.
Qed.

(** ** Threads come, change state and go *)

(** A slot filled with a thread that is no target and cannot be one yet. *)
Lemma fill_slot p i u : signals_ok p -> p_threads p !! i = Some None -> thread_ok u -> process_signal_target u = 0 -> s_state u = THREAD_ALLOCATED ->
  signals_ok (put_sthread p i u) /\ forall E F, covered p E F -> covered (put_sthread p i u) E F.
Proof.
  intros [(B1 & B2 & B3) (T1 & T2 & T3)] Hi Hu H0 Hst. pose proof (lookup_lt_Some _ _ _ Hi) as Hlt.
  assert (Ht : forall j s, is_signal s -> tgt (put_sthread p i u) j s = tgt p j s).
  { intros j s Hs. rewrite !tgt_lookup, put_sthread_lookup by done. case_decide; [subst; rewrite Hi, H0; unfold holds; apply Z.bits_0|done]. }
  split; [split; [split; [done|split; [done|]]|split; [|split]]|].
  - intros j v. rewrite put_sthread_lookup by done. case_decide; [by intros [= <-]|eauto].
  - intros j v. rewrite put_sthread_lookup by done. case_decide; [intros [= <-]; by rewrite H0|eauto].
  - intros s j k Hs. rewrite !Ht by done. eauto.
  - intros s j Hs. rewrite Ht by done. eauto.
  - intros E F Hc. apply (covered_step p _ E E F F Hc).
    + intros s Hs Hh (j & Hj & Hb). split; [done|]. exists j. split; [done|]. apply tble_live in Hb as (v & Hv & _ & Hb). rewrite put_sthread_lookup in Hv by done.
      case_decide; [simplify_eq; unfold targetable in Hb; rewrite Hst in Hb; done|by apply (tble_intro _ _ _ _ v)].
    + intros s j v Hs _ Hv Hg Ho. rewrite put_sthread_lookup, Ht by done. case_decide; [simplify_eq|eauto].
Qed.
Lemma clone_ok p child parent t : signals_ok p -> p_threads p !! parent = Some (Some t) -> p_threads p !! child = Some None ->
  exists p', process_clone_thread p child parent = Ret p' /\ signals_ok p' /\ forall E F, covered p E F -> covered p' E F.
Proof.
  intros Hp Ht Hc. unfold process_clone_thread, slot_alloc. rewrite (rd_Ret _ _ _ Hc). cbn [mbind outcome_bind]. pose proof (lookup_lt_Some _ _ _ Hc) as Hlt.
  assert (child <> parent) by congruence. unfold signal_thread_clone.
  rewrite (thread_of_Ret _ child (signal_thread_init THREAD_ALLOCATED)) by (cbn; by rewrite list_lookup_insert_eq). cbn [mbind outcome_bind].
  rewrite (thread_of_Ret _ parent t) by (cbn; by rewrite list_lookup_insert_ne). cbn [mbind outcome_bind]. eexists. split; [done|].
  unfold put_sthread, with_threads. cbn. rewrite list_insert_insert_eq. apply (fill_slot p child); [done..| |done|done].
  destruct (thread_ok_of p parent t Hp Ht) as (_ & P2 & _). split; [apply pending_init_ok|]. split; [done|apply mask_ok_0].
Qed.

(** A change of state that keeps the coverage. *)
Lemma change_state_ok p i t st : signals_ok p -> p_threads p !! i = Some (Some t) -> change_state p i st = Ret (put_sthread p i (set_state t st)) /\ signals_ok (put_sthread p i (set_state t st)).
Proof.
  intros Hp Hi. unfold change_state. rewrite (thread_of_Ret _ _ _ Hi). split; [done|]. apply (signals_ok_put p i t); [done..| |done]. exact (thread_ok_of p i t Hp Hi).
Qed.
Lemma live_targetable t s : is_live t = true -> targetable t s = truth (Z.land (SIGNAL_BIT s) SIGNAL_UNMASKABLE) || negb (truth (Z.land (signal_mask t) (SIGNAL_BIT s))).
Proof. unfold is_live, in_state, targetable. rewrite !orb_true_iff, !bool_decide_eq_true. by intros [[->| ->]| ->]. Qed.
Lemma live_covered p i t st E F : p_threads p !! i = Some (Some t) -> is_live t = true -> is_live (set_state t st) = true -> covered p E F -> covered (put_sthread p i (set_state t st)) E F.
Proof.
  intros Hi H1 H2 Hc. apply (covered_put p E F i t); [done..|]. intros s. by rewrite !live_targetable.
Qed.
(** A thread that has begun to exit does not count, so neither does its end. *)
Lemma exited_covered p i t E F : p_threads p !! i = Some (Some t) -> i ∈ E -> covered p E F -> covered (put_sthread p i (set_state t THREAD_EXITED)) E F.
Proof.
  intros Hi HE Hc. pose proof (lookup_lt_Some _ _ _ Hi) as Hlt. apply (covered_step p _ E E F F Hc).
  - intros s Hs Hh (j & Hj & Hb). split; [done|]. exists j. split; [done|]. apply tble_live in Hb as (v & Hv & _ & Hb). rewrite put_sthread_lookup, decide_False in Hv by set_solver. by apply (tble_intro _ _ _ _ v).
  - intros s j v Hs _ Hv Hg Ho. rewrite put_sthread_lookup by done. rewrite (tgt_put p i t) by done. case_decide; [subst; eauto|eauto].
Qed.
(** A new thread has the mask of its parent: it adds no candidate where there was none. *)
Lemma start_covered p child c parent t E F : p_threads p !! child = Some (Some c) -> s_state c = THREAD_ALLOCATED -> child ∉ E ->
  p_threads p !! parent = Some (Some t) -> s_state t = THREAD_RUNNING -> parent ∉ E ∪ F -> signal_mask c = signal_mask t ->
  covered p E F -> covered (put_sthread p child (set_state c THREAD_RUNNABLE)) E F.
Proof.
  intros Hc Hcs HcE Ht Hts HtE Hm Hcov. pose proof (lookup_lt_Some _ _ _ Hc) as Hlt. apply (covered_step p _ E E F F Hcov).
  - intros s Hs Hh (j & Hj & Hb). split; [done|]. apply tble_live in Hb as (v & Hv & _ & Hb). rewrite put_sthread_lookup in Hv by done. case_decide; [|exists j; split; [done|by apply (tble_intro _ _ _ _ v)]].
    simplify_eq. exists parent. split; [done|]. apply (tble_intro _ _ _ _ t); [done..|]. unfold targetable in *. rewrite Hts. cbn in *. by rewrite <-Hm.
  - intros s j v Hs _ Hv Hg Ho. rewrite put_sthread_lookup by done. rewrite (tgt_put p child c) by done. case_decide; [|eauto]. subst. simplify_eq. exfalso. destruct Ho as [|Ho]; [done|]. unfold targetable in Ho. by rewrite Hcs in Ho.
Qed.

Lemma signal_exit_ok p i t : signals_ok p -> p_threads p !! i = Some (Some t) ->
  exists p', signal_thread_detach_locked p i = Ret p' /\ signals_ok p' /\ quiet p' = quiet p /\ (forall s, is_signal s -> tgt p' i s = false) /\ forall E F, covered p E F -> covered p' ({[i]} ∪ E) F.
Proof.
  intros Hp Hi. destruct (detach_spec p i t Hp Hi) as (p' & -> & Hq & Hp' & Hno & Hset). exists p'. split; [done|]. split; [done|]. split; [done|]. split; [done|].
  intros E F Hc s Hs Hh (j & Hj & Hb). specialize (Hset s Hs). destruct (quiet_fields _ _ Hq) as (_ & Ep & _). destruct (tgt p i s) eqn:Eg.
  - destruct (Hset Hh) as (k & Hk & Hk').
    + exists j. apply tble_live in Hb as (v & Hv & _ & Hb). apply (tble_intro _ _ _ _ v); [done| |done]. intros [= ->]. set_solver.
    + apply tble_live in Hk' as (v & Hv & _ & Hb'). exists k, v. auto.
  - rewrite Ep in Hh. destruct (Hc s Hs Hh) as (k & v & Hv & Hg & Ho); [exists j; split; [set_solver|by rewrite <-(tble_quiet p' p)]|].
    destruct (quiet_lookup p p' k v (eq_sym Hq) Hv) as (u & Hu & He). exists k, u. split; [done|]. rewrite Hset. split; [done|].
    destruct Ho as [|Ho]; [left; set_solver|right]. rewrite <-targetable_erase in *. congruence.
Qed.
Lemma signal_free_ok p i t : signals_ok p -> p_threads p !! i = Some (Some t) ->
  exists p', slot_free p i = Ret p' /\ signals_ok p' /\ forall E F, covered p E F -> (i ∈ E \/ s_state t = THREAD_ALLOCATED) -> covered p' (E ∖ {[i]}) (F ∖ {[i]}).
Proof.
  intros Hp Hi. unfold slot_free. destruct (signal_exit_ok p i t Hp Hi) as (q & -> & Hq & Hqq & Hno & Hcov). cbn. set (p' := with_threads _ _). eexists. split; [done|].
  destruct (quiet_lookup p q i t (eq_sym Hqq) Hi) as (u & Hu & _). pose proof (lookup_lt_Some _ _ _ Hu) as Hlt.
  assert (Hl : forall j, p_threads p' !! j = if decide (i = j) then Some None else p_threads q !! j).
  { intros j. cbn. case_decide; [subst; by apply list_lookup_insert_eq|by apply list_lookup_insert_ne]. }
  assert (Ht : forall j s, is_signal s -> tgt p' j s = tgt q j s).
  { intros j s Hs. rewrite (tgt_lookup p'), Hl by done. case_decide; [subst; by rewrite Hno|]. by rewrite tgt_lookup. }
  pose proof Hq as [(B1 & B2 & B3) (T1 & T2 & T3)]. split; [split; [split; [done|split; [done|]]|split; [|split]]|].
  - intros j v. rewrite Hl. case_decide; [done|eauto].
  - intros j v. rewrite Hl. case_decide; [done|eauto].
  - intros s j k Hs. rewrite !Ht by done. eauto.
  - intros s j Hs. rewrite Ht by done. eauto.
  - intros E F Hc _. specialize (Hcov E F Hc). apply (covered_step q p' ({[i]} ∪ E) _ F _ Hcov).
    + intros s Hs Hh (j & Hj & Hb). split; [done|]. exists j. apply tble_live in Hb as (v & Hv & _ & Hb). rewrite Hl in Hv. case_decide; [done|]. split; [set_solver|]. by apply (tble_intro _ _ _ _ v).
    + intros s j v Hs _ Hv Hg Ho. assert (i <> j) by (intros ->; by rewrite Hno in Hg). rewrite Hl, Ht, decide_False by done. exists v. split; [done|]. split; [done|].
      destruct Ho as [Ho|]; [left; set_solver|by right].
Qed.

(** ** All steps *)

Lemma sig_perform_ok o y : sys_ok y -> sig_allowed o y = true -> exists y', sig_perform o y = Ret y' /\ sys_ok y'.
Proof.
  intros [Hp Hc] Ha. destruct y as [p E F]. unfold sys_ok. cbn [y_process y_exiting y_forced] in *.
  destruct o as [signal info room|i signal info room|signal action size old_ok|i how m size old_ok|i m|i set timeout_ms elapsed|i|i m| | |i signal code address room|i|child parent|child parent|i state|i|i|i];
    cbn [sig_perform sig_allowed y_process y_exiting y_forced] in *; bool_to_prop;
    repeat match goal with
    | H : caller _ _ = true |- _ => apply caller_spec in H as (?t & ?Ht & ?Hrun & ?HE); cbn [y_process y_exiting y_forced] in *
    | H : slot_ok _ _ _ = true |- _ => apply slot_ok_spec in H as (?u & ?Hu & ?Htest); cbn [y_process y_exiting y_forced] in *
    | H : u64b _ = true |- _ => apply u64b_spec in H
    end.
  - destruct (queue_process_spec p signal info room Hp) as (p' & rc & -> & Hs). cbn. eexists. split; [done|]. by apply (smooth_sys p).
  - destruct (queue_thread_spec p i u signal info room Hp Hu) as (p' & rc & -> & Hs). cbn. eexists. split; [done|]. by apply (smooth_sys p).
  - destruct (sigaction_smooth p signal action size old_ok Hp Ha) as (p' & r & -> & Hs). cbn. eexists. split; [done|]. by apply (smooth_sys p).
  - destruct (sigprocmask_ok p i t how m size old_ok Hp Ht) as (p' & r & -> & H1 & H2); [done|]. cbn. eexists. split; [done|]. by split; [|apply H2].
  - destruct (suspend_ok p i t m Hp Ht) as (p' & -> & H1 & H2); [done|]. cbn. eexists. by split.
  - destruct (timedwait_ok p i t set timeout_ms elapsed Hp Ht) as (p' & r & -> & Hs). cbn. eexists. split; [done|]. by apply (smooth_sys p).
  - destruct (signal_return_ok p i t Hp Ht) as (p' & r & -> & H1 & H2). cbn. eexists. split; [done|]. split; [done|]. cbn. destruct r; by apply H2.
  - destruct (sigreturn_ok p i t m Hp Ht) as (p' & -> & H1 & H2); [done|]. cbn. eexists. by split.
  - eexists. split; [done|]. cbn. unfold process_signal_stop. by case_if.
  - by eexists.
  - assert (Hs : is_signal signal) by (unfold signal_valid, SIGNAL_COUNT, is_signal in *; bool_to_prop; lia).
    destruct (force_fault_ok p i t signal code address room Hp Ht Hs) as (p' & -> & H1 & H2). cbn. eexists. split; [done|]. split; [done|]. by apply H2.
  - destruct (exec_ok p i t Hp Ht) as (p' & -> & H1 & H2). cbn. eexists. by split.
  - destruct (p_threads p !! child) as [[?|]|] eqn:Ec; try done.
    destruct (clone_ok p child parent t Hp Ht Ec) as (p' & -> & H1 & H2). cbn. eexists. split; [done|]. split; [done|]. by apply H2.
  - apply andb_true_iff in Htest as [Hst Htest]. apply slot_ok_spec in Htest as (t' & Ht' & Hm). cbn in Ht'. rewrite Ht in Ht'. injection Ht' as <-.
    unfold in_state in Hst. rewrite ?bool_decide_eq_true, ?bool_decide_eq_false in *. apply Z.eqb_eq in Hm.
    destruct (change_state_ok p child u THREAD_RUNNABLE Hp Hu) as [-> Hok]. cbn. eexists. split; [done|]. split; [done|]. cbn.
    apply (start_covered p child u parent t); [done..|set_solver|done|done].
  - destruct (change_state_ok p i u state Hp Hu) as [-> Hok]. cbn. eexists. split; [done|]. split; [done|]. cbn. apply live_covered; [done..| |done].
    match goal with H : _ \/ _ |- _ => destruct H as [H|H]; [apply orb_true_iff in H as [H|H]|] end; unfold is_live, in_state; cbn; by rewrite H0, ?orb_true_r.
  - destruct (signal_exit_ok p i t Hp Ht) as (p' & -> & H1 & _ & _ & H2). cbn. eexists. split; [done|]. split; [done|]. by apply H2.
  - destruct (change_state_ok p i u THREAD_EXITED Hp Hu) as [-> H1]. cbn. eexists. split; [done|]. split; [done|]. cbn. apply exited_covered; [done| |done]. by apply bool_decide_eq_true in H0.
  - destruct (signal_free_ok p i u Hp Hu) as (p' & -> & H1 & H2). cbn. eexists. split; [done|]. split; [done|]. apply H2; [done|].
    apply orb_true_iff in Htest as [Htest|Htest]; [apply andb_true_iff in Htest as [_ Htest]; left; by apply bool_decide_eq_true in Htest|right; by apply bool_decide_eq_true in Htest].
Qed.
Lemma sig_reachable_ok y0 y : sys_ok y0 -> sig_reachable y0 y -> sys_ok y.
Proof. intros H0 H. induction H as [|y o y' _ IH Ha Hp]; [done|]. destruct (sig_perform_ok o y IH Ha) as (y'' & Hp' & Hy). congruence. Qed.
