(* ===== verification/SignalTheorems.v ===== *)
(** * Signals: the theorems *)
From S2P Require Import Prelude Scheduler Signal SignalInv SignalTargets SignalOps SignalSteps.

(** ** A pending set as queues

    What a set of pending signals stands for: for every signal the queue of its
    informations, of which a standard signal has at most one. *)
Definition pending_view (x : signal_pending) (s : Z) : list signal_info :=
  if 32 <=? s then queued x s else if holds (bits x) s then match information x !! Z.to_nat (s - 1) with Some e => [e] | None => [] end else [].

Lemma pending_view_nil x s : pending_ok x -> is_signal s -> is_pending x s = bool_decide (pending_view x s <> []).
Proof.
  intros [H1 H2 H3 H4 H5 H6 H7] Hs. rewrite is_pending_holds by done. unfold pending_view. apply eq_true_iff_eq. rewrite bool_decide_eq_true. destruct (Z.leb_spec 32 s).
  - rewrite H6 by (unfold is_signal in Hs; lia). unfold queued. split.
    + intros (e & He & Es) Hn. by apply (filter_nil_not_elem_of _ _ e Hn).
    + intros Hn. destruct (filter _ (realtime x)) as [|e l] eqn:Ef; [done|]. exists e. assert (He : e ∈ filter (fun e => i_signal e = s) (realtime x)) by (rewrite Ef; left). by apply list_elem_of_filter in He as [? ?].
  - destruct (holds (bits x) s) eqn:Eb; [|naive_solver]. destruct (H7 s) as (e & -> & _); [unfold is_signal in Hs; lia|done|]. naive_solver.
Qed.

(** What storing does, in terms of the queues. *)
Lemma store_view x s info room x' : is_signal s -> pending_ok x -> signal_store_pending x s info room = inr x' ->
  pending_view x' s = (if (s <? 32) && is_pending x s then pending_view x s else pending_view x s ++ [with_signal (default no_info info) s]) /\
  forall r, is_signal r -> r <> s -> pending_view x' r = pending_view x r.
Proof.
  intros Hs [H1 H2 H3 H4 H5 H6 H7]. unfold signal_store_pending, LINUX_SIGRTMIN. rewrite is_pending_holds by done. destruct (Z.leb_spec 32 s) as [Hrt|Hstd].
  - case_if; [done|]. destruct room; cbn; [|done]. intros [= <-]. rewrite (proj2 (Z.ltb_ge s 32)) by lia. cbn [andb]. unfold pending_view, queued. cbn. split.
    + rewrite (proj2 (Z.leb_le 32 s)) by lia. rewrite filter_app, filter_cons_True by done. done.
    + intros r Hr Hne. rewrite filter_app, filter_cons_False by (cbn; congruence). rewrite holds_set, (proj2 (Z.eqb_neq s r)), orb_false_r by (done || congruence). by rewrite filter_nil, app_nil_r.
  - rewrite (proj2 (Z.ltb_lt s 32)) by lia. cbn [andb]. destruct (holds (bits x) s) eqn:Eb; intros [= <-]; [done|]. unfold pending_view, queued. cbn. split.
    + rewrite (proj2 (Z.leb_gt 32 s)), Eb, holds_set, Z.eqb_refl, orb_true_r by (done || lia). rewrite list_lookup_insert_eq by (unfold is_signal in *; lia). done.
    + intros r Hr Hne. rewrite holds_set, (proj2 (Z.eqb_neq s r)), orb_false_r by (done || congruence).
      rewrite list_lookup_insert_ne by (apply slot_ne; done || congruence). done.
Qed.
Lemma take_view x s e l : is_signal s -> pending_ok x -> pending_view x s = e :: l ->
  exists x' gone, take_from x s = Ret (e, x', gone) /\ pending_ok x' /\ pending_view x' s = l /\ gone = bool_decide (l = []) /\ forall r, is_signal r -> r <> s -> pending_view x' r = pending_view x r.
Proof.
  intros Hs Hx Hv. assert (Hh : holds (bits x) s = true).
  { rewrite <-is_pending_holds, pending_view_nil, Hv by done. done. }
  destruct (take_from_ok x s Hs Hx Hh) as (e' & x' & gone & Htk & Hx' & _ & Hb & Hc). unfold pending_view in Hv. destruct (Z.leb_spec 32 s) as [Hrt|Hstd].
  - destruct Hc as (Hq & Ho & Hg). rewrite Hq in Hv. simplify_eq. exists x', (bool_decide (queued x' s = [])). split; [done|]. split; [done|]. split; [|split; [done|]].
    + unfold pending_view. by rewrite (proj2 (Z.leb_le 32 s)).
    + intros r Hr Hne. unfold pending_view. rewrite Ho, Hb by done. rewrite (proj2 (Z.eqb_neq s r)), andb_false_r, andb_true_r by congruence. destruct (Z.leb_spec 32 r); [done|].
      unfold take_from, LINUX_SIGRTMIN in Htk. rewrite (proj2 (Z.leb_le 32 s)) in Htk by lia. destruct (take_entry _ _) as [[? ?]|]; simplify_eq. done.
  - destruct Hc as (Hi & -> & Hrl). rewrite Hh, Hi in Hv. simplify_eq. exists x', true. split; [done|]. split; [done|]. split; [|split; [done|]].
    + unfold pending_view. rewrite (proj2 (Z.leb_gt 32 s)), Hb, Z.eqb_refl by (done || lia). by rewrite andb_false_r.
    + intros r Hr Hne. unfold pending_view, queued. rewrite Hrl, Hb by done. rewrite (proj2 (Z.eqb_neq s r)), andb_false_r, andb_true_r by congruence.
      unfold take_from, LINUX_SIGRTMIN in Htk. rewrite (proj2 (Z.leb_gt 32 s)), (rd_Ret _ _ _ Hi) in Htk by lia. cbn in Htk. simplify_eq. cbn.
      rewrite list_lookup_insert_ne by (apply slot_ne; done || congruence). done.
Qed.
Lemma clear_view x s : is_signal s -> pending_view (signal_pending_clear x s) s = [] /\ forall r, is_signal r -> r <> s -> pending_view (signal_pending_clear x s) r = pending_view x r.
Proof.
  intros Hs. unfold pending_view, queued. cbn. split.
  - rewrite holds_clear, Z.eqb_refl, andb_false_r by done. case_if; [|done]. rewrite list_filter_filter.
    induction (realtime x) as [|e l IH]; [done|]. rewrite filter_cons_False by tauto. done.
  - intros r Hr Hne. rewrite holds_clear, (proj2 (Z.eqb_neq s r)), andb_true_r by (done || congruence). rewrite list_lookup_insert_ne by (apply slot_ne; done || congruence).
    rewrite list_filter_filter_l by naive_solver. done.
Qed.

(** C13: The set of pending signals implements one queue per signal.  A standard
    signal that is pending already keeps its first information; otherwise a
    store appends to the queue of its signal alone, and is refused only for a
    realtime signal when 128 are queued or memory is short.  Taking a signal
    returns the head of its queue and leaves the tail, and reports the signal as
    gone exactly when its queue is empty; clearing empties it.  The bit of a
    signal says whether its queue is empty. *)
Theorem pending_refines_queues x s info room :
  pending_ok x -> is_signal s ->
  is_pending x s = bool_decide (pending_view x s <> []) /\
  match signal_store_pending x s info room with
  | inl e => e = SIGNAL_QUEUE_FULL /\ 32 <= s /\ (room = false \/ length (realtime x) = 128%nat)
  | inr x' => pending_ok x' /\
      pending_view x' s = (if (s <? 32) && is_pending x s then pending_view x s else pending_view x s ++ [with_signal (default no_info info) s]) /\
      forall r, is_signal r -> r <> s -> pending_view x' r = pending_view x r
  end /\
  (forall e l, pending_view x s = e :: l -> exists x' gone, take_from x s = Ret (e, x', gone) /\ pending_ok x' /\ pending_view x' s = l /\ gone = bool_decide (l = []) /\
     forall r, is_signal r -> r <> s -> pending_view x' r = pending_view x r) /\
  pending_ok (signal_pending_clear x s) /\ pending_view (signal_pending_clear x s) s = [] /\
  forall r, is_signal r -> r <> s -> pending_view (signal_pending_clear x s) r = pending_view x r.
Proof.
  intros Hx Hs. split; [by apply pending_view_nil|]. split; [|split; [intros; by apply take_view|split; [by apply pending_clear_ok|by apply clear_view]]].
  pose proof (store_pending_ok x s info room Hs Hx) as H. destruct (signal_store_pending x s info room) as [e|x'] eqn:E; [done|]. split; [apply H|]. by apply (store_view x s info room x').
Qed.
Lemma pending_refines_queues_witness :
  exists x', signal_store_pending signal_pending_init 40 None true = inr x' /\ pending_view x' 40 = [with_signal no_info 40].
Proof.
  destruct (pending_refines_queues signal_pending_init 40 None true) as (_ & H & _); [apply pending_init_ok|unfold is_signal; lia|].
  eexists. split; [reflexivity|]. exact (proj1 (proj2 H)).
Defined.

(** ** The whole system *)

(** C15: Signal state keeps its shape.  Whatever calls follow a [fork], in any
    order, none of them panics (no pending realtime signal is missing from its
    queue) or leaves an array, and after each of them every set of pending
    signals is well formed, no mask blocks SIGKILL or SIGSTOP, every target of a
    signal has the signal pending on the process, and no signal has two. *)
Theorem signal_state_invariant parent i t y o :
  signals_ok parent -> p_threads parent !! i = Some (Some t) -> sig_reachable (forked parent t) y -> sig_allowed o y = true ->
  exists y', sig_perform o y = Ret y' /\ signals_ok (y_process y').
Proof.
  intros Hp Ht Hr Ha. destruct (sig_perform_ok o y) as (y' & Hy & Hok & _); [|done|by exists y']. apply (sig_reachable_ok (forked parent t)); [|done]. by apply (forked_ok parent i).
Qed.

(** A thread that could take a signal sees it when it is its target. *)
Lemma target_unblocked p i t s : signals_ok p -> is_signal s -> p_threads p !! i = Some (Some t) -> targetable t s = true -> tgt p i s = true ->
  holds (unblocked p t) s = true.
Proof.
  intros Hp Hs Ht Htb Hg. destruct (thread_ok_of p i t Hp Ht) as (_ & (_ & Hk & Hst) & _). destruct Hp as [_ (_ & _ & T3)]. pose proof (T3 s i Hs Hg) as Hpend.
  rewrite tgt_lookup, Ht in Hg by done. unfold unblocked. rewrite !holds_land, holds_lor, holds_land, Hpend, Hg, orb_true_r, holds_lnot by done. cbn.
  unfold targetable in Htb. apply andb_true_iff in Htb as [_ Htb]. rewrite truth_land_bit in Htb by done. apply orb_true_iff in Htb as [Hu|Hm]; [|done].
  assert (s = LINUX_SIGKILL \/ s = LINUX_SIGSTOP) as [-> | ->]; [|by rewrite Hk|by rewrite Hst].
  rewrite Z.land_comm, truth_land_bit in Hu by done. unfold SIGNAL_UNMASKABLE in Hu. rewrite holds_lor, !holds_bit, orb_true_iff, !Z.eqb_eq in Hu by is_signal_solver. naive_solver.
Qed.
Lemma truth_holds b s : is_signal s -> holds b s = true -> truth b = true.
Proof. intros Hs Hh. destruct (truth b) eqn:E; [done|]. by rewrite (set_empty b s E) in Hh. Qed.

(** C4: No signal is stranded.  In every state that the calls reach, when a
    signal is pending on the process and some thread could take it that is
    neither between the start of its exit and its removal ([y_exiting]) nor was
    unblocked by a fault without a change of masks since ([y_forced]), then
    exactly one thread is its target.  Either this thread does not block the
    signal and finds it on its way to user mode, or it is a thread that exits and
    became the target after it was detached; the removal of that thread is a call
    as well, so that the signal then has a target again. *)
Theorem signal_not_stranded parent k t y s :
  signals_ok parent -> p_threads parent !! k = Some (Some t) -> sig_reachable (forked parent t) y ->
  is_signal s -> is_pending (p_pending (y_process y)) s = true ->
  (exists j, j ∉ y_exiting y ∪ y_forced y /\ signal_thread_targetable_locked (p_threads (y_process y)) j s None = true) ->
  exists i u, p_threads (y_process y) !! i = Some (Some u) /\
    (forall j, targeted (p_threads (y_process y)) j s = bool_decide (j = i)) /\
    (i ∈ y_exiting y \/
     targetable u s = true /\ holds (unblocked (y_process y) u) s = true /\ signal_pending_unblocked (y_process y) i = Ret true).
Proof.
  intros Hp Ht Hr Hs Hpend Hj. destruct (sig_reachable_ok _ _ (forked_ok parent k t Hp Ht) Hr) as [Hok Hcov].
  rewrite is_pending_holds in Hpend by done. destruct (Hcov s Hs Hpend Hj) as (i & u & Hu & Hg & Ho).
  exists i, u. split; [done|]. split.
  - intros l. apply eq_true_iff_eq. rewrite bool_decide_eq_true. pose proof Hok as [_ (_ & T2 & _)]. split; [intros Hl; by apply (T2 s)|by intros ->].
  - destruct Ho as [Ho|Htb]; [by left|right]. split; [done|]. pose proof (target_unblocked _ i u s Hok Hs Hu Htb Hg) as Hun. split; [done|].
    unfold signal_pending_unblocked. rewrite (thread_of_Ret _ _ _ Hu). cbn. by rewrite (truth_holds _ s).
Qed.

(** What [signal_take_set_locked] leaves behind when a thread takes a signal: the queue of the signal that it was taken
    from is one shorter and every other queue is as before; a signal of the process that is no longer pending has no
    target any more. *)
Lemma take_set_rest p i t s e p' : signals_ok p -> p_threads p !! i = Some (Some t) -> is_signal s -> holds (bits (source_of p t s)) s = true ->
  (exists x gone, take_from (source_of p t s) s = Ret (e, x, gone) /\
     p' = if holds (bits (s_pending t)) s then put_sthread p i (set_pending t x) else if gone : bool then signal_target_clear_locked (with_pending p x) s else with_pending p x) ->
  exists x, pending_view (source_of p t s) s = e :: pending_view x s /\ (forall q, is_signal q -> q <> s -> pending_view x q = pending_view (source_of p t s) q) /\
    p' = if holds (bits (s_pending t)) s then put_sthread p i (set_pending t x) else if decide (pending_view x s = []) then signal_target_clear_locked (with_pending p x) s else with_pending p x.
Proof.
  intros Hp Hi Hs Hb (x & gone & Htk & ->). destruct (thread_ok_of p i t Hp Hi) as (P1 & _).
  assert (Hx : pending_ok (source_of p t s)) by (unfold source_of; case_if; [done|apply Hp]).
  rewrite <-is_pending_holds, pending_view_nil, bool_decide_eq_true in Hb by done. destruct (pending_view (source_of p t s) s) as [|e' l] eqn:Ev; [done|].
  destruct (take_view _ s e' l Hs Hx Ev) as (x' & gone' & Htk' & _ & <- & -> & Hr). rewrite Htk in Htk'. injection Htk' as <- <- ->.
  exists x. split; [done|]. split; [done|]. destruct (holds (bits (s_pending t)) s); [done|]. by case_bool_decide; case_decide.
Qed.

(** C28: A thread takes the lowest of the signals it does not block, of its own
    and those of the process that are targeted at it, out of its own set when it
    is pending there, with the oldest information queued for the signal and the
    action of the process.  Exactly this entry is removed: the queue of the
    signal keeps its tail, every other queue and every other thread is as before,
    and when a signal of the process is no longer pending it has no target.  When
    there is none to take, nothing changes. *)
Theorem signal_take_correct p i t :
  signals_ok p -> p_threads p !! i = Some (Some t) ->
  exists p' r, signal_take_unblocked_locked p i = Ret (p', r) /\ signals_ok p' /\
  match r with
  | None => p' = p /\ unblocked p t = 0
  | Some (s, e, a) =>
      is_signal s /\ holds (unblocked p t) s = true /\ (forall q, 1 <= q < s -> holds (unblocked p t) q = false) /\
      i_signal e = s /\ signal_actions p !! Z.to_nat (s - 1) = Some a /\
      exists x, pending_view (source_of p t s) s = e :: pending_view x s /\
        (forall q, is_signal q -> q <> s -> pending_view x q = pending_view (source_of p t s) q) /\
        p' = if holds (bits (s_pending t)) s then put_sthread p i (set_pending t x)
             else if decide (pending_view x s = []) then signal_target_clear_locked (with_pending p x) s else with_pending p x
  end.
Proof.
  intros Hp Hi. unfold signal_take_unblocked_locked. rewrite (thread_of_Ret _ _ _ Hi). cbn [mbind outcome_bind].
  destruct (take_set_spec p i t (Z.lnot (signal_mask t)) true Hp Hi) as (p' & taken & -> & (Hp' & _) & H). cbn [mbind outcome_bind].
  change (available p t (Z.lnot (signal_mask t)) true) with (unblocked p t) in H. destruct taken as [[s e]|].
  - destruct H as (Hs & Hh & Hlow & He & H). destruct (action_Ret p' s (proj1 Hp') Hs) as (a & -> & Ha). cbn.
    exists p', (Some (s, e, a)). split; [done|]. split; [done|]. split; [done|]. split; [done|]. split; [done|]. split; [done|].
    assert (Hb : holds (bits (source_of p t s)) s = true).
    { unfold source_of. destruct (holds (bits (s_pending t)) s) eqn:E; [done|]. unfold unblocked in Hh. rewrite holds_land, holds_lor, E, holds_land in Hh. cbn in Hh. by bool_to_prop. }
    destruct (take_set_rest p i t s e p' Hp Hi Hs Hb H) as (x & H1 & H2 & ->). split; [|by exists x]. destruct (holds _ s); [exact Ha|]. case_decide; exact Ha.
  - destruct H as [-> Hno]. exists p, None. split; [done|]. split; [done|]. split; [done|]. destruct (truth (unblocked p t)) eqn:E; [|unfold truth in E; bool_to_prop; done].
    destruct (thread_ok_of p i t Hp Hi) as (P1 & _). destruct (set_inhabited (unblocked p t)) as (s & Hs & Hh); [|done|by rewrite Hno in Hh].
    unfold unblocked. apply land_u64, lor_u64; [apply P1|]. apply land_u64. apply Hp.
Qed.

(** ** Sending to a process *)

Lemma queue_process_shape p s info room : signals_ok p -> is_signal s -> p_live p = true ->
  let q := (signal_prepare_group_locked p s).1 in
  exists p' rc ignored, signal_queue_process_locked p s info room = Ret (p', rc) /\ signal_process_generation_ignored_locked q s = Ret ignored /\ signals_ok p' /\ signals_ok q /\
    match (if ignored then inl 0 else signal_store_pending (p_pending q) s info room) with
    | inl e => p' = q /\ (ignored = false -> rc = e)
    | inr x => 0 <= rc /\ quiet p' = quiet (with_pending q x) /\ p_calls q `prefix_of` p_calls p' /\ WakeWaiters ∈ new_calls q p' /\ settled p' s None /\
        forall i, tgt p' i s = true -> tgt q i s = true \/ woken q p' i s
    end.
Proof.
  intros Hp Hs Hl q. unfold signal_queue_process_locked. rewrite Hl, orb_false_r.
  assert (signal_valid s = true) as -> by (unfold signal_valid, SIGNAL_COUNT; unfold is_signal in Hs; apply andb_true_iff; rewrite !Z.leb_le; lia). cbn [negb].
  pose proof (prepare_smooth p s Hp) as (Hq & _). fold q in Hq. destruct (signal_prepare_group_locked p s) as [q' resumed]. cbn [fst] in *. subst q.
  assert (exists b, signal_process_generation_ignored_locked q' s = Ret b) as [b Hb].
  { unfold signal_process_generation_ignored_locked. destruct (action_Ret q' s (proj1 Hq) Hs) as (a & -> & _). cbn. repeat case_if; eauto. }
  rewrite Hb. cbn [mbind outcome_bind]. destruct b; [by eexists _, _, true|].
  pose proof (store_pending_ok (p_pending q') s info room Hs (proj1 (proj1 Hq))) as Hst. destruct (signal_store_pending _ _ _ _) as [e|x]; [by eexists _, _, false|].
  destruct Hst as [Hx Hbits]. destruct (store_process_spec q' s x Hs Hq Hx Hbits) as (p' & -> & (Hp' & _) & Hqq & Hpre & Hw & Hset & Hwake). cbn.
  eexists _, _, false. split; [done|]. split; [done|]. split; [done|]. split; [done|]. split; [by destruct resumed|done].
Qed.

(** What preparing the group leaves of the signal itself. *)
Definition own_kept (s : Z) (p q : sprocess) : Prop :=
  pending_view (p_pending q) s = pending_view (p_pending p) s /\ p_calls p `prefix_of` p_calls q /\ (forall i, tgt q i s = true -> tgt p i s = true).
Lemma own_clear s p q c : is_signal s -> is_signal c -> c <> s -> own_kept s p q -> own_kept s p (signal_clear_locked q c).
Proof.
  intros Hs Hc Hne (H1 & H2 & H3). split; [|split; [done|]].
  - rewrite <-H1. by apply clear_view.
  - intros i. rewrite clear_locked_tgt by done. intros. bool_to_prop. auto.
Qed.
Lemma own_called s p q q' : p_pending q' = p_pending q -> p_threads q' = p_threads q -> p_calls q `prefix_of` p_calls q' -> own_kept s p q -> own_kept s p q'.
Proof. intros E1 E2 Hc (H1 & H2 & H3). split; [by rewrite E1|]. split; [by etrans|]. unfold tgt. by rewrite E2. Qed.
Lemma prepare_own p s : is_signal s -> own_kept s p (signal_prepare_group_locked p s).1 /\ (32 <= s -> (signal_prepare_group_locked p s).1 = p).
Proof.
  intros Hs. unfold signal_prepare_group_locked. assert (Hp : own_kept s p p) by (by split; [|split]).
  destruct (Z.eqb_spec s LINUX_SIGCONT) as [->|Hc]; cbn [fst].
  { split; [|unfold LINUX_SIGCONT; lia]. set (r := signal_clear_locked _ LINUX_SIGTTOU).
    assert (Hr : own_kept LINUX_SIGCONT p r) by (do 4 (apply own_clear; [done|is_signal_solver|done|]); exact Hp). eapply own_called; [| | |exact Hr].
    - by destruct (stopped _).
    - by destruct (stopped _).
    - eexists [WakeWaiters]. by destruct (stopped _). }
  destruct (signal_default_stops s) eqn:Es; cbn [fst].
  { split; [apply own_clear; [done|is_signal_solver|congruence|done]|]. unfold signal_default_stops in Es. rewrite !orb_true_iff, !Z.eqb_eq in Es.
    unfold LINUX_SIGSTOP, LINUX_SIGTSTP, LINUX_SIGTTIN, LINUX_SIGTTOU in Es. lia. }
  destruct (Z.eqb_spec s LINUX_SIGKILL) as [->|Hk]; cbn [fst]; [|done]. split; [|unfold LINUX_SIGKILL; lia]. by eapply own_called; [| |by exists [WakeWaiters]|exact Hp].
Qed.
Lemma store_refused x s info room e : pending_ok x -> signal_store_pending x s info room = inr e -> ~ (32 <= s /\ (room = false \/ length (realtime x) = 128%nat)).
Proof.
  intros Hx. pose proof (po_count x Hx). unfold signal_store_pending, LINUX_SIGRTMIN, SIGNAL_REALTIME_LIMIT. destruct (Z.leb_spec 32 s); [|lia].
  destruct (Z.leb_spec 128 (realtime_count x)); [done|]. destruct room; [|done]. intros _ [_ [|]]; [done|lia].
Qed.

(** C27: A signal sent to a live process that does not ignore it becomes pending
    and is never lost.  It is refused, with [SIGNAL_QUEUE_FULL] and without any
    change, exactly when it is a realtime signal and 128 of them are queued or
    there is no memory for one more.  Otherwise it is at the end of the queue of
    its signal, or a standard signal that was pending already stays as it was;
    those who wait for signals of the process are woken; and when some thread
    does not block the signal then a thread that does not block it is its target,
    and either it was while the signal was pending already, or it is woken by this
    call, for good when the signal is fatal. *)
Theorem signal_send_correct p s info room a :
  signals_ok p -> p_live p = true -> is_signal s -> signal_actions p !! Z.to_nat (s - 1) = Some a ->
  handler a <> LINUX_SIG_IGN -> (handler a = LINUX_SIG_DFL -> signal_default_ignored s = false) ->
  exists p' rc, signal_queue_process_locked p s info room = Ret (p', rc) /\ signals_ok p' /\
  (rc < 0 <-> 32 <= s /\ (room = false \/ length (realtime (p_pending p)) = 128%nat)) /\
  (rc < 0 -> rc = SIGNAL_QUEUE_FULL /\ p' = p) /\
  (0 <= rc ->
     pending_view (p_pending p') s =
       (if (s <? 32) && is_pending (p_pending p) s then pending_view (p_pending p) s else pending_view (p_pending p) s ++ [with_signal (default no_info info) s]) /\
     is_pending (p_pending p') s = true /\ WakeWaiters ∈ new_calls p p' /\
     ((exists j, signal_thread_targetable_locked (p_threads p') j s None = true) ->
      exists i u, p_threads p' !! i = Some (Some u) /\ targetable u s = true /\ targeted (p_threads p') i s = true /\
        (is_pending (p_pending p) s = true /\ targeted (p_threads p) i s = true \/ woken p p' i s))).
Proof.
  intros Hp Hl Hs Ha Hign Hdfl. destruct (queue_process_shape p s info room Hp Hs Hl) as (p' & rc & ignored & Hr & Hi & Hp' & Hq & H). cbv zeta in *.
  destruct (prepare_own p s Hs) as ((Hview & Hcalls & Htgt) & Hrt). destruct (prepare_live p s) as [_ Hact].
  set (q := (signal_prepare_group_locked p s).1) in *. exists p', rc. split; [done|]. split; [done|].
  assert (ignored = false) as ->.
  { unfold signal_process_generation_ignored_locked, action_of in Hi. rewrite Hact, (rd_Ret _ _ _ Ha) in Hi. cbn in Hi.
    rewrite (proj2 (Z.eqb_neq _ _) Hign) in Hi. destruct (Z.eqb_spec (handler a) LINUX_SIG_DFL) as [E|E]; cbn in Hi; [rewrite (Hdfl E) in Hi|]; by injection Hi. }
  pose proof (store_pending_ok (p_pending q) s info room Hs (proj1 (proj1 Hq))) as Hst. destruct (signal_store_pending (p_pending q) s info room) as [e|x] eqn:Est.
  - destruct H as [-> Hrc]. rewrite Hrc by done. destruct Hst as (-> & H32 & Hf). rewrite (Hrt H32) in *. unfold SIGNAL_QUEUE_FULL. split; [by split|]. split; [done|lia].
  - destruct H as (Hrc & Hqq & Hpre & Hw & Hset & Hwake). destruct (quiet_fields _ _ Hqq) as (_ & Ep & _). cbn in Ep.
    split; [split; [lia|]; intros Hno; destruct Hno as [H32 Hno]; rewrite (Hrt H32) in Est; by destruct (store_refused _ _ _ _ _ (proj1 (proj1 Hp)) Est)|]. split; [lia|]. intros _.
    assert (Hpend : is_pending (p_pending q) s = is_pending (p_pending p) s) by (by rewrite (pending_view_nil _ _ (proj1 (proj1 Hq)) Hs), (pending_view_nil _ _ (proj1 (proj1 Hp)) Hs), Hview).
    split; [rewrite Ep, <-Hpend, <-Hview; exact (proj1 (store_view _ s info room x Hs (proj1 (proj1 Hq)) Est))|].
    assert (Hh : holds (bits (p_pending p')) s = true) by (rewrite Ep; rewrite (proj2 Hst) by done; by rewrite Z.eqb_refl, orb_true_r).
    split; [by rewrite is_pending_holds|]. split; [by apply (new_calls_trans p q p'); auto|]. intros Hex. destruct (Hset Hh Hex) as (i & Hg & Hb).
    apply tble_live in Hb as (u & Hu & _ & Hb). exists i, u. split; [done|]. split; [done|]. split; [done|]. destruct (Hwake i Hg) as [Hgq|(f & Hf & Hc)].
    + left. pose proof (Htgt i Hgq) as Htp. split; [|done]. rewrite is_pending_holds by done. destruct Hp as [_ (_ & _ & T3)]. by apply (T3 s i).
    + right. exists f. rewrite <-(fatal_actions p q) by done. split; [done|]. apply (new_calls_trans p q p'); auto.
Qed.

(** The signal is pending neither on the process nor on a thread. *)
Definition not_pending (p : sprocess) (r : Z) : Prop :=
  is_pending (p_pending p) r = false /\ forall i t, p_threads p !! i = Some (Some t) -> is_pending (s_pending t) r = false.
Lemma not_pending_quiet p p' r : quiet p' = quiet p -> not_pending p r -> not_pending p' r.
Proof.
  intros Hq [H1 H2]. destruct (quiet_fields _ _ Hq) as (_ & Ep & _). split; [by rewrite Ep|]. intros i t Ht.
  destruct (quiet_lookup p' p i t Hq Ht) as (u & Hu & He). apply erase_fields in He as (_ & _ & He & _). rewrite <-He. eauto.
Qed.
Lemma not_pending_clear p s r : is_signal s -> is_signal r -> s = r \/ not_pending p r -> not_pending (signal_clear_locked p s) r.
Proof.
  intros Hs Hr H. assert (Hx : forall x, s = r \/ is_pending x r = false -> is_pending (signal_pending_clear x s) r = false).
  { intros x Hx. rewrite is_pending_holds, pending_clear_holds by done. rewrite is_pending_holds in Hx by done. destruct Hx as [->|Hx]; [by rewrite Z.eqb_refl, andb_false_r|by rewrite Hx]. }
  split; [apply Hx; unfold not_pending in H; tauto|]. intros i u. rewrite clear_locked_lookup. destruct (p_threads p !! i) as [[t|]|] eqn:Et; cbn; [|done..]. intros [= <-]. cbn. apply Hx.
  destruct H as [|[_ H]]; [by left|right; eauto].
Qed.

(** C30: SIGCONT and the stop signals exclude each other.  Sending SIGCONT to a
    process ends its stop and leaves no stop signal pending on it or on any of
    its threads; sending a stop signal leaves no SIGCONT pending. *)
Theorem signal_stop_continue_exclusive p s info room p' rc :
  signals_ok p -> p_live p = true -> signal_queue_process_locked p s info room = Ret (p', rc) ->
  (s = LINUX_SIGCONT -> stopped p' = false /\ forall r, signal_default_stops r = true -> not_pending p' r) /\
  (signal_default_stops s = true -> not_pending p' LINUX_SIGCONT).
Proof.
  intros Hp Hl Hr.
  assert (Hgen : is_signal s -> forall r, is_signal r -> r <> s -> not_pending (signal_prepare_group_locked p s).1 r -> not_pending p' r /\ stopped p' = stopped (signal_prepare_group_locked p s).1).
  { intros Hs r Hsr Hne Hn. destruct (queue_process_shape p s info room Hp Hs Hl) as (p2 & rc2 & ignored & Hr2 & _ & _ & Hq & H). rewrite Hr in Hr2. injection Hr2 as <- <-. cbv zeta in H.
    set (q := (signal_prepare_group_locked p s).1) in *. pose proof (store_pending_ok (p_pending q) s info room Hs (proj1 (proj1 Hq))) as Hst.
    destruct ignored; [by destruct H as [-> _]|]. destruct (signal_store_pending (p_pending q) s info room) as [e|x]; [by destruct H as [-> _]|].
    destruct H as (_ & Hqq & _). split; [|by apply quiet_fields in Hqq as (_ & _ & _ & -> & _)]. apply (not_pending_quiet _ _ _ Hqq).
    destruct Hn as [H1 H2]. split; [|exact H2]. cbn. rewrite is_pending_holds in * by done. rewrite (proj2 Hst) by done. rewrite H1. cbn. apply Z.eqb_neq. congruence. }
  split.
  - intros ->. set (q := signal_clear_locked (signal_clear_locked (signal_clear_locked (signal_clear_locked p LINUX_SIGSTOP) LINUX_SIGTSTP) LINUX_SIGTTIN) LINUX_SIGTTOU).
    assert (Hqn : forall r, signal_default_stops r = true -> is_signal r /\ r <> LINUX_SIGCONT /\ not_pending q r).
    { intros r Hstop. unfold signal_default_stops in Hstop. rewrite !orb_true_iff, !Z.eqb_eq in Hstop. split; [is_signal_solver|]. split; [is_signal_solver|]. unfold q.
      destruct Hstop as [[[->| ->]| ->]| ->]; repeat (apply not_pending_clear; [is_signal_solver|is_signal_solver|]; first [by left|right]). }
    assert (Hprep : forall r, not_pending q r -> not_pending (signal_prepare_group_locked p LINUX_SIGCONT).1 r /\ stopped (signal_prepare_group_locked p LINUX_SIGCONT).1 = false).
    { intros r Hn. unfold signal_prepare_group_locked. rewrite Z.eqb_refl. fold q. cbn [fst]. by destruct (stopped q) eqn:E. }
    assert (Hall : forall r, signal_default_stops r = true -> not_pending p' r /\ stopped p' = false).
    { intros r Hstop. destruct (Hqn r Hstop) as (H1 & H2 & H3). destruct (Hprep r H3) as [H4 H5]. destruct (Hgen ltac:(is_signal_solver) r H1 H2 H4) as [H6 H7]. split; [done|congruence]. }
    split; [by apply (Hall LINUX_SIGSTOP)|]. intros r Hstop. by apply Hall.
  - intros Hstop. assert (Hs : is_signal s /\ s <> LINUX_SIGCONT) by (unfold signal_default_stops in Hstop; rewrite !orb_true_iff, !Z.eqb_eq in Hstop; is_signal_solver).
    destruct Hs as [Hs Hne]. apply (Hgen Hs LINUX_SIGCONT); [is_signal_solver|congruence|]. unfold signal_prepare_group_locked. rewrite (proj2 (Z.eqb_neq _ _) Hne), Hstop. cbn [fst].
    apply not_pending_clear; [is_signal_solver..|by left].
Qed.

(** ** The window of a stop *)

(** C31: A SIGKILL sent between the moment a thread takes a stop signal and the
    moment it stops the process is pending and not acted on: the thread sets
    [stopped] again and waits in a loop that tests neither the pending signals
    nor SIGKILL. *)
Theorem stop_window_holds_kill p i t p1 s info room p2 rc a :
  signals_ok p -> p_threads p !! i = Some (Some t) -> signal_user_return p i = Ret (p1, Stop s) ->
  p_live p1 = true -> group_exiting p1 = false -> signal_actions p1 !! Z.to_nat (LINUX_SIGKILL - 1) = Some a -> handler a = LINUX_SIG_DFL ->
  signal_queue_process_locked p1 LINUX_SIGKILL info room = Ret (p2, rc) ->
  is_pending (p_pending (process_signal_stop p2)) LINUX_SIGKILL = true /\ stopped p2 = false /\ stays_stopped (process_signal_stop p2) = true.
Proof.
  intros Hp Hi Hret Hl Hg Ha Hdfl Hq. destruct (signal_return_ok p i t Hp Hi) as (p1' & r & Hret' & Hp1 & _). rewrite Hret in Hret'. injection Hret' as <- <-.
  destruct (queue_process_shape p1 LINUX_SIGKILL info room Hp1) as (p2' & rc' & ignored & Hq' & Hign & _ & Hqok & H); [is_signal_solver|done|]. rewrite Hq in Hq'. injection Hq' as <- <-. cbv zeta in *.
  change ((signal_prepare_group_locked p1 LINUX_SIGKILL).1) with (called (with_stopped p1 false) WakeWaiters) in *. set (q := called (with_stopped p1 false) WakeWaiters) in *.
  assert (ignored = false) as ->.
  { unfold signal_process_generation_ignored_locked, action_of in Hign. change (signal_actions q) with (signal_actions p1) in Hign. rewrite (rd_Ret _ _ _ Ha) in Hign. cbn in Hign. rewrite Hdfl in Hign. by injection Hign. }
  pose proof (store_pending_ok (p_pending q) LINUX_SIGKILL info room ltac:(is_signal_solver) (proj1 (proj1 Hqok))) as Hst. destruct (signal_store_pending (p_pending q) LINUX_SIGKILL info room) as [e|x]; [destruct Hst as (_ & H32 & _); unfold LINUX_SIGKILL in H32; lia|].
  destruct H as (_ & Hqq & _). destruct (quiet_fields _ _ Hqq) as (_ & Ep & _ & Es & Eg). cbn in Ep, Es, Eg.
  unfold process_signal_stop, stays_stopped. rewrite Es, Eg, Hg. cbn. split; [|by rewrite Eg, Hg]. rewrite Ep, is_pending_holds, (proj2 Hst) by is_signal_solver. by rewrite Z.eqb_refl, orb_true_r.
Qed.

(** * Signals: an example run

    A process with two threads, one of which blocks SIGTERM. *)

Definition SIGTERM : Z := 15.
Definition parent_thread : sthread := signal_thread_init THREAD_RUNNING.
Definition parent_process : sprocess := MkSprocess true signal_pending_init (replicate 64 no_action) (Some parent_thread :: replicate 31 None) false false [].
Lemma parent_ok : signals_ok parent_process.
Proof.
  assert (Hl : forall j u, p_threads parent_process !! j = Some (Some u) -> j = 0%nat /\ u = parent_thread).
  { intros [|j] u; cbn; [by intros [= <-]|]. intros Hj. by apply (lookup_replicate_1 31 None (Some u) j) in Hj as [? _]. }
  assert (Ht : forall j s, is_signal s -> tgt parent_process j s = false).
  { intros j s Hs. rewrite tgt_lookup by done. destruct (p_threads parent_process !! j) as [[u|]|] eqn:E; [|done..]. destruct (Hl j u E) as [_ ->]. unfold holds. apply Z.bits_0. }
  split; [split; [apply pending_init_ok|split; [split; [done|by apply Forall_replicate]|]]|split; [|split]].
  - intros j u Hj. destruct (Hl j u Hj) as [_ ->]. split; [apply pending_init_ok|split; apply mask_ok_0].
  - intros j u Hj. by destruct (Hl j u Hj) as [_ ->].
  - intros s j k Hs. by rewrite Ht.
  - intros s j Hs. by rewrite Ht.
Qed.

(** The child runs, blocks SIGTERM, makes a second thread and lets it start,
    unblocks SIGTERM there, and the process is sent SIGTERM. *)
Definition example_ops : list sop :=
  [OpState 0 THREAD_RUNNING; OpClone 1 0; OpStart 1 0; OpSigprocmask 0 LINUX_SIG_BLOCK (Arg (SIGNAL_BIT SIGTERM)) 8 true; OpSend SIGTERM None true].
Fixpoint sig_run (l : list sop) (y : ssys) : outcome ssys :=
  match l with [] => Ret y | o :: l => if sig_allowed o y then y ← sig_perform o y; sig_run l y else Fault end.
Lemma sig_run_reachable y0 l : forall y y', sig_reachable y0 y -> sig_run l y = Ret y' -> sig_reachable y0 y'.
Proof.
  induction l as [|o l IH]; cbn; intros y y' Hy; [by intros [= <-]|]. destruct (sig_allowed o y) eqn:Ea; [|done]. intros H. apply bind_Ret in H as (y1 & H1 & H2).
  apply (IH y1); [|done]. by apply (sig_step y0 y o).
Qed.
Definition outcome_get {A} (d : A) (o : outcome A) : A := match o with Ret a => a | _ => d end.
Definition example_start : ssys := forked parent_process parent_thread.
Definition example_state : ssys := Eval vm_compute in outcome_get example_start (sig_run example_ops example_start).
Lemma example_run : sig_run example_ops example_start = Ret example_state.
Proof. vm_compute. reflexivity. Qed.
Lemma signal_example_reachable : sig_reachable example_start example_state.
Proof. apply (sig_run_reachable _ example_ops example_start); [constructor|apply example_run]. Qed.

Lemma signal_state_invariant_witness : exists y', sig_perform (OpReturn 0) example_state = Ret y' /\ signals_ok (y_process y').
Proof. apply (signal_state_invariant parent_process 0 parent_thread example_state (OpReturn 0)); [exact parent_ok|reflexivity|exact signal_example_reachable|vm_compute; reflexivity]. Defined.

Lemma signal_not_stranded_witness :
  exists i u, p_threads (y_process example_state) !! i = Some (Some u) /\
    (forall j, targeted (p_threads (y_process example_state)) j SIGTERM = bool_decide (j = i)) /\
    (i ∈ y_exiting example_state \/
     targetable u SIGTERM = true /\ holds (unblocked (y_process example_state) u) SIGTERM = true /\ signal_pending_unblocked (y_process example_state) i = Ret true).
Proof.
  apply (signal_not_stranded parent_process 0 parent_thread example_state SIGTERM); [exact parent_ok|reflexivity|exact signal_example_reachable|unfold is_signal, SIGTERM; lia|vm_compute; reflexivity|].
  exists 1%nat. split; [|vm_compute; reflexivity]. change (y_exiting example_state ∪ y_forced example_state) with (∅ ∪ ∅ : gset nat). set_solver.
Defined.

Lemma signal_send_correct_witness : exists p' rc, signal_queue_process_locked parent_process SIGTERM None true = Ret (p', rc) /\ signals_ok p' /\
  pending_view (p_pending p') SIGTERM = [with_signal no_info SIGTERM] /\ exists i, targeted (p_threads p') i SIGTERM = true /\ woken parent_process p' i SIGTERM.
Proof.
  destruct (signal_send_correct parent_process SIGTERM None true no_action parent_ok) as (p' & rc & H1 & H2 & H3 & _ & H4);
    [reflexivity|unfold is_signal, SIGTERM; lia|vm_compute; reflexivity|discriminate|reflexivity|]. exists p', rc. split; [exact H1|]. split; [exact H2|].
  destruct H4 as (Hv & _ & _ & H4); [destruct (Z.ltb_spec rc 0) as [Hlt|]; [apply H3 in Hlt as [Hlt _]; unfold SIGTERM in Hlt; lia|assumption]|].
  split; [exact Hv|]. destruct H4 as (i & u & _ & _ & Ht & [[Hn _]|Hw]); [|vm_compute in Hn; discriminate Hn|exists i; split; [exact Ht|exact Hw]].
  exists 0%nat. injection H1 as <- _. vm_compute. reflexivity.
Defined.

(** The same process stopped, and continued. *)
Definition stopped_process : sprocess := with_stopped parent_process true.
Definition continued_process : sprocess := Eval vm_compute in fst (outcome_get (stopped_process, 0) (signal_queue_process_locked stopped_process LINUX_SIGCONT None true)).
Lemma continued_run : signal_queue_process_locked stopped_process LINUX_SIGCONT None true = Ret (continued_process, 1).
Proof. vm_compute. reflexivity. Qed.
Lemma signal_stop_continue_exclusive_witness : stopped continued_process = false /\ not_pending continued_process LINUX_SIGTSTP.
Proof.
  destruct (proj1 (signal_stop_continue_exclusive stopped_process LINUX_SIGCONT None true continued_process 1 parent_ok eq_refl continued_run) eq_refl) as [H1 H2].
  split; [exact H1|]. apply H2. reflexivity.
Defined.

(** SIGTSTP is taken, SIGKILL comes, and then the process stops. *)
Definition sent_process : sprocess := Eval vm_compute in fst (outcome_get (parent_process, 0) (signal_queue_process_locked parent_process LINUX_SIGTSTP None true)).
Definition taken_process : sprocess := Eval vm_compute in fst (outcome_get (sent_process, NoSignal) (signal_user_return sent_process 0)).
Definition killed_process : sprocess := Eval vm_compute in fst (outcome_get (taken_process, 0) (signal_queue_process_locked taken_process LINUX_SIGKILL None true)).
Definition sent_thread : sthread := Eval vm_compute in match p_threads sent_process !! 0%nat with Some (Some t) => t | _ => parent_thread end.
Lemma sent_ok : signals_ok sent_process.
Proof.
  destruct (queue_process_spec parent_process LINUX_SIGTSTP None true parent_ok) as (p' & rc & H & (Hok & _)).
  assert (E : signal_queue_process_locked parent_process LINUX_SIGTSTP None true = Ret (sent_process, 0)) by (vm_compute; reflexivity). rewrite E in H. by injection H as <- _.
Qed.
(** A thread takes the only signal of its process. *)
Lemma signal_take_correct_witness : exists p' a, signal_take_unblocked_locked sent_process 0 = Ret (p', Some (LINUX_SIGTSTP, with_signal no_info LINUX_SIGTSTP, a)) /\
  signals_ok p' /\ pending_view (p_pending p') LINUX_SIGTSTP = [] /\ targeted (p_threads sent_process) 0 LINUX_SIGTSTP = true /\ targeted (p_threads p') 0 LINUX_SIGTSTP = false.
Proof.
  destruct (signal_take_correct sent_process 0 sent_thread sent_ok eq_refl) as (p' & r & E & Hp & H). exists p'.
  assert (Er : r = Some (LINUX_SIGTSTP, with_signal no_info LINUX_SIGTSTP, no_action)) by (apply (f_equal (fun o => match o with Ret (_, r) => r | _ => None end)) in E; vm_compute in E; symmetry; exact E).
  subst r. exists no_action. destruct H as (_ & _ & _ & _ & _ & x & Hx & _ & Hp'). split; [exact E|]. split; [exact Hp|].
  assert (Hn : pending_view x LINUX_SIGTSTP = []) by (vm_compute (pending_view (source_of _ _ _) _) in Hx; injection Hx as Hx; symmetry; exact Hx).
  change (holds _ _) with false in Hp'. cbv beta iota in Hp'. rewrite decide_True in Hp' by exact Hn. subst p'. split; [exact Hn|]. split; vm_compute; reflexivity.
Defined.

Lemma stop_window_holds_kill_witness :
  is_pending (p_pending (process_signal_stop killed_process)) LINUX_SIGKILL = true /\ stopped killed_process = false /\ stays_stopped (process_signal_stop killed_process) = true.
Proof.
  apply (stop_window_holds_kill sent_process 0 sent_thread taken_process LINUX_SIGTSTP None true killed_process 0 no_action sent_ok);
    [reflexivity|vm_compute; reflexivity|reflexivity|reflexivity|vm_compute; reflexivity|reflexivity|vm_compute; reflexivity].
Defined.
