(* ===== verification/SignalKill.v ===== *)
(** * Signals: who may signal whom

    The senders of kernel/process.c and the system calls [kill], [tkill] and
    [tgkill].  The processes are the sequence that the list [proc] represents,
    and [wait_lock] is held throughout.  [room i]: whether [malloc] finds memory
    for a realtime signal to process [i]. *)
From S2P Require Import Prelude Scheduler Signal SignalInv SignalTargets SignalOps SignalSteps SignalTheorems.

Definition SIGNAL_QUEUE_DENIED : Z := -3.
Definition LINUX_CLD_STOPPED : Z := 5.
Definition LINUX_CLD_CONTINUED : Z := 6.

Record kprocess := MkKprocess { k_pid : Z; k_pgid : Z; k_sid : Z; k_uid : Z; k_euid : Z; k_suid : Z; k_parent : option nat; k_tids : list Z; k_event : option (Z * Z); k_signals : sprocess }.
Definition with_signals (k : kprocess) (p : sprocess) : kprocess := MkKprocess (k_pid k) (k_pgid k) (k_sid k) (k_uid k) (k_euid k) (k_suid k) (k_parent k) (k_tids k) (k_event k) p.
(** [child_event] and [child_event_signal]; the event is the one the [LINUX_CLD_] code names. *)
Definition with_event (k : kprocess) (code signal : Z) : kprocess := MkKprocess (k_pid k) (k_pgid k) (k_sid k) (k_uid k) (k_euid k) (k_suid k) (k_parent k) (k_tids k) (Some (code, signal)) (k_signals k).
Notation ktable := (list kprocess).

Definition process_signal_permitted_locked (k : kprocess) (signal : Z) (info : option signal_info) : bool :=
  match info with
  | None => true
  | Some i =>
      if negb (i_code i =? LINUX_SI_USER) && negb (i_code i =? LINUX_SI_TKILL) then true else
      if (i_sender_euid i =? 0) || (i_sender_uid i =? k_uid k) || (i_sender_uid i =? k_suid k) || (i_sender_euid i =? k_uid k) || (i_sender_euid i =? k_suid k) then true else
      (signal =? LINUX_SIGCONT) && (i_sender_sid i =? k_sid k)
  end.

Section kill.
  Variable (room : nat -> bool).
  Implicit Types (T : ktable).

Definition queue_to T (i : nat) (signal : Z) (info : option signal_info) : outcome (ktable * Z) :=
  k ← rd T i;
  '(p, rc) ← signal_queue_process_locked (k_signals k) signal info (room i);
  Ret (<[i := with_signals k p]> T, rc).
Definition process_notify_parent_locked T (child : nat) (code status : Z) : outcome ktable :=
  c ← rd T child;
  match k_parent c with
  | None => Ret T
  | Some parent =>
      k ← rd T parent;
      a ← action_of (k_signals k) LINUX_SIGCHLD;
      if ((code =? LINUX_CLD_STOPPED) || (code =? LINUX_CLD_CONTINUED)) && truth (Z.land (a_flags a) LINUX_SA_NOCLDSTOP) then Ret T else
      '(T, _) ← queue_to T parent LINUX_SIGCHLD (Some (MkInfo LINUX_SIGCHLD 0 code (k_pid c) (k_uid c) 0 0 status 0)); Ret T
  end.
Definition process_continue_event_locked T (i : nat) (resumed : Z) : outcome ktable :=
  if negb (truth resumed) then Ret T else
  k ← rd T i;
  process_notify_parent_locked (<[i := with_event k LINUX_CLD_CONTINUED LINUX_SIGCONT]> T) i LINUX_CLD_CONTINUED LINUX_SIGCONT.

(** The part that the senders share: the result and [resumed]. *)
Definition send_one T (i : nat) (signal : Z) (info : option signal_info) (thread : option nat) : outcome (ktable * Z * Z) :=
  k ← rd T i;
  if negb (process_signal_permitted_locked k signal info) then Ret (T, SIGNAL_QUEUE_DENIED, 0) else
  if negb (truth signal) then Ret (T, 0, 0) else
  match thread with
  | None => '(T, rc) ← queue_to T i signal info; Ret (T, rc, rc)
  | Some j => '(p, rc) ← signal_queue_thread_locked (k_signals k) j signal info (room i); Ret (<[i := with_signals k p]> T, rc, rc)
  end.

Record tally := MkTally { delivered : bool; denied : bool; full : bool }.
(** The loop over the processes, of which [selected] are sent to. *)
Fixpoint send_each (l : list nat) T (n : tally) (selected : kprocess -> nat -> bool) (signal : Z) (info : option signal_info) : outcome (ktable * tally) :=
  match l with
  | [] => Ret (T, n)
  | i :: l =>
      k ← rd T i;
      if negb (p_live (k_signals k)) || negb (selected k i) then send_each l T n selected signal info else
      '(T, result, resumed) ← send_one T i signal info None;
      if result =? SIGNAL_QUEUE_FULL then send_each l T (MkTally (delivered n) (denied n) true) selected signal info else
      if result =? SIGNAL_QUEUE_DENIED then send_each l T (MkTally (delivered n) true (full n)) selected signal info else
      if result <? 0 then send_each l T n selected signal info else
      T ← process_continue_event_locked T i resumed;
      send_each l T (MkTally true (denied n) (full n)) selected signal info
  end.
Definition tally_result (n : tally) : Z := if delivered n then 0 else if full n then SIGNAL_QUEUE_FULL else if denied n then SIGNAL_QUEUE_DENIED else -1.
Definition process_signal_group_locked T (pgid signal : Z) (info : option signal_info) : outcome (ktable * Z) :=
  '(T, n) ← send_each (seq 0 (length T)) T (MkTally false false false) (fun k _ => k_pgid k =? pgid) signal info;
  Ret (T, tally_result n).

Fixpoint find_process (T : ktable) (i : nat) (pid : Z) : option nat :=
  match T with [] => None | k :: T => if (k_pid k =? pid) && p_live (k_signals k) then Some i else find_process T (S i) pid end.
Definition process_find_locked T (pid : Z) : option nat := find_process T 0 pid.
Definition signal_send_process T (pid signal : Z) (info : option signal_info) : outcome (ktable * Z) :=
  match process_find_locked T pid with
  | None => Ret (T, -1)
  | Some i =>
      '(T, result, resumed) ← send_one T i signal info None;
      T ← if 0 <=? result then process_continue_event_locked T i resumed else Ret T;
      Ret (T, if result <? 0 then result else 0)
  end.
(** [first] is the initial process, [caller] the current one. *)
Definition signal_send_processes T (first caller : nat) (selector signal : Z) (info : option signal_info) : outcome (ktable * Z) :=
  if 0 <? selector then signal_send_process T selector signal info else
  if selector <? -1 then
    if - selector <=? 0x7fffffff then process_signal_group_locked T (- selector) signal info else Ret (T, -1)
  else
  c ← rd T caller;
  let selected k i := if selector =? -1 then negb (Nat.eqb i first) && negb (Nat.eqb i caller) else k_pgid k =? k_pgid c in
  '(T, n) ← send_each (seq 0 (length T)) T (MkTally false false false) selected signal info;
  Ret (T, tally_result n).

(** The slot of the thread with [tid]. *)
Definition find_tid (k : kprocess) (tid : Z) : option nat :=
  first_slot (fun j => match p_threads (k_signals k) !! j with Some (Some t) => (default 0 (k_tids k !! j) =? tid) && negb (bool_decide (s_state t = THREAD_EXITED)) | _ => false end) (length (p_threads (k_signals k))).
Fixpoint find_thread (T : ktable) (i : nat) (thread_group tid : Z) : option (nat * nat) :=
  match T with
  | [] => None
  | k :: T =>
      if negb (p_live (k_signals k)) || (truth thread_group && negb (k_pid k =? thread_group)) then find_thread T (S i) thread_group tid else
      match find_tid k tid with None => find_thread T (S i) thread_group tid | Some j => Some (i, j) end
  end.
Definition signal_send_thread T (thread_group tid signal : Z) (info : option signal_info) : outcome (ktable * Z) :=
  match find_thread T 0 thread_group tid with
  | None => Ret (T, -1)
  | Some (i, j) =>
      '(T, result, resumed) ← send_one T i signal info (Some j);
      T ← if 0 <=? result then process_continue_event_locked T i resumed else Ret T;
      Ret (T, if result <? 0 then result else 0)
  end.

Definition signal_send_syscall T (first caller : nat) (thread_group tid signal : Z) (thread_directed : bool) : outcome (ktable * Z) :=
  if (signal <? 0) || (SIGNAL_COUNT <? signal) then Ret (T, - LINUX_EINVAL) else
  c ← rd T caller;
  let info := Some (MkInfo signal 0 (if thread_directed then LINUX_SI_TKILL else LINUX_SI_USER) (k_pid c) (k_uid c) (k_euid c) (k_sid c) 0 0) in
  '(T, result) ← if thread_directed then signal_send_thread T thread_group tid signal info else signal_send_processes T first caller tid signal info;
  Ret (T, if result =? SIGNAL_QUEUE_FULL then - LINUX_EAGAIN else if result =? SIGNAL_QUEUE_DENIED then - LINUX_EPERM else if result <? 0 then - LINUX_ESRCH else 0).
Definition sys_linux_kill T (first caller : nat) (pid signal : Z) := signal_send_syscall T first caller 0 pid signal false.
Definition sys_linux_tkill T (first caller : nat) (tid signal : Z) :=
  if tid <=? 0 then Ret (T, - LINUX_EINVAL) else signal_send_syscall T first caller 0 tid signal true.
Definition sys_linux_tgkill T (first caller : nat) (thread_group tid signal : Z) :=
  if (thread_group <=? 0) || (tid <=? 0) then Ret (T, - LINUX_EINVAL) else signal_send_syscall T first caller thread_group tid signal true.
End kill.

(** ** Permission *)

Definition table_ok (T : ktable) : Prop :=
  forall i k, T !! i = Some k -> signals_ok (k_signals k) /\ forall j, k_parent k = Some j -> is_Some (T !! j).
(** What a signal does not change of a process. *)
Definition identity (k : kprocess) := (k_pid k, k_pgid k, (k_sid k, k_uid k, k_euid k, k_suid k), k_parent k, k_tids k).
Definition same_table (T T' : ktable) : Prop := identity <$> T' = identity <$> T.

Lemma same_table_lookup T T' i k : same_table T T' -> T !! i = Some k -> exists k', T' !! i = Some k' /\ identity k' = identity k.
Proof.
  intros H Hk. assert (E : (identity <$> T') !! i = (identity <$> T) !! i) by by rewrite H. rewrite !list_lookup_fmap, Hk in E.
  destruct (T' !! i) as [k'|]; [|done]. exists k'. split; [done|]. cbn in E. congruence.
Qed.
Lemma permitted_identity k k' s info : identity k' = identity k -> process_signal_permitted_locked k' s info = process_signal_permitted_locked k s info.
Proof. intros H. unfold identity in H. injection H as E1 E2 E3 E4 E5 E6 E7 E8. unfold process_signal_permitted_locked. by rewrite E3, E4, E6. Qed.
Lemma update_table_ok T i k p : table_ok T -> T !! i = Some k -> signals_ok p ->
  let T' := <[i := with_signals k p]> T in table_ok T' /\ same_table T T' /\ forall j, j <> i -> T' !! j = T !! j.
Proof.
  intros HT Hi Hp T'. pose proof (lookup_lt_Some _ _ _ Hi) as Hlt. assert (Hs : same_table T T').
  { unfold same_table, T'. rewrite list_fmap_insert. apply list_insert_id. by rewrite list_lookup_fmap, Hi. }
  split; [|split; [done|intros j Hj; unfold T'; by rewrite list_lookup_insert_ne]].
  intros j k' Hj. assert (Hin : forall n, is_Some (T !! n) -> is_Some (T' !! n)) by (intros n [x Hx]; destruct (same_table_lookup T T' n x Hs Hx) as (y & Hy & _); eauto).
  unfold T' in Hj. destruct (decide (j = i)) as [->|Hne].
  - rewrite list_lookup_insert_eq in Hj by done. injection Hj as <-. split; [done|]. intros n Hn. apply Hin. by apply (HT i k).
  - rewrite list_lookup_insert_ne in Hj by done. destruct (HT j k' Hj) as [H1 H2]. split; [done|]. auto.
Qed.

Lemma prepare_not_resumed p s : s <> LINUX_SIGCONT -> (signal_prepare_group_locked p s).2 = false.
Proof. intros Hs. unfold signal_prepare_group_locked. rewrite (proj2 (Z.eqb_neq _ _) Hs). by repeat case_if. Qed.
Lemma store_error x s info room e : signal_store_pending x s info room = inl e -> e = SIGNAL_QUEUE_FULL.
Proof. unfold signal_store_pending. intros H. repeat (case_match; simplify_eq; try done). Qed.
Lemma queue_process_result p s info room p' rc : s <> LINUX_SIGCONT -> signal_queue_process_locked p s info room = Ret (p', rc) -> rc = 0 \/ rc = -1 \/ rc = SIGNAL_QUEUE_FULL.
Proof.
  intros Hs. unfold signal_queue_process_locked. case_if; [intros [= _ <-]; by auto|]. pose proof (prepare_not_resumed p s Hs) as Hr. destruct (signal_prepare_group_locked p s) as [q r]. cbn in Hr. subst r.
  intros H. apply bind_Ret in H as (b & _ & H). destruct b; [injection H as _ <-; by auto|]. destruct (signal_store_pending _ _ _ _) as [e|x] eqn:Est; [injection H as _ <-; apply store_error in Est; auto|].
  apply bind_Ret in H as (q' & _ & H). injection H as _ <-. auto.
Qed.
Lemma queue_thread_result p i s info room p' rc : s <> LINUX_SIGCONT -> signal_queue_thread_locked p i s info room = Ret (p', rc) -> rc = 0 \/ rc = -1 \/ rc = SIGNAL_QUEUE_FULL.
Proof.
  intros Hs H. unfold signal_queue_thread_locked in H. apply bind_Ret in H as (t & _ & H). destruct (_ || _ || _ || _); [injection H as _ <-; by auto|].
  pose proof (prepare_not_resumed p s Hs) as Hr. destruct (signal_prepare_group_locked p s) as [q r]. cbn in Hr. subst r.
  apply bind_Ret in H as (t' & _ & H). apply bind_Ret in H as (b & _ & H). destruct b; [injection H as _ <-; by auto|]. destruct (signal_store_pending _ _ _ _) as [e|x] eqn:Est; [injection H as _ <-; apply store_error in Est; auto|].
  apply bind_Ret in H as (q' & _ & H). injection H as _ <-. auto.
Qed.

(** What one send does: only a process that permits it changes, and for signals other than SIGCONT nothing is resumed. *)
Definition sent (T T' : ktable) (s : Z) (info : option signal_info) : Prop :=
  table_ok T' /\ same_table T T' /\ forall j k, T !! j = Some k -> process_signal_permitted_locked k s info = false -> T' !! j = Some k.
Lemma sent_refl T s info : table_ok T -> sent T T s info.
Proof. done. Qed.
Lemma sent_trans T1 T2 T3 s info : sent T1 T2 s info -> sent T2 T3 s info -> sent T1 T3 s info.
Proof. intros (A1 & A2 & A3) (B1 & B2 & B3). split; [done|]. split; [unfold same_table in *; congruence|]. eauto. Qed.

Lemma send_one_ok room T i k s info thread : table_ok T -> T !! i = Some k -> s <> LINUX_SIGCONT ->
  match thread with Some j => exists t, p_threads (k_signals k) !! j = Some (Some t) | None => True end ->
  exists T' result, send_one room T i s info thread = Ret (T', result, if process_signal_permitted_locked k s info && truth s then result else 0) /\ sent T T' s info /\
    (result = 0 \/ result = -1 \/ result = SIGNAL_QUEUE_FULL \/ result = SIGNAL_QUEUE_DENIED) /\ (result = SIGNAL_QUEUE_DENIED -> process_signal_permitted_locked k s info = false).
Proof.
  intros HT Hi Hs Hth. unfold send_one. rewrite (rd_Ret _ _ _ Hi). cbn [mbind outcome_bind].
  destruct (process_signal_permitted_locked k s info) eqn:Ep; cbn [negb andb]; [|exists T, SIGNAL_QUEUE_DENIED; split; [done|]; split; [done|]; split; [by auto|done]].
  destruct (truth s) eqn:Et; cbn [negb]; [|exists T, 0; split; [done|]; split; [done|]; split; [by auto|done]].
  assert (Hupd : forall p, signals_ok p -> sent T (<[i := with_signals k p]> T) s info).
  { intros p Hp. destruct (update_table_ok T i k p HT Hi Hp) as (H1 & H2 & H3). split; [done|]. split; [done|]. intros j k' Hj Hno. rewrite H3; [done|]. intros ->. congruence. }
  destruct (HT i k Hi) as [Hk _]. destruct thread as [j|].
  - destruct Hth as [t Ht]. destruct (queue_thread_spec (k_signals k) j t s info (room i) Hk Ht) as (p & rc & Hq & (Hp & _)). rewrite Hq. cbn.
    eexists _, rc. split; [done|]. split; [by apply Hupd|]. apply queue_thread_result in Hq; [|done]. unfold SIGNAL_QUEUE_FULL, SIGNAL_QUEUE_DENIED in *. split; [tauto|lia].
  - destruct (queue_process_spec (k_signals k) s info (room i) Hk) as (p & rc & Hq & (Hp & _)). unfold queue_to. rewrite (rd_Ret _ _ _ Hi). cbn [mbind outcome_bind]. rewrite Hq. cbn.
    eexists _, rc. split; [done|]. split; [by apply Hupd|]. apply queue_process_result in Hq; [|done]. unfold SIGNAL_QUEUE_FULL, SIGNAL_QUEUE_DENIED in *. split; [tauto|lia].
Qed.
Lemma continue_event_none room T i : process_continue_event_locked room T i 0 = Ret T.
Proof. done. Qed.

Lemma send_each_ok room s info selected l : forall T n, table_ok T -> s <> LINUX_SIGCONT -> (forall i, i ∈ l -> is_Some (T !! i)) ->
  exists T' n', send_each room l T n selected s info = Ret (T', n') /\ sent T T' s info.
Proof.
  induction l as [|i l IH]; intros T n HT Hs Hl; [by exists T, n|]. cbn [send_each]. destruct (Hl i ltac:(left)) as [k Hk]. rewrite (rd_Ret _ _ _ Hk). cbn [mbind outcome_bind].
  case_if; [apply IH; [done..|]; intros j Hj; apply Hl; by right|].
  destruct (send_one_ok room T i k s info None HT Hk Hs I) as (T1 & result & -> & Hsent & Hres & _). cbn [mbind outcome_bind].
  assert (Hnext : forall n, exists T' n', send_each room l T1 n selected s info = Ret (T', n') /\ sent T T' s info).
  { intros n0. pose proof Hsent as (A1 & A2 & _). destruct (IH T1 n0 A1 Hs) as (T' & n' & -> & H').
    - intros j Hj. destruct (Hl j ltac:(by right)) as [x Hx]. destruct (same_table_lookup T T1 j x A2 Hx) as (y & Hy & _). eauto.
    - exists T', n'. split; [done|]. by apply (sent_trans T T1). }
  destruct (result =? SIGNAL_QUEUE_FULL); [apply Hnext|]. destruct (result =? SIGNAL_QUEUE_DENIED); [apply Hnext|]. destruct (Z.ltb_spec result 0); [apply Hnext|].
  assert (result = 0) as -> by (unfold SIGNAL_QUEUE_FULL, SIGNAL_QUEUE_DENIED in *; lia).
  replace (if process_signal_permitted_locked k s info && truth s then 0 else 0) with 0 by by destruct (_ && _). cbn [mbind outcome_bind process_continue_event_locked truth Z.eqb negb]. apply Hnext.
Qed.
Lemma find_process_spec T : forall i pid j, find_process T i pid = Some j -> exists k, (i <= j)%nat /\ T !! (j - i)%nat = Some k.
Proof.
  induction T as [|k T IH]; intros i pid j; cbn; [done|]. case_if; [intros [= <-]; exists k; split; [lia|by rewrite Nat.sub_diag]|].
  intros H. destruct (IH _ _ _ H) as (k' & Hle & Hk'). exists k'. split; [lia|]. by replace (j - i)%nat with (S (j - S i)) by lia.
Qed.
Lemma find_tid_spec k tid j : find_tid k tid = Some j -> exists t, p_threads (k_signals k) !! j = Some (Some t).
Proof. unfold find_tid. intros H. apply first_slot_Some in H as [_ H]. destruct (p_threads (k_signals k) !! j) as [[t|]|]; [eauto|done..]. Qed.
Lemma find_thread_spec T : forall i g tid j x, find_thread T i g tid = Some (j, x) -> exists k t, (i <= j)%nat /\ T !! (j - i)%nat = Some k /\ p_threads (k_signals k) !! x = Some (Some t).
Proof.
  assert (Hrec : forall k T i j x, (exists k0 t, (S i <= j)%nat /\ T !! (j - S i)%nat = Some k0 /\ p_threads (k_signals k0) !! x = Some (Some t)) ->
    exists k0 t, (i <= j)%nat /\ (k :: T) !! (j - i)%nat = Some k0 /\ p_threads (k_signals k0) !! x = Some (Some t)).
  { intros k T0 i j x (k0 & t & H1 & H2 & H3). exists k0, t. split; [lia|]. split; [|done]. by replace (j - i)%nat with (S (j - S i)) by lia. }
  induction T as [|k T IH]; intros i g tid j x; cbn [find_thread]; [done|]. case_if; [intros H; apply Hrec; by apply (IH _ g tid)|].
  destruct (find_tid k tid) as [y|] eqn:Ey; [|intros H; apply Hrec; by apply (IH _ g tid)]. intros [= <- <-]. destruct (find_tid_spec k tid y Ey) as [t Ht].
  exists k, t. split; [lia|]. split; [by rewrite Nat.sub_diag|done].
Qed.

Lemma send_found room T i k s info thread : table_ok T -> T !! i = Some k -> s <> LINUX_SIGCONT ->
  match thread with Some j => exists t, p_threads (k_signals k) !! j = Some (Some t) | None => True end ->
  exists T' rc, ('(T, result, resumed) ← send_one room T i s info thread; T ← if 0 <=? result then process_continue_event_locked room T i resumed else Ret T; Ret (T, if result <? 0 then result else 0)) = Ret (T', rc) /\ sent T T' s info.
Proof.
  intros HT Hi Hs Hth. destruct (send_one_ok room T i k s info thread HT Hi Hs Hth) as (T' & result & -> & Hsent & Hres & _). cbn [mbind outcome_bind].
  destruct (Z.leb_spec 0 result); [|by eexists _, _]. assert (result = 0) as -> by (unfold SIGNAL_QUEUE_FULL, SIGNAL_QUEUE_DENIED in *; lia).
  replace (if process_signal_permitted_locked k s info && truth s then 0 else 0) with 0 by by destruct (_ && _). rewrite continue_event_none. by eexists _, _.
Qed.
Lemma send_processes_ok room T first caller c selector s info : table_ok T -> T !! caller = Some c -> s <> LINUX_SIGCONT ->
  exists T' rc, signal_send_processes room T first caller selector s info = Ret (T', rc) /\ sent T T' s info.
Proof.
  intros HT Hc Hs. assert (Hseq : forall i, i ∈ seq 0 (length T) -> is_Some (T !! i)) by (intros i Hi; apply elem_of_seq in Hi; apply lookup_lt_is_Some; lia).
  unfold signal_send_processes. case_if.
  - unfold signal_send_process. destruct (process_find_locked T selector) as [i|] eqn:Ei; [|by eexists T, _]. apply find_process_spec in Ei as (k & _ & Hk). rewrite Nat.sub_0_r in Hk. by apply (send_found room T i k).
  - case_if.
    + case_if; [|by eexists T, _]. unfold process_signal_group_locked. destruct (send_each_ok room s info (fun k _ => k_pgid k =? - selector) (seq 0 (length T)) T (MkTally false false false) HT Hs Hseq) as (T' & n' & -> & H). by eexists _, _.
    + rewrite (rd_Ret _ _ _ Hc). cbn [mbind outcome_bind]. cbv zeta.
      destruct (send_each_ok room s info (fun k i => if selector =? -1 then negb (Nat.eqb i first) && negb (Nat.eqb i caller) else k_pgid k =? k_pgid c) (seq 0 (length T)) T (MkTally false false false) HT Hs Hseq) as (T' & n' & -> & H). by eexists _, _.
Qed.

(** C29: [kill], [tkill] and [tgkill] respect credentials.  The calls always
    return; when the caller is not privileged, a process whose user and saved
    user differ from both users of the caller is left exactly as it was,
    whatever the call selects, for every signal but SIGCONT (which may be sent
    within a session); and no call changes the identity of any process. *)
Theorem signal_kill_permission room T first caller c thread_group tid s thread_directed :
  table_ok T -> T !! caller = Some c -> s <> LINUX_SIGCONT ->
  exists T' rc, signal_send_syscall room T first caller thread_group tid s thread_directed = Ret (T', rc) /\ table_ok T' /\ same_table T T' /\
    forall j k, T !! j = Some k -> k_euid c <> 0 -> k_uid k ∉ [k_uid c; k_euid c] -> k_suid k ∉ [k_uid c; k_euid c] -> T' !! j = Some k.
Proof.
  intros HT Hc Hs. unfold signal_send_syscall. case_if; [by eexists T, _|]. rewrite (rd_Ret _ _ _ Hc). cbn [mbind outcome_bind]. cbv zeta. set (info := MkInfo _ _ _ _ _ _ _ _ _).
  assert (Hsend : exists T' rc, (if thread_directed then signal_send_thread room T thread_group tid s (Some info) else signal_send_processes room T first caller tid s (Some info)) = Ret (T', rc) /\ sent T T' s (Some info)).
  { destruct thread_directed; [|by apply (send_processes_ok room T first caller c)]. unfold signal_send_thread. destruct (find_thread T 0 thread_group tid) as [[i j]|] eqn:Ef; [|by eexists T, _].
    apply find_thread_spec in Ef as (k & t & _ & Hk & Ht). rewrite Nat.sub_0_r in Hk. apply (send_found room T i k); [done..|by exists t]. }
  destruct Hsend as (T' & rc & -> & H1 & H2 & H3). cbn [mbind outcome_bind]. eexists T', _. split; [done|]. split; [done|]. split; [done|].
  intros j k Hj He Hu Hsu. apply H3; [done|]. rewrite !not_elem_of_cons in Hu, Hsu. destruct Hu as (U1 & U2 & _), Hsu as (U3 & U4 & _).
  unfold process_signal_permitted_locked, info. cbn [i_code i_sender_uid i_sender_euid i_sender_sid].
  rewrite (proj2 (Z.eqb_neq s LINUX_SIGCONT) Hs), (proj2 (Z.eqb_neq (k_euid c) 0) He), (proj2 (Z.eqb_neq (k_uid c) (k_uid k))), (proj2 (Z.eqb_neq (k_uid c) (k_suid k))),
    (proj2 (Z.eqb_neq (k_euid c) (k_uid k))), (proj2 (Z.eqb_neq (k_euid c) (k_suid k))) by congruence. by destruct thread_directed.
Qed.

(** Two processes of different users. *)
Definition user_process (pid uid : Z) : kprocess := MkKprocess pid pid pid uid uid uid None [pid] None parent_process.
Lemma signal_kill_permission_witness : exists T' rc, signal_send_syscall (fun _ => true) [user_process 1 0; user_process 2 100; user_process 3 200] 0 1 0 3 LINUX_SIGKILL false = Ret (T', rc) /\ T' !! 2%nat = Some (user_process 3 200).
Proof.
  destruct (signal_kill_permission (fun _ => true) [user_process 1 0; user_process 2 100; user_process 3 200] 0 1 (user_process 2 100) 0 3 LINUX_SIGKILL false) as (T' & rc & H1 & _ & _ & H2).
  - intros [|[|[|i]]] k; cbn; [intros [= <-]..|done]; (split; [exact parent_ok|done]).
  - reflexivity.
  - discriminate.
  - exists T', rc. split; [exact H1|]. apply (H2 2%nat); [reflexivity|discriminate| |]; cbn; rewrite !elem_of_cons, elem_of_nil; lia.
Defined.
