(* ===== verification/Ktime.v ===== *)
(** * Time

    kernel/timeconv.c and kernel/ktime.c.  [frequency] is [timer_frequency()]
    and [ticks] what [time_r()] returned. *)
From S2P Require Import Prelude.

Definition NSEC_PER_SEC : Z := 1000000000.
Definition MSEC_PER_SEC : Z := 1000.

Definition ktime_ticks_to_ns (ticks frequency : Z) : Z :=
  if negb (truth frequency) then 0 else
  let seconds := ticks / frequency in
  if UINT64_MAX / NSEC_PER_SEC <? seconds then UINT64_MAX else
  let nanoseconds := seconds *64 NSEC_PER_SEC in
  nanoseconds +64 (ticks mod frequency *64 NSEC_PER_SEC) / frequency.

(** [ktime_ms_to_ticks] and [ktime_ns_to_ticks], which differ in the unit. *)
Definition to_ticks (unit frequency time : Z) : Z :=
  let seconds := time / unit in
  let remainder := time mod unit in
  if UINT64_MAX / frequency <? seconds then UINT64_MAX else
  let ticks := seconds *64 frequency in
  let partial := frequency / unit *64 remainder in
  let fraction := frequency mod unit *64 remainder in
  let partial := partial +64 fraction / unit in
  let partial := if truth (fraction mod unit) then partial +64 1 else partial in
  if UINT64_MAX - partial <? ticks then UINT64_MAX else ticks +64 partial.
Definition ktime_ms_to_ticks (frequency milliseconds : Z) : Z := to_ticks MSEC_PER_SEC frequency milliseconds.
Definition ktime_ns_to_ticks (frequency nanoseconds : Z) : Z := to_ticks NSEC_PER_SEC frequency nanoseconds.

Definition ktime_get_ms (frequency ticks : Z) : Z :=
  (ticks / frequency *64 MSEC_PER_SEC) +64 (ticks mod frequency *64 MSEC_PER_SEC) / frequency.

(** The statics of ktime.c. *)
Record ktime := MkKtime { boot_ticks : Z; realtime_base_ns : Z; realtime_base_ticks : Z; realtime_ready : bool }.
Definition ktime_boot_init (ticks : Z) : ktime := MkKtime ticks 0 ticks true.
Definition ktime_set_realtime_ns (k : ktime) (ticks nanoseconds : Z) : ktime := MkKtime (boot_ticks k) nanoseconds ticks true.
Definition ktime_get_boot_ns (k : ktime) (ticks frequency : Z) : Z := ktime_ticks_to_ns (ticks -64 boot_ticks k) frequency.
Definition ktime_get_realtime_ns (k : ktime) (ticks frequency : Z) : option Z :=
  if negb (realtime_ready k) then None else
  let elapsed := ktime_ticks_to_ns (ticks -64 realtime_base_ticks k) frequency in
  Some (if UINT64_MAX - elapsed <? realtime_base_ns k then UINT64_MAX else realtime_base_ns k +64 elapsed).

(** ** Rounding up *)

Definition ceil_div (a b : Z) : Z := (a + b - 1) / b.

Lemma ceil_div_split a b : 0 < b -> ceil_div a b = a / b + (if truth (a mod b) then 1 else 0).
Proof.
  intros Hb. unfold ceil_div, truth. pose proof (Z.div_mod a b ltac:(lia)) as E. pose proof (Z.mod_pos_bound a b Hb) as Hm. destruct (Z.eqb_spec (a mod b) 0) as [H0|H0]; cbn [negb].
  - symmetry. apply (Z.div_unique _ _ _ (b - 1)); [lia|]. lia.
  - symmetry. apply (Z.div_unique _ _ _ (a mod b - 1)); [lia|]. lia.
Qed.
Lemma ceil_div_add a b k : 0 < b -> ceil_div (a + k * b) b = ceil_div a b + k.
Proof. intros Hb. unfold ceil_div. replace (a + k * b + b - 1) with (a + b - 1 + k * b) by lia. apply Z.div_add. lia. Qed.
Lemma ceil_div_nonneg a b : 0 < b -> 0 <= a -> 0 <= ceil_div a b.
Proof. intros. unfold ceil_div. apply Z.div_pos; lia. Qed.

Lemma to_ticks_exact unit frequency time : unit = 1000 \/ unit = 1000000000 -> 0 < frequency < 2 ^ 32 -> is_u64 time ->
  to_ticks unit frequency time = Z.min UINT64_MAX (ceil_div (time * frequency) unit).
Proof.
  intros Hu Hf Ht. unfold is_u64 in Ht. assert (Hub : 1000 <= unit <= 1000000000) by lia. unfold to_ticks. pose proof (Z.div_mod time unit ltac:(lia)) as Et. pose proof (Z.mod_pos_bound time unit ltac:(lia)) as Hr.
  set (s := time / unit) in *. set (r := time mod unit) in *. assert (Hs : 0 <= s) by (apply Z.div_pos; lia).
  pose proof (Z.div_mod frequency unit ltac:(lia)) as Ef. pose proof (Z.mod_pos_bound frequency unit ltac:(lia)) as Hfr. set (fq := frequency / unit) in *. set (fr := frequency mod unit) in *.
  assert (Hfq : 0 <= fq) by (apply Z.div_pos; lia).
  assert (Ec : ceil_div (time * frequency) unit = s * frequency + fq * r + ceil_div (fr * r) unit).
  { assert (E : time * frequency = fr * r + (s * frequency + fq * r) * unit).
    { transitivity ((unit * s + r) * frequency); [by rewrite <-Et|]. transitivity (unit * s * frequency + r * (unit * fq + fr)); [rewrite <-Ef; ring|ring]. }
    rewrite E, ceil_div_add by lia. lia. }
  clearbody s r fq fr.
  assert (Hp : 0 <= fr * r <= unit * unit) by (split; [apply Z.mul_nonneg_nonneg; lia|apply Z.mul_le_mono_nonneg; lia]).
  assert (Hfqr : 0 <= fq * r <= frequency).
  { split; [apply Z.mul_nonneg_nonneg; lia|]. pose proof (Z.mul_le_mono_nonneg_l r unit fq Hfq ltac:(lia)). lia. }
  assert (Huu : unit * unit <= 1000000000 * 1000000000) by (apply Z.mul_le_mono_nonneg; lia).
  assert (Hc : 0 <= ceil_div (fr * r) unit <= unit). { split; [apply ceil_div_nonneg; lia|]. unfold ceil_div. apply Z.lt_succ_r, Z.div_lt_upper_bound; nia. }
  rewrite !(wrap64_id (fr * r)), !(wrap64_id (fq * r)) by (unfold is_u64; lia).
  rewrite (ceil_div_split (fr * r)) in Hc, Ec by lia. assert (Hq : 0 <= fr * r / unit) by (apply Z.div_pos; lia).
  assert (Ep : (if truth (fr * r mod unit) then (fq * r +64 fr * r / unit) +64 1 else fq * r +64 fr * r / unit) = fq * r + (fr * r / unit + (if truth (fr * r mod unit) then 1 else 0))).
  { clear Ec. destruct (truth _); rewrite (wrap64_id (fq * r + fr * r / unit)) by (unfold is_u64; lia); [rewrite wrap64_id by (unfold is_u64; lia)|]; lia. }
  rewrite Ep, Ec. set (b := if truth _ then 1 else 0) in *. set (p := fq * r + (fr * r / unit + b)). replace (s * frequency + fq * r + (fr * r / unit + b)) with (s * frequency + p) by (unfold p; lia).
  assert (Hpb : 0 <= p < 2 ^ 34) by (unfold p; lia). unfold UINT64_MAX in *. destruct (Z.ltb_spec ((2 ^ 64 - 1) / frequency) s) as [Hl|Hl].
  - assert (2 ^ 64 - 1 < s * frequency). { pose proof (Z.mul_succ_div_gt (2 ^ 64 - 1) frequency ltac:(lia)). nia. } lia.
  - assert (s * frequency <= 2 ^ 64 - 1). { pose proof (Z.mul_div_le (2 ^ 64 - 1) frequency ltac:(lia)). nia. }
    rewrite (wrap64_id (s * frequency)) by (unfold is_u64; nia). destruct (Z.ltb_spec (2 ^ 64 - 1 - p) (s * frequency)); [lia|]. rewrite wrap64_id by (unfold is_u64; nia). lia.
Qed.

(** Turning milliseconds and nanoseconds into ticks rounds up exactly, without intermediate overflow, and saturates at
    the largest value, so a deadline computed from it is never early. *)
Theorem ktime_to_ticks_exact frequency time : 0 < frequency < 2 ^ 32 -> is_u64 time ->
  ktime_ms_to_ticks frequency time = Z.min UINT64_MAX (ceil_div (time * frequency) MSEC_PER_SEC) /\
  ktime_ns_to_ticks frequency time = Z.min UINT64_MAX (ceil_div (time * frequency) NSEC_PER_SEC).
Proof. intros Hf Ht. split; apply to_ticks_exact; auto. Qed.
Lemma ktime_to_ticks_witness : ktime_ms_to_ticks 10000000 1501 = Z.min UINT64_MAX (ceil_div (1501 * 10000000) MSEC_PER_SEC).
Proof. apply (ktime_to_ticks_exact 10000000 1501); [done|by split]. Defined.

(** C38: Turning ticks into nanoseconds is exact, rounding down, as long as the result fits, and saturates from the first
    whole second that does not fit.  In the last second before that the sum wraps around instead: time jumps back to
    the beginning. *)
Theorem ktime_ticks_to_ns_range frequency ticks : 0 < frequency < 2 ^ 32 -> is_u64 ticks ->
  let exact := ticks * NSEC_PER_SEC / frequency in
  ktime_ticks_to_ns ticks frequency = (if exact <=? UINT64_MAX then exact else if UINT64_MAX / NSEC_PER_SEC <? ticks / frequency then UINT64_MAX else exact - 2 ^ 64).
Proof.
  intros Hf Ht exact. unfold is_u64 in Ht. unfold ktime_ticks_to_ns, truth. rewrite (proj2 (Z.eqb_neq frequency 0)) by lia. cbn [negb].
  pose proof (Z.div_mod ticks frequency ltac:(lia)) as Et. pose proof (Z.mod_pos_bound ticks frequency ltac:(lia)) as Hr. set (s := ticks / frequency) in *. set (r := ticks mod frequency) in *.
  assert (Hs : 0 <= s) by (apply Z.div_pos; lia). assert (Ee : exact = s * NSEC_PER_SEC + r * NSEC_PER_SEC / frequency).
  { unfold exact. rewrite Et. replace ((frequency * s + r) * NSEC_PER_SEC) with (r * NSEC_PER_SEC + s * NSEC_PER_SEC * frequency) by lia. rewrite Z.div_add by lia. lia. }
  assert (Hq : 0 <= r * NSEC_PER_SEC / frequency < NSEC_PER_SEC) by (unfold NSEC_PER_SEC in *; split; [apply Z.div_pos; lia|apply Z.div_lt_upper_bound; nia]).
  rewrite (wrap64_id (r * NSEC_PER_SEC)) by (unfold is_u64, NSEC_PER_SEC in *; nia). set (q := r * NSEC_PER_SEC / frequency) in *.
  change (UINT64_MAX / NSEC_PER_SEC) with 18446744073. unfold UINT64_MAX, NSEC_PER_SEC in *. destruct (Z.ltb_spec 18446744073 s).
  - destruct (Z.leb_spec exact (2 ^ 64 - 1)); [lia|done].
  - rewrite (wrap64_id (s * 1000000000)) by (unfold is_u64; lia). rewrite <-Ee. destruct (Z.leb_spec exact (2 ^ 64 - 1)); [apply wrap64_id; unfold is_u64; lia|].
    unfold wrap64. symmetry. apply (Z.mod_unique _ _ 1); lia.
Qed.
(** At 10 MHz: one tick before the wrap and one after. *)
Lemma ktime_ticks_to_ns_witness : ktime_ticks_to_ns 184467440737095516 10000000 = 18446744073709551600 /\ ktime_ticks_to_ns 184467440737095517 10000000 = 84.
Proof.
  rewrite (ktime_ticks_to_ns_range 10000000 184467440737095516), (ktime_ticks_to_ns_range 10000000 184467440737095517); [by vm_compute|done|by split|done|by split].
Defined.
