(* ===== verification/Loadavg.v ===== *)
(** * The load average

    kernel/loadavg.c: averages in fixed point with 11 bits behind the point.  What
    [process_snapshot_system] counts is an argument. *)
From S2P Require Import Prelude.

Definition LOADAVG_FIXED : Z := 2048.
Definition loadavg_exponent : list Z := [1884; 2014; 2037].

(** One round per bit of the exponent. *)
Fixpoint fixed_power_loop (fuel : nat) (result factor exponent : Z) : outcome Z :=
  if exponent =? 0 then Ret result else
  match fuel with
  | O => Fault
  | S fuel =>
      let result := if truth (Z.land exponent 1) then (result *64 factor +64 LOADAVG_FIXED / 2) / LOADAVG_FIXED else result in
      fixed_power_loop fuel result ((factor *64 factor +64 LOADAVG_FIXED / 2) / LOADAVG_FIXED) (Z.shiftr exponent 1)
  end.
Definition loadavg_fixed_power (base exponent : Z) : outcome Z :=
  result ← fixed_power_loop 64 LOADAVG_FIXED base exponent; Ret (wrap32 result).

Definition loadavg_update (old active exponent periods : Z) : outcome Z :=
  decay ← loadavg_fixed_power exponent periods;
  let target := active *64 LOADAVG_FIXED in
  Ret (wrap32 ((old *64 decay +64 target *64 (LOADAVG_FIXED -32 decay) +64 LOADAVG_FIXED / 2) / LOADAVG_FIXED)).

Fixpoint sample_loop (average exponents : list Z) (active : Z) : outcome (list Z) :=
  match average, exponents with
  | a :: average, e :: exponents => a ← loadavg_update a active e 1; l ← sample_loop average exponents active; Ret (a :: l)
  | [], [] => Ret []
  | _, _ => Fault
  end.
Definition loadavg_sample (average : list Z) (running blocked : Z) : outcome (list Z) := sample_loop average loadavg_exponent (running +32 blocked).

Definition loadavg_init : list Z := replicate 3 0.

(** ** Bounds *)

Lemma rounded_product a b : 0 <= a <= 2048 -> 0 <= b <= 2048 -> 0 <= (a *64 b +64 LOADAVG_FIXED / 2) / LOADAVG_FIXED <= 2048.
Proof.
  intros Ha Hb. assert (0 <= a * b <= 2048 * 2048) by nia. change (LOADAVG_FIXED / 2) with 1024. unfold LOADAVG_FIXED. unwrap64.
  split; [apply Z.div_pos; lia|]. apply Z.lt_succ_r, Z.div_lt_upper_bound; lia.
Qed.
Lemma fixed_power_loop_ok fuel : forall result factor e, 0 <= result <= 2048 -> 0 <= factor <= 2048 -> 0 <= e < 2 ^ Z.of_nat fuel ->
  exists r, fixed_power_loop fuel result factor e = Ret r /\ 0 <= r <= 2048.
Proof.
  induction fuel as [|fuel IH]; intros result factor e Hr Hf He; cbn [fixed_power_loop]; (case_if; [by exists result|]); bool_to_prop; [cbn in He; lia|].
  apply IH; [case_if; [by apply rounded_product|done]|by apply rounded_product|]. rewrite Z.shiftr_div_pow2 by lia. change (2 ^ 1) with 2.
  rewrite Nat2Z.inj_succ, Z.pow_succ_r in He by lia. split; [apply Z.div_pos; lia|]. apply Z.div_lt_upper_bound; lia.
Qed.
Lemma fixed_power_ok base e : 0 <= base <= 2048 -> is_u64 e -> exists d, loadavg_fixed_power base e = Ret d /\ 0 <= d <= 2048.
Proof.
  intros Hb He. destruct (fixed_power_loop_ok 64 2048 base e) as (r & E & Hr); [lia|done|done|]. unfold loadavg_fixed_power. change LOADAVG_FIXED with 2048. rewrite E. cbn.
  exists r. split; [|done]. by rewrite wrap32_id by (unfold is_u32; lia).
Qed.

(** An update ends, does not overflow, and moves the average towards the load without passing it: the new value lies
    between the old one and the load, whatever the number of periods. *)
Lemma loadavg_update_between old active exponent periods :
  0 <= exponent <= 2048 -> is_u64 periods -> is_u32 old -> 0 <= active < 2 ^ 21 ->
  exists r, loadavg_update old active exponent periods = Ret r /\
    Z.min old (active * LOADAVG_FIXED) <= r <= Z.max old (active * LOADAVG_FIXED).
Proof.
  intros He Hp Ho Ha. destruct (fixed_power_ok exponent periods He Hp) as (d & E & Hd). unfold loadavg_update. rewrite E. cbn [mbind outcome_bind].
  change (LOADAVG_FIXED / 2) with 1024. unfold LOADAVG_FIXED, is_u32 in *. set (t := active * 2048). assert (Ht : 0 <= t < 2 ^ 32) by (unfold t; lia).
  rewrite (wrap32_id (2048 - d)) by (unfold is_u32; lia). rewrite (wrap64_id t) by (unfold is_u64; lia).
  assert (0 <= old * d <= 2 ^ 32 * 2048) by nia. assert (0 <= t * (2048 - d) <= 2 ^ 32 * 2048) by nia. unwrap64.
  set (n := old * d + t * (2048 - d)). assert (Hn : Z.min old t * 2048 <= n <= Z.max old t * 2048) by (unfold n; nia).
  assert (Hr : Z.min old t <= (n + 1024) / 2048 <= Z.max old t).
  { split; [apply Z.div_le_lower_bound; lia|]. apply Z.lt_succ_r, Z.div_lt_upper_bound; lia. }
  eexists. split; [done|]. rewrite wrap32_id; [done|]. unfold is_u32. lia.
Qed.

(** The averages stay below every bound on the number of threads that was never passed. *)
Theorem loadavg_sample_bounded average running blocked m :
  length average = 3%nat -> 0 <= running -> 0 <= blocked -> running + blocked <= m < 2 ^ 21 -> Forall (fun a => 0 <= a <= m * LOADAVG_FIXED) average ->
  exists l, loadavg_sample average running blocked = Ret l /\ length l = 3%nat /\ Forall (fun a => 0 <= a <= m * LOADAVG_FIXED) l.
Proof.
  intros Hl Hr Hb Hm. unfold loadavg_sample. rewrite wrap32_id by (unfold is_u32; lia).
  assert (H : forall es av, Forall (fun e => 0 <= e <= 2048) es -> length av = length es -> Forall (fun a => 0 <= a <= m * LOADAVG_FIXED) av ->
    exists l, sample_loop av es (running + blocked) = Ret l /\ length l = length es /\ Forall (fun a => 0 <= a <= m * LOADAVG_FIXED) l).
  { induction es as [|e es IH]; intros [|a av] He Hn Ha; cbn [length sample_loop] in *; try lia; [by exists []|].
    apply Forall_cons in He as [He Hes], Ha as [Ha Hav].
    destruct (loadavg_update_between a (running + blocked) e 1) as (r & -> & Hb'); [done|unfold is_u64; lia|unfold is_u32, LOADAVG_FIXED in *; lia|lia|].
    destruct (IH av) as (l & -> & Hl' & HF); [done|lia|done|]. cbn. exists (r :: l). split_and!; [done|cbn; lia|]. apply Forall_cons. split; [|done]. unfold LOADAVG_FIXED in *. lia. }
  intros Ha. apply (H loadavg_exponent); [repeat constructor; lia|done|done].
Qed.
