(* ===== verification/Futex.v ===== *)
(** * Futexes: the code

    kernel/futex.c over the wait queues of Wait.  A slot is its index; the
    address of slot [i] and of its wait queue is [slot_at i].  What is read from
    user memory, [copyin] of a word and [vm_user_pa], is an argument. *)
From S2P Require Import Prelude Scheduler Wait Ktime.

Definition FUTEX_SLOT_COUNT : Z := 128.
Definition LINUX_ENOSYS : Z := 38.
Definition LINUX_ETIMEDOUT : Z := 110.
Definition SIGNAL_RESTART_SYS : Z := 512.
Definition LINUX_SYS_futex : Z := 98.
Definition LINUX_FUTEX_WAIT : Z := 0.
Definition LINUX_FUTEX_WAKE : Z := 1.
Definition LINUX_FUTEX_REQUEUE : Z := 3.
Definition LINUX_FUTEX_CMP_REQUEUE : Z := 4.
Definition LINUX_FUTEX_WAIT_BITSET : Z := 9.
Definition LINUX_FUTEX_WAKE_BITSET : Z := 10.
Definition LINUX_FUTEX_PRIVATE_FLAG : Z := 128.
Definition LINUX_FUTEX_CLOCK_REALTIME : Z := 256.
Definition LINUX_FUTEX_CMD_MASK : Z := 127.
Definition LINUX_FUTEX_BITSET_MATCH_ANY : Z := 0xffffffff.
Definition LINUX_FUTEX_WAITERS : Z := 0x80000000.
Definition LINUX_FUTEX_OWNER_DIED : Z := 0x40000000.
Definition FUTEX_TID_MASK : Z := 0x3fffffff.
Definition FUTEX_ROBUST_LIMIT : nat := 2048.

(** ** Restarting a wait after a signal *)

(** The [futex_restart_] fields of a thread. *)
Record futex_restart := MkRestart {
  r_active : bool; r_armed : bool; r_resume : bool; r_private : bool; r_epc : Z; r_address : Z; r_timeout_address : Z; r_deadline : Z; r_expected : Z; r_bitset : Z
}.
Definition futex_restart_cancel : futex_restart := MkRestart false false false false 0 0 0 0 0 0.
Definition futex_restart_signal (r : futex_restart) (through_handler : bool) : futex_restart :=
  if negb (r_active r) then r else
  MkRestart true through_handler (negb through_handler) (r_private r) (r_epc r) (r_address r) (r_timeout_address r) (r_deadline r) (r_expected r) (r_bitset r).
(** [epc], [a7] and [a0] of the trap frame that the handler returns to. *)
Definition futex_restart_sigreturn (r : futex_restart) (epc a7 a0 : Z) : futex_restart :=
  if negb (r_active r) || negb (r_armed r) then r else
  if negb (epc =? r_epc r) || negb (a7 =? LINUX_SYS_futex) || negb (a0 =? r_address r) then futex_restart_cancel else
  MkRestart true false true (r_private r) (r_epc r) (r_address r) (r_timeout_address r) (r_deadline r) (r_expected r) (r_bitset r).
(** The deadline of the wait that goes on; [epc] is that of the trap frame, behind the instruction. *)
Definition futex_restart_take (r : futex_restart) (epc address : Z) (private : bool) (expected timeout_address bitset : Z) : futex_restart * option Z :=
  let epc := epc -64 4 in
  if r_active r && r_resume r && (r_epc r =? epc) && (r_address r =? address) && eqb (r_private r) private && (r_expected r =? expected) &&
     (r_timeout_address r =? timeout_address) && (r_bitset r =? bitset)
  then (MkRestart true (r_armed r) false (r_private r) (r_epc r) (r_address r) (r_timeout_address r) (r_deadline r) (r_expected r) (r_bitset r), Some (r_deadline r))
  else (futex_restart_cancel, None).
Definition futex_restart_set (epc address : Z) (private : bool) (expected timeout_address bitset deadline : Z) : futex_restart :=
  MkRestart true false false private (epc -64 4) address timeout_address deadline expected bitset.

(** ** Timeouts *)

(** 0 without a timeout, 1 with one, or an error; then the milliseconds.  [timeout] is the [struct linux_timespec] read
    from [address], if it can be read. *)
Definition timespec_valid (timeout : Z * Z) : bool := negb ((timeout.1 <? 0) || (timeout.2 <? 0) || (NSEC_PER_SEC <=? timeout.2)).
Definition futex_relative_timeout (address : Z) (timeout : option (Z * Z)) : Z * Z :=
  if negb (truth address) then (0, 0) else
  match timeout with
  | None => (- LINUX_EFAULT, 0)
  | Some (seconds, nanoseconds) =>
      if negb (timespec_valid (seconds, nanoseconds)) then (- LINUX_EINVAL, 0) else
      if negb (truth seconds) && negb (truth nanoseconds) then (- LINUX_ETIMEDOUT, 0) else
      (1, if (UINT64_MAX - 999999) / 1000 <? seconds then UINT64_MAX else (seconds *64 1000) +64 (nanoseconds +64 999999) / 1000000)
  end.
(** [now] is what [ktime_get_ns] returned. *)
Definition futex_absolute_timeout (address : Z) (timeout : option (Z * Z)) (now : Z) : Z * Z :=
  if negb (truth address) then (0, 0) else
  match timeout with
  | None => (- LINUX_EFAULT, 0)
  | Some (seconds, nanoseconds) =>
      if negb (timespec_valid (seconds, nanoseconds)) then (- LINUX_EINVAL, 0) else
      let absolute := if (UINT64_MAX - nanoseconds) / NSEC_PER_SEC <? seconds then UINT64_MAX else (seconds *64 NSEC_PER_SEC) +64 nanoseconds in
      if absolute <=? now then (- LINUX_ETIMEDOUT, 0) else (1, (absolute - now +64 999999) / 1000000)
  end.
(** The deadline of a relative timeout, in ticks. *)
Definition futex_deadline (now frequency milliseconds : Z) : Z :=
  let delta := ktime_ms_to_ticks frequency milliseconds in
  if UINT64_MAX - delta <? now then UINT64_MAX else now +64 delta.

(** ** Keys and slots *)

Record futex_key := MkKey { k_process : Z; k_address : Z; k_shared : bool }.
#[export] Instance futex_key_eq : EqDecision futex_key.
Proof. solve_decision. Defined.
Definition futex_key_equal (left right : futex_key) : bool :=
  (k_process left =? k_process right) && (k_address left =? k_address right) && eqb (k_shared left) (k_shared right).

(** [word]: the word at the address, if it can be read; [physical]: where it is, 0 if it is nowhere. *)
Definition futex_key_get (process address : Z) (private : bool) (word : option Z) (physical : Z) : Z + futex_key :=
  if truth (Z.land address 3) then inl (- LINUX_EINVAL) else
  match word with
  | None => inl (- LINUX_EFAULT)
  | Some _ =>
      if private then inr (MkKey process address false) else
      if negb (truth physical) then inl (- LINUX_EFAULT) else inr (MkKey 0 physical true)
  end.

Record futex_slot := MkFutexSlot { fs_key : futex_key; fs_waiters : Z; fs_active : bool }.
Record futexes := MkFutexes { f_waits : waits; f_slots : list futex_slot }.
Definition with_slot (F : futexes) (i : nat) (s : futex_slot) : futexes := MkFutexes (f_waits F) (<[i := s]> (f_slots F)).
Definition slot_at (i : nat) : Z := Z.of_nat i + 1.

(** The first slot from [i] on that satisfies the test. *)
Fixpoint slot_search (test : futex_slot -> bool) (l : list futex_slot) (i : nat) : option nat :=
  match l with [] => None | s :: l => if test s then Some i else slot_search test l (S i) end.
Definition futex_slot_find_locked (F : futexes) (key : futex_key) : option nat :=
  slot_search (fun s => fs_active s && futex_key_equal (fs_key s) key) (f_slots F) 0.
Definition futex_slot_get_locked (F : futexes) (key : futex_key) : option (futexes * nat) :=
  match futex_slot_find_locked F key with
  | Some i => Some (F, i)
  | None =>
      match slot_search (fun s => negb (fs_active s)) (f_slots F) 0 with
      | Some i => Some (with_slot F i (MkFutexSlot key 0 true), i)
      | None => None
      end
  end.
Definition futex_slot_put_locked (F : futexes) (i : nat) : outcome futexes :=
  s ← rd (f_slots F) i;
  if negb (fs_active s) || negb (truth (fs_waiters s)) then Panic "invalid futex slot put" else
  let waiters := fs_waiters s -32 1 in
  if truth waiters then Ret (with_slot F i (MkFutexSlot (fs_key s) waiters true)) else
  empty ← wait_queue_empty (f_waits F) (slot_at i);
  if negb empty then Panic "empty futex reference count" else Ret (with_slot F i (MkFutexSlot (fs_key s) waiters false)).

(** ** Waiting *)

Inductive wait_timeout := NoTimeout | Restarted (deadline : Z) | Relative (milliseconds : Z) | Absolute (milliseconds : Z).
(** [futex_wait] up to the lock: the key and the timeout, or an error. *)
Definition futex_wait_begin (r : futex_restart) (epc address : Z) (private : bool) (expected timeout_address bitset : Z) (absolute : bool)
    (key : Z + futex_key) (timeout : option (Z * Z)) (now : Z) : futex_restart * (Z + futex_key * wait_timeout) :=
  if negb (truth bitset) then (r, inl (- LINUX_EINVAL)) else
  match key with
  | inl e => (r, inl e)
  | inr key =>
      let '(r, restarted) := if negb absolute && truth timeout_address then futex_restart_take r epc address private expected timeout_address bitset else (r, None) in
      match restarted with
      | Some deadline => (r, inr (key, Restarted deadline))
      | None =>
          let '(timed, milliseconds) := if absolute then futex_absolute_timeout timeout_address timeout now else futex_relative_timeout timeout_address timeout in
          (r, if timed <? 0 then inl timed else inr (key, if negb (truth timed) then NoTimeout else if absolute then Absolute milliseconds else Relative milliseconds))
      end
  end.
(** The deadline of the sleep, 0 for none; nothing when the call that sleeps returns [WAIT_QUEUE_TIMEOUT] at once.  A relative
    timeout is remembered as its deadline. *)
Definition futex_sleep_until (r : futex_restart) (epc address : Z) (private : bool) (expected timeout_address bitset : Z) (now frequency : Z) (timeout : wait_timeout) : futex_restart * option Z :=
  match timeout with
  | NoTimeout => (r, Some 0)
  | Restarted deadline => (r, if deadline <=? now then None else Some deadline)
  | Relative milliseconds =>
      let deadline := futex_deadline now frequency milliseconds in
      (futex_restart_set epc address private expected timeout_address bitset deadline, if deadline <=? now then None else Some deadline)
  | Absolute milliseconds => (r, if negb (truth milliseconds) then None else Some (timeout_deadline now (ktime_ms_to_ticks frequency milliseconds)))
  end.

(** [futex_wait] from the lock to the call that sleeps: an error, or the slot.  [word] is what is read now. *)
Definition futex_wait_locked (F : futexes) (t : Z) (r : futex_restart) (key : futex_key) (word : option Z) (expected bitset : Z) : outcome (futexes * futex_restart * (Z + nat)) :=
  match word with
  | None => Ret (F, r, inl (- LINUX_EFAULT))
  | Some value =>
      if negb (value =? expected) then Ret (F, futex_restart_cancel, inl (- LINUX_EAGAIN)) else
      match futex_slot_get_locked F key with
      | None => Ret (F, r, inl (- LINUX_ENOMEM))
      | Some (F, i) =>
          s ← rd (f_slots F) i;
          x ← get_thread (f_waits F) t;
          let F := with_slot F i (MkFutexSlot (fs_key s) (fs_waiters s +32 1) (fs_active s)) in
          Ret (MkFutexes (put_thread (f_waits F) t (set_private x (slot_at i) bitset)) (f_slots F), r, inr i)
      end
  end.
(** From the result of the sleep to the end. *)
Definition futex_wait_finish (F : futexes) (t : Z) (r : futex_restart) (result : Z) : outcome (futexes * futex_restart * Z) :=
  x ← get_thread (f_waits F) t;
  if negb (truth (wait_private x)) then Panic "futex waiter lost slot" else
  F ← futex_slot_put_locked F (Z.to_nat (wait_private x - 1));
  let F := MkFutexes (put_thread (f_waits F) t (set_private x 0 UINT32_MAX)) (f_slots F) in
  Ret (F, if result =? WAIT_QUEUE_INTERRUPTED then r else futex_restart_cancel,
    if result =? WAIT_QUEUE_INTERRUPTED then - SIGNAL_RESTART_SYS else if result =? WAIT_QUEUE_TIMEOUT then - LINUX_ETIMEDOUT else 0).

(** ** Waking and moving *)

Definition futex_wake_key_locked (F : futexes) (key : futex_key) (count bitset : Z) : outcome (futexes * Z) :=
  match futex_slot_find_locked F key with
  | None => Ret (F, 0)
  | Some i => '(W, n) ← wait_queue_wake_mask (f_waits F) (slot_at i) count bitset; Ret (MkFutexes W (f_slots F), n)
  end.
Definition futex_wake (F : futexes) (key : Z + futex_key) (count bitset : Z) : outcome (futexes * Z) :=
  if (count <? 0) || negb (truth bitset) then Ret (F, - LINUX_EINVAL) else
  match key with inl e => Ret (F, e) | inr key => futex_wake_key_locked F key count bitset end.

(** The part under the lock, behind the comparison. *)
Definition futex_requeue_locked (F : futexes) (source_key destination_key : futex_key) (wake_count requeue_count : Z) : outcome (futexes * Z) :=
  match futex_slot_find_locked F source_key with
  | None => Ret (F, 0)
  | Some i =>
      '(W, woken) ← wait_queue_wake_mask (f_waits F) (slot_at i) wake_count LINUX_FUTEX_BITSET_MATCH_ANY;
      let F := MkFutexes W (f_slots F) in
      if negb (truth requeue_count) then Ret (F, woken) else
      match futex_slot_get_locked F destination_key with
      | None => Ret (F, if truth woken then woken else - LINUX_ENOMEM)
      | Some (F, j) =>
          '(W, moved) ← wait_queue_requeue (f_waits F) (slot_at i) (slot_at j) requeue_count (slot_at j);
          source ← rd (f_slots F) i;
          if fs_waiters source <? wrap32 moved then Panic "futex requeue source count" else
          let F := MkFutexes W (<[i := MkFutexSlot (fs_key source) (fs_waiters source -32 moved) (fs_active source)]> (f_slots F)) in
          target ← rd (f_slots F) j;
          let F := with_slot F j (MkFutexSlot (fs_key target) (fs_waiters target +32 moved) (fs_active target)) in
          source ← rd (f_slots F) i;
          let F := if negb (truth (fs_waiters source)) then with_slot F i (MkFutexSlot (fs_key source) (fs_waiters source) false) else F in
          target ← rd (f_slots F) j;
          let F := if negb (truth moved) && negb (truth (fs_waiters target)) then with_slot F j (MkFutexSlot (fs_key target) (fs_waiters target) false) else F in
          Ret (F, woken + moved)
      end
  end.
(** [compare]: the expected value for the comparing form, with [word] as read under the lock. *)
Definition futex_requeue (F : futexes) (source destination : Z + futex_key) (wake_count requeue_count : Z) (compare : option Z) (word : option Z) : outcome (futexes * Z) :=
  if (wake_count <? 0) || (requeue_count <? 0) then Ret (F, - LINUX_EINVAL) else
  match source, destination with
  | inl e, _ => Ret (F, e)
  | inr _, inl e => Ret (F, e)
  | inr source_key, inr destination_key =>
      if futex_key_equal source_key destination_key then Ret (F, - LINUX_EINVAL) else
      match compare, word with
      | Some _, None => Ret (F, - LINUX_EFAULT)
      | Some expected, Some value => if negb (value =? expected) then Ret (F, - LINUX_EAGAIN) else futex_requeue_locked F source_key destination_key wake_count requeue_count
      | None, _ => futex_requeue_locked F source_key destination_key wake_count requeue_count
      end
  end.

(** ** The system call *)

(** A conversion to [int]. *)
Definition int32 (x : Z) : Z := if wrap32 x <? 2 ^ 31 then wrap32 x else wrap32 x - 2 ^ 32.

Inductive futex_command :=
| DoWait (private : bool) (expected bitset : Z) (absolute : bool)
| DoWake (private : bool) (count bitset : Z)
| DoRequeue (private : bool) (wake_count requeue_count : Z) (compare : option Z).
(** [sys_linux_futex]: what an operation and its arguments ask for, or an error. *)
Definition sys_linux_futex (operation count timeout_address value3 : Z) : Z + futex_command :=
  let command := Z.land operation LINUX_FUTEX_CMD_MASK in
  let private := truth (Z.land operation LINUX_FUTEX_PRIVATE_FLAG) in
  if truth (Z.land operation (Z.lnot (Z.lor (Z.lor LINUX_FUTEX_CMD_MASK LINUX_FUTEX_PRIVATE_FLAG) LINUX_FUTEX_CLOCK_REALTIME))) then inl (- LINUX_EINVAL) else
  if truth (Z.land operation LINUX_FUTEX_CLOCK_REALTIME) && negb (command =? LINUX_FUTEX_WAIT_BITSET) then inl (- LINUX_EINVAL) else
  if truth (Z.land operation LINUX_FUTEX_CLOCK_REALTIME) then inl (- LINUX_ENOSYS) else
  if command =? LINUX_FUTEX_WAIT then inr (DoWait private (wrap32 count) LINUX_FUTEX_BITSET_MATCH_ANY false) else
  if command =? LINUX_FUTEX_WAIT_BITSET then inr (DoWait private (wrap32 count) (wrap32 value3) true) else
  if command =? LINUX_FUTEX_WAKE then inr (DoWake private count LINUX_FUTEX_BITSET_MATCH_ANY) else
  if command =? LINUX_FUTEX_WAKE_BITSET then inr (DoWake private count (wrap32 value3)) else
  if command =? LINUX_FUTEX_REQUEUE then inr (DoRequeue private count (int32 timeout_address) None) else
  if command =? LINUX_FUTEX_CMP_REQUEUE then inr (DoRequeue private count (int32 timeout_address) (Some (wrap32 value3))) else
  inl (- LINUX_ENOSYS).
