(* ===== verification/FutexSystem.v ===== *)
(** * Futexes: slots and references

    A slot counts the threads that hold it and is active exactly as long as
    there is one; no two active slots have the same key. *)
From S2P Require Import Prelude Scheduler Wait WaitInv WaitSystem Futex.

(** ** Counting *)

(** How many of the threads hold [k]. *)
Definition refs (T : list Z) (h : Z -> Z) (k : Z) : Z := Z.of_nat (length (filter (fun t => h t = k) T)).
Definition b2i (b : bool) : Z := if b then 1 else 0.

Lemma refs_nonneg T h k : 0 <= refs T h k.
Proof. unfold refs. lia. Qed.
Lemma refs_cons t T h k : refs (t :: T) h k = b2i (bool_decide (h t = k)) + refs T h k.
Proof. unfold refs. rewrite filter_cons. case_decide; case_bool_decide; try done; cbn [length b2i]; lia. Qed.
Lemma refs_bound T h k : refs T h k <= Z.of_nat (length T).
Proof. unfold refs. pose proof (length_filter (fun t => h t = k) T). lia. Qed.
Lemma refs_ext T h h' k : (forall t, t ∈ T -> h t = h' t) -> refs T h k = refs T h' k.
Proof. intros H. unfold refs. do 2 f_equal. apply filter_ext_in. intros t Ht. by rewrite H. Qed.
Lemma refs_upd T h h' t k : NoDup T -> t ∈ T -> (forall u, u <> t -> h' u = h u) ->
  refs T h' k = refs T h k - b2i (bool_decide (h t = k)) + b2i (bool_decide (h' t = k)).
Proof.
  intros HN Ht Hu. induction HN as [|u T Hn HN IH]; [set_solver|]. rewrite !refs_cons. destruct (decide (u = t)) as [->|Hne].
  - rewrite (refs_ext T h' h) by (intros v Hv; apply Hu; set_solver). lia.
  - rewrite Hu by done. rewrite IH by set_solver. lia.
Qed.
Lemma refs_pos T h t k : t ∈ T -> h t = k -> 1 <= refs T h k.
Proof.
  intros Ht Hk. unfold refs. assert (Hin : t ∈ filter (fun u => h u = k) T) by (by apply list_elem_of_filter). destruct (filter _ T); [set_solver|cbn; lia].
Qed.
(** Moving several holders at once. *)
Lemma refs_move T h h' mv i j k : NoDup T -> NoDup mv -> (forall t, t ∈ mv -> t ∈ T /\ h t = i /\ h' t = j) -> (forall t, t ∉ mv -> h' t = h t) ->
  refs T h' k = refs T h k - Z.of_nat (length mv) * b2i (bool_decide (i = k)) + Z.of_nat (length mv) * b2i (bool_decide (j = k)).
Proof.
  intros HT Hmv. revert h. induction Hmv as [|t mv Hn Hmv IH]; intros h Hin Hout; [cbn [length]; rewrite (refs_ext T h' h) by (intros t _; apply Hout; set_solver); lia|].
  destruct (Hin t) as (HtT & Hti & Htj); [set_solver|]. set (g := fun u => if decide (u = t) then j else h u).
  rewrite (IH g).
  - rewrite (refs_upd T h g t k HT HtT); [|intros u Hu; unfold g; by rewrite decide_False]. unfold g. rewrite decide_True, Hti by done. cbn [length]. lia.
  - intros u Hu. destruct (Hin u) as (? & ? & ?); [set_solver|]. unfold g. rewrite decide_False by (by intros ->). done.
  - intros u Hu. unfold g. destruct (decide (u = t)) as [->|Hut]; [done|]. apply Hout. set_solver.
Qed.

(** ** Searching *)

Lemma slot_search_ok test l k : match slot_search test l k with
  | Some i => (k <= i)%nat /\ exists s, l !! (i - k)%nat = Some s /\ test s = true
  | None => forall i s, l !! i = Some s -> test s = false
  end.
Proof.
  revert k. induction l as [|s l IH]; intros k; cbn [slot_search]; [done|]. destruct (test s) eqn:E.
  - split; [lia|]. exists s. by rewrite Nat.sub_diag.
  - specialize (IH (S k)). destruct (slot_search test l (S k)) as [i|].
    + destruct IH as (Hi & s' & Hs & Ht). split; [lia|]. exists s'. by replace (i - k)%nat with (S (i - S k)) by lia.
    + intros [|i] s' Hs; [by injection Hs as <-|by eapply IH].
Qed.

Lemma key_equal_iff a b : futex_key_equal a b = true <-> a = b.
Proof.
  unfold futex_key_equal. rewrite !andb_true_iff, !Z.eqb_eq, eqb_true_iff. destruct a, b. cbn. naive_solver.
Qed.

(** ** Slots *)

Record slots_ok (T : list Z) (h : Z -> Z) (l : list futex_slot) : Prop := {
  sl_length : length l = 128%nat;
  sl_count i s : l !! i = Some s -> fs_waiters s = refs T h (slot_at i);
  sl_active i s : l !! i = Some s -> fs_active s = truth (fs_waiters s);
  sl_keys i j s s' : l !! i = Some s -> l !! j = Some s' -> fs_active s = true -> fs_active s' = true -> fs_key s = fs_key s' -> i = j
}.

Lemma slot_at_inj i j : slot_at i = slot_at j <-> i = j.
Proof. unfold slot_at. lia. Qed.

Lemma find_ok F key : match futex_slot_find_locked F key with
  | Some i => exists s, f_slots F !! i = Some s /\ fs_active s = true /\ fs_key s = key
  | None => forall i s, f_slots F !! i = Some s -> fs_active s = true -> fs_key s <> key
  end.
Proof.
  unfold futex_slot_find_locked. pose proof (slot_search_ok (fun s => fs_active s && futex_key_equal (fs_key s) key) (f_slots F) 0) as H. destruct (slot_search _ _ _) as [i|].
  - destruct H as (_ & s & Hs & [Ha Hk%key_equal_iff]%andb_true_iff). rewrite Nat.sub_0_r in Hs. eauto.
  - intros i s Hs Ha Hk. specialize (H i s Hs). cbn in H. apply key_equal_iff in Hk. by rewrite Ha, Hk in H.
Qed.

(** The slot a key gets. *)
Lemma get_ok F key : match futex_slot_get_locked F key with
  | Some (F', i) => f_waits F' = f_waits F /\ exists s, f_slots F !! i = Some s /\
      (fs_active s = true /\ fs_key s = key /\ F' = F \/
       fs_active s = false /\ (forall j r, f_slots F !! j = Some r -> fs_active r = true -> fs_key r <> key) /\ f_slots F' = <[i := MkFutexSlot key 0 true]> (f_slots F))
  | None => (forall i s, f_slots F !! i = Some s -> fs_active s = true) /\ forall i s, f_slots F !! i = Some s -> fs_key s <> key
  end.
Proof.
  unfold futex_slot_get_locked. pose proof (find_ok F key) as HF. destruct (futex_slot_find_locked F key) as [i|]; [destruct HF as (s & Hs & Ha & Hk); split; [done|]; exists s; auto|].
  pose proof (slot_search_ok (fun s => negb (fs_active s)) (f_slots F) 0) as H. destruct (slot_search _ _ _) as [i|].
  - destruct H as (_ & s & Hs & Ha%negb_true_iff). rewrite Nat.sub_0_r in Hs. split; [done|]. exists s. split; [done|]. right. done.
  - assert (Hall : forall i s, f_slots F !! i = Some s -> fs_active s = true) by (intros i s Hs; by apply negb_false_iff, (H i s)). split; [done|]. eauto.
Qed.

(** A thread takes a reference. *)
Lemma slots_take T h h' l i s key t : NoDup T -> t ∈ T -> Z.of_nat (length T) < 2 ^ 32 -> slots_ok T h l -> l !! i = Some s ->
  (fs_active s = true /\ fs_key s = key \/ fs_active s = false /\ forall j r, l !! j = Some r -> fs_active r = true -> fs_key r <> key) ->
  h t = 0 -> h' t = slot_at i -> (forall u, u <> t -> h' u = h u) ->
  slots_ok T h' (<[i := MkFutexSlot key ((if fs_active s then fs_waiters s else 0) +32 1) true]> l).
Proof.
  intros HN Ht HT [S1 S2 S3 S4] Hs Hk H0 Hi Hu. assert (Hlt := lookup_lt_Some _ _ _ Hs).
  assert (Hr : forall k, refs T h' k = refs T h k - b2i (bool_decide (0 = k)) + b2i (bool_decide (slot_at i = k))) by (intros k; rewrite (refs_upd T h h' t k), H0, Hi by done; done).
  assert (Hw : (if fs_active s then fs_waiters s else 0) = refs T h (slot_at i)).
  { rewrite <-(S2 i s Hs), (S3 i s Hs). unfold truth. destruct (Z.eqb_spec (fs_waiters s) 0); cbn; lia. }
  pose proof (refs_bound T h' (slot_at i)) as Hb. pose proof (refs_nonneg T h (slot_at i)). rewrite Hr, !bool_decide_false, bool_decide_true in Hb by (done || (unfold slot_at; lia)). cbn [b2i] in Hb.
  assert (Ew : refs T h (slot_at i) +32 1 = refs T h (slot_at i) + 1) by (apply wrap32_id; unfold is_u32; lia). rewrite Hw, Ew. split.
  - by rewrite length_insert.
  - intros j r. rewrite list_lookup_insert_Some. rewrite Hr. intros [(<- & <- & _)|[Hne Hj]].
    + cbn. rewrite bool_decide_false, bool_decide_true by (done || (unfold slot_at; lia)). cbn [b2i]. lia.
    + rewrite !bool_decide_false by (unfold slot_at; lia). cbn [b2i]. rewrite (S2 j r Hj). lia.
  - intros j r. rewrite list_lookup_insert_Some. intros [(<- & <- & _)|[Hne Hj]]; [|by eapply S3]. cbn. unfold truth. by rewrite (proj2 (Z.eqb_neq _ 0)) by lia.
  - intros j j' r r'. rewrite !list_lookup_insert_Some. intros [(<- & <- & _)|[Hne Hj]] [(<- & <- & _)|[Hne' Hj']]; [done|..|by eapply S4]; cbn; intros Ha Ha' Ek.
    + destruct Hk as [[Hsa Hsk]|[_ Hno]]; [eapply S4; [done|done|done|done|congruence]|by destruct (Hno j' r' Hj' Ha')].
    + destruct Hk as [[Hsa Hsk]|[_ Hno]]; [eapply S4; [done|done|done|done|congruence]|by destruct (Hno j r Hj Ha)].
Qed.

(** A thread gives its reference back. *)
Lemma slots_put T h h' l i s t : NoDup T -> t ∈ T -> Z.of_nat (length T) < 2 ^ 32 -> slots_ok T h l -> l !! i = Some s -> h t = slot_at i -> h' t = 0 -> (forall u, u <> t -> h' u = h u) ->
  fs_active s = true /\ fs_waiters s -32 1 = refs T h' (slot_at i) /\ slots_ok T h' (<[i := MkFutexSlot (fs_key s) (refs T h' (slot_at i)) (truth (refs T h' (slot_at i)))]> l).
Proof.
  intros HN Ht HT [S1 S2 S3 S4] Hs Hi H0 Hu. assert (Hlt := lookup_lt_Some _ _ _ Hs). pose proof (refs_pos T h t _ Ht Hi) as Hp. pose proof (refs_bound T h (slot_at i)) as Hb.
  assert (Hr : forall k, refs T h' k = refs T h k - b2i (bool_decide (slot_at i = k)) + b2i (bool_decide (0 = k))) by (intros k; rewrite (refs_upd T h h' t k), H0, Hi by done; done).
  assert (Ei : refs T h' (slot_at i) = refs T h (slot_at i) - 1) by (rewrite Hr, bool_decide_true, bool_decide_false by (done || (unfold slot_at; lia)); cbn [b2i]; lia).
  assert (Ha : fs_active s = true) by (rewrite (S3 i s Hs), (S2 i s Hs); unfold truth; by rewrite (proj2 (Z.eqb_neq _ 0)) by lia). split_and!; [done| |].
  { rewrite (S2 i s Hs), Ei. apply wrap32_id. unfold is_u32. lia. }
  split.
  - by rewrite length_insert.
  - intros j r. rewrite list_lookup_insert_Some. intros [(<- & <- & _)|[Hne Hj]]; [done|]. rewrite Hr, !bool_decide_false by (unfold slot_at; lia). cbn [b2i]. rewrite (S2 j r Hj). lia.
  - intros j r. rewrite list_lookup_insert_Some. intros [(<- & <- & _)|[Hne Hj]]; [done|by eapply S3].
  - intros j j' r r'. rewrite !list_lookup_insert_Some. intros [(<- & <- & _)|[Hne Hj]] [(<- & <- & _)|[Hne' Hj']]; [done|..|by eapply S4]; cbn; intros Ha1 Ha' Ek; eapply S4; done.
Qed.

(** ** Moving references *)

(** The slots after [n] references went from slot [i] to slot [j] for a key. *)
Definition moved_slots (T : list Z) (h' : Z -> Z) (l : list futex_slot) (i j : nat) (si : futex_slot) (key : futex_key) : list futex_slot :=
  let ri := refs T h' (slot_at i) in let rj := refs T h' (slot_at j) in
  <[j := MkFutexSlot key rj (truth rj)]> (<[i := MkFutexSlot (fs_key si) ri (truth ri)]> l).

Section moving.
  Context (T mv : list Z) (h h' : Z -> Z) (l : list futex_slot) (i j : nat) (si sj : futex_slot) (key : futex_key).
  Context (HT : NoDup T) (Hmv : NoDup mv) (Hfew : Z.of_nat (length T) < 2 ^ 32) (HS : slots_ok T h l) (Hi : l !! i = Some si) (Hj : l !! j = Some sj) (Hij : i <> j).
  Context (Hin : forall t, t ∈ mv -> t ∈ T /\ h t = slot_at i /\ h' t = slot_at j) (Hout : forall t, t ∉ mv -> h' t = h t).
  Context (Hkey : fs_active sj = true /\ fs_key sj = key \/ fs_active sj = false /\ forall k r, l !! k = Some r -> fs_active r = true -> fs_key r <> key).

Let n : Z := Z.of_nat (length mv).
Let base : Z := if fs_active sj then fs_waiters sj else 0.

Lemma move_counts : 0 <= n < 2 ^ 32 /\ n <= fs_waiters si /\ fs_waiters si -32 n = refs T h' (slot_at i) /\ base +32 n = refs T h' (slot_at j) /\ refs T h' (slot_at j) = base + n /\
  (forall k, k <> i -> k <> j -> refs T h' (slot_at k) = refs T h (slot_at k)) /\ 0 <= base.
Proof.
  destruct HS as [S1 S2 S3 S4]. assert (Hr := refs_move T h h' mv (slot_at i) (slot_at j)). assert (Hb : base = refs T h (slot_at j)).
  { unfold base. rewrite <-(S2 j sj Hj), (S3 j sj Hj). unfold truth. destruct (Z.eqb_spec (fs_waiters sj) 0); cbn; lia. }
  assert (Ei : refs T h' (slot_at i) = refs T h (slot_at i) - n) by (rewrite Hr, bool_decide_true, bool_decide_false by (done || (unfold slot_at; lia)); unfold n; cbn [b2i]; lia).
  assert (Ej : refs T h' (slot_at j) = refs T h (slot_at j) + n) by (rewrite Hr, bool_decide_false, bool_decide_true by (done || (unfold slot_at; lia)); unfold n; cbn [b2i]; lia).
  pose proof (refs_nonneg T h' (slot_at i)). pose proof (refs_nonneg T h (slot_at j)). pose proof (refs_bound T h (slot_at i)). pose proof (refs_bound T h' (slot_at j)).
  assert (0 <= n) by (unfold n; lia). rewrite (S2 i si Hi), Hb. split_and!; try lia.
  - rewrite Ei. apply wrap32_id. unfold is_u32. lia.
  - rewrite Ej. apply wrap32_id. unfold is_u32. lia.
  - intros k Hki Hkj. rewrite Hr, !bool_decide_false by (done || (unfold slot_at; lia)). cbn [b2i]. lia.
Qed.

Lemma moved_slots_ok : fs_active si = true -> fs_key si <> key -> slots_ok T h' (moved_slots T h' l i j si key).
Proof.
  intros Ha Hne. destruct HS as [S1 S2 S3 S4]. destruct move_counts as (_ & _ & _ & _ & Erj & Hoth & Hb). unfold moved_slots. assert (Hil := lookup_lt_Some _ _ _ Hi). assert (Hjl := lookup_lt_Some _ _ _ Hj).
  assert (Hcase : forall k r, <[j := MkFutexSlot key (refs T h' (slot_at j)) (truth (refs T h' (slot_at j)))]> (<[i := MkFutexSlot (fs_key si) (refs T h' (slot_at i)) (truth (refs T h' (slot_at i)))]> l) !! k = Some r ->
    fs_waiters r = refs T h' (slot_at k) /\ fs_active r = truth (refs T h' (slot_at k)) /\ (k = j /\ fs_key r = key \/ k <> j /\ (fs_active r = true -> exists r0, l !! k = Some r0 /\ fs_active r0 = true /\ fs_key r0 = fs_key r))).
  { intros k r. rewrite !list_lookup_insert_Some, length_insert. intros [(<- & <- & _)|(Hkj & [(<- & <- & _)|(Hki & Hk)])]; cbn.
    - auto.
    - split_and!; try done. right. split; [done|]. eauto.
    - rewrite Hoth by done. rewrite <-(S2 k r Hk), <-(S3 k r Hk). split_and!; try done. right. split; [done|]. eauto. }
  split.
  - by rewrite !length_insert.
  - intros k r Hk. by apply Hcase in Hk as [? _].
  - intros k r Hk. apply Hcase in Hk as (-> & -> & _). done.
  - assert (Hno : forall k r, l !! k = Some r -> fs_active r = true -> fs_key r = key -> k = j).
    { intros k r Hk Hr Ek. destruct Hkey as [[Hja Hjk]|[_ Hno]]; [|by destruct (Hno k r Hk Hr)]. eapply S4; [done|done|done|done|congruence]. }
    intros k k' r r' (_ & _ & H1)%Hcase (_ & _ & H2)%Hcase Hr Hr' Ek.
    destruct H1 as [[-> Hk1]|[Hk1 H1]], H2 as [[-> Hk2]|[Hk2 H2]]; [done|..].
    + destruct (H2 Hr') as (r0 & Hr0 & Hra & Hrk). symmetry. eapply Hno; [done|done|congruence].
    + destruct (H1 Hr) as (r0 & Hr0 & Hra & Hrk). eapply Hno; [done|done|congruence].
    + destruct (H1 Hr) as (r0 & Hr0 & Hra & Hrk), (H2 Hr') as (r1 & Hr1 & Hrb & Hrl). eapply S4; [done|done|done|done|congruence].
Qed.
End moving.

(** * Futexes: threads that wait and wake

    Calls of many threads side by side, with signals, deadlines and requests to
    exit in between. *)

(** Where a thread is in [futex_wait]: outside, with its key and before the lock, with a slot [i] and the lock behind the
    load of the sequence or behind the check for signals, asleep or woken, or gone to exit out of the wait. *)
Inductive fphase := FOutside | FPrepared (key : futex_key) (expected bitset : Z) | FEntered (i : nat) (sequence deadline : Z) | FChecked (i : nat) (sequence deadline : Z) | FBlocked | FDead.

(** [f_lock]: the thread that holds [futex_table.lock]. *)
Record fsys := MkF { f_table : futexes; f_phase : gmap Z fphase; f_lock : option Z }.
Definition f_threads (s : fsys) : gmap Z waiter := w_threads (f_waits (f_table s)).

Definition table_with (F : futexes) (W : waits) : futexes := MkFutexes W (f_slots F).
Definition move_to (s : fsys) (F : futexes) (t : Z) (p : fphase) (lock : option Z) : fsys := MkF F (<[t := p]> (f_phase s)) lock.

Inductive fstep (s : fsys) : fsys -> Prop :=
| fs_prepare t key expected bitset : f_phase s !! t = Some FOutside -> fstep s (move_to s (f_table s) t (FPrepared key expected bitset) (f_lock s))
(** The lock is taken and the wait ends with an error. *)
| fs_refused t x key expected bitset word F e r0 r1 : f_threads s !! t = Some x -> w_state x = THREAD_RUNNING -> f_phase s !! t = Some (FPrepared key expected bitset) -> f_lock s = None ->
    futex_wait_locked (f_table s) t r0 key word expected bitset = Ret (F, r1, inl e) -> fstep s (move_to s F t FOutside None)
(** The deadline has already come. *)
| fs_late t x key expected bitset word F i F' r r0 r1 r2 : f_threads s !! t = Some x -> w_state x = THREAD_RUNNING -> f_phase s !! t = Some (FPrepared key expected bitset) -> f_lock s = None ->
    futex_wait_locked (f_table s) t r0 key word expected bitset = Ret (F, r1, inr i) -> futex_wait_finish F t r1 WAIT_QUEUE_TIMEOUT = Ret (F', r2, r) -> fstep s (move_to s F' t FOutside None)
(** The sleep begins, or finds a request to exit. *)
| fs_enter t x key expected bitset word F i deadline seq r0 r1 : f_threads s !! t = Some x -> w_state x = THREAD_RUNNING -> f_phase s !! t = Some (FPrepared key expected bitset) -> f_lock s = None ->
    futex_wait_locked (f_table s) t r0 key word expected bitset = Ret (F, r1, inr i) -> sleep_enter (f_waits F) t WAIT_SIGNAL_INTERRUPTIBLE = Ret seq ->
    fstep s (match seq with Some n => move_to s F t (FEntered i n deadline) (Some t) | None => move_to s F t FDead None end)
| fs_check t x i seq deadline : f_threads s !! t = Some x -> w_state x = THREAD_RUNNING -> f_phase s !! t = Some (FEntered i seq deadline) ->
    sleep_pending (f_waits (f_table s)) t WAIT_SIGNAL_INTERRUPTIBLE = Ret false -> fstep s (move_to s (f_table s) t (FChecked i seq deadline) (f_lock s))
| fs_pending t x i seq deadline F r r1 r2 : f_threads s !! t = Some x -> w_state x = THREAD_RUNNING -> f_phase s !! t = Some (FEntered i seq deadline) ->
    sleep_pending (f_waits (f_table s)) t WAIT_SIGNAL_INTERRUPTIBLE = Ret true -> futex_wait_finish (f_table s) t r1 WAIT_QUEUE_INTERRUPTED = Ret (F, r2, r) -> fstep s (move_to s F t FOutside None)
| fs_sleep t x i seq deadline W : f_threads s !! t = Some x -> w_state x = THREAD_RUNNING -> f_phase s !! t = Some (FChecked i seq deadline) ->
    sleep_queue (f_waits (f_table s)) t (slot_at i) deadline WAIT_SIGNAL_INTERRUPTIBLE seq = Ret (W, Asleep) -> fstep s (move_to s (table_with (f_table s) W) t FBlocked None)
| fs_interrupted t x i seq deadline W F r r1 r2 : f_threads s !! t = Some x -> w_state x = THREAD_RUNNING -> f_phase s !! t = Some (FChecked i seq deadline) ->
    sleep_queue (f_waits (f_table s)) t (slot_at i) deadline WAIT_SIGNAL_INTERRUPTIBLE seq = Ret (W, SleepInterrupted) ->
    futex_wait_finish (table_with (f_table s) W) t r1 WAIT_QUEUE_INTERRUPTED = Ret (F, r2, r) -> fstep s (move_to s F t FOutside None)
| fs_terminated t x i seq deadline W : f_threads s !! t = Some x -> w_state x = THREAD_RUNNING -> f_phase s !! t = Some (FChecked i seq deadline) ->
    sleep_queue (f_waits (f_table s)) t (slot_at i) deadline WAIT_SIGNAL_INTERRUPTIBLE seq = Ret (W, SleepTerminated) -> fstep s (move_to s (table_with (f_table s) W) t FDead None)
| fs_resume t x W result F r r1 r2 : f_threads s !! t = Some x -> w_state x = THREAD_RUNNING -> f_phase s !! t = Some FBlocked -> f_lock s = None ->
    sleep_resume (f_waits (f_table s)) t = Ret (W, Some result) -> futex_wait_finish (table_with (f_table s) W) t r1 result = Ret (F, r2, r) -> fstep s (move_to s F t FOutside None)
| fs_exit t x W : f_threads s !! t = Some x -> w_state x = THREAD_RUNNING -> f_phase s !! t = Some FBlocked -> f_lock s = None ->
    sleep_resume (f_waits (f_table s)) t = Ret (W, None) -> fstep s (move_to s (table_with (f_table s) W) t FDead None)
| fs_wake key count bitset F n : f_lock s = None -> futex_wake_key_locked (f_table s) key count bitset = Ret (F, n) -> fstep s (MkF F (f_phase s) None)
| fs_requeue source destination wake_count requeue_count F n : f_lock s = None -> source <> destination ->
    futex_requeue_locked (f_table s) source destination wake_count requeue_count = Ret (F, n) -> fstep s (MkF F (f_phase s) None)
(** The scheduler, signals, requests to exit and the timer. *)
| fs_switch t x st : f_threads s !! t = Some x -> w_state x ∈ [THREAD_RUNNABLE; THREAD_RUNNING] -> st ∈ [THREAD_RUNNABLE; THREAD_RUNNING] ->
    fstep s (MkF (table_with (f_table s) (put_thread (f_waits (f_table s)) t (set_state x st))) (f_phase s) (f_lock s))
| fs_flags t x n m u f (e : bool) : f_threads s !! t = Some x -> (exit_requested x = true -> e = true) ->
    fstep s (MkF (table_with (f_table s) (put_thread (f_waits (f_table s)) t (set_signals x n m u f e))) (f_phase s) (f_lock s))
| fs_signal t fatal W n : wait_queue_signal_thread (f_waits (f_table s)) t fatal = Ret (W, n) -> fstep s (MkF (table_with (f_table s) W) (f_phase s) (f_lock s))
| fs_terminate t x W n : f_threads s !! t = Some x -> exit_requested x = true -> wait_queue_terminate_thread (f_waits (f_table s)) t = Ret (W, n) ->
    fstep s (MkF (table_with (f_table s) W) (f_phase s) (f_lock s))
| fs_expire now W : wait_queue_expire (f_waits (f_table s)) now = Ret W -> fstep s (MkF (table_with (f_table s) W) (f_phase s) (f_lock s)).

(** ** The invariant *)

Definition holding (p : fphase) : bool := match p with FEntered _ _ _ | FChecked _ _ _ | FBlocked | FDead => true | _ => false end.
(** The slot a thread holds, 0 for none. *)
Definition held (s : fsys) (t : Z) : Z :=
  match f_phase s !! t, f_threads s !! t with Some p, Some x => if holding p then wait_private x else 0 | _, _ => 0 end.

Definition fphase_ok (s : fsys) (t : Z) (x : waiter) (p : fphase) : Prop :=
  w_state x ∈ [THREAD_RUNNABLE; THREAD_RUNNING; THREAD_SLEEPING] /\ (w_state x = THREAD_SLEEPING -> p = FBlocked /\ waiting_on x = wait_private x) /\
  (holding p = true -> exists i, (i < 128)%nat /\ wait_private x = slot_at i) /\
  match p with
  | FEntered i _ _ | FChecked i _ _ => wait_private x = slot_at i /\ f_lock s = Some t
  | FBlocked => w_state x <> THREAD_SLEEPING -> wait_result x = WAIT_QUEUE_TERMINATED -> exit_requested x = true
  | _ => True
  end.

Record futex_ok (T : list Z) (s : fsys) : Prop := {
  fo_waits : wait_ok (f_waits (f_table s));
  fo_nodup : NoDup T;
  fo_few : Z.of_nat (length T) < 2 ^ 32;
  fo_threads t : t ∈ T <-> is_Some (f_threads s !! t);
  fo_dom t : t ∈ T <-> is_Some (f_phase s !! t);
  fo_queue i : (i < 128)%nat -> is_Some (w_queues (f_waits (f_table s)) !! slot_at i);
  fo_slots : slots_ok T (held s) (f_slots (f_table s));
  fo_phase t x p : f_threads s !! t = Some x -> f_phase s !! t = Some p -> fphase_ok s t x p;
  fo_lock t : f_lock s = Some t -> exists i seq deadline, f_phase s !! t = Some (FEntered i seq deadline) \/ f_phase s !! t = Some (FChecked i seq deadline)
}.

(** [futex_init], with the threads [T], none of which waits. *)
Record ffresh (T : list Z) (s : fsys) : Prop := {
  ff_waits : fresh (MkSys (f_waits (f_table s)) ((fun _ => Outside) <$> w_threads (f_waits (f_table s))) [] [] ∅);
  ff_nodup : NoDup T;
  ff_few : Z.of_nat (length T) < 2 ^ 32;
  ff_threads t : t ∈ T <-> is_Some (f_threads s !! t);
  ff_phase t : f_phase s !! t = (fun _ => FOutside) <$> f_threads s !! t;
  ff_queue i : (i < 128)%nat -> is_Some (w_queues (f_waits (f_table s)) !! slot_at i);
  ff_slots : f_slots (f_table s) = replicate 128 (MkFutexSlot (MkKey 0 0 false) 0 false);
  ff_lock : f_lock s = None
}.

Inductive fexec (T : list Z) : fsys -> Prop :=
| fe_start s : ffresh T s -> fexec T s
| fe_step s s' : fexec T s -> fstep s s' -> fexec T s'.

Lemma refs_none T h k : (forall t, t ∈ T -> h t <> k) -> refs T h k = 0.
Proof. intros H. unfold refs. by rewrite filter_none. Qed.

Lemma ffresh_ok T s : ffresh T s -> futex_ok T s.
Proof.
  intros [F1 F2 F3 F4 F5 F6 F7 F8]. pose proof (wait_fresh_ok _ F1) as [HW _ HP _ _ _]. cbn [s_waits] in HW.
  assert (Hh : forall t, held s t = 0). { intros t. unfold held. rewrite F5. by destruct (f_threads s !! t). }
  split; try done.
  - intros t. rewrite F5, fmap_is_Some. apply F4.
  - rewrite F7. assert (Hr : forall i, refs T (held s) (slot_at i) = 0) by (intros i; apply refs_none; intros t _; rewrite Hh; unfold slot_at; lia). split.
    + done.
    + intros i r [-> _]%lookup_replicate. by rewrite Hr.
    + intros i r [-> _]%lookup_replicate. done.
    + intros i j r r' [-> _]%lookup_replicate _. done.
  - intros t x p Hx. rewrite F5, Hx. intros [= <-]. destruct (WaitSystem.f_threads _ F1 t x Hx) as (Hs & _).
    split_and!; [set_solver|intros E; rewrite E in Hs; set_solver|done|done].
  - rewrite F8. done.
Qed.
