(* ===== verification/FutexSteps.v ===== *)
(** * Futexes: every step keeps the invariant *)
From S2P Require Import Prelude Scheduler Wait WaitInv WaitSystem Futex FutexSystem.

Definition locked_by (p : fphase) : bool := match p with FEntered _ _ _ | FChecked _ _ _ => true | _ => false end.

Lemma lock_of T s t x p : futex_ok T s -> f_threads s !! t = Some x -> f_phase s !! t = Some p -> locked_by p = true <-> f_lock s = Some t.
Proof.
  intros HF Hx Hp. split.
  - intros Hl. destruct (fo_phase _ _ HF t x p Hx Hp) as (_ & _ & _ & H). destruct p; try done; apply H.
  - intros Hl. destruct (fo_lock _ _ HF t Hl) as (i & seq & d & [E|E]); rewrite Hp in E; by injection E as ->.
Qed.

Lemma put_lookup W t y u : w_threads (put_thread W t y) !! u = if decide (u = t) then Some y else w_threads W !! u.
Proof. cbn. rewrite lookup_insert. case_decide; case_decide; congruence. Qed.

(** A step of one thread. *)
Lemma own_ok T s F t x y p p' lock : futex_ok T s -> f_threads s !! t = Some x -> f_phase s !! t = Some p -> wait_ok (f_waits F) ->
  (forall u, w_threads (f_waits F) !! u = if decide (u = t) then Some y else f_threads s !! u) ->
  (forall i, (i < 128)%nat -> is_Some (w_queues (f_waits F) !! slot_at i)) -> slots_ok T (held (move_to s F t p' lock)) (f_slots F) ->
  fphase_ok (move_to s F t p' lock) t y p' -> lock = (if locked_by p' then Some t else if locked_by p then None else f_lock s) -> (locked_by p' = true -> locked_by p = true \/ f_lock s = None) ->
  futex_ok T (move_to s F t p' lock).
Proof.
  intros HF Hx Hp HW HT HQ HS HP El Hl. pose proof (lock_of T s t x p HF Hx Hp) as Hlk. assert (Ht : t ∈ T) by (apply (fo_threads _ _ HF); by eexists).
  assert (Hoth : forall u, u <> t -> f_lock s = Some u <-> lock = Some u).
  { intros u Hu. rewrite El. destruct (locked_by p') eqn:E1.
    - destruct (Hl eq_refl) as [Hlp|Hn]; [apply Hlk in Hlp; rewrite Hlp|rewrite Hn]; split; congruence.
    - destruct (locked_by p) eqn:E2; [|done]. rewrite (proj1 Hlk eq_refl). split; congruence. }
  split; cbn [move_to f_table f_phase f_lock]; try apply HF; try done.
  - intros u. unfold f_threads. cbn. rewrite HT. case_decide as E; [rewrite E; by split; [eexists|]|]. apply (fo_threads _ _ HF).
  - intros u. destruct (decide (u = t)) as [->|Hne]; [rewrite lookup_insert_eq; by split; [eexists|]|]. rewrite lookup_insert_ne by done. apply (fo_dom _ _ HF).
  - intros u z r. unfold f_threads. cbn. rewrite HT. destruct (decide (u = t)) as [->|Hne]; [rewrite lookup_insert_eq; intros [= <-] [= <-]; done|]. rewrite lookup_insert_ne by done.
    intros Hz Hr. destruct (fo_phase _ _ HF u z r Hz Hr) as (P1 & P2 & P3 & P4). split_and!; try done. destruct r; try done; cbn; (split; [apply P4|]; apply Hoth; [done|apply P4]).
  - intros u Hu. destruct (decide (u = t)) as [->|Hne].
    + rewrite lookup_insert_eq. destruct (locked_by p') eqn:E1; [destruct p'; try done; eauto 10|]. rewrite Hu in El. destruct (locked_by p) eqn:E2; [done|]. symmetry in El. by apply Hlk in El.
    + rewrite lookup_insert_ne by done. apply (fo_lock _ _ HF), Hoth; done.
Qed.

Lemma held_move s F t p' lock u y : (forall v, w_threads (f_waits F) !! v = if decide (v = t) then Some y else f_threads s !! v) ->
  held (move_to s F t p' lock) u = if decide (u = t) then (if holding p' then wait_private y else 0) else held s u.
Proof.
  intros HT. unfold held, f_threads at 1. cbn. rewrite HT. case_decide as E; [by rewrite E, lookup_insert_eq|]. by rewrite lookup_insert_ne by done.
Qed.

(** The slots do not change when a thread keeps what it holds. *)
Lemma slots_same T s F t x y p p' lock : futex_ok T s -> f_threads s !! t = Some x -> f_phase s !! t = Some p ->
  (forall u, w_threads (f_waits F) !! u = if decide (u = t) then Some y else f_threads s !! u) -> holding p' = holding p -> (holding p = true -> wait_private y = wait_private x) ->
  slots_ok T (held (move_to s F t p' lock)) (f_slots (f_table s)).
Proof.
  intros HF Hx Hp HT Hh Hpr. destruct (fo_slots _ _ HF) as [S1 S2 S3 S4]. split; try done. intros i r Hr. rewrite (S2 i r Hr). apply refs_ext. intros u _. rewrite (held_move s F t p' lock u y HT).
  case_decide as E; [|done]. rewrite E, Hh. unfold held. rewrite Hp, Hx. destruct (holding p) eqn:Eh; [by rewrite Hpr|done].
Qed.

(** Taking a slot. *)
Lemma futex_take_step T s t x key expected bitset word F i p' lock q0 q1 : futex_ok T s -> f_threads s !! t = Some x -> w_state x = THREAD_RUNNING -> f_phase s !! t = Some (FPrepared key expected bitset) ->
  f_lock s = None -> futex_wait_locked (f_table s) t q0 key word expected bitset = Ret (F, q1, inr i) -> (p' = FDead /\ lock = None \/ exists n d, p' = FEntered i n d /\ lock = Some t) ->
  futex_ok T (move_to s F t p' lock) /\ f_waits F = put_thread (f_waits (f_table s)) t (set_private x (slot_at i) bitset).
Proof.
  intros HF Hx Hs Hp Hl E Hp'. unfold futex_wait_locked in E. destruct word as [v|]; [|done]. destruct (negb _); [done|]. pose proof (get_ok (f_table s) key) as HG.
  destruct (futex_slot_get_locked (f_table s) key) as [[F1 j]|]; [|done]. destruct HG as (HGW & r & Hr & Hcase). pose proof (fo_slots _ _ HF) as HSl.
  assert (Hr1 : exists r1, f_slots F1 !! j = Some r1 /\ f_slots F1 = <[j := r1]> (f_slots (f_table s)) /\
    MkFutexSlot (fs_key r1) (fs_waiters r1 +32 1) (fs_active r1) = MkFutexSlot key ((if fs_active r then fs_waiters r else 0) +32 1) true).
  { destruct Hcase as [(Ha & Hk & ->)|(Ha & _ & ->)].
    - exists r. split_and!; [done|by rewrite list_insert_id|]. by rewrite Ha, Hk.
    - eexists. split_and!; [apply list_lookup_insert_eq; by eapply lookup_lt_Some|done|]. by rewrite Ha. }
  destruct Hr1 as (r1 & Hr1 & Hl1 & Er1). rewrite (rd_Ret _ _ _ Hr1) in E. cbn [mbind outcome_bind] in E. unfold get_thread in E. rewrite HGW in E. fold (f_threads s) in E. rewrite Hx in E.
  cbn [deref mbind outcome_bind with_slot f_waits f_slots] in E. rewrite Er1, Hl1, list_insert_insert_eq, HGW in E. injection E as <- <- <-. split; [|done].
  set (y := set_private x (slot_at j) bitset). set (F := MkFutexes _ _).
  assert (HT : forall u, w_threads (f_waits F) !! u = if decide (u = t) then Some y else f_threads s !! u) by (intros u; apply put_lookup).
  assert (Hh : holding p' = true) by (destruct Hp' as [[-> _]|(n & d & -> & _)]; done). assert (Hj : (j < 128)%nat) by (rewrite <-(sl_length _ _ _ HSl); by eapply lookup_lt_Some).
  destruct (fo_phase _ _ HF t x _ Hx Hp) as (P1 & P2 & _). apply (own_ok T s F t x y (FPrepared key expected bitset)); try done.
  - apply (put_same_ok _ _ x); [apply HF|done|by split_and!].
  - apply (fo_queue _ _ HF).
  - eapply (slots_take T (held s)); try done; [apply HF|apply (fo_threads _ _ HF); by eexists|apply HF|..].
    + destruct Hcase as [(Ha & Hk & _)|(Ha & Hno & _)]; [by left|by right].
    + unfold held. by rewrite Hp, Hx.
    + rewrite (held_move s F t p' lock t y HT), decide_True, Hh by done. done.
    + intros u Hu. by rewrite (held_move s F t p' lock u y HT), decide_False.
  - split_and!; [done|intros E; cbn in E; congruence|intros _; by exists j|]. destruct Hp' as [[-> ->]|(n & d & -> & ->)]; done.
  - destruct Hp' as [[-> ->]|(n & d & -> & ->)]; done.
  - auto.
Qed.

(** Who sleeps on the queue of a slot holds the slot. *)
Lemma sleeper_holds T s i l u : futex_ok T s -> w_queues (f_waits (f_table s)) !! slot_at i = Some l -> u ∈ l ->
  exists x, f_threads s !! u = Some x /\ w_state x = THREAD_SLEEPING /\ f_phase s !! u = Some FBlocked /\ held s u = slot_at i /\ u ∈ T.
Proof.
  intros HF Hl Hu. destruct (wk_queue _ (fo_waits _ _ HF) _ _ _ Hl Hu) as (x & Hx & Hq & _ & Hs). exists x. assert (HT : u ∈ T) by (apply (fo_threads _ _ HF); by eexists).
  destruct (proj1 (fo_dom _ _ HF u) HT) as [p Hp]. destruct (fo_phase _ _ HF u x p Hx Hp) as (_ & P2 & _). destruct (P2 Hs) as [-> Hw]. split_and!; try done.
  unfold held. unfold f_threads. rewrite Hp, Hx. cbn. congruence.
Qed.

Lemma sleeper_state T s i l u x : futex_ok T s -> w_queues (f_waits (f_table s)) !! slot_at i = Some l -> u ∈ l -> f_threads s !! u = Some x -> w_state x = THREAD_SLEEPING.
Proof. intros HF Hl Hu Hx. destruct (sleeper_holds T s i l u HF Hl Hu) as (y & Hy & ? & _). congruence. Qed.

(** The end of a wait gives the slot back. *)
Lemma finish_step T s t x p r0 result : futex_ok T s -> f_threads s !! t = Some x -> f_phase s !! t = Some p -> holding p = true -> w_state x <> THREAD_SLEEPING -> f_lock s = None \/ f_lock s = Some t ->
  exists F r1 r, futex_wait_finish (f_table s) t r0 result = Ret (F, r1, r) /\ futex_ok T (move_to s F t FOutside None).
Proof.
  intros HF Hx Hp Hh Hs Hl. destruct (fo_phase _ _ HF t x p Hx Hp) as (P1 & P2 & P3 & _). destruct (P3 Hh) as (i & Hi & Hpr). pose proof (fo_slots _ _ HF) as HSl.
  destruct (lookup_lt_is_Some_2 (f_slots (f_table s)) i) as [sl Hsl]; [by rewrite (sl_length _ _ _ HSl)|].
  set (y := set_private x 0 UINT32_MAX). set (W := put_thread (f_waits (f_table s)) t y). set (F l := MkFutexes W l).
  assert (HT : forall l u, w_threads (f_waits (F l)) !! u = if decide (u = t) then Some y else f_threads s !! u) by (intros l u; apply put_lookup).
  set (h' := fun u => if decide (u = t) then 0 else held s u). assert (Hh' : forall l lock u, held (move_to s (F l) t FOutside lock) u = h' u) by (intros l lock u; by rewrite (held_move s (F l) t FOutside lock u y (HT l))).
  assert (HtT : t ∈ T) by (apply (fo_threads _ _ HF); by eexists).
  assert (Hht : held s t = slot_at i) by (unfold held; rewrite Hp, Hx, Hh; done).
  destruct (slots_put T (held s) h' (f_slots (f_table s)) i sl t) as (Ha & Hw & HSl'); try done; [apply HF|apply HF|unfold h'; by rewrite decide_True|intros u Hu; unfold h'; by rewrite decide_False|].
  set (l' := <[i := _]> _) in HSl'. exists (F l'). do 2 eexists. split.
  - unfold futex_wait_finish, get_thread. fold (f_threads s). rewrite Hx. cbn [deref mbind outcome_bind]. rewrite Hpr. unfold truth at 1. rewrite (proj2 (Z.eqb_neq _ 0)) by (unfold slot_at; lia). cbn [negb].
    replace (Z.to_nat (slot_at i - 1)) with i by (unfold slot_at; lia). unfold futex_slot_put_locked. rewrite (rd_Ret _ _ _ Hsl). cbn [mbind outcome_bind]. rewrite Ha.
    pose proof (sl_active _ _ _ HSl i sl Hsl) as Ea. rewrite Ha in Ea. rewrite <-Ea. cbn [negb orb]. rewrite Hw. destruct (truth (refs T h' (slot_at i))) eqn:Et; [cbn [mbind outcome_bind]; unfold F, l'; by rewrite ?Et|].
    unfold wait_queue_empty, get_queue. destruct (fo_queue _ _ HF i Hi) as [q Hq]. rewrite Hq. cbn [deref mbind outcome_bind]. destruct q as [|u q].
    + cbn [negb mbind outcome_bind]. unfold F, l'. by rewrite ?Et.
    + exfalso. destruct (sleeper_holds T s i (u :: q) u HF Hq) as (z & Hz & Hzs & _ & Hu & HuT); [set_solver|]. assert (Hut : u <> t) by (intros ->; congruence).
      pose proof (refs_pos T h' u (slot_at i) HuT) as Hpos. unfold h' at 1 in Hpos. rewrite decide_False in Hpos by done. specialize (Hpos Hu). unfold truth in Et. apply negb_false_iff, Z.eqb_eq in Et. lia.
  - apply (own_ok T s (F l') t x y p); try done.
    + apply (put_same_ok _ _ x); [apply HF|done|by split_and!].
    + apply (fo_queue _ _ HF).
    + destruct HSl' as [S1 S2 S3 S4]. split; try done. intros j r Hr. rewrite (S2 j r Hr). apply refs_ext. intros u _. by rewrite Hh'.
    + cbn [locked_by]. destruct (locked_by p) eqn:Elp; [done|]. destruct Hl as [->|Hl]; [done|]. by apply (lock_of T s t x p HF Hx Hp) in Hl; congruence.
Qed.

(** ** The parts of a wait *)

Section parts.
  Context (T : list Z) (s : fsys) (t : Z) (x : waiter).
  Context (HF : futex_ok T s) (Hx : f_threads s !! t = Some x) (Hrun : w_state x = THREAD_RUNNING).

(** The thread changes, keeps its slot and gives up the lock. *)
Lemma drop_lock W y p p' : f_phase s !! t = Some p -> holding p = true -> p' = FDead \/ p' = FBlocked /\ (w_state y <> THREAD_SLEEPING -> wait_result y = WAIT_QUEUE_TERMINATED -> exit_requested y = true) ->
  f_lock s = None \/ f_lock s = Some t -> wait_ok W -> (forall u, w_threads W !! u = if decide (u = t) then Some y else f_threads s !! u) -> (forall i, (i < 128)%nat -> is_Some (w_queues W !! slot_at i)) ->
  wait_private y = wait_private x -> w_state y ∈ [THREAD_RUNNABLE; THREAD_RUNNING; THREAD_SLEEPING] -> (w_state y = THREAD_SLEEPING -> p' = FBlocked /\ waiting_on y = wait_private y) ->
  futex_ok T (move_to s (table_with (f_table s) W) t p' None).
Proof.
  intros Hp Hh Hp' Hl HW HT HQ Hpr Hst Hsl. destruct (fo_phase _ _ HF t x p Hx Hp) as (P1 & P2 & P3 & _). assert (Hlb : locked_by p' = false) by (destruct Hp' as [->|[-> _]]; done).
  apply (own_ok T s _ t x y p); try done.
  - eapply slots_same; try done. rewrite Hh. destruct Hp' as [->|[-> _]]; done.
  - split_and!; [done|done|intros _; rewrite Hpr; by apply P3|]. destruct Hp' as [->|[-> ?]]; done.
  - rewrite Hlb. destruct (locked_by p) eqn:Elp; [done|]. destruct Hl as [->|Hl]; [done|]. by apply (lock_of T s t x p HF Hx Hp) in Hl; congruence.
  - by rewrite Hlb.
Qed.

Lemma check_step i seq deadline : f_phase s !! t = Some (FEntered i seq deadline) -> futex_ok T (move_to s (f_table s) t (FChecked i seq deadline) (f_lock s)).
Proof.
  intros Hp. destruct (fo_phase _ _ HF t x _ Hx Hp) as (P1 & P2 & P3 & P4 & P5). assert (HT : forall u, w_threads (f_waits (f_table s)) !! u = if decide (u = t) then Some x else f_threads s !! u).
  { intros u. case_decide as E; [by rewrite E|done]. }
  apply (own_ok T s _ t x x (FEntered i seq deadline)); try done; [apply HF|apply (fo_queue _ _ HF)|by eapply slots_same|split_and!; try done; intros E; congruence|by left].
Qed.

(** The locked part of the sleep. *)
Lemma sleep_step i seq deadline : f_phase s !! t = Some (FChecked i seq deadline) ->
  exists W e, sleep_queue (f_waits (f_table s)) t (slot_at i) deadline WAIT_SIGNAL_INTERRUPTIBLE seq = Ret (W, e) /\
    match e with
    | Asleep => futex_ok T (move_to s (table_with (f_table s) W) t FBlocked None)
    | _ => futex_ok T (move_to s (table_with (f_table s) W) t FDead None) /\ exists y, w_threads W !! t = Some y /\ w_state y <> THREAD_SLEEPING
    end.
Proof.
  intros Hp. destruct (fo_phase _ _ HF t x _ Hx Hp) as (P1 & P2 & P3 & P4 & P5). destruct (P3 eq_refl) as (j & Hj & Ej). rewrite P4 in Ej. apply slot_at_inj in Ej as <-.
  destruct (fo_queue _ _ HF i Hj) as [l Hl]. destruct (sleep_queue_ok _ t x (slot_at i) l deadline WAIT_SIGNAL_INTERRUPTIBLE seq (fo_waits _ _ HF) Hx Hrun Hl) as (W & e & E & HW & HR).
  exists W, e. split; [done|]. destruct e; cbn in HR.
  - destruct HR as (_ & _ & ts & ->). eapply (drop_lock _ (asleep_thread x (slot_at i) deadline WAIT_SIGNAL_INTERRUPTIBLE)); try done; [right; split; [done|by cbn]|by right|..].
    + intros u. cbn. rewrite lookup_insert. unfold f_threads. case_decide; case_decide; congruence.
    + intros k Hk. cbn. rewrite lookup_insert_is_Some'. right. by apply (fo_queue _ _ HF).
    + cbn. set_solver.
  - destruct HR as (_ & _ & _ & ->). split; [|eexists; split; [cbn; apply lookup_insert_eq|cbn; congruence]].
    eapply (drop_lock _ (set_wait x 0 false deadline WAIT_QUEUE_INTERRUPTED false 0) (FChecked i seq deadline)); try done; [by left|by right|intros u; apply put_lookup|apply (fo_queue _ _ HF)|cbn; congruence].
  - destruct HR as (_ & ->). split; [|eexists; split; [cbn; apply lookup_insert_eq|cbn; congruence]].
    eapply (drop_lock _ (set_wait x 0 false deadline WAIT_QUEUE_TERMINATED false 0) (FChecked i seq deadline)); try done; [by left|by right|intros u; apply put_lookup|apply (fo_queue _ _ HF)|cbn; congruence].
Qed.

(** Behind [sched]. *)
Lemma resume_step : f_phase s !! t = Some FBlocked -> f_lock s = None -> exists W r, sleep_resume (f_waits (f_table s)) t = Ret (W, r) /\
  futex_ok T (move_to s (table_with (f_table s) W) t FDead None) /\ exists y, w_threads W !! t = Some y /\ w_state y <> THREAD_SLEEPING.
Proof.
  intros Hp Hl. destruct (fo_phase _ _ HF t x _ Hx Hp) as (P1 & P2 & P3 & P4). destruct (awake_free _ t x (fo_waits _ _ HF) Hx ltac:(congruence)) as (E1 & E2 & E3 & _).
  set (y := set_wait x (waiting_on x) (on_waitqueue x) (wait_deadline x) (wait_result x) (on_timeout_queue x) 0). set (W := put_thread (f_waits (f_table s)) t y).
  assert (HW : futex_ok T (move_to s (table_with (f_table s) W) t FDead None) /\ exists z, w_threads W !! t = Some z /\ w_state z <> THREAD_SLEEPING).
  { split; [|exists y; split; [apply lookup_insert_eq|cbn; congruence]].
    eapply (drop_lock _ y FBlocked); try done; [by left|by left|apply (put_same_ok _ _ x); [apply HF|done|by split_and!]|intros u; apply put_lookup|apply (fo_queue _ _ HF)|cbn; congruence]. }
  exists W. unfold sleep_resume, get_thread. fold (f_threads s). rewrite Hx. cbn [deref mbind outcome_bind]. replace (on_waitqueue x || truth (waiting_on x) || on_timeout_queue x) with false by (by rewrite E1, E2, E3).
  destruct (Z.eqb_spec (wait_result x) WAIT_QUEUE_TERMINATED) as [Er|Er]; [rewrite P4 by (done || congruence)|]; cbn [negb]; (eexists; split; [done|exact HW]).
Qed.
End parts.

(** ** Steps from outside *)

(** A step that changes threads without their slots. *)
Lemma outside_step T s W (f : Z -> waiter -> waiter) : futex_ok T s -> wait_ok W -> (forall t, w_threads W !! t = f t <$> f_threads s !! t) ->
  (forall i, (i < 128)%nat -> is_Some (w_queues W !! slot_at i)) ->
  (forall t x p, f_threads s !! t = Some x -> f_phase s !! t = Some p -> wait_private (f t x) = wait_private x /\ fphase_ok s t (f t x) p) ->
  futex_ok T (MkF (table_with (f_table s) W) (f_phase s) (f_lock s)).
Proof.
  intros HF HW HT HQ HP. split; cbn [f_table f_phase f_lock table_with f_waits f_slots]; try apply HF; try done.
  - intros t. unfold f_threads. cbn. rewrite HT, fmap_is_Some. apply (fo_threads _ _ HF).
  - destruct (fo_slots _ _ HF) as [S1 S2 S3 S4]. split; try done. intros i r Hr. rewrite (S2 i r Hr). apply refs_ext. intros t _. unfold held at 2, f_threads. cbn. rewrite HT. unfold held.
    destruct (f_phase s !! t) as [p|] eqn:Hp; [|done]. destruct (f_threads s !! t) as [x|] eqn:Hx; [|done]. cbn. by rewrite (proj1 (HP t x p Hx Hp)).
  - intros t y p. unfold f_threads. cbn. rewrite HT. intros (x & Hx & ->)%fmap_Some Hp. by apply HP.
Qed.

Lemma woken_phase s t x p r : fphase_ok s t x p -> w_state x = THREAD_SLEEPING -> (r = WAIT_QUEUE_TERMINATED -> exit_requested x = true) -> fphase_ok s t (woken_thread x r) p.
Proof. intros (P1 & P2 & P3 & P4) Hs Hr. destruct (P2 Hs) as [-> _]. split_and!; [cbn; set_solver|done|done|]. by cbn. Qed.

Lemma woke_queues W W' sel r i : woke W W' sel r -> is_Some (w_queues W !! i) -> is_Some (w_queues W' !! i).
Proof. intros HO Hi. rewrite (wo_queues _ _ _ _ HO). by rewrite fmap_is_Some. Qed.

Lemma futex_woke_step T s W sel r : futex_ok T s -> wait_ok W -> woke (f_waits (f_table s)) W sel r ->
  (forall t x, t ∈ sel -> f_threads s !! t = Some x -> w_state x = THREAD_SLEEPING /\ (r = WAIT_QUEUE_TERMINATED -> exit_requested x = true)) ->
  futex_ok T (MkF (table_with (f_table s) W) (f_phase s) (f_lock s)).
Proof.
  intros HF HW HO Hsel. apply (outside_step T s W (fun t x => if decide (t ∈ sel) then woken_thread x r else x)); try done.
  - intros t. rewrite (wo_threads _ _ _ _ HO). unfold f_threads. case_decide; [done|]. by destruct (_ !! t).
  - intros i Hi. eapply woke_queues; [done|]. by apply (fo_queue _ _ HF).
  - intros t x p Hx Hp. pose proof (fo_phase _ _ HF t x p Hx Hp) as HP. case_decide as Ht; [|done]. split; [done|]. apply woken_phase; [done|by apply (Hsel t x)..].
Qed.

Lemma one_woken_step T s t x W n (b : bool) r : futex_ok T s -> f_threads s !! t = Some x -> wait_ok W -> one_woken (f_waits (f_table s)) t x b r W n ->
  (b = true -> w_state x = THREAD_SLEEPING) -> (r = WAIT_QUEUE_TERMINATED -> exit_requested x = true) -> futex_ok T (MkF (table_with (f_table s) W) (f_phase s) (f_lock s)).
Proof.
  intros HF Hx HW HO Hb Hr. destruct b; cbn in HO.
  - destruct HO as [_ HO]. apply (futex_woke_step T s W [t] r); try done. intros u y ->%list_elem_of_singleton Hy. rewrite Hx in Hy. injection Hy as <-. auto.
  - destruct HO as [_ ->]. by destruct s as [[]].
Qed.

Lemma in_matching W mask l count t : t ∈ (if decide (mask = 0) then [] else take count (filter (matches W mask) l)) -> t ∈ l.
Proof. case_decide; [set_solver|]. intros Ht. apply (subseteq_take count), list_elem_of_filter in Ht. tauto. Qed.

(** ** Moving waiters to another futex *)

(** The bookkeeping of [futex_requeue] behind [wait_queue_requeue]. *)
Lemma requeue_counts l i j si key base n (ri rj : Z) W (woken : Z) : l !! i = Some si -> (j < length l)%nat -> i <> j -> fs_active si = true -> 0 <= n < 2 ^ 32 -> n <= fs_waiters si ->
  fs_waiters si -32 n = ri -> base +32 n = rj -> rj = base + n -> 0 <= base ->
  (let F := MkFutexes W (<[j := MkFutexSlot key base true]> l) in
   source ← rd (f_slots F) i;
   if fs_waiters source <? wrap32 n then Panic "futex requeue source count" else
   let F := MkFutexes W (<[i := MkFutexSlot (fs_key source) (fs_waiters source -32 n) (fs_active source)]> (f_slots F)) in
   target ← rd (f_slots F) j;
   let F := with_slot F j (MkFutexSlot (fs_key target) (fs_waiters target +32 n) (fs_active target)) in
   source ← rd (f_slots F) i;
   let F := if negb (truth (fs_waiters source)) then with_slot F i (MkFutexSlot (fs_key source) (fs_waiters source) false) else F in
   target ← rd (f_slots F) j;
   let F := if negb (truth n) && negb (truth (fs_waiters target)) then with_slot F j (MkFutexSlot (fs_key target) (fs_waiters target) false) else F in
   Ret (F, woken + n)) =
  Ret (MkFutexes W (<[j := MkFutexSlot key rj (truth rj)]> (<[i := MkFutexSlot (fs_key si) ri (truth ri)]> l)), woken + n).
Proof.
  intros Hi Hj Hij Ha Hn Hle Eri Erj Hrj Hb. cbv zeta. cbn [f_slots with_slot]. assert (Hil := lookup_lt_Some _ _ _ Hi).
  rewrite (rd_Ret _ i si) by (by rewrite list_lookup_insert_ne). cbn [mbind outcome_bind]. rewrite wrap32_id by (unfold is_u32; lia). rewrite (proj2 (Z.ltb_ge _ _)) by done.
  rewrite Eri, Ha, (list_insert_insert_ne _ i j) by done. rewrite (rd_Ret _ j (MkFutexSlot key base true)) by (apply list_lookup_insert_eq; by rewrite length_insert). cbn [mbind outcome_bind fs_key fs_waiters fs_active f_waits].
  rewrite list_insert_insert_eq, Erj. rewrite (rd_Ret _ i (MkFutexSlot (fs_key si) ri true)) by (rewrite list_lookup_insert_ne by done; by apply list_lookup_insert_eq).
  cbn [mbind outcome_bind fs_key fs_waiters fs_active].
  match goal with |- context [rd (f_slots ?F0) j] => set (F := F0) end.
  assert (EF : f_waits F = W /\ f_slots F = <[j := MkFutexSlot key rj true]> (<[i := MkFutexSlot (fs_key si) ri (truth ri)]> l)).
  { unfold F. destruct (truth ri); cbn; (split; [done|]); rewrite ?list_insert_insert_eq; [done|]. rewrite (list_insert_insert_ne _ i j) by done. by rewrite list_insert_insert_eq. }
  destruct EF as [EW EF]. rewrite (rd_Ret _ j (MkFutexSlot key rj true)) by (rewrite EF; apply list_lookup_insert_eq; by rewrite length_insert).
  cbn [mbind outcome_bind fs_key fs_waiters fs_active]. unfold with_slot. rewrite EF, EW, list_insert_insert_eq. replace (negb (truth n) && negb (truth rj)) with (negb (truth rj)) by (unfold truth; destruct (Z.eqb_spec n 0), (Z.eqb_spec rj 0); done || lia).
  destruct (truth rj); cbn [negb]; [|done]. destruct F. cbn in EF, EW. by subst.
Qed.

Lemma requeued_step T s W slots i j l m mv : futex_ok T s -> w_queues (f_waits (f_table s)) !! slot_at i = Some l -> (forall t, t ∈ mv -> t ∈ l) -> (j < 128)%nat -> wait_ok W ->
  requeued (f_waits (f_table s)) W (slot_at i) (slot_at j) l m mv (slot_at j) -> slots_ok T (fun t => if decide (t ∈ mv) then slot_at j else held s t) slots ->
  futex_ok T (MkF (MkFutexes W slots) (f_phase s) (f_lock s)).
Proof.
  intros HF Hl Hmv Hj HW [R1 R2 R3 R4 R5] HS. split; cbn [f_table f_phase f_lock f_waits f_slots]; try apply HF; try done.
  - intros t. unfold f_threads. cbn. rewrite R1. case_decide; [rewrite fmap_is_Some|]; apply (fo_threads _ _ HF).
  - intros k Hk. destruct (decide (slot_at k = slot_at i)) as [->|Hki]; [by rewrite R2|]. destruct (decide (slot_at k = slot_at j)) as [->|Hkj]; [by rewrite R3|]. rewrite R4 by done. by apply (fo_queue _ _ HF).
  - destruct HS as [S1 S2 S3 S4]. split; try done. intros k r Hr. rewrite (S2 k r Hr). apply refs_ext. intros t _. unfold held at 2, f_threads. cbn. rewrite R1. destruct (decide (t ∈ mv)) as [Ht|Ht]; [|done].
    destruct (sleeper_holds T s i l t HF Hl (Hmv t Ht)) as (x & Hx & _ & -> & _). unfold f_threads in Hx. by rewrite Hx.
  - intros t y p. unfold f_threads. cbn. rewrite R1. case_decide as Ht; [|by apply (fo_phase _ _ HF)].
    destruct (sleeper_holds T s i l t HF Hl (Hmv t Ht)) as (x & Hx & Hs & Hp & _). unfold f_threads in Hx. rewrite Hx, Hp. intros [= <-] [= <-].
    split_and!; [cbn; rewrite Hs; set_solver|done|intros _; by exists j|done].
Qed.

Lemma take_get T s key F j : futex_ok T s -> futex_slot_get_locked (f_table s) key = Some (F, j) ->
  exists sj, f_slots (f_table s) !! j = Some sj /\ F = MkFutexes (f_waits (f_table s)) (<[j := MkFutexSlot key (if fs_active sj then fs_waiters sj else 0) true]> (f_slots (f_table s))) /\
    (fs_active sj = true /\ fs_key sj = key \/ fs_active sj = false /\ forall k r, f_slots (f_table s) !! k = Some r -> fs_active r = true -> fs_key r <> key).
Proof.
  intros HF E. pose proof (get_ok (f_table s) key) as HG. rewrite E in HG. destruct HG as (HGW & sj & Hj & [(Ha & <- & ->)|(Ha & Hno & HL)]); exists sj; (split; [done|]); rewrite Ha.
  - split; [|by left]. rewrite list_insert_id; [by destruct (f_table s)|]. rewrite Hj. f_equal. by destruct sj; cbn in *; subst.
  - split; [|by right]. destruct F; cbn in *. by subst.
Qed.

(** Threads that do not sleep are left alone. *)
Definition calm (W W' : waits) : Prop := forall t x, w_threads W !! t = Some x -> w_state x <> THREAD_SLEEPING -> w_threads W' !! t = Some x.
Lemma calm_refl W : calm W W.
Proof. by intros t x. Qed.
Lemma calm_trans W1 W2 W3 : calm W1 W2 -> calm W2 W3 -> calm W1 W3.
Proof. intros H1 H2 t x Hx Hs. apply H2; [by apply H1|done]. Qed.
Lemma woke_calm W W' sel r : woke W W' sel r -> (forall t x, t ∈ sel -> w_threads W !! t = Some x -> w_state x = THREAD_SLEEPING) -> calm W W'.
Proof. intros HO Hsel t x Hx Hs. rewrite (wo_threads _ _ _ _ HO), decide_False; [done|]. intros Ht. by eapply Hs, Hsel. Qed.
Lemma requeued_calm W W' src dst l m mv private : requeued W W' src dst l m mv private -> (forall t x, t ∈ mv -> w_threads W !! t = Some x -> w_state x = THREAD_SLEEPING) -> calm W W'.
Proof. intros HR Hmv t x Hx Hs. rewrite (rq_threads _ _ _ _ _ _ _ _ HR), decide_False; [done|]. intros Ht. by eapply Hs, Hmv. Qed.

Lemma requeue_locked_ok T s source destination wake_count requeue_count : futex_ok T s -> source <> destination ->
  exists F n, futex_requeue_locked (f_table s) source destination wake_count requeue_count = Ret (F, n) /\ futex_ok T (MkF F (f_phase s) (f_lock s)) /\ calm (f_waits (f_table s)) (f_waits F).
Proof.
  intros HF Hne. unfold futex_requeue_locked. pose proof (find_ok (f_table s) source) as Hfind. destruct (futex_slot_find_locked (f_table s) source) as [i|]; [|do 2 eexists; split_and!; [done|by destruct s|apply calm_refl]].
  destruct Hfind as (si & Hi & Ha & Hk). assert (Hi128 : (i < 128)%nat) by (rewrite <-(sl_length _ _ _ (fo_slots _ _ HF)); by eapply lookup_lt_Some).
  destruct (fo_queue _ _ HF i Hi128) as [l0 Hl0]. destruct (wake_mask_ok _ _ l0 wake_count LINUX_FUTEX_BITSET_MATCH_ANY (fo_waits _ _ HF) Hl0) as (W0 & -> & HW0 & HO0). cbn [mbind outcome_bind].
  set (woken := Z.of_nat _). set (s1 := MkF (table_with (f_table s) W0) (f_phase s) (f_lock s)).
  assert (HF1 : futex_ok T s1) by (eapply futex_woke_step; try done; intros t x Ht%in_matching Hx; split; [by eapply (sleeper_state T s)|done]).
  assert (HC0 : calm (f_waits (f_table s)) W0) by (eapply woke_calm; [done|]; intros t x Ht%in_matching; by eapply (sleeper_state T s)).
  destruct (negb (truth requeue_count)); [by do 2 eexists|]. change (MkFutexes W0 (f_slots (f_table s))) with (f_table s1).
  destruct (futex_slot_get_locked (f_table s1) destination) as [[F j]|] eqn:Eg; [|by do 2 eexists].
  destruct (take_get T s1 destination F j HF1 Eg) as (sj & Hj & -> & Hc). change (f_slots (f_table s)) with (f_slots (f_table s1)) in Hi.
  assert (Hij : i <> j) by (intros ->; rewrite Hi in Hj; injection Hj as <-; destruct Hc as [[_ ?]|[? _]]; congruence).
  assert (Hj128 : (j < 128)%nat) by (rewrite <-(sl_length _ _ _ (fo_slots _ _ HF1)); by eapply lookup_lt_Some).
  destruct (fo_queue _ _ HF1 i Hi128) as [l Hl], (fo_queue _ _ HF1 j Hj128) as [m Hm].
  destruct (requeue_ok _ (slot_at i) (slot_at j) l m requeue_count (slot_at j) (fo_waits _ _ HF1) Hl Hm) as (W & E & HW & HR); [by rewrite slot_at_inj|]. cbn [f_waits]. rewrite E. cbn [mbind outcome_bind].
  set (mv := take _ l) in *. set (h' := fun t => if decide (t ∈ mv) then slot_at j else held s1 t). assert (Hmv : forall t, t ∈ mv -> t ∈ l) by (intros t; apply subseteq_take).
  assert (Hin : forall t, t ∈ mv -> t ∈ T /\ held s1 t = slot_at i /\ h' t = slot_at j).
  { intros t Ht. destruct (sleeper_holds T s1 i l t HF1 Hl (Hmv t Ht)) as (_ & _ & _ & _ & Hh & HtT). split_and!; try done. unfold h'. by rewrite decide_True. }
  assert (Hout : forall t, t ∉ mv -> h' t = held s1 t) by (intros t Ht; unfold h'; by rewrite decide_False). assert (HN : NoDup mv) by (eapply sublist_NoDup; [exact (wk_nodup _ (fo_waits _ _ HF1) _ _ Hl)|apply sublist_take]).
  destruct (move_counts T mv (held s1) h' (f_slots (f_table s1)) i j si sj) as (B1 & B2 & B3 & B4 & B5 & _ & B7); try done; [apply HF1..|]. cbn [f_slots].
  pose proof (requeue_counts (f_slots (f_table s1)) i j si destination _ _ _ _ W woken Hi ltac:(by eapply lookup_lt_Some) Hij Ha B1 B2 B3 B4 B5 B7) as ER. cbv zeta in ER. cbn [f_slots] in ER. rewrite ER.
  do 2 eexists. split_and!; [done| |eapply calm_trans; [done|]; eapply requeued_calm; [done|]; intros t x Ht%Hmv; exact (sleeper_state T s1 i l t x HF1 Hl Ht)].
  change (f_phase s) with (f_phase s1). change (f_lock s) with (f_lock s1). apply (requeued_step T s1 W _ i j l m mv); try done.
  apply (moved_slots_ok T mv (held s1) h' (f_slots (f_table s1)) i j si sj destination); try done; [apply HF1..|congruence].
Qed.

(** ** Every step *)

Lemma move_to_again s F t p lock F' p' lock' : move_to (move_to s F t p lock) F' t p' lock' = move_to s F' t p' lock'.
Proof. unfold move_to. cbn. by rewrite insert_insert_eq. Qed.

(** A step after which the thread ends its wait. *)
Lemma finish_after T s F t y lock F' result r r0 r1 : futex_ok T (move_to s F t FDead lock) -> w_threads (f_waits F) !! t = Some y -> w_state y <> THREAD_SLEEPING -> lock = None ->
  futex_wait_finish F t r0 result = Ret (F', r1, r) -> futex_ok T (move_to s F' t FOutside None).
Proof.
  intros HF Hy Hs -> E. destruct (finish_step T (move_to s F t FDead None) t y FDead r0 result) as (F1 & ? & ? & E1 & HF1); try done; [cbn; apply lookup_insert_eq|by left|].
  cbn [move_to f_table] in E1. rewrite E in E1. injection E1 as <- _ _. by rewrite move_to_again in HF1.
Qed.

(** A thread that waits for nothing changes its place. *)
Lemma idle_move T s t p p' : futex_ok T s -> f_phase s !! t = Some p -> holding p = false -> holding p' = false -> futex_ok T (move_to s (f_table s) t p' (f_lock s)).
Proof.
  intros HF Hp Hh Hh'. destruct (proj1 (fo_threads _ _ HF t)) as [x Hx]; [apply (fo_dom _ _ HF); by eexists|]. assert (HT : forall u, w_threads (f_waits (f_table s)) !! u = if decide (u = t) then Some x else f_threads s !! u).
  { intros u. case_decide as E; [by rewrite E|done]. }
  destruct (fo_phase _ _ HF t x p Hx Hp) as (P1 & P2 & _). assert (Hl : locked_by p = false) by (by destruct p). assert (Hl' : locked_by p' = false) by (by destruct p').
  apply (own_ok T s _ t x x p); try done; [apply HF|apply (fo_queue _ _ HF)|eapply slots_same; [done|done|done|done|congruence|congruence]| |by rewrite Hl, Hl'|by rewrite Hl'].
  split_and!; [done|intros E; destruct (P2 E) as [-> _]; done|congruence|by destruct p'].
Qed.

Lemma wait_locked_refused F t r0 r1 key word expected bitset F' e : futex_wait_locked F t r0 key word expected bitset = Ret (F', r1, inl e) -> F' = F.
Proof.
  unfold futex_wait_locked. destruct word; [|by intros [= <- _ _]]. destruct (negb _); [by intros [= <- _ _]|]. destruct (futex_slot_get_locked F key) as [[F1 i]|]; [|by intros [= <- _ _]].
  intros (s & _ & E)%bind_Ret. by apply bind_Ret in E as (x & _ & E).
Qed.

Lemma wake_key_ok T s key count bitset : futex_ok T s ->
  exists F n, futex_wake_key_locked (f_table s) key count bitset = Ret (F, n) /\ futex_ok T (MkF F (f_phase s) (f_lock s)) /\ calm (f_waits (f_table s)) (f_waits F).
Proof.
  intros HF. unfold futex_wake_key_locked. pose proof (find_ok (f_table s) key) as Hfind. destruct (futex_slot_find_locked (f_table s) key) as [i|]; [|do 2 eexists; split_and!; [done|by destruct s|apply calm_refl]].
  destruct Hfind as (si & Hi & _). destruct (fo_queue _ _ HF i) as [l Hl]; [rewrite <-(sl_length _ _ _ (fo_slots _ _ HF)); by eapply lookup_lt_Some|].
  destruct (wake_mask_ok _ _ l count bitset (fo_waits _ _ HF) Hl) as (W & -> & HW & HO). cbn [mbind outcome_bind]. do 2 eexists. split_and!; [done|..].
  - eapply (futex_woke_step T s); try done. intros t x Ht%in_matching Hx. split; [by eapply (sleeper_state T s)|done].
  - eapply woke_calm; [done|]. intros t x Ht%in_matching. by eapply (sleeper_state T s).
Qed.

(** A change of one thread that its place in [futex_wait] does not depend on. *)
Lemma touch_step T s t x y : futex_ok T s -> f_threads s !! t = Some x -> same_wait x y -> wait_private y = wait_private x -> w_state y ∈ [THREAD_RUNNABLE; THREAD_RUNNING; THREAD_SLEEPING] ->
  wait_result y = wait_result x -> (exit_requested x = true -> exit_requested y = true) -> futex_ok T (MkF (table_with (f_table s) (put_thread (f_waits (f_table s)) t y)) (f_phase s) (f_lock s)).
Proof.
  intros HF Hx HS Hpr Hst Hr He. apply (outside_step T s _ (fun u z => if decide (u = t) then y else z)); try done.
  - by apply (put_same_ok _ _ x); [apply HF|..].
  - intros u. rewrite put_lookup. unfold f_threads in *. case_decide as E; [by rewrite E, Hx|]. by destruct (_ !! u).
  - apply (fo_queue _ _ HF).
  - intros u z p Hz Hp. pose proof (fo_phase _ _ HF u z p Hz Hp) as HP. case_decide as E; [|done]. subst u. rewrite Hx in Hz. injection Hz as <-. split; [done|].
    destruct HP as (P1 & P2 & P3 & P4), HS as (S1 & S2 & S3 & S4 & S5). split_and!; [done|rewrite S1, S5, Hpr; done|by rewrite Hpr|]. destruct p; rewrite ?Hpr; try done. rewrite S5, Hr. auto.
Qed.

Lemma thread_there W t x : get_thread W t = Ret x -> w_threads W !! t = Some x.
Proof. unfold get_thread. destruct (w_threads W !! t); cbn; congruence. Qed.
Lemma awake_state (st : thread_state) : st ∈ [THREAD_RUNNABLE; THREAD_RUNNING] -> st <> THREAD_SLEEPING.
Proof. intros H ->. set_solver. Qed.

(** The steps of a wait. *)
Lemma fstep_late T s t x key expected bitset word F i F' r r0 r1 r2 : futex_ok T s -> f_threads s !! t = Some x -> w_state x = THREAD_RUNNING -> f_phase s !! t = Some (FPrepared key expected bitset) -> f_lock s = None ->
  futex_wait_locked (f_table s) t r0 key word expected bitset = Ret (F, r1, inr i) -> futex_wait_finish F t r1 WAIT_QUEUE_TIMEOUT = Ret (F', r2, r) -> futex_ok T (move_to s F' t FOutside None).
Proof.
  intros HF Hx Hs Hp Hl E E'. destruct (futex_take_step T s t x key expected bitset word F i FDead None r0 r1) as [HF1 EW]; try done; [by left|].
  eapply (finish_after T s F t (set_private x (slot_at i) bitset)); try done; [rewrite EW; apply lookup_insert_eq|cbn; congruence].
Qed.
Lemma fstep_enter T s t x key expected bitset word F i deadline seq r0 r1 : futex_ok T s -> f_threads s !! t = Some x -> w_state x = THREAD_RUNNING -> f_phase s !! t = Some (FPrepared key expected bitset) -> f_lock s = None ->
  futex_wait_locked (f_table s) t r0 key word expected bitset = Ret (F, r1, inr i) -> futex_ok T (match seq with Some n => move_to s F t (FEntered i n deadline) (Some t) | None => move_to s F t FDead None end).
Proof. intros. destruct seq; eapply futex_take_step; eauto 10. Qed.
Lemma fstep_pending T s t x i seq deadline F r r0 r2 : futex_ok T s -> f_threads s !! t = Some x -> w_state x = THREAD_RUNNING -> f_phase s !! t = Some (FEntered i seq deadline) ->
  futex_wait_finish (f_table s) t r0 WAIT_QUEUE_INTERRUPTED = Ret (F, r2, r) -> futex_ok T (move_to s F t FOutside None).
Proof.
  intros HF Hx Hs Hp E. destruct (finish_step T s t x _ r0 WAIT_QUEUE_INTERRUPTED HF Hx Hp) as (F1 & ? & ? & E1 & HF1); [done|congruence|right; by apply (lock_of T s t x _ HF Hx Hp)|]. rewrite E in E1. by injection E1 as <- _ _.
Qed.
Lemma fstep_sleep T s t x i seq deadline W e : futex_ok T s -> f_threads s !! t = Some x -> w_state x = THREAD_RUNNING -> f_phase s !! t = Some (FChecked i seq deadline) ->
  sleep_queue (f_waits (f_table s)) t (slot_at i) deadline WAIT_SIGNAL_INTERRUPTIBLE seq = Ret (W, e) ->
  match e with
  | Asleep => futex_ok T (move_to s (table_with (f_table s) W) t FBlocked None)
  | _ => futex_ok T (move_to s (table_with (f_table s) W) t FDead None) /\ exists y, w_threads W !! t = Some y /\ w_state y <> THREAD_SLEEPING
  end.
Proof. intros HF Hx Hs Hp E. destruct (sleep_step T s t x HF Hx Hs i seq deadline Hp) as (W1 & e1 & E1 & H). rewrite E in E1. by injection E1 as <- <-. Qed.
Lemma fstep_woken T s t x W r : futex_ok T s -> f_threads s !! t = Some x -> w_state x = THREAD_RUNNING -> f_phase s !! t = Some FBlocked -> f_lock s = None -> sleep_resume (f_waits (f_table s)) t = Ret (W, r) ->
  futex_ok T (move_to s (table_with (f_table s) W) t FDead None) /\ exists y, w_threads W !! t = Some y /\ w_state y <> THREAD_SLEEPING.
Proof. intros HF Hx Hs Hp Hl E. destruct (resume_step T s t x HF Hx Hs Hp Hl) as (W1 & r1 & E1 & H). rewrite E in E1. by injection E1 as <- <-. Qed.

Lemma fstep_ok T s s' : futex_ok T s -> fstep s s' -> futex_ok T s'.
Proof.
  intros HF Hst. destruct Hst as [t key expected bitset Hp|t x key expected bitset word F e r0 r1 Hx Hs Hp Hl E|t x key expected bitset word F i F' r r0 r1 r2 Hx Hs Hp Hl E E'|t x key expected bitset word F i deadline seq r0 r1 Hx Hs Hp Hl E E'
    |t x i seq deadline Hx Hs Hp E|t x i seq deadline F r r1 r2 Hx Hs Hp E E'|t x i seq deadline W Hx Hs Hp E|t x i seq deadline W F r r1 r2 Hx Hs Hp E E'|t x i seq deadline W Hx Hs Hp E|t x W result F r r1 r2 Hx Hs Hp Hl E E'|t x W Hx Hs Hp Hl E
    |key count bitset F n Hl E|source destination wake_count requeue_count F n Hl Hne E|t x st Hx Hs Hst|t x n m u f e Hx He|t fatal W n E|t x W n Hx He E|now W E].
  - by eapply idle_move.
  - apply wait_locked_refused in E as ->. rewrite <-Hl. by eapply idle_move.
  - by eapply fstep_late.
  - by eapply fstep_enter.
  - by eapply check_step.
  - by eapply fstep_pending.
  - by apply (fstep_sleep T s t x i seq deadline W Asleep).
  - destruct (fstep_sleep T s t x i seq deadline W SleepInterrupted HF Hx Hs Hp E) as (HF1 & y & Hy & Hys). by eapply finish_after.
  - by apply (fstep_sleep T s t x i seq deadline W SleepTerminated HF Hx Hs Hp E).
  - destruct (fstep_woken T s t x W _ HF Hx Hs Hp Hl E) as (HF1 & y & Hy & Hys). by eapply finish_after.
  - by apply (fstep_woken T s t x W _ HF Hx Hs Hp Hl E).
  - destruct (wake_key_ok T s key count bitset HF) as (F1 & n1 & E1 & HF1 & _). rewrite E in E1. injection E1 as <- <-. by rewrite <-Hl.
  - destruct (requeue_locked_ok T s source destination wake_count requeue_count HF Hne) as (F1 & n1 & E1 & HF1 & _). rewrite E in E1. injection E1 as <- <-. by rewrite <-Hl.
  - apply awake_state in Hs as Hs', Hst as Hst'. apply (touch_step T s t x); try done. cbn. set_solver.
  - destruct (proj1 (fo_dom _ _ HF t)) as [p Hp]; [apply (fo_threads _ _ HF); by eexists|]. destruct (fo_phase _ _ HF t x p Hx Hp) as (P1 & _). apply (touch_step T s t x); try done.
  - unfold wait_queue_signal_thread in E. apply bind_Ret in E as Hx. destruct Hx as (x & Hx%thread_there & _). destruct (signal_thread_ok _ t x fatal (fo_waits _ _ HF) Hx) as (W1 & n1 & E1 & HW & HO).
    unfold wait_queue_signal_thread in E1. rewrite E in E1. injection E1 as <- <-. eapply (one_woken_step T s t x); try done. unfold signal_ends. case_bool_decide; done.
  - destruct (terminate_thread_ok _ t x (fo_waits _ _ HF) Hx) as (W1 & n1 & E1 & HW & HO). rewrite E in E1. injection E1 as <- <-. eapply (one_woken_step T s t x); try done. by case_bool_decide.
  - destruct (expire_ok _ now (fo_waits _ _ HF)) as (W1 & E1 & HW & HO). rewrite E in E1. injection E1 as <-. eapply (futex_woke_step T s); try done.
    intros t x [_ Ht]%list_elem_of_filter Hx. split; [|done]. by eapply (timed_sleeps _ t x (fo_waits _ _ HF)).
Qed.

Lemma fexec_ok T s : fexec T s -> futex_ok T s.
Proof. induction 1 as [s Hf|s s' _ IH Hst]; [by apply ffresh_ok|by eapply fstep_ok]. Qed.
