(* ===== verification/FutexTheorems.v ===== *)
(** * Futexes: the theorems *)
From S2P Require Import Prelude Scheduler Wait WaitInv WaitSystem WaitTheorems Ktime Futex FutexSystem FutexSteps.

(** Every part of a wait and every wake-up returns. *)
Definition futex_parts_return (s : fsys) : Prop :=
  (forall t x r key expected bitset word, f_threads s !! t = Some x -> w_state x = THREAD_RUNNING -> f_phase s !! t = Some (FPrepared key expected bitset) -> f_lock s = None ->
     exists F r' e, futex_wait_locked (f_table s) t r key word expected bitset = Ret (F, r', e) /\ forall i, e = inr i -> exists v, futex_wait_finish F t r' WAIT_QUEUE_TIMEOUT = Ret v) /\
  (forall t x r i seq deadline, f_threads s !! t = Some x -> w_state x = THREAD_RUNNING -> f_phase s !! t = Some (FEntered i seq deadline) ->
     exists v, futex_wait_finish (f_table s) t r WAIT_QUEUE_INTERRUPTED = Ret v) /\
  (forall t x r i seq deadline, f_threads s !! t = Some x -> w_state x = THREAD_RUNNING -> f_phase s !! t = Some (FChecked i seq deadline) ->
     exists W e, sleep_queue (f_waits (f_table s)) t (slot_at i) deadline WAIT_SIGNAL_INTERRUPTIBLE seq = Ret (W, e) /\
       (e = SleepInterrupted -> exists v, futex_wait_finish (table_with (f_table s) W) t r WAIT_QUEUE_INTERRUPTED = Ret v)) /\
  (forall t x r, f_threads s !! t = Some x -> w_state x = THREAD_RUNNING -> f_phase s !! t = Some FBlocked -> f_lock s = None ->
     exists W e, sleep_resume (f_waits (f_table s)) t = Ret (W, e) /\ forall result, e = Some result -> exists v, futex_wait_finish (table_with (f_table s) W) t r result = Ret v) /\
  (forall key count bitset, exists v, futex_wake (f_table s) key count bitset = Ret v) /\
  (forall source destination wake_count requeue_count compare word, exists v, futex_requeue (f_table s) source destination wake_count requeue_count compare word = Ret v).

Lemma finish_returns T s F t y r result : futex_ok T (move_to s F t FDead None) -> w_threads (f_waits F) !! t = Some y -> w_state y <> THREAD_SLEEPING -> exists v, futex_wait_finish F t r result = Ret v.
Proof.
  intros HF Hy Hs. destruct (finish_step T (move_to s F t FDead None) t y FDead r result) as (F1 & r1 & v & E & _); try done; [cbn; apply lookup_insert_eq|by left|]. eauto.
Qed.

Lemma wait_locked_returns T s t x r key expected bitset word : futex_ok T s -> f_threads s !! t = Some x -> exists F r' e, futex_wait_locked (f_table s) t r key word expected bitset = Ret (F, r', e).
Proof.
  intros HF Hx. unfold futex_wait_locked. destruct word; [|eauto]. destruct (negb _); [eauto|]. destruct (futex_slot_get_locked (f_table s) key) as [[F j]|] eqn:Eg; [|eauto].
  destruct (take_get T s key F j HF Eg) as (sj & Hj & -> & _). erewrite rd_Ret by (cbn; apply list_lookup_insert_eq; by eapply lookup_lt_Some). cbn [mbind outcome_bind f_waits]. unfold get_thread. fold (f_threads s). rewrite Hx. cbn. eauto.
Qed.

Lemma futex_parts_ok T s : futex_ok T s -> futex_parts_return s.
Proof.
  intros HF. unfold futex_parts_return. split_and!.
  - intros t x r key expected bitset word Hx Hs Hp Hl. destruct (wait_locked_returns T s t x r key expected bitset word HF Hx) as (F & r' & e & E). exists F, r', e. split; [done|]. intros i ->.
    destruct (futex_take_step T s t x key expected bitset word F i FDead None r r') as [HF1 EW]; try done; [by left|]. eapply (finish_returns T s F t); [done|rewrite EW; apply lookup_insert_eq|cbn; congruence].
  - intros t x r i seq deadline Hx Hs Hp. destruct (finish_step T s t x _ r WAIT_QUEUE_INTERRUPTED HF Hx Hp) as (F1 & ? & ? & E1 & _); [done|congruence|right; by apply (lock_of T s t x _ HF Hx Hp)|]. eauto.
  - intros t x r i seq deadline Hx Hs Hp. destruct (sleep_step T s t x HF Hx Hs i seq deadline Hp) as (W & e & E & H). exists W, e. split; [done|]. intros ->. destruct H as (HF1 & y & Hy & Hys). by eapply finish_returns.
  - intros t x r Hx Hs Hp Hl. destruct (resume_step T s t x HF Hx Hs Hp Hl) as (W & e & E & HF1 & y & Hy & Hys). exists W, e. split; [done|]. intros result _. by eapply finish_returns.
  - intros key count bitset. unfold futex_wake. destruct (_ || _); [eauto|]. destruct key as [e|key]; [eauto|]. destruct (wake_key_ok T s key count bitset HF) as (F & n & -> & _). eauto.
  - intros source destination wake_count requeue_count compare word. unfold futex_requeue. destruct (_ || _); [eauto|]. destruct source as [e|source], destination as [e'|destination]; eauto.
    destruct (futex_key_equal source destination) eqn:Ek; [eauto|]. assert (Hne : source <> destination) by (intros E%key_equal_iff; congruence).
    destruct (requeue_locked_ok T s source destination wake_count requeue_count HF Hne) as (F & n & E & _). destruct compare, word; rewrite ?E; try destruct (negb _); eauto.
Qed.

(** In every run of waits, wake-ups, moves, signals, deadlines and requests to exit no part of a futex call panics or
    faults: a waiter never loses its slot, no slot is put that is not held, a slot whose count drops to zero has no
    sleeper, and the counts of a move are always there. *)
Theorem futex_calls_safe T s : fexec T s -> futex_parts_return s.
Proof. intros H%fexec_ok. by eapply futex_parts_ok. Qed.

(** C7: In every run the count of each of the 128 slots is the number of threads that hold it, a slot is active exactly
    when its count is not zero, no two active slots have the same key, and a thread asleep on the queue of a slot holds
    that slot. *)
Theorem futex_accounting T s : fexec T s ->
  length (f_slots (f_table s)) = 128%nat /\
  (forall i r, f_slots (f_table s) !! i = Some r -> fs_waiters r = Z.of_nat (length (filter (fun t => held s t = slot_at i) T)) /\ fs_active r = negb (fs_waiters r =? 0)) /\
  (forall i j r r', f_slots (f_table s) !! i = Some r -> f_slots (f_table s) !! j = Some r' -> fs_active r = true -> fs_active r' = true -> fs_key r = fs_key r' -> i = j) /\
  (forall i l t, w_queues (f_waits (f_table s)) !! slot_at i = Some l -> t ∈ l -> held s t = slot_at i).
Proof.
  intros HF%fexec_ok. destruct (fo_slots _ _ HF) as [S1 S2 S3 S4]. split_and!; [done|..|done|].
  - intros i r Hr. split; [by apply S2|by apply (S3 i)].
  - intros i l t Hl Ht. by destruct (sleeper_holds T s i l t HF Hl Ht) as (x & _ & _ & _ & ? & _).
Qed.

(** The threads asleep for a key, by the keys that the active slots carry: those in the wait queue of every such slot, in
    the order in which they went to sleep or were moved there. *)
Definition sleepers (F : futexes) (key : futex_key) : list Z :=
  concat (imap (fun i s => if bool_decide (fs_active s = true /\ fs_key s = key) then default [] (w_queues (f_waits F) !! slot_at i) else []) (f_slots F)).

Lemma concat_imap_nil {A B} (f : nat -> A -> list B) l : (forall i x, l !! i = Some x -> f i x = []) -> concat (imap f l) = [].
Proof.
  revert f. induction l as [|x l IH]; intros f H; [done|]. rewrite imap_cons. cbn [concat]. rewrite (H 0%nat x eq_refl). apply IH. intros i y Hy. exact (H (S i) y Hy).
Qed.
Lemma concat_imap_one {A B} (f : nat -> A -> list B) l i x : l !! i = Some x -> (forall j y, l !! j = Some y -> j <> i -> f j y = []) -> concat (imap f l) = f i x.
Proof.
  revert f i. induction l as [|z l IH]; intros f i Hi H; [done|]. rewrite imap_cons. cbn [concat]. destruct i as [|i].
  - injection Hi as <-. rewrite concat_imap_nil; [apply app_nil_r|]. intros j y Hy. by apply (H (S j) y).
  - rewrite (H 0%nat z eq_refl) by done. apply (IH (f ∘ S) i Hi). intros j y Hy Hj. apply (H (S j) y Hy). lia.
Qed.

(** The search finds the one slot of the key, or there is none. *)
Lemma sleepers_found T h F key : slots_ok T h (f_slots F) ->
  sleepers F key = match futex_slot_find_locked F key with Some i => default [] (w_queues (f_waits F) !! slot_at i) | None => [] end.
Proof.
  intros HS. unfold sleepers. pose proof (find_ok F key) as HF. destruct (futex_slot_find_locked F key) as [i|].
  - destruct HF as (s & Hs & Ha & Hk). rewrite (concat_imap_one _ _ i s Hs); [by rewrite bool_decide_true|].
    intros j y Hy Hj. rewrite bool_decide_false; [done|]. intros [Hya Hyk].
    apply Hj, (sl_keys _ _ _ HS j i y s Hy Hs Hya Ha). congruence.
  - apply concat_imap_nil. intros i s Hs. rewrite bool_decide_false; [done|]. intros [Ha Hk]. exact (HF i s Hs Ha Hk).
Qed.

(** C22: [futex_wake] wakes exactly the first [count] threads asleep in a slot that carries the key whose bits match, in
    the order of the queue, no thread of another key, and returns how many there were; the slots keep their counts until the threads have run.  With the bits of
    [FUTEX_WAKE] those are the first [count] of all. *)
Theorem futex_wake_exact T s key count bitset : fexec T s -> 0 <= count -> bitset <> 0 ->
  let sel := take (Z.to_nat count) (filter (matches (f_waits (f_table s)) bitset) (sleepers (f_table s) key)) in
  exists F, futex_wake (f_table s) (inr key) count bitset = Ret (F, Z.of_nat (length sel)) /\ f_slots F = f_slots (f_table s) /\ woke (f_waits (f_table s)) (f_waits F) sel 0.
Proof.
  intros HF%fexec_ok Hc Hb. unfold futex_wake, futex_wake_key_locked. rewrite (sleepers_found _ _ _ _ (fo_slots _ _ HF)), (proj2 (Z.ltb_ge count 0)) by done. unfold truth. rewrite (proj2 (Z.eqb_neq bitset 0)) by done. cbn [negb orb].
  pose proof (find_ok (f_table s) key) as Hfind. destruct (futex_slot_find_locked (f_table s) key) as [i|].
  - destruct Hfind as (si & Hi & _). destruct (fo_queue _ _ HF i) as [l Hl]; [rewrite <-(sl_length _ _ _ (fo_slots _ _ HF)); by eapply lookup_lt_Some|].
    destruct (wake_mask_ok _ _ l count bitset (fo_waits _ _ HF) Hl) as (W & -> & HW & HO). cbn [mbind outcome_bind]. rewrite decide_False in * by done. rewrite Hl. cbn [default]. eexists. split; [done|]. done.
  - rewrite filter_nil, take_nil. eexists. split; [done|]. split; [done|]. apply woke_nil.
Qed.

(** A wait begins only when the word still has the expected value, and then the thread holds a slot for exactly its
    key: a word that cannot be read gives [-EFAULT], another value [-EAGAIN], and [-ENOMEM] comes only when all 128 slots
    are taken by other keys; in those cases nothing changes. *)
Theorem futex_wait_begins T s t x r key word expected bitset : fexec T s -> f_threads s !! t = Some x ->
  match futex_wait_locked (f_table s) t r key word expected bitset with
  | Ret (F, _, inl e) => F = f_table s /\
      (e = - LINUX_EFAULT /\ word = None \/ e = - LINUX_EAGAIN /\ (exists v, word = Some v /\ v <> expected) \/
       e = - LINUX_ENOMEM /\ word = Some expected /\ forall i, (i < 128)%nat -> exists q, f_slots (f_table s) !! i = Some q /\ fs_active q = true /\ fs_key q <> key)
  | Ret (F, _, inr i) => word = Some expected /\ futex_slot_find_locked (f_table s) key ∈ [Some i; None] /\ w_threads (f_waits F) !! t = Some (set_private x (slot_at i) bitset) /\
      exists q, f_slots F !! i = Some q /\ fs_active q = true /\ fs_key q = key
  | _ => False
  end.
Proof.
  intros HF%fexec_ok Hx. destruct (fo_slots _ _ HF) as [S1 S2 S3 S4]. unfold futex_wait_locked. destruct word as [v|]; [|by split; [|left]].
  destruct (Z.eqb_spec v expected) as [->|Hv]; cbn [negb]; [|split; [done|]; right; left; eauto]. destruct (futex_slot_get_locked (f_table s) key) as [[F j]|] eqn:Eg.
  - destruct (take_get T s key F j HF Eg) as (sj & Hj & -> & _). assert (Hjl := lookup_lt_Some _ _ _ Hj). erewrite rd_Ret by (cbn; by apply list_lookup_insert_eq). cbn [mbind outcome_bind f_waits].
    unfold get_thread. fold (f_threads s). rewrite Hx. cbn. split_and!; [done|..].
    + unfold futex_slot_get_locked in Eg. destruct (futex_slot_find_locked (f_table s) key); [injection Eg as _ ->|]; set_solver.
    + apply lookup_insert_eq.
    + eexists. split; [by apply list_lookup_insert_eq; rewrite length_insert|done].
  - split; [done|]. right; right. split_and!; try done. pose proof (get_ok (f_table s) key) as HG. rewrite Eg in HG. destruct HG as [Ha Hk]. intros i Hi.
    destruct (lookup_lt_is_Some_2 (f_slots (f_table s)) i) as [q Hq]; [by rewrite S1|]. exists q. eauto.
Qed.

(** ** Threads that exit out of a wait *)

Section dead.
  Context (T : list Z) (s : fsys) (t : Z) (x : waiter).
  Context (HF : futex_ok T s) (Hp : f_phase s !! t = Some FDead) (Hx : f_threads s !! t = Some x).

(** The thread is where it was and holds what it held. *)
Definition still_dead (s' : fsys) : Prop := f_phase s' !! t = Some FDead /\ exists y, f_threads s' !! t = Some y /\ wait_private y = wait_private x.

Lemma dead_awake : w_state x <> THREAD_SLEEPING.
Proof. intros Hs. destruct (fo_phase _ _ HF t x _ Hx Hp) as (_ & P2 & _). by destruct (P2 Hs). Qed.

Lemma dead_other F u p p' lock : f_phase s !! u = Some p -> p <> FDead -> (t <> u -> w_threads (f_waits F) !! t = f_threads s !! t) -> still_dead (move_to s F u p' lock).
Proof.
  intros Hu Hd HT. assert (t <> u) by congruence. split; [cbn; by rewrite lookup_insert_ne|]. exists x. split; [unfold f_threads; cbn; by rewrite HT|done].
Qed.
Lemma dead_calm F lock : calm (f_waits (f_table s)) (f_waits F) -> still_dead (MkF F (f_phase s) lock).
Proof. intros HC. split; [done|]. exists x. split; [|done]. apply HC; [done|apply dead_awake]. Qed.
Lemma dead_put u y z : f_threads s !! u = Some y -> wait_private z = wait_private y -> still_dead (MkF (table_with (f_table s) (put_thread (f_waits (f_table s)) u z)) (f_phase s) (f_lock s)).
Proof.
  intros Hu Hz. split; [done|]. unfold f_threads. cbn [f_table table_with f_waits]. rewrite put_lookup. case_decide as E; [subst u; exists z; split; congruence|]. by exists x.
Qed.

Lemma wait_locked_others F u r0 r1 key word expected bitset F' e : futex_wait_locked F u r0 key word expected bitset = Ret (F', r1, e) -> t <> u -> w_threads (f_waits F') !! t = w_threads (f_waits F) !! t.
Proof.
  unfold futex_wait_locked. destruct word; [|by intros [= <- _ _]]. destruct (negb _); [by intros [= <- _ _]|]. pose proof (get_ok F key) as HG. destruct (futex_slot_get_locked F key) as [[F1 i]|]; [|by intros [= <- _ _]].
  destruct HG as [EW _]. intros (sl & _ & E)%bind_Ret Hne. apply bind_Ret in E as (y & _ & E). injection E as <- _ _. cbn. by rewrite lookup_insert_ne, EW by done.
Qed.
Lemma finish_others F u r0 r1 result F' v : futex_wait_finish F u r0 result = Ret (F', r1, v) -> t <> u -> w_threads (f_waits F') !! t = w_threads (f_waits F) !! t.
Proof.
  unfold futex_wait_finish. intros (y & _ & E)%bind_Ret Hne. destruct (negb _); [done|]. apply bind_Ret in E as (F1 & E1 & E). injection E as <- _ _. cbn. rewrite lookup_insert_ne by done.
  unfold futex_slot_put_locked in E1. apply bind_Ret in E1 as (sl & _ & E1). destruct (_ || _); [done|]. destruct (truth _); [by injection E1 as <-|]. apply bind_Ret in E1 as (b & _ & E1). destruct (negb b); [done|]. by injection E1 as <-.
Qed.
Lemma sleep_others u y i seq deadline W e : f_threads s !! u = Some y -> w_state y = THREAD_RUNNING -> f_phase s !! u = Some (FChecked i seq deadline) ->
  sleep_queue (f_waits (f_table s)) u (slot_at i) deadline WAIT_SIGNAL_INTERRUPTIBLE seq = Ret (W, e) -> t <> u -> w_threads W !! t = f_threads s !! t.
Proof.
  intros Hu Hs Hup E Hne. destruct (fo_phase _ _ HF u y _ Hu Hup) as (_ & _ & P3 & P4 & _). destruct (P3 eq_refl) as (j & Hj & Ej). rewrite P4 in Ej. apply slot_at_inj in Ej as <-.
  destruct (fo_queue _ _ HF i Hj) as [l Hl]. destruct (sleep_queue_ok _ u y (slot_at i) l deadline WAIT_SIGNAL_INTERRUPTIBLE seq (fo_waits _ _ HF) Hu Hs Hl) as (W1 & e1 & E1 & _ & HR).
  rewrite E in E1. injection E1 as <- <-. destruct e; cbn in HR; [destruct HR as (_ & _ & ts & ->)|destruct HR as (_ & _ & _ & ->)|destruct HR as (_ & ->)]; cbn; by rewrite lookup_insert_ne.
Qed.
Lemma resume_others W u W' r : sleep_resume W u = Ret (W', r) -> t <> u -> w_threads W' !! t = w_threads W !! t.
Proof.
  unfold sleep_resume. intros (y & _ & E)%bind_Ret Hne. destruct (_ || _); [done|]. destruct (_ =? _); [destruct (negb _); [done|]|]; injection E as <- _; cbn; by rewrite lookup_insert_ne.
Qed.
Lemma one_woken_calm W u y b r W' n : f_threads s !! u = Some y -> W = f_waits (f_table s) -> one_woken W u y b r W' n -> (b = true -> w_state y = THREAD_SLEEPING) -> calm W W'.
Proof.
  intros Hu -> HO Hb. destruct b; cbn in HO; destruct HO as [_ HO]; [|subst; apply calm_refl]. eapply woke_calm; [done|]. intros v z ->%list_elem_of_singleton Hz. unfold f_threads in Hu. rewrite Hu in Hz. injection Hz as <-. auto.
Qed.

Lemma fstep_dead s' : fstep s s' -> still_dead s'.
Proof.
  intros Hst. destruct Hst as [u key expected bitset Hu|u y key expected bitset word F e r0 r1 Hy Hs Hu Hl E|u y key expected bitset word F i F' r r0 r1 r2 Hy Hs Hu Hl E E'|u y key expected bitset word F i deadline seq r0 r1 Hy Hs Hu Hl E E'
    |u y i seq deadline Hy Hs Hu E|u y i seq deadline F r r1 r2 Hy Hs Hu E E'|u y i seq deadline W Hy Hs Hu E|u y i seq deadline W F r r1 r2 Hy Hs Hu E E'|u y i seq deadline W Hy Hs Hu E|u y W result F r r1 r2 Hy Hs Hu Hl E E'|u y W Hy Hs Hu Hl E
    |key count bitset F n Hl E|source destination wake_count requeue_count F n Hl Hne E|u y st Hy Hs Hst|u y n m f g e Hy He|u fatal W n E|u y W n Hy He E|now W E].
  - by eapply dead_other.
  - eapply dead_other; [done|done|]. by eapply wait_locked_others.
  - eapply dead_other; [done|done|]. intros Hne. rewrite (finish_others _ _ _ _ _ _ _ E' Hne). by eapply wait_locked_others.
  - destruct seq; (eapply dead_other; [done|done|]; by eapply wait_locked_others).
  - by eapply dead_other.
  - eapply dead_other; [done|done|]. by eapply finish_others.
  - eapply dead_other; [done|done|]. by eapply sleep_others.
  - eapply dead_other; [done|done|]. intros Hne. rewrite (finish_others _ _ _ _ _ _ _ E' Hne). by eapply sleep_others.
  - eapply dead_other; [done|done|]. by eapply sleep_others.
  - eapply dead_other; [done|done|]. intros Hne. rewrite (finish_others _ _ _ _ _ _ _ E' Hne). by eapply resume_others.
  - eapply dead_other; [done|done|]. by eapply resume_others.
  - destruct (wake_key_ok T s key count bitset HF) as (F1 & n1 & E1 & _ & HC). rewrite E in E1. injection E1 as <- <-. by apply dead_calm.
  - destruct (requeue_locked_ok T s source destination wake_count requeue_count HF Hne) as (F1 & n1 & E1 & _ & HC). rewrite E in E1. injection E1 as <- <-. by apply dead_calm.
  - by eapply dead_put.
  - by eapply dead_put.
  - apply bind_Ret in E as Hy. destruct Hy as (y & Hy%thread_there & _). destruct (signal_thread_ok _ u y fatal (fo_waits _ _ HF) Hy) as (W1 & n1 & E1 & _ & HO). rewrite E in E1. injection E1 as <- <-.
    apply dead_calm. eapply one_woken_calm; [done|done|done|]. unfold signal_ends. by case_bool_decide.
  - destruct (terminate_thread_ok _ u y (fo_waits _ _ HF) Hy) as (W1 & n1 & E1 & _ & HO). rewrite E in E1. injection E1 as <- <-. apply dead_calm. eapply one_woken_calm; [done|done|done|]. by case_bool_decide.
  - destruct (expire_ok _ now (fo_waits _ _ HF)) as (W1 & E1 & _ & HO). rewrite E in E1. injection E1 as <-. apply dead_calm. eapply woke_calm; [done|]. intros u y [_ Hu]%list_elem_of_filter Hy.
    by eapply (timed_sleeps _ u y (fo_waits _ _ HF)).
Qed.
End dead.

Lemma later_dead T s s' t x : fexec T s -> rtc fstep s s' -> f_phase s !! t = Some FDead -> f_threads s !! t = Some x -> fexec T s' /\ still_dead t x s'.
Proof.
  intros HE Hst. revert x. induction Hst as [s|s s1 s' H1 Hst IH]; intros x Hp Hx; [split; [done|]; split; [done|]; by exists x|].
  destruct (fstep_dead T s t x (fexec_ok _ _ HE) Hp Hx s1 H1) as (Hp1 & y & Hy & Ey). destruct (IH (fe_step T s s1 HE H1) y Hp1 Hy) as (HE' & Hp' & z & Hz & Ez). split; [done|]. split; [done|]. exists z. split; congruence.
Qed.

Lemma dead_slot T s t : futex_ok T s -> f_phase s !! t = Some FDead -> exists i r, held s t = slot_at i /\ f_slots (f_table s) !! i = Some r /\ fs_active r = true /\ 1 <= fs_waiters r.
Proof.
  intros HF Hp. assert (HtT : t ∈ T) by (apply (fo_dom _ _ HF); by eexists). destruct (proj1 (fo_threads _ _ HF t) HtT) as [x Hx]. destruct (fo_phase _ _ HF t x _ Hx Hp) as (_ & _ & P3 & _). destruct (P3 eq_refl) as (i & Hi & Ei).
  assert (Hh : held s t = slot_at i) by (unfold held; by rewrite Hp, Hx). destruct (fo_slots _ _ HF) as [S1 S2 S3 _]. destruct (lookup_lt_is_Some_2 (f_slots (f_table s)) i) as [r Hr]; [by rewrite S1|].
  exists i, r. pose proof (refs_pos T (held s) t _ HtT Hh) as Hpos. rewrite <-(S2 i r Hr) in Hpos. split_and!; try done. rewrite (S3 i r Hr). unfold truth. by rewrite (proj2 (Z.eqb_neq _ 0)) by lia.
Qed.

(** C23: A thread that is made to exit while it waits for a futex never gives its slot back: whatever happens afterwards,
    the slot stays active.  When that happened to all 128 slots, every wait for a key without a slot fails with
    [-ENOMEM] from then on, although no thread waits. *)
Theorem futex_exit_leaks_slot T s s' : fexec T s -> rtc fstep s s' ->
  (forall t, f_phase s !! t = Some FDead -> exists i r, held s t = slot_at i /\ held s' t = slot_at i /\ f_slots (f_table s') !! i = Some r /\ fs_active r = true) /\
  ((forall i, (i < 128)%nat -> exists t, f_phase s !! t = Some FDead /\ held s t = slot_at i) ->
   forall t r key expected bitset, futex_slot_find_locked (f_table s') key = None -> futex_wait_locked (f_table s') t r key (Some expected) expected bitset = Ret (f_table s', r, inl (- LINUX_ENOMEM))).
Proof.
  intros HE Hst. assert (H1 : forall t, f_phase s !! t = Some FDead -> exists i r, held s t = slot_at i /\ held s' t = slot_at i /\ f_slots (f_table s') !! i = Some r /\ fs_active r = true).
  { intros t Hp. destruct (dead_slot T s t (fexec_ok _ _ HE) Hp) as (i & _ & Hh & _). assert (HtT : t ∈ T) by (apply (fo_dom _ _ (fexec_ok _ _ HE)); by eexists).
    destruct (proj1 (fo_threads _ _ (fexec_ok _ _ HE) t) HtT) as [x Hx]. destruct (later_dead T s s' t x HE Hst Hp Hx) as (HE' & Hp' & y & Hy & Ey).
    assert (Hh' : held s' t = held s t) by (unfold held; by rewrite Hp, Hp', Hx, Hy). destruct (dead_slot T s' t (fexec_ok _ _ HE') Hp') as (j & r & Hj & Hr & Ha & _).
    exists j, r. split_and!; congruence. }
  split; [done|]. intros Hall t r key expected bitset Hfind. unfold futex_wait_locked. rewrite Z.eqb_refl. cbn [negb]. unfold futex_slot_get_locked. rewrite Hfind.
  assert (HF' : futex_ok T s') by (clear - HE Hst; induction Hst as [|s s1 s' Hs1 Hst IH]; [by apply fexec_ok|apply IH; by eapply fe_step]).
  pose proof (slot_search_ok (fun q => negb (fs_active q)) (f_slots (f_table s')) 0) as HS. destruct (slot_search _ _ _) as [i|]; [|done]. destruct HS as (_ & q & Hq & Hn). rewrite Nat.sub_0_r in Hq.
  destruct (Hall i) as (u & Hu & Hi); [rewrite <-(sl_length _ _ _ (fo_slots _ _ HF')); by eapply lookup_lt_Some|]. destruct (H1 u Hu) as (j & q' & Hj & _ & Hq' & Ha). rewrite Hi in Hj. apply slot_at_inj in Hj as <-.
  rewrite Hq in Hq'. injection Hq' as <-. by rewrite Ha in Hn.
Qed.

(** ** Restarts *)

(** A wait with a relative timeout that a signal interrupts keeps its deadline: when the system call is restarted, at
    once or by the return from a handler, with the arguments it had, it sleeps until the deadline of the first call,
    and returns [-ETIMEDOUT] if that has passed.  A call with other arguments starts anew. *)
Theorem futex_restart_keeps_deadline epc address private expected timeout_address bitset now frequency milliseconds r through_handler key timeout now' :
  timeout_address <> 0 -> bitset <> 0 ->
  let '(r1, _) := futex_sleep_until r epc address private expected timeout_address bitset now frequency (Relative milliseconds) in
  let deadline := futex_deadline now frequency milliseconds in
  let r2 := futex_restart_signal r1 through_handler in
  let r3 := if through_handler : bool then futex_restart_sigreturn r2 (epc -64 4) LINUX_SYS_futex address else r2 in
  (exists r4, futex_wait_begin r3 epc address private expected timeout_address bitset false (inr key) timeout now' = (r4, inr (key, Restarted deadline)) /\
     futex_sleep_until r4 epc address private expected timeout_address bitset now' frequency (Restarted deadline) = (r4, if deadline <=? now' then None else Some deadline)) /\
  (forall epc' address' private' expected' timeout_address' bitset', timeout_address' <> 0 -> bitset' <> 0 ->
     (epc' -64 4, address', private', expected', timeout_address', bitset') <> (epc -64 4, address, private, expected, timeout_address, bitset) ->
     (futex_wait_begin r3 epc' address' private' expected' timeout_address' bitset' false (inr key) timeout now').1 = futex_restart_cancel).
Proof.
  intros Hta Hb. cbn [futex_sleep_until]. cbv zeta. set (deadline := futex_deadline now frequency milliseconds).
  set (r3 := if through_handler then _ else _). assert (Er3 : r3 = MkRestart true false true private (epc -64 4) address timeout_address deadline expected bitset).
  { unfold r3, futex_restart_sigreturn. destruct through_handler; [cbn|done]. by rewrite !Z.eqb_refl. }
  split.
  - rewrite Er3. unfold futex_wait_begin, truth. rewrite (proj2 (Z.eqb_neq bitset 0)), (proj2 (Z.eqb_neq timeout_address 0)) by done. cbn [negb andb]. unfold futex_restart_take. cbn. rewrite !Z.eqb_refl, eqb_reflx. cbn. eauto.
  - intros epc' address' private' expected' timeout_address' bitset' Hta' Hb' Hne. rewrite Er3. unfold futex_wait_begin, truth. rewrite (proj2 (Z.eqb_neq bitset' 0)), (proj2 (Z.eqb_neq timeout_address' 0)) by done. cbn [negb andb].
    unfold futex_restart_take. cbn [r_active r_resume r_epc r_address r_private r_expected r_timeout_address r_bitset andb].
    destruct (_ && _) eqn:E; [|by destruct (futex_relative_timeout _ _); cbn]. rewrite !andb_true_iff, !Z.eqb_eq, eqb_true_iff in E. destruct E as (((((E1 & E2) & E3) & E4) & E5) & E6). exfalso. apply Hne. congruence.
Qed.

(** * Futexes: an example

    A thread waits for a futex and is made to exit; with it the theorems are
    applied to states that are reached. *)

(** Thread 5 and the table of [futex_init]. *)
Definition futex_queues : gmap Z (list Z) := gset_to_gmap [] (list_to_set (slot_at <$> seq 0 128)).
Definition futex_start : fsys := MkF (MkFutexes (MkWaits {[5 := idle_waiter]} futex_queues []) (replicate 128 (MkFutexSlot (MkKey 0 0 false) 0 false))) {[5 := FOutside]} None.
Definition word_key : futex_key := MkKey 3 4096 false.
Definition prepared : fsys := move_to futex_start (f_table futex_start) 5 (FPrepared word_key 1 UINT32_MAX) None.
Definition locked_wait := futex_wait_locked (f_table prepared) 5 futex_restart_cancel word_key (Some 1) 1 UINT32_MAX.
Definition taken : futexes := match locked_wait with Ret (F, _, _) => F | _ => f_table prepared end.
Definition entered : fsys := move_to prepared taken 5 (FEntered 0 0 0) (Some 5).
Definition looked : fsys := move_to entered taken 5 (FChecked 0 0 0) (Some 5).
Definition asleep : fsys := move_to looked (table_with taken (state_or (f_waits taken) (sleep_queue (f_waits taken) 5 1 0 WAIT_SIGNAL_INTERRUPTIBLE 0))) 5 FBlocked None.
Definition futex_sleeper : waiter := asleep_thread (set_private idle_waiter 1 UINT32_MAX) 1 0 WAIT_SIGNAL_INTERRUPTIBLE.
(** Its process exits. *)
Definition doomed : waiter := set_signals futex_sleeper 0 0 false false true.
Definition requested : fsys := MkF (table_with (f_table asleep) (put_thread (f_waits (f_table asleep)) 5 doomed)) (f_phase asleep) None.
Definition killed : fsys := MkF (table_with (f_table requested) (state_or (f_waits (f_table requested)) (wait_queue_terminate_thread (f_waits (f_table requested)) 5))) (f_phase requested) None.
Definition runs : waiter := woken_thread doomed WAIT_QUEUE_TERMINATED.
Definition running : fsys := MkF (table_with (f_table killed) (put_thread (f_waits (f_table killed)) 5 (set_state runs THREAD_RUNNING))) (f_phase killed) None.
Definition exited : fsys := move_to running (table_with (f_table running) (state_or (f_waits (f_table running)) (sleep_resume (f_waits (f_table running)) 5))) 5 FDead None.

Lemma futex_start_fresh : ffresh [5] futex_start.
Proof.
  split; [split|..]; cbn [futex_start f_table f_waits s_waits w_threads w_queues w_timeouts s_posts s_exits s_phase f_phase f_lock f_slots]; try done.
  - intros q l [_ ->]%lookup_gset_to_gmap_Some. done.
  - intros t x [<- <-]%lookup_singleton_Some. cbn. split_and!; try done. set_solver.
  - intros t. apply lookup_fmap.
  - apply NoDup_singleton.
  - intros t. unfold FutexSystem.f_threads. cbn. rewrite list_elem_of_singleton. destruct (decide (t = 5)) as [->|]; [by rewrite lookup_singleton_eq|]. rewrite lookup_singleton_ne by done. split; [done|by intros [? ?]].
  - intros t. unfold FutexSystem.f_threads. cbn. destruct (decide (t = 5)) as [->|]; [by rewrite !lookup_singleton_eq|]. by rewrite !lookup_singleton_ne.
  - intros i Hi. exists []. apply lookup_gset_to_gmap_Some. split; [|done]. apply elem_of_list_to_set, list_elem_of_fmap. exists i. split; [done|]. apply elem_of_seq. lia.
Qed.

Lemma prepared_run : fexec [5] prepared.
Proof. apply (fe_step _ futex_start); [apply fe_start, futex_start_fresh|]. apply (fs_prepare futex_start 5 word_key 1 UINT32_MAX); vm_compute; reflexivity. Qed.
Lemma asleep_run : fexec [5] asleep.
Proof.
  apply (fe_step _ looked); [|apply (fs_sleep looked 5 (set_private idle_waiter 1 UINT32_MAX) 0 0 0); vm_compute; reflexivity].
  apply (fe_step _ entered); [|apply (fs_check entered 5 (set_private idle_waiter 1 UINT32_MAX) 0 0 0); vm_compute; reflexivity].
  apply (fe_step _ prepared); [|apply (fs_enter prepared 5 idle_waiter word_key 1 UINT32_MAX (Some 1) taken 0 0 (Some 0) futex_restart_cancel futex_restart_cancel); vm_compute; reflexivity].
  apply prepared_run.
Qed.
Lemma exited_run : fexec [5] exited.
Proof.
  apply (fe_step _ running); [|apply (fs_exit running 5 (set_state runs THREAD_RUNNING)); vm_compute; reflexivity].
  apply (fe_step _ killed); [|apply (fs_switch killed 5 runs THREAD_RUNNING); [vm_compute; reflexivity|cbn; set_solver..]].
  apply (fe_step _ requested); [|eapply (fs_terminate requested 5 doomed); vm_compute; reflexivity].
  apply (fe_step _ asleep); [apply asleep_run|]. apply (fs_flags asleep 5 futex_sleeper 0 0 false false true); [vm_compute; reflexivity|done].
Qed.

Lemma futex_calls_safe_witness : exists v, futex_wake (f_table asleep) (inr word_key) 1 UINT32_MAX = Ret v.
Proof. destruct (futex_calls_safe [5] asleep asleep_run) as (_ & _ & _ & _ & H & _). apply H. Defined.

Lemma futex_accounting_witness : exists r, f_slots (f_table asleep) !! 0%nat = Some r /\ fs_waiters r = 1 /\ fs_active r = true.
Proof.
  destruct (futex_accounting [5] asleep asleep_run) as (_ & H & _). eexists. split; [vm_compute; reflexivity|].
  edestruct (H 0%nat) as [E _]; [vm_compute; reflexivity|]. split; [rewrite E; vm_compute; reflexivity|reflexivity].
Defined.

Lemma futex_wake_exact_witness : exists F, futex_wake (f_table asleep) (inr word_key) 7 1 = Ret (F, 1).
Proof. destruct (futex_wake_exact [5] asleep word_key 7 1 asleep_run) as (F & E & _); [lia|done|]. exists F. rewrite E. vm_compute. reflexivity. Defined.

Lemma futex_wait_begins_witness : exists q, f_slots taken !! 0%nat = Some q /\ fs_active q = true /\ fs_key q = word_key.
Proof.
  pose proof (futex_wait_begins [5] prepared 5 idle_waiter futex_restart_cancel word_key (Some 1) 1 UINT32_MAX prepared_run eq_refl) as H. fold locked_wait in H.
  replace locked_wait with (Ret (taken, futex_restart_cancel, inr 0%nat) : outcome (futexes * futex_restart * (Z + nat))) in H by (vm_compute; reflexivity). destruct H as (_ & _ & _ & H). exact H.
Defined.

Lemma futex_exit_leaks_slot_witness : exists r, f_slots (f_table exited) !! 0%nat = Some r /\ fs_active r = true.
Proof.
  destruct (futex_exit_leaks_slot [5] exited exited exited_run (rtc_refl _ _)) as [H _]. destruct (H 5) as (i & r & Hh & _ & Hr & Ha); [vm_compute; reflexivity|].
  assert (E : slot_at 0 = slot_at i) by (rewrite <-Hh; vm_compute; reflexivity). apply slot_at_inj in E as <-. exists r. exact (conj Hr Ha).
Defined.

Lemma futex_restart_keeps_deadline_witness : exists r, futex_wait_begin (futex_restart_signal (futex_restart_set 100 8192 true 1 4096 UINT32_MAX (futex_deadline 50 1000 20)) false) 100 8192 true 1 4096 UINT32_MAX false (inr word_key) None 60 =
  (r, inr (word_key, Restarted 70)).
Proof.
  destruct (futex_restart_keeps_deadline 100 8192 true 1 4096 UINT32_MAX 50 1000 20 futex_restart_cancel false word_key None 60) as [(r & E & _) _]; [done|done|]. exists r. exact E.
Defined.
