(* ===== verification/SignalFrame.v ===== *)
(** * Signals: frames

    The frame that [signal_frame_setup] of kernel/signal.c writes to the user
    stack and [sys_linux_rt_sigreturn] reads back, byte for byte, with the
    alternate signal stack and the restart of system calls. *)
From S2P Require Import Prelude Vma Scheduler Vm Signal Ktime Futex.

Definition SIGNAL_ALTSTACK_MIN : Z := 2048.
Definition LINUX_SS_ONSTACK : Z := 1.
Definition LINUX_SS_AUTODISARM : Z := 0x80000000.
Definition LINUX_SEGV_MAPERR : Z := 1.
Definition sizeof_frame : Z := 1088.
Definition frame_context : Z := 128.

(** ** Registers *)

Record trapframe := MkTrapframe {
  kernel_satp : Z; kernel_sp : Z; kernel_trap : Z; epc : Z; kernel_hartid : Z;
  ra : Z; sp : Z; gp : Z; tp : Z; t0 : Z; t1 : Z; t2 : Z; s0 : Z; s1 : Z; a0 : Z; a1 : Z; a2 : Z; a3 : Z; a4 : Z; a5 : Z; a6 : Z; a7 : Z;
  s2 : Z; s3 : Z; s4 : Z; s5 : Z; s6 : Z; s7 : Z; s8 : Z; s9 : Z; s10 : Z; s11 : Z; t3 : Z; t4 : Z; t5 : Z; t6 : Z; tf_f : list Z; tf_fcsr : Z
}.
(** [struct linux_user_regs] is the array of its 32 words, [pc] first. *)
Definition signal_regs_save (t : trapframe) : list Z :=
  [epc t; ra t; sp t; gp t; tp t; t0 t; t1 t; t2 t; s0 t; s1 t; a0 t; a1 t; a2 t; a3 t; a4 t; a5 t; a6 t; a7 t;
   s2 t; s3 t; s4 t; s5 t; s6 t; s7 t; s8 t; s9 t; s10 t; s11 t; t3 t; t4 t; t5 t; t6 t].
Definition signal_regs_restore (t : trapframe) (r : list Z) : outcome trapframe :=
  match r with
  | [pc; ra; sp; gp; tp; t0; t1; t2; s0; s1; a0; a1; a2; a3; a4; a5; a6; a7; s2; s3; s4; s5; s6; s7; s8; s9; s10; s11; t3; t4; t5; t6] =>
      Ret (MkTrapframe (kernel_satp t) (kernel_sp t) (kernel_trap t) pc (kernel_hartid t)
             ra sp gp tp t0 t1 t2 s0 s1 a0 a1 a2 a3 a4 a5 a6 a7 s2 s3 s4 s5 s6 s7 s8 s9 s10 s11 t3 t4 t5 t6 (tf_f t) (tf_fcsr t))
  | _ => Fault
  end.
Definition set_fp (t : trapframe) (f : list Z) (fcsr : Z) : trapframe :=
  MkTrapframe (kernel_satp t) (kernel_sp t) (kernel_trap t) (epc t) (kernel_hartid t) (ra t) (sp t) (gp t) (tp t) (t0 t) (t1 t) (t2 t) (s0 t) (s1 t)
    (a0 t) (a1 t) (a2 t) (a3 t) (a4 t) (a5 t) (a6 t) (a7 t) (s2 t) (s3 t) (s4 t) (s5 t) (s6 t) (s7 t) (s8 t) (s9 t) (s10 t) (s11 t) (t3 t) (t4 t) (t5 t) (t6 t) f fcsr.
(** The registers the handler starts with. *)
Definition set_handler (t : trapframe) (pc ra' sp' x y z : Z) : trapframe :=
  MkTrapframe (kernel_satp t) (kernel_sp t) (kernel_trap t) pc (kernel_hartid t) ra' sp' (gp t) (tp t) (t0 t) (t1 t) (t2 t) (s0 t) (s1 t)
    x y z (a3 t) (a4 t) (a5 t) (a6 t) (a7 t) (s2 t) (s3 t) (s4 t) (s5 t) (s6 t) (s7 t) (s8 t) (s9 t) (s10 t) (s11 t) (t3 t) (t4 t) (t5 t) (t6 t) (tf_f t) (tf_fcsr t).
Definition set_call (t : trapframe) (pc x : Z) : trapframe := set_handler t pc (ra t) (sp t) x (a1 t) (a2 t).

(** ** The alternate stack *)

Record linux_sigaltstack := MkStack { st_sp : Z; st_flags : Z; st_size : Z }.
Definition signal_on_altstack (t : sthread) (stack_pointer : Z) : bool :=
  if truth (Z.land (altstack_flags t) LINUX_SS_DISABLE) then false else
  let end_ := altstack_sp t +64 altstack_size t in
  (altstack_sp t <=? end_) && (altstack_sp t <=? stack_pointer) && (stack_pointer <? end_).
Definition signal_altstack_save (t : sthread) (stack_pointer : Z) : linux_sigaltstack :=
  MkStack (altstack_sp t) (if signal_on_altstack t stack_pointer then Z.lor (altstack_flags t) LINUX_SS_ONSTACK else altstack_flags t) (altstack_size t).
(** The flags are the bits of an [int32], hence unsigned here. *)
Definition signal_altstack_restore (t : sthread) (stack : linux_sigaltstack) : option sthread :=
  let flags := Z.land (st_flags stack) (Z.lnot LINUX_SS_ONSTACK) in
  if flags =? LINUX_SS_DISABLE then Some (set_altstack t 0 0 LINUX_SS_DISABLE) else
  if truth (Z.land flags (Z.lnot LINUX_SS_AUTODISARM)) || (st_size stack <? SIGNAL_ALTSTACK_MIN) || (MAXVA <=? st_sp stack) || (MAXVA - st_sp stack <? st_size stack) then None else
  Some (set_altstack t (st_sp stack) (st_size stack) flags).
(** The thread, the result and the old stack. *)
Definition sys_linux_sigaltstack (t : sthread) (stack_pointer : Z) (requested : user_arg linux_sigaltstack) (old_ok : bool) : sthread * Z * option linux_sigaltstack :=
  let old := signal_altstack_save t stack_pointer in
  let finish t := (t, if old_ok then 0 else - LINUX_EFAULT, Some old) in
  match requested with
  | BadArg => (t, - LINUX_EFAULT, None)
  | NoArg => finish t
  | Arg r =>
      if signal_on_altstack t stack_pointer then (t, - LINUX_EPERM, None) else
      if st_flags r =? LINUX_SS_DISABLE then finish (set_altstack t 0 0 LINUX_SS_DISABLE) else
      if truth (Z.land (st_flags r) (Z.lnot LINUX_SS_AUTODISARM)) then (t, - LINUX_EINVAL, None) else
      if st_size r <? SIGNAL_ALTSTACK_MIN then (t, - LINUX_ENOMEM, None) else
      if (MAXVA <=? st_sp r) || (MAXVA - st_sp r <? st_size r) then (t, - LINUX_EINVAL, None) else
      finish (set_altstack t (st_sp r) (st_size r) (st_flags r))
  end.

(** ** The bytes of a frame *)

(** A little-endian number of [n] bytes, and a structure as the sequence of its fields. *)
Fixpoint le (n : nat) (x : Z) : list Z := match n with O => [] | S n => x mod 256 :: le n (x / 256) end.
Fixpoint unle (l : list Z) : Z := match l with [] => 0 | b :: l => b + 256 * unle l end.
Fixpoint pack (widths : list nat) (values : list Z) : list Z :=
  match widths, values with w :: widths, x :: values => le w x ++ pack widths values | _, _ => [] end.
Fixpoint unpack (widths : list nat) (l : list Z) : list Z :=
  match widths with [] => [] | w :: widths => unle (take w l) :: unpack widths (drop w l) end.

(** [struct linux_siginfo]: four words and 112 bytes of fields. *)
Definition siginfo_fields (i : signal_info) : list Z :=
  if (i_code i =? LINUX_SI_USER) || (i_code i =? LINUX_SI_TKILL) then le 4 (i_sender_pid i) ++ le 4 (i_sender_uid i) ++ replicate 104 0
  else if i_signal i =? LINUX_SIGCHLD then le 4 (i_sender_pid i) ++ le 4 (i_sender_uid i) ++ le 4 (i_status i) ++ replicate 100 0
  else le 8 (i_address i) ++ replicate 104 0.
Definition signal_info_export (i : signal_info) : list Z := [i_signal i; i_error i; i_code i; 0] ++ siginfo_fields i.
Definition siginfo_widths : list nat := replicate 4 4%nat ++ replicate 112 1%nat.

(** [struct linux_ucontext]: flags, link, the stack, the mask, padding up to the
    registers, the floating-point registers and the words that end them. *)
Record linux_ucontext := MkContext { uc_stack : linux_sigaltstack; uc_mask : Z; uc_regs : list Z; uc_f : list Z; uc_fcsr : Z; uc_reserved : Z; uc_magic : Z; uc_size : Z }.
Definition ucontext_widths : list nat := [8; 8; 8; 4; 4; 8; 8]%nat ++ replicate 128 1%nat ++ replicate 64 8%nat ++ [4%nat] ++ replicate 256 1%nat ++ [4; 4; 4]%nat.
Definition ucontext_values (c : linux_ucontext) : list Z :=
  [0; 0; st_sp (uc_stack c); st_flags (uc_stack c); 0; st_size (uc_stack c); uc_mask c] ++ replicate 128 0 ++ uc_regs c ++ uc_f c ++ [uc_fcsr c] ++ replicate 256 0 ++ [uc_reserved c; uc_magic c; uc_size c].
Definition value (l : list Z) (k : nat) : Z := nth k l 0.
Definition ucontext_of (l : list Z) : linux_ucontext :=
  MkContext (MkStack (value l 2) (value l 3) (value l 5)) (value l 6) (take 32 (drop 135 l)) (take 32 (drop 167 l)) (value l 199) (value l 456) (value l 457) (value l 458).
Definition frame_bytes (i : signal_info) (c : linux_ucontext) : list Z := pack siginfo_widths (signal_info_export i) ++ pack ucontext_widths (ucontext_values c).
Definition frame_of (l : list Z) : linux_ucontext := ucontext_of (unpack ucontext_widths (drop (Z.to_nat frame_context) l)).

(** ** Setting up and returning *)

(** User memory: [copyout] and [copyin] of arch/riscv/vm.c for the page table of the process. *)
Class FrameMemory (U : Type) := {
  fm_copyout : U -> Z -> list Z -> outcome (Z * U);
  fm_copyin : U -> Z -> Z -> outcome (Z * U * list Z)
}.

Section frames.
  Context {U : Type} {FM : FrameMemory U}.
  Implicit Types (u : U) (t : sthread) (r : trapframe).

(** The stack pointer a frame is placed below, and whether that is the alternate stack. *)
Definition frame_stack t r (a : process_signal_action) : Z * bool :=
  if truth (Z.land (a_flags a) LINUX_SA_ONSTACK) && negb (truth (Z.land (altstack_flags t) LINUX_SS_DISABLE)) && negb (signal_on_altstack t (sp r))
  then (altstack_sp t +64 altstack_size t, true) else (sp r, false).
Definition frame_address (stack_pointer : Z) : Z := Z.land (stack_pointer - sizeof_frame) (Z.lnot 15).
Definition saved_context t r (old_mask : Z) : linux_ucontext :=
  MkContext (signal_altstack_save t (sp r)) old_mask (signal_regs_save r) (tf_f r) (wrap32 (tf_fcsr r)) 0 0 0.
Definition signal_frame_setup t r u (information : signal_info) (a : process_signal_action) (old_mask : Z) : outcome (Z * sthread * trapframe * U) :=
  let '(stack_pointer, use_altstack) := frame_stack t r a in
  if stack_pointer <? sizeof_frame then Ret (-1, t, r, u) else
  let address := frame_address stack_pointer in
  if MAXVA <=? address then Ret (-1, t, r, u) else
  '(rc, u) ← fm_copyout u address (frame_bytes information (saved_context t r old_mask));
  if rc <? 0 then Ret (-1, t, r, u) else
  let t := if use_altstack && truth (Z.land (altstack_flags t) LINUX_SS_AUTODISARM) then set_altstack t 0 0 LINUX_SS_DISABLE else t in
  Ret (0, t, set_handler r (handler a) USER_SIGRETURN address (i_signal information) address (address +64 frame_context), u).

(** A system call that a signal interrupted: the flag, its first argument and the
    futex restart of the thread. *)
Definition signal_restart_syscall r (syscall_restart : bool) (syscall_a0 : Z) (f : futex_restart) (restart through_handler : bool) : trapframe * bool * futex_restart :=
  if negb syscall_restart then (r, syscall_restart, f) else
  if negb restart then (set_call r (epc r) (wrap64 (- LINUX_EINTR)), false, futex_restart_cancel) else
  (set_call r (epc r -64 4) syscall_a0, false, futex_restart_signal f through_handler).

(** The registers, the process, the futex restart and the result; a frame that
    cannot be used is a fault of the thread. *)
Definition sys_linux_rt_sigreturn (p : sprocess) (i : nat) r u (f : futex_restart) (room : bool) : outcome (sprocess * trapframe * U * futex_restart * Z) :=
  let address := sp r in
  let refuse p u := p ← signal_force_fault p i LINUX_SIGSEGV LINUX_SEGV_MAPERR address room; Ret (p, r, u, f, 0) in
  if truth (Z.land address 15) || (MAXVA <=? address) || (MAXVA - address <? sizeof_frame) then refuse p u else
  '(rc, u, bytes) ← fm_copyin u address sizeof_frame;
  if rc <? 0 then refuse p u else
  let c := frame_of bytes in
  if truth (uc_reserved c) || truth (uc_magic c) || truth (uc_size c) || (MAXVA <=? value (uc_regs c) 0) || (MAXVA <=? value (uc_regs c) 2) then refuse p u else
  t ← thread_of p i;
  match signal_altstack_restore t (uc_stack c) with
  | None => refuse p u
  | Some t =>
      r ← signal_regs_restore r (uc_regs c);
      let r := set_fp r (uc_f c) (uc_fcsr c) in
      p ← sigreturn_mask (put_sthread p i t) i (uc_mask c);
      Ret (p, r, u, futex_restart_sigreturn f (epc r) (a7 r) (a0 r), a0 r)
  end.
End frames.
