(* ===== verification/SignalFrameCorrect.v ===== *)
(** * Signals: frames are read back as they were written *)
From S2P Require Import Prelude Vma Scheduler Vm VmSpace VmMap VmAlloc VmAccess VmCopy VmTheorems Signal SignalInv SignalTargets SignalOps SignalSteps SignalTheorems Ktime Futex SignalFrame.

(** ** Numbers and structures in memory *)

Lemma length_le n x : length (le n x) = n.
Proof. revert x. induction n; intros x; cbn; [done|]. by rewrite IHn. Qed.
Lemma unle_le n x : 0 <= x < 256 ^ Z.of_nat n -> unle (le n x) = x.
Proof.
  revert x. induction n as [|n IH]; intros x Hx; [cbn in *; lia|]. cbn [le unle]. rewrite Nat2Z.inj_succ, Z.pow_succ_r in Hx by lia.
  rewrite IH; [|split; [apply Z.div_pos; lia|apply Z.div_lt_upper_bound; lia]]. rewrite (Z.div_mod x 256) at 3 by lia. lia.
Qed.
Definition fits (w : nat) (x : Z) : Prop := 0 <= x < 256 ^ Z.of_nat w.
Lemma length_pack ws : forall xs, length ws = length xs -> length (pack ws xs) = sum_list ws.
Proof. induction ws as [|w ws IH]; intros [|x xs] H; try done. cbn. rewrite length_app, length_le, IH by (cbn in H; lia). done. Qed.
Lemma unpack_pack ws : forall xs, Forall2 fits ws xs -> unpack ws (pack ws xs) = xs.
Proof.
  induction ws as [|w ws IH]; intros xs H; inversion H as [|? x ? xs' Hx Hxs]; subst; [done|]. cbn [pack unpack].
  rewrite take_app_length', drop_app_length' by (by rewrite length_le). by rewrite unle_le, IH.
Qed.
Lemma fits_u64 x : is_u64 x -> fits 8 x.
Proof. unfold is_u64, fits. change (256 ^ Z.of_nat 8) with (2 ^ 64). done. Qed.
Lemma fits_u32 x : is_u32 x -> fits 4 x.
Proof. unfold is_u32, fits. change (256 ^ Z.of_nat 4) with (2 ^ 32). done. Qed.
Lemma fits_zeros n : Forall2 fits (replicate n 1%nat) (replicate n 0).
Proof. induction n; cbn; constructor; [|done]. unfold fits. lia. Qed.
Lemma fits_words n l : length l = n -> Forall is_u64 l -> Forall2 fits (replicate n 8%nat) l.
Proof. intros <-. induction 1; cbn; constructor; [by apply fits_u64|done]. Qed.

Lemma value_app pre l k : (length pre <= k)%nat -> value (pre ++ l) k = value l (k - length pre).
Proof. apply app_nth2. Qed.

(** ** Contexts *)

Definition context_ok (c : linux_ucontext) : Prop :=
  is_u64 (st_sp (uc_stack c)) /\ is_u32 (st_flags (uc_stack c)) /\ is_u64 (st_size (uc_stack c)) /\ is_u64 (uc_mask c) /\
  (length (uc_regs c) = 32%nat /\ Forall is_u64 (uc_regs c)) /\ (length (uc_f c) = 32%nat /\ Forall is_u64 (uc_f c)) /\
  is_u32 (uc_fcsr c) /\ is_u32 (uc_reserved c) /\ is_u32 (uc_magic c) /\ is_u32 (uc_size c).

Lemma context_fits c : context_ok c -> Forall2 fits ucontext_widths (ucontext_values c).
Proof.
  intros (H1 & H2 & H3 & H4 & [H5 H5'] & [H6 H6'] & H7 & H8 & H9 & H10). unfold ucontext_widths, ucontext_values.
  assert (fits 8 0 /\ fits 4 0) as [Z8 Z4] by (unfold fits; lia).
  apply Forall2_app; [repeat (constructor; [first [assumption|by apply fits_u64|by apply fits_u32]|]); constructor|].
  apply Forall2_app; [apply fits_zeros|]. change (replicate 64 8%nat) with (replicate 32 8%nat ++ replicate 32 8%nat). rewrite <-app_assoc.
  apply Forall2_app; [by apply fits_words|]. apply Forall2_app; [by apply fits_words|]. apply Forall2_app; [constructor; [by apply fits_u32|constructor]|].
  apply Forall2_app; [apply fits_zeros|]. repeat (constructor; [by apply fits_u32|]). constructor.
Qed.
Lemma context_values c : context_ok c -> ucontext_of (ucontext_values c) = c.
Proof.
  intros (_ & _ & _ & _ & [H5 _] & [H6 _] & _). unfold ucontext_of, ucontext_values.
  set (pre := [0; 0; st_sp (uc_stack c); st_flags (uc_stack c); 0; st_size (uc_stack c); uc_mask c]). rewrite app_assoc. set (pad := pre ++ replicate 128 0).
  assert (Hpad : length pad = 135%nat) by done.
  assert (Hin : forall l k, (k < 7)%nat -> value (pad ++ l) k = value pre k) by (intros l k Hk; unfold value, pad; rewrite app_nth1, app_nth1 by (rewrite ?Hpad; cbn; lia); done).
  assert (Hval : forall l k, value (pad ++ uc_regs c ++ uc_f c ++ l) (199 + k) = value l k).
  { intros l k. rewrite (value_app pad), (value_app (uc_regs c)), (value_app (uc_f c)) by lia. f_equal. lia. }
  rewrite !Hin by lia. rewrite (Hval _ 0%nat), (Hval _ 257%nat), (Hval _ 258%nat), (Hval _ 259%nat).
  rewrite drop_app_length' by done. rewrite take_app_length' by done.
  replace 167%nat with (135 + 32)%nat by done. rewrite <-drop_drop, drop_app_length' by done. rewrite drop_app_length' by done. rewrite take_app_length' by done.
  by destruct c as [[] ? ? ? ? ? ? ?].
Qed.

Lemma length_siginfo i : length (signal_info_export i) = 116%nat.
Proof. unfold signal_info_export, siginfo_fields. rewrite length_app. repeat case_if; rewrite !length_app, !length_le, length_replicate; done. Qed.
Lemma frame_of_bytes i c : context_ok c -> length (frame_bytes i c) = 1088%nat /\ frame_of (frame_bytes i c) = c.
Proof.
  intros Hc. assert (Hi : length (pack siginfo_widths (signal_info_export i)) = 128%nat) by (rewrite length_pack; [done|by rewrite length_siginfo]).
  unfold frame_bytes, frame_of. split.
  - rewrite length_app, Hi, length_pack; [done|]. apply (Forall2_length _ _ _ (context_fits c Hc)).
  - change (Z.to_nat frame_context) with 128%nat. rewrite <-Hi at 1. rewrite drop_app_length, unpack_pack by by apply context_fits. by apply context_values.
Qed.

(** ** Alternate stacks *)

Definition altstack_ok (t : sthread) : Prop :=
  (altstack_flags t = LINUX_SS_DISABLE /\ altstack_sp t = 0 /\ altstack_size t = 0) \/
  ((altstack_flags t = 0 \/ altstack_flags t = LINUX_SS_AUTODISARM) /\ SIGNAL_ALTSTACK_MIN <= altstack_size t /\ 0 <= altstack_sp t < MAXVA /\ altstack_size t <= MAXVA - altstack_sp t).

Lemma altstack_flag_cases f : is_u32 f -> Z.land f (Z.lnot LINUX_SS_AUTODISARM) = 0 -> f = 0 \/ f = LINUX_SS_AUTODISARM.
Proof.
  intros Hf H. assert (Hb : forall n, 0 <= n -> Z.testbit f n = true -> n = 31).
  { intros n Hn Hb. destruct (decide (n = 31)); [done|]. exfalso. apply (f_equal (fun x => Z.testbit x n)) in H. rewrite Z.land_spec, Z.lnot_spec, Z.bits_0, Hb in H by done.
    change LINUX_SS_AUTODISARM with (2 ^ 31) in H. by rewrite Z.pow2_bits_false in H by congruence. }
  destruct (Z.testbit f 31) eqn:E; [right|left]; apply Z.bits_inj'; intros n Hn.
  - change LINUX_SS_AUTODISARM with (2 ^ 31). rewrite Z.pow2_bits_eqb by lia. destruct (Z.eqb_spec 31 n) as [<-|]; [done|]. destruct (Z.testbit f n) eqn:En; [|done]. by apply Hb in En.
  - rewrite Z.bits_0. destruct (Z.testbit f n) eqn:En; [|done]. pose proof (Hb n Hn En). subst n. congruence.
Qed.
Lemma altstack_restore_ok t stack t' : is_u32 (st_flags stack) -> 0 <= st_sp stack -> signal_altstack_restore t stack = Some t' -> altstack_ok t'.
Proof.
  intros Hf H0. unfold signal_altstack_restore. case_if; [intros [= <-]; by left|]. case_if; [done|]. intros [= <-]. right. bool_to_prop. cbn.
  split; [|lia]. apply altstack_flag_cases.
  - unfold is_u32 in *. split; [apply Z.land_nonneg; lia|]. eapply Z.le_lt_trans; [|apply Hf]. apply Z.ldiff_le; [lia|].
    apply Z.bits_inj'. intros n Hn. rewrite Z.ldiff_spec, Z.land_spec, Z.bits_0. by destruct (Z.testbit (st_flags stack) n); rewrite ?andb_false_r.
  - match goal with H : truth _ = false |- _ => unfold truth in H; apply negb_false_iff, Z.eqb_eq in H; exact H end.
Qed.
Lemma altstack_save_restore t t1 pointer : altstack_ok t ->
  signal_altstack_restore t1 (signal_altstack_save t pointer) = Some (set_altstack t1 (altstack_sp t) (altstack_size t) (altstack_flags t)) /\ is_u32 (st_flags (signal_altstack_save t pointer)).
Proof.
  intros H. unfold signal_altstack_restore, signal_altstack_save, signal_on_altstack. cbn [st_sp st_flags st_size].
  destruct H as [(E1 & E2 & E3)|([E1|E1] & H2 & H3 & H4)]; rewrite E1.
  - by rewrite E2, E3.
  - change (truth (Z.land 0 LINUX_SS_DISABLE)) with false. cbv iota. rewrite (proj2 (Z.ltb_ge (altstack_size t) SIGNAL_ALTSTACK_MIN)), (proj2 (Z.leb_gt MAXVA (altstack_sp t))), (proj2 (Z.ltb_ge (MAXVA - altstack_sp t) (altstack_size t))) by lia.
    by destruct (_ && _ && _).
  - change (truth (Z.land LINUX_SS_AUTODISARM LINUX_SS_DISABLE)) with false. cbv iota. rewrite (proj2 (Z.ltb_ge (altstack_size t) SIGNAL_ALTSTACK_MIN)), (proj2 (Z.leb_gt MAXVA (altstack_sp t))), (proj2 (Z.ltb_ge (MAXVA - altstack_sp t) (altstack_size t))) by lia.
    by destruct (_ && _ && _).
Qed.
Lemma frame_address_spec pointer : sizeof_frame <= pointer -> frame_address pointer mod 16 = 0 /\ pointer - sizeof_frame - 15 <= frame_address pointer <= pointer - sizeof_frame /\ 0 <= frame_address pointer.
Proof.
  intros H. unfold frame_address, sizeof_frame in *. change (Z.lnot 15) with (Z.lnot (Z.ones 4)). rewrite land_lnot_ones by lia. change (2 ^ 4) with 16. Z.div_mod_to_equations. lia.
Qed.

(** ** Through memory and back *)

(** What frames need of user memory: in a range that is ready, [copyin] finds the
    bytes that [copyout] put there. *)
Class FrameMemoryLaws (U : Type) {FM : FrameMemory U} := {
  fm_ready : U -> Z -> Z -> Prop;
  fm_roundtrip u a bs : fm_ready u a (Z.of_nat (length bs)) ->
    exists u1 u2, fm_copyout u a bs = Ret (0, u1) /\ fm_copyin u1 a (Z.of_nat (length bs)) = Ret (0, u2, bs)
}.

(** The registers of a thread in user mode. *)
Definition regs_ok (r : trapframe) : Prop :=
  Forall is_u64 (signal_regs_save r) /\ (length (tf_f r) = 32%nat /\ Forall is_u64 (tf_f r)) /\ is_u32 (tf_fcsr r) /\ epc r < MAXVA /\ sp r < MAXVA.
Lemma saved_context_ok t r m : altstack_ok t -> regs_ok r -> is_u64 m -> context_ok (saved_context t r m).
Proof.
  intros Ha (H1 & [H2 H3] & H4 & _) Hm. destruct (altstack_save_restore t t (sp r) Ha) as [_ Hf]. unfold context_ok, saved_context. cbn [uc_stack uc_mask uc_regs uc_f uc_fcsr uc_reserved uc_magic uc_size].
  assert (is_u64 (altstack_sp t) /\ is_u64 (altstack_size t)) as [H5 H6].
  { unfold is_u64. change MAXVA with (2 ^ 38) in *. destruct Ha as [(_ & -> & ->)|(_ & ? & ? & ?)]; [lia|]. change MAXVA with (2 ^ 38) in *. unfold SIGNAL_ALTSTACK_MIN in *. lia. }
  unfold wrap32. split_and!; try done. all: apply Z.mod_pos_bound; lia.
Qed.

Lemma sanitize_id m : mask_ok m -> signal_mask_sanitize m = m.
Proof.
  intros (_ & M1 & M2). unfold signal_mask_sanitize. apply Z.bits_inj'. intros n Hn. rewrite Z.land_spec, Z.lnot_spec by done. unfold holds in M1, M2.
  destruct (Z.testbit SIGNAL_UNMASKABLE n) eqn:E; [|by rewrite andb_true_r]. unfold SIGNAL_UNMASKABLE, SIGNAL_BIT in E.
  rewrite Z.lor_spec, !Z.shiftl_1_l, !Z.pow2_bits_eqb, orb_true_iff, !Z.eqb_eq in E by (unfold LINUX_SIGKILL, LINUX_SIGSTOP; lia).
  destruct E as [<-|<-]; [by rewrite M1|by rewrite M2].
Qed.

Section roundtrip.
  Context {U : Type} {FM : FrameMemory U} {FL : FrameMemoryLaws U}.

(** The return from a handler that left its frame alone. *)
Lemma sigreturn_restores p i t r m u1 u2 info r2 t1 f room : signals_ok p -> p_threads p !! i = Some (Some t1) -> altstack_ok t -> regs_ok r -> mask_ok m ->
  sp r2 mod 16 = 0 -> 0 <= sp r2 -> sp r2 + sizeof_frame <= MAXVA -> fm_copyin u1 (sp r2) sizeof_frame = Ret (0, u2, frame_bytes info (saved_context t r m)) ->
  exists p2 r3 f2 t3, sys_linux_rt_sigreturn p i r2 u1 f room = Ret (p2, r3, u2, f2, a0 r) /\ signal_regs_save r3 = signal_regs_save r /\ tf_f r3 = tf_f r /\ tf_fcsr r3 = tf_fcsr r /\
    signals_ok p2 /\ p_threads p2 !! i = Some (Some t3) /\ signal_mask t3 = m /\ signal_restore_mask t3 = false /\
    altstack_sp t3 = altstack_sp t /\ altstack_size t3 = altstack_size t /\ altstack_flags t3 = altstack_flags t.
Proof.
  intros Hp Hi Ha Hr Hm Hal H0 Hmax Hin. destruct (frame_of_bytes info _ (saved_context_ok t r m Ha Hr (proj1 Hm))) as [_ Hfr].
  destruct Hr as (H1 & [H2 H3] & H4 & H5 & H6). unfold sys_linux_rt_sigreturn.
  assert (truth (Z.land (sp r2) 15) = false) as ->.
  { unfold truth. change 15 with (Z.ones 4). rewrite Z.land_ones by lia. change (2 ^ 4) with 16. by rewrite Hal. }
  rewrite (proj2 (Z.leb_gt MAXVA (sp r2))), (proj2 (Z.ltb_ge (MAXVA - sp r2) sizeof_frame)) by (unfold sizeof_frame in *; lia). cbn [orb]. rewrite Hin. cbn [mbind outcome_bind].
  change (0 <? 0) with false. cbv iota. rewrite Hfr. unfold saved_context. cbn [uc_stack uc_mask uc_regs uc_f uc_fcsr uc_reserved uc_magic uc_size].
  change (truth 0) with false. change (value (signal_regs_save r) 0) with (epc r). change (value (signal_regs_save r) 2) with (sp r).
  rewrite (proj2 (Z.leb_gt MAXVA (epc r))), (proj2 (Z.leb_gt MAXVA (sp r))) by done. cbn [orb]. rewrite (thread_of_Ret _ _ _ Hi). cbn [mbind outcome_bind].
  rewrite (proj1 (altstack_save_restore t t1 (sp r) Ha)). cbn [signal_regs_restore signal_regs_save mbind outcome_bind].
  set (t2 := set_altstack t1 _ _ _). pose proof (lookup_lt_Some _ _ _ Hi) as Hlt. destruct (thread_ok_of p i t1 Hp Hi) as (P1 & P2 & P3).
  assert (Hp2 : signals_ok (put_sthread p i t2)) by (apply (signals_ok_put p i t1); [done..|by split|done]).
  assert (Hi2 : p_threads (put_sthread p i t2) !! i = Some (Some t2)) by (rewrite put_sthread_lookup, decide_True by done; done).
  unfold sigreturn_mask. rewrite (thread_of_Ret _ _ _ Hi2). cbn [mbind outcome_bind].
  rewrite sanitize_id by done. destruct (mask_update _ i t2 (set_mask t2 m (signal_saved_mask t2) false) Hp2 Hi2) as (p2 & -> & Hq & Hok & _); [split; [exact P1|split; [exact Hm|exact P3]]|done|]. cbn [mbind outcome_bind].
  destruct (quiet_lookup _ p2 i (set_mask t2 m (signal_saved_mask t2) false) (eq_sym Hq)) as (t3 & Ht3 & He); [rewrite put_sthread_lookup, decide_True by (rewrite ?length_insert; cbn; rewrite ?length_insert; done); done|].
  apply erase_fields in He as (_ & E1 & _ & _ & E2 & E3 & E4 & E5).
  eexists p2, _, _, t3. split; [done|]. split; [done|]. split; [done|]. split; [cbn; unfold wrap32; apply Z.mod_small, H4|]. by rewrite E1, E2, E3, E4, E5.
Qed.

(** C14: A signal handler leaves no trace.  When the frame of a signal fits on the
    stack it is put on, in memory that can be read back, [signal_frame_setup]
    starts the handler with the frame's address in its stack pointer; and when
    the handler returns with that stack pointer, whatever else it did to the
    registers, the mask and the alternate stack, [sys_linux_rt_sigreturn] gives
    the thread its registers, floating-point state, signal mask and alternate
    stack back and returns the value of [a0]. *)
Theorem signal_frame_roundtrip t r u info a m :
  altstack_ok t -> regs_ok r -> mask_ok m -> sizeof_frame <= (frame_stack t r a).1 -> frame_address (frame_stack t r a).1 + sizeof_frame <= MAXVA ->
  fm_ready u (frame_address (frame_stack t r a).1) sizeof_frame ->
  exists t' r' u1, signal_frame_setup t r u info a m = Ret (0, t', r', u1) /\
    epc r' = handler a /\ ra r' = USER_SIGRETURN /\ sp r' = frame_address (frame_stack t r a).1 /\ sp r' mod 16 = 0 /\ a0 r' = i_signal info /\
    forall p i t1 r2 f room, signals_ok p -> p_threads p !! i = Some (Some t1) -> sp r2 = sp r' ->
      exists p2 r3 u2 f2 t3, sys_linux_rt_sigreturn p i r2 u1 f room = Ret (p2, r3, u2, f2, a0 r) /\
        signal_regs_save r3 = signal_regs_save r /\ tf_f r3 = tf_f r /\ tf_fcsr r3 = tf_fcsr r /\
        signals_ok p2 /\ p_threads p2 !! i = Some (Some t3) /\ signal_mask t3 = m /\ signal_restore_mask t3 = false /\
        altstack_sp t3 = altstack_sp t /\ altstack_size t3 = altstack_size t /\ altstack_flags t3 = altstack_flags t.
Proof.
  intros Ha Hr Hm Hsz Hmax Hrdy. unfold signal_frame_setup. destruct (frame_stack t r a) as [pointer alt]. cbn [fst] in *.
  destruct (frame_address_spec pointer Hsz) as (A1 & A2 & A3). rewrite (proj2 (Z.ltb_ge pointer sizeof_frame)) by done. cbv zeta.
  rewrite (proj2 (Z.leb_gt MAXVA (frame_address pointer))) by (unfold sizeof_frame in *; lia).
  destruct (frame_of_bytes info _ (saved_context_ok t r m Ha Hr (proj1 Hm))) as [Hlen _].
  destruct (fm_roundtrip u (frame_address pointer) (frame_bytes info (saved_context t r m))) as (u1 & u2 & -> & Hin); [by rewrite Hlen|]. cbn [mbind outcome_bind].
  change (0 <? 0) with false. cbv iota. rewrite Hlen in Hin. eexists _, _, u1. split; [done|]. cbn [epc ra sp a0 set_handler]. do 5 (split; [done|]).
  intros p i t1 r2 f room Hp Hi Hsp. destruct (sigreturn_restores p i t r m u1 u2 info r2 t1 f room Hp Hi Ha Hr Hm) as (p2 & r3 & f2 & t3 & H); [by rewrite Hsp..|]. by exists p2, r3, u2, f2, t3.
Qed.
End roundtrip.

(** A frame on the alternate stack stays inside it, and is aligned to 16
    bytes: an alternate stack that the kernel accepted is always large enough. *)
Theorem signal_frame_on_altstack t r a :
  altstack_ok t -> (frame_stack t r a).2 = true ->
  let address := frame_address (frame_stack t r a).1 in
  altstack_sp t <= address /\ address + sizeof_frame <= altstack_sp t + altstack_size t /\ address mod 16 = 0 /\ address < MAXVA.
Proof.
  intros Ha Halt. unfold frame_stack in *. destruct (truth (Z.land (altstack_flags t) LINUX_SS_DISABLE)) eqn:Ed; [by rewrite andb_false_r in *|].
  destruct (truth (Z.land (a_flags a) LINUX_SA_ONSTACK) && negb false && negb (signal_on_altstack t (sp r))); [|done]. cbn [fst].
  destruct Ha as [(E & _)|(_ & H1 & H2 & H3)]; [by rewrite E in Ed|]. unfold SIGNAL_ALTSTACK_MIN in *. change MAXVA with (2 ^ 38) in *.
  rewrite wrap64_id by (unfold is_u64; lia). destruct (frame_address_spec (altstack_sp t + altstack_size t)) as (A1 & A2 & A3); unfold sizeof_frame in *; lia.
Qed.

(** [sigaltstack] and [sigreturn] accept only alternate stacks that lie in
    the user's address space with the minimum size, or none. *)
Theorem sigaltstack_keeps_stack_ok t pointer requested old_ok stack :
  altstack_ok t -> is_u32 (st_flags stack) -> 0 <= st_sp stack -> match requested with Arg r => is_u32 (st_flags r) /\ 0 <= st_sp r | _ => True end ->
  altstack_ok (sys_linux_sigaltstack t pointer requested old_ok).1.1 /\ forall t', signal_altstack_restore t stack = Some t' -> altstack_ok t'.
Proof.
  intros Ha Hf H0 Hr. split; [|intros t'; by apply altstack_restore_ok]. unfold sys_linux_sigaltstack. destruct requested as [| |r]; [done|done|]. destruct Hr as [Hrf Hr0].
  case_if; [done|]. case_if; [by left|]. case_if; [done|]. case_if; [done|]. case_if; [done|]. bool_to_prop. right. cbn.
  split; [|unfold SIGNAL_ALTSTACK_MIN in *; lia]. apply altstack_flag_cases; [done|]. match goal with H : truth _ = false |- _ => unfold truth in H; apply negb_false_iff, Z.eqb_eq in H; exact H end.
Qed.

(** * Signals: frames in the memory of a process

    The copy routines of arch/riscv/vm.c are the memory that signal frames need,
    and an example of a frame set up and returned from. *)

Section memory.
  Context {St : Type} {FS : Frames St} {FL : FramesLaws St}.
  Variable (handle : vm St -> Z -> Z -> bool -> outcome (vm St * bool)) (pgdir : Z).

Definition vm_frames : FrameMemory (vm St) := {|
  fm_copyout V a bs := copyout handle 1 V pgdir a bs;
  fm_copyin V a n := copyin handle 1 V pgdir a n
|}.

(** A range whose pages can be read and written, each byte at an address of its own. *)
Definition range_ready (V : vm St) (a n : Z) : Prop :=
  0 <= a /\ a + n <= USER_SIGRETURN /\ exists D M o, aspace V pgdir D M o /\ unsaturated D M o /\
    (forall i, 0 <= i < n -> exists pa, translate M PTE_W (a + i) = Some pa /\ translate M PTE_R (a + i) = Some pa) /\
    (forall i j, 0 <= i < n -> 0 <= j < n -> translate M PTE_W (a + i) = translate M PTE_W (a + j) -> i = j).

Lemma vm_frames_roundtrip V a bs : range_ready V a (Z.of_nat (length bs)) ->
  exists V1 V2, copyout handle 1 V pgdir a bs = Ret (0, V1) /\ copyin handle 1 V1 pgdir a (Z.of_nat (length bs)) = Ret (0, V2, bs).
Proof.
  intros (H0 & H1 & D & M & o & HA & Hun & Ht & Hinj). destruct (copyout_stored handle 0 V pgdir D M o a bs HA H0 H1 Hun Ht Hinj) as (V1 & M1 & E & HA1 & Hun1 & HL).
  destruct (copyin_stored handle 0 V1 pgdir D M1 o a bs HA1 Hun1 H0 H1 HL) as (V2 & E2). by exists V1, V2.
Qed.
Definition vm_frames_laws : @FrameMemoryLaws (vm St) vm_frames := @Build_FrameMemoryLaws _ vm_frames range_ready vm_frames_roundtrip.
End memory.

(** ** An example *)

(** Memory that can be read and written everywhere. *)
#[local] Instance flat : FrameMemory (Z -> Z) := {|
  fm_copyout m a bs := Ret (0, fun b => if (a <=? b) && (b <? a + Z.of_nat (length bs)) then nth (Z.to_nat (b - a)) bs 0 else m b);
  fm_copyin m a n := Ret (0, m, m <$> seqZ a n)
|}.
Lemma flat_roundtrip (m : Z -> Z) a bs : True ->
  exists m1 m2, fm_copyout m a bs = Ret (0, m1) /\ fm_copyin m1 a (Z.of_nat (length bs)) = Ret (0, m2, bs).
Proof.
  intros _. eexists _, _. split; [done|]. cbn. do 2 f_equal. apply list_eq. intros k. rewrite list_lookup_fmap. destruct (bs !! k) as [b|] eqn:Eb.
  - pose proof (lookup_lt_Some _ _ _ Eb) as Hk. rewrite lookup_seqZ_lt by lia. cbn. f_equal.
    rewrite (proj2 (Z.leb_le a (a + Z.of_nat k))), (proj2 (Z.ltb_lt (a + Z.of_nat k) (a + Z.of_nat (length bs)))) by lia. cbn.
    replace (Z.to_nat (a + Z.of_nat k - a)) with k by lia. by apply nth_lookup_Some.
  - apply lookup_ge_None in Eb. by rewrite lookup_seqZ_ge by lia.
Qed.
#[local] Instance flat_laws : FrameMemoryLaws (Z -> Z) := {| fm_ready _ _ _ := True; fm_roundtrip := flat_roundtrip |}.

(** A thread with a stack and an alternate stack that is disarmed when it is used. *)
Definition frame_thread : sthread := set_altstack parent_thread 0x10000 4096 LINUX_SS_AUTODISARM.
Definition frame_regs : trapframe :=
  MkTrapframe 0 0 0 0x1000 0 1 0x20000 2 3 4 5 6 7 8 9 10 11 12 13 14 15 16 17 18 19 20 21 22 23 24 25 26 27 28 29 30 (replicate 32 7) 1.
Definition frame_action : process_signal_action := MkAction 0x3000 LINUX_SA_ONSTACK 0.

Lemma frame_regs_ok : regs_ok frame_regs.
Proof.
  split; [|split; [split; [reflexivity|]|]].
  - repeat (constructor; [unfold is_u64; cbn; lia|]). constructor.
  - apply Forall_replicate. unfold is_u64. lia.
  - unfold is_u32. cbn. change MAXVA with (2 ^ 38). lia.
Qed.
Lemma frame_thread_ok : altstack_ok frame_thread.
Proof. right. cbn. unfold SIGNAL_ALTSTACK_MIN. change MAXVA with (2 ^ 38). split; [by right|lia]. Qed.

Lemma signal_frame_roundtrip_witness :
  exists t' r' u1, signal_frame_setup frame_thread frame_regs (fun _ => 0) no_info frame_action 0 = Ret (0, t', r', u1) /\ epc r' = 0x3000 /\
    exists p2 r3 u2 f2, sys_linux_rt_sigreturn parent_process 0 r' u1 futex_restart_cancel true = Ret (p2, r3, u2, f2, 9) /\ signal_regs_save r3 = signal_regs_save frame_regs.
Proof.
  destruct (signal_frame_roundtrip frame_thread frame_regs (fun _ => 0) no_info frame_action 0 frame_thread_ok frame_regs_ok mask_ok_0) as (t' & r' & u1 & H1 & H2 & _ & _ & _ & _ & H3);
    [vm_compute; discriminate|vm_compute; discriminate|exact I|].
  exists t', r', u1. split; [exact H1|]. split; [exact H2|].
  destruct (H3 parent_process 0%nat parent_thread r' futex_restart_cancel true parent_ok eq_refl eq_refl) as (p2 & r3 & u2 & f2 & t3 & H4 & H5 & _). exists p2, r3, u2, f2. split; [exact H4|exact H5].
Defined.

Lemma signal_frame_on_altstack_witness : let address := frame_address (frame_stack frame_thread frame_regs frame_action).1 in
  0x10000 <= address /\ address + sizeof_frame <= 0x10000 + 4096 /\ address mod 16 = 0 /\ address < MAXVA.
Proof. apply (signal_frame_on_altstack frame_thread frame_regs frame_action frame_thread_ok). vm_compute. reflexivity. Defined.

Lemma sigaltstack_keeps_stack_ok_witness : altstack_ok (sys_linux_sigaltstack parent_thread 0x20000 (Arg (MkStack 0x10000 0 4096)) true).1.1.
Proof.
  refine (proj1 (sigaltstack_keeps_stack_ok parent_thread 0x20000 (Arg (MkStack 0x10000 0 4096)) true (MkStack 0 0 0) _ _ _ _));
    [left; split; [reflexivity|split; reflexivity]|unfold is_u32; cbn; lia|cbn; lia|cbn; unfold is_u32; lia].
Defined.
